(* ===== verification/_CoqProject ===== *)
-Q . S2P
Prelude.v
SessionEsc.v
Dsn.v
Http.v
Fcgi.v
CNum.v
Lexer.v
Ast.v
Parser.v
ParserTotal.v
ParserRoundtrip.v
Crypto.v
WebSocket.v
WsConn.v
Value.v
Bytecode.v
Vm.v
Compiler.v
Interp.v
Engine.v
CompilerStmt.v
InterpStmt.v
EngineStmt.v
VmSafe.v
CompilerSafe.v
Calls.v
CallsFacts.v
CallsSim.v
Sse.v
Json.v
Ssrf.v
HttpClient.v
Resp.v
RespFacts.v
Sessions.v
Web.v
Routes.v
Format.v
Template.v
MailAuth.v
Spf.v
Smtp.v
Dkim.v
DkimFacts.v
Imap.v
ImapFacts.v
