(* ===== verification/Prelude.v ===== *)
(** Verification of the LOOK language runtime (directory cpp/ of the repository).

    LOOK is a scripting language with a web server built in. A script is read
    by a lexer and a parser into a syntax tree; two engines run the tree: a
    tree-walking interpreter, which the code calls the reference, and a
    compiler to the bytecode of a register machine, which the command line and
    the web server use first. Requests reach a program through an HTTP/1.1
    server or a FastCGI connection; sessions, database connections and
    passwords use small pure helpers kept in headers of their own.

    * Files, parts and sources

    - Prelude: byte strings ([bytes], a [list ascii]), the searches of
      [std::string] ([find_str], [find_if], [rfind_if]), [loop] and [run] for
      loops with a measure, [split_on], the [result] type, and the lemmas the
      files share.
    - CNum: [std::stoll], [std::stoull], [std::strtod], 64-bit wrap-around and
      include/look/int_overflow.h. Doubles are [spec_float] (binary64).
    - Lexer: include/look/token.h, include/look/lexer.h, src/lexer.cpp.
    - Ast: include/look/ast.h.
    - Parser: include/look/parser.h, src/parser.cpp; ParserTotal (it always
      comes back) and ParserRoundtrip (precedence and associativity).
    - Value: [class Value] of include/look/interpreter.h with its operators in
      src/interpreter.cpp; module [StringCow] for the shared string buffers.
    - Bytecode: include/look/bytecode.h and, from include/look/compiler.h, the
      checked narrowings and the register allocator.
    - Vm: include/look/vm.h, src/vm.cpp. Compiler: src/compiler.cpp. Interp:
      the environments and [evaluate_expression] of src/interpreter.cpp.
      Engine: the two engines against each other.
    - Http: include/look/http_parse.h. Fcgi: include/look/fcgi_parse.h and the
      connection of src/fcgi_main.cpp.
    - SessionEsc: include/look/session_esc.h. Dsn: include/look/db_dsn.h.
      Crypto: include/look/crypto_sha256.h.
    - WebSocket: src/websocket.cpp (handshake, frame codec, registry). WsConn:
      the connections of src/http_server.cpp ([on_ws_data], [close_ws], the
      origin check), with the system call [send] as a parameter.
    - Sse: src/sse.cpp and the event streams of src/http_server.cpp.
    - CompilerStmt: the statements of src/compiler.cpp (jumps and their patches,
      loop contexts, pending [finally] blocks, whole programs). InterpStmt:
      [execute_statement] of src/interpreter.cpp; the exceptions that move
      control are a type, [completion]. EngineStmt: the simulation of one by the
      other, and small programs on which the engines differ.
    - Calls: the interpreter with environments as shared objects: functions,
      closures, [call_function], interpolated strings, structs and the functions
      of [evaluate_expression] itself. CallsFacts: what a call can change.
      CallsSim: on programs without functions Calls does what InterpStmt does.
    - Json: include/look/json_str_parse.h and the encoder and decoder of
      src/web_stdlib.cpp, on the values and the heap of Value.
    - Ssrf: include/look/ssrf_safe.h. HttpClient: src/http_client.cpp
      (addresses, requests, responses, chunks, redirects), include/look/
      charset.h, url_safe.h and the download loop of src/installer.cpp; the
      transport and the inflate of miniz are parameters.
    - Resp: src/resp_client.cpp and the storage of sessions on it in
      src/web_stdlib.cpp, with the network as a parameter, and a small server to
      try it on; RespFacts: its theorems. Sessions: the script module session of
      src/web_stdlib.cpp over any [Storage], of which Redis is an instance.
    - Web: [struct WebContext], src/web.cpp. Routes: src/route_group.cpp, the
      registration, matching and dispatch of routes in src/http_main.cpp,
      src/vm.cpp and src/interpreter.cpp.
    - Format: src/format_src.cpp.
    - Template: src/template_stdlib.cpp and include/look/html_escape.h; canonical
      paths and the contents of files are what the file system answers.
    - MailAuth: include/look/smtp_parse.h, imap_parse.h, dkim_tag.h, the passwords
      and credentials of src/smtp_server.cpp and the module auth of
      src/extra_stdlib.cpp. Spf: the rest of the checks of a sender. Smtp: the
      session, the connection and the counters of src/smtp_server.cpp, over the
      writes of src/event_loop.cpp.
    - Dkim: src/dkim.cpp and the worker of src/smtp_server.cpp that signs and
      checks; OpenSSL is a parameter. DkimFacts: its theorems.
    - Imap: src/imap_server.cpp, with the files and directories as a state that
      other programs change between the bytes of the client; ImapFacts: its
      theorems.
    - VmSafe: frames, registers and handlers of the machine; CompilerSafe: the
      operands of the code the compiler emits.
    * How state and operations correspond

    A C++ object is a record of its fields; a method is a function from the
    record to a result and the next record, with the method's guards and early
    returns in its order. An exception is a value ([Err] of [result], [Exn] of
    [res], [EErr] of the interpreter, [XErr] and [XThrow] of the machine, each
    with the effects made before it). What C++ leaves undefined (an index
    outside a vector, an out-of-range conversion of a double) is a value of
    its own ([None], [Undef], [XUndef]); a theorem that gives a defined result
    says that it does not happen. A [shared_ptr] that is mutated through its
    copies (arrays, closures, string buffers) is a location of a heap.
    A statement of the code that this development does not translate gives
    [unmodelled], [EExternal] or [XExternal], never a made-up result.

    * What the theorems show

    - Engines (Engine): [vm_refines_interpreter], the bytecode of an expression
      computes what the interpreter computes, or fails with its message, and
      keeps the registers in use; [engines_agree_on_return], whole programs
      [return e;] end alike in both engines; [engines_agree] (EngineStmt), so do
      programs of assignments, conditionals, loops, [return] and [throw], and
      they diverge together. Both are for a fragment, [frag] and [program_frag],
      without arrays, ranges, calls and interpolated strings, with && and || only as
      conditions, without constants that are == and not the same, and with
      blocks that assign only what the top level has assigned before; outside of
      it the engines differ. The simulation is proved once per
      form of expression ([correct_...]) from lemmas on the compiler's methods
      ([..._Ret]) and on single instructions ([step_...]).
    - Registers (Bytecode): no register is handed out twice.
    - Front end: every token has the text and position it covers and every
      source is scanned; printed tokens are scanned back; the parser comes back
      on every token list; printed trees are parsed back.
    - Values: arithmetic is total, typed and exact with promotion to doubles;
      the comparisons are one total preorder; bit operations; in-place append
      is concatenation; printing terminates on acyclic arrays.
    - Protocols and helpers: accepted HTTP requests have one framing only;
      FastCGI parsers stay in their buffers, records are written and read back,
      a request in any chunking is accepted, when no pair of its parameters is
      cut between two records; the session blob is a map; TLS
      decisions, warnings and masking of connection strings; SHA-256, HMAC and
      PBKDF2 against their standards.
    - Functions (CallsFacts): a call changes no variable of the scopes around it
      ([call_changes_no_variable]), a statement writes only up to the nearest
      function boundary ([writes_stay_in_scope]), more fuel gives the same end
      ([more_fuel_same_end]), and a default that calls its own function is never
      stopped ([default_recursion_never_ends]). The stack of scopes of the
      simulation is the shared environments when there are no functions
      ([stack_of_scopes_is_enough]).
    - The machine (VmSafe), for any bytecode with operands in range: registers
      and frames ([registers_in_range]), calls that leave their caller alone
      ([call_returns_to_its_caller]), handlers that stay until they are popped
      and catch when they are on top ([exceptions_reach_their_handler]); the compiler emits such bytecode
      ([compiled_code_in_range]).
    - WebSocket: the frame decoder accepts exactly the legal client frames and
      reads nothing outside its buffer; a connection delivers what its frames
      define however the network cuts them ([ws_stream_refines], for a socket
      that is up), and for any socket and any interleaving calls back at most
      once and does nothing after the descriptor is closed ([ws_lifecycle]).
    - Server-sent events: a browser reads back what was sent ([sse_read_back]); a
      connection is closed once and nothing follows ([sse_lifecycle]).
    - Sessions: the module session is a value for each identifier and key
      ([session_module_refines]); on Redis no answer is taken for another,
      whatever the network loses ([redis_sessions]).
    - Web: both engines choose the same handler and arguments for a request
      whose path has no empty segment ([routes_agree]); a response head cannot be split by what a script puts
      into it; a multipart form is read back; JSON documents are read back,
      and the decoder returns on every text.
    - Outgoing requests: credentials stay with the origin they were meant for
      ([credentials_stay]); chunked bodies are decoded however they are cut;
      the guard blocks exactly the internal addresses ([ssrf_exact]).
    - Formatter: idempotent, and the tokens stay the same.
    - Templates: a value that is not marked as raw reaches the page only through
      the escape.
    - Mail: the server is no open relay ([no_open_relay]), pipelining changes
      nothing while 64 KB are enough for the buffer ([pipelining_transparent]), a body goes through unchanged
      ([body_transparent]), the counters of connections are exact; hashes of
      passwords and AUTH PLAIN are decided exactly; PASS of SPF is founded.
    - DKIM: what the worker signs for a sender of its domain the check accepts
      ([signed_mail_verifies]), and
      a signature is for one body ([signature_binds_body]).
    * Fuel and bounds

    Loops that consume their input use [loop] with the number of characters or
    tokens left, which decreases each turn. The parser's recursion takes one
    level per token ([parse_total] shows that this is enough). [to_string]
    takes a depth, and [to_string_terminates] gives the one that is enough.
    [Vm.run] and [Calls.interpret] have fuel because programs may loop; theorems
    about them produce the fuel, or show that more of it changes nothing.
    Integers are [Z] with the code's wrap-around written out; the positions and
    lengths of arrays in the machine, 32-bit in the code, are not cut. The
    8 and 16 bit operands of the bytecode are checked by [u8] and [u16] as in
    the code.

    * Assumptions

    [Value.Lib] holds the two functions of the C++ library that are not
    defined here, [std::to_chars] of a double and [std::pow]; the theorems
    hold for any. The socket of Fcgi is the list of what [recv] will deliver.

    * Not modelled

    - In the bytecode compiler: calls, closures, function declarations and string
      interpolation; in the virtual machine: native functions and structs. In
      both engines: [use], native modules, threads and channels, request
      isolation. In the dispatch of routes by the interpreter: the connection
      it puts before the arguments of WS and SSE routes.
    - In Imap a directory in the place of a message is never removed; the call
      removes one that is empty.
      [foreach], [switch], [try] and output are translated for both engines but
      not part of the simulation of EngineStmt.
    - The vendored sqlite3, miniz and linenoise.
    - Input and output: the loops of the servers (http_main, http_server,
      cgi_main), the sockets of the IMAP server, sockets and TLS of the clients
      (HTTP, Redis, mail), the protocols of the SQL databases, sessions in files, the RSA and SHA-256 of OpenSSL, delivery to a Maildir, the
      event loop but for its writes, fibers and timers, files, installer (but
      for its redirects), REPL and test runner.
*)

From Stdlib Require Export ZArith NArith Lia Ascii String.
From stdpp Require Export base decidable list option.
From stdpp Require Export strings gmap.
From stdpp Require Import sorting.

#[global] Open Scope Z_scope.

(** * Characters and byte strings

    A [std::string] (and a [std::vector<uint8_t>]) is the list of its bytes;
    the element type has exactly the 256 values of a C++ [char]. *)

Abbreviation bytes := (list ascii).

Declare Scope look_scope.
Delimit Scope look_scope with look.
Open Scope look_scope.

(** A C++ string literal. *)
Notation "'lit' s" := (list_ascii_of_string s%string)
  (at level 9, s at level 0, only parsing) : look_scope.

(** [static_cast<unsigned char>(c)] as an integer, and [(char)z]. *)
Definition ord (c : ascii) : Z := Z.of_N (N_of_ascii c).
Definition chr (z : Z) : ascii := ascii_of_N (Z.to_N (z mod 256)).

(** Equality of characters, the [c == 'x'] of the code. *)
Notation "c =c d" := (Ascii.eqb c d) (at level 70, no associativity) : look_scope.
Fixpoint bytes_eqb (s t : bytes) : bool :=
  match s, t with
  | [], [] => true
  | c :: s', d :: t' => (c =c d) && bytes_eqb s' t'
  | _, _ => false
  end.
Notation "s =s t" := (bytes_eqb s t) (at level 70, no associativity) : look_scope.

Definition NUL : ascii := "000"%char.
Definition TAB : ascii := "009"%char.
Definition LF : ascii := "010"%char.
Definition CR : ascii := "013"%char.
Definition SP : ascii := " "%char.
Definition DQUOTE : ascii := "034"%char.
Definition SQUOTE : ascii := "'"%char.
Definition BACKSLASH : ascii := "092"%char.

Lemma bytes_eqb_eq s t : (s =s t) = true <-> s = t.
Proof.
  revert t. induction s as [|c s IH]; intros [|d t]; simpl; [done..|].
  rewrite andb_true_iff, Ascii.eqb_eq, IH. naive_solver.
Qed.

Lemma bytes_eqb_neq s t : (s =s t) = false <-> s <> t.
Proof. rewrite <- bytes_eqb_eq. by destruct (s =s t). Qed.

Lemma bytes_eqb_refl s : (s =s s) = true.
Proof. by apply bytes_eqb_eq. Qed.

Lemma bytes_eqb_spec s t : reflect (s = t) (s =s t).
Proof. apply iff_reflect. symmetry. apply bytes_eqb_eq. Qed.

Lemma ord_range c : 0 <= ord c < 256.
Proof.
  unfold ord. pose proof (N_ascii_bounded c) as H. lia.
Qed.

Lemma chr_ord c : chr (ord c) = c.
Proof.
  unfold chr. rewrite Z.mod_small by apply ord_range.
  unfold ord. rewrite N2Z.id. apply ascii_N_embedding.
Qed.

Lemma ord_chr z : ord (chr z) = z mod 256.
Proof.
  unfold ord, chr. rewrite N_ascii_embedding.
  - apply Z2N.id. apply Z.mod_pos_bound. lia.
  - pose proof (Z.mod_pos_bound z 256 ltac:(lia)). lia.
Qed.

Lemma ord_chr_small z : 0 <= z < 256 -> ord (chr z) = z.
Proof. intros. rewrite ord_chr. by apply Z.mod_small. Qed.

Lemma ord_inj c d : ord c = ord d -> c = d.
Proof. intros H. by rewrite <- (chr_ord c), H, chr_ord. Qed.

Lemma chr_inj y z : 0 <= y < 256 -> 0 <= z < 256 -> chr y = chr z -> y = z.
Proof. intros Hy Hz H. rewrite <- (ord_chr_small y), <- (ord_chr_small z) by done. by f_equal. Qed.

(** Machine words put together from their bytes: [(a << n) | b]. *)
Lemma lor_shiftl a b n : 0 <= n -> 0 <= b < 2 ^ n -> Z.lor (Z.shiftl a n) b = a * 2 ^ n + b.
Proof.
  intros Hn Hb. rewrite <- Z.shiftl_mul_pow2 by done.
  rewrite <- Z.add_lor_land.
  assert (Z.land (Z.shiftl a n) b = 0) as ->; [|lia].
  apply Z.bits_inj_0. intros i. rewrite Z.land_spec. apply andb_false_iff.
  destruct (Z.lt_ge_cases i n) as [Hi|Hi].
  - left. destruct (Z.lt_ge_cases i 0); [by rewrite Z.testbit_neg_r|].
    by apply Z.shiftl_spec_low.
  - right. rewrite <- (Z.mod_small b (2 ^ n)) by done. by apply Z.mod_pow2_bits_high.
Qed.

(** Every statement about one character that the kernel can evaluate holds
    as soon as it evaluates to [true] on the 256 characters. *)
Definition all_chars (p : ascii -> bool) : bool :=
  forallb p (map (fun n => ascii_of_nat n) (seq 0 256)).

Lemma all_chars_spec p : all_chars p = true -> forall c, p c = true.
Proof.
  unfold all_chars. rewrite forallb_forall. intros H c. apply H.
  apply in_map_iff. exists (nat_of_ascii c). split.
  - apply ascii_nat_embedding.
  - apply in_seq. pose proof (nat_ascii_bounded c). lia.
Qed.

(** [by_chars c]: decide a boolean goal [p c = true] by evaluation. *)
Ltac by_chars c :=
  clear - c; revert c;
  match goal with |- forall c, @eq bool (@?q c) true =>
    exact (all_chars_spec q ltac:(vm_compute; reflexivity)) end.

(** * Character classes of the C locale *)

Definition in_range (lo hi c : Z) : bool := (lo <=? c) && (c <=? hi).
Definition isdigit (c : ascii) : bool := in_range 48 57 (ord c).
Definition isupper (c : ascii) : bool := in_range 65 90 (ord c).
Definition islower (c : ascii) : bool := in_range 97 122 (ord c).
Definition isalpha (c : ascii) : bool := isupper c || islower c.
Definition isalnum (c : ascii) : bool := isalpha c || isdigit c.
Definition isxdigit (c : ascii) : bool :=
  isdigit c || in_range 97 102 (ord c) || in_range 65 70 (ord c).
Definition isspace (c : ascii) : bool := in_range 9 13 (ord c) || (ord c =? 32).
Definition toupper (c : ascii) : ascii := if islower c then chr (ord c - 32) else c.
Definition tolower (c : ascii) : ascii := if isupper c then chr (ord c + 32) else c.

(** * The [std::string] operations the code uses

    [npos] is [None]. *)

Fixpoint find_if (p : ascii -> bool) (s : bytes) : option nat :=
  match s with
  | [] => None
  | c :: s' => if p c then Some 0%nat else S <$> find_if p s'
  end.

(** [s.find(c, pos)], [s.find_first_of(set, pos)], ... *)
Definition find_from (p : ascii -> bool) (s : bytes) (pos : nat) : option nat :=
  (fun i => (pos + i)%nat) <$> find_if p (drop pos s).

(** [s.rfind(c)], [s.find_last_not_of(set)]: the last index satisfying [p]. *)
Fixpoint rfind_if (p : ascii -> bool) (s : bytes) : option nat :=
  match s with
  | [] => None
  | c :: s' =>
      match rfind_if p s' with
      | Some i => Some (S i)
      | None => if p c then Some 0%nat else None
      end
  end.

(** [s.compare(0, t.size(), t) == 0]: [t] is a prefix of [s]. *)
Fixpoint starts_with (t s : bytes) : bool :=
  match t, s with
  | [], _ => true
  | _, [] => false
  | c :: t', d :: s' => (c =c d) && starts_with t' s'
  end.

(** [s.find(t)] for a string [t]. *)
Fixpoint find_str (t s : bytes) : option nat :=
  if starts_with t s then Some 0%nat
  else match s with [] => None | _ :: s' => S <$> find_str t s' end.

Definition find_str_from (t s : bytes) (pos : nat) : option nat :=
  if (length s <? pos)%nat then None
  else (fun i => (pos + i)%nat) <$> find_str t (drop pos s).

(** [s.substr(pos, n)]; the callers never pass [pos > s.size()]. *)
Definition substr (s : bytes) (pos n : nat) : bytes := take n (drop pos s).

(** Membership in a set of characters given as a literal. *)
Definition one_of (set : bytes) (c : ascii) : bool := existsb (Ascii.eqb c) set.
Definition none_of (set : bytes) (c : ascii) : bool := negb (one_of set c).
Definition is_c (d c : ascii) : bool := c =c d.
Definition has_char (p : ascii -> bool) (s : bytes) : bool := existsb p s.

(** ** Their specifications *)

Lemma find_if_Some p s i :
  find_if p s = Some i <->
  exists s1 c s2, s = s1 ++ c :: s2 /\ length s1 = i /\ p c = true /\
                  Forall (fun d => p d = false) s1.
Proof.
  revert i. induction s as [|d s IH]; intros i; simpl.
  - split; [done|]. intros (s1 & c & s2 & H & _). by destruct s1.
  - destruct (p d) eqn:Hd.
    + split.
      * intros [= <-]. by exists [], d, s.
      * intros (s1 & c & s2 & H & <- & Hc & Hs1).
        destruct s1 as [|e s1]; [done|]. simpl in H. simplify_eq.
        apply Forall_cons in Hs1 as [He _]. congruence.
    + rewrite fmap_Some. split.
      * intros (j & Hj & ->). apply IH in Hj as (s1 & c & s2 & -> & <- & Hc & Hs1).
        exists (d :: s1), c, s2. by repeat split; try constructor.
      * intros (s1 & c & s2 & H & <- & Hc & Hs1). destruct s1 as [|e s1].
        -- simpl in H. congruence.
        -- simpl in H. simplify_eq. apply Forall_cons in Hs1 as [_ Hs1].
           exists (length s1). split; [|done]. apply IH. by exists s1, c, s2.
Qed.

Lemma find_if_None p s : find_if p s = None <-> Forall (fun d => p d = false) s.
Proof.
  induction s as [|d s IH]; simpl.
  - split; [constructor|done].
  - rewrite Forall_cons. destruct (p d) eqn:Hd.
    + split; [done|]. intros [? _]. congruence.
    + rewrite fmap_None, IH. naive_solver.
Qed.

Lemma find_if_lt p s i : find_if p s = Some i -> (i < length s)%nat.
Proof.
  rewrite find_if_Some. intros (s1 & c & s2 & -> & <- & _).
  rewrite length_app. simpl. lia.
Qed.

Lemma find_if_app_l p s1 c s2 :
  Forall (fun d => p d = false) s1 -> p c = true ->
  find_if p (s1 ++ c :: s2) = Some (length s1).
Proof. intros H1 Hc. apply find_if_Some. by exists s1, c, s2. Qed.

Lemma find_if_split p s i :
  find_if p s = Some i ->
  exists c, s = take i s ++ c :: drop (S i) s /\ p c = true /\
            Forall (fun d => p d = false) (take i s).
Proof.
  rewrite find_if_Some. intros (s1 & c & s2 & -> & <- & Hc & Hs). exists c.
  rewrite take_app_length.
  replace (drop (S (length s1)) (s1 ++ c :: s2)) with s2; [done|].
  change (S (length s1)) with (1 + length s1)%nat.
  by rewrite Nat.add_comm, <- drop_drop, drop_app_length.
Qed.

Lemma find_from_bounds p s pos i :
  find_from p s pos = Some i -> (pos <= i < length s)%nat.
Proof.
  unfold find_from. rewrite fmap_Some. intros (j & Hj & ->).
  apply find_if_lt in Hj. rewrite length_drop in Hj. lia.
Qed.

Lemma find_from_app p s1 s2 c s3 pos :
  pos = length s1 -> Forall (fun d => p d = false) s2 -> p c = true ->
  find_from p (s1 ++ s2 ++ c :: s3) pos = Some (length s1 + length s2)%nat.
Proof. intros -> H Hc. unfold find_from. by rewrite drop_app_length, find_if_app_l. Qed.

Lemma rfind_if_None p s : rfind_if p s = None <-> Forall (fun d => p d = false) s.
Proof.
  induction s as [|d s IH]; simpl; [split; [constructor|done]|].
  rewrite Forall_cons, <- IH. destruct (rfind_if p s), (p d); naive_solver.
Qed.

Lemma rfind_if_Some p s i :
  rfind_if p s = Some i ->
  exists s1 c s2, s = s1 ++ c :: s2 /\ length s1 = i /\ p c = true /\
                  Forall (fun d => p d = false) s2.
Proof.
  revert i. induction s as [|d s IH]; intros i; simpl; [done|].
  destruct (rfind_if p s) as [j|] eqn:E.
  - intros [= <-]. destruct (IH j eq_refl) as (s1 & c & s2 & -> & <- & ? & ?).
    by exists (d :: s1), c, s2.
  - destruct (p d) eqn:Hd; [|done]. intros [= <-].
    exists [], d, s. repeat split; [done|]. by apply rfind_if_None.
Qed.

Lemma rfind_if_app_r p s1 c s2 :
  p c = true -> Forall (fun d => p d = false) s2 ->
  rfind_if p (s1 ++ c :: s2) = Some (length s1).
Proof.
  intros Hc Hs2. induction s1 as [|d s1 IH]; simpl.
  - apply rfind_if_None in Hs2. by rewrite Hs2, Hc.
  - by rewrite IH.
Qed.

Lemma starts_with_spec t s : starts_with t s = true <-> exists r, s = t ++ r.
Proof.
  revert s. induction t as [|c t IH]; intros s; simpl.
  - split; [by exists s|done].
  - destruct s as [|d s]; simpl.
    + split; [done|]. by intros [r Hr].
    + rewrite andb_true_iff, Ascii.eqb_eq, IH. naive_solver.
Qed.

Lemma starts_with_app t r : starts_with t (t ++ r) = true.
Proof. apply starts_with_spec. by exists r. Qed.

Lemma find_str_Some t s i :
  find_str t s = Some i -> exists s1 s2, s = s1 ++ t ++ s2 /\ length s1 = i.
Proof.
  revert i. induction s as [|d s IH]; intros i; cbn [find_str].
  - destruct (starts_with t []) eqn:E; [|done]. intros [= <-].
    apply starts_with_spec in E as [r ->]. by exists [], r.
  - destruct (starts_with t (d :: s)) eqn:E.
    + intros [= <-]. apply starts_with_spec in E as [r ->]. by exists [], r.
    + rewrite fmap_Some. intros (j & Hj & ->).
      destruct (IH j Hj) as (s1 & s2 & -> & <-). by exists (d :: s1), s2.
Qed.

(** The occurrence [find_str] returns is the first one. *)
Lemma find_str_first t s i s1 s2 :
  find_str t s = Some i -> s = s1 ++ t ++ s2 -> (i <= length s1)%nat.
Proof.
  revert i s1. induction s as [|d s IH]; intros i s1; cbn [find_str].
  - destruct (starts_with t []); [|done]. intros [= <-] _. lia.
  - destruct (starts_with t (d :: s)) eqn:E; [intros [= <-] _; lia|].
    rewrite fmap_Some. intros (j & Hj & ->) Heq. destruct s1 as [|e s1].
    + exfalso. simpl in Heq. rewrite Heq, starts_with_app in E. done.
    + simpl in Heq. simplify_eq. simpl. apply (IH j s1) in Hj; [lia|done].
Qed.

Lemma find_str_None t s s1 s2 : find_str t s = None -> s <> s1 ++ t ++ s2.
Proof.
  revert s1. induction s as [|d s IH]; intros s1; cbn [find_str].
  - destruct (starts_with t []) eqn:E; [done|]. intros _ Heq.
    destruct s1; [|done]. simpl in Heq. by rewrite Heq, starts_with_app in E.
  - destruct (starts_with t (d :: s)) eqn:E; [done|].
    rewrite fmap_None. intros Hs Heq. destruct s1 as [|e s1].
    + simpl in Heq. by rewrite Heq, starts_with_app in E.
    + simpl in Heq. simplify_eq. by apply (IH s1) in Hs.
Qed.

Lemma one_of_spec set c : one_of set c = true <-> c ∈ set.
Proof.
  unfold one_of. rewrite existsb_exists. split.
  - intros (d & Hd & He). apply Ascii.eqb_eq in He as ->. by apply list_elem_of_In.
  - intros Hc. exists c. split; [by apply list_elem_of_In|]. apply Ascii.eqb_refl.
Qed.

Lemma has_char_false p s : has_char p s = false <-> Forall (fun c => p c = false) s.
Proof.
  unfold has_char. induction s as [|c s IH]; simpl.
  - split; [constructor|done].
  - rewrite orb_false_iff, Forall_cons, IH. done.
Qed.

Lemma is_c_refl d : is_c d d = true.
Proof. apply Ascii.eqb_refl. Qed.

Lemma is_c_spec d c : is_c d c = true <-> c = d.
Proof. apply Ascii.eqb_eq. Qed.

Lemma is_c_ne d c : c <> d -> is_c d c = false.
Proof. intros H. apply Ascii.eqb_neq. done. Qed.

Lemma is_c_false d c : is_c d c = false <-> c <> d.
Proof. apply Ascii.eqb_neq. Qed.

(** * Loops

    A [while] loop is a step from the values of its variables to either their
    next values ([inl]) or the value it leaves with ([inr]: the condition is
    false, a [break] or a [return]). *)

Section Loop.
Context {St R : Type} (step : St -> St + R).

Fixpoint loop (fuel : nat) (s : St) : option R :=
  match fuel with
  | O => None
  | S fuel' => match step s with inl s' => loop fuel' s' | inr r => Some r end
  end.

(** A measure that every iteration decreases bounds the iterations. *)
Lemma loop_total (I : St -> Prop) (m : St -> nat) :
  (forall s s', I s -> step s = inl s' -> I s' /\ (m s' < m s)%nat) ->
  forall fuel s, I s -> (m s < fuel)%nat -> exists r, loop fuel s = Some r.
Proof.
  intros Hdec fuel. induction fuel as [|fuel IH]; intros s HI Hm; [lia|].
  simpl. destruct (step s) as [s'|r] eqn:E; [|by exists r].
  destruct (Hdec s s' HI E) as [HI' Hlt]. apply IH; [done|lia].
Qed.

(** An invariant of the body holds when the loop is left. *)
Lemma loop_inv (I : St -> Prop) (Q : R -> Prop) :
  (forall s s', I s -> step s = inl s' -> I s') ->
  (forall s r, I s -> step s = inr r -> Q r) ->
  forall fuel s r, I s -> loop fuel s = Some r -> Q r.
Proof.
  intros Hstep Hexit fuel. induction fuel as [|fuel IH]; intros s r HI; simpl; [done|].
  destruct (step s) as [s'|r'] eqn:E; [eauto|]. intros [= <-]. eauto.
Qed.

Lemma loop_more fuel fuel' s r :
  loop fuel s = Some r -> (fuel <= fuel')%nat -> loop fuel' s = Some r.
Proof.
  revert fuel' s. induction fuel as [|fuel IH]; intros fuel' s; simpl; [done|].
  intros H Hle. destruct fuel' as [|fuel']; [lia|]. simpl.
  destruct (step s); [apply IH; [done|lia]|done].
Qed.

Lemma loop_unfold fuel s s' :
  step s = inl s' -> loop (S fuel) s = loop fuel s'.
Proof. simpl. by intros ->. Qed.

(** The value a terminating loop leaves with; [d] is never returned by the
    loops below, as [run_inv] shows for each of them. *)
Definition run (d : R) (fuel : nat) (s : St) : R :=
  match loop fuel s with Some r => r | None => d end.

(** Total correctness: the measure makes the loop terminate within its fuel,
    and the invariant gives the property of its result. *)
Lemma run_inv (I : St -> Prop) (m : St -> nat) (Q : R -> Prop) d fuel s :
  (forall s s', I s -> step s = inl s' -> I s' /\ (m s' < m s)%nat) ->
  (forall s r, I s -> step s = inr r -> Q r) ->
  I s -> (m s < fuel)%nat -> Q (run d fuel s).
Proof.
  intros Hstep Hexit HI Hm. unfold run.
  destruct (loop_total I m Hstep fuel s HI Hm) as [r Hr]. rewrite Hr.
  eapply (loop_inv I); eauto. intros ? ? HI' E. by apply (Hstep _ _ HI' E).
Qed.

Lemma run_step d fuel s s' :
  step s = inl s' -> run d (S fuel) s = run d fuel s'.
Proof. intros H. unfold run. by rewrite (loop_unfold _ _ _ H). Qed.

Lemma run_exit d fuel s r : step s = inr r -> run d (S fuel) s = r.
Proof. intros H. unfold run. simpl. by rewrite H. Qed.
End Loop.

(** * Computations that may throw

    [Throw m] is a [std::runtime_error] (or one of the program's own error
    classes) with the message [m]. *)

Inductive result (A : Type) : Type :=
| Ok (a : A)
| Throw (msg : string).
Arguments Ok {A} _.
Arguments Throw {A} _.

#[export] Instance result_ret : MRet result := fun A a => Ok a.
#[export] Instance result_bind : MBind result := fun A B f m =>
  match m with Ok a => f a | Throw e => Throw e end.
#[export] Instance result_fmap : FMap result := fun A B f m =>
  match m with Ok a => Ok (f a) | Throw e => Throw e end.

Lemma result_bind_Ok {A B} (m : result A) (f : A -> result B) b :
  (m ≫= f) = Ok b <-> exists a, m = Ok a /\ f a = Ok b.
Proof. destruct m; simpl; naive_solver. Qed.

(** * Splitting

    The reference for the many loops that cut a string at a separator: the
    pieces between the characters satisfying [p], the last one included. *)

Fixpoint split_on (p : ascii -> bool) (s : bytes) : list bytes :=
  match s with
  | [] => [[]]
  | c :: s' =>
      if p c then [] :: split_on p s'
      else match split_on p s' with
           | [] => [[c]]
           | l :: ls => (c :: l) :: ls
           end
  end.

Lemma split_on_nil p s : split_on p s <> [].
Proof.
  destruct s as [|c s]; simpl; [done|]. destruct (p c); [done|]. by destruct (split_on p s).
Qed.

Lemma split_on_no p s : Forall (fun c => p c = false) s -> split_on p s = [s].
Proof. induction 1 as [|c s Hc _ IH]; simpl; [done|]. by rewrite Hc, IH. Qed.

Lemma split_on_app p s1 c s2 :
  Forall (fun d => p d = false) s1 -> p c = true ->
  split_on p (s1 ++ c :: s2) = s1 :: split_on p s2.
Proof.
  intros H Hc. induction H as [|d s1 Hd _ IH]; simpl; [by rewrite Hc|].
  by rewrite Hd, IH.
Qed.

(** The equation the loops follow. *)
Lemma split_on_find p s :
  split_on p s = match find_if p s with
                 | None => [s]
                 | Some i => take i s :: split_on p (drop (S i) s)
                 end.
Proof.
  destruct (find_if p s) as [i|] eqn:E.
  - apply find_if_split in E as (c & Hs & Hc & Hno).
    rewrite Hs at 1. by apply split_on_app.
  - apply split_on_no. by apply find_if_None.
Qed.

Lemma split_on_pieces p s :
  Forall (Forall (fun c => p c = false)) (split_on p s).
Proof.
  induction s as [|c s IH]; simpl; [by repeat constructor|].
  destruct (p c) eqn:Hc; [by constructor|].
  destruct (split_on p s) as [|l ls]; [by repeat constructor|].
  apply Forall_cons in IH as [Hl Hls]. by repeat constructor.
Qed.

(** The piece a cutting loop reads at [pos] is the first piece of the rest. *)
Lemma substr_to_end s pos : substr s pos (length s - pos) = drop pos s.
Proof. unfold substr. rewrite <- length_drop. apply take_ge. lia. Qed.

Lemma find_from_split p s pos :
  match find_from p s pos with
  | None => split_on p (drop pos s) = [drop pos s]
  | Some n => (pos <= n < length s)%nat /\
              split_on p (drop pos s) = substr s pos (n - pos) :: split_on p (drop (S n) s)
  end.
Proof.
  destruct (find_from p s pos) as [n|] eqn:E.
  - pose proof (find_from_bounds _ _ _ _ E) as Hb. split; [done|].
    unfold find_from in E. apply fmap_Some in E as (i & Hi & ->).
    rewrite split_on_find, Hi. unfold substr.
    replace (pos + i - pos)%nat with i by lia. f_equal.
    rewrite drop_drop. do 2 f_equal. lia.
  - unfold find_from in E. apply fmap_None in E. by rewrite split_on_find, E.
Qed.

(** Each line followed by a separator: what a loop that appends
    [line + sep] builds. *)
Definition unlines (sep : ascii) (ls : list bytes) : bytes :=
  concat (map (fun l => l ++ [sep]) ls).

Lemma split_on_unlines sep ls :
  Forall (Forall (fun c => is_c sep c = false)) ls ->
  split_on (is_c sep) (unlines sep ls) = ls ++ [[]].
Proof.
  induction 1 as [|l ls Hl _ IH]; [done|].
  unfold unlines. simpl. rewrite <- app_assoc. simpl.
  rewrite split_on_app by (done || apply is_c_refl). by rewrite <- IH.
Qed.

Lemma unlines_app sep ls ls' : unlines sep (ls ++ ls') = unlines sep ls ++ unlines sep ls'.
Proof. unfold unlines. by rewrite map_app, concat_app. Qed.

(** * Generic list lemmas *)

Lemma Forall_take {A} (P : A -> Prop) n l : Forall P l -> Forall P (take n l).
Proof. apply Forall_take. Qed.

Lemma drop_cons_lookup {A} (l : list A) i x :
  l !! i = Some x -> drop i l = x :: drop (S i) l.
Proof. intros H. by rewrite (drop_S l x i). Qed.

(** Reading behind a prefix. *)
Lemma lookup_pre {A} (pre l : list A) k : (pre ++ l) !! (length pre + k)%nat = l !! k.
Proof. rewrite lookup_app_r by lia. f_equal. lia. Qed.

Lemma lookup_pre0 {A} (pre l : list A) : (pre ++ l) !! length pre = l !! 0%nat.
Proof. rewrite lookup_app_r by lia. f_equal. lia. Qed.

Lemma substr_pre (pre s rest : bytes) : substr (pre ++ s ++ rest) (length pre) (length s) = s.
Proof. unfold substr. by rewrite drop_app_length, take_app_length. Qed.

(** [k] occurs inside [s]. *)
Definition occurs (k s : bytes) : Prop := exists a b, s = a ++ k ++ b.

Lemma substr_occurs s p n : occurs (substr s p n) s.
Proof.
  exists (take p s), (drop n (drop p s)). unfold substr. by rewrite !take_drop.
Qed.

Lemma existsb_app_false {A} (p : A -> bool) l k :
  existsb p (l ++ k) = existsb p l || existsb p k.
Proof. apply existsb_app. Qed.

(** [while (std::getline(ss, item, sep))]: the pieces between separators, but
    nothing behind a separator at the end. *)
Definition getline_all (sep : ascii) (s : bytes) : list bytes :=
  let ls := split_on (is_c sep) s in
  match last ls with Some [] => removelast ls | _ => ls end.

Lemma filter_all {A} (p : A -> bool) l : Forall (fun x => p x = true) l -> List.filter p l = l.
Proof. induction 1 as [|x l Hx _ IH]; [done|]. cbn. by rewrite Hx, IH. Qed.

(** * Maps in the order of their keys

    [std::map<std::string, T>]: a finite map, and the list an iteration sees,
    in the lexicographic order of unsigned bytes. *)

Fixpoint bytes_leb (s t : bytes) : bool :=
  match s, t with
  | [], _ => true
  | _, [] => false
  | c :: s', d :: t' => if ord c <? ord d then true else if ord d <? ord c then false else bytes_leb s' t'
  end.
Definition key_le {A} (x y : bytes * A) : Prop := bytes_leb x.1 y.1 = true.
#[export] Instance key_le_dec {A} : RelDecision (@key_le A).
Proof. intros x y. unfold key_le. apply _. Defined.
Definition in_order {A} (m : gmap (list ascii) A) : list (bytes * A) := merge_sort key_le (map_to_list m).

Lemma in_order_perm {A} (m : gmap (list ascii) A) : in_order m ≡ₚ map_to_list m.
Proof. apply merge_sort_Permutation. Qed.

(** * Automation *)

Create HintDb look.
#[export] Hint Resolve ord_range ord_inj : look.
#[export] Hint Rewrite chr_ord ord_chr : look.

(** Split every conjunction and existential of the context. *)
Ltac destr_all := repeat match goal with
  | H : _ /\ _ |- _ => destruct H
  | H : exists _, _ |- _ => destruct H
  end.

(** Case analysis on the scrutinee of the first [if]/[match] of a hypothesis. *)
Ltac case_in H :=
  match type of H with
  | context [match ?x with _ => _ end] => destruct x eqn:?
  end.

(** Case analysis on the condition of the first [if] of the goal. *)
Ltac case_if := match goal with
  | |- context [if ?b then _ else _] => destruct b eqn:?
  end.

(** Arithmetic on the lengths of concatenations; [look_len] holds the lengths
    of the constant strings of the components. *)
#[export] Hint Rewrite @length_app @length_cons @length_drop @length_take : look_len.
Ltac len :=
  repeat first [ progress autorewrite with look_len | progress (cbn [length app list_ascii_of_string]) ]; lia.

(** Case analysis on a string comparison of the goal. *)
Ltac case_str := match goal with
  | |- context [bytes_eqb ?s ?t] => destruct (bytes_eqb_spec s t)
  end.

(** Turn the boolean tests of the context into propositions. *)
Ltac bool_to_prop := repeat match goal with
  | H : (_ && _)%bool = true |- _ => apply andb_true_iff in H as [? ?]
  | H : (_ || _)%bool = false |- _ => apply orb_false_iff in H as [? ?]
  | H : negb _ = true |- _ => apply negb_true_iff in H
  | H : negb _ = false |- _ => apply negb_false_iff in H
  | H : Ascii.eqb _ _ = true |- _ => apply Ascii.eqb_eq in H
  | H : Ascii.eqb _ _ = false |- _ => apply Ascii.eqb_neq in H
  | H : bytes_eqb _ _ = true |- _ => apply bytes_eqb_eq in H
  | H : bytes_eqb _ _ = false |- _ => apply bytes_eqb_neq in H
  | H : bool_decide _ = true |- _ => apply bool_decide_eq_true in H
  | H : bool_decide _ = false |- _ => apply bool_decide_eq_false in H
  | H : (_ <? _) = true |- _ => apply Z.ltb_lt in H
  | H : (_ <? _) = false |- _ => apply Z.ltb_ge in H
  | H : (_ <=? _) = true |- _ => apply Z.leb_le in H
  | H : (_ <=? _) = false |- _ => apply Z.leb_gt in H
  | H : (_ =? _) = true |- _ => apply Z.eqb_eq in H
  | H : (_ =? _) = false |- _ => apply Z.eqb_neq in H
  | H : (_ <? _)%nat = true |- _ => apply Nat.ltb_lt in H
  | H : (_ <? _)%nat = false |- _ => apply Nat.ltb_ge in H
  | H : (_ <=? _)%nat = true |- _ => apply Nat.leb_le in H
  | H : (_ <=? _)%nat = false |- _ => apply Nat.leb_gt in H
  | H : (_ =? _)%nat = true |- _ => apply Nat.eqb_eq in H
  | H : (_ =? _)%nat = false |- _ => apply Nat.eqb_neq in H
  end.
