(* ===== verification/SessionEsc.v ===== *)
(** Session identifiers and the session blob (cpp/include/look/session_esc.h).

    A session is stored as one [key=value] line per entry. [sess_blob_get] and
    [sess_blob_set] walk the lines with a position; here each walk is a [loop]
    whose steps are the iterations of the code. The reference view is the list
    of lines ([split_on LF]); the theorems show that the blob behaves as a map
    from keys to values whatever bytes the keys and the values hold. *)

From S2P Require Import Prelude.

Module Session.

Definition EQ : ascii := "="%char.

(** [valid_sid] *)
Definition sid_hex (c : ascii) : bool :=
  in_range 48 57 (ord c) || in_range 97 102 (ord c) || in_range 65 70 (ord c).
Definition valid_sid (s : bytes) : bool :=
  if negb (length s =? 32)%nat then false else forallb sid_hex s.

(** [sess_esc]: one iteration of its loop, and the loop. *)
Definition esc_char (is_key : bool) (c : ascii) : bytes :=
  if c =c BACKSLASH then [BACKSLASH; BACKSLASH]
  else if c =c LF then lit "\n"
  else if c =c CR then lit "\r"
  else if (c =c EQ) && is_key then lit "\e"
  else [c].
Fixpoint sess_esc (s : bytes) (is_key : bool) : bytes :=
  match s with
  | [] => []
  | c :: s' => esc_char is_key c ++ sess_esc s' is_key
  end.

(** [sess_unesc]: the two-character window of its loop. *)
Definition unesc_pair (n : ascii) : bytes :=
  if n =c "n"%char then [LF]
  else if n =c "r"%char then [CR]
  else if n =c "e"%char then [EQ]
  else if n =c BACKSLASH then [BACKSLASH]
  else [BACKSLASH; n].
Fixpoint sess_unesc (s : bytes) : bytes :=
  match s with
  | [] => []
  | c :: s' =>
      if negb (c =c BACKSLASH) then c :: sess_unesc s'
      else match s' with
           | [] => [c]
           | n :: s'' => unesc_pair n ++ sess_unesc s''
           end
  end.

(** The line at [pos]: [blob.substr(pos, (nl == npos ? size : nl) - pos)]. *)
Definition line_at (blob : bytes) (pos : nat) : option nat * bytes :=
  let nl := find_from (is_c LF) blob pos in
  (nl, substr blob pos (default (length blob) nl - pos)).

(** [eq != npos && line.substr(0, eq) == ek], with the text after the [=]. *)
Definition line_match (ek line : bytes) : option bytes :=
  match find_if (is_c EQ) line with
  | Some eq => if take eq line =s ek then Some (drop (S eq) line) else None
  | None => None
  end.

(** [sess_blob_get]: [Some out] for [true], [None] for [false]. *)
Definition get_step (blob key : bytes) (pos : nat) : nat + option bytes :=
  if (pos <? length blob)%nat then
    let (nl, line) := line_at blob pos in
    match line_match (sess_esc key true) line with
    | Some raw => inr (Some (sess_unesc raw))
    | None => match nl with None => inr None | Some n => inl (S n) end
    end
  else inr None.
Definition sess_blob_get (blob key : bytes) : option bytes :=
  run (get_step blob key) None (S (length blob)) 0%nat.

(** [sess_blob_set]: the loop variables are [pos], [out] and [replaced]. *)
Record set_state := SetState { ss_pos : nat; ss_out : bytes; ss_replaced : bool }.
Definition set_step (blob ek ev : bytes) (st : set_state) : set_state + (bytes * bool) :=
  if (ss_pos st <? length blob)%nat then
    let (nl, line) := line_at blob (ss_pos st) in
    let (out, replaced) :=
      if negb (line =s []) then
        match line_match ek line with
        | Some _ => (ss_out st ++ ek ++ [EQ] ++ ev ++ [LF], true)
        | None => (ss_out st ++ line ++ [LF], ss_replaced st)
        end
      else (ss_out st, ss_replaced st) in
    match nl with
    | None => inr (out, replaced)
    | Some n => inl (SetState (S n) out replaced)
    end
  else inr (ss_out st, ss_replaced st).
Definition sess_blob_set (blob key val : bytes) : bytes :=
  let ek := sess_esc key true in
  let ev := sess_esc val false in
  let (out, replaced) :=
    run (set_step blob ek ev) ([], false) (S (length blob)) (SetState 0 [] false) in
  if replaced then out else out ++ ek ++ [EQ] ++ ev ++ [LF].

(** * Escaping *)

Lemma unesc_esc_char k c s : sess_unesc (esc_char k c ++ s) = c :: sess_unesc s.
Proof.
  unfold esc_char. destruct (c =c BACKSLASH) eqn:E1; bool_to_prop; [by subst|].
  destruct (c =c LF) eqn:E2; bool_to_prop; [by subst|].
  destruct (c =c CR) eqn:E3; bool_to_prop; [by subst|].
  destruct ((c =c EQ) && k) eqn:E4; bool_to_prop; [by subst|].
  simpl. apply Ascii.eqb_neq in E1. by rewrite E1.
Qed.

Lemma unesc_esc s k : sess_unesc (sess_esc s k) = s.
Proof. induction s as [|c s IH]; [done|]. simpl. by rewrite unesc_esc_char, IH. Qed.

Lemma sess_esc_inj s t k : sess_esc s k = sess_esc t k -> s = t.
Proof. intros H. by rewrite <- (unesc_esc s k), H, unesc_esc. Qed.

(** The characters an escaped string cannot hold: the separators of the
    format, [=] among them for a key. *)
Definition sep_char (is_key : bool) (c : ascii) : bool :=
  is_c LF c || is_c CR c || (is_c EQ c && is_key).

Lemma esc_char_clean k c : forallb (fun d => negb (sep_char k d)) (esc_char k c) = true.
Proof. destruct k; [by_chars c | by_chars c]. Qed.

Lemma sess_esc_clean s k : Forall (fun c => sep_char k c = false) (sess_esc s k).
Proof.
  induction s as [|c s IH]; simpl; [constructor|]. apply Forall_app. split; [|done].
  apply Forall_forall. intros d Hd.
  pose proof (esc_char_clean k c) as H. rewrite forallb_forall in H.
  apply list_elem_of_In, H in Hd. by apply negb_true_iff in Hd.
Qed.

Lemma sess_esc_no_LF s k : Forall (fun c => is_c LF c = false) (sess_esc s k).
Proof.
  eapply Forall_impl; [apply (sess_esc_clean s k)|]. unfold sep_char.
  intros c H. by bool_to_prop.
Qed.

Lemma sess_esc_key_no_EQ s : Forall (fun c => is_c EQ c = false) (sess_esc s true).
Proof.
  eapply Forall_impl; [apply (sess_esc_clean s true)|]. unfold sep_char.
  intros c H. rewrite andb_true_r in H. by bool_to_prop.
Qed.

(** * The blob as a list of lines *)

(** What [sess_blob_get] computes on the lines. *)
Fixpoint lines_get (ek : bytes) (ls : list bytes) : option bytes :=
  match ls with
  | [] => None
  | l :: ls' => match line_match ek l with
                | Some raw => Some (sess_unesc raw)
                | None => lines_get ek ls'
                end
  end.

(** The lines [sess_blob_set] writes for one line it reads. *)
Definition set_line (ek ev l : bytes) : list bytes :=
  if l =s [] then []
  else match line_match ek l with Some _ => [ek ++ EQ :: ev] | None => [l] end.
Definition matches (ek l : bytes) : bool :=
  match line_match ek l with Some _ => true | None => false end.

Lemma line_at_split blob pos :
  match line_at blob pos with
  | (None, line) => split_on (is_c LF) (drop pos blob) = [line]
  | (Some n, line) => (pos <= n < length blob)%nat /\
      split_on (is_c LF) (drop pos blob) = line :: split_on (is_c LF) (drop (S n) blob)
  end.
Proof.
  unfold line_at. pose proof (find_from_split (is_c LF) blob pos) as H.
  destruct (find_from (is_c LF) blob pos) as [n|]; [done|].
  simpl. by rewrite substr_to_end.
Qed.

Lemma line_match_nil ek : line_match ek [] = None.
Proof. done. Qed.

Lemma sess_blob_get_lines blob key :
  sess_blob_get blob key = lines_get (sess_esc key true) (split_on (is_c LF) blob).
Proof.
  unfold sess_blob_get.
  apply (run_inv _ (fun pos => lines_get (sess_esc key true) (split_on (is_c LF) (drop pos blob))
                             = lines_get (sess_esc key true) (split_on (is_c LF) blob))
                 (fun pos => length blob - pos)%nat
                 (fun r => r = lines_get (sess_esc key true) (split_on (is_c LF) blob))).
  - intros pos pos' HI. unfold get_step. destruct (pos <? length blob)%nat eqn:E; [|done].
    pose proof (line_at_split blob pos) as Hl. destruct (line_at blob pos) as [[n|] line].
    + destruct Hl as [Hn Hl]. rewrite Hl in HI. simpl in HI.
      destruct (line_match _ line); [done|]. intros [= <-]. split; [done|lia].
    + by destruct (line_match _ line).
  - intros pos r HI. unfold get_step. destruct (pos <? length blob)%nat eqn:E.
    + pose proof (line_at_split blob pos) as Hl. destruct (line_at blob pos) as [[n|] line].
      * destruct Hl as [Hn Hl]. rewrite Hl in HI. simpl in HI.
        destruct (line_match _ line); [|done]. by intros [= <-].
      * rewrite Hl in HI. simpl in HI. destruct (line_match _ line); by intros [= <-].
    + bool_to_prop. rewrite drop_ge in HI by lia. by intros [= <-].
  - done.
  - lia.
Qed.

(** The lines of the blob after a [set], and whether a line was replaced. *)
Definition set_lines (ek ev : bytes) (ls : list bytes) : list bytes :=
  concat (map (set_line ek ev) ls).

Lemma unlines_one l : unlines LF [l] = l ++ [LF].
Proof. unfold unlines. simpl. by rewrite app_nil_r. Qed.

Lemma set_step_out ek ev line out b :
  (if negb (line =s []) then
     match line_match ek line with
     | Some _ => (out ++ ek ++ [EQ] ++ ev ++ [LF], true)
     | None => (out ++ line ++ [LF], b)
     end else (out, b))
  = (out ++ unlines LF (set_line ek ev line), b || matches ek line).
Proof.
  unfold set_line, matches. case_str; simpl.
  - subst. simpl. by rewrite orb_false_r, app_nil_r.
  - destruct (line_match ek line) eqn:E'; simpl.
    + rewrite unlines_one, orb_true_r. f_equal. by rewrite <- !app_assoc.
    + by rewrite unlines_one, orb_false_r.
Qed.

Lemma set_loop blob ek ev :
  run (set_step blob ek ev) ([], false) (S (length blob)) (SetState 0 [] false)
  = (unlines LF (set_lines ek ev (split_on (is_c LF) blob)),
     existsb (matches ek) (split_on (is_c LF) blob)).
Proof.
  pose (target := (unlines LF (set_lines ek ev (split_on (is_c LF) blob)),
                   existsb (matches ek) (split_on (is_c LF) blob))).
  apply (run_inv _ (fun st =>
      (ss_out st ++ unlines LF (set_lines ek ev (split_on (is_c LF) (drop (ss_pos st) blob))),
       ss_replaced st || existsb (matches ek) (split_on (is_c LF) (drop (ss_pos st) blob)))
      = target)
    (fun st => length blob - ss_pos st)%nat (fun r => r = target)).
  - intros [pos out b] st' HI. unfold set_step. cbn [ss_pos ss_out ss_replaced] in *.
    destruct (pos <? length blob)%nat eqn:E; [|done].
    pose proof (line_at_split blob pos) as Hl. destruct (line_at blob pos) as [[n|] line];
      rewrite set_step_out; [|done].
    destruct Hl as [Hn Hl]. rewrite Hl in HI. unfold set_lines in HI. simpl in HI.
    intros [= <-]. cbn. split; [|lia].
    rewrite unlines_app, app_assoc, orb_assoc in HI. exact HI.
  - intros [pos out b] r HI. unfold set_step. cbn [ss_pos ss_out ss_replaced] in *.
    destruct (pos <? length blob)%nat eqn:E.
    + pose proof (line_at_split blob pos) as Hl. destruct (line_at blob pos) as [[n|] line];
        rewrite set_step_out; [done|].
      rewrite Hl in HI. unfold set_lines in HI. simpl in HI.
      rewrite app_nil_r, orb_false_r in HI. intros [= <-]. done.
    + bool_to_prop. rewrite drop_ge in HI by lia. unfold set_lines, matches in HI. simpl in HI.
      rewrite app_nil_r, orb_false_r in HI. intros [= <-]. done.
  - done.
  - simpl. lia.
Qed.

Lemma sess_blob_set_lines blob key val :
  let ek := sess_esc key true in
  let ev := sess_esc val false in
  let ls := split_on (is_c LF) blob in
  sess_blob_set blob key val =
  unlines LF (set_lines ek ev ls ++
              if existsb (matches ek) ls then [] else [ek ++ EQ :: ev]).
Proof.
  intros ek ev ls. unfold sess_blob_set. fold ek ev. rewrite set_loop. fold ls.
  destruct (existsb (matches ek) ls).
  - by rewrite app_nil_r.
  - rewrite unlines_app, unlines_one. by rewrite <- !app_assoc.
Qed.

(** * Reading the new lines *)

Lemma line_match_entry ek ev :
  Forall (fun c => is_c EQ c = false) ek -> line_match ek (ek ++ EQ :: ev) = Some ev.
Proof.
  intros H. unfold line_match. simpl. rewrite (find_if_app_l (is_c EQ)) by done.
  rewrite take_app_length, bytes_eqb_refl.
  change (S (length ek)) with (1 + length ek)%nat.
  by rewrite Nat.add_comm, <- drop_drop, drop_app_length.
Qed.

Lemma line_match_other ek ek' ev :
  Forall (fun c => is_c EQ c = false) ek -> ek <> ek' ->
  line_match ek' (ek ++ EQ :: ev) = None.
Proof.
  intros H Hne. unfold line_match. simpl. rewrite (find_if_app_l (is_c EQ)) by done.
  rewrite take_app_length. by case_str.
Qed.

Lemma line_match_unique ek ek' l raw :
  line_match ek l = Some raw -> ek <> ek' -> line_match ek' l = None.
Proof.
  unfold line_match. destruct (find_if _ l); [|done].
  case_str; [|done]. intros _ Hne. case_str; [|done]. by subst.
Qed.

Lemma lines_get_app ek ls ls' :
  lines_get ek (ls ++ ls') =
  match lines_get ek ls with Some v => Some v | None => lines_get ek ls' end.
Proof. induction ls as [|l ls IH]; simpl; [done|]. by destruct (line_match ek l). Qed.

Lemma lines_get_None ek ls : existsb (matches ek) ls = false -> lines_get ek ls = None.
Proof.
  induction ls as [|l ls IH]; simpl; [done|]. unfold matches at 1. intros H.
  destruct (line_match ek l); [done|]. by apply IH.
Qed.

Lemma set_lines_get_same ek ev ls :
  Forall (fun c => is_c EQ c = false) ek -> existsb (matches ek) ls = true ->
  lines_get ek (set_lines ek ev ls) = Some (sess_unesc ev).
Proof.
  intros Hek. unfold set_lines. induction ls as [|l ls IH]; simpl; [done|]. intros H.
  rewrite lines_get_app. unfold set_line. unfold matches in H at 1.
  case_str; subst; simpl in *; [by apply IH|].
  destruct (line_match ek l) eqn:E; cbn [lines_get].
  - by rewrite line_match_entry.
  - rewrite E. by apply IH.
Qed.

Lemma set_lines_get_other ek ek' ev ls :
  Forall (fun c => is_c EQ c = false) ek -> ek <> ek' ->
  lines_get ek' (set_lines ek ev ls) = lines_get ek' ls.
Proof.
  intros Hek Hne. unfold set_lines. induction ls as [|l ls IH]; simpl; [done|].
  rewrite lines_get_app. unfold set_line.
  case_str; subst; simpl; [done|].
  destruct (line_match ek l) eqn:E; cbn [lines_get].
  - rewrite line_match_other by done. rewrite (line_match_unique _ _ _ _ E Hne). done.
  - by destruct (line_match ek' l).
Qed.

Lemma set_lines_get_none ek ev ls :
  existsb (matches ek) ls = false -> lines_get ek (set_lines ek ev ls) = None.
Proof.
  unfold set_lines. induction ls as [|l ls IH]; simpl; [done|]. intros H.
  apply orb_false_iff in H as [H1 H2]. rewrite lines_get_app. unfold set_line.
  unfold matches in H1. case_str; [by apply IH|].
  destruct (line_match ek l) eqn:E; [done|]. cbn [lines_get]. rewrite E. by apply IH.
Qed.

Lemma set_lines_no_LF blob ek ev :
  Forall (fun c => is_c LF c = false) ek -> Forall (fun c => is_c LF c = false) ev ->
  Forall (Forall (fun c => is_c LF c = false))
    (set_lines ek ev (split_on (is_c LF) blob) ++
     if existsb (matches ek) (split_on (is_c LF) blob) then [] else [ek ++ EQ :: ev]).
Proof.
  intros Hek Hev.
  assert (Hnew : Forall (fun c => is_c LF c = false) (ek ++ EQ :: ev)).
  { apply Forall_app. split; [done|]. by constructor. }
  apply Forall_app. split.
  - pose proof (split_on_pieces (is_c LF) blob) as H. unfold set_lines.
    induction H as [|l ls Hl _ IH]; simpl; [constructor|]. apply Forall_app. split; [|done].
    unfold set_line. case_str; [constructor|].
    destruct (line_match ek l); by repeat constructor.
  - destruct (existsb _ _); by repeat constructor.
Qed.

(** The session blob is a map. After [sess_blob_set blob key val], reading
    [key] gives exactly [val], and reading any other key gives what it gave
    before: a value (or a key) holding newlines, [=] or backslashes cannot
    create, change or hide another entry of the session. *)
Theorem sess_blob_get_set blob key val key' :
  sess_blob_get (sess_blob_set blob key val) key' =
  if bool_decide (key' = key) then Some val else sess_blob_get blob key'.
Proof.
  rewrite !sess_blob_get_lines, sess_blob_set_lines. cbv zeta.
  set (ek := sess_esc key true). set (ls := split_on (is_c LF) blob).
  rewrite split_on_unlines by
    (apply set_lines_no_LF; apply sess_esc_no_LF).
  rewrite !lines_get_app. cbn [lines_get]. rewrite line_match_nil.
  pose proof (sess_esc_key_no_EQ key : Forall _ ek) as Hek.
  case_bool_decide as Hk.
  - subst key'. fold ek. destruct (existsb (matches ek) ls) eqn:E.
    + rewrite set_lines_get_same by done. by rewrite unesc_esc.
    + rewrite set_lines_get_none by done. cbn [lines_get].
      by rewrite line_match_entry, unesc_esc.
  - assert (Hne : ek <> sess_esc key' true) by (intros H; apply Hk; by apply sess_esc_inj in H).
    rewrite set_lines_get_other by done.
    destruct (lines_get (sess_esc key' true) ls); [done|].
    destruct (existsb (matches ek) ls); cbn [lines_get]; [done|].
    by rewrite line_match_other.
Qed.

End Session.
