(* ===== verification/Http.v ===== *)
(** The HTTP/1.1 request parser (cpp/include/look/http_parse.h), whole: request
    line, the strict-CRLF check of the header block, the header loop with its
    request-smuggling rejections, and the WebSocket/SSE detection. The
    reference is the list of header lines: [render] writes a request from its
    lines and the parser is proved equal to a fold over them; conversely every
    request the parser accepts is such a rendering. *)

From S2P Require Import Prelude.

Module Http.

(** [struct HttpRequest] (http_server.h). [std::map] is a finite map. *)
Record HttpRequest := MkRequest {
  method : bytes;
  path : bytes;
  query_string : bytes;
  version : bytes;
  headers : gmap (list ascii) (list ascii);
  body : bytes;
  remote_addr : bytes;
  upgrade_websocket : bool;
  ws_key : bytes;
  upgrade_sse : bool
}.

Definition empty_request : HttpRequest :=
  MkRequest [] [] [] [] ∅ [] [] false [] false.

Definition CRLF : bytes := [CR; LF].
Definition COLON : ascii := ":"%char.
Definition QMARK : ascii := "?"%char.

Definition blank (c : ascii) : bool := (c =c SP) || (c =c TAB).

(** The two trimming loops on [val]. *)
Fixpoint trim_front (s : bytes) : bytes :=
  match s with c :: s' => if blank c then trim_front s' else s | [] => [] end.
Fixpoint trim_back (s : bytes) : bytes :=
  match s with
  | [] => []
  | c :: s' => match trim_back s' with
               | [] => if blank c then [] else [c]
               | s'' => c :: s''
               end
  end.

(** The request line: [(method, path, query_string, version)]. *)
Definition parse_request_line (req_line : bytes) : option (bytes * bytes * option bytes * bytes) :=
  match find_if (is_c SP) req_line, rfind_if (is_c SP) req_line with
  | Some s1, Some s2 =>
      if (s1 =? s2)%nat then None
      else
        let full_path := substr req_line (s1 + 1) (s2 - s1 - 1) in
        match find_if (is_c QMARK) full_path with
        | Some q => Some (take s1 req_line, take q full_path, Some (drop (q + 1) full_path),
                          drop (s2 + 1) req_line)
        | None => Some (take s1 req_line, full_path, None, drop (s2 + 1) req_line)
        end
  | _, _ => None
  end.

(** No bare CR or LF before [header_end]. *)
Definition crlf_ok_at (raw : bytes) (i : nat) : bool :=
  match raw !! i with
  | None => true
  | Some c =>
      if c =c CR then
        match raw !! S i with Some d => d =c LF | None => false end
      else if c =c LF then
        match i with
        | O => false
        | S i' => match raw !! i' with Some d => d =c CR | None => false end
        end
      else true
  end.
Definition strict_crlf (raw : bytes) (header_end : nat) : bool :=
  forallb (crlf_ok_at raw) (seq 0 header_end).

Definition last_char (s : bytes) : option ascii := last s.

(** The body of the header loop, on the line [raw.substr(pos, end - pos)]:
    [None] is [return false]. *)
Definition header_line (line : bytes) (hs : gmap (list ascii) (list ascii))
    : option (gmap (list ascii) (list ascii)) :=
  if match line with c :: _ => blank c | [] => false end then None
  else match find_if (is_c COLON) line with
  | None => Some hs
  | Some colon =>
      let key := take colon line in
      let val := trim_back (trim_front (drop (colon + 1) line)) in
      if match last_char key with Some c => blank c | None => false end then None
      else
        let key := map tolower key in
        if (key =s lit "content-length") &&
           match hs !! (lit "content-length") with
           | Some ex => negb (ex =s val) | None => false end
        then None
        else Some (<[key := val]> hs)
  end.

(** The [while (pos < header_end)] loop. *)
Definition header_step (raw : bytes) (header_end : nat)
    (st : nat * gmap (list ascii) (list ascii))
    : nat * gmap (list ascii) (list ascii) + option (gmap (list ascii) (list ascii)) :=
  let (pos, hs) := st in
  if (pos <? header_end)%nat then
    match find_str_from CRLF raw pos with
    | None => inr (Some hs)
    | Some e =>
        if (header_end <? e)%nat then inr (Some hs)
        else match header_line (substr raw pos (e - pos)) hs with
             | None => inr None
             | Some hs' => inl ((e + 2)%nat, hs')
             end
    end
  else inr (Some hs).

(** The upgrade detection at the end. *)
Definition detect_upgrades (req : HttpRequest) : HttpRequest :=
  let hs := headers req in
  let req :=
    match hs !! (lit "upgrade") with
    | Some up =>
        match find_str (lit "websocket") (map tolower up) with
        | Some _ =>
            MkRequest (method req) (path req) (query_string req) (version req) hs (body req)
              (remote_addr req) true
              (match hs !! (lit "sec-websocket-key") with Some k => k | None => ws_key req end)
              (upgrade_sse req)
        | None => req
        end
    | None => req
    end in
  match hs !! (lit "accept") with
  | Some acc =>
      match find_str (lit "text/event-stream") acc with
      | Some _ =>
          MkRequest (method req) (path req) (query_string req) (version req) hs (body req)
            (remote_addr req) (upgrade_websocket req) (ws_key req) true
      | None => req
      end
  | None => req
  end.

Definition http_parse_request (raw : bytes) (req : HttpRequest) : option HttpRequest :=
  line_end ← find_str CRLF raw;
  '(m, p, q, v) ← parse_request_line (take line_end raw);
  header_end ← find_str (CRLF ++ CRLF) raw;
  if strict_crlf raw header_end then
    hs ← run (header_step raw header_end) None (S (length raw)) ((line_end + 2)%nat, headers req);
    Some (detect_upgrades
            (MkRequest m p (match q with Some q => q | None => query_string req end) v hs
               (body req) (remote_addr req) (upgrade_websocket req) (ws_key req)
               (upgrade_sse req)))
  else None.

(** * Requests written from their lines *)

Definition crlf_char (c : ascii) : bool := (c =c CR) || (c =c LF).
Definition clean (l : bytes) : Prop := Forall (fun c => crlf_char c = false) l.
Definition crlf_lines (ls : list bytes) : bytes := concat (map (fun l => l ++ CRLF) ls).
Definition render (req_line : bytes) (ls : list bytes) (rest : bytes) : bytes :=
  req_line ++ CRLF ++ crlf_lines ls ++ CRLF ++ rest.

Definition wf_lines (ls : list bytes) : Prop := Forall (fun l => clean l /\ l <> []) ls.

Lemma length_CRLF : length CRLF = 2%nat.
Proof. done. Qed.
#[export] Hint Rewrite length_CRLF : look_len.

Lemma clean_cons c l : clean (c :: l) <-> crlf_char c = false /\ clean l.
Proof. unfold clean. by rewrite Forall_cons. Qed.

Lemma crlf_lines_cons l ls : crlf_lines (l :: ls) = l ++ CRLF ++ crlf_lines ls.
Proof. unfold crlf_lines. simpl. by rewrite <- app_assoc. Qed.

Lemma starts_with_clean c l t : crlf_char c = false -> starts_with (CR :: t) (c :: l) = false.
Proof.
  unfold crlf_char. intros H. bool_to_prop. cbn [starts_with].
  rewrite (proj2 (Ascii.eqb_neq _ _)); [done|congruence].
Qed.

(** The first CRLF after a clean line, and the first empty line. *)
Lemma find_crlf l s : clean l -> find_str CRLF (l ++ CRLF ++ s) = Some (length l).
Proof.
  induction 1 as [|c l Hc _ IH]; [done|]. cbn [app find_str length].
  change (starts_with CRLF) with (starts_with (CR :: [LF])).
  rewrite starts_with_clean by done. by rewrite IH.
Qed.

Lemma find_crlf2_skip l s :
  clean l ->
  find_str (CRLF ++ CRLF) (l ++ CRLF ++ s) =
  (fun i => (length l + i)%nat) <$> find_str (CRLF ++ CRLF) (CRLF ++ s).
Proof.
  induction 1 as [|c l Hc _ IH].
  - cbn [app length]. by destruct (find_str _ _).
  - change ((c :: l) ++ CRLF ++ s) with (c :: (l ++ CRLF ++ s)). cbn [find_str].
    change (CRLF ++ CRLF) with (CR :: [LF; CR; LF]) in *.
    rewrite starts_with_clean by done. rewrite IH. by destruct (find_str _ (CRLF ++ s)).
Qed.

Lemma find_crlf2 l ls rest :
  clean l -> wf_lines ls ->
  find_str (CRLF ++ CRLF) (l ++ CRLF ++ crlf_lines ls ++ CRLF ++ rest)
  = Some (length l + length (crlf_lines ls))%nat.
Proof.
  intros Hl Hls. revert l Hl. induction Hls as [|l' ls [Hl' Hne] _ IH]; intros l Hl;
    rewrite find_crlf2_skip by done; [done|].
  rewrite crlf_lines_cons, <- !app_assoc.
  destruct l' as [|c l']; [done|].
  specialize (IH (c :: l') Hl'). apply clean_cons in Hl' as [Hc _].
  set (s := crlf_lines ls ++ CRLF ++ rest) in *.
  change (CRLF ++ (c :: l') ++ CRLF ++ s) with (CR :: LF :: ((c :: l') ++ CRLF ++ s)).
  unfold crlf_char in Hc. bool_to_prop.
  assert (Hsw : starts_with (CRLF ++ CRLF) (CR :: LF :: ((c :: l') ++ CRLF ++ s)) = false).
  { cbn [CRLF app starts_with]. rewrite !Ascii.eqb_refl. cbn [andb].
    rewrite (proj2 (Ascii.eqb_neq _ _)); [done|congruence]. }
  cbn [find_str]. rewrite Hsw.
  assert (Hsw2 : starts_with (CRLF ++ CRLF) (LF :: ((c :: l') ++ CRLF ++ s)) = false) by done.
  rewrite Hsw2, IH. cbn [fmap option_fmap option_map]. f_equal. len.
Qed.

(** ** The header loop is a fold over the lines *)

Fixpoint fold_headers (ls : list bytes) (hs : gmap (list ascii) (list ascii))
    : option (gmap (list ascii) (list ascii)) :=
  match ls with
  | [] => Some hs
  | l :: ls' => match header_line l hs with
                | None => None
                | Some hs' => fold_headers ls' hs'
                end
  end.

Lemma find_crlf_from pre l s :
  clean l -> find_str_from CRLF (pre ++ l ++ CRLF ++ s) (length pre)
             = Some (length pre + length l)%nat.
Proof.
  intros Hl. unfold find_str_from.
  rewrite (proj2 (Nat.ltb_ge _ _)) by len. by rewrite drop_app_length, find_crlf.
Qed.

Lemma header_loop pre ls rest d hs fuel :
  wf_lines ls -> (length ls < fuel)%nat ->
  run (header_step (pre ++ crlf_lines ls ++ CRLF ++ rest)
         (length pre + length (crlf_lines ls) - 2)) d fuel (length pre, hs)
  = fold_headers ls hs.
Proof.
  intros Hls. revert pre hs fuel.
  induction Hls as [|l ls [Hl Hne] _ IH]; intros pre hs fuel Hf;
    (destruct fuel as [|fuel]; [simpl in Hf; lia|]).
  - rewrite (run_exit _ d fuel _ (Some hs)); [done|]. unfold header_step.
    simpl. by rewrite (proj2 (Nat.ltb_ge _ _)) by lia.
  - assert (Hlen : (2 < length (crlf_lines (l :: ls)))%nat).
    { rewrite crlf_lines_cons. destruct l; [done|]. len. }
    cbn [fold_headers].
    assert (Hstep : header_step (pre ++ crlf_lines (l :: ls) ++ CRLF ++ rest)
              (length pre + length (crlf_lines (l :: ls)) - 2) (length pre, hs)
            = match header_line l hs with
              | None => inr None
              | Some hs' => inl ((length pre + length l + 2)%nat, hs') end).
    { unfold header_step. rewrite (proj2 (Nat.ltb_lt _ _)) by lia.
      rewrite crlf_lines_cons, <- !app_assoc, find_crlf_from by done.
      rewrite (proj2 (Nat.ltb_ge _ _)) by len.
      unfold substr. rewrite drop_app_length.
      by rewrite take_app_length' by lia. }
    destruct (header_line l hs) as [hs'|] eqn:E.
    + rewrite (run_step _ _ _ _ _ Hstep).
      specialize (IH (pre ++ l ++ CRLF) hs' fuel ltac:(simpl in Hf; lia)).
      rewrite <- IH. f_equal; [|f_equal; len].
      f_equal; [|rewrite crlf_lines_cons; len].
      by rewrite crlf_lines_cons, <- !app_assoc.
    + by rewrite (run_exit _ _ _ _ _ Hstep).
Qed.

(** ** The strict-CRLF check on a rendering *)

Lemma crlf_ok_app_other pre c s :
  crlf_char c = false -> crlf_ok_at (pre ++ c :: s) (length pre) = true.
Proof.
  unfold crlf_char. intros H. bool_to_prop. unfold crlf_ok_at.
  rewrite list_lookup_middle by done.
  rewrite (proj2 (Ascii.eqb_neq c CR)) by done. by rewrite (proj2 (Ascii.eqb_neq c LF)).
Qed.

Lemma crlf_ok_app_CR pre s : crlf_ok_at (pre ++ CRLF ++ s) (length pre) = true.
Proof.
  unfold crlf_ok_at. cbn [CRLF app]. rewrite list_lookup_middle by done.
  rewrite Ascii.eqb_refl.
  change (CR :: LF :: s) with ([CR] ++ LF :: s). rewrite app_assoc.
  rewrite list_lookup_middle by len. done.
Qed.

Lemma crlf_ok_app_LF pre s : crlf_ok_at (pre ++ CRLF ++ s) (S (length pre)) = true.
Proof.
  unfold crlf_ok_at. cbn [CRLF app].
  assert (H0 : (pre ++ CR :: LF :: s) !! length pre = Some CR) by by apply list_lookup_middle.
  assert (H1 : (pre ++ CR :: LF :: s) !! S (length pre) = Some LF).
  { change (CR :: LF :: s) with ([CR] ++ LF :: s). rewrite app_assoc.
    apply list_lookup_middle. len. }
  by rewrite H1, H0.
Qed.

Lemma strict_crlf_spec raw n :
  strict_crlf raw n = true <-> forall i, (i < n)%nat -> crlf_ok_at raw i = true.
Proof.
  unfold strict_crlf. rewrite forallb_forall. split.
  - intros H i Hi. apply H, in_seq. lia.
  - intros H i Hi%in_seq. apply H. lia.
Qed.

Lemma clean_ok pre l s i :
  clean l -> (length pre <= i < length pre + length l)%nat ->
  crlf_ok_at (pre ++ l ++ s) i = true.
Proof.
  intros Hl. revert pre. induction Hl as [|c l Hc _ IH]; intros pre Hi; simpl in Hi; [lia|].
  destruct (decide (i = length pre)) as [->|Hne]; [by apply crlf_ok_app_other|].
  specialize (IH (pre ++ [c]) ltac:(len)). by rewrite <- app_assoc in IH.
Qed.

Lemma line_ok pre l s i :
  clean l -> (length pre <= i < length pre + length l + 2)%nat ->
  crlf_ok_at (pre ++ l ++ CRLF ++ s) i = true.
Proof.
  intros Hl Hi.
  destruct (decide (i < length pre + length l)%nat); [by apply clean_ok; [|lia]|].
  rewrite app_assoc. destruct (decide (i = length (pre ++ l))) as [->|Hne].
  - apply crlf_ok_app_CR.
  - replace i with (S (length (pre ++ l))); [apply crlf_ok_app_LF|].
    rewrite length_app in *. lia.
Qed.

Lemma lines_ok pre ls s i :
  wf_lines ls -> (length pre <= i < length pre + length (crlf_lines ls))%nat ->
  crlf_ok_at (pre ++ crlf_lines ls ++ s) i = true.
Proof.
  intros Hls. revert pre. induction Hls as [|l ls [Hl _] _ IH]; intros pre Hi.
  - simpl in Hi. lia.
  - rewrite crlf_lines_cons in *. rewrite !length_app in Hi. simpl in Hi. rewrite <- !app_assoc.
    destruct (decide (i < length pre + length l + 2)%nat); [by apply line_ok; [|lia]|].
    specialize (IH (pre ++ l ++ CRLF) ltac:(len)). by rewrite <- !app_assoc in IH.
Qed.

Lemma strict_crlf_render rl ls rest :
  clean rl -> wf_lines ls ->
  strict_crlf (render rl ls rest) (length rl + length (crlf_lines ls)) = true.
Proof.
  intros Hrl Hls. apply strict_crlf_spec. intros i Hi. unfold render.
  destruct (decide (i < length rl + 2)%nat).
  - apply (line_ok []); [done|simpl; lia].
  - rewrite (app_assoc rl CRLF). apply lines_ok; [done|]. len.
Qed.

(** The reference parser: on the request line and the header lines. *)
Definition parse_lines (req_line : bytes) (ls : list bytes) (req : HttpRequest)
    : option HttpRequest :=
  '(m, p, q, v) ← parse_request_line req_line;
  hs ← fold_headers ls (headers req);
  Some (detect_upgrades
          (MkRequest m p (match q with Some q => q | None => query_string req end) v hs
             (body req) (remote_addr req) (upgrade_websocket req) (ws_key req)
             (upgrade_sse req))).

Lemma length_crlf_lines ls : (length ls <= length (crlf_lines ls))%nat.
Proof. induction ls as [|l ls IH]; [done|]. rewrite crlf_lines_cons. len. Qed.

(** The parser computes the reference parser on the rendering of clean lines. *)
Lemma http_parse_render rl ls rest req :
  clean rl -> wf_lines ls ->
  http_parse_request (render rl ls rest) req = parse_lines rl ls req.
Proof.
  intros Hrl Hls. unfold http_parse_request, parse_lines, render.
  rewrite find_crlf by done. cbn [mbind option_bind].
  rewrite take_app_length.
  destruct (parse_request_line rl) as [[[[m p] q] v]|]; [|done]. cbn [mbind option_bind].
  rewrite find_crlf2 by done. cbn [mbind option_bind].
  fold (render rl ls rest). rewrite strict_crlf_render by done.
  pose proof (length_crlf_lines ls) as Hlen.
  pose proof (header_loop (rl ++ CRLF) ls rest None (headers req)
                (S (length (render rl ls rest))) Hls) as H.
  rewrite <- app_assoc in H. fold (render rl ls rest) in H.
  rewrite length_app in H. simpl in H.
  replace (length rl + 2 + length (crlf_lines ls) - 2)%nat
    with (length rl + length (crlf_lines ls))%nat in H by lia.
  rewrite H; [done|]. unfold render. len.
Qed.

(** * Every accepted request is a rendering *)

Lemma crlf_ok_after_LF pre s j :
  crlf_ok_at (pre ++ LF :: s) (length pre + S j) = crlf_ok_at s j.
Proof.
  unfold crlf_ok_at.
  assert (H : forall k, (pre ++ LF :: s) !! (length pre + S k)%nat = s !! k).
  { intros k. rewrite lookup_app_r by lia.
    by replace (length pre + S k - length pre)%nat with (S k) by lia. }
  rewrite H. replace (S (length pre + S j)) with (length pre + S (S j))%nat by lia. rewrite H.
  destruct (s !! j) as [c|]; [|done]. destruct (c =c CR); [done|]. destruct (c =c LF); [|done].
  replace (length pre + S j)%nat with (S (length pre + j)) by lia.
  destruct j as [|j].
  - rewrite Nat.add_0_r, list_lookup_middle by done. done.
  - by rewrite H.
Qed.

Definition strict (s t : bytes) : Prop :=
  forall i, (i < length s)%nat -> crlf_ok_at (s ++ t) i = true.

Lemma strict_lines n s t :
  (length s <= n)%nat -> strict s (CR :: t) ->
  exists l ls, s ++ CRLF = crlf_lines (l :: ls) /\ Forall clean (l :: ls).
Proof.
  revert s. induction n as [|n IH]; intros s Hn Hs.
  - destruct s; [|simpl in Hn; lia]. exists [], []. split; [done|]. by repeat constructor.
  - destruct (find_if crlf_char s) as [i|] eqn:E.
    + apply find_if_Some in E as (l & c & s2 & -> & <- & Hc & Hl).
      assert (Hok := Hs (length l) ltac:(len)). rewrite <- app_assoc in Hok.
      unfold crlf_ok_at in Hok. simpl in Hok. rewrite list_lookup_middle in Hok by done.
      destruct (c =c CR) eqn:Ec.
      * bool_to_prop. subst c.
        change (CR :: s2 ++ CR :: t) with ([CR] ++ s2 ++ CR :: t) in Hok.
        rewrite app_assoc in Hok.
        destruct s2 as [|d s2].
        { simpl in Hok. rewrite list_lookup_middle in Hok by len. done. }
        simpl in Hok. rewrite list_lookup_middle in Hok by len. bool_to_prop. subst d.
        rewrite length_app in Hn. simpl in Hn.
        destruct (IH s2 ltac:(lia)) as (l' & ls & Heq & Hcl).
        { intros i Hi. specialize (Hs (length l + 1 + S i)%nat ltac:(len)).
          replace ((l ++ CR :: LF :: s2) ++ CR :: t) with ((l ++ [CR]) ++ LF :: (s2 ++ CR :: t))
            in Hs by by rewrite <- !app_assoc.
          replace (length l + 1)%nat with (length (l ++ [CR])) in Hs by len.
          by rewrite crlf_ok_after_LF in Hs. }
        exists l, (l' :: ls). split; [|by constructor].
        rewrite crlf_lines_cons, <- Heq, <- app_assoc. done.
      * exfalso. unfold crlf_char in Hc. rewrite Ec in Hc. simpl in Hc.
        rewrite Hc in Hok. bool_to_prop. subst c.
        destruct (length l) as [|k] eqn:Ek; [done|].
        destruct ((l ++ LF :: s2 ++ CR :: t) !! k) as [d|] eqn:Ed; [|done].
        rewrite lookup_app_l in Ed by lia. apply (proj1 (Forall_lookup _ _) Hl) in Ed.
        unfold crlf_char in Ed. bool_to_prop. congruence.
    + apply find_if_None in E. exists s, []. rewrite crlf_lines_cons. split; [done|].
      by constructor.
Qed.

Lemma crlf_lines_app ls ls' : crlf_lines (ls ++ ls') = crlf_lines ls ++ crlf_lines ls'.
Proof. unfold crlf_lines. by rewrite map_app, concat_app. Qed.

Lemma crlf_lines_snoc l ls : exists x, crlf_lines (l :: ls) = x ++ CRLF.
Proof.
  revert l. induction ls as [|l' ls IH]; intros l.
  - exists l. by rewrite crlf_lines_cons.
  - destruct (IH l') as [x Hx]. exists (l ++ CRLF ++ x).
    by rewrite crlf_lines_cons, Hx, <- !app_assoc.
Qed.

Lemma no_empty_line raw l ls rest he :
  find_str (CRLF ++ CRLF) raw = Some he ->
  raw = crlf_lines (l :: ls) ++ CRLF ++ rest ->
  (he + 2 = length (crlf_lines (l :: ls)))%nat -> Forall (fun l => l <> []) ls.
Proof.
  intros Hfind Hraw Hhe. apply Forall_forall. intros l' Hin ->.
  apply list_elem_of_split in Hin as (la & lb & ->).
  destruct (crlf_lines_snoc l la) as [x Hx].
  assert (Heq : crlf_lines (l :: la ++ [] :: lb) = x ++ CRLF ++ CRLF ++ crlf_lines lb).
  { change (l :: la ++ [] :: lb) with ((l :: la) ++ [] :: lb).
    by rewrite crlf_lines_app, Hx, crlf_lines_cons, <- app_assoc. }
  rewrite Heq in *.
  assert (Hle : (he <= length x)%nat).
  { eapply (find_str_first _ raw he x _ Hfind). rewrite Hraw, <- !app_assoc. done. }
  rewrite !length_app, length_CRLF in Hhe. lia.
Qed.

Lemma accepted_is_render raw req r :
  http_parse_request raw req = Some r ->
  exists rl ls rest, raw = render rl ls rest /\ clean rl /\ wf_lines ls /\
                     parse_lines rl ls req = Some r.
Proof.
  intros H. assert (Hp := H). unfold http_parse_request in H.
  destruct (find_str CRLF raw) as [le|]; [|done]. cbn [mbind option_bind] in H.
  destruct (parse_request_line (take le raw)) as [[[[m p] q] v]|]; [|done].
  cbn [mbind option_bind] in H.
  destruct (find_str (CRLF ++ CRLF) raw) as [he|] eqn:Ehe; [|done]. cbn [mbind option_bind] in H.
  destruct (strict_crlf raw he) eqn:Es; [|done]. clear H.
  destruct (find_str_Some _ _ _ Ehe) as (s1 & rest & Hraw & Hlen).
  rewrite <- app_assoc in Hraw.
  destruct (strict_lines (length s1) s1 (LF :: CRLF ++ rest)) as (rl & ls & Hl & Hcl); [done| |].
  { intros i Hi. rewrite strict_crlf_spec in Es. rewrite <- Hlen in Es.
    specialize (Es i Hi). by rewrite Hraw in Es. }
  rewrite app_assoc, Hl in Hraw.
  assert (Hne := no_empty_line raw rl ls rest he Ehe Hraw ltac:(rewrite <- Hl; len)).
  apply Forall_cons in Hcl as [Hrl Hcl].
  assert (Hwf : wf_lines ls) by by apply Forall_and.
  assert (Hr : raw = render rl ls rest).
  { rewrite Hraw. unfold render. by rewrite crlf_lines_cons, <- !app_assoc. }
  exists rl, ls, rest. repeat split; [done..|].
  rewrite Hr in Hp. by rewrite http_parse_render in Hp.
Qed.

(** ** What an accepted header block cannot hold *)

(** The field a line carries: lower-cased name and trimmed value. *)
Definition field (l : bytes) : option (bytes * bytes) :=
  match find_if (is_c COLON) l with
  | Some colon => Some (map tolower (take colon l), trim_back (trim_front (drop (colon + 1) l)))
  | None => None
  end.

(** No continuation line, and no blank between the name and the colon. *)
Definition no_fold (l : bytes) : Prop := forall c l', l = c :: l' -> blank c = false.
Definition tight_name (l : bytes) : Prop :=
  forall colon c, find_if (is_c COLON) l = Some colon -> last (take colon l) = Some c ->
                  blank c = false.

Lemma header_line_Some l hs hs' :
  header_line l hs = Some hs' ->
  no_fold l /\ tight_name l /\
  match field l with
  | None => hs' = hs
  | Some (k, v) =>
      hs' = <[k := v]> hs /\
      (k = lit "content-length" ->
       hs !! (lit "content-length") = None \/ hs !! (lit "content-length") = Some v)
  end.
Proof.
  unfold header_line, field, no_fold, tight_name, last_char.
  assert (Hf : forall (b : bool) (x : option (gmap (list ascii) (list ascii))),
    (if b then None else x) = Some hs' -> b = false /\ x = Some hs') by (intros b ?; by destruct b).
  intros [Hb H]%Hf. split; [by intros c l' ->|].
  destruct (find_if (is_c COLON) l) as [colon|]; [|split; [done|by simplify_eq]].
  apply Hf in H as [Hk H]. split.
  { intros colon' c [= <-] Hlast. by rewrite Hlast in Hk. }
  apply Hf in H as [Hcl H]. simplify_eq. split; [done|]. intros Hkey.
  rewrite Hkey, bytes_eqb_refl in Hcl. simpl in Hcl.
  destruct (hs !! _) as [ex|]; [|by left]. bool_to_prop. subst. by right.
Qed.

Lemma fold_headers_ok ls hs hs' :
  fold_headers ls hs = Some hs' ->
  Forall (fun l => no_fold l /\ tight_name l) ls /\
  (forall v, hs !! (lit "content-length") = Some v -> hs' !! (lit "content-length") = Some v) /\
  (forall l v, l ∈ ls -> field l = Some (lit "content-length", v) ->
               hs' !! (lit "content-length") = Some v).
Proof.
  revert hs. induction ls as [|l ls IH]; intros hs; cbn [fold_headers].
  - intros [= <-]. split; [constructor|]. split; [done|]. by intros ? ? ?%not_elem_of_nil.
  - destruct (header_line l hs) as [hs1|] eqn:E; [|done]. intros H.
    apply header_line_Some in E as (Hnf & Htn & Hfield).
    destruct (IH hs1 H) as (Hls & Hkeep & Hcl). split; [by constructor|].
    destruct (field l) as [[k v]|] eqn:Ef.
    + destruct Hfield as [-> Hcons].
      destruct (decide (k = lit "content-length")) as [->|Hk].
      * rewrite lookup_insert_eq in Hkeep. specialize (Hkeep v eq_refl).
        specialize (Hcons eq_refl). split.
        -- intros v0 Hv0. destruct Hcons; congruence.
        -- intros l' v' [->|Hin]%elem_of_cons Hf; [congruence|eauto].
      * rewrite lookup_insert_ne in Hkeep by done. split; [eauto|].
        intros l' v' [->|Hin]%elem_of_cons Hf; [congruence|eauto].
    + subst hs1. split; [eauto|].
      intros l' v' [->|Hin]%elem_of_cons Hf; [congruence|eauto].
Qed.

Lemma detect_upgrades_headers r : headers (detect_upgrades r) = headers r.
Proof. unfold detect_upgrades. repeat case_match; done. Qed.

(** C34: request smuggling. A request the parser accepts is exactly its lines:
    the raw bytes are a request line and header lines separated by CRLF, with
    no bare CR or LF inside a line, no empty line, no folded (continuation)
    line and no blank before a colon; and every Content-Length line of the
    block carries the value the request reports. *)
Theorem accepted_request_framing raw r :
  http_parse_request raw empty_request = Some r ->
  exists rl ls rest,
    raw = render rl ls rest /\ clean rl /\
    Forall (fun l => clean l /\ l <> [] /\ no_fold l /\ tight_name l) ls /\
    (forall l v, l ∈ ls -> field l = Some (lit "content-length", v) ->
                 headers r !! (lit "content-length") = Some v).
Proof.
  intros (rl & ls & rest & Hraw & Hrl & Hls & Hp)%accepted_is_render.
  unfold parse_lines in Hp. destruct (parse_request_line rl) as [[[[m p] q] v]|]; [|done].
  cbn [mbind option_bind] in Hp.
  destruct (fold_headers ls (headers empty_request)) as [hs|] eqn:E; [|done].
  cbn [mbind option_bind] in Hp. simplify_eq.
  apply fold_headers_ok in E as (Hok & _ & Hcl).
  exists rl, ls, rest. split; [done|]. split; [done|]. split.
  - apply (Forall_impl _ _ _ (proj2 (Forall_and _ _) (conj Hls Hok))). cbn. tauto.
  - intros l v' Hin Hf. rewrite detect_upgrades_headers. simpl. eauto.
Qed.
Lemma accepted_request_framing_witness :
  exists raw r, http_parse_request raw empty_request = Some r /\
    exists rl ls rest, raw = render rl ls rest /\ clean rl.
Proof.
  exists (lit "POST / HTTP/1.1" ++ CRLF ++ lit "Content-Length: 5" ++ CRLF ++ CRLF ++ lit "hello").
  eexists. split; [vm_compute; reflexivity|].
  destruct (accepted_request_framing
    (lit "POST / HTTP/1.1" ++ CRLF ++ lit "Content-Length: 5" ++ CRLF ++ CRLF ++ lit "hello") _
    ltac:(vm_compute; reflexivity)) as (rl & ls & rest & H1 & H2 & _).
  exists rl, ls, rest. split; [exact H1|exact H2].
Defined.

(** * Parsing a well-formed request *)

Definition no_sp (s : bytes) : Prop := Forall (fun c => is_c SP c = false) s.

(** The bytes of a field line [Name: value]. *)
Definition field_line (f : bytes * bytes) : bytes := f.1 ++ COLON :: SP :: f.2.

Record valid_field (f : bytes * bytes) : Prop := {
  vf_name_clean : clean f.1;
  vf_name : f.1 <> [];
  vf_no_colon : Forall (fun c => is_c COLON c = false) f.1;
  vf_no_blank : Forall (fun c => blank c = false) f.1;
  vf_value_clean : clean f.2;
  vf_trimmed : trim_back (trim_front f.2) = f.2 }.

Definition insert_fields (fs : list (bytes * bytes)) (hs : gmap (list ascii) (list ascii)) :=
  fold_left (fun hs f => <[map tolower f.1 := f.2]> hs) fs hs.

Lemma header_line_field f hs :
  valid_field f ->
  (map tolower f.1 = lit "content-length" -> hs !! (lit "content-length") = None) ->
  header_line (field_line f) hs = Some (<[map tolower f.1 := f.2]> hs).
Proof.
  intros [Hnc Hne Hcol Hbl Hvc Htr] Hcl. destruct f as [n v]. cbn [fst snd] in *.
  unfold header_line, field_line. cbn [fst snd].
  assert (match n ++ COLON :: SP :: v with c :: _ => blank c | [] => false end = false) as ->.
  { destruct n as [|c n]; [done|]. by apply Forall_cons in Hbl as [? _]. }
  rewrite (find_if_app_l (is_c COLON)) by (done || apply is_c_refl).
  rewrite take_app_length, <- drop_drop, drop_app_length.
  cbn [drop trim_front]. change (blank SP) with true. cbv iota.
  rewrite Htr. unfold last_char.
  assert (match last n with Some c => blank c | None => false end = false) as ->.
  { destruct (last n) as [c|] eqn:E; [|done]. apply last_Some in E as [n' ->].
    apply Forall_app in Hbl as [_ Hbl]. by apply Forall_cons in Hbl as [? _]. }
  destruct (bytes_eqb_spec (map tolower n) (lit "content-length")) as [E|]; [|done].
  by rewrite Hcl.
Qed.

Definition cl_free (fs : list (bytes * bytes)) : Prop :=
  Forall (fun f => map tolower f.1 <> lit "content-length") fs.

(** At most one Content-Length field. *)
Fixpoint one_cl (fs : list (bytes * bytes)) : Prop :=
  match fs with
  | [] => True
  | f :: fs' => (map tolower f.1 = lit "content-length" -> cl_free fs') /\ one_cl fs'
  end.

Lemma fold_headers_fields fs hs :
  Forall valid_field fs -> one_cl fs ->
  (cl_free fs \/ hs !! (lit "content-length") = None) ->
  fold_headers (map field_line fs) hs = Some (insert_fields fs hs).
Proof.
  intros Hfs. revert hs. induction Hfs as [|f fs Hf _ IH]; intros hs; [done|].
  cbn [one_cl map fold_headers]. intros [Hone Hone'] Hcl.
  rewrite header_line_field; [|done|].
  - apply IH; [done|]. destruct Hcl as [Hcl|Hcl].
    + left. by apply Forall_cons in Hcl as [_ ?].
    + destruct (decide (map tolower f.1 = lit "content-length")) as [E|E]; [left; auto|].
      right. by rewrite lookup_insert_ne.
  - intros E. destruct Hcl as [Hcl|Hcl]; [|done].
    by apply Forall_cons in Hcl as [? _].
Qed.

Lemma field_line_wf f : valid_field f -> clean (field_line f) /\ field_line f <> [].
Proof.
  intros [Hnc Hne _ _ Hvc _]. unfold field_line. split.
  - apply Forall_app. split; [done|]. by repeat constructor.
  - by destruct (f.1).
Qed.

Lemma parse_request_line_ok m target v :
  no_sp m -> no_sp v ->
  parse_request_line (m ++ SP :: target ++ SP :: v) =
  Some (m, match find_if (is_c QMARK) target with Some q => take q target | None => target end,
        match find_if (is_c QMARK) target with
        | Some q => Some (drop (q + 1) target) | None => None end, v).
Proof.
  intros Hm Hv. unfold parse_request_line.
  rewrite (find_if_app_l (is_c SP)) by (done || apply is_c_refl).
  replace (m ++ SP :: target ++ SP :: v) with ((m ++ SP :: target) ++ SP :: v)
    by by rewrite <- app_assoc.
  rewrite (rfind_if_app_r (is_c SP)) by (done || apply is_c_refl).
  rewrite (proj2 (Nat.eqb_neq _ _)) by len.
  assert (Hs : substr ((m ++ SP :: target) ++ SP :: v) (length m + 1)
             (length (m ++ SP :: target) - length m - 1) = target).
  { unfold substr. rewrite <- app_assoc, <- drop_drop, drop_app_length. cbn [app drop].
    apply take_app_length'. len. }
  rewrite Hs.
  assert (Ht : take (length m) ((m ++ SP :: target) ++ SP :: v) = m)
    by (rewrite <- app_assoc; apply take_app_length).
  assert (Hd : drop (length (m ++ SP :: target) + 1) ((m ++ SP :: target) ++ SP :: v) = v)
    by (by rewrite <- drop_drop, drop_app_length).
  rewrite Ht, Hd. by destruct (find_if (is_c QMARK) target).
Qed.

(** A well-formed request is parsed to what it says. The method, the
    target split at its first [?], the version and the header fields (names
    in lower case, the last of a repeated name winning, one Content-Length)
    are those the bytes were written from, whatever follows the header. *)
Theorem parse_well_formed m target v fs rest :
  no_sp m -> no_sp v -> clean m -> clean target -> clean v ->
  Forall valid_field fs -> one_cl fs ->
  exists r,
    http_parse_request (render (m ++ SP :: target ++ SP :: v) (map field_line fs) rest)
      empty_request = Some r /\
    method r = m /\ version r = v /\ headers r = insert_fields fs ∅ /\
    target = path r ++ match find_if (is_c QMARK) target with
                       | Some _ => QMARK :: query_string r | None => [] end.
Proof.
  intros Hm Hv Cm Ct Cv Hfs Hone.
  rewrite http_parse_render.
  2: { apply Forall_app. split; [done|]. constructor; [done|]. apply Forall_app.
       split; [done|]. by constructor. }
  2: { apply Forall_map. eapply Forall_impl; [exact Hfs|]. apply field_line_wf. }
  unfold parse_lines. rewrite parse_request_line_ok by done. cbn [mbind option_bind].
  rewrite fold_headers_fields by (done || by right). cbn [mbind option_bind].
  eexists. split; [done|].
  assert (Hd : forall r, method (detect_upgrades r) = method r /\
             version (detect_upgrades r) = version r /\
             path (detect_upgrades r) = path r /\
             query_string (detect_upgrades r) = query_string r).
  { intros r. unfold detect_upgrades. repeat case_match; done. }
  destruct (Hd (MkRequest m (match find_if (is_c QMARK) target with
      Some q => take q target | None => target end)
    (match match find_if (is_c QMARK) target with
        | Some q => Some (drop (q + 1) target) | None => None end with
     | Some q => q | None => query_string empty_request end) v
    (insert_fields fs (headers empty_request)) (body empty_request)
    (remote_addr empty_request) (upgrade_websocket empty_request) (ws_key empty_request)
    (upgrade_sse empty_request))) as (-> & -> & -> & ->).
  rewrite detect_upgrades_headers. cbn. repeat split.
  destruct (find_if (is_c QMARK) target) as [q|] eqn:E; [|by rewrite app_nil_r].
  apply find_if_split in E as (c & Heq & Hc & _). apply is_c_spec in Hc as ->.
  by rewrite Nat.add_1_r.
Qed.
Lemma parse_well_formed_witness :
  exists r,
    http_parse_request (render (lit "GET" ++ SP :: lit "/a?x=1" ++ SP :: lit "HTTP/1.1")
      (map field_line [(lit "Host", lit "h"); (lit "Content-Length", lit "0")]) []) empty_request
    = Some r /\ method r = lit "GET".
Proof.
  destruct (parse_well_formed (lit "GET") (lit "/a?x=1") (lit "HTTP/1.1")
    [(lit "Host", lit "h"); (lit "Content-Length", lit "0")] []
    ltac:(repeat constructor) ltac:(repeat constructor) ltac:(repeat constructor)
    ltac:(repeat constructor) ltac:(repeat constructor)
    ltac:(repeat constructor; discriminate) ltac:(repeat constructor; discriminate))
    as (r & Hr & Hm & _).
  exists r. split; [exact Hr|exact Hm].
Defined.

End Http.
