(* ===== verification/Fcgi.v ===== *)
(** FastCGI: the wire parsers of cpp/include/look/fcgi_parse.h and the
    connection of cpp/src/fcgi_main.cpp built on them (record reading and
    writing, the [accept] state machine that assembles a request).

    A read outside the buffer is [None], so "the result is [Some]" is memory
    safety. The socket is the list of the segments [recv] will deliver. *)

From S2P Require Import Prelude.

Module Fcgi.

(** ** Protocol constants and data (fcgi.h) *)

Inductive FcgiType :=
| FCGI_BEGIN_REQUEST | FCGI_ABORT_REQUEST | FCGI_END_REQUEST | FCGI_PARAMS | FCGI_STDIN
| FCGI_STDOUT | FCGI_STDERR | FCGI_DATA | FCGI_GET_VALUES | FCGI_GET_VALUES_RESULT.

Definition type_code (t : FcgiType) : Z :=
  match t with
  | FCGI_BEGIN_REQUEST => 1 | FCGI_ABORT_REQUEST => 2 | FCGI_END_REQUEST => 3
  | FCGI_PARAMS => 4 | FCGI_STDIN => 5 | FCGI_STDOUT => 6 | FCGI_STDERR => 7
  | FCGI_DATA => 8 | FCGI_GET_VALUES => 9 | FCGI_GET_VALUES_RESULT => 10
  end.

Inductive FcgiProtoStatus :=
| FCGI_REQUEST_COMPLETE | FCGI_CANT_MPX_CONN | FCGI_OVERLOADED | FCGI_UNKNOWN_ROLE.

Definition status_code (s : FcgiProtoStatus) : Z :=
  match s with
  | FCGI_REQUEST_COMPLETE => 0 | FCGI_CANT_MPX_CONN => 1
  | FCGI_OVERLOADED => 2 | FCGI_UNKNOWN_ROLE => 3
  end.

Record FcgiRecordHeader := MkHeader {
  h_version : Z; h_type : Z; h_req_id : Z; h_content_len : Z; h_padding_len : Z }.

Record FcgiRequest := MkFcgiRequest {
  id : Z;
  keep_conn : bool;
  params : gmap (list ascii) (list ascii);
  body : bytes }.

Definition empty_request : FcgiRequest := MkFcgiRequest 0 false ∅ [].

(** ** Pure parsers (fcgi_parse.h) *)

(** [(uint16_t)((a << 8) | b)] *)
Definition be16 (a b : ascii) : Z := Z.lor (Z.shiftl (ord a) 8) (ord b) mod 2 ^ 16.

(** The argument is a [uint8_t[8]]. *)
Definition fcgi_decode_header (hdr : bytes) : FcgiRecordHeader :=
  match hdr with
  | [b0; b1; b2; b3; b4; b5; b6; b7] =>
      MkHeader (ord b0) (ord b1) (be16 b2 b3) (be16 b4 b5) (ord b6)
  | _ => MkHeader 0 0 0 0 0
  end.

Definition fcgi_begin_keep_conn (content : bytes) : bool :=
  match content with
  | _ :: _ :: c :: _ => negb (Z.land (ord c) 1 =? 0)
  | _ => false
  end.

(** The value read and the new [p]. *)
Definition fcgi_read_len (buf : bytes) (p : nat) : option (Z * nat) :=
  if (length buf <=? p)%nat then Some (0, p)
  else
    c ← buf !! p;
    if Z.shiftr (ord c) 7 =? 0 then Some (ord c, S p)
    else if (length buf <? p + 4)%nat then Some (0, p)
    else
      c1 ← buf !! (p + 1)%nat;
      c2 ← buf !! (p + 2)%nat;
      c3 ← buf !! (p + 3)%nat;
      Some (Z.lor (Z.lor (Z.lor (Z.shiftl (Z.land (ord c) 127) 24) (Z.shiftl (ord c1) 16))
                         (Z.shiftl (ord c2) 8)) (ord c3), (p + 4)%nat).

(** [std::string(p, p + n)] *)
Definition read_range (buf : bytes) (p n : nat) : option bytes :=
  if (p + n <=? length buf)%nat then Some (substr buf p n) else None.

Definition params_step (buf : bytes) (st : nat * gmap (list ascii) (list ascii))
    : nat * gmap (list ascii) (list ascii) + option (gmap (list ascii) (list ascii)) :=
  let (p, out) := st in
  if (p <? length buf)%nat then
    let q := p in
    match fcgi_read_len buf p with
    | None => inr None
    | Some (nlen, p) =>
    match fcgi_read_len buf p with
    | None => inr None
    | Some (vlen, p) =>
        if (p =? q)%nat then inr (Some out)
        else if Z.of_nat (length buf) <? Z.of_nat p + nlen + vlen then inr (Some out)
        else
          match read_range buf p (Z.to_nat nlen) with
          | None => inr None
          | Some name =>
              let p := (p + Z.to_nat nlen)%nat in
              match read_range buf p (Z.to_nat vlen) with
              | None => inr None
              | Some value => inl ((p + Z.to_nat vlen)%nat, <[name := value]> out)
              end
          end
    end
    end
  else inr (Some out).

Definition fcgi_parse_params (buf : bytes) (out : gmap (list ascii) (list ascii))
    : option (gmap (list ascii) (list ascii)) :=
  run (params_step buf) None (S (length buf)) (0%nat, out).

(** ** The connection (fcgi_main.cpp)

    [inp] holds the segments the peer sends, in order; an exhausted list is a
    closed (or timed out) connection, for which [recv] returns 0. [out] is
    what was written. *)

Record FcgiConn := MkConn { inp : list bytes; out : bytes }.

(** [recv(sock, buf, n)]: at most [n] bytes of the next segment. *)
Definition recv (segs : list bytes) (n : nat) : bytes * list bytes :=
  match segs with
  | [] => ([], [])
  | s :: segs' => if (length s <=? n)%nat then (s, segs') else (take n s, drop n s :: segs')
  end.

Definition raw_read_step (len : nat) (st : bytes * list bytes)
    : bytes * list bytes + option bytes * list bytes :=
  let (buf, segs) := st in
  if (length buf <? len)%nat then
    let (r, segs') := recv segs (len - length buf) in
    match r with [] => inr (None, segs') | _ => inl (buf ++ r, segs') end
  else inr (Some buf, segs).

(** [None] is [return false]. *)
Definition raw_read (c : FcgiConn) (len : nat) : option bytes * FcgiConn :=
  let '(r, segs) := run (raw_read_step len) (None, []) (S len) ([], inp c) in
  (r, MkConn segs (out c)).

(** The callers ignore its result: what is written is appended. *)
Definition raw_write (c : FcgiConn) (data : bytes) : FcgiConn := MkConn (inp c) (out c ++ data).

Definition read_record (c : FcgiConn) : option (Z * Z * bytes) * FcgiConn :=
  let (hdr, c) := raw_read c 8 in
  match hdr with
  | None => (None, c)
  | Some hdr =>
      let h := fcgi_decode_header hdr in
      let (content, c) := if 0 <? h_content_len h then raw_read c (Z.to_nat (h_content_len h))
                          else (Some [], c) in
      match content with
      | None => (None, c)
      | Some content =>
          let (pad, c) := if 0 <? h_padding_len h then raw_read c (Z.to_nat (h_padding_len h))
                          else (Some [], c) in
          match pad with
          | None => (None, c)
          | Some _ => (Some (h_type h, h_req_id h, content), c)
          end
      end
  end.

(** The eight header bytes [write_record] builds. *)
Definition record_header (type : Z) (req_id chunk : Z) (padding : Z) : bytes :=
  [chr 1; chr type; chr (Z.shiftr req_id 8); chr (Z.land req_id 255);
   chr (Z.shiftr chunk 8); chr (Z.land chunk 255); chr padding; chr 0].

Definition write_step (type : Z) (req_id : Z) (data : bytes) (st : nat * FcgiConn)
    : nat * FcgiConn + FcgiConn :=
  let (offset, c) := st in
  let chunk := Z.min 65535 (Z.of_nat (length data) - Z.of_nat offset) in
  let padding := (8 - chunk mod 8) mod 8 in
  let c := raw_write c (record_header type req_id chunk padding) in
  let c := if 0 <? chunk then raw_write c (substr data offset (Z.to_nat chunk)) else c in
  let c := if 0 <? padding then raw_write c (replicate (Z.to_nat padding) NUL) else c in
  let offset := (offset + Z.to_nat chunk)%nat in
  if (offset <? length data)%nat then inl (offset, c) else inr c.

Definition write_record (c : FcgiConn) (type : Z) (req_id : Z) (data : bytes) : FcgiConn :=
  run (write_step type req_id data) c (S (length data)) (0%nat, c).

Definition end_request (c : FcgiConn) (req_id : Z) (app_status : Z) : FcgiConn :=
  write_record c (type_code FCGI_END_REQUEST) req_id
    [chr (Z.shiftr app_status 24); chr (Z.shiftr app_status 16); chr (Z.shiftr app_status 8);
     chr (Z.land app_status 255); chr (status_code FCGI_REQUEST_COMPLETE); NUL; NUL; NUL].

Definition write_stdout (c : FcgiConn) (req_id : Z) (data : bytes) : FcgiConn :=
  let c := match data with [] => c | _ => write_record c (type_code FCGI_STDOUT) req_id data end in
  write_record c (type_code FCGI_STDOUT) req_id [].

Definition write_stderr (c : FcgiConn) (req_id : Z) (data : bytes) : FcgiConn :=
  let c := match data with [] => c | _ => write_record c (type_code FCGI_STDERR) req_id data end in
  write_record c (type_code FCGI_STDERR) req_id [].

(** [LOOK_MAX_BODY_SIZE], 10 MB when it is not set. *)
Definition max_body (env : option Z) : Z :=
  match env with
  | Some n => if 0 <? n then n else 10 * 1024 * 1024
  | None => 10 * 1024 * 1024
  end.

(** One turn of the [while (true)] of [accept]. The result is the returned
    boolean, the request and the connection; [None] is an out-of-bounds read. *)
Definition accept_step (max : Z) (st : FcgiRequest * bool * FcgiConn)
    : FcgiRequest * bool * FcgiConn + option (bool * FcgiRequest * FcgiConn) :=
  let '(req, in_request, c) := st in
  match read_record c with
  | (None, c) => inr (Some (false, req, c))
  | (Some (type, rid, content), c) =>
      if type =? type_code FCGI_BEGIN_REQUEST then
        if (8 <=? length content)%nat then
          inl (MkFcgiRequest rid (fcgi_begin_keep_conn content) (params req) (body req), true, c)
        else inl (req, in_request, c)
      else if type =? type_code FCGI_PARAMS then
        if in_request && (rid =? id req) then
          match content with
          | [] => inl (req, in_request, c)
          | _ =>
              match fcgi_parse_params content (params req) with
              | None => inr None
              | Some ps => inl (MkFcgiRequest (id req) (keep_conn req) ps (body req), in_request, c)
              end
          end
        else inl (req, in_request, c)
      else if type =? type_code FCGI_STDIN then
        if in_request && (rid =? id req) then
          match content with
          | [] => inr (Some (true, req, c))
          | _ =>
              if max <? Z.of_nat (length (body req) + length content) then
                inr (Some (false, req, end_request c rid 1))
              else
                inl (MkFcgiRequest (id req) (keep_conn req) (params req) (body req ++ content),
                     in_request, c)
          end
        else inl (req, in_request, c)
      else if type =? type_code FCGI_ABORT_REQUEST then
        inl (empty_request, false, end_request c rid 1)
      else if type =? type_code FCGI_GET_VALUES then
        inl (req, in_request, write_record c (type_code FCGI_GET_VALUES_RESULT) 0 [])
      else inl (req, in_request, c)
  end.

Definition pending (c : FcgiConn) : nat := length (concat (inp c)).

Definition accept (max : Z) (c : FcgiConn) : option (bool * FcgiRequest * FcgiConn) :=
  run (accept_step max) None (S (pending c)) (empty_request, false, c).

(** * FCGI_PARAMS: memory safety *)

Lemma read_len_safe buf p :
  (p <= length buf)%nat ->
  exists n p', fcgi_read_len buf p = Some (n, p') /\ (p <= p' <= length buf)%nat /\ 0 <= n.
Proof.
  intros Hp. unfold fcgi_read_len.
  destruct (length buf <=? p)%nat eqn:E1; bool_to_prop; [by exists 0, p|].
  destruct (lookup_lt_is_Some_2 buf p ltac:(lia)) as [c Hc]. rewrite Hc. cbn [mbind option_bind].
  case_if; [exists (ord c), (S p); pose proof (ord_range c); repeat split; lia|].
  destruct (length buf <? p + 4)%nat eqn:E2; bool_to_prop; [by exists 0, p|].
  destruct (lookup_lt_is_Some_2 buf (p + 1)%nat ltac:(lia)) as [c1 ->].
  destruct (lookup_lt_is_Some_2 buf (p + 2)%nat ltac:(lia)) as [c2 ->].
  destruct (lookup_lt_is_Some_2 buf (p + 3)%nat ltac:(lia)) as [c3 ->].
  cbn [mbind option_bind]. eexists _, _. split; [done|]. split; [lia|].
  rewrite !Z.lor_nonneg, !Z.shiftl_nonneg, Z.land_nonneg.
  pose proof (ord_range c). pose proof (ord_range c1). pose proof (ord_range c2).
  pose proof (ord_range c3). lia.
Qed.

Lemma read_range_safe buf p n :
  (p + n <= length buf)%nat -> read_range buf p n = Some (substr buf p n).
Proof. intros H. unfold read_range. by rewrite (proj2 (Nat.leb_le _ _)). Qed.

(** The FCGI_PARAMS parser is memory safe and terminates on every buffer.
    It never reads outside the buffer, returns within one turn per byte, and
    whatever it adds to the map is a name and a value that occur in the
    buffer. *)
Theorem fcgi_parse_params_safe buf out :
  exists out', fcgi_parse_params buf out = Some out' /\
    forall k v, out' !! k = Some v -> out !! k = Some v \/ (occurs k buf /\ occurs v buf).
Proof.
  unfold fcgi_parse_params.
  apply (run_inv (params_step buf)
    (fun st => (st.1 <= length buf)%nat /\
       forall k v, st.2 !! k = Some v -> out !! k = Some v \/ (occurs k buf /\ occurs v buf))
    (fun st => length buf - st.1)%nat
    (fun r => exists out', r = Some out' /\
       forall k v, out' !! k = Some v -> out !! k = Some v \/ (occurs k buf /\ occurs v buf))).
  3: { split; [simpl; lia|]. simpl. tauto. }
  3: { simpl. lia. }
  - intros [p m] st' [Hp Hm]. cbn [fst snd] in *. unfold params_step.
    destruct (p <? length buf)%nat eqn:Hlt; [|done]. bool_to_prop.
    destruct (read_len_safe buf p Hp) as (nlen & p1 & -> & Hp1 & Hn).
    destruct (read_len_safe buf p1 ltac:(lia)) as (vlen & p2 & -> & Hp2 & Hv).
    destruct (p2 =? p)%nat eqn:Hpr; [done|].
    destruct (Z.of_nat (length buf) <? _) eqn:Hfit; [done|]. bool_to_prop.
    rewrite !read_range_safe by lia. intros [= <-]. cbn [fst snd]. split; [|lia].
    split; [lia|]. intros k v. destruct (decide (substr buf p2 (Z.to_nat nlen) = k)) as [<-|Hk].
    + rewrite lookup_insert_eq. intros [= <-]. right. split; apply substr_occurs.
    + rewrite lookup_insert_ne by done. apply Hm.
  - intros [p m] r [Hp Hm]. cbn [fst snd] in *. unfold params_step.
    destruct (p <? length buf)%nat eqn:Hlt; [|intros [= <-]; by exists m]. bool_to_prop.
    destruct (read_len_safe buf p Hp) as (nlen & p1 & -> & Hp1 & Hn).
    destruct (read_len_safe buf p1 ltac:(lia)) as (vlen & p2 & -> & Hp2 & Hv).
    destruct (p2 =? p)%nat eqn:Hpr; [intros [= <-]; by exists m|].
    destruct (Z.of_nat (length buf) <? _) eqn:Hfit; [intros [= <-]; by exists m|]. bool_to_prop.
    by rewrite !read_range_safe by lia.
Qed.

(** * FCGI_PARAMS: round trip

    The encoding of the FastCGI specification: a length below 128 is one
    byte, any length below 2^31 may be four bytes with the high bit set. *)

Definition enc_len (long : bool) (n : Z) : bytes :=
  if long then [chr (128 + n / 2 ^ 24); chr (n / 2 ^ 16); chr (n / 2 ^ 8); chr n] else [chr n].
Definition len_ok (long : bool) (n : Z) : Prop := 0 <= n < if long then 2 ^ 31 else 128.

Record pair := MkPair { long_name : bool; long_value : bool; pname : bytes; pvalue : bytes }.

Definition enc_pair (p : pair) : bytes :=
  enc_len (long_name p) (Z.of_nat (length (pname p))) ++
  enc_len (long_value p) (Z.of_nat (length (pvalue p))) ++ pname p ++ pvalue p.
Definition pair_ok (p : pair) : Prop :=
  len_ok (long_name p) (Z.of_nat (length (pname p))) /\
  len_ok (long_value p) (Z.of_nat (length (pvalue p))).

Definition insert_pairs (ps : list pair) (out : gmap (list ascii) (list ascii)) :=
  fold_left (fun m p => <[pname p := pvalue p]> m) ps out.

Lemma read_len_enc pre long n rest :
  len_ok long n ->
  fcgi_read_len (pre ++ enc_len long n ++ rest) (length pre) =
  Some (n, (length pre + length (enc_len long n))%nat).
Proof.
  unfold len_ok. intros Hn. unfold fcgi_read_len.
  rewrite (proj2 (Nat.leb_gt _ _)) by (rewrite !length_app; destruct long; simpl; lia).
  rewrite lookup_pre0. destruct long; cbn [enc_len app lookup list_lookup mbind option_bind].
  - assert (Hq : 0 <= n / 2 ^ 24 < 128)
      by (split; [apply Z.div_pos; lia|apply Z.div_lt_upper_bound; lia]).
    rewrite ord_chr_small by lia.
    rewrite (proj2 (Z.eqb_neq _ _))
      by (rewrite Z.shiftr_div_pow2 by lia;
          pose proof (Z.div_le_lower_bound (128 + n / 2 ^ 24) (2 ^ 7) 1); lia).
    rewrite (proj2 (Nat.ltb_ge _ _)) by (rewrite !length_app; simpl; lia).
    rewrite !lookup_pre. cbn [app lookup list_lookup mbind option_bind]. f_equal. f_equal.
    change 127 with (Z.ones 7). rewrite Z.land_ones by lia. change (2 ^ 7) with 128.
    replace (128 + n / 2 ^ 24) with (n / 2 ^ 24 + 1 * 128) by lia.
    rewrite Z.mod_add, (Z.mod_small (n / 2 ^ 24)) by lia. rewrite !ord_chr.
    assert (Hs : forall a b k j, 0 <= j -> k = j + 8 ->
      Z.lor (Z.shiftl a k) (Z.shiftl (b mod 256) j) = Z.shiftl (a * 256 + b mod 256) j).
    { intros a b k j Hj ->. rewrite Z.add_comm, <- Z.shiftl_shiftl, <- Z.shiftl_lor by lia.
      by rewrite lor_shiftl by (try apply Z.mod_pos_bound; lia). }
    rewrite (Hs _ _ 24 16) by lia. rewrite (Hs _ _ 16 8) by lia.
    rewrite lor_shiftl by (try apply Z.mod_pos_bound; lia).
    assert (E1 : n / 2 ^ 16 = n / 2 ^ 8 / 256) by by rewrite Z.div_div by lia.
    assert (E2 : n / 2 ^ 24 = n / 2 ^ 16 / 256) by by rewrite Z.div_div by lia.
    pose proof (Z.div_mod n 256 ltac:(lia)). pose proof (Z.div_mod (n / 2 ^ 8) 256 ltac:(lia)).
    pose proof (Z.div_mod (n / 2 ^ 16) 256 ltac:(lia)). change (n / 256) with (n / 2 ^ 8) in *.
    change (2 ^ 8) with 256 in *. lia.
  - rewrite ord_chr_small by lia.
    rewrite (proj2 (Z.eqb_eq _ _)) by (rewrite Z.shiftr_div_pow2 by lia; apply Z.div_small; lia).
    f_equal. f_equal. simpl. lia.
Qed.

Lemma params_step_pair pre p rest out :
  pair_ok p ->
  params_step (pre ++ enc_pair p ++ rest) (length pre, out) =
  inl (length (pre ++ enc_pair p), <[pname p := pvalue p]> out).
Proof.
  destruct p as [ln lv n v]. unfold pair_ok, enc_pair. cbn [long_name long_value pname pvalue].
  intros [Hn Hv].
  assert (Hpos : forall long z, (0 < length (enc_len long z))%nat) by (by intros []; simpl; lia).
  pose proof (Hpos ln (Z.of_nat (length n))). pose proof (Hpos lv (Z.of_nat (length v))).
  unfold params_step. rewrite (proj2 (Nat.ltb_lt _ _)) by len.
  rewrite <- !app_assoc, read_len_enc by done.
  set (l1 := enc_len ln _) in *. set (l2 := enc_len lv _) in *.
  replace (pre ++ l1 ++ l2 ++ n ++ v ++ rest) with ((pre ++ l1) ++ l2 ++ (n ++ v ++ rest))
    by by rewrite <- !app_assoc.
  rewrite <- length_app. unfold l2. rewrite read_len_enc by done. fold l2.
  rewrite (proj2 (Nat.eqb_neq _ _)) by len.
  rewrite (proj2 (Z.ltb_ge _ _)) by (rewrite !length_app; lia).
  rewrite !Nat2Z.id. rewrite read_range_safe by len. rewrite read_range_safe by len.
  assert (E1 : substr ((pre ++ l1) ++ l2 ++ n ++ v ++ rest) (length (pre ++ l1) + length l2) (length n) = n).
  { rewrite <- length_app. rewrite (app_assoc (pre ++ l1) l2). apply substr_pre. }
  assert (E2 : substr ((pre ++ l1) ++ l2 ++ n ++ v ++ rest)
                 (length (pre ++ l1) + length l2 + length n) (length v) = v).
  { rewrite <- !length_app. rewrite (app_assoc (pre ++ l1) l2), (app_assoc _ n).
    apply substr_pre. }
  rewrite E1, E2. f_equal. f_equal. len.
Qed.

Lemma params_run pre ps out d fuel :
  Forall pair_ok ps -> (length ps < fuel)%nat ->
  run (params_step (pre ++ concat (map enc_pair ps))) d fuel (length pre, out)
  = Some (insert_pairs ps out).
Proof.
  intros Hps. revert pre out fuel. induction Hps as [|p ps Hp _ IH]; intros pre out fuel Hf;
    (destruct fuel as [|fuel]; [simpl in Hf; lia|]).
  - cbn [map concat]. apply run_exit. unfold params_step.
    by rewrite (proj2 (Nat.ltb_ge _ _)) by len.
  - cbn [map concat]. rewrite (run_step _ _ _ _ _ (params_step_pair _ _ _ _ Hp)).
    rewrite app_assoc. apply IH. simpl in Hf. lia.
Qed.

Lemma enc_pair_pos p : (0 < length (enc_pair p))%nat.
Proof. unfold enc_pair. rewrite length_app. destruct (long_name p); simpl; lia. Qed.

Lemma enc_pairs_length ps : (length ps <= length (concat (map enc_pair ps)))%nat.
Proof.
  induction ps as [|p ps IH]; [done|]. simpl. rewrite length_app.
  pose proof (enc_pair_pos p). lia.
Qed.

(** The pairs written by a conforming client, each length in either form. *)
Lemma parse_params_enc ps out :
  Forall pair_ok ps ->
  fcgi_parse_params (concat (map enc_pair ps)) out = Some (insert_pairs ps out).
Proof.
  intros Hps. apply (params_run []); [done|]. pose proof (enc_pairs_length ps). lia.
Qed.

(** * The connection *)

Definition segs_ok (c : FcgiConn) : Prop := Forall (fun s => s <> []) (inp c).
Definition stream (c : FcgiConn) : bytes := concat (inp c).

Lemma recv_spec segs n r segs' :
  Forall (fun s => s <> []) segs -> (0 < n)%nat -> recv segs n = (r, segs') ->
  concat segs = r ++ concat segs' /\ (length r <= n)%nat /\ Forall (fun s => s <> []) segs' /\
  (r = [] -> concat segs = []).
Proof.
  unfold recv. intros Hok Hn. destruct Hok as [|s segs Hs Hok].
  { intros [= <- <-]. split; [done|]. split; [simpl; lia|]. by split; [constructor|]. }
  destruct (length s <=? n)%nat eqn:E; bool_to_prop; intros [= <- <-].
  - split; [done|]. split; [lia|]. split; [done|]. by intros ->.
  - cbn [concat]. rewrite app_assoc, take_drop. split; [done|].
    split; [rewrite length_take; lia|]. split.
    + constructor; [|done]. intros H%(f_equal length). rewrite length_drop in H. simpl in H. lia.
    + intros H%(f_equal length). rewrite length_take in H. simpl in H. lia.
Qed.

(** [raw_read] delivers the next [n] bytes of the stream however the network
    cut it, or fails when there are fewer. *)
Lemma raw_read_spec c n :
  segs_ok c ->
  exists b c', raw_read c n = (b, c') /\ out c' = out c /\ segs_ok c' /\
    match b with
    | Some s => length s = n /\ stream c = s ++ stream c'
    | None => (length (stream c) < n)%nat
    end.
Proof.
  intros Hok. unfold raw_read.
  assert (H : match run (raw_read_step n) (None, []) (S n) ([], inp c) with (b, segs) =>
    Forall (fun s => s <> []) segs /\
    match b with
    | Some s => length s = n /\ stream c = s ++ concat segs
    | None => (length (stream c) < n)%nat end end).
  { apply (run_inv (raw_read_step n)
      (fun st => Forall (fun s => s <> []) st.2 /\ stream c = st.1 ++ concat st.2 /\
                 (length st.1 <= n)%nat)
      (fun st => n - length st.1)%nat).
    - intros [buf segs] st' (Hs & Hst & Hle). cbn [fst snd] in *. unfold raw_read_step.
      destruct (length buf <? n)%nat eqn:E; [|done]. bool_to_prop.
      destruct (recv segs (n - length buf)) as [r segs'] eqn:Er.
      apply recv_spec in Er as (Hc & Hl & Hs' & _); [|done|lia].
      destruct r as [|a r]; [done|]. intros [= <-]. cbn [fst snd].
      rewrite <- app_assoc, <- Hc, length_app. simpl in *. repeat split; [done..|lia|lia].
    - intros [buf segs] r0 (Hs & Hst & Hle). cbn [fst snd] in *. unfold raw_read_step.
      destruct (length buf <? n)%nat eqn:E; bool_to_prop.
      + destruct (recv segs (n - length buf)) as [r segs'] eqn:Er.
        apply recv_spec in Er as (Hc & Hl & Hs' & Hnil); [|done|lia].
        destruct r as [|a r]; [|done]. intros [= <-]. split; [done|].
        rewrite Hst, (Hnil eq_refl), app_nil_r. lia.
      + intros [= <-]. split; [done|]. split; [lia|done].
    - by repeat split; [|simpl; lia].
    - simpl. lia. }
  destruct (run _ _ _ _) as [b segs]. destruct H as [H1 H2].
  by exists b, (MkConn segs (out c)).
Qed.

Lemma raw_read_exact c n s rest :
  segs_ok c -> stream c = s ++ rest -> length s = n ->
  exists c', raw_read c n = (Some s, c') /\ out c' = out c /\ segs_ok c' /\ stream c' = rest.
Proof.
  intros Hok Hst Hn. destruct (raw_read_spec c n Hok) as (b & c' & E & Ho & Hok' & Hb).
  exists c'. destruct b as [s'|].
  - destruct Hb as [Hl Hs]. rewrite Hs in Hst. apply app_inj_1 in Hst as [-> ->]; [|lia].
    by repeat split.
  - exfalso. rewrite Hst, length_app in Hb. lia.
Qed.

(** ** Records *)

Definition enc_record (type req_id : Z) (content : bytes) (pad : Z) : bytes :=
  record_header type req_id (Z.of_nat (length content)) pad ++ content ++
  replicate (Z.to_nat pad) NUL.

Lemma be16_enc x : 0 <= x < 2 ^ 16 -> be16 (chr (Z.shiftr x 8)) (chr (Z.land x 255)) = x.
Proof.
  intros Hx. unfold be16. change 255 with (Z.ones 8). rewrite Z.land_ones by lia.
  rewrite Z.shiftr_div_pow2 by lia. change (2 ^ 8) with 256.
  assert (0 <= x / 256 < 256) by (split; [apply Z.div_pos|apply Z.div_lt_upper_bound]; lia).
  pose proof (Z.mod_pos_bound x 256 ltac:(lia)).
  rewrite !ord_chr_small, lor_shiftl by lia. change (2 ^ 8) with 256.
  pose proof (Z.div_mod x 256 ltac:(lia)). rewrite Z.mod_small; lia.
Qed.

Lemma decode_record_header type req_id chunk pad :
  0 <= type < 256 -> 0 <= req_id < 2 ^ 16 -> 0 <= chunk < 2 ^ 16 -> 0 <= pad < 256 ->
  fcgi_decode_header (record_header type req_id chunk pad) = MkHeader 1 type req_id chunk pad.
Proof.
  intros. unfold record_header, fcgi_decode_header.
  by rewrite !be16_enc, !ord_chr_small by lia.
Qed.

Lemma if_pos_read (c : FcgiConn) s rest :
  segs_ok c -> stream c = s ++ rest ->
  exists c', (if 0 <? Z.of_nat (length s) then raw_read c (Z.to_nat (Z.of_nat (length s)))
              else (Some [], c)) = (Some s, c') /\
             out c' = out c /\ segs_ok c' /\ stream c' = rest.
Proof.
  intros Hok Hst. rewrite Nat2Z.id. destruct (0 <? Z.of_nat (length s)) eqn:E; bool_to_prop.
  - by apply raw_read_exact.
  - exists c. destruct s; [|simpl in E; lia]. by repeat split.
Qed.

Lemma read_record_enc c type req_id content pad rest :
  segs_ok c -> stream c = enc_record type req_id content pad ++ rest ->
  0 <= type < 256 -> 0 <= req_id < 2 ^ 16 -> (Z.of_nat (length content) < 2 ^ 16) ->
  0 <= pad < 256 ->
  exists c', read_record c = (Some (type, req_id, content), c') /\
             out c' = out c /\ segs_ok c' /\ stream c' = rest.
Proof.
  intros Hok Hst Ht Hr Hc Hp. unfold enc_record in Hst. rewrite <- !app_assoc in Hst.
  destruct (raw_read_exact c 8 _ _ Hok Hst eq_refl) as (c1 & E1 & Ho1 & Hok1 & Hs1).
  unfold read_record. rewrite E1, decode_record_header by lia.
  cbn [h_content_len h_padding_len h_type h_req_id].
  destruct (if_pos_read c1 _ _ Hok1 Hs1) as (c2 & E2 & Ho2 & Hok2 & Hs2). rewrite E2.
  destruct (if_pos_read c2 _ _ Hok2 Hs2) as (c3 & E3 & Ho3 & Hok3 & Hs3).
  rewrite length_replicate, Z2Nat.id in E3 by lia. rewrite E3.
  exists c3. repeat split; [congruence|done|done].
Qed.

(** A failed or successful read never touches what was written. *)
Lemma read_record_keeps c r c' :
  segs_ok c -> read_record c = (r, c') ->
  out c' = out c /\ segs_ok c' /\
  match r with Some (_, _, content) => (length (stream c') + 8 <= length (stream c))%nat
             | None => True end.
Proof.
  intros Hok. unfold read_record.
  destruct (raw_read_spec c 8 Hok) as (h & c1 & -> & Ho1 & Hok1 & Hh).
  destruct h as [h|]; [|by intros [= <- <-]]. destruct Hh as [Hl Hst].
  set (hd := fcgi_decode_header h).
  assert (Hopt : forall (c0 : FcgiConn) k, segs_ok c0 -> exists b c0',
    (if 0 <? k then raw_read c0 (Z.to_nat k) else (Some [], c0)) = (b, c0') /\
    out c0' = out c0 /\ segs_ok c0' /\
    match b with Some _ => (length (stream c0') <= length (stream c0))%nat | None => True end).
  { intros c0 k Hk. destruct (0 <? k).
    - destruct (raw_read_spec c0 (Z.to_nat k) Hk) as (b & c0' & E & ? & ? & Hb).
      exists b, c0'. repeat split; [done..|]. destruct b; [|done].
      destruct Hb as [_ ->]. rewrite length_app. lia.
    - by exists (Some []), c0. }
  destruct (Hopt c1 (h_content_len hd) Hok1) as (b2 & c2 & -> & Ho2 & Hok2 & H2).
  destruct b2; [|intros [= <- <-]; by rewrite Ho2].
  destruct (Hopt c2 (h_padding_len hd) Hok2) as (b3 & c3 & -> & Ho3 & Hok3 & H3).
  rewrite Hst, length_app.
  destruct b3; intros [= <- <-]; repeat split; try done; [congruence|lia|congruence].
Qed.

(** ** Writing *)

Definition pad_of (n : Z) : Z := (8 - n mod 8) mod 8.
Definition enc_piece (type req_id : Z) (p : bytes) : bytes :=
  enc_record type req_id p (pad_of (Z.of_nat (length p))).

Lemma pad_range n : 0 <= pad_of n < 8.
Proof. apply Z.mod_pos_bound. lia. Qed.

(** Every record is a multiple of eight bytes long. *)
Lemma enc_piece_aligned type req_id p : Z.of_nat (length (enc_piece type req_id p)) mod 8 = 0.
Proof.
  unfold enc_piece, enc_record. pose proof (pad_range (Z.of_nat (length p))).
  rewrite !length_app, length_replicate, !Nat2Z.inj_add, Z2Nat.id by lia.
  unfold pad_of in *. set (n := Z.of_nat (length p)) in *.
  pose proof (Z.mod_pos_bound n 8 ltac:(lia)). pose proof (Z.div_mod n 8 ltac:(lia)).
  change (Z.of_nat (length (record_header _ _ _ _))) with 8.
  destruct (decide (n mod 8 = 0)) as [E|E].
  - rewrite E in *. change ((8 - 0) mod 8) with 0.
    apply Z.mod_divide; [lia|]. exists (n / 8 + 1). lia.
  - rewrite (Z.mod_small (8 - n mod 8)) by lia.
    apply Z.mod_divide; [lia|]. exists (n / 8 + 2). lia.
Qed.

(** The pieces [data] is cut into. *)
Definition pieces_of (data : bytes) (ps : list bytes) : Prop :=
  concat ps = data /\ Forall (fun p => (Z.of_nat (length p) <= 65535)) ps /\
  (data <> [] -> Forall (fun p => p <> []) ps).

Lemma write_record_spec c type req_id data :
  exists ps, pieces_of data ps /\ (data = [] -> ps = [[]]) /\
    inp (write_record c type req_id data) = inp c /\
    out (write_record c type req_id data) = out c ++ concat (map (enc_piece type req_id) ps).
Proof.
  unfold write_record, pieces_of.
  apply (run_inv (write_step type req_id data)
    (fun st => (st.1 <= length data)%nat /\ (data <> [] -> st.1 < length data)%nat /\
       inp st.2 = inp c /\
       exists ps, concat ps = take st.1 data /\
         Forall (fun p => (Z.of_nat (length p) <= 65535)) ps /\ Forall (fun p => p <> []) ps /\
         out st.2 = out c ++ concat (map (enc_piece type req_id) ps))
    (fun st => length data - st.1)%nat
    (fun r => exists ps, (concat ps = data /\ Forall (fun p => (Z.of_nat (length p) <= 65535)) ps /\
                (data <> [] -> Forall (fun p => p <> []) ps)) /\ (data = [] -> ps = [[]]) /\
       inp r = inp c /\ out r = out c ++ concat (map (enc_piece type req_id) ps))).
  all: cycle 2.
  { split; [simpl; lia|]. split; [destruct data; simpl; [done|lia]|]. split; [done|].
    exists []. rewrite take_0, app_nil_r. by repeat constructor. }
  { simpl. lia. }
  all: intros [off c0] st' (Hle & Hlt & Hinp & ps & Hps & Hsz & Hne & Hout); cbn [fst snd] in *;
    unfold write_step; set (chunk := Z.min 65535 _); set (pad := (8 - chunk mod 8) mod 8);
    pose proof (pad_range chunk) as Hpad; fold pad in Hpad.
  all: assert (Hlen : Z.of_nat (length (substr data off (Z.to_nat chunk))) = chunk)
    by (unfold substr; rewrite length_take, length_drop; lia).
  all: assert (Hw : forall x y z : bytes,
     (if 0 <? pad then raw_write (if 0 <? chunk then raw_write (raw_write c0 x) (substr data off
       (Z.to_nat chunk)) else raw_write c0 x) (replicate (Z.to_nat pad) NUL)
      else (if 0 <? chunk then raw_write (raw_write c0 x) (substr data off (Z.to_nat chunk))
            else raw_write c0 x)) =
     MkConn (inp c0) (out c0 ++ x ++ substr data off (Z.to_nat chunk) ++ replicate (Z.to_nat pad) NUL))
    by (intros x _ _; unfold raw_write; cbn [inp out];
        destruct (0 <? pad) eqn:Ep, (0 <? chunk) eqn:Ec; bool_to_prop; cbn [inp out];
        rewrite <- ?app_assoc; do 2 f_equal;
        try (replace (Z.to_nat pad) with 0%nat by lia); try (replace (Z.to_nat chunk) with 0%nat by lia);
        unfold substr; rewrite ?take_0; cbn [replicate app]; by rewrite ?app_nil_r).
  all: rewrite Hw by exact [].
  all: assert (Htake : take (off + Z.to_nat chunk) data =
                       concat (ps ++ [substr data off (Z.to_nat chunk)]))
    by (rewrite concat_app, Hps; cbn [concat]; rewrite app_nil_r; unfold substr;
        by rewrite take_take_drop).
  all: assert (Hout' : out c0 ++ record_header type req_id chunk pad ++
                 substr data off (Z.to_nat chunk) ++ replicate (Z.to_nat pad) NUL =
               out c ++ concat (map (enc_piece type req_id) (ps ++ [substr data off (Z.to_nat chunk)])))
    by (rewrite Hout, map_app, concat_app, <- app_assoc; cbn [map concat]; rewrite app_nil_r;
        unfold enc_piece, enc_record, pad_of; by rewrite Hlen).
  all: destruct (_ <? _)%nat eqn:E; bool_to_prop; intros [= <-]; cbn [fst snd inp out].
  - assert (0 < chunk) by lia. split; [|lia]. split; [lia|]. split; [lia|]. split; [done|].
    eexists. split; [symmetry; exact Htake|]. split; [|split; [|exact Hout']].
    + apply Forall_app. split; [done|]. constructor; [lia|done].
    + apply Forall_app. split; [done|]. constructor; [|done]. intros Hn. rewrite Hn in Hlen.
      simpl in Hlen. lia.
  - eexists. split; [|split; [|split; [exact Hinp|exact Hout']]].
    + split; [rewrite <- Htake; apply take_ge; lia|]. split.
      * apply Forall_app. split; [done|]. constructor; [lia|done].
      * intros Hd. specialize (Hlt Hd). apply Forall_app. split; [done|].
        constructor; [|done]. intros Hn. rewrite Hn in Hlen. simpl in Hlen. lia.
    + intros ->. destruct ps as [|p ps]; [unfold substr; by rewrite drop_nil, take_nil|]. exfalso.
      apply Forall_cons in Hne as [Hp _]. rewrite take_nil in Hps. simpl in Hps.
      by destruct p.
Qed.

(** Reading [n] records in a row. *)
Fixpoint read_records (n : nat) (c : FcgiConn) : option (list (Z * Z * bytes)) * FcgiConn :=
  match n with
  | O => (Some [], c)
  | S n' =>
      match read_record c with
      | (None, c) => (None, c)
      | (Some r, c) =>
          match read_records n' c with
          | (Some rs, c) => (Some (r :: rs), c)
          | (None, c) => (None, c)
          end
      end
  end.

Lemma read_pieces c type req_id ps rest :
  segs_ok c -> stream c = concat (map (enc_piece type req_id) ps) ++ rest ->
  0 <= type < 256 -> 0 <= req_id < 2 ^ 16 ->
  Forall (fun p => (Z.of_nat (length p) <= 65535)) ps ->
  exists c', read_records (length ps) c = (Some (map (fun p => (type, req_id, p)) ps), c') /\
             out c' = out c /\ segs_ok c' /\ stream c' = rest.
Proof.
  intros Hok Hst Ht Hr Hps. revert c Hok Hst.
  induction Hps as [|p ps Hp _ IH]; intros c Hok Hst; [by exists c|].
  cbn [map concat length read_records] in *. rewrite <- app_assoc in Hst.
  pose proof (pad_range (Z.of_nat (length p))).
  destruct (read_record_enc c type req_id p _ _ Hok Hst Ht Hr ltac:(lia) ltac:(lia))
    as (c1 & -> & Ho1 & Hok1 & Hs1).
  destruct (IH c1 Hok1 Hs1) as (c2 & -> & Ho2 & Hok2 & Hs2).
  exists c2. repeat split; [congruence|done|done].
Qed.

(** What the server writes on a FastCGI connection is what a peer reads.
    [write_record] emits 8-byte aligned records of at most 65535 bytes each
    which, read back record by record from a socket that delivers them in any
    segmentation, all carry the type and the request id and concatenate to
    the data, with nothing left over. *)
Theorem write_record_roundtrip c type req_id data reader :
  0 <= type < 256 -> 0 <= req_id < 2 ^ 16 -> out c = [] ->
  segs_ok reader -> stream reader = out (write_record c type req_id data) ->
  exists n ps reader',
    read_records n reader = (Some (map (fun p => (type, req_id, p)) ps), reader') /\
    stream reader' = [] /\ concat ps = data /\
    Forall (fun p => Z.of_nat (length p) <= 65535) ps /\
    Z.of_nat (length (stream reader)) mod 8 = 0.
Proof.
  intros Ht Hr Hc Hok Hst.
  destruct (write_record_spec c type req_id data) as (ps & (Hcat & Hsz & _) & _ & _ & Hout).
  rewrite Hc in Hout. rewrite Hout in Hst. cbn [app] in Hst.
  destruct (read_pieces reader type req_id ps [] Hok) as (r' & E & _ & _ & Hs');
    [by rewrite app_nil_r|done..|].
  exists (length ps), ps, r'. repeat split; [done..|]. rewrite Hst.
  clear. induction ps as [|p ps IH]; [done|]. cbn [map concat].
  rewrite length_app, Nat2Z.inj_add, Z.add_mod by lia. by rewrite enc_piece_aligned, IH.
Qed.
Lemma write_record_roundtrip_witness :
  exists n ps reader',
    read_records n (MkConn [out (write_record (MkConn [] []) 6 7 (lit "hello"))] []) =
      (Some (map (fun p => (6, 7, p)) ps), reader') /\ concat ps = lit "hello".
Proof.
  destruct (write_record_roundtrip (MkConn [] []) 6 7 (lit "hello")
    (MkConn [out (write_record (MkConn [] []) 6 7 (lit "hello"))] [])
    ltac:(lia) ltac:(lia) eq_refl ltac:(repeat constructor; discriminate)
    ltac:(vm_compute; reflexivity)) as (n & ps & r' & H1 & _ & H2 & _).
  exists n, ps, r'. split; [exact H1|exact H2].
Defined.

(** * A whole request *)

(** One wire record of a stream: its content and padding. *)
Definition stream_rec (type req_id : Z) (r : bytes * Z) : bytes :=
  enc_record type req_id r.1 r.2.
Definition rec_ok (r : bytes * Z) : Prop :=
  Z.of_nat (length r.1) < 2 ^ 16 /\ 0 <= r.2 < 256.

(** The PARAMS records: whole pairs in each. *)
Definition params_rec (r : list pair * Z) : bytes * Z := (concat (map enc_pair r.1), r.2).

Section AcceptRequest.
Context (max rid : Z) (keep : bool) (Hrid : 0 <= rid < 2 ^ 16).

Lemma accept_params_run rs rest ps b c fuel :
  segs_ok c ->
  stream c = concat (map (fun r => stream_rec 4 rid (params_rec r)) rs) ++ rest ->
  Forall (fun r => rec_ok (params_rec r) /\ Forall pair_ok r.1 /\ r.1 <> []) rs ->
  exists c', out c' = out c /\ segs_ok c' /\ stream c' = rest /\
    run (accept_step max) None (length rs + fuel) (MkFcgiRequest rid keep ps b, true, c) =
    run (accept_step max) None fuel
      (MkFcgiRequest rid keep (insert_pairs (concat (map fst rs)) ps) b, true, c').
Proof.
  intros Hok Hst Hrs. revert c ps Hok Hst.
  induction Hrs as [|r rs ([Hlen Hpad] & Hps & Hne) _ IH]; intros c ps Hok Hst; [by exists c|].
  cbn [map concat length] in *. rewrite <- app_assoc in Hst. unfold stream_rec at 1 in Hst.
  destruct (read_record_enc c 4 rid _ _ _ Hok Hst ltac:(lia) Hrid Hlen Hpad)
    as (c1 & Hread & Ho1 & Hok1 & Hs1).
  destruct (IH c1 (insert_pairs r.1 ps) Hok1 Hs1) as (c2 & Ho2 & Hok2 & Hs2 & Hrun).
  exists c2. split; [congruence|]. split; [done|]. split; [done|].
  cbn [Nat.add]. rewrite (run_step _ _ _ _ (MkFcgiRequest rid keep (insert_pairs r.1 ps) b, true, c1)).
  - rewrite Hrun. do 3 f_equal. unfold insert_pairs. by rewrite fold_left_app.
  - unfold accept_step. rewrite Hread.
    cbn [type_code]. cbn [Z.eqb Pos.eqb id andb].
    rewrite Z.eqb_refl. unfold params_rec at 1. cbn [fst].
    destruct (concat (map enc_pair r.1)) as [|a content] eqn:E.
    + exfalso. destruct r.1 as [|p l]; [done|]. pose proof (enc_pair_pos p) as Hp.
      apply (f_equal length) in E. simpl in E. rewrite length_app in E. lia.
    + cbn [params]. unfold params_rec. cbn [fst]. rewrite parse_params_enc by done. done.
Qed.

Lemma accept_stdin_run rs rest ps b c fuel :
  segs_ok c ->
  stream c = concat (map (stream_rec 5 rid) rs) ++ rest ->
  Forall (fun r => rec_ok r /\ r.1 <> []) rs ->
  (Z.of_nat (length b + length (concat (map fst rs))) <= max) ->
  exists c', out c' = out c /\ segs_ok c' /\ stream c' = rest /\
    run (accept_step max) None (length rs + fuel) (MkFcgiRequest rid keep ps b, true, c) =
    run (accept_step max) None fuel
      (MkFcgiRequest rid keep ps (b ++ concat (map fst rs)), true, c').
Proof.
  intros Hok Hst Hrs. revert c b Hok Hst.
  induction Hrs as [|r rs ([Hlen Hpad] & Hne) _ IH]; intros c b Hok Hst Hmax.
  { exists c. cbn [map concat]. by rewrite app_nil_r. }
  cbn [map concat length] in *. rewrite <- app_assoc in Hst. unfold stream_rec at 1 in Hst.
  destruct (read_record_enc c 5 rid _ _ _ Hok Hst ltac:(lia) Hrid Hlen Hpad)
    as (c1 & Hread & Ho1 & Hok1 & Hs1). rewrite length_app in Hmax.
  destruct (IH c1 (b ++ r.1) Hok1 Hs1 ltac:(rewrite length_app; lia))
    as (c2 & Ho2 & Hok2 & Hs2 & Hrun).
  exists c2. split; [congruence|]. split; [done|]. split; [done|].
  cbn [Nat.add]. rewrite (run_step _ _ _ _ (MkFcgiRequest rid keep ps (b ++ r.1), true, c1)).
  - by rewrite Hrun, <- app_assoc.
  - unfold accept_step. rewrite Hread.
    cbn [type_code]. cbn [Z.eqb Pos.eqb id andb body]. rewrite Z.eqb_refl.
    destruct r.1 as [|a content]; [done|].
    rewrite (proj2 (Z.ltb_ge _ _)); [done|]. lia.
Qed.
End AcceptRequest.

Definition begin_body (flags : ascii) : bytes := [NUL; chr 1; flags; NUL; NUL; NUL; NUL; NUL].

(** The records of a request: BEGIN_REQUEST, PARAMS closed by an empty
    record, STDIN closed by an empty record. *)
Definition request_wire (rid : Z) (flags : ascii) (prs : list (list pair * Z))
    (brs : list (bytes * Z)) : bytes :=
  enc_record 1 rid (begin_body flags) 0 ++
  concat (map (fun r => stream_rec 4 rid (params_rec r)) prs) ++ enc_record 4 rid [] 0 ++
  concat (map (stream_rec 5 rid) brs) ++ enc_record 5 rid [] 0.

Lemma concat_records_length {A} (f : A -> bytes) (l : list A) :
  (forall a, 0 < length (f a))%nat -> (length l <= length (concat (map f l)))%nat.
Proof.
  intros H. induction l as [|a l IH]; [done|]. simpl. rewrite length_app. specialize (H a). lia.
Qed.

Lemma enc_record_pos t r c p : (8 <= length (enc_record t r c p))%nat.
Proof. unfold enc_record. rewrite length_app. simpl. lia. Qed.

(** C40: [accept] assembles the request the front end sent, when no name-value
    pair is cut by the end of a record (see [params_pair_split_is_lost]). For
    a request in the order of the protocol, with its PARAMS split over any
    number of records holding whole pairs and its body split over any number
    of STDIN records (at most LOOK_MAX_BODY_SIZE bytes in all), any padding,
    and any TCP segmentation, [accept] returns true with the request id, the
    KEEP_CONN flag, the parameters (a repeated name keeps its last value) and
    the whole body; it writes nothing and leaves the bytes of the next request
    unread. *)
Theorem accept_request max rid flags prs brs rest c :
  0 <= rid < 2 ^ 16 ->
  Forall (fun r => rec_ok (params_rec r) /\ Forall pair_ok r.1 /\ r.1 <> []) prs ->
  Forall (fun r => rec_ok r /\ r.1 <> []) brs ->
  Z.of_nat (length (concat (map fst brs))) <= max ->
  segs_ok c -> stream c = request_wire rid flags prs brs ++ rest ->
  exists c', stream c' = rest /\ out c' = out c /\
    accept max c =
    Some (true, MkFcgiRequest rid (Z.testbit (ord flags) 0)
                  (insert_pairs (concat (map fst prs)) ∅) (concat (map fst brs)), c').
Proof.
  intros Hrid Hprs Hbrs Hmax Hok Hst. unfold accept.
  assert (Hfuel : exists extra,
    S (pending c) = S (length prs + S (length brs + S extra))).
  { unfold pending. change (concat (inp c)) with (stream c). rewrite Hst. unfold request_wire.
    rewrite !length_app.
    pose proof (concat_records_length (fun r => stream_rec 4 rid (params_rec r)) prs
      (fun r => Nat.lt_le_trans 0 8 _ ltac:(lia) (enc_record_pos _ _ _ _))).
    pose proof (concat_records_length (stream_rec 5 rid) brs
      (fun r => Nat.lt_le_trans 0 8 _ ltac:(lia) (enc_record_pos _ _ _ _))).
    pose proof (enc_record_pos 1 rid (begin_body flags) 0).
    pose proof (enc_record_pos 4 rid [] 0). pose proof (enc_record_pos 5 rid [] 0).
    match goal with |- exists _, S ?n = _ =>
      exists (n - length prs - length brs - 2)%nat end. lia. }
  destruct Hfuel as [extra ->]. unfold request_wire in Hst. rewrite <- !app_assoc in Hst.
  destruct (read_record_enc c 1 rid _ 0 _ Hok Hst ltac:(lia) Hrid ltac:(simpl; lia) ltac:(lia))
    as (c1 & Hread & Ho1 & Hok1 & Hs1).
  set (k := Z.testbit (ord flags) 0).
  rewrite (run_step _ _ _ _ (MkFcgiRequest rid k ∅ [], true, c1)).
  2: { unfold accept_step. rewrite Hread. cbn [type_code]. cbn [Z.eqb Pos.eqb].
       change (8 <=? length (begin_body flags))%nat with true. cbv iota.
       do 3 f_equal. unfold fcgi_begin_keep_conn, begin_body, k.
       rewrite <- (chr_ord flags) at 1. rewrite chr_ord.
       change 1 with (Z.ones 1). rewrite Z.land_ones, <- Z.bit0_mod by lia.
       by destruct (Z.testbit (ord flags) 0). }
  destruct (accept_params_run max rid k Hrid prs _ ∅ [] c1 (S (length brs + S extra)) Hok1 Hs1 Hprs)
    as (c2 & Ho2 & Hok2 & Hs2 & ->).
  destruct (read_record_enc c2 4 rid [] 0 _ Hok2 Hs2 ltac:(lia) Hrid ltac:(simpl; lia) ltac:(lia))
    as (c3 & Hread3 & Ho3 & Hok3 & Hs3).
  rewrite (run_step _ _ _ _ (MkFcgiRequest rid k (insert_pairs (concat (map fst prs)) ∅) [], true, c3)).
  2: { unfold accept_step. rewrite Hread3. cbn [type_code]. cbn [Z.eqb Pos.eqb id andb].
       by rewrite Z.eqb_refl. }
  destruct (accept_stdin_run max rid k Hrid brs _ (insert_pairs (concat (map fst prs)) ∅) [] c3
    (S extra) Hok3 Hs3 Hbrs ltac:(simpl; lia)) as (c4 & Ho4 & Hok4 & Hs4 & ->).
  destruct (read_record_enc c4 5 rid [] 0 _ Hok4 Hs4 ltac:(lia) Hrid ltac:(simpl; lia) ltac:(lia))
    as (c5 & Hread5 & Ho5 & Hok5 & Hs5).
  exists c5. split; [done|]. split; [congruence|].
  apply run_exit. unfold accept_step. rewrite Hread5. cbn [type_code].
  cbn [Z.eqb Pos.eqb id andb]. by rewrite Z.eqb_refl.
Qed.
Lemma accept_request_witness :
  exists c', accept 1000
    (MkConn [take 9 (request_wire 1 (chr 1) [([MkPair false true (lit "A") (lit "b")], 3)] [(lit "x=1", 5)]);
             drop 9 (request_wire 1 (chr 1) [([MkPair false true (lit "A") (lit "b")], 3)] [(lit "x=1", 5)])] [])
    = Some (true, MkFcgiRequest 1 true (insert_pairs [MkPair false true (lit "A") (lit "b")] ∅)
                    (lit "x=1"), c').
Proof.
  destruct (accept_request 1000 1 (chr 1) [([MkPair false true (lit "A") (lit "b")], 3)]
    [(lit "x=1", 5)] []
    (MkConn [take 9 (request_wire 1 (chr 1) [([MkPair false true (lit "A") (lit "b")], 3)] [(lit "x=1", 5)]);
             drop 9 (request_wire 1 (chr 1) [([MkPair false true (lit "A") (lit "b")], 3)] [(lit "x=1", 5)])] []))
    as (c' & _ & _ & E).
  - lia.
  - repeat constructor; unfold len_ok; simpl; (lia || discriminate).
  - repeat constructor; simpl; (lia || discriminate).
  - simpl. lia.
  - repeat constructor; vm_compute; discriminate.
  - vm_compute. reflexivity.
  - exists c'. exact E.
Defined.

(** FCGI_PARAMS is a stream in the protocol, but [accept] parses each record
    on its own: a pair whose bytes are split over two records is dropped. *)
Example params_pair_split_is_lost :
  match accept 1000 (MkConn [enc_record 1 1 (begin_body NUL) 0 ++
      enc_record 4 1 (take 3 (enc_pair (MkPair false false (lit "A") (lit "bc")))) 0 ++
      enc_record 4 1 (drop 3 (enc_pair (MkPair false false (lit "A") (lit "bc")))) 0 ++
      enc_record 4 1 [] 0 ++ enc_record 5 1 [] 0] []) with
  | Some (true, req, _) => params req = ∅
  | _ => False
  end.
Proof. vm_compute. reflexivity. Qed.

End Fcgi.
