(* ===== verification/CNum.v ===== *)
(** The C and C++ number conversions the program calls ([std::stoll],
    [std::stoull], [std::strtod]), the 64-bit wrap-around, and the overflow
    detection of cpp/include/look/int_overflow.h. Doubles are the
    [spec_float] of the Standard Library with 53 bits and emax 1024, that is
    IEEE-754 binary64 with round to nearest even. *)

From S2P Require Import Prelude.
From Stdlib Require Export SpecFloat.
#[local] Open Scope Z_scope.

Module CNum.

(** ** 64-bit integers *)

Definition INT64_MIN : Z := - 2 ^ 63.
Definition INT64_MAX : Z := 2 ^ 63 - 1.
Definition int64 (z : Z) : Prop := INT64_MIN <= z <= INT64_MAX.
Definition in_int64 (z : Z) : bool := (INT64_MIN <=? z) && (z <=? INT64_MAX).

(** [(uint64_t)z] and [(int64_t)z] *)
Definition to_u64 (z : Z) : Z := z mod 2 ^ 64.
Definition to_i64 (z : Z) : Z :=
  let u := to_u64 z in if u <? 2 ^ 63 then u else u - 2 ^ 64.

Lemma to_i64_range z : int64 (to_i64 z).
Proof.
  unfold to_i64, to_u64, int64, INT64_MIN, INT64_MAX. cbv zeta.
  pose proof (Z.mod_pos_bound z (2 ^ 64) ltac:(lia)). case_if; bool_to_prop; lia.
Qed.

Lemma to_i64_id z : int64 z -> to_i64 z = z.
Proof.
  unfold to_i64, to_u64, int64, INT64_MIN, INT64_MAX. cbv zeta. intros H.
  destruct (decide (0 <= z)).
  - rewrite Z.mod_small by lia. case_if; bool_to_prop; lia.
  - rewrite <- (Z.mod_add z 1 (2 ^ 64)), Z.mod_small by lia. case_if; bool_to_prop; lia.
Qed.

Lemma to_i64_congr z : exists k, to_i64 z = z + k * 2 ^ 64.
Proof.
  unfold to_i64, to_u64. cbv zeta. pose proof (Z.div_mod z (2 ^ 64) ltac:(lia)).
  case_if; [exists (- (z / 2 ^ 64))|exists (- (z / 2 ^ 64) - 1)]; lia.
Qed.

Lemma in_int64_spec z : in_int64 z = true <-> int64 z.
Proof. unfold in_int64, int64. rewrite andb_true_iff, !Z.leb_le. done. Qed.

(** ** int_overflow.h

    The portable branch of each function (the other one is the compiler's
    builtin): the wrapped result and the overflow flag. *)

(** The sign bit of a 64-bit word: [x < 0]. *)
Definition neg64 (z : Z) : bool := Z.testbit z 63.

Definition i64_add_ovf (a b : Z) : Z * bool :=
  let r := to_i64 (to_u64 a + to_u64 b) in
  (r, Z.land (Z.lxor a r) (Z.lxor b r) <? 0).

Definition i64_sub_ovf (a b : Z) : Z * bool :=
  let r := to_i64 (to_u64 a - to_u64 b) in
  (r, Z.land (Z.lxor a b) (Z.lxor a r) <? 0).

(** [x / a] of C truncates. *)
Definition i64_mul_ovf (a b : Z) : Z * bool :=
  let r := to_i64 (to_u64 a * to_u64 b) in
  if (a =? -1) && (b =? INT64_MIN) then (r, true)
  else if negb (a =? 0) && negb (Z.quot r a =? b) then (r, true)
  else (r, false).

Lemma to_i64_u64_add a b : to_i64 (to_u64 a + to_u64 b) = to_i64 (a + b).
Proof. unfold to_i64, to_u64. by rewrite <- Zplus_mod. Qed.
Lemma to_i64_u64_sub a b : to_i64 (to_u64 a - to_u64 b) = to_i64 (a - b).
Proof. unfold to_i64, to_u64. by rewrite <- Zminus_mod. Qed.
Lemma to_i64_u64_mul a b : to_i64 (to_u64 a * to_u64 b) = to_i64 (a * b).
Proof. unfold to_i64, to_u64. by rewrite <- Zmult_mod. Qed.

Lemma land_lxor_neg a b r s :
  (Z.land (Z.lxor a r) (Z.lxor b s) <? 0) = xorb (a <? 0) (r <? 0) && xorb (b <? 0) (s <? 0).
Proof.
  assert (Hx : forall x y, (Z.lxor x y <? 0) = xorb (x <? 0) (y <? 0)).
  { intros x y. pose proof (Z.lxor_nonneg x y).
    destruct (Z.ltb_spec (Z.lxor x y) 0), (Z.ltb_spec x 0), (Z.ltb_spec y 0);
      simpl; try done; exfalso; lia. }
  rewrite <- !Hx. pose proof (Z.land_neg (Z.lxor a r) (Z.lxor b s)).
  destruct (Z.ltb_spec (Z.land (Z.lxor a r) (Z.lxor b s)) 0), (Z.ltb_spec (Z.lxor a r) 0),
    (Z.ltb_spec (Z.lxor b s) 0); simpl; try done; exfalso; lia.
Qed.

(** The wrapped sum: the exact one, or one turn of 2^64 away. *)
Lemma to_i64_near z :
  - 2 ^ 64 <= z < 2 ^ 64 ->
  to_i64 z = if in_int64 z then z else if z <? 0 then z + 2 ^ 64 else z - 2 ^ 64.
Proof.
  intros Hz. destruct (in_int64 z) eqn:E; [by apply to_i64_id, in_int64_spec|].
  assert (Hn : ~ int64 z) by (rewrite <- in_int64_spec; congruence).
  pose proof (to_i64_range z) as Hr. destruct (to_i64_congr z) as [k Hk].
  unfold int64, INT64_MIN, INT64_MAX in *. case_if; bool_to_prop; lia.
Qed.

(** All the comparisons of a goal, those of the wrapped sum [z] first. *)
Ltac ltb_cases z := destruct (Z.leb_spec (- 2 ^ 63) z), (Z.leb_spec z (2 ^ 63 - 1)), (Z.ltb_spec z 0);
  repeat (match goal with
  | |- context [?x <? ?y] => destruct (Z.ltb_spec x y)
  | |- context [?x <=? ?y] => destruct (Z.leb_spec x y)
  end; simpl); try done; lia.

(** Division undoes a product exactly when the product did not wrap. *)
Lemma quot_wrapped a b :
  int64 a -> int64 b -> a <> 0 -> ~ (a = -1 /\ b = INT64_MIN) ->
  (Z.quot (to_i64 (a * b)) a =? b) = in_int64 (a * b).
Proof.
  intros Ha Hb Hz Hno. destruct (in_int64 (a * b)) eqn:E.
  - rewrite to_i64_id by by apply in_int64_spec. apply Z.eqb_eq.
    rewrite Z.mul_comm. by apply Z.quot_mul.
  - apply Z.eqb_neq. intros Hq.
    assert (Hn : ~ int64 (a * b)) by (rewrite <- in_int64_spec; congruence).
    pose proof (to_i64_range (a * b)) as Hr. destruct (to_i64_congr (a * b)) as [k Hk].
    pose proof (Z.quot_rem' (to_i64 (a * b)) a) as Hqr. rewrite Hq in Hqr.
    pose proof (Z.rem_bound_abs (to_i64 (a * b)) a Hz) as Hrem.
    unfold int64, INT64_MIN, INT64_MAX in *. assert (k = 0) by lia. subst k. apply Hn. lia.
Qed.

Lemma i64_add_exact a b :
  int64 a -> int64 b -> i64_add_ovf a b = (to_i64 (a + b), negb (in_int64 (a + b))).
Proof.
  intros Ha Hb. unfold i64_add_ovf. cbv zeta. rewrite to_i64_u64_add, land_lxor_neg.
  f_equal. unfold int64, INT64_MIN, INT64_MAX in *.
  rewrite to_i64_near by lia. unfold in_int64, INT64_MIN, INT64_MAX. ltb_cases (a + b).
Qed.

Lemma i64_sub_exact a b :
  int64 a -> int64 b -> i64_sub_ovf a b = (to_i64 (a - b), negb (in_int64 (a - b))).
Proof.
  intros Ha Hb. unfold i64_sub_ovf. cbv zeta. rewrite to_i64_u64_sub, land_lxor_neg.
  f_equal. unfold int64, INT64_MIN, INT64_MAX in *.
  rewrite to_i64_near by lia. unfold in_int64, INT64_MIN, INT64_MAX. ltb_cases (a - b).
Qed.

Lemma i64_mul_exact a b :
  int64 a -> int64 b -> i64_mul_ovf a b = (to_i64 (a * b), negb (in_int64 (a * b))).
Proof.
  intros Ha Hb. unfold i64_mul_ovf. cbv zeta. rewrite to_i64_u64_mul.
  destruct ((a =? -1) && (b =? INT64_MIN)) eqn:E1.
  - apply andb_true_iff in E1 as [E1 E2]. bool_to_prop. by subst.
  - assert (Hno : ~ (a = -1 /\ b = INT64_MIN)) by (intros [-> ->]; done).
    destruct (a =? 0) eqn:E0; bool_to_prop; [by subst|]. cbn [negb andb].
    rewrite quot_wrapped by done. by destruct (in_int64 (a * b)).
Qed.

(** The overflow detection of int_overflow.h is exact. For 64-bit
    operands each function returns the result wrapped to 64 bits and the flag
    that says the mathematical result does not fit; the multiplication never
    divides INT64_MIN by -1. *)
Theorem i64_ovf_exact a b :
  int64 a -> int64 b ->
  i64_add_ovf a b = (to_i64 (a + b), negb (in_int64 (a + b))) /\
  i64_sub_ovf a b = (to_i64 (a - b), negb (in_int64 (a - b))) /\
  i64_mul_ovf a b = (to_i64 (a * b), negb (in_int64 (a * b))).
Proof.
  intros Ha Hb. rewrite i64_add_exact, i64_sub_exact, i64_mul_exact by done. done.
Qed.
Lemma i64_ovf_exact_witness :
  i64_mul_ovf (-1) INT64_MIN = (INT64_MIN, true) /\
  i64_mul_ovf (-1) INT64_MIN = (to_i64 (-1 * INT64_MIN), negb (in_int64 (-1 * INT64_MIN))).
Proof.
  split; [vm_compute; reflexivity|].
  apply (i64_ovf_exact (-1) INT64_MIN); unfold int64, INT64_MIN, INT64_MAX; lia.
Defined.

(** * Numbers read from text *)

Definition digit_val (c : ascii) : Z :=
  if isdigit c then ord c - 48
  else if islower c then ord c - 87
  else if isupper c then ord c - 55
  else 99.

(** The longest prefix of digits of the base: its value, whether there is one
    digit at least, and what follows. *)
Fixpoint digits (base acc : Z) (s : bytes) : Z * bytes :=
  match s with
  | c :: s' => if digit_val c <? base then digits base (acc * base + digit_val c) s' else (acc, s)
  | [] => (acc, [])
  end.

Fixpoint skip_space (s : bytes) : bytes :=
  match s with c :: s' => if isspace c then skip_space s' else s | [] => [] end.

Definition sign (s : bytes) : bool * bytes :=
  match s with
  | c :: s' => if c =c "-" then (true, s') else if c =c "+" then (false, s') else (false, s)
  | [] => (false, [])
  end.

Definition has_digit (base : Z) (s : bytes) : bool :=
  match s with c :: _ => digit_val c <? base | [] => false end.

(** [std::stoll(s)]; [None] is the exception (no digit, or out of range). *)
Definition stoll (s : bytes) : option Z :=
  let (neg, s) := sign (skip_space s) in
  if has_digit 10 s then
    let z := (digits 10 0 s).1 in
    let z := if neg then - z else z in
    if in_int64 z then Some z else None
  else None.

(** [std::stoull(s, nullptr, base)] for the bases 2, 10 and 16 the program
    uses, on a string without a [0x] prefix. A minus sign negates modulo 2^64. *)
Definition stoull (base : Z) (s : bytes) : option Z :=
  let (neg, s) := sign (skip_space s) in
  if has_digit base s then
    let z := (digits base 0 s).1 in
    if z <? 2 ^ 64 then Some (if neg then to_u64 (- z) else z) else None
  else None.

(** ** Doubles *)

Definition prec : Z := 53.
Definition emax : Z := 1024.
Abbreviation double := spec_float.

Definition float_of_Z (z : Z) : double := binary_normalize prec emax z 0 false.

(** [m * 10^e], correctly rounded. *)
Definition float_of_decimal (neg : bool) (m e : Z) : double :=
  match m with
  | Z0 => S754_zero neg
  | Zpos p =>
      if 0 <=? e then
        match m * 10 ^ e with
        | Zpos q => binary_normalize prec emax (if neg then Zneg q else Zpos q) 0 neg
        | _ => S754_zero neg
        end
      else
        match 10 ^ (- e) with
        | Zpos q => SFdiv prec emax (S754_finite neg p 0) (S754_finite false q 0)
        | _ => S754_zero neg
        end
  | Zneg _ => S754_zero neg
  end.

(** [std::strtod] on numerals: decimal with fraction and exponent, and the
    hexadecimal integers of the lexer. *)
Definition strtod (s : bytes) : double :=
  let (neg, s) := sign (skip_space s) in
  match s with
  | z :: x :: s' =>
      if (z =c "0") && ((x =c "x") || (x =c "X")) && has_digit 16 s' then
        let m := (digits 16 0 s').1 in
        binary_normalize prec emax (if neg then - m else m) 0 neg
      else
        let (m, r) := digits 10 0 s in
        let '(m, e, r) :=
          match r with
          | d :: f => if d =c "." then
                        let (m', r') := digits 10 m f in
                        (m', - Z.of_nat (length f - length r')%nat, r')
                      else (m, 0, r)
          | [] => (m, 0, [])
          end in
        let e :=
          match r with
          | c :: f => if (c =c "e") || (c =c "E") then
                        let (eneg, f) := sign f in
                        if has_digit 10 f then
                          let x := (digits 10 0 f).1 in e + (if eneg then - x else x)
                        else e
                      else e
          | [] => e
          end in
        float_of_decimal neg m e
  | _ => let (m, _) := digits 10 0 s in float_of_decimal neg m 0
  end.

(** The decimal digits of a non-negative 64-bit value, as [std::to_string]
    writes them. *)
Fixpoint dec_go (fuel : nat) (n : Z) (acc : bytes) : bytes :=
  match fuel with
  | O => acc
  | S f => let acc := chr (48 + n mod 10) :: acc in
           if n <? 10 then acc else dec_go f (n / 10) acc
  end.
Definition decimal (n : Z) : bytes := dec_go 20 n [].

Lemma digits_app base acc s1 s2 :
  forallb (fun c => digit_val c <? base) s1 = true -> has_digit base s2 = false ->
  digits base acc (s1 ++ s2) =
  (fold_left (fun a c => a * base + digit_val c) s1 acc, s2).
Proof.
  revert acc. induction s1 as [|c s1 IH]; intros acc; simpl.
  - intros _. destruct s2 as [|c s2]; simpl; [done|]. by intros ->.
  - intros [Hc H1]%andb_true_iff H2. by rewrite Hc, IH.
Qed.

Lemma digit_val_chr n : 0 <= n < 10 -> digit_val (chr (48 + n)) = n /\ isdigit (chr (48 + n)) = true.
Proof.
  intros Hn. unfold digit_val, isdigit, in_range. rewrite ord_chr_small by lia.
  rewrite (proj2 (Z.leb_le 48 _)), (proj2 (Z.leb_le _ 57)) by lia. simpl. split; [lia|done].
Qed.

Lemma dec_go_spec fuel n acc :
  0 <= n < 10 ^ Z.of_nat fuel -> (0 < fuel)%nat ->
  fold_left (fun a c => a * 10 + digit_val c) (dec_go fuel n acc) 0 =
  fold_left (fun a c => a * 10 + digit_val c) acc n.
Proof.
  revert n acc. induction fuel as [|f IH]; intros n acc Hn Hf; [lia|]. cbn [dec_go].
  pose proof (Z.mod_pos_bound n 10 ltac:(lia)) as Hm. pose proof (Z.div_mod n 10 ltac:(lia)).
  destruct (n <? 10) eqn:E; bool_to_prop.
  - cbn [fold_left]. rewrite (proj1 (digit_val_chr _ Hm)), Z.mod_small by lia. done.
  - assert (Hp : 10 ^ Z.of_nat (S f) = 10 * 10 ^ Z.of_nat f) by (rewrite Nat2Z.inj_succ, Z.pow_succ_r; lia).
    rewrite IH.
    + cbn [fold_left]. rewrite (proj1 (digit_val_chr _ Hm)). f_equal. lia.
    + split; [apply Z.div_pos; lia|]. apply Z.div_lt_upper_bound; lia.
    + destruct f; [simpl in Hp; lia|lia].
Qed.

Lemma dec_go_digits fuel n acc :
  forallb isdigit acc = true -> 0 <= n -> forallb isdigit (dec_go fuel n acc) = true.
Proof.
  revert n acc. induction fuel as [|f IH]; intros n acc Ha Hn; [done|]. cbn [dec_go].
  pose proof (Z.mod_pos_bound n 10 ltac:(lia)) as Hm.
  assert (H1 : forallb isdigit (chr (48 + n mod 10) :: acc) = true)
    by (cbn [forallb]; by rewrite (proj2 (digit_val_chr _ Hm)), Ha).
  case_if; [done|]. apply IH; [done|]. apply Z.div_pos; lia.
Qed.

Lemma dec_go_cons fuel n acc : (0 < fuel)%nat -> exists c s, dec_go fuel n acc = c :: s.
Proof.
  revert n acc. induction fuel as [|f IH]; intros n acc Hf; [lia|]. cbn [dec_go].
  case_if; [by eexists _, _|]. destruct f; [by eexists _, _|]. apply IH. lia.
Qed.

Lemma isdigit_val c : isdigit c = true -> (digit_val c <? 10) = true.
Proof.
  intros H. assert (Hi : implb (isdigit c) (digit_val c <? 10) = true) by by_chars c.
  by rewrite H in Hi.
Qed.

(** Reading a number back. *)
Lemma read_decimal n : 0 <= n < 10 ^ 20 ->
  sign (skip_space (decimal n)) = (false, decimal n) /\
  has_digit 10 (decimal n) = true /\ (digits 10 0 (decimal n)).1 = n.
Proof.
  intros Hn. unfold decimal.
  pose proof (dec_go_digits 20 n [] eq_refl ltac:(lia)) as Hd.
  pose proof (dec_go_spec 20 n [] ltac:(simpl; lia) ltac:(lia)) as Hv.
  destruct (dec_go_cons 20 n [] ltac:(lia)) as (c & s & E). rewrite E in *.
  assert (Hc : isdigit c = true) by (simpl in Hd; by bool_to_prop).
  assert (Hnot : isspace c = false /\ (c =c "-") = false /\ (c =c "+") = false).
  { assert (Hi : implb (isdigit c) (negb (isspace c || (c =c "-") || (c =c "+"))) = true) by by_chars c.
    rewrite Hc in Hi. simpl in Hi. bool_to_prop. by rewrite !Ascii.eqb_neq. }
  destruct Hnot as (H1 & H2 & H3). cbn [skip_space]. rewrite H1. cbn [sign]. rewrite H2, H3.
  split; [done|]. split; [by apply isdigit_val|].
  rewrite <- (app_nil_r (c :: s)), digits_app; [by rewrite Hv|apply forallb_forall|done].
  intros d Hin. apply isdigit_val. rewrite forallb_forall in Hd. by apply Hd.
Qed.

Lemma stoll_decimal n : 0 <= n <= INT64_MAX -> stoll (decimal n) = Some n.
Proof.
  unfold INT64_MAX. intros Hn. destruct (read_decimal n ltac:(lia)) as (Hs & Hd & Hv).
  unfold stoll. rewrite Hs, Hd, Hv. cbv iota.
  rewrite (proj2 (in_int64_spec n)); [done|]. unfold int64, INT64_MIN, INT64_MAX. lia.
Qed.

Lemma stoull_decimal n : 0 <= n < 2 ^ 64 -> stoull 10 (decimal n) = Some n.
Proof.
  intros Hn. destruct (read_decimal n ltac:(lia)) as (Hs & Hd & Hv).
  unfold stoull. rewrite Hs, Hd, Hv. cbv iota. by rewrite (proj2 (Z.ltb_lt _ _)) by lia.
Qed.

(** One tenth, one half and 2^53 + 1, as the hardware has them. *)
Example strtod_tenth : strtod (lit "0.1") = S754_finite false 7205759403792794 (-56).
Proof. vm_compute. reflexivity. Qed.
Example strtod_sci : strtod (lit "1.5e-2") = S754_finite false 8646911284551352 (-59).
Proof. vm_compute. reflexivity. Qed.
Example strtod_round : strtod (lit "9007199254740993") = strtod (lit "9007199254740992").
Proof. vm_compute. reflexivity. Qed.
Example strtod_inf : strtod (lit "1e309") = S754_infinity false.
Proof. vm_compute. reflexivity. Qed.

End CNum.
