(* ===== verification/Lexer.v ===== *)
(** The lexer (cpp/include/look/token.h, cpp/include/look/lexer.h,
    cpp/src/lexer.cpp), whole: token kinds, the scanner's state, automatic
    semicolon insertion, strings with their escapes, numbers, identifiers and
    comments.

    The scanner's state is passed explicitly; [advance] moves the cursor like
    the code, the closing NUL of [std::string] included. Every loop of the
    code consumes a character per turn, so the number of characters left is
    the fuel of its translation and the fuel never ends a loop early: when it
    is zero [is_at_end] holds. *)

From S2P Require Import Prelude.
From stdpp Require Import pretty.
#[local] Open Scope Z_scope.

Module Lexer.

Inductive TokenType :=
| EOF_TOKEN | IDENT | STRING | NUMBER | FLOAT_NUM
| SEMICOLON | LPAREN | RPAREN | LBRACE | RBRACE | LBRACKET | RBRACKET | COMMA | FAT_ARROW
| COLON_COLON
| ASSIGN | PLUS_ASSIGN | MINUS_ASSIGN | STAR_ASSIGN | SLASH_ASSIGN | PERCENT_ASSIGN
| DOT_ASSIGN | AMP_ASSIGN | PIPE_ASSIGN | CARET_ASSIGN
| PLUS | MINUS | STAR | SLASH | PERCENT | STAR_STAR
| DOT
| PLUS_PLUS | MINUS_MINUS
| AMP | PIPE | CARET | TILDE | LESS_LESS | GREATER_GREATER
| BANG | AMP_AMP | PIPE_PIPE
| EQUAL_EQUAL | BANG_EQUAL | GREATER | GREATER_EQUAL | LESS | LESS_EQUAL | SPACESHIP
| QUESTION_QUESTION | QUESTION | COLON | ELLIPSIS
| RETURN | FUNCTION | PRINT | WRITE | IF | ELSEIF | ELSE | WHILE | FOR | FOREACH | AS
| BREAK | CONTINUE | TRUE_KW | FALSE_KW | NULL_TOKEN | USE | TRY | CATCH | FINALLY | THROW
| GLOBAL | SWITCH | CASE | DEFAULT
| STRUCT | CONST_KW | IOTA.

#[export] Instance TokenType_eq_dec : EqDecision TokenType.
Proof. solve_decision. Defined.

Record Token := MkToken {
  type : TokenType;
  lexeme : bytes;
  literal : option bytes;
  tok_line : Z;
  column : Z;
  raw : bool }.

(** The [keywords] table. *)
Definition keywords : list (bytes * TokenType) :=
  [(lit "if", IF); (lit "else", ELSE); (lit "while", WHILE); (lit "for", FOR);
   (lit "foreach", FOREACH); (lit "as", AS); (lit "break", BREAK); (lit "continue", CONTINUE);
   (lit "function", FUNCTION); (lit "fn", FUNCTION); (lit "return", RETURN);
   (lit "print", PRINT); (lit "write", WRITE); (lit "elseif", ELSEIF); (lit "true", TRUE_KW);
   (lit "false", FALSE_KW); (lit "null", NULL_TOKEN); (lit "use", USE); (lit "global", GLOBAL);
   (lit "try", TRY); (lit "catch", CATCH); (lit "finally", FINALLY); (lit "throw", THROW);
   (lit "switch", SWITCH); (lit "case", CASE); (lit "default", DEFAULT);
   (lit "struct", STRUCT); (lit "const", CONST_KW); (lit "iota", IOTA)].

Fixpoint assoc_find {A} (k : bytes) (l : list (bytes * A)) : option A :=
  match l with
  | [] => None
  | (k', a) :: l' => if k =s k' then Some a else assoc_find k l'
  end.

(** ** The scanner's state *)

Record Lexer := MkLexer {
  source_ : bytes;
  tokens_ : list Token;
  start_ : nat;
  current_ : nat;
  line_ : Z;
  col_ : Z;
  start_col_ : Z;
  last_token_type_ : TokenType;
  paren_depth_ : Z;
  bracket_depth_ : Z;
  brace_depth_ : Z;
  paren_brace_stack_ : list Z   (* the top first *) }.

Definition set_current (l : Lexer) (current : nat) (col : Z) : Lexer :=
  MkLexer (source_ l) (tokens_ l) (start_ l) current (line_ l) col (start_col_ l)
    (last_token_type_ l) (paren_depth_ l) (bracket_depth_ l) (brace_depth_ l)
    (paren_brace_stack_ l).
Definition set_line (l : Lexer) (line col : Z) : Lexer :=
  MkLexer (source_ l) (tokens_ l) (start_ l) (current_ l) line col (start_col_ l)
    (last_token_type_ l) (paren_depth_ l) (bracket_depth_ l) (brace_depth_ l)
    (paren_brace_stack_ l).
Definition push_token (l : Lexer) (t : Token) : Lexer :=
  MkLexer (source_ l) (tokens_ l ++ [t]) (start_ l) (current_ l) (line_ l) (col_ l) (start_col_ l)
    (type t) (paren_depth_ l) (bracket_depth_ l) (brace_depth_ l) (paren_brace_stack_ l).
Definition set_depths (l : Lexer) (paren bracket brace : Z) (stack : list Z) : Lexer :=
  MkLexer (source_ l) (tokens_ l) (start_ l) (current_ l) (line_ l) (col_ l) (start_col_ l)
    (last_token_type_ l) paren bracket brace stack.
Definition set_start (l : Lexer) (start : nat) (start_col : Z) : Lexer :=
  MkLexer (source_ l) (tokens_ l) start (current_ l) (line_ l) (col_ l) start_col
    (last_token_type_ l) (paren_depth_ l) (bracket_depth_ l) (brace_depth_ l)
    (paren_brace_stack_ l).

(** The constructor: a UTF-8 BOM is skipped. *)
Definition has_bom (s : bytes) : bool := starts_with [chr 239; chr 187; chr 191] s.
Definition init (source : bytes) : Lexer :=
  let n := if has_bom source then 3%nat else 0%nat in
  MkLexer source [] n n 1 1 1 EOF_TOKEN 0 0 0 [].

Definition is_at_end (l : Lexer) : bool := (length (source_ l) <=? current_ l)%nat.
(** [source_[i]]; the character past the end is NUL. *)
Definition at_ (l : Lexer) (i : nat) : ascii := default NUL (source_ l !! i).
Definition advance (l : Lexer) : ascii * Lexer :=
  (at_ l (current_ l), set_current l (S (current_ l)) (col_ l + 1)).
Definition skip (l : Lexer) : Lexer := (advance l).2.
Definition peek (l : Lexer) : ascii := if is_at_end l then NUL else at_ l (current_ l).
Definition peek_next (l : Lexer) : ascii :=
  if (length (source_ l) <=? current_ l + 1)%nat then NUL else at_ l (current_ l + 1)%nat.

Definition remaining (l : Lexer) : nat := (length (source_ l) - current_ l)%nat.

(** [while (!is_at_end() && p(peek())) advance();] *)
Fixpoint advance_while_ (fuel : nat) (p : ascii -> bool) (l : Lexer) : Lexer :=
  match fuel with
  | O => l
  | S fuel' => if negb (is_at_end l) && p (peek l) then advance_while_ fuel' p (skip l) else l
  end.
Definition advance_while (p : ascii -> bool) (l : Lexer) : Lexer :=
  advance_while_ (remaining l) p l.

Definition text (l : Lexer) : bytes := substr (source_ l) (start_ l) (current_ l - start_ l).

Definition add_token (l : Lexer) (ty : TokenType) (value : option bytes) : Lexer :=
  push_token l (MkToken ty (text l) value (line_ l) (start_col_ l) false).

Definition should_insert_semicolon (t : TokenType) : bool :=
  match t with
  | IDENT | NUMBER | FLOAT_NUM | STRING | TRUE_KW | FALSE_KW | NULL_TOKEN | RPAREN | RBRACKET
  | RBRACE | PLUS_PLUS | MINUS_MINUS | BREAK | CONTINUE | RETURN => true
  | _ => false
  end.

Definition run_length (p : ascii -> bool) (s : bytes) : nat :=
  match find_if (fun c => negb (p c)) s with Some i => i | None => length s end.

(** The look-ahead that suppresses a virtual semicolon. *)
Definition is_continuation_ahead (l : Lexer) : bool :=
  let s := drop (current_ l) (source_ l) in
  let s := drop (run_length (one_of [SP; TAB; CR]) s) s in
  let s := match s with c :: s' => if c =c LF then s' else s | [] => s end in
  let s := drop (run_length (one_of [SP; TAB]) s) s in
  match s with [] => false | c :: _ => one_of (lit ".+-*/%&|^?") c end.

Definition asi_ok (l : Lexer) : bool :=
  (paren_depth_ l =? 0) ||
  match paren_brace_stack_ l with b :: _ => b <? brace_depth_ l | [] => false end.

(** The virtual semicolon, at a newline and at the end of the source. *)
Definition asi (l : Lexer) : Lexer :=
  if asi_ok l && (bracket_depth_ l =? 0) && should_insert_semicolon (last_token_type_ l)
     && negb (is_continuation_ahead l)
  then push_token l (MkToken SEMICOLON (lit ";") None (line_ l) (col_ l) false)
  else l.

(** ** Strings *)

Definition lex_hex (c : ascii) : Z :=
  if isdigit c then ord c - ord "0"
  else if in_range 97 102 (ord c) then ord c - ord "a" + 10
  else if in_range 65 70 (ord c) then ord c - ord "A" + 10
  else -1.

Definition lex_append_utf8 (out : bytes) (cp : Z) : bytes :=
  if cp <? 128 then out ++ [chr cp]
  else if cp <? 2048 then
    out ++ [chr (Z.lor 192 (Z.shiftr cp 6)); chr (Z.lor 128 (Z.land cp 63))]
  else if cp <? 65536 then
    out ++ [chr (Z.lor 224 (Z.shiftr cp 12)); chr (Z.lor 128 (Z.land (Z.shiftr cp 6) 63));
            chr (Z.lor 128 (Z.land cp 63))]
  else
    out ++ [chr (Z.lor 240 (Z.shiftr cp 18)); chr (Z.lor 128 (Z.land (Z.shiftr cp 12) 63));
            chr (Z.lor 128 (Z.land (Z.shiftr cp 6) 63)); chr (Z.lor 128 (Z.land cp 63))].

(** Four hex digits: the value, whether there were four, the cursor. The
    digits read before a bad one are consumed. *)
Fixpoint hex4 (k : nat) (cp : Z) (l : Lexer) : Z * bool * Lexer :=
  match k with
  | O => (cp, true, l)
  | S k' =>
      let h := lex_hex (peek l) in
      if h <? 0 then (cp, false, l)
      else hex4 k' (Z.lor (Z.shiftl cp 4) h) (skip l)
  end.

Definition unicode_escape (value : bytes) (l : Lexer) : bytes * Lexer :=
  let '(cp, ok, l) := hex4 4 0 l in
  if negb ok then (value ++ [BACKSLASH; "u"%char], l)
  else if (55296 <=? cp) && (cp <=? 56319) && (peek l =c BACKSLASH) && (peek_next l =c "u"%char) then
    let l := skip (skip l) in
    let '(lo, ok2, l) := hex4 4 0 l in
    let cp := if ok2 && (56320 <=? lo) && (lo <=? 57343)
              then 65536 + Z.shiftl (cp - 55296) 10 + (lo - 56320) else cp in
    (lex_append_utf8 value cp, l)
  else (lex_append_utf8 value cp, l).

Definition escape (value : bytes) (l : Lexer) : bytes * Lexer :=
  let (esc, l) := advance l in
  if esc =c "n" then (value ++ [LF], l)
  else if esc =c "t" then (value ++ [TAB], l)
  else if esc =c "r" then (value ++ [CR], l)
  else if esc =c BACKSLASH then (value ++ [BACKSLASH], l)
  else if esc =c DQUOTE then (value ++ [DQUOTE], l)
  else if esc =c SQUOTE then (value ++ [SQUOTE], l)
  else if esc =c "$" then (value ++ ["$"%char], l)
  else if esc =c "b" then (value ++ [chr 8], l)
  else if esc =c "f" then (value ++ [chr 12], l)
  else if esc =c "0" then (value ++ [NUL], l)
  else if esc =c "u" then unicode_escape value l
  else (value ++ [BACKSLASH; esc], l).

Fixpoint string_loop (fuel : nat) (quote : ascii) (value : bytes) (l : Lexer) : bytes * Lexer :=
  match fuel with
  | O => (value, l)
  | S fuel' =>
      if negb (is_at_end l) && negb (peek l =c quote) then
        let c := peek l in
        let l := if c =c LF then set_line l (line_ l + 1) (col_ l) else l in
        if c =c BACKSLASH then
          let (value, l) := escape value (skip l) in
          string_loop fuel' quote value l
        else
          let (c, l) := advance l in
          string_loop fuel' quote (value ++ [c]) l
      else (value, l)
  end.

(** [tokens_.back().raw = true] *)
Definition set_last_raw (l : Lexer) : Lexer :=
  match rev (tokens_ l) with
  | [] => l
  | t :: ts =>
      MkLexer (source_ l)
        (rev ts ++ [MkToken (type t) (lexeme t) (literal t) (tok_line t) (column t) true])
        (start_ l) (current_ l) (line_ l) (col_ l) (start_col_ l) (last_token_type_ l)
        (paren_depth_ l) (bracket_depth_ l) (brace_depth_ l) (paren_brace_stack_ l)
  end.

Definition string_ (quote : ascii) (l : Lexer) : result Lexer :=
  let (value, l) := string_loop (remaining l) quote [] l in
  if is_at_end l then Throw ("Unterminated string at line " +:+ pretty (line_ l))
  else
    let l := add_token (skip l) STRING (Some value) in
    Ok (if quote =c SQUOTE then set_last_raw l else l).

Definition BACKTICK : ascii := "`"%char.

Fixpoint raw_loop (fuel : nat) (value : bytes) (l : Lexer) : bytes * Lexer :=
  match fuel with
  | O => (value, l)
  | S fuel' =>
      if negb (is_at_end l) && negb (peek l =c BACKTICK) then
        let l := if peek l =c LF then set_line l (line_ l + 1) (col_ l) else l in
        let (c, l) := advance l in
        raw_loop fuel' (value ++ [c]) l
      else (value, l)
  end.

Definition raw_string (l : Lexer) : result Lexer :=
  let (value, l) := raw_loop (remaining l) [] l in
  if is_at_end l then Throw ("Unterminated raw string at line " +:+ pretty (line_ l))
  else Ok (add_token (skip l) STRING (Some value)).

(** ** Numbers and identifiers *)

Definition digit_ (c : ascii) : bool := isdigit c || (c =c "_").

Definition number (l : Lexer) : Lexer :=
  if (peek l =c "0") && ((peek_next l =c "x") || (peek_next l =c "X")) then
    let l := advance_while (fun c => isxdigit c || (c =c "_")) (skip (skip l)) in
    add_token l NUMBER (Some (text l))
  else if (peek l =c "0") && ((peek_next l =c "b") || (peek_next l =c "B")) then
    let l := advance_while (fun c => (c =c "0") || (c =c "1") || (c =c "_")) (skip (skip l)) in
    add_token l NUMBER (Some (text l))
  else
    let l := advance_while digit_ l in
    let (is_float, l) :=
      if (peek l =c ".") && isdigit (peek_next l)
      then (true, advance_while digit_ (skip l)) else (false, l) in
    let (is_float, l) :=
      if (peek l =c "e") || (peek l =c "E") then
        let c1 := peek_next l in
        if isdigit c1 ||
           (((c1 =c "+") || (c1 =c "-")) && (current_ l + 2 <? length (source_ l))%nat
            && isdigit (at_ l (current_ l + 2)))
        then
          let l := skip l in
          let l := if (peek l =c "+") || (peek l =c "-") then skip l else l in
          (true, advance_while isdigit l)
        else (is_float, l)
      else (is_float, l) in
    add_token l (if is_float then FLOAT_NUM else NUMBER) (Some (text l)).

Definition ident_char (c : ascii) : bool := isalnum c || (c =c "_").

Definition ident_type (text : bytes) : TokenType :=
  match text with
  | c :: _ =>
      if c =c "$" then IDENT
      else match assoc_find text keywords with Some t => t | None => IDENT end
  | [] => IDENT
  end.

Definition identifier (l : Lexer) : Lexer :=
  let l := advance_while ident_char l in
  add_token l (ident_type (text l)) None.

(** ** Tokens *)

Fixpoint block_comment (fuel : nat) (l : Lexer) : Lexer * bool :=
  match fuel with
  | O => (l, false)
  | S fuel' =>
      if negb (is_at_end l) then
        if (peek l =c "*") && (peek_next l =c "/") then (skip (skip l), true)
        else
          let l := if peek l =c LF then set_line l (line_ l + 1) (col_ l) else l in
          block_comment fuel' (skip l)
      else (l, false)
  end.

(** [if (peek() == c) { advance(); add_token(t); } else ...] *)
Definition two (l : Lexer) (c : ascii) (t : TokenType) (other : Lexer) : Lexer :=
  if peek l =c c then add_token (skip l) t None else other.
Definition one (l : Lexer) (t : TokenType) : Lexer := add_token l t None.

Definition not_LF (c : ascii) : bool := negb (c =c LF).

Definition scan_token (l0 : Lexer) : result Lexer :=
  let (c, l) := advance l0 in
  if c =c ":" then Ok (two l ":" COLON_COLON (one l COLON))
  else if c =c "(" then
    Ok (one (set_depths l (paren_depth_ l + 1) (bracket_depth_ l) (brace_depth_ l)
               (brace_depth_ l :: paren_brace_stack_ l)) LPAREN)
  else if c =c ")" then
    Ok (one (set_depths l (paren_depth_ l - 1) (bracket_depth_ l) (brace_depth_ l)
               (tail (paren_brace_stack_ l))) RPAREN)
  else if c =c "{" then
    Ok (one (set_depths l (paren_depth_ l) (bracket_depth_ l) (brace_depth_ l + 1)
               (paren_brace_stack_ l)) LBRACE)
  else if c =c "}" then
    Ok (one (set_depths l (paren_depth_ l) (bracket_depth_ l) (brace_depth_ l - 1)
               (paren_brace_stack_ l)) RBRACE)
  else if c =c "[" then
    Ok (one (set_depths l (paren_depth_ l) (bracket_depth_ l + 1) (brace_depth_ l)
               (paren_brace_stack_ l)) LBRACKET)
  else if c =c "]" then
    Ok (one (set_depths l (paren_depth_ l) (bracket_depth_ l - 1) (brace_depth_ l)
               (paren_brace_stack_ l)) RBRACKET)
  else if c =c "," then Ok (one l COMMA)
  else if c =c ";" then Ok (one l SEMICOLON)
  else if c =c "~" then Ok (one l TILDE)
  else if c =c "+" then Ok (two l "=" PLUS_ASSIGN (two l "+" PLUS_PLUS (one l PLUS)))
  else if c =c "-" then Ok (two l "=" MINUS_ASSIGN (two l "-" MINUS_MINUS (one l MINUS)))
  else if c =c "*" then Ok (two l "=" STAR_ASSIGN (two l "*" STAR_STAR (one l STAR)))
  else if c =c "/" then
    if peek l =c "=" then Ok (add_token (skip l) SLASH_ASSIGN None)
    else if peek l =c "/" then Ok (advance_while not_LF l)
    else if peek l =c "*" then
      let l := skip l in
      match block_comment (remaining l) l with
      | (l', true) => Ok l'
      | (_, false) => Throw ("Unterminated block comment starting at line " +:+ pretty (line_ l))
      end
    else Ok (one l SLASH)
  else if c =c "%" then Ok (two l "=" PERCENT_ASSIGN (one l PERCENT))
  else if c =c "&" then Ok (two l "&" AMP_AMP (two l "=" AMP_ASSIGN (one l AMP)))
  else if c =c "|" then Ok (two l "|" PIPE_PIPE (two l "=" PIPE_ASSIGN (one l PIPE)))
  else if c =c "^" then Ok (two l "=" CARET_ASSIGN (one l CARET))
  else if c =c "=" then Ok (two l "=" EQUAL_EQUAL (two l ">" FAT_ARROW (one l ASSIGN)))
  else if c =c "!" then Ok (two l "=" BANG_EQUAL (one l BANG))
  else if c =c "<" then
    if (peek l =c "=") && (peek_next l =c ">") then Ok (add_token (skip (skip l)) SPACESHIP None)
    else Ok (two l "=" LESS_EQUAL (two l "<" LESS_LESS (one l LESS)))
  else if c =c ">" then Ok (two l "=" GREATER_EQUAL (two l ">" GREATER_GREATER (one l GREATER)))
  else if c =c "?" then Ok (two l "?" QUESTION_QUESTION (one l QUESTION))
  else if c =c "." then
    if (peek l =c ".") && (peek_next l =c ".") then Ok (add_token (skip (skip l)) ELLIPSIS None)
    else Ok (two l "=" DOT_ASSIGN (one l DOT))
  else if c =c BACKTICK then raw_string l
  else if (c =c SP) || (c =c CR) || (c =c TAB) then Ok l
  else if c =c LF then
    let l := asi l in Ok (set_line l (line_ l + 1) 1)
  else if c =c "#" then Ok (advance_while not_LF l)
  else if c =c DQUOTE then string_ DQUOTE l
  else if c =c SQUOTE then string_ SQUOTE l
  else if c =c "$" then Ok (identifier l)
  else if isdigit c then Ok (number (set_current l (current_ l0) (col_ l)))
  else if isalpha c || (c =c "_") then Ok (identifier (set_current l (current_ l0) (col_ l)))
  else Throw ("Unexpected character: '" +:+ String c "'").

(** The loop of [scan_tokens] and what follows it. *)
Definition scan_step (l : Lexer) : Lexer + result Lexer :=
  if is_at_end l then inr (Ok l)
  else
    match scan_token (set_start l (current_ l) (col_ l)) with
    | Ok l' => inl l'
    | Throw e => inr (Throw e)
    end.

Definition eof (l : Lexer) : Token := MkToken EOF_TOKEN [] None (line_ l) (col_ l) false.

Definition scan_tokens (source : bytes) : option (result (list Token)) :=
  match loop scan_step (S (length source)) (init source) with
  | None => None
  | Some (Throw e) => Some (Throw e)
  | Some (Ok l) =>
      let l := asi l in
      Some (Ok (tokens_ l ++ [eof l]))
  end.

(** Columns: [number] and [identifier] give back the character [advance]
    took, but not the column it counted, so every later token of the line is
    one column too far to the right for each of them. *)
Example column_drift :
  match scan_tokens (lit "a b") with
  | Some (Ok ts) => map column ts = [1; 4; 6; 6]
  | _ => False
  end.
Proof. vm_compute. reflexivity. Qed.

(** A bad [\u] escape loses the digits read before the bad one. *)
Example bad_unicode_escape :
  match scan_tokens ([DQUOTE; BACKSLASH] ++ lit "u12G" ++ [DQUOTE]) with
  | Some (Ok (t :: _)) => literal t = Some (BACKSLASH :: lit "uG")
  | _ => False
  end.
Proof. vm_compute. reflexivity. Qed.

(** * What the lexer promises

    The source is accounted for from left to right: tokens whose lexeme is
    the text they were read from, text that is skipped, and virtual
    semicolons, which take no text and follow a token that ends a statement. *)

(** Spelling of the tokens that have one. *)
Definition spelling (t : TokenType) : option bytes :=
  match t with
  | SEMICOLON => Some (lit ";") | LPAREN => Some (lit "(") | RPAREN => Some (lit ")")
  | LBRACE => Some (lit "{") | RBRACE => Some (lit "}") | LBRACKET => Some (lit "[")
  | RBRACKET => Some (lit "]") | COMMA => Some (lit ",") | FAT_ARROW => Some (lit "=>")
  | COLON_COLON => Some (lit "::") | ASSIGN => Some (lit "=") | PLUS_ASSIGN => Some (lit "+=")
  | MINUS_ASSIGN => Some (lit "-=") | STAR_ASSIGN => Some (lit "*=")
  | SLASH_ASSIGN => Some (lit "/=") | PERCENT_ASSIGN => Some (lit "%=")
  | DOT_ASSIGN => Some (lit ".=") | AMP_ASSIGN => Some (lit "&=") | PIPE_ASSIGN => Some (lit "|=")
  | CARET_ASSIGN => Some (lit "^=") | PLUS => Some (lit "+") | MINUS => Some (lit "-")
  | STAR => Some (lit "*") | SLASH => Some (lit "/") | PERCENT => Some (lit "%")
  | STAR_STAR => Some (lit "**") | DOT => Some (lit ".") | PLUS_PLUS => Some (lit "++")
  | MINUS_MINUS => Some (lit "--") | AMP => Some (lit "&") | PIPE => Some (lit "|")
  | CARET => Some (lit "^") | TILDE => Some (lit "~") | LESS_LESS => Some (lit "<<")
  | GREATER_GREATER => Some (lit ">>") | BANG => Some (lit "!") | AMP_AMP => Some (lit "&&")
  | PIPE_PIPE => Some (lit "||") | EQUAL_EQUAL => Some (lit "==") | BANG_EQUAL => Some (lit "!=")
  | GREATER => Some (lit ">") | GREATER_EQUAL => Some (lit ">=") | LESS => Some (lit "<")
  | LESS_EQUAL => Some (lit "<=") | SPACESHIP => Some (lit "<=>")
  | QUESTION_QUESTION => Some (lit "??") | QUESTION => Some (lit "?") | COLON => Some (lit ":")
  | ELLIPSIS => Some (lit "...")
  | _ => None
  end.

Definition ident_shape (s : bytes) : bool :=
  match s with
  | c :: s' => ((c =c "$") || isalpha c || (c =c "_")) && forallb ident_char s'
  | [] => false
  end.

Definition quoted (s : bytes) : bool :=
  match s with
  | c :: s' => one_of [DQUOTE; SQUOTE; BACKTICK] c &&
               match last s' with Some d => d =c c | None => false end
  | [] => false
  end.

(** The lexemes a token of each kind can have. *)
Definition tok_ok (t : TokenType) (s : bytes) : bool :=
  match spelling t with
  | Some w => s =s w
  | None =>
      match t with
      | EOF_TOKEN => false
      | STRING => quoted s
      | NUMBER | FLOAT_NUM => match s with c :: _ => isdigit c | [] => false end
      | _ => ident_shape s && bool_decide (ident_type s = t)
      end
  end.

(** Text that produces no token. *)
Inductive gap : bytes -> Prop :=
| gap_ws c : one_of [SP; TAB; CR; LF] c = true -> gap [c]
| gap_hash s : forallb not_LF s = true -> gap ("#"%char :: s)
| gap_line s : forallb not_LF s = true -> gap (lit "//" ++ s)
| gap_block s : gap (lit "/*" ++ s ++ lit "*/").

(** [scanned src toks n]: [toks] are the tokens of the first [n] bytes. *)
Inductive scanned (src : bytes) : list Token -> nat -> Prop :=
| sc_start : scanned src [] (if has_bom src then 3 else 0)%nat
| sc_gap toks n m :
    scanned src toks n -> (n + m <= length src)%nat -> gap (substr src n m) ->
    scanned src toks (n + m)
| sc_tok toks n m t :
    scanned src toks n -> (0 < m)%nat -> (n + m <= length src)%nat ->
    lexeme t = substr src n m -> tok_ok (type t) (lexeme t) = true ->
    scanned src (toks ++ [t]) (n + m)
| sc_asi toks t' n t :
    scanned src (toks ++ [t']) n -> should_insert_semicolon (type t') = true ->
    type t = SEMICOLON -> lexeme t = lit ";" -> literal t = None ->
    scanned src ((toks ++ [t']) ++ [t]) n.

(** ** Cursor moves *)

Definition moved (l l' : Lexer) : Prop :=
  source_ l' = source_ l /\ tokens_ l' = tokens_ l /\ start_ l' = start_ l /\
  last_token_type_ l' = last_token_type_ l /\ (current_ l <= current_ l')%nat.

Lemma moved_refl l : moved l l.
Proof. by repeat split. Qed.

Lemma moved_trans l1 l2 l3 : moved l1 l2 -> moved l2 l3 -> moved l1 l3.
Proof. unfold moved. intros (?&?&?&?&?) (?&?&?&?&?). repeat split; try congruence. lia. Qed.

Lemma moved_skip l : moved l (skip l).
Proof. unfold moved, skip, advance. simpl. repeat split; lia. Qed.

Lemma moved_set_line l n c : moved l (set_line l n c).
Proof. unfold moved. simpl. repeat split; lia. Qed.

Lemma moved_set_depths l a b c st : moved l (set_depths l a b c st).
Proof. unfold moved. simpl. repeat split; lia. Qed.

#[local] Hint Resolve moved_refl moved_skip moved_set_line moved_set_depths : core.

Definition span (l l' : Lexer) : bytes :=
  substr (source_ l) (current_ l) (current_ l' - current_ l).

Definition in_bounds (l : Lexer) : Prop := (current_ l <= length (source_ l))%nat.

Lemma span_app l0 l l' : moved l0 l -> moved l l' -> span l0 l' = span l0 l ++ span l l'.
Proof.
  unfold moved, span, substr. intros (Hs&_&_&_&H1) (_&_&_&_&H2). rewrite Hs.
  replace (current_ l' - current_ l0)%nat
    with ((current_ l - current_ l0) + (current_ l' - current_ l))%nat by lia.
  replace (drop (current_ l) (source_ l0))
    with (drop (current_ l - current_ l0) (drop (current_ l0) (source_ l0)))
    by (rewrite drop_drop; f_equal; lia).
  by rewrite take_take_drop.
Qed.

Lemma not_at_end l : is_at_end l = false <-> (current_ l < length (source_ l))%nat.
Proof. unfold is_at_end. rewrite Nat.leb_gt. done. Qed.

Lemma peek_in l : is_at_end l = false -> source_ l !! current_ l = Some (peek l).
Proof.
  intros H. unfold peek, at_. rewrite H. apply not_at_end in H.
  by destruct (lookup_lt_is_Some_2 _ _ H) as [c ->].
Qed.

Lemma peek_not_end l c : peek l = c -> c <> NUL -> is_at_end l = false.
Proof. unfold peek. by destruct (is_at_end l). Qed.

Lemma peek_next_skip l : peek_next l = peek (skip l).
Proof. unfold peek_next, peek, is_at_end, skip, advance, at_. simpl. by rewrite Nat.add_1_r. Qed.

Lemma span_skip l : is_at_end l = false -> span l (skip l) = [peek l].
Proof.
  intros H. pose proof (peek_in l H) as Hp. unfold span, substr, skip, advance. simpl.
  replace (S (current_ l) - current_ l)%nat with 1%nat by lia.
  by rewrite (drop_S _ _ _ Hp).
Qed.

Lemma in_bounds_skip l : is_at_end l = false -> in_bounds (skip l).
Proof. intros H%not_at_end. unfold in_bounds, skip, advance. simpl. lia. Qed.

(** One character further. *)
Lemma span_skip_app l0 l w :
  moved l0 l -> span l0 l = w -> is_at_end l = false -> span l0 (skip l) = w ++ [peek l].
Proof.
  intros Hm <- He. rewrite (span_app l0 l) by auto. by rewrite span_skip.
Qed.

Lemma moved_in_bounds l l' : moved l l' -> is_at_end l' = false -> is_at_end l = false.
Proof. unfold moved. intros (Hs&_&_&_&Hc). rewrite !not_at_end, Hs. lia. Qed.

Lemma advance_while_spec p l :
  in_bounds l ->
  let l' := advance_while p l in
  moved l l' /\ in_bounds l' /\ forallb p (span l l') = true.
Proof.
  unfold advance_while. generalize (remaining l) as fuel. intros fuel.
  revert l. induction fuel as [|fuel IH]; intros l Hb; cbn zeta; cbn [advance_while_].
  - repeat split; [lia|done|]. unfold span. by rewrite Nat.sub_diag.
  - destruct (is_at_end l) eqn:He; simpl; [repeat split; [lia|done|]; unfold span; by rewrite Nat.sub_diag|].
    destruct (p (peek l)) eqn:Hp; [|repeat split; [lia|done|]; unfold span; by rewrite Nat.sub_diag].
    destruct (IH (skip l) (in_bounds_skip l He)) as (Hm & Hb' & Hf).
    split; [by eapply moved_trans; [apply moved_skip|]|]. split; [done|].
    rewrite (span_app l (skip l)) by auto. rewrite span_skip by done. simpl. by rewrite Hp.
Qed.

(** ** The invariant of the scanner *)

Definition last_type (toks : list Token) : TokenType :=
  match last toks with Some t => type t | None => EOF_TOKEN end.

Record Inv (l : Lexer) : Prop := {
  inv_scanned : scanned (source_ l) (tokens_ l) (current_ l);
  inv_bounds : in_bounds l;
  inv_last : last_token_type_ l = last_type (tokens_ l) }.

(** The state [scan_token] starts from, and what it must reach. *)
Record ready (l : Lexer) : Prop := {
  ready_inv : Inv l;
  ready_start : start_ l = current_ l }.
Definition good (l l' : Lexer) : Prop :=
  source_ l' = source_ l /\ (current_ l < current_ l')%nat /\ Inv l'.

Lemma last_type_snoc toks t : last_type (toks ++ [t]) = type t.
Proof. unfold last_type. by rewrite last_snoc. Qed.

Lemma good_push l0 l t :
  ready l0 -> moved l0 l -> (current_ l0 < current_ l)%nat -> in_bounds l ->
  lexeme t = span l0 l -> tok_ok (type t) (lexeme t) = true -> good l0 (push_token l t).
Proof.
  intros [[Hsc _ _] _] (Hs&Ht&_&_&_) Hlt Hb Hlex Hok. unfold in_bounds in Hb.
  split; [done|]. split; [done|]. constructor; simpl; [|exact Hb|by rewrite last_type_snoc].
  rewrite Hs, Ht. rewrite Hs in Hb.
  replace (current_ l) with (current_ l0 + (current_ l - current_ l0))%nat by lia.
  apply sc_tok; [done|lia|lia|done|done].
Qed.

Lemma text_span l0 l : ready l0 -> moved l0 l -> text l = span l0 l.
Proof. intros [_ Hst] (Hs&_&Hst'&_&_). unfold text, span. by rewrite Hs, Hst', Hst. Qed.

Lemma good_token l0 l ty v w :
  ready l0 -> moved l0 l -> (current_ l0 < current_ l)%nat -> in_bounds l ->
  span l0 l = w -> tok_ok ty w = true -> good l0 (add_token l ty v).
Proof.
  intros Hr Hm Hlt Hb Hw Hok. apply good_push; try done; simpl; rewrite (text_span l0) by done;
    congruence.
Qed.

Lemma good_gap l0 l w :
  ready l0 -> moved l0 l -> (current_ l0 < current_ l)%nat -> in_bounds l ->
  span l0 l = w -> gap w -> good l0 l.
Proof.
  intros [[Hsc _ Hl] _] (Hs&Ht&_&Hlt'&_) Hlt Hb <- Hg. unfold in_bounds in Hb.
  split; [done|]. split; [done|]. constructor; [|exact Hb|congruence].
  rewrite Hs, Ht. rewrite Hs in Hb.
  replace (current_ l) with (current_ l0 + (current_ l - current_ l0))%nat by lia.
  apply sc_gap; [done|lia|done].
Qed.

Lemma Inv_asi l : Inv l -> Inv (asi l) /\ current_ (asi l) = current_ l /\ source_ (asi l) = source_ l.
Proof.
  intros HI. pose proof HI as [Hsc Hb Hl]. unfold asi.
  case_if; [|done]. bool_to_prop. rename select (should_insert_semicolon _ = true) into Hins.
  split; [|done]. constructor; simpl; [|exact Hb|by rewrite last_type_snoc].
  rewrite Hl in Hins. unfold last_type in Hins.
  destruct (last (tokens_ l)) as [t|] eqn:E; [|done].
  apply last_Some in E as [ts E]. rewrite E in *. by apply sc_asi.
Qed.

(** ** Strings and comments *)

Lemma moved_hex4 k cp l : moved l (hex4 k cp l).2.
Proof.
  revert cp l. induction k as [|k IH]; intros cp l; simpl; [done|].
  destruct (_ <? 0); [done|]. eapply moved_trans; [apply moved_skip|apply IH].
Qed.

Lemma moved_escape value l : moved (skip l) (escape value l).2.
Proof.
  unfold escape. change (advance l) with ((advance l).1, skip l). cbv iota beta.
  repeat (case_if; [done|]). destruct (_ =c "u"%char); [|done].
  unfold unicode_escape. pose proof (moved_hex4 4 0 (skip l)) as H1.
  destruct (hex4 4 0 (skip l)) as [[cp ok] l1]. cbn [snd] in H1.
  destruct (negb ok); [done|]. case_if; [|done].
  pose proof (moved_hex4 4 0 (skip (skip l1))) as H2.
  destruct (hex4 4 0 (skip (skip l1))) as [[lo ok2] l2]. cbn [snd] in *.
  eapply moved_trans; [exact H1|]. eapply moved_trans; [|exact H2].
  eapply moved_trans; apply moved_skip.
Qed.

Lemma remaining_moved l l' :
  moved (skip l) l' -> is_at_end l = false -> (remaining l' < remaining l)%nat.
Proof.
  unfold remaining, moved. intros (Hs&_&_&_&Hc) H%not_at_end. rewrite Hs in *. simpl in *. lia.
Qed.

Lemma remaining_0 l : remaining l = 0%nat -> is_at_end l = true.
Proof. unfold remaining, is_at_end. intros. apply Nat.leb_le. lia. Qed.

(** The loop stops at the closing quote or at the end. *)
Lemma string_loop_spec fuel quote value l :
  (remaining l <= fuel)%nat ->
  let l' := (string_loop fuel quote value l).2 in
  moved l l' /\ (is_at_end l' = true \/ peek l' = quote).
Proof.
  revert value l. induction fuel as [|fuel IH]; intros value l Hf; cbn zeta; simpl.
  - split; [done|]. left. apply remaining_0. lia.
  - destruct (is_at_end l) eqn:He; simpl; [by split; [|left]|].
    destruct (peek l =c quote) eqn:Hq; simpl; [bool_to_prop; by split; [|right]|].
    set (l1 := if peek l =c LF then _ else _).
    assert (H1 : moved l l1 /\ remaining l1 = remaining l /\ is_at_end l1 = false /\ moved (skip l) (skip l1)).
    { unfold l1. destruct (_ =c LF); [|done]. repeat split; simpl; try done; lia. }
    destruct H1 as (Hm1 & Hr1 & He1 & Hms).
    destruct (peek l =c BACKSLASH).
    + pose proof (moved_escape value (skip l1)) as He'.
      destruct (escape value (skip l1)) as [value' l2]. cbn [snd] in He'.
      assert (Hm2 : moved (skip l1) l2) by (eapply moved_trans; [apply moved_skip|done]).
      pose proof (remaining_moved _ _ Hm2 He1).
      destruct (IH value' l2 ltac:(lia)) as [Hm Hd]. split; [|done].
      eapply moved_trans; [exact Hm1|]. eapply moved_trans; [apply moved_skip|].
      by eapply moved_trans.
    + pose proof (remaining_moved l1 (skip l1) (moved_refl _) He1).
      destruct (IH (value ++ [at_ l1 (current_ l1)]) (skip l1) ltac:(lia)) as [Hm Hd].
      split; [|done]. eapply moved_trans; [exact Hm1|]. eapply moved_trans; [apply moved_skip|done].
Qed.

Lemma raw_loop_spec fuel value l :
  (remaining l <= fuel)%nat ->
  let l' := (raw_loop fuel value l).2 in
  moved l l' /\ (is_at_end l' = true \/ peek l' = BACKTICK).
Proof.
  revert value l. induction fuel as [|fuel IH]; intros value l Hf; cbn zeta; simpl.
  - split; [done|]. left. apply remaining_0. lia.
  - destruct (is_at_end l) eqn:He; simpl; [by split; [|left]|].
    destruct (peek l =c BACKTICK) eqn:Hq; simpl; [bool_to_prop; by split; [|right]|].
    set (l1 := if peek l =c LF then _ else _).
    assert (H1 : moved l l1 /\ remaining l1 = remaining l /\ is_at_end l1 = false).
    { unfold l1. destruct (_ =c LF); [|done]. repeat split; simpl; try done; lia. }
    destruct H1 as (Hm1 & Hr1 & He1).
    pose proof (remaining_moved l1 (skip l1) (moved_refl _) He1).
    destruct (IH (value ++ [at_ l1 (current_ l1)]) (skip l1) ltac:(lia)) as [Hm Hd].
    split; [|done]. eapply moved_trans; [exact Hm1|]. eapply moved_trans; [apply moved_skip|done].
Qed.

Lemma quoted_span q mid :
  one_of [DQUOTE; SQUOTE; BACKTICK] q = true -> tok_ok STRING ((q :: mid) ++ [q]) = true.
Proof.
  intros Hq. change (tok_ok STRING) with quoted. cbn [app quoted].
  by rewrite Hq, last_snoc, Ascii.eqb_refl.
Qed.

(** A string token, from the state behind the opening quote. *)
Lemma good_string l0 l l' t q :
  ready l0 -> moved l0 l -> span l0 l = [q] -> moved l l' -> is_at_end l' = false ->
  peek l' = q -> one_of [DQUOTE; SQUOTE; BACKTICK] q = true ->
  type t = STRING -> lexeme t = text (skip l') ->
  good l0 (push_token (skip l') t).
Proof.
  intros Hr Hm Hsp Hm' He Hp Hq Ht Hlex.
  assert (Hm2 : moved l0 l') by by eapply moved_trans.
  assert (Hm3 : moved l0 (skip l')) by (eapply moved_trans; [exact Hm2|apply moved_skip]).
  rewrite (text_span l0) in Hlex by done.
  rewrite (span_skip_app l0 l' _ Hm2 eq_refl He), Hp, (span_app l0 l), Hsp in Hlex by done.
  apply good_push; try done.
  - destruct Hm2 as (_&_&_&_&?). simpl. lia.
  - by apply in_bounds_skip.
  - by rewrite (span_skip_app l0 l' _ Hm2 eq_refl He), Hp, (span_app l0 l), Hsp.
  - rewrite Ht, Hlex. by apply quoted_span.
Qed.

Lemma set_last_raw_push l t :
  set_last_raw (push_token l t) =
  push_token l (MkToken (type t) (lexeme t) (literal t) (tok_line t) (column t) true).
Proof. unfold set_last_raw. simpl. rewrite rev_app_distr. simpl. by rewrite rev_involutive. Qed.

Lemma string_good l0 l l' q :
  ready l0 -> moved l0 l -> span l0 l = [q] -> one_of [DQUOTE; SQUOTE; BACKTICK] q = true ->
  string_ q l = Ok l' -> good l0 l'.
Proof.
  intros Hr Hm Hsp Hq. unfold string_.
  pose proof (string_loop_spec (remaining l) q [] l ltac:(lia)) as [Hm1 Hd].
  destruct (string_loop (remaining l) q [] l) as [value l1]. cbn [snd] in *.
  destruct (is_at_end l1) eqn:He; [done|]. destruct Hd as [Hd|Hd]; [done|]. intros [= <-].
  unfold add_token. rewrite set_last_raw_push. destruct (q =c SQUOTE); by eapply good_string.
Qed.

Lemma raw_string_good l0 l l' :
  ready l0 -> moved l0 l -> span l0 l = [BACKTICK] -> raw_string l = Ok l' -> good l0 l'.
Proof.
  intros Hr Hm Hsp. unfold raw_string.
  pose proof (raw_loop_spec (remaining l) [] l ltac:(lia)) as [Hm1 Hd].
  destruct (raw_loop (remaining l) [] l) as [value l1]. cbn [snd] in *.
  destruct (is_at_end l1) eqn:He; [done|]. destruct Hd as [Hd|Hd]; [done|]. intros [= <-].
  by eapply good_string.
Qed.

(** A closed block comment ends with the two characters of its end. *)
Lemma block_comment_spec fuel l l' :
  in_bounds l -> block_comment fuel l = (l', true) ->
  moved l l' /\ in_bounds l' /\ exists s, span l l' = s ++ lit "*/".
Proof.
  revert l. induction fuel as [|fuel IH]; intros l Hb; simpl; [done|].
  destruct (is_at_end l) eqn:He; simpl; [done|].
  destruct ((peek l =c "*") && (peek_next l =c "/")) eqn:E.
  - intros [= <-]. bool_to_prop. rewrite peek_next_skip in *.
    assert (He1 : is_at_end (skip l) = false) by by eapply peek_not_end.
    split; [eapply moved_trans; apply moved_skip|]. split; [by apply in_bounds_skip|].
    exists []. rewrite (span_skip_app l (skip l) _ (moved_skip l) eq_refl He1), span_skip by done.
    by repeat match goal with H : peek _ = _ |- _ => rewrite H end.
  - set (l1 := if peek l =c LF then _ else _). intros H.
    assert (H1 : moved l l1 /\ is_at_end l1 = false /\ span l (skip l1) = [peek l]).
    { unfold l1. destruct (_ =c LF); (split; [done|]; split; [done|]).
      - change (span l (skip (set_line l (line_ l + 1) (col_ l)))) with (span l (skip l)).
        by apply span_skip.
      - by apply span_skip. }
    destruct H1 as (Hm1 & He1 & Hsp1).
    destruct (IH _ (in_bounds_skip l1 He1) H) as (Hm & Hb' & s' & Hs').
    assert (Hm2 : moved l (skip l1)) by (eapply moved_trans; [exact Hm1|apply moved_skip]).
    split; [by eapply moved_trans|]. split; [done|].
    exists (peek l :: s'). by rewrite (span_app l (skip l1)), Hsp1, Hs'.
Qed.

(** ** Identifiers and numbers *)

Lemma assoc_find_In {A} k (l : list (bytes * A)) a : assoc_find k l = Some a -> In a (map snd l).
Proof.
  induction l as [|[k' b] l IH]; simpl; [done|]. destruct (k =s k'); [|auto].
  intros [= ->]. by left.
Qed.

(** The kinds that are read as words. *)
Definition word_kind (t : TokenType) : bool :=
  match spelling t with
  | Some _ => false
  | None => match t with EOF_TOKEN | STRING | NUMBER | FLOAT_NUM => false | _ => true end
  end.

Lemma ident_type_word w : word_kind (ident_type w) = true.
Proof.
  unfold ident_type. destruct w as [|c w]; [done|]. destruct (c =c "$"); [done|].
  destruct (assoc_find _ keywords) as [t|] eqn:E; [|done]. apply assoc_find_In in E.
  assert (H : forallb word_kind (map snd keywords) = true) by done.
  rewrite forallb_forall in H. auto.
Qed.

Lemma tok_ok_word w : ident_shape w = true -> tok_ok (ident_type w) w = true.
Proof.
  intros Hs. pose proof (ident_type_word w) as H. unfold word_kind, tok_ok in *.
  destruct (spelling (ident_type w)); [done|].
  assert (Hb : bool_decide (ident_type w = ident_type w) = true) by by apply bool_decide_eq_true.
  rewrite Hs. destruct (ident_type w); try done; by rewrite Hb.
Qed.

Lemma span_head l0 l :
  moved l0 l -> (current_ l0 < current_ l)%nat -> in_bounds l -> exists s, span l0 l = peek l0 :: s.
Proof.
  intros Hm Hlt Hb. assert (He : is_at_end l0 = false).
  { apply not_at_end. destruct Hm as (Hs&_). unfold in_bounds in Hb. rewrite Hs in Hb. lia. }
  exists (span (skip l0) l). rewrite (span_app l0 (skip l0)), span_skip; auto.
  destruct Hm as (?&?&?&?&?). unfold moved. simpl. repeat split; congruence || lia.
Qed.

Lemma advance_while_progress p l :
  in_bounds l -> is_at_end l = false -> p (peek l) = true ->
  (current_ l < current_ (advance_while p l))%nat.
Proof.
  intros Hb He Hp. unfold advance_while. pose proof He as Hr%not_at_end.
  destruct (remaining l) as [|fuel] eqn:E; [unfold remaining in E; lia|]. simpl. rewrite He, Hp. simpl.
  assert (Hle : forall fuel l1, (current_ l1 <= current_ (advance_while_ fuel p l1))%nat).
  { clear. intros fuel. induction fuel as [|fuel IH]; intros l1; simpl; [done|].
    destruct (_ && _); [|done]. specialize (IH (skip l1)). simpl in *. lia. }
  specialize (Hle fuel (skip l)). simpl in Hle. lia.
Qed.

Lemma identifier_good l0 l :
  ready l0 -> moved l0 l -> in_bounds l ->
  (forall w, forallb ident_char w = true -> (current_ l0 < current_ l + length w)%nat ->
             ident_shape (span l0 l ++ w) = true) ->
  (current_ l0 < current_ (advance_while ident_char l))%nat ->
  good l0 (identifier l).
Proof.
  intros Hr Hm Hb Hsh Hlt. unfold identifier.
  pose proof (advance_while_spec ident_char l Hb) as (Hm1 & Hb1 & Hf). cbn zeta in *.
  set (l1 := advance_while ident_char l) in *.
  assert (Hm2 : moved l0 l1) by by eapply moved_trans.
  eapply good_token; try done. rewrite (text_span l0) by done. apply tok_ok_word.
  rewrite (span_app l0 l) by done. apply Hsh; [done|].
  unfold span, substr. rewrite length_take, length_drop. destruct Hm1 as (Hs&_&_&_&?).
  unfold in_bounds in Hb1. rewrite Hs in Hb1. lia.
Qed.

Definition starts_digit (w : bytes) : bool := match w with c :: _ => isdigit c | [] => false end.

Lemma digit_not_NUL c : isdigit c = true -> c <> NUL.
Proof. by intros H ->. Qed.

Lemma advance_while_from l0 p l :
  moved l0 l -> in_bounds l -> moved l0 (advance_while p l) /\ in_bounds (advance_while p l).
Proof.
  intros Hm Hb. pose proof (advance_while_spec p l Hb) as (Hm1 & Hb1 & _).
  split; [by eapply moved_trans|done].
Qed.

Lemma skip_from l0 l c :
  moved l0 l -> peek l = c -> c <> NUL -> moved l0 (skip l) /\ in_bounds (skip l).
Proof.
  intros Hm Hp Hc. split; [eapply moved_trans; [exact Hm|apply moved_skip]|].
  apply in_bounds_skip. by eapply peek_not_end.
Qed.

Lemma number_good l0 l :
  ready l0 -> moved l0 l -> current_ l = current_ l0 -> isdigit (peek l) = true ->
  good l0 (number l).
Proof.
  intros Hr Hm Hc Hd.
  assert (He : is_at_end l = false) by (eapply peek_not_end; [done|by apply digit_not_NUL]).
  assert (Hb : in_bounds l) by (apply not_at_end in He; unfold in_bounds; lia).
  assert (Hp0 : peek l0 = peek l).
  { destruct Hm as (Hs&_). unfold peek, is_at_end, at_. by rewrite Hc, Hs. }
  assert (Hfin : forall l' ty, moved l0 l' -> in_bounds l' -> (current_ l0 < current_ l')%nat ->
    ty = NUMBER \/ ty = FLOAT_NUM -> good l0 (add_token l' ty (Some (text l')))).
  { intros l' ty Hm' Hb' Hlt Hty. eapply good_token; try done.
    destruct (span_head l0 l' Hm' Hlt Hb') as [s ->]. rewrite Hp0. by destruct Hty as [-> | ->]. }
  assert (Hpre : forall p, peek l = "0"%char -> peek_next l <> NUL ->
    good l0 (add_token (advance_while p (skip (skip l))) NUMBER
               (Some (text (advance_while p (skip (skip l))))))).
  { intros p Hz Hn. rewrite peek_next_skip in Hn.
    destruct (skip_from l0 l _ Hm Hz ltac:(done)) as [Hm1 Hb1].
    destruct (skip_from l0 (skip l) _ Hm1 eq_refl Hn) as [Hm2 Hb2].
    destruct (advance_while_from l0 p _ Hm2 Hb2) as [Hm3 Hb3].
    apply Hfin; [done|done| |by left].
    pose proof (advance_while_spec p _ Hb2) as ((_&_&_&_&H)&_). simpl in H. lia. }
  unfold number. case_if; [|case_if].
  1-2: bool_to_prop; apply Hpre; [done|]; rename select ((_ || _)%bool = true) into Ho;
       apply orb_true_iff in Ho as [Ho|Ho]; bool_to_prop; by rewrite Ho.
  destruct (advance_while_from l0 digit_ l Hm Hb) as [Hm1 Hb1].
  assert (Hlt1 : (current_ l0 < current_ (advance_while digit_ l))%nat).
  { rewrite <- Hc. apply advance_while_progress; try done. unfold digit_. by rewrite Hd. }
  set (l1 := advance_while digit_ l) in *. clearbody l1.
  assert (H2 : exists b l2, (if (peek l1 =c ".") && isdigit (peek_next l1)
      then (true, advance_while digit_ (skip l1)) else (false, l1)) = (b, l2) /\
      moved l0 l2 /\ in_bounds l2 /\ (current_ l0 < current_ l2)%nat).
  { case_if; [|by exists false, l1]. bool_to_prop.
    destruct (skip_from l0 l1 _ Hm1 ltac:(eassumption) ltac:(done)) as [Hm2 Hb2].
    destruct (advance_while_from l0 digit_ _ Hm2 Hb2) as [Hm3 Hb3].
    eexists _, _. split; [done|]. split; [done|]. split; [done|].
    pose proof (advance_while_spec digit_ _ Hb2) as ((_&_&_&_&Hle)&_). simpl in Hle. lia. }
  destruct H2 as (b & l2 & -> & Hm2 & Hb2 & Hlt2). clear Hpre Hlt1 Hm1 Hb1 l1.
  assert (Hty : forall (b : bool), (if b then FLOAT_NUM else NUMBER) = NUMBER \/
                (if b then FLOAT_NUM else NUMBER) = FLOAT_NUM) by (intros []; auto).
  case_if; [|by apply Hfin]. case_if; [|by apply Hfin].
  assert (Hs : peek l2 <> NUL).
  { rename select ((_ =c "e") || _ = true) into Ho. apply orb_true_iff in Ho as [Ho|Ho];
      bool_to_prop; by rewrite Ho. }
  destruct (skip_from l0 l2 _ Hm2 eq_refl Hs) as [Hm3 Hb3].
  set (l4 := if (peek (skip l2) =c "+") || (peek (skip l2) =c "-") then skip (skip l2) else skip l2).
  assert (H4 : moved l0 l4 /\ in_bounds l4 /\ (current_ l0 < current_ l4)%nat).
  { unfold l4. destruct ((peek (skip l2) =c "+") || (peek (skip l2) =c "-")) eqn:Ho;
      [|split; [done|]; split; [done|]; simpl; lia].
    assert (Hn : peek (skip l2) <> NUL)
      by (apply orb_true_iff in Ho as [Ho|Ho]; bool_to_prop; by rewrite Ho).
    destruct (skip_from l0 _ _ Hm3 eq_refl Hn) as [Hm4 Hb4]. split; [done|].
    split; [done|]. simpl. lia. }
  destruct H4 as (Hm4 & Hb4 & Hlt4).
  destruct (advance_while_from l0 isdigit _ Hm4 Hb4) as [Hm5 Hb5].
  apply Hfin; [done|done| |by right].
  pose proof (advance_while_spec isdigit _ Hb4) as ((_&_&_&_&Hle)&_). lia.
Qed.

(** ** One token *)

Section ScanToken.
Context (l0 : Lexer) (Hr : ready l0) (Hne : is_at_end l0 = false).

Lemma ready_bounds : in_bounds l0.
Proof. apply Hr. Qed.

(** The state behind the first character. *)
Lemma first_char l :
  moved (skip l0) l -> current_ l = S (current_ l0) ->
  moved l0 l /\ in_bounds l /\ (current_ l0 < current_ l)%nat /\ span l0 l = [peek l0].
Proof.
  intros Hm Hc. assert (Hm' : moved l0 l) by (eapply moved_trans; [apply moved_skip|done]).
  pose proof Hne as Hlt%not_at_end. split; [done|]. destruct Hm as (Hs&_). split.
  - unfold in_bounds. rewrite Hs, Hc. simpl. lia.
  - split; [lia|]. rewrite <- (span_skip l0) by done. unfold span. rewrite Hc. done.
Qed.

Lemma good_one l ty :
  moved (skip l0) l -> current_ l = S (current_ l0) -> tok_ok ty [peek l0] = true ->
  good l0 (one l ty).
Proof.
  intros Hm Hc Hok. destruct (first_char l Hm Hc) as (Hm' & Hb & Hlt & Hsp).
  by eapply good_token.
Qed.

Lemma good_two c ty other :
  c <> NUL -> tok_ok ty [peek l0; c] = true -> good l0 other ->
  good l0 (two (skip l0) c ty other).
Proof.
  intros Hc Hok Ho. unfold two. destruct (_ =c c) eqn:E; [|done]. bool_to_prop.
  destruct (first_char (skip l0) (moved_refl _) eq_refl) as (Hm & Hb & Hlt & Hsp).
  destruct (skip_from l0 _ _ Hm E Hc) as [Hm2 Hb2].
  eapply good_token; try done; [simpl; lia|].
  rewrite (span_skip_app l0 _ _ Hm Hsp) by by eapply peek_not_end. simpl. by rewrite E.
Qed.

Lemma good_three c d ty :
  peek (skip l0) = c -> peek_next (skip l0) = d -> c <> NUL -> d <> NUL ->
  tok_ok ty [peek l0; c; d] = true -> good l0 (add_token (skip (skip (skip l0))) ty None).
Proof.
  intros Hp Hn Hc Hd Hok. rewrite peek_next_skip in Hn.
  destruct (first_char (skip l0) (moved_refl _) eq_refl) as (Hm & Hb & Hlt & Hsp).
  destruct (skip_from l0 _ _ Hm Hp Hc) as [Hm2 Hb2].
  destruct (skip_from l0 _ _ Hm2 Hn Hd) as [Hm3 Hb3].
  eapply good_token; try done; [simpl; lia|].
  rewrite (span_skip_app l0 _ _ Hm2 eq_refl) by by eapply peek_not_end.
  rewrite (span_skip_app l0 _ _ Hm Hsp) by by eapply peek_not_end.
  rewrite Hp, Hn. done.
Qed.

Lemma good_line_comment :
  peek l0 = "#"%char \/ (peek l0 = "/"%char /\ peek (skip l0) = "/"%char) ->
  good l0 (advance_while not_LF (skip l0)).
Proof.
  intros Hp. destruct (first_char (skip l0) (moved_refl _) eq_refl) as (Hm & Hb & Hlt & Hsp).
  destruct (advance_while_from l0 not_LF _ Hm Hb) as [Hm1 Hb1].
  pose proof (advance_while_spec not_LF _ Hb) as (Hm2 & _ & Hf). cbn zeta in Hf.
  eapply good_gap; try done; [destruct Hm2 as (_&_&_&_&?); simpl in *; lia|].
  rewrite (span_app l0 (skip l0)), Hsp by done. destruct Hp as [-> | [-> Hp2]].
  - by apply gap_hash.
  - assert (Hlt2 : (current_ (skip l0) < current_ (advance_while not_LF (skip l0)))%nat).
    { apply advance_while_progress; [done| |by rewrite Hp2]. by eapply peek_not_end. }
    destruct (span_head _ _ Hm2 Hlt2 Hb1) as [s Hs]. rewrite Hs, Hp2 in *. simpl.
    apply (gap_line s). by apply andb_true_iff in Hf as [_ Hf].
Qed.

Lemma good_block_comment l' :
  peek l0 = "/"%char -> peek (skip l0) = "*"%char ->
  block_comment (remaining (skip (skip l0))) (skip (skip l0)) = (l', true) -> good l0 l'.
Proof.
  intros Hp Hp2 Hbc. destruct (first_char (skip l0) (moved_refl _) eq_refl) as (Hm & Hb & Hlt & Hsp).
  destruct (skip_from l0 _ _ Hm Hp2 ltac:(done)) as [Hm2 Hb2].
  destruct (block_comment_spec _ _ _ Hb2 Hbc) as (Hm3 & Hb3 & s & Hs).
  eapply good_gap; try done; [by eapply moved_trans| |].
  - destruct Hm3 as (_&_&_&_&?). simpl in *. lia.
  - rewrite (span_app l0 (skip (skip l0))), Hs by done.
    rewrite (span_skip_app l0 _ _ Hm Hsp), Hp, Hp2 by by eapply peek_not_end.
    apply (gap_block s).
Qed.

Lemma good_blank : one_of [SP; TAB; CR; LF] (peek l0) = true -> good l0 (skip l0).
Proof.
  intros Hp. destruct (first_char (skip l0) (moved_refl _) eq_refl) as (Hm & Hb & Hlt & Hsp).
  eapply good_gap; try done. by apply gap_ws.
Qed.
End ScanToken.

Lemma good_set_line l0 l n c : good l0 l -> good l0 (set_line l n c).
Proof. intros (Hs & Hlt & [H1 H2 H3]). split; [done|]. split; [done|]. by constructor. Qed.

Lemma Inv_set_start l : Inv l -> ready (set_start l (current_ l) (col_ l)).
Proof. intros [H1 H2 H3]. by repeat constructor. Qed.

(** The newline: first the virtual semicolon, then the skipped character. *)
Lemma good_newline l0 :
  ready l0 -> is_at_end l0 = false -> peek l0 = LF ->
  good l0 (set_line (asi (skip l0)) (line_ (asi (skip l0)) + 1) 1).
Proof.
  intros Hr Hne Hp. apply good_set_line.
  destruct (good_blank l0 Hr Hne ltac:(by rewrite Hp)) as (Hs & Hlt & HI).
  destruct (Inv_asi _ HI) as (HI' & Hc & Hs'). split; [congruence|]. split; [by rewrite Hc|done].
Qed.

Lemma back_good l0 c :
  ready l0 -> is_at_end l0 = false -> isalpha (peek l0) || (peek l0 =c "_") = true ->
  good l0 (identifier (set_current (skip l0) (current_ l0) c)).
Proof.
  intros Hr Hne Hc. set (l := set_current (skip l0) (current_ l0) c).
  assert (Hm : moved l0 l) by (unfold moved, l; simpl; repeat split; lia).
  assert (Hb : in_bounds l) by (pose proof Hne as H%not_at_end; unfold in_bounds, l; simpl; lia).
  assert (Hlt : (current_ l0 < current_ (advance_while ident_char l))%nat).
  { apply (advance_while_progress ident_char l Hb Hne). change (peek l) with (peek l0).
    unfold ident_char, isalnum. apply orb_true_iff in Hc as [-> | ->]; [done|apply orb_true_r]. }
  destruct (advance_while_from l0 ident_char l Hm Hb) as [Hm1 Hb1].
  pose proof (advance_while_spec ident_char l Hb) as (Hm2 & _ & Hf). cbn zeta in Hf.
  destruct (span_head _ _ Hm1 Hlt Hb1) as [s Hs].
  unfold identifier. eapply good_token; [done|done|done|done|reflexivity|].
  rewrite (text_span l0) by done. apply tok_ok_word. change (span l (advance_while ident_char l)) with
    (span l0 (advance_while ident_char l)) in Hf.
  rewrite Hs in Hf. rewrite Hs. simpl in *. apply andb_true_iff in Hf as [_ Hf]. rewrite Hf, andb_true_r.
  rewrite <- orb_assoc. rewrite Hc. apply orb_true_r.
Qed.

Lemma dollar_good l0 :
  ready l0 -> is_at_end l0 = false -> peek l0 = "$"%char -> good l0 (identifier (skip l0)).
Proof.
  intros Hr Hne Hp.
  destruct (first_char l0 Hne (skip l0) (moved_refl _) eq_refl) as (Hm & Hb & Hlt & Hsp).
  apply identifier_good; try done.
  - intros w Hw _. by rewrite Hsp, Hp.
  - pose proof (advance_while_spec ident_char _ Hb) as ((_&_&_&_&H)&_). simpl in H. lia.
Qed.

(** Replace the first character by what it is known to be. *)
Ltac use_peek := repeat match goal with
  | H : peek ?l = _, H' : context [peek ?l] |- _ => rewrite H in H'
  | H : peek ?l = _ |- context [peek ?l] => rewrite H
  end.

Lemma scan_token_good l0 l' :
  ready l0 -> is_at_end l0 = false -> scan_token l0 = Ok l' -> good l0 l'.
Proof.
  intros Hr Hne. unfold scan_token.
  assert (Hadv : advance l0 = (peek l0, skip l0))
    by (unfold peek; rewrite Hne; done).
  rewrite Hadv. pose proof (good_one l0 Hr Hne) as H1. pose proof (good_two l0 Hr Hne) as H2.
  pose proof (first_char l0 Hne (skip l0) (moved_refl _) eq_refl) as (Hm & Hb & Hlt & Hsp).
  repeat match goal with
  | |- (if ?b then _ else _) = Ok _ -> _ => destruct b eqn:?; bool_to_prop
  end.
  all: repeat match goal with H : (_ || _)%bool = true |- _ =>
         apply orb_true_iff in H as [H|H]; bool_to_prop end.
  all: use_peek.
  all: try (intros [= <-]; repeat (apply H2; [done|done|]); apply H1; by try apply moved_set_depths).
  all: try (intros [= <-]; by eapply good_three; try eassumption; use_peek).
  all: try (intros [= <-]; apply good_blank; [done..|]; by use_peek).
  all: try (intros [= <-]; by apply good_line_comment; auto).
  all: try (by apply raw_string_good).
  all: try (by eapply string_good).
  - intros [= <-]. specialize (H2 "="%char SLASH_ASSIGN (one (skip l0) SLASH)). unfold two in H2.
    use_peek. apply H2; [done|done|]. by apply H1.
  - destruct (block_comment _ _) as [l1 [|]] eqn:E; [|done]. intros [= <-].
    by apply good_block_comment.
  - intros [= <-]. by apply good_newline.
  - intros [= <-]. by apply dollar_good.
  - intros [= <-]. by apply number_good.
  - intros [= <-]. apply back_good; try done. apply orb_true_iff. by left.
  - intros [= <-]. apply back_good; try done. use_peek. done.
Qed.

(** ** The whole source *)

Lemma Inv_init s : Inv (init s).
Proof.
  constructor; [apply sc_start| |done]. unfold in_bounds, init. cbn [current_ source_].
  destruct (has_bom s) eqn:E; [|lia]. apply starts_with_spec in E as [r ->]. simpl. lia.
Qed.

Lemma scan_step_good l l' : Inv l -> scan_step l = inl l' ->
  source_ l' = source_ l /\ (current_ l < current_ l')%nat /\ Inv l'.
Proof.
  intros HI. unfold scan_step. destruct (is_at_end l) eqn:He; [done|].
  destruct (scan_token _) as [l1|] eqn:E; [|done]. intros [= <-].
  exact (scan_token_good _ _ (Inv_set_start l HI) He E).
Qed.

Lemma scan_loop s :
  exists r, loop scan_step (S (length s)) (init s) = Some r /\
    match r with Ok l => Inv l /\ source_ l = s /\ is_at_end l = true | Throw _ => True end.
Proof.
  set (I := fun l => Inv l /\ source_ l = s).
  assert (Hstep : forall l l', I l -> scan_step l = inl l' ->
            I l' /\ (remaining l' < remaining l)%nat).
  { intros l l' [HI Hs] E. destruct (scan_step_good _ _ HI E) as (Hs' & Hlt & HI').
    split; [split; [done|congruence]|]. destruct HI' as [_ Hb _]. unfold in_bounds, remaining in *.
    rewrite Hs' in *. lia. }
  assert (HI0 : I (init s)) by (split; [apply Inv_init|done]).
  destruct (loop_total scan_step I remaining Hstep (S (length s)) (init s) HI0) as [r Hr].
  { unfold remaining. simpl. lia. }
  exists r. split; [done|]. destruct r as [l|]; [|done].
  refine (loop_inv scan_step I (fun r => match r with
    Ok l => Inv l /\ source_ l = s /\ is_at_end l = true | Throw _ => True end) _ _ _ _ _ HI0 Hr).
  - intros l1 l2 H E. by apply (Hstep l1 l2 H E).
  - intros l1 r [HI Hs]. unfold scan_step. destruct (is_at_end l1) eqn:He; [by intros [= <-]|].
    by destruct (scan_token _) as [l2|]; intros [= <-].
Qed.

Lemma scanned_no_eof s toks n : scanned s toks n -> Forall (fun t => type t <> EOF_TOKEN) toks.
Proof.
  induction 1 as [|toks n m H IH|toks n m t H IH Hm Hn Hlex Hok|toks t' n t H IH Hi Ht]; try done.
  - apply Forall_app. split; [done|]. constructor; [|done]. intros E. by rewrite E in Hok.
  - apply Forall_app. split; [done|]. constructor; [|done]. congruence.
Qed.

(** C37: the lexer loses nothing and always ends. On every source the scanner
    terminates with an error or a token list whose only EOF_TOKEN is the last;
    the source is then, from its first byte (behind a BOM) to its last, the
    lexemes of the tokens in order, each spelled as its kind requires, with
    only blanks and comments between them, except for virtual semicolons,
    which take no text and come directly behind a token that can end a
    statement. *)
Theorem scan_tokens_sound source :
  exists r, scan_tokens source = Some r /\
    match r with
    | Throw _ => True
    | Ok toks => exists ts e, toks = ts ++ [e] /\ type e = EOF_TOKEN /\
                   Forall (fun t => type t <> EOF_TOKEN) ts /\
                   scanned source ts (length source)
    end.
Proof.
  unfold scan_tokens. destruct (scan_loop source) as (r & -> & Hr).
  destruct r as [l|e]; [|by exists (Throw e)].
  destruct Hr as (HI & Hs & He). destruct (Inv_asi l HI) as ([Hsc Hb _] & Hc & Hs').
  eexists. split; [done|]. exists (tokens_ (asi l)), (eof (asi l)). split; [done|]. split; [done|].
  assert (Hend : current_ (asi l) = length source).
  { unfold is_at_end, in_bounds in *. bool_to_prop. rewrite Hs' in Hb. rewrite Hs in *. lia. }
  rewrite Hs', Hs, Hend in Hsc. split; [by eapply scanned_no_eof|done].
Qed.

(** * Printing tokens and reading them back *)

Inductive atom :=
| A_op (t : TokenType)          (* a token with a spelling *)
| A_word (w : bytes)            (* an identifier or a keyword *)
| A_int (ds : bytes)            (* decimal digits *)
| A_str (v : bytes).            (* a double-quoted string with this value *)

Definition escape_char (c : ascii) : bytes :=
  if c =c LF then [BACKSLASH; "n"%char]
  else if c =c DQUOTE then [BACKSLASH; DQUOTE]
  else if c =c BACKSLASH then [BACKSLASH; BACKSLASH]
  else [c].
Definition escape_str (v : bytes) : bytes := concat (map escape_char v).

Definition atom_text (a : atom) : bytes :=
  match a with
  | A_op t => default [] (spelling t)
  | A_word w => w
  | A_int ds => ds
  | A_str v => [DQUOTE] ++ escape_str v ++ [DQUOTE]
  end.
Definition atom_ok (a : atom) : bool :=
  match a with
  | A_op t => match spelling t with Some _ => true | None => false end
  | A_word w => ident_shape w
  | A_int ds => starts_digit ds && forallb isdigit ds
  | A_str v => true
  end.
Definition atom_type (a : atom) : TokenType :=
  match a with A_op t => t | A_word w => ident_type w | A_int _ => NUMBER | A_str _ => STRING end.
Definition atom_literal (a : atom) : option bytes :=
  match a with A_int ds => Some ds | A_str v => Some v | _ => None end.

(** A source with a space behind every token. *)
Definition print_atoms (az : list atom) : bytes := unlines SP (map atom_text az).

(** What the parser reads of a token. *)
Definition token_view : Type := TokenType * bytes * option bytes * bool.
Definition view (t : Token) : token_view := (type t, lexeme t, literal t, raw t).
Definition atom_view (a : atom) : token_view := (atom_type a, atom_text a, atom_literal a, false).

(** ** The text that is left *)

Definition rest (l : Lexer) : bytes := drop (current_ l) (source_ l).

Lemma rest_cons l c r :
  rest l = c :: r ->
  is_at_end l = false /\ peek l = c /\ rest (skip l) = r /\ at_ l (current_ l) = c.
Proof.
  unfold rest. intros H.
  assert (Hl : source_ l !! current_ l = Some c).
  { rewrite <- (Nat.add_0_r (current_ l)), <- lookup_drop, H. done. }
  assert (He : is_at_end l = false).
  { apply not_at_end. by apply lookup_lt_is_Some_1. }
  split; [done|]. split; [|split].
  - pose proof (peek_in l He). congruence.
  - simpl. rewrite (drop_S _ _ _ Hl) in H. congruence.
  - unfold at_. by rewrite Hl.
Qed.

Lemma rest_nil l : rest l = [] -> is_at_end l = true /\ peek l = NUL.
Proof.
  unfold rest, peek, is_at_end. intros H%(f_equal length). rewrite length_drop in H. simpl in H.
  rewrite (proj2 (Nat.leb_le _ _)) by lia. done.
Qed.

Lemma rest_peek_next l c d r : rest l = c :: d :: r -> peek_next l = d.
Proof. intros (_ & _ & H & _)%rest_cons. rewrite peek_next_skip. by apply rest_cons in H as (_ & -> & _). Qed.

Fixpoint skips (n : nat) (l : Lexer) : Lexer :=
  match n with O => l | S n' => skips n' (skip l) end.

Lemma advance_while_rest p l w c r :
  rest l = w ++ c :: r -> forallb p w = true -> p c = false ->
  advance_while p l = skips (length w) l /\ rest (skips (length w) l) = c :: r.
Proof.
  intros Hr Hw Hc. unfold advance_while.
  assert (Hf : (length w <= remaining l)%nat).
  { unfold rest in Hr. apply (f_equal length) in Hr. rewrite length_drop, length_app in Hr.
    unfold remaining. lia. }
  revert Hf. generalize (remaining l) as m. intros m. revert m l Hr.
  induction w as [|d w IH]; intros m l Hr Hf; simpl in *.
  - split; [|done]. apply rest_cons in Hr as (He & Hp & _). destruct m; simpl; [done|].
    by rewrite He, Hp, Hc.
  - destruct m as [|m]; [lia|]. apply andb_true_iff in Hw as [Hd Hw].
    apply rest_cons in Hr as (He & Hp & Hr & _). simpl. rewrite He, Hp, Hd. simpl.
    apply IH; [done|done|lia].
Qed.

Lemma skips_fields n l :
  source_ (skips n l) = source_ l /\ tokens_ (skips n l) = tokens_ l /\
  start_ (skips n l) = start_ l /\ current_ (skips n l) = (current_ l + n)%nat /\
  line_ (skips n l) = line_ l.
Proof.
  revert l. induction n as [|n IH]; intros l; simpl; [repeat split; lia|].
  destruct (IH (skip l)) as (-> & -> & -> & -> & ->). simpl. repeat split; lia.
Qed.

(** What scanning one token must give: the token with the text [w]. *)
Definition scans (l0 l' : Lexer) (ty : TokenType) (w : bytes) (v : option bytes) : Prop :=
  source_ l' = source_ l0 /\ current_ l' = (current_ l0 + length w)%nat /\
  map view (tokens_ l') = map view (tokens_ l0) ++ [(ty, w, v, false)].

Lemma scans_add l0 l ty w v r :
  rest l0 = w ++ r -> start_ l = current_ l0 -> source_ l = source_ l0 ->
  tokens_ l = tokens_ l0 -> current_ l = (current_ l0 + length w)%nat ->
  scans l0 (add_token l ty v) ty w v.
Proof.
  intros Hr Hst Hs Ht Hc. unfold scans. simpl. rewrite Hs, Ht, map_app, Hc.
  split; [done|]. split; [done|]. simpl. unfold view at 2. simpl. unfold text.
  rewrite Hs, Hst, Hc. unfold rest in Hr. unfold substr.
  replace (current_ l0 + length w - current_ l0)%nat with (length w) by lia.
  by rewrite Hr, take_app_length.
Qed.

(** ** Operators *)

Lemma scan_op l0 t w r :
  spelling t = Some w -> rest l0 = w ++ SP :: r -> start_ l0 = current_ l0 ->
  exists l', scan_token l0 = Ok l' /\ scans l0 l' t w None.
Proof.
  intros Hsp Hr Hst.
  assert (Hw : exists c1 w', w = c1 :: w') by (destruct t; simpl in Hsp; simplify_eq; by eexists _, _).
  destruct Hw as (c1 & w' & ->). pose proof Hr as Hr0.
  cbn [app] in Hr. pose proof Hr as Hr1. apply rest_cons in Hr as (He & Hp & Hr & Hat).
  unfold scan_token. change (advance l0) with (at_ l0 (current_ l0), skip l0). rewrite Hat. clear Hp Hat.
  assert (Hadd : forall l, moved l0 l -> current_ l = (current_ l0 + S (length w'))%nat ->
    exists l', Ok (add_token l t None) = Ok l' /\ scans l0 l' t (c1 :: w') None).
  { intros l (Hs&Ht&Hst'&_&_) Hc. eexists. split; [done|].
    eapply scans_add; [exact Hr0|congruence|done|done|done]. }
  destruct w' as [|c2 [|c3 [|? ?]]].
  - pose proof (rest_cons _ _ _ Hr) as (_ & Hp2 & _).
    destruct t; simpl in Hsp; (discriminate Hsp || injection Hsp as <-);
      cbn [Ascii.eqb eqb]; unfold two, one; rewrite ?Hp2; cbn [Ascii.eqb eqb SP andb];
      (apply Hadd; [unfold moved; simpl; repeat split; lia|simpl; lia]).
  - pose proof (rest_cons _ _ _ Hr) as (_ & Hp2 & Hr2 & _).
    pose proof (rest_peek_next _ _ _ _ Hr) as Hn.
    destruct t; simpl in Hsp; (discriminate Hsp || injection Hsp as <- <-);
      cbn [Ascii.eqb eqb]; unfold two, one; rewrite ?Hp2, ?Hn; cbn [Ascii.eqb eqb SP andb];
      (apply Hadd; [unfold moved; simpl; repeat split; lia|simpl; lia]).
  - pose proof (rest_cons _ _ _ Hr) as (_ & Hp2 & Hr2 & _).
    pose proof (rest_peek_next _ _ _ _ Hr) as Hn.
    destruct t; simpl in Hsp; (discriminate Hsp || injection Hsp as <- <- <-);
      cbn [Ascii.eqb eqb]; rewrite ?Hp2, ?Hn; cbn [Ascii.eqb eqb SP andb];
      (apply Hadd; [unfold moved; simpl; repeat split; lia|simpl; lia]).
  - destruct t; simpl in Hsp; discriminate Hsp.
Qed.

(** ** Words, numbers and strings *)

Definition specials : bytes :=
  lit ":(){}[],;~+-*/%&|^=!<>?.`#$" ++ [SP; CR; TAB; LF; DQUOTE; SQUOTE].

(** The [default] of the switch. *)
Lemma scan_token_plain l0 c r :
  rest l0 = c :: r -> one_of specials c = false ->
  scan_token l0 =
  if isdigit c then Ok (number (set_current (skip l0) (current_ l0) (col_ (skip l0))))
  else if isalpha c || (c =c "_")
  then Ok (identifier (set_current (skip l0) (current_ l0) (col_ (skip l0))))
  else Throw ("Unexpected character: '" +:+ String c "'").
Proof.
  intros (_ & _ & _ & Hat)%rest_cons Hs. unfold scan_token.
  change (advance l0) with (at_ l0 (current_ l0), skip l0). rewrite Hat.
  unfold one_of, specials in Hs. cbn [existsb app list_ascii_of_string] in Hs.
  repeat match goal with H : (_ || _)%bool = false |- _ => apply orb_false_iff in H as [? ?] end.
  unfold BACKTICK.
  repeat match goal with H : (_ =c _) = false |- _ => rewrite H; clear H end. done.
Qed.

Lemma word_char_plain c :
  isdigit c || (isalpha c || (c =c "_")) = true -> one_of specials c = false.
Proof.
  intros H. apply negb_true_iff.
  assert (Hi : implb (isdigit c || (isalpha c || (c =c "_"))) (negb (one_of specials c)) = true)
    by by_chars c.
  by rewrite H in Hi.
Qed.

Lemma alpha_not_digit c : isalpha c || (c =c "_") = true -> isdigit c = false.
Proof.
  intros H. apply negb_true_iff.
  assert (Hi : implb (isalpha c || (c =c "_")) (negb (isdigit c)) = true) by by_chars c.
  by rewrite H in Hi.
Qed.

Lemma text_rest l0 l w r :
  rest l0 = w ++ r -> start_ l = current_ l0 -> source_ l = source_ l0 ->
  current_ l = (current_ l0 + length w)%nat -> text l = w.
Proof.
  intros Hr Hst Hs Hc. unfold text, substr. rewrite Hs, Hst, Hc.
  unfold rest in Hr. rewrite Hr.
  replace (current_ l0 + length w - current_ l0)%nat with (length w) by lia.
  by rewrite take_app_length.
Qed.

(** An identifier from a state at its first character (or behind the [$]). *)
Lemma identifier_scans l0 l w w1 w2 r :
  rest l0 = w ++ SP :: r -> start_ l = current_ l0 -> source_ l = source_ l0 ->
  tokens_ l = tokens_ l0 -> w = w1 ++ w2 -> current_ l = (current_ l0 + length w1)%nat ->
  rest l = w2 ++ SP :: r -> forallb ident_char w2 = true ->
  scans l0 (identifier l) (ident_type w) w None.
Proof.
  intros Hr Hst Hs Ht Hw Hc Hr2 Hw2. unfold identifier.
  destruct (advance_while_rest ident_char l w2 SP r Hr2 Hw2 eq_refl) as [-> _].
  destruct (skips_fields (length w2) l) as (Hs2 & Ht2 & Hst2 & Hc2 & _).
  rewrite (text_rest l0 _ w (SP :: r)) by (congruence || (subst w; rewrite length_app; lia)).
  eapply scans_add; [exact Hr|congruence..|]. subst w. rewrite length_app. lia.
Qed.

Lemma scan_word l0 w r :
  ident_shape w = true -> rest l0 = w ++ SP :: r -> start_ l0 = current_ l0 ->
  exists l', scan_token l0 = Ok l' /\ scans l0 l' (ident_type w) w None.
Proof.
  intros Hw Hr Hst. destruct w as [|c w]; [done|]. cbn [ident_shape] in Hw.
  apply andb_true_iff in Hw as [Hc Hw]. rewrite <- orb_assoc in Hc.
  pose proof (rest_cons _ _ _ Hr) as (He & Hp & Hr1 & Hat).
  destruct (c =c "$") eqn:Ed; simpl in Hc.
  - bool_to_prop. subst c. unfold scan_token.
    change (advance l0) with (at_ l0 (current_ l0), skip l0). rewrite Hat.
    cbn [Ascii.eqb eqb]. eexists. split; [reflexivity|].
    eapply (identifier_scans l0 (skip l0) _ ["$"%char] w); [exact Hr|done..|simpl; lia|done|done].
  - rewrite (scan_token_plain l0 c _ Hr) by (apply word_char_plain; rewrite Hc; apply orb_true_r).
    rewrite (alpha_not_digit c Hc), Hc. eexists. split; [reflexivity|].
    eapply (identifier_scans l0 _ _ [] (c :: w)); [exact Hr|done..|simpl; lia|done|].
    simpl. rewrite Hw, andb_true_r. unfold ident_char, isalnum.
    apply orb_true_iff in Hc as [-> | ->]; [done|apply orb_true_r].
Qed.

Lemma digit_facts c :
  isdigit c = true -> (c =c "x") = false /\ (c =c "X") = false /\ (c =c "b") = false /\
                      (c =c "B") = false.
Proof.
  intros H.
  assert (Hi : implb (isdigit c) (negb ((c =c "x") || (c =c "X") || (c =c "b") || (c =c "B"))) = true)
    by by_chars c.
  rewrite H in Hi. simpl in Hi. bool_to_prop. by rewrite !Ascii.eqb_neq.
Qed.

Lemma scan_int l0 ds r :
  starts_digit ds = true -> forallb isdigit ds = true -> rest l0 = ds ++ SP :: r ->
  start_ l0 = current_ l0 ->
  exists l', scan_token l0 = Ok l' /\ scans l0 l' NUMBER ds (Some ds).
Proof.
  intros Hc Hds Hr Hst. destruct ds as [|c ds]; [done|]. simpl in Hc.
  rewrite (scan_token_plain l0 c _ Hr) by (apply word_char_plain; by rewrite Hc).
  rewrite Hc. eexists. split; [reflexivity|]. unfold number.
  set (l := set_current (skip l0) (current_ l0) (col_ (skip l0))).
  change (peek l) with (peek l0). change (peek_next l) with (peek_next l0).
  assert (Hn : forall x, (x =c SP) = false -> (forall d, isdigit d = true -> (d =c x) = false) ->
               (peek_next l0 =c x) = false).
  { intros x Hx Hd. destruct ds as [|d ds].
    - rewrite (rest_peek_next _ _ _ _ Hr). by rewrite Ascii.eqb_sym.
    - rewrite (rest_peek_next _ _ _ _ Hr). apply Hd. simpl in Hds. by bool_to_prop. }
  rewrite (Hn "x"%char), (Hn "X"%char), (Hn "b"%char), (Hn "B"%char)
    by (done || (intros d Hd; by apply digit_facts)).
  rewrite !andb_false_r.
  assert (Hds' : forallb digit_ (c :: ds) = true).
  { apply forallb_forall. intros d Hd. rewrite forallb_forall in Hds. unfold digit_. by rewrite Hds. }
  destruct (advance_while_rest digit_ l (c :: ds) SP r Hr Hds' eq_refl) as [-> Hr2].
  apply rest_cons in Hr2 as (He & Hp & _). rewrite Hp. cbn [SP Ascii.eqb eqb andb orb].
  cbv iota beta. rewrite Hp. cbn [SP Ascii.eqb eqb andb orb]. cbv iota beta.
  destruct (skips_fields (length (c :: ds)) l) as (Hs2 & Ht2 & Hst2 & Hc2 & _).
  rewrite (text_rest l0 _ (c :: ds) (SP :: r)) by (rewrite ?Hs2, ?Hst2, ?Hc2; assumption || reflexivity).
  eapply scans_add; [exact Hr|rewrite ?Hs2, ?Hst2, ?Ht2, ?Hc2; assumption || reflexivity..].
Qed.

Lemma string_loop_escape v value l r fuel :
  rest l = escape_str v ++ DQUOTE :: r -> (remaining l <= fuel)%nat ->
  exists l', string_loop fuel DQUOTE value l = (value ++ v, l') /\ rest l' = DQUOTE :: r /\
    source_ l' = source_ l /\ tokens_ l' = tokens_ l /\ start_ l' = start_ l /\
    current_ l' = (current_ l + length (escape_str v))%nat.
Proof.
  revert value l fuel. induction v as [|c v IH]; intros value l fuel Hr Hf.
  - exists l. simpl in Hr. pose proof (rest_cons _ _ _ Hr) as (He & Hp & _).
    split; [|repeat split; simpl; done || lia]. rewrite app_nil_r.
    destruct fuel as [|fuel]; [done|]. simpl. by rewrite He, Hp, Ascii.eqb_refl.
  - unfold escape_str in Hr. cbn [map concat] in Hr. fold (escape_str v) in Hr.
    rewrite <- app_assoc in Hr.
    assert (Hnz : fuel <> 0%nat).
    { intros ->. assert (Hz : remaining l = 0%nat) by lia. apply remaining_0 in Hz.
      destruct (escape_char c) as [|d e] eqn:Ec;
        [unfold escape_char in Ec; by repeat case_match|].
      apply rest_cons in Hr as (He & _). congruence. }
    destruct fuel as [|fuel]; [done|]. clear Hnz.
    assert (Hesc : forall e, escape_char c = [BACKSLASH; e] ->
      (forall val l1, at_ l1 (current_ l1) = e -> escape val l1 = (val ++ [c], skip l1)) ->
      exists l', string_loop (S fuel) DQUOTE value l = (value ++ c :: v, l') /\
        rest l' = DQUOTE :: r /\ source_ l' = source_ l /\ tokens_ l' = tokens_ l /\
        start_ l' = start_ l /\ current_ l' = (current_ l + length (escape_str (c :: v)))%nat).
    { intros e He Hval. rewrite He in Hr. cbn [app] in Hr.
      pose proof (rest_cons _ _ _ Hr) as (He1 & Hp1 & Hr1 & _).
      pose proof (rest_cons _ _ _ Hr1) as (He2 & Hp2 & Hr2 & Hat2).
      cbn [string_loop]. rewrite He1, Hp1. cbn [negb andb Ascii.eqb eqb BACKSLASH DQUOTE LF].
      rewrite (Hval value (skip l) Hat2).
      pose proof (remaining_moved l (skip l) (moved_refl _) He1).
      pose proof (remaining_moved (skip l) (skip (skip l)) (moved_refl _) He2).
      destruct (IH (value ++ [c]) (skip (skip l)) fuel Hr2 ltac:(lia))
        as (l' & -> & Hr' & Hs' & Ht' & Hst' & Hc'). exists l'.
      rewrite <- app_assoc. split; [done|]. split; [done|]. split; [done|]. split; [done|].
      split; [done|]. rewrite Hc'. unfold escape_str. cbn [map concat]. rewrite He.
      simpl. lia. }
    destruct (c =c LF) eqn:E1; [|destruct (c =c DQUOTE) eqn:E2; [|destruct (c =c BACKSLASH) eqn:E3]].
    1-3: bool_to_prop; subst c; eapply Hesc; [done|]; intros val l1 Hat; unfold escape;
         change (advance l1) with (at_ l1 (current_ l1), skip l1); by rewrite Hat.
    assert (Ec : escape_char c = [c]) by (unfold escape_char; by rewrite E1, E2, E3).
    rewrite Ec in Hr. cbn [app] in Hr. pose proof (rest_cons _ _ _ Hr) as (He1 & Hp1 & Hr1 & Hat1).
    cbn [string_loop]. rewrite He1, Hp1. cbn [negb andb]. rewrite E2. cbn [negb]. rewrite E1, E3.
    change (advance l) with (at_ l (current_ l), skip l). rewrite Hat1.
    pose proof (remaining_moved l (skip l) (moved_refl _) He1).
    destruct (IH (value ++ [c]) (skip l) fuel Hr1 ltac:(lia))
      as (l' & -> & Hr' & Hs' & Ht' & Hst' & Hc'). exists l'. rewrite <- app_assoc.
    repeat (split; [done|]). rewrite Hc'. unfold escape_str. cbn [map concat]. rewrite Ec.
    simpl. lia.
Qed.

Lemma scan_str l0 v r :
  rest l0 = atom_text (A_str v) ++ SP :: r -> start_ l0 = current_ l0 ->
  exists l', scan_token l0 = Ok l' /\ scans l0 l' STRING (atom_text (A_str v)) (Some v).
Proof.
  intros Hr Hst. pose proof Hr as Hr0. cbn [atom_text] in Hr. rewrite <- !app_assoc in Hr.
  pose proof (rest_cons _ _ _ Hr) as (He & Hp & Hr1 & Hat). unfold scan_token.
  change (advance l0) with (at_ l0 (current_ l0), skip l0). rewrite Hat.
  cbn [Ascii.eqb eqb DQUOTE SQUOTE BACKTICK SP CR TAB LF orb]. unfold string_.
  destruct (string_loop_escape v [] (skip l0) (SP :: r) (remaining (skip l0)) Hr1 ltac:(lia))
    as (l1 & Hsl & Hr2 & Hs & Ht & Hst' & Hc).
  change "034"%char with DQUOTE. rewrite Hsl.
  pose proof (rest_cons _ _ _ Hr2) as (He1 & Hp1 & Hr3 & _). rewrite He1.
  cbn [Ascii.eqb eqb DQUOTE SQUOTE]. eexists. split; [reflexivity|].
  simpl in Hs, Ht, Hst'. eapply scans_add; [exact Hr0|simpl; congruence..|].
  simpl. rewrite Hc. simpl. rewrite length_app. simpl. lia.
Qed.

(** ** The whole print *)

Lemma scan_atom l0 a r :
  atom_ok a = true -> rest l0 = atom_text a ++ SP :: r -> start_ l0 = current_ l0 ->
  exists l', scan_token l0 = Ok l' /\
             scans l0 l' (atom_type a) (atom_text a) (atom_literal a).
Proof.
  intros Ha Hr Hst. destruct a as [t|w|ds|v]; simpl in Ha.
  - destruct (spelling t) as [w|] eqn:E; [|done]. unfold atom_text in *. rewrite E in *.
    by eapply scan_op.
  - by eapply scan_word.
  - apply andb_true_iff in Ha as [H1 H2]. by eapply scan_int.
  - by eapply scan_str.
Qed.

Lemma scan_space l0 r :
  rest l0 = SP :: r -> scan_token l0 = Ok (skip l0).
Proof.
  intros (_ & _ & _ & Hat)%rest_cons. unfold scan_token.
  change (advance l0) with (at_ l0 (current_ l0), skip l0). by rewrite Hat.
Qed.

Lemma rest_scans l0 l' ty w v r : scans l0 l' ty w v -> rest l0 = w ++ r -> rest l' = r.
Proof.
  unfold rest. intros (-> & -> & _) Hr. by rewrite <- drop_drop, Hr, drop_app_length.
Qed.

Lemma scan_print az l fuel :
  Forall (fun a => atom_ok a = true) az -> rest l = print_atoms az ->
  (2 * length az < fuel)%nat ->
  exists l', loop scan_step fuel l = Some (Ok l') /\
             map view (tokens_ l') = map view (tokens_ l) ++ map atom_view az.
Proof.
  intros Haz. revert l fuel. induction Haz as [|a az Ha _ IH]; intros l fuel Hr Hf.
  - destruct fuel as [|fuel]; [lia|]. exists l. rewrite app_nil_r. simpl. unfold scan_step.
    by destruct (rest_nil l Hr) as [-> _].
  - destruct fuel as [|[|fuel]]; [simpl in Hf; lia..|].
    unfold print_atoms, unlines in Hr. cbn [map concat] in Hr. rewrite <- app_assoc in Hr.
    fold (unlines SP (map atom_text az)) in Hr. fold (print_atoms az) in Hr.
    set (l0 := set_start l (current_ l) (col_ l)).
    destruct (scan_atom l0 a (print_atoms az) Ha Hr eq_refl) as (l1 & Hl1 & Hsc).
    pose proof (rest_scans _ _ _ _ _ _ Hsc Hr) as Hr1.
    pose proof (rest_cons _ _ _ Hr1) as (He1 & _ & Hr2 & _).
    assert (He : is_at_end l = false).
    { destruct (atom_text a) as [|c w]; [by apply rest_cons in Hr as (He & _)|].
      by apply rest_cons in Hr as (He & _). }
    destruct Hsc as (_ & _ & Hview). change (tokens_ l0) with (tokens_ l) in Hview.
    destruct (IH (skip (set_start l1 (current_ l1) (col_ l1))) fuel Hr2 ltac:(simpl in Hf; lia))
      as (l' & Hl' & Hv). exists l'. split.
    + cbn [loop]. unfold scan_step at 1. rewrite He. fold l0. rewrite Hl1.
      unfold scan_step at 1. rewrite He1.
      by rewrite (scan_space (set_start l1 (current_ l1) (col_ l1)) _ Hr1).
    + rewrite Hv. cbn [map]. change (tokens_ (skip _)) with (tokens_ l1).
      by rewrite Hview, <- app_assoc.
Qed.

Lemma atom_first a : atom_ok a = true ->
  exists c w, atom_text a = c :: w /\ (c =c chr 239) = false.
Proof.
  intros Ha. destruct a as [t|w|ds|v]; simpl in Ha.
  - unfold atom_text. destruct t; try discriminate Ha; simpl; by eexists _, _.
  - destruct w as [|c w]; [done|]. exists c, w. split; [done|]. apply negb_true_iff.
    simpl in Ha. apply andb_true_iff in Ha as [Hc _].
    assert (Hi : implb ((c =c "$") || isalpha c || (c =c "_")) (negb (c =c chr 239)) = true) by by_chars c.
    by rewrite Hc in Hi.
  - destruct ds as [|c w]; [done|]. exists c, w. split; [done|]. apply negb_true_iff.
    simpl in Ha. apply andb_true_iff in Ha as [Hc _].
    assert (Hi : implb (isdigit c) (negb (c =c chr 239)) = true) by by_chars c.
    by rewrite Hc in Hi.
  - by eexists _, _.
Qed.

Lemma print_no_bom az : Forall (fun a => atom_ok a = true) az -> has_bom (print_atoms az) = false.
Proof.
  intros Haz. destruct Haz as [|a az Ha _]; [done|]. destruct (atom_first a Ha) as (c & w & Hw & Hc).
  unfold print_atoms, unlines. cbn [map concat]. rewrite Hw. unfold has_bom. cbn [app starts_with].
  by rewrite Ascii.eqb_sym, Hc.
Qed.

Lemma print_length az :
  Forall (fun a => atom_ok a = true) az -> (2 * length az <= length (print_atoms az))%nat.
Proof.
  induction 1 as [|a az Ha _ IH]; [done|]. destruct (atom_first a Ha) as (c & w & Hw & _).
  unfold print_atoms, unlines in *. cbn [map concat length]. rewrite !length_app, Hw. simpl. lia.
Qed.

(** The scan of a print, with the views of its tokens. *)
Lemma scan_printed az :
  Forall (fun a => atom_ok a = true) az ->
  exists toks tail, scan_tokens (print_atoms az) = Some (Ok toks) /\
    map view toks = map atom_view az ++ tail /\
    (tail = [(EOF_TOKEN, [], None, false)] \/
     tail = [(SEMICOLON, lit ";", None, false); (EOF_TOKEN, [], None, false)]).
Proof.
  intros Haz. unfold scan_tokens, init. rewrite print_no_bom by done.
  destruct (scan_print az (MkLexer (print_atoms az) [] 0 0 1 1 1 EOF_TOKEN 0 0 0 [])
    (S (length (print_atoms az))) Haz eq_refl) as (l' & -> & Hv).
  { pose proof (print_length az Haz). lia. }
  simpl in Hv. unfold asi. case_if.
  - eexists _, _. split; [done|]. simpl. rewrite <- app_assoc, map_app, Hv. split; [done|]. by right.
  - eexists _, _. split; [done|]. rewrite map_app, Hv. split; [done|]. by left.
Qed.

(** C38: tokens survive printing. A list of operators, words, decimal numbers
    and strings (their value escaped), each followed by a space, is read back
    as exactly these tokens: kinds, lexemes, values and the raw flag, a word being a keyword
    exactly when it is in the table. Only the end of the source can add one
    virtual semicolon. *)
Theorem print_scan_roundtrip az :
  Forall (fun a => atom_ok a = true) az ->
  exists toks tail, scan_tokens (print_atoms az) = Some (Ok toks) /\
    map view toks = map atom_view az ++ tail /\
    (tail = [(EOF_TOKEN, [], None, false)] \/
     tail = [(SEMICOLON, lit ";", None, false); (EOF_TOKEN, [], None, false)]).
Proof. apply scan_printed. Qed.
Lemma print_scan_roundtrip_witness :
  exists toks tail,
    scan_tokens (print_atoms [A_word (lit "$x"); A_op PLUS_ASSIGN; A_str (lit "a" ++ [LF; DQUOTE]);
                              A_word (lit "if"); A_int (lit "42")]) = Some (Ok toks) /\
    map view toks = map atom_view [A_word (lit "$x"); A_op PLUS_ASSIGN;
                                   A_str (lit "a" ++ [LF; DQUOTE]); A_word (lit "if");
                                   A_int (lit "42")] ++ tail.
Proof.
  destruct (print_scan_roundtrip [A_word (lit "$x"); A_op PLUS_ASSIGN;
    A_str (lit "a" ++ [LF; DQUOTE]); A_word (lit "if"); A_int (lit "42")]
    ltac:(repeat constructor)) as (toks & tl & H1 & H2 & _).
  exists toks, tl. split; [exact H1|exact H2].
Defined.

End Lexer.
