(* ===== verification/Ast.v ===== *)
(** The syntax tree of cpp/include/look/ast.h.

    [unique_ptr] fields that may be null are [option]s; a [BlockStatement] is
    the list of its statements. The [loc] fields, which only error messages
    read, are not kept. *)

From S2P Require Import Prelude CNum.

Module Ast.
Import CNum.

Inductive Expression :=
| StringLiteral (value : bytes) (raw : bool)
| NumberLiteral (value : Z)
| FloatLiteral (value : double)
| BooleanLiteral (value : bool)
| NullLiteral
| ArrayLiteral (elements : list Expression)
| AssocArrayLiteral (pairs : list (Expression * Expression))
| FunctionExpression (parameters : list bytes) (defaults : list (option Expression))
    (captures : list bytes) (is_variadic : bool) (body : list Statement)
| Variable_ (name : bytes)
| IndexExpression (object index : Expression)
| UnaryExpression (op : bytes) (right : Expression) (prefix : bool)
| BinaryExpression (left : Expression) (op : bytes) (right : Expression)
| AssignmentExpression (name op : bytes) (object index : option Expression) (value : Expression)
| CallExpression (callee : Expression) (arguments : list Expression)
| TernaryExpression (condition then_expr else_expr : Expression)
| ScopeResolution (module_name member_name : bytes)
| IotaExpression
| MemberAccessExpression (object : Expression) (field : bytes)
| StructLiteralExpression (struct_name : bytes) (fields : list (bytes * Expression))
with Statement :=
| ExpressionStatement (expression : Expression)
| PrintStatement (expressions : list Expression)
| WriteStatement (expressions : list Expression)
| ReturnStatement (expression : option Expression)
| ThrowStatement (expression : Expression)
| BreakStatement
| ContinueStatement
| UseStatement (module_name alias : bytes)
| UseFileStatement (path : bytes)
| BlockStatement (statements : list Statement)
| IfStatement (condition : Expression) (then_branch : list Statement)
    (else_branch : option (list Statement))
| WhileStatement (condition : Expression) (body : list Statement)
| ForStatement (init : option Statement) (condition post : option Expression)
    (body : list Statement)
| ForeachStatement (iterable : Expression) (key_var value_var : bytes) (body : list Statement)
| TryCatchStatement (try_block : list Statement) (catch_var : bytes)
    (catch_block finally_block : option (list Statement))
| SwitchStatement (subject : Expression) (cases : list (list Expression * list Statement))
| StructDeclaration (name : bytes) (fields : list (bytes * option Expression))
| ConstBlock (items : list (bytes * option Expression))
| FunctionDeclaration (name : bytes) (parameters : list bytes)
    (defaults : list (option Expression)) (is_variadic : bool) (body : list Statement).

Definition Program := list Statement.

End Ast.
