(* ===== verification/Parser.v ===== *)
(** The recursive-descent parser (cpp/include/look/parser.h,
    cpp/src/parser.cpp), whole.

    Each method is a function of the parser's state in a monad with two
    failures: [PErr], the [LookParseError] the code throws, and [PFuel],
    which the code does not have. The methods that call each other in a cycle
    do it through [Rec], and [parser_ n] ties the knot with [n] levels. Every
    such call happens behind a consumed token, so as many levels as there are
    tokens are enough: [parse_total] proves that [PFuel] never comes out. *)

From S2P Require Import Prelude CNum Ast Lexer.
From stdpp Require Import pretty.
#[local] Open Scope Z_scope.

Module Parser.
Import CNum Ast.
Import Lexer.Lexer.

(** ** State and monad *)

Record PState := MkP {
  current : nat;
  scope_depth : Z;
  expr_depth : Z;
  stmt_depth : Z;
  binop_depth : Z }.

Inductive outcome (A : Type) :=
| POk (a : A) (s : PState)
| PErr (msg : bytes) (line column : Z)
| PFuel.
Arguments POk {A} _ _.
Arguments PErr {A} _ _ _.
Arguments PFuel {A}.

Definition P (A : Type) : Type := PState -> outcome A.

Definition ret {A} (a : A) : P A := fun s => POk a s.
Definition bind {A B} (p : P A) (f : A -> P B) : P B := fun s =>
  match p s with
  | POk a s' => f a s'
  | PErr m l c => PErr m l c
  | PFuel => PFuel
  end.
Definition fuel_out {A} : P A := fun _ => PFuel.

Declare Scope parser_scope.
Delimit Scope parser_scope with parser.
#[local] Open Scope parser_scope.
Notation "x <- p ;; q" := (bind p (fun x => q))
  (at level 100, p at next level, right associativity) : parser_scope.
Notation "p ;;; q" := (bind p (fun _ => q))
  (at level 100, right associativity) : parser_scope.

Definition set_current (s : PState) (n : nat) : PState :=
  MkP n (scope_depth s) (expr_depth s) (stmt_depth s) (binop_depth s).
Definition set_scope (s : PState) (d : Z) : PState :=
  MkP (current s) d (expr_depth s) (stmt_depth s) (binop_depth s).
Definition set_expr (s : PState) (d : Z) : PState :=
  MkP (current s) (scope_depth s) d (stmt_depth s) (binop_depth s).
Definition set_stmt (s : PState) (d : Z) : PState :=
  MkP (current s) (scope_depth s) (expr_depth s) d (binop_depth s).
Definition set_binop (s : PState) (d : Z) : PState :=
  MkP (current s) (scope_depth s) (expr_depth s) (stmt_depth s) d.

Definition MAX_EXPR_DEPTH : Z := 150.
Definition MAX_STMT_DEPTH : Z := 150.
Definition MAX_BINOP_CHAIN : Z := 1000.

(** The methods that are called recursively. *)
Record Rec := MkRec {
  r_expression : P Expression;
  r_assignment : P Expression;
  r_ternary : P Expression;
  r_power : P Expression;
  r_unary : P Expression;
  r_statement : P Statement;
  r_if_statement : P Statement }.

Definition no_fuel : Rec :=
  MkRec fuel_out fuel_out fuel_out fuel_out fuel_out fuel_out fuel_out.

Section Methods.
Context (tokens_ : list Token).

Definition eof_token : Token := MkToken EOF_TOKEN [] None 0 0 false.

(** ** Helpers *)

Definition peek (s : PState) : Token := default eof_token (tokens_ !! current s).
Definition previous (s : PState) : Token := default eof_token (tokens_ !! (current s - 1)%nat).
Definition is_at_end (s : PState) : bool := bool_decide (type (peek s) = EOF_TOKEN).
Definition check (t : TokenType) (s : PState) : bool :=
  negb (is_at_end s) && bool_decide (type (peek s) = t).
Definition advance : P Token := fun s =>
  let s := if is_at_end s then s else set_current s (S (current s)) in
  POk (previous s) s.
Definition match_ (t : TokenType) : P bool := fun s =>
  if check t s then (advance ;;; ret true) s else POk false s.
Definition checks (t : TokenType) : P bool := fun s => POk (check t s) s.
Definition at_end : P bool := fun s => POk (is_at_end s) s.
Definition prev : P Token := fun s => POk (previous s) s.

(** [throw LookParseError(msg, peek().line, peek().column)] *)
Definition fail {A} (msg : PState -> bytes) : P A := fun s =>
  PErr (msg s) (tok_line (peek s)) (column (peek s)).
Definition got (s : PState) : bytes := lit " (got '" ++ lexeme (peek s) ++ lit "')".

Definition consume (t : TokenType) (msg : bytes) : P Token := fun s =>
  if check t s then advance s else fail (fun s => msg ++ got s) s.

Definition consume_semi : P unit := fun s =>
  if check SEMICOLON s then (advance ;;; ret tt) s
  else if check RBRACE s || is_at_end s then POk tt s
  else fail (fun s => lit "Expect ';'." ++ got s) s.

(** [while (match(t)) {}] and [while (check(t)) advance();] *)
Fixpoint skip_all (fuel : nat) (t : TokenType) : P unit :=
  match fuel with
  | O => fuel_out
  | S fuel' => b <- match_ t;; if b : bool then skip_all fuel' t else ret tt
  end.
Definition fuel : nat := S (length tokens_).
Definition skip_semicolons : P unit := skip_all fuel SEMICOLON.

Definition z_text (z : Z) : bytes := list_ascii_of_string (pretty z).

(** The [DepthGuard]s. *)
Definition guarded {A} (p : P A) : P A := fun s =>
  let s := set_expr s (expr_depth s + 1) in
  if MAX_EXPR_DEPTH <? expr_depth s then
    fail (fun _ => lit "Expression nested too deep (max " ++ z_text MAX_EXPR_DEPTH ++ lit ")") s
  else (a <- p;; fun s => POk a (set_expr s (expr_depth s - 1))) s.
Definition stmt_guarded {A} (p : P A) : P A := fun s =>
  let s := set_stmt s (stmt_depth s + 1) in
  if MAX_STMT_DEPTH <? stmt_depth s then
    fail (fun _ => lit "Expression/block nested too deep (max " ++ z_text MAX_STMT_DEPTH ++ lit ")") s
  else (a <- p;; fun s => POk a (set_stmt s (stmt_depth s - 1))) s.
Definition in_function {A} (p : P A) : P A := fun s =>
  (a <- p;; fun s => POk a (set_scope s (scope_depth s - 1))) (set_scope s (scope_depth s + 1)).

Definition check_binop_chain : P unit := fun s =>
  let s := set_binop s (binop_depth s + 1) in
  if MAX_BINOP_CHAIN <? binop_depth s then
    fail (fun _ => lit "Expression chain too long (max " ++ z_text MAX_BINOP_CHAIN ++
                   lit " consecutive binary operators)") s
  else POk tt s.

(** [match(a) || match(b) || ...] *)
Fixpoint match_any (ts : list TokenType) : P bool :=
  match ts with
  | [] => ret false
  | t :: ts' => b <- match_ t;; if b : bool then ret true else match_any ts'
  end.

(** [do { p } while (match(COMMA));] *)
Fixpoint comma_list {A} (n : nat) (p : P A) : P (list A) :=
  match n with
  | O => fuel_out
  | S n' =>
      a <- p;; b <- match_ COMMA;;
      if b : bool then l <- comma_list n' p;; ret (a :: l) else ret [a]
  end.

(** The left-associative levels: [while (match(...)) { check_binop_chain();
    expr = Binary(expr, op, next()); }]; [op] is written out in the code of
    some levels and the lexeme of the matched token in the others. *)
Fixpoint binary_loop (n : nat) (ops : list TokenType) (op : option bytes) (next : P Expression)
    (expr : Expression) : P Expression :=
  match n with
  | O => fuel_out
  | S n' =>
      b <- match_any ops;;
      if b : bool then
        check_binop_chain ;;;
        tok <- prev;;
        right <- next;;
        binary_loop n' ops op next
          (BinaryExpression expr (match op with Some o => o | None => lexeme tok end) right)
      else ret expr
  end.
Definition binary (ops : list TokenType) (op : option bytes) (next : P Expression) : P Expression :=
  e <- next;; binary_loop fuel ops op next e.

Section Level.
Context (rec : Rec).

Definition argument_list : P (list Expression) :=
  b <- checks RPAREN;;
  if b : bool then ret [] else comma_list fuel (r_expression rec).

Definition finish_call (callee : Expression) : P Expression :=
  args <- argument_list;;
  consume RPAREN (lit "Expect ')' after arguments.") ;;;
  ret (CallExpression callee args).

(** The statements of a block, whose opening brace is consumed. *)
Fixpoint block_loop (n : nat) : P (list Statement) :=
  match n with
  | O => fuel_out
  | S n' =>
      b <- checks RBRACE;; e <- at_end;;
      if b || e then ret []
      else
        skip_semicolons ;;;
        b <- checks RBRACE;; e <- at_end;;
        if b || e then ret []
        else st <- r_statement rec;; l <- block_loop n';; ret (st :: l)
  end.
Definition block : P (list Statement) :=
  l <- block_loop fuel;;
  consume RBRACE (lit "Expect '}' after block.") ;;;
  ret l.

(** The parameters of a function: names, defaults, variadic. *)
Fixpoint params_loop (n : nat) (assignment : P Expression)
    : P (list bytes * list (option Expression) * bool) :=
  match n with
  | O => fuel_out
  | S n' =>
      b <- match_ ELLIPSIS;;
      if b : bool then
        p <- consume IDENT (lit "Expect parameter name after '...'.");;
        ret ([lexeme p], [None], true)
      else
        p <- consume IDENT (lit "Expect parameter name.");;
        d <- match_ ASSIGN;;
        dflt <- (if d : bool then e <- assignment;; ret (Some e) else ret None);;
        c <- match_ COMMA;;
        if c : bool then
          pdv <- params_loop n' assignment;;
  let '(ps, ds, v) := pdv in ret (lexeme p :: ps, dflt :: ds, v)
        else ret ([lexeme p], [dflt], false)
  end.
Definition parameters (assignment : P Expression) : P (list bytes * list (option Expression) * bool) :=
  b <- checks RPAREN;;
  if b : bool then ret ([], [], false) else params_loop fuel assignment.

(** [std::remove(lit.begin(), lit.end(), '_')] *)
Definition strip_underscores (s : bytes) : bytes := filter (fun c => c <> "_"%char) s.

Definition number_literal (lit_ : bytes) : Expression :=
  let s := strip_underscores lit_ in
  let v :=
    match s with
    | z :: x :: d :: s' =>
        if (z =c "0") && ((x =c "x") || (x =c "X")) then to_i64 <$> stoull 16 (d :: s')
        else if (z =c "0") && ((x =c "b") || (x =c "B")) then to_i64 <$> stoull 2 (d :: s')
        else stoll s
    | _ => stoll s
    end in
  match v with
  | Some v => NumberLiteral v
  | None => FloatLiteral (strtod s)
  end.

Definition capture_list : P (list bytes) :=
  u <- match_ USE;;
  if u : bool then
    consume LPAREN (lit "Expect '(' after 'use'.") ;;;
    b <- checks RPAREN;;
    caps <- (if b : bool then ret []
             else comma_list fuel
                    (t <- consume IDENT (lit "Expect variable name in use(...).");; ret (lexeme t)));;
    consume RPAREN (lit "Expect ')' after use(...).") ;;;
    ret caps
  else ret [].

(** An anonymous function, behind [function]. *)
Definition function_expression : P Expression :=
  consume LPAREN (lit "Expect '(' after 'function'.") ;;;
  pdv <- parameters (r_assignment rec);;
  let '(params, defaults, variadic) := pdv in
  consume RPAREN (lit "Expect ')' after parameters.") ;;;
  captures <- capture_list;;
  arrow <- match_ FAT_ARROW;;
  body <- (if arrow : bool then e <- r_expression rec;; ret [ReturnStatement (Some e)]
           else consume LBRACE (lit "Expect '{' or '=>' before function body.") ;;;
                in_function block);;
  ret (FunctionExpression params defaults captures variadic body).

(** The elements behind the first one of an array. *)
Fixpoint elements_loop (n : nat) : P (list Expression) :=
  match n with
  | O => fuel_out
  | S n' =>
      c <- match_ COMMA;;
      if c : bool then
        b <- checks RBRACKET;;
        if b : bool then ret []
        else e <- r_expression rec;; l <- elements_loop n';; ret (e :: l)
      else ret []
  end.
Fixpoint pairs_loop (n : nat) : P (list (Expression * Expression)) :=
  match n with
  | O => fuel_out
  | S n' =>
      c <- match_ COMMA;;
      if c : bool then
        b <- checks RBRACKET;;
        if b : bool then ret []
        else
          k <- r_expression rec;;
          consume FAT_ARROW (lit "Expect '=>' in associative array.") ;;;
          v <- r_expression rec;;
          l <- pairs_loop n';;
          ret ((k, v) :: l)
      else ret []
  end.

(** An array, behind its bracket. *)
Definition array_literal : P Expression :=
  b <- checks RBRACKET;;
  if b : bool then advance ;;; ret (ArrayLiteral [])
  else
    first <- r_expression rec;;
    arrow <- match_ FAT_ARROW;;
    if arrow : bool then
      v <- r_expression rec;;
      l <- pairs_loop fuel;;
      consume RBRACKET (lit "Expect ']' after array.") ;;;
      ret (AssocArrayLiteral ((first, v) :: l))
    else
      l <- elements_loop fuel;;
      consume RBRACKET (lit "Expect ']' after array elements.") ;;;
      ret (ArrayLiteral (first :: l)).

(** The fields of a struct literal, behind its brace. *)
Fixpoint fields_loop (n : nat) : P (list (bytes * Expression)) :=
  match n with
  | O => fuel_out
  | S n' =>
      b <- checks RBRACE;; e <- at_end;;
      if b || e then ret []
      else
        f <- consume IDENT (lit "Expect field name in struct literal.");;
        consume COLON (lit "Expect ':' after field name in struct literal.") ;;;
        v <- r_expression rec;;
        match_ COMMA ;;;
        l <- fields_loop n';;
        ret ((lexeme f, v) :: l)
  end.

(** What an identifier starts. *)
Definition identifier_expression : P Expression :=
  id_tok <- prev;;
  let name := lexeme id_tok in
  brace <- checks LBRACE;;
  if negb (match name with c :: _ => c =c "$" | [] => false end) && brace then
    advance ;;;
    fields <- fields_loop fuel;;
    consume RBRACE (lit "Expect '}' after struct literal.") ;;;
    ret (StructLiteralExpression name fields)
  else
    cc <- match_ COLON_COLON;;
    if cc : bool then
      member <- consume IDENT (lit "Expect member name after '::'.");;
      ret (ScopeResolution name (lexeme member))
    else ret (Variable_ name).

Definition literal_of (t : Token) : bytes := default [] (literal t).

Definition primary : P Expression :=
  b <- match_ IOTA;; if b : bool then ret IotaExpression else
  b <- match_ TRUE_KW;; if b : bool then ret (BooleanLiteral true) else
  b <- match_ FALSE_KW;; if b : bool then ret (BooleanLiteral false) else
  b <- match_ NULL_TOKEN;; if b : bool then ret NullLiteral else
  b <- match_ NUMBER;; if b : bool then t <- prev;; ret (number_literal (literal_of t)) else
  b <- match_ FLOAT_NUM;;
  if b : bool then t <- prev;; ret (FloatLiteral (strtod (strip_underscores (literal_of t)))) else
  b <- match_ STRING;; if b : bool then t <- prev;; ret (StringLiteral (literal_of t) (raw t)) else
  b <- match_ FUNCTION;; if b : bool then function_expression else
  b <- match_ LBRACKET;; if b : bool then array_literal else
  b <- match_ IDENT;; if b : bool then identifier_expression else
  b <- match_ LPAREN;;
  if b : bool then
    e <- r_expression rec;;
    consume RPAREN (lit "Expect ')' after expression.") ;;;
    ret e
  else fail (fun s => lit "Unexpected token: '" ++ lexeme (peek s) ++ lit "'").

(** The look-ahead that decides whether [.] is a member access. *)
Definition container (e : Expression) : bool :=
  match e with
  | Variable_ _ | IndexExpression _ _ | CallExpression _ _ | MemberAccessExpression _ _ => true
  | _ => false
  end.
Definition is_member_access (expr : Expression) (s : PState) : bool :=
  check DOT s &&
  match tokens_ !! (current s + 1)%nat with
  | Some t =>
      bool_decide (type t = IDENT) &&
      match lexeme t with c :: _ => negb (c =c "$") | [] => false end
  | None => false
  end &&
  negb match tokens_ !! (current s + 2)%nat with
       | Some t => bool_decide (type t = LPAREN) || bool_decide (type t = COLON_COLON)
       | None => false
       end &&
  container expr.

Fixpoint call_loop (n : nat) (expr : Expression) : P Expression :=
  match n with
  | O => fuel_out
  | S n' =>
      b <- match_ LPAREN;;
      if b : bool then e <- finish_call expr;; call_loop n' e
      else
        b <- match_ LBRACKET;;
        if b : bool then
          index <- r_expression rec;;
          consume RBRACKET (lit "Expect ']' after index.") ;;;
          call_loop n' (IndexExpression expr index)
        else
          m <- (fun s => POk (is_member_access expr s) s);;
          if m : bool then
            advance ;;;
            field <- consume IDENT (lit "Expect field name after '.'.");;
            call_loop n' (MemberAccessExpression expr (lexeme field))
          else ret expr
  end.
Definition call : P Expression := e <- primary;; call_loop fuel e.

Definition postfix : P Expression :=
  expr <- call;;
  b <- match_ PLUS_PLUS;; if b : bool then ret (UnaryExpression (lit "++") expr false) else
  b <- match_ MINUS_MINUS;; if b : bool then ret (UnaryExpression (lit "--") expr false) else
  ret expr.

Definition unary : P Expression := guarded (
  b <- match_ PLUS_PLUS;;
  if b : bool then right <- primary;; ret (UnaryExpression (lit "++") right true) else
  b <- match_ MINUS_MINUS;;
  if b : bool then right <- primary;; ret (UnaryExpression (lit "--") right true) else
  b <- match_ BANG;;
  if b : bool then right <- r_unary rec;; ret (UnaryExpression (lit "!") right true) else
  b <- match_ TILDE;;
  if b : bool then right <- r_unary rec;; ret (UnaryExpression (lit "~") right true) else
  b <- match_ MINUS;;
  if b : bool then right <- r_unary rec;; ret (UnaryExpression (lit "-") right true) else
  postfix).

Definition power : P Expression := guarded (
  expr <- unary;;
  b <- match_ STAR_STAR;;
  if b : bool then right <- r_power rec;; ret (BinaryExpression expr (lit "**") right)
  else ret expr).

(** ** The binary levels *)

Definition multiplication : P Expression := binary [STAR; SLASH; PERCENT] None power.
Definition addition : P Expression := binary [PLUS; MINUS] None multiplication.
Definition concatenation : P Expression := binary [DOT] (Some (lit ".")) addition.
Definition shift : P Expression := binary [LESS_LESS; GREATER_GREATER] None concatenation.
Definition comparison : P Expression :=
  binary [SPACESHIP; GREATER; GREATER_EQUAL; LESS; LESS_EQUAL] None shift.
Definition equality : P Expression := binary [EQUAL_EQUAL; BANG_EQUAL] None comparison.
Definition bitwise_and : P Expression := binary [AMP] (Some (lit "&")) equality.
Definition bitwise_xor : P Expression := binary [CARET] (Some (lit "^")) bitwise_and.
Definition bitwise_or : P Expression := binary [PIPE] (Some (lit "|")) bitwise_xor.
Definition logical_and : P Expression := binary [AMP_AMP] (Some (lit "&&")) bitwise_or.
Definition logical_or : P Expression := binary [PIPE_PIPE] (Some (lit "||")) logical_and.
Definition null_coalescing : P Expression :=
  binary [QUESTION_QUESTION] (Some (lit "??")) logical_or.

Definition ternary : P Expression :=
  cond <- null_coalescing;;
  b <- match_ QUESTION;;
  if b : bool then
    then_e <- r_ternary rec;;
    consume COLON (lit "':' expected in the ternary operator") ;;;
    else_e <- r_ternary rec;;
    ret (TernaryExpression cond then_e else_e)
  else ret cond.

Definition assign_ops : list TokenType :=
  [ASSIGN; PLUS_ASSIGN; MINUS_ASSIGN; STAR_ASSIGN; SLASH_ASSIGN; PERCENT_ASSIGN; DOT_ASSIGN;
   AMP_ASSIGN; PIPE_ASSIGN; CARET_ASSIGN].

(** The assignment the target makes; [None] when it is not one. *)
Definition assign_to (expr : Expression) (op : bytes) (val : Expression) : option Expression :=
  match expr with
  | IndexExpression (Variable_ name) index =>
      Some (AssignmentExpression name op None (Some index) val)
  | IndexExpression obj index => Some (AssignmentExpression [] op (Some obj) (Some index) val)
  | MemberAccessExpression (Variable_ name) field =>
      Some (AssignmentExpression name op None (Some (StringLiteral field false)) val)
  | MemberAccessExpression obj field =>
      Some (AssignmentExpression [] op (Some obj) (Some (StringLiteral field false)) val)
  | Variable_ name => Some (AssignmentExpression name op None None val)
  | _ => None
  end.

Definition assignment : P Expression :=
  expr <- ternary;;
  b <- match_any assign_ops;;
  if b : bool then
    tok <- prev;;
    val <- r_assignment rec;;
    match assign_to expr (lexeme tok) val with
    | Some e => ret e
    | None => fun s => PErr (lit "Invalid assignment target.") (tok_line (previous s))
                         (column (previous s))
    end
  else ret expr.

Definition expression : P Expression := guarded (fun s =>
  assignment (if expr_depth s =? 1 then set_binop s 0 else s)).

(** ** Statements *)

Definition expression_statement : P Statement :=
  e <- expression;; consume_semi ;;; ret (ExpressionStatement e).

Definition print_statement : P Statement :=
  consume LPAREN (lit "Expect '(' after 'print'.") ;;;
  exprs <- argument_list;;
  consume RPAREN (lit "Expect ')' after print arguments.") ;;;
  consume_semi ;;;
  ret (PrintStatement exprs).

Definition write_statement : P Statement :=
  consume LPAREN (lit "Expect '(' after 'write'.") ;;;
  exprs <- argument_list;;
  consume RPAREN (lit "Expect ')' after write arguments.") ;;;
  consume_semi ;;;
  ret (WriteStatement exprs).

Definition use_statement : P Statement :=
  b <- checks STRING;;
  if b : bool then fun s =>
    if 0 <? scope_depth s then
      fail (fun _ => lit "use " ++ [DQUOTE] ++ lit "file" ++ [DQUOTE] ++
                     lit " is only allowed at top-level scope, not inside a function or closure") s
    else
      (tok <- advance;;
       consume_semi ;;;
       ret (UseFileStatement (default (lexeme tok) (literal tok)))) s
  else
    name <- consume IDENT (lit "Expect module name after 'use'.");;
    a <- match_ AS;;
    alias <- (if a : bool then t <- consume IDENT (lit "Expect alias name after 'as'.");; ret (lexeme t)
              else ret []);;
    consume_semi ;;;
    ret (UseStatement (lexeme name) alias).

Definition if_statement : P Statement :=
  consume LPAREN (lit "Expect '(' after 'if'.") ;;;
  cond <- expression;;
  consume RPAREN (lit "Expect ')' after if condition.") ;;;
  consume LBRACE (lit "Expect '{' after if condition.") ;;;
  then_b <- block;;
  skip_semicolons ;;;
  ei <- match_ ELSEIF;;
  if ei : bool then
    st <- r_if_statement rec;; ret (IfStatement cond then_b (Some [st]))
  else
    el <- match_ ELSE;;
    if el : bool then
      i <- match_ IF;;
      if i : bool then
        st <- r_if_statement rec;; ret (IfStatement cond then_b (Some [st]))
      else
        consume LBRACE (lit "Expect '{' after else.") ;;;
        else_b <- block;;
        ret (IfStatement cond then_b (Some else_b))
    else ret (IfStatement cond then_b None).

Definition while_statement : P Statement :=
  consume LPAREN (lit "Expect '(' after 'while'.") ;;;
  cond <- expression;;
  consume RPAREN (lit "Expect ')' after while condition.") ;;;
  consume LBRACE (lit "Expect '{' after while condition.") ;;;
  body <- block;;
  ret (WhileStatement cond body).

Definition for_statement : P Statement :=
  consume LPAREN (lit "Expect '(' after 'for'.") ;;;
  b <- checks SEMICOLON;;
  init <- (if b : bool then consume SEMICOLON (lit "Expect ';'.") ;;; ret None
           else st <- expression_statement;; ret (Some st));;
  b <- checks SEMICOLON;;
  cond <- (if b : bool then ret None else e <- expression;; ret (Some e));;
  consume SEMICOLON (lit "Expect ';' after for condition.") ;;;
  b <- checks RPAREN;;
  post <- (if b : bool then ret None else e <- expression;; ret (Some e));;
  consume RPAREN (lit "Expect ')' after for clauses.") ;;;
  consume LBRACE (lit "Expect '{' after for.") ;;;
  body <- block;;
  ret (ForStatement init cond post body).

Definition foreach_statement : P Statement :=
  consume LPAREN (lit "Expect '(' after 'foreach'.") ;;;
  iterable <- expression;;
  consume AS (lit "Expect 'as' in foreach.") ;;;
  first <- consume IDENT (lit "Expect variable name in foreach.");;
  arrow <- match_ FAT_ARROW;;
  kv <- (if arrow : bool then
           v <- consume IDENT (lit "Expect value variable after '=>'.");;
           ret (lexeme first, lexeme v)
         else ret ([], lexeme first));;
  consume RPAREN (lit "Expect ')' after foreach.") ;;;
  consume LBRACE (lit "Expect '{' after foreach.") ;;;
  body <- block;;
  ret (ForeachStatement iterable kv.1 kv.2 body).

Definition return_statement : P Statement :=
  a <- checks SEMICOLON;; b <- checks RBRACE;; e <- at_end;;
  val <- (if a || b || e then ret None else v <- expression;; ret (Some v));;
  consume_semi ;;;
  ret (ReturnStatement val).

Definition throw_statement : P Statement :=
  a <- checks SEMICOLON;; b <- checks RBRACE;; e <- at_end;;
  if a || b || e then fail (fun _ => lit "an expression is required after throw")
  else
    val <- expression;;
    consume_semi ;;;
    ret (ThrowStatement val).

Definition function_declaration : P Statement :=
  name_tok <- consume IDENT (lit "Expect function name.");;
  consume LPAREN (lit "Expect '(' after function name.") ;;;
  pdv <- parameters assignment;;
  let '(params, defaults, variadic) := pdv in
  consume RPAREN (lit "Expect ')' after parameters.") ;;;
  consume LBRACE (lit "Expect '{' before function body.") ;;;
  body <- in_function block;;
  ret (FunctionDeclaration (lexeme name_tok) params defaults variadic body).

Definition try_statement : P Statement :=
  consume LBRACE (lit "Expect '{' after 'try'.") ;;;
  try_block <- block;;
  skip_semicolons ;;;
  c <- match_ CATCH;;
  catch_ <- (if c : bool then
               consume LPAREN (lit "Expect '(' after 'catch'.") ;;;
               var <- consume IDENT (lit "Expect variable name in catch.");;
               consume RPAREN (lit "Expect ')' after catch variable.") ;;;
               consume LBRACE (lit "Expect '{' after catch(...).") ;;;
               b <- block;;
               ret (lexeme var, Some b)
             else ret ([], None));;
  skip_semicolons ;;;
  f <- match_ FINALLY;;
  finally_ <- (if f : bool then
                 consume LBRACE (lit "Expect '{' after 'finally'.") ;;;
                 b <- block;; ret (Some b)
               else ret None);;
  ret (TryCatchStatement try_block catch_.1 catch_.2 finally_).

(** The body of a case. *)
Fixpoint case_body (n : nat) : P (list Statement) :=
  match n with
  | O => fuel_out
  | S n' =>
      a <- checks CASE;; b <- checks DEFAULT;; c <- checks RBRACE;; e <- at_end;;
      if a || b || c || e then ret []
      else st <- r_statement rec;; l <- case_body n';; ret (st :: l)
  end.
Fixpoint cases_loop (n : nat) : P (list (list Expression * list Statement)) :=
  match n with
  | O => fuel_out
  | S n' =>
      b <- checks RBRACE;; e <- at_end;;
      if b || e then ret []
      else
        d <- match_ DEFAULT;;
        values <- (if d : bool then consume COLON (lit "Expect ':' after 'default'.") ;;; ret []
                   else
                     consume CASE (lit "Expect 'case' or 'default' in switch.") ;;;
                     vs <- comma_list fuel expression;;
                     consume COLON (lit "Expect ':' after case value.") ;;;
                     ret vs);;
        body <- case_body fuel;;
        l <- cases_loop n';;
        ret ((values, body) :: l)
  end.

Definition switch_statement : P Statement :=
  consume LPAREN (lit "Expect '(' after 'switch'.") ;;;
  subject <- expression;;
  consume RPAREN (lit "Expect ')' after switch value.") ;;;
  consume LBRACE (lit "Expect '{' after switch(...).") ;;;
  cases <- cases_loop fuel;;
  consume RBRACE (lit "Expect '}' after switch body.") ;;;
  ret (SwitchStatement subject cases).

(** Names with an optional expression behind [sep], the items of a struct
    declaration and of a const block. *)
Fixpoint items_loop (n : nat) (sep : TokenType) (msg : bytes) : P (list (bytes * option Expression)) :=
  match n with
  | O => fuel_out
  | S n' =>
      b <- checks RBRACE;; e <- at_end;;
      if b || e then ret []
      else
        skip_semicolons ;;;
        b <- checks RBRACE;; e <- at_end;;
        if b || e then ret []
        else
          t <- consume IDENT msg;;
          s <- match_ sep;;
          v <- (if s : bool then e <- expression;; ret (Some e) else ret None);;
          match_ COMMA ;;;
          l <- items_loop n' sep msg;;
          ret ((lexeme t, v) :: l)
  end.

Definition struct_declaration : P Statement :=
  name <- consume IDENT (lit "Expect struct name after 'struct'.");;
  consume LBRACE (lit "Expect '{' after struct name.") ;;;
  fields <- items_loop fuel COLON (lit "Expect field name.");;
  consume RBRACE (lit "Expect '}' after struct fields.") ;;;
  ret (StructDeclaration (lexeme name) fields).

Definition const_block : P Statement :=
  consume LBRACE (lit "Expect '{' after 'const'.") ;;;
  items <- items_loop fuel ASSIGN (lit "Expect constant name.");;
  consume RBRACE (lit "Expect '}' after const block.") ;;;
  ret (ConstBlock items).

Definition statement : P Statement := stmt_guarded (
  b <- match_ USE;; if b : bool then use_statement else
  b <- match_ PRINT;; if b : bool then print_statement else
  b <- match_ WRITE;; if b : bool then write_statement else
  b <- match_ IF;; if b : bool then if_statement else
  b <- match_ WHILE;; if b : bool then while_statement else
  b <- match_ FOR;; if b : bool then for_statement else
  b <- match_ FOREACH;; if b : bool then foreach_statement else
  b <- match_ RETURN;; if b : bool then return_statement else
  b <- match_ THROW;; if b : bool then throw_statement else
  b <- match_ FUNCTION;; if b : bool then function_declaration else
  b <- match_ TRY;; if b : bool then try_statement else
  b <- match_ SWITCH;; if b : bool then switch_statement else
  b <- match_ STRUCT;; if b : bool then struct_declaration else
  b <- match_ CONST_KW;; if b : bool then const_block else
  b <- match_ BREAK;; if b : bool then consume_semi ;;; ret BreakStatement else
  b <- match_ CONTINUE;; if b : bool then consume_semi ;;; ret ContinueStatement else
  b <- match_ LBRACE;; if b : bool then l <- block;; ret (BlockStatement l) else
  expression_statement).

End Level.

(** The knot. *)
Fixpoint parser_ (n : nat) : Rec :=
  match n with
  | O => no_fuel
  | S n' =>
      let r := parser_ n' in
      MkRec (expression r) (assignment r) (ternary r) (power r) (unary r) (statement r)
        (if_statement r)
  end.

Fixpoint program_loop (rec : Rec) (n : nat) : P Program :=
  match n with
  | O => fuel_out
  | S n' =>
      e <- at_end;;
      if e : bool then ret []
      else
        skip_semicolons ;;;
        e <- at_end;;
        if e : bool then ret []
        else st <- statement rec;; l <- program_loop rec n';; ret (st :: l)
  end.

Definition start : PState := MkP 0 0 0 0 0.

Definition parse : outcome Program := program_loop (parser_ fuel) fuel start.

End Methods.
End Parser.
