(* ===== verification/ParserTotal.v ===== *)
(** The parser of Parser.v always comes back: with one level of recursion per
    token it never runs out of fuel, it stays inside the token list, every
    method that starts an expression or a statement consumes a token, and the
    depth counters are what they were. *)

From S2P Require Import Prelude CNum Ast Lexer Parser.
#[local] Open Scope Z_scope.

Module ParserTotal.
Import CNum Ast.
Import Lexer.Lexer.
Import Parser.Parser.
#[local] Open Scope parser_scope.

Section Total.
Context (ts : list Token) (e : Token).
Context (He : type e = EOF_TOKEN) (Hts : Forall (fun t => type t <> EOF_TOKEN) ts).

Definition toks : list Token := ts ++ [e].
Definition last_pos : nat := length ts.
Definition left (s : PState) : nat := (last_pos - current s)%nat.

Definition same_depths (s s' : PState) : Prop :=
  scope_depth s' = scope_depth s /\ expr_depth s' = expr_depth s /\ stmt_depth s' = stmt_depth s.

(** [safe n k p]: from every state with fewer than [n] tokens left, [p] does
    not run out of fuel, and when it succeeds it has consumed [k] tokens at
    least, stays in front of the EOF and restores the depths. *)
Definition safe {A} (n k : nat) (p : P A) : Prop :=
  forall s, (current s <= last_pos)%nat -> (left s < n)%nat ->
    match p s with
    | POk _ s' => (current s + k <= current s' <= last_pos)%nat /\ same_depths s s'
    | PErr _ _ _ => True
    | PFuel => False
    end.

Lemma same_refl s : same_depths s s.
Proof. done. Qed.
Lemma same_trans s1 s2 s3 : same_depths s1 s2 -> same_depths s2 s3 -> same_depths s1 s3.
Proof. unfold same_depths. intuition congruence. Qed.

Lemma safe_weaken {A} n k n' k' (p : P A) :
  safe n k p -> (n' <= n)%nat -> (k' <= k)%nat -> safe n' k' p.
Proof.
  intros H Hn Hk s Hs Hl. specialize (H s Hs ltac:(lia)). destruct (p s); [|done|done].
  destruct H as [H1 H2]. split; [lia|done].
Qed.

Lemma safe_ret {A} n (a : A) : safe n 0 (ret a).
Proof. intros s Hs _. simpl. split; [lia|done]. Qed.

Lemma safe_fail {A} n k msg : safe n k (@fail toks A msg).
Proof. by intros s Hs _. Qed.

Lemma safe_bind {A B} n k k1 (p : P A) (f : A -> P B) :
  safe n k1 p -> (forall a, safe (n - k1) (k - k1) (f a)) -> safe n k (bind p f).
Proof.
  intros Hp Hf s Hs Hl. unfold bind. specialize (Hp s Hs Hl).
  destruct (p s) as [a s1| |]; [|done|done]. destruct Hp as [Hc Hd].
  specialize (Hf a s1 ltac:(lia)). unfold left in *. specialize (Hf ltac:(lia)).
  destruct (f a s1); [|done|done]. destruct Hf as [Hc2 Hd2].
  split; [lia|by eapply same_trans].
Qed.

(** ** Tokens *)

Lemma peek_end s : (current s <= last_pos)%nat ->
  is_at_end toks s = true <-> current s = last_pos.
Proof.
  intros Hs. unfold is_at_end, peek. rewrite bool_decide_eq_true. split.
  - intros Ht. destruct (decide (current s < length ts)%nat) as [Hlt|]; [|unfold last_pos in *; lia].
    exfalso. unfold toks in Ht. rewrite lookup_app_l in Ht by done.
    destruct (lookup_lt_is_Some_2 _ _ Hlt) as [t Hlk]. rewrite Hlk in Ht.
    by apply (proj1 (Forall_lookup _ _) Hts _ _ Hlk).
  - intros ->. unfold toks, last_pos. by rewrite list_lookup_middle.
Qed.

Lemma check_lt t s : (current s <= last_pos)%nat -> check toks t s = true ->
  (current s < last_pos)%nat.
Proof.
  intros Hs. unfold check. rewrite andb_true_iff, negb_true_iff. intros [Hn _].
  pose proof (peek_end s Hs) as Hpe. destruct (decide (current s = last_pos)); [|lia].
  apply Hpe in e0. congruence.
Qed.

Lemma check_advance t s : (current s <= last_pos)%nat -> check toks t s = true ->
  advance toks s = POk (peek toks s) (set_current s (S (current s))).
Proof.
  intros Hs Hc. unfold advance, check in *. apply andb_true_iff in Hc as [Hn _].
  apply negb_true_iff in Hn. rewrite Hn. unfold previous, peek. simpl.
  by rewrite Nat.sub_0_r.
Qed.

Lemma safe_advance n : safe n 0 (advance toks).
Proof.
  intros s Hs _. unfold advance. destruct (is_at_end toks s) eqn:E; simpl; [split; [lia|done]|].
  assert (current s <> last_pos) by (intros Heq; apply peek_end in Heq; congruence).
  split; [lia|done].
Qed.

Lemma safe_consume n t msg : safe n 1 (consume toks t msg).
Proof.
  intros s Hs _. unfold consume. destruct (check toks t s) eqn:E; [|done].
  rewrite (check_advance t) by done. apply check_lt in E; [|done]. simpl. split; [lia|done].
Qed.

Lemma safe_match {A} n k t (f : bool -> P A) :
  safe (n - 1) (k - 1) (f true) -> safe n k (f false) -> safe n k (bind (match_ toks t) f).
Proof.
  intros Ht Hf s Hs Hl. unfold match_, bind. destruct (check toks t s) eqn:E.
  - rewrite (check_advance t) by done. apply check_lt in E; [|done].
    specialize (Ht (set_current s (S (current s)))). simpl in Ht. unfold left in *. simpl in *.
    specialize (Ht ltac:(lia) ltac:(lia)).
    destruct (f true _); [|done|done]. destruct Ht as [Hc Hd]. split; [lia|done].
  - by apply Hf.
Qed.

Lemma safe_match_any {A} n k l (f : bool -> P A) :
  safe (n - 1) (k - 1) (f true) -> safe n k (f false) -> safe n k (bind (match_any toks l) f).
Proof.
  intros Ht Hf. induction l as [|t l IH].
  - intros s. apply Hf.
  - assert (E : forall s, bind (match_any toks (t :: l)) f s =
              bind (match_ toks t) (fun b => if b : bool then f true else bind (match_any toks l) f) s).
    { intros s. simpl. unfold bind, ret. destruct (match_ toks t s) as [[|] s1| |]; done. }
    intros s Hs Hl. rewrite E.
    by apply (safe_match n k t (fun b => if b : bool then f true else bind (match_any toks l) f)).
Qed.

(** A test that reads the state. *)
Lemma safe_read {A X} n k (g : PState -> X) (f : X -> P A) :
  (forall x, safe n k (f x)) -> safe n k (bind (fun s => POk (g s) s) f).
Proof. intros H s. apply H. Qed.

Lemma safe_if {A} n k (b : bool) (p q : P A) : safe n k p -> safe n k q -> safe n k (if b then p else q).
Proof. by destruct b. Qed.

Lemma safe_cap {A} n k (p : P A) : safe (Nat.min (fuel toks) n) k p -> safe n k p.
Proof.
  intros H s Hs Hl. apply H; [done|]. unfold left, fuel, toks, last_pos in *.
  rewrite length_app. cbn [length]. lia.
Qed.

Lemma safe_consume_semi n : safe n 0 (consume_semi toks).
Proof.
  intros s Hs Hl. unfold consume_semi. destruct (check toks SEMICOLON s) eqn:E.
  - unfold bind. pose proof (safe_advance n s Hs Hl). by destruct (advance toks s).
  - destruct (_ || _); [|done]. simpl. split; [lia|done].
Qed.

Lemma safe_skip_all n m t : safe (Nat.min m n) 0 (skip_all toks m t).
Proof.
  revert n. induction m as [|m IH]; intros n; [intros s _ ?; lia|]; cbn [skip_all comma_list binary_loop].
  apply safe_match; [|apply safe_ret]. eapply safe_weaken; [apply (IH (n - 1)%nat)|lia|lia].
Qed.
Lemma safe_skip n : safe n 0 (skip_semicolons toks).
Proof. apply safe_cap, safe_skip_all. Qed.

Lemma safe_guarded {A} n k (p : P A) : safe n k p -> safe n k (guarded toks p).
Proof.
  intros H s Hs Hl. unfold guarded. case_if; [done|]. unfold bind.
  specialize (H (set_expr s (expr_depth s + 1)) Hs Hl). destruct (p _); [|done|done].
  destruct H as [Hc (H1 & H2 & H3)]. simpl in *. split; [done|]. repeat split; simpl; lia.
Qed.
Lemma safe_stmt_guarded {A} n k (p : P A) : safe n k p -> safe n k (stmt_guarded toks p).
Proof.
  intros H s Hs Hl. unfold stmt_guarded. case_if; [done|]. unfold bind.
  specialize (H (set_stmt s (stmt_depth s + 1)) Hs Hl). destruct (p _); [|done|done].
  destruct H as [Hc (H1 & H2 & H3)]. simpl in *. split; [done|]. repeat split; simpl; lia.
Qed.
Lemma safe_in_function {A} n k (p : P A) : safe n k p -> safe n k (in_function p).
Proof.
  intros H s Hs Hl. unfold in_function, bind.
  specialize (H (set_scope s (scope_depth s + 1)) Hs Hl). destruct (p _); [|done|done].
  destruct H as [Hc (H1 & H2 & H3)]. simpl in *. split; [done|]. repeat split; simpl; lia.
Qed.
Lemma safe_check_binop n : safe n 0 (check_binop_chain toks).
Proof. intros s Hs Hl. unfold check_binop_chain. case_if; simpl; [done|]. split; [lia|done]. Qed.

(** Decompose a method into its steps. *)
Ltac safe_one := first
  [ apply safe_ret | apply safe_fail
  | apply safe_match | apply safe_match_any
  | (apply safe_read; intros ?)
  | apply safe_if
  | (eapply safe_bind; [apply safe_consume|intros ?])
  | (eapply safe_bind; [apply safe_advance|intros ?])
  | (eapply safe_bind; [apply safe_consume_semi|intros ?])
  | (eapply safe_bind; [apply safe_skip|intros ?])
  | (eapply safe_bind; [apply safe_check_binop|intros ?]) ].
Ltac safe_by lem := first
  [ (eapply safe_weaken; [apply lem|lia|lia])
  | (eapply safe_bind; [eapply safe_weaken; [apply lem|lia|apply Nat.le_refl]|intros ?]) ].
Ltac weaken_ret := eapply safe_weaken; [apply safe_ret|apply Nat.le_refl|lia].

Lemma safe_comma_list {A} n m (p : P A) : safe n 1 p -> safe (Nat.min m n) 1 (comma_list toks m p).
Proof.
  revert n. induction m as [|m IH]; intros n Hp; [intros s _ ?; lia|]; cbn [skip_all comma_list binary_loop].
  eapply (safe_bind _ _ 1); [eapply safe_weaken; [exact Hp|lia|lia]|intros a].
  apply safe_match; [|apply safe_ret].
  eapply (safe_bind _ _ 0); [|intros l; apply safe_ret].
  eapply safe_weaken; [apply (IH (n - 1)%nat); eapply safe_weaken; [exact Hp|lia|lia]|lia|lia].
Qed.

Lemma safe_comma {A} n (p : P A) : safe n 1 p -> safe n 1 (comma_list toks (fuel toks) p).
Proof. intros Hp. by apply safe_cap, safe_comma_list. Qed.

Lemma safe_binary_loop n m ops op next expr :
  safe n 1 next -> safe (Nat.min m n) 0 (binary_loop toks m ops op next expr).
Proof.
  revert n expr. induction m as [|m IH]; intros n expr Hp; [intros s _ ?; lia|]; cbn [skip_all comma_list binary_loop].
  apply safe_match_any; [|apply safe_ret].
  eapply safe_bind; [apply safe_check_binop|intros ?]. apply safe_read. intros tok.
  eapply (safe_bind _ _ 1); [eapply safe_weaken; [exact Hp|lia|lia]|intros r].
  eapply safe_weaken; [apply (IH (n - 1)%nat); eapply safe_weaken; [exact Hp|lia|lia]|lia|lia].
Qed.

Lemma safe_binary n ops op next : safe n 1 next -> safe n 1 (binary toks ops op next).
Proof.
  intros H. unfold binary. eapply safe_bind; [exact H|intros a].
  apply safe_cap, safe_binary_loop. eapply safe_weaken; [exact H|lia|lia].
Qed.

(** ** The methods of one level *)

Record rec_safe (m : nat) (rec : Rec) : Prop := {
  rs_expression : safe m 1 (r_expression rec);
  rs_assignment : safe m 1 (r_assignment rec);
  rs_ternary : safe m 1 (r_ternary rec);
  rs_power : safe m 1 (r_power rec);
  rs_unary : safe m 1 (r_unary rec);
  rs_statement : safe m 1 (r_statement rec);
  rs_if_statement : safe m 1 (r_if_statement rec) }.

Section OneLevel.
Context (m : nat) (rec : Rec) (Hrec : rec_safe m rec).

Lemma rec_expression : safe m 1 (r_expression rec). Proof. apply Hrec. Qed.
Lemma rec_assignment : safe m 1 (r_assignment rec). Proof. apply Hrec. Qed.
Lemma rec_ternary : safe m 1 (r_ternary rec). Proof. apply Hrec. Qed.
Lemma rec_power : safe m 1 (r_power rec). Proof. apply Hrec. Qed.
Lemma rec_unary : safe m 1 (r_unary rec). Proof. apply Hrec. Qed.
Lemma rec_statement : safe m 1 (r_statement rec). Proof. apply Hrec. Qed.
Lemma rec_if : safe m 1 (r_if_statement rec). Proof. apply Hrec. Qed.

Create HintDb psafe discriminated.
Hint Constants Opaque : psafe.
Hint Resolve rec_expression rec_assignment rec_ternary rec_power rec_unary rec_statement rec_if : psafe.

Ltac call_known := eapply safe_weaken; [solve [eauto 1 with psafe nocore]|lia|lia].
Ltac step := match goal with
  | |- safe _ _ (ret _) => eapply safe_weaken; [apply safe_ret|apply Nat.le_refl|lia]
  | |- safe _ _ (fail _ _) => apply safe_fail
  | |- safe _ _ (consume_semi _) => apply safe_consume_semi
  | |- safe _ _ (guarded _ _) => apply safe_guarded
  | |- safe _ _ (stmt_guarded _ _) => apply safe_stmt_guarded
  | |- safe _ _ (in_function _) => apply safe_in_function
  | |- safe _ _ (if _ then _ else _) => apply safe_if
  | |- safe _ _ (match ?x with _ => _ end) =>
      match type of x with prod (prod _ _) _ => destruct x as [[? ?] ?] end
  | |- safe _ _ (bind (match_ _ _) _) => apply safe_match
  | |- safe _ _ (bind (match_any _ _) _) => apply safe_match_any
  | |- safe _ _ (bind (checks _ _) _) => apply safe_read; intros ?
  | |- safe _ _ (bind (at_end _) _) => apply safe_read; intros ?
  | |- safe _ _ (bind (prev _) _) => apply safe_read; intros ?
  | |- safe _ _ (bind (fun s => POk _ s) _) => apply safe_read; intros ?
  | |- safe _ _ (bind (consume _ _ _) _) => eapply (safe_bind _ _ 1); [apply safe_consume|intros ?]
  | |- safe _ _ (bind (advance _) _) => eapply (safe_bind _ _ 0); [apply safe_advance|intros ?]
  | |- safe _ _ (bind (consume_semi _) _) =>
      eapply (safe_bind _ _ 0); [apply safe_consume_semi|intros ?]
  | |- safe _ _ (bind (skip_semicolons _) _) => eapply (safe_bind _ _ 0); [apply safe_skip|intros ?]
  | |- safe _ _ (comma_list _ _ _) =>
      eapply safe_weaken; [apply safe_comma|apply Nat.le_refl|lia]
  | |- safe _ _ (bind (comma_list _ _ _) _) => eapply (safe_bind _ _ 1); [apply safe_comma|intros ?]
  | |- safe _ _ (bind (bind _ _) _) => eapply (safe_bind _ _ 0); [|intros ?]
  | |- safe _ _ (bind (ret _) _) => eapply (safe_bind _ _ 0); [|intros ?]
  | |- safe _ _ (bind (in_function _) _) => eapply (safe_bind _ _ 0); [|intros ?]
  | |- safe _ _ (bind (if _ then _ else _) _) => eapply (safe_bind _ _ 0); [|intros ?]
  | |- safe _ _ (bind _ _) => eapply (safe_bind _ _ 1); [call_known|intros ?]
  | |- safe _ _ (bind _ _) => eapply (safe_bind _ _ 0); [call_known|intros ?]
  | |- safe _ _ _ => call_known
  end.
Ltac go := repeat step.
Ltac use_ih IH n := first
  [ (eapply (safe_bind _ _ 0); [eapply safe_weaken; [apply (IH (n - 1)%nat); lia|lia|lia]|intros ?; go])
  | (eapply safe_weaken; [apply (IH (n - 1)%nat); lia|lia|lia]) ].

Lemma safe_argument_list : safe m 0 (argument_list toks rec).
Proof.
  unfold argument_list. go.
Qed.
Hint Resolve safe_argument_list : psafe.

Lemma safe_finish_call c : safe m 1 (finish_call toks rec c).
Proof. unfold finish_call. go. Qed.
Hint Resolve safe_finish_call : psafe.

Lemma safe_block : safe m 1 (block toks rec).
Proof.
  unfold block. eapply (safe_bind _ _ 0); [|intros l; go]. apply safe_cap.
  generalize (fuel toks) as f. intros f. generalize (Nat.le_refl m).
  generalize m at 1 3 as n. intros n. revert n. induction f as [|f IH]; intros n Hn;
    [intros s _ ?; lia|]. cbn [block_loop]. go; use_ih IH n.
Qed.
Hint Resolve safe_block : psafe.

Lemma safe_parameters n p : safe n 1 p -> safe n 0 (parameters toks p).
Proof.
  intros Hp. unfold parameters. apply safe_read. intros b. apply safe_if; [apply safe_ret|].
  eapply safe_weaken; [|apply Nat.le_refl|apply Nat.le_0_l]. apply safe_cap.
  instantiate (1 := 1%nat). generalize (fuel toks) as f. intros f. revert n Hp.
  induction f as [|f IH]; intros n Hp; [intros s _ ?; lia|]. cbn [params_loop].
  apply safe_match; [go|]. eapply (safe_bind _ _ 1); [apply safe_consume|intros t].
  apply safe_match.
  - eapply (safe_bind _ _ 0).
    { eapply (safe_bind _ _ 1); [eapply safe_weaken; [exact Hp|lia|lia]|intros a; go]. }
    intros d. apply safe_match; [|go]. eapply (safe_bind _ _ 0); [|intros x; go].
    eapply safe_weaken; [apply (IH (n - 1)%nat); eapply safe_weaken; [exact Hp|lia|lia]|lia|lia].
  - eapply (safe_bind _ _ 0); [go|].
    intros d. apply safe_match; [|go]. eapply (safe_bind _ _ 0); [|intros x; go].
    eapply safe_weaken; [apply (IH (n - 1)%nat); eapply safe_weaken; [exact Hp|lia|lia]|lia|lia].
Qed.

Lemma safe_capture_list : safe (S m) 0 (capture_list toks).
Proof. unfold capture_list. go. Qed.
Hint Resolve safe_capture_list : psafe.

Lemma safe_parameters_r : safe m 0 (parameters toks (r_assignment rec)).
Proof. apply safe_parameters, Hrec. Qed.
Hint Resolve safe_parameters_r : psafe.

Lemma safe_function_expression : safe m 1 (function_expression toks rec).
Proof.
 unfold function_expression. go.
Qed.
Hint Resolve safe_function_expression : psafe.

(** A loop of a method: one turn, the rest by induction. *)
Ltac loop_ind f n IH := apply safe_cap;
  generalize (fuel toks) as f; intros f;
  generalize (Nat.le_refl m); generalize m at 1 3 as n; intros n; revert n;
  induction f as [|f IH]; intros n ?; [intros s _ ?; lia|].

Lemma safe_elements : safe m 0 (elements_loop toks rec (fuel toks)).
Proof. loop_ind f n IH. cbn [elements_loop]. go; use_ih IH n. Qed.
Hint Resolve safe_elements : psafe.

Lemma safe_pairs : safe m 0 (pairs_loop toks rec (fuel toks)).
Proof. loop_ind f n IH. cbn [pairs_loop]. go; use_ih IH n. Qed.
Hint Resolve safe_pairs : psafe.

Lemma safe_array_literal : safe m 0 (array_literal toks rec).
Proof. unfold array_literal. go. Qed.
Hint Resolve safe_array_literal : psafe.

Lemma safe_fields : safe m 0 (fields_loop toks rec (fuel toks)).
Proof. loop_ind f n IH. cbn [fields_loop]. go; use_ih IH n. Qed.
Hint Resolve safe_fields : psafe.

Lemma safe_identifier_expression : safe m 0 (identifier_expression toks rec).
Proof. unfold identifier_expression. go. Qed.
Hint Resolve safe_identifier_expression : psafe.

Lemma safe_primary : safe (S m) 1 (primary toks rec).
Proof. unfold primary. go. Qed.
Hint Resolve safe_primary : psafe.

Lemma safe_call : safe (S m) 1 (call toks rec).
Proof.
  unfold call. eapply (safe_bind _ _ 1); [apply safe_primary|intros a].
  eapply safe_weaken; [|apply Nat.le_refl|lia]. instantiate (1 := 0%nat).
  apply safe_cap. generalize (fuel toks) as f. intros f. assert (Hn : (S m - 1 <= S m)%nat) by lia.
  revert Hn. generalize (S m - 1)%nat as n. intros n Hn. revert n a Hn.
  induction f as [|f IH]; intros n a Hn; [intros s _ ?; lia|]. cbn [call_loop]. go; use_ih IH n.
Qed.
Hint Resolve safe_call : psafe.

Lemma safe_postfix : safe (S m) 1 (postfix toks rec).
Proof. unfold postfix. go. Qed.
Hint Resolve safe_postfix : psafe.

Lemma safe_unary : safe (S m) 1 (unary toks rec).
Proof. unfold unary. go. Qed.
Hint Resolve safe_unary : psafe.

Lemma safe_power : safe (S m) 1 (power toks rec).
Proof. unfold power. go. Qed.
Hint Resolve safe_power : psafe.

Lemma safe_null_coalescing : safe (S m) 1 (null_coalescing toks rec).
Proof. do 12 apply safe_binary. apply safe_power. Qed.
Hint Resolve safe_null_coalescing : psafe.

Lemma safe_ternary : safe (S m) 1 (ternary toks rec).
Proof. unfold ternary. go. Qed.
Hint Resolve safe_ternary : psafe.

Lemma safe_assignment : safe (S m) 1 (assignment toks rec).
Proof.
  unfold assignment. go. destruct (assign_to _ _ _); [go|]. by intros s _ _.
Qed.
Hint Resolve safe_assignment : psafe.

Lemma safe_expression : safe (S m) 1 (expression toks rec).
Proof.
  unfold expression. apply safe_guarded. intros s Hs Hl.
  pose proof (safe_assignment (if expr_depth s =? 1 then set_binop s 0 else s)) as H.
  destruct (expr_depth s =? 1); by apply H.
Qed.
Hint Resolve safe_expression : psafe.

(** ** Statements *)

Lemma safe_expression_statement : safe (S m) 1 (expression_statement toks rec).
Proof. unfold expression_statement. go. Qed.
Hint Resolve safe_expression_statement : psafe.

Lemma safe_print : safe (S m) 0 (print_statement toks rec).
Proof. unfold print_statement. go. Qed.
Lemma safe_write : safe (S m) 0 (write_statement toks rec).
Proof. unfold write_statement. go. Qed.
Lemma safe_use : safe (S m) 0 (use_statement toks).
Proof.
  unfold use_statement. apply safe_read. intros b. apply safe_if; [|go].
  intros s Hs Hl. case_if; [done|].
  assert (H : safe (S m) 0 (bind (advance toks) (fun tok => bind (consume_semi toks) (fun _ =>
    ret (UseFileStatement (default (lexeme tok) (literal tok))))))) by go.
  by apply H.
Qed.
Lemma safe_if_statement : safe (S m) 1 (if_statement toks rec).
Proof. unfold if_statement. go. Qed.
Lemma safe_while : safe (S m) 0 (while_statement toks rec).
Proof. unfold while_statement. go. Qed.
Lemma safe_for : safe (S m) 0 (for_statement toks rec).
Proof. unfold for_statement. go. Qed.
Lemma safe_foreach : safe (S m) 0 (foreach_statement toks rec).
Proof. unfold foreach_statement. go. Qed.
Lemma safe_return : safe (S m) 0 (return_statement toks rec).
Proof. unfold return_statement. go. Qed.
Lemma safe_throw : safe (S m) 0 (throw_statement toks rec).
Proof. unfold throw_statement. go. Qed.

Lemma safe_parameters_a : safe (S m) 0 (parameters toks (assignment toks rec)).
Proof. apply safe_parameters, safe_assignment. Qed.
Hint Resolve safe_parameters_a : psafe.
Lemma safe_function : safe (S m) 0 (function_declaration toks rec).
Proof. unfold function_declaration. go. Qed.
Lemma safe_try : safe (S m) 0 (try_statement toks rec).
Proof. unfold try_statement. go. Qed.

Lemma safe_case_body n : (n <= m)%nat -> safe n 0 (case_body toks rec (fuel toks)).
Proof.
  intros Hn. apply safe_cap. generalize (fuel toks) as f. intros f. revert n Hn.
  induction f as [|f IH]; intros n Hn; [intros s _ ?; lia|]. cbn [case_body]. go; use_ih IH n.
Qed.
Lemma safe_case_body_m : safe m 0 (case_body toks rec (fuel toks)).
Proof. by apply safe_case_body. Qed.
Hint Resolve safe_case_body_m : psafe.

Lemma safe_cases : safe m 0 (cases_loop toks rec (fuel toks)).
Proof.
  loop_ind f n IH. cbn [cases_loop]. apply safe_read. intros b. apply safe_read. intros a.
  apply safe_if; [go|]. apply safe_match; [go; use_ih IH n|].
  eapply (safe_bind _ _ 1); [go|intros vs]. go; use_ih IH n.
Qed.
Hint Resolve safe_cases : psafe.

Lemma safe_switch : safe (S m) 0 (switch_statement toks rec).
Proof. unfold switch_statement. go. Qed.

Lemma safe_items sep msg : safe m 0 (items_loop toks rec (fuel toks) sep msg).
Proof. loop_ind f n IH. cbn [items_loop]. go; use_ih IH n. Qed.
Hint Resolve safe_items : psafe.

Lemma safe_struct : safe (S m) 0 (struct_declaration toks rec).
Proof. unfold struct_declaration. go. Qed.
Lemma safe_const : safe (S m) 0 (const_block toks rec).
Proof. unfold const_block. go. Qed.

Hint Resolve safe_print safe_write safe_use safe_if_statement safe_while safe_for safe_foreach
  safe_return safe_throw safe_function safe_try safe_switch safe_struct safe_const : psafe.

Lemma safe_statement : safe (S m) 1 (statement toks rec).
Proof. unfold statement. go. Qed.

End OneLevel.

(** ** All the levels *)

Lemma safe_parser_ n : rec_safe n (parser_ toks n).
Proof.
  induction n as [|n IH]; [by constructor; intros s _ ?; lia|].
  constructor; cbn [parser_ r_expression r_assignment r_ternary r_power r_unary r_statement
                    r_if_statement].
  - by apply safe_expression.
  - by apply safe_assignment.
  - by apply safe_ternary.
  - by apply safe_power.
  - by apply safe_unary.
  - by apply safe_statement.
  - by apply safe_if_statement.
Qed.

Lemma safe_program_loop n : safe n 0 (program_loop toks (parser_ toks (fuel toks)) (fuel toks)).
Proof.
  apply safe_cap. generalize (fuel toks) at 1 3 as f. intros f. revert n.
  assert (Hst : forall n, safe n 1 (statement toks (parser_ toks (fuel toks)))).
  { intros n. apply safe_cap. eapply safe_weaken;
      [apply (safe_statement (fuel toks)), safe_parser_|lia|lia]. }
  induction f as [|f IH]; intros n; [intros s _ ?; lia|]. cbn [program_loop].
  apply safe_read. intros a. apply safe_if; [apply safe_ret|].
  eapply (safe_bind _ _ 0); [apply safe_skip|intros _].
  apply safe_read. intros b. apply safe_if; [apply safe_ret|].
  eapply (safe_bind _ _ 1); [apply Hst|intros st].
  eapply (safe_bind _ _ 0); [|intros l; apply safe_ret].
  eapply safe_weaken; [apply (IH (n - 1)%nat)|lia|lia].
Qed.

(** Where the program loop stops. *)
Lemma program_loop_end rec n s l s' :
  program_loop toks rec n s = POk l s' -> is_at_end toks s' = true.
Proof.
  revert s l. induction n as [|n IH]; intros s l; cbn [program_loop]; [done|].
  unfold bind at 1, at_end. destruct (is_at_end toks s) eqn:E1; [by intros [= _ <-]|].
  unfold bind at 1. destruct (skip_semicolons toks s) as [u s1| |]; [|done|done].
  unfold bind at 1. destruct (is_at_end toks s1) eqn:E2; [by intros [= _ <-]|].
  unfold bind at 1. destruct (statement toks rec s1) as [st s2| |]; [|done|done].
  unfold bind. destruct (program_loop toks rec n s2) as [l' s3| |] eqn:E3; [|done|done].
  intros [= _ <-]. by eapply IH.
Qed.
End Total.

(** C13: the parser terminates on every token list and reads all of it. On a
    list that ends in EOF_TOKEN, as the lexer's do, [parse] returns a program
    or a [LookParseError]; it never exhausts its recursion levels, one per
    token (so no input makes the recursion or a loop of the code go on for
    ever), and a program it returns stands for the whole list: the cursor is
    at the EOF and the three depth counters are back to zero. *)
Theorem parse_total ts e :
  type e = EOF_TOKEN -> Forall (fun t => type t <> EOF_TOKEN) ts ->
  match parse (ts ++ [e]) with
  | POk _ s => current s = length ts /\ scope_depth s = 0 /\ expr_depth s = 0 /\ stmt_depth s = 0
  | PErr _ _ _ => True
  | PFuel => False
  end.
Proof.
  intros He Hts. unfold parse.
  pose proof (safe_program_loop ts e He Hts (S (S (length ts))) start) as H.
  specialize (H ltac:(simpl; lia) ltac:(unfold left, last_pos; simpl; lia)). unfold toks in *.
  destruct (program_loop _ _ _ start) as [l s'| |] eqn:E; [|done|done].
  destruct H as [[_ Hc] (H1 & H2 & H3)]. apply program_loop_end in E.
  by apply (peek_end ts e He Hts) in E.
Qed.
Lemma parse_total_witness :
  match parse ([MkToken IDENT (lit "f") None 1 1 false; MkToken LPAREN (lit "(") None 1 2 false;
                MkToken RPAREN (lit ")") None 1 3 false] ++ [MkToken EOF_TOKEN [] None 1 4 false]) with
  | POk l s => current s = 3%nat /\ l = [ExpressionStatement (CallExpression (Variable_ (lit "f")) [])]
  | _ => False
  end.
Proof.
  pose proof (parse_total
    [MkToken IDENT (lit "f") None 1 1 false; MkToken LPAREN (lit "(") None 1 2 false;
     MkToken RPAREN (lit ")") None 1 3 false] (MkToken EOF_TOKEN [] None 1 4 false) eq_refl
    ltac:(repeat constructor; discriminate)) as H.
  vm_compute in H |- *. destruct H as [H _]. split; [exact H|reflexivity].
Defined.

(** ** Limits the guards do not reach *)

Definition run (src : bytes) : option (Program + bytes) :=
  match scan_tokens src with
  | Some (Ok toks) => match parse toks with POk p _ => Some (inl p) | PErr m _ _ => Some (inr m) | PFuel => None end
  | _ => None
  end.
Definition rep (n : nat) (s : bytes) : bytes := concat (replicate n s).
Definition accepted (src : bytes) : bool := match run src with Some (inl [_]) => true | _ => false end.

(** [$a=$a=...=1], 160 deep, more than [MAX_EXPR_DEPTH]. *)
Example assignment_chain_unguarded : accepted (rep 160 (lit "$a=") ++ lit "1") = true.
Proof. vm_compute. reflexivity. Qed.

(** 2^64 in binary is read as 0.0, in hexadecimal as 2^64. *)
Example binary_literal_overflow :
  run (lit "0b1" ++ rep 64 (lit "0")) = Some (inl [ExpressionStatement (FloatLiteral (strtod (lit "0")))]) /\
  run (lit "0x1" ++ rep 16 (lit "0")) =
    Some (inl [ExpressionStatement (FloatLiteral (strtod (lit "18446744073709551616")))]).
Proof. vm_compute. split; reflexivity. Qed.

(** Each parenthesis takes three levels of the depth guard. *)
Example paren_depth_is_49 :
  accepted (rep 49 (lit "(") ++ lit "1" ++ rep 49 (lit ")")) = true /\
  run (rep 50 (lit "(") ++ lit "1" ++ rep 50 (lit ")")) =
    Some (inr (lit "Expression nested too deep (max 150)")).
Proof. vm_compute. split; reflexivity. Qed.

End ParserTotal.
