(* ===== verification/ParserRoundtrip.v ===== *)
(** Precedence and associativity of the parser: expressions printed with the
    parentheses their operators need, and only those, are parsed back to the
    same tree, from tokens and (with the lexer) from text. *)

From S2P Require Import Prelude CNum Ast Lexer Parser.
#[local] Open Scope Z_scope.

Module ParserRoundtrip.
Import CNum Ast.
Import Lexer.Lexer.
Import Parser.Parser.
#[local] Open Scope parser_scope.

(** ** The grammar as a table

    The level of an expression is the number of the method that builds it:
    0 [assignment], 1 [ternary], 2 [null_coalescing], 3 [logical_or],
    4 [logical_and], 5 [bitwise_or], 6 [bitwise_xor], 7 [bitwise_and],
    8 [equality], 9 [comparison], 10 [shift], 11 [concatenation],
    12 [addition], 13 [multiplication], 14 [power], 15 [unary],
    16 [postfix], 17 [call], 18 [primary]. *)

Definition binops : list (bytes * (nat * TokenType)) :=
  [(lit "??", (2%nat, QUESTION_QUESTION)); (lit "||", (3%nat, PIPE_PIPE)); (lit "&&", (4%nat, AMP_AMP));
   (lit "|", (5%nat, PIPE)); (lit "^", (6%nat, CARET)); (lit "&", (7%nat, AMP));
   (lit "==", (8%nat, EQUAL_EQUAL)); (lit "!=", (8%nat, BANG_EQUAL));
   (lit "<=>", (9%nat, SPACESHIP)); (lit ">", (9%nat, GREATER)); (lit ">=", (9%nat, GREATER_EQUAL));
   (lit "<", (9%nat, LESS)); (lit "<=", (9%nat, LESS_EQUAL));
   (lit "<<", (10%nat, LESS_LESS)); (lit ">>", (10%nat, GREATER_GREATER));
   (lit ".", (11%nat, DOT)); (lit "+", (12%nat, PLUS)); (lit "-", (12%nat, MINUS));
   (lit "*", (13%nat, STAR)); (lit "/", (13%nat, SLASH)); (lit "%", (13%nat, PERCENT));
   (lit "**", (14%nat, STAR_STAR))].

Definition unops : list (bytes * TokenType) :=
  [(lit "!", BANG); (lit "~", TILDE); (lit "-", MINUS); (lit "++", PLUS_PLUS); (lit "--", MINUS_MINUS)].

Definition assignops : list (bytes * TokenType) :=
  [(lit "=", ASSIGN); (lit "+=", PLUS_ASSIGN); (lit "-=", MINUS_ASSIGN); (lit "*=", STAR_ASSIGN);
   (lit "/=", SLASH_ASSIGN); (lit "%=", PERCENT_ASSIGN); (lit ".=", DOT_ASSIGN);
   (lit "&=", AMP_ASSIGN); (lit "|=", PIPE_ASSIGN); (lit "^=", CARET_ASSIGN)].

Definition binop (op : bytes) : nat * TokenType := default (2%nat, QUESTION_QUESTION) (assoc_find op binops).
Definition unop (op : bytes) : TokenType := default BANG (assoc_find op unops).
Definition assignop (op : bytes) : TokenType := default ASSIGN (assoc_find op assignops).
Definition incr (op : bytes) : bool := (op =s lit "++") || (op =s lit "--").

Definition elevel (e : Expression) : nat :=
  match e with
  | AssignmentExpression _ _ _ _ _ => 0
  | TernaryExpression _ _ _ => 1
  | BinaryExpression _ op _ => (binop op).1
  | UnaryExpression _ _ true => 15
  | UnaryExpression _ _ false => 16
  | CallExpression _ _ | IndexExpression _ _ | MemberAccessExpression _ _ => 17
  | _ => 18
  end.

(** ** The printer *)

Definition op (t : TokenType) : list atom := [A_op t].

Definition commas (l : list (list atom)) : list atom :=
  match l with
  | [] => []
  | x :: l' => x ++ concat (map (fun y => A_op COMMA :: y) l')
  end.

Definition parens (p : list atom) : list atom := op LPAREN ++ p ++ op RPAREN.

(** A bare word behind [.] would be read as a member name. *)
Definition bare_word (p : list atom) : bool :=
  match p with A_word (c :: _) :: _ => negb (c =c "$") | _ => false end.

Definition is_member (e : Expression) : bool :=
  match e with MemberAccessExpression _ _ => true | _ => false end.

Fixpoint pr (L : nat) (e : Expression) : list atom :=
  let body :=
    match e with
    | StringLiteral v _ => [A_str v]
    | NumberLiteral v => [A_int (decimal v)]
    | BooleanLiteral b => [A_word (if b then lit "true" else lit "false")]
    | NullLiteral => [A_word (lit "null")]
    | IotaExpression => [A_word (lit "iota")]
    | ArrayLiteral es => op LBRACKET ++ commas (map (pr 0) es) ++ op RBRACKET
    | AssocArrayLiteral ps =>
        op LBRACKET ++ commas (map (fun kv => pr 0 kv.1 ++ op FAT_ARROW ++ pr 0 kv.2) ps)
          ++ op RBRACKET
    | Variable_ name => [A_word name]
    | IndexExpression o i => pr 17 o ++ op LBRACKET ++ pr 0 i ++ op RBRACKET
    | MemberAccessExpression o f => pr 17 o ++ op DOT ++ [A_word f]
    | CallExpression c args =>
        pr (if is_member c then 18 else 17) c ++ op LPAREN ++ commas (map (pr 0) args) ++ op RPAREN
    | UnaryExpression o r true => op (unop o) ++ pr (if incr o then 18 else 15) r
    | UnaryExpression o r false => pr 17 r ++ op (unop o)
    | BinaryExpression l o r =>
        let (L, t) := binop o in
        if (L =? 14)%nat then pr 15 l ++ op t ++ pr 14 r
        else
          let right := pr (S L) r in
          pr L l ++ op t ++
            (if bool_decide (t = DOT) && bare_word right then parens (pr 0 r) else right)
    | TernaryExpression c t f => pr 2 c ++ op QUESTION ++ pr 1 t ++ op COLON ++ pr 1 f
    | ScopeResolution m n => [A_word m] ++ op COLON_COLON ++ [A_word n]
    | AssignmentExpression name o obj idx v =>
        match obj with Some ob => pr 17 ob | None => [A_word name] end ++
        match idx with Some i => op LBRACKET ++ pr 0 i ++ op RBRACKET | None => [] end ++
        op (assignop o) ++ pr 0 v
    | StructLiteralExpression name fs =>
        [A_word name] ++ op LBRACE ++
        commas (map (fun f => [A_word f.1] ++ op COLON ++ pr 0 f.2) fs) ++ op RBRACE
    | FloatLiteral _ | FunctionExpression _ _ _ _ _ => []
    end in
  if (elevel e <? L)%nat then parens body else body.

(** ** What can be printed *)

Definition ident (w : bytes) : bool := ident_shape w && bool_decide (ident_type w = IDENT).
Definition bare (w : bytes) : bool := ident w && match w with c :: _ => negb (c =c "$") | [] => false end.

Fixpoint wf (e : Expression) : bool :=
  match e with
  | StringLiteral _ raw => negb raw
  | NumberLiteral v => (0 <=? v) && (v <=? INT64_MAX)
  | BooleanLiteral _ | NullLiteral | IotaExpression => true
  | FloatLiteral _ | FunctionExpression _ _ _ _ _ => false
  | ArrayLiteral es => forallb wf es
  | AssocArrayLiteral ps => negb (match ps with [] => true | _ => false end) &&
                            forallb (fun kv => wf kv.1 && wf kv.2) ps
  | Variable_ name => ident name
  | IndexExpression o i => wf o && wf i
  | MemberAccessExpression o f => container o && bare f && wf o
  | CallExpression c args => wf c && forallb wf args
  | UnaryExpression o r true => match assoc_find o unops with Some _ => wf r | None => false end
  | UnaryExpression o r false => incr o && wf r
  | BinaryExpression l o r => match assoc_find o binops with Some _ => wf l && wf r | None => false end
  | TernaryExpression c t f => wf c && wf t && wf f
  | ScopeResolution m n => ident m && ident n
  | AssignmentExpression name o obj idx v =>
      match assoc_find o assignops with Some _ => wf v | None => false end &&
      match obj, idx with
      | None, None => ident name
      | None, Some i => ident name && wf i
      | Some ob, Some i => (name =s []) && wf ob && wf i &&
                           negb (match ob with Variable_ _ => true | _ => false end)
      | Some _, None => false
      end
  | StructLiteralExpression name fs => bare name && forallb (fun f => ident f.1 && wf f.2) fs
  end.

Definition maxl (l : list nat) : nat := fold_right Nat.max 0%nat l.
Definition suml (l : list nat) : nat := fold_right Nat.add 0%nat l.

Lemma maxl_in {A} (f : A -> nat) l a : a ∈ l -> (f a <= maxl (map f l))%nat.
Proof.
  induction l as [|x l IHl]; [by intros ?%elem_of_nil|]. cbn. intros [->|Ha]%elem_of_cons; [lia|].
  specialize (IHl Ha). unfold maxl in IHl. lia.
Qed.

Lemma forallb_in {A} (f : A -> bool) l a : forallb f l = true -> a ∈ l -> f a = true.
Proof. rewrite forallb_forall. intros H Ha. apply H. by apply list_elem_of_In. Qed.

Fixpoint height (e : Expression) : nat :=
  S (match e with
     | ArrayLiteral es => maxl (map height es)
     | AssocArrayLiteral ps => maxl (map (fun kv => Nat.max (height kv.1) (height kv.2)) ps)
     | IndexExpression a b => Nat.max (height a) (height b)
     | MemberAccessExpression o _ => height o
     | CallExpression c args => Nat.max (height c) (maxl (map height args))
     | UnaryExpression _ r _ => height r
     | BinaryExpression l _ r => Nat.max (height l) (height r)
     | TernaryExpression a b c => Nat.max (height a) (Nat.max (height b) (height c))
     | AssignmentExpression _ _ obj idx v =>
         Nat.max (S (Nat.max (match obj with Some o => height o | None => 0 end)
                             (match idx with Some i => height i | None => 0 end))) (height v)
     | StructLiteralExpression _ fs => maxl (map (fun f => height f.2) fs)
     | _ => 0
     end).

(** The nodes [check_binop_chain] counts. *)
Fixpoint chain (e : Expression) : nat :=
  match e with
  | ArrayLiteral es => suml (map chain es)
  | AssocArrayLiteral ps => suml (map (fun kv => chain kv.1 + chain kv.2) ps)
  | IndexExpression a b => chain a + chain b
  | MemberAccessExpression o _ => chain o
  | CallExpression c args => chain c + suml (map chain args)
  | UnaryExpression _ r _ => chain r
  | BinaryExpression l o r => chain l + (if ((binop o).1 =? 14)%nat then 0 else 1) + chain r
  | TernaryExpression a b c => chain a + chain b + chain c
  | AssignmentExpression _ _ obj idx v =>
      (match obj with Some o => chain o | None => 0 end) +
      (match idx with Some i => chain i | None => 0 end) + chain v
  | StructLiteralExpression _ fs => suml (map (fun f => chain f.2) fs)
  | _ => 0
  end%nat.

Example pr_minimal :
  pr 0 (BinaryExpression (BinaryExpression (NumberLiteral 1) (lit "+") (NumberLiteral 2)) (lit "*")
          (BinaryExpression (NumberLiteral 3) (lit "**") (NumberLiteral 4))) =
  parens ([A_int (lit "1")] ++ op PLUS ++ [A_int (lit "2")]) ++ op STAR ++
  [A_int (lit "3")] ++ op STAR_STAR ++ [A_int (lit "4")].
Proof. reflexivity. Qed.

(** ** The first token of a print *)

Definition starts (t : TokenType) : bool :=
  match t with
  | STRING | NUMBER | TRUE_KW | FALSE_KW | NULL_TOKEN | IOTA | IDENT | LBRACKET | LPAREN
  | BANG | TILDE | MINUS | PLUS_PLUS | MINUS_MINUS => true
  | _ => false
  end.
Definition prefix_op (t : TokenType) : bool :=
  match t with PLUS_PLUS | MINUS_MINUS | BANG | TILDE | MINUS => true | _ => false end.

Definition first_ok (L : nat) (p : list atom) : Prop :=
  exists a r, p = a :: r /\ starts (atom_type a) = true /\
    ((16 <= L)%nat -> prefix_op (atom_type a) = false) /\
    (atom_type a = IDENT -> exists c w, a = A_word (c :: w)).

Lemma first_ok_app L p q : first_ok L p -> first_ok L (p ++ q).
Proof. intros (a & r & -> & H). by exists a, (r ++ q). Qed.
Lemma first_ok_mono L L' p : first_ok L p -> (L' <= L)%nat -> first_ok L' p.
Proof. intros (a & r & -> & H1 & H2 & H3) HL. exists a, r. repeat split; try done. intros. apply H2. lia. Qed.
Lemma first_ok_parens L p : first_ok L (parens p).
Proof. by eexists (A_op LPAREN), _. Qed.
Lemma first_ok_word L w r : ident w = true -> first_ok L (A_word w :: r).
Proof.
  unfold ident. intros [Hs Ht]%andb_true_iff. apply bool_decide_eq_true in Ht.
  exists (A_word w), r. cbn [atom_type]. rewrite Ht. repeat split.
  intros _. destruct w as [|c w]; [done|by eexists _, _].
Qed.

Lemma assoc_find_spec {A} k (l : list (bytes * A)) a : assoc_find k l = Some a -> In (k, a) l.
Proof.
  induction l as [|[k' b] l IH]; simpl; [done|]. destruct (bytes_eqb_spec k k') as [->|]; [|auto].
  intros [= ->]. by left.
Qed.

Ltac split_wf := repeat match goal with
  | H : (_ && _)%bool = true |- _ => apply andb_true_iff in H as [? ?]
  end.

Lemma pr_first_ok n e L : (height e <= n)%nat -> wf e = true -> first_ok L (pr L e).
Proof.
  revert e L. induction n as [|n IH]; intros e L Hh Hw; [destruct e; simpl in Hh; lia|].
  destruct e; cbn [pr elevel]; (case_if; [apply first_ok_parens|]); cbn [wf] in Hw;
    cbn [height] in Hh; try discriminate Hw; bool_to_prop.
  all: try (by eexists _, _).
  all: try (by apply first_ok_word).
  - match goal with b : bool |- _ => destruct b end; by eexists _, _.
  - apply first_ok_app. apply (first_ok_mono 17); [|lia]. apply IH; [lia|done].
  - match goal with b : bool |- _ => destruct b end; bool_to_prop.
    + destruct (assoc_find op0 unops) as [t|] eqn:E; [|done]. exists (A_op (unop op0)). eexists.
      split; [reflexivity|]. cbn [atom_type]. unfold unop. rewrite E. apply assoc_find_spec in E.
      simpl in E. destruct_or? E; simplify_eq; (split; [done|split; [lia|done]]).
    + apply first_ok_app. apply (first_ok_mono 17); [|lia]. apply IH; [lia|done].
  - destruct (assoc_find op0 binops) as [[K t]|] eqn:E; [|done]. unfold binop in *. rewrite E in *.
    cbn [default from_option id fst] in *. bool_to_prop.
    assert (HL : (L <= 14)%nat)
      by (apply assoc_find_spec in E; simpl in E; destruct_or? E; simplify_eq; lia).
    destruct (K =? 14)%nat; apply first_ok_app.
    + apply (first_ok_mono 15); [|lia]. apply IH; [lia|done].
    + apply (first_ok_mono K); [|lia]. apply IH; [lia|done].
  - destruct object as [ob|], index as [ix|]; bool_to_prop; try discriminate.
    + apply first_ok_app. apply (first_ok_mono 17); [|lia]. apply IH; [lia|done].
    + by apply first_ok_word.
    + by apply first_ok_word.
  - apply first_ok_app. eapply first_ok_mono; [apply IH; [lia|done]|]. case_match; lia.
  - apply first_ok_app. apply (first_ok_mono 2); [|lia]. apply IH; [lia|done].
  - apply first_ok_app. apply (first_ok_mono 17); [|lia]. apply IH; [lia|done].
  - unfold bare in *. bool_to_prop. by apply first_ok_word.
Qed.

(** ** Running the parser on a list of views *)

Section Run.
Context (tokens_ : list Token).

Abbreviation match_' := (match_ tokens_).
Definition vw (s : PState) : list token_view := map view (drop (current s) tokens_).
Definition ty (v : token_view) : TokenType := v.1.1.1.

(** [n] tokens and [k] binary operators further. *)
Definition st (s : PState) (n k : nat) : PState :=
  MkP (current s + n) (scope_depth s) (expr_depth s) (stmt_depth s) (binop_depth s + Z.of_nat k).

Lemma st_st s a b c d : st (st s a b) c d = st s (a + c) (b + d).
Proof. unfold st. simpl. f_equal; lia. Qed.
Lemma st_0 s : st s 0 0 = s.
Proof. destruct s. unfold st. simpl. f_equal; lia. Qed.
Lemma st_eq s a b c d : a = c -> b = d -> st s a b = st s c d.
Proof. by intros -> ->. Qed.

Lemma bind_ok {A B} (p : P A) (f : A -> P B) s a s' : p s = POk a s' -> bind p f s = f a s'.
Proof. unfold bind. by intros ->. Qed.

Lemma vw_st s l r n k : vw s = l ++ r -> n = length l -> vw (st s n k) = r.
Proof.
  unfold vw. intros H ->. simpl. rewrite <- drop_drop, <- skipn_map, H. apply drop_app_length.
Qed.

Lemma lookup_vw s k : view <$> tokens_ !! (current s + k)%nat = vw s !! k.
Proof. unfold vw. by rewrite list_lookup_fmap, lookup_drop. Qed.

Lemma peek_vw s v r : vw s = v :: r -> view (peek tokens_ s) = v.
Proof.
  intros H. pose proof (lookup_vw s 0) as Hl. rewrite H, Nat.add_0_r in Hl. unfold peek.
  simpl in Hl. destruct (tokens_ !! current s); simpl in *; congruence.
Qed.

Lemma check_vw s v r t : vw s = v :: r -> t <> EOF_TOKEN -> check tokens_ t s = bool_decide (ty v = t).
Proof.
  intros H Ht. pose proof (peek_vw _ _ _ H) as Hp. unfold check, is_at_end.
  assert (E : type (peek tokens_ s) = ty v) by by rewrite <- Hp. rewrite E.
  destruct (decide (ty v = t)) as [->|Hne].
  - rewrite (bool_decide_eq_false_2 (t = EOF_TOKEN)) by done. done.
  - rewrite (bool_decide_eq_false_2 (ty v = t)) by done. apply andb_false_r.
Qed.

Lemma advance_vw s v r : vw s = v :: r -> ty v <> EOF_TOKEN ->
  exists t, advance tokens_ s = POk t (st s 1 0) /\ view t = v.
Proof.
  intros H Hne. pose proof (peek_vw _ _ _ H) as Hp. exists (peek tokens_ s). split; [|done].
  assert (E : type (peek tokens_ s) = ty v) by by rewrite <- Hp.
  unfold advance, is_at_end. rewrite E, bool_decide_eq_false_2 by done.
  assert (Hst : set_current s (S (current s)) = st s 1 0)
    by (unfold set_current, st; f_equal; lia).
  rewrite Hst. f_equal. unfold previous, peek. simpl. do 2 f_equal. lia.
Qed.

Lemma match_yes s v r t : vw s = v :: r -> ty v = t -> t <> EOF_TOKEN ->
  match_ tokens_ t s = POk true (st s 1 0).
Proof.
  intros H Hv Ht. unfold match_. rewrite (check_vw _ _ _ _ H Ht), bool_decide_eq_true_2 by done.
  destruct (advance_vw s v r H ltac:(congruence)) as (tok & E & _). by rewrite (bind_ok _ _ _ _ _ E).
Qed.

Lemma match_no s v r t : vw s = v :: r -> ty v <> t -> t <> EOF_TOKEN -> match_ tokens_ t s = POk false s.
Proof.
  intros H Hv Ht. unfold match_. by rewrite (check_vw _ _ _ _ H Ht), bool_decide_eq_false_2.
Qed.

Lemma consume_yes s v r t msg : vw s = v :: r -> ty v = t -> t <> EOF_TOKEN ->
  exists tok, consume tokens_ t msg s = POk tok (st s 1 0) /\ view tok = v.
Proof.
  intros H Hv Ht. unfold consume. rewrite (check_vw _ _ _ _ H Ht), bool_decide_eq_true_2 by done.
  apply (advance_vw s v r H). congruence.
Qed.

Lemma prev_vw s v r k : vw s = v :: r -> exists t, prev tokens_ (st s 1 k) = POk t (st s 1 k) /\ view t = v.
Proof.
  intros H. exists (peek tokens_ s). split; [|by eapply peek_vw]. unfold prev. f_equal.
  unfold previous, peek. simpl. do 2 f_equal. lia.
Qed.

Lemma match_any_no s v r ts : vw s = v :: r -> Forall (fun t => t <> EOF_TOKEN) ts -> ty v ∉ ts ->
  match_any tokens_ ts s = POk false s.
Proof.
  intros H Hts Hv. induction Hts as [|t ts Ht _ IH]; [done|].
  apply not_elem_of_cons in Hv as [Hv1 Hv2]. cbn [match_any].
  rewrite (bind_ok _ _ _ _ _ (match_no s v r t H Hv1 Ht)). by apply IH.
Qed.

Lemma match_any_yes s v r ts : vw s = v :: r -> Forall (fun t => t <> EOF_TOKEN) ts -> ty v ∈ ts ->
  match_any tokens_ ts s = POk true (st s 1 0).
Proof.
  intros H Hts Hv. induction Hts as [|t ts Ht _ IH]; [by apply elem_of_nil in Hv|].
  cbn [match_any]. destruct (decide (ty v = t)) as [E|E].
  - by rewrite (bind_ok _ _ _ _ _ (match_yes s v r t H E Ht)).
  - rewrite (bind_ok _ _ _ _ _ (match_no s v r t H E Ht)). apply IH.
    apply elem_of_cons in Hv as [?|?]; [done|done].
Qed.

(** ** Levels *)

Section Levels.
Context (rec : Rec).

Definition lev (L : nat) : P Expression :=
  match L with
  | 0%nat => assignment tokens_ rec | 1%nat => ternary tokens_ rec
  | 2%nat => null_coalescing tokens_ rec | 3%nat => logical_or tokens_ rec
  | 4%nat => logical_and tokens_ rec | 5%nat => bitwise_or tokens_ rec
  | 6%nat => bitwise_xor tokens_ rec | 7%nat => bitwise_and tokens_ rec
  | 8%nat => equality tokens_ rec | 9%nat => comparison tokens_ rec
  | 10%nat => shift tokens_ rec | 11%nat => concatenation tokens_ rec
  | 12%nat => addition tokens_ rec | 13%nat => multiplication tokens_ rec
  | 14%nat => power tokens_ rec | 15%nat => unary tokens_ rec
  | 16%nat => postfix tokens_ rec | 17%nat => call tokens_ rec
  | _ => primary tokens_ rec
  end.
End Levels.

(** The tokens that continue an expression at each level. *)
Definition lops (L : nat) : list TokenType :=
  match L with
  | 0%nat => assign_ops | 1%nat => [QUESTION] | 2%nat => [QUESTION_QUESTION] | 3%nat => [PIPE_PIPE]
  | 4%nat => [AMP_AMP] | 5%nat => [PIPE] | 6%nat => [CARET] | 7%nat => [AMP]
  | 8%nat => [EQUAL_EQUAL; BANG_EQUAL]
  | 9%nat => [SPACESHIP; GREATER; GREATER_EQUAL; LESS; LESS_EQUAL]
  | 10%nat => [LESS_LESS; GREATER_GREATER] | 11%nat => [DOT] | 12%nat => [PLUS; MINUS]
  | 13%nat => [STAR; SLASH; PERCENT] | 14%nat => [STAR_STAR] | 15%nat => []
  | 16%nat => [PLUS_PLUS; MINUS_MINUS] | 17%nat => [LPAREN; LBRACKET]
  | _ => [COLON_COLON; LBRACE]
  end.

Definition lop (L : nat) : option bytes :=
  match L with
  | 2%nat => Some (lit "??") | 3%nat => Some (lit "||") | 4%nat => Some (lit "&&")
  | 5%nat => Some (lit "|") | 6%nat => Some (lit "^") | 7%nat => Some (lit "&")
  | 11%nat => Some (lit ".") | _ => None
  end.

Lemma lev_binary rec L : (2 <= L <= 13)%nat ->
  lev rec L = binary tokens_ (lops L) (lop L) (lev rec (S L)).
Proof. intros H. do 14 (destruct L as [|L]; [try done; exfalso; lia|]). exfalso. lia. Qed.

Definition member_ok (r : list token_view) : bool :=
  match r with
  | v :: w :: _ => negb (bool_decide (ty v = DOT) && bool_decide (ty w = IDENT) &&
                         match w.1.1.2 with c :: _ => negb (c =c "$") | [] => false end)
  | _ => true
  end.

(** What may follow an expression of level [L]. *)
Definition stops (L : nat) (r : list token_view) : Prop :=
  exists v r', r = v :: r' /\ (forall L', (L <= L' <= 18)%nat -> ty v ∉ lops L') /\
               ((L <= 17)%nat -> member_ok r = true).

Lemma stops_mono L L' r : (L <= L')%nat -> stops L r -> stops L' r.
Proof.
  intros H (v & r' & -> & Hv & Hm). exists v, r'. split; [done|]. split.
  - intros K HK. apply Hv. lia.
  - intros ?. apply Hm. lia.
Qed.

Lemma stops_not L r v r' : stops L r -> r = v :: r' -> (L <= 18)%nat -> ty v ∉ lops L.
Proof. intros (w & r2 & -> & Hv & _) [= -> ->] HL. apply Hv. lia. Qed.

Lemma lops_no_eof L : Forall (fun t => t <> EOF_TOKEN) (lops L).
Proof. do 18 (destruct L as [|L]; [repeat constructor; discriminate|]). repeat constructor; discriminate. Qed.

(** ** What a method must do on a print *)

Definition parses {A} (m : nat) (p : P A) (e : A) (az : list atom) (d : Z) (c : nat)
    (ok : list token_view -> Prop) : Prop :=
  forall s rest, vw s = map atom_view az ++ rest -> ok rest ->
    (length (vw s) <= m)%nat -> 1 <= expr_depth s -> expr_depth s + d <= MAX_EXPR_DEPTH ->
    binop_depth s + Z.of_nat c <= MAX_BINOP_CHAIN ->
    p s = POk e (st s (length az) c).

Lemma parses_weaken {A} m (p : P A) e az d d' c ok (ok' : list token_view -> Prop) :
  parses m p e az d c ok -> d <= d' -> (forall r, ok' r -> ok r) -> parses m p e az d' c ok'.
Proof. intros H Hd Hok s rest Hv Hr Hm H1 H2 H3. eapply H; try done; [by apply Hok|lia]. Qed.

Lemma vw_after s az rest k : vw s = map atom_view az ++ rest -> vw (st s (length az) k) = rest.
Proof. intros H. eapply vw_st; [exact H|]. by rewrite length_map. Qed.

Lemma guarded_ok {A} (p : P A) s a n k :
  expr_depth s + 1 <= MAX_EXPR_DEPTH ->
  p (set_expr s (expr_depth s + 1)) = POk a (st (set_expr s (expr_depth s + 1)) n k) ->
  guarded tokens_ p s = POk a (st s n k).
Proof.
  intros Hd Hp. unfold guarded. rewrite (proj2 (Z.ltb_ge _ _)) by (simpl; lia).
  rewrite (bind_ok _ _ _ _ _ Hp). unfold st, set_expr. simpl. do 2 f_equal. lia.
Qed.

Lemma vw_set_expr s d : vw (set_expr s d) = vw s.
Proof. done. Qed.

(** ** From a level to the ones below *)

Definition no_prefix (az : list atom) : Prop :=
  exists a r, az = a :: r /\ prefix_op (atom_type a) = false.

Lemma binary_stop L next s e s' :
  (2 <= L <= 13)%nat -> next s = POk e s' -> stops L (vw s') ->
  binary tokens_ (lops L) (lop L) next s = POk e s'.
Proof.
  intros HL Hn Hs. unfold binary. rewrite (bind_ok _ _ _ _ _ Hn). unfold fuel.
  cbn [binary_loop]. pose proof Hs as (v & r & Hv & _).
  rewrite (bind_ok _ _ _ _ _ (match_any_no s' v r (lops L) Hv (lops_no_eof L)
    (stops_not _ _ _ _ Hs Hv ltac:(lia)))). done.
Qed.

Lemma stops_ty L r v r' t : stops L r -> r = v :: r' -> (L <= 18)%nat -> t ∈ lops L -> ty v <> t.
Proof. intros H E HL Ht <-. by apply (stops_not _ _ _ _ H E HL). Qed.

(** Membership in the token list of a level. *)
Ltac in_ops := apply list_elem_of_In; simpl; tauto.

Lemma no_member_access s e v r : vw s = v :: r -> member_ok (v :: r) = true ->
  is_member_access tokens_ e s = false.
Proof.
  intros Hv Hm. unfold is_member_access. rewrite (check_vw _ _ _ DOT Hv) by done.
  pose proof (lookup_vw s 1) as H1. rewrite Hv in H1. cbn [lookup list_lookup] in H1.
  unfold member_ok in Hm. destruct r as [|w r].
  - destruct (tokens_ !! (current s + 1)%nat); [done|]. cbn. by rewrite andb_false_r.
  - apply negb_true_iff in Hm. destruct (tokens_ !! (current s + 1)%nat) as [t|]; [|done].
    simpl in H1. injection H1 as Ht. unfold ty in *. rewrite <- Ht in Hm. cbn in Hm.
    rewrite andb_assoc in Hm || idtac. rewrite <- !andb_assoc in Hm |- *.
    apply andb_false_iff in Hm as [-> | Hm]; [done|].
    apply andb_false_iff in Hm as [-> | ->]; [by rewrite andb_false_r|].
    by rewrite !andb_false_r || rewrite ?andb_false_r; rewrite ?andb_false_l, ?andb_false_r.
Qed.

Lemma call_loop_stop rec n e s : (0 < n)%nat -> stops 17 (vw s) ->
  call_loop tokens_ rec n e s = POk e s.
Proof.
  intros Hn Hs. destruct n as [|n]; [lia|]. pose proof Hs as (v & r & Hv & Hno & Hm).
  rewrite Hv in Hm. specialize (Hm ltac:(lia)). cbn [call_loop].
  rewrite (bind_ok _ _ _ _ _ (match_no s v r LPAREN Hv
    (stops_ty 17 _ _ _ LPAREN Hs Hv ltac:(lia) ltac:(in_ops)) ltac:(done))).
  rewrite (bind_ok _ _ _ _ _ (match_no s v r LBRACKET Hv
    (stops_ty 17 _ _ _ LBRACKET Hs Hv ltac:(lia) ltac:(in_ops)) ltac:(done))).
  unfold bind at 1. by rewrite (no_member_access s e v r Hv Hm).
Qed.

Lemma postfix_stop rec s e s' : call tokens_ rec s = POk e s' -> stops 16 (vw s') ->
  postfix tokens_ rec s = POk e s'.
Proof.
  intros Hc Hs. unfold postfix. rewrite (bind_ok _ _ _ _ _ Hc). pose proof Hs as (v & r & Hv & _).
  rewrite (bind_ok _ _ _ _ _ (match_no s' v r PLUS_PLUS Hv
    (stops_ty 16 _ _ _ PLUS_PLUS Hs Hv ltac:(lia) ltac:(in_ops)) ltac:(done))).
  by rewrite (bind_ok _ _ _ _ _ (match_no s' v r MINUS_MINUS Hv
    (stops_ty 16 _ _ _ MINUS_MINUS Hs Hv ltac:(lia) ltac:(in_ops)) ltac:(done))).
Qed.

(** [unary] on a token that is no prefix operator. *)
Lemma unary_postfix rec s e n k v r :
  vw s = v :: r -> prefix_op (ty v) = false -> expr_depth s + 1 <= MAX_EXPR_DEPTH ->
  postfix tokens_ rec (set_expr s (expr_depth s + 1)) =
    POk e (st (set_expr s (expr_depth s + 1)) n k) ->
  unary tokens_ rec s = POk e (st s n k).
Proof.
  intros Hv Hp Hd Hpost. unfold unary. apply guarded_ok; [done|].
  set (s1 := set_expr s (expr_depth s + 1)) in *. change (vw s) with (vw s1) in Hv.
  assert (Hn : forall t, prefix_op t = true -> ty v <> t) by (intros t Ht <-; congruence).
  rewrite (bind_ok _ _ _ _ _ (match_no s1 v r PLUS_PLUS Hv (Hn PLUS_PLUS eq_refl) ltac:(done))).
  rewrite (bind_ok _ _ _ _ _ (match_no s1 v r MINUS_MINUS Hv (Hn MINUS_MINUS eq_refl) ltac:(done))).
  rewrite (bind_ok _ _ _ _ _ (match_no s1 v r BANG Hv (Hn BANG eq_refl) ltac:(done))).
  rewrite (bind_ok _ _ _ _ _ (match_no s1 v r TILDE Hv (Hn TILDE eq_refl) ltac:(done))).
  rewrite (bind_ok _ _ _ _ _ (match_no s1 v r MINUS Hv (Hn MINUS eq_refl) ltac:(done))).
  done.
Qed.

Definition guard_cost (L : nat) : Z := if (L =? 14)%nat || (L =? 15)%nat then 1 else 0.

Lemma climb m rec L e az d c :
  (L < 18)%nat -> 0 <= d -> (L = 15%nat -> no_prefix az) ->
  parses m (lev rec (S L)) e az d c (stops (S L)) ->
  parses m (lev rec L) e az (d + guard_cost L) c (stops L).
Proof.
  intros HL Hd0 Hpre Hp s rest Hv Hs Hm H1 H2 H3.
  pose proof (stops_mono L (S L) rest ltac:(lia) Hs) as Hs'.
  assert (Hgc : 0 <= guard_cost L) by (unfold guard_cost; case_if; lia).
  assert (Hat : forall k, vw (st s (length az) k) = rest) by (intros k; by apply vw_after).
  assert (Hgo : forall s1, vw s1 = vw s -> expr_depth s <= expr_depth s1 ->
    expr_depth s1 + d <= MAX_EXPR_DEPTH -> binop_depth s1 = binop_depth s ->
    lev rec (S L) s1 = POk e (st s1 (length az) c)).
  { intros s1 E1 E2 E3 E4. apply (Hp s1 rest); [by rewrite E1|done|by rewrite E1|lia|lia|lia]. }
  pose proof Hs as (v & r & Hr & _).
  assert (Hcase : L = 0%nat \/ L = 1%nat \/ (2 <= L <= 13)%nat \/ L = 14%nat \/ L = 15%nat \/
                  L = 16%nat \/ L = 17%nat) by lia.
  destruct Hcase as [->|[->|[HL2|[->|[->|[->| ->]]]]]].
  - cbn [lev]. unfold assignment. rewrite (bind_ok _ _ _ _ _ (Hgo s eq_refl ltac:(lia) ltac:(lia) eq_refl)).
    rewrite (bind_ok _ _ _ _ _ (match_any_no _ v r assign_ops ltac:(by rewrite Hat)
      (lops_no_eof 0) (stops_not _ _ _ _ Hs Hr ltac:(lia)))). done.
  - cbn [lev]. unfold ternary. rewrite (bind_ok _ _ _ _ _ (Hgo s eq_refl ltac:(lia) ltac:(lia) eq_refl)).
    rewrite (bind_ok _ _ _ _ _ (match_no _ v r QUESTION ltac:(by rewrite Hat)
      (stops_ty 1 _ _ _ QUESTION Hs Hr ltac:(lia) ltac:(in_ops)) ltac:(done))). done.
  - rewrite lev_binary by done. apply binary_stop; [done| |by rewrite Hat].
    apply (Hgo s); done || lia.
  - cbn [lev]. unfold power. unfold guard_cost in *. simpl in *. apply guarded_ok; [lia|].
    rewrite (bind_ok _ _ _ _ _ (Hgo (set_expr s (expr_depth s + 1)) eq_refl ltac:(simpl; lia)
      ltac:(simpl; lia) eq_refl)).
    rewrite (bind_ok _ _ _ _ _ (match_no (st (set_expr s (expr_depth s + 1)) (length az) c) v r STAR_STAR
      (eq_trans (Hat c) Hr)
      (stops_ty 14 _ _ _ STAR_STAR Hs Hr ltac:(lia) ltac:(in_ops)) ltac:(done))). done.
  - cbn [lev]. destruct (Hpre eq_refl) as (a & az' & Haz & Ha). unfold guard_cost in *. simpl in *.
    subst az. eapply unary_postfix; [exact Hv|done|lia|].
    apply Hgo; done || (simpl; lia).
  - cbn [lev]. apply postfix_stop; [|by rewrite Hat]. apply Hgo; done || lia.
  - cbn [lev]. unfold call. rewrite (bind_ok _ _ _ _ _ (Hgo s eq_refl ltac:(lia) ltac:(lia) eq_refl)).
    apply call_loop_stop; [unfold fuel; lia|by rewrite Hat].
Qed.

(** ** Parentheses *)

Lemma r_expression_ok m e az d c ok :
  0 <= d -> parses m (lev (parser_ tokens_ m) 0) e az d c ok ->
  parses m (r_expression (parser_ tokens_ (S m))) e az (d + 1) c ok.
Proof.
  intros Hd Hp s rest Hv Hr Hm H1 H2 H3. cbn [parser_ r_expression]. unfold expression.
  apply guarded_ok; [lia|]. set (s1 := set_expr s (expr_depth s + 1)).
  rewrite (proj2 (Z.eqb_neq _ _)) by (unfold s1; simpl; lia).
  apply (Hp s1 rest); try done; unfold s1; simpl; lia.
Qed.

(** Tokens that close an expression. *)
Definition closer (t : TokenType) : bool :=
  match t with
  | RPAREN | RBRACKET | RBRACE | COMMA | COLON | FAT_ARROW | SEMICOLON | EOF_TOKEN => true
  | _ => false
  end.

Lemma closer_not_lops t L : closer t = true -> t ∉ lops L.
Proof.
  intros Ht Hin. do 18 (destruct L as [|L]; [set_unfold in Hin; destruct_or? Hin; by subst|]).
  set_unfold in Hin. destruct_or? Hin; by subst.
Qed.

Lemma stops_closer L v r : closer (ty v) = true -> stops L (v :: r).
Proof.
  intros Hc. exists v, r. split; [done|]. split; [intros; by apply closer_not_lops|].
  intros _. unfold member_ok. destruct r; [done|].
  rewrite (bool_decide_eq_false_2 (ty v = DOT)); [done|]. by intros E; rewrite E in Hc.
Qed.

(** The dispatch of [primary] on the kind of the next token. *)
Lemma primary_dispatch rec s v r :
  vw s = v :: r ->
  primary tokens_ rec s =
  match ty v with
  | IOTA => POk IotaExpression (st s 1 0)
  | TRUE_KW => POk (BooleanLiteral true) (st s 1 0)
  | FALSE_KW => POk (BooleanLiteral false) (st s 1 0)
  | NULL_TOKEN => POk NullLiteral (st s 1 0)
  | NUMBER => (t <- prev tokens_;; ret (number_literal (literal_of t))) (st s 1 0)
  | STRING => (t <- prev tokens_;; ret (StringLiteral (literal_of t) (raw t))) (st s 1 0)
  | LBRACKET => array_literal tokens_ rec (st s 1 0)
  | IDENT => identifier_expression tokens_ rec (st s 1 0)
  | LPAREN => (e <- r_expression rec;;
               consume tokens_ RPAREN (lit "Expect ')' after expression.") ;;; ret e) (st s 1 0)
  | _ => primary tokens_ rec s
  end.
Proof.
  intros Hv. destruct (ty v) eqn:E; try reflexivity; unfold primary;
    repeat match goal with |- bind (match_ _ ?t) _ _ = _ =>
      first [ rewrite (bind_ok _ _ _ _ _ (match_no s v r t Hv ltac:(rewrite E; discriminate)
                ltac:(discriminate)))
            | rewrite (bind_ok _ _ _ _ _ (match_yes s v r t Hv E ltac:(discriminate))) ]
    end; reflexivity.
Qed.

Lemma vw_1 s v r k : vw s = v :: r -> vw (st s 1 k) = r.
Proof. intros H. by apply (vw_st s [v] r 1). Qed.

Lemma paren_ok m e az d c :
  0 <= d -> parses m (lev (parser_ tokens_ m) 0) e az d c (stops 0) ->
  parses (S m) (primary tokens_ (parser_ tokens_ (S m))) e (parens az) (d + 1) c (fun _ => True).
Proof.
  intros Hd Hp s rest Hv _ Hm H1 H2 H3. unfold parens, op in *. cbn [map app] in Hv.
  rewrite map_app in Hv. cbn [map app] in Hv. rewrite <- app_assoc in Hv. cbn [app] in Hv.
  pose proof (vw_1 _ _ _ 0 Hv) as Hv1. rewrite (primary_dispatch _ _ _ _ Hv). cbn [atom_view ty fst atom_type].
  rewrite Hv in Hm. cbn [length] in Hm.
  rewrite (bind_ok _ _ _ _ _ (r_expression_ok m e az d c _ Hd Hp (st s 1 0) _ Hv1
    (stops_closer 0 (atom_view (A_op RPAREN)) rest eq_refl) ltac:(rewrite Hv1; lia) ltac:(simpl; lia) ltac:(simpl; lia)
    ltac:(simpl; lia))).
  pose proof (vw_after _ _ _ c Hv1) as Hv2.
  destruct (consume_yes _ _ _ RPAREN (lit "Expect ')' after expression.") Hv2 eq_refl ltac:(done))
    as (tok & E & _).
  rewrite (bind_ok _ _ _ _ _ E). unfold ret. f_equal. rewrite !st_st. apply st_eq; [|lia].
  cbn [length app]. rewrite length_app. simpl. lia.
Qed.

(** ** Leaves *)

Lemma view_lexeme t v : view t = v -> lexeme t = v.1.1.2.
Proof. by intros <-. Qed.
Lemma view_literal t v : view t = v -> literal t = v.1.2.
Proof. by intros <-. Qed.
Lemma view_raw t v : view t = v -> raw t = v.2.
Proof. by intros <-. Qed.

Lemma number_literal_decimal v : 0 <= v <= INT64_MAX -> number_literal (decimal v) = NumberLiteral v.
Proof.
  intros Hv. unfold number_literal.
  pose proof (dec_go_digits 20 v [] eq_refl ltac:(lia)) as Hd. fold (decimal v) in Hd.
  assert (Hs : strip_underscores (decimal v) = decimal v).
  { unfold strip_underscores. clear - Hd. induction (decimal v) as [|c s IH]; [done|].
    simpl in Hd. apply andb_true_iff in Hd as [Hc Hd]. rewrite filter_cons_True, IH; [done|done|].
    by intros ->. }
  rewrite Hs, (stoll_decimal v Hv). destruct (decimal v) as [|z [|x [|d s']]]; try done.
  simpl in Hd. apply andb_true_iff in Hd as [_ Hd]. apply andb_true_iff in Hd as [Hx _].
  assert (Hnx : (x =c "x") = false /\ (x =c "X") = false /\ (x =c "b") = false /\ (x =c "B") = false)
    by by apply digit_facts.
  destruct Hnx as (-> & -> & -> & ->). by rewrite !andb_false_r.
Qed.

(** A primary of one token. *)
Lemma primary_one m rec e a :
  (forall s v r, vw s = v :: r -> v = atom_view a -> stops 18 r ->
     primary tokens_ rec s = POk e (st s 1 0)) ->
  parses m (primary tokens_ rec) e [a] 0 0 (stops 18).
Proof. intros H s rest Hv Hr _ _ _ _. by apply (H s (atom_view a) rest). Qed.

Lemma string_ok m rec v : parses m (primary tokens_ rec) (StringLiteral v false) [A_str v] 0 0 (stops 18).
Proof.
  apply primary_one. intros s w r Hv -> _. rewrite (primary_dispatch _ _ _ _ Hv).
  destruct (prev_vw _ _ _ 0 Hv) as (t & Ht & Hvt). cbn [atom_view ty fst atom_type].
  rewrite (bind_ok _ _ _ _ _ Ht). unfold ret, literal_of.
  by rewrite (view_literal _ _ Hvt), (view_raw _ _ Hvt).
Qed.

Lemma number_ok m rec v : 0 <= v <= INT64_MAX ->
  parses m (primary tokens_ rec) (NumberLiteral v) [A_int (decimal v)] 0 0 (stops 18).
Proof.
  intros Hr. apply primary_one. intros s w r Hv -> _. rewrite (primary_dispatch _ _ _ _ Hv).
  destruct (prev_vw _ _ _ 0 Hv) as (t & Ht & Hvt). cbn [atom_view ty fst atom_type].
  rewrite (bind_ok _ _ _ _ _ Ht). unfold ret, literal_of.
  rewrite (view_literal _ _ Hvt). change (default [] _) with (decimal v).
  by rewrite number_literal_decimal.
Qed.

Lemma word_ok m rec e w t :
  ident_type w = t ->
  match t with
  | IOTA => e = IotaExpression | TRUE_KW => e = BooleanLiteral true
  | FALSE_KW => e = BooleanLiteral false | NULL_TOKEN => e = NullLiteral | _ => False
  end ->
  parses m (primary tokens_ rec) e [A_word w] 0 0 (stops 18).
Proof.
  intros Ht He. apply primary_one. intros s v r Hv -> _. rewrite (primary_dispatch _ _ _ _ Hv).
  cbn [atom_view ty fst atom_type]. rewrite Ht. destruct t; try contradiction; by subst.
Qed.

Lemma check_no s v r t : vw s = v :: r -> ty v <> t -> t <> EOF_TOKEN ->
  checks tokens_ t s = POk false s.
Proof. intros H Hv Ht. unfold checks. by rewrite (check_vw _ _ _ _ H Ht), bool_decide_eq_false_2. Qed.

Lemma check_yes s v r t : vw s = v :: r -> ty v = t -> t <> EOF_TOKEN ->
  checks tokens_ t s = POk true s.
Proof. intros H Hv Ht. unfold checks. by rewrite (check_vw _ _ _ _ H Ht), bool_decide_eq_true_2. Qed.

Lemma ident_ty w : ident w = true -> ty (atom_view (A_word w)) = IDENT.
Proof. unfold ident. intros [_ H]%andb_true_iff. by apply bool_decide_eq_true in H. Qed.

Lemma variable_ok m rec w : ident w = true ->
  parses m (primary tokens_ rec) (Variable_ w) [A_word w] 0 0 (stops 18).
Proof.
  intros Hw. apply primary_one. intros s v r Hv -> Hs. rewrite (primary_dispatch _ _ _ _ Hv).
  rewrite (ident_ty w Hw). unfold identifier_expression.
  destruct (prev_vw _ _ _ 0 Hv) as (t & Ht & Hvt). rewrite (bind_ok _ _ _ _ _ Ht).
  pose proof (vw_1 _ _ _ 0 Hv) as Hv1. pose proof Hs as (v2 & r2 & -> & _).
  rewrite (bind_ok _ _ _ _ _ (check_no _ _ _ LBRACE Hv1
    (stops_ty 18 _ _ _ LBRACE Hs eq_refl ltac:(lia) ltac:(in_ops)) ltac:(done))).
  rewrite andb_false_r.
  rewrite (bind_ok _ _ _ _ _ (match_no _ _ _ COLON_COLON Hv1
    (stops_ty 18 _ _ _ COLON_COLON Hs eq_refl ltac:(lia) ltac:(in_ops)) ltac:(done))).
  unfold ret. by rewrite (view_lexeme _ _ Hvt).
Qed.

Lemma scope_ok m rec a b : ident a = true -> ident b = true ->
  parses m (primary tokens_ rec) (ScopeResolution a b) ([A_word a] ++ op COLON_COLON ++ [A_word b])
    0 0 (stops 18).
Proof.
  intros Ha Hb s rest Hv _ _ _ _ _. cbn [op map app] in Hv. rewrite (primary_dispatch _ _ _ _ Hv).
  rewrite (ident_ty a Ha). unfold identifier_expression.
  destruct (prev_vw _ _ _ 0 Hv) as (t & Ht & Hvt). rewrite (bind_ok _ _ _ _ _ Ht).
  pose proof (vw_1 _ _ _ 0 Hv) as Hv1.
  rewrite (bind_ok _ _ _ _ _ (check_no _ _ _ LBRACE Hv1 ltac:(discriminate) ltac:(done))).
  rewrite andb_false_r.
  rewrite (bind_ok _ _ _ _ _ (match_yes _ _ _ COLON_COLON Hv1 eq_refl ltac:(done))).
  pose proof (vw_1 _ _ _ 0 Hv1) as Hv2.
  destruct (consume_yes _ _ _ IDENT (lit "Expect member name after '::'.") Hv2 (ident_ty b Hb)
    ltac:(done)) as (t2 & E & Hvt2).
  rewrite (bind_ok _ _ _ _ _ E). unfold ret. rewrite !st_st.
  by rewrite (view_lexeme _ _ Hvt), (view_lexeme _ _ Hvt2).
Qed.

Lemma vw_st_length s n k : length (vw (st s n k)) = (length (vw s) - n)%nat.
Proof. unfold vw. rewrite !length_map, !length_drop. simpl. lia. Qed.

(** Runs the head of a [bind] with the [parses] fact [H]. *)
Ltac run H Hv Hok :=
  match goal with |- bind ?p ?f ?s = _ =>
    let E := fresh in
    eassert (E : p s = POk _ _);
    [ eapply H; [exact Hv | exact Hok | unfold suml in *; simpl in *; rewrite ?vw_st_length; lia ..] | rewrite (bind_ok _ _ _ _ _ E); clear E ]
  end.

(** ** Lists *)

Lemma commas_cons2 x y l : commas (x :: y :: l) = x ++ A_op COMMA :: commas (y :: l).
Proof. done. Qed.

Definition head_is (t : TokenType) (r : list token_view) : Prop := exists v r', r = v :: r' /\ ty v = t.

Lemma stops_head L t r : head_is t r -> closer t = true -> stops L r.
Proof. intros (v & r' & -> & <-) H. by apply stops_closer. Qed.

Lemma comma_list_ok {A} m (p : P A) (f : A -> list atom) (c : A -> nat) d t (l : list A) :
  l <> [] -> closer t = true -> t <> COMMA ->
  (forall a, a ∈ l -> parses m p a (f a) d (c a) (stops 0)) ->
  forall n m', (m' <= m)%nat -> (m' < n)%nat ->
  parses m' (comma_list tokens_ n p) l (commas (map f l)) d (suml (map c l)) (head_is t).
Proof.
  intros Hne Ht Htc Hl. induction l as [|a l IH]; [done|]. clear Hne.
  intros n m' Hm' Hn s rest Hv Hr Hm H1 H2 H3. destruct n as [|n]; [lia|]. cbn [comma_list].
  pose proof (Hl a ltac:(set_solver)) as Ha. cbn [map suml fold_right] in *.
  destruct l as [|b l].
  - cbn [map commas concat] in *. rewrite app_nil_r in *.
    rewrite (bind_ok _ _ _ _ _ (Ha s rest Hv (stops_head _ _ _ Hr Ht) ltac:(lia) H1 H2 ltac:(lia))).
    pose proof (vw_after _ _ _ (c a) Hv) as Hv1. destruct Hr as (v & r' & -> & Hvt).
    rewrite (bind_ok _ _ _ _ _ (match_no _ _ _ COMMA Hv1 ltac:(congruence) ltac:(done))).
    unfold ret. f_equal. apply st_eq; [done|simpl; lia].
  - cbn [map] in Hv |- *. rewrite commas_cons2 in Hv |- *.
    rewrite map_app, <- app_assoc in Hv. cbn [map app] in Hv.
    rewrite (bind_ok _ _ _ _ _ (Ha s _ Hv (stops_closer 0 (atom_view (A_op COMMA)) _ eq_refl) ltac:(lia) H1 H2 ltac:(lia))).
    pose proof (vw_after _ _ _ (c a) Hv) as Hv1.
    rewrite (bind_ok _ _ _ _ _ (match_yes _ _ _ COMMA Hv1 eq_refl ltac:(done))). cbv iota.
    rewrite st_st. pose proof (vw_1 _ _ _ 0 Hv1) as Hv2. rewrite st_st in Hv2.
    apply (f_equal length) in Hv as Hlen. rewrite length_app in Hlen. cbn [length] in Hlen.
    assert (Hp : (length (vw (st s (length (f a) + 1) (c a + 0))) < length (vw s))%nat)
      by (rewrite Hv2, Hlen; lia).
    assert (IH' := IH ltac:(done) ltac:(intros x Hx; apply Hl; set_solver)).
    assert (H3' : binop_depth (st s (length (f a) + 1) (c a + 0)) +
                  Z.of_nat (suml (map c (b :: l))) <= MAX_BINOP_CHAIN)
      by (cbn [map suml fold_right] in *; simpl in *; lia).
    rewrite (bind_ok _ _ _ _ _ (IH' n (m' - 1)%nat ltac:(lia) ltac:(lia)
      (st s (length (f a) + 1) (c a + 0)) rest Hv2 Hr ltac:(lia) ltac:(simpl; lia) ltac:(simpl; lia)
      H3')).
    unfold ret. f_equal. rewrite st_st. cbn [map commas].
    apply st_eq; [repeat (rewrite length_app; cbn [length]); lia|unfold suml; simpl; lia].
Qed.

(** The continuation of an array: [, item] until the bracket. *)
Definition tail_of (l : list (list atom)) : list atom := concat (map (fun y => A_op COMMA :: y) l).

Lemma commas_tail x l : commas (x :: l) = x ++ tail_of l.
Proof. done. Qed.

Lemma starts_not_closer t : starts t = true -> closer t = false.
Proof. by destruct t. Qed.

Definition item_first (p : list atom) : Prop := exists a r, p = a :: r /\ starts (atom_type a) = true.

Lemma elements_ok m (rec : Rec) (f : Expression -> list atom) (c : Expression -> nat) d l :
  (forall e, e ∈ l -> item_first (f e) /\ parses m (r_expression rec) e (f e) d (c e) (stops 0)) ->
  forall n m', (m' <= m)%nat -> (m' < n)%nat ->
  parses m' (elements_loop tokens_ rec n) l (tail_of (map f l)) d (suml (map c l)) (head_is RBRACKET).
Proof.
  intros Hl. induction l as [|a l IH]; intros n m' Hm' Hn s rest Hv Hr Hm H1 H2 H3;
    (destruct n as [|n]; [lia|]); cbn [elements_loop].
  - destruct Hr as (v & r' & -> & Hvt). cbn [map tail_of concat app] in Hv.
    rewrite (bind_ok _ _ _ _ _ (match_no _ _ _ COMMA Hv ltac:(congruence) ltac:(done))).
    unfold ret. f_equal. symmetry. apply st_0.
  - destruct (Hl a ltac:(set_solver)) as [(x & y & Hxy & Hx) Ha].
    cbn [map suml fold_right] in *. change (tail_of (f a :: map f l)) with
      ((A_op COMMA :: f a) ++ tail_of (map f l)) in *.
    rewrite map_app, <- app_assoc in Hv. cbn [map app] in Hv.
    rewrite (bind_ok _ _ _ _ _ (match_yes _ _ _ COMMA Hv eq_refl ltac:(done))). cbv iota.
    pose proof (vw_1 _ _ _ 0 Hv) as Hv1.
    assert (Hcl : stops 0 (map atom_view (tail_of (map f l)) ++ rest)).
    { destruct l as [|b l]; [by apply (stops_head _ _ _ Hr)|]. by apply stops_closer. }
    assert (Hlen : length (vw s) = S (length (vw (st s 1 0)))) by by rewrite Hv, Hv1.
    assert (Hx' : vw (st s 1 0) = atom_view x :: map atom_view y ++ map atom_view (tail_of (map f l)) ++ rest)
      by (rewrite Hv1, Hxy; done).
    assert (Hnb : atom_type x <> RBRACKET) by (intros E; by rewrite E in Hx).
    rewrite (bind_ok _ _ _ _ _ (check_no _ _ _ RBRACKET Hx' Hnb ltac:(done))). cbv iota.
    run Ha Hv1 Hcl.
    pose proof (vw_after _ _ _ (c a) Hv1) as Hv2.
    apply (f_equal length) in Hv1 as Hlen1. rewrite length_app, length_map in Hlen1.
    rewrite <- Hv2 in Hlen1. rewrite st_st in *.
    assert (IH' := IH ltac:(intros z Hz; apply Hl; set_solver) n (m' - 1)%nat ltac:(lia) ltac:(lia)).
    run IH' Hv2 Hr.
    unfold ret. f_equal. rewrite st_st. apply st_eq; [rewrite length_app; cbn [length]; lia|unfold suml; lia].
Qed.

(** [key => value] *)
Definition pair_print (f : Expression -> list atom) (kv : Expression * Expression) : list atom :=
  f kv.1 ++ op FAT_ARROW ++ f kv.2.

Lemma consume_ok s v r t msg : vw s = v :: r -> ty v = t -> t <> EOF_TOKEN ->
  exists tok, view tok = v /\ forall B (f : Token -> P B), bind (consume tokens_ t msg) f s = f tok (st s 1 0).
Proof.
  intros H1 H2 H3. destruct (consume_yes s v r t msg H1 H2 H3) as (tok & E & Hv).
  exists tok. split; [done|]. intros B f. by apply bind_ok.
Qed.

Lemma pairs_ok m (rec : Rec) (f : Expression -> list atom) (c : Expression -> nat) d l :
  (forall kv, kv ∈ l -> item_first (f kv.1) /\
     parses m (r_expression rec) kv.1 (f kv.1) d (c kv.1) (stops 0) /\
     parses m (r_expression rec) kv.2 (f kv.2) d (c kv.2) (stops 0)) ->
  forall n m', (m' <= m)%nat -> (m' < n)%nat ->
  parses m' (pairs_loop tokens_ rec n) l (tail_of (map (pair_print f) l)) d
    (suml (map (fun kv => c kv.1 + c kv.2) l)%nat) (head_is RBRACKET).
Proof.
  intros Hl. induction l as [|a l IH]; intros n m' Hm' Hn s rest Hv Hr Hm H1 H2 H3;
    (destruct n as [|n]; [lia|]); cbn [pairs_loop].
  - destruct Hr as (v & r' & -> & Hvt). cbn [map tail_of concat app] in Hv.
    rewrite (bind_ok _ _ _ _ _ (match_no _ _ _ COMMA Hv ltac:(congruence) ltac:(done))).
    unfold ret. f_equal. symmetry. apply st_0.
  - destruct (Hl a ltac:(set_solver)) as ((x & y & Hxy & Hx) & Hk & Hval).
    cbn [map suml fold_right] in *. change (tail_of (pair_print f a :: map (pair_print f) l)) with
      ((A_op COMMA :: f a.1 ++ op FAT_ARROW ++ f a.2) ++ tail_of (map (pair_print f) l)) in *.
    rewrite map_app, <- app_assoc in Hv. cbn [map app] in Hv. rewrite !map_app, <- !app_assoc in Hv.
    rewrite (bind_ok _ _ _ _ _ (match_yes _ _ _ COMMA Hv eq_refl ltac:(done))). cbv iota.
    pose proof (vw_1 _ _ _ 0 Hv) as Hv1.
    assert (Hcl : stops 0 (map atom_view (tail_of (map (pair_print f) l)) ++ rest)).
    { destruct l as [|b l]; [by apply (stops_head _ _ _ Hr)|]. by apply stops_closer. }
    assert (Hlen : length (vw s) = S (length (vw (st s 1 0)))) by by rewrite Hv, Hv1.
    assert (Hx' : exists z, vw (st s 1 0) = atom_view x :: z) by (rewrite Hv1, Hxy; by eexists).
    destruct Hx' as [z Hx'].
    assert (Hnb : atom_type x <> RBRACKET) by (intros E; by rewrite E in Hx).
    rewrite (bind_ok _ _ _ _ _ (check_no _ _ _ RBRACKET Hx' Hnb ltac:(done))). cbv iota.
    rewrite (bind_ok _ _ _ _ _ (Hk _ _ Hv1 (stops_closer 0 (atom_view (A_op FAT_ARROW)) _ eq_refl)
      ltac:(lia) ltac:(simpl; lia) ltac:(simpl; lia) ltac:(simpl; lia))).
    pose proof (vw_after _ _ _ (c a.1) Hv1) as Hv2. rewrite st_st in *.
    destruct (consume_ok _ _ _ FAT_ARROW (lit "Expect '=>' in associative array.") Hv2 eq_refl ltac:(done))
      as (tok & _ & ->).
    pose proof (vw_1 _ _ _ 0 Hv2) as Hv3. rewrite st_st in *.
    apply (f_equal length) in Hv1 as Hlen1. rewrite length_app, length_map in Hlen1.
    rewrite <- Hv2 in Hlen1.
    assert (Hlen2 := f_equal length Hv2). cbn [op map app length] in Hlen2. rewrite <- Hv3 in Hlen2.
    run Hval Hv3 Hcl.
    pose proof (vw_after _ _ _ (c a.2) Hv3) as Hv4. rewrite st_st in *.
    apply (f_equal length) in Hv3 as Hlen3. rewrite length_app, length_map, <- Hv4 in Hlen3.
    assert (IH' := IH ltac:(intros w Hw; apply Hl; set_solver) n (m' - 1)%nat ltac:(lia) ltac:(lia)).
    run IH' Hv4 Hr.
    unfold ret. destruct a as [k v]. f_equal. rewrite st_st.
    apply st_eq; [cbn [length app op]; rewrite !length_app; cbn [length op fst snd]; lia|unfold suml; simpl; lia].
Qed.


(** Tokens at the head of the input: [yes Hv] runs the test or the [consume]
    that the next token passes, [no Hv] the one it does not. *)
Ltac solve_ty := solve [reflexivity | discriminate | assumption | congruence | by apply ident_ty].
Ltac yes Hv Hv' :=
  match goal with
  | |- bind (match_ _ ?t) _ _ = _ =>
      rewrite (bind_ok _ _ _ _ _ (match_yes _ _ _ t Hv ltac:(solve_ty) ltac:(discriminate))); cbv iota
  | |- bind (consume _ ?t ?msg) _ _ = _ =>
      let k := fresh "tok" in let Hk := fresh "Htok" in
      destruct (consume_ok _ _ _ t msg Hv ltac:(solve_ty) ltac:(discriminate)) as (k & Hk & ->)
  end;
  pose proof (vw_1 _ _ _ 0 Hv) as Hv'; rewrite ?st_st in Hv' |- *.
Ltac no Hv :=
  match goal with
  | |- bind (match_ _ ?t) _ _ = _ =>
      rewrite (bind_ok _ _ _ _ _ (match_no _ _ _ t Hv ltac:(solve_ty) ltac:(discriminate))); cbv iota
  | |- bind (checks _ ?t) _ _ = _ =>
      rewrite (bind_ok _ _ _ _ _ (check_no _ _ _ t Hv ltac:(solve_ty) ltac:(discriminate))); cbv iota
  | |- bind (match_any _ ?ts) _ _ = _ =>
      rewrite (bind_ok _ _ _ _ _ (match_any_no _ _ _ ts Hv ltac:(repeat constructor; discriminate)
        ltac:(solve_ty))); cbv iota
  end.

Lemma at_end_no s v r : vw s = v :: r -> ty v <> EOF_TOKEN -> at_end tokens_ s = POk false s.
Proof.
  intros H Hv. pose proof (peek_vw _ _ _ H) as Hp. unfold at_end, is_at_end.
  assert (E : type (peek tokens_ s) = ty v) by by rewrite <- Hp.
  by rewrite E, bool_decide_eq_false_2.
Qed.

Lemma vw_length s : (length (vw s) < fuel tokens_)%nat.
Proof. unfold vw, fuel. rewrite length_map, length_drop. lia. Qed.

(** [name : value] *)
Definition field_print (f : Expression -> list atom) (x : bytes * Expression) : list atom :=
  [A_word x.1] ++ op COLON ++ f x.2.

Lemma fields_ok m (rec : Rec) (f : Expression -> list atom) (c : Expression -> nat) d l :
  (forall x, x ∈ l -> ident x.1 = true /\ parses m (r_expression rec) x.2 (f x.2) d (c x.2) (stops 0)) ->
  forall n m', (m' <= m)%nat -> (m' < n)%nat ->
  parses m' (fields_loop tokens_ rec n) l (commas (map (field_print f) l)) d
    (suml (map (fun x => c x.2) l)) (head_is RBRACE).
Proof.
  intros Hl. induction l as [|a l IH]; intros n m' Hm' Hn s rest Hv Hr Hm H1 H2 H3;
    (destruct n as [|n]; [lia|]); cbn [fields_loop].
  - destruct Hr as (v & r' & -> & Hvt). cbn [map commas app] in Hv.
    rewrite (bind_ok _ _ _ _ _ (check_yes _ _ _ RBRACE Hv Hvt ltac:(done))).
    rewrite (bind_ok _ _ _ _ _ (at_end_no _ _ _ Hv ltac:(congruence))). cbn [orb].
    unfold ret. f_equal. symmetry. apply st_0.
  - destruct (Hl a ltac:(set_solver)) as [Hi Ha]. destruct a as [w e]. cbn [fst snd] in *.
    assert (Hsp : exists tl, commas (map (field_print f) ((w, e) :: l)) =
      A_word w :: A_op COLON :: f e ++ tl /\
      ((l = [] /\ tl = []) \/ (l <> [] /\ tl = A_op COMMA :: commas (map (field_print f) l)))).
    { cbn [map]. unfold field_print at 1. cbn [fst snd]. destruct l as [|b l].
      - exists []. split; [|by left]. by cbn.
      - exists (A_op COMMA :: commas (map (field_print f) (b :: l))). split; [|by right].
        cbn [map]. by rewrite commas_cons2. }
    destruct Hsp as (tl & Etl & Htl). rewrite Etl in *. cbn [map app] in Hv.
    rewrite map_app, <- app_assoc in Hv. pose proof (ident_ty w Hi) as Hiw.
    rewrite (bind_ok _ _ _ _ _ (check_no _ _ _ RBRACE Hv ltac:(congruence) ltac:(done))).
    rewrite (bind_ok _ _ _ _ _ (at_end_no _ _ _ Hv ltac:(congruence))). cbn [orb].
    yes Hv Hv1. yes Hv1 Hv2.
    assert (Hcl : stops 0 (map atom_view tl ++ rest)).
    { destruct Htl as [[-> ->]|[_ ->]]; [by apply (stops_head _ _ _ Hr)|by apply stops_closer]. }
    assert (Hl1 := f_equal length Hv). cbn [length] in Hl1.
    run Ha Hv2 Hcl. pose proof (vw_after _ _ _ (c e) Hv2) as Hv3. rewrite st_st in *.
    assert (IH' := IH ltac:(intros z Hz; apply Hl; set_solver) n (m' - 1)%nat ltac:(lia) ltac:(lia)).
    destruct Htl as [[-> ->]|[Hne ->]].
    + destruct Hr as (v & r' & -> & Hvt). no Hv3.
      assert (Hr : head_is RBRACE (v :: r')) by by exists v, r'.
      run IH' Hv3 Hr. unfold ret. rewrite (view_lexeme _ _ Htok).
      f_equal. rewrite st_st. apply st_eq; [cbn [length]; rewrite length_app; simpl; lia|unfold suml; simpl; lia].
    + yes Hv3 Hv4. run IH' Hv4 Hr. unfold ret. rewrite (view_lexeme _ _ Htok).
      f_equal. rewrite st_st. apply st_eq; [cbn [length]; rewrite length_app; simpl; lia|unfold suml; simpl; lia].
Qed.

Lemma parses_0 {A} (p : P A) e az d c ok : az <> [] -> parses 0 p e az d c ok.
Proof. intros Hne s rest Hv _ Hm. rewrite Hv, length_app, length_map in Hm. destruct az; simpl in *; [done|lia]. Qed.

Section Composite.
Context (m : nat) (rec : Rec) (f : Expression -> list atom) (c : Expression -> nat) (d : Z).

(** An operand behind [expression]. *)
Definition operand (e : Expression) : Prop :=
  item_first (f e) /\ parses m (r_expression rec) e (f e) d (c e) (stops 0).

Lemma empty_array_ok :
  parses (S m) (primary tokens_ rec) (ArrayLiteral []) (op LBRACKET ++ op RBRACKET) d 0 (fun _ => True).
Proof.
  intros s rest Hv _ Hm H1 H2 H3. cbn [op app map] in Hv. rewrite (primary_dispatch _ _ _ _ Hv).
  cbn [atom_view ty fst atom_type]. pose proof (vw_1 _ _ _ 0 Hv) as Hv1. unfold array_literal.
  rewrite (bind_ok _ _ _ _ _ (check_yes _ _ _ RBRACKET Hv1 eq_refl ltac:(done))).
  destruct (advance_vw _ _ _ Hv1 ltac:(discriminate)) as (t & E & _).
  rewrite (bind_ok _ _ _ _ _ E). unfold ret. by rewrite st_st.
Qed.

Lemma array_ok e l : operand e -> (forall x, x ∈ l -> operand x) ->
  parses (S m) (primary tokens_ rec) (ArrayLiteral (e :: l))
    (op LBRACKET ++ commas (map f (e :: l)) ++ op RBRACKET) d (suml (map c (e :: l))) (fun _ => True).
Proof.
  intros [(x & y & Hxy & Hx) He] Hl s rest Hv _ Hm H1 H2 H3. cbn [map] in Hv |- *. rewrite commas_tail in *.
  rewrite !map_app, <- !app_assoc in Hv. cbn [op app map] in Hv.
  rewrite (primary_dispatch _ _ _ _ Hv).
  cbn [atom_view ty fst atom_type]. pose proof (vw_1 _ _ _ 0 Hv) as Hv1. unfold array_literal.
  assert (Hx' : exists z, vw (st s 1 0) = atom_view x :: z) by (rewrite Hv1, Hxy; by eexists).
  destruct Hx' as [z Hx'].
  assert (Hnb : atom_type x <> RBRACKET) by (intros E; by rewrite E in Hx).
  no Hx'.
  assert (Hcl : exists w r, map atom_view (tail_of (map f l)) ++ atom_view (A_op RBRACKET) :: rest = w :: r /\
                            (ty w = RBRACKET \/ ty w = COMMA)).
  { destruct l as [|b l]; [by eexists _, _; split; [reflexivity|left]|].
    by eexists _, _; split; [reflexivity|right]. }
  destruct Hcl as (w & r & Hwr & Hw). rewrite Hwr in *.
  assert (Hst : stops 0 (w :: r)) by (apply stops_closer; by destruct Hw as [-> | ->]).
  run He Hv1 Hst. pose proof (vw_after _ _ _ (c e) Hv1) as Hv2. rewrite st_st in *.
  assert (Hnf : ty w <> FAT_ARROW) by (destruct Hw as [-> | ->]; discriminate).
  no Hv2. rewrite <- Hwr in Hv2.
  assert (Hlp := elements_ok m rec f c d l Hl (fuel tokens_) (length (vw (st s (1 + length (f e)) (0 + c e))))
    ltac:(rewrite vw_st_length; lia) ltac:(apply vw_length)).
  assert (Hh : head_is RBRACKET (atom_view (A_op RBRACKET) :: rest)) by by eexists _, _.
  run Hlp Hv2 Hh. pose proof (vw_after _ _ _ (suml (map c l)) Hv2) as Hv3. rewrite st_st in *.
  yes Hv3 Hv4. unfold ret. f_equal.
  apply st_eq; [unfold op; cbn [app length]; repeat (rewrite length_app; cbn [app length]); lia|unfold suml; simpl; lia].
Qed.

Lemma assoc_ok k v l : operand k -> operand v ->
  (forall kv, kv ∈ l -> operand kv.1 /\ operand kv.2) ->
  parses (S m) (primary tokens_ rec) (AssocArrayLiteral ((k, v) :: l))
    (op LBRACKET ++ commas (map (pair_print f) ((k, v) :: l)) ++ op RBRACKET) d
    (suml (map (fun kv => c kv.1 + c kv.2)%nat ((k, v) :: l))) (fun _ => True).
Proof.
  intros [(x & y & Hxy & Hx) Hk] [_ Hval] Hl s rest Hv _ Hm H1 H2 H3. cbn [map] in Hv |- *.
  rewrite commas_tail in *. change (pair_print f (k, v)) with (f k ++ op FAT_ARROW ++ f v) in *.
  rewrite !map_app, <- !app_assoc in Hv. cbn [op app map] in Hv.
  rewrite (primary_dispatch _ _ _ _ Hv).
  cbn [atom_view ty fst atom_type]. pose proof (vw_1 _ _ _ 0 Hv) as Hv1. unfold array_literal.
  assert (Hx' : exists z, vw (st s 1 0) = atom_view x :: z) by (rewrite Hv1, Hxy; by eexists).
  destruct Hx' as [z Hx'].
  assert (Hnb : atom_type x <> RBRACKET) by (intros E; by rewrite E in Hx).
  no Hx'.
  assert (Hfa : stops 0 (atom_view (A_op FAT_ARROW) :: map atom_view (f v) ++
    map atom_view (tail_of (map (pair_print f) l)) ++ atom_view (A_op RBRACKET) :: rest))
    by by apply stops_closer.
  run Hk Hv1 Hfa. pose proof (vw_after _ _ _ (c k) Hv1) as Hv2. rewrite st_st in *.
  yes Hv2 Hv3.
  assert (Hst : stops 0 (map atom_view (tail_of (map (pair_print f) l)) ++ atom_view (A_op RBRACKET) :: rest))
    by (destruct l as [|b l]; by apply stops_closer).
  cbn [map suml fold_right fst snd] in *.
  run Hval Hv3 Hst. pose proof (vw_after _ _ _ (c v) Hv3) as Hv4. rewrite st_st in *.
  match type of Hv4 with vw ?s1 = _ => set (s1' := s1) in * end.
  assert (Hlp := pairs_ok m rec f c d l
    ltac:(intros kv Hkv; destruct (Hl kv Hkv) as [[? ?] [? ?]]; done) (fuel tokens_) (length (vw s1'))
    ltac:(unfold s1'; rewrite vw_st_length; lia) ltac:(apply vw_length)).
  assert (Hh : head_is RBRACKET (atom_view (A_op RBRACKET) :: rest)) by by eexists _, _.
  run Hlp Hv4 Hh. pose proof (vw_after _ _ _ (suml (map (fun kv => c kv.1 + c kv.2)%nat l)) Hv4) as Hv5.
  yes Hv5 Hv6. unfold ret. f_equal. unfold s1'. rewrite !st_st.
  apply st_eq; [unfold op; cbn [app length]; repeat (rewrite length_app; cbn [app length]); lia|unfold suml; simpl; lia].
Qed.

Lemma struct_ok name l : bare name = true ->
  (forall x, x ∈ l -> ident x.1 = true /\ parses m (r_expression rec) x.2 (f x.2) d (c x.2) (stops 0)) ->
  parses (S m) (primary tokens_ rec) (StructLiteralExpression name l)
    ([A_word name] ++ op LBRACE ++ commas (map (field_print f) l) ++ op RBRACE) d
    (suml (map (fun x => c x.2) l)) (fun _ => True).
Proof.
  intros Hb Hl s rest Hv _ Hm H1 H2 H3.
  rewrite !map_app, <- !app_assoc in Hv. cbn [op app map] in Hv. rewrite (primary_dispatch _ _ _ _ Hv).
  unfold bare in Hb. apply andb_true_iff in Hb as [Hi Hb].
  rewrite (ident_ty name Hi). unfold identifier_expression.
  destruct (prev_vw _ _ _ 0 Hv) as (t & Ht & Hvt). rewrite (bind_ok _ _ _ _ _ Ht).
  pose proof (vw_1 _ _ _ 0 Hv) as Hv1.
  rewrite (bind_ok _ _ _ _ _ (check_yes _ _ _ LBRACE Hv1 eq_refl ltac:(done))).
  rewrite (view_lexeme _ _ Hvt). change ((atom_view (A_word name)).1.1.2) with name.
  assert (Hd' : negb (match name with c0 :: _ => c0 =c "$" | [] => false end) && true = true)
    by (destruct name; [done|by rewrite Hb]).
  rewrite Hd'. destruct (advance_vw _ _ _ Hv1 ltac:(discriminate)) as (t2 & E & _).
  rewrite (bind_ok _ _ _ _ _ E). pose proof (vw_1 _ _ _ 0 Hv1) as Hv2. rewrite st_st in *.
  assert (Hlp := fields_ok m rec f c d l Hl (fuel tokens_) (length (vw (st s (1 + 1) (0 + 0))))
    ltac:(rewrite vw_st_length; lia) ltac:(apply vw_length)).
  assert (Hh : head_is RBRACE (atom_view (A_op RBRACE) :: rest)) by by eexists _, _.
  run Hlp Hv2 Hh. pose proof (vw_after _ _ _ (suml (map (fun x => c x.2) l)) Hv2) as Hv3.
  yes Hv3 Hv4. unfold ret. f_equal.
  apply st_eq; [unfold op; cbn [app length]; repeat (rewrite length_app; cbn [app length]); lia|unfold suml; simpl; lia].
Qed.

(** The arguments of a call, up to the parenthesis. *)
Lemma arguments_ok l : (forall x, x ∈ l -> operand x) ->
  parses m (argument_list tokens_ rec) l (commas (map f l)) d (suml (map c l)) (head_is RPAREN).
Proof.
  intros Hl s rest Hv Hr Hm H1 H2 H3. unfold argument_list. destruct l as [|a l].
  - destruct Hr as (v & r & -> & Hvt). cbn [map commas app] in Hv.
    rewrite (bind_ok _ _ _ _ _ (check_yes _ _ _ RPAREN Hv Hvt ltac:(done))).
    unfold ret. f_equal. symmetry. apply st_0.
  - destruct (Hl a ltac:(set_solver)) as [(x & y & Hxy & Hx) _].
    assert (Hx' : exists z, vw s = atom_view x :: z).
    { rewrite Hv. cbn [map]. rewrite commas_tail, Hxy. by eexists. }
    destruct Hx' as [z Hx']. assert (Hnb : atom_type x <> RPAREN).
    { (* an operand may start with a parenthesis, never with the closing one *)
      intros E. by rewrite E in Hx. }
    no Hx'. apply (comma_list_ok m (r_expression rec) f c d RPAREN (a :: l) ltac:(done) eq_refl ltac:(done)
      ltac:(intros w Hw; by apply Hl) (fuel tokens_) (length (vw s)) Hm (vw_length s) s rest Hv Hr);
      (lia || done).
Qed.
End Composite.

Lemma parses_le {A} m m' (p : P A) e az d c ok : parses m p e az d c ok -> (m' <= m)%nat ->
  parses m' p e az d c ok.
Proof. intros H Hm s rest Hv Hok Hl. apply (H s rest Hv Hok). lia. Qed.

(** The depth spent between two levels. *)
Definition guards (L K : nat) : Z :=
  (if (L <=? 14)%nat && (14 <? K)%nat then 1 else 0) + (if (L <=? 15)%nat && (15 <? K)%nat then 1 else 0).

Lemma guards_S L K : (L < K)%nat -> guards L K = guards (S L) K + guard_cost L.
Proof.
  intros H. unfold guards, guard_cost.
  destruct (Nat.leb_spec L 14), (Nat.leb_spec L 15), (Nat.leb_spec (S L) 14), (Nat.leb_spec (S L) 15),
    (Nat.ltb_spec 14 K), (Nat.ltb_spec 15 K), (Nat.eqb_spec L 14), (Nat.eqb_spec L 15); simpl; lia.
Qed.
Lemma guards_le L K : 0 <= guards L K <= 2.
Proof. unfold guards. repeat case_match; lia. Qed.

Lemma climb_all m rec e az d c K L :
  (L <= K <= 18)%nat -> 0 <= d -> ((16 <= K)%nat -> no_prefix az) ->
  parses m (lev rec K) e az d c (stops K) ->
  parses m (lev rec L) e az (d + guards L K) c (stops L).
Proof.
  intros HL Hd Hpre Hp. remember (K - L)%nat as k eqn:Ek. revert L HL Ek.
  induction k as [|k IH]; intros L HL Ek.
  - replace L with K by lia. eapply parses_weaken; [exact Hp| |done]. unfold guards.
    repeat case_match; bool_to_prop; lia.
  - assert (HK := IH (S L) ltac:(lia) ltac:(lia)).
    eapply parses_weaken; [apply (climb m rec L e az (d + guards (S L) K) c)| |done].
    + lia.
    + pose proof (guards_le (S L) K). lia.
    + intros ->. apply Hpre. lia.
    + exact HK.
    + rewrite (guards_S L K) by lia. lia.
Qed.

(** ** The suffixes of a call *)

Definition follow (e : Expression) (r : list token_view) : Prop :=
  stops 18 r /\ (is_member e = true -> forall v r', r = v :: r' -> ty v <> LPAREN).

Lemma stops_18 v r : ty v <> COLON_COLON -> ty v <> LBRACE -> stops 18 (v :: r).
Proof.
  intros H1 H2. exists v, r. split; [done|]. split; [|lia]. intros L HL.
  replace L with 18%nat by lia. set_unfold. intros [?|[?|[]]]; done.
Qed.

Ltac len_in H := repeat (progress (rewrite ?length_app, ?length_map in H; cbn [app length] in H)).
Ltac len := unfold op; repeat (progress (rewrite ?length_app, ?length_map; cbn [app length])); lia.

Section Spine.
Context (m : nat) (rec : Rec).

Definition spine (e : Expression) (az : list atom) (d : Z) (c : nat) (ok : list token_view -> Prop) : Prop :=
  forall s rest n, vw s = map atom_view az ++ rest -> ok rest ->
    (length (vw s) <= S m)%nat -> 1 <= expr_depth s -> expr_depth s + d <= MAX_EXPR_DEPTH ->
    binop_depth s + Z.of_nat c <= MAX_BINOP_CHAIN -> (length az < n)%nat ->
    exists n', (n <= n' + length az)%nat /\
      bind (primary tokens_ rec) (call_loop tokens_ rec n) s =
      call_loop tokens_ rec n' e (st s (length az) c).

Lemma spine_primary e az d c ok : parses (S m) (primary tokens_ rec) e az d c ok -> spine e az d c ok.
Proof.
  intros Hp s rest n Hv Hr Hm H1 H2 H3 Hn. exists n. split; [lia|].
  by rewrite (bind_ok _ _ _ _ _ (Hp s rest Hv Hr Hm H1 H2 H3)).
Qed.

Lemma spine_call e az d c : spine e az d c (stops 17) ->
  parses (S m) (call tokens_ rec) e az d c (stops 17).
Proof.
  intros Hsp s rest Hv Hr Hm H1 H2 H3.
  assert (Hlen : (length az < fuel tokens_)%nat).
  { pose proof (vw_length s) as Hl. rewrite Hv, length_app, length_map in Hl. lia. }
  destruct (Hsp s rest _ Hv Hr Hm H1 H2 H3 Hlen) as (n' & Hn' & E).
  unfold call. etrans; [exact E|]. apply call_loop_stop; [lia|by rewrite (vw_after _ _ _ c Hv)].
Qed.

(** The head of the call is not empty, so the suffix has fewer tokens. *)
Lemma spine_step e az d c (ok : list token_view -> Prop) s tl n :
  spine e az d c ok -> az <> [] -> vw s = map atom_view az ++ tl -> ok tl ->
  (length (vw s) <= S m)%nat -> 1 <= expr_depth s -> expr_depth s + d <= MAX_EXPR_DEPTH ->
  binop_depth s + Z.of_nat c <= MAX_BINOP_CHAIN -> (length az < n)%nat ->
  exists n', (n <= S n' + length az)%nat /\
    vw (st s (length az) c) = tl /\ (length tl <= m)%nat /\
    bind (primary tokens_ rec) (call_loop tokens_ rec n) s =
    call_loop tokens_ rec (S n') e (st s (length az) c).
Proof.
  intros Hsp Hne Hv Hf Hm H1 H2 H3 Hn.
  destruct (Hsp s tl n Hv Hf Hm H1 H2 H3 Hn) as (n' & Hn' & E).
  destruct n' as [|n']; [lia|]. exists n'. split; [lia|]. split; [by apply vw_after|]. split; [|done].
  rewrite Hv, length_app, length_map in Hm. destruct az; [done|]. simpl in Hm. lia.
Qed.

Lemma spine_index o i az azi d c ci :
  spine o az d c (follow o) -> az <> [] ->
  parses m (r_expression rec) i azi d ci (stops 0) ->
  spine (IndexExpression o i) (az ++ op LBRACKET ++ azi ++ op RBRACKET) d (c + ci) (fun _ => True).
Proof.
  intros Ho Hne Hi s rest n Hv Hr Hm H1 H2 H3 Hn. unfold op in *.
  rewrite map_app, <- app_assoc in Hv. cbn [map app] in Hv. rewrite map_app, <- app_assoc in Hv.
  cbn [map app] in Hv. len_in Hn.
  destruct (spine_step o az d c _ s _ n Ho Hne Hv) as (n' & Hn' & Hv1 & Hl1 & ->); try lia.
  { split; [by apply stops_18|]. by intros _ v r' [= <- _]. }
  exists n'. len_in Hl1.
  split; [len|]. cbn [call_loop].
  no Hv1. yes Hv1 Hv2.
  assert (Hst : stops 0 (atom_view (A_op RBRACKET) :: rest)) by by apply stops_closer.
  assert (Hl2 := f_equal length Hv2). len_in Hl2.
  run Hi Hv2 Hst. pose proof (vw_after _ _ _ ci Hv2) as Hv3. yes Hv3 Hv4.
  f_equal. apply st_eq; [len|lia].
Qed.

Lemma spine_member o f az d c :
  spine o az d c (follow o) -> az <> [] -> container o = true -> bare f = true ->
  spine (MemberAccessExpression o f) (az ++ op DOT ++ [A_word f]) d c
    (fun r => stops 18 r /\ forall v r', r = v :: r' -> ty v <> LPAREN).
Proof.
  intros Ho Hne Hc Hf s rest n Hv [Hr Hnp] Hm H1 H2 H3 Hn. unfold op in *.
  unfold bare in Hf. apply andb_true_iff in Hf as [Hi Hf].
  rewrite map_app, <- app_assoc in Hv. cbn [map app] in Hv. len_in Hn.
  destruct (spine_step o az d c _ s _ n Ho Hne Hv) as (n' & Hn' & Hv1 & Hl1 & ->); try lia.
  { split; [by apply stops_18|]. by intros _ v r' [= <- _]. }
  exists n'. split; [len|]. cbn [call_loop].
  no Hv1. no Hv1.
  assert (Hma : is_member_access tokens_ o (st s (length az) c) = true).
  { unfold is_member_access. rewrite (check_vw _ _ _ DOT Hv1) by done. rewrite Hc.
    pose proof (lookup_vw (st s (length az) c) 1) as L1. rewrite Hv1 in L1.
    pose proof (lookup_vw (st s (length az) c) 2) as L2. rewrite Hv1 in L2.
    cbn [lookup list_lookup] in L1, L2.
    destruct (tokens_ !! (current (st s (length az) c) + 1)%nat) as [t1|]; [|done].
    apply (inj Some) in L1. pose proof (ident_ty f Hi) as Hti.
    assert (E1 : type t1 = IDENT) by exact (eq_trans (f_equal ty L1) Hti).
    assert (E2 : lexeme t1 = f) by (apply view_lexeme in L1; exact L1).
    rewrite E1, E2. assert (Hf' : match f with c0 :: _ => negb (c0 =c "$") | [] => false end = true) by exact Hf.
    rewrite Hf'. cbn [andb ty fst atom_view atom_type].
    destruct (tokens_ !! (current (st s (length az) c) + 2)%nat) as [t2|]; [|done].
    pose proof Hr as (v & r' & -> & Hnot & _). cbn [lookup list_lookup] in L2.
    apply (inj Some) in L2.
    assert (E3 : type t2 = ty v) by exact (f_equal ty L2). rewrite E3.
    rewrite (bool_decide_eq_false_2 (ty v = LPAREN)) by by eapply Hnp.
    rewrite (bool_decide_eq_false_2 (ty v = COLON_COLON)); [done|].
    intros E. apply (Hnot 18%nat); [lia|]. rewrite E. in_ops. }
  unfold bind at 1. rewrite Hma.
  destruct (advance_vw _ _ _ Hv1 ltac:(discriminate)) as (t & E & _). rewrite (bind_ok _ _ _ _ _ E).
  pose proof (vw_1 _ _ _ 0 Hv1) as Hv2. rewrite ?st_st in *. pose proof (ident_ty f Hi) as Hti.
  yes Hv2 Hv3. rewrite (view_lexeme _ _ Htok). f_equal. apply st_eq; [len|lia].
Qed.

Lemma spine_finish o l f cc az d c (ok : list token_view -> Prop) :
  spine o az d c ok -> (forall r, ok (atom_view (A_op LPAREN) :: r)) -> az <> [] ->
  (forall x, x ∈ l -> operand m rec f cc d x) ->
  spine (CallExpression o l) (az ++ op LPAREN ++ commas (map f l) ++ op RPAREN) d
    (c + suml (map cc l)) (fun _ => True).
Proof.
  intros Ho Hnm Hne Hl s rest n Hv Hr Hm H1 H2 H3 Hn. unfold op in *.
  rewrite map_app, <- app_assoc in Hv. cbn [map app] in Hv. rewrite map_app, <- app_assoc in Hv.
  cbn [map app] in Hv. len_in Hn.
  destruct (spine_step o az d c _ s _ n Ho Hne Hv) as (n' & Hn' & Hv1 & Hl1 & ->); try lia.
  { apply Hnm. }
  exists n'. len_in Hl1.
  split; [len|]. cbn [call_loop].
  yes Hv1 Hv2.
  assert (Hl2 := f_equal length Hv2). len_in Hl2.
  assert (Hst : head_is RPAREN (atom_view (A_op RPAREN) :: rest)) by by eexists _, _.
  assert (Ha := arguments_ok m rec f cc d l Hl).
  match goal with |- bind (finish_call _ _ _) _ ?s1 = _ => set (s1' := s1) in * end.
  assert (E : finish_call tokens_ rec o s1' =
    POk (CallExpression o l) (st s1' (length (commas (map f l)) + 1) (suml (map cc l)))).
  { unfold finish_call, s1' in *. run Ha Hv2 Hst.
    pose proof (vw_after _ _ _ (suml (map cc l)) Hv2) as Hv3. yes Hv3 Hv4. unfold ret. f_equal. rewrite !st_st.
    apply st_eq; lia. }
  rewrite (bind_ok _ _ _ _ _ E). unfold s1'. rewrite st_st. f_equal. apply st_eq; [len|lia].
Qed.
End Spine.

(** ** The binary levels *)

Lemma binop_in o L t : assoc_find o binops = Some (L, t) -> In (o, (L, t)) binops.
Proof. apply assoc_find_spec. Qed.

Lemma binop_level o L t : assoc_find o binops = Some (L, t) -> (L <> 14)%nat ->
  (2 <= L <= 13)%nat /\ t ∈ lops L /\ (forall K, (L < K <= 18)%nat -> t ∉ lops K) /\
  (match lop L with Some w => w | None => (atom_view (A_op t)).1.1.2 end = o) /\ (t = DOT -> L = 11%nat) /\
  t <> EOF_TOKEN.
Proof.
  intros H HL. apply binop_in in H. cbn in H. destruct_or? H; simplify_eq; (split; [lia|]);
    (split; [in_ops|]); (split; [|done]); intros K HK Hin; (assert (HK' : (K <= 18)%nat) by lia);
    do 19 (destruct K as [|K]; [cbn in Hin; set_unfold in Hin; destruct_or? Hin; (done || lia)|]); lia.
Qed.

Lemma stops_op L t tl : (forall K, (L <= K <= 18)%nat -> t ∉ lops K) ->
  (t = DOT -> exists a r, tl = atom_view a :: r /\ bare_word [a] = false /\ atom_type a <> EOF_TOKEN /\
     (atom_type a = IDENT -> exists c w, a = A_word (c :: w))) ->
  stops L (atom_view (A_op t) :: tl).
Proof.
  intros Ht Hd. eexists _, _. split; [done|]. split; [exact Ht|]. intros _. unfold member_ok.
  destruct tl as [|w tl]; [done|]. cbn [ty fst atom_view atom_type].
  destruct (decide (t = DOT)) as [E|E]; [|by rewrite bool_decide_eq_false_2].
  destruct (Hd E) as (a & r & [= -> ->] & Hb & _ & Hi). rewrite (bool_decide_eq_true_2 (t = DOT)) by done.
  destruct (decide (ty (atom_view a) = IDENT)) as [Ei|Ei]; [|by rewrite (bool_decide_eq_false_2 _ Ei)].
  destruct (Hi Ei) as (c & w & ->). cbn in Hb |- *. apply negb_false_iff in Hb. rewrite Hb.
  by rewrite andb_false_r.
Qed.

Section Binary.
Context (m : nat) (rec : Rec) (L : nat) (HL : (2 <= L <= 13)%nat).

Definition bspine (e : Expression) (az : list atom) (d : Z) (c : nat) : Prop :=
  forall s rest n, vw s = map atom_view az ++ rest -> stops (S L) rest ->
    (length (vw s) <= S m)%nat -> 1 <= expr_depth s -> expr_depth s + d <= MAX_EXPR_DEPTH ->
    binop_depth s + Z.of_nat c <= MAX_BINOP_CHAIN -> (length az < n)%nat ->
    exists n', (n <= n' + length az)%nat /\
      bind (lev rec (S L)) (binary_loop tokens_ n (lops L) (lop L) (lev rec (S L))) s =
      binary_loop tokens_ n' (lops L) (lop L) (lev rec (S L)) e (st s (length az) c).

Lemma bspine_next e az d c : parses (S m) (lev rec (S L)) e az d c (stops (S L)) -> bspine e az d c.
Proof.
  intros Hp s rest n Hv Hr Hm H1 H2 H3 Hn. exists n. split; [lia|].
  by rewrite (bind_ok _ _ _ _ _ (Hp s rest Hv Hr Hm H1 H2 H3)).
Qed.

Lemma bspine_level e az d c : bspine e az d c -> parses (S m) (lev rec L) e az d c (stops L).
Proof.
  intros Hsp s rest Hv Hr Hm H1 H2 H3.
  assert (Hlen : (length az < fuel tokens_)%nat).
  { pose proof (vw_length s) as Hl. rewrite Hv, length_app, length_map in Hl. lia. }
  destruct (Hsp s rest _ Hv (stops_mono L (S L) _ ltac:(lia) Hr) Hm H1 H2 H3 Hlen) as (n' & Hn' & E).
  rewrite lev_binary by done. unfold binary. etrans; [exact E|]. destruct n' as [|n']; [lia|].
  cbn [binary_loop]. pose proof Hr as (v & r & -> & _).
  pose proof (vw_after _ _ _ c Hv) as Hv1.
  by rewrite (bind_ok _ _ _ _ _ (match_any_no _ v r (lops L) Hv1 (lops_no_eof L)
    (stops_not _ _ _ _ Hr eq_refl ltac:(lia)))).
Qed.

Lemma check_chain_ok s : binop_depth s + 1 <= MAX_BINOP_CHAIN ->
  check_binop_chain tokens_ s = POk tt (st s 0 1).
Proof.
  intros H. unfold check_binop_chain. rewrite (proj2 (Z.ltb_ge _ _)) by (simpl; lia).
  unfold set_binop, st. f_equal. f_equal. lia.
Qed.

Lemma bspine_step l o r t az azr d c cr :
  assoc_find o binops = Some (L, t) -> bspine l az d c -> az <> [] ->
  (t = DOT -> exists a q, azr = a :: q /\ bare_word [a] = false /\ atom_type a <> EOF_TOKEN /\
     (atom_type a = IDENT -> exists c w, a = A_word (c :: w))) ->
  parses m (lev rec (S L)) r azr d cr (stops (S L)) ->
  bspine (BinaryExpression l o r) (az ++ op t ++ azr) d (c + 1 + cr).
Proof.
  intros Ho Hl Hne Hd Hr s rest n Hv Hrest Hm H1 H2 H3 Hn. unfold op in *.
  destruct (binop_level _ _ _ Ho ltac:(lia)) as (_ & Hin & Hout & Hop & _ & Hneof).
  rewrite map_app, <- app_assoc in Hv. cbn [map app] in Hv. len_in Hn.
  destruct (Hl s _ n Hv) as (n' & Hn' & E); try lia.
  { apply stops_op; [intros K HK; apply Hout; lia|]. intros Et. destruct (Hd Et) as (a & q & -> & Hq).
    exists a, (map atom_view q ++ rest). split; [done|exact Hq]. }
  rewrite E. destruct n' as [|n']; [lia|]. exists n'. split; [len|]. cbn [binary_loop].
  pose proof (vw_after _ _ _ c Hv) as Hv1.
  rewrite (bind_ok _ _ _ _ _ (match_any_yes _ _ _ (lops L) Hv1 (lops_no_eof L) Hin)). cbv iota.
  rewrite (bind_ok _ _ _ _ _ (check_chain_ok (st (st s (length az) c) 1 0) ltac:(simpl; lia))).
  rewrite (st_st _ 1 0 0 1). destruct (prev_vw _ _ _ (0 + 1) Hv1) as (tok & Et & Htok).
  rewrite (bind_ok _ _ _ _ _ (Et : prev tokens_ (st (st s (length az) c) (1 + 0) (0 + 1)) = _)).
  pose proof (vw_1 _ _ _ (0 + 1) Hv1) as Hv2. rewrite !st_st in *.
  assert (Hl1 := f_equal length Hv). len_in Hl1. assert (Haz : (1 <= length az)%nat) by (destruct az; simpl; [done|lia]).
  run Hr Hv2 Hrest. rewrite (view_lexeme _ _ Htok), Hop. f_equal. rewrite st_st.
  apply st_eq; [len|lia].
Qed.
End Binary.

(** ** Unary operators, [**], the conditional, assignments *)

Lemma prefix_incr_ok m rec o r az d c :
  0 <= d -> incr o = true -> parses m (primary tokens_ rec) r az d c (stops 18) ->
  parses (S m) (unary tokens_ rec) (UnaryExpression o r true) (op (unop o) ++ az) (d + 1) c (stops 15).
Proof.
  intros Hd Ho Hp s rest Hv Hr Hm H1 H2 H3. cbn [op app map] in Hv. unfold unary. apply guarded_ok; [lia|].
  set (s1 := set_expr s (expr_depth s + 1)). change (vw s) with (vw s1) in Hv, Hm.
  pose proof (stops_mono 15 18 _ ltac:(lia) Hr) as Hr'.
  assert (Hl := f_equal length Hv). len_in Hl.
  assert (H1' : 1 <= expr_depth s1) by (simpl; lia).
  assert (H2' : expr_depth s1 + d <= MAX_EXPR_DEPTH) by (simpl; lia).
  assert (H3' : binop_depth s1 + Z.of_nat c <= MAX_BINOP_CHAIN) by (simpl; lia).
  clearbody s1. unfold incr in Ho. apply orb_true_iff in Ho as [Ho|Ho]; bool_to_prop; subst o.
  - change (unop (lit "++")) with PLUS_PLUS in *. yes Hv Hv1.
    run Hp Hv1 Hr'. unfold ret. f_equal. rewrite st_st. apply st_eq; [len|lia].
  - change (unop (lit "--")) with MINUS_MINUS in *. no Hv. yes Hv Hv1.
    run Hp Hv1 Hr'. unfold ret. f_equal. rewrite st_st. apply st_eq; [len|lia].
Qed.

Lemma prefix_ok m rec o r az d c :
  0 <= d -> assoc_find o unops <> None -> incr o = false -> parses m (r_unary rec) r az d c (stops 15) ->
  parses (S m) (unary tokens_ rec) (UnaryExpression o r true) (op (unop o) ++ az) (d + 1) c (stops 15).
Proof.
  intros Hd Ho Hi Hp s rest Hv Hr Hm H1 H2 H3. cbn [op app map] in Hv. unfold unary. apply guarded_ok; [lia|].
  set (s1 := set_expr s (expr_depth s + 1)). change (vw s) with (vw s1) in Hv, Hm.
  assert (Hl := f_equal length Hv). len_in Hl.
  assert (H1' : 1 <= expr_depth s1) by (simpl; lia).
  assert (H2' : expr_depth s1 + d <= MAX_EXPR_DEPTH) by (simpl; lia).
  assert (H3' : binop_depth s1 + Z.of_nat c <= MAX_BINOP_CHAIN) by (simpl; lia).
  clearbody s1. destruct (assoc_find o unops) as [t|] eqn:E; [|done].
  assert (Et : unop o = t) by (unfold unop; by rewrite E). rewrite Et in *.
  apply assoc_find_spec in E. cbn in E. destruct_or? E; simplify_eq; try discriminate Hi;
    repeat (no Hv); yes Hv Hv1; run Hp Hv1 Hr; unfold ret; f_equal; rewrite st_st; (apply st_eq; [len|lia]).
Qed.

Lemma postfix_ok m rec o r az d c :
  incr o = true -> parses m (call tokens_ rec) r az d c (stops 17) ->
  parses m (postfix tokens_ rec) (UnaryExpression o r false) (az ++ op (unop o)) d c (stops 16).
Proof.
  intros Ho Hp s rest Hv Hr Hm H1 H2 H3. rewrite map_app, <- app_assoc in Hv. cbn [op app map] in Hv.
  unfold postfix.
  unfold incr in Ho. apply orb_true_iff in Ho as [Ho|Ho]; bool_to_prop; subst o.
  - change (unop (lit "++")) with PLUS_PLUS in *.
    assert (Hst : stops 17 (atom_view (A_op PLUS_PLUS) :: rest)).
    { apply stops_op; [|done]. intros K HK Hin.
      assert (E : K = 17%nat \/ K = 18%nat) by lia. destruct E as [-> | ->]; cbn in Hin; set_solver. }
    run Hp Hv Hst. pose proof (vw_after _ _ _ c Hv) as Hv1. yes Hv1 Hv2. unfold ret. f_equal.
    apply st_eq; [len|lia].
  - change (unop (lit "--")) with MINUS_MINUS in *.
    assert (Hst : stops 17 (atom_view (A_op MINUS_MINUS) :: rest)).
    { apply stops_op; [|done]. intros K HK Hin.
      assert (E : K = 17%nat \/ K = 18%nat) by lia. destruct E as [-> | ->]; cbn in Hin; set_solver. }
    run Hp Hv Hst. pose proof (vw_after _ _ _ c Hv) as Hv1. no Hv1. yes Hv1 Hv2. unfold ret. f_equal.
    apply st_eq; [len|lia].
Qed.

(** Levels above [K] do not go on with [t]. *)
Ltac not_above K := 
  let L := fresh "L" in let HL := fresh in let Hin := fresh in
  intros L HL Hin; do 19 (destruct L as [|L]; [try (exfalso; lia); cbn in Hin; set_unfold in Hin; destruct_or? Hin; done|]); lia.

Lemma power_ok m rec l r az azr d c cr :
  0 <= d -> az <> [] -> parses (S m) (unary tokens_ rec) l az d c (stops 15) ->
  parses m (r_power rec) r azr d cr (stops 14) ->
  parses (S m) (power tokens_ rec) (BinaryExpression l (lit "**") r) (az ++ op STAR_STAR ++ azr) (d + 1)
    (c + cr) (stops 14).
Proof.
  intros Hd Hne Hl Hp s rest Hv Hr Hm H1 H2 H3. rewrite map_app, <- app_assoc in Hv. cbn [op app map] in Hv.
  unfold power. apply guarded_ok; [lia|].
  set (s1 := set_expr s (expr_depth s + 1)). change (vw s) with (vw s1) in Hv, Hm.
  assert (Hln := f_equal length Hv). len_in Hln.
  assert (H1' : 1 <= expr_depth s1) by (simpl; lia).
  assert (H2' : expr_depth s1 + d <= MAX_EXPR_DEPTH) by (simpl; lia).
  assert (H3' : binop_depth s1 + Z.of_nat (c + cr) <= MAX_BINOP_CHAIN) by (simpl; lia).
  clearbody s1.
  assert (Hst : stops 15 (atom_view (A_op STAR_STAR) :: map atom_view azr ++ rest)).
  { apply stops_op; [|done]. not_above 15%nat. }
  run Hl Hv Hst. pose proof (vw_after _ _ _ c Hv) as Hv1. yes Hv1 Hv2.
  assert (Haz : (1 <= length az)%nat) by (destruct az; simpl; [done|lia]).
  run Hp Hv2 Hr. unfold ret. f_equal. rewrite st_st. apply st_eq; [len|lia].
Qed.

Lemma ternary_ok m rec a b e aza azb aze d ca cb ce :
  aza <> [] -> parses (S m) (null_coalescing tokens_ rec) a aza d ca (stops 2) ->
  parses m (r_ternary rec) b azb d cb (stops 1) ->
  parses m (r_ternary rec) e aze d ce (stops 1) ->
  parses (S m) (ternary tokens_ rec) (TernaryExpression a b e)
    (aza ++ op QUESTION ++ azb ++ op COLON ++ aze) d (ca + cb + ce) (stops 1).
Proof.
  intros Hne Ha Hb He s rest Hv Hr Hm H1 H2 H3. unfold op in *. rewrite map_app, <- app_assoc in Hv.
  cbn [app map] in Hv. rewrite map_app, <- app_assoc in Hv. cbn [app map] in Hv. unfold ternary.
  assert (Hst : stops 2 (atom_view (A_op QUESTION) :: map atom_view azb ++
    atom_view (A_op COLON) :: map atom_view aze ++ rest)).
  { apply stops_op; [|done]. not_above 2%nat. }
  assert (Hln := f_equal length Hv). len_in Hln.
  assert (Haz : (1 <= length aza)%nat) by (destruct aza; simpl; [done|lia]).
  run Ha Hv Hst. pose proof (vw_after _ _ _ ca Hv) as Hv1. yes Hv1 Hv2.
  assert (Hst2 : stops 1 (atom_view (A_op COLON) :: map atom_view aze ++ rest)) by by apply stops_closer.
  run Hb Hv2 Hst2. pose proof (vw_after _ _ _ cb Hv2) as Hv3. rewrite st_st in *. yes Hv3 Hv4.
  run He Hv4 Hr. unfold ret. f_equal. rewrite st_st. apply st_eq; [len|lia].
Qed.

Lemma assignop_in o : assoc_find o assignops <> None ->
  assignop o ∈ assign_ops /\ (atom_view (A_op (assignop o))).1.1.2 = o /\
  (forall L tl, (1 <= L)%nat -> stops L (atom_view (A_op (assignop o)) :: tl)).
Proof.
  intros H. destruct (assoc_find o assignops) as [t|] eqn:E; [|done].
  assert (Et : assignop o = t) by (unfold assignop; by rewrite E). rewrite Et.
  apply assoc_find_spec in E. cbn in E.
  destruct_or? E; simplify_eq; (split; [in_ops|]); (split; [done|]); intros L tl HL;
    (apply (stops_mono 1); [done|]); (apply stops_op; [not_above 1%nat|done]).
Qed.

Lemma assignment_ok m rec t o v e azt azv d ct cv :
  azt <> [] -> assoc_find o assignops <> None -> assign_to t o v = Some e ->
  parses (S m) (ternary tokens_ rec) t azt d ct (stops 1) ->
  parses m (r_assignment rec) v azv d cv (stops 0) ->
  parses (S m) (assignment tokens_ rec) e (azt ++ op (assignop o) ++ azv) d (ct + cv) (stops 0).
Proof.
  intros Hne Ho He Ht Hval s rest Hv Hr Hm H1 H2 H3. unfold op in *. rewrite map_app, <- app_assoc in Hv.
  cbn [app map] in Hv. destruct (assignop_in o Ho) as (Hin & Hop & Hst). unfold assignment.
  assert (Hln := f_equal length Hv). len_in Hln.
  assert (Haz : (1 <= length azt)%nat) by (destruct azt; simpl; [done|lia]).
  run Ht Hv (Hst 1%nat (map atom_view azv ++ rest) ltac:(lia)).
  pose proof (vw_after _ _ _ ct Hv) as Hv1.
  rewrite (bind_ok _ _ _ _ _ (match_any_yes _ _ _ assign_ops Hv1 (lops_no_eof 0) Hin)). cbv iota.
  destruct (prev_vw _ _ _ 0 Hv1) as (tok & Et & Htok). rewrite (bind_ok _ _ _ _ _ Et).
  pose proof (vw_1 _ _ _ 0 Hv1) as Hv2. rewrite st_st in *.
  run Hval Hv2 Hr. rewrite (view_lexeme _ _ Htok), Hop, He. unfold ret. f_equal. rewrite st_st.
  apply st_eq; [len|lia].
Qed.

(** ** All expressions *)

Lemma pr_own e L : (L <= elevel e)%nat -> pr L e = pr (elevel e) e.
Proof.
  intros H. destruct e; cbn [pr]; rewrite Nat.ltb_irrefl; rewrite (proj2 (Nat.ltb_ge _ _)) by done;
    reflexivity.
Qed.
Lemma pr_paren e L : (elevel e < L)%nat -> pr L e = parens (pr (elevel e) e).
Proof.
  intros H. destruct e; cbn [pr]; rewrite Nat.ltb_irrefl; rewrite (proj2 (Nat.ltb_lt _ _)) by done;
    reflexivity.
Qed.

Lemma pr_ne L e : wf e = true -> pr L e <> [].
Proof. intros H. destruct (pr_first_ok _ e L (le_n _) H) as (a & r & -> & _). done. Qed.

Lemma elevel_le e : (elevel e <= 18)%nat.
Proof.
  destruct e; cbn [elevel]; try lia; [by case_match; lia|]. unfold binop.
  match goal with |- context [assoc_find ?o _] => destruct (assoc_find o binops) as [[L t]|] eqn:E end;
    [|cbn; lia].
  apply binop_in in E. cbn in E. destruct_or? E; simplify_eq; cbn; lia.
Qed.

Lemma pr_no_prefix L e : (16 <= L)%nat -> wf e = true -> no_prefix (pr L e).
Proof.
  intros HL H. destruct (pr_first_ok _ e L (le_n _) H) as (a & r & -> & _ & Hp & _). exists a, r. auto.
Qed.

Lemma pr_binary l o r L t : assoc_find o binops = Some (L, t) -> L <> 14%nat ->
  pr L (BinaryExpression l o r) =
  pr L l ++ op t ++ (if bool_decide (t = DOT) && bare_word (pr (S L) r) then parens (pr 0 r) else pr (S L) r).
Proof.
  intros H HL. cbn [pr elevel]. unfold binop. rewrite H. cbn [default from_option id fst].
  rewrite Nat.ltb_irrefl. by rewrite (proj2 (Nat.eqb_neq _ _)).
Qed.

Definition pr_ok (h : nat) (e : Expression) : Prop :=
  forall m L, (L <= 18)%nat ->
    parses m (lev (parser_ tokens_ m) L) e (pr L e) (6 * Z.of_nat h) (chain e) (stops L) /\
    ((L <= elevel e)%nat ->
     parses m (lev (parser_ tokens_ m) L) e (pr L e) (6 * Z.of_nat h - 3) (chain e) (stops L)).

Lemma pr_ok_from_own h e : wf e = true -> (0 < h)%nat ->
  (forall m, parses (S m) (lev (parser_ tokens_ (S m)) (elevel e)) e (pr (elevel e) e)
               (6 * Z.of_nat h - 5) (chain e) (stops (elevel e))) ->
  pr_ok h e.
Proof.
  intros Hw Hh Hown.
  assert (Hlow : forall m L, (L <= elevel e)%nat ->
    parses m (lev (parser_ tokens_ m) L) e (pr L e) (6 * Z.of_nat h - 3) (chain e) (stops L)).
  { intros m L HL. destruct m as [|m]; [by apply parses_0, pr_ne|]. rewrite (pr_own e L HL).
    pose proof (elevel_le e). pose proof (guards_le L (elevel e)).
    eapply parses_weaken; [eapply (climb_all _ _ _ _ _ _ (elevel e) L); [lia| |intros ?; by apply pr_no_prefix|
      exact (Hown m)]| |done]; lia. }
  intros m L HL. split; [|apply Hlow]. destruct (le_lt_dec L (elevel e)) as [Hle|Hlt].
  - eapply parses_weaken; [by apply Hlow|lia|done].
  - destruct m as [|m]; [by apply parses_0, pr_ne|].
    rewrite (pr_paren e L Hlt). pose proof (Hlow m 0%nat ltac:(lia)) as H0.
    rewrite (pr_own e 0) in H0 by lia. apply paren_ok in H0; [|lia].
    pose proof (guards_le L 18).
    eapply parses_weaken; [eapply (climb_all _ _ _ _ _ _ 18 L); [lia| | |eapply parses_weaken;
      [exact H0|reflexivity|done]]| |done]; [lia|by eexists _, _|lia].
Qed.

Section Step.
Context (h : nat) (Hpos : (0 < h)%nat).
Context (IH : forall e, (height e <= h)%nat -> wf e = true -> pr_ok h e).

Lemma operand_ok m e : (height e <= h)%nat -> wf e = true ->
  operand m (parser_ tokens_ (S m)) (pr 0) chain (6 * Z.of_nat h - 2) e.
Proof.
  intros He Hw. split.
  - destruct (pr_first_ok _ e 0 (le_n _) Hw) as (a & r & E & Ha & _). by exists a, r.
  - eapply parses_weaken; [apply r_expression_ok; [|apply (IH e He Hw m 0%nat); lia]| |done]; lia.
Qed.

Lemma operands_ok m l : (maxl (map height l) <= h)%nat -> forallb wf l = true ->
  forall e, e ∈ l -> operand m (parser_ tokens_ (S m)) (pr 0) chain (6 * Z.of_nat h - 2) e.
Proof.
  intros Hh Hw e He. apply operand_ok.
  - clear Hw. induction l as [|x l IHl]; [by apply elem_of_nil in He|]. cbn in Hh.
    apply elem_of_cons in He as [->|He]; [lia|]. apply IHl; [unfold maxl; lia|done].
  - rewrite forallb_forall in Hw. apply Hw. by apply list_elem_of_In.
Qed.

Lemma level_ok m e L : (height e <= h)%nat -> wf e = true -> (L <= 18)%nat ->
  parses m (lev (parser_ tokens_ m) L) e (pr L e) (6 * Z.of_nat h) (chain e) (stops L).
Proof. intros He Hw HL. by apply IH. Qed.

Definition spine_good (m : nat) (e : Expression) : Prop :=
  spine m (parser_ tokens_ (S m)) e (pr 17 e) (6 * Z.of_nat h) (chain e) (follow e).

Lemma spine_weaken m rec e az d d' c (ok ok' : list token_view -> Prop) :
  spine m rec e az d c ok -> d <= d' -> (forall r, ok' r -> ok r) -> spine m rec e az d' c ok'.
Proof. intros H Hd Hok s rest n Hv Hr Hm H1 H2 H3. apply (H s rest n Hv (Hok _ Hr) Hm H1); lia. Qed.

Lemma spine_node m k e : (k <= h)%nat ->
  (forall o, (height o <= k)%nat -> wf o = true -> spine_good m o) ->
  (height e <= S k)%nat -> wf e = true -> elevel e = 17%nat -> spine_good m e.
Proof.
  intros Hk Hsp He Hw Hlv. unfold spine_good. destruct e; cbn [elevel] in Hlv; try discriminate;
    cbn [height] in He; cbn [wf] in Hw; split_wf.
  - (* o[i] *) assert (Ho := Hsp e1 ltac:(lia) ltac:(done)).
    destruct (operand_ok m e2 ltac:(lia) ltac:(done)) as [_ Hi].
    eapply (spine_weaken _ _ _ _ (6 * Z.of_nat h)); [|lia|intros; exact I].
    apply (spine_index m _ e1 e2 (pr 17 e1) (pr 0 e2)); [exact Ho|by apply pr_ne|].
    eapply parses_weaken; [exact Hi|lia|done].
  - match goal with b : bool |- _ => destruct b end; discriminate.
  - (* binary *) exfalso. unfold binop in Hlv. destruct (assoc_find op0 binops) as [[L t]|] eqn:E; [|done].
    apply binop_in in E. cbn in E. destruct_or? E; simplify_eq; done.
  - (* callee(arguments) *)
    assert (Ha := operands_ok m arguments ltac:(lia) ltac:(done)).
    eapply (spine_weaken _ _ _ _ (6 * Z.of_nat h)); [|lia|intros; exact I].
    destruct (is_member e) eqn:Em.
    + change (pr 17 (CallExpression e arguments)) with
        (pr (if is_member e then 18 else 17) e ++ op LPAREN ++ commas (map (pr 0) arguments) ++ op RPAREN).
      rewrite Em. apply (spine_finish m _ e arguments (pr 0) chain _ _ _ (stops 18)).
      * apply spine_primary. apply (level_ok (S m) e 18); [lia|done|lia].
      * intros r. by apply stops_18.
      * by apply pr_ne.
      * intros x Hx. destruct (Ha x Hx) as [Hx1 Hx2]. split; [done|].
        eapply parses_weaken; [exact Hx2|lia|done].
    + change (pr 17 (CallExpression e arguments)) with
        (pr (if is_member e then 18 else 17) e ++ op LPAREN ++ commas (map (pr 0) arguments) ++ op RPAREN).
      rewrite Em. apply (spine_finish m _ e arguments (pr 0) chain _ _ _ (follow e)).
      * apply Hsp; [lia|done].
      * intros r. split; [by apply stops_18|by rewrite Em].
      * by apply pr_ne.
      * intros x Hx. destruct (Ha x Hx) as [Hx1 Hx2]. split; [done|].
        eapply parses_weaken; [exact Hx2|lia|done].
  - (* o.f *) assert (Ho := Hsp e ltac:(lia) ltac:(done)).
    eapply (spine_weaken _ _ _ _ (6 * Z.of_nat h)); [|lia|].
    + apply (spine_member m _ e field (pr 17 e)); [exact Ho|by apply pr_ne|done|done].
    + intros r [Hr Hm]. split; [done|]. by apply Hm.
Qed.

Lemma spine_ok m k : (k <= h)%nat -> forall o, (height o <= k)%nat -> wf o = true -> spine_good m o.
Proof.
  induction k as [|k IHk]; intros Hk o Ho Hw; [destruct o; simpl in Ho; lia|].
  destruct (decide (elevel o = 17%nat)) as [E|E].
  - apply (spine_node m k o); [lia|apply IHk; lia|done|done|done].
  - assert (Epr : pr 17 o = pr 18 o).
    { pose proof (elevel_le o). destruct (le_lt_dec 18 (elevel o)).
      - by rewrite (pr_own o 17), (pr_own o 18) by lia.
      - by rewrite (pr_paren o 17), (pr_paren o 18) by lia. }
    unfold spine_good. rewrite Epr. eapply spine_weaken; [apply spine_primary, (level_ok (S m) o 18)| |].
    + lia.
    + done.
    + lia.
    + lia.
    + by intros r [? _].
Qed.

Definition bspine_good (m L : nat) (e : Expression) : Prop :=
  bspine m (parser_ tokens_ (S m)) L e (pr L e) (6 * Z.of_nat h) (chain e).

(** The right operand, with the parentheses [.] asks for. *)
Lemma right_ok m L t r : (height r <= h)%nat -> wf r = true -> (L < 18)%nat ->
  let p := if bool_decide (t = DOT) && bare_word (pr (S L) r) then parens (pr 0 r) else pr (S L) r in
  parses m (lev (parser_ tokens_ (S m)) (S L)) r p (6 * Z.of_nat h) (chain r) (stops (S L)) /\
  (t = DOT -> exists a q, p = a :: q /\ bare_word [a] = false /\ atom_type a <> EOF_TOKEN /\
     (atom_type a = IDENT -> exists c w, a = A_word (c :: w))).
Proof.
  intros Hr Hw HL p. unfold p. clear p.
  destruct (pr_first_ok _ r (S L) (le_n _) Hw) as (a & q & E & Ha & _ & Hi). rewrite E.
  assert (Eb : bare_word (a :: q) = bare_word [a]) by done. rewrite Eb.
  destruct (bare_word [a]) eqn:Hb.
  - destruct (decide (t = DOT)) as [->|Ht].
    + rewrite bool_decide_eq_true_2 by done. cbn [andb]. split; [|intros _; by exists (A_op LPAREN); eexists].
      destruct (IH r Hr Hw m 0%nat ltac:(lia)) as [_ H0]. specialize (H0 ltac:(lia)).
      apply paren_ok in H0; [|lia]. pose proof (guards_le (S L) 18).
      apply (parses_le (S m)); [|lia].
      eapply parses_weaken; [eapply (climb_all _ _ _ _ _ _ 18 (S L)); [lia| | |eapply parses_weaken;
        [exact H0|reflexivity|done]]| |done]; [lia|by eexists _, _|lia].
    + rewrite bool_decide_eq_false_2 by done. cbn [andb]. rewrite <- E. split; [|done].
      apply (parses_le (S m)); [|lia]. by apply level_ok.
  - rewrite andb_false_r. split.
    + rewrite <- E. apply (parses_le (S m)); [|lia]. by apply level_ok.
    + intros _. exists a, q. split; [done|]. split; [done|]. split; [by intros Ee; rewrite Ee in Ha|done].
Qed.

Lemma bspine_node m L l o r t : (2 <= L <= 13)%nat -> assoc_find o binops = Some (L, t) ->
  (height l <= h)%nat -> (height r <= h)%nat -> wf l = true -> wf r = true ->
  bspine_good m L l -> bspine_good m L (BinaryExpression l o r).
Proof.
  intros HL Ho Hl Hr Hwl Hwr Hsp. unfold bspine_good. rewrite (pr_binary l o r L t Ho) by lia.
  destruct (right_ok m L t r Hr Hwr ltac:(lia)) as [Hp Hd]. cbn [chain]. unfold binop. rewrite Ho.
  cbn [default from_option id fst]. rewrite (proj2 (Nat.eqb_neq L 14)) by lia.
  apply (bspine_step m _ L HL l o r t (pr L l)); [done|exact Hsp|by apply pr_ne|exact Hd|exact Hp].
Qed.

Lemma binary_level e L : elevel e = L -> (2 <= L <= 14)%nat -> wf e = true ->
  exists l o r t, e = BinaryExpression l o r /\ assoc_find o binops = Some (L, t) /\
    wf l = true /\ wf r = true.
Proof.
  intros E HL Hw. destruct e; cbn [elevel] in E; try lia.
  - case_match; lia.
  - cbn [wf] in Hw. unfold binop in E.
    destruct (assoc_find op0 binops) as [[L' t]|] eqn:Ho; [|done]. cbn in E. subst L'. split_wf.
    by eexists _, _, _, t.
Qed.

Lemma bspine_ok m L k : (2 <= L <= 13)%nat -> (k <= h)%nat ->
  forall l, (height l <= k)%nat -> wf l = true -> bspine_good m L l.
Proof.
  intros HL. induction k as [|k IHk]; intros Hk l Hl Hw; [destruct l; simpl in Hl; lia|].
  destruct (decide (elevel l = L)) as [E|E].
  - destruct (binary_level l L E ltac:(lia) Hw) as (l1 & o & r & t & -> & Ho & Hw1 & Hw2).
    cbn [height] in Hl. apply (bspine_node m L l1 o r t); try done; try lia. apply IHk; [lia|lia|done].
  - assert (Epr : pr L l = pr (S L) l).
    { destruct (le_lt_dec (S L) (elevel l)).
      - by rewrite (pr_own l L), (pr_own l (S L)) by lia.
      - by rewrite (pr_paren l L), (pr_paren l (S L)) by lia. }
    unfold bspine_good. rewrite Epr. apply (bspine_next m _ L HL). apply (level_ok (S m) l (S L)); [lia|done|lia].
Qed.

Ltac finish H := eapply parses_weaken; [exact H|lia|done].

(** One lemma per group of constructors: parsed at their own level. *)
Lemma own_binary m l o r : (height l <= h)%nat -> (height r <= h)%nat ->
  wf (BinaryExpression l o r) = true ->
  let e := BinaryExpression l o r in
  parses (S m) (lev (parser_ tokens_ (S m)) (elevel e)) e (pr (elevel e) e) (6 * Z.of_nat h + 1)
    (chain e) (stops (elevel e)).
Proof.
  intros Hl Hr Hw e. cbn [wf] in Hw.
  destruct (assoc_find o binops) as [[L t]|] eqn:Ho; [|done]. split_wf.
  assert (Elv : elevel e = L) by (unfold e; cbn [elevel]; unfold binop; by rewrite Ho).
  rewrite Elv. destruct (decide (L = 14%nat)) as [->|HL].
  - assert (Eo : o = lit "**") by (apply binop_in in Ho; cbn in Ho; destruct_or? Ho; simplify_eq; done).
    subst o. change (chain e) with (chain l + 0 + chain r)%nat. rewrite Nat.add_0_r.
    change (pr 14 e) with (pr 15 l ++ op STAR_STAR ++ pr 14 r).
    apply (power_ok m _ l r (pr 15 l)); [lia|by apply pr_ne| |].
    + apply (level_ok (S m) l 15); [done|done|lia].
    + apply (level_ok m r 14); [done|done|lia].
  - destruct (binop_level _ _ _ Ho HL) as [HL2 _].
    assert (Hsp : bspine_good m L e).
    { apply (bspine_node m L l o r t); try done. by apply (bspine_ok m L h). }
    finish (bspine_level m _ L HL2 e _ _ _ Hsp).
Qed.

Lemma own_unary m o r b : (height r <= h)%nat -> wf (UnaryExpression o r b) = true ->
  let e := UnaryExpression o r b in
  parses (S m) (lev (parser_ tokens_ (S m)) (elevel e)) e (pr (elevel e) e) (6 * Z.of_nat h + 1)
    (chain e) (stops (elevel e)).
Proof.
  intros Hr Hw e. cbn [wf] in Hw. destruct b.
  - destruct (assoc_find o unops) as [t|] eqn:Ho; [|done].
    change (pr (elevel e) e) with (op (unop o) ++ pr (if incr o then 18 else 15) r).
    destruct (incr o) eqn:Hi.
    + apply prefix_incr_ok; [lia|done|]. apply (parses_le (S m)); [|lia].
      apply (level_ok (S m) r 18); [done|done|lia].
    + apply prefix_ok; [lia|by rewrite Ho|done|]. apply (level_ok m r 15); [done|done|lia].
  - split_wf. assert (Hp := level_ok (S m) r 17 Hr ltac:(done) ltac:(lia)).
    finish (postfix_ok (S m) _ o r (pr 17 r) _ _ ltac:(done) Hp).
Qed.

Lemma own_assignment m name o obj idx v :
  let e := AssignmentExpression name o obj idx v in
  (height e <= S h)%nat -> wf e = true ->
  parses (S m) (lev (parser_ tokens_ (S m)) 0) e (pr 0 e) (6 * Z.of_nat h + 1) (chain e) (stops 0).
Proof.
  intros e He Hw. unfold e in *. cbn [wf height] in *. split_wf.
  assert (Ho : assoc_find o assignops <> None) by (destruct (assoc_find o assignops); done).
  assert (Hwv : wf v = true) by (destruct (assoc_find o assignops); done).
  assert (Hval := level_ok m v 0 ltac:(lia) Hwv ltac:(lia)).
  set (target := match obj, idx with
                 | None, None => Variable_ name
                 | None, Some i => IndexExpression (Variable_ name) i
                 | Some ob, Some i => IndexExpression ob i
                 | Some ob, None => ob
                 end).
  assert (Ht : wf target = true /\ (height target <= h)%nat /\
    assign_to target o v = Some (AssignmentExpression name o obj idx v) /\
    pr 1 target = match obj with Some ob => pr 17 ob | None => [A_word name] end ++
                  match idx with Some i => op LBRACKET ++ pr 0 i ++ op RBRACKET | None => [] end /\
    chain target = (match obj with Some ob => chain ob | None => 0 end +
                    match idx with Some i => chain i | None => 0 end)%nat).
  { destruct obj as [ob|], idx as [i|]; unfold target; cbn [wf height chain assign_to] in *; split_wf;
      try done.
    - repeat split; try done; [by apply andb_true_iff|lia|]. bool_to_prop. subst name. by destruct ob.
    - repeat split; try done; [by apply andb_true_iff|destruct i; simpl in *; lia]. }
  destruct Ht as (Hwt & Hht & Has & Hpr & Hch).
  assert (Htg := level_ok (S m) target 1 Hht Hwt ltac:(lia)). rewrite Hch in Htg.
  assert (Hne := pr_ne 1 target Hwt).
  assert (Hres := assignment_ok m _ target o v _ _ _ _ _ _ Hne Ho Has Htg Hval).
  rewrite Hpr, <- app_assoc in Hres. finish Hres.
Qed.

Lemma own_suffix m e : (height e <= S h)%nat -> wf e = true -> elevel e = 17%nat ->
  parses (S m) (lev (parser_ tokens_ (S m)) 17) e (pr 17 e) (6 * Z.of_nat h + 1) (chain e) (stops 17).
Proof.
  intros He Hw Hlv.
  assert (Hsp := spine_node m h e (le_n _) (spine_ok m h (le_n _)) He Hw Hlv).
  eapply parses_weaken; [apply spine_call; eapply spine_weaken; [exact Hsp|reflexivity|]|lia|done].
  intros r Hr. split; [by apply (stops_mono 17); [lia|]|]. intros _ v r' E.
  by apply (stops_ty 17 r v r' LPAREN Hr E ltac:(lia) ltac:(in_ops)).
Qed.

Lemma own_array m es : (height (ArrayLiteral es) <= S h)%nat -> wf (ArrayLiteral es) = true ->
  parses (S m) (primary tokens_ (parser_ tokens_ (S m))) (ArrayLiteral es) (pr 18 (ArrayLiteral es))
    (6 * Z.of_nat h + 1) (chain (ArrayLiteral es)) (stops 18).
Proof.
  intros He Hw. cbn [height wf] in *. destruct es as [|e es].
  - eapply parses_weaken; [apply (empty_array_ok m _ 0)|lia|done].
  - assert (Hall := operands_ok m (e :: es) ltac:(cbn [map maxl fold_right] in *; unfold maxl; simpl in *; lia) Hw).
    eapply parses_weaken; [apply (array_ok m _ (pr 0) chain (6 * Z.of_nat h - 2) e es)| |done].
    + apply Hall. set_solver.
    + intros x Hx. apply Hall. set_solver.
    + lia.
Qed.

Lemma own_assoc m ps : (height (AssocArrayLiteral ps) <= S h)%nat -> wf (AssocArrayLiteral ps) = true ->
  parses (S m) (primary tokens_ (parser_ tokens_ (S m))) (AssocArrayLiteral ps)
    (pr 18 (AssocArrayLiteral ps)) (6 * Z.of_nat h + 1) (chain (AssocArrayLiteral ps)) (stops 18).
Proof.
  intros He Hw. cbn [height wf] in *. apply andb_true_iff in Hw as [Hne Hw].
  destruct ps as [|[k v] ps]; [done|].
  assert (Hall : forall kv, kv ∈ (k, v) :: ps ->
    operand m (parser_ tokens_ (S m)) (pr 0) chain (6 * Z.of_nat h - 2) kv.1 /\
    operand m (parser_ tokens_ (S m)) (pr 0) chain (6 * Z.of_nat h - 2) kv.2).
  { intros kv Hkv.
    pose proof (maxl_in (fun kv => Nat.max (height kv.1) (height kv.2)) _ _ Hkv) as Hm. cbn beta in Hm.
    apply (forallb_in _ _ _ Hw) in Hkv. apply andb_true_iff in Hkv as [? ?].
    split; apply operand_ok; done || lia. }
  eapply parses_weaken; [apply (assoc_ok m _ (pr 0) chain (6 * Z.of_nat h - 2) k v ps)| |done].
  - apply (Hall (k, v)). set_solver.
  - apply (Hall (k, v)). set_solver.
  - intros kv Hkv. apply Hall. set_solver.
  - lia.
Qed.

Lemma own_struct m name fs : (height (StructLiteralExpression name fs) <= S h)%nat ->
  wf (StructLiteralExpression name fs) = true ->
  parses (S m) (primary tokens_ (parser_ tokens_ (S m))) (StructLiteralExpression name fs)
    (pr 18 (StructLiteralExpression name fs)) (6 * Z.of_nat h + 1)
    (chain (StructLiteralExpression name fs)) (stops 18).
Proof.
  intros He Hw. cbn [height wf] in *. apply andb_true_iff in Hw as [Hn Hw].
  eapply parses_weaken; [apply (struct_ok m _ (pr 0) chain (6 * Z.of_nat h - 2) name fs)| |done].
  - done.
  - intros x Hx. pose proof (maxl_in (fun f => height f.2) _ _ Hx) as Hm. cbn beta in Hm.
    apply (forallb_in _ _ _ Hw) in Hx. apply andb_true_iff in Hx as [? ?]. split; [done|].
    apply operand_ok; done || lia.
  - lia.
Qed.

Lemma own_ternary m a b c : (height (TernaryExpression a b c) <= S h)%nat ->
  wf (TernaryExpression a b c) = true ->
  parses (S m) (ternary tokens_ (parser_ tokens_ (S m))) (TernaryExpression a b c)
    (pr 1 (TernaryExpression a b c)) (6 * Z.of_nat h + 1) (chain (TernaryExpression a b c)) (stops 1).
Proof.
  intros He Hw. cbn [height wf] in *. split_wf.
  eapply parses_weaken; [apply (ternary_ok m _ a b c (pr 2 a) (pr 1 b) (pr 1 c) (6 * Z.of_nat h))| |done].
  - by apply pr_ne.
  - apply (level_ok (S m) a 2); [lia|done|lia].
  - apply (level_ok m b 1); [lia|done|lia].
  - apply (level_ok m c 1); [lia|done|lia].
  - lia.
Qed.
End Step.

Lemma height_pos e : (1 <= height e)%nat.
Proof. destruct e; simpl; lia. Qed.

(** The expressions of one node. *)
Lemma own_leaf m e : (height e <= 1)%nat -> wf e = true ->
  elevel e = 18%nat /\
  parses (S m) (primary tokens_ (parser_ tokens_ (S m))) e (pr 18 e) 0 (chain e) (stops 18).
Proof.
  intros He Hw. destruct e; cbn [height] in He; cbn [wf] in Hw; try discriminate;
    try (exfalso; lia);
    try (exfalso; match goal with x : Expression |- _ => pose proof (height_pos x); lia end).
  - split; [done|]. destruct raw0; [done|]. apply string_ok.
  - split; [done|]. bool_to_prop. by apply number_ok.
  - split; [done|]. destruct value; by eapply word_ok.
  - split; [done|]. by eapply word_ok.
  - destruct elements as [|e es]; [split; [done|]|pose proof (height_pos e); simpl in *; lia].
    eapply parses_weaken; [apply (empty_array_ok m _ 0)|lia|done].
  - destruct pairs as [|[k v] ps]; [done|]. pose proof (height_pos k). simpl in *. lia.
  - split; [done|]. by apply variable_ok.
  - split_wf. split; [done|]. by apply scope_ok.
  - split; [done|]. by eapply word_ok.
  - destruct fields as [|[n e] fs]; [split; [done|]|pose proof (height_pos e); simpl in *; lia].
    bool_to_prop. eapply parses_weaken; [apply (struct_ok m _ (pr 0) chain 0 struct_name [])| |done];
      [done|by intros x ?%elem_of_nil|lia].
Qed.

Lemma every_print_parses h e : (height e <= h)%nat -> wf e = true -> pr_ok h e.
Proof.
  revert e. induction h as [|h IH]; intros e He Hw; [destruct e; simpl in He; lia|].
  apply pr_ok_from_own; [done|lia|]. intros m.
  replace (6 * Z.of_nat (S h) - 5) with (6 * Z.of_nat h + 1) by lia.
  destruct (le_lt_dec (height e) 1) as [H1|H1].
  { destruct (own_leaf m e H1 Hw) as [-> Hp]. eapply parses_weaken; [exact Hp|lia|done]. }
  assert (Hh : (0 < h)%nat) by lia.
  destruct e; try (cbn [height] in H1; lia).
  - by apply own_array.
  - by apply own_assoc.
  - by apply own_suffix.
  - cbn [height] in He. apply own_unary; [done|done|lia|done].
  - cbn [height] in He. apply own_binary; done || lia.
  - by apply own_assignment.
  - by apply own_suffix.
  - by apply own_ternary.
  - by apply own_suffix.
  - by apply own_struct.
Qed.

(** ** Statements and programs *)

Lemma skip_none s v r t : vw s = v :: r -> ty v <> t -> t <> EOF_TOKEN ->
  skip_all tokens_ (fuel tokens_) t s = POk tt s.
Proof.
  intros Hv Ht Hne. unfold fuel. cbn [skip_all]. by rewrite (bind_ok _ _ _ _ _ (match_no s v r t Hv Ht Hne)).
Qed.

Lemma at_end_yes s v r : vw s = v :: r -> ty v = EOF_TOKEN -> is_at_end tokens_ s = true.
Proof.
  intros H Hv. pose proof (peek_vw _ _ _ H) as Hp. unfold is_at_end.
  assert (E : type (peek tokens_ s) = ty v) by by rewrite <- Hp. by rewrite E, bool_decide_eq_true_2.
Qed.

Lemma bind_same {A B} (p q : P A) (f : A -> P B) s : p s = q s -> bind p f s = bind q f s.
Proof. unfold bind. by intros ->. Qed.

(** The keywords and the brace that [statement] tests for. *)
Definition statement_starts : list TokenType :=
  [USE; PRINT; WRITE; IF; WHILE; FOR; FOREACH; RETURN; THROW; FUNCTION; TRY; SWITCH; STRUCT; CONST_KW;
   BREAK; CONTINUE; LBRACE].

Lemma statement_expression rec s v r :
  vw s = v :: r -> starts (ty v) = true -> stmt_depth s = 0 ->
  statement tokens_ rec s =
  (a <- expression_statement tokens_ rec;; fun s => POk a (set_stmt s (stmt_depth s - 1))) (set_stmt s 1).
Proof.
  intros Hv Hs Hd. unfold statement, stmt_guarded. rewrite Hd. cbn [stmt_depth set_stmt].
  rewrite (proj2 (Z.ltb_ge _ _)) by (unfold MAX_STMT_DEPTH; lia).
  change (0 + 1) with 1. set (s1 := set_stmt s 1). change (vw s) with (vw s1) in Hv.
  assert (Hk : Forall (fun t => ty v <> t) statement_starts)
    by (repeat constructor; intros E; by rewrite E in Hs).
  unfold statement_starts in Hk. rewrite !Forall_cons in Hk.
  destruct_and! Hk. apply bind_same. repeat no Hv. reflexivity.
Qed.

Lemma program_of_print e tail :
  wf e = true -> 6 * Z.of_nat (height e) <= 152 -> Z.of_nat (chain e) <= 1000 ->
  map view tokens_ = map atom_view (pr 0 e) ++ tail ->
  (tail = [(EOF_TOKEN, [], None, false)] \/
   tail = [(SEMICOLON, lit ";", None, false); (EOF_TOKEN, [], None, false)]) ->
  exists s, parse tokens_ = POk [ExpressionStatement e] s.
Proof.
  intros Hw Hh Hc Htoks Htail.
  assert (Hv : vw start = map atom_view (pr 0 e) ++ tail) by (unfold vw; simpl; by rewrite drop_0).
  destruct (pr_first_ok _ e 0 (le_n _) Hw) as (a & q & Ea & Ha & _).
  assert (Hv0 : vw start = atom_view a :: map atom_view q ++ tail) by by rewrite Hv, Ea.
  assert (Hfuel : fuel tokens_ = S (length (vw start))) by (unfold fuel, vw; simpl; by rewrite drop_0, length_map).
  assert (Htl : exists v r, tail = v :: r /\ closer (ty v) = true) by (destruct Htail as [-> | ->]; by eexists _, _).
  destruct Htl as (v & r & Etl & Hcl).
  assert (Hsa : ty (atom_view a) <> SEMICOLON /\ ty (atom_view a) <> EOF_TOKEN)
    by (split; intros E; change (ty (atom_view a)) with (atom_type a) in E; by rewrite E in Ha).
  destruct Hsa as [Hsa1 Hsa2].
  unfold parse. set (rec := parser_ tokens_ (fuel tokens_)). rewrite Hfuel. cbn [program_loop].
  rewrite (bind_ok _ _ _ _ _ (at_end_no _ _ _ Hv0 Hsa2)). cbv iota.
  rewrite (bind_ok _ _ _ _ _ (skip_none _ _ _ _ Hv0 Hsa1 ltac:(done))).
  rewrite (bind_ok _ _ _ _ _ (at_end_no _ _ _ Hv0 Hsa2)). cbv iota.
  assert (Hex : expression tokens_ rec (set_stmt start 1) =
    POk e (st (set_stmt start 1) (length (pr 0 e)) (chain e))).
  { unfold expression. apply guarded_ok; [done|].
    change (set_expr (set_stmt start 1) (expr_depth (set_stmt start 1) + 1)) with
      (set_binop (set_expr (set_stmt start 1) 1) 0).
    set (s1 := set_binop (set_expr (set_stmt start 1) 1) 0). change (expr_depth s1 =? 1) with true. cbv iota.
    change (set_binop s1 0) with s1.
    destruct (every_print_parses (height e) e (le_n _) Hw (fuel tokens_) 0%nat ltac:(lia)) as [_ Hp].
    apply (Hp ltac:(lia) s1 tail); try done.
    all: try (rewrite Etl; by apply stops_closer).
    all: try (change (vw s1) with (vw start); lia).
    all: unfold MAX_EXPR_DEPTH, MAX_BINOP_CHAIN; simpl; lia. }
  assert (Hv1 : vw (st (set_stmt start 1) (length (pr 0 e)) (chain e)) = tail).
  { apply (vw_after (set_stmt start 1) (pr 0 e) tail). exact Hv. }
  assert (Hst : exists s', expression_statement tokens_ rec (set_stmt start 1) =
      POk (ExpressionStatement e) s' /\ vw s' = [(EOF_TOKEN, [], None, false)]).
  { unfold expression_statement. rewrite (bind_ok _ _ _ _ _ Hex). unfold bind at 1, consume_semi.
    destruct Htail as [Et|Et]; rewrite Et in Hv1.
    - rewrite (check_vw _ _ _ SEMICOLON Hv1) by done. rewrite (at_end_yes _ _ _ Hv1 eq_refl).
      cbn [ty fst]. rewrite bool_decide_eq_false_2 by done. rewrite orb_true_r.
      eexists. split; [reflexivity|exact Hv1].
    - rewrite (check_vw _ _ _ SEMICOLON Hv1) by done.
      cbn [ty fst]. rewrite bool_decide_eq_true_2 by done.
      destruct (advance_vw _ _ _ Hv1 ltac:(discriminate)) as (t & Et2 & _).
      unfold bind at 1. rewrite Et2. eexists. split; [reflexivity|].
      exact (vw_1 _ _ _ 0 Hv1). }
  destruct Hst as (s' & Est & Hv2).
  assert (Hst : statement tokens_ rec start = POk (ExpressionStatement e) (set_stmt s' (stmt_depth s' - 1))).
  { rewrite (statement_expression rec start _ _ Hv0 Ha eq_refl).
    by rewrite (bind_ok _ _ _ _ _ Est). }
  rewrite (bind_ok _ _ _ _ _ Hst). rewrite Hv0. cbn [length program_loop].
  unfold bind at 1. unfold bind at 1. unfold at_end.
  assert (Hend : is_at_end tokens_ (set_stmt s' (stmt_depth s' - 1)) = true)
    by by apply (at_end_yes _ (EOF_TOKEN, [], None, false) []).
  rewrite Hend. by eexists.
Qed.
End Run.

(** ** From text *)

Lemma decimal_digits v : 0 <= v <= INT64_MAX ->
  starts_digit (decimal v) = true /\ forallb isdigit (decimal v) = true.
Proof.
  intros Hv. pose proof (dec_go_digits 20 v [] eq_refl ltac:(lia)) as Hd. fold (decimal v) in Hd.
  split; [|done]. destruct (decimal v) as [|c s] eqn:E; [|simpl in *; by apply andb_true_iff in Hd as [-> _]].
  pose proof (stoll_decimal v Hv) as H. rewrite E in H. discriminate.
Qed.

Abbreviation atoms_ok := (Forall (fun a => atom_ok a = true)).

Lemma commas_ok l : Forall atoms_ok l -> atoms_ok (commas l).
Proof.
  intros H. destruct H as [|x l Hx H]; [done|]. cbn [commas]. apply Forall_app_2; [done|].
  induction H; simpl; [done|]. constructor; [done|]. by apply Forall_app_2.
Qed.

Lemma commas_map_ok {A} (f : A -> list atom) l : (forall a, a ∈ l -> atoms_ok (f a)) -> atoms_ok (commas (map f l)).
Proof. intros H. apply commas_ok. apply Forall_fmap, Forall_forall. exact H. Qed.

Lemma op_ok t : spelling t <> None -> atoms_ok (op t).
Proof. intros H. repeat constructor. simpl. by destruct (spelling t). Qed.

Lemma parens_ok p : atoms_ok p -> atoms_ok (parens p).
Proof. intros H. unfold parens. repeat apply Forall_app_2; [by apply op_ok|done|by apply op_ok]. Qed.

Lemma word_atom_ok w : ident_shape w = true -> atoms_ok [A_word w].
Proof. intros H. by repeat constructor. Qed.
Lemma ident_atom_ok w : ident w = true -> atoms_ok [A_word w].
Proof. intros [H _]%andb_true_iff. by apply word_atom_ok. Qed.

Lemma unop_ok o : atoms_ok (op (unop o)).
Proof.
  apply op_ok. unfold unop. destruct (assoc_find o unops) as [t|] eqn:E; [|done].
  apply assoc_find_spec in E. cbn in E. destruct_or? E; by simplify_eq.
Qed.
Lemma assignop_ok o : atoms_ok (op (assignop o)).
Proof.
  apply op_ok. unfold assignop. destruct (assoc_find o assignops) as [t|] eqn:E; [|done].
  apply assoc_find_spec in E. cbn in E. destruct_or? E; by simplify_eq.
Qed.
Lemma binop_ok o : atoms_ok (op (binop o).2).
Proof.
  apply op_ok. unfold binop. destruct (assoc_find o binops) as [t|] eqn:E; [|done].
  apply binop_in in E || apply assoc_find_spec in E. cbn in E. destruct_or? E; by simplify_eq.
Qed.

(** Every atom of a print can be scanned. *)
Lemma pr_atoms_ok h e L : (height e <= h)%nat -> wf e = true -> atoms_ok (pr L e).
Proof.
  revert e L. induction h as [|h IH]; intros e L He Hw; [destruct e; simpl in He; lia|].
  assert (Hown : atoms_ok (pr (elevel e) e)).
  2: { destruct (le_lt_dec L (elevel e)); [by rewrite pr_own|]. rewrite pr_paren by done. by apply parens_ok. }
  assert (Hl : forall (A : Type) (f : A -> nat) (l : list A) a, a ∈ l -> (maxl (map f l) <= h)%nat ->
    (f a <= h)%nat) by (intros A f l a Ha ?; pose proof (maxl_in f l a Ha); lia).
  destruct e; cbn [pr]; cbv zeta; rewrite Nat.ltb_irrefl; cbn [wf height] in *; try discriminate; split_wf;
    repeat apply Forall_app_2; try (by apply op_ok); try (by apply IH; [lia|]);
    try (by apply ident_atom_ok); try (by repeat constructor).
  - repeat constructor. cbn [atom_ok].
    destruct (decimal_digits value ltac:(by bool_to_prop)) as [-> ->]. done.
  - apply word_atom_ok. by destruct value.
  - apply commas_map_ok. intros e He'. apply IH; [apply (Hl _ height _ _ He'); lia|]. by eapply forallb_in.
  - apply commas_map_ok. intros kv Hkv.
    assert (Hm := Hl _ (fun kv => Nat.max (height kv.1) (height kv.2)) _ _ Hkv ltac:(lia)). cbn beta in Hm.
    eapply forallb_in in Hkv; [|eassumption]. apply andb_true_iff in Hkv as [? ?].
    repeat apply Forall_app_2; [by apply IH; [lia|]|by apply op_ok|by apply IH; [lia|]].
  - destruct prefix0; split_wf; apply Forall_app_2; try apply unop_ok; (apply IH; [lia|]); [|done].
    by destruct (assoc_find op0 unops).
  - pose proof (binop_ok op0) as Hop. destruct (binop op0) as [K t]. cbn [snd] in Hop.
    destruct (assoc_find op0 binops); [|done]. split_wf.
    assert (H1 : forall K, atoms_ok (pr K e1)) by (intros; apply IH; [lia|done]).
    assert (H2 : forall K, atoms_ok (pr K e2)) by (intros; apply IH; [lia|done]).
    case_if; repeat apply Forall_app_2; try done. case_if; [by apply parens_ok|done].
  - destruct object as [ob|], index as [i|]; split_wf; try done;
      (apply IH; [lia|done]) || by apply ident_atom_ok.
  - destruct object as [ob|], index as [i|]; split_wf; try done;
      (repeat apply Forall_app_2; [by apply op_ok|apply IH; [lia|done]|by apply op_ok]).
  - apply assignop_ok.
  - apply IH; [lia|]. by destruct (assoc_find op0 assignops).
  - apply commas_map_ok. intros e' He'. apply IH; [apply (Hl _ height _ _ He'); lia|]. by eapply forallb_in.
  - apply ident_atom_ok. match goal with H : bare _ = true |- _ => by apply andb_true_iff in H as [? _] end.
  - apply ident_atom_ok. match goal with H : bare _ = true |- _ => by apply andb_true_iff in H as [? _] end.
  - apply commas_map_ok. intros f Hf.
    assert (Hm := Hl _ (fun f => height f.2) _ _ Hf ltac:(lia)). cbn beta in Hm.
    eapply forallb_in in Hf; [|eassumption]. apply andb_true_iff in Hf as [? ?].
    repeat apply Forall_app_2; [by apply ident_atom_ok|by apply op_ok|by apply IH].
Qed.

(** C5: the parser reads back what the printer writes: precedence,
    associativity and call syntax. An expression tree over all operators,
    literals, arrays, struct literals, calls, indexing, member access and
    assignments, printed with parentheses only where the operator levels need
    them, then scanned and parsed, gives the program of that one expression
    statement and no error, as long as it is at most 25 nodes high (the depth
    guard) and has at most 1000 binary operators (the chain guard). *)
Theorem parse_print_roundtrip e :
  wf e = true -> 6 * Z.of_nat (height e) <= 152 -> Z.of_nat (chain e) <= 1000 ->
  exists toks s, scan_tokens (print_atoms (pr 0 e)) = Some (Ok toks) /\
    parse toks = POk [ExpressionStatement e] s.
Proof.
  intros Hw Hh Hc.
  destruct (scan_printed (pr 0 e) (pr_atoms_ok _ e 0 (le_n _) Hw)) as (toks & tail & Hs & Hv & Ht).
  destruct (program_of_print toks e tail Hw Hh Hc Hv Ht) as (s & Hp). by exists toks, s.
Qed.
Definition roundtrip_sample : Expression :=
  AssignmentExpression (lit "$r") (lit "+=") None (Some (StringLiteral (lit "k") false))
    (TernaryExpression
       (BinaryExpression (Variable_ (lit "a")) (lit "<=")
          (BinaryExpression (NumberLiteral 1) (lit "-")
             (BinaryExpression (NumberLiteral 2) (lit "-") (NumberLiteral 3))))
       (CallExpression (MemberAccessExpression (Variable_ (lit "obj")) (lit "run"))
          [ArrayLiteral [NumberLiteral 7; NullLiteral];
           UnaryExpression (lit "-") (BinaryExpression (NumberLiteral 2) (lit "**") (NumberLiteral 3)) true])
       (BinaryExpression (Variable_ (lit "$x")) (lit ".") (Variable_ (lit "y")))).
Lemma parse_print_roundtrip_witness :
  exists toks s, scan_tokens (print_atoms (pr 0 roundtrip_sample)) = Some (Ok toks) /\
    parse toks = POk [ExpressionStatement roundtrip_sample] s.
Proof.
  apply (parse_print_roundtrip roundtrip_sample); [reflexivity|vm_compute; discriminate|vm_compute; discriminate].
Defined.

End ParserRoundtrip.
