(* ===== verification/Crypto.v ===== *)
(** SHA-256, HMAC-SHA256 and PBKDF2 of cpp/include/look/crypto_sha256.h. A
    [vector<uint8_t>] is a [bytes], a [uint32_t] a [Z] below 2^32 with its
    wrap-around written out. *)

From S2P Require Import Prelude.
#[local] Open Scope Z_scope.

Module Crypto.

(** ** SHA-256 *)

Definition W32 : Z := 2 ^ 32.
Definition add32 (a b : Z) : Z := (a + b) mod W32.
Definition not32 (a : Z) : Z := W32 - 1 - a.

(** Four consecutive entries of the table are written as one numeral. *)
Definition four (z : Z) : list Z :=
  map (fun n => Z.shiftr z n mod 2 ^ 32) [96; 64; 32; 0].

Definition K : list Z := flat_map four [
  0x428a2f98_71374491_b5c0fbcf_e9b5dba5;
  0x3956c25b_59f111f1_923f82a4_ab1c5ed5;
  0xd807aa98_12835b01_243185be_550c7dc3;
  0x72be5d74_80deb1fe_9bdc06a7_c19bf174;
  0xe49b69c1_efbe4786_0fc19dc6_240ca1cc;
  0x2de92c6f_4a7484aa_5cb0a9dc_76f988da;
  0x983e5152_a831c66d_b00327c8_bf597fc7;
  0xc6e00bf3_d5a79147_06ca6351_14292967;
  0x27b70a85_2e1b2138_4d2c6dfc_53380d13;
  0x650a7354_766a0abb_81c2c92e_92722c85;
  0xa2bfe8a1_a81a664b_c24b8b70_c76c51a3;
  0xd192e819_d6990624_f40e3585_106aa070;
  0x19a4c116_1e376c08_2748774c_34b0bcb5;
  0x391c0cb3_4ed8aa4a_5b9cca4f_682e6ff3;
  0x748f82ee_78a5636f_84c87814_8cc70208;
  0x90befffa_a4506ceb_bef9a3f7_c67178f2].

Record regs := MkRegs { ra : Z; rb : Z; rc : Z; rd : Z; re : Z; rf : Z; rg : Z; rh : Z }.

Definition h0 : regs :=
  MkRegs 0x6a09e667 0xbb67ae85 0x3c6ef372 0xa54ff53a 0x510e527f 0x9b05688c 0x1f83d9ab 0x5be0cd19.

(** [while (msg.size() % 64 != 56) msg.push_back(0);] *)
Definition zeros_step (msg : bytes) : bytes + bytes :=
  if (length msg mod 64 =? 56)%nat then inr msg else inl (msg ++ [NUL]).

(** [(uint8_t)(bit_len >> (i*8))] for [i] from 7 down to 0. *)
Definition be64 (n : Z) : bytes :=
  map (fun i => chr (Z.shiftr n (i * 8))) [7; 6; 5; 4; 3; 2; 1; 0].

Definition pad (data : bytes) : bytes :=
  let bit_len := (Z.of_nat (length data) * 8) mod 2 ^ 64 in
  run zeros_step [] 64 (data ++ [chr 128]) ++ be64 bit_len.

Definition rotr (x n : Z) : Z := Z.lor (Z.shiftr x n) (Z.shiftl x (32 - n) mod W32).

(** The big-endian word at offset [i + j*4]. *)
Definition be32 (b0 b1 b2 b3 : ascii) : Z :=
  Z.lor (Z.lor (Z.lor (Z.shiftl (ord b0) 24) (Z.shiftl (ord b1) 16)) (Z.shiftl (ord b2) 8)) (ord b3).
Fixpoint words (s : bytes) : list Z :=
  match s with
  | b0 :: b1 :: b2 :: b3 :: s' => be32 b0 b1 b2 b3 :: words s'
  | _ => []
  end.

Definition at0 (w : list Z) (i : nat) : Z := default 0 (w !! i).

(** [w[j]] for [j] from 16, appended. *)
Definition schedule_word (w : list Z) (j : nat) : Z :=
  let x := at0 w (j - 15) in
  let y := at0 w (j - 2) in
  let s0 := Z.lxor (Z.lxor (rotr x 7) (rotr x 18)) (Z.shiftr x 3) in
  let s1 := Z.lxor (Z.lxor (rotr y 17) (rotr y 19)) (Z.shiftr y 10) in
  add32 (add32 (add32 (at0 w (j - 16)) s0) (at0 w (j - 7))) s1.
Fixpoint schedule_loop (n : nat) (w : list Z) : list Z :=
  match n with
  | O => w
  | S n' => schedule_loop n' (w ++ [schedule_word w (length w)])
  end.
Definition schedule (block : bytes) : list Z := schedule_loop 48 (words block).

Definition round (s : regs) (kw : Z * Z) : regs :=
  let (k, w) := kw in
  let '(MkRegs a b c d e f g hh) := s in
  let S1 := Z.lxor (Z.lxor (rotr e 6) (rotr e 11)) (rotr e 25) in
  let ch := Z.lxor (Z.land e f) (Z.land (not32 e) g) in
  let t1 := add32 (add32 (add32 (add32 hh S1) ch) k) w in
  let S0 := Z.lxor (Z.lxor (rotr a 2) (rotr a 13)) (rotr a 22) in
  let maj := Z.lxor (Z.lxor (Z.land a b) (Z.land a c)) (Z.land b c) in
  let t2 := add32 S0 maj in
  MkRegs (add32 t1 t2) a b c (add32 d t1) e f g.

Definition compress (h : regs) (block : bytes) : regs :=
  let s := fold_left round (combine K (schedule block)) h in
  MkRegs (add32 (ra h) (ra s)) (add32 (rb h) (rb s)) (add32 (rc h) (rc s)) (add32 (rd h) (rd s))
         (add32 (re h) (re s)) (add32 (rf h) (rf s)) (add32 (rg h) (rg s)) (add32 (rh h) (rh s)).

(** [for (size_t i = 0; i < msg.size(); i += 64)] *)
Fixpoint blocks (n : nat) (h : regs) (msg : bytes) : regs :=
  match n, msg with
  | S n', _ :: _ => blocks n' (compress h (take 64 msg)) (drop 64 msg)
  | _, _ => h
  end.

Definition out32 (x : Z) : bytes :=
  [chr (Z.shiftr x 24); chr (Z.shiftr x 16); chr (Z.shiftr x 8); chr x].

Definition sha256 (data : bytes) : bytes :=
  let msg := pad data in
  let '(MkRegs a b c d e f g h) := blocks (length msg) h0 msg in
  out32 a ++ out32 b ++ out32 c ++ out32 d ++ out32 e ++ out32 f ++ out32 g ++ out32 h.

(** ** HMAC *)

Definition BS : nat := 64.
Definition xor_byte (x : Z) (c : ascii) : ascii := chr (Z.lxor (ord c) x).
(** [k.resize(n, 0)] *)
Definition resize0 (n : nat) (s : bytes) : bytes := take n s ++ replicate (n - length s) NUL.

Definition hmac_key (key : bytes) : bytes :=
  resize0 BS (if (BS <? length key)%nat then sha256 key else key).

Definition hmac_sha256 (key msg : bytes) : bytes :=
  let k := hmac_key key in
  let inner := map (xor_byte 0x36) k ++ msg in
  let outer := map (xor_byte 0x5c) k ++ sha256 inner in
  sha256 outer.

(** ** PBKDF2 *)

Definition xor_bytes (s t : bytes) : bytes := zip_with (fun c d => chr (Z.lxor (ord c) (ord d))) s t.

(** The rounds [1 .. n] of a block: [u] and [f] are what the loop updates. *)
Fixpoint pbkdf2_rounds (n : nat) (pwd u f : bytes) : bytes :=
  match n with
  | O => f
  | S n' => let u := hmac_sha256 pwd u in pbkdf2_rounds n' pwd u (xor_bytes f u)
  end.

Definition pbkdf2_block (pwd salt : bytes) (iterations block : Z) : bytes :=
  let u := hmac_sha256 pwd (salt ++ out32 block) in
  pbkdf2_rounds (Z.to_nat (iterations - 1)) pwd u u.

(** The unsigned [(dk_len + 31) / 32] wraps. *)
Definition block_count (dk_len : Z) : Z := ((dk_len + 31) mod W32) / 32.

Definition pbkdf2_sha256 (password salt : bytes) (iterations dk_len : Z) : bytes :=
  resize0 (Z.to_nat dk_len)
    (concat (map (fun i => pbkdf2_block password salt iterations (Z.of_nat i))
                 (seq 1 (Z.to_nat (block_count dk_len))))).

(** ** Known answers *)

Definition hex (s : bytes) : list Z := map ord s.

(** FIPS 180-4 and RFC 4231. *)
Example sha256_abc :
  words (sha256 (lit "abc")) =
  [0xba7816bf; 0x8f01cfea; 0x414140de; 0x5dae2223; 0xb00361a3; 0x96177a9c; 0xb410ff61; 0xf20015ad].
Proof. vm_compute. reflexivity. Qed.
Example sha256_empty :
  words (sha256 []) =
  [0xe3b0c442; 0x98fc1c14; 0x9afbf4c8; 0x996fb924; 0x27ae41e4; 0x649b934c; 0xa495991b; 0x7852b855].
Proof. vm_compute. reflexivity. Qed.
Example hmac_jefe :
  words (hmac_sha256 (lit "Jefe") (lit "what do ya want for nothing?")) =
  [0x5bdcc146; 0xbf60754e; 0x6a042426; 0x089575c7; 0x5a003f08; 0x9d273983; 0x9dec58b9; 0x64ec3843].
Proof. vm_compute. reflexivity. Qed.

(** ** Padding *)

(** The number of zero bytes FIPS 180-4 asks for: the least [k] with
    [len + 1 + k = 56 (mod 64)]. *)
Definition zero_count (len : nat) : nat := (119 - len mod 64) mod 64.

Lemma zero_count_cases len :
  zero_count len = (if len mod 64 <=? 55 then 55 - len mod 64 else 119 - len mod 64)%nat.
Proof.
  unfold zero_count. assert (H := Nat.mod_upper_bound len 64 ltac:(lia)).
  generalize dependent (len mod 64)%nat. intros r Hr. destruct (Nat.leb_spec r 55).
  - symmetry. apply (Nat.mod_unique _ _ 1); lia.
  - apply Nat.mod_small. lia.
Qed.

Lemma zero_count_spec len :
  ((len + 1 + zero_count len) mod 64 = 56 /\ (zero_count len < 64) /\
   (forall k, (len + 1 + k) mod 64 = 56 -> zero_count len <= k))%nat.
Proof.
  assert (H := Nat.mod_upper_bound len 64 ltac:(lia)). pose proof (Nat.div_mod_eq len 64) as E.
  rewrite zero_count_cases. set (q := (len / 64)%nat) in *. set (r := (len mod 64)%nat) in *.
  clearbody q r. destruct (Nat.leb_spec r 55).
  - split; [symmetry; apply (Nat.mod_unique _ _ q); lia|]. split; [lia|]. intros k Hk.
    pose proof (Nat.div_mod_eq (len + 1 + k) 64). lia.
  - split; [symmetry; apply (Nat.mod_unique _ _ (q + 1)); lia|]. split; [lia|]. intros k Hk.
    pose proof (Nat.div_mod_eq (len + 1 + k) 64). lia.
Qed.

Lemma zeros_loop msg k fuel : (k < fuel)%nat -> ((length msg + k) mod 64 = 56)%nat ->
  (forall j, (length msg + j) mod 64 = 56 -> k <= j)%nat ->
  run zeros_step [] fuel msg = msg ++ replicate k NUL.
Proof.
  revert msg k. induction fuel as [|fuel IH]; intros msg k Hk Hm Hmin; [lia|].
  destruct k as [|k].
  - rewrite Nat.add_0_r in Hm. rewrite (run_exit _ _ _ _ msg); [by rewrite app_nil_r|].
    unfold zeros_step. by rewrite (proj2 (Nat.eqb_eq _ _) Hm).
  - rewrite (run_step _ _ _ _ (msg ++ [NUL])).
    + rewrite (IH _ k); [by rewrite <- app_assoc|lia| |].
      * rewrite length_app. simpl. by replace (length msg + 1 + k)%nat with (length msg + S k)%nat by lia.
      * intros j. rewrite length_app. simpl. intros Hj. specialize (Hmin (S j)).
        replace (length msg + S j)%nat with (length msg + 1 + j)%nat in Hmin by lia. specialize (Hmin Hj). lia.
    + unfold zeros_step. rewrite (proj2 (Nat.eqb_neq _ _)); [done|].
      intros E. specialize (Hmin 0%nat). rewrite Nat.add_0_r in Hmin. specialize (Hmin E). lia.
Qed.

Lemma pad_eq data :
  pad data = data ++ [chr 128] ++ replicate (zero_count (length data)) NUL ++
             be64 ((Z.of_nat (length data) * 8) mod 2 ^ 64).
Proof.
  unfold pad. destruct (zero_count_spec (length data)) as (H1 & H2 & H3).
  rewrite (zeros_loop _ (zero_count (length data))).
  - by rewrite <- !app_assoc.
  - lia.
  - by rewrite length_app.
  - intros j. rewrite length_app. apply H3.
Qed.

Lemma mod_next_byte a b k : 0 <= k ->
  a mod 2 ^ k = b mod 2 ^ k -> (a / 2 ^ k) mod 256 = (b / 2 ^ k) mod 256 ->
  a mod 2 ^ (k + 8) = b mod 2 ^ (k + 8).
Proof.
  intros Hk E1 E2. rewrite Z.pow_add_r by lia. change (2 ^ 8) with 256.
  rewrite !Z.rem_mul_r by lia. by rewrite E1, E2.
Qed.

Lemma be64_inj m n : 0 <= m < 2 ^ 64 -> 0 <= n < 2 ^ 64 -> be64 m = be64 n -> m = n.
Proof.
  intros Hm Hn. unfold be64. cbn [map]. intros [= E7 E6 E5 E4 E3 E2 E1 E0].
  repeat match goal with E : chr _ = chr _ |- _ =>
    apply (f_equal ord) in E; rewrite !ord_chr in E end.
  rewrite !Z.shiftr_div_pow2 in * by lia.
  rewrite <- (Z.mod_small m (2 ^ 64)), <- (Z.mod_small n (2 ^ 64)) by done.
  apply (mod_next_byte m n 56); [done| |exact E7].
  apply (mod_next_byte m n 48); [done| |exact E6].
  apply (mod_next_byte m n 40); [done| |exact E5].
  apply (mod_next_byte m n 32); [done| |exact E4].
  apply (mod_next_byte m n 24); [done| |exact E3].
  apply (mod_next_byte m n 16); [done| |exact E2].
  apply (mod_next_byte m n 8); [done| |exact E1].
  rewrite Z.div_1_r, Z.div_1_r in E0. exact E0.
Qed.

Lemma be64_length n : length (be64 n) = 8%nat.
Proof. done. Qed.

Lemma pad_length data : (length (pad data) mod 64 = 0)%nat.
Proof.
  rewrite pad_eq, !length_app, length_replicate, be64_length. cbn [length].
  destruct (zero_count_spec (length data)) as (H & _ & _).
  pose proof (Nat.div_mod_eq (length data + 1 + zero_count (length data)) 64) as E. rewrite H in E.
  symmetry. apply (Nat.mod_unique _ _ ((length data + 1 + zero_count (length data)) / 64 + 1)); lia.
Qed.

(** The padding of SHA-256. For messages below 2^61 bytes the padding loop
    produces the message, a 0x80 byte, the least number of zero bytes and the
    64-bit length, whole blocks of 64 bytes; and two messages with the same
    padded form are equal, so the padding adds no collisions. *)
Theorem pad_correct d1 d2 :
  Z.of_nat (length d1) < 2 ^ 61 -> Z.of_nat (length d2) < 2 ^ 61 ->
  (length (pad d1) mod 64 = 0)%nat /\
  (exists k, pad d1 = d1 ++ [chr 128] ++ replicate k NUL ++ be64 (8 * Z.of_nat (length d1)) /\
     (k < 64)%nat) /\
  (pad d1 = pad d2 -> d1 = d2).
Proof.
  intros H1 H2. split; [apply pad_length|]. split.
  { exists (zero_count (length d1)). rewrite pad_eq, Z.mod_small by lia. rewrite Z.mul_comm.
    split; [done|]. apply zero_count_spec. }
  rewrite !pad_eq, !Z.mod_small by lia. rewrite !app_assoc. intros E.
  apply app_inj_2 in E as [E1 E2]; [|done]. apply be64_inj in E2; [|lia|lia].
  assert (El : length d1 = length d2) by lia. rewrite <- !app_assoc in E1.
  by apply app_inj_1 in E1 as [-> _].
Qed.
Lemma pad_correct_witness :
  (length (pad (lit "abc")) mod 64 = 0)%nat /\ (pad (lit "abc") = pad (lit "abd") -> lit "abc" = lit "abd").
Proof.
  destruct (pad_correct (lit "abc") (lit "abd") eq_refl eq_refl) as (H1 & _ & H2). split; [exact H1|exact H2].
Defined.

(** ** Message schedule *)

(** FIPS 180-4, 3.2 and 4.1.2, on numbers: the rotation moves the [n] low bits
    to the top. *)
Definition ROTR (n x : Z) : Z := x / 2 ^ n + (x mod 2 ^ n) * 2 ^ (32 - n).
Definition sigma0 (x : Z) : Z := Z.lxor (Z.lxor (ROTR 7 x) (ROTR 18 x)) (x / 2 ^ 3).
Definition sigma1 (x : Z) : Z := Z.lxor (Z.lxor (ROTR 17 x) (ROTR 19 x)) (x / 2 ^ 10).

Definition word32 (x : Z) : Prop := 0 <= x < 2 ^ 32.

Lemma rotr_ROTR x n : word32 x -> 0 < n < 32 -> rotr x n = ROTR n x.
Proof.
  unfold word32. intros Hx Hn. unfold rotr, ROTR, W32.
  rewrite Z.shiftr_div_pow2, Z.shiftl_mul_pow2 by lia.
  assert (E : (x * 2 ^ (32 - n)) mod 2 ^ 32 = (x mod 2 ^ n) * 2 ^ (32 - n)).
  { replace (2 ^ 32) with (2 ^ n * 2 ^ (32 - n)) by (rewrite <- Z.pow_add_r by lia; f_equal; lia).
    apply Z.mul_mod_distr_r; apply Z.pow_nonzero; lia. }
  rewrite E, Z.lor_comm, <- Z.shiftl_mul_pow2 by lia. rewrite lor_shiftl; [|lia|].
  - rewrite Z.shiftl_mul_pow2 by lia. lia.
  - split; [apply Z.div_pos; lia|]. apply Z.div_lt_upper_bound; [apply Z.pow_pos_nonneg; lia|].
    rewrite <- Z.pow_add_r by lia. replace (n + (32 - n)) with 32 by lia. lia.
Qed.

Lemma add32_word a b : word32 (add32 a b).
Proof. apply Z.mod_pos_bound. done. Qed.

Lemma be32_eq b0 b1 b2 b3 :
  be32 b0 b1 b2 b3 = ((ord b0 * 2 ^ 8 + ord b1) * 2 ^ 8 + ord b2) * 2 ^ 8 + ord b3.
Proof.
  pose proof (ord_range b0); pose proof (ord_range b1); pose proof (ord_range b2); pose proof (ord_range b3).
  unfold be32. change 24 with (8 + 16). rewrite <- (Z.shiftl_shiftl (ord b0)) by lia.
  rewrite <- Z.shiftl_lor, (lor_shiftl (ord b0) (ord b1) 8) by lia.
  set (x := ord b0 * 2 ^ 8 + ord b1). change 16 with (8 + 8).
  rewrite <- (Z.shiftl_shiftl x), <- Z.shiftl_lor, (lor_shiftl x (ord b2) 8) by lia.
  by rewrite lor_shiftl by lia.
Qed.

Lemma be32_word b0 b1 b2 b3 : word32 (be32 b0 b1 b2 b3).
Proof.
  pose proof (ord_range b0); pose proof (ord_range b1); pose proof (ord_range b2); pose proof (ord_range b3).
  rewrite be32_eq. unfold word32. lia.
Qed.

Lemma words_spec n s : length s = (4 * n)%nat -> length (words s) = n /\ Forall word32 (words s).
Proof.
  revert s. induction n as [|n IH]; intros s Hs.
  - destruct s; [done|discriminate].
  - do 4 (destruct s as [|? s]; [simpl in Hs; lia|]). cbn [words length] in *.
    destruct (IH s ltac:(lia)) as [-> H]. split; [done|]. constructor; [apply be32_word|done].
Qed.

Lemma at0_app w tl i : (i < length w)%nat -> at0 (w ++ tl) i = at0 w i.
Proof. intros H. unfold at0. by rewrite lookup_app_l. Qed.
Lemma at0_word w i : Forall word32 w -> word32 (at0 w i).
Proof.
  intros H. unfold at0. destruct (w !! i) as [x|] eqn:E; [|done].
  by eapply Forall_lookup in E.
Qed.

Lemma schedule_word_app w tl j : (16 <= j <= length w)%nat -> schedule_word (w ++ tl) j = schedule_word w j.
Proof. intros H. unfold schedule_word. rewrite !at0_app by lia. done. Qed.

Lemma schedule_loop_spec n w : (16 <= length w)%nat -> Forall word32 w ->
  exists tl, schedule_loop n w = w ++ tl /\ length tl = n /\ Forall word32 (w ++ tl) /\
    (forall t, (length w <= t < length w + n)%nat -> at0 (w ++ tl) t = schedule_word (w ++ tl) t).
Proof.
  revert w. induction n as [|n IH]; intros w Hl Hw.
  - exists []. rewrite app_nil_r. repeat split; [done|]. intros; lia.
  - cbn [schedule_loop]. set (x := schedule_word w (length w)).
    destruct (IH (w ++ [x])) as (tl & E & Htl & Hall & Ht).
    + rewrite length_app. lia.
    + apply Forall_app_2; [done|]. repeat constructor; apply add32_word.
    + rewrite <- app_assoc in *. exists (x :: tl). split; [done|]. split; [simpl; lia|]. split; [done|].
      intros t Hlt. rewrite length_app in Ht. destruct (decide (t = length w)) as [->|Hne].
      * rewrite schedule_word_app by lia. unfold at0. by rewrite lookup_pre0.
      * apply Ht. simpl. lia.
Qed.

(** The message schedule of SHA-256. From the 16 words of a 64-byte block
    the code's loop builds 64 words below 2^32 that satisfy the recurrence of
    FIPS 180-4 (with rotations and shifts written as arithmetic on numbers, and
    sums modulo 2^32). *)
Theorem schedule_fips block :
  length block = 64%nat ->
  let W := schedule block in
  length W = 64%nat /\ take 16 W = words block /\ Forall word32 W /\
  forall t, (16 <= t < 64)%nat ->
    at0 W t = (sigma1 (at0 W (t - 2)) + at0 W (t - 7) + sigma0 (at0 W (t - 15)) + at0 W (t - 16)) mod 2 ^ 32.
Proof.
  intros Hb W. destruct (words_spec 16 block Hb) as [Hl Hw].
  destruct (schedule_loop_spec 48 (words block) ltac:(lia) Hw) as (tl & E & Htl & Hall & Ht).
  unfold W, schedule. rewrite E. rewrite length_app, Hl, Htl. split; [done|].
  split; [by rewrite <- Hl, take_app_length|]. split; [done|].
  intros t Hlt. rewrite (Ht t) by lia. unfold schedule_word. cbv zeta.
  set (V := words block ++ tl) in *.
  rewrite !rotr_ROTR by (lia || by apply at0_word). rewrite !Z.shiftr_div_pow2 by lia.
  fold (sigma0 (at0 V (t - 15))) (sigma1 (at0 V (t - 2))). unfold add32, W32.
  rewrite Zplus_mod_idemp_l, <- Z.add_assoc, Zplus_mod_idemp_l.
  apply (f_equal (fun x => x mod 2 ^ 32)). lia.
Qed.
Lemma schedule_fips_witness :
  length (replicate 64 NUL) = 64%nat /\ length (schedule (replicate 64 NUL)) = 64%nat.
Proof.
  split; [reflexivity|]. apply (schedule_fips (replicate 64 NUL) eq_refl).
Defined.

(** ** PBKDF2 against RFC 8018 *)

Lemma sha256_length s : length (sha256 s) = 32%nat.
Proof. unfold sha256. by destruct (blocks _ _ _). Qed.
Lemma hmac_length k s : length (hmac_sha256 k s) = 32%nat.
Proof. apply sha256_length. Qed.

(** RFC 8018, 5.2: [U_1 = PRF (P, S || INT (i))], [U_c = PRF (P, U_(c-1))],
    [T_i] is the exclusive or of the [U]s. *)
Definition U (P S : bytes) (i : Z) (c : nat) : bytes :=
  Nat.iter (c - 1) (hmac_sha256 P) (hmac_sha256 P (S ++ out32 i)).
Definition F (P S : bytes) (c i : Z) : bytes :=
  fold_left xor_bytes (map (U P S i) (seq 2 (Z.to_nat c - 1))) (U P S i 1).

Lemma pbkdf2_rounds_fold P S i n k f :
  (1 <= k)%nat ->
  pbkdf2_rounds n P (U P S i k) f = fold_left xor_bytes (map (U P S i) (seq (k + 1) n)) f.
Proof.
  revert k f. induction n as [|n IH]; intros k f Hk; [done|]. cbn [pbkdf2_rounds seq map fold_left].
  assert (E : hmac_sha256 P (U P S i k) = U P S i (k + 1)).
  { unfold U. replace (k + 1 - 1)%nat with (Datatypes.S (k - 1)) by lia. done. }
  rewrite E, IH by lia. by replace (Datatypes.S (k + 1)) with (k + 1 + 1)%nat by lia.
Qed.

Lemma pbkdf2_block_F P S c i : pbkdf2_block P S c i = F P S c i.
Proof.
  unfold pbkdf2_block, F. change (hmac_sha256 P (S ++ out32 i)) with (U P S i 1).
  rewrite pbkdf2_rounds_fold by lia. do 3 f_equal. lia.
Qed.

Lemma F_length P S c i : length (F P S c i) = 32%nat.
Proof.
  unfold F. assert (HU : forall k, length (U P S i k) = 32%nat).
  { intros k. unfold U. destruct (k - 1)%nat; apply hmac_length. }
  assert (H1 : length (U P S i 1) = 32%nat) by apply HU. revert H1. generalize (U P S i 1) as f.
  induction (seq 2 _) as [|k l IH]; intros f Hf; [done|]. cbn [map fold_left]. apply IH.
  unfold xor_bytes. rewrite length_zip_with, Hf, HU. done.
Qed.

Lemma T_length P S c n a : length (concat (map (fun i => F P S c (Z.of_nat i)) (seq a n))) = (32 * n)%nat.
Proof.
  revert a. induction n as [|n IH]; intros a; [done|]. cbn [seq map concat].
  rewrite length_app, F_length, IH. lia.
Qed.

(** PBKDF2. Below the 32-bit wrap of [dk_len + 31] the code computes the
    derived key of RFC 8018 with HMAC-SHA256: the first [dk_len] bytes of
    T_1 || ... || T_l with l = ceil (dk_len / 32), and the result has exactly
    [dk_len] bytes. *)
Theorem pbkdf2_rfc8018 P S c dk_len :
  0 <= dk_len <= 2 ^ 32 - 32 ->
  let l := Z.to_nat ((dk_len + 31) / 32) in
  pbkdf2_sha256 P S c dk_len =
    take (Z.to_nat dk_len) (concat (map (fun i => F P S c (Z.of_nat i)) (seq 1 l))) /\
  length (pbkdf2_sha256 P S c dk_len) = Z.to_nat dk_len.
Proof.
  intros Hd l. unfold pbkdf2_sha256, block_count, W32. rewrite Z.mod_small by lia. fold l.
  assert (E : map (fun i => pbkdf2_block P S c (Z.of_nat i)) (seq 1 l) =
              map (fun i => F P S c (Z.of_nat i)) (seq 1 l))
    by (apply map_ext; intros; apply pbkdf2_block_F).
  rewrite E. set (T := concat _).
  assert (HT : length T = (32 * l)%nat).
  { apply T_length. }
  assert (Hle : (Z.to_nat dk_len <= 32 * l)%nat).
  { unfold l. assert (dk_len <= 32 * ((dk_len + 31) / 32)) by (Z.to_euclidean_division_equations; lia). lia. }
  unfold resize0. rewrite HT. replace (Z.to_nat dk_len - 32 * l)%nat with 0%nat by lia.
  cbn [replicate]. rewrite app_nil_r. split; [done|]. rewrite length_take. lia.
Qed.
Lemma pbkdf2_rfc8018_witness :
  length (pbkdf2_sha256 (lit "passwd") (lit "salt") 1 40) = 40%nat.
Proof.
  destruct (pbkdf2_rfc8018 (lit "passwd") (lit "salt") 1 40 ltac:(lia)) as [_ H]. exact H.
Defined.

(** RFC 7914, 11. *)
Example pbkdf2_vector :
  words (pbkdf2_sha256 (lit "passwd") (lit "salt") 1 64) =
  [0x55ac046e; 0x56e3089f; 0xec1691c2; 0x2544b605; 0xf9418521; 0x6dde0465; 0xe68b9d57; 0xc20dacbc;
   0x49ca9ccc; 0xf179b645; 0x991664b3; 0x9d77ef31; 0x7c71b845; 0xb1e30bd5; 0x09112041; 0xd3a19783].
Proof. vm_compute. reflexivity. Qed.

(** At 2^32 - 1 the block count wraps to 0: the key is all zeros. *)
Example block_count_wraps : block_count (2 ^ 32 - 1) = 0.
Proof. reflexivity. Qed.

End Crypto.
