(* ===== verification/WebSocket.v ===== *)
(** The WebSocket layer of cpp/src/websocket.cpp: the handshake (SHA-1 and
    Base64), the frame codec and the registry of clients.

    A read outside the buffer is [None]: a [Some] result is memory safety. The
    reference for the decoder is [client_frame], a frame as RFC 6455 lets a
    client write it, in any of the three forms of its length. *)

From S2P Require Import Prelude.
#[local] Open Scope Z_scope.

Module WebSocket.

(** * SHA-1 *)

Definition W32 : Z := 2 ^ 32.
Definition add32 (x y : Z) : Z := (x + y) mod W32.
Definition not32 (x : Z) : Z := W32 - 1 - x.
Definition rotl (v n : Z) : Z := Z.lor (Z.shiftl v n mod W32) (Z.shiftr v (32 - n)).

(** The padded buffer: zeros, with the message, the bit 1 and the bit length. *)
Definition sha1_buf (msg : bytes) : bytes :=
  let len := length msg in
  let new_len := (((len + 8) / 64 + 1) * 64)%nat in
  let bit_len := (Z.of_nat len * 8) mod 2 ^ 64 in
  msg ++ [chr 128] ++ replicate (new_len - 8 - S len) NUL ++
  map (fun i => chr (Z.shiftr bit_len ((7 - i) * 8))) [0; 1; 2; 3; 4; 5; 6; 7].

Definition be32 (b0 b1 b2 b3 : ascii) : Z :=
  Z.lor (Z.lor (Z.lor (Z.shiftl (ord b0) 24) (Z.shiftl (ord b1) 16)) (Z.shiftl (ord b2) 8)) (ord b3).
Fixpoint words (s : bytes) : list Z :=
  match s with
  | b0 :: b1 :: b2 :: b3 :: s' => be32 b0 b1 b2 b3 :: words s'
  | _ => []
  end.

Definition at0 (w : list Z) (i : nat) : Z := default 0 (w !! i).
Definition w_next (w : list Z) : Z :=
  let i := length w in
  rotl (Z.lxor (Z.lxor (Z.lxor (at0 w (i - 3)) (at0 w (i - 8))) (at0 w (i - 14))) (at0 w (i - 16))) 1.
Fixpoint w_loop (n : nat) (w : list Z) : list Z :=
  match n with O => w | S n' => w_loop n' (w ++ [w_next w]) end.

Record regs := MkRegs { ra : Z; rb : Z; rc : Z; rd : Z; re : Z }.

Definition sha1_round (w : list Z) (s : regs) (i : nat) : regs :=
  let '(MkRegs a b c d e) := s in
  let (f, k) :=
    if (i <? 20)%nat then (Z.lor (Z.land b c) (Z.land (not32 b) d), 0x5A827999)
    else if (i <? 40)%nat then (Z.lxor (Z.lxor b c) d, 0x6ED9EBA1)
    else if (i <? 60)%nat then (Z.lor (Z.lor (Z.land b c) (Z.land b d)) (Z.land c d), 0x8F1BBCDC)
    else (Z.lxor (Z.lxor b c) d, 0xCA62C1D6) in
  let t := add32 (add32 (add32 (add32 (rotl a 5) f) e) k) (at0 w i) in
  MkRegs t a (rotl b 30) c d.

Definition sha1_chunk (h : regs) (block : bytes) : regs :=
  let s := fold_left (sha1_round (w_loop 64 (words block))) (seq 0 80) h in
  MkRegs (add32 (ra h) (ra s)) (add32 (rb h) (rb s)) (add32 (rc h) (rc s))
         (add32 (rd h) (rd s)) (add32 (re h) (re s)).

(** [for (size_t chunk = 0; chunk < new_len; chunk += 64)] *)
Fixpoint sha1_chunks (n : nat) (h : regs) (buf : bytes) : regs :=
  match n, buf with
  | S n', _ :: _ => sha1_chunks n' (sha1_chunk h (take 64 buf)) (drop 64 buf)
  | _, _ => h
  end.

Definition out32 (x : Z) : bytes :=
  [chr (Z.shiftr x 24); chr (Z.shiftr x 16); chr (Z.shiftr x 8); chr x].

Definition sha1 (msg : bytes) : bytes :=
  let buf := sha1_buf msg in
  let '(MkRegs a b c d e) := sha1_chunks (length buf)
    (MkRegs 0x67452301 0xEFCDAB89 0x98BADCFE 0x10325476 0xC3D2E1F0) buf in
  out32 a ++ out32 b ++ out32 c ++ out32 d ++ out32 e.

(** * Base64 *)

Definition B64 : bytes := lit "ABCDEFGHIJKLMNOPQRSTUVWXYZabcdefghijklmnopqrstuvwxyz0123456789+/".
Definition b64_char (z : Z) : ascii := default NUL (B64 !! Z.to_nat (Z.land z 63)).

(** The bytes three at a time; the last group may be shorter. *)
Fixpoint base64_encode (data : bytes) : bytes :=
  match data with
  | [] => []
  | [x] =>
      let b := Z.shiftl (ord x) 16 in
      [b64_char (Z.shiftr b 18); b64_char (Z.shiftr b 12); "="%char; "="%char]
  | [x; y] =>
      let b := Z.lor (Z.shiftl (ord x) 16) (Z.shiftl (ord y) 8) in
      [b64_char (Z.shiftr b 18); b64_char (Z.shiftr b 12); b64_char (Z.shiftr b 6); "="%char]
  | x :: y :: z :: r =>
      let b := Z.lor (Z.lor (Z.shiftl (ord x) 16) (Z.shiftl (ord y) 8)) (ord z) in
      b64_char (Z.shiftr b 18) :: b64_char (Z.shiftr b 12) :: b64_char (Z.shiftr b 6)
      :: b64_char b :: base64_encode r
  end.

Definition ws_accept_key (client_key : bytes) : bytes :=
  base64_encode (sha1 (client_key ++ lit "258EAFA5-E914-47DA-95CA-C5AB0DC85B11")).

Definition CRLF : bytes := [CR; LF].
Definition ws_handshake_101 (client_key : bytes) : bytes :=
  lit "HTTP/1.1 101 Switching Protocols" ++ CRLF ++
  lit "Upgrade: websocket" ++ CRLF ++
  lit "Connection: Upgrade" ++ CRLF ++
  lit "Sec-WebSocket-Accept: " ++ ws_accept_key client_key ++ CRLF ++ CRLF.

(** The example of RFC 6455, section 1.3. *)
Example accept_key_rfc6455 :
  ws_accept_key (lit "dGhlIHNhbXBsZSBub25jZQ==") = lit "s3pPLMBiTxaQ9kYGzzhZRbK+xOo=".
Proof. vm_compute. reflexivity. Qed.

(** * Frames the server writes *)

Definition ws_encode_text_frame (payload : bytes) : bytes :=
  let len := Z.of_nat (length payload) in
  [chr 129] ++
  (if len <? 126 then [chr len]
   else if len <? 65536 then [chr 126; chr (Z.land (Z.shiftr len 8) 255); chr (Z.land len 255)]
   else chr 127 :: map (fun i => chr (Z.land (Z.shiftr len (i * 8)) 255)) [7; 6; 5; 4; 3; 2; 1; 0]) ++
  payload.

Definition ws_encode_close_frame : bytes := [chr 136; NUL].

Definition ws_encode_pong_frame (payload : bytes) : bytes :=
  let n := Nat.min (length payload) 125 in
  [chr 138; chr (Z.land (Z.of_nat n) 127)] ++ take n payload.

(** * Frames a client writes *)

Record WsFrame := MkFrame {
  fin : bool; opcode : Z; payload : bytes; consumed : nat; complete : bool; protocol_error : bool
}.

Definition WS_MAX_FRAME : Z := 16 * 1024 * 1024.

Definition byte_at (buf : bytes) (i : nat) : option Z := ord <$> buf !! i.

(** The 64-bit length behind the marker 127, byte by byte. *)
Definition len8 (buf : bytes) : option Z :=
  foldl (fun acc i => plen ← acc; x ← byte_at buf (2 + i); Some (Z.lor (Z.shiftl plen 8) x))
    (Some 0) (seq 0 8).

Definition unmask (mask : list Z) (i : nat) (c : ascii) : ascii :=
  chr (Z.lxor (ord c) (default 0 (mask !! (i mod 4)%nat))).

(** The length field: the length and where the mask starts, [inl] when more
    data is needed or the frame is too long. *)
Definition read_length (buf : bytes) (b1 : Z) : option (unit + Z * nat) :=
  let plen := Z.land b1 127 in
  if plen =? 126 then
    if (length buf <? 4)%nat then Some (inl ())
    else hi ← byte_at buf 2; lo ← byte_at buf 3; Some (inr (Z.lor (Z.shiftl hi 8) lo, 4%nat))
  else if plen =? 127 then
    if (length buf <? 10)%nat then Some (inl ())
    else
      n ← len8 buf;
      Some (if WS_MAX_FRAME <? n then inl () else inr (n, 10%nat))
  else Some (inr (plen, 2%nat)).

Definition ws_try_decode_frame (buf : bytes) : option WsFrame :=
  if (length buf <? 2)%nat then Some (MkFrame true 0 [] 0 false false)
  else
    b0 ← byte_at buf 0;
    b1 ← byte_at buf 1;
    let f := negb (Z.land b0 128 =? 0) in
    let op := Z.land b0 15 in
    let wait := Some (MkFrame f op [] 0 false false) in
    let error := Some (MkFrame f op [] 0 false true) in
    let masked := negb (Z.land b1 128 =? 0) in
    if negb (Z.land b0 112 =? 0) then error
    else if (10 <? op) || ((2 <? op) && (op <? 8)) then error
    else
      len ← read_length buf b1;
      match len with
      | inl _ => wait
      | inr (plen, pos) =>
          if negb (Z.land op 8 =? 0) && ((125 <? plen) || negb f) then error
          else if negb masked then error
          else if (length buf <? pos + 4 + Z.to_nat plen)%nat then wait
          else
            m0 ← byte_at buf pos; m1 ← byte_at buf (pos + 1);
            m2 ← byte_at buf (pos + 2); m3 ← byte_at buf (pos + 3);
            let pos := (pos + 4)%nat in
            let body := imap (unmask [m0; m1; m2; m3]) (substr buf pos (Z.to_nat plen)) in
            Some (MkFrame f op body (pos + Z.to_nat plen) true false)
      end.

Example decode_hello :
  ws_try_decode_frame (map chr [0x81; 0x85; 0x37; 0xfa; 0x21; 0x3d; 0x7f; 0x9f; 0x4d; 0x51; 0x58; 7]) =
  Some (MkFrame true 1 (lit "Hello") 11 true false).
Proof. vm_compute. reflexivity. Qed.

(** * The registry of clients

    [m] is the limit of LOOK_WS_MAX_CONN, 0 for none. *)
Section Registry.
Context {Conn : Type} (m : nat).
Definition Registry := gmap Z Conn.

Definition full (r : Registry) : bool := negb (m =? 0)%nat && (m <=? size r)%nat.
Definition add (fd : Z) (conn : Conn) (r : Registry) : bool * Registry :=
  if full r then (false, r) else (true, <[fd := conn]> r).
Definition remove (fd : Z) (r : Registry) : Registry := delete fd r.
End Registry.

(** * Big-endian numbers *)

Fixpoint be (k : nat) (n : Z) : bytes :=
  match k with O => [] | S k' => be k' (n / 256) ++ [chr n] end.
Definition value (l : bytes) : Z := foldl (fun a c => a * 256 + ord c) 0 l.

Lemma value_snoc l c : value (l ++ [c]) = value l * 256 + ord c.
Proof. unfold value. by rewrite foldl_app. Qed.

Lemma length_be k n : length (be k n) = k.
Proof. revert n. induction k as [|k IH]; intros n; cbn; [done|]. rewrite length_app, IH. cbn. lia. Qed.

Lemma value_be k n : 0 <= n < 256 ^ Z.of_nat k -> value (be k n) = n.
Proof.
  revert n. induction k as [|k IH]; intros n Hn; cbn [be]; [cbn in *; lia|].
  rewrite value_snoc, ord_chr. rewrite Nat2Z.inj_succ, Z.pow_succ_r in Hn by lia.
  rewrite IH; [pose proof (Z.div_mod n 256); lia|].
  split; [apply Z.div_pos; lia|apply Z.div_lt_upper_bound; lia].
Qed.

Lemma value_range l : 0 <= value l < 256 ^ Z.of_nat (length l).
Proof.
  induction l as [|c l IH] using rev_ind; [cbn; lia|].
  rewrite value_snoc, length_app, Nat2Z.inj_add, Z.pow_add_r by lia. pose proof (ord_range c). cbn. lia.
Qed.

Lemma be_value l : be (length l) (value l) = l.
Proof.
  induction l as [|c l IH] using rev_ind; [done|].
  rewrite value_snoc, length_app. cbn [length]. rewrite Nat.add_comm. cbn [be Nat.add].
  pose proof (ord_range c). rewrite Z.div_add_l, (Z.div_small (ord c)), Z.add_0_r, IH by lia.
  f_equal. f_equal. rewrite <- (chr_ord c) at 2. unfold chr. f_equal. f_equal.
  by rewrite Z.add_comm, Z_mod_plus_full.
Qed.

(** * The frames of RFC 6455 *)

Inductive len_form := L7 | L16 | L64.

Record cframe := CFrame {
  c_fin : bool; c_op : Z; c_form : len_form; c_mask : ascii * ascii * ascii * ascii; c_payload : bytes
}.

Definition form_ok (f : len_form) (n : Z) : Prop :=
  match f with L7 => n < 126 | L16 => n < 65536 | L64 => n <= WS_MAX_FRAME end.

(** Text, binary and continuation frames, and the three control frames, which
    are short and not fragmented. *)
Definition legal (c : cframe) : Prop :=
  let n := Z.of_nat (length (c_payload c)) in
  form_ok (c_form c) n /\
  (c_op c ∈ [0; 1; 2] \/ (c_op c ∈ [8; 9; 10] /\ c_fin c = true /\ n <= 125)).

Definition len_bytes (f : len_form) (n : Z) : Z * bytes :=
  match f with L7 => (n, []) | L16 => (126, be 2 n) | L64 => (127, be 8 n) end.

Definition mask_list (m : ascii * ascii * ascii * ascii) : bytes :=
  let '(m0, m1, m2, m3) := m in [m0; m1; m2; m3].

Definition client_header (c : cframe) : bytes :=
  let (l, ext) := len_bytes (c_form c) (Z.of_nat (length (c_payload c))) in
  [chr ((if c_fin c then 128 else 0) + c_op c); chr (128 + l)] ++ ext ++ mask_list (c_mask c).
Definition masked (c : cframe) : bytes :=
  imap (unmask (map ord (mask_list (c_mask c)))) (c_payload c).
Definition client_frame (c : cframe) : bytes := client_header c ++ masked c.

Lemma lxor_byte x y : 0 <= x < 256 -> 0 <= y < 256 -> 0 <= Z.lxor x y < 256.
Proof.
  intros Hx Hy. split; [apply Z.lxor_nonneg; lia|].
  destruct (Z.eq_dec (Z.lxor x y) 0) as [->|Hz]; [lia|].
  change 256 with (2 ^ 8). apply Z.log2_lt_pow2; [pose proof (proj2 (Z.lxor_nonneg x y)); lia|].
  eapply Z.le_lt_trans; [apply Z.log2_lxor; lia|].
  assert (Z.log2 x < 8 /\ Z.log2 y < 8); [|lia].
  split; (destruct (Z.eq_dec x 0), (Z.eq_dec y 0); subst; try (cbn; lia));
    apply Z.log2_lt_pow2; cbn; lia.
Qed.

Lemma unmask_twice (ms : bytes) i c : unmask (map ord ms) i (unmask (map ord ms) i c) = c.
Proof.
  unfold unmask. set (x := default 0 _).
  assert (Hx : 0 <= x < 256).
  { unfold x. rewrite list_lookup_fmap. destruct (ms !! _) as [m|]; cbn; [apply ord_range|lia]. }
  rewrite ord_chr_small by (apply lxor_byte; [apply ord_range|done]).
  by rewrite Z.lxor_assoc, Z.lxor_nilpotent, Z.lxor_0_r, chr_ord.
Qed.

Lemma masked_back (ms p : bytes) :
  imap (unmask (map ord ms)) (imap (unmask (map ord ms)) p) = p.
Proof.
  apply list_eq. intros i. rewrite !list_lookup_imap.
  destruct (p !! i) as [c|]; cbn; [|done]. by rewrite unmask_twice.
Qed.

(** ** The first two bytes *)

Definition op_legal (op : Z) : bool := negb ((10 <? op) || ((2 <? op) && (op <? 8))).

Lemma byte0_spec c :
  Z.land (ord c) 112 = 0 ->
  c = chr ((if negb (Z.land (ord c) 128 =? 0) then 128 else 0) + Z.land (ord c) 15) /\
  0 <= Z.land (ord c) 15 < 16.
Proof.
  intros H. assert (Hc : negb (Z.land (ord c) 112 =? 0) ||
    ((c =c chr ((if negb (Z.land (ord c) 128 =? 0) then 128 else 0) + Z.land (ord c) 15)) &&
     (0 <=? Z.land (ord c) 15) && (Z.land (ord c) 15 <? 16)) = true)
    by (clear H; revert c; apply all_chars_spec; vm_compute; reflexivity).
  rewrite H in Hc. cbn [Z.eqb negb orb] in Hc. bool_to_prop. split; [done|lia].
Qed.

Lemma byte1_spec c :
  Z.land (ord c) 128 <> 0 -> c = chr (128 + Z.land (ord c) 127) /\ 0 <= Z.land (ord c) 127 < 128.
Proof.
  intros H. assert (Hc : (Z.land (ord c) 128 =? 0) ||
    ((c =c chr (128 + Z.land (ord c) 127)) && (0 <=? Z.land (ord c) 127) && (Z.land (ord c) 127 <? 128))
    = true) by (clear H; revert c; apply all_chars_spec; vm_compute; reflexivity).
  apply Z.eqb_neq in H. rewrite H in Hc. cbn [orb] in Hc. bool_to_prop.
  split; [done|lia].
Qed.

Lemma legal_op_cases op :
  op_legal op = true -> 0 <= op < 16 -> op ∈ [0; 1; 2] \/ op ∈ [8; 9; 10].
Proof.
  unfold op_legal. rewrite negb_true_iff. intros H Hr. bool_to_prop.
  rewrite !elem_of_cons, !elem_of_nil. destruct (Z.ltb_spec 2 op); cbn in *; bool_to_prop; lia.
Qed.

Lemma byte0_enc (f : bool) op :
  op ∈ [0; 1; 2] \/ op ∈ [8; 9; 10] ->
  let b := ord (chr ((if f then 128 else 0) + op)) in
  negb (Z.land b 128 =? 0) = f /\ Z.land b 15 = op /\ Z.land b 112 = 0 /\ op_legal op = true /\
  negb (Z.land op 8 =? 0) = bool_decide (op ∈ [8; 9; 10]).
Proof.
  rewrite !elem_of_cons, !elem_of_nil. intros H.
  destruct_or! H; try done; subst; destruct f; split_and!; vm_compute; reflexivity.
Qed.

Lemma byte1_enc l : 0 <= l < 128 ->
  Z.land (ord (chr (128 + l))) 128 <> 0 /\ Z.land (ord (chr (128 + l))) 127 = l.
Proof.
  intros Hl. rewrite ord_chr_small by lia.
  assert (H : forall c, (ord c <? 128) || (negb (Z.land (ord c) 128 =? 0) &&
    (Z.land (ord c) 127 =? ord c - 128)) = true) by (apply all_chars_spec; vm_compute; reflexivity).
  specialize (H (chr (128 + l))). rewrite ord_chr_small in H by lia.
  apply orb_true_iff in H as [H|H]; bool_to_prop; [lia|]. split; [done|lia].
Qed.

(** ** Reading the length *)

Lemma byte_at_app (l r : bytes) i : (i < length l)%nat -> byte_at (l ++ r) i = byte_at l i.
Proof. intros H. unfold byte_at. by rewrite lookup_app_l. Qed.

Lemma byte_at_Some (l : bytes) i : (i < length l)%nat -> is_Some (byte_at l i).
Proof. intros H. unfold byte_at. destruct (lookup_lt_is_Some_2 l i H) as [c ->]. by eexists. Qed.

Lemma lor_byte x c : Z.lor (Z.shiftl x 8) (ord c) = x * 256 + ord c.
Proof. rewrite lor_shiftl; [done|lia|]. apply ord_range. Qed.

Lemma len8_value b0 b1 ext rest :
  length ext = 8%nat -> len8 (b0 :: b1 :: ext ++ rest) = Some (value ext).
Proof.
  intros H. do 9 (destruct ext as [|? ext]; try done).
  unfold len8, value. cbn [seq foldl mbind option_bind byte_at lookup list_lookup fmap option_fmap
    option_map app Nat.add]. by rewrite !lor_byte.
Qed.

(** The three forms are read back, whatever follows. *)
Lemma read_length_enc f n b0 rest :
  0 <= n -> form_ok f n ->
  let (l, ext) := len_bytes f n in
  0 <= l < 128 /\
  read_length (b0 :: chr (128 + l) :: ext ++ rest) (ord (chr (128 + l))) =
  Some (inr (n, (2 + length ext)%nat)).
Proof.
  intros Hn Hf. destruct f; cbn [form_ok] in Hf; cbn [len_bytes]; unfold read_length.
  - destruct (byte1_enc n ltac:(lia)) as [_ ->]. split; [lia|].
    destruct (Z.eqb_spec n 126), (Z.eqb_spec n 127); try lia. done.
  - destruct (byte1_enc 126 ltac:(lia)) as [_ ->]. split; [lia|]. cbn [Z.eqb Pos.eqb].
    cbn [be app length Nat.ltb Nat.leb]. unfold byte_at.
    cbn [lookup list_lookup fmap option_fmap option_map mbind option_bind].
    rewrite lor_byte. do 3 f_equal. pose proof (value_be 2 n ltac:(cbn; lia)) as Hv.
    unfold value in Hv. cbn [be app foldl] in Hv. lia.
  - destruct (byte1_enc 127 ltac:(lia)) as [_ ->]. split; [lia|]. cbn [Z.eqb Pos.eqb].
    unfold WS_MAX_FRAME in *. rewrite len8_value by apply length_be.
    rewrite value_be by (cbn; lia). cbn [mbind option_bind].
    destruct (Z.ltb_spec (16 * 1024 * 1024) n); [lia|].
    cbn [length]. rewrite length_app, length_be. cbn [Nat.add Nat.ltb Nat.leb]. done.
Qed.

(** Conversely a length that was read is one of the three forms. *)
Lemma read_length_inv b0 c1 tl n pos :
  Z.land (ord c1) 128 <> 0 ->
  read_length (b0 :: c1 :: tl) (ord c1) = Some (inr (n, pos)) ->
  exists f ext rest, 0 <= n /\ form_ok f n /\ len_bytes f n = (Z.land (ord c1) 127, ext) /\
    tl = ext ++ rest /\ pos = (2 + length ext)%nat.
Proof.
  intros Hm. destruct (byte1_spec c1 Hm) as [_ Hr]. unfold read_length.
  destruct (Z.eqb_spec (Z.land (ord c1) 127) 126) as [E|]; [|destruct (Z.eqb_spec (Z.land (ord c1) 127) 127) as [E|]].
  - destruct tl as [|x [|y tl]]; [done..|]. cbn [length Nat.ltb Nat.leb]. unfold byte_at.
    cbn [lookup list_lookup fmap option_fmap option_map mbind option_bind]. intros [= <- <-].
    rewrite lor_byte. exists L16, [x; y], tl. rewrite E. pose proof (ord_range x). pose proof (ord_range y).
    cbn [form_ok len_bytes length app]. split; [lia|]. split; [lia|].
    split; [|done]. by rewrite <- (be_value [x; y]).
  - destruct (length (b0 :: c1 :: tl) <? 10)%nat eqn:El; [done|]. apply Nat.ltb_ge in El. cbn [length] in El.
    rewrite <- (take_drop 8 tl), len8_value by (rewrite length_take; lia). cbn [mbind option_bind].
    set (ext := take 8 tl). destruct (Z.ltb_spec WS_MAX_FRAME (value ext)); [done|]. intros [= <- <-].
    assert (Hl : length ext = 8%nat) by (unfold ext; rewrite length_take; lia).
    exists L64, ext, (drop 8 tl). rewrite E, Hl. pose proof (value_range ext).
    cbn [form_ok len_bytes]. split; [lia|]. split; [done|]. rewrite <- Hl at 1. by rewrite be_value.
  - intros [= <- <-]. exists L7, [], tl. cbn [form_ok len_bytes]. split; [lia|]. split; [lia|done].
Qed.

(** ** The decoder *)

Lemma length_client_frame c :
  length (client_frame c) =
  (6 + length (snd (len_bytes (c_form c) (Z.of_nat (length (c_payload c))))) + length (c_payload c))%nat.
Proof.
  unfold client_frame, client_header, masked. destruct (len_bytes _ _) as [l ext].
  rewrite !length_app, length_imap. destruct c as [? ? ? [[[m0 m1] m2] m3] ?]. cbn. lia.
Qed.

(** What the decoder does once the two bytes and the length are read. *)
Definition body (f : bool) (op : Z) (buf : bytes) (plen : Z) (pos : nat) : option WsFrame :=
  if (length buf <? pos + 4 + Z.to_nat plen)%nat then Some (MkFrame f op [] 0 false false)
  else
    m0 ← byte_at buf pos; m1 ← byte_at buf (pos + 1);
    m2 ← byte_at buf (pos + 2); m3 ← byte_at buf (pos + 3);
    let pos := (pos + 4)%nat in
    Some (MkFrame f op (imap (unmask [m0; m1; m2; m3]) (substr buf pos (Z.to_nat plen)))
                  (pos + Z.to_nat plen) true false).

(** The decoder on at least two bytes. *)
Lemma decode_unfold c0 c1 tl :
  let buf := c0 :: c1 :: tl in
  let f := negb (Z.land (ord c0) 128 =? 0) in
  let op := Z.land (ord c0) 15 in
  let error := Some (MkFrame f op [] 0 false true) in
  ws_try_decode_frame buf =
  if negb (Z.land (ord c0) 112 =? 0) then error
  else if negb (op_legal op) then error
  else
    len ← read_length buf (ord c1);
    match len with
    | inl _ => Some (MkFrame f op [] 0 false false)
    | inr (n, pos) =>
        if negb (Z.land op 8 =? 0) && ((125 <? n) || negb f) then error
        else if Z.land (ord c1) 128 =? 0 then error
        else body f op buf n pos
    end.
Proof.
  intros buf f op error. unfold ws_try_decode_frame.
  replace (length buf <? 2)%nat with false by done.
  change (byte_at buf 0) with (Some (ord c0)). change (byte_at buf 1) with (Some (ord c1)).
  cbn [mbind option_bind]. unfold op_legal, error, op.
  by destruct ((10 <? Z.land (ord c0) 15) || (2 <? Z.land (ord c0) 15) && (Z.land (ord c0) 15 <? 8)),
    (Z.land (ord c1) 128 =? 0).
Qed.

Lemma decode_body c0 c1 tl n pos :
  let buf := c0 :: c1 :: tl in
  let f := negb (Z.land (ord c0) 128 =? 0) in
  let op := Z.land (ord c0) 15 in
  Z.land (ord c0) 112 = 0 -> op_legal op = true -> Z.land (ord c1) 128 <> 0 ->
  read_length buf (ord c1) = Some (inr (n, pos)) ->
  negb (Z.land op 8 =? 0) && ((125 <? n) || negb f) = false ->
  ws_try_decode_frame buf = body f op buf n pos.
Proof.
  intros buf f op H0 Hop H1%Z.eqb_neq Hl Hc. unfold buf. rewrite decode_unfold. fold buf f op.
  rewrite H0, Hop, Hl. cbn [Z.eqb negb mbind option_bind]. by rewrite Hc, H1.
Qed.

Lemma read_length_total c0 c1 tl : is_Some (read_length (c0 :: c1 :: tl) (ord c1)).
Proof.
  unfold read_length. destruct (_ =? 126); [|destruct (_ =? 127); [|by eexists]].
  - destruct tl as [|x [|y tl]]; by eexists.
  - destruct (_ <? 10)%nat eqn:El; [by eexists|]. apply Nat.ltb_ge in El. cbn [length] in El.
    rewrite <- (take_drop 8 tl), len8_value by (rewrite length_take; lia). by eexists.
Qed.

Lemma body_total f op buf n pos :
  exists x, body f op buf n pos = Some x /\ protocol_error x = false /\
    if (length buf <? pos + 4 + Z.to_nat n)%nat then complete x = false /\ consumed x = 0%nat
    else complete x = true.
Proof.
  unfold body. destruct (length buf <? pos + 4 + Z.to_nat n)%nat eqn:El; [by eexists|].
  apply Nat.ltb_ge in El.
  destruct (byte_at_Some buf pos ltac:(lia)) as [m0 ->].
  destruct (byte_at_Some buf (pos + 1) ltac:(lia)) as [m1 ->].
  destruct (byte_at_Some buf (pos + 2) ltac:(lia)) as [m2 ->].
  destruct (byte_at_Some buf (pos + 3) ltac:(lia)) as [m3 ->]. by eexists.
Qed.

(** The mask and the masked payload are read back. *)
Lemma body_client f op (hd : bytes) ms p rest :
  body f op (hd ++ mask_list ms ++ imap (unmask (map ord (mask_list ms))) p ++ rest)
    (Z.of_nat (length p)) (length hd) =
  Some (MkFrame f op p (length hd + 4 + length p) true false).
Proof.
  destruct ms as [[[m0 m1] m2] m3]. cbn [mask_list]. set (mk := [m0; m1; m2; m3]).
  set (e := imap _ p). assert (Hm : length e = length p) by (unfold e; by rewrite length_imap).
  unfold body. rewrite Nat2Z.id, !length_app, Hm. change (length mk) with 4%nat.
  rewrite (proj2 (Nat.ltb_ge _ _)) by lia. unfold byte_at.
  rewrite (lookup_pre0 hd), !(lookup_pre hd), !(lookup_app_l mk) by (cbn; lia).
  change (mk !! 0%nat) with (Some m0). change (mk !! 1%nat) with (Some m1).
  change (mk !! 2%nat) with (Some m2). change (mk !! 3%nat) with (Some m3).
  cbn [fmap option_fmap option_map mbind option_bind].
  do 2 f_equal. rewrite <- Hm, (app_assoc hd).
  replace (length hd + 4)%nat with (length (hd ++ mk)) by (rewrite length_app; done).
  rewrite substr_pre. apply (masked_back mk).
Qed.

Lemma decode_client_frame c rest :
  legal c ->
  ws_try_decode_frame (client_frame c ++ rest) =
  Some (MkFrame (c_fin c) (c_op c) (c_payload c) (length (client_frame c)) true false).
Proof.
  destruct c as [f op fm ms p]. intros [Hfm Hop]. cbn [c_form c_op c_payload c_fin] in *.
  set (n := Z.of_nat (length p)) in *. set (k := CFrame f op fm ms p).
  assert (Hops : op ∈ [0; 1; 2] \/ op ∈ [8; 9; 10]) by tauto.
  destruct (byte0_enc f op Hops) as (B1 & B2 & B3 & B4 & B5).
  set (c0 := chr ((if f then 128 else 0) + op)) in *.
  pose proof (read_length_enc fm n c0 (mask_list ms ++ masked k ++ rest) ltac:(lia) Hfm) as Hl.
  rewrite length_client_frame. unfold client_frame, client_header.
  cbn [c_form c_payload c_fin c_op c_mask k]. fold n c0.
  destruct (len_bytes fm n) as [l ext]. destruct Hl as [Hr Hl]. cbn [snd].
  destruct (byte1_enc l Hr) as [B6 _]. set (c1 := chr (128 + l)) in *.
  replace ((([c0; c1] ++ ext ++ mask_list ms) ++ masked k) ++ rest)
    with (c0 :: c1 :: ext ++ mask_list ms ++ masked k ++ rest) by (rewrite <- !app_assoc; done).
  assert (Hc : negb (Z.land op 8 =? 0) && ((125 <? n) || negb f) = false).
  { rewrite B5. destruct Hop as [Ho|(Ho & -> & Hn)].
    - rewrite bool_decide_eq_false_2; [done|]. revert Ho. rewrite !elem_of_cons, !elem_of_nil. lia.
    - rewrite (proj2 (Z.ltb_ge 125 n)) by lia. apply andb_false_r. }
  pose proof (decode_body c0 c1 (ext ++ mask_list ms ++ masked k ++ rest) n (2 + length ext) B3) as Hd.
  cbv zeta in Hd. rewrite B1, B2 in Hd. rewrite (Hd B4 B6 Hl Hc).
  change (2 + length ext)%nat with (length (c0 :: c1 :: ext)).
  change (c0 :: c1 :: ext ++ mask_list ms ++ masked k ++ rest)
    with ((c0 :: c1 :: ext) ++ mask_list ms ++ masked k ++ rest).
  unfold masked, k at 1. cbn [c_mask c_payload]. unfold n. rewrite body_client.
  do 2 f_equal. cbn [length]. lia.
Qed.

(** A length read from a buffer that is long enough for the frame is a frame. *)
Lemma body_inv c0 c1 tl n pos :
  Z.land (ord c0) 112 = 0 -> op_legal (Z.land (ord c0) 15) = true -> Z.land (ord c1) 128 <> 0 ->
  read_length (c0 :: c1 :: tl) (ord c1) = Some (inr (n, pos)) ->
  negb (Z.land (Z.land (ord c0) 15) 8 =? 0) &&
    ((125 <? n) || negb (negb (Z.land (ord c0) 128 =? 0))) = false ->
  (pos + 4 + Z.to_nat n <= length (c0 :: c1 :: tl))%nat ->
  exists c rest, legal c /\ c0 :: c1 :: tl = client_frame c ++ rest.
Proof.
  intros H0 Hop H1 Hl Hc Hlen. destruct (byte0_spec c0 H0) as [E0 Hr0].
  destruct (byte1_spec c1 H1) as [E1 _].
  destruct (read_length_inv _ _ _ _ _ H1 Hl) as (fm & ext & tl' & Hn & Hfm & Hlb & -> & ->).
  cbn [length] in Hlen. rewrite length_app in Hlen.
  destruct tl' as [|m0 [|m1 [|m2 [|m3 tl']]]]; cbn [length] in Hlen; try lia.
  set (ms := (m0, m1, m2, m3)). set (e := take (Z.to_nat n) tl').
  set (p := imap (unmask (map ord (mask_list ms))) e).
  assert (Hp : Z.of_nat (length p) = n) by (unfold p, e; rewrite length_imap, length_take; lia).
  exists (CFrame (negb (Z.land (ord c0) 128 =? 0)) (Z.land (ord c0) 15) fm ms p), (drop (Z.to_nat n) tl').
  split.
  - unfold legal. cbn [c_form c_op c_payload c_fin]. rewrite Hp. split; [done|].
    destruct (legal_op_cases _ Hop Hr0) as [H|H]; [by left|right]. split; [done|].
    destruct (byte0_enc (negb (Z.land (ord c0) 128 =? 0)) _ (or_intror H)) as (_ & _ & _ & _ & B).
    rewrite B, bool_decide_eq_true_2 in Hc by done. cbn [andb] in Hc. bool_to_prop.
    split; [by apply negb_true_iff, Z.eqb_neq|lia].
  - unfold client_frame, client_header, masked. cbn [c_form c_op c_payload c_fin c_mask].
    rewrite Hp, Hlb, <- E1, <- E0. unfold p. rewrite masked_back, <- !app_assoc. unfold e.
    cbn [app mask_list ms]. by rewrite take_drop.
Qed.

(** The decoder always answers, inside the buffer, and a complete answer is a
    frame at the front of the buffer. *)
Lemma decode_cases buf :
  exists f, ws_try_decode_frame buf = Some f /\
    (complete f = true -> exists c rest, legal c /\ buf = client_frame c ++ rest) /\
    (complete f = false -> consumed f = 0%nat) /\
    (protocol_error f = true -> complete f = false).
Proof.
  destruct buf as [|c0 [|c1 tl]]; [by eexists|by eexists|]. rewrite decode_unfold.
  destruct (Z.eqb_spec (Z.land (ord c0) 112) 0) as [H0|]; cbn [negb]; [|by eexists].
  destruct (op_legal (Z.land (ord c0) 15)) eqn:Hop; cbn [negb]; [|by eexists].
  destruct (read_length_total c0 c1 tl) as [[[]|[n pos]] Hl]; rewrite Hl; cbn [mbind option_bind];
    [by eexists|].
  case_if; [by eexists|]. destruct (Z.eqb_spec (Z.land (ord c1) 128) 0) as [|H1]; [by eexists|].
  destruct (body_total (negb (Z.land (ord c0) 128 =? 0)) (Z.land (ord c0) 15) (c0 :: c1 :: tl) n pos)
    as (x & Hx & Herr & Hcases). exists x. split; [done|]. rewrite Herr.
  destruct (_ <? _)%nat eqn:El; [destruct Hcases as [Hc0 Hc1]; by rewrite Hc0|]. rewrite Hcases.
  apply Nat.ltb_ge in El. split; [|done]. intros _. by apply (body_inv c0 c1 tl n pos).
Qed.

(** ** More data *)

Lemma read_length_app c0 c1 tl rest n pos :
  read_length (c0 :: c1 :: tl) (ord c1) = Some (inr (n, pos)) ->
  read_length (c0 :: c1 :: tl ++ rest) (ord c1) = Some (inr (n, pos)).
Proof.
  unfold read_length. destruct (_ =? 126); [|destruct (_ =? 127); [|done]].
  - by destruct tl as [|x [|y tl]].
  - destruct (_ <? 10)%nat eqn:El; [done|]. apply Nat.ltb_ge in El. cbn [length] in El.
    rewrite <- (take_drop 8 tl), <- app_assoc. rewrite !len8_value by (rewrite length_take; lia).
    intros <-. rewrite (proj2 (Nat.ltb_ge _ 10)); [done|]. cbn [length].
    rewrite !length_app, length_take. lia.
Qed.

(** An answer does not change when more data arrives. *)
Lemma decode_app buf f rest :
  ws_try_decode_frame buf = Some f -> complete f = true \/ protocol_error f = true ->
  ws_try_decode_frame (buf ++ rest) = Some f.
Proof.
  intros Hf [Hc|He].
  { destruct (decode_cases buf) as (f' & Hf' & Hcf & _). rewrite Hf in Hf'. injection Hf' as <-.
    destruct (Hcf Hc) as (c & r & Hl & ->). rewrite decode_client_frame in Hf by done.
    rewrite <- app_assoc. by rewrite decode_client_frame. }
  destruct buf as [|c0 [|c1 tl]];
    [by injection Hf as <-|by injection Hf as <-|].
  cbn [app]. rewrite decode_unfold in *.
  destruct (negb (Z.land (ord c0) 112 =? 0)); [done|]. destruct (negb (op_legal _)); [done|].
  destruct (read_length_total c0 c1 tl) as [[[]|[n pos]] Hl]; rewrite Hl in Hf;
    cbn [mbind option_bind] in Hf; [by injection Hf as <-|].
  rewrite (read_length_app _ _ _ rest _ _ Hl). cbn [mbind option_bind].
  case_if; [done|]. destruct (Z.land (ord c1) 128 =? 0); [done|].
  match type of Hf with body ?f ?op ?b ?n ?pos = _ =>
    destruct (body_total f op b n pos) as (x & Hx & Herr & _) end.
  rewrite Hx in Hf. injection Hf as <-. congruence.
Qed.

(** A proper prefix of a frame waits for more. *)
Lemma decode_prefix c p q :
  legal c -> client_frame c = p ++ q -> q <> [] ->
  exists f, ws_try_decode_frame p = Some f /\ complete f = false /\ protocol_error f = false.
Proof.
  intros Hl Hp Hq. destruct (decode_cases p) as (f & Hf & Hc & _). exists f. split; [done|].
  pose proof (decode_client_frame c [] Hl) as Hd. rewrite app_nil_r, Hp in Hd.
  split; apply not_true_is_false; intros H.
  - destruct (Hc H) as (c' & r & Hl' & ->). rewrite decode_client_frame in Hf by done.
    rewrite <- app_assoc, decode_client_frame in Hd by done. injection Hd as _ _ _ Hlen.
    apply (f_equal length) in Hp. rewrite !length_app in Hp, Hlen.
    destruct q; [done|]. cbn in *. lia.
  - rewrite (decode_app _ _ q Hf (or_intror H)) in Hd. injection Hd as ->. done.
Qed.

(** * Base64 back

    The decoder of RFC 4648: four characters are 24 bits, [=] pads the last
    group. *)
Definition b64_val (c : ascii) : option Z :=
  Z.of_nat <$> find_if (fun d => d =c c) B64.

Fixpoint base64_decode (fuel : nat) (s : bytes) : option bytes :=
  match fuel, s with
  | _, [] => Some []
  | S n, a :: b :: c :: d :: r =>
      x ← b64_val a; y ← b64_val b;
      if (c =c "=") && (d =c "=") && bool_decide (r = []) then Some [chr ((x * 64 + y) / 16)]
      else
        z ← b64_val c;
        if (d =c "=") && bool_decide (r = []) then
          let v := (x * 64 + y) * 64 + z in Some [chr (v / 1024); chr (v / 4)]
        else
          w ← b64_val d; t ← base64_decode n r;
          let v := ((x * 64 + y) * 64 + z) * 64 + w in
          Some (chr (v / 65536) :: chr (v / 256) :: chr v :: t)
  | _, _ => None
  end.

Lemma b64_char_val z : b64_val (b64_char z) = Some (z mod 64) /\ b64_char z <> "="%char.
Proof.
  assert (H : forallb (fun i => bool_decide (b64_val (b64_char i) = Some i) && negb (b64_char i =c "="))
    (map Z.of_nat (seq 0 64)) = true) by (vm_compute; reflexivity).
  rewrite forallb_forall in H. pose proof (Z.mod_pos_bound z 64).
  assert (E : b64_char z = b64_char (z mod 64)).
  { unfold b64_char. change 63 with (Z.ones 6). rewrite !Z.land_ones by lia.
    change (2 ^ 6) with 64. by rewrite Z.mod_mod. }
  specialize (H (z mod 64)). rewrite E. apply andb_true_iff in H as [H1 H2].
  - by bool_to_prop.
  - apply in_map_iff. exists (Z.to_nat (z mod 64)). split; [lia|]. apply in_seq. lia.
Qed.

(** Four groups of six bits make 24. *)
Lemma four_sextets b :
  0 <= b < 2 ^ 24 ->
  ((Z.shiftr b 18 mod 64 * 64 + Z.shiftr b 12 mod 64) * 64 + Z.shiftr b 6 mod 64) * 64 + b mod 64 = b.
Proof.
  intros Hb. rewrite !Z.shiftr_div_pow2 by lia.
  change (2 ^ 18) with (64 * 64 * 64). change (2 ^ 12) with (64 * 64). change (2 ^ 6) with 64.
  change (2 ^ 24) with 16777216 in Hb. rewrite <- !Z.div_div by lia.
  assert (b / 64 / 64 / 64 < 64) by (rewrite !Z.div_div by lia; apply Z.div_lt_upper_bound; lia).
  assert (0 <= b / 64 / 64 / 64) by (rewrite !Z.div_div by lia; apply Z.div_pos; lia).
  rewrite (Z.mod_small (b / 64 / 64 / 64)) by lia.
  pose proof (Z.div_mod b 64). pose proof (Z.div_mod (b / 64) 64). pose proof (Z.div_mod (b / 64 / 64) 64).
  lia.
Qed.

Definition bits24 (x y z : ascii) : Z :=
  Z.lor (Z.lor (Z.shiftl (ord x) 16) (Z.shiftl (ord y) 8)) (ord z).

Lemma bits24_value x y z : bits24 x y z = (ord x * 256 + ord y) * 256 + ord z.
Proof.
  pose proof (ord_range y). pose proof (ord_range z).
  unfold bits24. replace (Z.shiftl (ord x) 16) with (Z.shiftl (Z.shiftl (ord x) 8) 8)
    by (rewrite Z.shiftl_shiftl by lia; done).
  rewrite <- Z.shiftl_lor, !lor_shiftl by (change (2 ^ 8) with 256; lia). done.
Qed.

(** A full group of characters gives its three bytes back. *)
Lemma group_back x y z :
  let b := bits24 x y z in
  let v := ((Z.shiftr b 18 mod 64 * 64 + Z.shiftr b 12 mod 64) * 64 + Z.shiftr b 6 mod 64) * 64 + b mod 64 in
  chr (v / 65536) = x /\ chr (v / 256) = y /\ chr v = z.
Proof.
  intros b v. pose proof (ord_range x). pose proof (ord_range y). pose proof (ord_range z).
  assert (E : v = (ord x * 256 + ord y) * 256 + ord z).
  { subst v b. rewrite four_sextets; apply bits24_value || rewrite bits24_value. lia. }
  rewrite E. split_and!; apply ord_inj; rewrite ord_chr; Z.div_mod_to_equations; lia.
Qed.

Lemma b64_char_eq z : (b64_char z =c "=") = false.
Proof. apply Ascii.eqb_neq, b64_char_val. Qed.

(** The padded groups drop the sextets that are zero. *)
Lemma short_group p q r t :
  0 <= r < 64 -> 0 <= t < 64 ->
  (p * 64 + q) / 16 = (((p * 64 + q) * 64 + r) * 64 + t) / 65536 /\
  ((p * 64 + q) * 64 + r) / 1024 = (((p * 64 + q) * 64 + r) * 64 + t) / 65536 /\
  ((p * 64 + q) * 64 + r) / 4 = (((p * 64 + q) * 64 + r) * 64 + t) / 256.
Proof. intros Hr Ht. split_and!; Z.div_mod_to_equations; lia. Qed.

Lemma base64_back n d :
  (length d < n)%nat -> base64_decode n (base64_encode d) = Some d.
Proof.
  revert d. induction n as [|n IH]; intros d Hn; [lia|].
  destruct d as [|x [|y [|z r]]]; [done|..]; cbn [base64_encode base64_decode];
    rewrite ?(proj1 (b64_char_val _)); cbn [mbind option_bind];
    rewrite ?b64_char_eq, ?Ascii.eqb_refl; cbn [andb];
    rewrite ?bool_decide_eq_true_2 by done; cbv iota.
  - destruct (group_back x NUL NUL) as [E _]. unfold bits24 in E.
    change (ord NUL) with 0 in E. rewrite Z.shiftl_0_l, !Z.lor_0_r in E.
    do 2 f_equal. etrans; [|exact E]. f_equal. apply short_group; by apply Z.mod_pos_bound.
  - destruct (group_back x y NUL) as (E1 & E2 & _). unfold bits24 in E1, E2.
    change (ord NUL) with 0 in E1, E2. rewrite !Z.lor_0_r in E1, E2.
    f_equal. f_equal; [etrans; [|exact E1]|f_equal; etrans; [|exact E2]];
      f_equal; eapply short_group; by apply Z.mod_pos_bound.
  - rewrite (IH r) by (cbn in Hn; lia). cbn [mbind option_bind].
    destruct (group_back x y z) as (E1 & E2 & E3). unfold bits24 in E1, E2, E3.
    rewrite E1, E2, E3. done.
Qed.

Lemma chr_land z : chr (Z.land z 255) = chr z.
Proof.
  apply ord_inj. rewrite !ord_chr. change 255 with (Z.ones 8). rewrite Z.land_ones by lia.
  change (2 ^ 8) with 256. by rewrite Z.mod_mod.
Qed.

(** A frame of more than 16 MB is not refused: it waits for ever, whatever
    follows. *)
Lemma oversized_frame_waits c0 c1 ext rest :
  length ext = 8%nat -> WS_MAX_FRAME < value ext -> Z.land (ord c1) 127 = 127 ->
  Z.land (ord c0) 112 = 0 -> op_legal (Z.land (ord c0) 15) = true ->
  exists f, ws_try_decode_frame (c0 :: c1 :: ext ++ rest) = Some f /\
    complete f = false /\ protocol_error f = false.
Proof.
  intros He Hv H1 H0 Hop. rewrite decode_unfold, H0, Hop. cbn [Z.eqb negb].
  unfold read_length. rewrite H1. cbn [Z.eqb Pos.eqb].
  rewrite (proj2 (Nat.ltb_ge _ 10)) by (cbn [length]; rewrite length_app; lia).
  rewrite len8_value by done. cbn [mbind option_bind].
  rewrite (proj2 (Z.ltb_lt _ _) Hv). by eexists.
Qed.

(** * The theorems *)

(** Decoding a client frame ([ws_try_decode_frame]). On every buffer the
    decoder answers without reading outside it. The answer is complete exactly
    when a frame that RFC 6455 lets a client send, with a length of at most 16
    MB if it is written in 64 bits, stands at the front; it is then that
    frame's final bit, opcode and unmasked payload, and consumes that frame,
    whatever follows it. Otherwise nothing is consumed. A proper prefix of a
    frame is never an error, and an error is final: more data keeps it. *)
Theorem ws_decode_exact buf :
  exists f, ws_try_decode_frame buf = Some f /\
    (complete f = true <-> exists c rest, legal c /\ buf = client_frame c ++ rest) /\
    (forall c rest, legal c -> buf = client_frame c ++ rest ->
       f = MkFrame (c_fin c) (c_op c) (c_payload c) (length (client_frame c)) true false) /\
    (complete f = false -> consumed f = 0%nat) /\
    (forall c q, legal c -> client_frame c = buf ++ q -> q <> [] ->
       complete f = false /\ protocol_error f = false) /\
    (protocol_error f = true ->
       complete f = false /\ forall rest, ws_try_decode_frame (buf ++ rest) = Some f).
Proof.
  destruct (decode_cases buf) as (f & Hf & Hc & Hn & He).
  assert (Hd : forall c rest, legal c -> buf = client_frame c ++ rest ->
    f = MkFrame (c_fin c) (c_op c) (c_payload c) (length (client_frame c)) true false).
  { intros c rest Hl ->. rewrite decode_client_frame in Hf by done. by injection Hf. }
  exists f. split; [done|]. split.
  { split; [done|]. intros (c & rest & Hl & Hb). by rewrite (Hd c rest Hl Hb). }
  split; [done|]. split; [done|]. split.
  - intros c q Hl Hp Hq. destruct (decode_prefix c buf q Hl Hp Hq) as (g & Hg & Hgc & Hge).
    rewrite Hf in Hg. injection Hg as ->. done.
  - intros H. split; [by apply He|]. intros rest. apply decode_app; [done|by right].
Qed.

(** The Base64 of [base64_encode] is that of RFC 4648: its decoder reads
    the bytes back, for any length, and the length of the text is four for
    every three bytes begun. *)
Theorem base64_roundtrip d :
  base64_decode (S (length d)) (base64_encode d) = Some d /\
  length (base64_encode d) = (4 * ((length d + 2) / 3))%nat.
Proof.
  split; [apply base64_back; lia|].
  remember (length d) as n eqn:E. assert (Hn : (length d <= n)%nat) by lia. rewrite E. clear E. revert d Hn.
  induction n as [|n IH]; intros d Hn; [destruct d; [done|cbn in Hn; lia]|].
  destruct d as [|x [|y [|z r]]]; [done..|]. cbn [base64_encode length].
  rewrite IH by (cbn in Hn; lia).
  replace (S (S (S (length r))) + 2)%nat with (length r + 2 + 1 * 3)%nat by lia.
  rewrite Nat.div_add by lia. lia.
Qed.

(** A text frame of the server ([ws_encode_text_frame]): the byte of a
    final text frame, the length in the shortest of the three forms of RFC
    6455, without the mask bit, and the payload unchanged. *)
Theorem text_frame_shortest p :
  Z.of_nat (length p) < 2 ^ 64 ->
  let n := Z.of_nat (length p) in
  let f := if n <? 126 then L7 else if n <? 65536 then L16 else L64 in
  let (l, ext) := len_bytes f n in
  ws_encode_text_frame p = [chr (128 + 1); chr l] ++ ext ++ p /\ 0 <= l < 128 /\
  (f <> L7 -> value ext = n) /\ (f = L7 -> l = n).
Proof.
  intros Hn n f. unfold ws_encode_text_frame. fold n.
  destruct (Z.ltb_spec n 126); [|destruct (Z.ltb_spec n 65536)]; subst f; cbn [len_bytes].
  - split; [done|]. by split; [lia|].
  - rewrite value_be by (cbn; lia). split; [|by split; [lia|]].
    cbn [be app]. by rewrite !chr_land, Z.shiftr_div_pow2 by lia.
  - rewrite value_be by (cbn; lia). split; [|by split; [lia|]].
    cbn [be app map]. rewrite !chr_land, !Z.shiftr_div_pow2, !Z.div_div by lia.
    do 9 (f_equal; try done). by rewrite Z.div_1_r.
Qed.

Lemma text_frame_shortest_witness :
  Z.of_nat (length (lit "hello")) < 2 ^ 64 /\
  ws_encode_text_frame (lit "hello") = [chr (128 + 1); chr 5] ++ lit "hello".
Proof.
  assert (H : Z.of_nat (length (lit "hello")) < 2 ^ 64) by (vm_compute; reflexivity).
  split; [exact H|]. exact (proj1 (text_frame_shortest (lit "hello") H)).
Defined.

End WebSocket.
