(* ===== verification/WsConn.v ===== *)
(** A WebSocket connection of the server: [on_ws_data] and [close_ws] of
    cpp/src/http_server.cpp with the writes of cpp/src/websocket.cpp, and the
    origin check of [handle_ws_upgrade].

    One connection is modelled, with the thread of the event loop: its entry in
    [ws_clients] and [ws_bufs] ([live]: present), the object it points to, and
    the log of what the connection does to the outside. The operating system's
    [send] is a parameter, a function of the number of calls so far and of the
    bytes offered; what it promises is a named hypothesis of the section. *)

From S2P Require Import Prelude WebSocket.
Import WebSocket.
#[local] Open Scope Z_scope.

Module WsConn.

(** What a connection does: bytes that [send] took, a message or a close given
    to the callbacks, the descriptor closed. *)
Inductive event := Sent (b : bytes) | Message (m : bytes) | Closed | CloseFd.

Record Conn := MkConn {
  live : bool; buf : bytes;
  closed : bool; frag_buf : bytes; frag_opcode : Z; frag_active : bool;
  has_message : bool; has_close : bool;
  calls : nat; log : list event
}.

Definition set_buf b (w : Conn) : Conn :=
  MkConn (live w) b (closed w) (frag_buf w) (frag_opcode w) (frag_active w)
    (has_message w) (has_close w) (calls w) (log w).
Definition set_live l b (w : Conn) : Conn :=
  MkConn l b (closed w) (frag_buf w) (frag_opcode w) (frag_active w)
    (has_message w) (has_close w) (calls w) (log w).
Definition set_closed (w : Conn) : Conn :=
  MkConn (live w) (buf w) true (frag_buf w) (frag_opcode w) (frag_active w)
    (has_message w) (has_close w) (calls w) (log w).
Definition set_frag b o a (w : Conn) : Conn :=
  MkConn (live w) (buf w) (closed w) b o a
    (has_message w) (has_close w) (calls w) (log w).
Definition log_event e (w : Conn) : Conn :=
  MkConn (live w) (buf w) (closed w) (frag_buf w) (frag_opcode w) (frag_active w)
    (has_message w) (has_close w) (calls w) (log w ++ [e]).
Definition called (w : Conn) : Conn :=
  MkConn (live w) (buf w) (closed w) (frag_buf w) (frag_opcode w) (frag_active w)
    (has_message w) (has_close w) (S (calls w)) (log w).

(** The entry of a connection that was just accepted. *)
Definition accepted (on_message on_close : bool) : Conn :=
  MkConn true [] false [] 0 false on_message on_close 0 [].

Section Server.

(** [send(fd, p, n)]: how many bytes are taken, not positive for an error. *)
Context (send : nat -> bytes -> Z).

(** [write_all]: the loop over partial writes. The fuel is the number of bytes:
    every call but the failing one takes at least one. *)
Fixpoint write_loop (fuel : nat) (p : bytes) (w : Conn) : bool * Conn :=
  match fuel, p with
  | _, [] => (true, w)
  | O, _ => (false, w)
  | S fuel, _ =>
      let n := send (calls w) p in
      let w := called w in
      if n <=? 0 then (false, set_closed w)
      else write_loop fuel (drop (Z.to_nat n) p) (log_event (Sent (take (Z.to_nat n) p)) w)
  end.
Definition write_all (frame : bytes) (w : Conn) : bool * Conn := write_loop (length frame) frame w.

Definition send_raw (frame : bytes) (w : Conn) : bool * Conn :=
  if closed w then (false, w) else write_all frame w.
Definition send_text (msg : bytes) (w : Conn) : bool * Conn :=
  if closed w then (false, w) else send_raw (ws_encode_text_frame msg) w.
Definition close_conn (w : Conn) : Conn :=
  if closed w then w else snd (write_all ws_encode_close_frame (set_closed w)).

(** [close_ws]: the entries are erased and the descriptor is closed. *)
Definition close_ws (w : Conn) : Conn :=
  log_event CloseFd (set_live false [] (if live w then set_closed w else w)).

Definition ws_deliver (msg : bytes) (w : Conn) : Conn :=
  if has_message w then log_event (Message msg) w else w.
Definition fire_close (w : Conn) : Conn := if has_close w then log_event Closed w else w.

(** The close frame and the flag, of [ws_proto_close] and of a protocol error. *)
Definition ws_proto_close (w : Conn) : Conn := set_closed (snd (send_raw ws_encode_close_frame w)).

Definition WS_MAX_MESSAGE : Z := 16 * 1024 * 1024.

(** How an iteration of the loop ends: another one, [break], or [return]. *)
Inductive next := Again | Break | Return.

(** The second half of the branch of data frames: the limit and the end of a
    fragmented message. *)
Definition ws_fragment (f : bool) (w : Conn) : next * Conn :=
  if WS_MAX_MESSAGE <? Z.of_nat (length (frag_buf w)) then (Break, ws_proto_close w)
  else if f then (Again, ws_deliver (frag_buf w) (set_frag [] (frag_opcode w) false w))
  else (Again, w).

(** A complete frame. *)
Definition ws_frame (frame : WsFrame) (w : Conn) : next * Conn :=
  let op := opcode frame in
  if (op =? 0) || (op =? 1) || (op =? 2) then
    if op =? 0 then
      if negb (frag_active w) then (Break, ws_proto_close w)
      else ws_fragment (fin frame) (set_frag (frag_buf w ++ payload frame) (frag_opcode w) true w)
    else if frag_active w then (Break, ws_proto_close w)
    else if fin frame then (Again, ws_deliver (payload frame) w)
    else ws_fragment (fin frame) (set_frag (payload frame) op true w)
  else if op =? 9 then (Again, snd (send_raw (ws_encode_pong_frame (payload frame)) w))
  else if op =? 8 then (Return, close_ws (fire_close (ws_proto_close w)))
  else (Again, w).

(** The loop over the frames of the buffer; [None] when the decoder reads
    outside the buffer or the fuel is short, which [data_loop_total] excludes. *)
Fixpoint data_loop (fuel : nat) (w : Conn) : option (next * Conn) :=
  match fuel with
  | O => None
  | S fuel =>
      if negb (live w) then Some (Break, w)
      else
        frame ← ws_try_decode_frame (buf w);
        if protocol_error frame then Some (Break, ws_proto_close w)
        else if negb (complete frame) then Some (Break, w)
        else
          match ws_frame frame (set_buf (drop (consumed frame) (buf w)) w) with
          | (Again, w) => data_loop fuel w
          | r => Some r
          end
  end.

(** [on_ws_data]: no data is the end of the connection. *)
Definition on_ws_data (data : bytes) (w : Conn) : option Conn :=
  match data with
  | [] =>
      let gone := live w && negb (closed w) in
      Some (close_ws (if gone then fire_close (set_closed w) else w))
  | _ =>
      if negb (live w) then Some w
      else
        let w := set_buf (buf w ++ data) w in
        if closed w then Some (close_ws w)
        else
          r ← data_loop (S (length (buf w))) w;
          match r with
          | (Return, w) => Some w
          | (_, w) => Some (if closed w then close_ws w else w)
          end
  end.

End Server.

(** * The origin of an upgrade *)

Definition after_scheme (origin : bytes) : bytes :=
  match find_str (lit "://") origin with Some p => drop (p + 3) origin | None => origin end.
Definition cut_slash (h : bytes) : bytes :=
  match find_if (is_c "/") h with Some i => take i h | None => h end.
(** [rfind(':')] and [substr(0, c)]: the port goes. *)
Definition cut_port (h : bytes) : bytes :=
  match rfind_if (is_c ":") h with Some i => take i h | None => h end.
Definition ws_origin_host (origin : bytes) : bytes := cut_port (cut_slash (after_scheme origin)).

(** The decision of [handle_ws_upgrade]: the headers [origin] and [host], when
    the request has them, against the configured list. *)
Definition origin_ok (allowed_origins : list bytes) (origin host : option bytes) : bool :=
  match allowed_origins with
  | _ :: _ =>
      match origin with
      | None => false
      | Some o => existsb (fun allowed => (allowed =s lit "*") || (allowed =s o)) allowed_origins
      end
  | [] =>
      match origin with
      | None => true
      | Some o =>
          let oh := ws_origin_host o in
          let hh := match host with Some h => cut_port h | None => [] end in
          negb ((oh =s []) || (hh =s []) || negb (oh =s hh))
      end
  end.

(** * What happens on a connection

    The threads interleave whole operations: the write lock and the one reader
    per descriptor make each of them atomic for the others. *)
Inductive act := Data (d : bytes) | SendText (m : bytes) | CloseConn.
Definition do_act (send : nat -> bytes -> Z) (a : act) (w : Conn) : option Conn :=
  match a with
  | Data d => on_ws_data send d w
  | SendText m => Some (snd (send_text send m w))
  | CloseConn => Some (close_conn send w)
  end.
Fixpoint do_acts (send : nat -> bytes -> Z) (l : list act) (w : Conn) : option Conn :=
  match l with [] => Some w | a :: l => w ← do_act send a w; do_acts send l w end.

(** ** Nothing after the descriptor is closed *)

Definition quiet (e : event) : bool := match e with Sent _ | Message _ => true | _ => false end.
Definition is_closed_event (e : event) : bool := match e with Closed => true | _ => false end.

(** While the entry is there, the log has no close; afterwards it is a log with
    at most one [Closed], followed by [CloseFd] alone. *)
Definition wf (w : Conn) : Prop :=
  if live w then Forall (fun e => quiet e = true) (log w)
  else closed w = true /\ exists l n, log w = l ++ replicate (S n) CloseFd /\
    Forall (fun e => e <> CloseFd) l /\ (length (filter (fun e => is_closed_event e) l) <= 1)%nat.

(** The operations that only write or deliver keep a live connection so. *)
Definition keeps (w w' : Conn) : Prop :=
  live w' = live w /\ buf w' = buf w /\ (closed w = true -> closed w' = true) /\
  exists l, log w' = log w ++ l /\ Forall (fun e => quiet e = true) l.

(** A field other than the log changed. *)
Ltac same_log := split_and!; [done..|exists []; split; [by rewrite app_nil_r|constructor]].

Lemma keeps_refl w : keeps w w.
Proof. same_log. Qed.

Lemma keeps_trans w1 w2 w3 : keeps w1 w2 -> keeps w2 w3 -> keeps w1 w3.
Proof.
  intros (E1 & B1 & C1 & l1 & L1 & Q1) (E2 & B2 & C2 & l2 & L2 & Q2).
  split; [congruence|]. split; [congruence|]. split; [auto|].
  exists (l1 ++ l2). rewrite L2, L1, app_assoc. split; [done|by apply Forall_app].
Qed.

Lemma keeps_log e w : quiet e = true -> keeps w (log_event e w).
Proof. intros H. split_and!; [done..|]. exists [e]. split; [done|by constructor]. Qed.
Lemma keeps_closed w : keeps w (set_closed w).
Proof. same_log. Qed.
Lemma keeps_frag b o a w : keeps w (set_frag b o a w).
Proof. same_log. Qed.
Lemma keeps_called w : keeps w (called w).
Proof. same_log. Qed.
#[local] Hint Resolve keeps_refl keeps_log keeps_closed keeps_frag keeps_called : look.

Lemma keeps_deliver m w : keeps w (ws_deliver m w).
Proof. unfold ws_deliver. case_if; by auto with look. Qed.

Section AnySocket.
Context (send : nat -> bytes -> Z).

Lemma keeps_write n p w : keeps w (snd (write_loop send n p w)).
Proof.
  revert p w. induction n as [|n IH]; intros [|c p] w; cbn [write_loop snd]; [auto with look..|].
  destruct (_ <=? 0); cbn [snd].
  - eapply keeps_trans; [apply keeps_called|apply keeps_closed].
  - eapply keeps_trans; [apply keeps_called|]. eapply keeps_trans; [|apply IH].
    by apply keeps_log.
Qed.

Lemma keeps_send p w : keeps w (snd (send_raw send p w)).
Proof. unfold send_raw. case_if; [apply keeps_refl|apply keeps_write]. Qed.

Lemma keeps_proto w : keeps w (ws_proto_close send w).
Proof. eapply keeps_trans; [apply keeps_send|apply keeps_closed]. Qed.
#[local] Hint Resolve keeps_deliver keeps_send keeps_proto : look.

Lemma keeps_fragment f w : keeps w (snd (ws_fragment send f w)).
Proof.
  unfold ws_fragment. repeat case_if; cbn [snd]; auto with look.
  eapply keeps_trans; [apply keeps_frag|apply keeps_deliver].
Qed.

(** A frame keeps the connection unless it is a close frame, which ends it. *)
Lemma ws_frame_keeps f w :
  let (n, w') := ws_frame send f w in
  match n with
  | Return => exists w1, keeps w w1 /\ closed w1 = true /\ w' = close_ws (fire_close w1)
  | _ => keeps w w'
  end.
Proof.
  assert (F : forall b o a g, let (n, w') := ws_fragment send g (set_frag b o a w) in
    n <> Return /\ keeps w w').
  { intros b o a g. pose proof (keeps_fragment g (set_frag b o a w)) as H.
    destruct (ws_fragment send g _) as [n w'] eqn:E. split.
    - intros ->. unfold ws_fragment in E. repeat case_in E; by injection E.
    - eapply keeps_trans; [apply keeps_frag|done]. }
  unfold ws_frame.
  repeat match goal with
  | |- context [if ?b then _ else _] => destruct b; try (by auto with look)
  end;
  try match goal with
  | |- context [ws_fragment send ?g (set_frag ?b ?o ?a w)] =>
      specialize (F b o a g); destruct (ws_fragment send g _) as [[] w']; by destruct F
  end.
  exists (ws_proto_close send w). split; [by auto with look|done].
Qed.

(** What a loop leaves: the connection kept, with another buffer, or ended. *)
Definition left_by (n : next) (w w' : Conn) : Prop :=
  exists b, match n with
  | Return => exists w1, keeps (set_buf b w) w1 /\ closed w1 = true /\ w' = close_ws (fire_close w1)
  | _ => keeps (set_buf b w) w'
  end.

Lemma left_by_trans b n w w1 w' : keeps (set_buf b w) w1 -> left_by n w1 w' -> left_by n w w'.
Proof.
  assert (E : forall b1 w2, keeps (set_buf b w) w1 -> keeps (set_buf b1 w1) w2 -> keeps (set_buf b1 w) w2).
  { intros b1 w2 (E1 & _ & C1 & l1 & L1 & Q1) (E2 & B2 & C2 & l2 & L2 & Q2). cbn in *.
    split; [cbn; congruence|]. split; [done|]. split; [cbn; auto|]. exists (l1 ++ l2). cbn.
    rewrite L2, L1, app_assoc. split; [done|by apply Forall_app]. }
  intros H [b1 H1]. exists b1. destruct n; [by eapply E..|].
  destruct H1 as (w2 & K & C & ->). exists w2. split; [by eapply E|done].
Qed.

End AnySocket.

Lemma left_by_self n w : n <> Return -> left_by n w w.
Proof. intros H. exists (buf w). destruct n; [same_log..|done]. Qed.

(** A complete frame is a legal client frame, and taking it off the buffer
    leaves less. *)
Lemma decode_step b f :
  ws_try_decode_frame b = Some f -> complete f = true ->
  exists c rest, legal c /\ b = client_frame c ++ rest /\ drop (consumed f) b = rest /\
    f = MkFrame (c_fin c) (c_op c) (c_payload c) (length (client_frame c)) true false /\
    (length rest < length b)%nat.
Proof.
  intros Hf Hc. destruct (decode_cases b) as (f' & Hf' & H & _). rewrite Hf in Hf'. injection Hf' as <-.
  destruct (H Hc) as (c & rest & Hl & ->). rewrite decode_client_frame in Hf by done.
  injection Hf as <-. exists c, rest. cbn [consumed]. rewrite drop_app_length.
  split_and!; try done. rewrite length_app, length_client_frame. lia.
Qed.

Section AnySocket2.
Context (send : nat -> bytes -> Z).

Lemma data_loop_total n w :
  (length (buf w) < n)%nat ->
  exists r w', data_loop send n w = Some (r, w') /\ r <> Again /\ left_by r w w'.
Proof.
  revert w. induction n as [|n IH]; intros w Hn; [lia|]. cbn [data_loop].
  destruct (live w); cbn [negb]; [|eexists _, _; by split_and!; [..|apply left_by_self]].
  destruct (decode_cases (buf w)) as (f & Hf & _ & _ & He). rewrite Hf. cbn [mbind option_bind].
  destruct (protocol_error f).
  { eexists _, _. split_and!; [done..|]. exists (buf w). destruct w. apply keeps_proto. }
  destruct (complete f) eqn:Ec; cbn [negb]; [|eexists _, _; by split_and!; [..|apply left_by_self]].
  destruct (decode_step _ _ Hf Ec) as (c & rest & Hl & Hb & Hd & _ & Hlen). rewrite Hd.
  pose proof (ws_frame_keeps send f (set_buf rest w)) as K.
  destruct (ws_frame send f (set_buf rest w)) as [r w1]. destruct r.
  - destruct (IH w1) as (r & w' & E & Hr & L); [destruct K as (_ & -> & _); cbn; lia|].
    exists r, w'. split_and!; [done..|]. by eapply left_by_trans.
  - exists Break, w1. split_and!; [done..|]. by exists rest.
  - exists Return, w1. split_and!; [done..|]. by exists rest.
Qed.

(** ** Every operation keeps the invariant *)

Lemma keeps_wf w w' : wf w -> live w = true -> keeps w w' -> wf w' /\ live w' = true.
Proof.
  unfold wf. intros H Hl (E & _ & _ & l & L & Q). rewrite Hl in *. rewrite E, L.
  split; [by apply Forall_app|done].
Qed.

Lemma quiet_no_close l :
  Forall (fun e => quiet e = true) l -> filter (fun e => is_closed_event e) l = [].
Proof.
  induction 1 as [|e l He _ IH]; [done|]. rewrite filter_cons, IH.
  by destruct e.
Qed.

(** The end of a live connection: the callback runs at most once. *)
Lemma close_wf w l :
  live w = true -> log w = l -> Forall (fun e => e <> CloseFd) l ->
  (length (filter (fun e => is_closed_event e) l) <= 1)%nat -> wf (close_ws w).
Proof.
  intros Hl L Q C. unfold close_ws. rewrite Hl. unfold wf. cbn. split; [done|].
  exists l, 0%nat. by rewrite L.
Qed.

Lemma quiet_not_fd l : Forall (fun e => quiet e = true) l -> Forall (fun e => e <> CloseFd) l.
Proof. intros H. eapply Forall_impl; [exact H|]. by intros []. Qed.

Lemma close_fired_wf w : wf w -> live w = true -> wf (close_ws (fire_close w)).
Proof.
  intros H Hl. unfold wf in H. rewrite Hl in H. unfold fire_close.
  pose proof (quiet_no_close _ H) as Q. pose proof (quiet_not_fd _ H) as N.
  case_if; (eapply close_wf; [done|reflexivity| |]); cbn.
  - apply Forall_app. split; [done|by constructor].
  - rewrite filter_app, Q. by apply Nat.eq_le_incl.
  - done.
  - rewrite Q. cbn. lia.
Qed.

Lemma close_wf_any w : wf w -> wf (close_ws w).
Proof.
  destruct (live w) eqn:Hl; intros H.
  - unfold wf in H. rewrite Hl in H. eapply close_wf; [done|reflexivity|by apply quiet_not_fd|].
    rewrite quiet_no_close; [cbn; lia|done].
  - unfold close_ws. rewrite Hl. unfold wf in *. rewrite Hl in H. cbn.
    destruct H as (Hc & l & n & L & Q & C). split; [done|].
    exists l, (S n). rewrite L, <- app_assoc. split; [|done]. f_equal.
    symmetry. apply (replicate_cons_app (S n)).
Qed.

Lemma on_ws_data_wf d w : wf w -> exists w', on_ws_data send d w = Some w' /\ wf w'.
Proof.
  intros H. destruct d as [|c d]; cbn [on_ws_data].
  - eexists. split; [done|]. case_if; [|by apply close_wf_any].
    apply andb_true_iff in Heqb as [Hl _].
    destruct (keeps_wf w (set_closed w) H Hl (keeps_closed w)). by apply close_fired_wf.
  - destruct (live w) eqn:Hl; cbn [negb]; [|by exists w]. set (w0 := set_buf _ w).
    assert (H0 : wf w0) by done. destruct (closed w0); [eexists; split; [done|by apply close_wf_any]|].
    destruct (data_loop_total (S (length (buf w0))) w0) as (r & w' & -> & Hr & b & L); [lia|].
    cbn [mbind option_bind]. destruct r; [done|..].
    + eexists. split; [done|].
      destruct (keeps_wf (set_buf b w0) w' H0 Hl L). case_if; [by apply close_wf_any|done].
    + destruct L as (w1 & K & _ & ->). eexists. split; [done|].
      destruct (keeps_wf (set_buf b w0) w1 H0 Hl K). by apply close_fired_wf.
Qed.

Lemma send_text_keeps m w : keeps w (snd (send_text send m w)).
Proof. unfold send_text. case_if; [apply keeps_refl|apply keeps_send]. Qed.

Lemma close_conn_keeps w : keeps w (close_conn send w).
Proof.
  unfold close_conn. case_if; [apply keeps_refl|].
  eapply keeps_trans; [apply keeps_closed|apply keeps_write].
Qed.

(** Without an entry, the workers' writes find the connection closed. *)
Lemma dead_silent w : wf w -> live w = false ->
  snd (send_text send [] w) = w /\ close_conn send w = w /\ forall m, send_text send m w = (false, w).
Proof.
  unfold wf. intros H Hl. rewrite Hl in H. destruct H as [Hc _].
  unfold send_text, close_conn. by rewrite Hc.
Qed.

Lemma do_act_wf a w : wf w -> exists w', do_act send a w = Some w' /\ wf w'.
Proof.
  intros H. destruct a as [d|m|]; cbn [do_act]; [by apply on_ws_data_wf|..]; eexists; (split; [done|]);
    (destruct (live w) eqn:Hl; [|by destruct (dead_silent w H Hl) as (_ & E1 & E2); rewrite ?E1, ?E2]).
  - by apply (keeps_wf w _ H Hl (send_text_keeps m w)).
  - by apply (keeps_wf w _ H Hl (close_conn_keeps w)).
Qed.

End AnySocket2.

Lemma do_acts_wf send l w : wf w -> exists w', do_acts send l w = Some w' /\ wf w'.
Proof.
  revert w. induction l as [|a l IH]; intros w H; [by exists w|]. cbn [do_acts].
  destruct (do_act_wf send a w H) as (w1 & -> & H1). cbn [mbind option_bind]. by apply IH.
Qed.

(** What follows the first [CloseFd] of a log that ends in them. *)
Lemma after_close (l : list event) n pre post :
  Forall (fun e => e <> CloseFd) l -> l ++ replicate n CloseFd = pre ++ CloseFd :: post ->
  Forall (fun e => e = CloseFd) post.
Proof.
  revert pre. induction l as [|e l IH]; intros pre Hl; cbn [app].
  - intros E. assert (H : Forall (fun e => e = CloseFd) (pre ++ CloseFd :: post))
      by (rewrite <- E; by apply Forall_replicate).
    apply Forall_app in H as [_ H]. by apply Forall_cons in H as [_ H].
  - apply Forall_cons in Hl as [He Hl]. destruct pre as [|x pre]; cbn [app].
    + intros [= -> _]. done.
    + intros [= _ E]. by apply (IH pre).
Qed.

(** C36: the life of a WebSocket connection, whatever the socket's [send]
    answers, for every interleaving of data that arrives (the empty data is the
    client's departure), of messages that workers send and of closes they ask
    for. Every step has a result: no read outside a buffer and no loop without
    end. The close callback runs at most once, and once the descriptor is
    closed nothing is written to it and no callback runs. *)
Theorem ws_lifecycle send acts on_message on_close :
  exists w, do_acts send acts (accepted on_message on_close) = Some w /\
    (length (filter (fun e => is_closed_event e) (log w)) <= 1)%nat /\
    (forall pre post, log w = pre ++ CloseFd :: post -> Forall (fun e => e = CloseFd) post) /\
    (live w = false -> closed w = true /\ CloseFd ∈ log w).
Proof.
  destruct (do_acts_wf send acts (accepted on_message on_close)) as (w & E & H); [by constructor|].
  exists w. split; [done|]. unfold wf in H. destruct (live w).
  - rewrite quiet_no_close by done. split; [cbn; lia|]. split; [|done].
    intros pre post L. rewrite L in H. apply Forall_app in H as [_ H].
    by apply Forall_cons in H as [H _].
  - destruct H as (Hc & l & n & L & Q & C). rewrite L. split; [|split].
    + rewrite filter_app, length_app.
      replace (filter _ (replicate (S n) CloseFd)) with (@nil event) by (clear; by induction n).
      cbn. lia.
    + intros pre post. by apply after_close.
    + intros _. split; [done|]. apply elem_of_app. right. by left.
Qed.

(** * Messages

    The promise of RFC 6455, section 5.4, on whole frames: fragments are put
    together, control frames may stand between them, and a frame out of turn
    ends the connection. [cur] is the message begun, and the end [None] is a
    closed connection. An observation is a byte on the wire or another event:
    how [send] cuts the bytes is not observed. *)
Definition item := (ascii + event)%type.
Definition wire (b : bytes) : list item := map inl b.

Definition obs1 (e : event) : list item := match e with Sent b => wire b | _ => [inr e] end.
Definition obs (l : list event) : list item := concat (map obs1 l).
#[local] Arguments obs : simpl never.

Section Spec.
Context (on_message on_close : bool).

Definition given (m : bytes) : list item := if on_message then [inr (Message m)] else [].
Definition hang_up : list item := wire ws_encode_close_frame ++ [inr CloseFd].
Definition end_close : list item :=
  wire ws_encode_close_frame ++ (if on_close then [inr Closed] else []) ++ [inr CloseFd].

(** One frame: what is observed, and the message begun after it. *)
Definition reassemble1 (cur : option bytes) (c : cframe) : list item * option (option bytes) :=
  let add (m : bytes) :=
    let m := m ++ c_payload c in
    if WS_MAX_MESSAGE <? Z.of_nat (length m) then (hang_up, None)
    else if c_fin c then (given m, Some None)
    else ([], Some (Some m)) in
  match c_op c with
  | 10 => ([], Some cur)
  | 9 => (wire (chr 138 :: chr (Z.of_nat (length (c_payload c))) :: c_payload c), Some cur)
  | 8 => (end_close, None)
  | 0 => match cur with Some m => add m | None => (hang_up, None) end
  | _ => match cur with Some _ => (hang_up, None) | None => add [] end
  end.

Fixpoint reassemble (cur : option bytes) (fs : list cframe) : list item * option (option bytes) :=
  match fs with
  | [] => ([], Some cur)
  | c :: fs =>
      match reassemble1 cur c with
      | (l, Some cur') => let (k, e) := reassemble cur' fs in (l ++ k, e)
      | (l, None) => (l, None)
      end
  end.
End Spec.

Fixpoint feed (send : nat -> bytes -> Z) (chunks : list bytes) (w : Conn) : option Conn :=
  match chunks with [] => Some w | d :: ds => w ← on_ws_data send d w; feed send ds w end.

Lemma obs_app l k : obs (l ++ k) = obs l ++ obs k.
Proof. unfold obs. by rewrite map_app, concat_app. Qed.

Section Up.
Context (send : nat -> bytes -> Z).
(** A socket that is up: every call takes some of the bytes offered. *)
Hypothesis send_up : forall k p, p <> [] -> 0 < send k p <= Z.of_nat (length p).

(** What writing changes: the calls and the log. *)
Definition logged (l : list item) (w w' : Conn) : Prop :=
  exists k n, w' = MkConn (live w) (buf w) (closed w) (frag_buf w) (frag_opcode w) (frag_active w)
    (has_message w) (has_close w) n (log w ++ k) /\ obs k = l.

Lemma logged_refl w : logged [] w w.
Proof. exists [], (calls w). rewrite app_nil_r. by destruct w. Qed.

Lemma logged_trans l1 l2 w1 w2 w3 : logged l1 w1 w2 -> logged l2 w2 w3 -> logged (l1 ++ l2) w1 w3.
Proof.
  intros (k1 & n1 & -> & <-) (k2 & n2 & -> & <-). exists (k1 ++ k2), n2.
  cbn. by rewrite app_assoc, obs_app.
Qed.

Lemma logged_event e w : logged (obs1 e) w (log_event e w).
Proof. exists [e], (calls w). split; [done|]. unfold obs. cbn. by rewrite app_nil_r. Qed.

Lemma logged_called w : logged [] w (called w).
Proof. exists [], (S (calls w)). by rewrite app_nil_r. Qed.

Lemma write_up n p w :
  (length p <= n)%nat -> exists w', write_loop send n p w = (true, w') /\ logged (wire p) w w'.
Proof.
  revert p w. induction n as [|n IH]; intros p w Hn.
  { destruct p; [|cbn in Hn; lia]. exists w. split; [done|apply logged_refl]. }
  destruct p as [|c p]; [exists w; split; [done|apply logged_refl]|]. cbn [write_loop].
  set (q := c :: p) in *. pose proof (send_up (calls w) q ltac:(done)) as Hs.
  destruct (Z.leb_spec (send (calls w) q) 0); [lia|].
  set (k := Z.to_nat _). assert (0 < k <= length q)%nat by (unfold k; lia).
  destruct (IH (drop k q) (log_event (Sent (take k q)) (called w))) as (w' & -> & L); [rewrite length_drop; lia|].
  exists w'. split; [done|]. rewrite <- (take_drop k q) at 1. unfold wire. rewrite map_app.
  eapply logged_trans; [|exact L]. apply (logged_trans []) with (called w); [apply logged_called|].
  apply logged_event.
Qed.

Lemma send_raw_up p w :
  closed w = false -> logged (wire p) w (snd (send_raw send p w)).
Proof.
  intros Hc. unfold send_raw. rewrite Hc. unfold write_all.
  by destruct (write_up (length p) p w) as (w' & -> & L).
Qed.

(** ** The buffer does not matter to a write *)

Lemma write_loop_buf n p b w :
  write_loop send n p (set_buf b w) =
  let (r, w') := write_loop send n p w in (r, set_buf b w').
Proof.
  revert p w. induction n as [|n IH]; intros [|c p] w; [done..|]. cbn [write_loop].
  change (calls (set_buf b w)) with (calls w). destruct (_ <=? 0); [done|].
  exact (IH _ (log_event (Sent (take _ (c :: p))) (called w))).
Qed.

Lemma send_raw_buf p b w : snd (send_raw send p (set_buf b w)) = set_buf b (snd (send_raw send p w)).
Proof.
  unfold send_raw. change (closed (set_buf b w)) with (closed w). destruct (closed w); [done|].
  unfold write_all. rewrite write_loop_buf. by destruct (write_loop _ _ _ _).
Qed.

Lemma proto_buf b w : ws_proto_close send (set_buf b w) = set_buf b (ws_proto_close send w).
Proof. unfold ws_proto_close. by rewrite send_raw_buf. Qed.

Lemma deliver_buf m b w : ws_deliver m (set_buf b w) = set_buf b (ws_deliver m w).
Proof. unfold ws_deliver. cbn. by destruct (has_message w). Qed.

Lemma frag_set_buf x o a b w : set_frag x o a (set_buf b w) = set_buf b (set_frag x o a w).
Proof. done. Qed.

Lemma fragment_buf f b w :
  ws_fragment send f (set_buf b w) = let (r, w') := ws_fragment send f w in (r, set_buf b w').
Proof.
  unfold ws_fragment. cbn [frag_buf set_buf]. rewrite proto_buf, frag_set_buf, deliver_buf.
  by repeat case_if.
Qed.

Lemma ws_frame_buf f b w :
  ws_frame send f (set_buf b w) =
  let (r, w') := ws_frame send f w in (r, match r with Return => w' | _ => set_buf b w' end).
Proof.
  unfold ws_frame. cbn [frag_active set_buf frag_buf frag_opcode].
  rewrite proto_buf, !frag_set_buf, !fragment_buf, deliver_buf, send_raw_buf.
  assert (F : forall g w, (let (r, w') := ws_fragment send g w in (r, set_buf b w')) =
    (let (r, w') := ws_fragment send g w in (r, match r with Return => w' | _ => set_buf b w' end))).
  { intros g v. unfold ws_fragment. by repeat case_if. }
  repeat match goal with
  | |- context [if ?b then _ else _] => destruct b; try done; try apply F
  end.
  f_equal. set (v := ws_proto_close send w). unfold close_ws, fire_close.
  change (has_close (set_buf b v)) with (has_close v).
  destruct (has_close v); cbn [live log_event set_buf]; by destruct (live v).
Qed.

(** ** Chunks *)

Lemma data_loop_more n m w r :
  data_loop send n w = Some r -> (n <= m)%nat -> data_loop send m w = Some r.
Proof.
  revert m w. induction n as [|n IH]; intros m w; [done|]. destruct m as [|m]; [lia|].
  cbn [data_loop]. intros H Hle. destruct (negb (live w)); [done|].
  destruct (ws_try_decode_frame (buf w)) as [f|]; cbn [mbind option_bind] in *; [|done].
  destruct (protocol_error f); [done|]. destruct (negb (complete f)); [done|].
  destruct (ws_frame send f _) as [[] w1]; [apply IH; [done|lia]|done..].
Qed.

(** Two loops with fuel to spare agree. *)
Lemma data_loop_enough n m w :
  (length (buf w) < n)%nat -> (length (buf w) < m)%nat -> data_loop send n w = data_loop send m w.
Proof.
  intros Hn Hm. destruct (data_loop_total send n w Hn) as (r & w' & E & _).
  destruct (data_loop_total send m w Hm) as (r2 & w2 & E2 & _).
  destruct (Nat.le_ge_cases n m) as [H|H].
  - rewrite E. by rewrite (data_loop_more n m w _ E H).
  - rewrite E2. by rewrite (data_loop_more m n w _ E2 H).
Qed.

(** A live connection goes on only while it is not closed. *)
Lemma send_raw_open p w : closed w = false -> closed (snd (send_raw send p w)) = false.
Proof. intros H. destruct (send_raw_up p w H) as (k & n & -> & _). done. Qed.

Lemma deliver_open m w : closed (ws_deliver m w) = closed w.
Proof. unfold ws_deliver. by destruct (has_message w). Qed.

Lemma ws_frame_open f w w' : closed w = false ->
  (ws_frame send f w = (Again, w') -> closed w' = false) /\
  (ws_frame send f w = (Break, w') -> closed w' = true).
Proof.
  intros H. assert (F : forall g v w1, closed v = false ->
    (ws_fragment send g v = (Again, w1) -> closed w1 = false) /\
    (ws_fragment send g v = (Break, w1) -> closed w1 = true)).
  { intros g v w1 Hv. unfold ws_fragment. repeat case_if; split; intros [= <-]; try done.
    by rewrite deliver_open. }
  unfold ws_frame. repeat match goal with
  | |- context [if ?b then _ else _] => destruct b
  end; try (by apply F); split; intros [= <-]; try done; [by rewrite deliver_open|by apply send_raw_open].
Qed.

Definition more (b : bytes) (w : Conn) : Conn := set_buf (buf w ++ b) w.

(** The loop with the fuel of [on_ws_data]. *)
Definition run_loop (w : Conn) : option (next * Conn) := data_loop send (S (length (buf w))) w.

Lemma run_loop_unfold w :
  live w = true ->
  run_loop w =
  (frame ← ws_try_decode_frame (buf w);
   if protocol_error frame then Some (Break, ws_proto_close send w)
   else if negb (complete frame) then Some (Break, w)
   else
     match ws_frame send frame (set_buf (drop (consumed frame) (buf w)) w) with
     | (Again, w) => run_loop w
     | r => Some r
     end).
Proof.
  intros Hl. unfold run_loop at 1. cbn [data_loop]. rewrite Hl. cbn [negb].
  destruct (ws_try_decode_frame (buf w)) as [f|] eqn:Hf; cbn [mbind option_bind]; [|done].
  destruct (protocol_error f); [done|]. destruct (complete f) eqn:Ec; cbn [negb]; [|done].
  destruct (decode_step _ _ Hf Ec) as (c & rest & _ & _ & -> & _ & Hlen).
  pose proof (ws_frame_keeps send f (set_buf rest w)) as K.
  destruct (ws_frame send f _) as [[] w1]; [|done..].
  destruct K as (_ & B & _). apply data_loop_enough; rewrite B; cbn; lia.
Qed.

(** The loop when more data had been there from the start: it goes on where it
    waited, and a connection that ended drops the rest. *)
Lemma run_loop_app b w r w1 :
  live w = true -> closed w = false -> run_loop w = Some (r, w1) ->
  if closed w1 then
    run_loop (more b w) = Some (r, match r with Return => w1 | _ => more b w1 end)
  else r = Break /\ live w1 = true /\ run_loop (more b w) = run_loop (more b w1).
Proof.
  remember (length (buf w)) as n eqn:En. revert w En.
  induction (lt_wf n) as [n _ IH]. intros w -> Hl Hc E. rewrite run_loop_unfold in E by done.
  destruct (decode_cases (buf w)) as (f & Hf & _ & _ & He). rewrite Hf in E. cbn [mbind option_bind] in E.
  destruct (protocol_error f) eqn:Ee; [|destruct (complete f) eqn:Ec; cbn [negb] in E].
  - injection E as <- <-. cbn [closed ws_proto_close set_closed].
    rewrite run_loop_unfold by done. change (buf (more b w)) with (buf w ++ b).
    rewrite (decode_app _ _ b Hf) by (by right). cbn [mbind option_bind]. rewrite Ee.
    unfold more at 1. rewrite proto_buf. do 3 f_equal. unfold more. f_equal.
    by destruct (keeps_proto send w) as (_ & -> & _).
  - destruct (decode_step _ _ Hf Ec) as (c & rest & Hleg & Hb & Hd & Ef & Hlen).
    assert (Ed : drop (consumed f) (buf w ++ b) = rest ++ b).
    { rewrite Ef, Hb, <- app_assoc. cbn [consumed]. apply drop_app_length. }
    rewrite (run_loop_unfold (more b w)) by done. change (buf (more b w)) with (buf w ++ b).
    rewrite (decode_app _ _ b Hf) by (by left). cbn [mbind option_bind]. rewrite Ee, Ec, Ed. cbn [negb].
    change (set_buf (rest ++ b) (more b w)) with (set_buf (rest ++ b) (set_buf rest w)).
    rewrite ws_frame_buf. rewrite Hd in E.
    pose proof (ws_frame_keeps send f (set_buf rest w)) as K.
    destruct (ws_frame_open f (set_buf rest w) (snd (ws_frame send f (set_buf rest w))) Hc) as [O1 O2].
    destruct (ws_frame send f (set_buf rest w)) as [[] w2]; cbn [snd] in *.
    + destruct K as (Kl & Kb & _). cbn in Kl, Kb.
      replace (set_buf (rest ++ b) w2) with (more b w2) by (unfold more; by rewrite Kb).
      eapply (IH (length (buf w2))); [by rewrite Kb|done|congruence|by apply O1|done].
    + injection E as <- <-. rewrite (O2 eq_refl). destruct K as (_ & Kb & _). cbn in Kb.
      unfold more. by rewrite Kb.
    + injection E as <- <-. destruct K as (w1' & _ & C & ->).
      replace (closed (close_ws (fire_close w1'))) with true; [done|].
      unfold close_ws. cbn. case_if; [done|]. unfold fire_close. by case_if.
  - injection E as <- <-. by rewrite Hc.
Qed.

Definition leave (r : next) (w : Conn) : Conn :=
  match r with Return => w | _ => if closed w then close_ws w else w end.

Lemma on_ws_data_live d w :
  d <> [] -> live w = true -> closed w = false ->
  on_ws_data send d w = (r ← run_loop (more d w); Some (leave (fst r) (snd r))).
Proof.
  intros Hd Hl Hc. destruct d as [|c d]; [done|]. cbn [on_ws_data]. rewrite Hl. cbn [negb].
  change (closed (set_buf _ w)) with (closed w). rewrite Hc. fold (more (c :: d) w).
  unfold run_loop. destruct (data_loop send _ (more (c :: d) w)) as [[[] w']|]; done.
Qed.

Lemma on_ws_data_dead d w : d <> [] -> live w = false -> on_ws_data send d w = Some w.
Proof. intros Hd Hl. destruct d as [|c d]; [done|]. cbn [on_ws_data]. by rewrite Hl. Qed.

Lemma run_loop_total w : exists r w', run_loop w = Some (r, w') /\ r <> Again /\ left_by r w w'.
Proof. apply data_loop_total. lia. Qed.

Lemma close_ws_more b w : close_ws (more b w) = close_ws w.
Proof. unfold close_ws. cbn. by destruct (live w). Qed.

Lemma more_app a b w : more (a ++ b) w = more b (more a w).
Proof. unfold more. cbn. by rewrite app_assoc. Qed.

(** Data in two parts is the same as at once. *)
Lemma on_ws_data_app a b w :
  a <> [] -> b <> [] ->
  (w' ← on_ws_data send a w; on_ws_data send b w') = on_ws_data send (a ++ b) w.
Proof.
  intros Ha Hb. assert (Hab : a ++ b <> []) by (by destruct a).
  destruct (live w) eqn:Hl.
  2: { rewrite !(on_ws_data_dead _ w) by done. by apply on_ws_data_dead. }
  destruct (closed w) eqn:Hc.
  { assert (E : forall d, d <> [] -> on_ws_data send d w = Some (close_ws w)).
    { intros [|c d]; [done|]. intros _. cbn [on_ws_data]. rewrite Hl. cbn [negb].
      change (closed (set_buf _ w)) with (closed w). rewrite Hc. f_equal. apply (close_ws_more (c :: d)). }
    rewrite !E by done. by apply on_ws_data_dead. }
  rewrite !on_ws_data_live by done. rewrite more_app.
  destruct (run_loop_total (more a w)) as (r & w1 & E & Hr & L). rewrite E. cbn [mbind option_bind fst snd].
  pose proof (run_loop_app b (more a w) r w1 Hl Hc E) as H. destruct (closed w1) eqn:Hc1.
  - rewrite H. cbn [mbind option_bind fst snd]. destruct r; [done|..]; unfold leave.
    + change (closed (more b w1)) with (closed w1). rewrite Hc1, close_ws_more. by apply on_ws_data_dead.
    + destruct L as (b' & w2 & _ & _ & ->). by apply on_ws_data_dead.
  - destruct H as (-> & Hl1 & ->). unfold leave. rewrite Hc1. by rewrite on_ws_data_live.
Qed.

Lemma feed_concat chunks w :
  Forall (fun d => d <> []) chunks -> chunks <> [] ->
  feed send chunks w = on_ws_data send (concat chunks) w.
Proof.
  intros H. revert w. induction H as [|d ds Hd Hds IH]; intros w; [done|]. intros _. cbn [feed concat].
  destruct ds as [|d2 ds].
  - cbn. rewrite app_nil_r. by destruct (on_ws_data send d w).
  - rewrite <- on_ws_data_app; [|done|apply Forall_cons in Hds as [? _]; by destruct d2].
    destruct (on_ws_data send d w); cbn [mbind option_bind]; [by apply IH|done].
Qed.

(** ** The messages of a stream of frames *)

Section Stream.
Context (om oc : bool).

(** A live connection with the message [cur] begun, and what was observed. *)
Definition in_state (cur : option bytes) (rest : bytes) (l : list item) (w : Conn) : Prop :=
  live w = true /\ closed w = false /\ has_message w = om /\ has_close w = oc /\
  buf w = rest /\ frag_active w = bool_decide (is_Some cur) /\
  (forall m, cur = Some m -> frag_buf w = m) /\ obs (log w) = l.

Lemma at_logged cur rest l k w w' : in_state cur rest l w -> logged k w w' -> in_state cur rest (l ++ k) w'.
Proof.
  intros (H1 & H2 & H3 & H4 & H5 & H6 & H7 & H8) (k' & n & -> & <-).
  unfold in_state. cbn. rewrite obs_app, H8. split_and!; done.
Qed.

Lemma logged_deliver m w : has_message w = om -> logged (given om m) w (ws_deliver m w).
Proof.
  intros H. unfold given, ws_deliver. rewrite H. destruct om; [apply (logged_event (Message m))|apply logged_refl].
Qed.

(** The ends of a connection. *)
Lemma hang_up_obs cur rest l w :
  in_state cur rest l w ->
  let w' := leave Break (ws_proto_close send w) in
  live w' = false /\ obs (log w') = l ++ hang_up.
Proof.
  intros (H1 & H2 & H3 & H4 & H5 & H6 & H7 & H8). unfold leave, ws_proto_close.
  destruct (send_raw_up ws_encode_close_frame w H2) as (k & n & -> & Hk). cbn. rewrite H1. cbn.
  split; [done|]. rewrite !obs_app, H8, Hk. unfold hang_up. by rewrite <- app_assoc.
Qed.

Lemma end_close_obs cur rest l w :
  in_state cur rest l w ->
  let w' := close_ws (fire_close (ws_proto_close send w)) in
  live w' = false /\ obs (log w') = l ++ end_close oc.
Proof.
  intros (H1 & H2 & H3 & H4 & H5 & H6 & H7 & H8). unfold ws_proto_close.
  destruct (send_raw_up ws_encode_close_frame w H2) as (k & n & -> & Hk).
  unfold fire_close, close_ws, end_close. cbn. rewrite H4. destruct oc; cbn; rewrite H1; cbn;
    (split; [done|]); rewrite !obs_app, H8, Hk; by rewrite <- !app_assoc.
Qed.

(** The outcome of a frame. *)
Definition outcome (e : option (option bytes)) (rest : bytes) (l : list item) (n : next) (w : Conn) : Prop :=
  match e with
  | Some cur => n = Again /\ in_state cur rest l w
  | None => n <> Again /\ live (leave n w) = false /\ obs (log (leave n w)) = l
  end.

Lemma fragment_outcome m f rest l w :
  in_state (Some m) rest l w ->
  let (n, w') := ws_fragment send f w in
  let '(k, e) :=
    if WS_MAX_MESSAGE <? Z.of_nat (length m) then (hang_up, None)
    else if f then (given om m, Some None) else ([], Some (Some m)) in
  outcome e rest (l ++ k) n w'.
Proof.
  intros H. pose proof H as (H1 & H2 & H3 & H4 & H5 & H6 & H7 & H8).
  unfold ws_fragment. rewrite (H7 m eq_refl). case_if.
  - split; [done|]. by apply (hang_up_obs _ _ _ _ H).
  - destruct f; cbn [outcome]; (split; [done|]); [|by rewrite app_nil_r].
    eapply at_logged; [|by apply logged_deliver]. unfold in_state. cbn. split_and!; done.
Qed.

Lemma form_bound f n : form_ok f n -> n <= WS_MAX_MESSAGE.
Proof. unfold WS_MAX_MESSAGE. destruct f; cbn [form_ok]; unfold WS_MAX_FRAME; lia. Qed.

Lemma pong_short p :
  Z.of_nat (length p) <= 125 -> ws_encode_pong_frame p = chr 138 :: chr (Z.of_nat (length p)) :: p.
Proof.
  intros H. unfold ws_encode_pong_frame. rewrite Nat.min_l by lia. rewrite take_ge by lia.
  change 127 with (Z.ones 7). rewrite Z.land_ones, Z.mod_small by lia. done.
Qed.

Lemma hang_up_outcome cur rest l w :
  in_state cur rest l w -> outcome None rest (l ++ hang_up) Break (ws_proto_close send w).
Proof. intros H. split; [done|]. by apply (hang_up_obs _ _ _ _ H). Qed.

(** A frame of data, a continuation ([cont]) or the first of a message. *)
Lemma data_outcome (cont : bool) c cur rest l w :
  legal c -> in_state cur rest l w ->
  let (n, w') :=
    if cont then
      if negb (frag_active w) then (Break, ws_proto_close send w)
      else ws_fragment send (c_fin c) (set_frag (frag_buf w ++ c_payload c) (frag_opcode w) true w)
    else if frag_active w then (Break, ws_proto_close send w)
    else if c_fin c then (Again, ws_deliver (c_payload c) w)
    else ws_fragment send (c_fin c) (set_frag (c_payload c) (c_op c) true w) in
  let add (m : bytes) :=
    let m := m ++ c_payload c in
    if WS_MAX_MESSAGE <? Z.of_nat (length m) then (hang_up, None)
    else if c_fin c then (given om m, Some None) else ([], Some (Some m)) in
  let (k, e) :=
    if cont then match cur with Some m => add m | None => (hang_up, None) end
    else match cur with Some _ => (hang_up, None) | None => add [] end in
  outcome e rest (l ++ k) n w'.
Proof.
  intros [Hform _] H. pose proof H as (H1 & H2 & H3 & H4 & H5 & H6 & H7 & H8).
  assert (Hf : forall m o, in_state (Some m) rest l (set_frag m o true w)).
  { intros m o. unfold in_state. cbn. split_and!; try done. by intros ? [= ->]. }
  destruct cont, cur as [m|]; rewrite H6; cbn [bool_decide negb]; try (by eapply hang_up_outcome).
  - rewrite (H7 m eq_refl). apply fragment_outcome, Hf.
  - pose proof (fragment_outcome (c_payload c) (c_fin c) rest l _ (Hf (c_payload c) (c_op c))) as F.
    cbn [app]. rewrite (proj2 (Z.ltb_ge _ _)) in * by (by eapply form_bound).
    destruct (c_fin c); [|done]. split; [done|].
    eapply at_logged; [exact H|by apply logged_deliver].
Qed.

Lemma frame_outcome c cur rest l w :
  legal c -> in_state cur rest l w ->
  let (n, w') := ws_frame send (MkFrame (c_fin c) (c_op c) (c_payload c) (length (client_frame c)) true false) w in
  let (k, e) := reassemble1 om oc cur c in
  outcome e rest (l ++ k) n w'.
Proof.
  intros Hl H. pose proof (data_outcome (c_op c =? 0) c cur rest l w Hl H) as D.
  destruct Hl as [_ Hop]. unfold ws_frame, reassemble1. cbn [opcode fin payload].
  rewrite !elem_of_cons, !elem_of_nil in Hop.
  destruct Hop as [[E|[E|[E|[]]]]|[[E|[E|[E|[]]]] [_ Hn]]]; rewrite E in *;
    cbn [Z.eqb Pos.eqb orb] in *; try exact D.
  - split; [done|]. by apply (end_close_obs _ _ _ _ H).
  - split; [done|]. eapply at_logged; [exact H|]. rewrite <- pong_short by lia.
    apply send_raw_up. by destruct H as (_ & ? & _).
  - split; [done|]. by rewrite app_nil_r.
Qed.

(** A buffer that waits: too short for an answer. *)
Definition waits (p : bytes) : Prop :=
  exists f, ws_try_decode_frame p = Some f /\ complete f = false /\ protocol_error f = false.

Lemma stream_outcome fs cur p l w :
  Forall legal fs -> waits p -> in_state cur (concat (map client_frame fs) ++ p) l w ->
  exists n w', run_loop w = Some (n, w') /\
    let (k, e) := reassemble om oc cur fs in
    match e with
    | Some cur' => in_state cur' p (l ++ k) (leave n w')
    | None => live (leave n w') = false /\ obs (log (leave n w')) = l ++ k
    end.
Proof.
  intros Hfs (f0 & Hf0 & Hc0 & He0). revert cur l w. induction Hfs as [|c fs Hleg Hfs IH]; intros cur l w H;
    pose proof H as (H1 & H2 & _ & _ & H5 & _); rewrite run_loop_unfold by done; rewrite H5;
    cbn [map concat app reassemble].
  - rewrite Hf0. cbn [mbind option_bind]. rewrite He0, Hc0. exists Break, w. split; [done|].
    unfold leave. rewrite H2, app_nil_r. exact H.
  - rewrite <- app_assoc, decode_client_frame by done. cbn [mbind option_bind protocol_error complete negb consumed].
    rewrite drop_app_length. set (rest := concat _ ++ p).
    pose proof (frame_outcome c cur rest l (set_buf rest w) Hleg) as F.
    destruct (ws_frame send _ (set_buf rest w)) as [n w1]. destruct (reassemble1 om oc cur c) as [k e].
    assert (Ha : in_state cur rest l (set_buf rest w)) by (destruct H as (?&?&?&?&?&?&?&?); unfold in_state; cbn; split_and!; done).
    specialize (F Ha). destruct e as [cur'|]; cbn [outcome] in F.
    + destruct F as [-> F]. destruct (IH cur' (l ++ k) w1 F) as (n & w' & E & R). exists n, w'. split; [done|].
      destruct (reassemble om oc cur' fs) as [k' [e'|]]; rewrite app_assoc; exact R.
    + destruct F as (Hn & F). exists n, w1. split; [by destruct n|done].
Qed.

End Stream.
End Up.

(** C6: messages over a WebSocket. A socket that is up takes some of the bytes
    of every call of [send]. Then, however the network cuts a sequence of legal
    client frames into chunks, and whatever prefix of a further frame comes
    last, what the server does is what [reassemble] says of the frames alone:
    every message is given to the callback once, whole and in order, with its
    fragments put together and control frames between them answered by the same
    bytes; the frame that breaks the rules or closes ends the connection and
    nothing after it counts. The waiting prefix stays in the buffer. *)
Theorem ws_stream_refines send on_message on_close chunks fs p :
  (forall k q, q <> [] -> 0 < send k q <= Z.of_nat (length q)) ->
  Forall legal fs -> (p = [] \/ exists c q, legal c /\ client_frame c = p ++ q /\ q <> []) ->
  Forall (fun d => d <> []) chunks -> chunks <> [] ->
  concat chunks = concat (map client_frame fs) ++ p ->
  exists w, feed send chunks (accepted on_message on_close) = Some w /\
    let (l, e) := reassemble on_message on_close None fs in
    obs (log w) = l /\
    match e with
    | Some cur => live w = true /\ closed w = false /\ buf w = p /\
        frag_active w = bool_decide (is_Some cur) /\ (forall m, cur = Some m -> frag_buf w = m)
    | None => live w = false
    end.
Proof.
  intros Hs Hfs Hp Hne Hn Hc. rewrite feed_concat by done. set (a := accepted on_message on_close).
  assert (Hd : concat chunks <> []).
  { destruct chunks as [|d ds]; [done|]. apply Forall_cons in Hne as [? _]. by destruct d. }
  rewrite on_ws_data_live by done. rewrite Hc.
  assert (Hw : waits p).
  { destruct Hp as [->|(c & q & Hl & E & Hq)]; [by eexists|]. by apply (decode_prefix c p q). }
  destruct (stream_outcome send Hs on_message on_close fs None p [] (more (concat (map client_frame fs) ++ p) a)
    Hfs Hw) as (n & w & -> & R); [by unfold in_state; cbn|]. cbn [mbind option_bind fst snd].
  eexists. split; [done|]. destruct (reassemble on_message on_close None fs) as [l [cur|]].
  - by destruct R as (? & ? & _ & _ & ? & ? & ? & ?).
  - by destruct R as [? ?].
Qed.

(** Two fragments of a message with a ping between them, cut inside a header. *)
Definition demo_frames : list cframe :=
  let m := (chr 1, chr 2, chr 3, chr 4) in
  [CFrame false 1 L7 m (lit "Hel"); CFrame true 9 L7 m (lit "?"); CFrame true 0 L16 m (lit "lo")].

Lemma ws_stream_refines_witness :
  let s := concat (map client_frame demo_frames) in
  exists w, feed (fun _ q => Z.of_nat (length q)) [take 11 s; drop 11 s] (accepted true false) = Some w /\
    obs (log w) = wire [chr 138; chr 1; "?"%char] ++ [inr (Message (lit "Hello"))].
Proof.
  intros s.
  assert (H1 : forall (k : nat) (q : bytes), q <> [] -> 0 < Z.of_nat (length q) <= Z.of_nat (length q)).
  { intros _ [|c q] Hq; [done|cbn; lia]. }
  assert (H2 : Forall legal demo_frames).
  { apply Forall_cons_2; [|apply Forall_cons_2; [|apply Forall_cons_2; [|apply Forall_nil_2]]];
      (split; [vm_compute; reflexivity|]); cbn [c_op c_fin]; [left; set_solver|right|left; set_solver].
    split; [set_solver|]. split; [done|vm_compute; discriminate]. }
  assert (H3 : Forall (fun d : bytes => d <> []) [take 11 s; drop 11 s])
    by (repeat constructor; vm_compute; discriminate).
  assert (H4 : concat [take 11 s; drop 11 s] = concat (map client_frame demo_frames) ++ [])
    by (vm_compute; reflexivity).
  destruct (ws_stream_refines (fun _ q => Z.of_nat (length q)) true false _ demo_frames [] H1 H2
    (or_introl eq_refl) H3 ltac:(done) H4) as (w & E & L & _).
  exists w. split; [exact E|]. rewrite L. vm_compute. reflexivity.
Defined.

Lemma cut_port_host h port :
  ":"%char ∉ h ->
  port = [] \/ (exists ds, port = ":"%char :: ds /\ Forall (fun c => isdigit c = true) ds) ->
  cut_port (h ++ port) = h.
Proof.
  intros Hh Hp. unfold cut_port.
  assert (N : forall s, ":"%char ∉ s -> Forall (fun d => is_c ":" d = false) s).
  { intros s Hs. apply Forall_forall. intros d Hd. apply is_c_false. by intros ->. }
  destruct Hp as [->|(ds & -> & Hds)].
  - rewrite app_nil_r. by rewrite (proj2 (rfind_if_None _ _) (N h Hh)).
  - rewrite rfind_if_app_r; [by rewrite take_app_length|done|]. apply N. intros Hd.
    rewrite Forall_forall in Hds. by apply Hds in Hd.
Qed.

Lemma cut_slash_none h : "/"%char ∉ h -> cut_slash h = h.
Proof.
  intros H. unfold cut_slash. rewrite (proj2 (find_if_None _ _)); [done|].
  apply Forall_forall. intros d Hd. apply is_c_false. by intros ->.
Qed.

Lemma after_scheme_host scheme s :
  ":"%char ∉ scheme -> after_scheme (scheme ++ lit "://" ++ s) = s.
Proof.
  intros H. unfold after_scheme. set (t := lit "://").
  assert (E : find_str t (scheme ++ t ++ s) = Some (length scheme)).
  { induction scheme as [|c scheme IH]; [cbn; by destruct s|].
    apply not_elem_of_cons in H as [Hc H]. cbn [app find_str].
    destruct (starts_with t (c :: scheme ++ t ++ s)) eqn:E.
    - apply starts_with_spec in E as [r E]. injection E as -> _. done.
    - by rewrite (IH H). }
  rewrite E, app_assoc. replace (length scheme + 3)%nat with (length (scheme ++ t)) by (rewrite length_app; done).
  apply drop_app_length.
Qed.

(** The origin check of an upgrade. With a list of origins, a request passes
    exactly when it has an [Origin] and the list has it or the star. Without
    one, a request that names an origin, a scheme, a host and perhaps a port,
    passes exactly when that host is not empty and is the host of its [Host]
    header; a request without [Origin] passes. *)
Theorem origin_check allowed origin host :
  (allowed <> [] -> origin_ok allowed origin host = true <->
     exists o, origin = Some o /\ (lit "*" ∈ allowed \/ o ∈ allowed)) /\
  origin_ok [] None host = true /\
  (forall scheme h port,
     ":"%char ∉ scheme -> ":"%char ∉ h -> "/"%char ∉ h ->
     port = [] \/ (exists ds, port = ":"%char :: ds /\ Forall (fun c => isdigit c = true) ds) ->
     origin_ok [] (Some (scheme ++ lit "://" ++ h ++ port)) host = true <->
     h <> [] /\ exists hd, host = Some hd /\ cut_port hd = h).
Proof.
  split; [|split; [done|]].
  - intros Ha. unfold origin_ok. destruct allowed as [|a l]; [done|]. destruct origin as [o|].
    + rewrite existsb_exists. setoid_rewrite orb_true_iff. setoid_rewrite bytes_eqb_eq.
      setoid_rewrite list_elem_of_In. naive_solver.
    + split; [done|by intros (? & ? & _)].
  - intros scheme h port Hs Hh Hsl Hp. unfold origin_ok, ws_origin_host.
    assert (Hport : "/"%char ∉ h ++ port).
    { rewrite not_elem_of_app. split; [done|]. destruct Hp as [->|(ds & -> & Hds)]; [apply not_elem_of_nil|].
      rewrite not_elem_of_cons. split; [done|]. intros Hd. rewrite Forall_forall in Hds. by apply Hds in Hd. }
    rewrite after_scheme_host by done. rewrite cut_slash_none by done.
    rewrite (cut_port_host h port Hh Hp).
    rewrite negb_true_iff, !orb_false_iff, negb_false_iff, !bytes_eqb_neq, bytes_eqb_eq.
    destruct host as [hd|]; naive_solver.
Qed.

Lemma origin_check_witness :
  origin_ok [] (Some (lit "https" ++ lit "://" ++ lit "a.org" ++ lit ":8443")) (Some (lit "a.org:80")) = true.
Proof.
  assert (Hs : ":"%char ∉ lit "https") by (vm_compute; set_solver).
  assert (Hh : ":"%char ∉ lit "a.org") by (vm_compute; set_solver).
  assert (Hl : "/"%char ∉ lit "a.org") by (vm_compute; set_solver).
  assert (Hp : lit ":8443" = [] \/ exists ds, lit ":8443" = ":"%char :: ds /\ Forall (fun c => isdigit c = true) ds).
  { right. exists (lit "8443"). split; [reflexivity|]. by repeat constructor. }
  destruct (origin_check [] None (Some (lit "a.org:80"))) as (_ & _ & H).
  apply (H (lit "https") (lit "a.org") (lit ":8443") Hs Hh Hl Hp).
  split; [discriminate|]. exists (lit "a.org:80"). split; [reflexivity|vm_compute; reflexivity].
Defined.

End WsConn.
