(* ===== verification/Value.v ===== *)
(** The values of the language: [class Value] of
    cpp/include/look/interpreter.h and its operators in
    cpp/src/interpreter.cpp (conversions, arithmetic, concatenation,
    comparison, bit operations).

    A [Value] is the tag and the payload. The shared objects behind [ptr_val]
    (arrays, functions, channels, closures) are locations of a heap, so that two
    values may share one array; a string is its text, since the one operation
    that writes into a shared buffer, [append_in_place], copies it first
    (module [StringCow] below shows that this is enough). *)

From S2P Require Import Prelude CNum.
From Stdlib Require Import SpecFloat.
#[local] Open Scope Z_scope.

Module Value.
Import CNum.

(** * Outcomes

    [Exn m] is a [std::runtime_error] with the message [m]; [Undef] is
    undefined behaviour of C++. *)

Inductive res (A : Type) : Type :=
| Ret (a : A)
| Exn (msg : bytes)
| Undef.
Arguments Ret {A} _.
Arguments Exn {A} _.
Arguments Undef {A}.

#[export] Instance res_ret : MRet res := fun A a => Ret a.
#[export] Instance res_bind : MBind res := fun A B f m =>
  match m with Ret a => f a | Exn e => Exn e | Undef => Undef end.
#[export] Instance res_fmap : FMap res := fun A B f m =>
  match m with Ret a => Ret (f a) | Exn e => Exn e | Undef => Undef end.

Lemma res_bind_Ret {A B} (m : res A) (f : A -> res B) b :
  (m ≫= f) = Ret b <-> exists a, m = Ret a /\ f a = Ret b.
Proof. destruct m; simpl; naive_solver. Qed.

Lemma res_bind_Undef {A B} (m : res A) (f : A -> res B) :
  (m ≫= f) = Undef <-> m = Undef \/ exists a, m = Ret a /\ f a = Undef.
Proof. destruct m; simpl; naive_solver. Qed.

(** [f] on each element from left to right; the first failure ends it. *)
Fixpoint map_res {A B} (f : A -> res B) (l : list A) : res (list B) :=
  match l with
  | [] => Ret []
  | e :: l' => f e ≫= fun s => map_res f l' ≫= fun r => Ret (s :: r)
  end.

Lemma map_res_Ret {A B} (f : A -> res B) l :
  (forall e, e ∈ l -> exists s, f e = Ret s) -> exists r, map_res f l = Ret r.
Proof.
  induction l as [|e l IH]; intros H; [by eexists|]. cbn [map_res].
  destruct (H e) as [s ->]; [by left|]. destruct IH as [r ->]; [intros; apply H; by right|].
  by eexists.
Qed.

Lemma map_res_cases {A B} (f : A -> res B) l :
  (forall e, (exists s, f e = Ret s) \/ f e = Undef) ->
  (exists r, map_res f l = Ret r /\ forall e, e ∈ l -> exists s, f e = Ret s) \/
  map_res f l = Undef.
Proof.
  intros H. induction l as [|e l IH]; cbn [map_res].
  - left. eexists. split; [done|]. intros e He. by apply not_elem_of_nil in He.
  - destruct (H e) as [[s E]| ->]; [|by right]. rewrite E.
    destruct IH as [(r & -> & Hl)| ->]; [left|by right].
    eexists. split; [done|]. intros e' [->|He]%elem_of_cons; [by eexists|by apply Hl].
Qed.

(** * Data *)

Definition loc := positive.

Inductive Value :=
| INT (int_val : Z)
| FLOAT (float_val : double)
| STRING (str : bytes)
| BOOL (bool_val : bool)
| FUNCTION (ptr : option loc)
| ARRAY (ptr : loc)
| CHANNEL (ptr : option loc)
| WEBSOCKET (ptr : option loc)
| SSE_CONN (ptr : option loc)
| BYTECODE_FN (ptr : option loc)
| NONE.

(** The type tag, in the order of [Value::Type]. *)
Inductive Type_ :=
| T_INT | T_FLOAT | T_STRING | T_BOOL | T_FUNCTION | T_ARRAY | T_CHANNEL
| T_WEBSOCKET | T_SSE_CONN | T_BYTECODE_FN | T_NONE.

#[export] Instance Type_eq_dec : EqDecision Type_.
Proof. solve_decision. Defined.

Definition type (v : Value) : Type_ :=
  match v with
  | INT _ => T_INT | FLOAT _ => T_FLOAT | STRING _ => T_STRING | BOOL _ => T_BOOL
  | FUNCTION _ => T_FUNCTION | ARRAY _ => T_ARRAY | CHANNEL _ => T_CHANNEL
  | WEBSOCKET _ => T_WEBSOCKET | SSE_CONN _ => T_SSE_CONN
  | BYTECODE_FN _ => T_BYTECODE_FN | NONE => T_NONE
  end.

Definition type_eqb (t u : Type_) : bool := bool_decide (t = u).

(** [str_ref()]: the text of a string, empty for every other type. *)
Definition str_ref (v : Value) : bytes := match v with STRING s => s | _ => [] end.

(** The arrays of the heap. *)
Definition heap := gmap loc (list Value).
Definition elems (h : heap) (l : loc) : list Value := default [] (h !! l).

(** * Numbers read from a string: [std::stod]

    [strtod] of the C library on any text: leading white space, a sign, then
    a decimal or hexadecimal numeral, [inf], [infinity] or [nan], whatever
    follows being left. [SRange] is the [ERANGE] of an overflow or of an
    inexact subnormal result, which [std::stod] reports as an exception. *)

Inductive stod_result :=
| SInvalid
| SRange
| SVal (d : double) (pos : nat).

(** A mantissa [m * base^-k] read from digits with an optional point:
    the digits' value, how many are fractional, whether there is a digit, and
    the rest. *)
Definition mantissa (base : Z) (s : bytes) : Z * Z * bool * bytes :=
  let has1 := has_digit base s in
  let (m, r) := digits base 0 s in
  match r with
  | c :: f =>
      if (c =c ".") && (has1 || has_digit base f) then
        let (m', r') := digits base m f in
        (m', Z.of_nat (length f - length r'), true, r')
      else (m, 0, has1, r)
  | [] => (m, 0, has1, r)
  end.

(** An exponent [e], [p] with digits behind it; otherwise nothing is read. *)
Definition exponent (lo up : ascii) (s : bytes) : Z * bytes :=
  match s with
  | c :: f =>
      if (c =c lo) || (c =c up) then
        let (neg, f') := sign f in
        if has_digit 10 f' then
          let (x, r) := digits 10 0 f' in ((if neg then - x else x), r)
        else (0, s)
      else (0, s)
  | [] => (0, [])
  end.

Definition neg_if (neg : bool) (d : double) : double := if neg then SFopp d else d.

(** [n / d] (both positive) correctly rounded. *)
Definition float_of_ratio (n d : Z) : double :=
  match n, d with
  | Zpos p, Zpos q => SFdiv prec emax (S754_finite false p 0) (S754_finite false q 0)
  | _, _ => S754_zero false
  end.

(** Is [f] the exact value [n / d]? *)
Definition exact (f : double) (n d : Z) : bool :=
  match f with
  | S754_finite _ m e =>
      if 0 <=? e then Zpos m * 2 ^ e * d =? n else Zpos m * d =? n * 2 ^ (- e)
  | _ => n =? 0
  end.

(** Subnormal or zero. *)
Definition subnormal (f : double) : bool :=
  match f with
  | S754_finite _ m e => Zpos m <? 2 ^ 52
  | S754_zero _ => true
  | _ => false
  end.

Definition ranged (neg : bool) (n d : Z) (pos : nat) : stod_result :=
  let f := if n =? 0 then S754_zero false else float_of_ratio n d in
  match f with
  | S754_infinity _ => SRange
  | _ => if subnormal f && negb (exact f n d) then SRange else SVal (neg_if neg f) pos
  end.

Definition lower (s : bytes) : bytes := map tolower s.

(** The [(n-char-sequence)] that may follow [nan]. *)
Definition nan_tail (s : bytes) : nat :=
  match s with
  | c :: r =>
      if c =c "(" then
        match find_if (fun d => negb (isalnum d || (d =c "_"))) r with
        | Some i => match r !! i with
                    | Some d => if d =c ")" then S (S i) else 0%nat
                    | None => 0%nat
                    end
        | None => 0%nat
        end
      else 0%nat
  | [] => 0%nat
  end.

Definition stod (s : bytes) : stod_result :=
  let s1 := skip_space s in
  let (neg, s2) := sign s1 in
  let used (r : bytes) : nat := (length s - length r)%nat in
  let dec :=
    let '(m, k, ok, r) := mantissa 10 s2 in
    if ok then
      let (x, r') := exponent "e" "E" r in
      let e := x - k in
      if 0 <=? e then ranged neg (m * 10 ^ e) 1 (used r')
      else ranged neg m (10 ^ (- e)) (used r')
    else SInvalid in
  if starts_with (lit "infinity") (lower s2) then
    SVal (S754_infinity neg) (used s2 + 8)
  else if starts_with (lit "inf") (lower s2) then
    SVal (S754_infinity neg) (used s2 + 3)
  else if starts_with (lit "nan") (lower s2) then
    SVal S754_nan (used s2 + 3 + nan_tail (drop 3 s2))
  else if starts_with (lit "0x") (lower s2) then
    let '(m, k, ok, r) := mantissa 16 (drop 2 s2) in
    if ok then
      let (x, r') := exponent "p" "P" r in
      let e := x - 4 * k in
      if 0 <=? e then ranged neg (m * 2 ^ e) 1 (used r')
      else ranged neg m (2 ^ (- e)) (used r')
    else dec
  else dec.

(** [std::stoll(s, &pos)]: its three outcomes. *)
Inductive stoll_result :=
| LInvalid
| LRange
| LVal (z : Z) (pos : nat).

Definition stoll_pos (s : bytes) : stoll_result :=
  let (neg, s2) := sign (skip_space s) in
  if has_digit 10 s2 then
    let (z, r) := digits 10 0 s2 in
    let z := if neg then - z else z in
    if in_int64 z then LVal z (length s - length r) else LRange
  else LInvalid.

Lemma stoll_pos_stoll s :
  stoll s = match stoll_pos s with LVal z _ => Some z | _ => None end.
Proof.
  unfold stoll, stoll_pos. destruct (sign (skip_space s)) as [neg s2].
  destruct (has_digit 10 s2); [|done]. destruct (digits 10 0 s2) as [z r]. cbn [fst].
  by destruct (in_int64 _).
Qed.

(** * Conversions *)

(** [(int64_t)d]: truncation; out of the range of [int64_t], infinity and NaN
    are undefined. *)
Definition int_of_float (d : double) : option Z :=
  match d with
  | S754_zero _ => Some 0
  | S754_finite s m e =>
      let z := if 0 <=? e then Zpos m * 2 ^ e else Zpos m / 2 ^ (- e) in
      let z := if s then - z else z in
      if in_int64 z then Some z else None
  | _ => None
  end.

Definition to_float (v : Value) : double :=
  match v with
  | INT i => float_of_Z i
  | FLOAT d => d
  | STRING s => match stod s with SVal d _ => d | _ => S754_zero false end
  | BOOL b => if b then float_of_Z 1 else S754_zero false
  | _ => S754_zero false
  end.

Definition to_int (v : Value) : res Z :=
  match v with
  | INT i => Ret i
  | FLOAT d => match int_of_float d with Some z => Ret z | None => Undef end
  | STRING s => match stoll s with Some z => Ret z | None => Ret 0 end
  | BOOL b => Ret (if b then 1 else 0)
  | _ => Ret 0
  end.

Definition is_truthy (h : heap) (v : Value) : bool :=
  match v with
  | BOOL b => b
  | INT i => negb (i =? 0)
  | FLOAT d => negb (SFeqb d (S754_zero false))
  | STRING s => negb (s =s []) && negb (s =s lit "0")
  | NONE => false
  | ARRAY l => negb (bool_decide (elems h l = []))
  | CHANNEL p => match p with Some _ => true | None => false end
  | WEBSOCKET p => match p with Some _ => true | None => false end
  | _ => true
  end.

(** [std::to_string(int64_t)] *)
Definition int_to_string (z : Z) : bytes :=
  if z <? 0 then "-"%char :: decimal (- z) else decimal z.

(** "12" or "-3": the text of an integer. *)
Definition look_is_int_key (s : bytes) : bool :=
  match s with
  | [] => false
  | c :: r =>
      let ds := if (c =c "-") || (c =c "+") then r else s in
      match ds with [] => false | _ => forallb isdigit ds end
  end.

(** [val_is_number] *)
Definition val_is_number (t : Type_) : bool := type_eqb t T_INT || type_eqb t T_FLOAT.

(** The comparison of [std::string]: lexicographic on unsigned bytes. *)
Fixpoint bytes_cmp (s t : bytes) : comparison :=
  match s, t with
  | [], [] => Eq
  | [], _ => Lt
  | _, [] => Gt
  | c :: s', d :: t' =>
      match Z.compare (ord c) (ord d) with Eq => bytes_cmp s' t' | o => o end
  end.

(** * Arithmetic *)

Definition err_non_numeric : bytes := lit "Arithmetic on a non-numeric value (null/array/object)".
Definition err_empty : bytes := lit "Arithmetic on an empty string".
Definition err_bignum (s : bytes) : bytes :=
  lit "Arithmetic on a numeric string exceeding the int64 limit (bignum/ID): '" ++ s ++ [SQUOTE].
Definition err_string (s : bytes) : bytes :=
  lit "Arithmetic on a string that cannot be converted to a number: '" ++ s ++ [SQUOTE].
Definition err_div : bytes := lit "Division by zero".
Definition err_mod : bytes := lit "Modulo by zero".

Definition arith_check (v : Value) : res unit :=
  match v with
  | INT _ | FLOAT _ | BOOL _ => Ret tt
  | STRING s =>
      match s with
      | [] => Exn err_empty
      | _ =>
          let float_path :=
            match stod s with
            | SVal _ pos => if (pos =? length s)%nat then Ret tt else Exn (err_string s)
            | _ => Exn (err_string s)
            end in
          match stoll_pos s with
          | LVal _ pos => if (pos =? length s)%nat then Ret tt else float_path
          | LRange => Exn (err_bignum s)
          | LInvalid => float_path
          end
      end
  | _ => Exn err_non_numeric
  end.

Definition is_float (v : Value) : bool := type_eqb (type v) T_FLOAT.

(** The common shape of [operator+], [operator-] and [operator*]. *)
Definition arith2 (ovf : Z -> Z -> Z * bool) (fop : double -> double -> double)
    (v o : Value) : res Value :=
  arith_check v ≫= fun _ =>
  arith_check o ≫= fun _ =>
  if is_float v || is_float o then Ret (FLOAT (fop (to_float v) (to_float o)))
  else
    to_int v ≫= fun a =>
    to_int o ≫= fun b =>
    let (r, over) := ovf a b in
    if over then Ret (FLOAT (fop (float_of_Z a) (float_of_Z b))) else Ret (INT r).

Definition fadd : double -> double -> double := SFadd prec emax.
Definition fsub : double -> double -> double := SFsub prec emax.
Definition fmul : double -> double -> double := SFmul prec emax.
Definition fdiv : double -> double -> double := SFdiv prec emax.

Definition op_add (v o : Value) : res Value := arith2 i64_add_ovf fadd v o.
Definition op_sub (v o : Value) : res Value := arith2 i64_sub_ovf fsub v o.
Definition op_mul (v o : Value) : res Value := arith2 i64_mul_ovf fmul v o.

Definition op_div (v o : Value) : res Value :=
  arith_check v ≫= fun _ =>
  arith_check o ≫= fun _ =>
  let d := to_float o in
  if SFeqb d (S754_zero false) then Exn err_div
  else if is_float v || is_float o then Ret (FLOAT (fdiv (to_float v) d))
  else
    to_int o ≫= fun i =>
    to_int v ≫= fun self_i =>
    if (i =? -1) && (self_i =? INT64_MIN) then Ret (FLOAT (SFopp (float_of_Z self_i)))
    else if negb (i =? 0) && (Z.rem self_i i =? 0) then Ret (INT (Z.quot self_i i))
    else Ret (FLOAT (fdiv (to_float v) d)).

Definition op_mod (v o : Value) : res Value :=
  arith_check v ≫= fun _ =>
  arith_check o ≫= fun _ =>
  to_int o ≫= fun i =>
  if i =? 0 then Exn err_mod
  else if i =? -1 then Ret (INT 0)
  else to_int v ≫= fun a => Ret (INT (Z.rem a i)).

(** The unary minus, the same text in both engines. *)
Definition op_neg (v : Value) : res Value :=
  match v with
  | FLOAT d => Ret (FLOAT (SFopp d))
  | _ => to_int v ≫= fun z =>
      Ret (if z =? INT64_MIN then FLOAT (SFopp (float_of_Z z)) else INT (- z))
  end.

(** * Comparison *)

Definition ptr_eqb (p q : option loc) : bool := bool_decide (p = q).

Definition op_eq (v o : Value) : bool :=
  if val_is_number (type v) && val_is_number (type o) then
    match v, o with
    | INT a, INT b => a =? b
    | _, _ => SFeqb (to_float v) (to_float o)
    end
  else match v, o with
  | STRING s, STRING t => s =s t
  | BOOL a, BOOL b => Bool.eqb a b
  | NONE, NONE => true
  | ARRAY _, ARRAY _ => false
  | FUNCTION p, FUNCTION q => ptr_eqb p q
  | CHANNEL p, CHANNEL q => ptr_eqb p q
  | WEBSOCKET p, WEBSOCKET q => ptr_eqb p q
  | SSE_CONN p, SSE_CONN q => ptr_eqb p q
  | BYTECODE_FN p, BYTECODE_FN q => ptr_eqb p q
  | _, _ => false
  end.

(** The arrow of the text is U+2194, in UTF-8. *)
Definition LRARROW : bytes := map chr [226; 134; 148].
Definition cmp_type_error : bytes :=
  lit "Incomparable types: '<'/'>' only for number" ++ LRARROW ++ lit "number and string"
  ++ LRARROW ++ lit "string " ++ map chr [226; 128; 148]
  ++ lit " convert with int()/float()/string() before comparing different types".

(** The common shape of [<], [<=], [>] and [>=]. *)
Definition order2 (zop : Z -> Z -> bool) (fop : double -> double -> bool)
    (sop : comparison -> bool) (v o : Value) : res bool :=
  match v, o with
  | INT a, INT b => Ret (zop a b)
  | STRING s, STRING t => Ret (sop (bytes_cmp s t))
  | _, _ =>
      if val_is_number (type v) && val_is_number (type o) then Ret (fop (to_float v) (to_float o))
      else Exn cmp_type_error
  end.

Definition cmp_lt (c : comparison) : bool := match c with Lt => true | _ => false end.
Definition cmp_le (c : comparison) : bool := match c with Gt => false | _ => true end.
Definition cmp_gt (c : comparison) : bool := match c with Gt => true | _ => false end.
Definition cmp_ge (c : comparison) : bool := match c with Lt => false | _ => true end.

Definition op_lt : Value -> Value -> res bool := order2 Z.ltb SFltb cmp_lt.
Definition op_le : Value -> Value -> res bool := order2 Z.leb SFleb cmp_le.
Definition op_gt : Value -> Value -> res bool :=
  order2 (fun a b => b <? a) (fun a b => SFltb b a) cmp_gt.
Definition op_ge : Value -> Value -> res bool :=
  order2 (fun a b => b <=? a) (fun a b => SFleb b a) cmp_ge.

Definition spaceship (v o : Value) : res Z :=
  if op_eq v o then Ret 0 else op_lt v o ≫= fun b : bool => Ret (if b then -1 else 1).

(** * Bit operations *)

Definition bit2 (f : Z -> Z -> Z) (v o : Value) : res Value :=
  to_int v ≫= fun a => to_int o ≫= fun b => Ret (INT (f a b)).

Definition bitwise_and : Value -> Value -> res Value := bit2 Z.land.
Definition bitwise_or : Value -> Value -> res Value := bit2 Z.lor.
Definition bitwise_xor : Value -> Value -> res Value := bit2 Z.lxor.
Definition bitwise_not (v : Value) : res Value := to_int v ≫= fun a => Ret (INT (Z.lnot a)).
Definition shift_left : Value -> Value -> res Value :=
  bit2 (fun a n => if (n <? 0) || (64 <=? n) then 0 else to_i64 (Z.shiftl (to_u64 a) n)).
Definition shift_right : Value -> Value -> res Value :=
  bit2 (fun a n => if (n <? 0) || (64 <=? n) then 0 else Z.shiftr a n).

(** * Text

    [to_chars] is [std::to_chars] on a finite double and [std_pow] is
    [std::pow]; nothing here depends on what they return. *)
Record Lib := MkLib {
  to_chars : double -> bytes;
  std_pow : double -> double -> double
}.

Section Text.
Context (L : Lib).

Definition look_format_double (d : double) : bytes :=
  match d with
  | S754_nan => lit "NaN"
  | S754_infinity s => if s then lit "-Infinity" else lit "Infinity"
  | _ => to_chars L d
  end.

Definition op_pow (v o : Value) : res Value :=
  Ret (FLOAT (std_pow L (to_float v) (to_float o))).

Fixpoint join (sep : bytes) (l : list bytes) : bytes :=
  match l with
  | [] => []
  | [s] => s
  | s :: l' => s ++ sep ++ join sep l'
  end.

(** [to_string]: an array is printed through its elements, and an array that
    contains itself makes the recursion unbounded, so the depth of the C++
    stack bounds it; [Undef] is its overflow. *)
Fixpoint to_string (depth : nat) (h : heap) (v : Value) : res bytes :=
  match v with
  | INT i => Ret (int_to_string i)
  | FLOAT d => Ret (look_format_double d)
  | STRING s => Ret s
  | BOOL b => Ret (if b then lit "true" else lit "false")
  | NONE => Ret (lit "null")
  | ARRAY l =>
      match depth with
      | O => Undef
      | S depth' =>
          map_res (to_string depth' h) (elems h l) ≫= fun parts =>
          Ret (lit "[" ++ join (lit ", ") parts ++ lit "]")
      end
  | FUNCTION _ => Ret (lit "<function>")
  | CHANNEL _ => Ret (lit "<channel>")
  | WEBSOCKET _ => Ret (lit "<websocket>")
  | SSE_CONN _ | BYTECODE_FN _ => Ret []
  end.

Definition op_concat (depth : nat) (h : heap) (v o : Value) : res Value :=
  to_string depth h v ≫= fun s =>
  to_string depth h o ≫= fun t => Ret (STRING (s ++ t)).
End Text.

Lemma to_string_not_exn L depth h v :
  (exists s, to_string L depth h v = Ret s) \/ to_string L depth h v = Undef.
Proof.
  revert v. induction depth as [|d IH]; intros v; destruct v; cbn [to_string];
    try (by left; eexists); [by right|].
  destruct (map_res_cases _ (elems h ptr) IH) as [(r & -> & _)| ->]; [by left; eexists|by right].
Qed.

(** * The operators never leave the defined behaviour of C++

    A well-formed value holds a 64-bit integer where it holds one. *)
Definition wf (v : Value) : Prop := match v with INT i => int64 i | _ => True end.

Lemma int64_0 : int64 0. Proof. done. Qed.
Lemma int64_1 : int64 1. Proof. done. Qed.
Lemma int64_m1 : int64 (-1). Proof. done. Qed.

Lemma to_int_wf v z : wf v -> to_int v = Ret z -> int64 z.
Proof.
  destruct v as [i|d|s|b| | | | | | |]; cbn [wf to_int]; intros Hw H; try (injection H as <-);
    try done.
  - unfold int_of_float in H. destruct d as [b|b| |b m e]; try discriminate.
    + by injection H as <-.
    + cbv zeta in H. destruct (in_int64 _) eqn:E; [|discriminate]. injection H as <-.
      by apply in_int64_spec.
  - unfold stoll in H. destruct (sign (skip_space s)) as [neg s2].
    destruct (has_digit 10 s2); [|by injection H as <-].
    cbv zeta in H. destruct (in_int64 _) eqn:E; injection H as <-; [|done].
    by apply in_int64_spec.
  - by destruct b.
Qed.

Lemma to_int_defined v : is_float v = false -> exists z, to_int v = Ret z.
Proof.
  destruct v as [i|d|s|b| | | | | | |]; cbn [to_int]; intros H; try discriminate; try by eexists.
  destruct (stoll s); by eexists.
Qed.

Lemma arith_check_defined v : arith_check v <> Undef.
Proof.
  destruct v; cbn [arith_check]; try done. destruct str; [done|].
  repeat case_match; done.
Qed.

(** What the arithmetic operators leave: a float, an integer in range, or a
    message. *)
Definition numeric_result (r : res Value) : Prop :=
  match r with
  | Ret (INT i) => int64 i
  | Ret (FLOAT _) => True
  | Ret _ => False
  | Exn _ => True
  | Undef => False
  end.

Lemma numeric_checks v o k :
  numeric_result k -> numeric_result (arith_check v ≫= fun _ => arith_check o ≫= fun _ => k).
Proof.
  intros Hk. pose proof (arith_check_defined v). pose proof (arith_check_defined o).
  destruct (arith_check v) as [[]| |]; [|done|done].
  by destruct (arith_check o) as [[]| |].
Qed.

Lemma ints_of v o :
  is_float v || is_float o = false -> wf v -> wf o ->
  exists a b, to_int v = Ret a /\ to_int o = Ret b /\ int64 a /\ int64 b.
Proof.
  intros [Hv Ho]%orb_false_iff Wv Wo.
  destruct (to_int_defined v Hv) as [a Ea], (to_int_defined o Ho) as [b Eb].
  exists a, b. split; [done|]. split; [done|].
  split; [by apply (to_int_wf v)|by apply (to_int_wf o)].
Qed.

Lemma numeric_arith2 ovf zop fop v o :
  (forall a b, int64 a -> int64 b -> ovf a b = (to_i64 (zop a b), negb (in_int64 (zop a b)))) ->
  wf v -> wf o -> numeric_result (arith2 ovf fop v o).
Proof.
  intros Hovf Wv Wo. unfold arith2. apply numeric_checks.
  destruct (is_float v || is_float o) eqn:E; [done|].
  destruct (ints_of v o E Wv Wo) as (a & b & -> & -> & Ha & Hb).
  unfold mbind, res_bind. rewrite (Hovf a b Ha Hb).
  destruct (in_int64 _); cbn; [apply to_i64_range|done].
Qed.

Lemma rem_int64 a i : int64 a -> i <> 0 -> int64 (Z.rem a i).
Proof.
  intros Ha Hi. pose proof (Z.rem_le (Z.abs a) (Z.abs i)) as H.
  rewrite Z.rem_abs in H by done.
  unfold int64, INT64_MIN, INT64_MAX in *.
  pose proof (Z.rem_sign_nz a i Hi). destruct (Z.eq_dec (Z.rem a i) 0); [lia|].
  specialize (H ltac:(lia) ltac:(lia)). lia.
Qed.

Lemma quot_int64 a i : int64 a -> i <> 0 -> ~ (i = -1 /\ a = INT64_MIN) -> int64 (Z.quot a i).
Proof.
  intros Ha Hi Hno. assert (Hq : Z.abs (Z.quot a i) <= Z.abs a).
  { rewrite <- Z.quot_abs by done. apply Z.quot_le_upper_bound; [lia|]. nia. }
  unfold int64, INT64_MIN, INT64_MAX in *.
  destruct (Z.eq_dec a (- 2 ^ 63)) as [->|]; [|lia].
  destruct (Z.eq_dec i (-1)) as [->|]; [by exfalso; apply Hno|].
  destruct (Z.eq_dec i 1) as [->|]; [rewrite Z.quot_1_r; lia|].
  assert (Z.abs (Z.quot (- 2 ^ 63) i) <= 2 ^ 62); [|lia].
  rewrite <- Z.quot_abs by done. apply Z.quot_le_upper_bound; lia.
Qed.

(** The arithmetic of the language is total and typed. On well-formed
    values [+], [-], [*], [/] and the unary minus never reach undefined
    behaviour (signed overflow, INT64_MIN / -1, a division by zero of C++):
    each gives a 64-bit integer, a double, or the exception of its checks. *)
Theorem arith_total_and_typed v o :
  wf v -> wf o ->
  numeric_result (op_add v o) /\ numeric_result (op_sub v o) /\
  numeric_result (op_mul v o) /\ numeric_result (op_div v o) /\ numeric_result (op_neg v).
Proof.
  intros Wv Wo. repeat split.
  - apply (numeric_arith2 _ Z.add); [apply i64_add_exact|done|done].
  - apply (numeric_arith2 _ Z.sub); [apply i64_sub_exact|done|done].
  - apply (numeric_arith2 _ Z.mul); [apply i64_mul_exact|done|done].
  - unfold op_div. apply numeric_checks. cbv zeta.
    destruct (SFeqb _ _); [done|].
    destruct (is_float v || is_float o) eqn:E; [done|].
    destruct (ints_of v o E Wv Wo) as (a & b & -> & -> & Ha & Hb).
    unfold mbind, res_bind. destruct ((b =? -1) && (a =? INT64_MIN)) eqn:E1; [done|].
    destruct (negb (b =? 0) && (Z.rem a b =? 0)) eqn:E2; [|done].
    cbn. bool_to_prop. apply quot_int64; [done|done|].
    intros [-> ->]. by rewrite !Z.eqb_refl in E1.
  - destruct (is_float v) eqn:E; [by destruct v|].
    destruct (to_int_defined v E) as [z Hz]. pose proof (to_int_wf v z Wv Hz) as Hr.
    destruct v; try done; unfold op_neg; rewrite Hz; cbn;
      (destruct (z =? INT64_MIN) eqn:E0; cbn; [done|]); bool_to_prop;
      unfold int64, INT64_MIN, INT64_MAX in *; lia.
Qed.
Lemma arith_total_and_typed_witness :
  op_div (INT INT64_MIN) (INT (-1)) = Ret (FLOAT (S754_finite false 4503599627370496 11)) /\
  numeric_result (op_div (INT INT64_MIN) (INT (-1))).
Proof.
  split; [vm_compute; reflexivity|]. by apply (arith_total_and_typed (INT INT64_MIN) (INT (-1))).
Defined.


(** ** Bits of 64-bit integers *)

Lemma land_ltb x y : (Z.land x y <? 0) = (x <? 0) && (y <? 0).
Proof.
  pose proof (Z.land_neg x y).
  destruct (Z.ltb_spec (Z.land x y) 0), (Z.ltb_spec x 0), (Z.ltb_spec y 0); cbn; try done; lia.
Qed.
Lemma lor_ltb x y : (Z.lor x y <? 0) = (x <? 0) || (y <? 0).
Proof.
  pose proof (Z.lor_neg x y).
  destruct (Z.ltb_spec (Z.lor x y) 0), (Z.ltb_spec x 0), (Z.ltb_spec y 0); cbn; try done; lia.
Qed.
Lemma lxor_ltb x y : (Z.lxor x y <? 0) = xorb (x <? 0) (y <? 0).
Proof.
  pose proof (Z.lxor_nonneg x y).
  destruct (Z.ltb_spec (Z.lxor x y) 0), (Z.ltb_spec x 0), (Z.ltb_spec y 0); cbn; try done; lia.
Qed.

(** A 64-bit integer is one whose bits from 63 on repeat its sign. *)
Lemma int64_testbit z : int64 z <-> forall i, 63 <= i -> Z.testbit z i = (z <? 0).
Proof.
  unfold int64, INT64_MIN, INT64_MAX. split.
  - intros Hz i Hi. destruct (Z.ltb_spec z 0).
    + rewrite <- (negb_involutive (Z.testbit z i)), <- Z.lnot_spec by lia. apply negb_true_iff.
      destruct (Z.eq_dec (Z.lnot z) 0) as [->|]; [apply Z.bits_0|].
      apply Z.bits_above_log2; [unfold Z.lnot in *; lia|].
      apply Z.log2_lt_pow2; [unfold Z.lnot in *; lia|].
      apply (Z.lt_le_trans _ (2 ^ 63)); [unfold Z.lnot; lia|]. apply Z.pow_le_mono_r; lia.
    + destruct (Z.eq_dec z 0) as [->|]; [apply Z.bits_0|].
      apply Z.bits_above_log2; [lia|]. apply Z.log2_lt_pow2; [lia|].
      apply (Z.lt_le_trans _ (2 ^ 63)); [lia|]. apply Z.pow_le_mono_r; lia.
  - intros H. destruct (Z.ltb_spec z 0) as [Hz|Hz].
    + assert (Hn : Z.lnot z < 2 ^ 63); [|unfold Z.lnot in Hn; lia].
      apply Z.nle_gt. intros Hle.
      assert (Hp : 0 < Z.lnot z) by (unfold Z.lnot in *; lia).
      pose proof (Z.bit_log2 (Z.lnot z) Hp) as Hb.
      assert (63 <= Z.log2 (Z.lnot z)) by (apply Z.log2_le_pow2; lia).
      rewrite Z.lnot_spec, H in Hb by lia. done.
    + assert (z < 2 ^ 63); [|lia]. apply Z.nle_gt. intros Hle.
      pose proof (Z.bit_log2 z ltac:(lia)) as Hb.
      assert (63 <= Z.log2 z) by (apply Z.log2_le_pow2; lia).
      by rewrite H in Hb by lia.
Qed.

Lemma to_i64_mul_u64 a m : to_i64 (to_u64 a * m) = to_i64 (a * m).
Proof. unfold to_i64, to_u64. by rewrite Zmult_mod_idemp_l. Qed.
Lemma arith2_ints ovf zop fop a b :
  ovf a b = (to_i64 (zop a b), negb (in_int64 (zop a b))) ->
  arith2 ovf fop (INT a) (INT b) =
  Ret (if in_int64 (zop a b) then INT (zop a b) else FLOAT (fop (float_of_Z a) (float_of_Z b))).
Proof.
  intros H. unfold arith2. cbn. rewrite H.
  destruct (in_int64 _) eqn:E; cbn; [|done]. by rewrite to_i64_id by by apply in_int64_spec.
Qed.

(** Integer arithmetic is exact or promoted. For 64-bit operands the sum,
    difference and product are the mathematical ones when they fit and the
    double sum, difference or product when they do not; an integer quotient is
    returned only when it is exact, and the remainder is the truncated one. *)
Theorem int_arith_exact a b :
  int64 a -> int64 b ->
  op_add (INT a) (INT b) =
    Ret (if in_int64 (a + b) then INT (a + b) else FLOAT (fadd (float_of_Z a) (float_of_Z b))) /\
  op_sub (INT a) (INT b) =
    Ret (if in_int64 (a - b) then INT (a - b) else FLOAT (fsub (float_of_Z a) (float_of_Z b))) /\
  op_mul (INT a) (INT b) =
    Ret (if in_int64 (a * b) then INT (a * b) else FLOAT (fmul (float_of_Z a) (float_of_Z b))) /\
  (forall q, op_div (INT a) (INT b) = Ret (INT q) -> b <> 0 /\ a = q * b) /\
  op_mod (INT a) (INT b) = (if b =? 0 then Exn err_mod else Ret (INT (Z.rem a b))).
Proof.
  intros Ha Hb.
  split; [by apply (arith2_ints _ Z.add), i64_add_exact|].
  split; [by apply (arith2_ints _ Z.sub), i64_sub_exact|].
  split; [by apply (arith2_ints _ Z.mul), i64_mul_exact|]. split.
  - intros q. unfold op_div. cbn. case_if; [done|].
    destruct ((b =? -1) && (a =? INT64_MIN)); [done|].
    destruct (negb (b =? 0) && (Z.rem a b =? 0)) eqn:E; [|done]. intros [= <-].
    bool_to_prop. split; [done|]. pose proof (Z.quot_rem' a b). lia.
  - unfold op_mod. cbn. destruct (Z.eqb_spec b 0); [done|].
    destruct (Z.eqb_spec b (-1)) as [->|]; [|done]. do 2 f_equal.
    change (-1) with (- (1)). by rewrite Z.rem_opp_r, Z.rem_1_r by done.
Qed.
Lemma int_arith_exact_witness :
  op_mul (INT 3037000500) (INT 3037000500) = Ret (FLOAT (S754_finite false 4503599627441528 11)) /\
  op_add (INT 40) (INT 2) = Ret (INT 42).
Proof.
  split; [vm_compute; reflexivity|].
  by rewrite (proj1 (int_arith_exact 40 2 ltac:(done) ltac:(done))).
Defined.

(** A string operand that passed the check goes through [std::stoll] in the
    operators, so its fraction, exponent or hexadecimal digits are cut off. *)
Lemma string_operand_truncated s b :
  arith_check (STRING s) = Ret tt ->
  op_add (STRING s) (INT b) = op_add (INT (default 0 (stoll s))) (INT b).
Proof.
  intros H. unfold op_add, arith2. rewrite H. cbn. by destruct (stoll s).
Qed.

(** A decimal string is accepted by the arithmetic check and then
    truncated. Whatever the text, an operand that [arith_check] accepts as a
    decimal takes the integer [std::stoll] reads at its start: the strings 5.5
    and 1e3 add as 5 and 1, and a hexadecimal one as 0. *)
Theorem decimal_string_truncated s b :
  arith_check (STRING s) = Ret tt -> int64 b ->
  let z := default 0 (stoll s) in
  op_add (STRING s) (INT b) =
  Ret (if in_int64 (z + b) then INT (z + b) else FLOAT (fadd (float_of_Z z) (float_of_Z b))).
Proof.
  intros H Hb. cbv zeta. rewrite string_operand_truncated by done.
  assert (Hz : int64 (default 0 (stoll s))).
  { apply (to_int_wf (STRING s)); [done|]. cbn. by destruct (stoll s). }
  by apply (arith2_ints _ Z.add), i64_add_exact.
Qed.
Lemma decimal_string_truncated_witness :
  arith_check (STRING (lit "5.5")) = Ret tt /\ op_add (STRING (lit "5.5")) (INT 1) = Ret (INT 6) /\
  op_add (STRING (lit "1e3")) (INT 1) = Ret (INT 2) /\
  op_div (STRING (lit "5.5")) (INT 5) = Ret (INT 1).
Proof.
  split; [vm_compute; reflexivity|].
  split; [apply (decimal_string_truncated (lit "5.5") 1); vm_compute; done|].
  split; [|vm_compute; reflexivity].
  apply (decimal_string_truncated (lit "1e3") 1); vm_compute; done.
Defined.

(** * The orders *)

Lemma bytes_cmp_refl s : bytes_cmp s s = Eq.
Proof. induction s as [|c s IH]; cbn; [done|]. by rewrite Z.compare_refl. Qed.

Lemma bytes_cmp_eq s t : bytes_cmp s t = Eq <-> s = t.
Proof.
  split; [|intros ->; apply bytes_cmp_refl]. revert t.
  induction s as [|c s IH]; intros [|d t]; cbn; try done.
  destruct (Z.compare_spec (ord c) (ord d)) as [E|E|E]; try done.
  intros H. apply ord_inj in E as ->. by rewrite (IH _ H).
Qed.

Lemma bytes_cmp_antisym s t : bytes_cmp t s = CompOpp (bytes_cmp s t).
Proof.
  revert t. induction s as [|c s IH]; intros [|d t]; cbn; try done.
  rewrite Z.compare_antisym. destruct (ord c ?= ord d); cbn; [apply IH|done|done].
Qed.

Lemma bytes_cmp_trans s t u : bytes_cmp s t = Lt -> bytes_cmp t u = Lt -> bytes_cmp s u = Lt.
Proof.
  revert t u. induction s as [|c s IH]; intros [|d t] [|e u]; cbn; try done.
  destruct (Z.compare_spec (ord c) (ord d)) as [E1|E1|E1],
           (Z.compare_spec (ord d) (ord e)) as [E2|E2|E2],
           (Z.compare_spec (ord c) (ord e)) as [E3|E3|E3]; try done; try lia.
  apply IH.
Qed.

(** The values the comparisons order exactly: integers, and strings. *)
Definition comparable (v o : Value) : bool :=
  match v, o with INT _, INT _ | STRING _, STRING _ => true | _, _ => false end.

(** The three-way comparison the operators agree on. *)
Definition order (v o : Value) : comparison :=
  match v, o with
  | INT a, INT b => a ?= b
  | STRING s, STRING t => bytes_cmp s t
  | _, _ => Eq
  end.

Lemma order_trans v o w :
  comparable v o = true -> comparable o w = true ->
  order v o = Lt -> order o w = Lt -> order v w = Lt.
Proof.
  destruct v, o, w; try done; cbn; [|by eauto using bytes_cmp_trans].
  rewrite !Z.compare_lt_iff. lia.
Qed.

(** The comparison operators are one total order. On two integers, and on
    two strings (byte by byte, unsigned), the six operators and [<=>] agree
    with one three-way comparison, which is antisymmetric, transitive and [Eq]
    only on equal values; a number against a string, or anything else, throws
    and never compares by coercion. *)
Theorem comparison_total_order v o :
  (comparable v o = true ->
     op_eq v o = match order v o with Eq => true | _ => false end /\
     op_lt v o = Ret (cmp_lt (order v o)) /\ op_le v o = Ret (cmp_le (order v o)) /\
     op_gt v o = Ret (cmp_gt (order v o)) /\ op_ge v o = Ret (cmp_ge (order v o)) /\
     spaceship v o = Ret (match order v o with Lt => -1 | Eq => 0 | Gt => 1 end) /\
     (order v o = Eq <-> v = o) /\ order o v = CompOpp (order v o) /\
     (forall w, comparable o w = true -> order v o = Lt -> order o w = Lt -> order v w = Lt)) /\
  (comparable v o = false -> val_is_number (type v) && val_is_number (type o) = false ->
     op_lt v o = Exn cmp_type_error /\ op_le v o = Exn cmp_type_error /\
     op_gt v o = Exn cmp_type_error /\ op_ge v o = Exn cmp_type_error /\
     (type v <> type o -> op_eq v o = false)).
Proof.
  split.
  - intros Hc. assert (Ht : forall w, comparable o w = true -> order v o = Lt ->
      order o w = Lt -> order v w = Lt) by (intros; by eapply order_trans).
    destruct v as [a| |s| | | | | | | |], o as [b| |t| | | | | | | |]; try done; clear Hc.
    + cbn [order] in *. unfold spaceship, op_eq, op_lt, op_le, op_gt, op_ge, order2. cbn.
      rewrite (Z.compare_antisym a b).
      destruct (Z.compare_spec a b) as [->|E|E].
      * rewrite Z.eqb_refl, Z.ltb_irrefl, Z.leb_refl. naive_solver.
      * rewrite (proj2 (Z.eqb_neq a b)), (proj2 (Z.ltb_lt a b)), (proj2 (Z.leb_le a b)),
          (proj2 (Z.ltb_ge b a)), (proj2 (Z.leb_gt b a)) by lia.
        repeat split; try done. intros [=]. lia.
      * rewrite (proj2 (Z.eqb_neq a b)), (proj2 (Z.ltb_ge a b)), (proj2 (Z.leb_gt a b)),
          (proj2 (Z.ltb_lt b a)), (proj2 (Z.leb_le b a)) by lia.
        repeat split; try done. intros [=]. lia.
    + cbn [order] in *. unfold spaceship, op_eq, op_lt, op_le, op_gt, op_ge, order2. cbn.
      pose proof (bytes_cmp_eq s t) as He. rewrite (bytes_cmp_antisym s t).
      destruct (bytes_eqb_spec s t) as [->|Hn].
      * rewrite bytes_cmp_refl. naive_solver.
      * destruct (bytes_cmp s t) eqn:E; [by destruct Hn; apply He| |]; cbn; naive_solver.
  - intros Hc Hn. unfold op_lt, op_le, op_gt, op_ge, order2.
    destruct v, o; try done; repeat split; try done; cbn in Hn; try discriminate;
      intros Hne; by exfalso; apply Hne.
Qed.
Lemma comparison_total_order_witness :
  op_lt (STRING (lit "10")) (STRING (lit "9")) = Ret true /\
  op_lt (INT 1) (STRING (lit "2")) = Exn cmp_type_error /\
  spaceship (INT (2 ^ 53 + 1)) (INT (2 ^ 53)) = Ret 1.
Proof.
  split; [|split].
  - destruct (comparison_total_order (STRING (lit "10")) (STRING (lit "9"))) as [H _].
    destruct (H eq_refl) as (_ & -> & _). vm_compute. reflexivity.
  - destruct (comparison_total_order (INT 1) (STRING (lit "2"))) as [_ H].
    by destruct (H eq_refl eq_refl) as (-> & _).
  - destruct (comparison_total_order (INT (2 ^ 53 + 1)) (INT (2 ^ 53))) as [H _].
    destruct (H eq_refl) as (_ & _ & _ & _ & _ & -> & _). vm_compute. reflexivity.
Defined.

(** Mixed integers and doubles compare as doubles, so equality is not
    transitive beyond 2^53. *)
Example eq_not_transitive :
  op_eq (INT (2 ^ 53 + 1)) (FLOAT (float_of_Z (2 ^ 53))) = true /\
  op_eq (FLOAT (float_of_Z (2 ^ 53))) (INT (2 ^ 53)) = true /\
  op_eq (INT (2 ^ 53 + 1)) (INT (2 ^ 53)) = false.
Proof. vm_compute. done. Qed.

(** The bit operations stay in 64 bits. On 64-bit integers [&], [|], [^],
    [~] and the shifts give a 64-bit integer whatever the shift amount; a shift
    by an amount in 0..63 is the product (wrapped) or the floor of the quotient
    by the power of two, and by any other amount zero. *)
Theorem bit_operations_spec a b :
  int64 a -> int64 b ->
  bitwise_and (INT a) (INT b) = Ret (INT (Z.land a b)) /\ int64 (Z.land a b) /\
  bitwise_or (INT a) (INT b) = Ret (INT (Z.lor a b)) /\ int64 (Z.lor a b) /\
  bitwise_xor (INT a) (INT b) = Ret (INT (Z.lxor a b)) /\ int64 (Z.lxor a b) /\
  bitwise_not (INT a) = Ret (INT (- a - 1)) /\ int64 (- a - 1) /\
  shift_left (INT a) (INT b) =
    Ret (INT (if (0 <=? b) && (b <? 64) then to_i64 (a * 2 ^ b) else 0)) /\
  shift_right (INT a) (INT b) =
    Ret (INT (if (0 <=? b) && (b <? 64) then a / 2 ^ b else 0)) /\
  (0 <= b < 64 -> int64 (a / 2 ^ b)).
Proof.
  intros Ha Hb.
  assert (Hsign : forall z, int64 z <-> forall i, 63 <= i -> Z.testbit z i = (z <? 0)).
  { apply int64_testbit. }
  assert (H2 : forall f g, (forall x y i, Z.testbit (f x y) i = g (Z.testbit x i) (Z.testbit y i)) ->
     (forall x y, (f x y <? 0) = g (x <? 0) (y <? 0)) -> int64 (f a b)).
  { intros f g Hf Hs. apply Hsign. intros i Hi. rewrite Hf, Hs.
    by rewrite (proj1 (Hsign a) Ha i Hi), (proj1 (Hsign b) Hb i Hi). }
  split; [done|]. split; [apply (H2 _ andb); [apply Z.land_spec|apply land_ltb]|].
  split; [done|]. split; [apply (H2 _ orb); [apply Z.lor_spec|apply lor_ltb]|].
  split; [done|]. split; [apply (H2 _ xorb); [apply Z.lxor_spec|apply lxor_ltb]|].
  split; [unfold bitwise_not; cbn; do 2 f_equal; unfold Z.lnot; lia|].
  split; [unfold int64, INT64_MIN, INT64_MAX in *; lia|].
  split; [|split].
  - unfold shift_left, bit2. cbn. do 2 f_equal.
    destruct (Z.ltb_spec b 0), (Z.leb_spec 64 b), (Z.leb_spec 0 b), (Z.ltb_spec b 64);
      cbn; try lia; try done.
    rewrite Z.shiftl_mul_pow2 by done. apply to_i64_mul_u64.
  - unfold shift_right, bit2. cbn. do 2 f_equal.
    destruct (Z.ltb_spec b 0), (Z.leb_spec 64 b), (Z.leb_spec 0 b), (Z.ltb_spec b 64);
      cbn; try lia; try done. by apply Z.shiftr_div_pow2.
  - intros Hr. unfold int64, INT64_MIN, INT64_MAX in *.
    assert (0 < 2 ^ b) by (apply Z.pow_pos_nonneg; lia).
    split; [apply Z.div_le_lower_bound; nia|].
    apply Z.div_le_upper_bound; nia.
Qed.
Lemma bit_operations_spec_witness :
  shift_left (INT 1) (INT 63) = Ret (INT INT64_MIN) /\ shift_left (INT 1) (INT 64) = Ret (INT 0).
Proof.
  destruct (bit_operations_spec 1 63 ltac:(done) ltac:(done)) as (_&_&_&_&_&_&_&_& -> & _).
  destruct (bit_operations_spec 1 64 ltac:(done) ltac:(done)) as (_&_&_&_&_&_&_&_& -> & _).
  vm_compute. done.
Defined.

(** * [append_in_place] and the shared buffers

    Here a string is what the code holds, a counted reference to a buffer:
    [cells] are the values that exist (registers, constants, elements), [Str p]
    one that holds the buffer [p]. *)
Module StringCow.

Inductive cell := Str (p : loc) | Other (v : Value).

#[export] Instance double_eq_dec : EqDecision spec_float.
Proof. solve_decision. Defined.
#[export] Instance Value_eq_dec : EqDecision Value.
Proof. solve_decision. Defined.
#[export] Instance cell_eq_dec : EqDecision cell.
Proof. solve_decision. Defined.

Record state := MkState { cells : list cell; buffers : gmap loc bytes }.

Definition buffer (st : state) (p : loc) : bytes := default [] (buffers st !! p).

(** [ptr_val.use_count()] *)
Definition use_count (st : state) (p : loc) : nat :=
  length (filter (fun c => c = Str p) (cells st)).

Definition fresh_buffer (st : state) : loc := fresh (dom (buffers st)).

Section Append.
Context (L : Lib) (depth : nat) (h : heap).

(** [*this .append_in_place(o)], [i] being [*this]. *)
Definition append_in_place (st : state) (i : nat) (o : Value) : res state :=
  to_string L depth h o ≫= fun rhs =>
  match cells st !! i with
  | None => Undef
  | Some (Other v) =>
      to_string L depth h v ≫= fun s =>
      let p := fresh_buffer st in
      Ret (MkState (<[i := Str p]> (cells st)) (<[p := s ++ rhs]> (buffers st)))
  | Some (Str p) =>
      if (1 <? use_count st p)%nat then
        let q := fresh_buffer st in
        Ret (MkState (<[i := Str q]> (cells st)) (<[q := buffer st p ++ rhs]> (buffers st)))
      else Ret (MkState (cells st) (<[p := buffer st p ++ rhs]> (buffers st)))
  end.

(** The values the program sees. *)
Definition value_of (st : state) (c : cell) : Value :=
  match c with Str p => STRING (buffer st p) | Other v => v end.
Definition view (st : state) : list Value := value_of st <$> cells st.

Definition cells_ok (st : state) : Prop :=
  forall p, Str p ∈ cells st -> is_Some (buffers st !! p).

Lemma view_write st i p (s : bytes) (cs : list cell) :
  cs = <[i := Str p]> (cells st) -> (forall j, j <> i -> cells st !! j <> Some (Str p)) ->
  (i < length (cells st))%nat ->
  view (MkState cs (<[p := s]> (buffers st))) = <[i := STRING s]> (view st).
Proof.
  intros -> Hp Hi. unfold view. cbn [cells]. rewrite list_fmap_insert. cbn [value_of].
  unfold buffer at 1. cbn [buffers]. rewrite lookup_insert. case_decide; [|done]. cbn.
  apply list_eq. intros j. destruct (decide (j = i)) as [->|Hj].
  - by rewrite !list_lookup_insert_eq by by rewrite length_fmap.
  - rewrite !list_lookup_insert_ne, !list_lookup_fmap by done.
    destruct (cells st !! j) as [[q|v]|] eqn:E; cbn; [|done|done].
    unfold buffer. cbn. rewrite lookup_insert_ne; [done|]. intros <-. by apply (Hp j Hj).
Qed.

Lemma cells_ok_write st i p s cs :
  cells_ok st -> cs = <[i := Str p]> (cells st) ->
  cells_ok (MkState cs (<[p := s]> (buffers st))).
Proof.
  intros Hok -> q Hq. cbn in *. destruct (decide (q = p)) as [->|Hne].
  - rewrite lookup_insert. case_decide; [by eexists|done].
  - rewrite lookup_insert_ne by done. apply Hok.
    apply list_elem_of_lookup in Hq as [j Hj]. apply list_elem_of_lookup. exists j.
    apply list_lookup_insert_Some in Hj. naive_solver.
Qed.

(** A buffer with one holder is held by no other cell. *)
Lemma use_count_one st i p :
  cells st !! i = Some (Str p) -> (1 <? use_count st p)%nat = false ->
  forall j, j <> i -> cells st !! j <> Some (Str p).
Proof.
  intros Hi Hc j Hj Ej. apply Nat.ltb_ge in Hc. unfold use_count in Hc.
  assert (Hlt : forall a b, (a < b)%nat -> cells st !! a = Some (Str p) ->
            cells st !! b = Some (Str p) -> False).
  { intros a b Hab Ha Hb. rewrite <- (take_drop_middle _ _ _ Ha) in Hc.
    rewrite filter_app, filter_cons, decide_True in Hc by done.
    rewrite length_app, length_cons in Hc.
    assert (Str p ∈ drop (S a) (cells st)) as Hin.
    { apply list_elem_of_lookup. exists (b - S a)%nat. rewrite lookup_drop.
      by replace (S a + (b - S a))%nat with b by lia. }
    assert (Str p ∈ filter (fun c => c = Str p) (drop (S a) (cells st))) as Hf
      by by apply list_elem_of_filter.
    destruct (filter (fun c => c = Str p) (drop (S a) (cells st))); [by apply not_elem_of_nil in Hf|].
    rewrite length_cons in Hc. lia. }
  destruct (Nat.lt_total i j) as [?|[?|?]]; [by apply (Hlt i j)|done|by apply (Hlt j i)].
Qed.

Lemma fresh_unheld st : cells_ok st -> forall j, cells st !! j <> Some (Str (fresh_buffer st)).
Proof.
  intros Hok j Hj. apply list_elem_of_lookup_2, Hok in Hj. unfold fresh_buffer in Hj.
  apply elem_of_dom in Hj. by apply is_fresh in Hj.
Qed.

(** C39: appending in place is concatenation. On any sharing of string buffers
    [append_in_place] gives exactly what [concat] gives for the cell it writes
    (its own text may be the argument), and no other cell that shares the
    buffer sees the write; the references stay valid. *)
Theorem append_in_place_refines_concat st i v o :
  cells_ok st -> view st !! i = Some v ->
  match op_concat L depth h v o with
  | Ret w => exists st', append_in_place st i o = Ret st' /\ view st' = <[i := w]> (view st) /\
                         cells_ok st'
  | Exn _ | Undef => exists m, append_in_place st i o = m /\ forall st', m <> Ret st'
  end.
Proof.
  intros Hok Hv. unfold view in Hv. rewrite list_lookup_fmap in Hv.
  destruct (cells st !! i) as [c|] eqn:Ei; [|done]. injection Hv as <-.
  pose proof (lookup_lt_Some _ _ _ Ei) as Hlt.
  unfold op_concat, append_in_place. rewrite Ei. destruct c as [p|v]; cbn [value_of].
  - cbn [to_string].
    assert (Hs : to_string L depth h (STRING (buffer st p)) = Ret (buffer st p))
      by by destruct depth.
    rewrite Hs. cbn [mbind res_bind].
    destruct (to_string L depth h o) as [rhs| |]; cbn [mbind res_bind]; [|by eexists..].
    destruct (1 <? use_count st p)%nat eqn:Ec; eexists; split; try reflexivity.
    + split; [|by eapply cells_ok_write].
      apply view_write; [done| |done]. intros j _. by apply fresh_unheld.
    + split; [|eapply cells_ok_write; [done|symmetry; by apply list_insert_id]].
      apply view_write; [symmetry; by apply list_insert_id| |done]. by eapply use_count_one.
  - destruct (to_string L depth h v) as [s| |], (to_string L depth h o) as [rhs| |]; cbn;
      try (by eexists).
    eexists. split; [reflexivity|]. split; [|by eapply cells_ok_write].
    apply view_write; [done| |done]. intros j _. by apply fresh_unheld.
Qed.
End Append.

(** Two cells share the buffer [ab]; the first appends itself. *)
Lemma append_in_place_refines_concat_witness :
  let L := MkLib (fun _ => []) (fun d _ => d) in
  let st := MkState [Str 1; Str 1]%positive {[ 1%positive := lit "ab" ]} in
  exists st', append_in_place L 1 ∅ st 0 (STRING (lit "ab")) = Ret st' /\
              view st' = [STRING (lit "abab"); STRING (lit "ab")].
Proof.
  intros L st.
  destruct (append_in_place_refines_concat L 1 ∅ st 0 (STRING (lit "ab")) (STRING (lit "ab")))
    as (st' & H & Hv & _).
  - intros p Hp. apply elem_of_cons in Hp as [[= ->]|Hp]; [by eexists|].
    apply elem_of_cons in Hp as [[= ->]|Hp]; [by eexists|by apply not_elem_of_nil in Hp].
  - vm_compute. reflexivity.
  - exists st'. split; [exact H|]. rewrite Hv. vm_compute. reflexivity.
Defined.
End StringCow.

(** * Printing arrays *)

(** The text of a value is defined exactly when its arrays are finite. If a
    rank decreases from every array to the arrays it contains, [to_string]
    terminates within a stack as deep as the rank and gives a text; an array
    that is an element of itself, which [$a[0] = $a] builds, exhausts every
    stack. *)
Theorem to_string_terminates L h :
  (forall rank : loc -> nat,
     (forall l l', ARRAY l' ∈ elems h l -> (rank l' < rank l)%nat) ->
     forall depth v, (forall l, v = ARRAY l -> (rank l < depth)%nat) ->
     exists s, to_string L depth h v = Ret s) /\
  (forall l, ARRAY l ∈ elems h l -> forall depth, to_string L depth h (ARRAY l) = Undef).
Proof.
  split.
  - intros rank Hr depth. induction depth as [|d IH]; intros v Hv;
      (destruct v; cbn [to_string]; try (by eexists)); specialize (Hv ptr eq_refl); [lia|].
    destruct (map_res_Ret (to_string L d h) (elems h ptr)) as [r ->]; [|by eexists].
    intros e He. apply IH. intros l ->. specialize (Hr ptr l He). lia.
  - intros l Hl depth. induction depth as [|d IH]; [done|]. cbn [to_string].
    destruct (map_res_cases _ (elems h l) (to_string_not_exn L d h)) as [(r & _ & H)| ->]; [|done].
    destruct (H _ Hl) as [s Hs]. congruence.
Qed.
Lemma to_string_terminates_witness :
  let L := MkLib (fun _ => []) (fun d _ => d) in
  let h : heap := {[ 1%positive := [INT 1; ARRAY 2%positive; NONE]; 2%positive := [STRING (lit "x")] ]} in
  to_string L 3 h (ARRAY 1%positive) = Ret (lit "[1, [x], null]") /\
  (exists s, to_string L 3 h (ARRAY 1%positive) = Ret s) /\
  to_string L 50 {[ 1%positive := [ARRAY 1%positive] ]} (ARRAY 1%positive) = Undef.
Proof.
  intros L h. split; [vm_compute; reflexivity|]. split.
  - apply (proj1 (to_string_terminates L h) (fun l => if bool_decide (l = 1%positive) then 2 else 1)%nat).
    + intros l l' Hl. unfold elems in Hl. destruct (h !! l) as [es|] eqn:E.
      * apply lookup_insert_Some in E as [[<- <-]|[_ E]].
        -- apply list_elem_of_In in Hl. simpl in Hl.
           destruct Hl as [?|[[= <-]|[?|[]]]]; try done. vm_compute. lia.
        -- apply lookup_singleton_Some in E as [<- <-].
           apply list_elem_of_In in Hl. simpl in Hl. by destruct Hl as [?|[]].
      * by apply not_elem_of_nil in Hl.
    + intros l [= <-]. vm_compute. lia.
  - apply (proj2 (to_string_terminates L {[ 1%positive := [ARRAY 1%positive] ]}) 1%positive).
    vm_compute. by left.
Defined.

End Value.
