(* ===== verification/Bytecode.v ===== *)
(** The bytecode of cpp/include/look/bytecode.h (opcodes, instructions,
    function prototypes, closures) and, from cpp/include/look/compiler.h, the
    checked narrowing of operands and the register allocator. *)

From S2P Require Import Prelude CNum Value.
#[local] Open Scope Z_scope.

Module Bytecode.
Import CNum Value.

(** * Instructions *)

Inductive OpCode :=
| LOAD_CONST | LOAD_CONST_W | LOAD_NULL | LOAD_TRUE | LOAD_FALSE | LOAD_INT
| MOVE | LOAD_VAR | STORE_VAR | LOAD_GLOBAL | STORE_GLOBAL
| ADD | SUB | MUL | DIV | MOD | POW | UNM
| BAND | BOR | BXOR | BNOT | SHL | SHR
| CONCAT
| EQ | NEQ | LT | GT | LTE | GTE | CMP3
| NOT
| COALESCE
| NEW_ARRAY | NEW_ASSOC | ARRAY_GET | ARRAY_SET | ARRAY_PUSH | ARRAY_LEN
| NEW_STRUCT | GET_FIELD | SET_FIELD
| JUMP | JUMP_IF_FALSE | JUMP_IF_TRUE | JUMP_IF_NULL
| CALL | CALL_BUILTIN | TAIL_CALL | RETURN | RETURN_NULL
| MAKE_CLOSURE | LOAD_CAPTURE
| FOR_PREP | FOR_STEP
| TRY_PUSH | TRY_POP | THROW | LOAD_EXC | LOAD_ARGC
| PARALLEL_CALL | CHAN_SEND | CHAN_RECV | CHAN_CLOSE | CHAN_SIZE
| WS_SEND | WS_BROADCAST | SSE_SEND | ROUTE_MATCH
| TYPE_OF | TO_INT | TO_FLOAT | TO_STR | TO_BOOL
| NOP | BREAKPOINT
| ASSOC_APPEND | CHECK_DEFINED.

#[export] Instance OpCode_eq_dec : EqDecision OpCode.
Proof. solve_decision. Defined.

(** The operands are bytes. *)
Record Instruction := mkI { op : OpCode; a : Z; b : Z; c : Z }.

(** [bx()], the 16-bit operand [b<<8|c]. *)
Definition bx (i : Instruction) : Z := Z.lor (Z.shiftl (b i) 8) (c i).

(** * Prototypes and closures *)

Inductive FunctionProto := MkProto {
  name : bytes;
  arity : Z;
  variadic : bool;
  reg_count : Z;
  constants : list Value;
  code : list Instruction;
  nested : list FunctionProto;
  lines : list Z;
  params : list bytes;
  capture_is_cell : list bool
}.

Record Closure := MkClosure { proto : FunctionProto; captures : list Value }.

(** * Checked narrowing

    [what] names the quantity in the message. *)

Definition u8 (v : Z) (what : bytes) : res Z :=
  if (v <? 0) || (255 <? v) then Exn (what ++ lit " exceeds the VM limit of 255") else Ret v.
Definition u16 (v : Z) (what : bytes) : res Z :=
  if (v <? 0) || (65535 <? v) then Exn (what ++ lit " exceeds the VM limit of 65535") else Ret v.
Definition hi8 (v : Z) : res Z := u16 v (lit "16-bit operand") ≫= fun w : Z => Ret (Z.shiftr w 8).
Definition lo8 (v : Z) : res Z := u16 v (lit "16-bit operand") ≫= fun w : Z => Ret (Z.land w 255).
Definition hint_u8 (n : Z) : Z := if 255 <? n then 255 else n.
Definition i8_bits (v : Z) : res Z :=
  if (v <? -128) || (127 <? v) then Exn (lit "immediate integer out of range") else Ret (v mod 256).

(** [(int)(int8_t)b], how LOAD_INT reads its operand. *)
Definition i8_value (w : Z) : Z := if w <? 128 then w else w - 256.

Lemma u8_Ret v what w : u8 v what = Ret w <-> w = v /\ 0 <= v <= 255.
Proof. unfold u8. case_if; split; intros H; bool_to_prop; [done|lia| |].
  - injection H as <-. lia.
  - destruct H as [-> _]. done.
Qed.

Lemma u16_ok v what : 0 <= v <= 65535 -> u16 v what = Ret v.
Proof. intros. unfold u16. case_if; [|done]. apply orb_true_iff in Heqb0 as []; bool_to_prop; lia. Qed.

(** The two bytes of a 16-bit operand. *)
Lemma hi_lo v :
  0 <= v <= 65535 ->
  hi8 v = Ret (v / 256) /\ lo8 v = Ret (v mod 256) /\
  Z.lor (Z.shiftl (v / 256) 8) (v mod 256) = v.
Proof.
  intros Hv. unfold hi8, lo8. rewrite !u16_ok by done. cbn.
  change 255 with (Z.ones 8). rewrite Z.land_ones, Z.shiftr_div_pow2 by done.
  split; [done|]. split; [done|]. change 256 with (2 ^ 8).
  rewrite lor_shiftl by (try done; apply Z.mod_pos_bound; done).
  pose proof (Z.div_mod v (2 ^ 8) ltac:(done)). lia.
Qed.

Lemma i8_roundtrip v : -128 <= v <= 127 -> exists w, i8_bits v = Ret w /\ i8_value w = v.
Proof.
  intros Hv. unfold i8_bits. case_if.
  { apply orb_true_iff in Heqb0 as []; bool_to_prop; lia. }
  eexists. split; [done|]. unfold i8_value. destruct (Z_lt_le_dec v 0).
  - rewrite <- (Z.mod_add v 1 256), Z.mod_small by lia. case_if; bool_to_prop; lia.
  - rewrite Z.mod_small by lia. case_if; bool_to_prop; lia.
Qed.

(** * The register allocator *)

(** [free_] has its [back()] at the head; the three flag arrays are the sets of
    the registers whose flag is set. *)
Record RegisterAllocator := MkRegs {
  locals_end : Z;
  next : Z;
  max : Z;
  free_ : list Z;
  in_free : gset Z;
  seq_ : gset Z;
  pinned : gset Z;
  owner : bytes
}.

Definition new_allocator (locals_end : Z) (owner : bytes) : RegisterAllocator :=
  MkRegs locals_end locals_end locals_end [] ∅ ∅ ∅ owner.

Definition too_many (s : RegisterAllocator) : bytes :=
  lit "function '" ++ owner s ++ lit "' is too large for the VM: it needs more than 255 registers (local variables + temporaries). Split it into smaller functions.".

Definition bump_max (s : RegisterAllocator) (m : Z) : Z := if max s <? m then m else max s.

Definition alloc (s : RegisterAllocator) : res (Z * RegisterAllocator) :=
  match free_ s with
  | r :: rest =>
      Ret (r, MkRegs (locals_end s) (next s) (bump_max s (r + 1)) rest
                     (in_free s ∖ {[ r ]}) (seq_ s) (pinned s) (owner s))
  | [] =>
      if next s =? 255 then Exn (too_many s)
      else Ret (next s, MkRegs (locals_end s) (next s + 1) (bump_max s (next s + 1)) []
                               (in_free s) (seq_ s) (pinned s) (owner s))
  end.

Definition free (s : RegisterAllocator) (r : Z) : RegisterAllocator :=
  if (locals_end s <=? r) && negb (bool_decide (r ∈ pinned s)) &&
     negb (bool_decide (r ∈ seq_ s)) && negb (bool_decide (r ∈ in_free s))
  then MkRegs (locals_end s) (next s) (max s) (r :: free_ s) ({[ r ]} ∪ in_free s)
              (seq_ s) (pinned s) (owner s)
  else s.

Definition alloc_local (s : RegisterAllocator) : res (Z * RegisterAllocator) :=
  alloc s ≫= fun '(r, s) =>
  Ret (r, MkRegs (locals_end s) (next s) (max s) (free_ s) (in_free s) (seq_ s)
                 ({[ r ]} ∪ pinned s) (owner s)).

Definition free_local (s : RegisterAllocator) (r : Z) : RegisterAllocator :=
  free (MkRegs (locals_end s) (next s) (max s) (free_ s) (in_free s) (seq_ s)
               (pinned s ∖ {[ r ]}) (owner s)) r.

(** [while (k < n && in_free_[b + k]) ++k;] *)
Fixpoint free_run (n : nat) (s : RegisterAllocator) (b : Z) : Z :=
  match n with
  | O => 0
  | S n' => if bool_decide (b ∈ in_free s) then 1 + free_run n' s (b + 1) else 0
  end.

(** One turn of the search for [n] free registers in a row. *)
Definition seq_step (s : RegisterAllocator) (n : Z) (b : Z) : Z + option Z :=
  if b + n <=? next s then
    let k := free_run (Z.to_nat n) s b in
    if k =? n then inr (Some b) else inl (b + k + 1)
  else inr None.

(** [base, ..., base + n - 1] *)
Definition block (base n : Z) : list Z :=
  map (fun k => base + Z.of_nat k) (seq 0 (Z.to_nat n)).

Definition set_seq (s : RegisterAllocator) (base n : Z) : RegisterAllocator :=
  MkRegs (locals_end s) (next s) (max s) (free_ s) (in_free s)
         (list_to_set (block base n) ∪ seq_ s) (pinned s) (owner s).

Definition alloc_seq (s : RegisterAllocator) (n : Z) : res (Z * RegisterAllocator) :=
  if n =? 0 then Ret (next s, s)
  else match run (seq_step s n) None 300 (locals_end s) with
  | Some base =>
      Ret (base, set_seq (MkRegs (locals_end s) (next s) (max s)
                            (filter (fun r => ~ (base <= r < base + n)) (free_ s))
                            (in_free s ∖ list_to_set (block base n))
                            (seq_ s) (pinned s) (owner s)) base n)
  | None =>
      if 255 <? next s + n then Exn (too_many s)
      else Ret (next s, set_seq (MkRegs (locals_end s) (next s + n) (bump_max s (next s + n))
                                  (free_ s) (in_free s) (seq_ s) (pinned s) (owner s)) (next s) n)
  end.

Definition release_seq (s : RegisterAllocator) (base n : Z) : RegisterAllocator :=
  foldl (fun s r => free (MkRegs (locals_end s) (next s) (max s) (free_ s) (in_free s)
                                 (seq_ s ∖ {[ r ]}) (pinned s) (owner s)) r)
        s (block base n).

(** ** Its invariant *)

Record regs_ok (s : RegisterAllocator) : Prop := {
  ok_bounds : 0 <= locals_end s <= next s /\ next s <= max s <= 255;
  ok_nodup : NoDup (free_ s);
  ok_flags : forall r, r ∈ free_ s <-> r ∈ in_free s;
  ok_free : forall r, r ∈ in_free s ->
    locals_end s <= r < next s /\ r ∉ pinned s /\ r ∉ seq_ s;
  ok_marks : forall r, r ∈ pinned s ∪ seq_ s -> r < next s
}.

(** A register in use: handed out and not back in the pool. *)
Definition live (s : RegisterAllocator) (r : Z) : Prop := 0 <= r < next s /\ r ∉ in_free s.

Lemma new_allocator_ok n o : 0 <= n <= 255 -> regs_ok (new_allocator n o).
Proof.
  intros. split; cbn; [lia|constructor| | |]; intros r; [|by intros ?%elem_of_empty|set_solver].
  split; [by intros ?%not_elem_of_nil|by intros ?%elem_of_empty].
Qed.

(** What an operation may change: the pool and the marks, and [next] and [max]
    only upwards. *)
Definition grows (s s' : RegisterAllocator) : Prop :=
  locals_end s' = locals_end s /\ next s <= next s' /\ max s <= max s'.

Lemma alloc_spec s r s' :
  regs_ok s -> alloc s = Ret (r, s') ->
  regs_ok s' /\ grows s s' /\ locals_end s <= r < max s' /\ r < 255 /\
  ~ live s r /\ live s' r /\ (forall q, q <> r -> live s' q <-> live s q) /\
  pinned s' = pinned s /\ seq_ s' = seq_ s /\ r ∉ pinned s /\ r ∉ seq_ s.
Proof.
  intros [[Hb Hm] Hnd Hfl Hfr Hmk] Ha. unfold alloc in Ha. unfold grows, live, bump_max in *.
  destruct (free_ s) as [|r0 rest] eqn:Ef.
  - destruct (next s =? 255) eqn:E; [done|]. bool_to_prop. injection Ha as <- <-. cbn.
    assert (Hno : forall q, q ∉ in_free s) by (intros q Hq; by apply Hfl, not_elem_of_nil in Hq).
    split; [split; cbn; [case_if; bool_to_prop; lia|constructor|done| |]|].
    { intros q Hq. by apply Hno in Hq. }
    { intros q Hq%Hmk. lia. }
    split; [case_if; bool_to_prop; lia|]. split; [case_if; bool_to_prop; lia|].
    split; [lia|]. split; [lia|]. split; [split; [lia|apply Hno]|].
    assert (Hn : next s ∉ pinned s ∪ seq_ s) by (intros Hq%Hmk; lia).
    split; [|set_solver]. intros q Hq. naive_solver lia.
  - injection Ha as <- <-. cbn. apply NoDup_cons in Hnd as [Hnr Hnd].
    assert (Hr : r0 ∈ in_free s) by (apply Hfl; by left).
    destruct (Hfr r0 Hr) as (Hr1 & Hr2 & Hr3).
    split; [split; cbn; [case_if; bool_to_prop; lia|done| | |done]|].
    { intros q. rewrite elem_of_difference, elem_of_singleton, <- Hfl, elem_of_cons.
      naive_solver. }
    { intros q [Hq _]%elem_of_difference. by apply Hfr. }
    split; [case_if; bool_to_prop; lia|]. split; [case_if; bool_to_prop; lia|].
    split; [lia|]. split; [tauto|]. split; [split; [lia|set_solver]|].
    split; [|set_solver]. intros q Hq. set_solver.
Qed.

(** Freeing a protected register, or one that is free already, does nothing. *)
Lemma free_spec s r :
  regs_ok s -> r < next s ->
  let s' := free s r in
  regs_ok s' /\ grows s s' /\ next s' = next s /\ max s' = max s /\
  pinned s' = pinned s /\ seq_ s' = seq_ s /\
  (forall q, live s' q <-> live s q /\
     ~ (q = r /\ locals_end s <= r /\ r ∉ pinned s /\ r ∉ seq_ s)).
Proof.
  intros Hok Hr. cbv zeta. unfold free, grows, live.
  destruct ((locals_end s <=? r) && negb (bool_decide (r ∈ pinned s)) &&
     negb (bool_decide (r ∈ seq_ s)) && negb (bool_decide (r ∈ in_free s))) eqn:E.
  - bool_to_prop. destruct Hok as [[Hb Hm] Hnd Hfl Hfr Hmk]. cbn. split.
    { split; cbn; [lia| | | |done].
      - apply NoDup_cons. split; [by rewrite Hfl|done].
      - intros q. rewrite elem_of_cons, Hfl. set_solver.
      - intros q [->%elem_of_singleton|Hq]%elem_of_union; [|by apply Hfr]. split; [lia|done]. }
    split; [lia|]. do 4 (split; [done|]). intros q. set_solver.
  - split; [done|]. split; [lia|]. do 4 (split; [done|]). intros q.
    destruct Hok as [_ _ _ Hfr _]. split; [|tauto]. intros [Hq1 Hq2]. split; [done|].
    intros (-> & H1 & H2 & H3). rewrite !bool_decide_false in E by done.
    rewrite (proj2 (Z.leb_le _ _) H1) in E. done.
Qed.

(** Marking or unmarking a register that is not in the pool. *)
Lemma mark_ok s ps sq :
  regs_ok s -> (forall r, r ∈ in_free s -> r ∉ ps /\ r ∉ sq) ->
  (forall r, r ∈ ps ∪ sq -> r < next s) ->
  regs_ok (MkRegs (locals_end s) (next s) (max s) (free_ s) (in_free s) sq ps (owner s)).
Proof.
  intros [Hb Hnd Hfl Hfr Hmk] H Hm. split; cbn; [done..| |done]. intros r Hr.
  split; [by apply Hfr|]. by apply H.
Qed.

Lemma alloc_local_spec s r s' :
  regs_ok s -> alloc_local s = Ret (r, s') ->
  regs_ok s' /\ grows s s' /\ locals_end s <= r < max s' /\ r < 255 /\
  ~ live s r /\ live s' r /\ (forall q, q <> r -> live s' q <-> live s q) /\
  pinned s' = {[ r ]} ∪ pinned s /\ seq_ s' = seq_ s.
Proof.
  intros Hok Ha. unfold alloc_local in Ha. apply res_bind_Ret in Ha as ([r0 s0] & Ha & [= <- <-]).
  destruct (alloc_spec s r0 s0 Hok Ha) as (H0 & H1 & H2 & H3 & H4 & H5 & H6 & H7 & H8 & _).
  split; [|by rewrite <- H7]. pose proof (ok_marks _ H0) as Hm. destruct H5 as [H5' H5].
  apply mark_ok; [done| |].
  - intros q Hq. destruct (ok_free _ H0 q Hq) as (_ & ? & ?). set_solver.
  - intros q Hq. destruct (decide (q = r0)) as [->|]; [apply H5'|]. apply Hm. set_solver.
Qed.

Lemma free_local_spec s r :
  regs_ok s -> r < next s ->
  regs_ok (free_local s r) /\ next (free_local s r) = next s /\
  (forall q, q <> r -> live (free_local s r) q <-> live s q).
Proof.
  intros Hok Hr. unfold free_local.
  destruct (free_spec (MkRegs (locals_end s) (next s) (max s) (free_ s) (in_free s) (seq_ s)
               (pinned s ∖ {[ r ]}) (owner s)) r) as (H1 & _ & H2 & _ & _ & _ & H3).
  - pose proof (ok_marks _ Hok) as Hm. apply mark_ok; [done| |set_solver].
    intros q Hq. destruct (ok_free _ Hok q Hq) as (_ & ? & ?). set_solver.
  - done.
  - split; [done|]. split; [done|]. intros q Hq. rewrite H3. unfold live. cbn. tauto.
Qed.

(** *** Blocks *)

Lemma block_elem base n r : r ∈ block base n <-> base <= r < base + n.
Proof.
  unfold block. rewrite list_elem_of_fmap. split.
  - intros (k & -> & Hk). apply elem_of_seq in Hk. lia.
  - intros Hr. exists (Z.to_nat (r - base)). split; [lia|]. apply elem_of_seq. lia.
Qed.

Lemma free_run_spec n s b :
  0 <= free_run n s b <= Z.of_nat n /\
  (forall r, b <= r < b + free_run n s b -> r ∈ in_free s).
Proof.
  revert b. induction n as [|n IH]; intros b; cbn [free_run]; [split; [lia|intros; lia]|].
  case_bool_decide as Hb; [|split; [lia|intros; lia]].
  destruct (IH (b + 1)) as [H1 H2]. split; [lia|]. intros r Hr.
  destruct (Z.eq_dec r b) as [->|]; [done|]. apply H2. lia.
Qed.

(** The search terminates, and what it finds is free. *)
Lemma seq_search_spec s n :
  regs_ok s -> 0 < n ->
  match run (seq_step s n) None 300 (locals_end s) with
  | Some base => locals_end s <= base /\ base + n <= next s /\
                 (forall r, base <= r < base + n -> r ∈ in_free s)
  | None => True
  end.
Proof.
  intros [[Hb Hm] _ _ _ _] Hn.
  apply (run_inv (seq_step s n) (fun b => locals_end s <= b)
           (fun b => Z.to_nat (next s + 1 - b))
           (fun o => match o with
                     | Some base => locals_end s <= base /\ base + n <= next s /\
                         (forall r, base <= r < base + n -> r ∈ in_free s)
                     | None => True end)).
  - intros b b' Hlo. unfold seq_step. cbv zeta. destruct (free_run_spec (Z.to_nat n) s b) as [H _].
    case_if; [|done]. case_if; [done|]. intros [= <-]. bool_to_prop. lia.
  - intros b o Hlo. unfold seq_step. cbv zeta.
    destruct (free_run_spec (Z.to_nat n) s b) as [_ H].
    case_if; [|by intros [= <-]]. case_if; [|done]. intros [= <-]. bool_to_prop.
    split; [done|]. split; [done|]. intros r Hr. apply H. lia.
  - done.
  - lia.
Qed.

Lemma alloc_seq_spec s n base s' :
  regs_ok s -> 0 < n -> alloc_seq s n = Ret (base, s') ->
  regs_ok s' /\ grows s s' /\ locals_end s <= base /\ base + n <= max s' /\
  (forall r, base <= r < base + n -> ~ live s r /\ live s' r /\ r ∈ seq_ s') /\
  (forall q, ~ (base <= q < base + n) -> live s' q <-> live s q) /\
  pinned s' = pinned s.
Proof.
  intros Hok Hn Ha. pose proof (seq_search_spec s n Hok Hn) as Hs.
  pose proof Hok as [[Hb Hm] Hnd Hfl Hfr Hmk]. unfold alloc_seq in Ha.
  destruct (n =? 0) eqn:E0; [bool_to_prop; lia|].
  destruct (run _ _ _ _) as [b0|].
  - destruct Hs as (Hs1 & Hs2 & Hs3). injection Ha as <- <-. unfold set_seq, grows, live. cbn.
    assert (Hblk : forall r, r ∈ (list_to_set (block b0 n) : gset Z) <-> b0 <= r < b0 + n)
      by (intros; by rewrite elem_of_list_to_set, block_elem).
    split.
    { split; cbn; [lia|by apply NoDup_filter| | |].
      - intros r. rewrite list_elem_of_filter, elem_of_difference, Hblk, Hfl. tauto.
      - intros r [Hr1 Hr2]%elem_of_difference. rewrite elem_of_union, Hblk in *.
        destruct (Hfr r Hr1) as (? & ? & ?). split; [done|]. split; [done|]. tauto.
      - intros r Hr. destruct (decide (b0 <= r < b0 + n)); [lia|]. apply Hmk.
        rewrite !elem_of_union, Hblk in *. tauto. }
    split; [lia|]. split; [done|]. split; [lia|]. split; [|split; [|done]].
    + intros r Hr. specialize (Hs3 r Hr). split; [tauto|].
      rewrite elem_of_difference, elem_of_union, Hblk. split; [|tauto]. split; [lia|tauto].
    + intros q Hq. rewrite elem_of_difference, Hblk. tauto.
  - destruct (255 <? next s + n) eqn:E; [done|]. bool_to_prop. injection Ha as <- <-.
    unfold set_seq, grows, live, bump_max. cbn.
    assert (Hblk : forall r, r ∈ (list_to_set (block (next s) n) : gset Z) <->
      next s <= r < next s + n) by (intros; by rewrite elem_of_list_to_set, block_elem).
    assert (Hout : forall r, next s <= r -> r ∉ in_free s)
      by (intros r Hr Hf; destruct (Hfr r Hf); lia).
    split.
    { split; cbn; [case_if; bool_to_prop; lia|done|done| |].
      - intros r Hr. destruct (Hfr r Hr) as (? & ? & ?). rewrite elem_of_union, Hblk.
        split; [lia|]. split; [done|]. intros [?|?]; [lia|done].
      - intros r Hr. destruct (decide (next s <= r < next s + n)); [lia|].
        assert (r < next s); [|lia]. apply Hmk. rewrite !elem_of_union, Hblk in *. tauto. }
    split; [case_if; bool_to_prop; lia|]. split; [lia|]. split; [case_if; bool_to_prop; lia|].
    split; [|split; [|done]].
    + intros r Hr. split; [lia|]. rewrite elem_of_union, Hblk. split; [|tauto].
      split; [lia|]. apply Hout. lia.
    + intros q Hq. split; intros [? ?]; (split; [|done]); [|lia].
      destruct (Z_lt_le_dec q (next s)); [lia|]. lia.
Qed.

Lemma release_seq_spec s base n :
  regs_ok s -> (forall r, base <= r < base + n -> r < next s) ->
  regs_ok (release_seq s base n) /\ next (release_seq s base n) = next s /\
  (forall q, ~ (base <= q < base + n) -> live (release_seq s base n) q <-> live s q).
Proof.
  intros Hok Hn. unfold release_seq.
  assert (H : forall l s, (forall r, r ∈ l -> r < next s) -> regs_ok s ->
    let s' := foldl (fun s r => free (MkRegs (locals_end s) (next s) (max s) (free_ s) (in_free s)
                                 (seq_ s ∖ {[ r ]}) (pinned s) (owner s)) r) s l in
    regs_ok s' /\ next s' = next s /\ (forall q, q ∉ l -> live s' q <-> live s q)).
  { clear. induction l as [|r l IH]; intros s Hl Hok; cbv zeta; cbn [foldl]; [done|].
    destruct (free_spec (MkRegs (locals_end s) (next s) (max s) (free_ s) (in_free s)
                (seq_ s ∖ {[ r ]}) (pinned s) (owner s)) r) as (H1 & _ & H2 & _ & _ & _ & H3).
    - pose proof (ok_marks _ Hok) as Hm. apply mark_ok; [done| |set_solver].
      intros q Hq. destruct (ok_free _ Hok q Hq) as (_ & ? & ?). set_solver.
    - apply Hl. by left.
    - destruct (IH _ ltac:(intros q Hq; rewrite H2; apply Hl; by right) H1) as (J1 & J2 & J3).
      split; [done|]. split; [by rewrite J2|]. intros q Hq. rewrite not_elem_of_cons in Hq.
      rewrite J3, H3 by tauto. unfold live. cbn. tauto. }
  destruct (H (block base n) s) as (H1 & H2 & H3); [|done|].
  { intros r Hr%block_elem. by apply Hn. }
  split; [done|]. split; [done|]. intros q Hq. apply H3. by rewrite block_elem.
Qed.

(** ** Every sequence of operations *)

(** One call on the allocator, and the registers it hands out. The callers
    give back registers they were handed. *)
Inductive ra_step (s : RegisterAllocator) : list Z -> RegisterAllocator -> Prop :=
| step_alloc r s' : alloc s = Ret (r, s') -> ra_step s [r] s'
| step_alloc_local r s' : alloc_local s = Ret (r, s') -> ra_step s [r] s'
| step_alloc_seq n base s' :
    0 < n -> alloc_seq s n = Ret (base, s') -> ra_step s (block base n) s'
| step_free r : r < next s -> ra_step s [] (free s r)
| step_free_local r : r < next s -> ra_step s [] (free_local s r)
| step_release_seq base n :
    base + n <= next s -> ra_step s [] (release_seq s base n).

Inductive ra_reachable : RegisterAllocator -> Prop :=
| reach_new n o : 0 <= n <= 255 -> ra_reachable (new_allocator n o)
| reach_step s given s' : ra_reachable s -> ra_step s given s' -> ra_reachable s'.

Lemma ra_step_ok s given s' :
  regs_ok s -> ra_step s given s' ->
  regs_ok s' /\ forall r, r ∈ given -> locals_end s <= r < max s' /\ ~ live s r /\ live s' r.
Proof.
  intros Hok Hs. destruct Hs as [r s' H|r s' H|n base s' Hn H|r Hr|r Hr|base n Hn].
  - destruct (alloc_spec s r s' Hok H) as (? & _ & ? & _ & ? & ? & _).
    split; [done|]. by intros q ->%list_elem_of_singleton.
  - destruct (alloc_local_spec s r s' Hok H) as (? & _ & ? & _ & ? & ? & _).
    split; [done|]. by intros q ->%list_elem_of_singleton.
  - destruct (alloc_seq_spec s n base s' Hok Hn H) as (? & ? & ? & ? & Hb & _ & _).
    split; [done|]. intros q Hq%block_elem. destruct (Hb q Hq) as (? & ? & _).
    split; [lia|done].
  - split; [by apply (free_spec s r)|]. by intros q Hq%not_elem_of_nil.
  - split; [by apply (free_local_spec s r)|]. by intros q Hq%not_elem_of_nil.
  - split; [|by intros q Hq%not_elem_of_nil]. apply (release_seq_spec s base n); [done|].
    intros. lia.
Qed.

(** C12: the allocator never hands out a register that is in use. After any
    sequence of its operations its invariant holds, and every register the next
    operation hands out is a byte below 255 that was not in use, is now, and
    lies below [max_used()], the size of the frame; [alloc] fails only when
    all of them are in use. *)
Theorem regalloc_no_double_use s :
  ra_reachable s ->
  regs_ok s /\
  (forall given s', ra_step s given s' -> forall r, r ∈ given ->
     0 <= r < 255 /\ r < max s' /\ ~ live s r /\ live s' r) /\
  (forall m, alloc s = Exn m -> forall r, 0 <= r < 255 -> live s r).
Proof.
  intros Hr. assert (Hok : regs_ok s).
  { induction Hr; [by apply new_allocator_ok|by eapply ra_step_ok]. }
  split; [done|]. split.
  - intros given s' Hs r Hg. destruct (ra_step_ok s given s' Hok Hs) as [Hok' H].
    destruct (H r Hg) as (? & ? & Hl). destruct (ok_bounds _ Hok), (ok_bounds _ Hok').
    pose proof (proj1 Hl). split; [lia|]. split; [lia|done].
  - intros m Ha r Hr255. unfold alloc in Ha. destruct (free_ s) as [|] eqn:Ef; [|done].
    destruct (next s =? 255) eqn:E; [|done]. bool_to_prop. split; [lia|].
    intros Hin. apply (ok_flags _ Hok) in Hin. rewrite Ef in Hin. by apply not_elem_of_nil in Hin.
Qed.
Lemma regalloc_no_double_use_witness :
  let s := free (free (new_allocator 2 (lit "f")) 1) 0 in
  alloc s = Ret (2, MkRegs 2 3 3 [] ∅ ∅ ∅ (lit "f")) /\ ~ live s 2.
Proof.
  intros s. assert (Hr : ra_reachable s).
  { eapply reach_step; [eapply reach_step; [by apply (reach_new 2 (lit "f"))|]|].
    - by apply (step_free (new_allocator 2 (lit "f")) 1).
    - by apply (step_free (free (new_allocator 2 (lit "f")) 1) 0). }
  assert (Ha : alloc s = Ret (2, MkRegs 2 3 3 [] ∅ ∅ ∅ (lit "f"))) by (vm_compute; reflexivity).
  split; [exact Ha|].
  destruct (regalloc_no_double_use s Hr) as (_ & H & _).
  destruct (H [2] _ (step_alloc s 2 _ Ha) 2 ltac:(by left)) as (_ & _ & Hl & _). exact Hl.
Defined.

End Bytecode.
