(* ===== verification/Vm.v ===== *)
(** The bytecode interpreter: [class VM] of cpp/include/look/vm.h and
    cpp/src/vm.cpp. Its state, the element access of arrays and associative
    arrays, one function per group of opcodes, exception handling and the
    dispatch loop.

    Not here: the opcodes that call native code or threads (CALL_BUILTIN,
    PARALLEL_CALL, the channel ones), for which a step gives [XExternal], the
    per-request copy of setup globals ([isolate_globals_] is off, as in the
    command-line VM), and [global_cache_], which holds the address of a slot of
    [globals_] (no slot is ever removed), so that reading through it is
    reading the slot. *)

From S2P Require Import Prelude CNum Value Bytecode.
#[local] Open Scope Z_scope.

Module Vm.
Import CNum Value Bytecode.

(** * State *)

Record Frame := MkFrame {
  f_proto : FunctionProto;
  f_closure : Closure;
  ip : Z;
  base : nat;
  ret_reg : Z;
  argc : Z
}.

Record TryCatchEntry := MkTry { catch_ip : Z; frame_depth : nat; reg_base : nat }.

(** [call_stack] and [try_stack] have their [back()] at the head; [arrays] and
    [closures] are the shared objects. *)
Record VM := MkVM {
  regs : list Value;
  call_stack : list Frame;
  try_stack : list TryCatchEntry;
  try_floor : nat;
  current_exception : Value;
  globals : gmap bytes Value;
  arrays : heap;
  closures : gmap loc Closure
}.

Definition MAX_CALL_DEPTH : nat := 500.

Definition set_regs (vm : VM) (r : list Value) : VM :=
  MkVM r (call_stack vm) (try_stack vm) (try_floor vm) (current_exception vm)
       (globals vm) (arrays vm) (closures vm).
Definition set_stack (vm : VM) (s : list Frame) : VM :=
  MkVM (regs vm) s (try_stack vm) (try_floor vm) (current_exception vm)
       (globals vm) (arrays vm) (closures vm).
Definition set_try (vm : VM) (t : list TryCatchEntry) : VM :=
  MkVM (regs vm) (call_stack vm) t (try_floor vm) (current_exception vm)
       (globals vm) (arrays vm) (closures vm).
Definition set_exc (vm : VM) (v : Value) : VM :=
  MkVM (regs vm) (call_stack vm) (try_stack vm) (try_floor vm) v
       (globals vm) (arrays vm) (closures vm).
Definition set_globals (vm : VM) (g : gmap bytes Value) : VM :=
  MkVM (regs vm) (call_stack vm) (try_stack vm) (try_floor vm) (current_exception vm)
       g (arrays vm) (closures vm).
Definition set_arrays (vm : VM) (h : heap) : VM :=
  MkVM (regs vm) (call_stack vm) (try_stack vm) (try_floor vm) (current_exception vm)
       (globals vm) h (closures vm).
Definition set_closures (vm : VM) (c : gmap loc Closure) : VM :=
  MkVM (regs vm) (call_stack vm) (try_stack vm) (try_floor vm) (current_exception vm)
       (globals vm) (arrays vm) c.

Definition set_ip (f : Frame) (i : Z) : Frame :=
  MkFrame (f_proto f) (f_closure f) i (base f) (ret_reg f) (argc f).

(** [frame.ip = i] for the current frame. *)
Definition jump_to (vm : VM) (i : Z) : VM :=
  match call_stack vm with
  | f :: s => set_stack vm (set_ip f i :: s)
  | [] => vm
  end.

(** [regs_.resize(n)]: cut, or fill with null. *)
Definition resize (l : list Value) (n : nat) : list Value :=
  take n l ++ replicate (n - length l) NONE.

(** * Results of one instruction

    [XErr m] is an exception of C++ with the message [m] ([LookVmError], or
    what an operator threw), [XThrow v] a [LookVmThrow], each with the state
    it leaves; [XReturn v] is [return v;] of [run]. *)
Inductive xres :=
| XOk (vm : VM)
| XErr (msg : bytes) (vm : VM)
| XThrow (v : Value) (vm : VM)
| XReturn (v : Value) (vm : VM)
| XUndef
| XExternal.

Definition lift {A} (vm : VM) (r : res A) (k : A -> xres) : xres :=
  match r with Ret a => k a | Exn m => XErr m vm | Undef => XUndef end.

(** [R(x)]: [regs_[base + x]]; out of range is undefined. *)
Definition reg (vm : VM) (f : Frame) (x : Z) (k : Value -> xres) : xres :=
  match regs vm !! (base f + Z.to_nat x)%nat with Some v => k v | None => XUndef end.
Definition set_reg (vm : VM) (f : Frame) (x : Z) (v : Value) : xres :=
  if (base f + Z.to_nat x <? length (regs vm))%nat
  then XOk (set_regs vm (<[(base f + Z.to_nat x)%nat := v]> (regs vm))) else XUndef.

(** [CONST(i)] *)
Definition const (f : Frame) (i : Z) (k : Value -> xres) : xres :=
  match constants (f_proto f) !! Z.to_nat i with Some v => k v | None => XUndef end.

(** * Elements of arrays *)

Definition ASSOC : bytes := lit "__assoc__".
Definition STRUCT : bytes := lit "__struct__".
Definition is_str (t : bytes) (v : Value) : bool :=
  match v with STRING s => s =s t | _ => false end.
Definition first_is (p : Value -> bool) (l : list Value) : bool :=
  match l with v :: _ => p v | [] => false end.

Definition is_assoc (vec : list Value) : bool := first_is (is_str ASSOC) vec.

(** Where the keys start: behind the sentinel and the tag of a struct. *)
Definition data_start (vec : list Value) : nat :=
  if (2 <? length vec)%nat && first_is (is_str STRUCT) (drop 1 vec) then 3 else 1.

Definition err_index (i : Z) : bytes :=
  lit "Array index " ++ int_to_string i ++ lit " out of bounds".
Definition err_immutable : bytes :=
  lit "Strings are immutable; cannot assign to a string index".

Section Machine.
Context (L : Lib) (depth : nat).

(** The key of an associative lookup: a string is itself, anything else its
    text. *)
Definition key_text (h : heap) (key : Value) : res bytes := to_string L depth h key.

(** The index of the value behind the key [k], in the pairs [l] that start at
    index [i]. *)
Fixpoint find_pair (h : heap) (k : bytes) (l : list Value) (i : nat) : res (option nat) :=
  match l with
  | k0 :: _ :: r =>
      key_text h k0 ≫= fun t : bytes =>
      if t =s k then Ret (Some (S i)) else find_pair h k r (S (S i))
  | _ => Ret None
  end.

Definition array_get (h : heap) (arr key : Value) : res Value :=
  match arr with
  | ARRAY l =>
      let vec := elems h l in
      if is_assoc vec then
        key_text h key ≫= fun k : bytes =>
        find_pair h k (drop (data_start vec) vec) (data_start vec) ≫= fun o : option nat =>
        match o with
        | Some i => Ret (default NONE (vec !! i))
        | None => Ret NONE
        end
      else if type_eqb (type key) T_STRING && negb (look_is_int_key (str_ref key)) then Ret NONE
      else
        to_int key ≫= fun k : Z =>
        let n := Z.of_nat (length vec) in
        let i := if k <? 0 then k + n else k in
        if (i <? 0) || (n <=? i) then Exn (err_index k)
        else Ret (default NONE (vec !! Z.to_nat i))
  | _ => Ret NONE
  end.

(** A list becomes associative: its elements keyed by their indices. *)
Definition to_assoc (vec : list Value) : list Value :=
  STRING ASSOC ::
  concat (imap (fun n v => [STRING (int_to_string (Z.of_nat n)); v]) vec).

(** The new contents of the vector. *)
Definition vec_set (h : heap) (vec : list Value) (key val : Value) : res (list Value) :=
  let str_key := type_eqb (type key) T_STRING && negb (look_is_int_key (str_ref key)) in
  if is_assoc vec || str_key then
    key_text h key ≫= fun k : bytes =>
    let vec := if is_assoc vec then vec else to_assoc vec in
    find_pair h k (drop (data_start vec) vec) (data_start vec) ≫= fun o : option nat =>
    match o with
    | Some i => Ret (<[i := val]> vec)
    | None => Ret (vec ++ [(match key with STRING _ => key | _ => STRING k end); val])
    end
  else
    to_int key ≫= fun k : Z =>
    let n := Z.of_nat (length vec) in
    let idx := if k <? 0 then k + n else k in
    if idx =? n then Ret (vec ++ [val])
    else if (idx <? 0) || (n <? idx) then Exn (err_index k)
    else Ret (<[Z.to_nat idx := val]> vec).

(** [array_set(R(x), key, val)]. A null register first becomes a new array;
    [key] and [val] are read behind that, since the code holds references. *)
Definition array_set (vm : VM) (f : Frame) (x : Z) (key val : (Value -> xres) -> xres) : xres :=
  reg vm f x (fun arr =>
  match arr with
  | STRING _ => XErr err_immutable vm
  | ARRAY l =>
      key (fun k => val (fun v =>
      lift vm (vec_set (arrays vm) (elems (arrays vm) l) k v) (fun vec =>
      XOk (set_arrays vm (<[l := vec]> (arrays vm))))))
  | _ => XOk vm
  end).

Definition new_array (vm : VM) (vec : list Value) : loc * VM :=
  let l := fresh (dom (arrays vm)) in (l, set_arrays vm (<[l := vec]> (arrays vm))).

(** [if (arr.type() == NONE) arr = Value(make_shared<vector>())] *)
Definition ensure_array (vm : VM) (f : Frame) (x : Z) (k : VM -> xres) : xres :=
  reg vm f x (fun arr =>
  match arr with
  | NONE =>
      let (l, vm) := new_array vm [] in
      match set_reg vm f x (ARRAY l) with XOk vm => k vm | r => r end
  | _ => k vm
  end).

Definition get_field (h : heap) (obj : Value) (field : bytes) : res Value :=
  array_get h obj (STRING field).

(** * The instructions *)

Definition exec_load (vm : VM) (f : Frame) (i : Instruction) : xres :=
  match op i with
  | LOAD_CONST => const f (b i) (set_reg vm f (a i))
  | LOAD_CONST_W => const f (bx i) (set_reg vm f (a i))
  | LOAD_NULL => set_reg vm f (a i) NONE
  | LOAD_TRUE => set_reg vm f (a i) (BOOL true)
  | LOAD_FALSE => set_reg vm f (a i) (BOOL false)
  | LOAD_INT => set_reg vm f (a i) (INT (i8_value (b i)))
  | MOVE | LOAD_VAR | STORE_VAR => reg vm f (b i) (set_reg vm f (a i))
  | _ => XUndef
  end.

Definition err_undefined (name : bytes) : bytes := lit "Undefined variable: " ++ name.
Definition dollar (name : bytes) : bool :=
  match name with c :: _ => is_c "$" c | [] => false end.

(** [warn_undef] is the environment variable LOOK_WARN_UNDEF (the log line it
    writes is left out). *)
Definition exec_global (warn_undef : bool) (vm : VM) (f : Frame) (i : Instruction) : xres :=
  match op i with
  | LOAD_GLOBAL =>
      const f (bx i) (fun cn =>
      let gname := str_ref cn in
      match globals vm !! gname with
      | Some v => set_reg vm f (a i) v
      | None =>
          if dollar gname then
            if warn_undef then set_reg vm f (a i) NONE else XErr (err_undefined gname) vm
          else set_reg vm f (a i) NONE
      end)
  | STORE_GLOBAL =>
      const f (bx i) (fun cn =>
      reg vm f (a i) (fun v => XOk (set_globals vm (<[str_ref cn := v]> (globals vm)))))
  | CHECK_DEFINED =>
      reg vm f (a i) (fun v =>
      match v with
      | NONE =>
          const f (bx i) (fun cn =>
          match globals vm !! str_ref cn with
          | None => XErr (err_undefined (str_ref cn)) vm
          | Some _ => XOk vm
          end)
      | _ => XOk vm
      end)
  | _ => XUndef
  end.

(** The INT+INT path of ADD, SUB and MUL; everything else is the operator. *)
Definition fast (ovf : Z -> Z -> Z * bool) (slow : Value -> Value -> res Value)
    (v w : Value) : res Value :=
  match v, w with
  | INT x, INT y => let (r, over) := ovf x y in if over then slow v w else Ret (INT r)
  | _, _ => slow v w
  end.

Definition bool_res (r : res bool) : res Value := r ≫= fun t : bool => Ret (BOOL t).

(** [R(b) op R(c)] *)
Definition binop (h : heap) (o : OpCode) (v w : Value) : option (res Value) :=
  match o with
  | ADD => Some (fast i64_add_ovf op_add v w)
  | SUB => Some (fast i64_sub_ovf op_sub v w)
  | MUL => Some (fast i64_mul_ovf op_mul v w)
  | DIV => Some (op_div v w)
  | MOD => Some (op_mod v w)
  | POW => Some (op_pow L v w)
  | BAND => Some (bitwise_and v w)
  | BOR => Some (bitwise_or v w)
  | BXOR => Some (bitwise_xor v w)
  | SHL => Some (shift_left v w)
  | SHR => Some (shift_right v w)
  | CONCAT => Some (op_concat L depth h v w)
  | EQ => Some (Ret (BOOL (op_eq v w)))
  | NEQ => Some (Ret (BOOL (negb (op_eq v w))))
  | LT => Some (bool_res (op_lt v w))
  | GT => Some (bool_res (op_gt v w))
  | LTE => Some (bool_res (op_le v w))
  | GTE => Some (bool_res (op_ge v w))
  | CMP3 => Some (spaceship v w ≫= fun z : Z => Ret (INT z))
  | _ => None
  end.

(** [R(b)] with one operand *)
Definition unop (h : heap) (o : OpCode) (v : Value) : option (res Value) :=
  match o with
  | UNM => Some (op_neg v)
  | BNOT => Some (bitwise_not v)
  | NOT => Some (Ret (BOOL (negb (is_truthy h v))))
  | TO_INT => Some (to_int v ≫= fun z : Z => Ret (INT z))
  | TO_FLOAT => Some (Ret (FLOAT (to_float v)))
  | TO_STR => Some (to_string L depth h v ≫= fun t : bytes => Ret (STRING t))
  | TO_BOOL => Some (Ret (BOOL (is_truthy h v)))
  | TYPE_OF => Some (Ret (STRING (match type v with
      | T_INT => lit "int" | T_FLOAT => lit "float" | T_STRING => lit "string"
      | T_BOOL => lit "bool" | T_FUNCTION => lit "function" | T_ARRAY => lit "array"
      | T_CHANNEL => lit "channel" | T_WEBSOCKET => lit "websocket" | T_SSE_CONN => lit "sse"
      | T_BYTECODE_FN => lit "function" | T_NONE => lit "null" end)))
  | _ => None
  end.

(** CONCAT with the destination as left operand appends in place, which on
    these values is concatenation (see [Value.StringCow]). *)
Definition exec_value (vm : VM) (f : Frame) (i : Instruction) : xres :=
  reg vm f (b i) (fun v =>
  match unop (arrays vm) (op i) v with
  | Some r => lift vm r (set_reg vm f (a i))
  | None =>
      reg vm f (c i) (fun w =>
      match op i with
      | COALESCE => set_reg vm f (a i) (match v with NONE => w | _ => v end)
      | _ =>
          match binop (arrays vm) (op i) v w with
          | Some r => lift vm r (set_reg vm f (a i))
          | None => XUndef
          end
      end)
  end).

(** The length ARRAY_LEN gives: pairs of an associative array, else elements. It
    is a 32-bit int in the code; an array of 2^31 elements is out of reach. *)
Definition array_len (vec : list Value) : Z :=
  if is_assoc vec then Z.of_nat (Nat.div (length vec - data_start vec) 2)
  else Z.of_nat (length vec).

Definition exec_array (vm : VM) (f : Frame) (i : Instruction) : xres :=
  match op i with
  | NEW_ARRAY => let (l, vm) := new_array vm [] in set_reg vm f (a i) (ARRAY l)
  | NEW_ASSOC => let (l, vm) := new_array vm [STRING ASSOC] in set_reg vm f (a i) (ARRAY l)
  | ARRAY_PUSH =>
      reg vm f (a i) (fun arr => reg vm f (b i) (fun v =>
      match arr with
      | ARRAY l => XOk (set_arrays vm (<[l := elems (arrays vm) l ++ [v]]> (arrays vm)))
      | _ => XOk vm
      end))
  | ASSOC_APPEND =>
      reg vm f (a i) (fun arr => reg vm f (b i) (fun k => reg vm f (c i) (fun v =>
      match arr with
      | ARRAY l => XOk (set_arrays vm (<[l := elems (arrays vm) l ++ [k; v]]> (arrays vm)))
      | _ => XUndef
      end)))
  | ARRAY_GET =>
      reg vm f (b i) (fun arr => reg vm f (c i) (fun key =>
      lift vm (array_get (arrays vm) arr key) (set_reg vm f (a i))))
  | ARRAY_SET =>
      ensure_array vm f (a i) (fun vm => array_set vm f (a i) (reg vm f (b i)) (reg vm f (c i)))
  | ARRAY_LEN =>
      reg vm f (b i) (fun arr =>
      set_reg vm f (a i) (INT (match arr with ARRAY l => array_len (elems (arrays vm) l) | _ => 0 end)))
  | GET_FIELD =>
      const f (c i) (fun fname => reg vm f (b i) (fun obj =>
      lift vm (get_field (arrays vm) obj (str_ref fname)) (set_reg vm f (a i))))
  | SET_FIELD =>
      const f (b i) (fun fname =>
      ensure_array vm f (a i) (fun vm =>
      array_set vm f (a i) (fun k => k (STRING (str_ref fname))) (reg vm f (c i))))
  | _ => XUndef
  end.

Definition exec_jump (vm : VM) (f : Frame) (i : Instruction) : xres :=
  let when (t : Value -> bool) : xres :=
    reg vm f (a i) (fun v => XOk (if t v then jump_to vm (bx i) else vm)) in
  match op i with
  | JUMP => XOk (jump_to vm (bx i))
  | JUMP_IF_FALSE => when (fun v => negb (is_truthy (arrays vm) v))
  | JUMP_IF_TRUE => when (is_truthy (arrays vm))
  | JUMP_IF_NULL => when (fun v => type_eqb (type v) T_NONE)
  | _ => XUndef
  end.

(** The NOP that may follow the instruction at [ip - 1], and the frame behind
    it. *)
Definition code_at (f : Frame) (i : Z) : option Instruction :=
  if i <? 0 then None else code (f_proto f) !! Z.to_nat i.
Definition nop_hint (f : Frame) : option Instruction :=
  match code_at f (ip f) with
  | Some h => if bool_decide (op h = NOP) then Some h else None
  | None => None
  end.

Definition err_call (fn : Value) (nm : option bytes) : bytes :=
  match nm with
  | Some nm =>
      match fn with
      | NONE => err_undefined nm
      | _ => [SQUOTE] ++ nm ++ lit "' is not callable (function expected)"
      end
  | None => lit "Not callable (function expected)"
  end.
Definition err_overflow : bytes := lit "Stack overflow (max 500)".

(** The registers [lo, hi) of the current frame. *)
Definition arg_values (vm : VM) (f : Frame) (from : Z) (n : Z) : list Value :=
  take (Z.to_nat n) (drop (base f + Z.to_nat from) (regs vm)).

(** The registers of the callee's frame: its parameters, and the rest array of
    a variadic function (its location is [rest]). *)
Definition bind_args (p : FunctionProto) (args : list Value) (rest : Value) (fresh_regs : list Value)
    : list Value :=
  if variadic p then
    let fixed := Z.to_nat (arity p - 1) in
    let bound := take fixed args ++ drop (length (take fixed args)) fresh_regs in
    if 0 <? arity p then <[fixed := rest]> bound else bound
  else
    let bound := take (Z.to_nat (arity p)) args in
    bound ++ drop (length bound) fresh_regs.

(** The new frame: [n] arguments from the register [from] on, and the register
    [ret] of the caller for the result. The registers are there before the
    depth is tested. *)
Definition enter_call (vm : VM) (f : Frame) (cl : Closure) (from n ret : Z) : xres :=
  let cp := proto cl in
  let args := arg_values vm f from n in
  if negb (length args =? Z.to_nat n)%nat then XUndef else
  let new_base := length (regs vm) in
  let '(rest, vm) :=
    if variadic cp then
      let (l, vm) := new_array vm (drop (Z.to_nat (arity cp - 1)) args) in (ARRAY l, vm)
    else (NONE, vm) in
  let vm := set_regs vm (regs vm ++
              bind_args cp args rest (replicate (Z.to_nat (reg_count cp)) NONE)) in
  if (MAX_CALL_DEPTH <=? length (call_stack vm))%nat then XErr err_overflow vm
  else XOk (set_stack vm (MkFrame cp cl 0 new_base (Z.of_nat (base f) + ret) n :: call_stack vm)).

(** The number of arguments and the name's index of the NOP behind a call, and
    the state behind that *)
Definition call_hint (vm : VM) (f : Frame) : Z * Z * VM * Frame :=
  match nop_hint f with
  | Some h => (a h, bx h, jump_to vm (ip f + 1), set_ip f (ip f + 1))
  | None => (0, 0, vm, f)
  end.
Definition exec_call (vm : VM) (f : Frame) (i : Instruction) : xres :=
  let '(n, cname, vm, f) := call_hint vm f in
  reg vm f (b i) (fun fn =>
  match fn with
  | BYTECODE_FN (Some p) =>
      match closures vm !! p with
      | None => XUndef
      | Some cl => enter_call vm f cl (c i) n (a i)
      end
  | _ =>
      if cname =? 0 then XErr (err_call fn None) vm
      else const f (cname - 1) (fun nm => XErr (err_call fn (Some (str_ref nm))) vm)
  end).
(** TAIL_CALL keeps the frame of its caller. *)
Definition exec_tail_call (vm : VM) (f : Frame) (i : Instruction) : xres :=
  let '(n, _, vm, f) := call_hint vm f in
  reg vm f (b i) (fun fn =>
  match fn with
  | BYTECODE_FN (Some p) =>
      match closures vm !! p with
      | None => XUndef
      | Some cl => enter_call vm f cl (c i) n (a i)
      end
  | _ => XErr (lit "TAIL_CALL: BYTECODE_FN expected") vm
  end).

(** RETURN with the value [ret]; also what running off the end of the code
    does with null. *)
Definition do_return (vm : VM) (f : Frame) (ret : Value) : xres :=
  let vm := set_regs vm (resize (regs vm) (base f)) in
  let vm := set_stack vm (tail (call_stack vm)) in
  match call_stack vm with
  | [] => XReturn ret vm
  | _ =>
      if ret_reg f <? 0 then XReturn ret vm
      else if (Z.to_nat (ret_reg f) <? length (regs vm))%nat
      then XOk (set_regs vm (<[Z.to_nat (ret_reg f) := ret]> (regs vm)))
      else XUndef
  end.

(** The captures a MAKE_CLOSURE reads from the instructions behind it. *)
Fixpoint capture_hints (fuel : nat) (vm : VM) (f : Frame) (at_ : Z) (acc : list Value)
    : option (list Value * Z) :=
  match fuel with
  | O => None
  | S fuel' =>
      match code_at f at_ with
      | Some h =>
          if bool_decide (op h = LOAD_CAPTURE) && (a h =? 0) then
            match regs vm !! (base f + Z.to_nat (b h))%nat with
            | Some v => capture_hints fuel' vm f (at_ + 1) (acc ++ [v])
            | None => None
            end
          else Some (acc, at_)
      | None => Some (acc, at_)
      end
  end.

Definition exec_closure (vm : VM) (f : Frame) (i : Instruction) : xres :=
  match op i with
  | MAKE_CLOSURE =>
      match nested (f_proto f) !! Z.to_nat (Z.lor (b i) (Z.shiftl (c i) 8)),
            capture_hints (S (length (code (f_proto f)))) vm f (ip f) [] with
      | Some p, Some (caps, at_) =>
          let l := fresh (dom (closures vm)) in
          let vm := set_closures vm (<[l := MkClosure p caps]> (closures vm)) in
          set_reg (jump_to vm at_) f (a i) (BYTECODE_FN (Some l))
      | _, _ => XUndef
      end
  | LOAD_CAPTURE =>
      match captures (f_closure f) !! Z.to_nat (b i) with
      | Some v => set_reg vm f (a i) v
      | None => XErr (lit "Capture index out of range: " ++ int_to_string (b i)) vm
      end
  | LOAD_ARGC => set_reg vm f (a i) (INT (argc f))
  | _ => XUndef
  end.

(** [as_int()] of an index register. *)
Definition raw_int (v : Value) : option Z := match v with INT z => Some z | _ => None end.

Definition set3 (vm : VM) (f : Frame) (x1 x2 x3 : Z) (v1 v2 v3 : Value) : xres :=
  match set_reg vm f x1 v1 with
  | XOk vm => match set_reg vm f x2 v2 with XOk vm => set_reg vm f x3 v3 | r => r end
  | r => r
  end.

(** The position is a 32-bit int in the code, as the length. *)
Definition exec_for (vm : VM) (f : Frame) (i : Instruction) : xres :=
  match op i with
  | FOR_PREP =>
      reg vm f (b i) (fun v =>
      match set_reg vm f (a i) v with XOk vm => set_reg vm f (a i + 1) (INT 0) | r => r end)
  | FOR_STEP =>
      reg vm f (a i) (fun arr =>
      reg vm f (a i + 1) (fun iv =>
      match arr with
      | ARRAY l =>
          let vec := elems (arrays vm) l in
          match raw_int iv with
          | None => XUndef
          | Some idx =>
              if is_assoc vec then
                let pi := Z.of_nat (data_start vec) + idx * 2 in
                if Z.of_nat (length vec) <=? pi + 1 then XOk (jump_to vm (bx i))
                else match vec !! Z.to_nat pi, vec !! Z.to_nat (pi + 1) with
                     | Some k, Some v => set3 vm f (a i + 3) (a i + 2) (a i + 1) k v (INT (idx + 1))
                     | _, _ => XUndef
                     end
              else if Z.of_nat (length vec) <=? idx then XOk (jump_to vm (bx i))
              else match vec !! Z.to_nat idx with
                   | Some v => set3 vm f (a i + 2) (a i + 3) (a i + 1) v (INT idx) (INT (idx + 1))
                   | None => XUndef
                   end
          end
      | _ => XOk (jump_to vm (bx i))
      end))
  | _ => XUndef
  end.

(** ** Exceptions *)

(** The topmost frame of [frame_depth] frames, the registers of the frames
    above it released. *)
Fixpoint unwind (n : nat) (frames : list Frame) (rs : list Value) : list Frame * list Value :=
  match frames with
  | [] => ([], rs)
  | f :: s => if (n <? length frames)%nat then unwind n s (resize rs (base f)) else (frames, rs)
  end.

(** The handler of this [run], entered with the exception [v]; [None] when it
    has none. *)
Definition to_handler (vm : VM) (v : Value) : option VM :=
  if (length (try_stack vm) <=? try_floor vm)%nat then None
  else match try_stack vm with
  | [] => None
  | e :: rest =>
      let (s, rs) := unwind (frame_depth e) (call_stack vm) (regs vm) in
      let vm := set_exc (set_try (set_regs (set_stack vm s) rs) rest) v in
      Some (jump_to vm (catch_ip e))
  end.

Definition exec_try (vm : VM) (f : Frame) (i : Instruction) : xres :=
  match op i with
  | TRY_PUSH =>
      XOk (set_try vm (MkTry (bx i) (length (call_stack vm)) (base f) :: try_stack vm))
  | TRY_POP => XOk (set_try vm (tail (try_stack vm)))
  | THROW =>
      reg vm f (a i) (fun v =>
      let vm := set_exc vm v in
      match to_handler vm v with Some vm => XOk vm | None => XThrow v vm end)
  | LOAD_EXC => set_reg vm f (a i) (current_exception vm)
  | _ => XUndef
  end.

(** ** The dispatch loop *)

Definition exec (warn_undef : bool) (vm : VM) (f : Frame) (i : Instruction) : xres :=
  match op i with
  | LOAD_CONST | LOAD_CONST_W | LOAD_NULL | LOAD_TRUE | LOAD_FALSE | LOAD_INT
  | MOVE | LOAD_VAR | STORE_VAR => exec_load vm f i
  | LOAD_GLOBAL | STORE_GLOBAL | CHECK_DEFINED => exec_global warn_undef vm f i
  | ADD | SUB | MUL | DIV | MOD | POW | UNM | BAND | BOR | BXOR | BNOT | SHL | SHR | CONCAT
  | EQ | NEQ | LT | GT | LTE | GTE | CMP3 | NOT | COALESCE
  | TYPE_OF | TO_INT | TO_FLOAT | TO_STR | TO_BOOL => exec_value vm f i
  | NEW_ARRAY | NEW_ASSOC | ARRAY_GET | ARRAY_SET | ARRAY_PUSH | ARRAY_LEN | ASSOC_APPEND
  | GET_FIELD | SET_FIELD => exec_array vm f i
  | JUMP | JUMP_IF_FALSE | JUMP_IF_TRUE | JUMP_IF_NULL => exec_jump vm f i
  | CALL => exec_call vm f i
  | TAIL_CALL => exec_tail_call vm f i
  | RETURN => reg vm f (a i) (do_return vm f)
  | RETURN_NULL => do_return vm f NONE
  | MAKE_CLOSURE | LOAD_CAPTURE | LOAD_ARGC => exec_closure vm f i
  | FOR_PREP | FOR_STEP => exec_for vm f i
  | TRY_PUSH | TRY_POP | THROW | LOAD_EXC => exec_try vm f i
  | NOP | BREAKPOINT => XOk vm
  | NEW_STRUCT | CALL_BUILTIN | PARALLEL_CALL | CHAN_SEND | CHAN_RECV | CHAN_CLOSE
  | CHAN_SIZE => XExternal
  | WS_SEND | WS_BROADCAST | SSE_SEND | ROUTE_MATCH => XErr (lit "Unknown opcode") vm
  end.

(** One turn: fetch (the frame's [ip] moves first), execute, and send an
    exception to the handler of this [run] if there is one. *)
Definition step (warn_undef : bool) (vm : VM) : xres :=
  match call_stack vm with
  | [] => XReturn NONE vm
  | f :: _ =>
      match code_at f (ip f) with
      | None => do_return vm f NONE
      | Some i =>
          match exec warn_undef (jump_to vm (ip f + 1)) (set_ip f (ip f + 1)) i with
          | XErr m vm' =>
              match to_handler vm' (STRING m) with Some vm'' => XOk vm'' | None => XErr m vm' end
          | r => r
          end
      end
  end.

Fixpoint run (warn_undef : bool) (fuel : nat) (vm : VM) : option xres :=
  match fuel with
  | O => None
  | S fuel' =>
      match step warn_undef vm with
      | XOk vm' => run warn_undef fuel' vm'
      | r => Some r
      end
  end.

Definition push_frame (vm : VM) (cl : Closure) (n : Z) (ret : Z) : VM :=
  set_stack (set_regs vm (regs vm ++ replicate (Z.to_nat n) NONE))
            (MkFrame (proto cl) cl 0 (length (regs vm)) ret 0 :: call_stack vm).

(** [run()] uses only the handlers pushed after it was entered. *)
Definition enter_run (vm : VM) : VM :=
  MkVM (regs vm) (call_stack vm) (try_stack vm) (length (try_stack vm)) (current_exception vm)
       (globals vm) (arrays vm) (closures vm).

(** [execute(prog)] up to the loop of [run]. *)
Definition execute (vm : VM) (main : FunctionProto) : VM :=
  enter_run (push_frame vm (MkClosure main []) (reg_count main) (-1)).

End Machine.
End Vm.
