(* ===== verification/Compiler.v ===== *)
(** The bytecode compiler of cpp/include/look/compiler.h and
    cpp/src/compiler.cpp, for expressions: emission and patching, the constant
    pool, scopes and the resolution of names, and [compile_expr] with its
    helpers.

    Calls, closures and interpolated strings are not translated here
    ([unmodelled]). *)

From S2P Require Import Prelude CNum Value Bytecode Ast.
#[local] Open Scope Z_scope.

Module Compiler.
Import CNum Value Bytecode Ast.

(** * State *)

Record LocalVar := MkLocal { lv_name : bytes; lv_reg : Z; lv_depth : Z }.
Record CaptureInfo := MkCapture { ci_name : bytes; capture_index : Z; is_cell : bool }.

(** A [FunctionCompiler]; [locals_] has its [back()] at the head. *)
Inductive FunctionCompiler := MkFC {
  code_ : list Instruction;
  lines_ : list Z;
  constants_ : list Value;
  regs_ : RegisterAllocator;
  locals_ : list LocalVar;
  scope_depth_ : Z;
  loop_depth_ : Z;
  captures_ : list CaptureInfo;
  boxed_names_ : gset bytes;
  boxed_slots_ : gset Z;
  outer_globals_ : gset bytes;
  no_discovery_ : bool;
  callee_ctx_ : bool;
  cur_line_ : Z;
  parent_ : option FunctionCompiler
}.

(** A compiler method; [Exn] is a [LookCompileError]. *)
Definition M (A : Type) : Type := FunctionCompiler -> res (A * FunctionCompiler).

Definition ret {A} (x : A) : M A := fun s => Ret (x, s).
Definition bind {A B} (m : M A) (k : A -> M B) : M B := fun s =>
  match m s with Ret (x, s') => k x s' | Exn e => Exn e | Undef => Undef end.
Definition throw {A} (m : bytes) : M A := fun _ => Exn m.
Definition of_res {A} (r : res A) : M A := fun s =>
  match r with Ret x => Ret (x, s) | Exn e => Exn e | Undef => Undef end.
Definition get {A} (p : FunctionCompiler -> A) : M A := fun s => Ret (p s, s).

(** A form this file does not translate. *)
Definition unmodelled {A} : M A := fun _ => Undef.

Notation "'do' x <- m ; k" := (bind m (fun x => k))
  (at level 200, x pattern, m at level 100, k at level 200, right associativity) : look_scope.
Notation "'run' m ; k" := (bind m (fun _ => k))
  (at level 200, m at level 100, k at level 200, right associativity) : look_scope.

(** The fields of a compiler that the methods write. *)
Definition with_code (s : FunctionCompiler) (cs : list Instruction) (ls : list Z) : FunctionCompiler :=
  MkFC cs ls (constants_ s) (regs_ s) (locals_ s) (scope_depth_ s) (loop_depth_ s) (captures_ s)
       (boxed_names_ s) (boxed_slots_ s) (outer_globals_ s) (no_discovery_ s) (callee_ctx_ s)
       (cur_line_ s) (parent_ s).
Definition with_constants (s : FunctionCompiler) (cs : list Value) : FunctionCompiler :=
  MkFC (code_ s) (lines_ s) cs (regs_ s) (locals_ s) (scope_depth_ s) (loop_depth_ s) (captures_ s)
       (boxed_names_ s) (boxed_slots_ s) (outer_globals_ s) (no_discovery_ s) (callee_ctx_ s)
       (cur_line_ s) (parent_ s).
Definition with_regs (s : FunctionCompiler) (r : RegisterAllocator) : FunctionCompiler :=
  MkFC (code_ s) (lines_ s) (constants_ s) r (locals_ s) (scope_depth_ s) (loop_depth_ s) (captures_ s)
       (boxed_names_ s) (boxed_slots_ s) (outer_globals_ s) (no_discovery_ s) (callee_ctx_ s)
       (cur_line_ s) (parent_ s).
Definition with_scope (s : FunctionCompiler) (ls : list LocalVar) (d : Z) (bs : gset Z) : FunctionCompiler :=
  MkFC (code_ s) (lines_ s) (constants_ s) (regs_ s) ls d (loop_depth_ s) (captures_ s)
       (boxed_names_ s) bs (outer_globals_ s) (no_discovery_ s) (callee_ctx_ s)
       (cur_line_ s) (parent_ s).
Definition with_captures (s : FunctionCompiler) (cs : list CaptureInfo)
    (p : option FunctionCompiler) : FunctionCompiler :=
  MkFC (code_ s) (lines_ s) (constants_ s) (regs_ s) (locals_ s) (scope_depth_ s) (loop_depth_ s) cs
       (boxed_names_ s) (boxed_slots_ s) (outer_globals_ s) (no_discovery_ s) (callee_ctx_ s)
       (cur_line_ s) p.
Definition with_outer (s : FunctionCompiler) (o : gset bytes) : FunctionCompiler :=
  MkFC (code_ s) (lines_ s) (constants_ s) (regs_ s) (locals_ s) (scope_depth_ s) (loop_depth_ s)
       (captures_ s) (boxed_names_ s) (boxed_slots_ s) o (no_discovery_ s) (callee_ctx_ s)
       (cur_line_ s) (parent_ s).

(** * Emission *)

Definition current_ip : M Z := fun s => Ret (Z.of_nat (length (code_ s)), s).

Definition emit (o : OpCode) (x y z : Z) : M Z := fun s =>
  Ret (Z.of_nat (length (code_ s)),
       with_code s (code_ s ++ [mkI o x y z]) (lines_ s ++ [cur_line_ s])).

Definition emit_jump (o : OpCode) (cond_reg : Z) : M Z := emit o cond_reg 0 0.

Definition patch_jump (offset target : Z) : M unit :=
  if 65535 <? target then throw (lit "Jump target too far")
  else
    do h <- of_res (hi8 target);
    do l <- of_res (lo8 target);
    fun s =>
      match code_ s !! Z.to_nat offset with
      | Some i => Ret (tt, with_code s (<[Z.to_nat offset := mkI (op i) (a i) h l]> (code_ s)) (lines_ s))
      | None => Undef
      end.

(** The first constant equal to [v] by [Value::operator==]. *)
Fixpoint const_index (cs : list Value) (v : Value) (i : nat) : option nat :=
  match cs with
  | [] => None
  | w :: cs' => if op_eq w v then Some i else const_index cs' v (S i)
  end.

Definition add_const (v : Value) : M Z := fun s =>
  match const_index (constants_ s) v 0 with
  | Some i => of_res (u16 (Z.of_nat i) (lit "constant index")) s
  | None =>
      let n := Z.of_nat (length (constants_ s)) in
      if 65535 <=? n then Exn (lit "Constant pool overflow (max 65535)")
      else of_res (u16 n (lit "constant index")) (with_constants s (constants_ s ++ [v]))
  end.

(** An instruction with a 16-bit operand in its bytes [b] and [c]. *)
Definition emit_wide (o : OpCode) (x idx : Z) : M Z :=
  do h <- of_res (hi8 idx);
  do l <- of_res (lo8 idx);
  emit o x h l.

Definition small_int (v : Value) : option Z :=
  match v with INT i => if (-128 <=? i) && (i <=? 127) then Some i else None | _ => None end.

Definition emit_load_const (dest : Z) (v : Value) : M unit :=
  match small_int v with
  | Some i => do w <- of_res (i8_bits i); run emit LOAD_INT dest w 0; ret tt
  | None =>
      match v with
      | NONE => run emit LOAD_NULL dest 0 0; ret tt
      | BOOL t => run emit (if t then LOAD_TRUE else LOAD_FALSE) dest 0 0; ret tt
      | _ =>
          do idx <- add_const v;
          if idx <? 256 then
            do w <- of_res (u8 idx (lit "constant index"));
            run emit LOAD_CONST dest w 0; ret tt
          else run emit_wide LOAD_CONST_W dest idx; ret tt
      end
  end.

(** * Registers and scopes *)

Definition alloc_temp : M Z := fun s =>
  match alloc (regs_ s) with
  | Ret (r, ra) => Ret (r, with_regs s ra)
  | Exn e => Exn e
  | Undef => Undef
  end.
Definition free_temp (r : Z) : M unit := fun s => Ret (tt, with_regs s (free (regs_ s) r)).

Definition push_scope : M unit := fun s =>
  Ret (tt, with_scope s (locals_ s) (scope_depth_ s + 1) (boxed_slots_ s)).

(** The locals of the innermost scope go, their registers return. *)
Fixpoint pop_locals (d : Z) (ls : list LocalVar) (ra : RegisterAllocator)
    : list LocalVar * RegisterAllocator :=
  match ls with
  | l :: ls' => if lv_depth l =? d then pop_locals d ls' (free_local ra (lv_reg l)) else (ls, ra)
  | [] => ([], ra)
  end.
Definition pop_scope : M unit := fun s =>
  let (ls, ra) := pop_locals (scope_depth_ s) (locals_ s) (regs_ s) in
  Ret (tt, with_scope (with_regs s ra) ls (scope_depth_ s - 1) (boxed_slots_ s)).

(** Is the name declared in the innermost scope? *)
Fixpoint declared_here (d : Z) (n : bytes) (ls : list LocalVar) : bool :=
  match ls with
  | l :: ls' => if lv_depth l <? d then false
                else (lv_name l =s n) || declared_here d n ls'
  | [] => false
  end.

Definition declare_local (n : bytes) : M Z := fun s =>
  if declared_here (scope_depth_ s) n (locals_ s)
  then Exn ([SQUOTE] ++ n ++ lit "' already defined in this scope")
  else match alloc_local (regs_ s) with
  | Ret (slot, ra) =>
      Ret (slot, with_scope (with_regs s ra) (MkLocal n slot (scope_depth_ s) :: locals_ s)
                   (scope_depth_ s)
                   (if bool_decide (n ∈ boxed_names_ s) then {[ slot ]} ∪ boxed_slots_ s
                    else boxed_slots_ s))
  | Exn e => Exn e
  | Undef => Undef
  end.

Inductive VarLoc := LOCAL (index : Z) | CAPTURE (index : Z) | GLOBAL.

Definition find_local (n : bytes) (ls : list LocalVar) : option Z :=
  lv_reg <$> List.find (fun l => lv_name l =s n) ls.
Definition find_capture (n : bytes) (cs : list CaptureInfo) : option Z :=
  capture_index <$> List.find (fun c => ci_name c =s n) cs.

Definition is_cell_var (s : FunctionCompiler) (l : VarLoc) : bool :=
  match l with
  | LOCAL i => bool_decide (i ∈ boxed_slots_ s)
  | CAPTURE i => match captures_ s !! Z.to_nat i with Some c => is_cell c | None => false end
  | GLOBAL => false
  end.

(** A name of an enclosing function is captured on its first read. *)
Fixpoint resolve_var_in (s : FunctionCompiler) (n : bytes) (for_write : bool)
    : res (VarLoc * FunctionCompiler) :=
  match find_local n (locals_ s) with
  | Some r => Ret (LOCAL r, s)
  | None =>
  match find_capture n (captures_ s) with
  | Some i => Ret (CAPTURE i, s)
  | None =>
      match s with
      | MkFC _ _ _ _ _ _ _ caps _ _ _ _ _ _ (Some p) =>
          if for_write then Ret (GLOBAL, s)
          else match resolve_var_in p n false with
          | Ret (GLOBAL, p') => Ret (GLOBAL, with_captures s caps (Some p'))
          | Ret (pl, p') =>
              if (255 <=? length caps)%nat
              then Exn (lit "closure captures more than 255 variables")
              else
                match u8 (Z.of_nat (length caps)) (lit "capture count") with
                | Ret idx => Ret (CAPTURE idx,
                    with_captures s (caps ++ [MkCapture n idx (is_cell_var p' pl)]) (Some p'))
                | Exn e => Exn e
                | Undef => Undef
                end
          | Exn e => Exn e
          | Undef => Undef
          end
      | _ => Ret (GLOBAL, s)
      end
  end
  end.

Definition resolve_var (n : bytes) (for_write : bool) : M VarLoc :=
  fun s => resolve_var_in s n for_write.

(** A boxed local lives in element 0 of an array (its cell). *)
Definition emit_read_local (dest slot : Z) : M unit :=
  do boxed <- get boxed_slots_;
  if bool_decide (slot ∈ boxed) then
    do z <- alloc_temp;
    run emit_load_const z (INT 0);
    run emit ARRAY_GET dest slot z;
    free_temp z
  else run emit MOVE dest slot 0; ret tt.

Definition emit_write_local (slot src : Z) : M unit :=
  do boxed <- get boxed_slots_;
  if bool_decide (slot ∈ boxed) then
    do z <- alloc_temp;
    run emit_load_const z (INT 0);
    run emit ARRAY_SET slot z src;
    free_temp z
  else run emit MOVE slot src 0; ret tt.

Definition emit_read_capture (dest cap_index : Z) : M unit :=
  do s <- get (fun s => s);
  if is_cell_var s (CAPTURE cap_index) then
    do cr <- alloc_temp;
    run emit LOAD_CAPTURE cr cap_index 0;
    do z <- alloc_temp;
    run emit_load_const z (INT 0);
    run emit ARRAY_GET dest cr z;
    run free_temp z;
    free_temp cr
  else run emit LOAD_CAPTURE dest cap_index 0; ret tt.

(** * Expressions *)

(** [ensure_dest()]: the register asked for, or a temporary for 255. *)
Definition ensure_dest (dest : Z) : M Z := if dest =? 255 then alloc_temp else ret dest.

(** [if (r != src) { emit(MOVE, r, src); free_temp(src); }] *)
Definition move_into (r src : Z) : M unit :=
  if r =? src then ret tt else run emit MOVE r src 0; free_temp src.

Definition OPS (o : bytes) : option OpCode :=
  if o =s lit "+" then Some ADD else if o =s lit "-" then Some SUB
  else if o =s lit "*" then Some MUL else if o =s lit "/" then Some DIV
  else if o =s lit "%" then Some MOD else if o =s lit "**" then Some POW
  else if o =s lit "." then Some CONCAT else if o =s lit ".." then Some CONCAT
  else if o =s lit "==" then Some EQ else if o =s lit "!=" then Some NEQ
  else if o =s lit "<" then Some LT else if o =s lit ">" then Some GT
  else if o =s lit "<=" then Some LTE else if o =s lit ">=" then Some GTE
  else if o =s lit "<=>" then Some CMP3
  else if o =s lit "&" then Some BAND else if o =s lit "|" then Some BOR
  else if o =s lit "^" then Some BXOR
  else if o =s lit "<<" then Some SHL else if o =s lit ">>" then Some SHR
  else None.

Definition COMPOUND (o : bytes) : option OpCode :=
  if o =s lit "+=" then Some ADD else if o =s lit "-=" then Some SUB
  else if o =s lit "*=" then Some MUL else if o =s lit "/=" then Some DIV
  else if o =s lit "%=" then Some MOD else if o =s lit ".=" then Some CONCAT
  else if o =s lit "&=" then Some BAND else if o =s lit "|=" then Some BOR
  else if o =s lit "^=" then Some BXOR
  else None.

Definition has_sub (t s : bytes) : bool := match find_str t s with Some _ => true | None => false end.

Definition compile_variable (n : bytes) (dest : Z) : M Z :=
  do loc <- resolve_var n false;
  match loc with
  | LOCAL slot =>
      do boxed <- get boxed_slots_;
      if (dest =? 255) && negb (bool_decide (slot ∈ boxed)) then ret slot
      else do r <- ensure_dest dest; run emit_read_local r slot; ret r
  | CAPTURE i => do r <- ensure_dest dest; run emit_read_capture r i; ret r
  | GLOBAL =>
      do r <- ensure_dest dest;
      do ni <- add_const (STRING n);
      run emit_wide LOAD_GLOBAL r ni;
      do callee <- get callee_ctx_;
      match n with
      | ch :: _ =>
          if negb callee && negb (ch =c "$") && negb (has_sub (lit "::") n)
          then run emit_wide CHECK_DEFINED r ni; ret r else ret r
      | [] => ret r
      end
  end.

(** [++] and [--] on the variable [n]. *)
Definition compile_incdec (o : bytes) (n : bytes) (prefix : bool) (dest : Z) : M Z :=
  let delta_op := if o =s lit "++" then ADD else SUB in
  do one <- alloc_temp;
  run emit_load_const one (INT 1);
  do loc <- resolve_var n false;
  match loc with
  | CAPTURE _ => throw (lit "Captured variable cannot be reassigned: $" ++ n)
  | LOCAL slot =>
      do r <- ensure_dest dest;
      run emit_read_local r slot;
      do nv <- alloc_temp;
      run emit delta_op nv r one;
      run emit_write_local slot nv;
      run (if prefix then emit MOVE r nv 0 else ret 0);
      run free_temp nv;
      run free_temp one;
      ret r
  | GLOBAL =>
      do r <- ensure_dest dest;
      do ni <- add_const (STRING n);
      run emit_wide LOAD_GLOBAL r ni;
      do nv <- alloc_temp;
      run emit delta_op nv r one;
      run emit_wide STORE_GLOBAL nv ni;
      run (if prefix then emit MOVE r nv 0 else ret 0);
      run free_temp nv;
      run free_temp one;
      ret r
  end.

(** [-], [!] and [~]; the operand is compiled by [c]. *)
Definition compile_unary (o : bytes) (c : Z -> M Z) (dest : Z) : M Z :=
  do operand <- c 255;
  do r <- ensure_dest dest;
  run (if o =s lit "-" then emit UNM r operand 0
       else if o =s lit "!" then emit NOT r operand 0
       else if o =s lit "~" then emit BNOT r operand 0
       else throw (lit "Unknown unary op: " ++ o));
  run free_temp operand;
  ret r.

Definition compile_ternary (cc ct ce : Z -> M Z) (dest : Z) : M Z :=
  do cond <- cc 255;
  do jf <- emit_jump JUMP_IF_FALSE cond;
  run free_temp cond;
  do r <- ensure_dest dest;
  do then_r <- ct r;
  run move_into r then_r;
  do jend <- emit_jump JUMP 0;
  do here <- current_ip;
  run patch_jump jf here;
  do else_r <- ce r;
  run move_into r else_r;
  do here <- current_ip;
  run patch_jump jend here;
  ret r.

Definition compile_coalesce (cl cr : Z -> M Z) (dest : Z) : M Z :=
  do lhs <- cl 255;
  do r <- ensure_dest dest;
  do jnull <- emit_jump JUMP_IF_NULL lhs;
  run emit MOVE r lhs 0;
  run free_temp lhs;
  do jend <- emit_jump JUMP 0;
  do here <- current_ip;
  run patch_jump jnull here;
  do rhs <- cr r;
  run move_into r rhs;
  do here <- current_ip;
  run patch_jump jend here;
  ret r.

Definition compile_logical (o : bytes) (cl cr : Z -> M Z) (dest : Z) : M Z :=
  do r <- ensure_dest dest;
  do lhs <- cl r;
  run move_into r lhs;
  do short_circuit <- emit_jump (if o =s lit "&&" then JUMP_IF_FALSE else JUMP_IF_TRUE) r;
  do rhs <- cr r;
  run move_into r rhs;
  do here <- current_ip;
  run patch_jump short_circuit here;
  ret r.

Definition compile_binary (o : bytes) (cl cr : Z -> M Z) (dest : Z) : M Z :=
  if (o =s lit "&&") || (o =s lit "||") then compile_logical o cl cr dest
  else if o =s lit "??" then compile_coalesce cl cr dest
  else
    do l <- cl 255;
    do r2 <- cr 255;
    do r <- ensure_dest dest;
    match OPS o with
    | None => throw (lit "Unknown binary op: " ++ o)
    | Some opc =>
        run emit opc r l r2;
        run free_temp r2;
        run free_temp l;
        ret r
    end.

Definition compile_index (co ci : Z -> M Z) (dest : Z) : M Z :=
  do obj <- co 255;
  do idx <- ci 255;
  do r <- ensure_dest dest;
  run emit ARRAY_GET r obj idx;
  run free_temp idx;
  run free_temp obj;
  ret r.

Definition compile_member (co : Z -> M Z) (field : bytes) (dest : Z) : M Z :=
  do obj <- co 255;
  do r <- ensure_dest dest;
  do fi <- add_const (STRING field);
  run (if fi <=? 255 then
         do w <- of_res (u8 fi (lit "field name index"));
         run emit GET_FIELD r obj w; ret tt
       else
         do k <- alloc_temp;
         run emit_load_const k (STRING field);
         run emit ARRAY_GET r obj k;
         free_temp k);
  run free_temp obj;
  ret r.

(** [cur op= val] into a temporary. *)
Definition emit_compound (o : bytes) (cur val : Z) : M Z :=
  do tmp <- alloc_temp;
  match COMPOUND o with
  | None => throw (lit "Unknown compound op: " ++ o)
  | Some opc =>
      run emit opc tmp cur val;
      run free_temp cur;
      run free_temp val;
      ret tmp
  end.

(** [$arr[i] op= value]; [want] is the register of the expression's value, or
    -1. *)
Definition compile_element_assign (n o : bytes) (obj : option (Z -> M Z)) (ci cv : Z -> M Z)
    (want : Z) : M unit :=
  do loc <- resolve_var n false;
  do arr <- match obj with
            | Some co => co 255
            | None =>
                do arr <- alloc_temp;
                run match loc with
                    | LOCAL i => emit_read_local arr i
                    | CAPTURE i => emit_read_capture arr i
                    | GLOBAL => do ni <- add_const (STRING n); run emit_wide LOAD_GLOBAL arr ni; ret tt
                    end;
                ret arr
            end;
  do idx <- ci 255;
  do val <- cv 255;
  do val <- (if o =s lit "=" then ret val
             else match COMPOUND o with
             | None => throw (lit "Unknown compound op: " ++ o)
             | Some _ =>
                 do cur <- alloc_temp;
                 run emit ARRAY_GET cur arr idx;
                 emit_compound o cur val
             end);
  run emit ARRAY_SET arr idx val;
  run (if 0 <=? want then
         do w <- of_res (u8 want (lit "register index"));
         emit ARRAY_GET w arr idx
       else ret 0);
  run free_temp val;
  run free_temp idx;
  free_temp arr.

(** [$n op= value]. *)
Definition compile_name_assign (n o : bytes) (cv : Z -> M Z) : M unit :=
  do loc <- resolve_var n true;
  do val <- cv 255;
  do s <- get (fun s => s);
  match loc with
  | LOCAL slot =>
      if o =s lit ".=" then
        if bool_decide (slot ∈ boxed_slots_ s) then
          do cur <- alloc_temp;
          run emit_read_local cur slot;
          do res <- alloc_temp;
          run emit CONCAT res cur val;
          run emit_write_local slot res;
          run free_temp res;
          run free_temp cur;
          free_temp val
        else run emit CONCAT slot slot val; free_temp val
      else if negb (o =s lit "=") then
        do cur <- alloc_temp;
        run emit_read_local cur slot;
        do tmp <- emit_compound o cur val;
        run emit_write_local slot tmp;
        free_temp tmp
      else run emit_write_local slot val; free_temp val
  | CAPTURE _ => throw (lit "Captured variable cannot be reassigned: $" ++ n)
  | GLOBAL =>
      let to_local := match parent_ s with
        | Some _ => true
        | None => (0 <? loop_depth_ s) && negb (bool_decide (n ∈ outer_globals_ s)) &&
                  (no_discovery_ s || bool_decide (n ∈ boxed_names_ s))
        end in
      if to_local then
        do result <- (if o =s lit "=" then ret val
                      else do ni <- add_const (STRING n);
                           do cur <- alloc_temp;
                           run emit_wide LOAD_GLOBAL cur ni;
                           emit_compound o cur val);
        do slot <- declare_local n;
        do boxed <- get boxed_slots_;
        run (if bool_decide (slot ∈ boxed) then
               run emit NEW_ARRAY slot 1 0; emit ARRAY_PUSH slot result 0
             else emit MOVE slot result 0);
        free_temp result
      else
        run (fun s => Ret (tt, if loop_depth_ s =? 0
                               then with_outer s ({[ n ]} ∪ outer_globals_ s) else s));
        do ni <- add_const (STRING n);
        do val <- (if o =s lit "=" then ret val
                   else do cur <- alloc_temp;
                        run emit_wide LOAD_GLOBAL cur ni;
                        emit_compound o cur val);
        run emit_wide STORE_GLOBAL val ni;
        free_temp val
  end.

(** The value of a name after its assignment, used as an expression. *)
Definition read_back (n : bytes) (dest : Z) : M Z :=
  do loc <- resolve_var n false;
  do r <- ensure_dest dest;
  match loc with
  | LOCAL slot => run emit_read_local r slot; ret r
  | _ => do ni <- add_const (STRING n); run emit_wide LOAD_GLOBAL r ni; ret r
  end.

(** Every key of the literal is a string literal, no two the same. *)
Fixpoint distinct_keys (seen : list bytes) (ks : list Expression) : bool :=
  match ks with
  | [] => true
  | StringLiteral v _ :: r => negb (existsb (bytes_eqb v) seen) && distinct_keys (v :: seen) r
  | _ :: _ => false
  end.

Fixpoint compile_expr (e : Expression) (dest : Z) {struct e} : M Z :=
  match e with
  | NumberLiteral v => do r <- ensure_dest dest; run emit_load_const r (INT v); ret r
  | FloatLiteral d => do r <- ensure_dest dest; run emit_load_const r (FLOAT d); ret r
  | BooleanLiteral t => do r <- ensure_dest dest; run emit_load_const r (BOOL t); ret r
  | NullLiteral => do r <- ensure_dest dest; run emit LOAD_NULL r 0 0; ret r
  | StringLiteral v raw =>
      do r <- ensure_dest dest;
      if negb raw && has_sub (lit "{$") v then unmodelled
      else run emit_load_const r (STRING v); ret r
  | Variable_ n => compile_variable n dest
  | AssignmentExpression n o obj (Some ix) v =>
      do r <- ensure_dest dest;
      run compile_element_assign n o (compile_expr <$> obj) (compile_expr ix) (compile_expr v) r;
      ret r
  | AssignmentExpression n o _ None v =>
      run compile_name_assign n o (compile_expr v);
      read_back n dest
  | BinaryExpression l o r => compile_binary o (compile_expr l) (compile_expr r) dest
  | UnaryExpression o x prefix =>
      if (o =s lit "++") || (o =s lit "--") then
        match x with
        | Variable_ n => compile_incdec o n prefix dest
        | _ => throw (lit "++/-- requires a variable")
        end
      else compile_unary o (compile_expr x) dest
  | TernaryExpression cnd t f =>
      compile_ternary (compile_expr cnd) (compile_expr t) (compile_expr f) dest
  | ArrayLiteral els =>
      do r <- ensure_dest dest;
      run emit NEW_ARRAY r (hint_u8 (Z.of_nat (length els))) 0;
      (fix elements l := match l with
       | [] => ret r
       | x :: l' =>
           do er <- compile_expr x 255;
           run emit ARRAY_PUSH r er 0;
           run free_temp er;
           elements l'
       end) els
  | AssocArrayLiteral ps =>
      do r <- ensure_dest dest;
      let need := 1 + 2 * Z.of_nat (length ps) in
      run emit NEW_ASSOC r (if 255 <? need then 0 else need) 0;
      let set_op := if distinct_keys [] (map fst ps) then ASSOC_APPEND else ARRAY_SET in
      (fix pairs l := match l with
       | [] => ret r
       | (k, v) :: l' =>
           do kr <- compile_expr k 255;
           do vr <- compile_expr v 255;
           run emit set_op r kr vr;
           run free_temp vr;
           run free_temp kr;
           pairs l'
       end) ps
  | IndexExpression o i => compile_index (compile_expr o) (compile_expr i) dest
  | MemberAccessExpression o field => compile_member (compile_expr o) field dest
  | ScopeResolution m n =>
      do r <- ensure_dest dest;
      do ni <- add_const (STRING (m ++ lit "::" ++ n));
      run emit_wide LOAD_GLOBAL r ni;
      ret r
  | IotaExpression | CallExpression _ _ | FunctionExpression _ _ _ _ _ | StructLiteralExpression _ _ => unmodelled
  end.

(** [compile_return()] outside [try] statements (no [finally] is pending). *)
Definition compile_return (e : option Expression) : M unit :=
  match e with
  | None => run emit RETURN_NULL 0 0 0; ret tt
  | Some x =>
      do r <- compile_expr x 255;
      run emit RETURN r 0 0;
      free_temp r
  end.

(** * Functions *)

(** The constructor: the parameters take the first registers. *)
Definition new_compiler (fname : bytes) (ps : list bytes) (parent : option FunctionCompiler)
    : res FunctionCompiler :=
  if 255 <? Z.of_nat (length ps)
  then Exn (lit "function '" ++ fname ++ lit "' has more than 255 parameters")
  else Ret (MkFC [] [] []
    (new_allocator (Z.of_nat (length ps)) (match fname with [] => lit "<main>" | _ => fname end))
    (rev (imap (fun i p => MkLocal p (Z.of_nat i) 0) ps)) 0 0 [] ∅ ∅ ∅ false false 0 parent).

(** [compile_stmts()] of the statements that [body] compiles, after the
    discovery pass, which only fills [boxed_names_]. *)
Definition compile_stmts (fname : bytes) (body : M unit) : M FunctionProto :=
  run push_scope;
  run body;
  run pop_scope;
  run emit RETURN_NULL 0 0 0;
  fun s => Ret (MkProto fname 0 false (max (regs_ s)) (constants_ s) (code_ s) [] (lines_ s) []
                  (map is_cell (captures_ s)), s).

(** [Compiler::compile] of the program [return e;]. *)
Definition compile_return_program (e : Expression) : res FunctionProto :=
  match new_compiler (lit "<main>") [] None with
  | Ret s =>
      match compile_stmts (lit "<main>") (compile_return (Some e)) s with
      | Ret (p, _) => Ret p
      | Exn m => Exn m
      | Undef => Undef
      end
  | Exn m => Exn m
  | Undef => Undef
  end.

End Compiler.
