(* ===== verification/Interp.v ===== *)
(** The tree-walking interpreter of cpp/include/look/interpreter.h and
    cpp/src/interpreter.cpp: the environments and [evaluate_expression].

    Calls, closures, struct literals, module names, [iota] and interpolated
    strings give [EExternal]: they are not translated here. *)

From S2P Require Import Prelude CNum Value Bytecode Ast.
#[local] Open Scope Z_scope.

Module Interp.
Import CNum Value Ast.

(** * Environments

    The chain from [current_] to [globals_]. *)

Record Scope := MkScope { values_ : gmap bytes Value; fn_boundary_ : bool }.
Definition Env := list Scope.

Fixpoint env_get (en : Env) (n : bytes) : option Value :=
  match en with
  | [] => None
  | s :: parent => match values_ s !! n with Some v => Some v | None => env_get parent n end
  end.

(** A write stops at the boundary of a function; [None] is the exception. *)
Fixpoint env_set (en : Env) (n : bytes) (v : Value) : option Env :=
  match en with
  | [] => None
  | s :: parent =>
      match values_ s !! n with
      | Some _ => Some (MkScope (<[n := v]> (values_ s)) (fn_boundary_ s) :: parent)
      | None =>
          match parent with
          | [] => None
          | _ => if fn_boundary_ s then None
                 else match env_set parent n v with Some p => Some (s :: p) | None => None end
          end
      end
  end.

Definition env_define (en : Env) (n : bytes) (v : Value) : Env :=
  match en with
  | s :: parent => MkScope (<[n := v]> (values_ s)) (fn_boundary_ s) :: parent
  | [] => []
  end.

(** [try { set } catch (...) { define }] *)
Definition env_assign (en : Env) (n : bytes) (v : Value) : Env :=
  match env_set en n v with Some en' => en' | None => env_define en n v end.

(** * Evaluation *)

Record St := MkSt { env : Env; heap_ : heap }.

(** An exception leaves the effects made before it. *)
Inductive ev (A : Type) : Type :=
| EOk (x : A) (st : St)
| EErr (msg : bytes) (st : St)
| EUndef
| EExternal.
Arguments EOk {A}. Arguments EErr {A}. Arguments EUndef {A}. Arguments EExternal {A}.

Definition E (A : Type) : Type := St -> ev A.
Definition eret {A} (x : A) : E A := fun st => EOk x st.
Definition ebind {A B} (m : E A) (k : A -> E B) : E B := fun st =>
  match m st with
  | EOk x st' => k x st'
  | EErr e st' => EErr e st'
  | EUndef => EUndef
  | EExternal => EExternal
  end.
Definition ethrow {A} (m : bytes) : E A := fun st => EErr m st.
Definition eres {A} (r : res A) : E A := fun st =>
  match r with Ret x => EOk x st | Exn m => EErr m st | Undef => EUndef end.
Definition eheap : E heap := fun st => EOk (heap_ st) st.
Definition eexternal {A} : E A := fun _ => EExternal.

Notation "'let*' x := m 'in' k" := (ebind m (fun x => k))
  (at level 200, x pattern, m at level 100, k at level 200, right associativity) : look_scope.

Definition eget (n : bytes) : E Value := fun st =>
  match env_get (env st) n with
  | Some v => EOk v st
  | None => EErr (lit "Undefined variable: " ++ n) st
  end.
Definition eassign (n : bytes) (v : Value) : E unit := fun st =>
  EOk tt (MkSt (env_assign (env st) n v) (heap_ st)).
Definition ealloc (vec : list Value) : E Value := fun st =>
  let l := fresh (dom (heap_ st)) in EOk (ARRAY l) (MkSt (env st) (<[l := vec]> (heap_ st))).
Definition ewrite (l : loc) (vec : list Value) : E unit := fun st =>
  EOk tt (MkSt (env st) (<[l := vec]> (heap_ st))).

Definition ASSOC : bytes := lit "__assoc__".
Definition is_assoc (vec : list Value) : bool :=
  match vec with STRING s :: _ => s =s ASSOC | _ => false end.
Definition is_string (v : Value) : bool := type_eqb (type v) T_STRING.

(** Does the text contain an interpolation: a brace before a dollar, a letter
    or an underscore? Then [interpolate_string] is more than its argument. *)
Fixpoint has_interp (s : bytes) : bool :=
  match s with
  | c1 :: r =>
      match r with
      | d :: _ => ((c1 =c "{") && ((d =c "$") || isalpha d || (d =c "_"))) || has_interp r
      | [] => false
      end
  | [] => false
  end.

Section Eval.
Context (L : Lib) (depth : nat).

(** The value behind the key in the pairs of an associative array: its index. *)
Fixpoint find_key (h : heap) (k : bytes) (l : list Value) (i : nat) : res (option nat) :=
  match l with
  | k0 :: _ :: r =>
      to_string L depth h k0 ≫= fun t : bytes =>
      if t =s k then Ret (Some (S i)) else find_key h k r (S (S i))
  | _ => Ret None
  end.

Definition err_index (i : Z) : bytes := lit "Array index " ++ int_to_string i ++ lit " out of bounds".

Definition index_value (obj idx : Value) : E Value :=
  match obj with
  | ARRAY l =>
      let* h := eheap in
      let arr := elems h l in
      if is_assoc arr && is_string idx then
        let* o := eres (find_key h (str_ref idx) (drop 1 arr) 1) in
        eret (match o with Some i => default NONE (arr !! i) | None => NONE end)
      else if is_string idx && negb (look_is_int_key (str_ref idx)) then eret NONE
      else
        let* k := eres (to_int idx) in
        let n := Z.of_nat (length arr) in
        let i := if k <? 0 then n + k else k in
        if (i <? 0) || (n <=? i) then ethrow (err_index i)
        else eret (default NONE (arr !! Z.to_nat i))
  | _ => ethrow (lit "Index operator requires an array")
  end.

Definition member_value (obj : Value) (field : bytes) : E Value :=
  match obj with
  | ARRAY l =>
      let* h := eheap in
      let arr := elems h l in
      if is_assoc arr then
        let* o := eres (find_key h field (drop 1 arr) 1) in
        eret (match o with Some i => default NONE (arr !! i) | None => NONE end)
      else ethrow (lit "Cannot access field '" ++ field ++ lit "' on a non-struct value")
  | _ => ethrow (lit "Member access '." ++ field ++ lit "' requires a struct or assoc array")
  end.

(** [cur op= val] of an element: an unknown operator gives [val]. *)
Definition apply_op (o : bytes) (val : Value) (h : heap) (cur : Value) : res Value :=
  if o =s lit "=" then Ret val
  else if o =s lit "+=" then op_add cur val
  else if o =s lit "-=" then op_sub cur val
  else if o =s lit "*=" then op_mul cur val
  else if o =s lit "/=" then op_div cur val
  else if o =s lit "%=" then op_mod cur val
  else if o =s lit ".=" then op_concat L depth h cur val
  else if o =s lit "&=" then bitwise_and cur val
  else if o =s lit "|=" then bitwise_or cur val
  else if o =s lit "^=" then bitwise_xor cur val
  else Ret val.

(** A list with a textual key becomes associative, keyed by its indices. *)
Definition to_assoc (vec : list Value) : list Value :=
  STRING ASSOC :: concat (imap (fun n v => [STRING (int_to_string (Z.of_nat n)); v]) vec).

Definition element_assign (l : loc) (idx : Value) (o : bytes) (val : Value) : E Value :=
  let* h := eheap in
  let arr := elems h l in
  let conv := is_string idx && negb (look_is_int_key (str_ref idx)) && negb (is_assoc arr) in
  let arr := if conv then to_assoc arr else arr in
  let* _ := (if conv then ewrite l arr else eret tt) in
  let* h := eheap in
  if is_assoc arr && is_string idx then
    let* f := eres (find_key h (str_ref idx) (drop 1 arr) 1) in
    match f with
    | Some i =>
        let* nv := eres (apply_op o val h (default NONE (arr !! i))) in
        let* _ := ewrite l (<[i := nv]> arr) in
        eret nv
    | None =>
        let* nv := eres (apply_op o val h NONE) in
        let* _ := ewrite l (arr ++ [STRING (str_ref idx); nv]) in
        eret nv
    end
  else
    let* k := eres (to_int idx) in
    let n := Z.of_nat (length arr) in
    let i := if k <? 0 then n + k else k in
    if i =? n then
      let* nv := eres (apply_op o val h NONE) in
      let* _ := ewrite l (arr ++ [nv]) in
      eret nv
    else if (0 <=? i) && (i <? n) then
      let* nv := eres (apply_op o val h (default NONE (arr !! Z.to_nat i))) in
      let* _ := ewrite l (<[Z.to_nat i := nv]> arr) in
      eret nv
    else ethrow (lit "Array index out of bounds").

(** The binary operators on values. *)
Definition binary_value (h : heap) (o : bytes) (l r : Value) : res Value :=
  let boolv (t : res bool) : res Value := t ≫= fun b : bool => Ret (BOOL b) in
  if o =s lit "+" then op_add l r
  else if o =s lit "-" then op_sub l r
  else if o =s lit "*" then op_mul l r
  else if o =s lit "/" then op_div l r
  else if o =s lit "%" then op_mod l r
  else if o =s lit "**" then op_pow L l r
  else if o =s lit "." then op_concat L depth h l r
  else if o =s lit "==" then Ret (BOOL (op_eq l r))
  else if o =s lit "!=" then Ret (BOOL (negb (op_eq l r)))
  else if o =s lit "<" then boolv (op_lt l r)
  else if o =s lit "<=" then boolv (op_le l r)
  else if o =s lit ">" then boolv (op_gt l r)
  else if o =s lit ">=" then boolv (op_ge l r)
  else if o =s lit "<=>" then spaceship l r ≫= fun z : Z => Ret (INT z)
  else if o =s lit "&" then bitwise_and l r
  else if o =s lit "|" then bitwise_or l r
  else if o =s lit "^" then bitwise_xor l r
  else if o =s lit "<<" then shift_left l r
  else if o =s lit ">>" then shift_right l r
  else Exn (lit "Unknown binary op: " ++ o).

Definition unary_value (h : heap) (o : bytes) (v : Value) : res Value :=
  if o =s lit "-" then op_neg v
  else if o =s lit "!" then Ret (BOOL (negb (is_truthy h v)))
  else if o =s lit "~" then bitwise_not v
  else Exn (lit "Unknown unary op: " ++ o).

(** [cur op= val] of a variable: an unknown operator assigns [val]. *)
Definition compound_value := apply_op.

Fixpoint evaluate_expression (e : Expression) {struct e} : E Value :=
  match e with
  | MemberAccessExpression o field =>
      let* obj := evaluate_expression o in member_value obj field
  | TernaryExpression cnd t f =>
      let* v := evaluate_expression cnd in
      let* h := eheap in
      if is_truthy h v then evaluate_expression t else evaluate_expression f
  | NumberLiteral v => eret (INT v)
  | FloatLiteral d => eret (FLOAT d)
  | BooleanLiteral t => eret (BOOL t)
  | NullLiteral => eret NONE
  | StringLiteral v raw => if raw || negb (has_interp v) then eret (STRING v) else eexternal
  | ArrayLiteral els =>
      let* vs := (fix elements l : E (list Value) := match l with
        | [] => eret []
        | x :: l' => let* v := evaluate_expression x in let* r := elements l' in eret (v :: r)
        end) els in
      ealloc vs
  | AssocArrayLiteral ps =>
      let* vs := (fix pairs l : E (list Value) := match l with
        | [] => eret []
        | (k, v) :: l' =>
            let* kv := evaluate_expression k in
            let* vv := evaluate_expression v in
            let* r := pairs l' in eret (kv :: vv :: r)
        end) ps in
      ealloc (STRING ASSOC :: vs)
  | Variable_ n => eget n
  | IndexExpression o i =>
      let* obj := evaluate_expression o in
      let* idx := evaluate_expression i in
      index_value obj idx
  | AssignmentExpression n o obj (Some ix) v =>
      let* val := evaluate_expression v in
      let* target := match obj with Some ob => evaluate_expression ob | None => eget n end in
      match target with
      | STRING _ => ethrow (lit "Strings are immutable; cannot assign to a string index")
      | ARRAY l =>
          let* idx := evaluate_expression ix in
          element_assign l idx o val
      | _ => ethrow ((match obj with Some _ => lit "assignment target" | None => n end)
                     ++ lit " is not an array")
      end
  | AssignmentExpression n o _ None v =>
      let* val := evaluate_expression v in
      let* val := (if o =s lit "=" then eret val
                   else let* cur := eget n in
                        let* h := eheap in
                        eres (compound_value o val h cur)) in
      let* _ := eassign n val in
      eret val
  | UnaryExpression o x prefix =>
      if (o =s lit "++") || (o =s lit "--") then
        match x with
        | Variable_ n =>
            let* cur := eget n in
            let* next := eres (if o =s lit "++" then op_add cur (INT 1) else op_sub cur (INT 1)) in
            let* _ := eassign n next in
            eret (if prefix then next else cur)
        | _ => ethrow (lit "++/-- requires a variable")
        end
      else
        let* v := evaluate_expression x in
        let* h := eheap in
        eres (unary_value h o v)
  | BinaryExpression l o r =>
      if o =s lit "&&" then
        let* v := evaluate_expression l in
        let* h := eheap in
        if is_truthy h v then
          let* w := evaluate_expression r in let* h := eheap in eret (BOOL (is_truthy h w))
        else eret (BOOL false)
      else if o =s lit "||" then
        let* v := evaluate_expression l in
        let* h := eheap in
        if is_truthy h v then eret (BOOL true)
        else let* w := evaluate_expression r in let* h := eheap in eret (BOOL (is_truthy h w))
      else if o =s lit "??" then
        let* v := evaluate_expression l in
        match v with NONE => evaluate_expression r | _ => eret v end
      else
        let* v := evaluate_expression l in
        let* w := evaluate_expression r in
        let* h := eheap in
        eres (binary_value h o v w)
  | CallExpression _ _ | FunctionExpression _ _ _ _ _ | StructLiteralExpression _ _
  | ScopeResolution _ _ | IotaExpression => eexternal
  end.
End Eval.

End Interp.
