(* ===== verification/Engine.v ===== *)
(** The two engines agree: the bytecode [Compiler.compile_expr] emits, run by
    [Vm.step], computes what [Interp.evaluate_expression] computes, value or
    exception, for expressions without assignments, calls and array accesses.

    [&&] and [||] leave an operand in the VM and a boolean in the interpreter,
    so they are covered where only their truth is used (conditions, operands of
    [!]); the other forms on which the engines differ are left out of [frag]. *)

From S2P Require Import Prelude CNum Value Bytecode Ast Compiler Interp Vm.
#[local] Open Scope Z_scope.

Module Engine.
Import CNum Value Bytecode Ast Compiler Interp Vm.

(** * The expressions covered

    [b] says that only the truth of the value is used. *)
Fixpoint frag (b : bool) (e : Expression) : bool :=
  match e with
  | NumberLiteral v => in_int64 v
  | FloatLiteral _ | BooleanLiteral _ | NullLiteral => true
  | StringLiteral v raw => raw || negb (has_interp v)
  | Variable_ n => match n with [] => false | _ => dollar n || negb (has_sub (lit "::") n) end
  | UnaryExpression o x _ =>
      if o =s lit "!" then frag true x
      else ((o =s lit "-") || (o =s lit "~")) && frag false x
  | TernaryExpression c t f => frag true c && frag b t && frag b f
  | BinaryExpression l o r =>
      if (o =s lit "&&") || (o =s lit "||") then b && frag true l && frag true r
      else if o =s lit "??" then frag false l && frag b r
      else negb (o =s lit "..") && match OPS o with Some _ => true | None => false end
           && frag false l && frag false r
  | _ => false
  end.

(** The names an expression reads, and the constants it puts in the pool. *)
Fixpoint vars (e : Expression) : list bytes :=
  match e with
  | Variable_ n => [n]
  | UnaryExpression _ x _ => vars x
  | TernaryExpression c t f => vars c ++ vars t ++ vars f
  | BinaryExpression l _ r => vars l ++ vars r
  | _ => []
  end.
Fixpoint pool (e : Expression) : list Value :=
  match e with
  | NumberLiteral v => [INT v]
  | FloatLiteral d => [FLOAT d]
  | StringLiteral v _ => [STRING v]
  | Variable_ n => [STRING n]
  | UnaryExpression _ x _ => pool x
  | TernaryExpression c t f => pool c ++ pool t ++ pool f
  | BinaryExpression l _ r => pool l ++ pool r
  | _ => []
  end.

(** No two different constants are [==]: the pool keeps one of them only (an
    integer and the double of the same value would be confused). *)
Definition no_clash (U : list Value) : Prop :=
  forall v w, v ∈ U -> w ∈ U -> op_eq v w = true -> v = w.

(** * The value of an expression without effects *)

Section Denotation.
Context (L : Lib) (depth : nat) (en : Env) (h : heap).

Fixpoint den (e : Expression) : res Value :=
  match e with
  | NumberLiteral v => Ret (INT v)
  | FloatLiteral d => Ret (FLOAT d)
  | BooleanLiteral t => Ret (BOOL t)
  | NullLiteral => Ret NONE
  | StringLiteral v _ => Ret (STRING v)
  | Variable_ n =>
      match env_get en n with Some v => Ret v | None => Exn (lit "Undefined variable: " ++ n) end
  | UnaryExpression o x _ => den x ≫= unary_value h o
  | TernaryExpression c t f => den c ≫= fun v : Value => if is_truthy h v then den t else den f
  | BinaryExpression l o r =>
      if o =s lit "&&" then
        den l ≫= fun v : Value =>
        if is_truthy h v then den r ≫= fun w : Value => Ret (BOOL (is_truthy h w))
        else Ret (BOOL false)
      else if o =s lit "||" then
        den l ≫= fun v : Value =>
        if is_truthy h v then Ret (BOOL true)
        else den r ≫= fun w : Value => Ret (BOOL (is_truthy h w))
      else if o =s lit "??" then
        den l ≫= fun v : Value => match v with NONE => den r | _ => Ret v end
      else den l ≫= fun v : Value => den r ≫= fun w : Value => binary_value L depth h o v w
  | _ => Undef
  end.
End Denotation.

Definition of_den {A} (r : res A) (st : St) : ev A :=
  match r with Ret v => EOk v st | Exn m => EErr m st | Undef => EUndef end.

Lemma binary_frags b l o r :
  frag b (BinaryExpression l o r) = true ->
  exists b1 b2, frag b1 l = true /\ frag b2 r = true.
Proof.
  cbn [frag]. destruct ((o =s lit "&&") || (o =s lit "||"));
    [|destruct (o =s lit "??")]; intros H; bool_to_prop; eauto.
Qed.

Lemma not_incdec o : o =s lit "!" = true \/ (o =s lit "-") || (o =s lit "~") = true ->
  (o =s lit "++") || (o =s lit "--") = false.
Proof.
  intros [H|H]; [|apply orb_true_iff in H as [H|H]]; apply bytes_eqb_eq in H as ->; reflexivity.
Qed.

(** The interpreter on such an expression has no effect. *)
Lemma evaluate_den L depth e b st :
  frag b e = true ->
  evaluate_expression L depth e st = of_den (den L depth (env st) (heap_ st) e) st.
Proof.
  revert b.
  induction e as [v raw|v|d|t| |els|ps|ps dfs cps va body|n|o IHo i IHi|o x IHx pre|l IHl o r IHr
    |n o ob ix v IHv|c IHc args|c IHc t IHt f IHf|m n| |o IHo fld|n fs];
    intros b0 H; cbn [frag] in H; try discriminate; try reflexivity.
  - cbn. by rewrite H.
  - cbn. unfold eget. by destruct (env_get (env st) n).
  - assert (Ho : (o =s lit "!") = true \/ ((o =s lit "-") || (o =s lit "~")) = true).
    { destruct (o =s lit "!"); [by left|]. apply andb_true_iff in H as [-> _]. by right. }
    assert (Hx : exists b1, frag b1 x = true).
    { destruct (o =s lit "!"); [by eexists|]. apply andb_true_iff in H as [_ H]. by eexists. }
    destruct Hx as [b1 Hx]. cbn [evaluate_expression den]. rewrite (not_incdec o Ho).
    unfold ebind. rewrite (IHx b1 Hx).
    destruct (den L depth (env st) (heap_ st) x) as [v| |]; cbn [of_den mbind res_bind]; [|done|done].
    unfold eheap, eres, of_den. by destruct (unary_value (heap_ st) o v).
  - destruct (binary_frags b0 l o r H) as (b1 & b2 & Hl & Hr).
    cbn [evaluate_expression den]. unfold ebind, eheap.
    repeat case_if; rewrite (IHl b1 Hl);
      destruct (den L depth (env st) (heap_ st) l) as [v| |]; cbn [of_den mbind res_bind]; try done.
    + destruct (is_truthy (heap_ st) v); [|done]. rewrite (IHr b2 Hr).
      by destruct (den L depth (env st) (heap_ st) r).
    + destruct (is_truthy (heap_ st) v); [done|]. rewrite (IHr b2 Hr).
      by destruct (den L depth (env st) (heap_ st) r).
    + destruct v; try done. by rewrite (IHr b2 Hr).
    + rewrite (IHr b2 Hr). destruct (den L depth (env st) (heap_ st) r) as [w| |];
        cbn [of_den mbind res_bind]; done.
  - bool_to_prop. cbn [evaluate_expression den]. unfold ebind, eheap. rewrite (IHc true) by done.
    destruct (den L depth (env st) (heap_ st) c) as [v| |]; cbn [of_den mbind res_bind]; try done.
    destruct (is_truthy (heap_ st) v); eauto.
Qed.

(** * What a compiler method does to the state *)

Lemma bind_Ret {A B} (m : M A) (k : A -> M B) s y s'' :
  Compiler.bind m k s = Ret (y, s'') <-> exists x s', m s = Ret (x, s') /\ k x s' = Ret (y, s'').
Proof.
  unfold Compiler.bind. destruct (m s) as [[x s']| |]; split; try done.
  - intros H. by exists x, s'.
  - by intros (? & ? & [= -> ->] & H).
  - by intros (? & ? & ? & _).
  - by intros (? & ? & ? & _).
Qed.

(** Everything but the code, the pool and the allocator is as before. *)
Definition others (s s' : FunctionCompiler) : Prop :=
  locals_ s' = locals_ s /\ captures_ s' = captures_ s /\ boxed_slots_ s' = boxed_slots_ s /\
  parent_ s' = parent_ s /\ callee_ctx_ s' = callee_ctx_ s.

(** The allocator after some allocations and frees of temporaries. *)
Definition ra_ext (ra ra' : RegisterAllocator) : Prop :=
  regs_ok ra' /\ locals_end ra' = locals_end ra /\ pinned ra' = pinned ra /\
  seq_ ra' = seq_ ra /\ max ra <= max ra'.

(** A register [free] never returns: a parameter or a pinned local. *)
Definition protected (ra : RegisterAllocator) (r : Z) : Prop := r < locals_end ra \/ r ∈ pinned ra.

Lemma others_refl s : others s s. Proof. by repeat split. Qed.
Lemma others_trans s1 s2 s3 : others s1 s2 -> others s2 s3 -> others s1 s3.
Proof. unfold others. intros. destr_all. repeat split; congruence. Qed.
Lemma ra_ext_refl ra : regs_ok ra -> ra_ext ra ra.
Proof. intros H. split; [done|]. repeat split; lia. Qed.
Lemma ra_ext_trans r1 r2 r3 : ra_ext r1 r2 -> ra_ext r2 r3 -> ra_ext r1 r3.
Proof. unfold ra_ext. intros. destr_all. split; [done|]. repeat split; try congruence. lia. Qed.
Lemma ra_ext_ok ra ra' : ra_ext ra ra' -> regs_ok ra'. Proof. by intros []. Qed.
Lemma ra_ext_max ra ra' : ra_ext ra ra' -> max ra <= max ra'. Proof. unfold ra_ext. tauto. Qed.
Lemma ra_ext_protected ra ra' r : ra_ext ra ra' -> protected ra' r <-> protected ra r.
Proof. intros (_ & H1 & H2 & _). unfold protected. by rewrite H1, H2. Qed.
#[local] Hint Resolve others_refl others_trans ra_ext_refl ra_ext_trans ra_ext_ok : engine.

(** Where the value of an expression is: the register asked for, a local's own
    register, or a fresh temporary. *)
Inductive result (ra ra' : RegisterAllocator) : Z -> Z -> Prop :=
| result_dest d : d <> 255 -> (forall q, live ra' q <-> live ra q) -> result ra ra' d d
| result_local r : protected ra r -> live ra r -> (forall q, live ra' q <-> live ra q) ->
    result ra ra' 255 r
| result_temp r : ~ live ra r -> ~ protected ra r -> r ∉ seq_ ra -> live ra' r -> 0 <= r < 255 ->
    (forall q, q <> r -> live ra' q <-> live ra q) -> result ra ra' 255 r.

Lemma result_255 ra ra' r :
  result ra ra' 255 r ->
  (protected ra r /\ live ra r /\ forall q, live ra' q <-> live ra q) \/
  (~ live ra r /\ ~ protected ra r /\ r ∉ seq_ ra /\ live ra' r /\ 0 <= r < 255 /\
   forall q, q <> r -> live ra' q <-> live ra q).
Proof. intros H. inversion H; subst; [done|by left|right]. by do 5 (split; [done|]). Qed.

Lemma result_given ra ra' d r :
  d <> 255 -> result ra ra' d r -> r = d /\ forall q, live ra' q <-> live ra q.
Proof. intros Hd H. inversion H; by subst. Qed.

(** A register given as destination is a temporary in use. *)
Definition target_ok (ra : RegisterAllocator) (d : Z) : Prop :=
  d = 255 \/ (live ra d /\ ~ protected ra d /\ 0 <= d < 255).

Lemma live_below ra r : regs_ok ra -> live ra r -> 0 <= r < 255 /\ r < next ra /\ r < max ra.
Proof. intros Hok [H _]. destruct (ok_bounds _ Hok). lia. Qed.

Lemma live_not_255 ra q : regs_ok ra -> live ra q -> q <> 255.
Proof. intros Hok H%live_below; [lia|done]. Qed.

Lemma result_live ra ra' d r : regs_ok ra -> target_ok ra d -> result ra ra' d r -> live ra' r.
Proof.
  intros Hok Hd Hr. destruct Hr as [d Hn Hq|r _ Hl Hq|]; [|by apply Hq|done].
  destruct Hd as [->|(Hl & _)]; [done|]. by apply Hq.
Qed.

(** Nothing in use is lost. *)
Lemma result_mono ra ra' d r q : result ra ra' d r -> live ra q -> live ra' q.
Proof.
  intros Hr Hl. destruct Hr as [d _ Hq|r _ _ Hq|r Hn _ _ _ _ Hq]; [by apply Hq..|].
  apply Hq; [|done]. by intros ->.
Qed.

(** Giving back the register of a subexpression restores what was in use. *)
Lemma free_result ra1 ra2 ra3 r :
  result ra1 ra2 255 r -> ra_ext ra1 ra2 -> ra_ext ra2 ra3 -> live ra3 r ->
  ra_ext ra3 (free ra3 r) /\
  (forall q, live (free ra3 r) q <-> live ra3 q /\ (q = r -> live ra1 r)).
Proof.
  intros Hr H12 H23 Hl.
  destruct (free_spec ra3 r) as (H1 & (H2 & _) & _ & H3 & H4 & H5 & H6);
    [by eapply ra_ext_ok|by apply Hl|].
  split; [split; [done|split; [done|split; [done|split; [done|lia]]]]|].
  pose proof (ra_ext_trans _ _ _ H12 H23) as H13.
  intros q. rewrite H6. split; intros [Hq Hn]; (split; [done|]).
  - intros ->. destruct (result_255 _ _ _ Hr) as [(_ & ? & _)|(_ & Hp & Hs & _)]; [done|].
    exfalso. apply Hn. split; [done|]. rewrite <- (ra_ext_protected _ _ r H13) in Hp.
    destruct H13 as (_ & _ & _ & H13 & _). rewrite H13. unfold protected in Hp.
    destruct (Z_lt_le_dec r (locals_end ra3)); tauto.
  - intros (-> & Hle & Hp & _). specialize (Hn eq_refl).
    destruct (result_255 _ _ _ Hr) as [(Hpr & _)|(? & _)]; [|done].
    rewrite <- (ra_ext_protected _ _ r H13) in Hpr. destruct Hpr; [lia|done].
Qed.

Lemma alloc_ext ra r ra' :
  regs_ok ra -> alloc ra = Ret (r, ra') -> ra_ext ra ra' /\ result ra ra' 255 r.
Proof.
  intros Hok Ha.
  destruct (alloc_spec ra r ra' Hok Ha)
    as (H0 & (H1 & H2 & H3) & H4 & H5 & H6 & H7 & H8 & H9 & H10 & H11 & H12).
  pose proof (ok_bounds _ Hok).
  split; [split; [done|split; [done|split; [done|split; [done|lia]]]]|].
  apply result_temp; try done; [|lia]. unfold protected. intros [?|?]; [lia|done].
Qed.

(** ** The small methods *)

Lemma emit_Ret o x y z s n s' :
  emit o x y z s = Ret (n, s') ->
  n = Z.of_nat (length (code_ s)) /\ code_ s' = code_ s ++ [mkI o x y z] /\
  constants_ s' = constants_ s /\ regs_ s' = regs_ s /\ others s s'.
Proof. unfold emit. intros [= <- <-]. by repeat split. Qed.

Lemma emit_wide_Ret o x idx s n s' :
  0 <= idx <= 65535 -> emit_wide o x idx s = Ret (n, s') ->
  code_ s' = code_ s ++ [mkI o x (idx / 256) (idx mod 256)] /\
  constants_ s' = constants_ s /\ regs_ s' = regs_ s /\ others s s'.
Proof.
  intros Hi. unfold emit_wide. destruct (hi_lo idx Hi) as (-> & -> & _). cbn.
  intros [= <- <-]. by repeat split.
Qed.

Lemma bx_wide o x idx : 0 <= idx <= 65535 -> bx (mkI o x (idx / 256) (idx mod 256)) = idx.
Proof. intros Hi. unfold bx. cbn. apply hi_lo; done. Qed.

Lemma patch_jump_Ret off target s s' i :
  0 <= target -> code_ s !! off = Some i ->
  patch_jump (Z.of_nat off) target s = Ret (tt, s') ->
  target <= 65535 /\
  code_ s' = <[off := mkI (op i) (a i) (target / 256) (target mod 256)]> (code_ s) /\
  constants_ s' = constants_ s /\ regs_ s' = regs_ s /\ others s s'.
Proof.
  intros H0 Hi. unfold patch_jump. destruct (Z.ltb_spec 65535 target); [done|].
  destruct (hi_lo target ltac:(lia)) as (Hh & Hl & _).
  unfold Compiler.bind, of_res. rewrite Hh, Hl, Nat2Z.id, Hi. intros [= <-]. by repeat split.
Qed.

Lemma current_ip_Ret s n s' :
  current_ip s = Ret (n, s') -> n = Z.of_nat (length (code_ s)) /\ s' = s.
Proof. by intros [= <- <-]. Qed.

Lemma ensure_dest_Ret d s r s' :
  regs_ok (regs_ s) -> target_ok (regs_ s) d -> ensure_dest d s = Ret (r, s') ->
  code_ s' = code_ s /\ constants_ s' = constants_ s /\ others s s' /\
  ra_ext (regs_ s) (regs_ s') /\ result (regs_ s) (regs_ s') d r /\ target_ok (regs_ s') r /\ r <> 255.
Proof.
  intros Hok Hd. unfold ensure_dest. destruct (Z.eqb_spec d 255) as [->|Hn].
  - unfold alloc_temp. destruct (alloc (regs_ s)) as [[r0 ra]| |] eqn:Ha; [|done|done].
    intros [= <- <-]. cbn. destruct (alloc_ext _ _ _ Hok Ha) as [He Hr].
    do 2 (split; [done|]). split; [by repeat split|]. split; [done|]. split; [done|].
    destruct (result_255 _ _ _ Hr) as [(Hp & Hl & _)|(Hl & Hp & Hs & Hl' & Hb & Hq)].
    + exfalso. destruct (alloc_spec _ _ _ Hok Ha) as (_ & _ & _ & _ & Hnl & _). done.
    + split; [|lia]. right. split; [done|]. split; [|lia]. by rewrite ra_ext_protected.
  - intros [= <- <-]. do 2 (split; [done|]). split; [done|].
    split; [by apply ra_ext_refl|]. split; [by apply result_dest|]. by split.
Qed.

Lemma free_temp_Ret r s s' :
  free_temp r s = Ret (tt, s') ->
  code_ s' = code_ s /\ constants_ s' = constants_ s /\ others s s' /\
  regs_ s' = free (regs_ s) r.
Proof. unfold free_temp. intros [= <-]. by repeat split. Qed.

(** ** The constant pool *)

Lemma const_index_Some cs v i j :
  const_index cs v i = Some j ->
  exists w, (i <= j < i + length cs)%nat /\ cs !! (j - i)%nat = Some w /\ op_eq w v = true.
Proof.
  revert i. induction cs as [|w cs IH]; intros i; cbn [const_index]; [done|].
  destruct (op_eq w v) eqn:E.
  - intros [= ->]. exists w. cbn. rewrite Nat.sub_diag. split; [lia|done].
  - intros H. destruct (IH _ H) as (w' & Hr & Hw & He). exists w'. cbn [length].
    split; [lia|]. split; [|done]. replace (j - i)%nat with (S (j - S i)) by lia. done.
Qed.

Section Pool.
Context (U : list Value) (HU : no_clash U).

Definition pool_in (cs : list Value) : Prop := forall v, v ∈ cs -> v ∈ U.

Lemma pool_in_app c1 c2 : pool_in (c1 ++ c2) <-> pool_in c1 /\ pool_in c2.
Proof. clear HU. unfold pool_in. set_solver. Qed.

Lemma add_const_Ret v s i s' :
  pool_in (constants_ s) -> v ∈ U -> add_const v s = Ret (i, s') ->
  exists cs, constants_ s' = constants_ s ++ cs /\ pool_in cs /\
    constants_ s' !! Z.to_nat i = Some v /\ 0 <= i <= 65535 /\
    code_ s' = code_ s /\ regs_ s' = regs_ s /\ others s s'.
Proof.
  intros Hp Hv. unfold add_const. destruct (const_index (constants_ s) v 0) as [j|] eqn:Ej.
  - apply const_index_Some in Ej as (w & Hj & Hw & He). rewrite Nat.sub_0_r in Hw.
    unfold of_res, u16. case_if; [done|]. intros [= <- <-]. bool_to_prop. exists [].
    rewrite app_nil_r. split; [done|]. split; [intros ? ?%not_elem_of_nil; done|].
    rewrite Nat2Z.id, Hw. split; [|split; [lia|by repeat split]].
    f_equal. apply HU; [|done|done]. apply Hp. by eapply list_elem_of_lookup_2.
  - case_if; [done|]. unfold of_res, u16. case_if; [done|]. intros [= <- <-]. bool_to_prop.
    exists [v]. cbn. split; [done|]. split; [by intros ? ->%list_elem_of_singleton|].
    rewrite Nat2Z.id, lookup_app_r, Nat.sub_diag by lia. split; [done|].
    split; [lia|by repeat split].
Qed.
End Pool.

(** * The machine while an expression is evaluated

    Only the registers and the instruction pointer of the frame [f] change. *)
Section Machine.
Context (L : Lib) (depth : nat) (vm0 : VM) (f : Frame) (tl : list Frame).

Definition mk (rs : list Value) (k : nat) : VM :=
  set_stack (set_regs vm0 rs) (set_ip f (Z.of_nat k) :: tl).
Definition slot (x : Z) : nat := (base f + Z.to_nat x)%nat.
Definition instr_at (k : nat) (i : Instruction) : Prop := code (f_proto f) !! k = Some i.
Definition stepr (s s' : VM) : Prop := step L depth false s = XOk s'.

(** What a step gives when an operator throws [m]. *)
Definition raised (m : bytes) (s : VM) : xres :=
  match to_handler s (STRING m) with Some s' => XOk s' | None => XErr m s end.

Definition fails (rs : list Value) (k : nat) (m : bytes) : Prop :=
  exists rs' k', rtc stepr (mk rs k) (mk rs' k') /\
                 step L depth false (mk rs' k') = raised m (mk rs' (S k')).

Lemma slot_inj x y : 0 <= x -> 0 <= y -> slot x = slot y -> x = y.
Proof. unfold slot. lia. Qed.

Lemma step_mk rs k i :
  instr_at k i ->
  step L depth false (mk rs k) =
  match exec L depth false (mk rs (S k)) (set_ip f (Z.of_nat (S k))) i with
  | XErr m vm => raised m vm
  | r => r
  end.
Proof.
  intros Hi. unfold step. cbn [call_stack mk set_stack]. unfold code_at. cbn [ip f_proto set_ip].
  destruct (Z.ltb_spec (Z.of_nat k) 0); [lia|]. rewrite Nat2Z.id. unfold instr_at in Hi. rewrite Hi.
  replace (Z.of_nat k + 1) with (Z.of_nat (S k)) by lia. done.
Qed.

Lemma reg_mk rs k k' x c :
  reg (mk rs k) (set_ip f k') x c = match rs !! slot x with Some v => c v | None => XUndef end.
Proof. done. Qed.

Lemma set_reg_mk rs k k' x v :
  (slot x < length rs)%nat -> set_reg (mk rs k) (set_ip f k') x v = XOk (mk (<[slot x := v]> rs) k).
Proof.
  intros Hx. unfold set_reg. cbn [base set_ip]. unfold slot in *.
  rewrite (proj2 (Nat.ltb_lt _ _)) by exact Hx. done.
Qed.

(** One instruction that writes the register [x]. *)
Lemma step_write rs k i x v :
  instr_at k i -> (slot x < length rs)%nat ->
  exec L depth false (mk rs (S k)) (set_ip f (Z.of_nat (S k))) i =
  set_reg (mk rs (S k)) (set_ip f (Z.of_nat (S k))) x v ->
  stepr (mk rs k) (mk (<[slot x := v]> rs) (S k)).
Proof. intros Hi Hx He. unfold stepr. by rewrite (step_mk _ _ _ Hi), He, set_reg_mk. Qed.

Lemma step_jump rs k i t :
  instr_at k i ->
  exec L depth false (mk rs (S k)) (set_ip f (Z.of_nat (S k))) i = XOk (jump_to (mk rs (S k)) (Z.of_nat t)) ->
  stepr (mk rs k) (mk rs t).
Proof. intros Hi He. unfold stepr. by rewrite (step_mk _ _ _ Hi), He. Qed.

Lemma step_raise rs k i m :
  instr_at k i ->
  exec L depth false (mk rs (S k)) (set_ip f (Z.of_nat (S k))) i = XErr m (mk rs (S k)) ->
  step L depth false (mk rs k) = raised m (mk rs (S k)).
Proof. intros Hi He. by rewrite (step_mk _ _ _ Hi), He. Qed.

Lemma fails_after rs k rs' k' m : rtc stepr (mk rs k) (mk rs' k') -> fails rs' k' m -> fails rs k m.
Proof. intros H (rs2 & k2 & H2 & He). exists rs2, k2. split; [by etrans|done]. Qed.

(** The result of an operator, as the instruction that ends an expression. *)
Definition ends (rs : list Value) (k : nat) (x : Z) (r : res Value) : Prop :=
  match r with
  | Ret v => stepr (mk rs k) (mk (<[slot x := v]> rs) (S k))
  | Exn m => step L depth false (mk rs k) = raised m (mk rs (S k))
  | Undef => True
  end.

Lemma step_lift rs k i x r :
  instr_at k i -> (slot x < length rs)%nat ->
  exec L depth false (mk rs (S k)) (set_ip f (Z.of_nat (S k))) i =
  lift (mk rs (S k)) r (set_reg (mk rs (S k)) (set_ip f (Z.of_nat (S k))) x) ->
  ends rs k x r.
Proof.
  intros Hi Hx He. destruct r as [v|m|]; cbn; [|by eapply step_raise|done].
  by eapply step_write.
Qed.

(** ** Instructions *)

Lemma step_move rs k x y z v :
  instr_at k (mkI MOVE x y z) -> (slot x < length rs)%nat -> rs !! slot y = Some v ->
  stepr (mk rs k) (mk (<[slot x := v]> rs) (S k)).
Proof.
  intros Hi Hx Hy. eapply step_write; [done|done|]. cbn [exec op exec_load a b].
  by rewrite reg_mk, Hy.
Qed.

Lemma step_unop rs k o x y z v r :
  instr_at k (mkI o x y z) -> (slot x < length rs)%nat -> rs !! slot y = Some v ->
  unop L depth (arrays vm0) o v = Some r ->
  exec L depth false (mk rs (S k)) (set_ip f (Z.of_nat (S k))) (mkI o x y z) =
  exec_value L depth (mk rs (S k)) (set_ip f (Z.of_nat (S k))) (mkI o x y z) ->
  ends rs k x r.
Proof.
  intros Hi Hx Hy Hu He. eapply step_lift; [done|done|]. rewrite He. unfold exec_value.
  cbn [op a b]. rewrite reg_mk, Hy. cbn [arrays mk set_stack set_regs]. by rewrite Hu.
Qed.

Lemma step_binop rs k o x y z v w r :
  instr_at k (mkI o x y z) -> (slot x < length rs)%nat ->
  rs !! slot y = Some v -> rs !! slot z = Some w ->
  unop L depth (arrays vm0) o v = None -> o <> COALESCE ->
  binop L depth (arrays vm0) o v w = Some r ->
  exec L depth false (mk rs (S k)) (set_ip f (Z.of_nat (S k))) (mkI o x y z) =
  exec_value L depth (mk rs (S k)) (set_ip f (Z.of_nat (S k))) (mkI o x y z) ->
  ends rs k x r.
Proof.
  intros Hi Hx Hy Hz Hu Ho Hb He. eapply step_lift; [done|done|]. rewrite He. unfold exec_value.
  cbn [op a b c]. rewrite reg_mk, Hy. cbn [arrays mk set_stack set_regs]. rewrite Hu, reg_mk, Hz.
  rewrite Hb. destruct o; try done.
Qed.

Lemma exec_load_global rs k x idx n :
  0 <= idx <= 65535 -> constants (f_proto f) !! Z.to_nat idx = Some (STRING n) ->
  exec L depth false (mk rs k) (set_ip f (Z.of_nat k)) (mkI LOAD_GLOBAL x (idx / 256) (idx mod 256)) =
  match globals vm0 !! n with
  | Some v => set_reg (mk rs k) (set_ip f (Z.of_nat k)) x v
  | None => if dollar n then XErr (err_undefined n) (mk rs k)
            else set_reg (mk rs k) (set_ip f (Z.of_nat k)) x NONE
  end.
Proof.
  intros Hidx Hc. cbn [exec op exec_global a]. unfold const. rewrite bx_wide by done.
  cbn [f_proto set_ip]. rewrite Hc. done.
Qed.

Lemma exec_check_defined rs k x idx n :
  0 <= idx <= 65535 -> constants (f_proto f) !! Z.to_nat idx = Some (STRING n) ->
  rs !! slot x = Some NONE -> globals vm0 !! n = None ->
  exec L depth false (mk rs k) (set_ip f (Z.of_nat k)) (mkI CHECK_DEFINED x (idx / 256) (idx mod 256)) =
  XErr (err_undefined n) (mk rs k).
Proof.
  intros Hidx Hc Hx Hg. cbn [exec op exec_global a]. rewrite reg_mk, Hx. unfold const.
  rewrite bx_wide by done. cbn [f_proto set_ip]. rewrite Hc. cbn [str_ref globals mk set_stack set_regs].
  by rewrite Hg.
Qed.

Lemma exec_check_defined_ok rs k x idx n v :
  rs !! slot x = Some v -> 0 <= idx <= 65535 ->
  constants (f_proto f) !! Z.to_nat idx = Some (STRING n) -> globals vm0 !! n = Some v ->
  exec L depth false (mk rs k) (set_ip f (Z.of_nat k)) (mkI CHECK_DEFINED x (idx / 256) (idx mod 256)) =
  XOk (mk rs k).
Proof.
  intros Hx Hidx Hc Hg. cbn [exec op exec_global a]. rewrite reg_mk, Hx. unfold const.
  rewrite bx_wide by done. cbn [f_proto set_ip]. rewrite Hc. cbn [str_ref globals mk set_stack set_regs].
  rewrite Hg. by destruct v.
Qed.

(** The conditional jumps. *)
Lemma step_cond rs k o x t v (p : bool) :
  instr_at k (mkI o x (Z.of_nat t / 256) (Z.of_nat t mod 256)) ->
  exec L depth false (mk rs (S k)) (set_ip f (Z.of_nat (S k)))
    (mkI o x (Z.of_nat t / 256) (Z.of_nat t mod 256)) =
  XOk (if p then jump_to (mk rs (S k)) (Z.of_nat t) else mk rs (S k)) ->
  rs !! slot x = Some v ->
  stepr (mk rs k) (mk rs (if p then t else S k)).
Proof.
  intros Hi He Hx. unfold stepr. rewrite (step_mk _ _ _ Hi), He. by destruct p.
Qed.

Lemma step_jump_if_false rs k x t v :
  instr_at k (mkI JUMP_IF_FALSE x (Z.of_nat t / 256) (Z.of_nat t mod 256)) -> Z.of_nat t <= 65535 ->
  rs !! slot x = Some v ->
  stepr (mk rs k) (mk rs (if is_truthy (arrays vm0) v then S k else t)).
Proof.
  intros Hi Ht Hx.
  replace (if is_truthy (arrays vm0) v then S k else t)
    with (if negb (is_truthy (arrays vm0) v) then t else S k) by by destruct (is_truthy _ v).
  eapply step_cond; [done| |done]. cbn [exec op exec_jump a]. rewrite reg_mk, Hx, bx_wide by lia.
  done.
Qed.

Lemma step_jump_if_true rs k x t v :
  instr_at k (mkI JUMP_IF_TRUE x (Z.of_nat t / 256) (Z.of_nat t mod 256)) -> Z.of_nat t <= 65535 ->
  rs !! slot x = Some v ->
  stepr (mk rs k) (mk rs (if is_truthy (arrays vm0) v then t else S k)).
Proof.
  intros Hi Ht Hx. eapply step_cond; [done| |done].
  cbn [exec op exec_jump a]. rewrite reg_mk, Hx, bx_wide by lia. done.
Qed.

Lemma step_jump_if_null rs k x t v :
  instr_at k (mkI JUMP_IF_NULL x (Z.of_nat t / 256) (Z.of_nat t mod 256)) -> Z.of_nat t <= 65535 ->
  rs !! slot x = Some v ->
  stepr (mk rs k) (mk rs (match v with NONE => t | _ => S k end)).
Proof.
  intros Hi Ht Hx.
  replace (match v with NONE => t | _ => S k end)
    with (if type_eqb (type v) T_NONE then t else S k) by by destruct v.
  eapply step_cond; [done| |done].
  cbn [exec op exec_jump a]. rewrite reg_mk, Hx, bx_wide by lia. done.
Qed.

Lemma step_jump_always rs k x t :
  instr_at k (mkI JUMP x (Z.of_nat t / 256) (Z.of_nat t mod 256)) -> Z.of_nat t <= 65535 ->
  stepr (mk rs k) (mk rs t).
Proof.
  intros Hi Ht. eapply step_jump; [done|]. cbn [exec op exec_jump]. by rewrite bx_wide by lia.
Qed.

(** * The code of an expression computes its value *)

Context (en : Env) (U : list Value) (HU : no_clash U).

Definition same (b : bool) (w v : Value) : Prop :=
  if b then is_truthy (arrays vm0) w = is_truthy (arrays vm0) v else w = v.

Lemma same_self b v : same b v v. Proof. by destruct b. Qed.

(** The instructions [ins] are at [pos] in the code that runs. *)
Definition seg (pos : nat) (ins : list Instruction) : Prop :=
  forall i x, ins !! i = Some x -> instr_at (pos + i) x.

Lemma seg_app pos i1 i2 : seg pos (i1 ++ i2) <-> seg pos i1 /\ seg (pos + length i1) i2.
Proof.
  unfold seg. split.
  - intros H. split; intros i x Hi.
    + apply H. by apply lookup_app_l_Some.
    + rewrite <- Nat.add_assoc. apply H. by rewrite lookup_app_r, Nat.add_comm, Nat.add_sub by lia.
  - intros [H1 H2] i x [Hi|[Hle Hi]]%lookup_app_Some; [by apply H1|].
    replace (pos + i)%nat with (pos + length i1 + (i - length i1))%nat by lia. by apply H2.
Qed.

Lemma seg_one pos i : seg pos [i] <-> instr_at pos i.
Proof.
  unfold seg. split.
  - intros H. replace pos with (pos + 0)%nat by lia. by apply H.
  - intros H [|j] x Hj; [|done]. injection Hj as <-. by rewrite Nat.add_0_r.
Qed.

(** Where the compiler finds a name, and what the machine holds there. *)
Definition name_at (s : FunctionCompiler) (n : bytes) (loc : VarLoc) : Prop :=
  resolve_var_in s n false = Ret (loc, s).
Definition names_ok (s : FunctionCompiler) (ns : list bytes) : Prop :=
  forall n, n ∈ ns ->
  (exists q, name_at s n (LOCAL q) /\ q ∉ boxed_slots_ s /\ protected (regs_ s) q /\ live (regs_ s) q)
  \/ name_at s n GLOBAL.
Definition env_ok (s : FunctionCompiler) (rs : list Value) (ns : list bytes) : Prop :=
  forall n, n ∈ ns ->
  (forall q, name_at s n (LOCAL q) -> exists v, rs !! slot q = Some v /\ env_get en n = Some v) /\
  (name_at s n GLOBAL -> globals vm0 !! n = env_get en n).

Lemma name_at_others s s' n loc : others s s' -> name_at s' n loc <-> name_at s n loc.
Proof.
  destruct s as [c1 l1 k1 r1 lo1 sd1 ld1 ca1 bn1 bs1 og1 nd1 cc1 cl1 p1],
           s' as [c2 l2 k2 r2 lo2 sd2 ld2 ca2 bn2 bs2 og2 nd2 cc2 cl2 p2].
  unfold others, name_at.
  cbn [resolve_var_in locals_ captures_ boxed_slots_ parent_ callee_ctx_].
  intros (-> & -> & -> & -> & ->).
  destruct (find_local n lo1); [split; by intros [= <-]|].
  destruct (find_capture n ca1); [split; by intros [= <-]|].
  destruct p1 as [p|]; [|split; by intros [= <-]]. unfold with_captures.
  cbn [code_ lines_ constants_ regs_ locals_ scope_depth_ loop_depth_ captures_ boxed_names_
       boxed_slots_ outer_globals_ no_discovery_ callee_ctx_ cur_line_ parent_].
  destruct (resolve_var_in p n false) as [[[q|q|] p']| |]; [| | |done|done].
  1,2: (destruct (255 <=? length ca1)%nat; [done|];
    destruct (u8 (Z.of_nat (length ca1)) (lit "capture count")) as [idx| |]; [|done|done];
    split; intros H; injection H as _ H _; apply (f_equal length) in H;
    rewrite length_app, length_cons in H; lia).
  split; intros H; injection H as <- ->; done.
Qed.

Lemma names_ok_mono s s' ns :
  names_ok s ns -> others s s' -> ra_ext (regs_ s) (regs_ s') ->
  (forall q, live (regs_ s) q -> live (regs_ s') q) -> names_ok s' ns.
Proof.
  intros H Ho He Hl n Hn. destruct (H n Hn) as [(q & H1 & H2 & H3 & H4)|H1].
  - left. exists q. split; [by rewrite name_at_others|]. split; [by destruct Ho as (_ & _ & -> & _)|].
    split; [by rewrite ra_ext_protected|by apply Hl].
  - right. by rewrite name_at_others.
Qed.

Lemma names_ok_app s n1 n2 : names_ok s (n1 ++ n2) <-> names_ok s n1 /\ names_ok s n2.
Proof. unfold names_ok. set_solver. Qed.
Lemma env_ok_app s rs n1 n2 : env_ok s rs (n1 ++ n2) <-> env_ok s rs n1 /\ env_ok s rs n2.
Proof. unfold env_ok. set_solver. Qed.

(** Registers of temporaries may change under the locals. *)
Lemma env_ok_mono s s' rs rs' ns :
  env_ok s rs ns -> names_ok s ns -> others s s' ->
  (forall q, live (regs_ s) q -> protected (regs_ s) q -> rs' !! slot q = rs !! slot q) ->
  env_ok s' rs' ns.
Proof.
  intros H Hk Ho Hr n Hn. destruct (H n Hn) as [H1 H2]. split.
  - intros q Hq. rewrite name_at_others in Hq by done. destruct (H1 q Hq) as (v & Hv & He).
    exists v. split; [|done]. rewrite Hr; [done| |];
      destruct (Hk n Hn) as [(q' & Hq' & _ & ? & ?)|Hg]; unfold name_at in *; congruence.
  - intros Hg. apply H2. by rewrite <- name_at_others.
Qed.

(** The frame has room for the registers of the allocator. *)
Definition room (s : FunctionCompiler) (rs : list Value) : Prop :=
  (base f + Z.to_nat (max (regs_ s)) <= length rs)%nat.

Lemma room_slot s rs q : regs_ok (regs_ s) -> room s rs -> live (regs_ s) q -> (slot q < length rs)%nat.
Proof. intros Hok Hr Hl. apply live_below in Hl; [|done]. unfold room, slot in *. lia. Qed.

(** From [s] to [s'] the code [ins] computes [D] into the register [r]: no
    register in use before changes but the destination, or the message of the
    exception is raised. *)
Definition computes (b : bool) (D : res Value) (ns : list bytes) (s s' : FunctionCompiler)
    (dest r : Z) (ins : list Instruction) : Prop :=
  forall rs, room s' rs -> env_ok s rs ns -> seg (length (code_ s)) ins ->
  constants_ s' `prefix_of` constants (f_proto f) ->
  match D with
  | Ret v =>
      exists rs' w, rtc stepr (mk rs (length (code_ s))) (mk rs' (length (code_ s'))) /\
        length rs' = length rs /\ rs' !! slot r = Some w /\ same b w v /\
        (forall q, live (regs_ s) q -> q <> dest -> rs' !! slot q = rs !! slot q)
  | Exn m => fails rs (length (code_ s)) m
  | Undef => True
  end.

Definition compiled (b : bool) (D : res Value) (ns : list bytes) (s s' : FunctionCompiler)
    (dest r : Z) : Prop :=
  exists ins cs,
    code_ s' = code_ s ++ ins /\ constants_ s' = constants_ s ++ cs /\ pool_in U cs /\
    others s s' /\ ra_ext (regs_ s) (regs_ s') /\ result (regs_ s) (regs_ s') dest r /\
    computes b D ns s s' dest r ins.

(** What the compilation of an expression starts from. *)
Record start (s : FunctionCompiler) (ns : list bytes) (ps : list Value) (dest : Z) : Prop := {
  st_regs : regs_ok (regs_ s);
  st_dest : target_ok (regs_ s) dest;
  st_names : names_ok s ns;
  st_pool : pool_in U (constants_ s);
  st_consts : pool_in U ps;
  st_callee : callee_ctx_ s = false
}.

(** ** Literals *)

Definition loadable (v : Value) : Prop :=
  match v with BOOL _ | NONE => True | _ => v ∈ U end.

Lemma exec_load_const rs k x idx v (o : OpCode) y z :
  constants (f_proto f) !! Z.to_nat idx = Some v -> (slot x < length rs)%nat ->
  instr_at k (mkI o x y z) ->
  (o = LOAD_CONST /\ y = idx) \/ (o = LOAD_CONST_W /\ bx (mkI o x y z) = idx) ->
  stepr (mk rs k) (mk (<[slot x := v]> rs) (S k)).
Proof.
  intros Hc Hx Hi [[-> ->]|[-> Hb]]; (eapply step_write; [done|done|]);
    cbn [exec op exec_load a b]; unfold const; cbn [f_proto set_ip];
    [|rewrite Hb]; by rewrite Hc.
Qed.

Lemma emit_load_const_Ret d v s s' :
  pool_in U (constants_ s) -> loadable v -> emit_load_const d v s = Ret (tt, s') ->
  exists i cs, code_ s' = code_ s ++ [i] /\ constants_ s' = constants_ s ++ cs /\ pool_in U cs /\
    regs_ s' = regs_ s /\ others s s' /\
    forall rs k, constants_ s' `prefix_of` constants (f_proto f) -> instr_at k i ->
      (slot d < length rs)%nat -> stepr (mk rs k) (mk (<[slot d := v]> rs) (S k)).
Proof.
  intros Hp Hv. unfold emit_load_const.
  assert (Hnil : pool_in U []) by (intros ? ?%not_elem_of_nil; done).
  assert (Hsimple : forall o y, emit o d y 0 s = Ret (Z.of_nat (length (code_ s)), s') ->
    (forall rs k, exec L depth false (mk rs (S k)) (set_ip f (Z.of_nat (S k))) (mkI o d y 0) =
       set_reg (mk rs (S k)) (set_ip f (Z.of_nat (S k))) d v) ->
    exists i cs, code_ s' = code_ s ++ [i] /\ constants_ s' = constants_ s ++ cs /\ pool_in U cs /\
      regs_ s' = regs_ s /\ others s s' /\
      forall rs k, constants_ s' `prefix_of` constants (f_proto f) -> instr_at k i ->
        (slot d < length rs)%nat -> stepr (mk rs k) (mk (<[slot d := v]> rs) (S k))).
  { intros o y He Hx. apply emit_Ret in He as (_ & Hc & Hk & Hr & Ho). exists (mkI o d y 0), [].
    rewrite app_nil_r. do 5 (split; [done|]). intros rs k _ Hi Hd. by eapply step_write. }
  assert (Hpool : (do idx <- add_const v;
      if idx <? 256 then do w <- of_res (u8 idx (lit "constant index"));
        run emit LOAD_CONST d w 0; ret tt
      else run emit_wide LOAD_CONST_W d idx; ret tt) s = Ret (tt, s') -> v ∈ U ->
    exists i cs, code_ s' = code_ s ++ [i] /\ constants_ s' = constants_ s ++ cs /\ pool_in U cs /\
      regs_ s' = regs_ s /\ others s s' /\
      forall rs k, constants_ s' `prefix_of` constants (f_proto f) -> instr_at k i ->
        (slot d < length rs)%nat -> stepr (mk rs k) (mk (<[slot d := v]> rs) (S k))).
  { intros (idx & s1 & Ha & H)%bind_Ret Hin.
    destruct (add_const_Ret U HU v s idx s1 Hp Hin Ha) as (cs & Hc1 & Hcs & Hl & Hi & Hc & Hr & Ho).
    assert (Hlook : constants_ s1 `prefix_of` constants (f_proto f) ->
              constants (f_proto f) !! Z.to_nat idx = Some v)
      by (intros Hpre; by eapply prefix_lookup_Some).
    destruct (idx <? 256).
    - apply bind_Ret in H as (w & s2 & Hu & H). unfold of_res in Hu.
      destruct (u8 idx _) as [w'| |] eqn:Eu; [|done|done]. injection Hu as <- <-.
      apply u8_Ret in Eu as [-> _]. apply bind_Ret in H as (? & s3 & He & [= <-]).
      apply emit_Ret in He as (_ & Hc' & Hk' & Hr' & Ho'). exists (mkI LOAD_CONST d idx 0), cs.
      rewrite Hc', Hk', Hr', Hc. do 2 (split; [done|]). split; [done|]. split; [done|].
      split; [by eapply others_trans|]. intros rs k Hpre Hi' Hd.
      eapply exec_load_const; eauto.
    - apply bind_Ret in H as (? & s3 & He & [= <-]).
      apply emit_wide_Ret in He as (Hc' & Hk' & Hr' & Ho'); [|done].
      exists (mkI LOAD_CONST_W d (idx / 256) (idx mod 256)), cs.
      rewrite Hc', Hk', Hr', Hc. do 2 (split; [done|]). split; [done|]. split; [done|].
      split; [by eapply others_trans|]. intros rs k Hpre Hi' Hd.
      eapply exec_load_const; eauto. right. split; [done|]. by apply bx_wide. }
  destruct (small_int v) as [z|] eqn:Es.
  - destruct v as [z'| | | | | | | | | |]; try done. cbn in Es.
    destruct ((-128 <=? z') && (z' <=? 127)) eqn:Ez; [|done]. injection Es as ->. bool_to_prop.
    destruct (i8_roundtrip z ltac:(lia)) as (w & Hw & Hwz). unfold of_res. rewrite Hw.
    unfold Compiler.bind at 1. intros (? & s1 & He & [= <-])%bind_Ret.
    pose proof He as (-> & _)%emit_Ret. eapply Hsimple; [exact He|].
    intros rs k. cbn [exec op exec_load a b]. by rewrite Hwz.
  - intros H. destruct v; try (by apply Hpool).
    + apply bind_Ret in H as (? & s1 & He & [= <-]). pose proof He as (-> & _)%emit_Ret.
      eapply Hsimple; [exact He|]. intros rs k. by destruct bool_val.
    + apply bind_Ret in H as (? & s1 & He & [= <-]). pose proof He as (-> & _)%emit_Ret.
      by eapply Hsimple.
Qed.

(** ** Bookkeeping of registers *)

Lemma free_one ra ra1 x :
  regs_ok ra -> result ra ra1 255 x -> ra_ext ra ra1 ->
  ra_ext ra (free ra1 x) /\ forall q, live (free ra1 x) q <-> live ra q.
Proof.
  intros Hok Hr He. pose proof (ra_ext_ok _ _ He) as Hok1.
  assert (Hl : live ra1 x) by (apply (result_live ra ra1 255); [done|by left|done]).
  destruct (free_result ra ra1 ra1 x Hr He (ra_ext_refl _ Hok1) Hl) as [H1 H2].
  split; [by eapply ra_ext_trans|]. intros q. rewrite H2.
  destruct (result_255 _ _ _ Hr) as [(_ & Hx & Hq)|(Hx & _ & _ & _ & _ & Hq)].
  - rewrite Hq. naive_solver.
  - destruct (decide (q = x)) as [->|Hne]; [tauto|]. rewrite Hq by done. tauto.
Qed.

Lemma result_pre ra ra1 ra2 d r :
  (forall q, live ra1 q <-> live ra q) -> ra_ext ra ra1 -> result ra1 ra2 d r -> result ra ra2 d r.
Proof.
  intros Hq He Hr. destruct Hr as [d Hd H|r Hp Hl H|r Hl Hp Hs Hl' Hb H].
  - apply result_dest; [done|]. intros q. by rewrite H, Hq.
  - apply result_local; [by rewrite <- (ra_ext_protected _ _ _ He)|by apply Hq|].
    intros q. by rewrite H, Hq.
  - apply result_temp; try done.
    + by rewrite <- Hq.
    + by rewrite <- (ra_ext_protected _ _ _ He).
    + by destruct He as (_ & _ & _ & <- & _).
    + intros q Hne. by rewrite H, Hq.
Qed.

Lemma result_post ra ra1 ra2 d r :
  result ra ra1 d r -> (forall q, live ra2 q <-> live ra1 q) -> result ra ra2 d r.
Proof.
  intros Hr Hq. destruct Hr as [d Hd H|r Hp Hl H|r Hl Hp Hs Hl' Hb H].
  - apply result_dest; [done|]. intros q. by rewrite Hq, H.
  - apply result_local; [done|done|]. intros q. by rewrite Hq, H.
  - apply result_temp; try done; [by apply Hq|]. intros q Hne. by rewrite Hq, H.
Qed.

(** An operand in [x], then the destination [r], then [x] given back. *)
Lemma result_one ra ra1 ra2 x d r :
  regs_ok ra -> target_ok ra d -> result ra ra1 255 x -> ra_ext ra ra1 ->
  result ra1 ra2 d r -> ra_ext ra1 ra2 -> ~ protected ra2 r ->
  ra_ext ra (free ra2 x) /\ result ra (free ra2 x) d r.
Proof.
  intros Hok Hd Hx He1 Hr He2 Hnp. pose proof (ra_ext_ok _ _ He1) as Hok1.
  assert (Hlx : live ra1 x) by (apply (result_live ra ra1 255); [done|by left|done]).
  destruct (free_result ra ra1 ra2 x Hx He1 He2 (result_mono _ _ _ _ _ Hr Hlx)) as [H1 H2].
  split; [eauto using ra_ext_trans|].
  destruct (Z.eq_dec d 255) as [->|Hd'].
  - destruct (result_255 _ _ _ Hr) as [(Hp & _)|(Hl & Hp & Hs & Hl' & Hb & Hq)].
    { by rewrite (ra_ext_protected _ _ _ He2) in Hnp. }
    apply result_temp; [| | |apply H2; split; [done|intros ->; done]|done|].
    + intros Hlr. by apply Hl, (result_mono _ _ _ _ _ Hx).
    + by rewrite <- (ra_ext_protected _ _ _ He1).
    + by destruct He1 as (_ & _ & _ & <- & _).
    + intros q Hne. rewrite H2, Hq by done.
      destruct (result_255 _ _ _ Hx) as [(_ & Hlr & Hqx)|(Hlr & _ & _ & _ & _ & Hqx)].
      * rewrite Hqx. naive_solver.
      * destruct (decide (q = x)) as [->|Hnx]; [tauto|]. rewrite Hqx by done. tauto.
  - destruct (result_given _ _ _ _ Hd' Hr) as [-> Hq]. apply result_dest; [done|].
    intros q. rewrite H2, Hq.
    destruct (result_255 _ _ _ Hx) as [(_ & Hlr & Hqx)|(Hlr & _ & _ & _ & _ & Hqx)].
    + rewrite Hqx. naive_solver.
    + destruct (decide (q = x)) as [->|Hnx]; [tauto|]. rewrite Hqx by done. tauto.
Qed.

Lemma target_mono ra ra1 d x :
  target_ok ra d -> ra_ext ra ra1 -> result ra ra1 255 x -> target_ok ra1 d.
Proof.
  intros [->|(H1 & H2 & H3)] He Hr; [by left|right].
  split; [by eapply result_mono|]. by rewrite ra_ext_protected.
Qed.

(** The destination is not one of the registers kept. *)
Lemma result_fresh ra ra' d r q :
  regs_ok ra -> ~ protected ra' r -> ra_ext ra ra' -> result ra ra' d r ->
  live ra q -> q <> d -> q <> r.
Proof.
  intros Hok Hnp He Hr Hl Hd ->. destruct (Z.eq_dec d 255) as [->|Hd'].
  - destruct (result_255 _ _ _ Hr) as [(Hp & _)|(Hn & _)]; [|done].
    by rewrite (ra_ext_protected _ _ _ He) in Hnp.
  - by destruct (result_given _ _ _ _ Hd' Hr).
Qed.

Lemma start_next s s' ns ns' ps ps' d d' cs :
  start s ns ps d -> others s s' -> ra_ext (regs_ s) (regs_ s') ->
  (forall q, live (regs_ s) q -> live (regs_ s') q) ->
  constants_ s' = constants_ s ++ cs -> pool_in U cs -> target_ok (regs_ s') d' ->
  (forall n, n ∈ ns' -> n ∈ ns) -> (forall v, v ∈ ps' -> v ∈ ps) ->
  start s' ns' ps' d'.
Proof.
  intros [H1 H2 H3 H4 H5 H6] Ho He Hl Hc Hcs Ht Hns Hps. split.
  - by eapply ra_ext_ok.
  - done.
  - intros n Hn. eapply names_ok_mono; eauto.
  - rewrite Hc. by apply pool_in_app.
  - intros v Hv. by apply H5, Hps.
  - by destruct Ho as (_ & _ & _ & _ & ->).
Qed.

(** ** The pieces of a compilation *)

Definition correct (b : bool) (D : res Value) (ns : list bytes) (ps : list Value) (c : Z -> M Z) : Prop :=
  forall s dest r s', start s ns ps dest -> c dest s = Ret (r, s') -> compiled b D ns s s' dest r.

Lemma prefix_app_mono {A} (l k m : list A) : (l ++ k) `prefix_of` m -> l `prefix_of` m.
Proof. intros [x ->]. exists (k ++ x). by rewrite app_assoc. Qed.

Lemma room_mono s s' rs : ra_ext (regs_ s) (regs_ s') -> room s' rs -> room s rs.
Proof. intros H%ra_ext_max. unfold room. lia. Qed.

Lemma correct_literal b v ns ps :
  (pool_in U ps -> loadable v) ->
  correct b (Ret v) ns ps (fun d => do r <- ensure_dest d; run emit_load_const r v; ret r).
Proof.
  intros Hv s dest r s' [H1 H2 H3 H4 H5 H6] H.
  apply bind_Ret in H as (r0 & s1 & Hd & H). apply bind_Ret in H as ([] & s2 & He & [= -> ->]).
  destruct (ensure_dest_Ret _ _ _ _ H1 H2 Hd) as (Hc1 & Hk1 & Ho1 & He1 & Hr1 & Ht1 & Hn1).
  rewrite <- Hk1 in H4.
  destruct (emit_load_const_Ret _ _ _ _ H4 (Hv H5) He) as (i & cs & Hc2 & Hk2 & Hcs & Hr2 & Ho2 & Hx).
  exists [i], cs. rewrite Hc2, Hk2, Hc1, Hk1, Hr2. do 3 (split; [done|]).
  split; [by eapply others_trans|]. split; [done|]. split; [done|].
  intros rs Hroom _ Hseg Hpre. apply seg_one in Hseg.
  assert (Hlr : live (regs_ s1) r) by by apply (result_live (regs_ s) _ dest).
  assert (Hslot : (slot r < length rs)%nat).
  { eapply room_slot; [by eapply (ra_ext_ok (regs_ s))| |done]. unfold room in *. by rewrite <- Hr2. }
  exists (<[slot r := v]> rs), v. rewrite Hc2, Hc1, length_app. cbn [length].
  rewrite Nat.add_1_r. split; [apply rtc_once; by apply Hx|]. split; [by rewrite length_insert|].
  split; [by rewrite list_lookup_insert_eq|]. split; [by apply same_self|].
  intros q Hq Hqd. apply list_lookup_insert_ne. intros Hs.
  apply (result_fresh _ _ _ _ q H1) in Hr1; try done.
  - apply Hr1. symmetry. apply slot_inj; [|apply (live_below _ _ H1 Hq)|done]. apply Hlr.
  - destruct Ht1 as [?|(_ & ? & _)]; done.
Qed.

(** ** Operators *)

Lemma ops_binary o opc :
  OPS o = Some opc -> o <> lit ".." ->
  (forall v w, binop L depth (arrays vm0) opc v w = Some (binary_value L depth (arrays vm0) o v w)) /\
  (forall v, unop L depth (arrays vm0) opc v = None) /\ opc <> COALESCE /\
  (forall g k x y z, exec L depth false g k (mkI opc x y z) = exec_value L depth g k (mkI opc x y z)).
Proof.
  assert (Hfast : forall ovf fop v w,
    fast ovf (arith2 ovf fop) v w = arith2 ovf fop v w).
  { intros ovf fop v w. destruct v, w; try done. unfold fast, arith2. cbn.
    by destruct (ovf _ _) as [? []]. }
  intros Ho Hn. unfold OPS in Ho.
  repeat match type of Ho with
  | (if ?o =s ?t then _ else _) = _ => destruct (bytes_eqb_spec o t) as [->|]; [injection Ho as <-|]
  end; try done;
    (split; [intros v w; first [reflexivity | exact (f_equal Some (Hfast _ _ v w))]|];
     split; [done|]; split; [done|]; done).
Qed.

Lemma unary_ops o (opc : OpCode) v :
  (o = lit "-" /\ opc = UNM) \/ (o = lit "!" /\ opc = NOT) \/ (o = lit "~" /\ opc = BNOT) ->
  unop L depth (arrays vm0) opc v = Some (unary_value (arrays vm0) o v) /\
  (forall g k x y z, exec L depth false g k (mkI opc x y z) = exec_value L depth g k (mkI opc x y z)).
Proof. by intros [[-> ->]|[[-> ->]|[-> ->]]]. Qed.

(** The last instruction of an operator: it writes [r] and its operands are
    given back. *)
Lemma finish b D s s' d r ins i (rs1 rs : list Value) k0 v :
  regs_ok (regs_ s) -> ra_ext (regs_ s) (regs_ s') -> target_ok (regs_ s) d ->
  result (regs_ s) (regs_ s') d r -> ~ protected (regs_ s) r ->
  length rs1 = length rs -> room s' rs ->
  (forall q, live (regs_ s) q -> q <> d -> rs1 !! slot q = rs !! slot q) ->
  code_ s' = code_ s ++ ins ++ [i] -> k0 = length (code_ s ++ ins) ->
  rtc stepr (mk rs (length (code_ s))) (mk rs1 k0) ->
  stepr (mk rs1 k0) (mk (<[slot r := v]> rs1) (S k0)) -> same b v D ->
  exists rs' w, rtc stepr (mk rs (length (code_ s))) (mk rs' (length (code_ s'))) /\
    length rs' = length rs /\ rs' !! slot r = Some w /\ same b w D /\
    (forall q, live (regs_ s) q -> q <> d -> rs' !! slot q = rs !! slot q).
Proof.
  intros Hok He Ht Hr Hnp Hlen Hroom Hkeep Hc -> Hrun Hstep Hsame.
  assert (Hl : live (regs_ s') r) by by apply (result_live (regs_ s) _ d).
  exists (<[slot r := v]> rs1), v. rewrite Hc, app_assoc, length_app. cbn [length].
  rewrite Nat.add_1_r. split; [by eapply rtc_r|]. rewrite length_insert. split; [done|].
  split; [apply list_lookup_insert_eq; rewrite Hlen;
          eapply room_slot; [by eapply ra_ext_ok|done|done]|].
  split; [done|]. intros q Hq Hqd. rewrite list_lookup_insert_ne; [by apply Hkeep|].
  intros Hs. rewrite <- (ra_ext_protected _ _ _ He) in Hnp.
  assert (Hne : q <> r) by by apply (result_fresh (regs_ s) (regs_ s') d).
  apply Hne. symmetry. apply slot_inj; [apply Hl|apply Hq|done].
Qed.

Lemma free_max ra x : max (free ra x) = max ra.
Proof. unfold free. by case_if. Qed.

Lemma target_free ra ra' r :
  target_ok ra' r -> r <> 255 -> ra_ext ra ra' -> ~ protected ra r /\ ~ protected ra' r.
Proof. intros [?|(_ & ? & _)] ? He; [done|]. by rewrite <- (ra_ext_protected _ _ _ He). Qed.

Lemma correct_unary b bx D ns ps o opc c :
  (o = lit "-" /\ opc = UNM /\ bx = false) \/ (o = lit "!" /\ opc = NOT /\ bx = true) \/
  (o = lit "~" /\ opc = BNOT /\ bx = false) ->
  correct bx D ns ps c ->
  correct b (D ≫= unary_value (arrays vm0) o) ns ps (compile_unary o c).
Proof.
  intros Ho Hc s d r s' Hst H.
  assert (Hemit : forall r x, (if o =s lit "-" then emit UNM r x 0
       else if o =s lit "!" then emit NOT r x 0 else if o =s lit "~" then emit BNOT r x 0
       else throw (lit "Unknown unary op: " ++ o)) = emit opc r x 0)
    by (intros; destruct Ho as [(-> & -> & _)|[(-> & -> & _)|(-> & -> & _)]]; done).
  apply bind_Ret in H as (x & s1 & Hx & H). apply bind_Ret in H as (r0 & s2 & Hd & H).
  rewrite Hemit in H. apply bind_Ret in H as (n & s3 & He & H).
  apply bind_Ret in H as ([] & s4 & Hf & [= -> ->]).
  pose proof Hst as [H1 H2 H3 H4 H5 H6].
  assert (Hst1 : start s ns ps 255) by (split; try done; by left).
  destruct (Hc _ _ _ _ Hst1 Hx) as (ins & cs & Hc1 & Hk1 & Hcs & Ho1 & He1 & Hr1 & Hsim).
  pose proof (target_mono _ _ _ _ H2 He1 Hr1) as Ht1.
  destruct (ensure_dest_Ret _ _ _ _ (ra_ext_ok _ _ He1) Ht1 Hd)
    as (Hc2 & Hk2 & Ho2 & He2 & Hr2 & Ht2 & Hn2).
  apply emit_Ret in He as (_ & Hc3 & Hk3 & Hg3 & Ho3).
  apply free_temp_Ret in Hf as (Hc4 & Hk4 & Ho4 & Hg4).
  destruct (target_free (regs_ s) _ r Ht2 Hn2) as [Hnp0 Hnp]; [eauto using ra_ext_trans|].
  destruct (result_one _ _ _ _ _ _ H1 H2 Hr1 He1 Hr2 He2 Hnp) as [He Hr].
  rewrite <- Hg3, <- Hg4 in He, Hr.
  assert (Hcode : code_ s' = code_ s ++ ins ++ [mkI opc r x 0])
    by by rewrite Hc4, Hc3, Hc2, Hc1, <- app_assoc.
  exists (ins ++ [mkI opc r x 0]), cs. split; [done|]. split; [by rewrite Hk4, Hk3, Hk2|].
  split; [done|]. split; [eauto 6 using others_trans|]. split; [done|]. split; [done|].
  intros rs Hroom Henv Hseg Hpre. apply seg_app in Hseg as [Hs1 Hs2]. apply seg_one in Hs2.
  assert (Hroom1 : room s1 rs).
  { apply (room_mono s1 s2); [done|]. unfold room in *. by rewrite Hg4, Hg3, free_max in Hroom. }
  specialize (Hsim rs Hroom1 Henv Hs1 ltac:(by rewrite <- Hk2, <- Hk3, <- Hk4)).
  destruct D as [v|m|]; cbn [mbind res_bind]; [|done|done].
  destruct Hsim as (rs1 & w & Hrun & Hlen & Hw & Hsame & Hkeep).
  assert (Hlr : (slot r < length rs1)%nat).
  { rewrite Hlen. eapply room_slot; [by eapply ra_ext_ok|done|]. by apply (result_live (regs_ s) _ d). }
  assert (Hval : unary_value (arrays vm0) o w = unary_value (arrays vm0) o v).
  { destruct Ho as [(-> & _ & ->)|[(-> & _ & ->)|(-> & _ & ->)]]; cbn in Hsame; [by subst| |by subst].
    unfold unary_value. cbn. by rewrite Hsame. }
  destruct (unary_ops o opc w) as [Hu Hx']; [tauto|].
  pose proof (step_unop rs1 (length (code_ s1)) opc r x 0 w _ ltac:(by rewrite Hc1, length_app) Hlr Hw Hu
    (Hx' _ _ _ _ _)) as Hend. rewrite Hval in Hend.
  destruct (unary_value (arrays vm0) o v) as [u|m|] eqn:Eu; cbn [ends] in Hend; [| |done].
  - eapply (finish b u s s' d r ins _ rs1 rs (length (code_ s1)) u); try done.
    + intros q Hq Hqd. apply Hkeep; [done|]. by eapply live_not_255.
    + by rewrite Hc1.
    + apply same_self.
  - eapply fails_after; [exact Hrun|]. eexists _, _. by split.
Qed.

Lemma start_app s n1 n2 p1 p2 d :
  start s (n1 ++ n2) (p1 ++ p2) d -> start s n1 p1 255 /\ names_ok s n2 /\ pool_in U p2.
Proof.
  intros [H1 H2 H3 H4 H5 H6]. apply names_ok_app in H3 as [H3 H3']. apply pool_in_app in H5 as [H5 H5'].
  split; [|done]. by split; [|left| | | |].
Qed.

(** After the first operand the second one starts, its locals untouched. *)
Lemma start_second s s1 n2 p2 x d cs :
  regs_ok (regs_ s) -> names_ok s n2 -> pool_in U (constants_ s) -> pool_in U p2 ->
  callee_ctx_ s = false -> others s s1 -> ra_ext (regs_ s) (regs_ s1) ->
  result (regs_ s) (regs_ s1) d x -> constants_ s1 = constants_ s ++ cs -> pool_in U cs ->
  start s1 n2 p2 255.
Proof.
  intros H1 H2 H3 H4 H5 Ho He Hr Hk Hcs. split.
  - by eapply ra_ext_ok.
  - by left.
  - eapply names_ok_mono; eauto using result_mono.
  - rewrite Hk. by apply pool_in_app.
  - done.
  - by destruct Ho as (_ & _ & _ & _ & ->).
Qed.

Lemma env_second s s1 rs rs1 n2 :
  regs_ok (regs_ s) -> env_ok s rs n2 -> names_ok s n2 -> others s s1 ->
  (forall q, live (regs_ s) q -> q <> 255 -> rs1 !! slot q = rs !! slot q) -> env_ok s1 rs1 n2.
Proof.
  intros Hok He Hn Ho Hk. eapply env_ok_mono; [done|done|done|].
  intros q Hq _. apply Hk; [done|]. by eapply live_not_255.
Qed.

Lemma correct_binop b D1 D2 n1 n2 p1 p2 o opc c1 c2 :
  OPS o = Some opc -> o <> lit ".." -> o <> lit "&&" -> o <> lit "||" -> o <> lit "??" ->
  correct false D1 n1 p1 c1 -> correct false D2 n2 p2 c2 ->
  correct b (D1 ≫= fun v : Value => D2 ≫= fun w : Value => binary_value L depth (arrays vm0) o v w)
    (n1 ++ n2) (p1 ++ p2) (compile_binary o c1 c2).
Proof.
  intros Hops Hdd Ha1 Ha2 Ha3 C1 C2 s d r s' Hst H. unfold compile_binary in H.
  rewrite (proj2 (bytes_eqb_neq _ _) Ha1), (proj2 (bytes_eqb_neq _ _) Ha2),
    (proj2 (bytes_eqb_neq _ _) Ha3), Hops in H. cbn [orb] in H.
  apply bind_Ret in H as (x & s1 & Hx & H). apply bind_Ret in H as (y & s2 & Hy & H).
  apply bind_Ret in H as (r0 & s3 & Hd & H). apply bind_Ret in H as (n & s4 & He & H).
  apply bind_Ret in H as ([] & s5 & Hf1 & H). apply bind_Ret in H as ([] & s6 & Hf2 & [= -> ->]).
  destruct (start_app _ _ _ _ _ _ Hst) as (Hst1 & Hn2 & Hp2). pose proof Hst as [H1 H2 _ H4 _ H6].
  destruct (C1 _ _ _ _ Hst1 Hx) as (ins1 & cs1 & Hc1 & Hk1 & Hcs1 & Ho1 & He1 & Hr1 & Hsim1).
  pose proof (start_second _ _ _ _ _ _ _ H1 Hn2 H4 Hp2 H6 Ho1 He1 Hr1 Hk1 Hcs1) as Hst2.
  destruct (C2 _ _ _ _ Hst2 Hy) as (ins2 & cs2 & Hc2 & Hk2 & Hcs2 & Ho2 & He2 & Hr2 & Hsim2).
  pose proof (target_mono _ _ _ _ (target_mono _ _ _ _ H2 He1 Hr1) He2 Hr2) as Ht2.
  destruct (ensure_dest_Ret _ _ _ _ (ra_ext_ok _ _ He2) Ht2 Hd)
    as (Hc3 & Hk3 & Ho3 & He3 & Hr3 & Ht3 & Hn3).
  apply emit_Ret in He as (_ & Hc4 & Hk4 & Hg4 & Ho4).
  apply free_temp_Ret in Hf1 as (Hc5 & Hk5 & Ho5 & Hg5).
  apply free_temp_Ret in Hf2 as (Hc6 & Hk6 & Ho6 & Hg6).
  destruct (target_free (regs_ s) _ r Ht3 Hn3) as [Hnp0 Hnp]; [eauto using ra_ext_trans|].
  destruct (result_one _ _ _ _ _ _ (ra_ext_ok _ _ He1) (target_mono _ _ _ _ H2 He1 Hr1)
    Hr2 He2 Hr3 He3 Hnp) as [He13 Hr13].
  rewrite <- Hg4, <- Hg5 in He13, Hr13.
  destruct (result_one _ _ _ _ _ _ H1 H2 Hr1 He1 Hr13 He13) as [He Hr].
  { rewrite (ra_ext_protected _ _ _ He13). by rewrite (ra_ext_protected _ _ _ He1). }
  rewrite <- Hg6 in He, Hr.
  set (i := mkI opc r x y) in *.
  assert (Hcode : code_ s' = code_ s ++ (ins1 ++ ins2) ++ [i])
    by by rewrite Hc6, Hc5, Hc4, Hc3, Hc2, Hc1, <- !app_assoc.
  assert (Hk : constants_ s' = constants_ s ++ cs1 ++ cs2)
    by by rewrite Hk6, Hk5, Hk4, Hk3, Hk2, Hk1, <- app_assoc.
  exists ((ins1 ++ ins2) ++ [i]), (cs1 ++ cs2). split; [done|]. split; [done|].
  split; [by apply pool_in_app|]. split; [eauto 8 using others_trans|]. split; [done|]. split; [done|].
  intros rs Hroom Henv Hseg Hpre. apply seg_app in Hseg as [Hs12 Hs3].
  apply seg_app in Hs12 as [Hs1 Hs2]. apply seg_one in Hs3. apply env_ok_app in Henv as [Hv1 Hv2].
  assert (Hroom2 : room s2 rs).
  { apply (room_mono s2 s3); [done|]. unfold room in *. by rewrite Hg6, free_max, Hg5, free_max, Hg4 in Hroom. }
  assert (Hroom1 : room s1 rs) by by apply (room_mono s1 s2).
  assert (Hpre2 : constants_ s2 `prefix_of` constants (f_proto f)) by by rewrite <- Hk3, <- Hk4, <- Hk5, <- Hk6.
  assert (Hpre1 : constants_ s1 `prefix_of` constants (f_proto f)).
  { rewrite Hk2 in Hpre2. by eapply prefix_app_mono. }
  specialize (Hsim1 rs Hroom1 Hv1 Hs1 Hpre1).
  destruct D1 as [v|m|]; cbn [mbind res_bind]; [|done|done].
  destruct Hsim1 as (rs1 & v' & Hrun1 & Hlen1 & Hw1 & Hsame1 & Hkeep1). cbn in Hsame1. subst v'.
  assert (Hs2' : seg (length (code_ s1)) ins2) by by rewrite Hc1, length_app.
  specialize (Hsim2 rs1 ltac:(unfold room in *; by rewrite Hlen1)
    (env_second _ _ _ _ _ H1 Hv2 Hn2 Ho1 Hkeep1) Hs2' Hpre2).
  destruct D2 as [w|m|]; cbn [mbind res_bind]; [|by eapply fails_after|done].
  destruct Hsim2 as (rs2 & w' & Hrun2 & Hlen2 & Hw2 & Hsame2 & Hkeep2). cbn in Hsame2. subst w'.
  assert (Hlx : live (regs_ s1) x) by (apply (result_live (regs_ s) _ 255); [done|by left|done]).
  assert (Hx2 : rs2 !! slot x = Some v).
  { rewrite Hkeep2; [done|done|]. apply (live_not_255 (regs_ s1)); [by eapply ra_ext_ok|done]. }
  assert (Hlr : (slot r < length rs2)%nat).
  { rewrite Hlen2, Hlen1. apply (room_slot s'); [by eapply ra_ext_ok|done|].
    by apply (result_live (regs_ s) _ d). }
  assert (Hi : instr_at (length (code_ s2)) i) by by rewrite Hc2, Hc1, <- app_assoc, length_app.
  destruct (ops_binary o opc Hops Hdd) as (Hb & Hu & Hne & Hexec).
  pose proof (step_binop rs2 (length (code_ s2)) opc r x y v w _
    Hi Hlr Hx2 Hw2 (Hu v) Hne
    (Hb v w) (Hexec _ _ _ _ _)) as Hend.
  assert (Hrun : rtc stepr (mk rs (length (code_ s))) (mk rs2 (length (code_ s2)))) by by etrans.
  destruct (binary_value L depth (arrays vm0) o v w) as [u|m|]; cbn [ends] in Hend; [| |done].
  - eapply (finish b u s s' d r (ins1 ++ ins2) _ rs2 rs (length (code_ s2)) u); try done.
    + by rewrite Hlen2.
    + intros q Hq Hqd. pose proof (live_not_255 _ _ H1 Hq). rewrite Hkeep2; [|by eapply result_mono|done].
      by apply Hkeep1.
    + by rewrite Hc2, Hc1, <- app_assoc.
    + apply same_self.
  - eapply fails_after; [exact Hrun|]. eexists _, _. by split.
Qed.

(** ** Jumps *)

Lemma start_later s s1 ns ps d cs :
  names_ok s ns -> pool_in U (constants_ s) -> pool_in U ps -> callee_ctx_ s = false ->
  others s s1 -> ra_ext (regs_ s) (regs_ s1) ->
  (forall q, live (regs_ s) q -> live (regs_ s1) q) -> constants_ s1 = constants_ s ++ cs ->
  pool_in U cs -> target_ok (regs_ s1) d -> start s1 ns ps d.
Proof.
  intros H2 H3 H4 H5 Ho He Hl Hk Hcs Ht. split.
  - by eapply ra_ext_ok.
  - done.
  - by eapply names_ok_mono.
  - rewrite Hk. by apply pool_in_app.
  - done.
  - by destruct Ho as (_ & _ & _ & _ & ->).
Qed.

Lemma insert_mid {A} (l1 l2 : list A) x y k :
  k = length l1 -> <[k := y]> (l1 ++ x :: l2) = l1 ++ y :: l2.
Proof. intros ->. induction l1 as [|z l1 IH]; [done|]. exact (f_equal (cons z) IH). Qed.

(** Patching the jump emitted behind [c1]. *)
Lemma patch_mid (c1 l2 : list Instruction) i s s' t :
  code_ s = c1 ++ i :: l2 -> 0 <= t -> patch_jump (Z.of_nat (length c1)) t s = Ret (tt, s') ->
  t <= 65535 /\ code_ s' = c1 ++ mkI (op i) (a i) (t / 256) (t mod 256) :: l2 /\
  constants_ s' = constants_ s /\ regs_ s' = regs_ s /\ others s s'.
Proof.
  intros Hc Ht Hp.
  assert (Hi : code_ s !! length c1 = Some i) by by rewrite Hc, lookup_app_r, Nat.sub_diag.
  destruct (patch_jump_Ret _ _ _ _ _ Ht Hi Hp) as (H1 & H2 & H3 & H4 & H5).
  split; [done|]. split; [|done]. by rewrite H2, Hc, insert_mid.
Qed.

Lemma move_same r s s' : move_into r r s = Ret (tt, s') -> s' = s.
Proof. unfold move_into. rewrite Z.eqb_refl. by intros [= ->]. Qed.

(** A branch compiled into the register [r]. *)
Lemma branch b D ns ps c s d r s' :
  correct b D ns ps c -> start s ns ps r -> r <> 255 -> c r s = Ret (d, s') ->
  d = r /\ exists ins cs, code_ s' = code_ s ++ ins /\ constants_ s' = constants_ s ++ cs /\
    pool_in U cs /\ others s s' /\ ra_ext (regs_ s) (regs_ s') /\
    (forall q, live (regs_ s') q <-> live (regs_ s) q) /\ computes b D ns s s' r r ins.
Proof.
  intros Hc Hst Hr H. destruct (Hc _ _ _ _ Hst H) as (ins & cs & H1 & H2 & H3 & H4 & H5 & H6 & H7).
  destruct (result_given _ _ _ _ Hr H6) as [-> Hq]. split; [done|]. by exists ins, cs.
Qed.

(** What a branch leaves, seen from the start of the whole expression. *)
Lemma branch_keeps ra0 ra d r (rs0 rs rs' : list Value) :
  regs_ok ra0 -> ra_ext ra0 ra -> ~ protected ra r -> result ra0 ra d r ->
  (forall q, live ra0 q -> q <> d -> rs !! slot q = rs0 !! slot q) ->
  (forall q, live ra q -> q <> r -> rs' !! slot q = rs !! slot q) ->
  forall q, live ra0 q -> q <> d -> rs' !! slot q = rs0 !! slot q.
Proof.
  intros Hok He Hnp Hr H1 H2 q Hq Hd. rewrite H2; [by apply H1|by eapply result_mono|].
  by apply (result_fresh ra0 ra d).
Qed.

Lemma correct_ternary b Dc Dt De n0 n1 n2 p0 p1 p2 cc ct ce :
  correct true Dc n0 p0 cc -> correct b Dt n1 p1 ct -> correct b De n2 p2 ce ->
  correct b (Dc ≫= fun v : Value => if is_truthy (arrays vm0) v then Dt else De)
    (n0 ++ n1 ++ n2) (p0 ++ p1 ++ p2) (compile_ternary cc ct ce).
Proof.
  intros C0 C1 C2 s d r s' Hst H. unfold compile_ternary, emit_jump in H.
  apply bind_Ret in H as (x & s1 & Hx & H). apply bind_Ret in H as (jf & s2 & Hj & H).
  apply bind_Ret in H as ([] & s3 & Hf & H). apply bind_Ret in H as (r0 & s4 & Hd & H).
  apply bind_Ret in H as (r1 & s5 & H1 & H). apply bind_Ret in H as ([] & s5' & Hm1 & H).
  apply bind_Ret in H as (jend & s6 & Hje & H). apply bind_Ret in H as (here & s6' & Hip & H).
  apply bind_Ret in H as ([] & s7 & Hp1 & H). apply bind_Ret in H as (r2 & s8 & H2 & H).
  apply bind_Ret in H as ([] & s8' & Hm2 & H). apply bind_Ret in H as (here2 & s8'' & Hip2 & H).
  apply bind_Ret in H as ([] & s9 & Hp2 & [= -> ->]).
  destruct (start_app _ _ _ _ _ _ Hst) as (Hst0 & Hn12 & Hp12).
  apply names_ok_app in Hn12 as [Hn1 Hn2]. apply pool_in_app in Hp12 as [Hpl1 Hpl2].
  pose proof Hst as [G1 G2 _ G4 _ G6].
  destruct (C0 _ _ _ _ Hst0 Hx) as (ins0 & cs0 & Hc1 & Hk1 & Hcs0 & Ho1 & He1 & Hr1 & Hsim0).
  apply emit_Ret in Hj as (-> & Hc2 & Hk2 & Hg2 & Ho2).
  apply free_temp_Ret in Hf as (Hc3 & Hk3 & Ho3 & Hg3). rewrite Hg2 in Hg3.
  destruct (free_one _ _ _ G1 Hr1 He1) as [He3 Hl3]. rewrite <- Hg3 in He3, Hl3.
  assert (Ht3 : target_ok (regs_ s3) d).
  { destruct G2 as [->|(? & ? & ?)]; [by left|right]. rewrite Hl3, (ra_ext_protected _ _ _ He3). done. }
  destruct (ensure_dest_Ret _ _ _ _ (ra_ext_ok _ _ He3) Ht3 Hd)
    as (Hc4 & Hk4 & Ho4 & He4 & Hr4 & Ht4 & Hn4).
  pose proof (result_pre _ _ _ _ _ Hl3 He3 Hr4) as Hr04.
  pose proof (ra_ext_trans _ _ _ He3 He4) as He04.
  destruct (target_free (regs_ s) _ r Ht4 Hn4 He04) as [Hnp0 Hnp4].
  assert (Ho04 : others s s4) by eauto 6 using others_trans.
  assert (Hk04 : constants_ s4 = constants_ s ++ cs0) by by rewrite Hk4, Hk3, Hk2.
  assert (Hst4 : start s4 n1 p1 r) by (eapply (start_later s); eauto using result_mono).
  destruct (branch _ _ _ _ _ _ _ _ _ C1 Hst4 Hn4 H1)
    as (-> & ins1 & cs1 & Hc5 & Hk5 & Hcs1 & Ho5 & He5 & Hl5 & Hsim1).
  apply move_same in Hm1 as ->. apply emit_Ret in Hje as (-> & Hc6 & Hk6 & Hg6 & Ho6).
  apply current_ip_Ret in Hip as [-> ->].
  assert (Hcode6 : code_ s6 = code_ s1 ++ mkI JUMP_IF_FALSE x 0 0 :: ins1 ++ [mkI JUMP 0 0 0])
    by by rewrite Hc6, Hc5, Hc4, Hc3, Hc2, <- !app_assoc.
  destruct (patch_mid _ _ _ _ _ _ Hcode6 (Nat2Z.is_nonneg _) Hp1) as (Ht1 & Hc7 & Hk7 & Hg7 & Ho7).
  cbn [op a] in Hc7. set (t1 := length (code_ s6)) in *.
  assert (Hlen7 : length (code_ s7) = t1).
  { unfold t1. rewrite Hc7, Hcode6. by rewrite !length_app. }
  assert (Hst7 : start s7 n2 p2 r).
  { apply (start_later s s7 n2 p2 r (cs0 ++ cs1)); try done.
    - eauto 8 using others_trans.
    - rewrite Hg7, Hg6. eauto using ra_ext_trans.
    - intros q Hq. rewrite Hg7, Hg6. apply Hl5. by eapply result_mono.
    - by rewrite Hk7, Hk6, Hk5, Hk04, <- app_assoc.
    - by apply pool_in_app.
    - rewrite Hg7, Hg6. destruct Ht4 as [?|(? & ? & ?)]; [done|right].
      rewrite Hl5, (ra_ext_protected _ _ _ He5). done. }
  destruct (branch _ _ _ _ _ _ _ _ _ C2 Hst7 Hn4 H2)
    as (-> & ins2 & cs2 & Hc8 & Hk8 & Hcs2 & Ho8 & He8 & Hl8 & Hsim2).
  apply move_same in Hm2 as ->. apply current_ip_Ret in Hip2 as [-> ->].
  set (jf := mkI JUMP_IF_FALSE x (Z.of_nat t1 / 256) (Z.of_nat t1 mod 256)) in *.
  assert (Hcode8 : code_ s8 = (code_ s1 ++ jf :: ins1) ++ mkI JUMP 0 0 0 :: ins2).
  { rewrite Hc8, Hc7, <- !app_assoc. cbn. by rewrite <- !app_assoc. }
  assert (Hlen5 : length (code_ s5) = length (code_ s1 ++ jf :: ins1)).
  { rewrite Hc5, Hc4, Hc3, Hc2, !length_app. cbn. lia. }
  rewrite Hlen5 in Hp2.
  destruct (patch_mid _ _ _ _ _ _ Hcode8 (Nat2Z.is_nonneg _) Hp2) as (Ht2 & Hc9 & Hk9 & Hg9 & Ho9).
  cbn [op a] in Hc9. set (t2 := length (code_ s8)) in *.
  set (je := mkI JUMP 0 (Z.of_nat t2 / 256) (Z.of_nat t2 mod 256)) in *.
  assert (Hlen9 : length (code_ s') = t2).
  { unfold t2. by rewrite Hc9, Hcode8, !length_app. }
  assert (Hcode : code_ s' = code_ s ++ ins0 ++ [jf] ++ ins1 ++ [je] ++ ins2).
  { rewrite Hc9, Hc1, <- !app_assoc. done. }
  exists (ins0 ++ [jf] ++ ins1 ++ [je] ++ ins2), (cs0 ++ cs1 ++ cs2).
  assert (He09 : ra_ext (regs_ s) (regs_ s')).
  { rewrite Hg9. rewrite Hg7, Hg6 in He8. eauto using ra_ext_trans. }
  assert (Hr09 : result (regs_ s) (regs_ s') d r).
  { apply (result_post _ (regs_ s4)); [done|]. intros q. by rewrite Hg9, Hl8, Hg7, Hg6, Hl5. }
  split; [done|]. split; [by rewrite Hk9, Hk8, Hk7, Hk6, Hk5, Hk04, <- !app_assoc|].
  split; [by rewrite !pool_in_app|]. split; [eauto 10 using others_trans|]. split; [done|].
  split; [done|].
  intros rs Hroom Henv Hseg Hpre. rewrite !seg_app, !seg_one in Hseg. cbn [length] in Hseg.
  destruct Hseg as (Hs0 & Hsj & Hs1 & Hse & Hs2).
  apply env_ok_app in Henv as [Hv0 Hv12]. apply env_ok_app in Hv12 as [Hv1 Hv2].
  assert (Hpre8 : constants_ s8 `prefix_of` constants (f_proto f)) by by rewrite <- Hk9.
  assert (Hpre7 : constants_ s5 `prefix_of` constants (f_proto f)).
  { rewrite <- Hk6, <- Hk7. rewrite Hk8 in Hpre8. by eapply prefix_app_mono. }
  assert (Hpre1 : constants_ s1 `prefix_of` constants (f_proto f)).
  { rewrite Hk5, Hk4, Hk3, Hk2 in Hpre7. by eapply prefix_app_mono. }
  assert (Hroom8 : room s8 rs) by (unfold room in *; by rewrite <- Hg9).
  assert (Hroom5 : room s5 rs).
  { apply (room_mono s7 s8) in Hroom8; [|done]. unfold room in *. by rewrite <- Hg6, <- Hg7. }
  assert (Hroom1 : room s1 rs).
  { apply (room_mono s4 s5) in Hroom5; [|done]. apply (room_mono s3 s4) in Hroom5; [|done].
    unfold room in *. by rewrite Hg3, free_max in Hroom5. }
  specialize (Hsim0 rs Hroom1 Hv0 Hs0 Hpre1).
  destruct Dc as [v|m|]; cbn [mbind res_bind]; [|done|done].
  destruct Hsim0 as (rs1 & w & Hrun0 & Hlen & Hw & Hsame & Hkeep). cbn in Hsame.
  assert (Hlen1 : (length (code_ s) + length ins0)%nat = length (code_ s1)) by by rewrite Hc1, length_app.
  assert (Hlen4 : length (code_ s4) = S (length (code_ s1))).
  { rewrite Hc4, Hc3, Hc2, length_app. cbn. lia. }
  rewrite Hlen1 in *.
  pose proof (step_jump_if_false rs1 _ x t1 w Hsj Ht1 Hw) as Hjump. rewrite Hsame in Hjump.
  assert (Hkeep0 : forall q, live (regs_ s) q -> q <> d -> rs1 !! slot q = rs !! slot q).
  { intros q Hq _. apply Hkeep; [done|]. by eapply live_not_255. }
  destruct (is_truthy (arrays vm0) v).
  - assert (Hseg1 : seg (length (code_ s4)) ins1) by (rewrite Hlen4; by rewrite Nat.add_1_r in Hs1).
    specialize (Hsim1 rs1 ltac:(unfold room in *; by rewrite Hlen)
      (env_second s s4 rs rs1 n1 G1 Hv1 Hn1 Ho04 Hkeep) Hseg1 Hpre7).
    assert (Hto : rtc stepr (mk rs (length (code_ s))) (mk rs1 (length (code_ s4)))).
    { rewrite Hlen4. by eapply rtc_r. }
    destruct Dt as [u|m|]; [|by eapply fails_after|done].
    destruct Hsim1 as (rs2 & w2 & Hrun1 & Hlen2 & Hw2 & Hsame2 & Hkeep2).
    exists rs2, w2. rewrite Hlen9. split; [|split; [by rewrite Hlen2|split; [done|split; [done|]]]].
    + etrans; [exact Hto|]. eapply rtc_r; [exact Hrun1|]. apply (step_jump_always _ _ 0); [|done].
      rewrite Hlen5, length_app. cbn [length].
      replace (length (code_ s1) + S (length ins1))%nat
        with (length (code_ s1) + 1 + length ins1)%nat by lia. done.
    + by eapply (branch_keeps (regs_ s) (regs_ s4)).
  - assert (Hseg2 : seg (length (code_ s7)) ins2).
    { rewrite Hlen7. unfold t1. rewrite Hcode6, length_app. cbn [length]. rewrite length_app. cbn [length].
      replace (length (code_ s1) + S (length ins1 + 1))%nat
        with (length (code_ s1) + 1 + length ins1 + 1)%nat by lia. done. }
    assert (Ho07 : others s s7) by eauto 8 using others_trans.
    specialize (Hsim2 rs1 ltac:(unfold room in *; by rewrite Hlen)
      (env_second s s7 rs rs1 n2 G1 Hv2 Hn2 Ho07 Hkeep) Hseg2 Hpre8).
    assert (Hto : rtc stepr (mk rs (length (code_ s))) (mk rs1 (length (code_ s7)))).
    { rewrite Hlen7. by eapply rtc_r. }
    destruct De as [u|m|]; [|by eapply fails_after|done].
    destruct Hsim2 as (rs2 & w2 & Hrun2 & Hlen2 & Hw2 & Hsame2 & Hkeep2).
    exists rs2, w2. rewrite Hlen9. split; [|split; [by rewrite Hlen2|split; [done|split; [done|]]]].
    + by etrans.
    + eapply (branch_keeps (regs_ s) (regs_ s7)); try done.
      * rewrite Hg7, Hg6. eauto using ra_ext_trans.
      * by rewrite Hg7, Hg6, (ra_ext_protected _ _ _ He5).
      * apply (result_post _ (regs_ s4)); [done|]. intros q. by rewrite Hg7, Hg6, Hl5.
Qed.

Lemma correct_coalesce b D1 D2 n1 n2 p1 p2 c1 c2 :
  correct false D1 n1 p1 c1 -> correct b D2 n2 p2 c2 ->
  correct b (D1 ≫= fun v : Value => match v with NONE => D2 | _ => Ret v end)
    (n1 ++ n2) (p1 ++ p2) (compile_coalesce c1 c2).
Proof.
  intros C1 C2 s d r s' Hst H. unfold compile_coalesce, emit_jump in H.
  apply bind_Ret in H as (x & s1 & Hx & H). apply bind_Ret in H as (r0 & s2 & Hd & H).
  apply bind_Ret in H as (jn & s3 & Hj & H). apply bind_Ret in H as (n & s4 & Hm & H).
  apply bind_Ret in H as ([] & s5 & Hf & H). apply bind_Ret in H as (je & s6 & Hje & H).
  apply bind_Ret in H as (here & s6' & Hip & H). apply bind_Ret in H as ([] & s7 & Hp1 & H).
  apply bind_Ret in H as (r2 & s8 & H2 & H). apply bind_Ret in H as ([] & s8' & Hm2 & H).
  apply bind_Ret in H as (here2 & s8'' & Hip2 & H). apply bind_Ret in H as ([] & s9 & Hp2 & [= -> ->]).
  destruct (start_app _ _ _ _ _ _ Hst) as (Hst1 & Hn2 & Hpl2). pose proof Hst as [G1 G2 _ G4 _ G6].
  destruct (C1 _ _ _ _ Hst1 Hx) as (ins1 & cs1 & Hc1 & Hk1 & Hcs1 & Ho1 & He1 & Hr1 & Hsim1).
  pose proof (target_mono _ _ _ _ G2 He1 Hr1) as Ht1.
  destruct (ensure_dest_Ret _ _ _ _ (ra_ext_ok _ _ He1) Ht1 Hd)
    as (Hc2 & Hk2 & Ho2 & He2 & Hr2 & Ht2 & Hnr).
  apply emit_Ret in Hj as (-> & Hc3 & Hk3 & Hg3 & Ho3).
  apply emit_Ret in Hm as (_ & Hc4 & Hk4 & Hg4 & Ho4).
  apply free_temp_Ret in Hf as (Hc5 & Hk5 & Ho5 & Hg5).
  apply emit_Ret in Hje as (-> & Hc6 & Hk6 & Hg6 & Ho6).
  apply current_ip_Ret in Hip as [-> ->].
  destruct (target_free (regs_ s) _ r Ht2 Hnr) as [Hnp0 Hnp2]; [eauto using ra_ext_trans|].
  destruct (result_one _ _ _ _ _ _ G1 G2 Hr1 He1 Hr2 He2 Hnp2) as [He05 Hr05].
  rewrite <- Hg3, <- Hg4, <- Hg5 in He05, Hr05.
  assert (Hcode6 : code_ s6 = code_ s1 ++ mkI JUMP_IF_NULL x 0 0 :: [mkI MOVE r x 0; mkI JUMP 0 0 0])
    by by rewrite Hc6, Hc5, Hc4, Hc3, Hc2, <- !app_assoc.
  rewrite Hc2 in Hp1.
  destruct (patch_mid _ _ _ _ _ _ Hcode6 (Nat2Z.is_nonneg _) Hp1) as (Hle1 & Hc7 & Hk7 & Hg7 & Ho7).
  cbn [op a] in Hc7. set (t1 := length (code_ s6)) in *.
  set (j1 := mkI JUMP_IF_NULL x (Z.of_nat t1 / 256) (Z.of_nat t1 mod 256)) in *.
  assert (Ht1' : t1 = (length (code_ s1) + 3)%nat) by (unfold t1; by rewrite Hcode6, length_app).
  assert (Ho05 : others s s5) by eauto 8 using others_trans.
  assert (Hk05 : constants_ s5 = constants_ s ++ cs1) by by rewrite Hk5, Hk4, Hk3, Hk2.
  assert (Hst7 : start s7 n2 p2 r).
  { apply (start_later s s7 n2 p2 r cs1); try done.
    - eauto 8 using others_trans.
    - by rewrite Hg7, Hg6.
    - intros q Hq. rewrite Hg7, Hg6. by eapply result_mono.
    - by rewrite Hk7, Hk6, Hk05.
    - rewrite Hg7, Hg6. right. split; [by apply (result_live (regs_ s) _ d)|].
      rewrite (ra_ext_protected _ _ _ He05). split; [done|].
      destruct Ht2 as [?|(_ & _ & ?)]; done. }
  destruct (branch _ _ _ _ _ _ _ _ _ C2 Hst7 Hnr H2)
    as (-> & ins2 & cs2 & Hc8 & Hk8 & Hcs2 & Ho8 & He8 & Hl8 & Hsim2).
  apply move_same in Hm2 as ->. apply current_ip_Ret in Hip2 as [-> ->].
  assert (Hcode8 : code_ s8 = (code_ s1 ++ [j1; mkI MOVE r x 0]) ++ mkI JUMP 0 0 0 :: ins2).
  { by rewrite Hc8, Hc7, <- !app_assoc. }
  replace (Z.of_nat (length (code_ s5))) with (Z.of_nat (length (code_ s1 ++ [j1; mkI MOVE r x 0])))
    in Hp2 by by rewrite Hc5, Hc4, Hc3, Hc2, <- app_assoc, !length_app.
  destruct (patch_mid _ _ _ _ _ _ Hcode8 (Nat2Z.is_nonneg _) Hp2) as (Hle2 & Hc9 & Hk9 & Hg9 & Ho9).
  cbn [op a] in Hc9. set (t2 := length (code_ s8)) in *.
  set (j2 := mkI JUMP 0 (Z.of_nat t2 / 256) (Z.of_nat t2 mod 256)) in *.
  assert (Hlen9 : length (code_ s') = t2) by (unfold t2; by rewrite Hc9, Hcode8, !length_app).
  exists (ins1 ++ [j1] ++ [mkI MOVE r x 0] ++ [j2] ++ ins2), (cs1 ++ cs2).
  assert (He09 : ra_ext (regs_ s) (regs_ s')).
  { rewrite Hg9. rewrite Hg7, Hg6 in He8. eauto using ra_ext_trans. }
  split; [by rewrite Hc9, Hc1, <- !app_assoc|].
  split; [by rewrite Hk9, Hk8, Hk7, Hk6, Hk05, <- !app_assoc|].
  split; [by rewrite !pool_in_app|]. split; [eauto 10 using others_trans|]. split; [done|].
  assert (Hr09 : result (regs_ s) (regs_ s') d r).
  { apply (result_post _ (regs_ s5)); [done|]. intros q. by rewrite Hg9, Hl8, Hg7, Hg6. }
  split; [done|].
  intros rs Hroom Henv Hseg Hpre. rewrite !seg_app, !seg_one in Hseg. cbn [length] in Hseg.
  destruct Hseg as (Hs1 & Hsj & Hsm & Hse & Hs2). apply env_ok_app in Henv as [Hv1 Hv2].
  assert (Hpre8 : constants_ s8 `prefix_of` constants (f_proto f)) by by rewrite <- Hk9.
  assert (Hpre1 : constants_ s1 `prefix_of` constants (f_proto f)).
  { rewrite Hk8, Hk7, Hk6, Hk5, Hk4, Hk3, Hk2 in Hpre8. by eapply prefix_app_mono. }
  assert (Hroom8 : room s8 rs) by (unfold room in *; by rewrite <- Hg9).
  assert (Hroom1 : room s1 rs).
  { apply (room_mono s7 s8) in Hroom8; [|done]. apply (room_mono s1 s2); [done|].
    unfold room in *. by rewrite Hg7, Hg6, Hg5, free_max, Hg4, Hg3 in Hroom8. }
  specialize (Hsim1 rs Hroom1 Hv1 Hs1 Hpre1).
  destruct D1 as [v|m|]; cbn [mbind res_bind]; [|done|done].
  destruct Hsim1 as (rs1 & w & Hrun1 & Hlen & Hw & Hsame & Hkeep). cbn in Hsame. subst w.
  assert (Hlen1 : (length (code_ s) + length ins1)%nat = length (code_ s1)) by by rewrite Hc1, length_app.
  rewrite Hlen1 in *.
  pose proof (step_jump_if_null rs1 _ x t1 v Hsj Hle1 Hw) as Hjump.
  assert (Hkeep0 : forall q, live (regs_ s) q -> q <> d -> rs1 !! slot q = rs !! slot q).
  { intros q Hq _. apply Hkeep; [done|]. by eapply live_not_255. }
  assert (Hlr : (slot r < length rs1)%nat).
  { rewrite Hlen. apply (room_slot s'); [by eapply ra_ext_ok|done|]. by apply (result_live (regs_ s) _ d). }
  assert (Hmove : v <> NONE ->
    exists rs' w, rtc stepr (mk rs (length (code_ s))) (mk rs' (length (code_ s'))) /\
      length rs' = length rs /\ rs' !! slot r = Some w /\ same b w v /\
      (forall q, live (regs_ s) q -> q <> d -> rs' !! slot q = rs !! slot q)).
  { intros Hv. assert (Hj1 : stepr (mk rs1 (length (code_ s1))) (mk rs1 (S (length (code_ s1)))))
      by by destruct v.
    rewrite Nat.add_1_r in Hsm. pose proof (step_move _ _ _ _ _ _ Hsm Hlr Hw) as Hmv.
    assert (Hj2 : stepr (mk (<[slot r := v]> rs1) (S (S (length (code_ s1)))))
                        (mk (<[slot r := v]> rs1) t2)).
    { apply (step_jump_always _ _ 0); [|done].
      by replace (S (S (length (code_ s1)))) with (length (code_ s1) + 1 + 1)%nat by lia. }
    exists (<[slot r := v]> rs1), v. rewrite Hlen9, length_insert.
    split; [eapply rtc_r; [eapply rtc_r; [eapply rtc_r|]|]; eassumption|]. split; [done|].
    split; [by apply list_lookup_insert_eq|]. split; [apply same_self|].
    eapply (branch_keeps (regs_ s) (regs_ s5)); try done.
    - by rewrite (ra_ext_protected _ _ _ He05).
    - intros q Hq Hne. apply list_lookup_insert_ne. intros Heq. apply Hne. symmetry.
      apply slot_inj; [|apply Hq|done]. destruct Ht2 as [?|(_ & _ & ?)]; [done|lia]. }
  destruct v; try (by apply Hmove).
  assert (Hseg2 : seg (length (code_ s7)) ins2).
  { rewrite Hc7, length_app. cbn [length].
    by replace (length (code_ s1) + 3)%nat with (length (code_ s1) + 1 + 1 + 1)%nat by lia. }
  assert (Hlen7 : length (code_ s7) = t1) by (unfold t1; by rewrite Hc7, Hcode6, !length_app).
  assert (Ho07 : others s s7) by eauto 8 using others_trans.
  specialize (Hsim2 rs1 ltac:(unfold room in *; by rewrite Hlen)
    (env_second s s7 rs rs1 n2 G1 Hv2 Hn2 Ho07 Hkeep) Hseg2 Hpre8).
  assert (Hto : rtc stepr (mk rs (length (code_ s))) (mk rs1 (length (code_ s7)))).
  { rewrite Hlen7. by eapply rtc_r. }
  destruct D2 as [u|m|]; [|by eapply fails_after|done].
  destruct Hsim2 as (rs2 & w2 & Hrun2 & Hlen2 & Hw2 & Hsame2 & Hkeep2).
  exists rs2, w2. rewrite Hlen9.
  split; [by etrans|split; [by rewrite Hlen2|split; [done|split; [done|]]]].
  eapply (branch_keeps (regs_ s) (regs_ s7)); try done; rewrite Hg7, Hg6; [done| |done].
  by rewrite (ra_ext_protected _ _ _ He05).
Qed.

(** The value of [&&] and [||] as far as their truth goes. *)
Definition logical_value (conj_ : bool) (h : heap) (D1 D2 : res Value) : res Value :=
  D1 ≫= fun v : Value =>
  if Bool.eqb (is_truthy h v) conj_ then D2 ≫= fun w : Value => Ret (BOOL (is_truthy h w))
  else Ret (BOOL (is_truthy h v)).

Lemma correct_logical D1 D2 n1 n2 p1 p2 o c1 c2 :
  o = lit "&&" \/ o = lit "||" ->
  correct true D1 n1 p1 c1 -> correct true D2 n2 p2 c2 ->
  correct true (logical_value (o =s lit "&&") (arrays vm0) D1 D2)
    (n1 ++ n2) (p1 ++ p2) (compile_logical o c1 c2).
Proof.
  intros Hop C1 C2 s d r s' Hst H. unfold compile_logical, emit_jump in H.
  apply bind_Ret in H as (r0 & s1 & Hd & H). apply bind_Ret in H as (x & s2 & H1 & H).
  apply bind_Ret in H as ([] & s2' & Hm1 & H). apply bind_Ret in H as (jn & s3 & Hj & H).
  apply bind_Ret in H as (y & s4 & H2 & H). apply bind_Ret in H as ([] & s4' & Hm2 & H).
  apply bind_Ret in H as (here & s4'' & Hip & H). apply bind_Ret in H as ([] & s5 & Hp & [= -> ->]).
  destruct (start_app _ _ _ _ _ _ Hst) as (Hst1 & Hn2 & Hpl2). pose proof Hst as [G1 G2 _ G4 _ G6].
  destruct (ensure_dest_Ret _ _ _ _ G1 G2 Hd) as (Hc1 & Hk1 & Ho1 & He1 & Hr1 & Ht1 & Hnr).
  destruct (target_free (regs_ s) _ r Ht1 Hnr He1) as [Hnp0 Hnp1].
  destruct Hst1 as [_ _ I3 _ I5 _].
  assert (Hnil : pool_in U []) by (intros ? ?%not_elem_of_nil; done).
  assert (Hst1' : start s1 n1 p1 r).
  { eapply (start_later s s1 n1 p1 r []); eauto using result_mono. by rewrite app_nil_r. }
  destruct (branch _ _ _ _ _ _ _ _ _ C1 Hst1' Hnr H1)
    as (-> & ins1 & cs1 & Hc2 & Hk2 & Hcs1 & Ho2 & He2 & Hl2 & Hsim1).
  apply move_same in Hm1 as ->. apply emit_Ret in Hj as (-> & Hc3 & Hk3 & Hg3 & Ho3).
  assert (Hst3 : start s3 n2 p2 r).
  { apply (start_later s s3 n2 p2 r cs1); try done.
    - eauto using others_trans.
    - rewrite Hg3. eauto using ra_ext_trans.
    - intros q Hq. rewrite Hg3. apply Hl2. by eapply result_mono.
    - by rewrite Hk3, Hk2, Hk1.
    - rewrite Hg3. destruct Ht1 as [?|(? & ? & ?)]; [done|right].
      by rewrite Hl2, (ra_ext_protected _ _ _ He2). }
  destruct (branch _ _ _ _ _ _ _ _ _ C2 Hst3 Hnr H2)
    as (-> & ins2 & cs2 & Hc4 & Hk4 & Hcs2 & Ho4 & He4 & Hl4 & Hsim2).
  apply move_same in Hm2 as ->. apply current_ip_Ret in Hip as [-> ->].
  set (oj := if o =s lit "&&" then JUMP_IF_FALSE else JUMP_IF_TRUE) in *.
  assert (Hcode4 : code_ s4 = code_ s2 ++ mkI oj r 0 0 :: ins2)
    by by rewrite Hc4, Hc3, <- app_assoc.
  destruct (patch_mid _ _ _ _ _ _ Hcode4 (Nat2Z.is_nonneg _) Hp) as (Hle & Hc5 & Hk5 & Hg5 & Ho5).
  cbn [op a] in Hc5. set (t := length (code_ s4)) in *.
  set (j := mkI oj r (Z.of_nat t / 256) (Z.of_nat t mod 256)) in *.
  assert (Hlen5 : length (code_ s') = t) by (unfold t; by rewrite Hc5, Hcode4, !length_app).
  exists (ins1 ++ [j] ++ ins2), (cs1 ++ cs2).
  assert (He05 : ra_ext (regs_ s) (regs_ s')).
  { rewrite Hg5. rewrite Hg3 in He4. eauto using ra_ext_trans. }
  split; [by rewrite Hc5, Hc2, Hc1, <- !app_assoc|].
  split; [by rewrite Hk5, Hk4, Hk3, Hk2, Hk1, <- !app_assoc|].
  split; [by rewrite !pool_in_app|]. split; [eauto 10 using others_trans|]. split; [done|].
  assert (Hr05 : result (regs_ s) (regs_ s') d r).
  { apply (result_post _ (regs_ s1)); [done|]. intros q. by rewrite Hg5, Hl4, Hg3, Hl2. }
  split; [done|].
  intros rs Hroom Henv Hseg Hpre. rewrite !seg_app, !seg_one in Hseg. cbn [length] in Hseg.
  destruct Hseg as (Hs1 & Hsj & Hs2). apply env_ok_app in Henv as [Hv1 Hv2].
  assert (Hpre4 : constants_ s4 `prefix_of` constants (f_proto f)) by by rewrite <- Hk5.
  assert (Hpre2 : constants_ s2 `prefix_of` constants (f_proto f)).
  { rewrite Hk4, Hk3 in Hpre4. by eapply prefix_app_mono. }
  assert (Hroom4 : room s4 rs) by (unfold room in *; by rewrite <- Hg5).
  assert (Hroom2 : room s2 rs).
  { apply (room_mono s3 s4) in Hroom4; [|done]. unfold room in *. by rewrite <- Hg3. }
  assert (Hv1' : env_ok s1 rs n1) by by apply (env_ok_mono s s1 rs rs).
  unfold computes in Hsim1. rewrite Hc1 in Hsim1. specialize (Hsim1 rs Hroom2 Hv1' Hs1 Hpre2).
  unfold logical_value. destruct D1 as [v|m|]; cbn [mbind res_bind]; [|done|done].
  destruct Hsim1 as (rs1 & w & Hrun1 & Hlen & Hw & Hsame & Hkeep). cbn in Hsame.
  assert (Hlen2 : (length (code_ s) + length ins1)%nat = length (code_ s2))
    by by rewrite Hc2, Hc1, length_app.
  rewrite Hlen2 in *.
  assert (Hjump : stepr (mk rs1 (length (code_ s2)))
    (mk rs1 (if Bool.eqb (is_truthy (arrays vm0) v) (o =s lit "&&") then S (length (code_ s2)) else t))).
  { destruct Hop as [-> | ->].
    - pose proof (step_jump_if_false rs1 _ r t w Hsj Hle Hw) as Hx. rewrite Hsame in Hx.
      by destruct (is_truthy (arrays vm0) v).
    - pose proof (step_jump_if_true rs1 _ r t w Hsj Hle Hw) as Hx. rewrite Hsame in Hx.
      by destruct (is_truthy (arrays vm0) v). }
  assert (Hkeep0 : forall q, live (regs_ s) q -> q <> d -> rs1 !! slot q = rs !! slot q).
  { by apply (branch_keeps (regs_ s) (regs_ s1) d r rs rs rs1). }
  destruct (Bool.eqb (is_truthy (arrays vm0) v) (o =s lit "&&")) eqn:Eb.
  - assert (Hseg2 : seg (length (code_ s3)) ins2).
    { by rewrite Hc3, length_app. }
    assert (Ho03 : others s s3) by eauto using others_trans.
    assert (Henv2 : env_ok s3 rs1 n2).
    { apply (env_ok_mono s s3 rs rs1); try done. intros q Hq Hpq. apply Hkeep0; [done|].
      intros ->. destruct (Z.eq_dec d 255) as [->|Hd'].
      - by apply live_not_255 in Hq.
      - by destruct (result_given _ _ _ _ Hd' Hr1) as [-> _]. }
    specialize (Hsim2 rs1 ltac:(unfold room in *; by rewrite Hlen) Henv2 Hseg2 Hpre4).
    assert (Hto : rtc stepr (mk rs (length (code_ s))) (mk rs1 (length (code_ s3)))).
    { rewrite Hc3, length_app. cbn [length]. rewrite Nat.add_1_r. by eapply rtc_r. }
    destruct D2 as [u|m|]; cbn [mbind res_bind]; [|by eapply fails_after|done].
    destruct Hsim2 as (rs2 & w2 & Hrun2 & Hlen3 & Hw2 & Hsame2 & Hkeep2).
    exists rs2, w2. rewrite Hlen5.
    split; [by etrans|split; [by rewrite Hlen3|split; [done|split; [exact Hsame2|]]]].
    eapply (branch_keeps (regs_ s) (regs_ s3)); try done; rewrite Hg3.
    + eauto using ra_ext_trans.
    + by rewrite (ra_ext_protected _ _ _ He2).
    + by apply (result_post _ (regs_ s1)).
  - exists rs1, w. rewrite Hlen5. split; [by eapply rtc_r|]. split; [done|]. split; [done|].
    split; [exact Hsame|done].
Qed.

(** ** Names *)

Lemma correct_variable b n :
  frag b (Variable_ n) = true ->
  correct b (den L depth en (arrays vm0) (Variable_ n)) [n] [STRING n] (compile_variable n).
Proof.
  intros Hf s dest r s' [G1 G2 G3 G4 G5 G6] H. unfold compile_variable in H.
  apply bind_Ret in H as (loc & s0 & Hres & H). unfold resolve_var in Hres.
  assert (Hnil : pool_in U []) by (intros ? ?%not_elem_of_nil; done).
  destruct (G3 n ltac:(by left)) as [(q & Hq & Hbox & Hprot & Hlive)|Hg].
  - unfold name_at in Hq. rewrite Hq in Hres. injection Hres as <- <-.
    apply bind_Ret in H as (bs & s0 & [= <- <-] & H). rewrite (bool_decide_eq_false_2 _ Hbox) in H.
    destruct (Z.eqb_spec dest 255) as [->|Hne]; cbn [andb negb] in H.
    + injection H as <- <-. exists [], []. rewrite !app_nil_r. do 3 (split; [done|]).
      split; [done|]. split; [by apply ra_ext_refl|]. split; [by apply result_local|].
      intros rs _ Henv _ _. destruct (Henv n ltac:(by left)) as [Hl _].
      destruct (Hl q Hq) as (v & Hv & He). cbn [den]. rewrite He. exists rs, v.
      split; [done|]. split; [done|]. split; [done|]. split; [apply same_self|done].
    + apply bind_Ret in H as (r0 & s1 & Hd & H).
      apply bind_Ret in H as ([] & s2 & Hm & [= -> ->]). unfold emit_read_local in Hm.
      apply bind_Ret in Hm as (bs & s3 & [= <- <-] & Hm).
      destruct (ensure_dest_Ret _ _ _ _ G1 G2 Hd) as (Hc1 & Hk1 & Ho1 & He1 & Hr1 & Ht1 & Hn1).
      destruct (result_given _ _ _ _ Hne Hr1) as [-> Hl1].
      assert (Hbx : boxed_slots_ s1 = boxed_slots_ s) by by destruct Ho1 as (_ & _ & -> & _).
      rewrite Hbx, (bool_decide_eq_false_2 _ Hbox) in Hm.
      apply bind_Ret in Hm as (? & s4 & He & [= ->]).
      apply emit_Ret in He as (_ & Hc2 & Hk2 & Hg2 & Ho2).
      exists [mkI MOVE dest q 0], []. rewrite app_nil_r, Hc2, Hc1, Hk2, Hk1, Hg2.
      do 3 (split; [done|]). split; [by eapply others_trans|]. split; [done|]. split; [done|].
      intros rs Hroom Henv Hseg _. apply seg_one in Hseg.
      destruct (Henv n ltac:(by left)) as [Hl _]. destruct (Hl q Hq) as (v & Hv & Hev).
      cbn [den]. rewrite Hev.
      destruct G2 as [->|(Hld & Hnp & Hb)]; [done|].
      assert (Hslot : (slot dest < length rs)%nat).
      { apply (room_slot s'); [by rewrite Hg2; eapply ra_ext_ok|done|]. rewrite Hg2. by apply Hl1. }
      exists (<[slot dest := v]> rs), v. rewrite Hc2, Hc1, length_app, length_insert. cbn [length].
      rewrite Nat.add_1_r. split; [apply rtc_once; by eapply step_move|]. split; [done|].
      split; [by apply list_lookup_insert_eq|]. split; [apply same_self|].
      intros q' Hq' Hqd. apply list_lookup_insert_ne. intros Hs. apply Hqd. symmetry.
      apply slot_inj; [lia|apply Hq'|done].
  - unfold name_at in Hg. rewrite Hg in Hres. injection Hres as <- <-.
    apply bind_Ret in H as (r0 & s1 & Hd & H). apply bind_Ret in H as (ni & s2 & Ha & H).
    apply bind_Ret in H as (? & s3 & He & H).
    destruct (ensure_dest_Ret _ _ _ _ G1 G2 Hd) as (Hc1 & Hk1 & Ho1 & He1 & Hr1 & Ht1 & Hn1).
    rewrite <- Hk1 in G4.
    destruct (add_const_Ret U HU _ _ _ _ G4 (G5 _ ltac:(by left)) Ha)
      as (cs & Hk2 & Hcs & Hlook & Hni & Hc2 & Hg2 & Ho2).
    apply emit_wide_Ret in He as (Hc3 & Hk3 & Hg3 & Ho3); [|done].
    apply bind_Ret in H as (cc & s4 & [= <- <-] & H).
    assert (Hcc : callee_ctx_ s3 = false).
    { destruct Ho3 as (_ & _ & _ & _ & ->). destruct Ho2 as (_ & _ & _ & _ & ->).
      by destruct Ho1 as (_ & _ & _ & _ & ->). }
    rewrite Hcc in H. destruct n as [|ch n']; [done|].
    change (dollar (ch :: n') || negb (has_sub (lit "::") (ch :: n')) = true) in Hf.
    set (n := ch :: n') in *. set (li := mkI LOAD_GLOBAL r0 (ni / 256) (ni mod 256)) in *.
    set (ci := mkI CHECK_DEFINED r0 (ni / 256) (ni mod 256)).
    (* the value, and the check of a bare name *)
    assert (Hend : r = r0 /\ code_ s' = code_ s ++ [li] ++ (if dollar n then [] else [ci]) /\
                   constants_ s' = constants_ s ++ cs /\ regs_ s' = regs_ s1 /\ others s s').
    { assert (Hd1 : dollar n = (ch =c "$")) by done.
      assert (Ho03 : others s s3) by eauto using others_trans.
      rewrite Hd1 in *. destruct (ch =c "$"); cbn [negb andb orb] in *.
      - injection H as <- <-. rewrite Hc3, Hc2, Hc1, Hk3, Hk2, Hk1, Hg3, Hg2. done.
      - rewrite Hf in H. apply bind_Ret in H as (? & s5 & He & [= <- <-]).
        apply emit_wide_Ret in He as (Hc4 & Hk4 & Hg4 & Ho4); [|done].
        rewrite Hc4, Hc3, Hc2, Hc1, Hk4, Hk3, Hk2, Hk1, Hg4, Hg3, Hg2, <- app_assoc.
        do 4 (split; [done|]). by eapply others_trans. }
    destruct Hend as (-> & Hc & Hk & Hg' & Ho).
    exists ([li] ++ (if dollar n then [] else [ci])), cs. rewrite Hg'.
    split; [done|]. split; [done|]. split; [done|]. split; [done|]. split; [done|]. split; [done|].
    intros rs Hroom Henv Hseg Hpre. apply seg_app in Hseg as [Hs1 Hs2]. apply seg_one in Hs1.
    cbn [length] in Hs2. rewrite Nat.add_1_r in Hs2.
    destruct (Henv n ltac:(by left)) as [_ Hgl]. specialize (Hgl Hg). cbn [den].
    assert (Hlive : live (regs_ s1) r0) by by apply (result_live (regs_ s) _ dest).
    assert (Hslot : (slot r0 < length rs)%nat).
    { apply (room_slot s'); [by rewrite Hg'; eapply ra_ext_ok|done|by rewrite Hg']. }
    assert (Hlk : constants (f_proto f) !! Z.to_nat ni = Some (STRING n)).
    { eapply prefix_lookup_Some; [exact Hlook|]. by rewrite Hk2, Hk1, <- Hk. }
    assert (Hkeep : forall u q, live (regs_ s) q -> q <> dest ->
              <[slot r0 := u]> rs !! slot q = rs !! slot q).
    { intros u q Hq Hqd. apply list_lookup_insert_ne. intros Hs.
      destruct (target_free (regs_ s) _ r0 Ht1 Hn1 He1) as [_ Hnp].
      assert (Hne : q <> r0) by by apply (result_fresh (regs_ s) (regs_ s1) dest).
      apply Hne. symmetry. apply slot_inj; [apply Hlive|apply Hq|done]. }
    pose proof (exec_load_global rs (S (length (code_ s))) r0 ni n Hni Hlk) as Hx.
    destruct (globals vm0 !! n) as [v|] eqn:Ev; rewrite <- Hgl.
    + pose proof (step_write _ _ _ _ _ Hs1 Hslot Hx) as Hstep.
      exists (<[slot r0 := v]> rs), v. rewrite length_insert.
      split; [|split; [done|split; [by apply list_lookup_insert_eq|split; [apply same_self|by apply Hkeep]]]].
      rewrite Hc, !length_app. cbn [length]. destruct (dollar n).
      * cbn [length]. rewrite Nat.add_1_r. by apply rtc_once.
      * apply seg_one in Hs2. cbn [length]. replace (length (code_ s) + (1 + 1))%nat
          with (S (S (length (code_ s)))) by lia.
        eapply rtc_l; [exact Hstep|]. apply rtc_once. unfold stepr.
        rewrite (step_mk _ _ _ Hs2). unfold ci. rewrite (exec_check_defined_ok _ _ _ _ n v); try done.
        by apply list_lookup_insert_eq.
    + destruct (dollar n).
      * eexists _, _. split; [done|]. by eapply step_raise.
      * apply seg_one in Hs2. pose proof (step_write _ _ _ _ _ Hs1 Hslot Hx) as Hstep.
        eexists _, _. split; [by apply rtc_once|]. eapply step_raise; [done|].
        apply exec_check_defined; try done. by apply list_lookup_insert_eq.
Qed.

(** ** Every expression of the fragment *)

Lemma no_interp v : has_interp v = false -> has_sub (lit "{$") v = false.
Proof.
  unfold has_sub. intros H. destruct (find_str (lit "{$") v) as [i|] eqn:E; [|done].
  apply find_str_Some in E as (s1 & s2 & -> & _). exfalso. revert H.
  induction s1 as [|c s1 IH]; [done|]. cbn [app has_interp].
  destruct (s1 ++ lit "{$" ++ s2) eqn:E; [by destruct s1|].
  intros [_ H]%orb_false_iff. by apply IH.
Qed.

Lemma pool_one v : pool_in U [v] -> v ∈ U.
Proof. intros H. apply H. by left. Qed.

Lemma compile_correct e b :
  frag b e = true -> correct b (den L depth en (arrays vm0) e) (vars e) (pool e) (compile_expr e).
Proof.
  revert b.
  induction e as [v raw|v|d|t| |els|ps|ps dfs cps va body|n|o IHo i IHi|o x IHx pre|l IHl o r IHr
    |n o ob ix v IHv|c IHc args|c IHc t IHt f' IHf|m n| |o IHo fld|n fs];
    intros b H; try discriminate.
  - cbn [frag] in H. intros s dest r s' Hst Hc.
    apply (correct_literal b (STRING v) [] [STRING v] ltac:(apply pool_one) s dest r s' Hst).
    cbn [compile_expr] in Hc. apply bind_Ret in Hc as (r0 & s1 & H1 & Hc). apply bind_Ret.
    exists r0, s1. split; [done|]. destruct raw; [done|]. cbn [orb negb andb] in *.
    apply negb_true_iff, no_interp in H. by rewrite H in Hc.
  - apply (correct_literal b (INT v) [] [INT v] ltac:(apply pool_one)).
  - apply (correct_literal b (FLOAT d) [] [FLOAT d] ltac:(apply pool_one)).
  - by apply (correct_literal b (BOOL t) [] []).
  - by apply (correct_literal b NONE [] []).
  - by apply correct_variable.
  - cbn [frag] in H. cbn [den vars pool].
    assert (Ho : exists opc bx, ((o = lit "-" /\ opc = UNM /\ bx = false) \/
       (o = lit "!" /\ opc = NOT /\ bx = true) \/ (o = lit "~" /\ opc = BNOT /\ bx = false)) /\
       frag bx x = true).
    { destruct (bytes_eqb_spec o (lit "!")) as [->|]; [eexists _, true; naive_solver|].
      apply andb_true_iff in H as [H Hx]. apply orb_true_iff in H as [H|H];
        apply bytes_eqb_eq in H as ->; eexists _, false; naive_solver. }
    destruct Ho as (opc & bx & Ho & Hx).
    intros s dest r s' Hst Hc.
    apply (correct_unary b bx _ _ _ o opc (compile_expr x) Ho (IHx bx Hx) s dest r s' Hst).
    cbn [compile_expr] in Hc. by destruct Ho as [(-> & _)|[(-> & _)|(-> & _)]].
  - cbn [frag] in H. cbn [den vars pool]. change (compile_expr (BinaryExpression l o r))
      with (compile_binary o (compile_expr l) (compile_expr r)).
    destruct ((o =s lit "&&") || (o =s lit "||")) eqn:El.
    + apply orb_true_iff in El as El'. rewrite !bytes_eqb_eq in El'. bool_to_prop. destruct b; [|done].
      assert (Hc : correct true (logical_value (o =s lit "&&") (arrays vm0)
          (den L depth en (arrays vm0) l) (den L depth en (arrays vm0) r))
          (vars l ++ vars r) (pool l ++ pool r) (compile_logical o (compile_expr l) (compile_expr r)))
        by (apply correct_logical; auto).
      unfold compile_binary. rewrite El.
      replace (if o =s lit "&&" then _ else _) with (logical_value (o =s lit "&&") (arrays vm0)
          (den L depth en (arrays vm0) l) (den L depth en (arrays vm0) r)); [exact Hc|].
      unfold logical_value. destruct El' as [-> | ->]; cbn;
        destruct (den L depth en (arrays vm0) l) as [v| |]; cbn; try done;
        by destruct (is_truthy (arrays vm0) v).
    + unfold compile_binary. rewrite El. apply orb_false_iff in El as [E1 E2]. rewrite E1, E2.
      destruct (o =s lit "??") eqn:E3.
      * apply andb_true_iff in H as [H1 H2]. apply correct_coalesce; auto.
      * bool_to_prop. destruct (OPS o) as [opc|] eqn:Eo; [|done].
        pose proof (correct_binop b (den L depth en (arrays vm0) l) (den L depth en (arrays vm0) r)
          (vars l) (vars r) (pool l) (pool r) o opc (compile_expr l) (compile_expr r)) as Hb.
        unfold compile_binary in Hb. rewrite !(proj2 (bytes_eqb_neq _ _)) in Hb by done.
        rewrite Eo in Hb. apply Hb; auto.
  - cbn [frag] in H. bool_to_prop. cbn [den vars pool]. apply correct_ternary; auto.
Qed.

(** ** The contract of the compiler *)

Lemma seg_prefix (l ins : list Instruction) :
  (l ++ ins) `prefix_of` code (f_proto f) -> seg (length l) ins.
Proof.
  intros Hp i x Hi. unfold instr_at. eapply prefix_lookup_Some; [|exact Hp].
  rewrite lookup_app_r by lia. by replace (length l + i - length l)%nat with i by lia.
Qed.

(** What runs the code an expression was compiled to: the function that runs
    holds it and its constants, has its registers, and has the values of the
    names where the compiler resolved them. *)
Record loaded (s s' : FunctionCompiler) (rs : list Value) (ns : list bytes) : Prop := {
  ld_code : code_ s' `prefix_of` code (f_proto f);
  ld_consts : constants_ s' `prefix_of` constants (f_proto f);
  ld_room : room s' rs;
  ld_env : env_ok s rs ns
}.

Lemma compiled_runs e b s dest r s' rs st :
  frag b e = true -> start s (vars e) (pool e) dest -> compile_expr e dest s = Ret (r, s') ->
  loaded s s' rs (vars e) -> env st = en -> heap_ st = arrays vm0 ->
  match evaluate_expression L depth e st with
  | EOk v st' =>
      st' = st /\ exists rs' w,
      rtc stepr (mk rs (length (code_ s))) (mk rs' (length (code_ s'))) /\
      length rs' = length rs /\ rs' !! slot r = Some w /\ same b w v /\
      (forall q, live (regs_ s) q -> q <> dest -> rs' !! slot q = rs !! slot q)
  | EErr m st' => st' = st /\ fails rs (length (code_ s)) m
  | EUndef => True
  | EExternal => False
  end.
Proof.
  intros Hf Hst Hc [Hcode Hconst Hroom Henv] He Hh.
  destruct (compile_correct e b Hf s dest r s' Hst Hc)
    as (ins & cs & Ec & _ & _ & _ & _ & _ & Hrun).
  rewrite (evaluate_den L depth e b st Hf), He, Hh. rewrite Ec in Hcode.
  specialize (Hrun rs Hroom Henv (seg_prefix _ _ Hcode) Hconst).
  destruct (den L depth en (arrays vm0) e); cbn [of_den];
    [split; [done|exact Hrun]..|done].
Qed.

(** C2: the machine implements the language for the expressions of [frag]:
    literals, variables, the operators but .. and those that assign, ternaries
    and ??, with && and || only where a truth is used, and constants that are
    the same when == says so; where C++ leaves what the interpreter does
    undefined nothing is said. The instructions the compiler emits for such an
    expression, executed from any state that holds them, reach the end of that
    code with the value the interpreter computes in the register the compiler
    named (its truth, where only that is used), or fail with the interpreter's
    message; no register in use but the destination has changed, and the
    interpreter has no effect either. *)
Theorem vm_refines_interpreter e b s dest r s' rs st :
  frag b e = true -> start s (vars e) (pool e) dest ->
  compile_expr e dest s = Ret (r, s') ->
  loaded s s' rs (vars e) -> env st = en -> heap_ st = arrays vm0 ->
  match evaluate_expression L depth e st with
  | EOk v st' =>
      st' = st /\ exists rs' w,
      rtc stepr (mk rs (length (code_ s))) (mk rs' (length (code_ s'))) /\
      length rs' = length rs /\ rs' !! slot r = Some w /\ same b w v /\
      (forall q, live (regs_ s) q -> q <> dest -> rs' !! slot q = rs !! slot q)
  | EErr m st' => st' = st /\ fails rs (length (code_ s)) m
  | EUndef => True
  | EExternal => False
  end.
Proof. apply compiled_runs. Qed.

(** ** Runs *)

Lemma run_steps vm vm' x fuel :
  rtc stepr vm vm' -> Vm.run L depth false fuel vm' = Some x ->
  exists fuel', Vm.run L depth false fuel' vm = Some x.
Proof.
  intros H Hr. induction H as [|vm vm1 vm2 Hs _ IH]; [by exists fuel|].
  destruct (IH Hr) as [k Hk]. exists (S k). cbn [Vm.run]. unfold stepr in Hs. by rewrite Hs.
Qed.

Lemma run_fails rs k m :
  (length (try_stack vm0) <= try_floor vm0)%nat -> fails rs k m ->
  exists fuel rs' k', Vm.run L depth false fuel (mk rs k) = Some (XErr m (mk rs' k')).
Proof.
  intros Ht (rs' & k' & Hs & He).
  assert (Hx : Vm.run L depth false 1 (mk rs' k') = Some (XErr m (mk rs' (S k')))).
  { cbn [Vm.run]. rewrite He. unfold raised, to_handler. cbn [try_stack try_floor mk set_stack set_regs].
    by rewrite (proj2 (Nat.leb_le _ _) Ht). }
  destruct (run_steps _ _ _ _ Hs Hx) as [fuel Hf]. by eexists _, _, _.
Qed.

Lemma run_return rs k r w :
  ret_reg f < 0 -> instr_at k (mkI RETURN r 0 0) -> rs !! slot r = Some w ->
  exists vm', Vm.run L depth false 1 (mk rs k) = Some (XReturn w vm').
Proof.
  intros Hret Hi Hw. cbn [Vm.run]. rewrite (step_mk _ _ _ Hi). cbn [exec op a].
  rewrite reg_mk, Hw. unfold do_return. cbn [call_stack mk set_stack set_regs List.tl ret_reg set_ip].
  rewrite (proj2 (Z.ltb_lt _ _) Hret). destruct tl; by eexists.
Qed.

Lemma return_others e s s' :
  frag false e = true -> start s (vars e) (pool e) 255 ->
  compile_return (Some e) s = Ret (tt, s') -> others s s'.
Proof.
  intros Hf Hst Hc. apply bind_Ret in Hc as (r & s1 & Hc & H).
  apply bind_Ret in H as (? & s2 & (_ & _ & _ & _ & H2)%emit_Ret & (_ & _ & H3 & _)%free_temp_Ret).
  destruct (compile_correct e false Hf s 255 r s1 Hst Hc) as (_ & _ & _ & _ & _ & H1 & _).
  eauto using others_trans.
Qed.

(** A [return] of an expression ends the run. *)
Lemma return_runs e s s' rs st :
  frag false e = true -> start s (vars e) (pool e) 255 ->
  compile_return (Some e) s = Ret (tt, s') -> loaded s s' rs (vars e) ->
  env st = en -> heap_ st = arrays vm0 ->
  ret_reg f < 0 -> (length (try_stack vm0) <= try_floor vm0)%nat ->
  match evaluate_expression L depth e st with
  | EOk v _ =>
      exists fuel vm', Vm.run L depth false fuel (mk rs (length (code_ s))) = Some (XReturn v vm')
  | EErr m _ =>
      exists fuel vm', Vm.run L depth false fuel (mk rs (length (code_ s))) = Some (XErr m vm')
  | EUndef => True
  | EExternal => False
  end.
Proof.
  intros Hf Hst Hc [Hcode Hconst Hroom Henv] He Hh Hret Htry. unfold compile_return in Hc.
  apply bind_Ret in Hc as (r & s1 & Hc & H). apply bind_Ret in H as (? & s2 & Hem & Hfr).
  apply emit_Ret in Hem as (_ & Hc2 & Hk2 & Hg2 & _).
  apply free_temp_Ret in Hfr as (Hc3 & Hk3 & _ & Hg3).
  destruct (compile_correct e false Hf s 255 r s1 Hst Hc) as (_ & _ & _ & _ & _ & _ & Hx & Hr & _).
  assert (Hl : live (regs_ s1) r)
    by (apply (result_live (regs_ s) _ 255); [by destruct Hst|by left|done]).
  destruct (free_spec (regs_ s1) r) as (_ & _ & _ & Hm & _); [by eapply ra_ext_ok|by apply Hl|].
  rewrite Hc3, Hc2 in Hcode. rewrite Hk3, Hk2 in Hconst.
  assert (Hld : loaded s s1 rs (vars e)).
  { split; [by eapply prefix_app_mono|done| |done]. unfold room in *. rewrite Hg3, Hg2, Hm in Hroom.
    done. }
  apply seg_prefix, seg_one in Hcode.
  pose proof (compiled_runs e false s 255 r s1 rs st Hf Hst Hc Hld He Hh) as Hrun.
  destruct (evaluate_expression L depth e st) as [v st'|m st'| |]; [| |done|done].
  - destruct Hrun as (_ & rs' & w & Hs & _ & Hw & <- & _).
    destruct (run_return rs' (length (code_ s1)) r w Hret Hcode Hw) as [vm' Hvm].
    destruct (run_steps _ _ _ _ Hs Hvm) as [fuel Hfu]. by exists fuel, vm'.
  - destruct Hrun as [_ Hfl]. destruct (run_fails _ _ _ Htry Hfl) as (fuel & rs' & k' & Hfu).
    by exists fuel, (mk rs' k').
Qed.
End Machine.

(** * A whole program *)

Lemma push_scope_Ret s s' :
  push_scope s = Ret (tt, s') ->
  code_ s' = code_ s /\ constants_ s' = constants_ s /\ regs_ s' = regs_ s /\ others s s'.
Proof. unfold push_scope. intros [= <-]. by repeat split. Qed.

Lemma pop_scope_Ret s s' :
  locals_ s = [] -> pop_scope s = Ret (tt, s') ->
  code_ s' = code_ s /\ constants_ s' = constants_ s /\ regs_ s' = regs_ s.
Proof. unfold pop_scope. intros ->. cbn [pop_locals]. intros [= <-]. done. Qed.

(** The interpreter's environment at the top level is the global scope. *)
Definition global_env (g : gmap bytes Value) : Env := [MkScope g false].

Definition main_compiler : FunctionCompiler :=
  MkFC [] [] [] (new_allocator 0 (lit "<main>")) [] 0 0 [] ∅ ∅ ∅ false false 0 None.

(** The state a program's statements are compiled from. *)
Definition at_main (s : FunctionCompiler) : Prop :=
  code_ s = [] /\ constants_ s = [] /\ regs_ s = new_allocator 0 (lit "<main>") /\
  others main_compiler s.

Lemma at_main_start U e s :
  at_main s -> (forall v, v ∈ pool e -> v ∈ U) -> start U s (vars e) (pool e) 255.
Proof.
  intros (_ & Hk & Hg & Hl & Hc & _ & Hp & Hcc) HU. split; try done.
  - rewrite Hg. by apply new_allocator_ok.
  - by left.
  - intros n _. right. unfold name_at.
    destruct s as [c1 l1 k1 r1 lo1 sd1 ld1 ca1 bn1 bs1 og1 nd1 cc1 cl1 p1].
    cbn in Hl, Hc, Hp. by rewrite Hl, Hc, Hp.
  - rewrite Hk. by intros ? ?%not_elem_of_nil.
Qed.

Lemma compile_return_program_Ret e p :
  (forall s s', at_main s -> compile_return (Some e) s = Ret (tt, s') -> others s s') ->
  compile_return_program e = Ret p ->
  exists s1 s2, at_main s1 /\ compile_return (Some e) s1 = Ret (tt, s2) /\
    code_ s2 `prefix_of` code p /\ constants_ s2 = constants p /\ max (regs_ s2) = reg_count p.
Proof.
  intros Hsame. unfold compile_return_program.
  change (new_compiler (lit "<main>") [] None) with (Ret main_compiler). cbv beta iota.
  destruct (compile_stmts _ _ main_compiler) as [[p' s4]| |] eqn:Hc; [|done|done]. intros [= ->].
  unfold compile_stmts in Hc. apply bind_Ret in Hc as ([] & s1 & H1 & Hc).
  apply push_scope_Ret in H1 as (Hc1 & Hk1 & Hg1 & Ho1).
  apply bind_Ret in Hc as ([] & s2 & Hb & Hc). apply bind_Ret in Hc as ([] & s3 & Hpop & Hc).
  apply bind_Ret in Hc as (? & s5 & Hem & [= <- ->]).
  apply emit_Ret in Hem as (_ & Hc4 & Hk4 & Hg4 & _).
  assert (Hm : at_main s1) by (split; [done|]; split; [done|]; by split).
  assert (Hl : locals_ s2 = []).
  { destruct (Hsame s1 s2 Hm Hb) as (-> & _). by destruct Ho1 as (-> & _). }
  apply pop_scope_Ret in Hpop as (Hc3 & Hk3 & Hg3); [|done].
  exists s1, s2. split; [done|]. split; [done|]. cbn [code constants reg_count].
  rewrite Hc4, Hk4, Hg4, Hc3, Hk3, Hg3. split; [by apply prefix_app_r|done].
Qed.

(** A program [return e;] runs to its end in both engines with the same
    outcome: once it compiles, enough turns of the dispatch loop of a VM
    return the interpreter's value, or end with the interpreter's message,
    whatever handlers, frames and registers the VM already has. *)
Theorem engines_agree_on_return L depth e vm p :
  frag false e = true -> no_clash (pool e) -> compile_return_program e = Ret p ->
  match evaluate_expression L depth e (MkSt (global_env (globals vm)) (arrays vm)) with
  | EOk v _ => exists fuel vm', Vm.run L depth false fuel (execute vm p) = Some (XReturn v vm')
  | EErr m _ => exists fuel vm', Vm.run L depth false fuel (execute vm p) = Some (XErr m vm')
  | EUndef => True
  | EExternal => False
  end.
Proof.
  intros Hf HU Hp. set (g := global_env (globals vm)).
  set (f := MkFrame p (MkClosure p []) 0 (length (regs vm)) (-1) 0).
  set (vm0 := execute vm p).
  destruct (compile_return_program_Ret e p) as (s1 & s2 & Hm & Hc & Hcode & Hk & Hr); [|done|].
  { intros s s' Hs. apply (return_others L depth vm0 f [] g (pool e) HU e); [done|].
    by apply at_main_start. }
  assert (Hst : start (pool e) s1 (vars e) (pool e) 255) by by apply at_main_start.
  pose proof Hm as (Hc1 & _ & _ & Hl1 & Hcp1 & _ & Hp1 & _).
  assert (Hld : loaded vm0 f g s1 s2 (regs vm0) (vars e)).
  { split; [done|by rewrite Hk| |].
    - unfold room. cbn. rewrite length_app, length_replicate, Hr. done.
    - intros n _. split; [|by cbn; intros _; destruct (globals vm !! n)].
      intros q Hq. unfold name_at in Hq.
      destruct s1 as [c1 l1 k1 r1 lo1 sd1 ld1 ca1 bn1 bs1 og1 nd1 cc1 cl1 p1].
      cbn in Hl1, Hcp1, Hp1. subst. done. }
  pose proof (return_runs L depth vm0 f (call_stack vm) g (pool e) HU e s1 s2 (regs vm0)
    (MkSt g (arrays vm)) Hf Hst Hc Hld eq_refl eq_refl ltac:(done) ltac:(done)) as H.
  rewrite Hc1 in H. exact H.
Qed.

Lemma engines_agree_on_return_witness :
  let L := MkLib (fun _ => []) (fun d _ => d) in
  let e := TernaryExpression (BinaryExpression (Variable_ (lit "$x")) (lit "<") (NumberLiteral 10))
             (StringLiteral (lit "low") true)
             (BinaryExpression (Variable_ (lit "$x")) (lit "+") (NumberLiteral 300)) in
  let vm := MkVM [] [] [] 0 NONE {[ lit "$x" := INT 42 ]} ∅ ∅ in
  exists p fuel vm', compile_return_program e = Ret p /\
    Vm.run L 5 false fuel (execute vm p) = Some (XReturn (INT 342) vm').
Proof.
  intros L e vm. destruct (compile_return_program e) as [p| |] eqn:Hp;
    [|by vm_compute in Hp|by vm_compute in Hp].
  assert (HU : no_clash (pool e)).
  { intros v w Hv Hw Hvw. cbn in Hv, Hw. rewrite !elem_of_cons, elem_of_nil in Hv, Hw.
    destruct_or! Hv; destruct_or! Hw; subst; first [done|by vm_compute in Hvw]. }
  pose proof (engines_agree_on_return L 5 e vm p eq_refl HU Hp) as H.
  assert (He : evaluate_expression L 5 e (MkSt (global_env (globals vm)) (arrays vm)) =
               EOk (INT 342) (MkSt (global_env (globals vm)) (arrays vm)))
    by (vm_compute; reflexivity).
  rewrite He in H. destruct H as (fuel & vm' & H). exists p, fuel, vm'. split; [reflexivity|exact H].
Defined.

(** An expression compiled from [main_compiler], and a frame that runs it. *)
Definition sample : Expression :=
  BinaryExpression (Variable_ (lit "$x")) (lit "+") (NumberLiteral 300).
Definition sample_out : Z * FunctionCompiler :=
  match compile_expr sample 255 main_compiler with Ret x => x | _ => (0, main_compiler) end.
Definition sample_frame : Frame :=
  let s := sample_out.2 in
  let p := MkProto (lit "<main>") 0 false (max (regs_ s)) (constants_ s) (code_ s) [] [] [] [] in
  MkFrame p (MkClosure p []) 0 0 (-1) 0.
Definition sample_vm : VM := MkVM [] [] [] 0 NONE {[ lit "$x" := INT 42 ]} ∅ ∅.

Lemma sample_no_clash : no_clash (pool sample).
Proof.
  intros v w Hv Hw Hvw. cbn in Hv, Hw. rewrite !elem_of_cons, elem_of_nil in Hv, Hw.
  destruct_or! Hv; destruct_or! Hw; subst; first [done|by vm_compute in Hvw].
Qed.

Lemma vm_refines_interpreter_witness :
  let L := MkLib (fun _ => []) (fun d _ => d) in
  let rs := replicate 3 NONE in
  exists rs' w,
    rtc (stepr L 5) (mk sample_vm sample_frame [] rs 0)
      (mk sample_vm sample_frame [] rs' (length (code_ sample_out.2))) /\
    rs' !! Z.to_nat sample_out.1 = Some w /\ w = INT 342.
Proof.
  intros L rs. set (st := MkSt (global_env (globals sample_vm)) ∅).
  assert (Hc : compile_expr sample 255 main_compiler = Ret (sample_out.1, sample_out.2))
    by (vm_compute; reflexivity).
  assert (Hm : at_main main_compiler) by (by repeat split).
  assert (Hld : loaded sample_vm sample_frame (env st) main_compiler sample_out.2 rs (vars sample)).
  { split; [done|done|vm_compute; lia|]. intros n _. split; [by intros q Hq|].
    intros _. cbn. by destruct (_ !! n). }
  pose proof (vm_refines_interpreter L 5 sample_vm sample_frame [] (env st) (pool sample)
    sample_no_clash sample false main_compiler 255 sample_out.1 sample_out.2 rs st eq_refl
    (at_main_start _ _ _ Hm ltac:(done)) Hc Hld eq_refl eq_refl) as H.
  assert (He : evaluate_expression L 5 sample st = EOk (INT 342) st) by (vm_compute; reflexivity).
  rewrite He in H. destruct H as (_ & rs' & w & Hs & _ & Hw & Hsame & _). exists rs', w.
  split; [exact Hs|]. split; [exact Hw|exact Hsame].
Defined.
End Engine.
