(* ===== verification/CompilerStmt.v ===== *)
(** The bytecode compiler of cpp/src/compiler.cpp, for statements: blocks,
    conditionals, the loops with their patches, [switch], [try] with the
    pending [finally] blocks, [const] blocks, and the compilation of a program.

    Function declarations and [use] are not translated ([unmodelled_stmt]). *)

From S2P Require Import Prelude CNum Value Bytecode Ast Compiler.
#[local] Open Scope Z_scope.

Module CompilerStmt.
Import CNum Value Bytecode Ast Compiler.

(** * State

    [loop_stack_] has its [back()] at the head. *)
Record LoopContext := MkLoop {
  break_patches : list Z;
  continue_patches : list Z;
  continue_target : Z;
  is_switch : bool;
  finally_floor : nat
}.
Record SC := MkSC { fc : FunctionCompiler; loop_stack_ : list LoopContext }.

Definition MS (A : Type) : Type := SC -> res (A * SC).
Definition sret {A} (x : A) : MS A := fun s => Ret (x, s).
Definition sbind {A B} (m : MS A) (k : A -> MS B) : MS B := fun s =>
  match m s with Ret (x, s') => k x s' | Exn e => Exn e | Undef => Undef end.
Definition sthrow {A} (m : bytes) : MS A := fun _ => Exn m.
Definition unmodelled_stmt {A} : MS A := fun _ => Undef.
(** A method that does not touch the loops. *)
Definition up {A} (m : M A) : MS A := fun s =>
  match m (fc s) with
  | Ret (x, f) => Ret (x, MkSC f (loop_stack_ s))
  | Exn e => Exn e
  | Undef => Undef
  end.

Notation "'sdo' x <- m ; k" := (sbind m (fun x => k))
  (at level 200, x pattern, m at level 100, k at level 200, right associativity) : look_scope.
Notation "'srun' m ; k" := (sbind m (fun _ => k))
  (at level 200, m at level 100, k at level 200, right associativity) : look_scope.

Definition with_loops (f : list LoopContext -> list LoopContext) : MS unit := fun s =>
  Ret (tt, MkSC (fc s) (f (loop_stack_ s))).
Definition push_loop (l : LoopContext) : MS unit := with_loops (cons l).
(** [ctx = loop_stack_.back(); loop_stack_.pop_back();] *)
Definition pop_loop : MS LoopContext := fun s =>
  match loop_stack_ s with
  | l :: ls => Ret (l, MkSC (fc s) ls)
  | [] => Undef
  end.
Definition add_depth (d : Z) : MS unit := fun s =>
  let f := fc s in
  Ret (tt, MkSC (MkFC (code_ f) (lines_ f) (constants_ f) (regs_ f) (locals_ f) (scope_depth_ f)
       (loop_depth_ f + d) (captures_ f) (boxed_names_ f) (boxed_slots_ f) (outer_globals_ f)
       (no_discovery_ f) (callee_ctx_ f) (cur_line_ f) (parent_ f)) (loop_stack_ s)).

(** [for (int p : ps) patch_jump(p, t);] *)
Fixpoint patch_all (ps : list Z) (t : Z) : MS unit :=
  match ps with
  | [] => sret tt
  | p :: ps => srun up (patch_jump p t); patch_all ps t
  end.

(** A jump to a known place. *)
Definition jump_back (t : Z) : MS unit := srun up (emit_wide JUMP 0 t); sret tt.

(** * Pending [finally] blocks

    [pending_finally_] only grows around the blocks of a [try] statement, so it
    is an argument: the list of what compiles each block, outermost first. A
    block is compiled with the blocks below [floor] alone pending. *)
Definition pending := list (nat -> MS unit).

Fixpoint run_all (l : list (MS unit)) : MS unit :=
  match l with [] => sret tt | m :: l => srun m; run_all l end.
Definition emit_pending_finallys (pend : pending) (floor : nat) : MS unit :=
  run_all (map (fun act : nat -> MS unit => act floor) (rev (drop floor pend))).

(** * Statements *)

Definition compile_return_stmt (pend : pending) (e : option Expression) : MS unit :=
  match e with
  | None => srun emit_pending_finallys pend 0; srun up (emit RETURN_NULL 0 0 0); sret tt
  | Some x =>
      sdo r <- up (compile_expr x 255);
      srun emit_pending_finallys pend 0;
      srun up (emit RETURN r 0 0);
      up (free_temp r)
  end.

Definition compile_break (pend : pending) : MS unit := fun s =>
  match loop_stack_ s with
  | [] => Exn (lit "break outside a loop/switch")
  | l :: _ =>
      (srun emit_pending_finallys pend (finally_floor l);
       sdo p <- up (emit_jump JUMP 0);
       with_loops (fun ls => match ls with
         | l :: ls => MkLoop (break_patches l ++ [p]) (continue_patches l) (continue_target l)
                        (is_switch l) (finally_floor l) :: ls
         | [] => []
         end)) s
  end.

(** The nearest loop that is no switch. *)
Fixpoint nearest_loop (ls : list LoopContext) : option LoopContext :=
  match ls with
  | [] => None
  | l :: ls => if is_switch l then nearest_loop ls else Some l
  end.
Fixpoint add_continue (p : Z) (ls : list LoopContext) : list LoopContext :=
  match ls with
  | [] => []
  | l :: ls =>
      if is_switch l then l :: add_continue p ls
      else MkLoop (break_patches l) (continue_patches l ++ [p]) (continue_target l) (is_switch l)
             (finally_floor l) :: ls
  end.

Definition compile_continue (pend : pending) : MS unit := fun s =>
  match nearest_loop (loop_stack_ s) with
  | None => Exn (lit "continue outside a loop")
  | Some l =>
      (srun emit_pending_finallys pend (finally_floor l);
       if 0 <=? continue_target l then jump_back (continue_target l)
       else sdo p <- up (emit_jump JUMP 0); with_loops (add_continue p)) s
  end.

(** [compile_block()] around the statements [body] compiles. *)
Definition compile_block (body : MS unit) : MS unit :=
  srun up push_scope; srun body; up pop_scope.

Definition compile_if (c : Expression) (ct : MS unit) (ce : option (MS unit)) : MS unit :=
  sdo cond <- up (compile_expr c 255);
  sdo jump_false <- up (emit_jump JUMP_IF_FALSE cond);
  srun up (free_temp cond);
  srun ct;
  match ce with
  | Some ce =>
      sdo jump_end <- up (emit_jump JUMP 0);
      sdo here <- up current_ip;
      srun up (patch_jump jump_false here);
      srun ce;
      sdo here <- up current_ip;
      up (patch_jump jump_end here)
  | None => sdo here <- up current_ip; up (patch_jump jump_false here)
  end.

(** The body of a loop in its context; its patches. *)
Definition loop_body (target : Z) (pend : pending) (body : MS unit) : MS LoopContext :=
  srun push_loop (MkLoop [] [] target false (length pend));
  srun add_depth 1;
  srun body;
  srun add_depth (-1);
  pop_loop.

Definition compile_while (pend : pending) (c : Expression) (body : MS unit) : MS unit :=
  sdo loop_start <- up current_ip;
  sdo cond <- up (compile_expr c 255);
  sdo exit_jump <- up (emit_jump JUMP_IF_FALSE cond);
  srun up (free_temp cond);
  sdo ctx <- loop_body loop_start pend body;
  srun patch_all (continue_patches ctx) loop_start;
  srun jump_back loop_start;
  sdo after <- up current_ip;
  srun up (patch_jump exit_jump after);
  patch_all (break_patches ctx) after.

Definition compile_for (pend : pending) (init : option (MS unit)) (c post : option Expression)
    (body : MS unit) : MS unit :=
  srun up push_scope;
  srun (match init with Some i => i | None => sret tt end);
  sdo loop_start <- up current_ip;
  sdo exit_jump <- (match c with
    | Some c =>
        sdo cond <- up (compile_expr c 255);
        sdo j <- up (emit_jump JUMP_IF_FALSE cond);
        srun up (free_temp cond);
        sret (Some j)
    | None => sret None
    end);
  sdo ctx <- loop_body (-1) pend body;
  sdo post_ip <- up current_ip;
  srun (match post with
    | Some e => sdo r <- up (compile_expr e 255); up (free_temp r)
    | None => sret tt
    end);
  srun patch_all (continue_patches ctx) post_ip;
  srun jump_back loop_start;
  sdo after <- up current_ip;
  srun (match exit_jump with Some j => up (patch_jump j after) | None => sret tt end);
  srun patch_all (break_patches ctx) after;
  up pop_scope.

(** ** [foreach] *)

Definition alloc_seq_m (n : Z) : M Z := fun s =>
  match alloc_seq (regs_ s) n with
  | Ret (r, ra) => Ret (r, with_regs s ra)
  | Exn e => Exn e
  | Undef => Undef
  end.
Definition release_seq_m (r n : Z) : M unit := fun s =>
  Ret (tt, with_regs s (release_seq (regs_ s) r n)).
(** [locals_.push_back({name, reg, scope_depth_})] *)
Definition add_local (n : bytes) (r : Z) : M unit := fun s =>
  Ret (tt, with_scope s (MkLocal n r (scope_depth_ s) :: locals_ s) (scope_depth_ s) (boxed_slots_ s)).

(** A loop variable: a cell of its own if a closure takes it, else the register
    of FOR_STEP. The result is the cell. *)
Definition loop_var (n : bytes) (r : Z) : M (option Z) :=
  do boxed <- get boxed_names_;
  match n with
  | [] => ret None
  | _ =>
      if bool_decide (n ∈ boxed) then do cell <- declare_local n; ret (Some cell)
      else run add_local n r; ret None
  end.
Definition fill_cell (cell : option Z) (r : Z) : M unit :=
  match cell with
  | Some c => run emit NEW_ARRAY c 1 0; run emit ARRAY_PUSH c r 0; ret tt
  | None => ret tt
  end.
(** The two operand bytes of FOR_STEP, written without the check of
    [patch_jump]; [hi8] checks the range. *)
Definition patch_step (step_ip after : Z) : M unit :=
  do h <- of_res (hi8 after);
  do l <- of_res (lo8 after);
  fun s =>
    match code_ s !! Z.to_nat step_ip with
    | Some i => Ret (tt, with_code s (<[Z.to_nat step_ip := mkI (op i) (a i) h l]> (code_ s)) (lines_ s))
    | None => Undef
    end.

Definition compile_foreach (pend : pending) (iter : Expression) (key_var value_var : bytes)
    (body : MS unit) : MS unit :=
  srun up push_scope;
  sdo r_arr <- up (compile_expr iter 255);
  sdo r_iter <- up (alloc_seq_m 4);
  srun up (emit FOR_PREP r_iter r_arr 0);
  srun up (free_temp r_arr);
  let r_val := r_iter + 2 in
  let r_key := r_iter + 3 in
  sdo val_cell <- up (loop_var value_var r_val);
  sdo key_cell <- up (loop_var key_var r_key);
  sdo loop_start <- up current_ip;
  sdo step_ip <- up (emit FOR_STEP r_iter 0 0);
  srun up (fill_cell val_cell r_val);
  srun up (fill_cell key_cell r_key);
  sdo ctx <- loop_body loop_start pend body;
  srun patch_all (continue_patches ctx) loop_start;
  srun jump_back loop_start;
  sdo after <- up current_ip;
  srun up (patch_step step_ip after);
  srun patch_all (break_patches ctx) after;
  srun up (release_seq_m r_iter 4);
  up pop_scope.

(** ** [switch] *)

(** The tests of one case: the jumps to its body. *)
Fixpoint case_tests (subj : Z) (vs : list Expression) : MS (list Z) :=
  match vs with
  | [] => sret []
  | v :: vs =>
      sdo r <- up (compile_expr v 255);
      sdo eq <- up alloc_temp;
      srun up (emit EQ eq subj r);
      srun up (free_temp r);
      sdo j <- up (emit_jump JUMP_IF_TRUE eq);
      srun up (free_temp eq);
      sdo js <- case_tests subj vs;
      sret (j :: js)
  end.
Fixpoint all_tests (subj : Z) (cases : list (list Expression)) : MS (list (list Z)) :=
  match cases with
  | [] => sret []
  | vs :: cases =>
      sdo js <- case_tests subj vs;
      sdo r <- all_tests subj cases;
      sret (js :: r)
  end.
(** The bodies; [no_match] jumps to the default case. The jumps to the end. *)
Fixpoint case_bodies (no_match : Z) (cases : list (list Expression * list Z * MS unit)) : MS (list Z) :=
  match cases with
  | [] => sret []
  | (vs, js, body) :: cases =>
      sdo body_ip <- up current_ip;
      srun (match vs with
            | [] => up (patch_jump no_match body_ip)
            | _ => patch_all js body_ip
            end);
      srun compile_block body;
      sdo e <- up (emit_jump JUMP 0);
      sdo es <- case_bodies no_match cases;
      sret (e :: es)
  end.

Definition compile_switch (pend : pending) (subject : Expression)
    (cases : list (list Expression * MS unit)) : MS unit :=
  sdo subj <- up (compile_expr subject 255);
  sdo entries <- all_tests subj (map fst cases);
  sdo no_match <- up (emit_jump JUMP 0);
  srun push_loop (MkLoop [] [] (-1) true (length pend));
  sdo end_jumps <- case_bodies no_match
    (zip_with (fun c js => (fst c, js, snd c)) cases entries);
  sdo ctx <- pop_loop;
  sdo after <- up current_ip;
  srun (if existsb (fun c => match fst c with [] => true | _ => false end) cases
        then sret tt else up (patch_jump no_match after));
  srun patch_all end_jumps after;
  srun patch_all (break_patches ctx) after;
  up (free_temp subj).

(** ** [try]

    The blocks as compilers, each from the blocks pending in it. *)
Definition compile_try (pend : pending) (ctry : pending -> MS unit) (catch_var : bytes)
    (ccatch cfin : option (pending -> MS unit)) : MS unit :=
  let inner := match cfin with
               | Some fin => pend ++ [fun floor => fin (take floor pend)]
               | None => pend
               end in
  let finally := match cfin with Some fin => fin pend | None => sret tt end in
  sdo try_push_ip <- up (emit TRY_PUSH 0 0 0);
  srun ctry inner;
  srun up (emit TRY_POP 0 0 0);
  sdo jump_end <- up (emit_jump JUMP 0);
  sdo catch_ip <- up current_ip;
  srun up (patch_jump try_push_ip catch_ip);
  match ccatch with
  | Some c =>
      srun up push_scope;
      srun up (match catch_var with
        | [] => ret tt
        | _ =>
            do e_reg <- declare_local catch_var;
            do boxed <- get boxed_slots_;
            if bool_decide (e_reg ∈ boxed) then
              do tmp <- alloc_temp;
              run emit LOAD_EXC tmp 0 0;
              run emit NEW_ARRAY e_reg 1 0;
              run emit ARRAY_PUSH e_reg tmp 0;
              free_temp tmp
            else run emit LOAD_EXC e_reg 0 0; ret tt
        end);
      srun c inner;
      srun up pop_scope;
      sdo after_catch <- up current_ip;
      srun up (patch_jump jump_end after_catch);
      finally
  | None =>
      sdo exc <- up alloc_temp;
      srun up (emit LOAD_EXC exc 0 0);
      srun finally;
      srun up (emit THROW exc 0 0);
      srun up (free_temp exc);
      sdo after <- up current_ip;
      srun up (patch_jump jump_end after);
      finally
  end.

(** ** Output, [const] and [struct] *)

Definition emit_literal (text : bytes) : M unit :=
  do r <- alloc_temp;
  run emit_load_const r (STRING text);
  run emit CALL_BUILTIN r 1 r;
  free_temp r.
Fixpoint emit_args (first : bool) (es : list Expression) : M unit :=
  match es with
  | [] => ret tt
  | e :: es =>
      run (if first then ret tt else emit_literal (lit " "));
      do r <- compile_expr e 255;
      run emit CALL_BUILTIN r 1 r;
      run free_temp r;
      emit_args false es
  end.
Definition emit_output_args (es : list Expression) (newline : bool) : M unit :=
  run emit_args true es;
  if newline then emit_literal [LF] else ret tt.

Definition store_const (n : bytes) (v : Value) : M unit :=
  do r <- alloc_temp;
  run emit_load_const r v;
  do ni <- add_const (STRING n);
  run emit_wide STORE_GLOBAL r ni;
  free_temp r.

(** [iota] is the number of items so far that had no value or [iota]. *)
Fixpoint compile_const_block (iota : Z) (items : list (bytes * option Expression)) : M unit :=
  match items with
  | [] => ret tt
  | (n, v) :: items =>
      match v with
      | None | Some IotaExpression => run store_const n (INT iota); compile_const_block (iota + 1) items
      | Some (NumberLiteral z) => run store_const n (INT z); compile_const_block iota items
      | Some (FloatLiteral d) => run store_const n (FLOAT d); compile_const_block iota items
      | Some (StringLiteral t _) => run store_const n (STRING t); compile_const_block iota items
      | Some (BooleanLiteral t) => run store_const n (BOOL t); compile_const_block iota items
      | Some e =>
          do r <- compile_expr e 255;
          do ni <- add_const (STRING n);
          run emit_wide STORE_GLOBAL r ni;
          run free_temp r;
          compile_const_block iota items
      end
  end.

Fixpoint struct_fields (arr : Z) (fields : list (bytes * option Expression)) : M unit :=
  match fields with
  | [] => ret tt
  | (n, d) :: fields =>
      do t <- alloc_temp;
      run emit_load_const t (STRING n);
      run emit ARRAY_PUSH arr t 0;
      run (match d with
           | Some e => do dv <- compile_expr e t; if dv =? t then ret 0 else emit MOVE t dv 0
           | None => emit LOAD_NULL t 0 0
           end);
      run emit ARRAY_PUSH arr t 0;
      run free_temp t;
      struct_fields arr fields
  end.
Definition compile_struct_decl (n : bytes) (fields : list (bytes * option Expression)) : M unit :=
  do arr <- alloc_temp;
  run emit NEW_ARRAY arr (hint_u8 (2 * Z.of_nat (length fields))) 0;
  run struct_fields arr fields;
  do gi <- add_const (STRING (lit "__sdef:" ++ n));
  run emit_wide STORE_GLOBAL arr gi;
  free_temp arr.

(** An assignment as a statement: nobody wants its value. *)
Definition compile_assign_expr (n o : bytes) (obj index : option Expression) (v : Expression) : M unit :=
  match index with
  | Some ix => compile_element_assign n o (compile_expr <$> obj) (compile_expr ix) (compile_expr v) (-1)
  | None => compile_name_assign n o (compile_expr v)
  end.

(** ** The dispatch *)

Fixpoint compile_stmt (s : Statement) (pend : pending) {struct s} : MS unit :=
  let stmts := fix stmts (l : list Statement) (pend : pending) {struct l} : MS unit :=
    match l with [] => sret tt | s :: l => srun compile_stmt s pend; stmts l pend end in
  let block (l : list Statement) (pend : pending) : MS unit := compile_block (stmts l pend) in
  match s with
  | ExpressionStatement (AssignmentExpression n o obj ix v) => up (compile_assign_expr n o obj ix v)
  | ExpressionStatement e => sdo r <- up (compile_expr e 255); up (free_temp r)
  | PrintStatement es => up (emit_output_args es true)
  | WriteStatement es => up (emit_output_args es false)
  | ReturnStatement e => compile_return_stmt pend e
  | ThrowStatement e =>
      sdo r <- up (compile_expr e 255);
      srun up (emit THROW r 0 0);
      up (free_temp r)
  | BreakStatement => compile_break pend
  | ContinueStatement => compile_continue pend
  | IfStatement c t e =>
      compile_if c (block t pend) (match e with Some e => Some (block e pend) | None => None end)
  | WhileStatement c b => compile_while pend c (block b pend)
  | ForStatement i c p b =>
      compile_for pend (match i with Some i => Some (compile_stmt i pend) | None => None end) c p
        (block b pend)
  | ForeachStatement it k v b => compile_foreach pend it k v (block b pend)
  | TryCatchStatement t v c f =>
      compile_try pend (block t) v
        (match c with Some c => Some (block c) | None => None end)
        (match f with Some f => Some (block f) | None => None end)
  | SwitchStatement e cases =>
      compile_switch pend e (map (fun '(vs, b) => (vs, stmts b pend)) cases)
  | ConstBlock items => up (compile_const_block 0 items)
  | StructDeclaration n fields => up (compile_struct_decl n fields)
  | BlockStatement l => block l pend
  | UseStatement _ _ | UseFileStatement _ | FunctionDeclaration _ _ _ _ _ => unmodelled_stmt
  end.

Fixpoint compile_all (l : list Statement) (pend : pending) : MS unit :=
  match l with [] => sret tt | s :: l => srun compile_stmt s pend; compile_all l pend end.

(** * Programs *)

Definition set_discovery (nd : bool) (boxed : gset bytes) (f : FunctionCompiler) : FunctionCompiler :=
  MkFC (code_ f) (lines_ f) (constants_ f) (regs_ f) (locals_ f) (scope_depth_ f) (loop_depth_ f)
    (captures_ f) boxed (boxed_slots_ f) (outer_globals_ f) nd (callee_ctx_ f) (cur_line_ f) (parent_ f).

(** One pass of [compile_stmts]. *)
Definition compile_pass (f : FunctionCompiler) (l : list Statement) : res FunctionProto :=
  match compile_block (compile_all l []) (MkSC f []) with
  | Ret (_, s) =>
      match emit RETURN_NULL 0 0 0 (fc s) with
      | Ret (_, f) => Ret (MkProto (lit "<main>") 0 false (max (regs_ f)) (constants_ f) (code_ f) []
                             (lines_ f) [] (map is_cell (captures_ f)))
      | Exn e => Exn e
      | Undef => Undef
      end
  | Exn e => Exn e
  | Undef => Undef
  end.

(** [Compiler::compile]: a discovery pass, whose code is thrown away, collects
    the names closures capture: none, since the translated statements have no
    closures. An exception of it is one of the compilation. *)
Definition compile_program (l : list Statement) : res FunctionProto :=
  match new_compiler (lit "<main>") [] None with
  | Ret f =>
      match compile_pass (set_discovery true ∅ f) l with
      | Ret _ => compile_pass f l
      | Exn e => Exn e
      | Undef => Undef
      end
  | Exn e => Exn e
  | Undef => Undef
  end.

End CompilerStmt.
