(* ===== verification/InterpStmt.v ===== *)
(** The statements of the tree-walking interpreter: [execute_statement] and
    [execute_block] of cpp/src/interpreter.cpp.

    The exceptions that move control (ReturnException, BreakException,
    ContinueException) and the errors are completions, with the state they leave.
    Declarations of functions and structs, and [use], are not translated. *)

From S2P Require Import Prelude CNum Value Ast Interp.
#[local] Open Scope Z_scope.

Module InterpStmt.
Import CNum Value Ast Interp.

(** * State and completions *)

(** The interpreter and what was written to [output_stream_]. *)
Record XS := MkXS { xst : St; out : bytes }.

Inductive completion :=
| ONormal
| OBreak
| OContinue
| OReturn (v : Value)
| OErr (msg : bytes)
| OThrow (v : Value).

(** [None] in place of a result: a loop has not ended within the fuel. *)
Inductive sres := SOut (o : completion) (x : XS) | SUndef | SExternal.
Definition Exec : Type := XS -> option sres.

Definition no_effect : Exec := fun x => Some (SOut ONormal x).
Definition leave (o : completion) : Exec := fun x => Some (SOut o x).
(** Normal ends go on, anything else leaves. *)
Definition andthen (m k : Exec) : Exec := fun x =>
  match m x with
  | Some (SOut ONormal x') => k x'
  | r => r
  end.
Notation "m ;; k" := (andthen m k) (at level 100, k at level 200, right associativity) : look_scope.

(** An expression, its value in [k]. *)
Definition eval {A} (m : E A) (k : A -> Exec) : Exec := fun x =>
  match m (xst x) with
  | EOk v st => k v (MkXS st (out x))
  | EErr e st => Some (SOut (OErr e) (MkXS st (out x)))
  | EUndef => Some SUndef
  | EExternal => Some SExternal
  end.

Definition write (t : bytes) : Exec := fun x => Some (SOut ONormal (MkXS (xst x) (out x ++ t))).
Definition with_env (f : Env -> Env) (x : XS) : XS :=
  MkXS (MkSt (f (env (xst x))) (heap_ (xst x))) (out x).
Definition truthy (x : XS) (v : Value) : bool := is_truthy (heap_ (xst x)) v.

(** * Scopes

    [current_ = prev], for a scope that is [n] scopes above the globals. *)
Definition restore (n : nat) : XS -> XS := with_env (fun en => drop (length en - n) en).
Definition open_scope (vars : gmap bytes Value) : XS -> XS := with_env (cons (MkScope vars false)).
Definition on_out (f : XS -> XS) (r : option sres) : option sres :=
  match r with Some (SOut o x) => Some (SOut o (f x)) | r => r end.

(** In a new scope, closed however the statements end. *)
Definition scoped (vars : gmap bytes Value) (m : Exec) : Exec := fun x =>
  on_out (restore (length (env (xst x)))) (m (open_scope vars x)).
Definition define_here (n : bytes) (v : Value) : XS -> XS := with_env (fun en => env_define en n v).

Section Exec.
Context (L : Lib) (depth : nat).

Definition eval_expr (e : Expression) (k : Value -> Exec) : Exec := eval (evaluate_expression L depth e) k.

(** [build_output]. *)
Fixpoint build_output (first : bool) (es : list Expression) (acc : bytes) (k : bytes -> Exec) : Exec :=
  match es with
  | [] => k acc
  | e :: es =>
      eval_expr e (fun v =>
      eval (let* h := eheap in eres (to_string L depth h v)) (fun t =>
      build_output false es ((if first then acc else acc ++ [SP]) ++ t) k))
  end.

(** ** Loops: each turn of the body uses fuel *)

(** What a turn of a loop makes of the end of its body. *)
Definition after_body (again : Exec) (r : option sres) : option sres :=
  match r with
  | Some (SOut ONormal x) | Some (SOut OContinue x) => again x
  | Some (SOut OBreak x) => Some (SOut ONormal x)
  | r => r
  end.

Fixpoint while_loop (fuel : nat) (c : Expression) (body : Exec) : Exec := fun x =>
  match fuel with
  | O => None
  | S fuel =>
      eval_expr c (fun v x =>
        if truthy x v then after_body (while_loop fuel c body) (body x)
        else Some (SOut ONormal x)) x
  end.

Fixpoint for_loop (fuel : nat) (c post : option Expression) (body : Exec) : Exec := fun x =>
  match fuel with
  | O => None
  | S fuel =>
      let turn (x : XS) := after_body
        (fun x => match post with
          | Some p => eval_expr p (fun _ => for_loop fuel c post body) x
          | None => for_loop fuel c post body x
          end) (body x) in
      match c with
      | Some c => eval_expr c (fun v x => if truthy x v then turn x else Some (SOut ONormal x)) x
      | None => turn x
      end
  end.

(** The scope of a [for] is left by its normal end only: another exit keeps
    [current_] until an enclosing block restores its own. *)
Definition for_scope (m : Exec) : Exec := fun x =>
  match m (open_scope ∅ x) with
  | Some (SOut ONormal y) => Some (SOut ONormal (restore (length (env (xst x))) y))
  | r => r
  end.

(** [foreach]: the array is read again on every turn, since the body may
    change it. *)
Fixpoint foreach_loop (fuel : nat) (l : loc) (idx : nat) (key_var value_var : bytes) (body : Exec)
    : Exec := fun x =>
  match fuel with
  | O => None
  | S fuel =>
      let vec := elems (heap_ (xst x)) l in
      match vec !! idx with
      | None => Some (SOut ONormal x)
      | Some v =>
          let key := match key_var with [] => ∅ | _ => {[ key_var := INT (Z.of_nat idx) ]} end in
          after_body (foreach_loop fuel l (S idx) key_var value_var body)
            (scoped (<[ value_var := v ]> key) body x)
      end
  end.
Fixpoint foreach_pairs (fuel : nat) (l : loc) (idx : nat) (key_var value_var : bytes) (body : Exec)
    : Exec := fun x =>
  match fuel with
  | O => None
  | S fuel =>
      let vec := elems (heap_ (xst x)) l in
      match vec !! idx, vec !! S idx with
      | Some k, Some v =>
          let key := match key_var with [] => ∅ | _ => {[ key_var := k ]} end in
          after_body (foreach_pairs fuel l (S (S idx)) key_var value_var body)
            (scoped (<[ value_var := v ]> key) body x)
      | _, _ => Some (SOut ONormal x)
      end
  end.
Definition foreach (fuel : nat) (it : Value) (key_var value_var : bytes) (body : Exec) : Exec := fun x =>
  match it with
  | ARRAY l =>
      if is_assoc (elems (heap_ (xst x)) l) then foreach_pairs fuel l 1 key_var value_var body x
      else foreach_loop fuel l 0 key_var value_var body x
  | _ => Some (SOut (OErr (lit "foreach requires an array")) x)
  end.

(** ** [switch] *)

(** Do the values of a case contain the subject? They are evaluated up to the
    first that does. *)
Fixpoint case_matches (subject : Value) (vs : list Expression) (k : bool -> Exec) : Exec :=
  match vs with
  | [] => k false
  | e :: vs => eval_expr e (fun v => if op_eq subject v then k true else case_matches subject vs k)
  end.
(** The case to run: the first that matches, else the last default. *)
Fixpoint find_case (subject : Value) (cases : list (list Expression * Exec)) (default : Exec) : Exec :=
  match cases with
  | [] => default
  | ([], body) :: cases => find_case subject cases body
  | (vs, body) :: cases =>
      case_matches subject vs (fun b => if b then body else find_case subject cases default)
  end.
(** [run_case]: a break ends the case. *)
Definition run_case (body : Exec) : Exec := fun x =>
  match scoped ∅ body x with
  | Some (SOut OBreak y) => Some (SOut ONormal y)
  | r => r
  end.

(** ** [try] *)

Definition exec_try_statement (body : Exec) (catch_var : bytes) (catch_block fin : option Exec) : Exec := fun x =>
  let finally := match fin with Some f => f | None => no_effect end in
  (* [fin(); throw;]: an exception of [finally] takes the place of the first *)
  let rethrow (o : completion) := finally ;; leave o in
  let run_catch (c : Exec) : Exec := fun x =>
    match c x with
    | Some (SOut ((OReturn _ | OBreak | OContinue) as o) x) => rethrow o x
    | r => r
    end in
  let caught (v : Value) : Exec := fun x =>
    match catch_block with
    | Some c =>
        (run_catch c ;; finally) (match catch_var with [] => x | _ => define_here catch_var v x end)
    | None => None
    end in
  match body x with
  | Some (SOut ONormal x) => finally x
  | Some (SOut ((OReturn _ | OBreak | OContinue) as o) x) => rethrow o x
  | Some (SOut ((OErr m) as o) x) =>
      match catch_block with Some _ => caught (STRING m) x | None => rethrow o x end
  | Some (SOut ((OThrow v) as o) x) =>
      match catch_block with Some _ => caught v x | None => rethrow o x end
  | r => r
  end.

(** ** [const]

    An item without a value repeats the last expression with the next [iota],
    which is a variable of the interpreter: here it is put into the operators
    of the expression. *)
Fixpoint iota_expr (i : Z) (e : Expression) : Expression :=
  match e with
  | IotaExpression => NumberLiteral i
  | UnaryExpression o x p => UnaryExpression o (iota_expr i x) p
  | BinaryExpression l o r => BinaryExpression (iota_expr i l) o (iota_expr i r)
  | TernaryExpression c t f => TernaryExpression (iota_expr i c) (iota_expr i t) (iota_expr i f)
  | _ => e
  end.
Fixpoint exec_const_block (i : Z) (last : option Expression) (items : list (bytes * option Expression)) : Exec :=
  match items with
  | [] => no_effect
  | (n, v) :: items =>
      let last := match v with Some e => Some e | None => last end in
      eval_expr (match last with Some e => iota_expr i e | None => NumberLiteral i end) (fun val =>
      eval (eassign n val) (fun _ => exec_const_block (i + 1) last items))
  end.

(** * Statements *)

Fixpoint execute_statement (fuel : nat) (s : Statement) {struct s} : Exec :=
  let stmts := fix stmts (l : list Statement) : Exec :=
    match l with [] => no_effect | s :: l => execute_statement fuel s ;; stmts l end in
  let execute_block (l : list Statement) : Exec := scoped ∅ (stmts l) in
  match s with
  | PrintStatement es => build_output true es [] (fun t => write (t ++ [LF]))
  | WriteStatement es => build_output true es [] write
  | ExpressionStatement e => eval_expr e (fun _ => no_effect)
  | BlockStatement l => execute_block l
  | IfStatement c t e =>
      eval_expr c (fun v x =>
        if truthy x v then execute_block t x
        else match e with Some e => execute_block e x | None => no_effect x end)
  | WhileStatement c b => while_loop fuel c (execute_block b)
  | ForStatement i c p b =>
      for_scope ((match i with Some i => execute_statement fuel i | None => no_effect end) ;;
                 for_loop fuel c p (execute_block b))
  | ForeachStatement it k v b => eval_expr it (fun arr => foreach fuel arr k v (stmts b))
  | TryCatchStatement t v c f =>
      exec_try_statement (execute_block t) v
        (match c with Some c => Some (execute_block c) | None => None end)
        (match f with Some f => Some (execute_block f) | None => None end)
  | SwitchStatement e cases =>
      eval_expr e (fun subject =>
        find_case subject (map (fun '(vs, b) => (vs, run_case (stmts b))) cases) no_effect)
  | BreakStatement => leave OBreak
  | ContinueStatement => leave OContinue
  | ConstBlock items => exec_const_block 0 None items
  | ReturnStatement e =>
      match e with Some e => eval_expr e (fun v => leave (OReturn v)) | None => leave (OReturn NONE) end
  | ThrowStatement e => eval_expr e (fun v => leave (OThrow v))
  | UseStatement _ _ | UseFileStatement _ | StructDeclaration _ _ | FunctionDeclaration _ _ _ _ _ =>
      fun _ => Some SExternal
  end.

Fixpoint execute_all (fuel : nat) (l : list Statement) : Exec :=
  match l with [] => no_effect | s :: l => execute_statement fuel s ;; execute_all fuel l end.

(** [interpret]: the statements of the program in the global scope. *)
Definition interpret (fuel : nat) (l : Program) : Exec := execute_all fuel l.

End Exec.
End InterpStmt.
