(* ===== verification/EngineStmt.v ===== *)
(** The two engines agree on programs: the bytecode of a sequence of
    statements, run by the machine, does what [InterpStmt.execute_statement]
    does, for assignments to variables, conditionals, loops with [break] and
    [continue], [return] and [throw] over the expressions of [Engine].

    A program that ends in one engine ends in the other with the same completion
    and the same variables, and one that does not end in one does not in the
    other. *)

From S2P Require Import Prelude CNum Value Bytecode Ast Compiler Interp Vm Engine.
From S2P Require Import CompilerStmt InterpStmt.
#[local] Open Scope Z_scope.

Module EngineStmt.
Import CNum Value Bytecode Ast Compiler Interp Vm Engine CompilerStmt InterpStmt.

(** * The statements covered

    The two engines give names to scopes differently (an assignment in a block
    makes a variable of the block for the interpreter, and a global of the
    program for the machine): [known] are the names a block may assign. *)
Definition is_compound (o : bytes) : bool := match COMPOUND o with Some _ => true | None => false end.

Definition effect_frag (known : bytes -> bool) (e : Expression) : bool :=
  match e with
  | AssignmentExpression n o _ None v =>
      dollar n && known n && ((o =s lit "=") || is_compound o) && frag false v
  | UnaryExpression o (Variable_ n) _ =>
      if (o =s lit "++") || (o =s lit "--") then dollar n && known n else frag false e
  | _ => frag false e
  end.

Fixpoint stmt_frag (known : bytes -> bool) (s : Statement) {struct s} : bool :=
  let block := fix block (l : list Statement) : bool :=
    match l with [] => true | s :: l => stmt_frag known s && block l end in
  match s with
  | ExpressionStatement e => effect_frag known e
  | ReturnStatement None | BreakStatement | ContinueStatement => true
  | ReturnStatement (Some e) | ThrowStatement e => frag false e
  | BlockStatement l => block l
  | IfStatement c t e =>
      frag true c && block t && match e with Some e => block e | None => true end
  | WhileStatement c b => frag true c && block b
  | ForStatement i c p b =>
      match i with Some (ExpressionStatement e) => effect_frag known e | None => true | _ => false end &&
      match c with Some c => frag true c | None => true end &&
      match p with Some p => effect_frag known p | None => true end && block b
  | _ => false
  end.
Definition block_frag (known : bytes -> bool) (l : list Statement) : bool := forallb (stmt_frag known) l.

(** At the top level an assignment makes its variable known. *)
Definition defines (s : Statement) : option bytes :=
  match s with
  | ExpressionStatement (AssignmentExpression n o _ None _) => if o =s lit "=" then Some n else None
  | _ => None
  end.
Fixpoint program_frag (known : gset bytes) (l : list Statement) : bool :=
  match l with
  | [] => true
  | s :: l =>
      match defines s with
      | Some n => stmt_frag (fun _ => true) s && program_frag ({[ n ]} ∪ known) l
      | None => stmt_frag (fun n => bool_decide (n ∈ known)) s && program_frag known l
      end
  end.

(** The constants of the program. *)
Definition effect_pool (e : Expression) : list Value :=
  match e with
  | AssignmentExpression n _ _ None v => STRING n :: pool v
  | UnaryExpression o (Variable_ n) _ => [STRING n; INT 1]
  | _ => pool e
  end.
Fixpoint stmt_pool (s : Statement) {struct s} : list Value :=
  let block := fix block (l : list Statement) : list Value :=
    match l with [] => [] | s :: l => stmt_pool s ++ block l end in
  match s with
  | ExpressionStatement e => effect_pool e
  | ReturnStatement (Some e) | ThrowStatement e => pool e
  | BlockStatement l => block l
  | IfStatement c t e => pool c ++ block t ++ match e with Some e => block e | None => [] end
  | WhileStatement c b => pool c ++ block b
  | ForStatement i c p b =>
      match i with Some (ExpressionStatement e) => effect_pool e | _ => [] end ++
      match c with Some c => pool c | None => [] end ++
      match p with Some p => effect_pool p | None => [] end ++ block b
  | _ => []
  end.
Definition block_pool (l : list Statement) : list Value := concat (map stmt_pool l).

(** * The compiler at the top level of a program *)

Definition in_main (s : FunctionCompiler) : Prop :=
  locals_ s = [] /\ captures_ s = [] /\ boxed_slots_ s = ∅ /\ boxed_names_ s = ∅ /\
  no_discovery_ s = false /\ parent_ s = None /\ callee_ctx_ s = false.

Definition keeps_main {A} (m : M A) : Prop :=
  forall s x s', in_main s -> m s = Ret (x, s') -> in_main s'.

Lemma km_bind {A B} (m : M A) (k : A -> M B) :
  keeps_main m -> (forall x, keeps_main (k x)) -> keeps_main (Compiler.bind m k).
Proof. intros Hm Hk s y s' Hs (x & s1 & H1 & H2)%bind_Ret. by eapply Hk; [eapply Hm|]. Qed.

Lemma km_ret {A} (x : A) : keeps_main (Compiler.ret x).
Proof. by intros s y s' Hs [= <- <-]. Qed.
Lemma km_throw {A} m : keeps_main (throw m : M A).
Proof. by intros s y s' Hs. Qed.
Lemma km_res {A} (r : res A) : keeps_main (of_res r).
Proof. intros s y s' Hs. unfold of_res. destruct r; [by intros [= <- <-]|done|done]. Qed.
Lemma km_get {A} (p : FunctionCompiler -> A) : keeps_main (get p).
Proof. by intros s y s' Hs [= <- <-]. Qed.
Lemma km_emit o x y z : keeps_main (emit o x y z).
Proof. by intros s n s' Hs [= <- <-]. Qed.
Lemma km_jump o x : keeps_main (emit_jump o x).
Proof. apply km_emit. Qed.
Lemma km_ip : keeps_main current_ip.
Proof. by intros s n s' Hs [= <- <-]. Qed.
Lemma km_alloc : keeps_main alloc_temp.
Proof. intros s n s' Hs. unfold alloc_temp. destruct (alloc (regs_ s)) as [[]| |]; [by intros [= <- <-]|done|done]. Qed.
Lemma km_free r : keeps_main (free_temp r).
Proof. by intros s n s' Hs [= <- <-]. Qed.
Lemma km_add v : keeps_main (add_const v).
Proof.
  intros s n s' Hs. unfold add_const. destruct (const_index (constants_ s) v 0); [by apply km_res|].
  destruct (_ <=? _); [done|]. intros H. by eapply km_res; [|exact H].
Qed.
Lemma km_patch o t : keeps_main (patch_jump o t).
Proof.
  unfold patch_jump. destruct (65535 <? t); [apply km_throw|]. repeat (apply km_bind; [apply km_res|intros]).
  intros s n s' Hs. destruct (code_ s !! _); [by intros [= <- <-]|done].
Qed.
Lemma km_push : keeps_main push_scope.
Proof. by intros s n s' Hs [= <- <-]. Qed.
Lemma km_pop : keeps_main pop_scope.
Proof.
  intros s n s' Hs. pose proof Hs as (Hl & _). unfold pop_scope. rewrite Hl. cbn [pop_locals].
  intros [= <- <-]. unfold in_main in *. cbn. tauto.
Qed.

Create HintDb main.
#[local] Hint Resolve km_ret km_throw km_res km_get km_emit km_jump km_ip km_alloc km_free km_add km_patch
  km_push km_pop : main.
(** Every method is a sequence of the ones above. *)
Ltac km := repeat first
  [ solve [auto with main]
  | apply km_bind; [|intros]
  | match goal with
    | |- keeps_main (if ?b then _ else _) => destruct b
    | |- keeps_main (match ?x with _ => _ end) => destruct x
    end ].

Lemma km_wide o x i : keeps_main (emit_wide o x i).
Proof. unfold emit_wide. km. Qed.
#[local] Hint Resolve km_wide : main.
Lemma km_load d v : keeps_main (emit_load_const d v).
Proof. unfold emit_load_const. km. Qed.
Lemma km_dest d : keeps_main (ensure_dest d).
Proof. unfold ensure_dest. km. Qed.
Lemma km_move r x : keeps_main (move_into r x).
Proof. unfold move_into. km. Qed.
#[local] Hint Resolve km_load km_dest km_move : main.

(** Names are globals. *)
Lemma main_resolve s n w : in_main s -> resolve_var n w s = Ret (GLOBAL, s).
Proof.
  destruct s. unfold in_main, resolve_var. cbn. intros (-> & -> & _ & _ & _ & -> & _). done.
Qed.
Lemma main_others s s' : in_main s -> in_main s' -> others s s'.
Proof. unfold in_main, others. intros. destr_all. repeat split; congruence. Qed.

Lemma km_resolve n w : keeps_main (resolve_var n w).
Proof. intros s x s' Hs. rewrite (main_resolve _ _ _ Hs). by intros [= <- <-]. Qed.
#[local] Hint Resolve km_resolve : main.

(** A method whose continuation is only reached with a global. *)
Lemma km_global {A} n w (k : VarLoc -> M A) :
  keeps_main (k GLOBAL) -> keeps_main (Compiler.bind (resolve_var n w) k).
Proof.
  intros Hk s x s' Hs (loc & s1 & H1 & H2)%bind_Ret. rewrite (main_resolve _ _ _ Hs) in H1.
  injection H1 as <- <-. by eapply Hk.
Qed.

Lemma km_variable n d : keeps_main (compile_variable n d).
Proof. unfold compile_variable. apply km_global. km. Qed.

Lemma km_expr e b d : frag b e = true -> keeps_main (compile_expr e d).
Proof.
  revert b d.
  induction e as [v raw|v|d|t| |els|ps|ps dfs cps va body|n|o IHo i IHi|o x IHx pre|l IHl o r IHr
    |n o ob ix v IHv|c IHc args|c IHc t IHt f' IHf|m n| |o IHo fld|n fs];
    intros b dst H; try discriminate; cbn [frag] in H.
  - cbn [compile_expr]. km. by intros ? ? ? _.
  - cbn [compile_expr]. km.
  - cbn [compile_expr]. km.
  - cbn [compile_expr]. km.
  - cbn [compile_expr]. km.
  - apply km_variable.
  - assert (Ho : ((o =s lit "++") || (o =s lit "--")) = false).
    { apply not_incdec. destruct (o =s lit "!"); [by left|]. apply andb_true_iff in H as [-> _]. by right. }
    assert (Hx : exists bx, frag bx x = true).
    { destruct (o =s lit "!"); [by eexists|]. apply andb_true_iff in H as [_ H]. by eexists. }
    destruct Hx as [bx Hx]. cbn [compile_expr]. rewrite Ho. unfold compile_unary. km. by eapply IHx.
  - destruct (binary_frags b l o r H) as (b1 & b2 & Hl & Hr). cbn [compile_expr].
    assert (Kl : forall d, keeps_main (compile_expr l d)) by (intros; by eapply IHl).
    assert (Kr : forall d, keeps_main (compile_expr r d)) by (intros; by eapply IHr).
    unfold compile_binary, compile_logical, compile_coalesce. km; first [apply Kl|apply Kr].
  - bool_to_prop. cbn [compile_expr]. unfold compile_ternary.
    km; first [by eapply IHc|by eapply IHt|by eapply IHf].
Qed.

(** * The code of a statement

    A template: instructions, and the jumps of a [break] and a [continue], which
    the enclosing loop fills in. *)
Inductive piece := I (i : Instruction) | Brk | Cont.

Definition no_target : Instruction := mkI JUMP 0 0 0.
Definition jump_i (t : Z) : Instruction := mkI JUMP 0 (t / 256) (t mod 256).
Definition raw (p : piece) : Instruction := match p with I i => i | _ => no_target end.
Definition fill (B C : Z) (p : piece) : Instruction :=
  match p with I i => i | Brk => jump_i B | Cont => jump_i C end.

(** Where the jumps are. *)
Fixpoint holes (q : piece -> bool) (pos : nat) (ts : list piece) : list Z :=
  match ts with
  | [] => []
  | t :: ts => (if q t then [Z.of_nat pos] else []) ++ holes q (S pos) ts
  end.
Definition is_brk (p : piece) : bool := match p with Brk => true | _ => false end.
Definition is_cont (p : piece) : bool := match p with Cont => true | _ => false end.

Lemma holes_app q pos t1 t2 : holes q pos (t1 ++ t2) = holes q pos t1 ++ holes q (pos + length t1) t2.
Proof.
  revert pos. induction t1 as [|t t1 IH]; intros pos; cbn [holes app length]; [by rewrite Nat.add_0_r|].
  rewrite IH, <- app_assoc. by replace (S pos + length t1)%nat with (pos + S (length t1))%nat by lia.
Qed.

Lemma holes_I q pos ins : (forall i, q (I i) = false) -> holes q pos (map I ins) = [].
Proof.
  intros H. revert pos. induction ins as [|i ins IH]; intros pos; [done|].
  cbn [map holes]. by rewrite H, IH.
Qed.

(** The instructions once the breaks, or the continues too, are filled in. *)
Definition fill_one (q : piece -> bool) (t : Z) (p : piece) : piece := if q p then I (jump_i t) else p.

Lemma sbind_Ret {A B} (m : MS A) (k : A -> MS B) s y s'' :
  sbind m k s = Ret (y, s'') <-> exists x s', m s = Ret (x, s') /\ k x s' = Ret (y, s'').
Proof.
  unfold sbind. destruct (m s) as [[x s']| |]; split; try done.
  - intros H. by exists x, s'.
  - by intros (? & ? & [= -> ->] & H).
  - by intros (? & ? & ? & _).
  - by intros (? & ? & ? & _).
Qed.

Lemma up_Ret {A} (m : M A) s x s' :
  up m s = Ret (x, s') <-> m (fc s) = Ret (x, fc s') /\ loop_stack_ s' = loop_stack_ s.
Proof.
  unfold up. destruct (m (fc s)) as [[y f]| |]; split; try done; try by intros [? _].
  - by intros [= <- <-].
  - destruct s'. cbn. by intros [[= <- <-] ->].
Qed.

Lemma patch_all_holes q t (Hq : forall i, q (I i) = false) (ts : list piece) s pre post s' :
  0 <= t -> code_ (fc s) = pre ++ map raw ts ++ post ->
  patch_all (holes q (length pre) ts) t s = Ret (tt, s') ->
  (holes q (length pre) ts <> [] -> t <= 65535) /\
  code_ (fc s') = pre ++ map raw (map (fill_one q t) ts) ++ post /\
  constants_ (fc s') = constants_ (fc s) /\ regs_ (fc s') = regs_ (fc s) /\
  loop_stack_ s' = loop_stack_ s /\ (in_main (fc s) -> in_main (fc s')).
Proof.
  intros Ht. revert s pre. induction ts as [|p ts IH]; intros s pre Hc H.
  { injection H as <-. rewrite Hc. done. }
  assert (Hl : forall y, length (pre ++ [y : Instruction]) = S (length pre)) by (intros; rewrite length_app; cbn; lia).
  cbn [holes map] in *. unfold fill_one at 1.
  assert (IH' : forall s1 y, code_ (fc s1) = pre ++ y :: map raw ts ++ post ->
    patch_all (holes q (S (length pre)) ts) t s1 = Ret (tt, s') ->
    (holes q (S (length pre)) ts <> [] -> t <= 65535) /\
    code_ (fc s') = pre ++ y :: map raw (map (fill_one q t) ts) ++ post /\
    constants_ (fc s') = constants_ (fc s1) /\ regs_ (fc s') = regs_ (fc s1) /\
    loop_stack_ s' = loop_stack_ s1 /\ (in_main (fc s1) -> in_main (fc s'))).
  { intros s1 y Hy H1. rewrite <- (Hl y) in *. destruct (IH s1 (pre ++ [y])) as (G1 & G2 & G3); [|done|].
    - by rewrite Hy, <- app_assoc.
    - split; [done|]. split; [|done]. by rewrite G2, <- app_assoc. }
  destruct (q p) eqn:Ep; cbn [app patch_all] in *; [|by eapply IH'].
  apply sbind_Ret in H as ([] & s1 & H1 & H). apply up_Ret in H1 as [H1 Hls].
  destruct (patch_jump_Ret (length pre) t (fc s) (fc s1) (raw p)) as (Hr & Hc1 & Hk1 & Hg1 & _); [done| |done|].
  { rewrite Hc. cbn. by apply list_lookup_middle. }
  assert (Hraw : raw p = no_target) by (destruct p as [i| |]; [by rewrite Hq in Ep|done|done]).
  destruct (IH' s1 (jump_i t)) as (_ & G2 & G3 & G4 & G5 & G6); [|done|].
  { rewrite Hc1, Hc. cbn [map app]. rewrite Hraw.
    by rewrite insert_app_r_alt, Nat.sub_diag by lia. }
  split; [done|]. split; [by rewrite G2|]. split; [congruence|]. split; [congruence|]. split; [congruence|].
  intros Hm. apply G6. by eapply km_patch.
Qed.

(** * Environments of a program

    The scopes of the blocks are empty: their assignments reach the globals. *)
Definition block_scope : Scope := MkScope ∅ false.
Definition nest (k : nat) (g : gmap bytes Value) : Env := replicate k block_scope ++ global_env g.

Lemma env_get_nest k g n : env_get (nest k g) n = g !! n.
Proof.
  induction k as [|k IH]; cbn [nest replicate app env_get global_env]; [cbn; by destruct (g !! n)|].
  cbn [values_ block_scope]. by rewrite lookup_empty.
Qed.

Lemma env_set_nest k g n v :
  is_Some (g !! n) -> env_set (nest k g) n v = Some (nest k (<[ n := v ]> g)).
Proof.
  intros [w Hw]. induction k as [|k IH]; cbn [nest replicate app env_set global_env values_ block_scope].
  - by rewrite Hw.
  - rewrite lookup_empty. unfold nest in IH. rewrite IH. cbn [fn_boundary_].
    destruct (replicate k block_scope ++ global_env g) eqn:E; [by destruct k|done].
Qed.

Lemma env_assign_nest k g n v :
  k = 0%nat \/ is_Some (g !! n) -> env_assign (nest k g) n v = nest k (<[ n := v ]> g).
Proof.
  unfold env_assign. intros [->|H]; [|by rewrite env_set_nest].
  cbn [nest replicate app global_env env_set values_]. by destruct (g !! n).
Qed.

Lemma length_nest k g : length (nest k g) = S k.
Proof. unfold nest. rewrite length_app, length_replicate. cbn. lia. Qed.

Lemma drop_nest j k g : drop j (nest (j + k) g) = nest k g.
Proof.
  unfold nest. rewrite replicate_add, <- app_assoc. rewrite drop_app_le by (rewrite length_replicate; lia).
  by rewrite drop_ge by (rewrite length_replicate; lia).
Qed.

(** * Running *)

Section Sim.
Context (L : Lib) (depth : nat) (vm0 : VM) (f : Frame) (tl : list Frame).
Context (U : list Value) (HU : no_clash U).

Definition state_at (g : gmap bytes Value) (rs : list Value) (k : nat) : VM := mk (set_globals vm0 g) f tl rs k.
Definition failing (g : gmap bytes Value) (rs : list Value) (k : nat) (m : bytes) : Prop :=
  fails L depth (set_globals vm0 g) f tl rs k m.

Record main_ok (s : FunctionCompiler) : Prop := {
  mo_main : in_main s;
  mo_regs : regs_ok (regs_ s);
  mo_pool : pool_in U (constants_ s)
}.

Lemma main_start s ns ps :
  main_ok s -> pool_in U ps -> start U s ns ps 255.
Proof.
  intros [Hm Hr Hp] Hps. split; try done; [by left| |by destruct Hm as (_ & _ & _ & _ & _ & _ & ->)].
  intros n _. right. unfold name_at. apply (main_resolve s n false Hm).
Qed.

Lemma main_env s g k rs ns : in_main s -> env_ok (set_globals vm0 g) f (nest k g) s rs ns.
Proof.
  intros Hm n _. split; [|intros _; cbn; by rewrite env_get_nest].
  intros q Hq. unfold name_at in Hq. pose proof (main_resolve s n false Hm) as E. unfold resolve_var in E.
  by rewrite E in Hq.
Qed.

(** What the code of an expression does, from any values of the globals. *)
Definition expr_runs (b : bool) (e : Expression) (s s' : FunctionCompiler) (r : Z) (ins : list Instruction) : Prop :=
  forall g k rs st, room f s' rs -> seg f (length (code_ s)) ins ->
  constants_ s' `prefix_of` constants (f_proto f) -> env st = nest k g -> heap_ st = arrays vm0 ->
  match evaluate_expression L depth e st with
  | EOk v st' => st' = st /\ exists rs' w,
      rtc (stepr L depth) (state_at g rs (length (code_ s))) (state_at g rs' (length (code_ s'))) /\
      length rs' = length rs /\ rs' !! slot f r = Some w /\ same vm0 b w v /\
      (forall q, live (regs_ s) q -> rs' !! slot f q = rs !! slot f q)
  | EErr m st' => st' = st /\ failing g rs (length (code_ s)) m
  | EUndef => True
  | EExternal => False
  end.

Lemma compile_expr_main b e s r s' :
  frag b e = true -> main_ok s -> pool_in U (pool e) -> compile_expr e 255 s = Ret (r, s') ->
  exists ins, code_ s' = code_ s ++ ins /\ constants_ s `prefix_of` constants_ s' /\ main_ok s' /\
    ra_ext (regs_ s) (regs_ s') /\ result (regs_ s) (regs_ s') 255 r /\ expr_runs b e s s' r ins.
Proof.
  intros Hf Hm Hp Hc. pose proof (main_start s (vars e) _ Hm Hp) as Hst.
  destruct (compile_correct L depth (set_globals vm0 ∅) f tl (nest 0 ∅) U HU e b Hf s 255 r s' Hst Hc)
    as (ins & cs & Ec & Ek & Hcs & Ho & He & Hr & _).
  exists ins. split; [done|]. split; [rewrite Ek; by apply prefix_app_r|]. split.
  { split; [by eapply km_expr; [|apply mo_main|]|by eapply ra_ext_ok|]. rewrite Ek. apply pool_in_app.
    split; [by apply mo_pool|done]. }
  split; [done|]. split; [done|]. intros g k rs st Hroom Hseg Hpre Hen Hh.
  destruct (compile_correct L depth (set_globals vm0 g) f tl (nest k g) U HU e b Hf s 255 r s' Hst Hc)
    as (ins' & _ & Ec' & _ & _ & _ & _ & _ & Hrun).
  rewrite Ec in Ec'. apply app_inv_head in Ec' as <-.
  specialize (Hrun rs Hroom (main_env _ g k rs _ (mo_main _ Hm)) Hseg Hpre).
  rewrite (evaluate_den L depth e b st Hf), Hen, Hh. change (arrays (set_globals vm0 g)) with (arrays vm0) in Hrun.
  destruct (den L depth (nest k g) (arrays vm0) e) as [v|m|]; cbn [of_den]; [|by split|done].
  split; [done|]. destruct Hrun as (rs' & w & H1 & H2 & H3 & H4 & H5). exists rs', w.
  split_and!; try done. intros q Hq. apply H5; [done|]. apply (live_not_255 (regs_ s)); [by apply mo_regs|done].
Qed.

(** ** The instructions on globals *)

Lemma step_store_global g rs k x idx n v :
  instr_at f k (mkI STORE_GLOBAL x (idx / 256) (idx mod 256)) -> 0 <= idx <= 65535 ->
  constants (f_proto f) !! Z.to_nat idx = Some (STRING n) -> rs !! slot f x = Some v ->
  stepr L depth (state_at g rs k) (state_at (<[ n := v ]> g) rs (S k)).
Proof.
  intros Hi Hidx Hc Hv. unfold stepr, state_at. rewrite (step_mk _ _ _ _ _ _ _ _ Hi).
  cbn [exec op exec_global a]. unfold const. rewrite bx_wide by done. cbn [f_proto set_ip].
  rewrite Hc, reg_mk, Hv. done.
Qed.

Lemma step_load_global g rs k x idx n :
  instr_at f k (mkI LOAD_GLOBAL x (idx / 256) (idx mod 256)) -> 0 <= idx <= 65535 ->
  constants (f_proto f) !! Z.to_nat idx = Some (STRING n) -> (slot f x < length rs)%nat -> dollar n = true ->
  match g !! n with
  | Some v => stepr L depth (state_at g rs k) (state_at g (<[ slot f x := v ]> rs) (S k))
  | None => failing g rs k (lit "Undefined variable: " ++ n)
  end.
Proof.
  intros Hi Hidx Hc Hx Hd.
  pose proof (exec_load_global L depth (set_globals vm0 g) f tl rs (S k) x idx n Hidx Hc) as He.
  cbn [globals set_globals] in He. destruct (g !! n) as [v|] eqn:Ev.
  - by eapply step_write.
  - rewrite Hd in He. eexists _, _. split; [done|]. by eapply step_raise.
Qed.

Lemma compound_ops o opc :
  COMPOUND o = Some opc ->
  o <> lit "=" /\
  (forall h v w, binop L depth h opc v w = Some (apply_op L depth o w h v)) /\
  (forall h v, unop L depth h opc v = None) /\ opc <> COALESCE /\
  (forall g k x y z, exec L depth false g k (mkI opc x y z) = exec_value L depth g k (mkI opc x y z)).
Proof.
  assert (Hfast : forall ovf fop v w, fast ovf (arith2 ovf fop) v w = arith2 ovf fop v w).
  { intros ovf fop v w. destruct v, w; try done. unfold fast, arith2. cbn.
    by destruct (ovf _ _) as [? []]. }
  intros Ho. unfold COMPOUND in Ho.
  repeat match type of Ho with
  | (if ?o =s ?t then _ else _) = _ => destruct (bytes_eqb_spec o t) as [->|]; [injection Ho as <-|]
  end; try done;
    (split; [done|]; split; [intros h v w; first [reflexivity | exact (f_equal Some (Hfast _ _ v w))]|];
     split; [done|]; split; [done|]; done).
Qed.

(** ** Methods from a state of the main program *)

Record emits (s s' : FunctionCompiler) (ins : list Instruction) : Prop := {
  em_code : code_ s' = code_ s ++ ins;
  em_consts : constants_ s `prefix_of` constants_ s';
  em_main : main_ok s';
  em_regs : ra_ext (regs_ s) (regs_ s')
}.

Lemma emits_refl s : main_ok s -> emits s s [].
Proof. intros H. split; [by rewrite app_nil_r|done|done|by apply ra_ext_refl, mo_regs]. Qed.
Lemma emits_app s1 s2 s3 i1 i2 : emits s1 s2 i1 -> emits s2 s3 i2 -> emits s1 s3 (i1 ++ i2).
Proof.
  intros [C1 K1 M1 R1] [C2 K2 M2 R2]. split; [by rewrite C2, C1, app_assoc|by etrans|done|].
  by eapply ra_ext_trans.
Qed.

Lemma same_regs_emits s s' ins :
  main_ok s -> in_main s' -> code_ s' = code_ s ++ ins -> regs_ s' = regs_ s ->
  constants_ s' = constants_ s -> emits s s' ins.
Proof.
  intros [H1 H2 H3] Hm Hc Hr Hk. split; [done|by rewrite Hk| |rewrite Hr; by apply ra_ext_refl].
  split; [done|by rewrite Hr|by rewrite Hk].
Qed.

Lemma m_emit o x y z s n s' :
  main_ok s -> emit o x y z s = Ret (n, s') ->
  emits s s' [mkI o x y z] /\ n = Z.of_nat (length (code_ s)) /\ regs_ s' = regs_ s /\
  constants_ s' = constants_ s.
Proof.
  intros Hm H. pose proof (km_emit _ _ _ _ _ _ _ (mo_main _ Hm) H) as Hm'.
  apply emit_Ret in H as (-> & Hc & Hk & Hr & _). split; [by apply same_regs_emits|done].
Qed.

Lemma m_wide o x i s n s' :
  main_ok s -> 0 <= i <= 65535 -> emit_wide o x i s = Ret (n, s') ->
  emits s s' [mkI o x (i / 256) (i mod 256)] /\ regs_ s' = regs_ s /\ constants_ s' = constants_ s.
Proof.
  intros Hm Hi H. pose proof (km_wide _ _ _ _ _ _ (mo_main _ Hm) H) as Hm'.
  apply emit_wide_Ret in H as (Hc & Hk & Hr & _); [|done]. split; [by apply same_regs_emits|done].
Qed.

(** Every method leaves a live register live, but [free_temp]. *)
Definition keeps_live (s s' : FunctionCompiler) : Prop := forall q, live (regs_ s) q -> live (regs_ s') q.

Lemma m_free r s s' :
  main_ok s -> live (regs_ s) r -> free_temp r s = Ret (tt, s') ->
  emits s s' [] /\ constants_ s' = constants_ s /\ max (regs_ s') = max (regs_ s) /\
  (forall q, q <> r -> live (regs_ s) q -> live (regs_ s') q).
Proof.
  intros Hm Hl H. pose proof (km_free _ _ _ _ (mo_main _ Hm) H) as Hm'.
  apply free_temp_Ret in H as (Hc & Hk & _ & Hr). pose proof (mo_regs _ Hm) as Hok.
  destruct (free_spec (regs_ s) r Hok) as (F1 & (F2 & _) & _ & F3 & F4 & F5 & F6); [apply Hl|].
  rewrite <- Hr in *. split; [|split; [done|split; [done|intros q Hn Hq; apply F6; naive_solver]]].
  split; [by rewrite app_nil_r|by rewrite Hk|split; [done|done|rewrite Hk; by apply mo_pool]|].
  repeat (split; [done|]). lia.
Qed.

Lemma m_alloc s r s' :
  main_ok s -> alloc_temp s = Ret (r, s') ->
  emits s s' [] /\ constants_ s' = constants_ s /\ live (regs_ s') r /\ ~ live (regs_ s) r /\ keeps_live s s'.
Proof.
  intros Hm H. pose proof (km_alloc _ _ _ (mo_main _ Hm) H) as Hm'. unfold alloc_temp in H.
  destruct (alloc (regs_ s)) as [[r0 ra]| |] eqn:Ha; [|done|done]. injection H as <- <-.
  destruct (alloc_ext _ _ _ (mo_regs _ Hm) Ha) as [He Hr].
  destruct (alloc_spec _ _ _ (mo_regs _ Hm) Ha) as (A1 & _ & _ & _ & A2 & A3 & A4 & _).
  split; [|split; [done|split; [done|split; [done|]]]].
  - split; [by rewrite app_nil_r|done| |done]. split; [done|done|exact (mo_pool _ Hm)].
  - intros q Hq. destruct (decide (q = r0)) as [->|Hn]; [done|]. by apply A4.
Qed.

Lemma m_const v s i s' :
  main_ok s -> v ∈ U -> add_const v s = Ret (i, s') ->
  emits s s' [] /\ regs_ s' = regs_ s /\ constants_ s' !! Z.to_nat i = Some v /\ 0 <= i <= 65535.
Proof.
  intros Hm Hv H. pose proof (km_add _ _ _ _ (mo_main _ Hm) H) as Hm'.
  destruct (add_const_Ret U HU v s i s' (mo_pool _ Hm) Hv H) as (cs & Hk & Hcs & Hl & Hi & Hc & Hr & _).
  split; [|done]. split; [by rewrite app_nil_r|rewrite Hk; by apply prefix_app_r| |rewrite Hr; by apply ra_ext_refl, mo_regs].
  split; [done|rewrite Hr; by apply mo_regs|]. rewrite Hk. apply pool_in_app. split; [by apply mo_pool|done].
Qed.

Lemma m_load d v s s' :
  main_ok s -> v ∈ U -> emit_load_const d v s = Ret (tt, s') ->
  exists i, emits s s' [i] /\ regs_ s' = regs_ s /\
    forall g rs k, constants_ s' `prefix_of` constants (f_proto f) -> instr_at f k i ->
      (slot f d < length rs)%nat -> stepr L depth (state_at g rs k) (state_at g (<[ slot f d := v ]> rs) (S k)).
Proof.
  intros Hm Hv H. pose proof (km_load _ _ _ _ _ (mo_main _ Hm) H) as Hm'.
  assert (Hld : loadable U v) by (by destruct v).
  destruct (emit_load_const_Ret L depth (set_globals vm0 ∅) f tl U HU d v s s' (mo_pool _ Hm) Hld H)
    as (i & cs & Hc & Hk & Hcs & Hr & _). exists i. split; [|split; [done|]].
  - split; [done|rewrite Hk; by apply prefix_app_r| |rewrite Hr; by apply ra_ext_refl, mo_regs].
    split; [done|rewrite Hr; by apply mo_regs|]. rewrite Hk. apply pool_in_app. split; [by apply mo_pool|done].
  - intros g rs k Hpre Hi Hd.
    destruct (emit_load_const_Ret L depth (set_globals vm0 g) f tl U HU d v s s' (mo_pool _ Hm) Hld H)
      as (i' & cs' & Hc' & _ & _ & _ & _ & Hx).
    rewrite Hc in Hc'. apply app_inv_head in Hc' as [= <-]. by apply Hx.
Qed.

Lemma emits_room s s' ins rs : emits s s' ins -> room f s' rs -> room f s rs.
Proof. intros H. eapply room_mono, H. Qed.
Lemma emits_prefix s s' ins : emits s s' ins -> constants_ s' `prefix_of` constants (f_proto f) ->
  constants_ s `prefix_of` constants (f_proto f).
Proof. intros H. by etrans; [apply H|]. Qed.
Lemma live_slot s rs q : main_ok s -> room f s rs -> live (regs_ s) q -> (slot f q < length rs)%nat.
Proof. intros Hm. by apply room_slot, mo_regs. Qed.
Lemma slot_ne s p q : live (regs_ s) p -> live (regs_ s) q -> p <> q -> slot f p <> slot f q.
Proof. intros [Hp _] [Hq _] Hn Hs. apply Hn. by apply (slot_inj f p q); [lia|lia|]. Qed.

(** ** Assignments *)

Lemma failing_now g rs k m :
  step L depth false (state_at g rs k) = raised m (state_at g rs (S k)) -> failing g rs k m.
Proof. intros H. eexists _, _. by split. Qed.
Lemma failing_after g rs k rs' k' m :
  rtc (stepr L depth) (state_at g rs k) (state_at g rs' k') -> failing g rs' k' m -> failing g rs k m.
Proof. apply fails_after. Qed.

(** What an operator leaves in its destination, or its exception. *)
Definition operates (g : gmap bytes Value) (rs : list Value) (k : nat) (x : Z) (r : res Value) : Prop :=
  match r with
  | Ret v => stepr L depth (state_at g rs k) (state_at g (<[ slot f x := v ]> rs) (S k))
  | Exn m => failing g rs k m
  | Undef => True
  end.
Lemma ends_operates g rs k x r : ends L depth (set_globals vm0 g) f tl rs k x r -> operates g rs k x r.
Proof. destruct r; cbn; [done| |done]. apply failing_now. Qed.

Lemma m_compound o opc cur val s tmp s' :
  main_ok s -> COMPOUND o = Some opc -> live (regs_ s) cur -> live (regs_ s) val -> cur <> val ->
  emit_compound o cur val s = Ret (tmp, s') ->
  emits s s' [mkI opc tmp cur val] /\ live (regs_ s') tmp /\
  forall g rs vc vv, room f s' rs -> rs !! slot f cur = Some vc -> rs !! slot f val = Some vv ->
    instr_at f (length (code_ s)) (mkI opc tmp cur val) ->
    operates g rs (length (code_ s)) tmp (apply_op L depth o vv (arrays vm0) vc).
Proof.
  intros Hm Ho Hlc Hlv Hn H. unfold emit_compound in H. rewrite Ho in H.
  apply bind_Ret in H as (t & s1 & Ha & H). apply bind_Ret in H as (n & s2 & He & H).
  apply bind_Ret in H as ([] & s3 & Hf1 & H). apply bind_Ret in H as ([] & s4 & Hf2 & [= -> ->]).
  destruct (m_alloc _ _ _ Hm Ha) as (E1 & K1 & Lt & Nt & KL).
  destruct (m_emit _ _ _ _ _ _ _ (em_main _ _ _ E1) He) as (E2 & _ & R2 & K2).
  destruct (m_free cur _ _ (em_main _ _ _ E2) ltac:(rewrite R2; by apply KL) Hf1) as (E3 & K3 & M3 & L3).
  assert (Hlv3 : live (regs_ s3) val) by (apply L3; [done|]; rewrite R2; by apply KL).
  destruct (m_free val _ _ (em_main _ _ _ E3) Hlv3 Hf2) as (E4 & K4 & M4 & L4).
  pose proof (emits_app _ _ _ _ _ (emits_app _ _ _ _ _ (emits_app _ _ _ _ _ E1 E2) E3) E4) as E.
  split; [exact E|]. split.
  { apply L4; [by intros ->|]. apply L3; [by intros ->|]. by rewrite R2. }
  intros g rs vc vv Hroom Hc Hv Hi. destruct (compound_ops o opc Ho) as (_ & Hb & Hu & Hne & Hx).
  apply ends_operates. eapply step_binop; [exact Hi| |exact Hc|exact Hv|apply Hu|exact Hne|apply Hb|apply Hx].
  apply (live_slot s1); [apply E1| |done]. unfold room in *. by rewrite M4, M3, R2 in Hroom.
Qed.

(** What the evaluation of an effect does, and its code. *)
Definition effect_runs (n : bytes) (e : Expression) (s s' : FunctionCompiler) (ins : list Instruction) : Prop :=
  forall g k rs st, room f s' rs -> seg f (length (code_ s)) ins ->
  constants_ s' `prefix_of` constants (f_proto f) -> env st = nest k g -> heap_ st = arrays vm0 ->
  k = 0%nat \/ is_Some (g !! n) ->
  match evaluate_expression L depth e st with
  | EOk _ st' => exists v rs', st' = MkSt (nest k (<[ n := v ]> g)) (arrays vm0) /\
      rtc (stepr L depth) (state_at g rs (length (code_ s))) (state_at (<[ n := v ]> g) rs' (length (code_ s'))) /\
      length rs' = length rs
  | EErr m st' => st' = st /\ failing g rs (length (code_ s)) m
  | EUndef => True
  | EExternal => False
  end.

(** In the main program a name is never a new local. *)
Lemma main_not_local s n : in_main s ->
  match parent_ s with
  | Some _ => true
  | None => (0 <? loop_depth_ s) && negb (bool_decide (n ∈ outer_globals_ s)) &&
            (no_discovery_ s || bool_decide (n ∈ boxed_names_ s))
  end = false.
Proof.
  intros (_ & _ & _ & Hb & Hd & Hp & _). rewrite Hp, Hd, Hb. cbn [orb].
  rewrite (bool_decide_eq_false_2 (n ∈ ∅)) by set_solver. apply andb_false_r.
Qed.

Lemma outer_emits s n :
  main_ok s -> emits s (if loop_depth_ s =? 0 then with_outer s ({[ n ]} ∪ outer_globals_ s) else s) [].
Proof.
  intros Hm. destruct (loop_depth_ s =? 0); [|by apply emits_refl].
  apply same_regs_emits; [done| | |done|done]; [|by rewrite app_nil_r].
  by destruct Hm as [Hm _ _].
Qed.

(** [n op= v] as the machine reads it: the value on top, then the variable. *)
Lemma evaluate_assign n o obj v st :
  evaluate_expression L depth (AssignmentExpression n o obj None v) st =
  match evaluate_expression L depth v st with
  | EOk val st1 =>
      if o =s lit "=" then EOk val (MkSt (env_assign (env st1) n val) (heap_ st1))
      else match env_get (env st1) n with
      | None => EErr (lit "Undefined variable: " ++ n) st1
      | Some cur =>
          match apply_op L depth o val (heap_ st1) cur with
          | Ret x => EOk x (MkSt (env_assign (env st1) n x) (heap_ st1))
          | Exn m => EErr m st1
          | Undef => EUndef
          end
      end
  | EErr m st1 => EErr m st1
  | EUndef => EUndef
  | EExternal => EExternal
  end.
Proof.
  cbn [evaluate_expression]. unfold ebind. destruct (evaluate_expression L depth v st) as [val st1| | |]; try done.
  destruct (o =s lit "="); [done|]. unfold eget. destruct (env_get (env st1) n) as [cur|]; [|done].
  unfold eheap, eres, compound_value. by destruct (apply_op L depth o val (heap_ st1) cur).
Qed.

Lemma expr_emits s s' ins :
  code_ s' = code_ s ++ ins -> constants_ s `prefix_of` constants_ s' -> main_ok s' ->
  ra_ext (regs_ s) (regs_ s') -> emits s s' ins.
Proof. by split. Qed.

Lemma pool_cons v l : pool_in U (v :: l) -> v ∈ U /\ pool_in U l.
Proof. intros H. split; [apply H; by left|]. intros w Hw. apply H. by right. Qed.

(** The store that ends an assignment, and the register it gives back. *)
Lemma m_store n x ni s s1 s2 y :
  main_ok s -> live (regs_ s) x -> 0 <= ni <= 65535 -> constants_ s !! Z.to_nat ni = Some (STRING n) ->
  emit_wide STORE_GLOBAL x ni s = Ret (y, s1) -> free_temp x s1 = Ret (tt, s2) ->
  emits s s2 [mkI STORE_GLOBAL x (ni / 256) (ni mod 256)] /\ max (regs_ s2) = max (regs_ s) /\
  forall g rs v, instr_at f (length (code_ s)) (mkI STORE_GLOBAL x (ni / 256) (ni mod 256)) ->
    constants_ s2 `prefix_of` constants (f_proto f) -> rs !! slot f x = Some v ->
    stepr L depth (state_at g rs (length (code_ s))) (state_at (<[ n := v ]> g) rs (length (code_ s2))).
Proof.
  intros Hm Hl Hni Hk Hw Hf. destruct (m_wide _ _ _ _ _ _ Hm Hni Hw) as (E1 & R1 & K1).
  destruct (m_free x _ _ (em_main _ _ _ E1) ltac:(by rewrite R1) Hf) as (E2 & K2 & M2 & _).
  pose proof (emits_app _ _ _ _ _ E1 E2) as E. split; [exact E|]. split; [by rewrite M2, R1|].
  intros g rs v Hi Hpre Hv. rewrite (em_code _ _ _ E), length_app. cbn [length app]. rewrite Nat.add_1_r.
  eapply step_store_global; [done|done| |done]. eapply prefix_lookup_Some; [exact Hk|].
  by rewrite K2, K1 in Hpre.
Qed.

Lemma assign_plain n obj v s s' :
  main_ok s -> dollar n = true -> frag false v = true -> pool_in U (STRING n :: pool v) ->
  compile_name_assign n (lit "=") (compile_expr v) s = Ret (tt, s') ->
  exists ins, emits s s' ins /\ effect_runs n (AssignmentExpression n (lit "=") obj None v) s s' ins.
Proof.
  intros Hm Hd Hf [Hn Hp]%pool_cons H. unfold compile_name_assign in H.
  apply bind_Ret in H as (loc & s0 & Hr & H). rewrite (main_resolve _ _ _ (mo_main _ Hm)) in Hr.
  injection Hr as <- <-. apply bind_Ret in H as (x & s1 & Hx & H).
  destruct (compile_expr_main false v s x s1 Hf Hm Hp Hx) as (ins & Hc1 & Hk1 & Hm1 & He1 & Hr1 & Hrun).
  apply bind_Ret in H as (s1' & s1'' & [= <- <-] & H). rewrite (main_not_local s1 n (mo_main _ Hm1)) in H.
  apply bind_Ret in H as ([] & s2 & [= <-] & H). pose proof (outer_emits s1 n Hm1) as E2.
  set (s2 := if loop_depth_ s1 =? 0 then _ else s1) in *.
  assert (R2 : regs_ s2 = regs_ s1) by (unfold s2; by destruct (_ =? 0)).
  apply bind_Ret in H as (ni & s3 & Ha & H).
  destruct (m_const _ _ _ _ (em_main _ _ _ E2) Hn Ha) as (E3 & R3 & K3 & Hni).
  apply bind_Ret in H as (y & s3' & [= <- <-] & H). apply bind_Ret in H as (z & s4 & Hw & Hfr).
  assert (Hl1 : live (regs_ s1) x) by (apply (result_live (regs_ s) _ 255); [by apply mo_regs|by left|done]).
  destruct (m_store n x ni s3 s4 s' z (em_main _ _ _ E3) ltac:(by rewrite R3, R2) Hni K3 Hw Hfr)
    as (E4 & M4 & Hstore).
  pose proof (expr_emits _ _ _ Hc1 Hk1 Hm1 He1) as E1.
  pose proof (emits_app _ _ _ _ _ E2 E3) as E23.
  pose proof (emits_app _ _ _ _ _ (emits_app _ _ _ _ _ E1 E23) E4) as E. cbn [app] in E. rewrite app_nil_r in E.
  eexists. split; [exact E|]. intros g k rs st Hroom [Hs1 Hs2]%seg_app Hpre Hen Hh Hk.
  apply seg_one in Hs2. rewrite evaluate_assign.
  assert (Hroom1 : room f s1 rs) by (unfold room in *; by rewrite M4, R3, R2 in Hroom).
  assert (Hpre1 : constants_ s1 `prefix_of` constants (f_proto f))
    by (eapply emits_prefix; [exact (emits_app _ _ _ _ _ E23 E4)|done]).
  specialize (Hrun g k rs st Hroom1 Hs1 Hpre1 Hen Hh).
  destruct (evaluate_expression L depth v st) as [val st1|m st1| |]; [|done|done|done].
  destruct Hrun as (-> & rs1 & w & Hrtc & Hlen & Hw1 & <- & _). cbn [bytes_eqb].
  change (lit "=" =s lit "=") with true. cbv iota.
  exists w, rs1. rewrite Hen, Hh, env_assign_nest by done. split; [done|]. split; [|done].
  eapply rtc_r; [exact Hrtc|].
  assert (C13 : length (code_ s3) = length (code_ s1)) by (by rewrite (em_code _ _ _ E23), app_nil_r).
  rewrite <- C13. apply Hstore; [|done|done]. rewrite C13, Hc1, length_app. exact Hs2.
Qed.

(** Reading the variable, the operator and the store of [n op= x]. *)
Lemma m_update n o opc x ni s c s1 y s2 r s3 z s4 s' :
  main_ok s -> dollar n = true -> COMPOUND o = Some opc -> live (regs_ s) x -> 0 <= ni <= 65535 ->
  constants_ s !! Z.to_nat ni = Some (STRING n) ->
  alloc_temp s = Ret (c, s1) -> emit_wide LOAD_GLOBAL c ni s1 = Ret (y, s2) ->
  emit_compound o c x s2 = Ret (r, s3) -> emit_wide STORE_GLOBAL r ni s3 = Ret (z, s4) ->
  free_temp r s4 = Ret (tt, s') ->
  exists ins, emits s s' ins /\ forall g rs w, room f s' rs -> seg f (length (code_ s)) ins ->
    constants_ s' `prefix_of` constants (f_proto f) -> rs !! slot f x = Some w ->
    match g !! n with
    | None => failing g rs (length (code_ s)) (lit "Undefined variable: " ++ n)
    | Some cur =>
        match apply_op L depth o w (arrays vm0) cur with
        | Ret v => exists rs', length rs' = length rs /\
            rtc (stepr L depth) (state_at g rs (length (code_ s))) (state_at (<[ n := v ]> g) rs' (length (code_ s')))
        | Exn m => failing g rs (length (code_ s)) m
        | Undef => True
        end
    end.
Proof.
  intros Hm Hd Ho Hl Hni Hk Ha Hw1 Hc Hw2 Hf.
  destruct (m_alloc _ _ _ Hm Ha) as (E1 & K1 & Lc & Nc & KL1).
  destruct (m_wide _ _ _ _ _ _ (em_main _ _ _ E1) Hni Hw1) as (E2 & R2 & K2).
  destruct (m_compound o opc c x s2 r s3 (em_main _ _ _ E2) Ho) as (E3 & Lr & Hop);
    [by rewrite R2|rewrite R2; by apply KL1|by intros ->|done|].
  assert (K3 : constants_ s3 !! Z.to_nat ni = Some (STRING n)).
  { eapply prefix_lookup_Some; [|apply (em_consts _ _ _ E3)]. by rewrite K2, K1. }
  destruct (m_store n r ni s3 s4 s' z (em_main _ _ _ E3) Lr Hni K3 Hw2 Hf) as (E4 & M4 & Hstore).
  pose proof (emits_app _ _ _ _ _ E1 E2) as E12.
  pose proof (emits_app _ _ _ _ _ (emits_app _ _ _ _ _ E12 E3) E4) as E. cbn [app] in E12.
  eexists. split; [exact E|]. intros g rs w Hroom [[Hs1 Hs2]%seg_app Hs3]%seg_app Hpre Hw.
  cbn [length app] in Hs1, Hs2, Hs3. apply seg_one in Hs1, Hs2, Hs3.
  assert (C1 : length (code_ s1) = length (code_ s)) by (by rewrite (em_code _ _ _ E1), app_nil_r).
  assert (C2 : length (code_ s2) = S (length (code_ s))) by (rewrite (em_code _ _ _ E12), length_app; cbn; lia).
  assert (C3 : length (code_ s3) = S (S (length (code_ s)))) by (rewrite (em_code _ _ _ E3), length_app, C2; cbn; lia).
  assert (Hroom3 : room f s3 rs) by (unfold room in *; by rewrite M4 in Hroom).
  assert (Hslot : (slot f c < length rs)%nat).
  { apply (live_slot s1); [apply E1|eapply emits_room; [exact (emits_app _ _ _ _ _ E2 E3)|done]|done]. }
  assert (Hlk : constants (f_proto f) !! Z.to_nat ni = Some (STRING n)).
  { eapply prefix_lookup_Some; [exact K3|]. eapply emits_prefix; [exact E4|done]. }
  pose proof (step_load_global g rs (length (code_ s)) c ni n Hs1 Hni Hlk Hslot Hd) as Hstep.
  destruct (g !! n) as [cur|]; [|done].
  set (rs1 := <[slot f c := cur]> rs) in *.
  assert (Hlen1 : length rs1 = length rs) by apply length_insert.
  assert (Hne : slot f x <> slot f c).
  { apply (slot_ne s1); [by apply KL1|done|by intros ->]. }
  specialize (Hop g rs1 cur w ltac:(unfold room in *; by rewrite Hlen1)
    ltac:(by apply list_lookup_insert_eq) ltac:(unfold rs1; by rewrite list_lookup_insert_ne)
    ltac:(rewrite C2; by rewrite Nat.add_1_r in Hs2)).
  rewrite C2 in Hop.
  destruct (apply_op L depth o w (arrays vm0) cur) as [v|m|]; cbn [operates] in Hop;
    [|by eapply failing_after; [apply rtc_once|]|done].
  set (rs2 := <[slot f r := v]> rs1) in *. exists rs2. split; [unfold rs2; by rewrite length_insert|].
  eapply rtc_l; [exact Hstep|]. eapply rtc_l; [exact Hop|]. rewrite <- C3. apply rtc_once, Hstore; [|done|].
  - rewrite C3. by replace (length (code_ s) + 2)%nat with (S (S (length (code_ s)))) in Hs3 by lia.
  - apply list_lookup_insert_eq. rewrite Hlen1. by apply (live_slot s3); [apply E3| |].
Qed.

Lemma assign_compound n o obj v s s' :
  main_ok s -> dollar n = true -> is_compound o = true -> frag false v = true ->
  pool_in U (STRING n :: pool v) ->
  compile_name_assign n o (compile_expr v) s = Ret (tt, s') ->
  exists ins, emits s s' ins /\ effect_runs n (AssignmentExpression n o obj None v) s s' ins.
Proof.
  intros Hm Hd Ho Hf [Hn Hp]%pool_cons H. unfold is_compound in Ho.
  destruct (COMPOUND o) as [opc|] eqn:Eo; [|done]. destruct (compound_ops o opc Eo) as (Hne & _).
  apply bytes_eqb_neq in Hne. unfold compile_name_assign in H.
  apply bind_Ret in H as (loc & s0 & Hr & H). rewrite (main_resolve _ _ _ (mo_main _ Hm)) in Hr.
  injection Hr as <- <-. apply bind_Ret in H as (x & s1 & Hx & H).
  destruct (compile_expr_main false v s x s1 Hf Hm Hp Hx) as (ins & Hc1 & Hk1 & Hm1 & He1 & Hr1 & Hrun).
  apply bind_Ret in H as (s1' & s1'' & [= <- <-] & H). rewrite (main_not_local s1 n (mo_main _ Hm1)) in H.
  apply bind_Ret in H as ([] & s2 & [= <-] & H). pose proof (outer_emits s1 n Hm1) as E2.
  set (s2 := if loop_depth_ s1 =? 0 then _ else s1) in *.
  assert (R2 : regs_ s2 = regs_ s1) by (unfold s2; by destruct (_ =? 0)).
  apply bind_Ret in H as (ni & s3 & Ha & H).
  destruct (m_const _ _ _ _ (em_main _ _ _ E2) Hn Ha) as (E3 & R3 & K3 & Hni). rewrite Hne in H.
  apply bind_Ret in H as (r & s6 & Hu & H). apply bind_Ret in Hu as (c & s4 & Hc & Hu).
  apply bind_Ret in Hu as (y & s5 & Hw1 & Hu). apply bind_Ret in H as (z & s7 & Hw2 & Hfr).
  assert (Hl1 : live (regs_ s1) x) by (apply (result_live (regs_ s) _ 255); [by apply mo_regs|by left|done]).
  destruct (m_update n o opc x ni s3 c s4 y s5 r s6 z s7 s' (em_main _ _ _ E3) Hd Eo ltac:(by rewrite R3, R2)
    Hni K3 Hc Hw1 Hu Hw2 Hfr) as (ins2 & E4 & Hupd).
  pose proof (expr_emits _ _ _ Hc1 Hk1 Hm1 He1) as E1.
  pose proof (emits_app _ _ _ _ _ E2 E3) as E23.
  pose proof (emits_app _ _ _ _ _ (emits_app _ _ _ _ _ E1 E23) E4) as E. cbn [app] in E. rewrite app_nil_r in E.
  eexists. split; [exact E|]. intros g k rs st Hroom [Hs1 Hs2]%seg_app Hpre Hen Hh Hk.
  rewrite evaluate_assign.
  pose proof (emits_app _ _ _ _ _ E23 E4) as E24.
  assert (Hroom1 : room f s1 rs) by (by eapply emits_room).
  assert (Hpre1 : constants_ s1 `prefix_of` constants (f_proto f)) by (by eapply emits_prefix).
  specialize (Hrun g k rs st Hroom1 Hs1 Hpre1 Hen Hh).
  destruct (evaluate_expression L depth v st) as [val st1|m st1| |]; [|done|done|done].
  destruct Hrun as (-> & rs1 & w & Hrtc & Hlen & Hw & Hsame & _). cbn in Hsame. subst w.
  rewrite Hne, Hen, Hh, env_get_nest.
  assert (C13 : length (code_ s3) = length (code_ s1)) by (by rewrite (em_code _ _ _ E23), app_nil_r).
  specialize (Hupd g rs1 val ltac:(unfold room in *; by rewrite Hlen)
    ltac:(rewrite C13, Hc1, length_app; exact Hs2) Hpre Hw). rewrite C13 in Hupd.
  destruct (g !! n) as [cur|] eqn:Eg; [|split; [done|by eapply failing_after]].
  destruct (apply_op L depth o val (arrays vm0) cur) as [x'|m|];
    [|split; [done|by eapply failing_after]|done].
  destruct Hupd as (rs' & Hlen' & Hrtc'). exists x', rs'. rewrite env_assign_nest by (right; by rewrite Eg).
  split; [done|]. split; [by etrans|congruence].
Qed.

(** ** Increments, and effects whose value is not used *)

Definition delta (o : bytes) : bytes := if o =s lit "++" then lit "+=" else lit "-=".

Lemma evaluate_incdec o n pre st :
  o = lit "++" \/ o = lit "--" ->
  evaluate_expression L depth (UnaryExpression o (Variable_ n) pre) st =
  match env_get (env st) n with
  | None => EErr (lit "Undefined variable: " ++ n) st
  | Some cur =>
      match apply_op L depth (delta o) (INT 1) (heap_ st) cur with
      | Ret x => EOk (if pre then x else cur) (MkSt (env_assign (env st) n x) (heap_ st))
      | Exn m => EErr m st
      | Undef => EUndef
      end
  end.
Proof.
  intros Ho. cbn [evaluate_expression].
  replace ((o =s lit "++") || (o =s lit "--")) with true by (by destruct Ho as [-> | ->]).
  unfold ebind, eget. destruct (env_get (env st) n) as [cur|]; [|done].
  replace (apply_op L depth (delta o) (INT 1) (heap_ st) cur)
    with (if o =s lit "++" then op_add cur (INT 1) else op_sub cur (INT 1)) by (by destruct Ho as [-> | ->]).
  unfold eres. by destruct (if o =s lit "++" then _ else _).
Qed.

(** [MOVE] into a register when the value is wanted, nothing otherwise. *)
Lemma m_move (b : bool) r nv s n s' :
  main_ok s -> (if b then emit MOVE r nv 0 else Compiler.ret 0) s = Ret (n, s') ->
  exists ins, emits s s' ins /\ regs_ s' = regs_ s /\ constants_ s' = constants_ s /\
    forall g rs v, seg f (length (code_ s)) ins -> (slot f r < length rs)%nat -> rs !! slot f nv = Some v ->
      exists rs', rtc (stepr L depth) (state_at g rs (length (code_ s))) (state_at g rs' (length (code_ s'))) /\
        length rs' = length rs.
Proof.
  intros Hm H. destruct b.
  - destruct (m_emit _ _ _ _ _ _ _ Hm H) as (E & _ & R & K). exists [mkI MOVE r nv 0].
    split; [exact E|]. split; [done|]. split; [done|]. intros g rs v Hs%seg_one Hr Hv.
    exists (<[slot f r := v]> rs). split; [|apply length_insert].
    rewrite (em_code _ _ _ E), length_app. cbn [length]. rewrite Nat.add_1_r. apply rtc_once.
    by eapply step_move.
  - injection H as <- <-. exists []. split; [by apply emits_refl|]. split; [done|]. split; [done|].
    intros g rs v _ _ _. by exists rs.
Qed.

(** The code of an increment behind its constant [1] and its destination. *)
Lemma m_increment o opc n (pre : bool) one r ni s y s1 nv s2 z s3 u s4 w s5 s6 s' :
  main_ok s -> dollar n = true -> COMPOUND (delta o) = Some opc ->
  live (regs_ s) one -> live (regs_ s) r -> one <> r -> 0 <= ni <= 65535 ->
  constants_ s !! Z.to_nat ni = Some (STRING n) ->
  emit_wide LOAD_GLOBAL r ni s = Ret (y, s1) -> alloc_temp s1 = Ret (nv, s2) ->
  emit opc nv r one s2 = Ret (z, s3) -> emit_wide STORE_GLOBAL nv ni s3 = Ret (u, s4) ->
  (if pre then emit MOVE r nv 0 else Compiler.ret 0) s4 = Ret (w, s5) ->
  free_temp nv s5 = Ret (tt, s6) -> free_temp one s6 = Ret (tt, s') ->
  exists ins, emits s s' ins /\ live (regs_ s') r /\
    forall g rs, room f s' rs -> seg f (length (code_ s)) ins ->
    constants_ s' `prefix_of` constants (f_proto f) -> rs !! slot f one = Some (INT 1) ->
    match g !! n with
    | None => failing g rs (length (code_ s)) (lit "Undefined variable: " ++ n)
    | Some cur =>
        match apply_op L depth (delta o) (INT 1) (arrays vm0) cur with
        | Ret v => exists rs', length rs' = length rs /\
            rtc (stepr L depth) (state_at g rs (length (code_ s))) (state_at (<[ n := v ]> g) rs' (length (code_ s')))
        | Exn m => failing g rs (length (code_ s)) m
        | Undef => True
        end
    end.
Proof.
  intros Hm Hd Ho Lone Lr Hne Hni Hk Hw1 Ha Hop Hw2 Hmv Hf1 Hf2.
  destruct (m_wide _ _ _ _ _ _ Hm Hni Hw1) as (E1 & R1 & K1).
  destruct (m_alloc _ _ _ (em_main _ _ _ E1) Ha) as (E2 & K2 & Lnv & Nnv & KL).
  destruct (m_emit _ _ _ _ _ _ _ (em_main _ _ _ E2) Hop) as (E3 & _ & R3 & K3).
  destruct (m_wide _ _ _ _ _ _ (em_main _ _ _ E3) Hni Hw2) as (E4 & R4 & K4).
  destruct (m_move pre r nv s4 w s5 (em_main _ _ _ E4) Hmv) as (im & E5 & R5 & K5 & Hmove).
  assert (R52 : regs_ s5 = regs_ s2) by congruence.
  assert (Lone2 : live (regs_ s2) one) by (apply KL; by rewrite R1).
  assert (Lr2 : live (regs_ s2) r) by (apply KL; by rewrite R1).
  destruct (m_free nv _ _ (em_main _ _ _ E5) ltac:(by rewrite R52) Hf1) as (E6 & K6 & M6 & L6).
  assert (None : one <> nv) by (intros ->; apply Nnv; by rewrite R1).
  assert (Nr : r <> nv) by (intros ->; apply Nnv; by rewrite R1).
  destruct (m_free one _ _ (em_main _ _ _ E6) ltac:(apply L6; [done|by rewrite R52]) Hf2) as (E7 & K7 & M7 & L7).
  pose proof (emits_app _ _ _ _ _ E2 E3) as E23. pose proof (emits_app _ _ _ _ _ E6 E7) as E67.
  pose proof (emits_app _ _ _ _ _ (emits_app _ _ _ _ _ (emits_app _ _ _ _ _ E1 E23) E4)
    (emits_app _ _ _ _ _ E5 E67)) as E.
  eexists. split; [exact E|]. split; [apply L7; [done|]; apply L6; [done|by rewrite R52]|].
  intros g rs Hroom Hseg Hpre Hone. cbn [app] in Hseg. rewrite app_nil_r in Hseg.
  assert (Hseg' : seg f (length (code_ s)) ([mkI LOAD_GLOBAL r (ni / 256) (ni mod 256)] ++ [mkI opc nv r one] ++
          [mkI STORE_GLOBAL nv (ni / 256) (ni mod 256)] ++ im)) by exact Hseg.
  clear Hseg. rename Hseg' into Hseg.
  apply seg_app in Hseg as [Hs1 Hseg]. apply seg_app in Hseg as [Hs2 Hseg]. apply seg_app in Hseg as [Hs3 Hs4].
  apply seg_one in Hs1, Hs2, Hs3. cbn [length] in *.
  assert (C1 : length (code_ s1) = S (length (code_ s))) by (rewrite (em_code _ _ _ E1), length_app; cbn; lia).
  assert (C3 : length (code_ s3) = S (length (code_ s1))) by (rewrite (em_code _ _ _ E23), length_app; cbn; lia).
  assert (C4 : length (code_ s4) = S (length (code_ s3))) by (rewrite (em_code _ _ _ E4), length_app; cbn; lia).
  assert (C7 : length (code_ s') = length (code_ s5)) by (by rewrite (em_code _ _ _ E67), app_nil_r).
  assert (Hroom2 : room f s2 rs) by (unfold room in *; by rewrite M7, M6, R52 in Hroom).
  assert (Hslot : forall q, live (regs_ s2) q -> (slot f q < length rs)%nat)
    by (intros q; by apply live_slot; [apply E2|]).
  assert (Hlk : constants (f_proto f) !! Z.to_nat ni = Some (STRING n)).
  { eapply prefix_lookup_Some; [exact Hk|]. by eapply emits_prefix. }
  pose proof (step_load_global g rs (length (code_ s)) r ni n Hs1 Hni Hlk (Hslot _ Lr2) Hd) as Hstep.
  destruct (g !! n) as [cur|]; [|done]. set (rs1 := <[slot f r := cur]> rs) in *.
  destruct (compound_ops (delta o) opc Ho) as (_ & Hb & Hu & Hnc & Hx).
  assert (Hend : operates g rs1 (S (length (code_ s))) nv (apply_op L depth (delta o) (INT 1) (arrays vm0) cur)).
  { apply ends_operates. eapply step_binop; [|unfold rs1; rewrite length_insert; by apply Hslot| | |apply Hu|exact Hnc|apply Hb|apply Hx].
    - by rewrite Nat.add_1_r in Hs2.
    - apply list_lookup_insert_eq. by apply Hslot.
    - unfold rs1. rewrite list_lookup_insert_ne; [exact Hone|]. by apply (slot_ne s2). }
  destruct (apply_op L depth (delta o) (INT 1) (arrays vm0) cur) as [v|m|]; cbn [operates] in Hend;
    [|by eapply failing_after; [apply rtc_once|]|done].
  set (rs2 := <[slot f nv := v]> rs1) in *.
  assert (Hlen : length rs2 = length rs) by (unfold rs2, rs1; by rewrite !length_insert).
  assert (Hv : rs2 !! slot f nv = Some v).
  { apply list_lookup_insert_eq. unfold rs1. rewrite length_insert. by apply Hslot. }
  destruct (Hmove (<[n := v]> g) rs2 v) as (rs3 & Hrtc & Hlen3); [|by rewrite Hlen; apply Hslot|done|].
  { rewrite C4, C3, C1. by replace (length (code_ s) + 1 + 1 + 1)%nat with (S (S (S (length (code_ s))))) in Hs4 by lia. }
  exists rs3. split; [congruence|]. eapply rtc_l; [exact Hstep|]. eapply rtc_l; [exact Hend|].
  replace (length (code_ s) + 1 + 1)%nat with (S (S (length (code_ s)))) in Hs3 by lia.
  eapply rtc_l; [by eapply step_store_global|]. rewrite C7.
  rewrite C4, C3, C1 in Hrtc. exact Hrtc.
Qed.

(** [n++], [n--]: the result register is left in use. *)
Lemma compile_incdec_main o n pre s r s' :
  main_ok s -> o = lit "++" \/ o = lit "--" -> dollar n = true -> pool_in U [STRING n; INT 1] ->
  compile_incdec o n pre 255 s = Ret (r, s') ->
  exists ins, emits s s' ins /\ live (regs_ s') r /\
    effect_runs n (UnaryExpression o (Variable_ n) pre) s s' ins.
Proof.
  intros Hm Ho Hd [Hn [H1 _]%pool_cons]%pool_cons H. unfold compile_incdec in H.
  apply bind_Ret in H as (one & s1 & Ha1 & H). apply bind_Ret in H as ([] & s2 & Hld & H).
  destruct (m_alloc _ _ _ Hm Ha1) as (E1 & K1 & L1 & N1 & KL1).
  destruct (m_load _ _ _ _ (em_main _ _ _ E1) H1 Hld) as (i & E2 & R2 & Hi).
  apply bind_Ret in H as (loc & s2' & Hr & H).
  rewrite (main_resolve _ _ _ (mo_main _ (em_main _ _ _ E2))) in Hr. injection Hr as <- <-.
  apply bind_Ret in H as (r0 & s3 & Ha2 & H). change (ensure_dest 255) with alloc_temp in Ha2.
  destruct (m_alloc _ _ _ (em_main _ _ _ E2) Ha2) as (E3 & K3 & L3 & N3 & KL3).
  apply bind_Ret in H as (ni & s4 & Hc & H).
  destruct (m_const _ _ _ _ (em_main _ _ _ E3) Hn Hc) as (E4 & R4 & K4 & Hni).
  apply bind_Ret in H as (y & s5 & Hw1 & H). apply bind_Ret in H as (nv & s6 & Ha3 & H).
  apply bind_Ret in H as (z & s7 & Hop & H). apply bind_Ret in H as (u & s8 & Hw2 & H).
  apply bind_Ret in H as (w & s9 & Hmv & H). apply bind_Ret in H as ([] & s10 & Hf1 & H).
  apply bind_Ret in H as ([] & s11 & Hf2 & [= -> ->]).
  assert (Lone : live (regs_ s4) one) by (rewrite R4; apply KL3; by rewrite R2).
  assert (Hopc : exists opc, COMPOUND (delta o) = Some opc /\ (if o =s lit "++" then ADD else SUB) = opc)
    by (destruct Ho as [-> | ->]; by eexists).
  destruct Hopc as (opc & Eo & <-).
  assert (Hne : one <> r) by (intros ->; apply N3; by rewrite R2).
  destruct (m_increment o _ n pre one r ni s4 y s5 nv s6 z s7 u s8 w s9 s10 s' (em_main _ _ _ E4) Hd Eo
    Lone ltac:(by rewrite R4) Hne Hni K4 Hw1 Ha3 Hop Hw2 Hmv Hf1 Hf2) as (ins & E5 & Lr & Hrun).
  pose proof (emits_app _ _ _ _ _ E3 E4) as E34. pose proof (emits_app _ _ _ _ _ E1 E2) as E12.
  pose proof (emits_app _ _ _ _ _ (emits_app _ _ _ _ _ E12 E34) E5) as E.
  eexists. split; [exact E|]. split; [done|]. intros g k rs st Hroom [Hs1 Hs2]%seg_app Hpre Hen Hh Hk.
  cbn [app] in Hs1, Hs2. apply seg_one in Hs1. cbn [length] in Hs2.
  rewrite (evaluate_incdec o n pre st Ho), Hen, Hh, env_get_nest.
  assert (C1 : length (code_ s1) = length (code_ s)) by (by rewrite (em_code _ _ _ E1), app_nil_r).
  assert (C4 : length (code_ s4) = S (length (code_ s))).
  { rewrite (em_code _ _ _ E34), app_nil_r, (em_code _ _ _ E12), length_app. cbn. lia. }
  assert (Hroom1 : room f s1 rs).
  { eapply emits_room; [exact (emits_app _ _ _ _ _ E2 (emits_app _ _ _ _ _ E34 E5))|done]. }
  assert (Hslot : (slot f one < length rs)%nat) by (by apply (live_slot s1); [apply E1| |]).
  assert (Hpre2 : constants_ s2 `prefix_of` constants (f_proto f)).
  { eapply emits_prefix; [exact (emits_app _ _ _ _ _ E34 E5)|done]. }
  pose proof (Hi g rs (length (code_ s)) Hpre2 Hs1 Hslot) as Hstep.
  set (rs1 := <[slot f one := INT 1]> rs) in *.
  specialize (Hrun g rs1 ltac:(unfold room, rs1 in *; by rewrite length_insert)
    ltac:(rewrite C4; by rewrite Nat.add_1_r in Hs2) Hpre ltac:(by apply list_lookup_insert_eq)).
  rewrite C4 in Hrun. destruct (g !! n) as [cur|] eqn:Eg;
    [|split; [done|eapply failing_after; [by apply rtc_once|exact Hrun]]].
  destruct (apply_op L depth (delta o) (INT 1) (arrays vm0) cur) as [v|m|];
    [|split; [done|eapply failing_after; [by apply rtc_once|exact Hrun]]|done].
  destruct Hrun as (rs' & Hlen & Hrtc). exists v, rs'. rewrite env_assign_nest by (right; by rewrite Eg).
  split; [done|]. split; [by eapply rtc_l|]. rewrite Hlen. apply length_insert.
Qed.

(** An effect and code behind it that only changes registers. *)
Lemma effect_then n e s s1 s2 i1 i2 :
  emits s s1 i1 -> emits s1 s2 i2 -> effect_runs n e s s1 i1 ->
  (forall g rs v, g !! n = Some v -> room f s2 rs -> seg f (length (code_ s1)) i2 ->
     constants_ s2 `prefix_of` constants (f_proto f) ->
     exists rs', rtc (stepr L depth) (state_at g rs (length (code_ s1))) (state_at g rs' (length (code_ s2))) /\
       length rs' = length rs) ->
  effect_runs n e s s2 (i1 ++ i2).
Proof.
  intros E1 E2 H1 H2 g k rs st Hroom [Hs1 Hs2]%seg_app Hpre Hen Hh Hk.
  specialize (H1 g k rs st ltac:(by eapply emits_room) Hs1 ltac:(by eapply emits_prefix) Hen Hh Hk).
  destruct (evaluate_expression L depth e st); try done.
  destruct H1 as (v & rs1 & -> & Hrtc & Hlen).
  destruct (H2 (<[n := v]> g) rs1 v) as (rs2 & Hrtc2 & Hlen2); [by rewrite lookup_insert_eq| | |done|].
  - unfold room in *. by rewrite Hlen.
  - by rewrite (em_code _ _ _ E1), length_app.
  - exists v, rs2. split; [done|]. split; [by etrans|congruence].
Qed.

Lemma effect_free n e s s1 s2 r ins :
  emits s s1 ins -> live (regs_ s1) r -> free_temp r s1 = Ret (tt, s2) -> effect_runs n e s s1 ins ->
  emits s s2 ins /\ effect_runs n e s s2 ins.
Proof.
  intros E1 Hl Hf H1. destruct (m_free r _ _ (em_main _ _ _ E1) Hl Hf) as (E2 & _).
  pose proof (emits_app _ _ _ _ _ E1 E2) as E. rewrite app_nil_r in E. split; [exact E|].
  rewrite <- (app_nil_r ins). eapply effect_then; [exact E1|exact E2|exact H1|].
  intros g rs v _ _ _ _. exists rs. split; [|done].
  by rewrite (em_code _ _ _ E2), app_nil_r.
Qed.

(** The value of an assignment, read back. *)
Lemma m_read_back n e s s1 r s2 i1 :
  emits s s1 i1 -> effect_runs n e s s1 i1 -> STRING n ∈ U -> dollar n = true ->
  read_back n 255 s1 = Ret (r, s2) ->
  exists ins, emits s s2 ins /\ live (regs_ s2) r /\ effect_runs n e s s2 ins.
Proof.
  intros E1 H1 Hn Hd H. unfold read_back in H. apply bind_Ret in H as (loc & s1' & Hr & H).
  rewrite (main_resolve _ _ _ (mo_main _ (em_main _ _ _ E1))) in Hr. injection Hr as <- <-.
  apply bind_Ret in H as (r0 & s3 & Ha & H). change (ensure_dest 255) with alloc_temp in Ha.
  destruct (m_alloc _ _ _ (em_main _ _ _ E1) Ha) as (E3 & K3 & L3 & _ & _).
  apply bind_Ret in H as (ni & s4 & Hc & H).
  destruct (m_const _ _ _ _ (em_main _ _ _ E3) Hn Hc) as (E4 & R4 & K4 & Hni).
  apply bind_Ret in H as (y & s5 & Hw & [= -> ->]).
  destruct (m_wide _ _ _ _ _ _ (em_main _ _ _ E4) Hni Hw) as (E5 & R5 & K5).
  pose proof (emits_app _ _ _ _ _ (emits_app _ _ _ _ _ E3 E4) E5) as E.
  eexists. split; [exact (emits_app _ _ _ _ _ E1 E)|]. split; [by rewrite R5, R4|].
  eapply effect_then; [exact E1|exact E|exact H1|]. intros g rs v Hg Hroom Hseg Hpre.
  cbn [app] in Hseg. apply seg_one in Hseg.
  assert (Hslot : (slot f r < length rs)%nat).
  { apply (live_slot s2); [apply E5|done|by rewrite R5, R4]. }
  assert (Hlk : constants (f_proto f) !! Z.to_nat ni = Some (STRING n)).
  { eapply prefix_lookup_Some; [exact K4|]. by rewrite K5 in Hpre. }
  pose proof (step_load_global g rs (length (code_ s1)) r ni n Hseg Hni Hlk Hslot Hd) as Hstep.
  rewrite Hg in Hstep. eexists. split; [|apply length_insert].
  rewrite (em_code _ _ _ E), length_app. cbn [app length]. rewrite Nat.add_1_r. by apply rtc_once.
Qed.

(** What the code of an expression statement does. *)
Definition effect_does (known : bytes -> bool) (e : Expression) (s s' : FunctionCompiler)
    (ins : list Instruction) : Prop :=
  forall g k rs st, room f s' rs -> seg f (length (code_ s)) ins ->
  constants_ s' `prefix_of` constants (f_proto f) -> env st = nest k g -> heap_ st = arrays vm0 ->
  k = 0%nat \/ (forall n, known n = true -> is_Some (g !! n)) ->
  match evaluate_expression L depth e st with
  | EOk _ st' => exists g' rs', st' = MkSt (nest k g') (arrays vm0) /\
      (forall n, is_Some (g !! n) -> is_Some (g' !! n)) /\
      (forall n, defines (ExpressionStatement e) = Some n -> is_Some (g' !! n)) /\
      rtc (stepr L depth) (state_at g rs (length (code_ s))) (state_at g' rs' (length (code_ s'))) /\
      length rs' = length rs
  | EErr m st' => st' = st /\ failing g rs (length (code_ s)) m
  | EUndef => True
  | EExternal => False
  end.

Lemma effect_runs_does known n e s s' ins :
  known n = true -> (forall m, defines (ExpressionStatement e) = Some m -> m = n) ->
  effect_runs n e s s' ins -> effect_does known e s s' ins.
Proof.
  intros Hk Hd H g k rs st Hroom Hs Hpre Hen Hh Hkn.
  specialize (H g k rs st Hroom Hs Hpre Hen Hh ltac:(destruct Hkn; [by left|right; auto])).
  destruct (evaluate_expression L depth e st); try done.
  destruct H as (v & rs' & -> & Hrtc & Hlen). exists (<[n := v]> g), rs'. split; [done|].
  split; [intros m Hm; destruct (decide (m = n)) as [->|]; by rewrite ?lookup_insert_eq, ?lookup_insert_ne|].
  split; [intros m ->%Hd; by rewrite lookup_insert_eq|]. done.
Qed.

Lemma pure_does known e s s' r s1 :
  frag false e = true -> main_ok s -> pool_in U (pool e) -> compile_expr e 255 s = Ret (r, s1) ->
  free_temp r s1 = Ret (tt, s') -> exists ins, emits s s' ins /\ effect_does known e s s' ins.
Proof.
  intros Hf Hm Hp Hc Hfr.
  destruct (compile_expr_main false e s r s1 Hf Hm Hp Hc) as (ins & Hc1 & Hk1 & Hm1 & He1 & Hr1 & Hrun).
  assert (Hl : live (regs_ s1) r) by (apply (result_live (regs_ s) _ 255); [by apply mo_regs|by left|done]).
  destruct (m_free r _ _ Hm1 Hl Hfr) as (E2 & K2 & M2 & _).
  pose proof (emits_app _ _ _ _ _ (expr_emits _ _ _ Hc1 Hk1 Hm1 He1) E2) as E. rewrite app_nil_r in E.
  exists ins. split; [exact E|]. intros g k rs st Hroom Hs Hpre Hen Hh Hkn.
  specialize (Hrun g k rs st ltac:(by eapply emits_room) Hs ltac:(by eapply emits_prefix) Hen Hh).
  destruct (evaluate_expression L depth e st) as [v st'| | |]; try done.
  destruct Hrun as (-> & rs' & w & Hrtc & Hlen & _). exists g, rs'. destruct st as [en h]. cbn in Hen, Hh. subst.
  split; [done|]. split; [done|]. split.
  - intros n Hn. destruct e; try done.
  - split; [|done]. by rewrite (em_code _ _ _ E2), app_nil_r.
Qed.

(** An expression statement, and an expression whose value is dropped. *)
Lemma effect_forms known e :
  effect_frag known e = true ->
  (exists n o obj v, e = AssignmentExpression n o obj None v /\ dollar n = true /\ known n = true /\
     (o = lit "=" \/ is_compound o = true) /\ frag false v = true) \/
  (exists o n pre, e = UnaryExpression o (Variable_ n) pre /\ (o = lit "++" \/ o = lit "--") /\
     dollar n = true /\ known n = true) \/
  (frag false e = true /\ (forall n o obj ix v, e <> AssignmentExpression n o obj ix v)).
Proof.
  intros H.
  destruct e as [| | | | | | | | | | o x pre | | n o obj ix v| | | | | |]; cbn [effect_frag] in H;
    try (right; right; split; [exact H|intros; discriminate]).
  - destruct x; try (right; right; split; [exact H|intros; discriminate]).
    destruct ((o =s lit "++") || (o =s lit "--")) eqn:Eo; [|right; right; split; [exact H|intros; discriminate]].
    apply orb_true_iff in Eo. rewrite !bytes_eqb_eq in Eo. bool_to_prop. right; left. by eexists _, _, _.
  - destruct ix; [done|]. bool_to_prop. left. exists n, o, obj, v. split_and!; try done.
    match goal with H : (_ || _)%bool = true |- _ => apply orb_true_iff in H as [H|H] end;
      [left; by apply bytes_eqb_eq|by right].
Qed.

Lemma m_assign n o obj v s s' :
  main_ok s -> dollar n = true -> o = lit "=" \/ is_compound o = true -> frag false v = true ->
  pool_in U (STRING n :: pool v) -> compile_name_assign n o (compile_expr v) s = Ret (tt, s') ->
  exists ins, emits s s' ins /\ effect_runs n (AssignmentExpression n o obj None v) s s' ins.
Proof. intros Hm Hd [->|Ho]; [by apply assign_plain|by apply assign_compound]. Qed.

Lemma assign_defines n o obj v m :
  defines (ExpressionStatement (AssignmentExpression n o obj None v)) = Some m -> m = n.
Proof. cbn [defines]. case_if; [by intros [= ->]|done]. Qed.

Lemma compile_dropped known e s r s1 s' :
  main_ok s -> effect_frag known e = true -> pool_in U (effect_pool e) ->
  compile_expr e 255 s = Ret (r, s1) -> free_temp r s1 = Ret (tt, s') ->
  exists ins, emits s s' ins /\ effect_does known e s s' ins.
Proof.
  intros Hm He Hp Hc Hf.
  destruct (effect_forms known e He) as [(n & o & obj & v & -> & Hd & Hk & Ho & Hv)|
    [(o & n & pre & -> & Ho & Hd & Hk)|[Hfr Hna]]].
  - cbn [compile_expr] in Hc. apply bind_Ret in Hc as ([] & s0 & Ha & Hc).
    destruct (m_assign n o obj v s s0 Hm Hd Ho Hv Hp Ha) as (i1 & E1 & H1).
    apply pool_cons in Hp as [Hn _].
    destruct (m_read_back n _ s s0 r s1 i1 E1 H1 Hn Hd Hc) as (i2 & E2 & Hl & H2).
    destruct (effect_free _ _ _ _ _ _ _ E2 Hl Hf H2) as [E3 H3]. exists i2. split; [done|].
    eapply effect_runs_does; [exact Hk| |exact H3]. apply assign_defines.
  - assert (Hc' : compile_incdec o n pre 255 s = Ret (r, s1)) by (by destruct Ho as [-> | ->]).
    destruct (compile_incdec_main o n pre s r s1 Hm Ho Hd Hp Hc') as (ins & E1 & Hl & H1).
    destruct (effect_free _ _ _ _ _ _ _ E1 Hl Hf H1) as [E2 H2]. exists ins. split; [done|].
    by eapply effect_runs_does.
  - assert (Hpe : pool_in U (pool e)).
    { destruct e as [| | | | | | | | | | o x pre | | | | | | | |]; try done. destruct x; try done.
      intros v Hv. cbn [pool] in Hv. apply Hp. cbn [effect_pool].
      apply list_elem_of_singleton in Hv as ->. by left. }
    by eapply pure_does.
Qed.

Lemma compile_effect known e s s' :
  main_ok (fc s) -> effect_frag known e = true -> pool_in U (effect_pool e) ->
  compile_stmt (ExpressionStatement e) [] s = Ret (tt, s') ->
  loop_stack_ s' = loop_stack_ s /\
  exists ins, emits (fc s) (fc s') ins /\ effect_does known e (fc s) (fc s') ins.
Proof.
  intros Hm He Hp Hc.
  destruct (effect_forms known e He) as [(n & o & obj & v & -> & Hd & Hk & Ho & Hv)|H].
  - apply up_Ret in Hc as [Hc Hl]. split; [done|].
    destruct (m_assign n o obj v (fc s) (fc s') Hm Hd Ho Hv Hp Hc) as (ins & E & H). exists ins.
    split; [done|]. eapply effect_runs_does; [exact Hk| |exact H]. apply assign_defines.
  - assert (Hna : forall n o obj ix v, e <> AssignmentExpression n o obj ix v)
      by (destruct H as [(? & ? & ? & -> & _)|[_ H]]; [done|exact H]).
    assert (Hc' : (sdo r <- up (compile_expr e 255); up (free_temp r)) s = Ret (tt, s'))
      by (destruct e; try exact Hc; by destruct (Hna _ _ _ _ _ eq_refl)).
    apply sbind_Ret in Hc' as (r & s1 & [H1 L1]%up_Ret & [H2 L2]%up_Ret). split; [congruence|].
    by eapply compile_dropped.
Qed.

(** ** What a statement is compiled to, and does *)

Definition loops_ext (ls : list LoopContext) (pos : nat) (ts : list piece) (ls' : list LoopContext) : Prop :=
  match ls with
  | [] => ls' = [] /\ holes is_brk pos ts = [] /\ holes is_cont pos ts = []
  | l :: r =>
      ls' = MkLoop (break_patches l ++ holes is_brk pos ts) (continue_patches l ++ holes is_cont pos ts)
              (continue_target l) (is_switch l) (finally_floor l) :: r /\
      (0 <= continue_target l -> holes is_cont pos ts = [])
  end.

Record compiled_stmt (s s' : SC) (ts : list piece) : Prop := {
  cs_emits : emits (fc s) (fc s') (map raw ts);
  cs_loops : loops_ext (loop_stack_ s) (length (code_ (fc s))) ts (loop_stack_ s')
}.

(** The machine can make [n] steps at least. *)
Definition busy (n : nat) (vm : VM) : Prop :=
  exists m vm', (n <= m)%nat /\ nsteps (stepr L depth) m vm vm'.

(** The machine stops, with these globals. *)
Definition exits (g : gmap bytes Value) (rs : list Value) (pc : nat) (r : VM -> xres)
    (g' : gmap bytes Value) : Prop :=
  exists vm1 vm', rtc (stepr L depth) (state_at g rs pc) vm1 /\ step L depth false vm1 = r vm' /\ globals vm' = g'.

Definition reaches (g : gmap bytes Value) (rs : list Value) (pc : nat) (g' : gmap bytes Value) (pc' : nat) : Prop :=
  exists rs', rtc (stepr L depth) (state_at g rs pc) (state_at g' rs' pc') /\ length rs' = length rs.

Definition mono (g g' : gmap bytes Value) : Prop := forall n : bytes, is_Some (g !! n) -> is_Some (g' !! n).

(** The completion [r] of a statement and what the machine does: [pc'] is the end
    of its code, [B] and [C] are where [break] and [continue] go, and [loop]
    says that there is a loop. An exit may leave scopes open. *)
Definition matches (F : nat) (loop : Prop) (B C : nat) (g : gmap bytes Value) (k : nat) (rs : list Value)
    (pc pc' : nat) (r : option sres) : Prop :=
  match r with
  | None => busy F (state_at g rs pc)
  | Some (SOut o x') => exists j g',
      env (xst x') = nest (j + k) g' /\ heap_ (xst x') = arrays vm0 /\ mono g g' /\
      match o with
      | ONormal => j = 0%nat /\ reaches g rs pc g' pc'
      | OBreak => j = 0%nat /\ loop /\ reaches g rs pc g' B
      | OContinue => j = 0%nat /\ loop /\ reaches g rs pc g' C
      | OReturn v => exits g rs pc (XReturn v) g'
      | OErr m => exits g rs pc (XErr m) g'
      | OThrow v => exits g rs pc (XThrow v) g'
      end
  | Some SUndef => True
  | Some SExternal => False
  end.

Definition target_is (ls : list LoopContext) (C : nat) : Prop :=
  match ls with
  | l :: _ => 0 <= continue_target l -> continue_target l = Z.of_nat C
  | [] => True
  end.

(** What a statement starts from: [s'] is the compiler after it. *)
Record valid (known : bytes -> bool) (s' : FunctionCompiler) (k : nat) (g : gmap bytes Value)
    (rs : list Value) (x : XS) : Prop := {
  va_room : room f s' rs;
  va_env : env (xst x) = nest k g;
  va_heap : heap_ (xst x) = arrays vm0;
  va_known : forall n, known n = true -> is_Some (g !! n)
}.

(** The code, with its jumps, is there. *)
Record placed (B C : nat) (s s' : SC) (ts : list piece) : Prop := {
  pl_brk : holes is_brk (length (code_ (fc s))) ts <> [] -> Z.of_nat B <= 65535;
  pl_cont : holes is_cont (length (code_ (fc s))) ts <> [] -> Z.of_nat C <= 65535;
  pl_target : target_is (loop_stack_ s) C;
  pl_seg : seg f (length (code_ (fc s))) (map (fill (Z.of_nat B) (Z.of_nat C)) ts);
  pl_consts : constants_ (fc s') `prefix_of` constants (f_proto f)
}.

Definition runs_as (known : bytes -> bool) (F : nat) (m : Exec) (s s' : SC) (ts : list piece) : Prop :=
  forall B C g k rs x, placed B C s s' ts -> valid known (fc s') k g rs x ->
  matches F (loop_stack_ s <> []) B C g k rs (length (code_ (fc s))) (length (code_ (fc s'))) (m x).

Definition no_switch (ls : list LoopContext) : Prop := Forall (fun l => is_switch l = false) ls.

Definition sound (known : bytes -> bool) (F : nat) (c : MS unit) (m : Exec) : Prop :=
  forall s s', main_ok (fc s) -> no_switch (loop_stack_ s) -> c s = Ret (tt, s') ->
  exists ts, compiled_stmt s s' ts /\ runs_as known F m s s' ts.

(** *** Runs *)

Lemma mono_refl g : mono g g. Proof. by intros n. Qed.
Lemma mono_trans g1 g2 g3 : mono g1 g2 -> mono g2 g3 -> mono g1 g3.
Proof. intros H1 H2 n H. by apply H2, H1. Qed.

Lemma busy_after n vm vm' : rtc (stepr L depth) vm vm' -> busy n vm' -> busy n vm.
Proof.
  intros [k Hk]%rtc_nsteps (m & vm2 & Hm & H). exists (k + m)%nat, vm2. split; [lia|].
  by eapply nsteps_trans.
Qed.
Lemma busy_step n vm vm' : stepr L depth vm vm' -> busy n vm' -> busy (S n) vm.
Proof.
  intros Hs (m & vm2 & Hm & H). exists (S m), vm2. split; [lia|]. by eapply nsteps_l.
Qed.
Lemma busy_less n m vm : (n <= m)%nat -> busy m vm -> busy n vm.
Proof. intros Hn (k & vm' & Hk & H). exists k, vm'. split; [lia|done]. Qed.

Lemma exits_after g rs pc g1 pc1 rs1 r g' :
  rtc (stepr L depth) (state_at g rs pc) (state_at g1 rs1 pc1) -> exits g1 rs1 pc1 r g' -> exits g rs pc r g'.
Proof. intros H (vm1 & vm' & H1 & H2). exists vm1, vm'. split; [by etrans|done]. Qed.

Lemma reaches_after g rs pc g1 pc1 rs1 g' pc' :
  rtc (stepr L depth) (state_at g rs pc) (state_at g1 rs1 pc1) -> length rs1 = length rs ->
  reaches g1 rs1 pc1 g' pc' -> reaches g rs pc g' pc'.
Proof. intros H Hl (rs' & H1 & H2). exists rs'. split; [by etrans|congruence]. Qed.

(** Steps before a statement. *)
Lemma matches_after F loop B C g k rs pc g1 rs1 pc1 pc' r :
  rtc (stepr L depth) (state_at g rs pc) (state_at g1 rs1 pc1) -> length rs1 = length rs -> mono g g1 ->
  matches F loop B C g1 k rs1 pc1 pc' r -> matches F loop B C g k rs pc pc' r.
Proof.
  intros H Hl Hg Hr. unfold matches in *. destruct r as [[o x'| |]|]; [|done|done|by eapply busy_after].
  destruct Hr as (j & g' & He & Hh & Hm & Ho). exists j, g'. split; [done|]. split; [done|].
  split; [by eapply mono_trans|].
  destruct o; try (by eapply exits_after); destruct_and?; split_and?; try done; by eapply reaches_after.
Qed.

Lemma failing_exits g rs pc m :
  (length (try_stack vm0) <= try_floor vm0)%nat -> failing g rs pc m -> exits g rs pc (XErr m) g.
Proof.
  intros Ht (rs' & k' & H1 & H2). exists (state_at g rs' k'), (state_at g rs' (S k')). split; [exact H1|].
  split; [|done]. unfold state_at. rewrite H2. unfold raised, to_handler.
  cbn [try_stack try_floor mk set_stack set_regs set_globals]. by rewrite (proj2 (Nat.leb_le _ _) Ht).
Qed.

(** *** Templates *)

Lemma loops_ext_I ls pos ins : loops_ext ls pos (map I ins) ls.
Proof.
  unfold loops_ext. destruct ls as [|[b c t w n] r]; rewrite !holes_I by done; [done|].
  cbn. by rewrite !app_nil_r.
Qed.

Lemma loops_ext_app ls ls1 ls2 pos t1 t2 :
  loops_ext ls pos t1 ls1 -> loops_ext ls1 (pos + length t1) t2 ls2 -> loops_ext ls pos (t1 ++ t2) ls2.
Proof.
  unfold loops_ext. destruct ls as [|l r].
  - intros (-> & H1 & H2) (-> & H3 & H4). by rewrite !holes_app, H1, H2, H3, H4.
  - intros [-> H1] [-> H2]. cbn in *. rewrite !holes_app, !app_assoc. split; [done|].
    intros Ht. by rewrite H1, H2.
Qed.

(** The stack keeps its height, its targets and its kinds. *)
Lemma loops_ext_shape ls pos ts ls' :
  loops_ext ls pos ts ls' ->
  (no_switch ls -> no_switch ls') /\ (forall C, target_is ls C -> target_is ls' C) /\ (ls' <> [] <-> ls <> []).
Proof.
  unfold loops_ext. destruct ls as [|l r].
  - by intros (-> & _).
  - intros [-> _]. split; [intros [H1 H2]%Forall_cons; by apply Forall_cons|]. by split.
Qed.

Lemma cs_app s s1 s2 t1 t2 :
  compiled_stmt s s1 t1 -> compiled_stmt s1 s2 t2 -> compiled_stmt s s2 (t1 ++ t2).
Proof.
  intros [E1 L1] [E2 L2]. split; [rewrite map_app; by eapply emits_app|].
  eapply loops_ext_app; [done|]. by rewrite (em_code _ _ _ E1), length_app, length_map in L2.
Qed.

Lemma cs_length s s' ts :
  compiled_stmt s s' ts -> length (code_ (fc s')) = (length (code_ (fc s)) + length ts)%nat.
Proof. intros [E _]. by rewrite (em_code _ _ _ E), length_app, length_map. Qed.

Lemma cs_up s s' ins :
  emits (fc s) (fc s') ins -> loop_stack_ s' = loop_stack_ s -> compiled_stmt s s' (map I ins).
Proof.
  intros E Hl. split; [|rewrite Hl; apply loops_ext_I]. rewrite map_map. cbn [raw]. by rewrite map_id.
Qed.

Lemma cs_ok s s' ts : compiled_stmt s s' ts -> main_ok (fc s').
Proof. by intros [[] _]. Qed.

(** The first of two pieces of code. *)
Lemma placed_app B C s s1 s2 t1 t2 :
  compiled_stmt s s1 t1 -> compiled_stmt s1 s2 t2 -> placed B C s s2 (t1 ++ t2) ->
  placed B C s s1 t1 /\ placed B C s1 s2 t2.
Proof.
  intros C1 C2 [P1 P2 P3 P4 P5]. rewrite holes_app in P1, P2. rewrite map_app in P4.
  apply seg_app in P4 as [P4 P6]. rewrite length_map in P6. rewrite <- (cs_length _ _ _ C1) in *. split.
  - split; try done.
    + intros H. apply P1. intros [? _]%app_nil. done.
    + intros H. apply P2. intros [? _]%app_nil. done.
    + eapply emits_prefix; [apply C2|done].
  - split; try done.
    + intros H. apply P1. intros [_ ?]%app_nil. done.
    + intros H. apply P2. intros [_ ?]%app_nil. done.
    + destruct C1 as [_ C1]. by apply (loops_ext_shape _ _ _ _ C1).
Qed.

Lemma valid_emits known k g rs x s s' ins : emits s s' ins -> valid known s' k g rs x -> valid known s k g rs x.
Proof. intros E [H1 H2 H3 H4]. split; try done. by eapply emits_room. Qed.

Lemma matches_loop F (P Q : Prop) B C g k rs pc pc' r :
  (P -> Q) -> matches F P B C g k rs pc pc' r -> matches F Q B C g k rs pc pc' r.
Proof.
  intros HPQ. unfold matches. destruct r as [[o x'| |]|]; try done.
  intros (j & g' & He & Hh & Hm & Ho). exists j, g'. destruct o; try done; naive_solver.
Qed.

(** One statement and what comes after its normal end. *)
Lemma matches_then known s' F P B C g k rs pc pc1 pc2 x (m kont : Exec) :
  valid known s' k g rs x -> matches F P B C g k rs pc pc1 (m x) ->
  (forall g1 rs1 x1, valid known s' k g1 rs1 x1 -> matches F P B C g1 k rs1 pc1 pc2 (kont x1)) ->
  matches F P B C g k rs pc pc2 (andthen m kont x).
Proof.
  intros [V1 V2 V3 V4] H Hk. unfold andthen. destruct (m x) as [[o x1| |]|]; [|done|done|done].
  pose proof H as (j & g1 & He & Hh & Hm & Ho). destruct o; try exact H.
  destruct Ho as [-> (rs1 & Hr & Hl)]. eapply matches_after; [done|done|done|]. apply Hk. split; try done.
  - unfold room in *. by rewrite Hl.
  - intros n Hn. by apply Hm, V4.
Qed.

(** A normal end, here. *)
Lemma matches_here known s' F P B C g k rs pc x :
  valid known s' k g rs x -> matches F P B C g k rs pc pc (Some (SOut ONormal x)).
Proof.
  intros [V1 V2 V3 V4]. exists 0%nat, g. split; [done|]. split; [done|]. split; [apply mono_refl|].
  split; [done|]. by exists rs.
Qed.

Lemma sound_skip known F : sound known F (sret tt) no_effect.
Proof.
  intros s s' Hm Hs [= <-]. exists []. split; [by apply (cs_up s s []); [apply emits_refl|]|].
  intros B C g k rs x _ Hv. by eapply matches_here.
Qed.

Lemma sound_seq known F c1 c2 m1 m2 :
  sound known F c1 m1 -> sound known F c2 m2 -> sound known F (sbind c1 (fun _ => c2)) (andthen m1 m2).
Proof.
  intros H1 H2 s s' Hm Hs ([] & s1 & Hc1 & Hc2)%sbind_Ret.
  destruct (H1 s s1 Hm Hs Hc1) as (t1 & C1 & R1).
  destruct (loops_ext_shape _ _ _ _ (cs_loops _ _ _ C1)) as (Hs1 & _ & Hl1).
  destruct (H2 s1 s' (cs_ok _ _ _ C1) (Hs1 Hs) Hc2) as (t2 & C2 & R2).
  exists (t1 ++ t2). split; [by eapply cs_app|]. intros B C g k rs x Hp Hv.
  destruct (placed_app _ _ _ _ _ _ _ C1 C2 Hp) as [P1 P2].
  eapply matches_then; [exact Hv| |].
  - apply R1; [done|]. eapply valid_emits; [apply C2|done].
  - intros g1 rs1 x1 Hv1. eapply matches_loop; [apply Hl1|]. by apply R2.
Qed.

(** *** Blocks *)

Lemma m_push s s' : main_ok s -> push_scope s = Ret (tt, s') ->
  emits s s' [] /\ constants_ s' = constants_ s /\ max (regs_ s') = max (regs_ s).
Proof.
  intros Hm H. pose proof (km_push _ _ _ (mo_main _ Hm) H) as Hm'.
  apply push_scope_Ret in H as (Hc & Hk & Hr & _).
  split; [|by rewrite Hr]. apply same_regs_emits; try done. by rewrite app_nil_r.
Qed.
Lemma m_pop s s' : main_ok s -> pop_scope s = Ret (tt, s') ->
  emits s s' [] /\ constants_ s' = constants_ s /\ max (regs_ s') = max (regs_ s).
Proof.
  intros Hm H. pose proof (km_pop _ _ _ (mo_main _ Hm) H) as Hm'.
  apply pop_scope_Ret in H as (Hc & Hk & Hr); [|apply Hm].
  split; [|by rewrite Hr]. apply same_regs_emits; try done. by rewrite app_nil_r.
Qed.

(** Code that only changes the compiler around a statement. *)
Lemma cs_around s s1 s2 s3 ts :
  emits (fc s) (fc s1) [] -> loop_stack_ s1 = loop_stack_ s -> compiled_stmt s1 s2 ts ->
  emits (fc s2) (fc s3) [] -> loop_stack_ s3 = loop_stack_ s2 -> compiled_stmt s s3 ts.
Proof.
  intros E1 L1 C2 E3 L3. rewrite <- (app_nil_r ts).
  eapply (cs_app s s1 s3 []); [by apply (cs_up _ _ [])|].
  eapply (cs_app s1 s2 s3 _ []); [done|by apply (cs_up _ _ [])].
Qed.

Lemma placed_around B C s s1 s2 s3 ts :
  emits (fc s) (fc s1) [] -> loop_stack_ s1 = loop_stack_ s -> emits (fc s2) (fc s3) [] ->
  placed B C s s3 ts -> placed B C s1 s2 ts.
Proof.
  intros E1 L1 E3 [P1 P2 P3 P4 P5].
  assert (Hc : length (code_ (fc s1)) = length (code_ (fc s))) by (by rewrite (em_code _ _ _ E1), app_nil_r).
  split; rewrite ?Hc, ?L1; try done. by eapply emits_prefix.
Qed.

Lemma env_restore k j g x :
  env (xst x) = nest (j + k) g -> env (xst (restore (S k) x)) = nest k g.
Proof.
  intros He. cbn [restore with_env xst env]. rewrite He, length_nest.
  replace (S (j + k) - S k)%nat with j by lia. apply drop_nest.
Qed.

(** Closing the scopes above [k]. *)
Lemma matches_close F P B C g k rs pc pc' r :
  matches F P B C g (S k) rs pc pc' r ->
  matches F P B C g k rs pc pc' (on_out (restore (S k)) r).
Proof.
  unfold matches, on_out. destruct r as [[o x1| |]|]; try done.
  intros (j & g' & He & Hh & Hm & Ho).
  assert (He' : env (xst (restore (S k) x1)) = nest k g').
  { apply (env_restore k (S j)). rewrite He. f_equal. lia. }
  exists 0%nat, g'. split; [done|]. split; [done|]. split; [done|].
  destruct o; naive_solver.
Qed.

Lemma valid_open known s' k g rs x :
  valid known s' k g rs x -> valid known s' (S k) g rs (open_scope ∅ x).
Proof. intros [V1 V2 V3 V4]. split; try done. cbn. by rewrite V2. Qed.

(** Statements in a scope, closed as [m'] closes it. *)
Lemma sound_scope known F c m m' :
  sound known F c m ->
  (forall P B C g k rs pc pc' x, env (xst x) = nest k g ->
     matches F P B C g (S k) rs pc pc' (m (open_scope ∅ x)) -> matches F P B C g k rs pc pc' (m' x)) ->
  sound known F (compile_block c) m'.
Proof.
  intros H Hclose s s' Hm Hs Hc. unfold compile_block in Hc.
  apply sbind_Ret in Hc as ([] & s1 & [H1 L1]%up_Ret & Hc).
  apply sbind_Ret in Hc as ([] & s2 & H2 & [H3 L3]%up_Ret).
  destruct (m_push _ _ Hm H1) as (E1 & _).
  destruct (H s1 s2 (em_main _ _ _ E1) ltac:(by rewrite L1) H2) as (ts & C2 & R2).
  destruct (m_pop _ _ (cs_ok _ _ _ C2) H3) as (E3 & _).
  exists ts. split; [by eapply cs_around|]. intros B C g k rs x Hp Hv.
  apply Hclose; [by destruct Hv|].
  specialize (R2 B C g (S k) rs (open_scope ∅ x)). rewrite L1 in R2.
  rewrite (em_code _ _ _ E1), app_nil_r in R2. rewrite (em_code _ _ _ E3), app_nil_r.
  apply R2; [by eapply placed_around|]. eapply valid_emits; [exact E3|]. by apply valid_open.
Qed.

Lemma sound_block known F c m :
  sound known F c m -> sound known F (compile_block c) (scoped ∅ m).
Proof.
  intros H. apply (sound_scope _ _ _ _ _ H). intros P B C g k rs pc pc' x Hen Hr.
  unfold scoped. rewrite Hen, length_nest. by apply matches_close.
Qed.

(** *** Simple statements *)

Hypothesis (Hret : ret_reg f < 0) (Htry : (length (try_stack vm0) <= try_floor vm0)%nat).

Lemma fill_I B C ins : map (fill B C) (map I ins) = ins.
Proof. rewrite map_map. cbn [fill]. apply map_id. Qed.

Lemma eta_XS (x : XS) : x = MkXS (xst x) (out x). Proof. by destruct x. Qed.

Lemma effect_matches kn known F P B C e s s' ins g k rs x (kont : Value -> Exec) pc' :
  effect_does kn e s s' ins -> k = 0%nat \/ (forall n, kn n = true -> is_Some (g !! n)) ->
  valid known s' k g rs x -> seg f (length (code_ s)) ins -> constants_ s' `prefix_of` constants (f_proto f) ->
  (forall v g' rs' x', valid known s' k g' rs' x' -> length rs' = length rs ->
     (forall n, defines (ExpressionStatement e) = Some n -> is_Some (g' !! n)) ->
     matches F P B C g' k rs' (length (code_ s')) pc' (kont v x')) ->
  matches F P B C g k rs (length (code_ s)) pc' (eval_expr L depth e kont x).
Proof.
  intros He Hkn [V1 V2 V3 V4] Hseg Hpre Hk.
  specialize (He g k rs (xst x) V1 Hseg Hpre V2 V3 Hkn). unfold eval_expr, eval.
  destruct (evaluate_expression L depth e (xst x)) as [v st'|m st'| |]; [| |done|done].
  - destruct He as (g' & rs' & -> & Hm & Hd & Hrtc & Hlen).
    eapply matches_after; [exact Hrtc|done|exact Hm|]. apply Hk; [|done|done]. split; try done.
    + unfold room in *. by rewrite Hlen.
    + intros n Hn. by apply Hm, V4.
  - destruct He as [-> Hf]. exists 0%nat, g. split; [done|]. split; [done|]. split; [apply mono_refl|].
    by apply failing_exits.
Qed.

Lemma sound_effect known F e :
  effect_frag known e = true -> pool_in U (effect_pool e) ->
  sound known F (compile_stmt (ExpressionStatement e) []) (execute_statement L depth F (ExpressionStatement e)).
Proof.
  intros He Hp s s' Hm Hs Hc. destruct (compile_effect known e s s' Hm He Hp Hc) as (Hl & ins & E & Hd).
  exists (map I ins). split; [by apply cs_up|]. intros B C g k rs x [P1 P2 P3 P4 P5] Hv.
  rewrite fill_I in P4. cbn [execute_statement].
  eapply effect_matches; [exact Hd|right; apply Hv|done..|].
  intros v g' rs' x' Hv' _ _. by eapply matches_here.
Qed.

Lemma expr_matches known b F P B C e s s1 r ins g k rs x (kont : Value -> Exec) pc' :
  expr_runs b e s s1 r ins -> valid known s1 k g rs x -> seg f (length (code_ s)) ins ->
  constants_ s1 `prefix_of` constants (f_proto f) ->
  (forall v w rs', length rs' = length rs -> rs' !! slot f r = Some w -> same vm0 b w v ->
     matches F P B C g k rs' (length (code_ s1)) pc' (kont v x)) ->
  matches F P B C g k rs (length (code_ s)) pc' (eval_expr L depth e kont x).
Proof.
  intros He [V1 V2 V3 V4] Hseg Hpre Hk. specialize (He g k rs (xst x) V1 Hseg Hpre V2 V3).
  unfold eval_expr, eval. destruct (evaluate_expression L depth e (xst x)) as [v st'|m st'| |]; [| |done|done].
  - destruct He as (-> & rs' & w & Hrtc & Hlen & Hw & Hsame & _). rewrite <- eta_XS.
    eapply matches_after; [exact Hrtc|done|apply mono_refl|]. by eapply Hk.
  - destruct He as [-> Hf]. exists 0%nat, g. split; [done|]. split; [done|]. split; [apply mono_refl|].
    by apply failing_exits.
Qed.

(** An instruction that ends the run. *)
Lemma exits_return g rs k r v :
  instr_at f k (mkI RETURN r 0 0) -> rs !! slot f r = Some v -> exits g rs k (XReturn v) g.
Proof.
  intros Hi Hv. eexists _, _. split; [done|]. unfold state_at. rewrite (step_mk _ _ _ _ _ _ _ _ Hi).
  cbn [exec op a]. rewrite reg_mk, Hv. unfold do_return. cbn [call_stack mk set_stack set_regs List.tl ret_reg set_ip].
  rewrite (proj2 (Z.ltb_lt _ _) Hret). destruct tl; by split.
Qed.
Lemma exits_return_null g rs k :
  instr_at f k (mkI RETURN_NULL 0 0 0) -> exits g rs k (XReturn NONE) g.
Proof.
  intros Hi. eexists _, _. split; [done|]. unfold state_at. rewrite (step_mk _ _ _ _ _ _ _ _ Hi).
  cbn [exec op a]. unfold do_return. cbn [call_stack mk set_stack set_regs List.tl ret_reg set_ip].
  rewrite (proj2 (Z.ltb_lt _ _) Hret). destruct tl; by split.
Qed.
Lemma exits_throw g rs k r v :
  instr_at f k (mkI THROW r 0 0) -> rs !! slot f r = Some v -> exits g rs k (XThrow v) g.
Proof.
  intros Hi Hv. eexists _, _. split; [done|]. unfold state_at. rewrite (step_mk _ _ _ _ _ _ _ _ Hi).
  cbn [exec op exec_try a]. rewrite reg_mk, Hv. unfold to_handler.
  cbn [try_stack try_floor mk set_stack set_regs set_globals set_exc].
  rewrite (proj2 (Nat.leb_le _ _) Htry). by split.
Qed.

(** The code of an expression and one instruction that ends the run with its value. *)
Definition leaves_with (o : OpCode) (out_ : Value -> completion) : Prop :=
  forall g k rs pc r v x, instr_at f pc (mkI o r 0 0) -> rs !! slot f r = Some v ->
  env (xst x) = nest k g -> heap_ (xst x) = arrays vm0 ->
  forall F P B C pc', matches F P B C g k rs pc pc' (Some (SOut (out_ v) x)).

Lemma leaves_return : leaves_with RETURN OReturn.
Proof.
  intros g k rs pc r v x Hi Hv He Hh F P B C pc'. exists 0%nat, g.
  split; [done|]. split; [done|]. split; [apply mono_refl|]. by eapply exits_return.
Qed.
Lemma leaves_throw : leaves_with THROW OThrow.
Proof.
  intros g k rs pc r v x Hi Hv He Hh F P B C pc'. exists 0%nat, g.
  split; [done|]. split; [done|]. split; [apply mono_refl|]. by eapply exits_throw.
Qed.

Lemma sound_leave known F e o out_ :
  leaves_with o out_ -> frag false e = true -> pool_in U (pool e) ->
  sound known F (sdo r <- up (compile_expr e 255); srun up (emit o r 0 0); up (free_temp r))
    (eval_expr L depth e (fun v => leave (out_ v))).
Proof.
  intros Ho He Hp s s' Hm Hs Hc. apply sbind_Ret in Hc as (r & s1 & [H1 L1]%up_Ret & Hc).
  apply sbind_Ret in Hc as (n & s2 & [H2 L2]%up_Ret & [H3 L3]%up_Ret).
  destruct (compile_expr_main false e _ _ _ He Hm Hp H1) as (ins & Hc1 & Hk1 & Hm1 & He1 & Hr1 & Hrun).
  pose proof (expr_emits _ _ _ Hc1 Hk1 Hm1 He1) as E1.
  destruct (m_emit _ _ _ _ _ _ _ Hm1 H2) as (E2 & _ & R2 & K2).
  assert (Hl : live (regs_ (fc s2)) r)
    by (rewrite R2; apply (result_live (regs_ (fc s)) _ 255); [apply Hm|by left|done]).
  destruct (m_free _ _ _ (em_main _ _ _ E2) Hl H3) as (E3 & _).
  pose proof (emits_app _ _ _ _ _ (emits_app _ _ _ _ _ E1 E2) E3) as E. rewrite app_nil_r in E.
  exists (map I (ins ++ [mkI o r 0 0])). split; [apply cs_up; [exact E|congruence]|].
  intros B C g k rs x [P1 P2 P3 P4 P5] Hv. rewrite fill_I in P4. apply seg_app in P4 as [P4 P6].
  apply seg_one in P6. rewrite <- length_app, <- Hc1 in P6.
  pose proof (emits_app _ _ _ _ _ E2 E3) as E23.
  eapply expr_matches; [exact Hrun|by eapply valid_emits|done|by eapply emits_prefix|].
  intros v w rs' Hlen Hw Hsame. cbn [same] in Hsame. subst w. destruct Hv as [_ V2 V3 _].
  by apply (Ho g k rs' _ r v x).
Qed.

Lemma sound_return known F e :
  match e with Some e => frag false e = true /\ pool_in U (pool e) | None => True end ->
  sound known F (compile_stmt (ReturnStatement e) []) (execute_statement L depth F (ReturnStatement e)).
Proof.
  destruct e as [e|]; intros He.
  - destruct He as [Hf Hp]. exact (sound_leave known F e RETURN OReturn leaves_return Hf Hp).
  - intros s s' Hm Hs Hc. apply sbind_Ret in Hc as (n0 & s0 & [= <- <-] & Hc).
    apply sbind_Ret in Hc as (n & s1 & [H1 L1]%up_Ret & [= <-]).
    destruct (m_emit _ _ _ _ _ _ _ Hm H1) as (E1 & _). eexists (map I [_]).
    split; [by apply cs_up|]. intros B C g k rs x [P1 P2 P3 P4 P5] [V1 V2 V3 V4].
    apply seg_one in P4. exists 0%nat, g. split; [done|]. split; [done|]. split; [apply mono_refl|].
    by apply exits_return_null.
Qed.

Lemma sound_throw known F e :
  frag false e = true -> pool_in U (pool e) ->
  sound known F (compile_stmt (ThrowStatement e) []) (execute_statement L depth F (ThrowStatement e)).
Proof. intros He Hp. by apply (sound_leave known F e THROW OThrow leaves_throw). Qed.

(** *** [break] and [continue] *)

Lemma m_jump o x t s n s' :
  main_ok s -> 0 <= t -> emit_wide o x t s = Ret (n, s') ->
  t <= 65535 /\ emits s s' [mkI o x (t / 256) (t mod 256)] /\ regs_ s' = regs_ s /\ constants_ s' = constants_ s.
Proof.
  intros Hm Ht H. assert (Hr : t <= 65535).
  { apply bind_Ret in H as (h & s1 & H & _). unfold of_res, hi8, u16 in H. destruct (Z.ltb_spec 65535 t); [|done]. by destruct (t <? 0). }
  split; [done|]. by eapply m_wide.
Qed.

Lemma jump_matches F P B C g k rs pc pc' x t o :
  instr_at f pc (jump_i (Z.of_nat t)) -> Z.of_nat t <= 65535 ->
  matches F P B C g k rs t pc' (Some (SOut o x)) -> matches F P B C g k rs pc pc' (Some (SOut o x)).
Proof.
  intros Hi Ht H. eapply matches_after; [|done|apply mono_refl|exact H].
  apply rtc_once. by eapply step_jump_always.
Qed.

Lemma no_pending n s x s1 : emit_pending_finallys [] n s = Ret (x, s1) -> s1 = s.
Proof. unfold emit_pending_finallys. rewrite drop_nil. by intros [= _ <-]. Qed.

Lemma m_hole s p s1 :
  main_ok s -> emit_jump JUMP 0 s = Ret (p, s1) -> emits s s1 [no_target] /\ p = Z.of_nat (length (code_ s)).
Proof. intros Hm H. by destruct (m_emit _ _ _ _ _ _ _ Hm H) as (E & Hp & _). Qed.

Lemma sound_break known F :
  sound known F (compile_stmt BreakStatement []) (execute_statement L depth F BreakStatement).
Proof.
  intros s s' Hm Hs Hc. cbn [compile_stmt] in Hc. unfold compile_break in Hc.
  destruct (loop_stack_ s) as [|l ls] eqn:El; [done|].
  apply sbind_Ret in Hc as (u0 & s1 & ->%no_pending & Hc).
  apply sbind_Ret in Hc as (p & s2 & [H2 L2]%up_Ret & Hw).
  unfold with_loops in Hw. injection Hw as <-. destruct (m_hole _ _ _ Hm H2) as [E Hp].
  exists [Brk]. split; [split; [exact E|]|].
  { cbn [loop_stack_ fc]. rewrite L2, El, Hp. cbn. by rewrite app_nil_r. }
  intros B C g k rs x [P1 P2 P3 P4 P5] [V1 V2 V3 V4]. apply seg_one in P4.
  eapply jump_matches; [exact P4|by apply P1|]. exists 0%nat, g.
  split; [done|]. split; [done|]. split; [apply mono_refl|]. split; [done|].
  split; [by rewrite El|]. by exists rs.
Qed.

Lemma sound_continue known F :
  sound known F (compile_stmt ContinueStatement []) (execute_statement L depth F ContinueStatement).
Proof.
  intros s s' Hm Hs Hc. cbn [compile_stmt] in Hc. unfold compile_continue in Hc.
  destruct (loop_stack_ s) as [|l ls] eqn:El; [done|].
  pose proof Hs as [Hsw _]%Forall_cons. cbn [nearest_loop] in Hc. rewrite Hsw in Hc.
  apply sbind_Ret in Hc as (u0 & s1 & ->%no_pending & Hc).
  assert (Hend : forall C g k rs x, env (xst x) = nest k g -> heap_ (xst x) = arrays vm0 ->
    forall B pc', matches F (loop_stack_ s <> []) B C g k rs C pc' (Some (SOut OContinue x))).
  { intros C g k rs x V2 V3 B pc'. exists 0%nat, g. split; [done|]. split; [done|].
    split; [apply mono_refl|]. split; [done|]. split; [by rewrite El|]. by exists rs. }
  destruct (0 <=? continue_target l) eqn:Et; bool_to_prop.
  - apply sbind_Ret in Hc as (n & s2 & [H2 L2]%up_Ret & [= <-]).
    destruct (m_jump _ _ _ _ _ _ Hm Et H2) as (Ht & E & _).
    exists [I (jump_i (continue_target l))]. split; [by apply (cs_up _ _ [_])|].
    intros B C g k rs x [P1 P2 P3 P4 P5] [V1 V2 V3 V4]. apply seg_one in P4.
    rewrite El in P3. specialize (P3 Et). cbn [fill] in P4. rewrite P3 in *.
    eapply jump_matches; [exact P4|done|]. by apply Hend.
  - apply sbind_Ret in Hc as (p & s2 & [H2 L2]%up_Ret & Hw).
    unfold with_loops in Hw. injection Hw as <-. destruct (m_hole _ _ _ Hm H2) as [E Hp].
    exists [Cont]. split; [split; [exact E|]|].
    { cbn [loop_stack_ fc]. rewrite L2, El, Hp. cbn [add_continue]. rewrite Hsw. cbn. rewrite Hsw.
      rewrite app_nil_r. split; [done|lia]. }
    intros B C g k rs x [P1 P2 P3 P4 P5] [V1 V2 V3 V4]. apply seg_one in P4.
    eapply jump_matches; [exact P4|by apply P2|]. by apply Hend.
Qed.

(** *** Tests and jumps over code *)

(** The constants and the registers a later state has. *)
Definition grows (s s' : FunctionCompiler) : Prop :=
  constants_ s `prefix_of` constants_ s' /\ max (regs_ s) <= max (regs_ s').
#[local] Instance grows_preorder : PreOrder grows.
Proof.
  split; [by intros s; split|]. intros s1 s2 s3 [H1 H2] [H3 H4]. split; [by etrans|lia].
Qed.
Lemma emits_grows s s' ins : emits s s' ins -> grows s s'.
Proof. intros E. split; [apply E|]. by apply ra_ext_max, (em_regs _ _ _ E). Qed.
Lemma cs_grows s s' ts : compiled_stmt s s' ts -> grows (fc s) (fc s').
Proof. intros C. by eapply emits_grows, cs_emits. Qed.

Lemma valid_grows known k g rs x s s' : grows s s' -> valid known s' k g rs x -> valid known s k g rs x.
Proof. intros [_ Hr] [H1 H2 H3 H4]. split; try done. unfold room in *. lia. Qed.

Lemma placed_part B C s s' pre ts post s1 s2 :
  placed B C s s' (pre ++ ts ++ post) ->
  length (code_ (fc s1)) = (length (code_ (fc s)) + length pre)%nat -> grows (fc s2) (fc s') ->
  (target_is (loop_stack_ s) C -> target_is (loop_stack_ s1) C) -> placed B C s1 s2 ts.
Proof.
  intros [P1 P2 P3 P4 P5] Hl [Hk _] Ht. rewrite !holes_app in P1, P2. rewrite !map_app in P4.
  apply seg_app in P4 as [_ P4]. apply seg_app in P4 as [P4 _]. rewrite length_map in P4.
  split; rewrite ?Hl; auto.
  - intros H. apply P1. intros [_ [? _]%app_nil]%app_nil. done.
  - intros H. apply P2. intros [_ [? _]%app_nil]%app_nil. done.
  - by etrans.
Qed.

Definition to_ (i : Instruction) (t : Z) : Instruction := mkI (op i) (a i) (t / 256) (t mod 256).

Lemma emits_patch s s1 s2 t1 i t2 off t :
  emits (fc s) (fc s1) (map raw (t1 ++ I i :: t2)) ->
  off = Z.of_nat (length (code_ (fc s)) + length t1) ->
  0 <= t -> up (patch_jump off t) s1 = Ret (tt, s2) ->
  t <= 65535 /\ emits (fc s) (fc s2) (map raw (t1 ++ I (to_ i t) :: t2)) /\
  grows (fc s1) (fc s2) /\ length (code_ (fc s2)) = length (code_ (fc s1)) /\ loop_stack_ s2 = loop_stack_ s1.
Proof.
  intros E -> Ht [H Hl]%up_Ret. pose proof (em_main _ _ _ E) as Hm.
  assert (Hc : code_ (fc s1) = (code_ (fc s) ++ map raw t1) ++ i :: map raw t2)
    by (by rewrite (em_code _ _ _ E), map_app, <- app_assoc).
  assert (Hn : (length (code_ (fc s)) + length t1)%nat = length (code_ (fc s) ++ map raw t1))
    by (by rewrite length_app, length_map).
  rewrite Hn in *. pose proof (km_patch _ _ _ _ _ (mo_main _ Hm) H) as Hm'.
  destruct (patch_jump_Ret (length (code_ (fc s) ++ map raw t1)) t (fc s1) (fc s2) i Ht
    ltac:(rewrite Hc; by apply list_lookup_middle) H) as (Hr & Hc2 & Hk & Hg & _).
  split; [done|]. split; [|split; [split; [by rewrite Hk|by rewrite Hg]|split; [by rewrite Hc2, length_insert|done]]].
  split; [|rewrite Hk; apply E| |rewrite Hg; apply E].
  - rewrite Hc2, Hc, insert_app_r_alt, Nat.sub_diag by lia. cbn. by rewrite map_app, <- app_assoc.
  - destruct Hm as [_ Hm2 Hm3]. split; [done|by rewrite Hg|by rewrite Hk].
Qed.

Lemma cs_patch s s1 s2 t1 i t2 off t :
  compiled_stmt s s1 (t1 ++ I i :: t2) -> off = Z.of_nat (length (code_ (fc s)) + length t1) ->
  0 <= t -> up (patch_jump off t) s1 = Ret (tt, s2) ->
  t <= 65535 /\ compiled_stmt s s2 (t1 ++ I (to_ i t) :: t2) /\
  grows (fc s1) (fc s2) /\ length (code_ (fc s2)) = length (code_ (fc s1)) /\ loop_stack_ s2 = loop_stack_ s1.
Proof.
  intros [E Hls] Ho Ht H. destruct (emits_patch _ _ _ _ _ _ _ _ E Ho Ht H) as (Hr & E2 & G & Hn & Hl).
  split_and!; try done. split; [exact E2|]. rewrite Hl. unfold loops_ext in *. by rewrite !holes_app in *.
Qed.

Lemma matches_less F F' P B C g k rs pc pc' r :
  (F' <= F)%nat -> matches F P B C g k rs pc pc' r -> matches F' P B C g k rs pc pc' r.
Proof. intros HF. unfold matches. destruct r as [[o x'| |]|]; try done. by apply busy_less. Qed.

Lemma matches_step F P B C g k rs pc pc1 pc' r :
  stepr L depth (state_at g rs pc) (state_at g rs pc1) ->
  matches F P B C g k rs pc1 pc' r -> matches (S F) P B C g k rs pc pc' r.
Proof.
  intros Hs H. destruct r as [r|].
  - eapply matches_after; [by apply rtc_once|done|apply mono_refl|]. exact H.
  - by eapply busy_step.
Qed.

(** A condition and its jump to [t]: a step at least. *)
Definition tests (c : Expression) (s s' : FunctionCompiler) (cond : Z) (ins : list Instruction) : Prop :=
  forall known F P B C g k rs x pc' t (kont : Value -> Exec),
  valid known s' k g rs x ->
  seg f (length (code_ s)) (ins ++ [to_ (mkI JUMP_IF_FALSE cond 0 0) (Z.of_nat t)]) ->
  constants_ s' `prefix_of` constants (f_proto f) -> Z.of_nat t <= 65535 ->
  (forall v rs', length rs' = length rs ->
     matches F P B C g k rs' (if truthy x v then length (code_ s') else t) pc' (kont v x)) ->
  matches (S F) P B C g k rs (length (code_ s)) pc' (eval_expr L depth c kont x).

Lemma m_test c s cond s1 j s2 s3 :
  main_ok s -> frag true c = true -> pool_in U (pool c) ->
  compile_expr c 255 s = Ret (cond, s1) -> emit_jump JUMP_IF_FALSE cond s1 = Ret (j, s2) ->
  free_temp cond s2 = Ret (tt, s3) ->
  exists ins, emits s s3 (ins ++ [mkI JUMP_IF_FALSE cond 0 0]) /\
    j = Z.of_nat (length (code_ s) + length ins) /\ tests c s s3 cond ins.
Proof.
  intros Hm Hf Hp H1 H2 H3.
  destruct (compile_expr_main true c _ _ _ Hf Hm Hp H1) as (ins & Hc1 & Hk1 & Hm1 & He1 & Hr1 & Hrun).
  pose proof (expr_emits _ _ _ Hc1 Hk1 Hm1 He1) as E1.
  destruct (m_emit _ _ _ _ _ _ _ Hm1 H2) as (E2 & Hj & R2 & K2).
  assert (Hl : live (regs_ s2) cond) by (rewrite R2; apply (result_live (regs_ s) _ 255); [apply Hm|by left|done]).
  destruct (m_free _ _ _ (em_main _ _ _ E2) Hl H3) as (E3 & _).
  pose proof (emits_app _ _ _ _ _ (emits_app _ _ _ _ _ E1 E2) E3) as E. rewrite app_nil_r in E.
  exists ins. split; [exact E|]. split; [by rewrite Hj, Hc1, length_app|].
  pose proof (emits_app _ _ _ _ _ E2 E3) as E23.
  intros known F P B C g k rs x pc' t kont Hv [Hs1 Hs2]%seg_app Hpre Ht Hk.
  apply seg_one in Hs2. rewrite <- length_app, <- Hc1 in Hs2.
  eapply expr_matches; [exact Hrun|by eapply valid_emits|done|by eapply emits_prefix|].
  intros v w rs' Hlen Hw Hsame. destruct Hv as [_ _ V3 _].
  eapply matches_step; [unfold state_at; eapply step_jump_if_false; [exact Hs2|done|exact Hw]|].
  cbn [same] in Hsame. cbn [arrays set_globals]. unfold truthy in Hk. rewrite V3 in Hk. rewrite Hsame.
  specialize (Hk v rs' Hlen). rewrite (em_code _ _ _ E), app_assoc, length_app, <- Hc1 in Hk.
  cbn [length] in Hk. rewrite Nat.add_1_r in Hk. exact Hk.
Qed.

(** *** Conditionals *)

(** Code after the normal end that goes to [pc2]. *)
Lemma matches_to F P B C g k rs pc pc1 pc2 r :
  matches F P B C g k rs pc pc1 r ->
  (forall g1 rs1, length rs1 = length rs -> rtc (stepr L depth) (state_at g1 rs1 pc1) (state_at g1 rs1 pc2)) ->
  matches F P B C g k rs pc pc2 r.
Proof.
  intros H Hj. destruct r as [[o x1| |]|]; try done.
  pose proof H as (j & g1 & He & Hh & Hm & Ho). destruct o; try exact H.
  destruct Ho as [-> (rs1 & Hr & Hl)]. exists 0%nat, g1. split; [done|]. split; [done|]. split; [done|].
  split; [done|]. exists rs1. split; [|done]. etrans; [exact Hr|by apply Hj].
Qed.

Lemma placed_ins B C s s' pre ins post :
  placed B C s s' (pre ++ map I ins ++ post) -> seg f (length (code_ (fc s)) + length pre) ins.
Proof.
  intros [_ _ _ P4 _]. rewrite !map_app, fill_I in P4. apply seg_app in P4 as [_ P4].
  rewrite length_map in P4. by apply seg_app in P4 as [P4 _].
Qed.

Lemma placed_grows B C s s' ts s1 :
  placed B C s s' ts -> grows s1 (fc s') -> constants_ s1 `prefix_of` constants (f_proto f).
Proof. intros [_ _ _ _ P] [H _]. by etrans. Qed.

Definition jif (cond : Z) : Instruction := mkI JUMP_IF_FALSE cond 0 0.

(** The condition of a statement. *)
Lemma cs_test c s cond s1 j s2 s3 :
  main_ok (fc s) -> frag true c = true -> pool_in U (pool c) ->
  up (compile_expr c 255) s = Ret (cond, s1) -> up (emit_jump JUMP_IF_FALSE cond) s1 = Ret (j, s2) ->
  up (free_temp cond) s2 = Ret (tt, s3) ->
  exists ins, compiled_stmt s s3 (map I ins ++ [I (jif cond)]) /\ loop_stack_ s3 = loop_stack_ s /\
    j = Z.of_nat (length (code_ (fc s)) + length (map I ins)) /\ tests c (fc s) (fc s3) cond ins.
Proof.
  intros Hm Hf Hp [H1 L1]%up_Ret [H2 L2]%up_Ret [H3 L3]%up_Ret.
  destruct (m_test c _ _ _ _ _ _ Hm Hf Hp H1 H2 H3) as (ins & E & Hj & Ht). exists ins.
  change [I (jif cond)] with (map I [jif cond]). rewrite <- map_app, length_map.
  split; [apply cs_up; [exact E|congruence]|]. split; [congruence|done].
Qed.

Lemma up_ip s h s' :
  up current_ip s = Ret (h, s') -> h = Z.of_nat (length (code_ (fc s))) /\ s' = s.
Proof. destruct s. by intros [= <- <-]. Qed.

Lemma sound_if_then known F c ct m :
  frag true c = true -> pool_in U (pool c) -> sound known F ct m ->
  sound known F (compile_if c ct None)
    (eval_expr L depth c (fun v x => if truthy x v then m x else no_effect x)).
Proof.
  intros Hf Hp Hct s s' Hm Hs Hc. unfold compile_if in Hc.
  apply sbind_Ret in Hc as (cond & s1 & H1 & Hc). apply sbind_Ret in Hc as (j & s2 & H2 & Hc).
  apply sbind_Ret in Hc as ([] & s3 & H3 & Hc). apply sbind_Ret in Hc as ([] & s4 & H4 & Hc).
  apply sbind_Ret in Hc as (h & s4' & [-> ->]%up_ip & Hc).
  destruct (cs_test c _ _ _ _ _ _ Hm Hf Hp H1 H2 H3) as (ins & C3 & L3 & -> & Ht).
  destruct (Hct _ _ (cs_ok _ _ _ C3) ltac:(by rewrite L3) H4) as (t1 & C4 & R4).
  pose proof (cs_app _ _ _ _ _ C3 C4) as C34. rewrite <- app_assoc in C34.
  destruct (cs_patch _ _ _ _ _ _ _ _ C34 eq_refl (Zle_0_nat _) Hc) as (Hr & C & G & Hlen & _).
  eexists. split; [exact C|]. intros B C' g k rs x Hpl Hv.
  pose proof (cs_grows _ _ _ C4) as G4. rewrite Hlen.
  assert (Hseg : seg f (length (code_ (fc s))) (ins ++ [to_ (jif cond) (Z.of_nat (length (code_ (fc s4))))])).
  { rewrite <- (Nat.add_0_r (length _)). apply (placed_ins B C' s s' [] _ t1). by rewrite map_app, <- app_assoc. }
  eapply (matches_less (S F)); [lia|]. eapply Ht; [by eapply valid_grows, Hv; etrans|exact Hseg| |done|].
  { eapply placed_grows; [exact Hpl|by etrans]. }
  intros v rs' Hl. destruct Hv as [V1 V2 V3 V4].
  assert (Hv' : valid known (fc s') k g rs' x) by (split; try done; unfold room in *; by rewrite Hl).
  destruct (truthy x v).
  - rewrite <- L3. apply R4; [|by eapply valid_grows].
    apply (placed_part B C' s s' (map I ins ++ [I (to_ (jif cond) (Z.of_nat (length (code_ (fc s4)))))]) t1 []).
    + by rewrite app_nil_r, <- app_assoc.
    + by rewrite (cs_length _ _ _ C3), !length_app.
    + done.
    + by rewrite L3.
  - by eapply matches_here.
Qed.

Lemma valid_regs known s' k g rs rs' x :
  valid known s' k g rs x -> length rs' = length rs -> valid known s' k g rs' x.
Proof. intros [V1 V2 V3 V4] Hl. split; try done. unfold room in *. by rewrite Hl. Qed.

(** The test at the head of a template. *)
Lemma placed_test B C s s' ins cond t post :
  placed B C s s' (map I ins ++ I (to_ (jif cond) t) :: post) ->
  seg f (length (code_ (fc s))) (ins ++ [to_ (jif cond) t]).
Proof.
  intros H. rewrite <- (Nat.add_0_r (length _)). apply (placed_ins B C s s' [] _ post).
  by rewrite map_app, <- app_assoc.
Qed.

Lemma cs_hole s s' p :
  main_ok (fc s) -> up (emit_jump JUMP 0) s = Ret (p, s') ->
  compiled_stmt s s' [I no_target] /\ p = Z.of_nat (length (code_ (fc s))) /\ loop_stack_ s' = loop_stack_ s.
Proof.
  intros Hm [H Hl]%up_Ret. destruct (m_hole _ _ _ Hm H) as [E Hp]. split; [by apply (cs_up _ _ [_])|done].
Qed.

Lemma sound_if_else known F c ct ce mt me :
  frag true c = true -> pool_in U (pool c) -> sound known F ct mt -> sound known F ce me ->
  sound known F (compile_if c ct (Some ce))
    (eval_expr L depth c (fun v x => if truthy x v then mt x else me x)).
Proof.
  intros Hf Hp Hct Hce s s' Hm Hs Hc. unfold compile_if in Hc.
  apply sbind_Ret in Hc as (cond & s1 & H1 & Hc). apply sbind_Ret in Hc as (j & s2 & H2 & Hc).
  apply sbind_Ret in Hc as ([] & s3 & H3 & Hc). apply sbind_Ret in Hc as ([] & s4 & H4 & Hc).
  apply sbind_Ret in Hc as (p & s5 & H5 & Hc). apply sbind_Ret in Hc as (h & s5' & [-> ->]%up_ip & Hc).
  apply sbind_Ret in Hc as ([] & s6 & H6 & Hc). apply sbind_Ret in Hc as ([] & s7 & H7 & Hc).
  apply sbind_Ret in Hc as (h & s7' & [-> ->]%up_ip & Hc).
  destruct (cs_test c _ _ _ _ _ _ Hm Hf Hp H1 H2 H3) as (ins & C3 & L3 & -> & Ht).
  destruct (Hct _ _ (cs_ok _ _ _ C3) ltac:(by rewrite L3) H4) as (t1 & C4 & R4).
  destruct (cs_hole _ _ _ (cs_ok _ _ _ C4) H5) as (C5 & -> & L5).
  pose proof (cs_app _ _ _ _ _ (cs_app _ _ _ _ _ C3 C4) C5) as C35. rewrite <- !app_assoc in C35.
  destruct (cs_patch _ _ _ _ _ _ _ _ C35 eq_refl (Zle_0_nat _) H6) as (Hr6 & C6 & G6 & Hlen6 & L6).
  destruct (loops_ext_shape _ _ _ _ (cs_loops _ _ _ C4)) as (S4 & T4 & N4).
  destruct (Hce _ _ (cs_ok _ _ _ C6) ltac:(rewrite L6, L5; apply S4; by rewrite L3) H7) as (t2 & C7 & R7).
  set (t := length (code_ (fc s5))) in *.
  assert (Ht4 : length (code_ (fc s4)) = (length (code_ (fc s)) + length (map I ins ++ I (to_ (jif cond) (Z.of_nat t)) :: t1))%nat).
  { rewrite (cs_length _ _ _ C4), (cs_length _ _ _ C3), !length_app. cbn. lia. }
  pose proof (cs_app _ _ _ _ _ C6 C7) as C67.
  assert (Eq : (map I ins ++ I (to_ (jif cond) (Z.of_nat t)) :: t1 ++ [I no_target]) ++ t2 =
               (map I ins ++ I (to_ (jif cond) (Z.of_nat t)) :: t1) ++ I no_target :: t2)
    by (rewrite <- !app_assoc; cbn; by rewrite <- app_assoc).
  cbn [app] in C67. rewrite Eq in C67. clear Eq.
  destruct (cs_patch _ _ _ _ _ _ _ _ C67 ltac:(by rewrite <- Ht4) (Zle_0_nat _) Hc) as (Hr & C & G & Hlen & _).
  eexists. split; [exact C|]. intros B C' g k rs x Hpl Hv. rewrite Hlen.
  pose proof (cs_grows _ _ _ C4) as G4. pose proof (cs_grows _ _ _ C5) as G5.
  pose proof (cs_grows _ _ _ C7) as G7.
  assert (G4' : grows (fc s4) (fc s')) by (do 3 (etrans; [eassumption|]); done).
  assert (Hseg : seg f (length (code_ (fc s))) (ins ++ [to_ (jif cond) (Z.of_nat t)])).
  { eapply (placed_test B C' s s'). by rewrite <- app_assoc in Hpl. }
  assert (Hj : instr_at f (length (code_ (fc s4))) (jump_i (Z.of_nat (length (code_ (fc s7)))))).
  { rewrite Ht4. apply seg_one. by apply (placed_ins B C' s s' _ [_] t2). }
  eapply (matches_less (S F)); [lia|]. eapply Ht; [by eapply valid_grows, Hv; etrans|exact Hseg| |done|].
  { eapply placed_grows; [exact Hpl|by etrans]. }
  intros v rs' Hl. pose proof (valid_regs _ _ _ _ _ rs' _ Hv Hl) as Hv'.
  destruct (truthy x v).
  - eapply matches_to; [|intros g1 rs1 _; apply rtc_once; by eapply step_jump_always].
    rewrite <- L3. apply R4; [|by eapply valid_grows].
    apply (placed_part B C' s s' (map I ins ++ [I (to_ (jif cond) (Z.of_nat t))]) t1
             (I (to_ no_target (Z.of_nat (length (code_ (fc s7))))) :: t2)).
    + rewrite <- app_assoc in *. exact Hpl.
    + by rewrite (cs_length _ _ _ C3), !length_app.
    + done.
    + by rewrite L3.
  - eapply (matches_loop F (loop_stack_ s6 <> [])); [rewrite L6, L5, <- L3; by apply N4|].
    fold t in Hlen6. rewrite <- Hlen6. apply R7; [|by eapply valid_grows; [by etrans|]].
    apply (placed_part B C' s s' (map I ins ++ I (to_ (jif cond) (Z.of_nat t)) :: t1 ++
             [I (to_ no_target (Z.of_nat (length (code_ (fc s7)))))]) t2 []).
    + rewrite app_nil_r. rewrite <- !app_assoc in *. cbn in *. rewrite <- app_assoc. exact Hpl.
    + rewrite (cs_length _ _ _ C6), !length_app. cbn. by rewrite !length_app.
    + by etrans.
    + rewrite L6, L5. intros HT. apply T4. by rewrite L3.
Qed.

(** *** Loops *)

Definition with_test (c : option Expression) (kont : bool -> Exec) : Exec :=
  match c with
  | Some c => eval_expr L depth c (fun v x => kont (truthy x v) x)
  | None => kont true
  end.
Definition with_next (p : option Expression) (kont : Exec) : Exec :=
  match p with Some p => eval_expr L depth p (fun _ => kont) | None => kont end.

Lemma for_loop_S n c p body x :
  for_loop L depth (S n) c p body x =
  with_test c (fun b x => if b then after_body (with_next p (for_loop L depth n c p body)) (body x)
                          else Some (SOut ONormal x)) x.
Proof.
  destruct c, p; cbn [for_loop with_test with_next]; try reflexivity.
Qed.

Lemma eval_expr_ext e (k1 k2 : Value -> Exec) x :
  (forall v y, k1 v y = k2 v y) -> eval_expr L depth e k1 x = eval_expr L depth e k2 x.
Proof.
  intros H. unfold eval_expr, eval. by destruct (evaluate_expression L depth e (xst x)).
Qed.

Lemma while_is_for n c body x : while_loop L depth n c body x = for_loop L depth n (Some c) None body x.
Proof.
  revert x. induction n as [|n IH]; intros x; [done|]. rewrite for_loop_S. cbn [while_loop with_test].
  apply eval_expr_ext. intros v y. destruct (truthy y v); [|done]. unfold after_body. cbn [with_next].
  destruct (body y) as [[[] ?| |]|]; auto.
Qed.

(** The code of a loop: [pc0] its test, [pcb] its body up to [pcE], [pcC] where
    [continue] goes. The test takes [d1] steps at least and what follows the
    body [d2]. *)
Record loop_code (known : bytes -> bool) (F k : nat) (s' : FunctionCompiler) (c post : option Expression)
    (body : Exec) (pc0 pcb pcE pcC after d1 d2 : nat) : Prop := {
  lc_count : (1 <= d1 + d2)%nat /\ (d2 <= 1)%nat;
  lc_test : forall n P B C g rs x (kont : bool -> Exec) pc', valid known s' k g rs x ->
    (forall (b : bool) rs', length rs' = length rs ->
       matches n P B C g k rs' (if b then pcb else after) pc' (kont b x)) ->
    matches (d1 + n) P B C g k rs pc0 pc' (with_test c kont x);
  lc_next : forall n P B C g rs x (kont : Exec) pc' q, q = pcE \/ q = pcC -> valid known s' k g rs x ->
    (forall g' rs' x', valid known s' k g' rs' x' -> matches n P B C g' k rs' pc0 pc' (kont x')) ->
    matches (d2 + n) P B C g k rs q pc' (with_next post kont x);
  lc_body : forall g rs x, valid known s' k g rs x ->
    matches F True after pcC g k rs pcb pcE (body x)
}.

Lemma valid_on known s' k g rs x g1 rs1 x1 :
  valid known s' k g rs x -> env (xst x1) = nest (0 + k) g1 -> heap_ (xst x1) = arrays vm0 -> mono g g1 ->
  length rs1 = length rs -> valid known s' k g1 rs1 x1.
Proof.
  intros [V1 V2 V3 V4] He Hh Hm Hl. split; [by unfold room in *; rewrite Hl|done|done|].
  intros n Hn. by apply Hm, V4.
Qed.

Lemma turn_matches known F k s' c post body pc0 pcb pcE pcC after d1 d2 :
  loop_code known F k s' c post body pc0 pcb pcE pcC after d1 d2 ->
  forall n again g rs x, (S n <= F)%nat -> valid known s' k g rs x ->
  (forall g' rs' x', valid known s' k g' rs' x' -> matches n False 0 0 g' k rs' pc0 after (again x')) ->
  matches (d2 + n) False 0 0 g k rs pcb after (after_body (with_next post again) (body x)).
Proof.
  intros [[H1 H2] _ Hnext Hbody] n again g rs x Hn Hv Hagain. specialize (Hbody g rs x Hv).
  unfold after_body. destruct (body x) as [[o x1| |]|]; [|done|done|eapply busy_less; [|exact Hbody]; lia].
  pose proof Hbody as (j & g1 & He & Hh & Hm & Ho).
  assert (Hgo : forall q rs1, j = 0%nat -> q = pcE \/ q = pcC ->
    rtc (stepr L depth) (state_at g rs pcb) (state_at g1 rs1 q) -> length rs1 = length rs ->
    matches (d2 + n) False 0 0 g k rs pcb after (with_next post again x1)).
  { intros q rs1 -> Hq Hr Hl. eapply matches_after; [exact Hr|done|done|].
    apply Hnext; [done|by eapply valid_on|]. intros g' rs' x' Hv'. by apply Hagain. }
  destruct o; try exact Hbody.
  - destruct Ho as [Hj (rs1 & Hr & Hl)]. eapply Hgo; [done|by left|exact Hr|done].
  - destruct Ho as (-> & _ & rs1 & Hr & Hl). exists 0%nat, g1. split; [done|]. split; [done|].
    split; [done|]. split; [done|]. by exists rs1.
  - destruct Ho as (Hj & _ & rs1 & Hr & Hl). eapply Hgo; [done|by right|exact Hr|done].
Qed.

Lemma loop_matches known F k s' c post body pc0 pcb pcE pcC after d1 d2 :
  loop_code known F k s' c post body pc0 pcb pcE pcC after d1 d2 ->
  forall n g rs x, (n <= F)%nat -> valid known s' k g rs x ->
  matches n False 0 0 g k rs pc0 after (for_loop L depth n c post body x).
Proof.
  intros Hc. induction n as [|n IH]; intros g rs x Hn Hv.
  { exists 0%nat, (state_at g rs pc0). split; [lia|constructor]. }
  pose proof Hc as [[H1 H2] Htest _ _].
  rewrite for_loop_S. apply (matches_less (d1 + (d2 + n))); [lia|].
  apply Htest; [done|]. intros b rs' Hl.
  pose proof (valid_regs _ _ _ _ _ rs' _ Hv Hl) as Hv'. destruct b.
  - eapply turn_matches; [exact Hc|done|done|]. intros g' rs1 x' Hv1. apply IH; [lia|done].
  - by eapply matches_here.
Qed.

(** The holes of a part of the code, all at once. *)
Lemma emits_fill q (Hq : forall i, q (I i) = false) s s1 s2 t1 tb t2 pos t :
  emits (fc s) (fc s1) (map raw (t1 ++ tb ++ t2)) -> pos = (length (code_ (fc s)) + length t1)%nat ->
  0 <= t -> patch_all (holes q pos tb) t s1 = Ret (tt, s2) ->
  (holes q pos tb <> [] -> t <= 65535) /\
  emits (fc s) (fc s2) (map raw (t1 ++ map (fill_one q t) tb ++ t2)) /\
  grows (fc s1) (fc s2) /\ length (code_ (fc s2)) = length (code_ (fc s1)) /\ loop_stack_ s2 = loop_stack_ s1.
Proof.
  intros E -> Ht H. pose proof (em_main _ _ _ E) as Hm.
  assert (Hn : (length (code_ (fc s)) + length t1)%nat = length (code_ (fc s) ++ map raw t1))
    by (by rewrite length_app, length_map).
  rewrite Hn in *.
  assert (Hc : code_ (fc s1) = (code_ (fc s) ++ map raw t1) ++ map raw tb ++ map raw t2)
    by (by rewrite (em_code _ _ _ E), !map_app, <- app_assoc).
  destruct (patch_all_holes q t Hq tb s1 (code_ (fc s) ++ map raw t1) (map raw t2) s2 Ht Hc H)
    as (Hr & Hc2 & Hk & Hg & Hl & Hm2).
  split; [done|]. split; [|split; [split; [by rewrite Hk|by rewrite Hg]|split; [|done]]].
  - split; [|rewrite Hk; apply E| |rewrite Hg; apply E].
    + by rewrite Hc2, !map_app, <- app_assoc.
    + destruct Hm as [Hm1 Hm3 Hm4]. split; [auto|by rewrite Hg|by rewrite Hk].
  - by rewrite Hc2, Hc, !length_app, !length_map.
Qed.

Lemma fill_both B C tb :
  map (fill_one is_brk B) (map (fill_one is_cont C) tb) = map I (map (fill B C) tb).
Proof. rewrite !map_map. apply map_ext. by intros []. Qed.

Lemma fill_one_none q t pos tb : holes q pos tb = [] -> map (fill_one q t) tb = tb.
Proof.
  revert pos. induction tb as [|p tb IH]; intros pos H; [done|]. cbn [holes map] in *. unfold fill_one at 1.
  destruct (q p); [done|]. f_equal. by eapply IH.
Qed.

(** A loop with the parts of [while] and [for]: [back] tells that [continue]
    goes to the test. *)
Definition compile_loop (back : bool) (c post : option Expression) (body : MS unit) : MS unit :=
  sdo loop_start <- up current_ip;
  sdo exit_jump <- (match c with
    | Some c =>
        sdo cond <- up (compile_expr c 255);
        sdo j <- up (emit_jump JUMP_IF_FALSE cond);
        srun up (free_temp cond);
        sret (Some j)
    | None => sret None
    end);
  sdo ctx <- loop_body (if back then loop_start else -1) [] body;
  sdo post_ip <- up current_ip;
  srun (match post with
    | Some e => sdo r <- up (compile_expr e 255); up (free_temp r)
    | None => sret tt
    end);
  srun patch_all (continue_patches ctx) (if back then loop_start else post_ip);
  srun jump_back loop_start;
  sdo after <- up current_ip;
  srun (match exit_jump with Some j => up (patch_jump j after) | None => sret tt end);
  patch_all (break_patches ctx) after.

Lemma up_ip_eq s : up current_ip s = Ret (Z.of_nat (length (code_ (fc s))), s).
Proof. by destruct s. Qed.

(** Sequences in another bracketing. *)
Ltac reassoc :=
  unfold sbind, sret; cbv beta iota; rewrite ?up_ip_eq;
  repeat match goal with
  | |- context [match ?m ?s with Ret _ => _ | Exn _ => _ | Undef => _ end] =>
      destruct (m s) as [[? ?]| |]; rewrite ?up_ip_eq; cbv beta iota; try reflexivity
  end.

Lemma while_loop_code c body s : compile_while [] c body s = compile_loop true (Some c) None body s.
Proof. unfold compile_while, compile_loop. reassoc. Qed.

Lemma for_loop_code i c p body s :
  compile_for [] i c p body s =
  compile_block (srun (match i with Some i => i | None => sret tt end); compile_loop false c p body) s.
Proof. unfold compile_for, compile_loop, compile_block. reassoc. Qed.

Lemma m_depth d s s' :
  main_ok (fc s) -> add_depth d s = Ret (tt, s') ->
  emits (fc s) (fc s') [] /\ loop_stack_ s' = loop_stack_ s /\ grows (fc s') (fc s).
Proof.
  intros Hm [= <-]. split; [|by split]. cbn. apply same_regs_emits; try done; [|by rewrite app_nil_r].
  by destruct Hm as [Hm _ _].
Qed.

(** The body of a loop whose breaks go to [B] and continues to [C]. *)
Lemma m_body known F t body m s ctx s' :
  sound known F body m -> main_ok (fc s) -> no_switch (loop_stack_ s) ->
  loop_body t [] body s = Ret (ctx, s') ->
  exists tb, emits (fc s) (fc s') (map raw tb) /\ loop_stack_ s' = loop_stack_ s /\
    break_patches ctx = holes is_brk (length (code_ (fc s))) tb /\
    continue_patches ctx = holes is_cont (length (code_ (fc s))) tb /\
    (0 <= t -> holes is_cont (length (code_ (fc s))) tb = []) /\
    forall B C g k rs x,
      (holes is_brk (length (code_ (fc s))) tb <> [] -> Z.of_nat B <= 65535) ->
      (holes is_cont (length (code_ (fc s))) tb <> [] -> Z.of_nat C <= 65535) ->
      (0 <= t -> t = Z.of_nat C) ->
      seg f (length (code_ (fc s))) (map (fill (Z.of_nat B) (Z.of_nat C)) tb) ->
      constants_ (fc s') `prefix_of` constants (f_proto f) -> valid known (fc s') k g rs x ->
      matches F True B C g k rs (length (code_ (fc s))) (length (code_ (fc s'))) (m x).
Proof.
  intros Hb Hm Hs H. unfold loop_body in H.
  apply sbind_Ret in H as ([] & s1 & [= E1] & H).
  apply sbind_Ret in H as ([] & s2 & H2 & H).
  apply sbind_Ret in H as ([] & s3 & H3 & H). apply sbind_Ret in H as ([] & s4 & H4 & H).
  assert (Hf1 : fc s1 = fc s) by (by rewrite <- E1).
  assert (Hl1 : loop_stack_ s1 = MkLoop [] [] t false 0 :: loop_stack_ s) by (by rewrite <- E1).
  destruct (m_depth 1 s1 s2 ltac:(by rewrite Hf1) H2) as (E2 & L2 & G2). rewrite Hf1 in E2.
  destruct (Hb s2 s3 (em_main _ _ _ E2) ltac:(rewrite L2, Hl1; by apply Forall_cons) H3) as (tb & [E3 X3] & R3).
  destruct (m_depth (-1) s3 s4 (em_main _ _ _ E3) H4) as (E4 & L4 & G4).
  assert (Hlen : length (code_ (fc s2)) = length (code_ (fc s))) by (by rewrite (em_code _ _ _ E2), app_nil_r).
  rewrite L2, Hl1, Hlen in X3. cbn in X3. destruct X3 as [X3 X3'].
  unfold pop_loop in H. rewrite L4, X3 in H. injection H as <- <-. cbn [fc loop_stack_ break_patches continue_patches].
  pose proof (emits_app _ _ _ _ _ (emits_app _ _ _ _ _ E2 E3) E4) as E. rewrite app_nil_r in E.
  exists tb. split; [exact E|]. do 3 (split; [done|]). split; [exact X3'|].
  intros B C g k rs x HB HC Ht Hseg Hpre Hv.
  assert (Hp : placed B C s2 s3 tb).
  { split; rewrite ?Hlen; try done; [by rewrite L2, Hl1|by eapply emits_prefix]. }
  specialize (R3 B C g k rs x Hp ltac:(by eapply valid_emits)). rewrite Hlen in R3.
  rewrite (em_code _ _ _ E4), app_nil_r. by eapply matches_loop; [|exact R3].
Qed.

(** The test of a loop, if it has one: its code with the jump to [t]. *)
Definition test_code (c : option Expression) (s s' : FunctionCompiler) (ins : Z -> list Instruction)
    (d1 : nat) : Prop :=
  forall known n P B C g k rs x pc' t (kont : bool -> Exec), valid known s' k g rs x ->
  seg f (length (code_ s)) (ins (Z.of_nat t)) -> constants_ s' `prefix_of` constants (f_proto f) ->
  (c <> None -> Z.of_nat t <= 65535) ->
  (forall (b : bool) rs', length rs' = length rs ->
     matches n P B C g k rs' (if b then length (code_ s') else t) pc' (kont b x)) ->
  matches (d1 + n) P B C g k rs (length (code_ s)) pc' (with_test c kont x).

Lemma m_loop_test c s ex s' :
  main_ok (fc s) -> match c with Some c => frag true c = true /\ pool_in U (pool c) | None => True end ->
  (match c with
   | Some c =>
       sdo cond <- up (compile_expr c 255);
       sdo j <- up (emit_jump JUMP_IF_FALSE cond);
       srun up (free_temp cond);
       sret (Some j)
   | None => sret None
   end) s = Ret (ex, s') ->
  exists i0 ins d1, emits (fc s) (fc s') i0 /\ loop_stack_ s' = loop_stack_ s /\
    (forall t, length (ins t) = length i0) /\ (c <> None -> d1 = 1%nat) /\ test_code c (fc s) (fc s') ins d1 /\
    forall s1 s2 T t, emits (fc s) (fc s1) (i0 ++ map raw T) -> 0 <= t ->
      (match ex with Some j => up (patch_jump j t) | None => sret tt end) s1 = Ret (tt, s2) ->
      (c <> None -> t <= 65535) /\ emits (fc s) (fc s2) (map raw (map I (ins t) ++ T)) /\
      grows (fc s1) (fc s2) /\ length (code_ (fc s2)) = length (code_ (fc s1)) /\ loop_stack_ s2 = loop_stack_ s1.
Proof.
  intros Hm Hf Hc. destruct c as [c|].
  - destruct Hf as [Hf Hp]. apply sbind_Ret in Hc as (cond & s1 & H1 & Hc).
    apply sbind_Ret in Hc as (j & s2 & H2 & Hc). apply sbind_Ret in Hc as ([] & s3 & H3 & [= <- <-]).
    destruct (cs_test c _ _ _ _ _ _ Hm Hf Hp H1 H2 H3) as (ins & [C3 _] & L3 & -> & Ht).
    exists (ins ++ [jif cond]), (fun t => ins ++ [to_ (jif cond) t]), 1%nat.
    split. { by rewrite map_app, map_map, map_id in C3. }
    split; [done|]. split; [intros t; by rewrite !length_app|]. split; [done|]. split.
    + intros known n P B C g k rs x pc' t kont Hv Hseg Hpre Hle Hk. cbn [with_test].
      eapply Ht; [exact Hv|exact Hseg|done|by apply Hle|]. intros v rs' Hl. by apply Hk.
    + intros s1' s2' T t E Ht0 Hpj.
      assert (E0 : emits (fc s) (fc s1') (map raw (map I ins ++ I (jif cond) :: T)))
        by (rewrite map_app, map_map, map_id; by rewrite <- app_assoc in E).
      destruct (emits_patch _ _ _ _ _ _ _ _ E0 eq_refl Ht0 Hpj) as (Hr & E' & G & Hn & Hl).
      split; [done|]. split; [by rewrite (map_app I), <- app_assoc|done].
  - injection Hc as <- <-. exists [], (fun _ => []), 0%nat. split; [by apply emits_refl|].
    split; [done|]. split; [done|]. split; [done|]. split.
    + intros known n P B C g k rs x pc' t kont Hv Hseg Hpre Hle Hk. by apply (Hk true rs).
    + intros s1' s2' T t E Ht0 [= <-]. by split.
Qed.

(** What follows the body. *)
Lemma m_loop_post known p s s' :
  main_ok (fc s) -> match p with Some p => effect_frag known p = true /\ pool_in U (effect_pool p) | None => True end ->
  (match p with
   | Some e => sdo r <- up (compile_expr e 255); up (free_temp r)
   | None => sret tt
   end) s = Ret (tt, s') ->
  exists ins, emits (fc s) (fc s') ins /\ loop_stack_ s' = loop_stack_ s /\ (p = None -> ins = []) /\
    forall n P B C g k rs x pc' (kont : Exec), valid known (fc s') k g rs x -> seg f (length (code_ (fc s))) ins ->
    constants_ (fc s') `prefix_of` constants (f_proto f) ->
    (forall g' rs' x', valid known (fc s') k g' rs' x' -> length rs' = length rs ->
       matches n P B C g' k rs' (length (code_ (fc s'))) pc' (kont x')) ->
    matches n P B C g k rs (length (code_ (fc s))) pc' (with_next p kont x).
Proof.
  intros Hm Hf Hc. destruct p as [p|].
  - destruct Hf as [Hf Hp]. apply sbind_Ret in Hc as (r & s1 & [H1 L1]%up_Ret & [H2 L2]%up_Ret).
    destruct (compile_dropped known p _ _ _ _ Hm Hf Hp H1 H2) as (ins & E & Hd). exists ins.
    split; [done|]. split; [congruence|]. split; [done|].
    intros n P B C g k rs x pc' kont Hv Hseg Hpre Hk. cbn [with_next].
    eapply effect_matches; [exact Hd|right; apply Hv|done|done|done|]. intros v g' rs' x' Hv' Hl _. by apply Hk.
  - injection Hc as <-. exists []. split; [by apply emits_refl|]. split; [done|]. split; [done|].
    intros n P B C g k rs x pc' kont Hv _ _ Hk. by apply Hk.
Qed.

Lemma matches_any F P B C B' C' g k rs pc pc' r :
  matches F False B C g k rs pc pc' r -> matches F P B' C' g k rs pc pc' r.
Proof.
  unfold matches. destruct r as [[o x'| |]|]; try done.
  intros (j & g' & He & Hh & Hm & Ho). exists j, g'. destruct o; naive_solver.
Qed.

(** A loop once compiled from [s] to [s']: the test [ins], the body [tb], what
    follows it, [pins], and the jumps. *)
Record loop_parts (known : bytes -> bool) (F : nat) (back : bool) (c post : option Expression) (m : Exec)
    (s : FunctionCompiler) (s' : FunctionCompiler) (ins : Z -> list Instruction) (tb : list piece)
    (pins : list Instruction) (d1 after pcC : nat) : Prop := {
  lp_back : back = true -> c <> None /\ post = None;
  lp_pcC : pcC = (if back then length (code_ s) else length (code_ s) + length (ins (Z.of_nat after)) + length tb)%nat;
  lp_count : c <> None -> d1 = 1%nat;
  lp_after : c <> None -> Z.of_nat after <= 65535;
  lp_start : Z.of_nat (length (code_ s)) <= 65535;
  lp_end : after = (length (code_ s) + length (ins (Z.of_nat after)) + length tb + length pins + 1)%nat;
  lp_test : exists s1, test_code c s s1 ins d1 /\ grows s1 s' /\
    length (code_ s1) = (length (code_ s) + length (ins (Z.of_nat after)))%nat;
  lp_post : exists s2 s3, grows s3 s' /\
    length (code_ s2) = (length (code_ s) + length (ins (Z.of_nat after)) + length tb)%nat /\
    length (code_ s3) = (length (code_ s2) + length pins)%nat /\ (post = None -> pins = []) /\
    forall n P B C g k rs x pc' (kont : Exec), valid known s3 k g rs x -> seg f (length (code_ s2)) pins ->
    constants_ s3 `prefix_of` constants (f_proto f) ->
    (forall g' rs' x', valid known s3 k g' rs' x' -> length rs' = length rs ->
       matches n P B C g' k rs' (length (code_ s3)) pc' (kont x')) ->
    matches n P B C g k rs (length (code_ s2)) pc' (with_next post kont x);
  lp_body : forall g k rs x,
    seg f (length (code_ s) + length (ins (Z.of_nat after)))
      (map (fill (Z.of_nat after) (Z.of_nat pcC)) tb) ->
    constants_ s' `prefix_of` constants (f_proto f) -> valid known s' k g rs x ->
    matches F True after pcC g k rs (length (code_ s) + length (ins (Z.of_nat after)))
      (length (code_ s) + length (ins (Z.of_nat after)) + length tb) (m x)
}.

(** All its instructions. *)
Definition loop_ins (start_ after pcC : nat) (ins : Z -> list Instruction) (tb : list piece)
    (pins : list Instruction) : list Instruction :=
  ins (Z.of_nat after) ++ map (fill (Z.of_nat after) (Z.of_nat pcC)) tb ++ pins ++ [jump_i (Z.of_nat start_)].

Lemma loop_parts_run known F back c post m s s' ins tb pins d1 after pcC :
  loop_parts known F back c post m s s' ins tb pins d1 after pcC ->
  forall g k rs x, valid known s' k g rs x -> constants_ s' `prefix_of` constants (f_proto f) ->
  seg f (length (code_ s)) (loop_ins (length (code_ s)) after pcC ins tb pins) ->
  matches F False 0 0 g k rs (length (code_ s)) after (for_loop L depth F c post m x).
Proof.
  intros [Hback HC Hcnt Haft Hst Hend (s1 & R1 & G1 & N1) (s2 & s3 & G3 & N2 & N3 & HN & R3) R2]
    g k rs x Hv Hpre Hseg. unfold loop_ins in Hseg.
  apply seg_app in Hseg as [Hs1 Hseg]. apply seg_app in Hseg as [Hs2 Hseg].
  apply seg_app in Hseg as [Hs3 Hj]. rewrite length_map in *. apply seg_one in Hj.
  rewrite <- N2 in *. rewrite <- N3 in Hj.
  assert (Hpc : forall s0, grows s0 s' -> constants_ s0 `prefix_of` constants (f_proto f)) by (intros s0 [? _]; by etrans).
  apply (loop_matches known F k s' c post m _ (length (code_ s1)) (length (code_ s2)) pcC after d1 (if back then 0 else 1)%nat);
    [|done|done].
  split.
  - destruct back; [|lia]. rewrite Hcnt by by apply Hback. lia.
  - intros n P B C g1 rs1 x1 kont pc' Hv1 Hk. eapply R1; [by eapply valid_grows|exact Hs1|auto|exact Haft|exact Hk].
  - intros n P B C g1 rs1 x1 kont pc' q Hq Hv1 Hk.
    assert (HE : matches (S n) P B C g1 k rs1 (length (code_ s2)) pc' (with_next post kont x1)).
    { eapply R3; [by eapply valid_grows|done|auto|]. intros g2 rs2 x2 [W1 W2 W3 W4] Hl.
      eapply matches_step; [by eapply step_jump_always|]. apply Hk. split; try done.
      destruct Hv1 as [V1 _ _ _]. unfold room in *. by rewrite Hl. }
    destruct back.
    + destruct Hq as [-> | ->]; [eapply matches_less; [|exact HE]; lia|].
      destruct (Hback eq_refl) as [_ ->]. rewrite HC. by apply Hk.
    + assert (q = length (code_ s2)) as -> by lia. exact HE.
  - intros g1 rs1 x1 Hv1. rewrite N1. by apply R2.
Qed.

(** The jumps of a loop, filled in. *)
Lemma emits_loop c0 s s3 s4 s5 s6 s' (i0 : list Instruction) (ins : Z -> list Instruction) tb pins ex tc start_ pcb :
  emits (fc s) (fc s3) (i0 ++ map raw tb ++ pins) -> length (code_ (fc s)) = start_ ->
  pcb = (start_ + length i0)%nat -> (forall t, length (ins t) = length i0) -> 0 <= tc ->
  patch_all (holes is_cont pcb tb) tc s3 = Ret (tt, s4) ->
  jump_back (Z.of_nat start_) s4 = Ret (tt, s5) ->
  (forall s1 s2 T t, emits (fc s) (fc s1) (i0 ++ map raw T) -> 0 <= t ->
      (match ex with Some j => up (patch_jump j t) | None => sret tt end) s1 = Ret (tt, s2) ->
      (c0 <> None (A := Expression) -> t <= 65535) /\ emits (fc s) (fc s2) (map raw (map I (ins t) ++ T)) /\
      grows (fc s1) (fc s2) /\ length (code_ (fc s2)) = length (code_ (fc s1)) /\ loop_stack_ s2 = loop_stack_ s1) ->
  (match ex with Some j => up (patch_jump j (Z.of_nat (length (code_ (fc s5))))) | None => sret tt end) s5 =
    Ret (tt, s6) ->
  patch_all (holes is_brk pcb tb) (Z.of_nat (length (code_ (fc s5)))) s6 = Ret (tt, s') ->
  let after := Z.of_nat (length (code_ (fc s5))) in
  emits (fc s) (fc s') (ins after ++ map (fill after tc) tb ++ pins ++ [jump_i (Z.of_nat start_)]) /\
  length (code_ (fc s')) = length (code_ (fc s5)) /\ loop_stack_ s' = loop_stack_ s3 /\
  (c0 <> None -> after <= 65535) /\ Z.of_nat start_ <= 65535 /\
  (holes is_cont pcb tb <> [] -> tc <= 65535) /\ (holes is_brk pcb tb <> [] -> after <= 65535) /\
  grows (fc s3) (fc s').
Proof.
  intros E3 Hstart Hpcb Hins Htc H4 H5 Hexit H6 H7 after.
  assert (E3' : emits (fc s) (fc s3) (map raw (map I i0 ++ tb ++ map I pins)))
    by (by rewrite !map_app, !map_map, !map_id).
  destruct (emits_fill is_cont (fun _ => eq_refl) _ _ _ _ _ _ pcb tc E3' ltac:(rewrite length_map; lia) Htc H4)
    as (Hr4 & E4 & G4 & N4 & L4).
  apply sbind_Ret in H5 as (n5 & s5' & [H5 L5]%up_Ret & [= <-]).
  destruct (m_jump _ _ _ _ _ _ (em_main _ _ _ E4) (Zle_0_nat _) H5) as (Hr5 & E5 & _).
  pose proof (emits_app _ _ _ _ _ E4 E5) as E45.
  set (tb1 := map (fill_one is_cont tc) tb) in *.
  assert (E45' : emits (fc s) (fc s5') (i0 ++ map raw (tb1 ++ map I pins ++ [I (jump_i (Z.of_nat start_))]))).
  { rewrite !map_app, !map_map, !map_id in *. rewrite <- !app_assoc in *. exact E45. }
  destruct (Hexit s5' s6 _ after E45' (Zle_0_nat _) H6) as (Hr6 & E6 & G6 & N6 & L6).
  assert (Hh : holes is_brk pcb tb1 = holes is_brk pcb tb).
  { unfold tb1. clear. revert pcb. induction tb as [|[i| |] tb IH]; intros pcb; [done| | |];
      cbn [map holes fill_one is_cont is_brk]; by rewrite IH. }
  rewrite <- Hh in H7.
  destruct (emits_fill is_brk (fun _ => eq_refl) _ _ _ _ _ _ pcb after E6 ltac:(rewrite length_map, Hins; lia)
    (Zle_0_nat _) H7) as (Hr7 & E7 & G7 & N7 & L7).
  rewrite Hh in Hr7. unfold tb1 in E7. rewrite fill_both in E7.
  assert (Eq : map raw (map I (ins after) ++ map I (map (fill after tc) tb) ++ map I pins ++
                 [I (jump_i (Z.of_nat start_))]) =
               ins after ++ map (fill after tc) tb ++ pins ++ [jump_i (Z.of_nat start_)])
    by (rewrite !map_app, !map_map; cbn [raw]; by rewrite !map_id).
  rewrite Eq in E7. split; [exact E7|]. split; [congruence|]. split; [congruence|].
  split; [done|]. split; [done|]. split; [done|]. split; [done|].
  etrans; [exact G4|]. etrans; [eapply emits_grows, E5|]. by etrans.
Qed.

Lemma compile_loop_parts known F back c post body m s s' :
  match c with Some c => frag true c = true /\ pool_in U (pool c) | None => True end ->
  match post with Some p => effect_frag known p = true /\ pool_in U (effect_pool p) | None => True end ->
  (back = true -> c <> None /\ post = None) -> sound known F body m ->
  main_ok (fc s) -> no_switch (loop_stack_ s) -> compile_loop back c post body s = Ret (tt, s') ->
  exists ins tb pins d1 pcC,
    emits (fc s) (fc s') (loop_ins (length (code_ (fc s))) (length (code_ (fc s'))) pcC ins tb pins) /\
    loop_stack_ s' = loop_stack_ s /\
    loop_parts known F back c post m (fc s) (fc s') ins tb pins d1 (length (code_ (fc s'))) pcC.
Proof.
  intros Hfc Hfp Hback Hb Hm Hs Hc. unfold compile_loop in Hc.
  apply sbind_Ret in Hc as (h0 & s0 & [-> ->]%up_ip & Hc).
  apply sbind_Ret in Hc as (ex & s1 & H1 & Hc). apply sbind_Ret in Hc as (ctx & s2 & H2 & Hc).
  apply sbind_Ret in Hc as (h2 & s2' & [-> ->]%up_ip & Hc).
  apply sbind_Ret in Hc as ([] & s3 & H3 & Hc). apply sbind_Ret in Hc as ([] & s4 & H4 & Hc).
  apply sbind_Ret in Hc as ([] & s5 & H5 & Hc).
  apply sbind_Ret in Hc as (h5 & s5' & [-> ->]%up_ip & Hc). apply sbind_Ret in Hc as ([] & s6 & H6 & H7).
  destruct (m_loop_test _ _ _ _ Hm Hfc H1) as (i0 & ins & d1 & E1 & L1 & N1 & D1 & R1 & P1).
  destruct (m_body known F _ _ _ _ _ _ Hb (em_main _ _ _ E1) ltac:(by rewrite L1) H2)
    as (tb & E2 & L2 & Hbr & Hco & Hz & R2).
  destruct (m_loop_post known _ _ _ (em_main _ _ _ E2) Hfp H3) as (pins & E3 & L3 & N3 & R3).
  rewrite Hco in H4. rewrite Hbr in H7.
  assert (C1 : length (code_ (fc s1)) = (length (code_ (fc s)) + length i0)%nat)
    by (by rewrite (em_code _ _ _ E1), length_app).
  assert (C2 : length (code_ (fc s2)) = (length (code_ (fc s)) + length i0 + length tb)%nat)
    by (by rewrite (em_code _ _ _ E2), length_app, length_map, C1).
  assert (C3 : length (code_ (fc s3)) = (length (code_ (fc s2)) + length pins)%nat)
    by (by rewrite (em_code _ _ _ E3), length_app).
  pose proof (emits_app _ _ _ _ _ E1 (emits_app _ _ _ _ _ E2 E3)) as E13.
  set (pcC := if back then length (code_ (fc s)) else length (code_ (fc s2))).
  assert (Htc : (if back then Z.of_nat (length (code_ (fc s))) else Z.of_nat (length (code_ (fc s2)))) = Z.of_nat pcC)
    by (by unfold pcC; destruct back).
  rewrite Htc in H4.
  destruct (emits_loop c _ _ _ _ _ _ _ _ _ _ _ _ _ _ E13 eq_refl C1 N1 (Zle_0_nat _) H4 H5 P1 H6 H7)
    as (E & Hlen & Hls & Hex & Hst & Hcont & Hbrk & G).
  rewrite <- Hlen in *.
  exists ins, tb, pins, d1, pcC. split; [exact E|]. split; [congruence|].
  pose proof (emits_grows _ _ _ E2) as G2. pose proof (emits_grows _ _ _ E3) as G3.
  split; rewrite ?N1; try done.
  - unfold pcC. by rewrite C2.
  - rewrite (em_code _ _ _ E), !length_app, N1, length_map. cbn. lia.
  - exists (fc s1). split; [exact R1|]. split; [by do 2 (etrans; [eassumption|])|done].
  - by exists (fc s2), (fc s3).
  - intros g k rs x Hseg Hpre Hv. rewrite <- C2, <- C1 in *. apply R2; try done.
    + unfold pcC. destruct back; [done|lia].
    + destruct G2 as [K2 _], G3 as [K3 _], G as [K _]. by do 2 (etrans; [eassumption|]).
    + eapply valid_grows; [|exact Hv]. by etrans.
Qed.

Lemma sound_loop known F back c post body m :
  match c with Some c => frag true c = true /\ pool_in U (pool c) | None => True end ->
  match post with Some p => effect_frag known p = true /\ pool_in U (effect_pool p) | None => True end ->
  (back = true -> c <> None /\ post = None) -> sound known F body m ->
  sound known F (compile_loop back c post body) (for_loop L depth F c post m).
Proof.
  intros Hfc Hfp Hback Hb s s' Hm Hs Hc.
  destruct (compile_loop_parts _ _ _ _ _ _ _ _ _ Hfc Hfp Hback Hb Hm Hs Hc)
    as (ins & tb & pins & d1 & pcC & E & Hl & Hp).
  eexists. split; [by apply cs_up; [exact E|]|]. intros B C g k rs x [P1 P2 P3 P4 P5] Hv.
  rewrite fill_I in P4. eapply matches_any, loop_parts_run; done.
Qed.

Lemma sound_ext known F c c' m m' :
  (forall s, c s = c' s) -> (forall x, m x = m' x) -> sound known F c' m' -> sound known F c m.
Proof.
  intros Hc Hm H s s' Hs Hn He. rewrite Hc in He. destruct (H s s' Hs Hn He) as (ts & C & R).
  exists ts. split; [done|]. intros B C' g k rs x Hp Hv. rewrite Hm. by apply R.
Qed.

Lemma sound_while known F c body m :
  frag true c = true -> pool_in U (pool c) -> sound known F body m ->
  sound known F (compile_while [] c body) (while_loop L depth F c m).
Proof.
  intros Hf Hp Hb. eapply sound_ext; [intros; apply while_loop_code|intros; apply while_is_for|].
  by apply sound_loop.
Qed.

(** The scope of a [for] stays open when it is left by an exit, which is never a
    [break] or a [continue]. *)
Definition no_jump (r : option sres) : Prop :=
  match r with Some (SOut (OBreak | OContinue) _) => False | _ => True end.

Lemma no_jump_eval e (kont : Value -> Exec) x :
  (forall v y, no_jump (kont v y)) -> no_jump (eval_expr L depth e kont x).
Proof. intros H. unfold eval_expr, eval. destruct (evaluate_expression L depth e (xst x)); by try apply H. Qed.

Lemma no_jump_for n c p body x : no_jump (for_loop L depth n c p body x).
Proof.
  revert x. induction n as [|n IH]; intros x; [done|]. rewrite for_loop_S.
  assert (Ht : forall b y, no_jump (if (b : bool) then after_body (with_next p (for_loop L depth n c p body)) (body y)
                          else Some (SOut ONormal y))).
  { intros [] y; [|done]. unfold after_body.
    destruct (body y) as [[[] z| |]|]; try done;
      (destruct p; cbn [with_next]; [by apply no_jump_eval|apply IH]). }
  destruct c; cbn [with_test]; [|apply (Ht true)]. apply no_jump_eval. intros v y. apply Ht.
Qed.

Lemma matches_for F P B C g k rs pc pc' m x :
  env (xst x) = nest k g -> no_jump (m (open_scope ∅ x)) ->
  matches F P B C g (S k) rs pc pc' (m (open_scope ∅ x)) -> matches F P B C g k rs pc pc' (for_scope m x).
Proof.
  intros Hen Hn Hr. unfold for_scope. rewrite Hen, length_nest.
  destruct (m (open_scope ∅ x)) as [[o y| |]|]; try done.
  destruct Hr as (j & g' & He & Hh & Hm & Ho).
  assert (Hout : env (xst y) = nest (S j + k) g') by (rewrite He; f_equal; lia).
  destruct o; try done; [|by exists (S j), g'..].
  exists 0%nat, g'. split; [by apply (env_restore k (S j))|]. split; [done|]. split; [done|]. naive_solver.
Qed.

Lemma sound_for known F i c p body mi m :
  match c with Some c => frag true c = true /\ pool_in U (pool c) | None => True end ->
  match p with Some p => effect_frag known p = true /\ pool_in U (effect_pool p) | None => True end ->
  match i with Some ci => sound known F ci mi | None => mi = no_effect end -> (forall x, no_jump (mi x)) ->
  sound known F body m ->
  sound known F (compile_for [] i c p body) (for_scope (mi ;; for_loop L depth F c p m)).
Proof.
  intros Hc Hp Hi Hnj Hb.
  eapply sound_ext; [intros; apply for_loop_code|done|]. eapply sound_scope.
  - apply sound_seq; [|by apply sound_loop]. destruct i; [exact Hi|]. subst. apply sound_skip.
  - intros P B C g k rs pc pc' x Hen Hr. apply matches_for; [done| |exact Hr]. unfold andthen.
    specialize (Hnj (open_scope ∅ x)). destruct (mi (open_scope ∅ x)) as [[[] y| |]|]; try done.
    apply no_jump_for.
Qed.

(** *** The dispatch *)

Lemma pool_split l1 l2 : pool_in U (l1 ++ l2) -> pool_in U l1 /\ pool_in U l2.
Proof. apply pool_in_app. Qed.

(** What is shown of each statement. *)
Definition agrees (known : bytes -> bool) (F : nat) (s : Statement) : Prop :=
  stmt_frag known s = true -> pool_in U (stmt_pool s) ->
  sound known F (compile_stmt s []) (execute_statement L depth F s).

Lemma sound_stmts known F l :
  Forall (agrees known F) l ->
  block_frag known l = true -> pool_in U (block_pool l) ->
  sound known F (compile_all l []) (execute_all L depth F l).
Proof.
  induction 1 as [|s l Hs _ IH]; intros Hf Hp; [apply sound_skip|].
  cbn [block_frag forallb] in Hf. apply andb_true_iff in Hf as [Hf1 Hf2].
  apply pool_split in Hp as [Hp1 Hp2]. cbn [compile_all execute_all]. apply sound_seq.
  - by apply Hs.
  - by apply IH.
Qed.

Lemma stmts_exec F l :
  (fix stmts (l : list Statement) : Exec :=
     match l with [] => no_effect | s :: l => execute_statement L depth F s ;; stmts l end) l =
  execute_all L depth F l.
Proof. induction l as [|s l IH]; [done|]. cbn [execute_all]. by rewrite <- IH. Qed.
Lemma stmts_pool l :
  (fix block (l : list Statement) : list Value :=
     match l with [] => [] | s :: l => stmt_pool s ++ block l end) l = block_pool l.
Proof. induction l as [|s l IH]; [done|]. unfold block_pool in *. cbn [map concat]. by rewrite <- IH. Qed.
Lemma stmts_compile l p :
  (fix stmts (l : list Statement) (pend : pending) {struct l} : MS unit :=
     match l with [] => sret tt | s :: l => srun compile_stmt s pend; stmts l pend end) l p = compile_all l p.
Proof. induction l as [|s l IH]; [done|]. cbn [compile_all]. by rewrite <- IH. Qed.
Lemma stmts_frag known l :
  (fix block (l : list Statement) : bool :=
     match l with [] => true | s :: l => stmt_frag known s && block l end) l = block_frag known l.
Proof. induction l as [|s l IH]; [done|]. cbn. by rewrite IH. Qed.

Lemma sound_blocks known F l :
  Forall (agrees known F) l -> block_frag known l = true -> pool_in U (block_pool l) ->
  sound known F (compile_block (compile_all l [])) (scoped ∅ (execute_all L depth F l)).
Proof. intros Hl H1 H2. apply sound_block. by apply sound_stmts. Qed.

(** The statement inside a [for] is an expression statement. *)
Lemma sound_init known F i :
  match i with Some (ExpressionStatement e) => effect_frag known e | None => true | _ => false end = true ->
  pool_in U (match i with Some (ExpressionStatement e) => effect_pool e | _ => [] end) ->
  let m := match i with Some i => execute_statement L depth F i | None => no_effect end in
  match i with Some i => sound known F (compile_stmt i []) m | None => m = no_effect end /\ (forall x, no_jump (m x)).
Proof.
  intros Hf Hp. destruct i as [[]|]; try done. split; [by apply sound_effect|].
  intros x. by apply no_jump_eval.
Qed.

Lemma sound_stmt known F : forall s, agrees known F s.
Proof.
  fix IH 1.
  pose (Hl := fix go l : Forall (agrees known F) l :=
     match l with [] => Forall_nil_2 _ | s :: l => Forall_cons_2 _ _ _ (IH s) (go l) end).
  intros [e|es|es|e|e| | |n a|n|l|c t e|c b|i c p b|it k v b|t v c fin|e cs|n fs|items|n ps d va b] Hf Hp;
    cbn [stmt_frag stmt_pool compile_stmt execute_statement] in *; try done;
    rewrite ?stmts_exec, ?stmts_pool, ?stmts_frag, ?stmts_compile in *.
  - by apply sound_effect.
  - apply sound_return. by destruct e.
  - by apply sound_throw.
  - apply sound_break.
  - apply sound_continue.
  - by apply sound_blocks.
  - apply pool_split in Hp as [Hp1 Hp]. apply pool_split in Hp as [Hp2 Hp3]. bool_to_prop.
    destruct e as [e|]; rewrite ?stmts_exec, ?stmts_pool, ?stmts_frag, ?stmts_compile in *.
    + apply sound_if_else; try done; by apply sound_blocks.
    + apply sound_if_then; try done; by apply sound_blocks.
  - apply pool_split in Hp as [Hp1 Hp2]. bool_to_prop. apply sound_while; try done. by apply sound_blocks.
  - apply pool_split in Hp as [Hp1 Hp]. apply pool_split in Hp as [Hp2 Hp].
    apply pool_split in Hp as [Hp3 Hp4]. bool_to_prop.
    destruct (sound_init known F i) as [Hi Hj]; [done|done|].
    pose proof (sound_for known F (match i with Some i => Some (compile_stmt i []) | None => None end) c p
      (compile_block (compile_all b [])) (match i with Some i => execute_statement L depth F i | None => no_effect end)
      (scoped ∅ (execute_all L depth F b))) as G.
    apply G; [by destruct c|by destruct p|by destruct i|done|by apply sound_blocks].
Qed.

(** *** The statements of a program, which may make variables *)

Definition known_of (K : gset bytes) (n : bytes) : bool := bool_decide (n ∈ K).
Definition known_after (K : gset bytes) (s : Statement) : gset bytes :=
  match defines s with Some n => {[ n ]} ∪ K | None => K end.

(** A statement of the program and the ones behind it. *)
Lemma top_stmt K F s c c1 :
  match defines s with Some _ => stmt_frag (fun _ => true) s | None => stmt_frag (known_of K) s end = true ->
  pool_in U (stmt_pool s) -> main_ok (fc c) -> no_switch (loop_stack_ c) -> compile_stmt s [] c = Ret (tt, c1) ->
  exists t1, compiled_stmt c c1 t1 /\
    forall c2 P B C g rs x pc2 (kont : Exec), grows (fc c1) c2 -> placed B C c c1 t1 ->
    valid (known_of K) c2 0 g rs x -> (loop_stack_ c <> [] -> P) ->
    (forall g1 rs1 x1, valid (known_of (known_after K s)) c2 0 g1 rs1 x1 ->
       matches F P B C g1 0 rs1 (length (code_ (fc c1))) pc2 (kont x1)) ->
    matches F P B C g 0 rs (length (code_ (fc c))) pc2 (andthen (execute_statement L depth F s) kont x).
Proof.
  intros Hf Hp Hm Hs Hc. unfold known_after. destruct (defines s) as [n|] eqn:Hd.
  - destruct s as [e| | | | | | | | | | | | | | | | | |]; try done.
    destruct (compile_effect (fun _ => true) e c c1 Hm Hf Hp Hc) as (Hl & ins & E & He).
    exists (map I ins). split; [by apply cs_up|]. intros c2 P B C g rs x pc2 kont G [_ _ _ P4 P5] Hv HP Hk.
    rewrite fill_I in P4.
    assert (Hx : andthen (execute_statement L depth F (ExpressionStatement e)) kont x =
                 eval_expr L depth e (fun _ => kont) x).
    { unfold andthen. cbn [execute_statement]. unfold eval_expr, eval.
      by destruct (evaluate_expression L depth e (xst x)). }
    rewrite Hx. eapply effect_matches; [exact He|by left|by eapply valid_grows|done|done|].
    intros _ g1 rs1 x1 [W1 W2 W3 W4] Hl1 Hdef. apply Hk. split; try done.
    + destruct Hv as [V1 _ _ _]. unfold room in *. by rewrite Hl1.
    + intros m Hm'. apply bool_decide_eq_true in Hm'. apply elem_of_union in Hm' as [->%elem_of_singleton|Hm'].
      * by apply Hdef.
      * apply W4. by apply bool_decide_eq_true.
  - destruct (sound_stmt (known_of K) F s Hf Hp c c1 Hm Hs Hc) as (t1 & C1 & R1). exists t1. split; [done|].
    intros c2 P B C g rs x pc2 kont G Hpl Hv HP Hk. eapply matches_then; [exact Hv| |exact Hk].
    eapply matches_loop; [exact HP|]. apply R1; [done|]. by eapply valid_grows.
Qed.

Lemma top_stmts F l : forall K c c', program_frag K l = true -> pool_in U (block_pool l) ->
  main_ok (fc c) -> no_switch (loop_stack_ c) -> compile_all l [] c = Ret (tt, c') ->
  exists ts, compiled_stmt c c' ts /\
    forall B C g rs x, placed B C c c' ts -> valid (known_of K) (fc c') 0 g rs x ->
    matches F (loop_stack_ c <> []) B C g 0 rs (length (code_ (fc c))) (length (code_ (fc c')))
      (execute_all L depth F l x).
Proof.
  induction l as [|s l IH]; intros K c c' Hf Hp Hm Hs Hc.
  - injection Hc as <-. exists []. split; [by apply (cs_up c c []); [apply emits_refl|]|].
    intros B C g rs x _ Hv. by eapply matches_here.
  - apply pool_split in Hp as [Hp1 Hp2]. cbn [compile_all] in Hc.
    apply sbind_Ret in Hc as ([] & c1 & H1 & H2).
    assert (Hfs : match defines s with Some _ => stmt_frag (fun _ => true) s | None => stmt_frag (known_of K) s end = true /\
                  program_frag (known_after K s) l = true).
    { cbn [program_frag] in Hf. unfold known_after. destruct (defines s); by apply andb_true_iff in Hf. }
    destruct Hfs as [Hf1 Hf2]. destruct (top_stmt K F s c c1 Hf1 Hp1 Hm Hs H1) as (t1 & C1 & R1).
    destruct (loops_ext_shape _ _ _ _ (cs_loops _ _ _ C1)) as (Hs1 & _ & Hl1).
    destruct (IH (known_after K s) c1 c' Hf2 Hp2 (cs_ok _ _ _ C1) (Hs1 Hs) H2) as (t2 & C2 & R2).
    exists (t1 ++ t2). split; [by eapply cs_app|]. intros B C g rs x Hpl Hv.
    destruct (placed_app _ _ _ _ _ _ _ C1 C2 Hpl) as [P1 P2]. cbn [execute_all].
    apply (R1 (fc c')); [by eapply cs_grows|done|done|done|].
    intros g1 rs1 x1 Hv1. eapply matches_loop; [apply Hl1|]. by apply R2.
Qed.

(** *** Runs to the end *)

Lemma busy_run n vm : busy n vm -> Vm.run L depth false n vm = None.
Proof.
  clear Hret Htry. revert vm. induction n as [|n IH]; intros vm (m & vm' & Hm & H); [done|].
  destruct m as [|m]; [lia|]. inversion H as [|? ? vm1 ? Hs H1]; subst. cbn [Vm.run]. unfold stepr in Hs.
  rewrite Hs. apply IH. exists m, vm'. split; [lia|done].
Qed.

Lemma exits_run g rs pc r g' :
  (forall vm vm', r vm <> XOk vm') -> exits g rs pc r g' ->
  exists fuel vm', Vm.run L depth false fuel (state_at g rs pc) = Some (r vm') /\ globals vm' = g'.
Proof.
  intros Hr (vm1 & vm' & H1 & H2 & H3).
  destruct (run_steps L depth _ _ (r vm') 1 H1) as [fuel Hf].
  { cbn [Vm.run]. rewrite H2. destruct (r vm') eqn:E; try done. by destruct (Hr _ _ E). }
  by exists fuel, vm'.
Qed.

End Sim.

(** * Programs *)

(** How a program ends in the machine. *)
Definition ended (o : completion) (vm : VM) : xres :=
  match o with
  | OReturn v => XReturn v vm
  | OErr m => XErr m vm
  | OThrow v => XThrow v vm
  | ONormal | OBreak | OContinue => XReturn NONE vm
  end.

Lemma compile_program_Ret l p :
  compile_program l = Ret p ->
  exists s1 s2, compile_all l [] s1 = Ret (tt, s2) /\ loop_stack_ s1 = [] /\ at_main (fc s1) /\
    in_main (fc s1) /\
    (in_main (fc s2) -> code p = code_ (fc s2) ++ [mkI RETURN_NULL 0 0 0] /\
       constants p = constants_ (fc s2) /\ reg_count p = max (regs_ (fc s2))).
Proof.
  unfold compile_program. change (new_compiler (lit "<main>") [] None) with (Ret main_compiler). cbv beta iota.
  destruct (compile_pass (set_discovery true ∅ main_compiler) l); [|done|done]. unfold compile_pass.
  destruct (compile_block (compile_all l []) (MkSC main_compiler [])) as [[[] s]| |] eqn:Hc; [|done|done].
  unfold compile_block in Hc. apply sbind_Ret in Hc as ([] & s1 & [H1 L1]%up_Ret & Hc).
  apply sbind_Ret in Hc as ([] & s2 & H2 & [H3 L3]%up_Ret).
  destruct (emit RETURN_NULL 0 0 0 (fc s)) as [[n fc']| |] eqn:Hem; [|done|done]. intros [= <-].
  apply emit_Ret in Hem as (_ & Hc4 & Hk4 & Hg4 & _).
  pose proof (push_scope_Ret _ _ H1) as (Hc1 & Hk1 & Hg1 & Ho1).
  assert (Hin : in_main main_compiler) by by repeat split.
  exists s1, s2. split; [done|]. split; [done|].
  split; [split; [exact Hc1|split; [exact Hk1|split; [exact Hg1|exact Ho1]]]|].
  split; [by eapply km_push, H1|]. intros Hm2.
  apply pop_scope_Ret in H3 as (Hc3 & Hk3 & Hg3); [|by destruct Hm2].
  cbn [code constants reg_count]. rewrite Hc4, Hk4, Hg4, Hc3, Hk3, Hg3. done.
Qed.

Lemma no_holes pos ts B C :
  holes is_brk pos ts = [] -> holes is_cont pos ts = [] -> map (fill B C) ts = map raw ts.
Proof.
  revert pos. induction ts as [|[i| |] ts IH]; intros pos H1 H2; [done| |done|done].
  cbn in *. f_equal. by eapply IH.
Qed.

(** C1: the two engines agree on the programs of [program_frag]: assignments,
    plain and compound, [++] and [--] of variables, conditionals, loops with
    [break] and [continue], [return] and [throw], where a block assigns only
    variables that the top level has assigned before it, and expressions have
    no arrays, indexing, ranges, calls, module constants or interpolated
    strings and use && and || only as conditions; and no two constants of the
    program are equal for == without being the same. Outside of it they differ,
    see [block_variable_differs]; of an operation of the interpreter that C++
    leaves undefined nothing is said. Once such a program compiles, a run of the
    virtual machine ends as the tree-walking interpreter ends (its value, its
    error message or its thrown value) with the same variables; and while the
    interpreter's loops have not ended within [F] turns, the machine has not
    ended within [F] instructions, so that a program that loops forever in one
    engine loops forever in the other. *)
Theorem engines_agree L depth F vm p l x :
  program_frag (dom (globals vm)) l = true -> no_clash (block_pool l) -> compile_program l = Ret p ->
  env (xst x) = global_env (globals vm) -> heap_ (xst x) = arrays vm ->
  match interpret L depth F l x with
  | None => Vm.run L depth false F (execute vm p) = None
  | Some (SOut o x') =>
      exists fuel vm', Vm.run L depth false fuel (execute vm p) = Some (ended o vm') /\
        o <> OBreak /\ o <> OContinue /\
        forall n, env_get (env (xst x')) n = globals vm' !! n
  | Some SUndef => True
  | Some SExternal => False
  end.
Proof.
  intros Hf HU Hp Hen Hh. set (vm0 := execute vm p).
  set (f := MkFrame p (MkClosure p []) 0 (length (regs vm)) (-1) 0).
  destruct (compile_program_Ret l p Hp) as (s1 & s2 & Hc & Hl & Hat & Hin & Hfin).
  pose proof Hat as (Hc1 & Hk1 & Hg1 & _).
  assert (Hm : main_ok (block_pool l) (fc s1)).
  { split; [done|rewrite Hg1; by apply new_allocator_ok|rewrite Hk1; by intros ? ?%not_elem_of_nil]. }
  destruct (top_stmts L depth vm0 f (call_stack vm) (block_pool l) HU ltac:(done) ltac:(done) F l
    (dom (globals vm)) s1 s2 Hf (fun _ H => H) Hm ltac:(rewrite Hl; by constructor) Hc) as (ts & Ct & R).
  pose proof (cs_ok _ _ _ _ Ct) as Hm2. destruct (Hfin (mo_main _ _ Hm2)) as (Hcode & Hconst & Hregs).
  pose proof (cs_emits _ _ _ _ Ct) as E. pose proof (em_code _ _ _ _ E) as Ec. rewrite Hc1 in Ec. cbn in Ec.
  pose proof (cs_loops _ _ _ _ Ct) as Hls. rewrite Hl in Hls. destruct Hls as (_ & Hb & Hco).
  assert (Hpl : placed f 0 0 s1 s2 ts).
  { split; try (by rewrite ?Hl, ?Hb, ?Hco); [|by rewrite <- Hconst].
    rewrite (no_holes _ _ _ _ Hb Hco), Hc1, <- Ec. intros i y Hi. unfold instr_at. cbn.
    rewrite Hcode. by apply lookup_app_l_Some. }
  assert (Hv : valid vm0 f (known_of (dom (globals vm))) (fc s2) 0 (globals vm) (regs vm0) x).
  { split; [|done|done|].
    - unfold room. cbn. rewrite length_app, length_replicate, Hregs. done.
    - intros n Hn. apply elem_of_dom. by apply bool_decide_eq_true in Hn. }
  specialize (R 0%nat 0%nat (globals vm) (regs vm0) x Hpl Hv). rewrite Hc1 in R.
  change (state_at vm0 f (call_stack vm) (globals vm) (regs vm0) 0) with vm0 in R.
  unfold interpret. destruct (execute_all L depth F l x) as [[o x'| |]|]; [|done|done|by apply busy_run].
  destruct R as (j & g' & He & _ & _ & Ho).
  assert (Hend : exits L depth vm0 f (call_stack vm) (globals vm) (regs vm0) 0 (ended o) g' /\ o <> OBreak /\ o <> OContinue).
  { rewrite Hl in Ho. destruct o; try (by split; [exact Ho|]).
    - destruct Ho as [_ (rs' & Hr & _)]. split; [|done]. eapply exits_after; [exact Hr|].
      apply exits_return_null; [done|]. unfold instr_at. cbn. rewrite Hcode. by apply list_lookup_middle.
    - by destruct Ho as (_ & [] & _).
    - by destruct Ho as (_ & [] & _). }
  destruct Hend as [Hend Hob]. apply exits_run in Hend as (fuel & vm' & Hrun & <-); [|by destruct o].
  exists fuel, vm'. split; [exact Hrun|]. destruct Hob as [Hob1 Hob2]. split; [done|]. split; [done|].
  intros n. rewrite He. apply env_get_nest.
Qed.
(** [no_clash] of a concrete pool. *)
#[local] Existing Instance Value.StringCow.Value_eq_dec.
Definition clash_free (U : list Value) : bool :=
  forallb (fun v => forallb (fun w => negb (op_eq v w) || bool_decide (v = w)) U) U.
Lemma clash_free_ok U : clash_free U = true -> no_clash U.
Proof.
  unfold clash_free. intros H v w Hv Hw Heq. rewrite forallb_forall in H.
  specialize (H v (proj1 (list_elem_of_In _ _) Hv)). rewrite forallb_forall in H.
  specialize (H w (proj1 (list_elem_of_In _ _) Hw)). rewrite Heq in H. by apply bool_decide_eq_true in H.
Qed.

(** The sum of the numbers below 6 but 3, and a nested loop. *)
Definition sum_program : list Statement :=
  let v n := Variable_ (lit n) in
  let set n e := ExpressionStatement (AssignmentExpression (lit n) (lit "=") None None e) in
  let op n o e := ExpressionStatement (AssignmentExpression (lit n) (lit o) None None e) in
  [ set "$i" (NumberLiteral 0); set "$s" (NumberLiteral 0);
    WhileStatement (BooleanLiteral true)
      [ ExpressionStatement (UnaryExpression (lit "++") (v "$i") false);
        IfStatement (BinaryExpression (v "$i") (lit "==") (NumberLiteral 3)) [ContinueStatement] None;
        IfStatement (BinaryExpression (v "$i") (lit ">") (NumberLiteral 5)) [BreakStatement]
          (Some [op "$s" "+=" (v "$i")]) ];
    ForStatement (Some (set "$i" (NumberLiteral 0)))
      (Some (BinaryExpression (v "$i") (lit "<") (NumberLiteral 300)))
      (Some (UnaryExpression (lit "++") (v "$i") true))
      [IfStatement (BinaryExpression (v "$i") (lit "==") (NumberLiteral 3)) [BreakStatement] None];
    ReturnStatement (Some (BinaryExpression (v "$s") (lit "+") (v "$i"))) ]%string.

Lemma engines_agree_witness :
  let L := MkLib (fun _ => []) (fun d _ => d) in
  let vm := MkVM [] [] [] 0 NONE ∅ ∅ ∅ in
  exists p fuel vm', compile_program sum_program = Ret p /\
    Vm.run L 5 false fuel (execute vm p) = Some (XReturn (INT 15) vm') /\
    globals vm' !! lit "$s" = Some (INT 12).
Proof.
  intros L vm. destruct (compile_program sum_program) as [p| |] eqn:Hp;
    [|by vm_compute in Hp|by vm_compute in Hp].
  set (x := MkXS (MkSt (global_env ∅) ∅) []).
  assert (HU : no_clash (block_pool sum_program)) by (apply clash_free_ok; vm_compute; reflexivity).
  assert (Hf : program_frag (dom (globals vm)) sum_program = true) by (vm_compute; reflexivity).
  pose proof (engines_agree L 5 10 vm p sum_program x Hf HU Hp eq_refl eq_refl) as H.
  assert (He : exists x', interpret L 5 10 sum_program x = Some (SOut (OReturn (INT 15)) x') /\
                env_get (env (xst x')) (lit "$s") = Some (INT 12)) by (eexists; split; vm_compute; reflexivity).
  destruct He as (x' & He & Hs). rewrite He in H. destruct H as (fuel & vm' & Hr & _ & _ & Hg).
  exists p, fuel, vm'. split; [reflexivity|]. split; [exact Hr|]. rewrite <- Hg. exact Hs.
Defined.

(** * Where the engines differ, and where both differ from the documents *)

Definition run_lib : Lib := MkLib (fun _ => []) (fun d _ => d).
(** What a program ends with in the machine and in the interpreter. *)
Definition vm_result (l : list Statement) : option (Value + bytes) :=
  match compile_program l with
  | Ret p =>
      match Vm.run run_lib 5 false 1000 (execute (MkVM [] [] [] 0 NONE ∅ ∅ ∅) p) with
      | Some (XReturn v _) => Some (inl v)
      | Some (XErr m _) => Some (inr m)
      | _ => None
      end
  | _ => None
  end.
Definition tree_result (l : list Statement) : option (Value + bytes) :=
  match interpret run_lib 5 1000 l (MkXS (MkSt (global_env ∅) ∅) []) with
  | Some (SOut (OReturn v) _) => Some (inl v)
  | Some (SOut (OErr m) _) => Some (inr m)
  | _ => None
  end.
Definition set_ (n : bytes) (e : Expression) : Statement :=
  ExpressionStatement (AssignmentExpression n (lit "=") None None e).
Definition return_ (n : bytes) : Statement := ReturnStatement (Some (Variable_ n)).

(** A first assignment in a block: a variable of the block or of the program. *)
Definition block_variable : list Statement :=
  [IfStatement (BooleanLiteral true) [set_ (lit "$x") (NumberLiteral 1)] None; return_ (lit "$x")].
Example block_variable_differs :
  tree_result block_variable = Some (inr (lit "Undefined variable: $x")) /\
  vm_result block_variable = Some (inl (INT 1)).
Proof. split; vm_compute; reflexivity. Qed.

(** [const ( A = 5, B )]: the expression again, or the number of the item. *)
Definition const_repeat : list Statement :=
  [ConstBlock [(lit "A", Some (NumberLiteral 5)); (lit "B", None)]; return_ (lit "B")].
Example const_repeat_differs :
  tree_result const_repeat = Some (inl (INT 5)) /\ vm_result const_repeat = Some (inl (INT 0)).
Proof. split; vm_compute; reflexivity. Qed.

(** A [finally] whose [catch] throws does not run, in either engine. *)
Definition catch_throws : list Statement :=
  [ set_ (lit "$f") (NumberLiteral 0);
    TryCatchStatement
      [TryCatchStatement [ThrowStatement (NumberLiteral 1)] (lit "$e")
         (Some [ThrowStatement (NumberLiteral 2)]) (Some [set_ (lit "$f") (NumberLiteral 1)])]
      (lit "$e") (Some []) None;
    return_ (lit "$f") ].
Example catch_throws_skips_finally :
  tree_result catch_throws = Some (inl (INT 0)) /\ vm_result catch_throws = Some (inl (INT 0)).
Proof. split; vm_compute; reflexivity. Qed.

(** A [break] leaves the handler of its [try] behind in the machine: an
    exception after the loop is caught there. *)
Definition break_in_try : list Statement :=
  [ WhileStatement (BooleanLiteral true)
      [TryCatchStatement [BreakStatement] (lit "$e") (Some [ReturnStatement (Some (NumberLiteral 5))]) None];
    return_ (lit "$nope") ].
Example break_leaves_the_handler :
  tree_result break_in_try = Some (inr (lit "Undefined variable: $nope")) /\
  vm_result break_in_try = Some (inl (INT 5)).
Proof. split; vm_compute; reflexivity. Qed.

End EngineStmt.
