(* ===== verification/VmSafe.v ===== *)
(** The frames and registers of the virtual machine (Vm) for any bytecode with
    operands in range: which registers an instruction may touch, and what a
    call leaves to its caller. *)

From S2P Require Import Prelude CNum Value Bytecode Vm.
#[local] Open Scope Z_scope.

Module VmSafe.
Import CNum Value Bytecode Vm.

(** * Code with its operands in range *)

(** The registers an instruction names, the instructions behind it in [rest].
    A call and MAKE_CLOSURE read hints there. *)
Definition range (from n : Z) : list Z := map (fun k => from + Z.of_nat k) (seq 0 (Z.to_nat n)).
Fixpoint capture_regs (rest : list Instruction) : list Z :=
  match rest with
  | h :: rest => if bool_decide (op h = LOAD_CAPTURE) && (a h =? 0) then b h :: capture_regs rest else []
  | [] => []
  end.
Definition hint_of (rest : list Instruction) : option Instruction :=
  match rest with
  | h :: _ => if bool_decide (op h = NOP) then Some h else None
  | [] => None
  end.
Definition touched (i : Instruction) (rest : list Instruction) : list Z :=
  match op i with
  | LOAD_CONST | LOAD_CONST_W | LOAD_NULL | LOAD_TRUE | LOAD_FALSE | LOAD_INT
  | LOAD_GLOBAL | STORE_GLOBAL | CHECK_DEFINED | NEW_ARRAY | NEW_ASSOC
  | JUMP_IF_FALSE | JUMP_IF_TRUE | JUMP_IF_NULL | RETURN | LOAD_CAPTURE | THROW | LOAD_EXC | LOAD_ARGC => [a i]
  | MOVE | LOAD_VAR | STORE_VAR | UNM | BNOT | NOT | TYPE_OF | TO_INT | TO_FLOAT | TO_STR | TO_BOOL
  | ARRAY_PUSH | ARRAY_LEN | GET_FIELD => [a i; b i]
  | ADD | SUB | MUL | DIV | MOD | POW | BAND | BOR | BXOR | SHL | SHR | CONCAT
  | EQ | NEQ | LT | GT | LTE | GTE | CMP3 | COALESCE | ARRAY_GET | ARRAY_SET | ASSOC_APPEND => [a i; b i; c i]
  | SET_FIELD => [a i; c i]
  | CALL | TAIL_CALL => a i :: b i :: match hint_of rest with Some h => range (c i) (a h) | None => [] end
  | CALL_BUILTIN => match hint_of rest with Some h => a i :: range (c i) (a h) | None => [a i; c i] end
  | MAKE_CLOSURE => a i :: capture_regs rest
  | FOR_PREP => [a i; a i + 1; b i]
  | FOR_STEP => [a i; a i + 1; a i + 2; a i + 3]
  | _ => []
  end.
(** The constants it names *)
Definition consts (i : Instruction) (rest : list Instruction) : list Z :=
  match op i with
  | LOAD_CONST | SET_FIELD => [b i]
  | LOAD_CONST_W | LOAD_GLOBAL | STORE_GLOBAL | CHECK_DEFINED => [bx i]
  | GET_FIELD => [c i]
  | CALL => match hint_of rest with Some h => if bx h =? 0 then [] else [bx h - 1] | None => [] end
  | _ => []
  end.
Definition below (n x : Z) : bool := (0 <=? x) && (x <? n).
Definition ins_ok (p : FunctionProto) (i : Instruction) (rest : list Instruction) : bool :=
  forallb (below (reg_count p)) (touched i rest) &&
  forallb (below (Z.of_nat (length (constants p)))) (consts i rest) &&
  match op i with
  | MAKE_CLOSURE => below (Z.of_nat (length (nested p))) (Z.lor (b i) (Z.shiftl (c i) 8))
  | CALL | TAIL_CALL => match hint_of rest with Some h => 0 <=? a h | None => true end
  | _ => true
  end.
Fixpoint code_ok (p : FunctionProto) (code : list Instruction) : bool :=
  match code with [] => true | i :: rest => ins_ok p i rest && code_ok p rest end.
Fixpoint proto_ok (p : FunctionProto) : bool :=
  (0 <=? arity p) && (arity p <=? reg_count p) && code_ok p (code p) && forallb proto_ok (nested p).

(** * Frames in order *)

Definition reg_num (f : Frame) : nat := Z.to_nat (reg_count (f_proto f)).
(** Every frame has its registers, between its base and that of the next one;
    its result goes to a register of the frame below. *)
Fixpoint stack_ok (frames : list Frame) (top : nat) : Prop :=
  match frames with
  | [] => True
  | f :: s =>
      proto_ok (f_proto f) = true /\ (base f + reg_num f <= top)%nat /\
      match s with
      | [] => True
      | g :: _ => 0 <= ret_reg f -> (base g <= Z.to_nat (ret_reg f) < base g + reg_num g)%nat
      end /\ stack_ok s (base f)
  end.
Definition closures_ok (cs : gmap loc Closure) : Prop :=
  forall l cl, cs !! l = Some cl -> proto_ok (proto cl) = true.
Definition handlers_ok (es : list TryCatchEntry) : Prop := Forall (fun e => (1 <= frame_depth e)%nat) es.
Record vm_ok (vm : VM) : Prop := {
  ok_stack : stack_ok (call_stack vm) (length (regs vm));
  ok_depth : (length (call_stack vm) <= MAX_CALL_DEPTH)%nat;
  ok_closures : closures_ok (closures vm);
  ok_handlers : handlers_ok (try_stack vm) }.

Lemma stack_ok_mono s : forall t t', (t <= t')%nat -> stack_ok s t -> stack_ok s t'.
Proof. destruct s as [|f s]; [done|]. cbn. intros t t' Ht (H1 & H2 & H3 & H4). split_and!; [done|lia|done..]. Qed.

(** Only the instruction pointer of the running frame differs. *)
Definition jumped (s s' : list Frame) : Prop := exists j, s' = match s with f :: r => set_ip f j :: r | [] => [] end.
Lemma jumped_refl s : jumped s s.
Proof. destruct s as [|f s]; [by exists 0|]. exists (ip f). by destruct f. Qed.
Lemma jumped_trans s1 s2 s3 : jumped s1 s2 -> jumped s2 s3 -> jumped s1 s3.
Proof. intros [j ->] [k ->]. destruct s1; [by exists 0|]. by exists k. Qed.
Lemma jumped_length s s' : jumped s s' -> length s' = length s.
Proof. intros [j ->]. by destruct s. Qed.
Lemma jumped_ok s s' t : jumped s s' -> stack_ok s t -> stack_ok s' t.
Proof. intros [j ->]. by destruct s. Qed.

(** What an instruction does that neither calls, returns nor touches the
    handlers *)
Record quiet (k : nat) (vm vm' : VM) : Prop := {
  q_stack : jumped (call_stack vm) (call_stack vm');
  q_length : (length (regs vm) <= length (regs vm'))%nat;
  q_regs : take k (regs vm') = take k (regs vm);
  q_closures : closures_ok (closures vm) -> closures_ok (closures vm');
  q_try : try_stack vm' = try_stack vm;
  q_floor : try_floor vm' = try_floor vm }.

Lemma quiet_refl k vm : quiet k vm vm.
Proof. split; auto using jumped_refl. Qed.
Lemma quiet_trans k vm1 vm2 vm3 : quiet k vm1 vm2 -> quiet k vm2 vm3 -> quiet k vm1 vm3.
Proof.
  intros [A1 B1 C1 D1 E1 F1] [A2 B2 C2 D2 E2 F2]. split; [by eapply jumped_trans|lia|congruence|auto|congruence..].
Qed.
Lemma quiet_ok k vm vm' : quiet k vm vm' -> vm_ok vm -> vm_ok vm'.
Proof.
  intros [A1 B1 C1 D1 E1 _] [O1 O2 O3 O4]. split; [|by erewrite jumped_length|auto|by rewrite E1].
  eapply jumped_ok; [done|]. by eapply stack_ok_mono.
Qed.

(** [P] of the state a result leaves *)
Definition xall (P : VM -> Prop) (r : xres) : Prop :=
  match r with XOk vm | XErr _ vm | XThrow _ vm | XReturn _ vm => P vm | XUndef | XExternal => True end.
Lemma xall_impl (P Q : VM -> Prop) r : (forall vm, P vm -> Q vm) -> xall P r -> xall Q r.
Proof. intros H. destruct r; cbn; auto. Qed.
Lemma xall_quiet k vm vm1 r : quiet k vm vm1 -> xall (quiet k vm1) r -> xall (quiet k vm) r.
Proof. intros H. apply xall_impl. intros vm2. by apply quiet_trans. Qed.

Section Quiet.
Context (L : Lib) (depth : nat) (k : nat).

Lemma quiet_regs vm rs : (length (regs vm) <= length rs)%nat -> take k rs = take k (regs vm) -> quiet k vm (set_regs vm rs).
Proof. intros. split; auto using jumped_refl. Qed.
Lemma quiet_jump vm j : quiet k vm (jump_to vm j).
Proof.
  unfold jump_to. destruct (call_stack vm) as [|f s] eqn:E; [apply quiet_refl|].
  split; cbn; auto. exists j. by rewrite E.
Qed.
Lemma quiet_arrays vm h : quiet k vm (set_arrays vm h).
Proof. split; auto using jumped_refl. Qed.
Lemma quiet_globals vm g : quiet k vm (set_globals vm g).
Proof. split; auto using jumped_refl. Qed.
Lemma quiet_exc vm v : quiet k vm (set_exc vm v).
Proof. split; auto using jumped_refl. Qed.
Lemma quiet_set_reg vm f x v : (k <= base f)%nat -> xall (quiet k vm) (set_reg vm f x v).
Proof.
  intros Hk. unfold set_reg. destruct (_ <? _)%nat; [|done]. cbn. apply quiet_regs.
  - by rewrite length_insert.
  - apply take_insert_ge. lia.
Qed.
Lemma quiet_reg vm vm0 f x (K : Value -> xres) : (forall v, xall (quiet k vm0) (K v)) -> xall (quiet k vm0) (reg vm f x K).
Proof. intros H. unfold reg. by destruct (regs vm !! _). Qed.
Lemma quiet_const vm0 f x (K : Value -> xres) : (forall v, xall (quiet k vm0) (K v)) -> xall (quiet k vm0) (const f x K).
Proof. intros H. unfold const. by destruct (constants _ !! _). Qed.
Lemma quiet_lift {A} vm vm0 (r : res A) (K : A -> xres) :
  quiet k vm0 vm -> (forall v, xall (quiet k vm0) (K v)) -> xall (quiet k vm0) (lift vm r K).
Proof. intros H1 H2. destruct r; cbn; auto. Qed.

(** Cases and continuations, down to the changes above *)
Ltac calm :=
  lazymatch goal with
  | |- xall (quiet _ ?vm) (XOk ?vm) => apply quiet_refl
  | |- xall (quiet _ ?vm) (XErr _ ?vm) => apply quiet_refl
  | |- xall _ XUndef => exact I
  | |- xall _ (reg _ _ _ _) => apply quiet_reg; intros ?; calm
  | |- xall _ (const _ _ _) => apply quiet_const; intros ?; calm
  | |- xall _ (lift _ _ _) => apply quiet_lift; [apply quiet_refl|intros ?; calm]
  | |- xall _ (set_reg _ _ _ _) => apply quiet_set_reg; assumption
  | |- xall _ (XOk (jump_to _ _)) => apply quiet_jump
  | |- xall _ (XOk (set_globals _ _)) => apply quiet_globals
  | |- xall _ (XOk (set_arrays _ _)) => apply quiet_arrays
  | |- xall _ (match ?x with _ => _ end) => destruct x; calm
  | |- xall _ (XOk (match ?x with _ => _ end)) => destruct x; calm
  | _ => idtac
  end.

Section Ops.
Variables (vm : VM) (f : Frame) (i : Instruction).
Hypothesis Hk : (k <= base f)%nat.

Lemma quiet_load : xall (quiet k vm) (exec_load vm f i).
Proof. unfold exec_load. calm. Qed.
Lemma quiet_global w : xall (quiet k vm) (exec_global w vm f i).
Proof. unfold exec_global. calm. Qed.
Lemma quiet_value : xall (quiet k vm) (exec_value L depth vm f i).
Proof. unfold exec_value. calm. Qed.
Lemma quiet_jumps : xall (quiet k vm) (exec_jump vm f i).
Proof. unfold exec_jump. cbv zeta. calm. Qed.
Lemma quiet_ensure x (K : VM -> xres) :
  (forall vm', quiet k vm vm' -> xall (quiet k vm') (K vm')) -> xall (quiet k vm) (ensure_array vm f x K).
Proof.
  intros H. unfold ensure_array. apply quiet_reg. intros arr.
  assert (Hs : xall (quiet k vm) (K vm)) by apply H, quiet_refl.
  destruct arr; try exact Hs. destruct (new_array vm []) as [l vm1] eqn:E.
  assert (H1 : quiet k vm vm1) by (injection E as <- <-; apply quiet_arrays).
  pose proof (quiet_set_reg vm1 f x (ARRAY l) Hk) as H2.
  destruct (set_reg vm1 f x (ARRAY l)); cbn in H2 |- *; try done; try (by eapply quiet_trans).
  assert (H3 : quiet k vm vm0) by by eapply quiet_trans. eapply xall_quiet; [exact H3|by apply H].
Qed.
Lemma quiet_array_set vm0 x key val :
  (forall K : Value -> xres, (forall v, xall (quiet k vm0) (K v)) -> xall (quiet k vm0) (key K)) ->
  (forall K : Value -> xres, (forall v, xall (quiet k vm0) (K v)) -> xall (quiet k vm0) (val K)) ->
  xall (quiet k vm0) (array_set L depth vm0 f x key val).
Proof.
  intros Hkey Hval. unfold array_set. apply quiet_reg. intros []; calm.
  apply Hkey. intros kv. apply Hval. intros v. calm.
Qed.
Lemma quiet_array : xall (quiet k vm) (exec_array L depth vm f i).
Proof.
  unfold exec_array. destruct (op i); try (calm; fail).
  - destruct (new_array vm []) as [l vm1] eqn:E. injection E as <- <-.
    eapply xall_quiet; [apply quiet_arrays|]. calm.
  - destruct (new_array vm _) as [l vm1] eqn:E. injection E as <- <-.
    eapply xall_quiet; [apply quiet_arrays|]. calm.
  - apply quiet_ensure. intros vm1 _. apply quiet_array_set; intros K HK; by apply quiet_reg.
  - apply quiet_const. intros fname. apply quiet_ensure. intros vm1 _.
    apply quiet_array_set; intros K HK; [apply HK|by apply quiet_reg].
Qed.
Lemma quiet_set3 vm0 x1 x2 x3 v1 v2 v3 : xall (quiet k vm0) (set3 vm0 f x1 x2 x3 v1 v2 v3).
Proof.
  unfold set3. pose proof (quiet_set_reg vm0 f x1 v1 Hk) as H1.
  destruct (set_reg vm0 f x1 v1) as [vm1| | | | |]; try done.
  pose proof (quiet_set_reg vm1 f x2 v2 Hk) as H2.
  destruct (set_reg vm1 f x2 v2) as [vm2| | | | |]; cbn in *; try (by eapply quiet_trans); try done.
  eapply xall_quiet; [by eapply quiet_trans|by apply quiet_set_reg].
Qed.
Lemma quiet_for : xall (quiet k vm) (exec_for vm f i).
Proof.
  unfold exec_for. destruct (op i); try done.
  - apply quiet_reg. intros v. pose proof (quiet_set_reg vm f (a i) v Hk) as H1.
    destruct (set_reg vm f (a i) v) as [vm1| | | | |]; try done.
    eapply xall_quiet; [exact H1|by apply quiet_set_reg].
  - apply quiet_reg. intros arr. apply quiet_reg. intros iv. destruct arr; try apply quiet_jump.
    cbv zeta. calm; apply quiet_set3.
Qed.
End Ops.
End Quiet.

(** * Closures, handlers and calls *)

Lemma code_ok_at p l n i : code_ok p l = true -> l !! n = Some i -> ins_ok p i (drop (S n) l) = true.
Proof.
  revert n. induction l as [|j l IH]; intros n; [done|]. cbn [code_ok]. intros [H1 H2]%andb_true_iff.
  destruct n as [|n]; [by intros [= <-]|]. by apply IH.
Qed.
Lemma proto_ok_inv p : proto_ok p = true ->
  0 <= arity p <= reg_count p /\ code_ok p (code p) = true /\ forallb proto_ok (nested p) = true.
Proof. destruct p. cbn. rewrite !andb_true_iff. intros [[[H1 H2] H3] H4]. bool_to_prop. auto. Qed.
Lemma nested_ok p n q : proto_ok p = true -> nested p !! n = Some q -> proto_ok q = true.
Proof.
  intros (_ & _ & H)%proto_ok_inv Hq. rewrite forallb_forall in H. by apply H, list_elem_of_In, list_elem_of_lookup_2 with n.
Qed.

Lemma quiet_closure k vm f i : (k <= base f)%nat -> proto_ok (f_proto f) = true -> xall (quiet k vm) (exec_closure vm f i).
Proof.
  intros Hk Hp. unfold exec_closure. destruct (op i); try done.
  - destruct (nested (f_proto f) !! _) as [p|] eqn:En; [|done]. destruct (capture_hints _ _ _ _ _) as [[caps at_]|]; [|done].
    cbv zeta. eapply xall_quiet; [|by apply quiet_set_reg]. eapply quiet_trans; [|apply quiet_jump].
    split; cbn; auto using jumped_refl. intros H l cl. destruct (decide (l = fresh (dom (closures vm)))) as [->|Hl].
    + rewrite lookup_insert_eq. intros [= <-]. by eapply nested_ok.
    + rewrite lookup_insert_ne by done. apply H.
  - destruct (captures _ !! _); [by apply quiet_set_reg|apply quiet_refl].
  - by apply quiet_set_reg.
Qed.

Lemma stack_ok_app l g s t : stack_ok (l ++ g :: s) t ->
  (exists t', (t' <= t)%nat /\ stack_ok (g :: s) t') /\ Forall (fun f => (base g <= base f)%nat) l.
Proof.
  revert t. induction l as [|f l IH]; intros t H; [by split; [exists t|]|]. destruct H as (_ & H2 & _ & H4).
  destruct (IH _ H4) as ((t' & H5 & H6) & H7). split; [exists t'; split; [lia|done]|]. constructor; [|done].
  destruct H6 as (_ & H6 & _). lia.
Qed.

(** Unwinding pops some frames and the registers from the lowest of them on. *)
Lemma unwind_spec n : (1 <= n)%nat -> forall frames rs, frames <> [] -> stack_ok frames (length rs) ->
  exists popped, frames = popped ++ (unwind n frames rs).1 /\ (unwind n frames rs).1 <> [] /\
    (unwind n frames rs).2 = match last popped with Some g => take (base g) rs | None => rs end /\
    stack_ok (unwind n frames rs).1 (length (unwind n frames rs).2).
Proof.
  intros Hn. induction frames as [|f s IH]; intros rs Hne H; [done|]. cbn [unwind].
  destruct (Nat.ltb_spec n (length (f :: s))) as [Hl|Hl]; [|by exists []].
  destruct H as (H1 & H2 & H3 & H4). assert (Hs : s <> []) by (destruct s; [cbn in Hl; lia|done]).
  assert (Hr : resize rs (base f) = take (base f) rs).
  { unfold resize. replace (base f - length rs)%nat with O by lia. apply app_nil_r. }
  rewrite Hr. assert (Ht : length (take (base f) rs) = base f) by (rewrite length_take; lia).
  destruct (IH (take (base f) rs) Hs) as (popped & E1 & E2 & E3 & E4); [by rewrite Ht|].
  exists (f :: popped). split_and!; [by cbn; f_equal|done| |done]. rewrite E3.
  destruct popped as [|p popped]; [done|]. change (last (f :: p :: popped)) with (last (p :: popped)).
  destruct (last (p :: popped)) as [g|] eqn:El; [|by apply last_None in El]. rewrite take_take. f_equal.
  apply last_Some in El as (l' & El). rewrite E1, El, <- app_assoc in H4. apply stack_ok_app in H4 as ((t' & H4 & H5) & _).
  destruct H5 as (_ & H5 & _). lia.
Qed.

(** What a step does to the frames and the registers *)
Inductive effect (vm vm' : VM) : Prop :=
| Stays k es : (exists f s, call_stack vm = f :: s /\ base f = k) -> quiet k (set_try vm es) vm' -> effect vm vm'
| Calls g s new : call_stack vm' = g :: s -> jumped (call_stack vm) s -> base g = length (regs vm) ->
    regs vm' = regs vm ++ new -> effect vm vm'
| Returns f s v : call_stack vm = f :: s -> s <> [] -> call_stack vm' = s -> 0 <= ret_reg f ->
    regs vm' = <[Z.to_nat (ret_reg f) := v]> (take (base f) (regs vm)) -> effect vm vm'
| Unwinds popped g s : jumped (call_stack vm) (popped ++ g :: s) -> s <> [] -> jumped s (call_stack vm') ->
    regs vm' = take (base g) (regs vm) -> effect vm vm'.

(** What may come before the effect of an instruction *)
Definition moved (vm vm' : VM) : Prop := exists j, vm' = jump_to vm j.
Lemma moved_quiet k vm vm' : moved vm vm' -> quiet k vm vm'.
Proof. intros [j ->]. apply quiet_jump. Qed.
Lemma moved_head vm vm' f s : moved vm vm' -> call_stack vm = f :: s ->
  exists j, call_stack vm' = set_ip f j :: s /\ regs vm' = regs vm /\ closures vm' = closures vm.
Proof. intros [j ->] E. exists j. unfold jump_to. by rewrite E. Qed.
Lemma effect_moved vm vm1 vm' f s : call_stack vm = f :: s -> moved vm vm1 -> effect vm1 vm' -> effect vm vm'.
Proof.
  intros E Hm. destruct (moved_head _ _ _ _ Hm E) as (j & E1 & Er & _).
  intros [k es (f1 & s1 & E2 & <-) Hq|g s1 new E2 Hj Hb Hr|f1 s1 v E2 Hne E3 Hret Hr|popped g s1 Hj Hne Hs Hr].
  - rewrite E1 in E2. injection E2 as <- <-. apply (Stays vm vm' (base f) es); [eauto|]. eapply quiet_trans; [|exact Hq].
    destruct Hm as [i ->]. replace (set_try (jump_to vm i) es) with (jump_to (set_try vm es) i); [apply quiet_jump|].
    unfold jump_to. cbn. by rewrite E.
  - eapply Calls; [done| |by rewrite Hb, Er|by rewrite Hr, Er]. eapply jumped_trans; [|exact Hj]. apply (q_stack 0), moved_quiet, Hm.
  - rewrite E1 in E2. injection E2 as <- <-. eapply (Returns vm vm' f); [done..|]. by rewrite Hr, Er.
  - eapply Unwinds; [|done..|by rewrite Hr, Er]. eapply jumped_trans; [|exact Hj]. apply (q_stack 0), moved_quiet, Hm.
Qed.

Definition good_result (k : nat) (vm : VM) (r : xres) : Prop :=
  match r with
  | XOk vm' => effect vm vm' /\ vm_ok vm'
  | XErr _ vm' => quiet k vm vm'
  | _ => True
  end.
Lemma good_quiet vm f s r : vm_ok vm -> call_stack vm = f :: s -> xall (quiet (base f) vm) r -> good_result (base f) vm r.
Proof.
  intros Hok E. destruct r; cbn; auto. intros H. split; [|by eapply quiet_ok].
  apply (Stays _ _ (base f) (try_stack vm)); [eauto|]. by destruct vm.
Qed.
Lemma good_moved k vm vm1 f s r : call_stack vm = f :: s -> moved vm vm1 -> good_result k vm1 r -> good_result k vm r.
Proof.
  intros E Hm. destruct r; cbn; auto.
  - intros [H1 H2]. split; [by eapply effect_moved|done].
  - intros H. eapply quiet_trans; [by apply moved_quiet|done].
Qed.

Lemma bind_args_length p args rest :
  0 <= arity p <= reg_count p ->
  length (bind_args p args rest (replicate (Z.to_nat (reg_count p)) NONE)) = Z.to_nat (reg_count p).
Proof.
  intros Hp. assert (H : forall l : list Value, (length l <= Z.to_nat (reg_count p))%nat ->
    length (l ++ drop (length l) (replicate (Z.to_nat (reg_count p)) NONE)) = Z.to_nat (reg_count p))
    by (intros l Hl; rewrite length_app, length_drop, length_replicate; lia).
  unfold bind_args. destruct (variadic p); [destruct (0 <? arity p)|]; rewrite ?length_insert; apply H; rewrite length_take; lia.
Qed.

Lemma good_enter vm f s f1 cl from n ret : vm_ok vm -> call_stack vm = f :: s -> base f1 = base f ->
  proto_ok (proto cl) = true -> 0 <= ret < reg_count (f_proto f) ->
  good_result (base f) vm (enter_call vm f1 cl from n ret).
Proof.
  intros Hok E Eb Hp Hret. destruct Hok as [O1 O2 O3 O4]. destruct (proto_ok_inv _ Hp) as (Ha & _).
  unfold enter_call. destruct (negb _); [done|].
  set (q := if variadic (proto cl) then _ else _).
  assert (Hq : exists rest h, q = (rest, set_arrays vm h)).
  { subst q. destruct (variadic _); [by eexists _, _|]. exists NONE, (arrays vm). by destruct vm. }
  destruct Hq as (rest & h & ->). cbv beta iota zeta. cbn [call_stack set_regs set_arrays regs arrays]. rewrite E.
  pose proof (bind_args_length (proto cl) (arg_values vm f1 from n) rest Ha) as Hl.
  set (new := bind_args _ _ _ _) in *.
  assert (Hs : stack_ok (f :: s) (length (regs vm))) by by rewrite <- E.
  destruct (Nat.leb_spec MAX_CALL_DEPTH (length (f :: s))) as [Hd|Hd]; cbn [good_result call_stack set_regs set_arrays set_stack].
  - apply (quiet_trans _ _ (set_arrays vm h)); [apply quiet_arrays|]. apply quiet_regs; cbn.
    + rewrite length_app. lia.
    + apply take_app_le. destruct Hs as (_ & Hs & _). lia.
  - split; [eapply (Calls vm _ _ _ new); cbn; [done| |done|done]; rewrite E; apply jumped_refl|].
    split; cbn [call_stack set_stack set_regs set_arrays regs closures try_stack]; [|cbn in Hd |- *; lia|done|done].
    cbn [stack_ok f_proto base ret_reg proto set_arrays regs]. split; [done|]. split; [|split; [|exact Hs]].
    + unfold reg_num. cbn. rewrite length_app, Hl. lia.
    + intros _. rewrite Eb. unfold reg_num. lia.
Qed.

Lemma good_return vm f s f1 v : vm_ok vm -> call_stack vm = f :: s -> base f1 = base f -> ret_reg f1 = ret_reg f ->
  good_result (base f) vm (do_return vm f1 v).
Proof.
  intros [O1 O2 O3 O4] E Eb Er. unfold do_return. rewrite Eb, Er. cbv zeta. cbn [call_stack set_stack set_regs regs].
  rewrite E in *. cbn [tail]. destruct s as [|g s]; [done|]. destruct (Z.ltb_spec (ret_reg f) 0); [done|]. destruct (_ <? _)%nat; [|done].
  destruct O1 as (H1 & H2 & H3 & H4).
  assert (Hr : resize (regs vm) (base f) = take (base f) (regs vm)).
  { unfold resize. replace (base f - length (regs vm))%nat with O by lia. apply app_nil_r. }
  cbn [good_result]. split; [by eapply (Returns vm _ f (g :: s) v); cbn; [..|by rewrite Hr]|].
  split; cbn [call_stack set_stack set_regs regs closures try_stack]; [|cbn in O2 |- *; lia|done|done].
  eapply stack_ok_mono; [|exact H4]. rewrite length_insert, Hr, length_take. lia.
Qed.

(** An exception, behind what its instruction did *)
Lemma good_handler vm f s vm1 v vm' : vm_ok vm -> call_stack vm = f :: s -> quiet (base f) vm vm1 ->
  to_handler vm1 v = Some vm' -> effect vm vm' /\ vm_ok vm'.
Proof.
  intros Hok E Hq. assert (Hok1 : vm_ok vm1) by by eapply quiet_ok.
  assert (E1 : exists j, call_stack vm1 = set_ip f j :: s) by (destruct (q_stack _ _ _ Hq) as [j Hj]; exists j; by rewrite E in Hj).
  destruct E1 as [j E1]. unfold to_handler. destruct (_ <=? _)%nat; [done|].
  destruct (try_stack vm1) as [|e rest] eqn:Et; [done|]. destruct Hok1 as [O1 O2 O3 O4].
  rewrite Et in O4. apply Forall_cons in O4 as [O4 O5].
  destruct (unwind_spec (frame_depth e) O4 (call_stack vm1) (regs vm1)) as (popped & U1 & U2 & U3 & U4); [by rewrite E1|done|].
  destruct (unwind _ _ _) as [s' rs'] eqn:Eu. cbn [fst snd] in *. intros [= <-].
  set (vm2 := set_exc (set_try (set_regs (set_stack vm1 s') rs') rest) v).
  assert (Hm : moved vm2 (jump_to vm2 (catch_ip e))) by by eexists.
  assert (Hs : (length s' <= length (call_stack vm1))%nat) by (rewrite U1, length_app; lia).
  split.
  - destruct (last popped) as [g|] eqn:El.
    + apply last_Some in El as (l & ->). apply (Unwinds _ _ l g s').
      * rewrite <- app_assoc in U1. cbn in U1. rewrite <- U1. apply Hq.
      * done.
      * apply (q_stack 0 vm2), moved_quiet, Hm.
      * transitivity rs'; [unfold jump_to; cbn; by destruct s'|]. rewrite U3.
        assert (Hg : (base g <= base f)%nat).
        { destruct l as [|f2 l]; cbn in U1; rewrite E1 in U1; injection U1 as U1 U1'; [by rewrite <- U1|].
          assert (O1' := O1). rewrite E1, U1', U1, <- app_assoc in O1'. cbn in O1'.
          apply (stack_ok_app (f2 :: l)) in O1' as [_ O1']. apply Forall_cons in O1' as [O1' _]. by rewrite <- U1 in O1'. }
        pose proof (f_equal (take (base g)) (q_regs _ _ _ Hq)) as Hr. rewrite !take_take in Hr. by rewrite Nat.min_l in Hr by lia.
    + apply last_None in El as ->. cbn in U1. subst s' rs'. apply (Stays _ _ (base f) rest); [eauto|].
      eapply quiet_trans; [|by apply moved_quiet]. destruct Hq. by split.
  - eapply (quiet_ok 0); [by apply moved_quiet|]. split; cbn; [done|lia|done|done].
Qed.

(** * A step *)

Section Step.
Context (L : Lib) (depth : nat) (warn_undef : bool).

Lemma good_throw vm f s f1 i : vm_ok vm -> call_stack vm = f :: s -> base f1 = base f ->
  good_result (base f) vm (exec_try vm f1 i).
Proof.
  intros Hok E Eb. assert (Hq : forall r, xall (quiet (base f) vm) r -> good_result (base f) vm r) by (intros r; by apply (good_quiet vm f s)).
  unfold exec_try. destruct (op i); try (by apply Hq).
  - split; [by eapply (Stays _ _ (base f)); [eauto|apply quiet_refl]|]. destruct Hok as [O1 O2 O3 O4]. split; cbn; [done..|].
    constructor; [|done]. cbn. rewrite E. cbn. lia.
  - split; [by eapply (Stays _ _ (base f)); [eauto|apply quiet_refl]|]. destruct Hok as [O1 O2 O3 O4]. split; cbn; [done..|].
    destruct (try_stack vm); [done|]. by apply Forall_cons in O4 as [].
  - unfold reg. destruct (regs vm !! _) as [v|]; [|done]. cbv zeta.
    destruct (to_handler (set_exc vm v) v) as [vm'|] eqn:Eh; [|done].
    by apply (good_handler vm f s _ _ _ Hok E (quiet_exc _ _ _) Eh).
  - apply Hq. apply quiet_set_reg. lia.
Qed.

Lemma call_hint_moved vm f f1 s : call_stack vm = f :: s -> f_proto f1 = f_proto f -> base f1 = base f ->
  forall n cname vm1 f2, call_hint vm f1 = (n, cname, vm1, f2) ->
  moved vm vm1 /\ f_proto f2 = f_proto f /\ base f2 = base f.
Proof.
  intros E Ep Eb n cname vm1 f2. unfold call_hint. destruct (nop_hint f1); intros [= <- <- <- <-]; (split; [|done]).
  - by eexists.
  - exists (ip f). unfold jump_to. rewrite E. destruct vm, f. cbn in *. by subst.
Qed.

(** What follows the instruction that is executed *)
Definition rest_of (f : Frame) : list Instruction := drop (Z.to_nat (ip f)) (code (f_proto f)).

Lemma good_exec vm f s i : vm_ok vm -> call_stack vm = f :: s -> ins_ok (f_proto f) i (rest_of f) = true ->
  good_result (base f) vm (exec L depth warn_undef vm f i).
Proof.
  intros Hok E Hi. assert (Hq : forall r, xall (quiet (base f) vm) r -> good_result (base f) vm r) by (intros r; by apply (good_quiet vm f s)).
  assert (Hp : proto_ok (f_proto f) = true).
  { pose proof (ok_stack _ Hok) as H. rewrite E in H. by destruct H. }
  assert (Hcall : op i = CALL \/ op i = TAIL_CALL -> 0 <= a i < reg_count (f_proto f)).
  { unfold ins_ok, touched in Hi. intros [Ho|Ho]; rewrite Ho in Hi; rewrite !andb_true_iff in Hi; destruct Hi as [[Hi _] _];
      cbn [forallb] in Hi; apply andb_true_iff in Hi as [Hi _]; unfold below in Hi; bool_to_prop; lia. }
  assert (Hk : (base f <= base f)%nat) by done.
  unfold exec. destruct (op i) eqn:Eo; try done;
    try (apply Hq; first [apply quiet_load|apply quiet_global|apply quiet_value|apply quiet_array|apply quiet_jumps|apply quiet_for|apply quiet_closure]; done);
    try (by apply (good_throw vm f s)); try (by apply Hq, quiet_refl).
  - unfold exec_call. destruct (call_hint vm f) as [[[n cname] vm1] f2] eqn:Eh.
    destruct (call_hint_moved vm f f s E eq_refl eq_refl _ _ _ _ Eh) as (Hm & Ep & Eb).
    destruct (moved_head _ _ _ _ Hm E) as (j & E1 & Er & Ec). apply (good_moved _ _ vm1 f s); [done..|].
    change (base f) with (base (set_ip f j)).
    assert (Hok1 : vm_ok vm1) by (eapply (quiet_ok 0); [by apply moved_quiet|done]).
    unfold reg. destruct (regs vm1 !! _) as [fn|]; [|done].
    assert (He : forall m, good_result (base (set_ip f j)) vm1 (XErr m vm1)) by (intros m; apply quiet_refl).
    destruct fn as [| | | | | | | | |[p|]|]; try (by destruct (_ =? _); [|unfold const; destruct (constants _ !! _)]).
    destruct (closures vm1 !! p) as [cl|] eqn:El; [|done]. apply (good_enter vm1 (set_ip f j) s); auto. by eapply ok_closures.
  - unfold exec_tail_call. destruct (call_hint vm f) as [[[n cname] vm1] f2] eqn:Eh.
    destruct (call_hint_moved vm f f s E eq_refl eq_refl _ _ _ _ Eh) as (Hm & Ep & Eb).
    destruct (moved_head _ _ _ _ Hm E) as (j & E1 & Er & Ec). apply (good_moved _ _ vm1 f s); [done..|].
    change (base f) with (base (set_ip f j)).
    assert (Hok1 : vm_ok vm1) by (eapply (quiet_ok 0); [by apply moved_quiet|done]).
    unfold reg. destruct (regs vm1 !! _) as [fn|]; [|done].
    destruct fn as [| | | | | | | | |[p|]|]; try apply quiet_refl.
    destruct (closures vm1 !! p) as [cl|] eqn:El; [|done]. apply (good_enter vm1 (set_ip f j) s); auto. by eapply ok_closures.
  - unfold reg. destruct (regs vm !! _) as [v|]; [|done]. by apply (good_return vm f s).
  - by apply (good_return vm f s).
Qed.

(** The instruction that is fetched is one of checked code. *)
Lemma fetched_ok vm f s i : vm_ok vm -> call_stack vm = f :: s -> code_at f (ip f) = Some i ->
  ins_ok (f_proto f) i (rest_of (set_ip f (ip f + 1))) = true.
Proof.
  intros Hok E Ei. unfold code_at in Ei. destruct (Z.ltb_spec (ip f) 0); [done|]. pose proof (ok_stack _ Hok) as H1. rewrite E in H1.
  destruct H1 as (H1 & _). apply proto_ok_inv in H1 as (_ & H1 & _). unfold rest_of. cbn.
  replace (Z.to_nat (ip f + 1)) with (S (Z.to_nat (ip f))) by lia. by apply code_ok_at.
Qed.

Lemma good_step vm vm' : vm_ok vm -> step L depth warn_undef vm = XOk vm' -> effect vm vm' /\ vm_ok vm'.
Proof.
  intros Hok. unfold step. destruct (call_stack vm) as [|f s] eqn:E; [done|].
  destruct (code_at f (ip f)) as [i|] eqn:Ei.
  2:{ intros H. pose proof (good_return vm f s f NONE Hok E eq_refl eq_refl) as G. by rewrite H in G. }
  set (vmj := jump_to vm (ip f + 1)). set (f1 := set_ip f (ip f + 1)).
  assert (Hm : moved vm vmj) by by eexists.
  assert (E1 : call_stack vmj = f1 :: s) by (subst vmj; unfold jump_to; by rewrite E).
  assert (Hokj : vm_ok vmj) by (eapply (quiet_ok 0); [by apply moved_quiet|done]).
  assert (Hi : ins_ok (f_proto f1) i (rest_of f1) = true) by exact (fetched_ok vm f s i Hok E Ei).
  pose proof (good_exec vmj f1 s i Hokj E1 Hi) as G.
  assert (Hback : effect vmj vm' /\ vm_ok vm' -> effect vm vm' /\ vm_ok vm').
  { intros [H1 H2]. split; [|done]. by eapply effect_moved. }
  destruct (exec L depth warn_undef vmj f1 i) as [vm1|m vm1| | | |]; try done.
  - intros [= <-]. by apply Hback.
  - destruct (to_handler vm1 (STRING m)) as [vm2|] eqn:Eh; [|done]. intros [= <-]. apply Hback.
    by eapply good_handler.
Qed.

(** ** Nothing out of range *)

(** Instructions that may be undefined for the values they get, whatever the
    registers are *)
Definition on_values (o : OpCode) : bool :=
  match o with
  | ADD | SUB | MUL | DIV | MOD | POW | UNM | BAND | BOR | BXOR | BNOT | SHL | SHR | CONCAT
  | EQ | NEQ | LT | GT | LTE | GTE | CMP3 | NOT | COALESCE | TYPE_OF | TO_INT | TO_FLOAT | TO_STR | TO_BOOL
  | ARRAY_GET | ARRAY_SET | GET_FIELD | SET_FIELD | ASSOC_APPEND | FOR_STEP => true
  | _ => false
  end.
(** The callee is there. *)
Definition live (vm : VM) (f : Frame) (i : Instruction) : Prop :=
  forall p, regs vm !! (base f + Z.to_nat (b i))%nat = Some (BYTECODE_FN (Some p)) -> is_Some (closures vm !! p).
Definition in_file (vm : VM) (f : Frame) (x : Z) : Prop := 0 <= x /\ (base f + Z.to_nat x < length (regs vm))%nat.

Lemma reg_in vm f x (K : Value -> xres) : in_file vm f x -> (forall v, K v <> XUndef) -> reg vm f x K <> XUndef.
Proof.
  intros [_ H] HK. unfold reg. by destruct (lookup_lt_is_Some_2 _ _ H) as [v ->].
Qed.
Lemma set_reg_in vm f x v : in_file vm f x -> exists vm', set_reg vm f x v = XOk vm' /\ length (regs vm') = length (regs vm).
Proof.
  intros [_ H]. unfold set_reg. apply Nat.ltb_lt in H. rewrite H. eexists. split; [done|]. apply length_insert.
Qed.
Lemma set_reg_defined vm f x v : in_file vm f x -> set_reg vm f x v <> XUndef.
Proof. intros H. by destruct (set_reg_in vm f x v H) as (vm' & -> & _). Qed.
Lemma const_in f x (K : Value -> xres) : below (Z.of_nat (length (constants (f_proto f)))) x = true ->
  (forall v, K v <> XUndef) -> const f x K <> XUndef.
Proof.
  unfold below. intros H HK. bool_to_prop. unfold const.
  by destruct (lookup_lt_is_Some_2 (constants (f_proto f)) (Z.to_nat x)) as [v ->]; [lia|].
Qed.

Lemma ins_ok_in vm f s i : vm_ok vm -> call_stack vm = f :: s -> ins_ok (f_proto f) i (rest_of f) = true ->
  Forall (in_file vm f) (touched i (rest_of f)) /\
  Forall (fun x => below (Z.of_nat (length (constants (f_proto f)))) x = true) (consts i (rest_of f)).
Proof.
  intros Hok E Hi. pose proof (ok_stack _ Hok) as H. rewrite E in H. destruct H as (_ & H & _).
  unfold ins_ok in Hi. apply andb_true_iff in Hi as [[Hi Hc]%andb_true_iff _]. rewrite forallb_forall in Hi, Hc.
  split; apply List.Forall_forall; [|exact Hc]. intros x Hx. specialize (Hi x Hx). unfold below in Hi. bool_to_prop.
  unfold reg_num in H. split; [done|lia].
Qed.

Lemma capture_hints_in vm f k : forall fuel acc, Forall (in_file vm f) (capture_regs (drop k (code (f_proto f)))) ->
  (length (drop k (code (f_proto f))) < fuel)%nat -> is_Some (capture_hints fuel vm f (Z.of_nat k) acc).
Proof.
  remember (drop k (code (f_proto f))) as rest eqn:E. revert k E. induction rest as [|h rest IH]; intros k E fuel acc H Hf;
    (destruct fuel as [|fuel]; [cbn in Hf; lia|]); cbn [capture_hints]; unfold code_at; rewrite (proj2 (Z.ltb_ge _ _)), Nat2Z.id by lia.
  - rewrite (proj2 (lookup_ge_None _ _)); [by eexists|]. apply (f_equal length) in E. rewrite length_drop in E. cbn in E. lia.
  - assert (Eh : code (f_proto f) !! k = Some h) by (rewrite <- (Nat.add_0_r k), <- lookup_drop, <- E; done).
    rewrite Eh. cbn [capture_regs] in H. destruct (bool_decide _ && _); [|by eexists].
    apply Forall_cons in H as [[_ H1] H2]. destruct (lookup_lt_is_Some_2 _ _ H1) as [v ->].
    replace (Z.of_nat k + 1) with (Z.of_nat (S k)) by lia. apply IH; [|done|cbn in Hf; lia].
    by rewrite (drop_S _ _ _ Eh) in E; injection E.
Qed.

Lemma range_in vm f from n : (forall x, In x (range from n) -> in_file vm f x) -> 0 <= n ->
  length (arg_values vm f from n) = Z.to_nat n.
Proof.
  intros H Hn. unfold arg_values. rewrite length_take, length_drop. destruct (Z.to_nat n) as [|k] eqn:E; [lia|].
  destruct (H (from + Z.of_nat k)) as [H1 H2]; [apply in_map_iff; exists k; split; [done|apply in_seq; lia]|].
  destruct (H (from + Z.of_nat 0)) as [H3 H4]; [apply in_map_iff; exists 0%nat; split; [done|apply in_seq; lia]|]. lia.
Qed.

Lemma nop_hint_rest f : 0 <= ip f -> nop_hint f = hint_of (rest_of f).
Proof.
  intros H. unfold nop_hint, code_at, rest_of. rewrite (proj2 (Z.ltb_ge _ _) H).
  destruct (code (f_proto f) !! Z.to_nat (ip f)) as [h|] eqn:E; [by rewrite (drop_S _ _ _ E)|].
  by rewrite drop_ge by by apply lookup_ge_None.
Qed.
Lemma return_defined vm f s v : vm_ok vm -> call_stack vm = f :: s -> do_return vm f v <> XUndef.
Proof.
  intros [O1 _ _ _] E. unfold do_return. cbv zeta. cbn [call_stack set_stack set_regs regs]. rewrite E in *. cbn [tail].
  destruct s as [|g s]; [done|]. destruct O1 as (_ & H2 & H3 & _ & H4 & _).
  destruct (Z.ltb_spec (ret_reg f) 0) as [|Hr]; [done|]. specialize (H3 Hr).
  destruct (Nat.ltb_spec (Z.to_nat (ret_reg f)) (length (resize (regs vm) (base f)))) as [|Hl]; [done|].
  unfold resize in Hl. rewrite length_app, length_take, length_replicate in Hl. lia.
Qed.
Lemma enter_defined vm f cl from n ret : length (arg_values vm f from n) = Z.to_nat n -> enter_call vm f cl from n ret <> XUndef.
Proof.
  intros H. unfold enter_call. rewrite H, Nat.eqb_refl. cbn [negb].
  destruct (if variadic _ then _ else _) as [rest vm1]. cbv zeta. by destruct (_ <=? _)%nat.
Qed.
Lemma call_defined vm f s i (K : VM -> Frame -> Z -> Value -> xres) : vm_ok vm -> call_stack vm = f :: s -> 0 <= ip f ->
  ins_ok (f_proto f) i (rest_of f) = true -> op i = CALL \/ op i = TAIL_CALL -> live vm f i ->
  (forall fn vm1 f1 h, (forall p, fn <> BYTECODE_FN (Some p)) -> f_proto f1 = f_proto f ->
    (op i = CALL -> h = 0 \/ below (Z.of_nat (length (constants (f_proto f)))) (h - 1) = true) -> K vm1 f1 h fn <> XUndef) ->
  (let '(n, h, vm1, f1) := call_hint vm f in
   reg vm1 f1 (b i) (fun fn => match fn with
     | BYTECODE_FN (Some p) => match closures vm1 !! p with None => XUndef | Some cl => enter_call vm1 f1 cl (c i) n (a i) end
     | _ => K vm1 f1 h fn end)) <> XUndef.
Proof.
  intros Hok E Hip Hi Ho Hl HK. destruct (ins_ok_in vm f s i Hok E Hi) as [Ht Hc].
  assert (Hn : match hint_of (rest_of f) with Some h => 0 <= a h | None => True end).
  { unfold ins_ok in Hi. apply andb_true_iff in Hi as [_ Hi]. destruct Ho as [Ho|Ho]; rewrite Ho in Hi;
      (destruct (hint_of _); [|done]); by bool_to_prop. }
  unfold call_hint. rewrite (nop_hint_rest f Hip).
  assert (Hb : in_file vm f (b i) /\ forall x h, hint_of (rest_of f) = Some h -> In x (range (c i) (a h)) -> in_file vm f x).
  { unfold touched in Ht. rewrite List.Forall_forall in Ht. destruct Ho as [Ho|Ho]; rewrite Ho in Ht;
      (split; [by apply Ht; right; left|]; intros x h Eh Hx; apply Ht; right; right; by rewrite Eh). }
  assert (Hh : forall h, hint_of (rest_of f) = Some h -> op i = CALL ->
    bx h = 0 \/ below (Z.of_nat (length (constants (f_proto f)))) (bx h - 1) = true).
  { intros h Eh Ec. unfold consts in Hc. rewrite Ec, Eh in Hc. destruct (Z.eqb_spec (bx h) 0); [by left|]. right.
    by apply Forall_cons in Hc as []. }
  destruct Hb as [Hb Ha]. assert (Hj : forall j, regs (jump_to vm j) = regs vm /\ closures (jump_to vm j) = closures vm)
    by (intros j; unfold jump_to; by rewrite E).
  assert (Hgo : forall n h vm1 f1, regs vm1 = regs vm -> closures vm1 = closures vm -> base f1 = base f -> f_proto f1 = f_proto f ->
    length (arg_values vm1 f1 (c i) n) = Z.to_nat n ->
    (op i = CALL -> h = 0 \/ below (Z.of_nat (length (constants (f_proto f)))) (h - 1) = true) ->
    reg vm1 f1 (b i) (fun fn => match fn with
     | BYTECODE_FN (Some p) => match closures vm1 !! p with None => XUndef | Some cl => enter_call vm1 f1 cl (c i) n (a i) end
     | _ => K vm1 f1 h fn end) <> XUndef).
  { intros n h vm1 f1 Er Ec Eb Ep Hargs Hh1. unfold reg. rewrite Er, Eb. destruct Hb as [_ Hb].
    destruct (lookup_lt_is_Some_2 _ _ Hb) as [fn Hf]. rewrite Hf.
    destruct fn as [| | | | | | | | |[p|]|]; try (by apply HK).
    rewrite Ec. destruct (Hl p Hf) as [cl ->]. by apply enter_defined. }
  destruct (hint_of (rest_of f)) as [h|] eqn:Eh.
  - destruct (Hj (ip f + 1)) as [J1 J2]. apply Hgo; try done; [|by apply Hh].
    unfold arg_values. rewrite J1. by apply range_in; [intros x; apply Ha|].
  - apply Hgo; try done. by left.
Qed.

Ltac defined :=
  lazymatch goal with
  | |- reg _ _ _ _ <> _ => apply reg_in; [done|intros ?; defined]
  | |- const _ _ _ <> _ => apply const_in; [done|intros ?; defined]
  | |- set_reg _ _ _ _ <> _ => apply set_reg_defined; done
  | |- (match ?x with _ => _ end) <> _ => destruct x; defined
  | _ => done
  end.
Lemma exec_defined vm f s i : vm_ok vm -> call_stack vm = f :: s -> 0 <= ip f ->
  ins_ok (f_proto f) i (rest_of f) = true -> on_values (op i) = false ->
  (op i = CALL \/ op i = TAIL_CALL -> live vm f i) -> exec L depth warn_undef vm f i <> XUndef.
Proof.
  intros Hok E Hip Hi Hv Hl. destruct (ins_ok_in vm f s i Hok E Hi) as [Ht Hc].
  unfold exec, touched, consts in *. destruct (op i) eqn:Eo; try done.
  all: try (repeat match goal with H : Forall _ (_ :: _) |- _ => apply Forall_cons in H as [? ?] end).
  all: unfold exec_load, exec_global, exec_array, exec_jump, exec_try, exec_for, exec_closure; rewrite ?Eo; cbv zeta.
  all: try (by apply set_reg_defined).
  all: try (defined; fail).
  - apply (call_defined vm f s i (fun vm1 f1 h fn => if h =? 0 then XErr (err_call fn None) vm1
      else const f1 (h - 1) (fun nm => XErr (err_call fn (Some (str_ref nm))) vm1)) Hok E Hip Hi); [by left|by apply Hl; left|].
    intros fn vm1 f1 h _ Ep Hh. destruct (Z.eqb_spec h 0); [done|]. apply const_in; [|done]. rewrite Ep. by destruct (Hh Eo).
  - apply (call_defined vm f s i (fun vm1 f1 h fn => XErr (lit "TAIL_CALL: BYTECODE_FN expected") vm1) Hok E Hip Hi); [by right|by apply Hl; right|done].
  - apply reg_in; [done|]. intros v. by eapply return_defined.
  - by eapply return_defined.
  - assert (Hn : is_Some (nested (f_proto f) !! Z.to_nat (Z.lor (b i) (Z.shiftl (c i) 8)))).
    { unfold ins_ok in Hi. rewrite Eo in Hi. apply andb_true_iff in Hi as [_ Hi]. unfold below in Hi. bool_to_prop.
      apply lookup_lt_is_Some_2. lia. }
    destruct Hn as [p ->]. unfold rest_of in *.
    destruct (capture_hints_in vm f (Z.to_nat (ip f)) (S (length (code (f_proto f)))) []) as [[caps at_] Eh];
      [done|rewrite length_drop; lia|]. rewrite Z2Nat.id in Eh by done. rewrite Eh. apply set_reg_defined.
    unfold in_file, jump_to. cbn. by rewrite E.
  - apply reg_in; [done|]. intros v. destruct (set_reg_in vm f (a i) v) as (vm1 & -> & Er); [done|]. apply set_reg_defined.
    unfold in_file. by rewrite Er.
Qed.

(** * Runs *)

Fixpoint steps (n : nat) (vm : VM) : option VM :=
  match n with
  | O => Some vm
  | S n => match step L depth warn_undef vm with XOk vm' => steps n vm' | _ => None end
  end.
Lemma steps_ok n : forall vm vm', vm_ok vm -> steps n vm = Some vm' -> vm_ok vm'.
Proof.
  induction n as [|n IH]; intros vm vm' Hok; cbn [steps]; [by intros [= <-]|].
  destruct (step _ _ _ vm) as [vm1| | | | |] eqn:E; try done. destruct (good_step _ _ Hok E) as [_ Hok1]. by apply IH.
Qed.
Lemma execute_ok vm main : proto_ok main = true -> vm_ok vm -> call_stack vm = [] -> vm_ok (execute vm main).
Proof.
  intros Hp [O1 O2 O3 O4] E. unfold execute, push_frame, enter_run.
  split; cbn [call_stack set_stack set_regs regs closures try_stack]; rewrite ?E in *; [|cbn; unfold MAX_CALL_DEPTH; lia|done|done].
  cbn. split_and!; [done| |done|done]. unfold reg_num. cbn. rewrite length_app, length_replicate. lia.
Qed.

(** [n] steps with more than [d] frames behind each *)
Fixpoint above (d n : nat) (vm : VM) : option VM :=
  match n with
  | O => Some vm
  | S n =>
      match step L depth warn_undef vm with
      | XOk vm' => if (d <? length (call_stack vm'))%nat then above d n vm' else None
      | _ => None
      end
  end.
Lemma jumped_app l g s st : jumped (l ++ g :: s) st -> exists l' j, st = l' ++ set_ip g j :: s /\ length l' = length l.
Proof.
  intros [j ->]. destruct l as [|f l]; [by exists [], j|]. exists (set_ip f j :: l), (ip g). by destruct g.
Qed.
Lemma suffix_eq {A} (l l' : list A) x x' s s' : l ++ x :: s = l' ++ x' :: s' -> length s = length s' -> l = l' /\ x = x' /\ s = s'.
Proof.
  intros H Hl. destruct (app_inj_2 l l' (x :: s) (x' :: s') ltac:(cbn; lia) H) as [-> [= -> ->]]. done.
Qed.
(** Where the frame above [s] is after frames above it went *)
Lemma suffix_split {A} (l l' : list A) x x' s s' : l ++ x :: s = l' ++ x' :: s' -> (length s < length s')%nat ->
  exists m, s' = m ++ x :: s /\ l = l' ++ x' :: m.
Proof.
  revert l. induction l' as [|y l' IH]; intros l H Hl.
  - destruct l as [|z l]; cbn in H; injection H as <- H; [subst; lia|]. by exists l.
  - destruct l as [|z l]; cbn in H; injection H as <- H.
    + rewrite H, length_app in Hl. cbn in Hl. lia.
    + destruct (IH l H Hl) as (m & -> & ->). by exists m.
Qed.
Lemma base_below l g s t f s1 : stack_ok (l ++ g :: s) t -> l ++ g :: s = f :: s1 -> (base g <= base f)%nat /\ (base f <= t)%nat.
Proof.
  intros H E. split; [|rewrite E in H; destruct H as (_ & H & _); lia]. destruct l as [|f2 l]; injection E as -> _; [done|].
  by apply stack_ok_app in H as [_ [H _]%Forall_cons].
Qed.

(** One step that leaves the frame above [s] there *)
Lemma step_keeps vm vm' l g s : vm_ok vm -> effect vm vm' -> call_stack vm = l ++ g :: s ->
  (length s < length (call_stack vm'))%nat ->
  exists l' j, call_stack vm' = l' ++ set_ip g j :: s /\ take (base g) (regs vm') = take (base g) (regs vm).
Proof.
  intros Hok He E Hl. pose proof (ok_stack _ Hok) as O1. rewrite E in O1.
  destruct He as [k es (f & s1 & E1 & <-) Hq|g1 s1 new E1 Hj Hb Hr|f s1 v E1 Hne E2 Hret Hr|popped g1 s1 Hj Hne Hs Hr].
  - assert (Hj : jumped (call_stack vm) (call_stack vm')) by apply (q_stack _ _ _ Hq). rewrite E in Hj.
    destruct (jumped_app _ _ _ _ Hj) as (l' & j & H1 & _).
    exists l', j. split; [done|]. rewrite E1 in E. destruct (base_below _ _ _ _ _ _ O1 (eq_sym E)) as [Hb _].
    pose proof (f_equal (take (base g)) (q_regs _ _ _ Hq)) as H. rewrite !take_take in H. by rewrite Nat.min_l in H by lia.
  - rewrite E in Hj. destruct (jumped_app _ _ _ _ Hj) as (l' & j & H1 & _).
    exists (g1 :: l'), j. split; [by rewrite E1, H1|]. rewrite Hr. apply take_app_le.
    destruct (l ++ g :: s) as [|f s2] eqn:El; [by destruct l|]. rewrite <- El in O1. destruct (base_below _ _ _ _ _ _ O1 El). lia.
  - rewrite E1 in E. rewrite E2 in Hl. destruct l as [|f1 l]; cbn in E; injection E as -> ->; [lia|].
    exists l, (ip g). split; [rewrite E2; by destruct g|]. rewrite Hr. cbn in O1. destruct O1 as (_ & Hf & Hn & O1).
    destruct (l ++ g :: s) as [|f2 s2] eqn:El; [by destruct l|]. specialize (Hn Hret). rewrite <- El in O1.
    destruct (base_below _ _ _ _ _ _ O1 El) as [Hb Hb2]. rewrite take_insert_ge by lia. rewrite take_take. f_equal. lia.
  - rewrite E in Hj. destruct (jumped_app _ _ _ _ Hj) as (l' & j & H1 & _).
    rewrite (jumped_length _ _ Hs) in Hl. destruct (suffix_split _ _ _ _ _ _ (eq_sym H1) Hl) as (m & Es & El).
    rewrite Es in Hs. destruct (jumped_app _ _ _ _ Hs) as (l2 & j2 & H4 & _). exists l2, j2. split; [done|].
    rewrite Hr, take_take. f_equal.
    eapply jumped_ok in O1; [|exact Hj]. rewrite Es in O1. apply stack_ok_app in O1 as [(t' & _ & O1) _].
    destruct O1 as (_ & _ & _ & O1). apply stack_ok_app in O1 as [(t2 & Ht & O1) _]. destruct O1 as (_ & O1 & _). cbn in O1. lia.
Qed.
Lemma above_keeps n : forall vm vm' l g s, vm_ok vm -> call_stack vm = l ++ g :: s -> above (length s) n vm = Some vm' ->
  vm_ok vm' /\ exists l' j, call_stack vm' = l' ++ set_ip g j :: s /\ take (base g) (regs vm') = take (base g) (regs vm).
Proof.
  induction n as [|n IH]; intros vm vm' l g s Hok E; cbn [above]; [intros [= <-]; split; [done|exists l, (ip g); by destruct g]|].
  destruct (step _ _ _ vm) as [vm1| | | | |] eqn:Es; try done. destruct (Nat.ltb_spec (length s) (length (call_stack vm1))) as [Hl|]; [|done].
  destruct (good_step _ _ Hok Es) as [He Hok1]. destruct (step_keeps _ _ _ _ _ Hok He E Hl) as (l1 & j1 & E1 & H3).
  intros H. destruct (IH _ _ _ _ _ Hok1 E1 H) as (Hok' & l' & j' & E' & H3'). split; [done|].
  exists l', j'. split; [done|]. etrans; [exact H3'|exact H3].
Qed.
(** The step back to the frames [s] *)
Lemma step_back vm vm' l g s : vm_ok vm -> effect vm vm' -> call_stack vm = l ++ g :: s -> length (call_stack vm') = length s ->
  (exists v, call_stack vm' = s /\ regs vm' = <[Z.to_nat (ret_reg g) := v]> (take (base g) (regs vm))) \/
  (jumped s (call_stack vm') /\ regs vm' = take (base g) (regs vm)).
Proof.
  intros Hok He E Hl.
  destruct He as [k es (f & s1 & E1 & <-) Hq|g1 s1 new E1 Hj Hb Hr|f s1 v E1 Hne E2 Hret Hr|popped g1 s1 Hj Hne Hs Hr].
  - assert (H : length (call_stack vm') = length (call_stack vm)) by apply (jumped_length _ _ (q_stack _ _ _ Hq)). rewrite E, length_app in H. cbn in H. lia.
  - pose proof (jumped_length _ _ Hj) as H. rewrite E, length_app in H. rewrite E1 in Hl. cbn in H, Hl. lia.
  - left. rewrite E1 in E. rewrite E2 in Hl. destruct (suffix_eq [] l f g s1 s E Hl) as (<- & <- & <-). by exists v.
  - right. rewrite E in Hj. destruct (jumped_app _ _ _ _ Hj) as (l' & j & H1 & _).
    rewrite (jumped_length _ _ Hs) in Hl. by destruct (suffix_eq _ _ _ _ _ _ H1 Hl) as (_ & -> & ->).
Qed.
End Step.

(** * What the machine guarantees *)

(** C7: Whatever bytecode runs, with operands in the range of its own function:
    at each instruction of each state that is reached there are at most
    MAX_CALL_DEPTH frames, every frame has its own registers, disjoint from
    those of the others, the registers and constants the instruction names are
    there, and no instruction but those that may fail on the values they get is
    undefined. *)
Theorem registers_in_range L depth warn main vm0 n vm f s i :
  proto_ok main = true -> vm_ok vm0 -> call_stack vm0 = [] ->
  steps L depth warn n (execute vm0 main) = Some vm ->
  call_stack vm = f :: s -> code_at f (ip f) = Some i ->
  let rest := rest_of (set_ip f (ip f + 1)) in
  (length (call_stack vm) <= MAX_CALL_DEPTH)%nat /\
  (forall l g1 g2 r, call_stack vm = l ++ g1 :: g2 :: r -> (base g2 + reg_num g2 <= base g1)%nat) /\
  (forall x, In x (touched i rest) -> (Z.to_nat x < reg_num f)%nat /\ is_Some (regs vm !! (base f + Z.to_nat x)%nat)) /\
  (forall x, In x (consts i rest) -> is_Some (constants (f_proto f) !! Z.to_nat x)) /\
  (on_values (op i) = false -> (op i = CALL \/ op i = TAIL_CALL -> live vm f i) -> step L depth warn vm <> XUndef).
Proof.
  intros Hp Hok0 E0 Hs E Ei. cbv zeta. pose proof (steps_ok _ _ _ _ _ _ (execute_ok _ _ Hp Hok0 E0) Hs) as Hok.
  set (f1 := set_ip f (ip f + 1)). set (vmj := jump_to vm (ip f + 1)).
  pose proof (ok_stack _ Hok) as O1. assert (O2 := O1). rewrite E in O2. destruct O2 as (Hpf & Hb & _).
  assert (Hip : 0 <= ip f) by (unfold code_at in Ei; by destruct (Z.ltb_spec (ip f) 0)).
  pose proof (fetched_ok vm f s i Hok E Ei) as Hi. fold f1 in Hi.
  assert (E1 : call_stack vmj = f1 :: s) by (subst vmj; unfold jump_to; by rewrite E).
  assert (Hokj : vm_ok vmj) by (eapply (quiet_ok 0); [apply quiet_jump|done]).
  split; [apply Hok|]. split; [|split; [|split]].
  - intros l g1 g2 r El. rewrite El in O1. apply stack_ok_app in O1 as [(t & _ & _ & _ & _ & O1) _]. apply O1.
  - intros x Hx. unfold ins_ok in Hi. apply andb_true_iff in Hi as [[Hi _]%andb_true_iff _]. rewrite forallb_forall in Hi.
    specialize (Hi x Hx). unfold below in Hi. bool_to_prop. unfold reg_num in *. split; [lia|]. apply lookup_lt_is_Some_2. lia.
  - intros x Hx. unfold ins_ok in Hi. apply andb_true_iff in Hi as [[_ Hi]%andb_true_iff _]. rewrite forallb_forall in Hi.
    specialize (Hi x Hx). unfold below in Hi. bool_to_prop. apply lookup_lt_is_Some_2. lia.
  - intros Hv Hl. unfold step. rewrite E, Ei. fold vmj f1.
    pose proof (exec_defined L depth warn vmj f1 s i Hokj E1 ltac:(cbn; lia) Hi Hv) as Hd.
    destruct (exec L depth warn vmj f1 i); try done.
    + by destruct (to_handler _ _).
    + intros _. apply Hd; [|done]. intros Ho. specialize (Hl Ho). unfold live, vmj, jump_to. by rewrite E.
Qed.

(** C8: A call is closed to what it calls: when the machine comes back to the
    frames below a call, whatever ran in between - calls, exceptions, handlers -
    they are as they were, and so are all their registers, but for the result in
    the register the call named, or, behind an exception, for the place the
    handler goes on at. *)
Theorem call_returns_to_its_caller L depth warn vm0 vm1 n vm2 vm3 :
  vm_ok vm0 -> step L depth warn vm0 = XOk vm1 -> length (call_stack vm1) = S (length (call_stack vm0)) ->
  above L depth warn (length (call_stack vm0)) n vm1 = Some vm2 ->
  step L depth warn vm2 = XOk vm3 -> length (call_stack vm3) = length (call_stack vm0) ->
  exists g s, call_stack vm1 = g :: s /\ jumped (call_stack vm0) s /\
    ((exists v, call_stack vm3 = s /\ regs vm3 = <[Z.to_nat (ret_reg g) := v]> (regs vm0)) \/
     (jumped s (call_stack vm3) /\ regs vm3 = regs vm0)).
Proof.
  intros Hok E1 Hl1 Ha E3 Hl3. destruct (good_step _ _ _ _ _ Hok E1) as [He Hok1].
  destruct He as [k es _ Hq|g s new Es Hj Hb Hr|f s v E Hne Es Hret Hr|popped g s Hj Hne Hs Hr].
  - pose proof (jumped_length _ _ (q_stack _ _ _ Hq)) as H. cbn in H. lia.
  - exists g, s. split; [done|]. split; [done|]. pose proof (jumped_length _ _ Hj) as Hls. rewrite <- Hls in Ha, Hl3.
    destruct (above_keeps _ _ _ _ _ _ [] g s Hok1 Es Ha) as (Hok2 & l & j & E2 & Ht).
    destruct (good_step _ _ _ _ _ Hok2 E3) as [He3 _].
    assert (Hk : take (base g) (regs vm2) = regs vm0) by (rewrite Ht, Hr, Hb; apply take_app_length).
    destruct (step_back _ _ _ _ _ Hok2 He3 E2 Hl3) as [(v & H1 & H2)|[H1 H2]]; cbn [base set_ip ret_reg] in H2; rewrite Hk in H2; [left; by exists v|by right].
  - rewrite Es, E in Hl1. cbn in Hl1. lia.
  - pose proof (jumped_length _ _ Hj) as H. rewrite length_app in H. cbn in H. rewrite (jumped_length _ _ Hs) in Hl1. lia.
Qed.

(** The machine is about to raise the exception [v]: by THROW, or from an
    instruction that fails with a message. *)
Definition raises L depth warn (vm : VM) (v : Value) : Prop :=
  exists f s i, call_stack vm = f :: s /\ code_at f (ip f) = Some i /\
    ((exists m vm1, exec L depth warn (jump_to vm (ip f + 1)) (set_ip f (ip f + 1)) i = XErr m vm1 /\ v = STRING m) \/
     (op i = THROW /\ regs vm !! (base f + Z.to_nat (a i))%nat = Some v)).

Lemma unwind_to n frames rs : (n <= length frames)%nat -> length (unwind n frames rs).1 = n.
Proof.
  revert rs. induction frames as [|f s IH]; intros rs H; cbn [unwind]; [cbn in H |- *; lia|].
  destruct (Nat.ltb_spec n (length (f :: s))) as [Hl|Hl]; [apply IH; cbn in Hl; lia|cbn in *; lia].
Qed.
(** The handler of the frame [g], from frames above it or its own *)
Lemma to_handler_at vm v e rest l g s : vm_ok vm -> call_stack vm = l ++ g :: s -> try_stack vm = e :: rest ->
  (try_floor vm < length (try_stack vm))%nat -> frame_depth e = length (g :: s) ->
  exists vm', to_handler vm v = Some vm' /\ call_stack vm' = set_ip g (catch_ip e) :: s /\ try_stack vm' = rest /\
    current_exception vm' = v /\ take (base g) (regs vm') = take (base g) (regs vm).
Proof.
  intros [O1 O2 O3 O4] E Et Hfl Hd. unfold to_handler. rewrite (proj2 (Nat.leb_gt _ _) Hfl), Et.
  rewrite Et in O4. apply Forall_cons in O4 as [O4 _].
  destruct (unwind_spec (frame_depth e) O4 (call_stack vm) (regs vm)) as (popped & U1 & U2 & U3 & U4); [rewrite E; by destruct l|done|].
  pose proof (unwind_to (frame_depth e) (call_stack vm) (regs vm)) as Hn. rewrite E, length_app in Hn. specialize (Hn ltac:(cbn in *; lia)).
  rewrite <- E in Hn. destruct (unwind _ _ _) as [s' rs']. cbn [fst snd] in *. rewrite E in U1.
  destruct (app_inj_2 l popped (g :: s) s' ltac:(lia) U1) as [-> <-]. eexists. split; [done|]. cbn. split_and!; try done. rewrite U3.
  destruct (last popped) as [g1|] eqn:El; [|done]. apply last_Some in El as (l & ->). rewrite take_take. f_equal.
  rewrite E, <- app_assoc in O1. apply stack_ok_app in O1 as [(t & _ & _ & _ & _ & _ & O1 & _) _]. lia.
Qed.

(** The exception goes to the handler on top, for a frame that is still there. *)
Lemma raised_caught L depth warn vm0 f s e rest n vm v :
  vm_ok vm0 -> call_stack vm0 = f :: s -> frame_depth e = length (f :: s) ->
  above L depth warn (length s) n vm0 = Some vm ->
  try_stack vm = e :: rest -> (try_floor vm < length (try_stack vm))%nat ->
  raises L depth warn vm v ->
  exists vm', step L depth warn vm = XOk vm' /\ call_stack vm' = set_ip f (catch_ip e) :: s /\ try_stack vm' = rest /\
    current_exception vm' = v /\ take (base f) (regs vm') = take (base f) (regs vm0).
Proof.
  intros Hok0 E0 Hd Ha Et Hfl (f1 & s1 & i & E & Ei & Hr).
  destruct (above_keeps _ _ _ _ _ _ [] f s Hok0 E0 Ha) as (Hok & l & j & El & Ht).
  set (vmj := jump_to vm (ip f1 + 1)). set (fj := set_ip f1 (ip f1 + 1)) in *.
  assert (Hq : forall vm1, quiet (base f1) vmj vm1 -> vm_ok vm1 /\
    exists l1 j1, call_stack vm1 = l1 ++ set_ip f j1 :: s /\ take (base f) (regs vm1) = take (base f) (regs vm0) /\
      try_stack vm1 = e :: rest /\ try_floor vm1 = try_floor vm).
  { intros vm1 Hq1. assert (Hq : quiet (base f1) vm vm1) by (eapply quiet_trans; [apply quiet_jump|exact Hq1]).
    split; [by eapply quiet_ok|]. assert (Hj := q_stack _ _ _ Hq). rewrite El in Hj.
    destruct (jumped_app _ _ _ _ Hj) as (l1 & j1 & H1 & _). exists l1, j1. split; [exact H1|].
    split; [|by rewrite (q_try _ _ _ Hq), (q_floor _ _ _ Hq)]. rewrite <- Ht.
    pose proof (ok_stack _ Hok) as O1. rewrite El in O1.
    assert (E2 : l ++ set_ip f j :: s = f1 :: s1) by by rewrite <- El.
    destruct (base_below _ _ _ _ _ _ O1 E2) as [Hb _]. cbn [base set_ip] in Hb.
    pose proof (f_equal (take (base f)) (q_regs _ _ _ Hq)) as H. rewrite !take_take in H. by rewrite Nat.min_l in H by lia. }
  assert (Hgo : forall vm1, quiet (base f1) vmj vm1 -> exists vm', to_handler vm1 v = Some vm' /\
    call_stack vm' = set_ip f (catch_ip e) :: s /\ try_stack vm' = rest /\ current_exception vm' = v /\
    take (base f) (regs vm') = take (base f) (regs vm0)).
  { intros vm1 Hq1. destruct (Hq vm1 Hq1) as (Hok1 & l1 & j1 & H1 & H2 & H3 & H4).
    destruct (to_handler_at vm1 v e rest l1 (set_ip f j1) s Hok1 H1 H3) as (vm' & K1 & K2 & K3 & K4 & K5);
      [by rewrite H4, H3, <- Et|done|].
    exists vm'. split_and!; [done|done|done|done|]. etrans; [exact K5|exact H2]. }
  unfold step. rewrite E, Ei. fold vmj fj. destruct Hr as [(m & vm1 & Hx & ->)|[Ho Hv]].
  - fold vmj fj in Hx. assert (Hok' : vm_ok vmj) by (eapply (quiet_ok 0); [apply quiet_jump|done]).
    assert (Ej : call_stack vmj = fj :: s1) by (subst vmj; unfold jump_to; by rewrite E).
    assert (Hi : ins_ok (f_proto fj) i (rest_of fj) = true) by exact (fetched_ok vm f1 s1 i Hok E Ei).
    pose proof (good_exec L depth warn vmj fj s1 i Hok' Ej Hi) as G. rewrite Hx in G. cbn in G.
    rewrite Hx. destruct (Hgo vm1 G) as (vm' & -> & H). by exists vm'.
  - destruct (Hgo (set_exc vmj v)) as (vm' & Hh & H); [apply quiet_exc|]. exists vm'. split; [|done].
    unfold exec. rewrite Ho. unfold exec_try. rewrite Ho. unfold reg.
    replace (regs vmj) with (regs vm) by (subst vmj; unfold jump_to; by rewrite E).
    change (base fj) with (base f1). rewrite Hv. cbv zeta. by rewrite Hh.
Qed.

(** ** Handlers as a stack *)

(** [n] steps with more than [d] frames and more than [t] handlers behind each *)
Fixpoint inside L depth warn (d t n : nat) (vm : VM) : option VM :=
  match n with
  | O => Some vm
  | S n =>
      match step L depth warn vm with
      | XOk vm' =>
          if (d <? length (call_stack vm'))%nat && (t <? length (try_stack vm'))%nat
          then inside L depth warn d t n vm' else None
      | _ => None
      end
  end.
(** One step pushes a handler, takes the one on top away, or does neither. *)
Definition one_handler (vm vm' : VM) : Prop :=
  try_floor vm' = try_floor vm /\
  (try_stack vm' = try_stack vm \/ (exists e, try_stack vm' = e :: try_stack vm) \/ try_stack vm' = tail (try_stack vm)).

Lemma quiet_handler k vm vm' : quiet k vm vm' -> one_handler vm vm'.
Proof. intros Hq. split; [apply Hq|left; apply Hq]. Qed.
Lemma to_handler_one vm v vm' : to_handler vm v = Some vm' -> one_handler vm vm'.
Proof.
  unfold to_handler. destruct (_ <=? _)%nat; [done|]. destruct (try_stack vm) as [|e rest] eqn:Et; [done|].
  destruct (unwind _ _ _) as [s' rs]. intros [= <-]. unfold one_handler, jump_to. rewrite Et. cbn. destruct s'; cbn; auto.
Qed.
Lemma enter_handler vm f cl from n ret vm' : enter_call vm f cl from n ret = XOk vm' -> one_handler vm vm'.
Proof.
  unfold enter_call, new_array. destruct (negb _); [done|]. destruct (variadic _); cbv beta iota zeta; destruct (MAX_CALL_DEPTH <=? _)%nat; try done; intros [= <-]; split; auto.
Qed.
Lemma return_handler vm f v vm' : do_return vm f v = XOk vm' -> one_handler vm vm'.
Proof.
  unfold do_return. cbv zeta. destruct (call_stack _); [done|]. destruct (_ <? 0); [done|]. destruct (_ <? _)%nat; [|done].
  intros [= <-]. split; auto.
Qed.
Lemma hint_handler vm f n cname vm1 f2 : call_hint vm f = (n, cname, vm1, f2) -> try_floor vm1 = try_floor vm /\ try_stack vm1 = try_stack vm.
Proof.
  unfold call_hint. destruct (nop_hint f); intros [= <- <- <- <-]; [|done]. unfold jump_to. by destruct (call_stack vm).
Qed.
Lemma exec_handler L depth warn vm f i vm' : proto_ok (f_proto f) = true -> exec L depth warn vm f i = XOk vm' -> one_handler vm vm'.
Proof.
  intros Hp. assert (Hq : forall r, xall (quiet (base f) vm) r -> r = XOk vm' -> one_handler vm vm') by (intros r H ->; by eapply quiet_handler).
  assert (Hk : (base f <= base f)%nat) by done.
  assert (Hent : forall vm1 f2 cl from n ret, try_floor vm1 = try_floor vm -> try_stack vm1 = try_stack vm ->
    enter_call vm1 f2 cl from n ret = XOk vm' -> one_handler vm vm').
  { intros vm1 f2 cl from n ret E1 E2 H%enter_handler. unfold one_handler in *. by rewrite E1, E2 in H. }
  unfold exec. destruct (op i) eqn:Eo; try done;
    try (apply Hq; first [apply quiet_load|apply quiet_global|apply quiet_value|apply quiet_array|apply quiet_jumps|apply quiet_for|apply quiet_closure]; done);
    try (by apply Hq, quiet_refl).
  - unfold exec_call. destruct (call_hint vm f) as [[[n cname] vm1] f2] eqn:Eh. destruct (hint_handler _ _ _ _ _ _ Eh) as [E1 E2].
    unfold reg. destruct (regs vm1 !! _) as [fn|]; [|done].
    destruct fn as [| | | | | | | | |[p|]|]; try (by destruct (_ =? _); [|unfold const; destruct (constants _ !! _)]).
    destruct (closures vm1 !! p); [by apply Hent|done].
  - unfold exec_tail_call. destruct (call_hint vm f) as [[[n cname] vm1] f2] eqn:Eh. destruct (hint_handler _ _ _ _ _ _ Eh) as [E1 E2].
    unfold reg. destruct (regs vm1 !! _) as [fn|]; [|done].
    destruct fn as [| | | | | | | | |[p|]|]; try done. destruct (closures vm1 !! p); [by apply Hent|done].
  - unfold reg. destruct (regs vm !! _) as [v|]; [|done]. apply return_handler.
  - apply return_handler.
  - unfold exec_try. rewrite Eo. intros [= <-]. split; [done|]. right. left. by eexists.
  - unfold exec_try. rewrite Eo. intros [= <-]. split; auto.
  - unfold exec_try, reg. rewrite Eo. destruct (regs vm !! _) as [v|]; [|done]. cbv zeta.
    destruct (to_handler _ _) as [vm1|] eqn:Eh; [|done]. intros [= <-]. exact (to_handler_one _ _ _ Eh).
  - unfold exec_try. rewrite Eo. apply Hq, quiet_set_reg. done.
Qed.
Lemma step_handler L depth warn vm vm' : vm_ok vm -> step L depth warn vm = XOk vm' -> one_handler vm vm'.
Proof.
  intros Hok. unfold step. destruct (call_stack vm) as [|f s] eqn:E; [done|].
  destruct (code_at f (ip f)) as [i|] eqn:Ei; [|apply return_handler].
  set (vmj := jump_to vm (ip f + 1)). set (f1 := set_ip f (ip f + 1)).
  assert (Hj : try_floor vmj = try_floor vm /\ try_stack vmj = try_stack vm) by (subst vmj; unfold jump_to; by rewrite E).
  assert (E1 : call_stack vmj = f1 :: s) by (subst vmj; unfold jump_to; by rewrite E).
  assert (Hokj : vm_ok vmj) by (eapply (quiet_ok 0); [apply quiet_jump|done]).
  assert (Hi : ins_ok (f_proto f1) i (rest_of f1) = true) by exact (fetched_ok vm f s i Hok E Ei).
  pose proof (good_exec L depth warn vmj f1 s i Hokj E1 Hi) as G.
  assert (Hb : one_handler vmj vm' -> one_handler vm vm') by (unfold one_handler; by rewrite (proj1 Hj), (proj2 Hj)).
  destruct (exec L depth warn vmj f1 i) as [vm1|m vm1| | | |] eqn:Ex; try done.
  - intros [= <-]. apply Hb. eapply exec_handler; [|exact Ex]. pose proof (ok_stack _ Hokj) as H. rewrite E1 in H. apply H.
  - destruct (to_handler vm1 (STRING m)) as [vm2|] eqn:Eh; [|done]. intros [= <-]. apply Hb.
    pose proof (to_handler_one _ _ _ Eh) as H. cbn in G. unfold one_handler in *. by rewrite (q_try _ _ _ G), (q_floor _ _ _ G) in H.
Qed.
Lemma inside_above L depth warn d t n vm vm' : inside L depth warn d t n vm = Some vm' -> above L depth warn d n vm = Some vm'.
Proof.
  revert vm. induction n as [|n IH]; intros vm; cbn [inside above]; [done|]. destruct (step _ _ _ vm); try done.
  destruct (_ <? _)%nat; [|done]. cbn [andb]. destruct (_ <? _)%nat; [apply IH|done].
Qed.
(** A handler stays under those that were pushed behind it. *)
Lemma inside_handlers L depth warn d rest e n : forall vm vm' l, vm_ok vm -> try_stack vm = l ++ e :: rest ->
  inside L depth warn d (length rest) n vm = Some vm' ->
  try_floor vm' = try_floor vm /\ exists l', try_stack vm' = l' ++ e :: rest.
Proof.
  induction n as [|n IH]; intros vm vm' l Hok E; cbn [inside]; [intros [= <-]; eauto|].
  destruct (step _ _ _ vm) as [vm1| | | | |] eqn:Es; try done. destruct (_ <? _)%nat; [|done]. cbn [andb].
  destruct (Nat.ltb_spec (length rest) (length (try_stack vm1))) as [Hl|]; [|done].
  destruct (good_step _ _ _ _ _ Hok Es) as [_ Hok1]. destruct (step_handler _ _ _ _ _ Hok Es) as [Hf Ht].
  assert (E1 : exists l1, try_stack vm1 = l1 ++ e :: rest).
  { rewrite E in Ht. destruct Ht as [->|[[e1 ->]|Ht]]; [by eexists|by exists (e1 :: l)|].
    rewrite Ht in Hl |- *. destruct l as [|e1 l]; [cbn in Hl; lia|by exists l]. }
  destruct E1 as [l1 E1]. intros H. destruct (IH _ _ _ Hok1 E1 H) as [Hf' Hl']. split; [congruence|done].
Qed.

(** C10: A handler catches what is raised behind its TRY_PUSH. As long as the
    function that pushed it runs and it was not popped, it stays on the stack of
    handlers under those pushed behind it. When none of these is left, an
    exception - raised in the function or in any function called from it - ends
    there: the frames above are gone, the function goes on at the catch address
    of its TRY_PUSH, in front of the frames it had below it and with their
    registers as they were, and the handler is used up. A handler that a function
    called from the block left behind by returning inside of its own [try] is one
    of those pushed behind it, see [handler_outlives_its_function]. *)
Theorem exceptions_reach_their_handler L depth warn vm0 f s i vm1 n vm v :
  vm_ok vm0 -> call_stack vm0 = f :: s -> code_at f (ip f) = Some i -> op i = TRY_PUSH ->
  (try_floor vm0 <= length (try_stack vm0))%nat ->
  step L depth warn vm0 = XOk vm1 ->
  inside L depth warn (length s) (length (try_stack vm0)) n vm1 = Some vm ->
  exists inner, try_stack vm = inner ++ MkTry (bx i) (length (f :: s)) (base f) :: try_stack vm0 /\
    (inner = [] -> raises L depth warn vm v ->
     exists vm', step L depth warn vm = XOk vm' /\ call_stack vm' = set_ip f (bx i) :: s /\ try_stack vm' = try_stack vm0 /\
       current_exception vm' = v /\ take (base f) (regs vm') = take (base f) (regs vm0)).
Proof.
  intros Hok0 E0 Ei Ho Hfl E1 Hn. destruct (good_step _ _ _ _ _ Hok0 E1) as [_ Hok1].
  unfold step in E1. rewrite E0, Ei in E1. unfold exec in E1. rewrite Ho in E1. unfold exec_try in E1. rewrite Ho in E1.
  unfold jump_to in E1. rewrite E0 in E1. injection E1 as E1. set (f1 := set_ip f (ip f + 1)).
  assert (H1 : call_stack vm1 = f1 :: s /\ try_stack vm1 = MkTry (bx i) (length (f :: s)) (base f) :: try_stack vm0 /\
    try_floor vm1 = try_floor vm0 /\ regs vm1 = regs vm0) by by subst vm1.
  destruct H1 as (S1 & T1 & F1 & R1). clear E1.
  destruct (inside_handlers L depth warn (length s) _ _ n vm1 vm [] Hok1 T1 Hn) as (Hf & inner & Hi).
  exists inner. split; [exact Hi|]. intros -> Hr. cbn [app] in Hi.
  destruct (raised_caught L depth warn vm1 f1 s (MkTry (bx i) (length (f :: s)) (base f)) _ n vm v Hok1 S1 eq_refl (inside_above _ _ _ _ _ _ _ _ Hn) Hi) as (vm' & K1 & K2 & K3 & K4 & K5).
  - rewrite Hf, F1, Hi. cbn. lia.
  - exact Hr.
  - exists vm'. rewrite R1 in K5. by split_and!.
Qed.

(** ** At work *)

Definition some_lib : Lib := MkLib (fun _ => []) (fun d _ => d).
Definition empty_vm : VM := MkVM [] [] [] 0 NONE ∅ ∅ ∅.
Definition ins (o : OpCode) (a b c : Z) : Instruction := mkI o a b c.
(** [fn($x) { return $x + 1; }], called with 41 *)
Definition add_one : FunctionProto :=
  MkProto (lit "add_one") 1 false 2 [] [ins LOAD_INT 1 1 0; ins ADD 0 0 1; ins RETURN 0 0 0] [] [] [] [].
Definition calls_add_one : FunctionProto :=
  MkProto (lit "main") 0 false 3 [] [ins MAKE_CLOSURE 0 0 0; ins LOAD_INT 1 41 0; ins CALL 2 0 1; ins NOP 1 0 0; ins RETURN 2 0 0]
    [add_one] [] [] [].
Example a_call : exists vm, run some_lib 0 false 20 (execute empty_vm calls_add_one) = Some (XReturn (INT 42) vm).
Proof. eexists. vm_compute. reflexivity. Qed.

(** A handler outlives the function that pushed it: a RETURN inside of [try]
    leaves it there (the compiler emits no TRY_POP before it), and the throw of
    the caller behind it goes on at an address of the function's code, here in
    the middle of the caller's: the exception is lost. *)
Definition returns_in_try : FunctionProto :=
  MkProto (lit "f") 0 false 1 [] [ins TRY_PUSH 0 0 7; ins RETURN_NULL 0 0 0; ins TRY_POP 0 0 0] [] [] [] [].
Definition throws_later : FunctionProto :=
  MkProto (lit "main") 0 false 3 []
    [ins MAKE_CLOSURE 0 0 0; ins CALL 1 0 1; ins NOP 0 0 0; ins LOAD_INT 1 7 0; ins THROW 1 0 0; ins LOAD_INT 2 1 0; ins RETURN 2 0 0;
     ins LOAD_INT 2 99 0; ins RETURN 2 0 0] [returns_in_try] [] [] [].
Example handler_outlives_its_function :
  exists vm, run some_lib 0 false 20 (execute empty_vm throws_later) = Some (XReturn (INT 99) vm).
Proof. eexists. vm_compute. reflexivity. Qed.

Lemma empty_vm_ok : vm_ok empty_vm.
Proof. split; cbn; [done|unfold MAX_CALL_DEPTH; lia|by intros l cl|constructor]. Qed.

Lemma registers_in_range_witness :
  exists vm f, steps some_lib 0 false 4 (execute empty_vm calls_add_one) = Some vm /\ head (call_stack vm) = Some f /\
    op <$> code_at f (ip f) = Some ADD /\ is_Some (regs vm !! (base f + 1)%nat).
Proof.
  set (vm := match steps some_lib 0 false 4 (execute empty_vm calls_add_one) with Some vm => vm | None => empty_vm end).
  assert (E0 : steps some_lib 0 false 4 (execute empty_vm calls_add_one) = Some vm) by (vm_compute; reflexivity).
  vm_compute in vm.
  destruct (registers_in_range some_lib 0 false calls_add_one empty_vm 4 vm _ _ (ins ADD 0 0 1) eq_refl empty_vm_ok eq_refl
    E0 eq_refl eq_refl) as (_ & _ & H & _). destruct (H 1) as [_ H1]; [right; right; left; reflexivity|].
  exists vm. eexists. exact (conj E0 (conj eq_refl (conj eq_refl H1))).
Defined.

(** [try { f(); } catch ($e) { return $e; }], where [f] divides by zero *)
Definition divides : FunctionProto :=
  MkProto (lit "f") 0 false 2 [] [ins LOAD_INT 0 1 0; ins LOAD_INT 1 0 0; ins MOD 0 0 1; ins RETURN 0 0 0] [] [] [] [].
Definition catches : FunctionProto :=
  MkProto (lit "main") 0 false 3 []
    [ins MAKE_CLOSURE 0 0 0; ins TRY_PUSH 0 0 6; ins CALL 1 0 1; ins NOP 0 0 0; ins TRY_POP 0 0 0; ins RETURN_NULL 0 0 0;
     ins LOAD_EXC 2 0 0; ins RETURN 2 0 0] [divides] [] [] [].
Lemma exceptions_reach_their_handler_witness :
  exists vm0 vm1 vm vm' f s, steps some_lib 0 false 1 (execute empty_vm catches) = Some vm0 /\ call_stack vm0 = f :: s /\
    step some_lib 0 false vm0 = XOk vm1 /\ inside some_lib 0 false 0 0 3 vm1 = Some vm /\ length (call_stack vm) = 2%nat /\
    step some_lib 0 false vm = XOk vm' /\ call_stack vm' = set_ip f 6 :: s.
Proof.
  set (vm0 := match steps some_lib 0 false 1 (execute empty_vm catches) with Some vm => vm | None => empty_vm end).
  assert (E0 : steps some_lib 0 false 1 (execute empty_vm catches) = Some vm0) by (vm_compute; reflexivity). vm_compute in vm0.
  set (vm1 := match step some_lib 0 false vm0 with XOk vm => vm | _ => empty_vm end).
  assert (E1 : step some_lib 0 false vm0 = XOk vm1) by (vm_compute; reflexivity). vm_compute in vm1.
  set (vm := match inside some_lib 0 false 0 0 3 vm1 with Some vm => vm | None => empty_vm end).
  assert (E2 : inside some_lib 0 false 0 0 3 vm1 = Some vm) by (vm_compute; reflexivity). vm_compute in vm.
  assert (Hr : exists m, raises some_lib 0 false vm (STRING m)).
  { eexists. do 3 eexists. split; [reflexivity|]. split; [reflexivity|]. left. do 2 eexists. split; [vm_compute; reflexivity|reflexivity]. }
  destruct Hr as [m Hr].
  destruct (exceptions_reach_their_handler some_lib 0 false vm0 _ _ (ins TRY_PUSH 0 0 6) vm1 3 vm (STRING m)
    (steps_ok some_lib 0 false 1 _ _ (execute_ok _ catches eq_refl empty_vm_ok eq_refl) E0) eq_refl eq_refl eq_refl ltac:(vm_compute; lia) E1 E2)
    as ([|e inner] & H1 & H2); [|destruct inner; discriminate H1].
  destruct (H2 eq_refl Hr) as (vm' & H3 & H4 & _).
  exists vm0, vm1, vm, vm'. do 2 eexists. exact (conj E0 (conj eq_refl (conj E1 (conj E2 (conj eq_refl (conj H3 H4)))))).
Defined.

Lemma call_returns_to_its_caller_witness :
  exists vm0 vm1 vm2 vm3 g s, steps some_lib 0 false 2 (execute empty_vm calls_add_one) = Some vm0 /\
    step some_lib 0 false vm0 = XOk vm1 /\ above some_lib 0 false 1 2 vm1 = Some vm2 /\ step some_lib 0 false vm2 = XOk vm3 /\
    call_stack vm1 = g :: s /\
    ((exists v, call_stack vm3 = s /\ regs vm3 = <[Z.to_nat (ret_reg g) := v]> (regs vm0)) \/
     (jumped s (call_stack vm3) /\ regs vm3 = regs vm0)).
Proof.
  set (vm0 := match steps some_lib 0 false 2 (execute empty_vm calls_add_one) with Some vm => vm | None => empty_vm end).
  assert (E0 : steps some_lib 0 false 2 (execute empty_vm calls_add_one) = Some vm0) by (vm_compute; reflexivity).
  vm_compute in vm0.
  set (vm1 := match step some_lib 0 false vm0 with XOk vm => vm | _ => empty_vm end).
  assert (E1 : step some_lib 0 false vm0 = XOk vm1) by (vm_compute; reflexivity). vm_compute in vm1.
  set (vm2 := match above some_lib 0 false 1 2 vm1 with Some vm => vm | None => empty_vm end).
  assert (E2 : above some_lib 0 false 1 2 vm1 = Some vm2) by (vm_compute; reflexivity). vm_compute in vm2.
  set (vm3 := match step some_lib 0 false vm2 with XOk vm => vm | _ => empty_vm end).
  assert (E3 : step some_lib 0 false vm2 = XOk vm3) by (vm_compute; reflexivity). vm_compute in vm3.
  destruct (call_returns_to_its_caller some_lib 0 false vm0 vm1 2 vm2 vm3
    (steps_ok some_lib 0 false 2 _ _ (execute_ok _ calls_add_one eq_refl empty_vm_ok eq_refl) E0) E1 eq_refl E2 E3 eq_refl)
    as (g & s & H1 & _ & H2).
  exists vm0, vm1, vm2, vm3, g, s. exact (conj E0 (conj E1 (conj E2 (conj E3 (conj H1 H2))))).
Defined.

End VmSafe.
