(* ===== verification/CompilerSafe.v ===== *)
(** The code the compiler emits (Compiler, CompilerStmt) keeps its operands in
    range: what the virtual machine relies on (VmSafe). *)

From S2P Require Import Prelude CNum Value Bytecode Ast Compiler CompilerStmt Vm VmSafe.
#[local] Open Scope Z_scope.

Module CompilerSafe.
Import CNum Value Bytecode Ast Compiler CompilerStmt VmSafe.

(** * The state of a compiler *)

(** The translated statements make no calls and no closures, and no hint stands
    behind an instruction. *)
Definition plain (o : OpCode) : bool := match o with CALL | TAIL_CALL | MAKE_CLOSURE | NOP => false | _ => true end.
Definition ins_fine (n m : Z) (i : Instruction) : bool :=
  forallb (below n) (touched i []) && forallb (below m) (consts i []) && plain (op i).
Definition regs_used (s : FunctionCompiler) : Z := next (regs_ s).
Definition pool (s : FunctionCompiler) : Z := Z.of_nat (length (constants_ s)).
Definition is_reg (s : FunctionCompiler) (r : Z) : Prop := 0 <= r < regs_used s.
Definition is_const (s : FunctionCompiler) (c : Z) : Prop := 0 <= c < pool s /\ c <= 65535.

Record fine (s : FunctionCompiler) : Prop := {
  f_regs : regs_ok (regs_ s);
  f_locals : Forall (fun l => is_reg s (lv_reg l)) (locals_ s);
  f_code : Forall (fun i => ins_fine (regs_used s) (pool s) i = true) (code_ s) }.

(** What only grows: registers, constants and the opcodes of the code *)
Record more (s s' : FunctionCompiler) : Prop := {
  m_regs : regs_used s <= regs_used s';
  m_pool : pool s <= pool s';
  m_ops : map op (code_ s) `prefix_of` map op (code_ s') }.
Lemma more_refl s : more s s.
Proof. by split. Qed.
Lemma more_trans s1 s2 s3 : more s1 s2 -> more s2 s3 -> more s1 s3.
Proof. intros [A1 B1 C1] [A2 B2 C2]. split; [lia|lia|by etrans]. Qed.

(** The instruction at an address has the opcode. *)
Definition op_at (s : FunctionCompiler) (at_ : Z) (o : OpCode) : Prop := map op (code_ s) !! Z.to_nat at_ = Some o.
(** Instructions whose target may be patched *)
Definition jumpy (o : OpCode) : bool :=
  match o with JUMP | JUMP_IF_FALSE | JUMP_IF_TRUE | JUMP_IF_NULL | TRY_PUSH | FOR_STEP => true | _ => false end.
Definition patchable (s : FunctionCompiler) (at_ : Z) : Prop := exists o, op_at s at_ o /\ jumpy o = true.

Lemma is_reg_more s s' r : more s s' -> is_reg s r -> is_reg s' r.
Proof. intros [] []. split; lia. Qed.
Lemma is_const_more s s' c : more s s' -> is_const s c -> is_const s' c.
Proof. intros [] [[] ?]. split; [split|]; lia. Qed.
Lemma patchable_more s s' p : more s s' -> patchable s p -> patchable s' p.
Proof. intros [_ _ H] (o & Ho & Hj). exists o. split; [|done]. by eapply prefix_lookup_Some. Qed.
Lemma ins_fine_mono n m n' m' i : n <= n' -> m <= m' -> ins_fine n m i = true -> ins_fine n' m' i = true.
Proof.
  unfold ins_fine. rewrite !andb_true_iff, !forallb_forall. intros Hn Hm [[H1 H2] H3]. split; [split|done];
    intros x Hx; [specialize (H1 x Hx)|specialize (H2 x Hx)]; unfold below in *; bool_to_prop; apply andb_true_iff; split; bool_to_prop; lia.
Qed.

(** * Methods that keep it *)

(** [m] from [s], when it returns, leaves a fine state in which [Q] holds. *)
Definition wp {A} (m : M A) (s : FunctionCompiler) (Q : FunctionCompiler -> A -> Prop) : Prop :=
  match m s with Ret (x, s') => fine s' /\ more s s' /\ Q s' x | _ => True end.
Lemma wp_bind {A B} (m : M A) (k : A -> M B) s P Q :
  wp m s P -> (forall s' x, fine s' -> more s s' -> P s' x -> wp (k x) s' Q) -> wp (bind m k) s Q.
Proof.
  unfold wp, bind. destruct (m s) as [[x s1]| |]; try done. intros (H1 & H2 & H3) Hk. specialize (Hk s1 x H1 H2 H3).
  destruct (k x s1) as [[y s2]| |]; try done. destruct Hk as (H4 & H5 & H6). split; [done|]. split; [by eapply more_trans|done].
Qed.
Lemma wp_mono {A} (m : M A) s (P Q : FunctionCompiler -> A -> Prop) :
  wp m s P -> (forall s' x, fine s' -> more s s' -> P s' x -> Q s' x) -> wp m s Q.
Proof. unfold wp. destruct (m s) as [[x s1]| |]; try done. intros (H1 & H2 & H3) H. auto. Qed.
Lemma wp_ret {A} (x : A) s (Q : FunctionCompiler -> A -> Prop) : fine s -> Q s x -> wp (ret x) s Q.
Proof. intros. split; [done|]. split; [apply more_refl|done]. Qed.
Lemma wp_ret_bind {A B} (x : A) (k : A -> M B) s Q : wp (k x) s Q -> wp (bind (ret x) k) s Q.
Proof. done. Qed.
Lemma wp_throw {A} e s (Q : FunctionCompiler -> A -> Prop) : wp (throw e) s Q.
Proof. done. Qed.
Lemma wp_get {A} (p : FunctionCompiler -> A) s : fine s -> wp (get p) s (fun s' x => x = p s /\ s' = s).
Proof. intros. split; [done|]. split; [apply more_refl|done]. Qed.

(** A change of the fields that hold no code and no registers *)
Lemma fine_same s s' : code_ s' = code_ s -> constants_ s' = constants_ s -> regs_ s' = regs_ s -> locals_ s' = locals_ s ->
  fine s -> fine s' /\ more s s'.
Proof.
  intros H1 H2 H3 H4 [F1 F2 F3]. unfold is_reg, regs_used, pool in *. split; split; unfold is_reg, regs_used, pool; rewrite ?H1, ?H2, ?H3, ?H4; done.
Qed.
Lemma fine_regs s ra : regs_ok ra -> next (regs_ s) <= next ra -> fine s -> fine (with_regs s ra) /\ more s (with_regs s ra).
Proof.
  intros H1 H2 [F1 F2 F3]. split; split; unfold regs_used, pool; cbn; try done.
  - eapply Forall_impl; [exact F2|]. intros l [Hl1 Hl2]. unfold is_reg, regs_used in *. cbn. lia.
  - eapply Forall_impl; [exact F3|]. intros i. by apply ins_fine_mono.
Qed.

Lemma wp_emit o x y z s : fine s -> ins_fine (regs_used s) (pool s) (mkI o x y z) = true ->
  wp (emit o x y z) s (fun s' at_ => op_at s' at_ o).
Proof.
  intros [F1 F2 F3] Hi. unfold wp, emit. split; [|split].
  - split; cbn; [done..|]. apply Forall_app. split; [done|]. by constructor.
  - split; cbn; [done..|]. rewrite map_app. by apply prefix_app_r.
  - unfold op_at. cbn. rewrite map_app, lookup_app_r; rewrite length_map, Nat2Z.id; [|done]. by rewrite Nat.sub_diag.
Qed.
Lemma wp_current_ip s : fine s -> wp current_ip s (fun _ _ => True).
Proof. intros. split; [done|]. split; [apply more_refl|done]. Qed.

Lemma jumpy_ok n m i y z : jumpy (op i) = true -> ins_fine n m i = true -> ins_fine n m (mkI (op i) (a i) y z) = true.
Proof. destruct i as [o x y0 z0]. by destruct o. Qed.
(** New operands of a jump *)
Lemma wp_patch_at (at_ y z : Z) s : fine s -> patchable s at_ ->
  wp (fun s => match code_ s !! Z.to_nat at_ with
      | Some i => Ret (tt, with_code s (<[Z.to_nat at_ := mkI (op i) (a i) y z]> (code_ s)) (lines_ s))
      | None => Undef end) s (fun _ _ => True).
Proof.
  intros [F1 F2 F3] (o & Ho & Hj). unfold wp, op_at in *. rewrite list_lookup_fmap in Ho.
  destruct (code_ s !! Z.to_nat at_) as [i|] eqn:Ei; [|done]. cbn in Ho. injection Ho as <-. split; [|split; [|done]].
  - split; cbn; [done..|]. apply Forall_insert; [done|]. apply jumpy_ok; [done|]. by eapply (Forall_lookup_1 _ _ _ _ F3).
  - split; cbn; [done..|]. rewrite list_fmap_insert. cbn. rewrite list_insert_id; [done|]. by rewrite list_lookup_fmap, Ei.
Qed.
Lemma wp_of_res {A} (r : res A) s : fine s -> wp (of_res r) s (fun s' x => r = Ret x /\ s' = s).
Proof. intros. unfold wp, of_res. destruct r; done || (split; [done|]; split; [apply more_refl|done]). Qed.
Lemma wp_patch_jump at_ t s : fine s -> patchable s at_ -> wp (patch_jump at_ t) s (fun _ _ => True).
Proof.
  intros Hf Hp. unfold patch_jump. destruct (_ <? _); [done|].
  eapply wp_bind; [by apply wp_of_res|]. intros s1 h Hf1 _ [_ ->]. eapply wp_bind; [by apply wp_of_res|].
  intros s2 l Hf2 _ [_ ->]. by apply wp_patch_at.
Qed.

Lemma const_index_lt cs v : forall i j, const_index cs v i = Some j -> (i <= j < i + length cs)%nat.
Proof.
  induction cs as [|w cs IH]; intros i j; cbn; [done|]. destruct (op_eq w v); [intros [= <-]; lia|].
  intros H%IH. lia.
Qed.
Lemma u16_Ret v what w : u16 v what = Ret w -> w = v /\ 0 <= v <= 65535.
Proof. unfold u16. destruct (_ || _) eqn:E; [done|]. intros [= <-]. apply orb_false_iff in E as []. bool_to_prop. lia. Qed.
Lemma wp_add_const v s : fine s -> wp (add_const v) s (fun s' c => is_const s' c).
Proof.
  intros Hf. unfold wp, add_const. destruct (const_index _ _ _) as [j|] eqn:Ej.
  - unfold of_res. destruct (u16 _ _) as [w| |] eqn:Eu; try done. apply u16_Ret in Eu as [-> Hu]. apply const_index_lt in Ej.
    split; [done|]. split; [apply more_refl|]. unfold is_const, pool. lia.
  - destruct (_ <=? _) eqn:E; [done|]. unfold of_res. destruct (u16 _ _) as [w| |] eqn:Eu; try done.
    apply u16_Ret in Eu as [-> Hu]. destruct Hf as [F1 F2 F3].
    assert (Hp : pool s <= pool (with_constants s (constants_ s ++ [v]))) by (unfold pool; cbn; rewrite length_app; lia).
    split; [|split].
    + split; cbn; [done..|]. eapply Forall_impl; [exact F3|]. intros i. by apply ins_fine_mono.
    + by split.
    + unfold is_const, pool. cbn. rewrite length_app. cbn. bool_to_prop. lia.
Qed.
Lemma bx_hi_lo v h l o x : hi8 v = Ret h -> lo8 v = Ret l -> bx (mkI o x h l) = v /\ 0 <= v <= 65535.
Proof.
  intros Hh Hl. assert (Hv : 0 <= v <= 65535) by (unfold hi8 in Hh; apply res_bind_Ret in Hh as (w & Hu & _); apply u16_Ret in Hu as [_ Hu]; exact Hu).
  split; [|done]. destruct (hi_lo v Hv) as (E1 & E2 & E3). rewrite E1 in Hh. rewrite E2 in Hl. injection Hh as <-. injection Hl as <-.
  by unfold bx.
Qed.
Lemma wp_emit_wide o x idx s : fine s ->
  (forall y z, bx (mkI o x y z) = idx -> ins_fine (regs_used s) (pool s) (mkI o x y z) = true) ->
  wp (emit_wide o x idx) s (fun s' at_ => op_at s' at_ o).
Proof.
  intros Hf Hi. unfold emit_wide. eapply wp_bind; [by apply wp_of_res|]. intros s1 h Hf1 _ [Eh ->].
  eapply wp_bind; [by apply wp_of_res|]. intros s2 l Hf2 _ [El ->]. apply wp_emit; [done|]. apply Hi.
  by destruct (bx_hi_lo idx h l o x Eh El).
Qed.

Lemma wp_alloc_temp s : fine s -> wp alloc_temp s is_reg.
Proof.
  intros Hf. unfold wp, alloc_temp. destruct (alloc (regs_ s)) as [[r ra]| |] eqn:E; try done.
  destruct (alloc_spec _ _ _ (f_regs _ Hf) E) as (H1 & (Hg1 & Hg2 & Hg3) & H2 & _ & _ & [H3 _] & _).
  destruct (fine_regs s ra H1 Hg2 Hf) as [F1 F2]. split; [done|]. split; [done|exact H3].
Qed.
Lemma wp_free_temp r s : fine s -> is_reg s r -> wp (free_temp r) s (fun _ _ => True).
Proof.
  intros Hf [_ Hr]. unfold wp, free_temp. destruct (free_spec _ _ (f_regs _ Hf) Hr) as (H1 & _ & H2 & _).
  destruct (fine_regs s (free (regs_ s) r) H1 ltac:(lia) Hf). by split.
Qed.


(** ** Automation *)

Lemma ins_fine_intro s i : Forall (is_reg s) (touched i []) -> Forall (fun c => 0 <= c < pool s) (consts i []) ->
  plain (op i) = true -> ins_fine (regs_used s) (pool s) i = true.
Proof.
  rewrite !List.Forall_forall. intros H1 H2 H3. unfold ins_fine. rewrite !andb_true_iff, !forallb_forall. split; [split|done];
    intros x Hx; [destruct (H1 x Hx)|destruct (H2 x Hx)]; unfold below; apply andb_true_iff; split; bool_to_prop; lia.
Qed.
(** A register to write to, or 255 for any *)
Definition is_dest (s : FunctionCompiler) (dest : Z) : Prop := dest = 255 \/ is_reg s dest.
Lemma is_dest_more s s' d : more s s' -> is_dest s d -> is_dest s' d.
Proof. intros Hm [->|H]; [by left|right; by eapply is_reg_more]. Qed.
(** Facts of an earlier state are facts of a later one. *)
Ltac carry :=
  repeat match goal with
  | H : more ?s ?s |- _ => clear H
  | Hm : more ?s ?s', H : is_reg ?s _ |- _ => apply (is_reg_more _ _ _ Hm) in H
  | Hm : more ?s ?s', H : is_const ?s _ |- _ => apply (is_const_more _ _ _ Hm) in H
  | Hm : more ?s ?s', H : is_dest ?s _ |- _ => apply (is_dest_more _ _ _ Hm) in H
  | Hm : more ?s ?s', H : patchable ?s _ |- _ => apply (patchable_more _ _ _ Hm) in H
  end.
Ltac fits :=
  first
    [ eassumption
    | match goal with H : is_const ?s ?c |- 0 <= ?c < pool ?s => exact (proj1 H) end
    | match goal with E : bx _ = _ |- _ => rewrite E; fits end ].
Ltac ins_ok := intros; apply ins_fine_intro; [cbn [touched hint_of op a b c]; repeat (constructor; [fits|]); constructor|
  cbn [consts op a b c]; repeat (constructor; [fits|]); constructor|reflexivity].
Create HintDb wp.
#[local] Hint Resolve wp_current_ip wp_add_const wp_alloc_temp wp_free_temp wp_patch_jump wp_get wp_of_res : wp.
(** One method: what it asks for is at hand, what it gives is kept. *)
Ltac use :=
  lazymatch goal with
  | |- wp (emit _ _ _ _) _ _ => apply wp_emit; [assumption|ins_ok]
  | |- wp (emit_jump _ _) _ _ => apply wp_emit; [assumption|ins_ok]
  | |- wp (emit_wide _ _ _) _ _ => apply wp_emit_wide; [assumption|ins_ok]
  | |- _ => eauto with wp nocore
  end.
Ltac next :=
  lazymatch goal with
  | |- wp (bind (ret _) _) _ _ => apply wp_ret_bind; cbv beta
  | |- wp (bind _ _) _ _ => eapply wp_bind; [use|];
      let s' := fresh "s" in let x := fresh "x" in let Hf := fresh "Hf" in let Hm := fresh "Hm" in let Hx := fresh "Hx" in
      intros s' x Hf Hm Hx; cbv beta in Hx; carry
  | |- wp (ret _) _ _ => apply wp_ret; [assumption|]
  | |- wp _ _ _ => eapply wp_mono; [use|];
      let s' := fresh "s" in let x := fresh "x" in let Hf := fresh "Hf" in let Hm := fresh "Hm" in let Hx := fresh "Hx" in
      intros s' x Hf Hm Hx; cbv beta in Hx; carry
  end.
Ltac nexts := repeat (next; try done).

Lemma wp_emit_load_const dest v s : fine s -> is_reg s dest -> wp (emit_load_const dest v) s (fun _ _ => True).
Proof.
  intros Hf Hd. unfold emit_load_const. destruct (small_int v); [nexts|].
  assert (Hc : wp (do idx <- add_const v;
      if idx <? 256 then do w <- of_res (u8 idx (lit "constant index")); run emit LOAD_CONST dest w 0; ret tt
      else run emit_wide LOAD_CONST_W dest idx; ret tt) s (fun _ _ => True)).
  { next. destruct (_ <? _); [|nexts]. next. destruct Hx0 as [Hu ->]. apply u8_Ret in Hu as [-> _]. nexts. }
  destruct v as [| | |[]| | | | | | |]; first [exact Hc|nexts].
Qed.
#[local] Hint Resolve wp_emit_load_const : wp.

Lemma wp_ensure_dest dest s : fine s -> is_dest s dest -> wp (ensure_dest dest) s is_reg.
Proof.
  intros Hf Hd. unfold ensure_dest. destruct (Z.eqb_spec dest 255) as [->|]; [nexts|]. destruct Hd as [|Hd]; [done|]. by nexts.
Qed.
Lemma wp_move_into r src s : fine s -> is_reg s r -> is_reg s src -> wp (move_into r src) s (fun _ _ => True).
Proof. intros. unfold move_into. destruct (_ =? _); nexts. Qed.
Lemma is_dest_255 s : is_dest s 255.
Proof. by left. Qed.
Lemma is_dest_reg s r : is_reg s r -> is_dest s r.
Proof. by right. Qed.
#[local] Hint Resolve wp_ensure_dest wp_move_into is_dest_255 is_dest_reg : wp.

(** ** Scopes and names *)

Lemma wp_push_scope s : fine s -> wp push_scope s (fun _ _ => True).
Proof.
  intros Hf. destruct (fine_same s (with_scope s (locals_ s) (scope_depth_ s + 1) (boxed_slots_ s)) eq_refl eq_refl eq_refl eq_refl Hf).
  by split.
Qed.
Lemma pop_locals_ok d ls : forall ra, regs_ok ra -> Forall (fun l => 0 <= lv_reg l < next ra) ls ->
  regs_ok (pop_locals d ls ra).2 /\ Bytecode.next (pop_locals d ls ra).2 = Bytecode.next ra /\
  Forall (fun l => 0 <= lv_reg l < Bytecode.next ra) (pop_locals d ls ra).1.
Proof.
  induction ls as [|l ls IH]; intros ra Hok H; cbn [pop_locals]; [done|]. destruct (_ =? _); [|done].
  apply Forall_cons in H as [[_ Hl] H]. destruct (free_local_spec ra (lv_reg l) Hok Hl) as (H1 & H2 & _).
  rewrite <- H2 in H. destruct (IH _ H1 H) as (H3 & H4 & H5). rewrite H2 in H4, H5. done.
Qed.
Lemma wp_pop_scope s : fine s -> wp pop_scope s (fun _ _ => True).
Proof.
  intros Hf. pose proof Hf as [F1 F2 F3]. unfold wp, pop_scope.
  destruct (pop_locals_ok (scope_depth_ s) (locals_ s) (regs_ s) F1 F2) as (H1 & H2 & H3).
  destruct (pop_locals _ _ _) as [ls ra]. cbn [fst snd] in *. destruct (fine_regs s ra H1 ltac:(lia) Hf) as [G1 G2].
  split; [|split; [|done]].
  - split; [done| |apply G1]. cbn. unfold is_reg, regs_used. cbn. by rewrite H2.
  - destruct G2. by split.
Qed.
Lemma wp_declare_local n s : fine s -> wp (declare_local n) s is_reg.
Proof.
  intros Hf. unfold wp, declare_local. destruct (declared_here _ _ _); [done|].
  destruct (alloc_local (regs_ s)) as [[r ra]| |] eqn:E; try done.
  destruct (alloc_local_spec _ _ _ (f_regs _ Hf) E) as (H1 & (Hg1 & Hg2 & Hg3) & H2 & _ & _ & [H3 _] & _).
  destruct (fine_regs s ra H1 Hg2 Hf) as [G1 G2]. split; [|split; [|exact H3]].
  - split; [done| |apply G1]. constructor; [exact H3|]. apply G1.
  - destruct G2. by split.
Qed.
Lemma find_local_reg s n r : fine s -> find_local n (locals_ s) = Some r -> is_reg s r.
Proof.
  intros [_ F2 _]. unfold find_local. destruct (List.find _ _) as [l|] eqn:E; [|done]. intros [= <-].
  apply List.find_some in E as [E _]. rewrite List.Forall_forall in F2. by apply F2.
Qed.
Lemma wp_resolve_var n w s : fine s -> wp (resolve_var n w) s (fun s' l => match l with LOCAL r => is_reg s' r | _ => True end).
Proof.
  intros Hf. unfold wp, resolve_var.
  assert (Hsame : forall l cs p, (match l with LOCAL r => is_reg s r | _ => True end) ->
    fine (with_captures s cs p) /\ more s (with_captures s cs p) /\ match l with LOCAL r => is_reg (with_captures s cs p) r | _ => True end).
  { intros l cs p Hl. destruct (fine_same s (with_captures s cs p)) as [G1 G2]; done. }
  assert (Hs : forall l, (match l with LOCAL r => is_reg s r | _ => True end) -> fine s /\ more s s /\ match l with LOCAL r => is_reg s r | _ => True end)
    by (intros l Hl; exact (conj Hf (conj (more_refl s) Hl))).
  destruct s as [x1 x2 x3 x4 x5 x6 x7 x8 x9 x10 x11 x12 x13 x14 x15]. cbn [resolve_var_in locals_ captures_].
  destruct (find_local n x5) as [r|] eqn:El; [apply (Hs (LOCAL r)); by eapply find_local_reg|].
  destruct (find_capture n x8) as [i|]; [by apply (Hs (CAPTURE i))|]. destruct x15 as [p|]; [|by apply (Hs GLOBAL)].
  destruct w; [by apply (Hs GLOBAL)|]. destruct (resolve_var_in p n false) as [[[r|i|] p']| |]; try done;
    try (by apply (Hsame GLOBAL)); (destruct (_ <=? _)%nat; [done|]); destruct (u8 _ _) as [idx| |]; try done; by apply (Hsame (CAPTURE idx)).
Qed.
#[local] Hint Resolve wp_push_scope wp_pop_scope wp_declare_local wp_resolve_var : wp.


(** [get] gives a part of the state it leaves as it is. *)
Ltac got := match goal with H : _ = _ /\ ?s' = _ |- _ => destruct H as [-> ->] end.

Lemma wp_emit_read_local dest slot s : fine s -> is_reg s dest -> is_reg s slot -> wp (emit_read_local dest slot) s (fun _ _ => True).
Proof. intros Hf H1 H2. unfold emit_read_local. next. got. destruct (bool_decide _); nexts. Qed.
Lemma wp_emit_write_local slot src s : fine s -> is_reg s slot -> is_reg s src -> wp (emit_write_local slot src) s (fun _ _ => True).
Proof. intros Hf H1 H2. unfold emit_write_local. next. got. destruct (bool_decide _); nexts. Qed.
Lemma wp_emit_read_capture dest i s : fine s -> is_reg s dest -> wp (emit_read_capture dest i) s (fun _ _ => True).
Proof. intros Hf H1. unfold emit_read_capture. next. got. destruct (is_cell_var _ _); nexts. Qed.
#[local] Hint Resolve wp_emit_read_local wp_emit_write_local wp_emit_read_capture : wp.

(** * Expressions *)

(** A part of an expression: into the register asked for, from any state *)
Definition compiles (c : Z -> M Z) : Prop := forall dest s, fine s -> is_dest s dest -> wp (c dest) s is_reg.
Lemma compiles_use c dest s : compiles c -> fine s -> is_dest s dest -> wp (c dest) s is_reg.
Proof. auto. Qed.
#[local] Hint Resolve compiles_use : wp.

Lemma compile_variable_ok n : compiles (compile_variable n).
Proof.
  intros dest s Hf Hd. unfold compile_variable. next. destruct x as [slot|i|].
  - next. got. destruct (_ && _); nexts.
  - nexts.
  - next. next. next. next. got. destruct n as [|ch n]; [nexts|]. destruct (_ && _); nexts.
Qed.
Lemma compile_incdec_ok o n prefix : compiles (compile_incdec o n prefix).
Proof.
  intros dest s Hf Hd. unfold compile_incdec.
  assert (Ho : (if o =s lit "++" then ADD else SUB) = ADD \/ (if o =s lit "++" then ADD else SUB) = SUB) by (destruct (_ =s _); auto).
  set (opc := if o =s lit "++" then ADD else SUB) in *. cbv zeta.
  next. next. next.
  destruct x1 as [slot|i|]; [|done|]; destruct Ho as [-> | ->]; destruct prefix; nexts.
Qed.
Lemma compile_unary_ok o c : compiles c -> compiles (compile_unary o c).
Proof.
  intros Hc dest s Hf Hd. unfold compile_unary. next. next.
  destruct (o =s lit "-"); [nexts|]. destruct (o =s lit "!"); [nexts|]. destruct (o =s lit "~"); [nexts|done].
Qed.
Lemma wp_jump_at {B} o r (k : Z -> M B) s Q : fine s -> (o = JUMP \/ is_reg s r) -> jumpy o && negb (bool_decide (o = FOR_STEP)) = true ->
  (forall s' at_, fine s' -> more s s' -> patchable s' at_ -> wp (k at_) s' Q) -> wp (bind (emit_jump o r) k) s Q.
Proof.
  intros Hf Hr Hj Hk. eapply wp_bind; [apply wp_emit; [done|]|].
  - apply ins_fine_intro; [|by destruct o|by destruct o]. destruct Hr as [->|Hr]; [done|]. destruct o; try done;
      cbn [touched op a]; first [apply Forall_nil_2|by apply Forall_singleton].
  - intros s' at_ Hf' Hm Hx. apply Hk; [done..|]. exists o. split; [done|]. by apply andb_true_iff in Hj as [].
Qed.
Ltac jump := apply wp_jump_at; [assumption|first [by left|right; assumption]|reflexivity|];
  let s' := fresh "s" in let x := fresh "at_" in let Hf := fresh "Hf" in let Hm := fresh "Hm" in let Hx := fresh "Hx" in
  intros s' x Hf Hm Hx; carry.

Lemma compile_ternary_ok cc ct ce : compiles cc -> compiles ct -> compiles ce -> compiles (compile_ternary cc ct ce).
Proof.
  intros Hc Ht He dest s Hf Hd. unfold compile_ternary. next. jump.
  next. next. next. next. jump. nexts.
Qed.
Lemma compile_coalesce_ok cl cr : compiles cl -> compiles cr -> compiles (compile_coalesce cl cr).
Proof.
  intros Hl Hr dest s Hf Hd. unfold compile_coalesce. next. next. jump. next. next. jump. nexts.
Qed.
Lemma compile_logical_ok o cl cr : compiles cl -> compiles cr -> compiles (compile_logical o cl cr).
Proof. intros Hl Hr dest s Hf Hd. unfold compile_logical. next. next. next. destruct (o =s _); jump; nexts. Qed.

(** The operators on two registers *)
Definition three (o : OpCode) : Prop := forall x y z, touched (mkI o x y z) [] = [x; y; z] /\ consts (mkI o x y z) [] = [] /\ plain o = true.
Lemma OPS_three o opc : OPS o = Some opc -> three opc.
Proof. unfold OPS. intros H. repeat (case_match; [by injection H as <-|]). done. Qed.
Lemma COMPOUND_three o opc : COMPOUND o = Some opc -> three opc.
Proof. unfold COMPOUND. intros H. repeat (case_match; [by injection H as <-|]). done. Qed.
Lemma wp_emit_three o x y z s : fine s -> three o -> is_reg s x -> is_reg s y -> is_reg s z -> wp (emit o x y z) s (fun _ _ => True).
Proof.
  intros Hf Ho Hx Hy Hz. destruct (Ho x y z) as (H1 & H2 & H3). eapply wp_mono; [apply wp_emit; [done|]|done].
  apply ins_fine_intro; [rewrite H1, !Forall_cons; auto using Forall_nil_2|by rewrite H2|done].
Qed.
Lemma compile_binary_ok o cl cr : compiles cl -> compiles cr -> compiles (compile_binary o cl cr).
Proof.
  intros Hl Hr dest s Hf Hd. unfold compile_binary. destruct (_ || _); [by apply compile_logical_ok|].
  destruct (o =s _); [by apply compile_coalesce_ok|]. next. next.
  next. destruct (OPS o) as [opc|] eqn:Eo; [|done].
  eapply wp_bind; [apply wp_emit_three; [done|by eapply OPS_three|done..]|]. intros ? ? ? ? _. carry. nexts.
Qed.
Lemma compile_index_ok co ci : compiles co -> compiles ci -> compiles (compile_index co ci).
Proof.
  intros Ho Hi dest s Hf Hd. unfold compile_index. next. next.
  nexts.
Qed.
Lemma compile_member_ok co field : compiles co -> compiles (compile_member co field).
Proof.
  intros Ho dest s Hf Hd. unfold compile_member. next. next. next.
  eapply wp_bind with (P := fun _ _ => True); [|intros ? ? ? ? _; carry; nexts].
  destruct (_ <=? _); [|nexts]. next. destruct Hx2 as [Hu ->]. apply u8_Ret in Hu as [-> _]. nexts.
Qed.


Lemma wp_emit_compound o cur val s : fine s -> is_reg s cur -> is_reg s val -> wp (emit_compound o cur val) s is_reg.
Proof.
  intros Hf H1 H2. unfold emit_compound. next. destruct (COMPOUND o) as [opc|] eqn:Eo; [|done].
  eapply wp_bind; [apply wp_emit_three; [done|by eapply COMPOUND_three|done..]|]. intros ? ? ? ? _. carry. nexts.
Qed.
#[local] Hint Resolve wp_emit_compound : wp.

Definition compiles_opt (co : option (Z -> M Z)) : Prop := match co with Some c => compiles c | None => True end.
Lemma wp_element_assign n o obj ci cv want s : fine s -> compiles_opt obj -> compiles ci -> compiles cv ->
  want < 0 \/ is_reg s want -> wp (compile_element_assign n o obj ci cv want) s (fun _ _ => True).
Proof.
  intros Hf Ho Hi Hv Hw. unfold compile_element_assign.
  assert (Hcarry : forall s', more s s' -> want < 0 \/ is_reg s' want) by (intros s' Hm; destruct Hw; [by left|right; by eapply is_reg_more]).
  next. eapply (wp_bind _ _ _ is_reg).
  { destruct obj as [co|]; [by apply Ho; [|apply is_dest_255]|].
    destruct x as [i|i|]; next; (eapply (wp_bind _ _ _ (fun _ _ => True)); [|intros ? ? ? ? _; carry; nexts]); nexts. }
  intros s1 arr Hf1 Hm1 Harr. carry. next. next.
  eapply (wp_bind _ _ _ is_reg).
  { destruct (o =s lit "="); [by nexts|]. destruct (COMPOUND o); [nexts|done]. }
  intros s4 v Hf4 Hm4 Hv4. carry. next.
  eapply (wp_bind _ _ _ (fun _ _ => True)); [|intros ? ? ? ? _; carry; nexts].
  destruct (Z.leb_spec 0 want) as [H0|]; [|nexts]. next. destruct Hx3 as [Hu ->]. apply u8_Ret in Hu as [-> _].
  destruct Hw as [Hw|Hw]; [lia|]. carry. nexts.
Qed.
Lemma wp_name_assign n o cv s : fine s -> compiles cv -> wp (compile_name_assign n o cv) s (fun _ _ => True).
Proof.
  intros Hf Hc. unfold compile_name_assign. next. next. next. got. destruct x as [slot|i|]; [|done|]; carry.
  - destruct (o =s lit ".="); [destruct (bool_decide _); nexts|]. destruct (negb (o =s lit "=")); nexts.
  - cbv zeta. match goal with |- wp (if ?b then _ else _) _ _ => destruct b end.
    + eapply (wp_bind _ _ _ is_reg).
      { destruct (o =s lit "="); [by nexts|]. nexts. }
      intros s3 r Hf3 Hm3 Hr. carry. next. next. got.
      eapply (wp_bind _ _ _ (fun _ _ => True)); [|intros ? ? ? ? _; carry; nexts]. destruct (bool_decide _); nexts.
    + eapply (wp_bind _ _ _ (fun _ _ => True)).
      { destruct (fine_same s1 (with_outer s1 ({[n]} ∪ outer_globals_ s1))) as [G1 G2]; try done.
        unfold wp. destruct (loop_depth_ s1 =? 0); [done|]. split; [done|]. split; [apply more_refl|done]. }
      intros s3 u Hf3 Hm3 _. carry. next. eapply (wp_bind _ _ _ is_reg).
      { destruct (o =s lit "="); [by nexts|]. nexts. }
      intros s5 r Hf5 Hm5 Hr. carry. nexts.
Qed.
Lemma read_back_ok n : compiles (read_back n).
Proof. intros dest s Hf Hd. unfold read_back. next. next. destruct x as [slot|i|]; carry; nexts. Qed.
#[local] Hint Resolve wp_element_assign wp_name_assign : wp.

Lemma compile_expr_ok : forall e, compiles (compile_expr e).
Proof.
  fix IH 1. intros e dest s Hf Hd. destruct e; cbn [compile_expr]; try done.
  - next. destruct (_ && _); [done|]. nexts.
  - nexts.
  - nexts.
  - nexts.
  - nexts.
  - next. next. rename x into r. clear Hx0 Hm0 Hm. revert s1 Hf1 Hd Hx. generalize elements. fix go 1. intros [|x l] s1 Hf1 Hd Hx.
    + by nexts.
    + eapply wp_bind; [by apply IH; [|apply is_dest_255]|]. intros s2 er Hf2 Hm2 Her. carry. next. next.
      by apply go.
  - next. next. rename x into r. clear Hx0 Hm0 Hm.
    assert (Ho : three (if distinct_keys [] (map fst pairs) then ASSOC_APPEND else ARRAY_SET)) by by destruct (distinct_keys _ _).
    cbv zeta. generalize dependent (if distinct_keys [] (map fst pairs) then ASSOC_APPEND else ARRAY_SET).
    intros o Ho. revert s1 Hf1 Hd Hx. generalize pairs. fix go 1. intros [|kv l] s1 Hf1 Hd Hx.
    + by nexts.
    + destruct kv as [k v]. eapply wp_bind; [by apply IH; [|apply is_dest_255]|]. intros s2 kr Hf2 Hm2 Hkr. carry.
      eapply wp_bind; [by apply IH; [|apply is_dest_255]|]. intros s3 vr Hf3 Hm3 Hvr. carry.
      eapply wp_bind; [by apply wp_emit_three|]. intros s4 u Hf4 Hm4 _. carry. next. next. by apply go.
  - by apply compile_variable_ok.
  - apply compile_index_ok; [apply IH..|done|done].
  - destruct (_ || _); [destruct e; try done; by apply compile_incdec_ok|]. by apply compile_unary_ok; [apply IH|..].
  - by apply compile_binary_ok; [apply IH..| |].
  - destruct index as [ix|].
    + next. eapply wp_bind; [apply wp_element_assign; [done| |apply IH|apply IH|by right]|].
      * destruct object as [ob|]; [apply IH|done].
      * intros s2 u Hf2 Hm2 _. carry. by nexts.
    + eapply wp_bind; [apply wp_name_assign; [done|apply IH]|]. intros s1 u Hf1 Hm1 _. carry. by apply read_back_ok.
  - by apply compile_ternary_ok; [apply IH..| |].
  - nexts.
  - by apply compile_member_ok; [apply IH|..].
Qed.

#[local] Hint Resolve compile_expr_ok : wp.

(** * Statements *)

(** The jumps that loops have still to patch are jumps. *)
Definition loop_ok (s : FunctionCompiler) (l : LoopContext) : Prop :=
  Forall (patchable s) (break_patches l) /\ Forall (patchable s) (continue_patches l).
Record sfine (s : SC) : Prop := { sf_fine : fine (fc s); sf_loops : Forall (loop_ok (fc s)) (loop_stack_ s) }.
Definition wps {A} (m : MS A) (s : SC) (Q : SC -> A -> Prop) : Prop :=
  match m s with Ret (x, s') => sfine s' /\ more (fc s) (fc s') /\ Q s' x | _ => True end.
Definition safe (m : MS unit) : Prop := forall s, sfine s -> wps m s (fun _ _ => True).

Lemma patchables_more s s' ps : more s s' -> Forall (patchable s) ps -> Forall (patchable s') ps.
Proof. intros Hm H. eapply Forall_impl; [exact H|]. intros p. by apply patchable_more. Qed.
Lemma loops_more s s' ls : more s s' -> Forall (loop_ok s) ls -> Forall (loop_ok s') ls.
Proof. intros Hm H. eapply Forall_impl; [exact H|]. intros l [H1 H2]. split; by eapply patchables_more. Qed.
Lemma wps_bind {A B} (m : MS A) (k : A -> MS B) s P Q :
  wps m s P -> (forall s' x, sfine s' -> fine (fc s') -> more (fc s) (fc s') -> P s' x -> wps (k x) s' Q) -> wps (sbind m k) s Q.
Proof.
  unfold wps, sbind. destruct (m s) as [[x s1]| |]; try done. intros (H1 & H2 & H3) Hk. specialize (Hk s1 x H1 (sf_fine _ H1) H2 H3).
  destruct (k x s1) as [[y s2]| |]; try done. destruct Hk as (H4 & H5 & H6). split; [done|]. split; [by eapply more_trans|done].
Qed.
Lemma wps_mono {A} (m : MS A) s (P Q : SC -> A -> Prop) :
  wps m s P -> (forall s' x, sfine s' -> fine (fc s') -> more (fc s) (fc s') -> P s' x -> Q s' x) -> wps m s Q.
Proof. unfold wps. destruct (m s) as [[x s1]| |]; try done. intros (H1 & H2 & H3) H. pose proof (sf_fine _ H1). auto. Qed.
Lemma wps_ret {A} (x : A) s (Q : SC -> A -> Prop) : sfine s -> Q s x -> wps (sret x) s Q.
Proof. intros. split; [done|]. split; [apply more_refl|done]. Qed.
Lemma wps_ret_bind {A B} (x : A) (k : A -> MS B) s Q : wps (k x) s Q -> wps (sbind (sret x) k) s Q.
Proof. done. Qed.
Lemma wps_up {A} (m : M A) s P : sfine s -> wp m (fc s) P -> wps (up m) s (fun s' x => P (fc s') x).
Proof.
  intros [F1 F2]. unfold wps, up, wp. destruct (m (fc s)) as [[x f]| |]; try done. intros (H1 & H2 & H3). cbn.
  split; [|done]. split; [done|]. by eapply loops_more.
Qed.
Lemma wps_safe m s : safe m -> sfine s -> wps m s (fun _ _ => True).
Proof. auto. Qed.
#[local] Hint Resolve wps_safe : wp.

Ltac scarry := cbv beta in *; repeat match goal with
  | Hm : more ?s ?s', H : Forall (patchable ?s) _ |- _ => apply (patchables_more _ _ _ Hm) in H end; carry.
Ltac suse :=
  lazymatch goal with
  | |- wps (up _) _ _ => apply wps_up; [assumption|use]
  | |- _ => eauto with wp nocore
  end.
Ltac snext :=
  lazymatch goal with
  | |- wps (sbind (sret _) _) _ _ => apply wps_ret_bind; cbv beta
  | |- wps (sbind (up (emit_jump _ _)) _) _ _ =>
      eapply wps_bind; [apply wps_up; [assumption|apply wp_emit; [assumption|ins_ok]]|];
      let s' := fresh "s" in let x := fresh "at_" in let Hs := fresh "Hs" in let Hf := fresh "Hf" in
      let Hm := fresh "Hm" in let Hx := fresh "Hx" in
      intros s' x Hs Hf Hm Hx; cbv beta in Hx; scarry;
      assert (patchable (fc s') x) by (eexists; split; [exact Hx|reflexivity]); clear Hx
  | |- wps (sbind _ _) _ _ => eapply wps_bind; [suse|];
      let s' := fresh "s" in let x := fresh "x" in let Hs := fresh "Hs" in let Hf := fresh "Hf" in
      let Hm := fresh "Hm" in let Hx := fresh "Hx" in
      intros s' x Hs Hf Hm Hx; cbv beta in Hx; scarry
  | |- wps (sret _) _ _ => apply wps_ret; [assumption|]
  | |- wps _ _ _ => eapply wps_mono; [suse|]; intros; scarry
  end.
Ltac snexts := repeat (snext; try done).

Lemma wps_patch_all t : forall ps s, sfine s -> Forall (patchable (fc s)) ps -> wps (patch_all ps t) s (fun _ _ => True).
Proof.
  induction ps as [|p ps IH]; intros s Hs H; cbn [patch_all]; [by snexts|]. apply Forall_cons in H as [Hp H].
  pose proof (sf_fine _ Hs). snext. by apply IH.
Qed.
Lemma wps_jump_back t s : sfine s -> wps (jump_back t) s (fun _ _ => True).
Proof. intros Hs. pose proof (sf_fine _ Hs). unfold jump_back. by snexts. Qed.
Lemma wps_with_loops f s : sfine s -> Forall (loop_ok (fc s)) (f (loop_stack_ s)) -> wps (with_loops f) s (fun _ _ => True).
Proof. intros [F1 F2] H. split; [by split|]. split; [apply more_refl|done]. Qed.
Lemma wps_pop_loop s : sfine s -> wps pop_loop s (fun s' l => loop_ok (fc s') l).
Proof.
  intros [F1 F2]. unfold wps, pop_loop. destruct (loop_stack_ s) as [|l ls]; [done|]. apply Forall_cons in F2 as [H1 H2].
  split; [by split|]. split; [apply more_refl|done].
Qed.
Lemma wps_add_depth d s : sfine s -> wps (add_depth d) s (fun _ _ => True).
Proof.
  intros [F1 F2]. unfold wps, add_depth. cbv zeta.
  match goal with |- sfine (MkSC ?f _) /\ _ => destruct (fine_same (fc s) f eq_refl eq_refl eq_refl eq_refl F1) as [G1 G2] end.
  split; [|done]. split; [done|]. by eapply loops_more.
Qed.
#[local] Hint Resolve wps_patch_all wps_jump_back wps_pop_loop wps_add_depth : wp.

Lemma safe_sret : safe (sret tt).
Proof. intros s Hs. by snexts. Qed.
Lemma safe_up (m : M unit) : (forall s, fine s -> wp m s (fun _ _ => True)) -> safe (up m).
Proof. intros H s Hs. apply (wps_up m s (fun _ _ => True)); [done|]. apply H, Hs. Qed.
Lemma run_all_ok ms : Forall safe ms -> safe (run_all ms).
Proof. induction 1 as [|m ms Hm _ IH]; cbn [run_all]; [apply safe_sret|]. intros s Hs. snext. by apply IH. Qed.

Definition pend_ok (pend : pending) : Prop := Forall (fun act : nat -> MS unit => forall k, safe (act k)) pend.
Lemma emit_pending_ok pend k : pend_ok pend -> safe (emit_pending_finallys pend k).
Proof.
  intros H. apply run_all_ok. apply Forall_map, Forall_rev. eapply Forall_impl; [by apply Forall_drop, H|]. auto.
Qed.
#[local] Hint Resolve emit_pending_ok : wp.

Lemma return_ok pend e : pend_ok pend -> safe (compile_return_stmt pend e).
Proof. intros Hp s Hs. pose proof (sf_fine _ Hs). unfold compile_return_stmt. destruct e as [x|]; snexts. Qed.
Lemma break_ok pend : pend_ok pend -> safe (compile_break pend).
Proof.
  intros Hp s Hs. unfold compile_break, wps. destruct (loop_stack_ s) as [|l ls] eqn:El; [done|].
  match goal with |- match ?m s with _ => _ end => change (wps m s (fun _ _ => True)) end. clear El.
  snext. snext. apply wps_with_loops; [done|]. pose proof (sf_loops _ Hs1) as Hl. destruct (loop_stack_ s1) as [|l1 ls1]; [done|].
  apply Forall_cons in Hl as [[H1 H2] Hl]. constructor; [|done]. split; [|done]. cbn. apply Forall_app. split; [done|].
  by apply Forall_singleton.
Qed.
Lemma add_continue_ok f p ls : patchable f p -> Forall (loop_ok f) ls -> Forall (loop_ok f) (add_continue p ls).
Proof.
  intros Hp. induction 1 as [|l ls [H1 H2] Hl IH]; cbn [add_continue]; [done|]. destruct (is_switch l); constructor; try done.
  split; [done|]. cbn. apply Forall_app. split; [done|]. by apply Forall_singleton.
Qed.
Lemma continue_ok pend : pend_ok pend -> safe (compile_continue pend).
Proof.
  intros Hp s Hs. unfold compile_continue, wps. destruct (nearest_loop (loop_stack_ s)) as [l|] eqn:El; [|done].
  match goal with |- match ?m s with _ => _ end => change (wps m s (fun _ _ => True)) end. clear El.
  snext. destruct (_ <=? _); [by snexts|]. snext. apply wps_with_loops; [done|]. apply add_continue_ok; [done|]. apply Hs1.
Qed.


Lemma block_ok body : safe body -> safe (compile_block body).
Proof. intros Hb s Hs. pose proof (sf_fine _ Hs). unfold compile_block. snexts. Qed.
Definition safe_opt (m : option (MS unit)) : Prop := match m with Some m => safe m | None => True end.
Lemma if_ok c ct ce : safe ct -> safe_opt ce -> safe (compile_if c ct ce).
Proof.
  intros Ht He s Hs. pose proof (sf_fine _ Hs). unfold compile_if. snext. snext. snext. snext. destruct ce as [ce|]; snexts.
Qed.
Lemma loop_body_ok t pend body s : safe body -> sfine s -> wps (loop_body t pend body) s (fun s' l => loop_ok (fc s') l).
Proof.
  intros Hb Hs. pose proof (sf_fine _ Hs). unfold loop_body.
  eapply wps_bind; [apply wps_with_loops; [done|]|].
  - constructor; [by split|apply Hs].
  - intros s1 u Hs1 Hf1 Hm1 _. scarry. snexts.
Qed.
#[local] Hint Resolve loop_body_ok : wp.
(** The loop that was left: its jumps *)
Ltac left_loop := match goal with H : loop_ok _ _ |- _ => destruct H as [? ?] end.

Lemma while_ok pend c body : safe body -> safe (compile_while pend c body).
Proof.
  intros Hb s Hs. pose proof (sf_fine _ Hs). unfold compile_while. snext. snext. snext. snext. snext. left_loop. snexts.
Qed.
Lemma for_ok pend init c post body : safe_opt init -> safe body -> safe (compile_for pend init c post body).
Proof.
  intros Hi Hb s Hs. pose proof (sf_fine _ Hs). unfold compile_for. snext.
  eapply (wps_bind _ _ _ (fun _ _ => True)); [destruct init; snexts|]. intros s1 u Hs1 Hf1 Hm1 _. scarry. snext.
  eapply (wps_bind _ _ _ (fun s' j => match j with Some j => patchable (fc s') j | None => True end)).
  { destruct c as [c|]; [|by snexts]. snext. snext. snext. by snexts. }
  intros s3 j Hs3 Hf3 Hm3 Hj. scarry. snext. left_loop.
  assert (Hj1 : match j with Some j => patchable (fc s4) j | None => True end) by (destruct j; [by scarry|done]). clear Hj. snext.
  eapply (wps_bind _ _ _ (fun _ _ => True)); [destruct post; snexts|]. intros s6 u2 Hs6 Hf6 Hm6 _. scarry. snext. snext. snext.
  eapply (wps_bind _ _ _ (fun _ _ => True)).
  { destruct j as [j|]; [|by snexts]. scarry. snexts. }
  intros s10 u3 Hs10 Hf10 Hm10 _. scarry. snexts.
Qed.

Lemma wp_alloc_seq s : fine s -> wp (alloc_seq_m 4) s (fun s' r => is_reg s' r /\ is_reg s' (r + 1) /\ is_reg s' (r + 2) /\ is_reg s' (r + 3)).
Proof.
  intros Hf. unfold wp, alloc_seq_m. destruct (alloc_seq _ _) as [[r ra]| |] eqn:E; try done.
  destruct (alloc_seq_spec _ 4 _ _ (f_regs _ Hf) ltac:(lia) E) as (H1 & (Hg1 & Hg2 & Hg3) & _ & _ & H2 & _).
  destruct (fine_regs s ra H1 Hg2 Hf) as [F1 F2]. split; [done|]. split; [done|].
  assert (Hr : forall k, 0 <= k < 4 -> is_reg (with_regs s ra) (r + k)).
  { intros k Hk. destruct (H2 (r + k) ltac:(lia)) as (_ & [H _] & _). exact H. }
  split; [by rewrite <- (Z.add_0_r r); apply Hr|]. split_and!; by apply Hr.
Qed.
Lemma wp_release_seq r s : fine s -> is_reg s r -> is_reg s (r + 3) -> wp (release_seq_m r 4) s (fun _ _ => True).
Proof.
  intros Hf [H1 _] [_ H2]. unfold wp, release_seq_m.
  destruct (release_seq_spec (regs_ s) r 4 (f_regs _ Hf)) as (H3 & H4 & _); [intros q Hq; unfold regs_used in H2; lia|].
  destruct (fine_regs s (release_seq (regs_ s) r 4) H3 ltac:(lia) Hf). by split.
Qed.
Lemma wp_add_local n r s : fine s -> is_reg s r -> wp (add_local n r) s (fun _ _ => True).
Proof. intros [F1 F2 F3] Hr. split; [|by split]. split; [done| |done]. by constructor. Qed.
#[local] Hint Resolve wp_alloc_seq wp_release_seq wp_add_local : wp.
Definition is_cell_reg (s : FunctionCompiler) (c : option Z) : Prop := match c with Some c => is_reg s c | None => True end.
Lemma wp_loop_var n r s : fine s -> is_reg s r -> wp (loop_var n r) s is_cell_reg.
Proof.
  intros Hf Hr. unfold loop_var. next. got. destruct n as [|ch n]; [by nexts|]. destruct (bool_decide _); nexts.
Qed.
Lemma wp_fill_cell c r s : fine s -> is_cell_reg s c -> is_reg s r -> wp (fill_cell c r) s (fun _ _ => True).
Proof. intros Hf Hc Hr. unfold fill_cell. destruct c as [c|]; cbn in Hc; nexts. Qed.
Lemma is_cell_reg_more s s' c : more s s' -> is_cell_reg s c -> is_cell_reg s' c.
Proof. destruct c; [apply is_reg_more|done]. Qed.
#[local] Hint Resolve wp_loop_var wp_fill_cell : wp.
Ltac cells := repeat match goal with Hm : more ?s ?s', H : is_cell_reg ?s _ |- _ => apply (is_cell_reg_more _ _ _ Hm) in H end.
Lemma wp_patch_step at_ t s : fine s -> patchable s at_ -> wp (patch_step at_ t) s (fun _ _ => True).
Proof.
  intros Hf Hp. unfold patch_step. eapply wp_bind; [by apply wp_of_res|]. intros s1 h Hf1 _ [_ ->].
  eapply wp_bind; [by apply wp_of_res|]. intros s2 l Hf2 _ [_ ->]. by apply wp_patch_at.
Qed.
#[local] Hint Resolve wp_patch_step : wp.

Lemma foreach_ok pend iter kv vv body : safe body -> safe (compile_foreach pend iter kv vv body).
Proof.
  intros Hb s Hs. pose proof (sf_fine _ Hs). unfold compile_foreach. snext. snext. snext. destruct Hx1 as (R0 & R1 & R2 & R3).
  snext. snext. cbv zeta. snext. snext. cells. snext. cells. eapply wps_bind; [suse|]. intros s8 step_ip Hs8 Hf8 Hm8 Hx8.
  cbv beta in Hx8. scarry. cells. assert (patchable (fc s8) step_ip) by (eexists; split; [exact Hx8|reflexivity]).
  snext. cells. snext. cells. snext. left_loop. snexts.
Qed.


(** ** [switch] *)

Lemma case_tests_ok subj vs : forall s, sfine s -> is_reg (fc s) subj ->
  wps (case_tests subj vs) s (fun s' js => Forall (patchable (fc s')) js).
Proof.
  induction vs as [|v vs IH]; intros s Hs Hr; pose proof (sf_fine _ Hs); cbn [case_tests]; [by snexts|].
  snext. snext. snext. snext. snext. snext. eapply wps_bind; [by apply IH|]. intros s6 js Hs6 Hf6 Hm6 Hjs. scarry.
  snext. by constructor.
Qed.
Definition jumps_ok (s : FunctionCompiler) (jss : list (list Z)) : Prop := Forall (Forall (patchable s)) jss.
Lemma jumps_more s s' jss : more s s' -> jumps_ok s jss -> jumps_ok s' jss.
Proof. intros Hm H. eapply Forall_impl; [exact H|]. intros js. by apply patchables_more. Qed.
Lemma all_tests_ok subj cases : forall s, sfine s -> is_reg (fc s) subj ->
  wps (all_tests subj cases) s (fun s' jss => jumps_ok (fc s') jss).
Proof.
  induction cases as [|vs cases IH]; intros s Hs Hr; pose proof (sf_fine _ Hs); cbn [all_tests]; [snext; constructor|].
  eapply wps_bind; [by apply case_tests_ok|]. intros s1 js Hs1 Hf1 Hm1 Hjs. scarry.
  eapply wps_bind; [by apply IH|]. intros s2 jss Hs2 Hf2 Hm2 Hjss. scarry. snext. by apply Forall_cons.
Qed.
Definition cases_ok (s : FunctionCompiler) (cases : list (list Expression * list Z * MS unit)) : Prop :=
  Forall (fun '(_, js, body) => Forall (patchable s) js /\ safe body) cases.
Lemma cases_more s s' cases : more s s' -> cases_ok s cases -> cases_ok s' cases.
Proof. intros Hm H. eapply Forall_impl; [exact H|]. intros [[vs js] body] [H1 H2]. split; [by eapply patchables_more|done]. Qed.
Ltac cases := repeat match goal with
  | Hm : more ?s ?s', H : cases_ok ?s _ |- _ => apply (cases_more _ _ _ Hm) in H
  | Hm : more ?s ?s', H : jumps_ok ?s _ |- _ => apply (jumps_more _ _ _ Hm) in H end.
Lemma case_bodies_ok nm : forall cases s, sfine s -> patchable (fc s) nm -> cases_ok (fc s) cases ->
  wps (case_bodies nm cases) s (fun s' es => Forall (patchable (fc s')) es).
Proof.
  induction cases as [|[[vs js] body] cases IH]; intros s Hs Hn H; pose proof (sf_fine _ Hs); cbn [case_bodies]; [by snexts|].
  apply Forall_cons in H as [[Hj Hb] H]. fold (cases_ok (fc s) cases) in H. snext. cases.
  eapply (wps_bind _ _ _ (fun _ _ => True)); [destruct vs; snexts|]. intros s1 u Hs1 Hf1 Hm1 _. scarry. cases.
  eapply wps_bind; [by apply block_ok|]. intros s2 u2 Hs2 Hf2 Hm2 _. scarry. cases.
  snext. cases. eapply wps_bind; [by apply IH|]. intros s4 es Hs4 Hf4 Hm4 Hes. scarry. snext. by apply Forall_cons.
Qed.
Lemma zip_cases_ok f (cases : list (list Expression * MS unit)) : Forall (fun c => safe (snd c)) cases -> forall jss, jumps_ok f jss ->
  cases_ok f (zip_with (fun c js => (fst c, js, snd c)) cases jss).
Proof.
  induction 1 as [|[vs body] cases Hb _ IH]; intros [|js jss] H; try constructor; apply Forall_cons in H as [H1 H2]; [done|by apply IH].
Qed.
Lemma switch_ok pend subject cases : Forall (fun c => safe (snd c)) cases -> safe (compile_switch pend subject cases).
Proof.
  intros Hc s Hs. pose proof (sf_fine _ Hs). unfold compile_switch. snext. eapply wps_bind; [by apply all_tests_ok|].
  intros s1 jss Hs1 Hf1 Hm1 Hjs. scarry. snext. cases.
  eapply wps_bind; [apply wps_with_loops; [done|]; constructor; [by split|by apply sf_loops]|]. intros s3 u Hs3 Hf3 Hm3 _. scarry. cases.
  eapply wps_bind; [by apply case_bodies_ok; [..|by apply zip_cases_ok]|].
  intros s4 es Hs4 Hf4 Hm4 Hes. scarry. snext. left_loop. snext.
  eapply (wps_bind _ _ _ (fun _ _ => True)); [destruct (existsb _ _); snexts|]. intros s7 u2 Hs7 Hf7 Hm7 _. scarry. snexts.
Qed.

(** ** [try] *)

Definition safe_in (c : pending -> MS unit) : Prop := forall pend, pend_ok pend -> safe (c pend).
Definition safe_in_opt (c : option (pending -> MS unit)) : Prop := match c with Some c => safe_in c | None => True end.
Lemma wp_catch_var v s : fine s -> wp (match v with
    | [] => ret tt
    | _ => do e_reg <- declare_local v;
        do boxed <- get boxed_slots_;
        if bool_decide (e_reg ∈ boxed) then
          do tmp <- alloc_temp;
          run emit LOAD_EXC tmp 0 0;
          run emit NEW_ARRAY e_reg 1 0;
          run emit ARRAY_PUSH e_reg tmp 0;
          free_temp tmp
        else run emit LOAD_EXC e_reg 0 0; ret tt
    end) s (fun _ _ => True).
Proof. intros Hf. destruct v as [|ch v]; [by nexts|]. next. next. got. destruct (bool_decide _); nexts. Qed.
Lemma try_ok pend ctry v ccatch cfin : pend_ok pend -> safe_in ctry -> safe_in_opt ccatch -> safe_in_opt cfin ->
  safe (compile_try pend ctry v ccatch cfin).
Proof.
  intros Hp Ht Hc Hfin s Hs. pose proof (sf_fine _ Hs). unfold compile_try. cbv zeta.
  set (inner := match cfin with Some _ => _ | None => _ end). set (finally := match cfin with Some _ => _ | None => sret tt end).
  assert (Hi : pend_ok inner).
  { subst inner. destruct cfin as [fin|]; [|done]. apply Forall_app. split; [done|]. apply Forall_singleton. intros k. apply Hfin.
    by apply Forall_take. }
  assert (Hfi : safe finally) by (subst finally; destruct cfin as [fin|]; [by apply Hfin|apply safe_sret]).
  assert (Hti : safe (ctry inner)) by by apply Ht. clearbody inner finally.
  eapply wps_bind; [suse|]. intros s1 tp Hs1 Hf1 Hm1 Hx1. cbv beta in Hx1.
  assert (Htp : patchable (fc s1) tp) by (eexists; split; [exact Hx1|reflexivity]). clear Hx1.
  snext. snext. snext. snext. snext. destruct ccatch as [c|].
  - assert (safe (c inner)) by by apply Hc. snext. eapply wps_bind; [apply wps_up; [done|by apply wp_catch_var]|].
    intros s7 u Hs7 Hf7 Hm7 _. scarry. snexts.
  - snext. snext. snexts.
Qed.

(** ** Output and declarations *)

Lemma wp_emit_literal t s : fine s -> wp (emit_literal t) s (fun _ _ => True).
Proof. intros Hf. unfold emit_literal. nexts. Qed.
#[local] Hint Resolve wp_emit_literal : wp.
Lemma wp_emit_args es : forall first s, fine s -> wp (emit_args first es) s (fun _ _ => True).
Proof.
  induction es as [|e es IH]; intros first s Hf; cbn [emit_args]; [by nexts|].
  eapply (wp_bind _ _ _ (fun _ _ => True)); [destruct first; nexts|]. intros s1 u Hf1 Hm1 _. carry. next. next. next. by apply IH.
Qed.
#[local] Hint Resolve wp_emit_args : wp.
Lemma wp_output es nl s : fine s -> wp (emit_output_args es nl) s (fun _ _ => True).
Proof. intros Hf. unfold emit_output_args. next. destruct nl; nexts. Qed.
Lemma wp_store_const n v s : fine s -> wp (store_const n v) s (fun _ _ => True).
Proof. intros Hf. unfold store_const. nexts. Qed.
#[local] Hint Resolve wp_store_const : wp.
Lemma wp_const_block items : forall iota s, fine s -> wp (compile_const_block iota items) s (fun _ _ => True).
Proof.
  induction items as [|[n v] items IH]; intros iota s Hf; cbn [compile_const_block]; [by nexts|].
  destruct v as [v|]; [|next; by apply IH]. destruct v; try (next; by apply IH); next; next; next; next; by apply IH.
Qed.
Lemma wp_struct_fields arr fields : forall s, fine s -> is_reg s arr -> wp (struct_fields arr fields) s (fun _ _ => True).
Proof.
  induction fields as [|[n d] fields IH]; intros s Hf Ha; cbn [struct_fields]; [by nexts|]. next. next. next.
  eapply (wp_bind _ _ _ (fun _ _ => True)).
  { destruct d as [e|]; [|nexts]. next. destruct (_ =? _); nexts. }
  intros s4 u Hf4 Hm4 _. carry. next. next. by apply IH.
Qed.
#[local] Hint Resolve wp_struct_fields : wp.
Lemma wp_struct_decl n fields s : fine s -> wp (compile_struct_decl n fields) s (fun _ _ => True).
Proof. intros Hf. unfold compile_struct_decl. nexts. Qed.
Lemma wp_assign_expr n o obj ix v s : fine s -> wp (compile_assign_expr n o obj ix v) s (fun _ _ => True).
Proof.
  intros Hf. unfold compile_assign_expr. destruct ix as [ix|]; [|apply wp_name_assign; [done|apply compile_expr_ok]].
  apply wp_element_assign; [done| |apply compile_expr_ok..|by left]. destruct obj; [apply compile_expr_ok|done].
Qed.

(** ** Statements and programs *)

Lemma expr_statement_ok e : safe (sdo r <- up (compile_expr e 255); up (free_temp r)).
Proof. intros s Hs. pose proof (sf_fine _ Hs). snexts. Qed.
Lemma throw_ok e : safe (sdo r <- up (compile_expr e 255); srun up (emit THROW r 0 0); up (free_temp r)).
Proof. intros s Hs. pose proof (sf_fine _ Hs). snexts. Qed.

(** The statements of a block, given those lemmas for each *)
Ltac stmts IH l :=
  generalize l; let go := fresh "go" in fix go 1; intros [|? ?]; [intros; apply safe_sret|]; intros; intros ? ?;
  eapply wps_bind; [by apply IH|]; intros ? ? ? _ _ _; by apply go.
Lemma compile_stmt_ok : forall st pend, pend_ok pend -> safe (compile_stmt st pend).
Proof.
  fix IH 1. intros st pend Hp. destruct st; cbn [compile_stmt]; try (intros s Hs; exact I).
  - destruct expression; try apply expr_statement_ok. apply safe_up. intros. by apply wp_assign_expr.
  - apply safe_up. intros. by apply wp_output.
  - apply safe_up. intros. by apply wp_output.
  - by apply return_ok.
  - apply throw_ok.
  - by apply break_ok.
  - by apply continue_ok.
  - apply block_ok. stmts IH statements.
  - apply if_ok; [apply block_ok; stmts IH then_branch|]. destruct else_branch as [b|]; [|done]. apply block_ok. stmts IH b.
  - apply while_ok, block_ok. stmts IH body.
  - apply for_ok; [destruct init as [x|]; [by apply IH|done]|]. apply block_ok. stmts IH body.
  - apply foreach_ok, block_ok. stmts IH body.
  - apply try_ok; [done| | |].
    + clear pend Hp. intros pend Hp. apply block_ok. stmts IH try_block.
    + destruct catch_block as [l|]; [|done]. clear pend Hp. intros pend Hp. apply block_ok. stmts IH l.
    + destruct finally_block as [l|]; [|done]. clear pend Hp. intros pend Hp. apply block_ok. stmts IH l.
  - apply switch_ok. generalize cases. fix go 1. intros [|c cs]; [constructor|]. constructor; [|apply go].
    destruct c as [vs b]. cbn [snd]. stmts IH b.
  - apply safe_up. intros. by apply wp_struct_decl.
  - apply safe_up. intros. by apply wp_const_block.
Qed.
Lemma compile_all_ok l : safe (compile_all l []).
Proof.
  induction l as [|x l IH]; cbn [compile_all]; [apply safe_sret|]. intros s Hs.
  eapply wps_bind; [apply compile_stmt_ok; [constructor|done]|]. intros s1 u Hs1 _ _ _. by apply IH.
Qed.

Lemma code_ok_intro p l : Forall (fun i => ins_fine (reg_count p) (Z.of_nat (length (constants p))) i = true) l -> code_ok p l = true.
Proof.
  induction 1 as [|i l Hi Hl IH]; [done|]. cbn [code_ok]. rewrite IH, andb_true_r.
  unfold ins_fine in Hi. rewrite !andb_true_iff in Hi. destruct Hi as [[H1 H2] H3].
  assert (Hn : hint_of l = None).
  { destruct Hl as [|j l' Hj _]; [done|]. unfold ins_fine in Hj. apply andb_true_iff in Hj as [_ Hj]. cbn. by destruct (op j). }
  assert (Ht : touched i l = touched i [] /\ consts i l = consts i []) by (unfold touched, consts; rewrite Hn; by destruct (op i)).
  destruct Ht as [Ht Hc]. unfold ins_ok. rewrite Ht, Hc, H1, H2. cbn [andb]. by destruct (op i).
Qed.
Lemma compile_pass_ok f l p : fine f -> compile_pass f l = Ret p -> proto_ok p = true.
Proof.
  intros Hf. unfold compile_pass.
  pose proof (block_ok _ (compile_all_ok l) (MkSC f [])) as H. unfold wps in H.
  destruct (compile_block _ _) as [[u s]| |]; try done. destruct H as (Hs & _ & _); [by constructor|].
  pose proof (wp_emit RETURN_NULL 0 0 0 (fc s) (sf_fine _ Hs) eq_refl) as He. unfold wp in He.
  destruct (emit _ _ _ _ _) as [[at_ g]| |]; try done. destruct He as ([G1 G2 G3] & _ & _). intros [= <-].
  destruct (ok_bounds _ G1) as [_ Hb]. cbn [proto_ok arity reg_count code nested forallb]. rewrite andb_true_r, !andb_true_iff.
  pose proof (ok_bounds _ G1) as [Hb1 _]. split; [split; [done|bool_to_prop; lia]|]. apply code_ok_intro. cbn [reg_count constants].
  eapply Forall_impl; [exact G3|]. intros i. apply ins_fine_mono; [|done]. unfold regs_used. lia.
Qed.

(** C9: The compiler keeps every operand in range: in the code of any program
    it accepts - here one without functions, closures, calls, struct literals
    and interpolated strings - each register that an instruction or a call of
    print reads or writes is one the function has, each constant one of its
    pool. So the virtual machine, which reads and writes registers without a
    test, stays within them ([registers_in_range]). *)
Theorem compiled_code_in_range program p : compile_program program = Ret p -> proto_ok p = true.
Proof.
  unfold compile_program. destruct (new_compiler _ [] None) as [f| |] eqn:E; try done.
  assert (Hf : fine f).
  { injection E as <-. split; cbn; [by apply new_allocator_ok|constructor|constructor]. }
  destruct (compile_pass _ _) as [q| |]; try done. by apply compile_pass_ok.
Qed.

Definition counting : list Statement :=
  [WhileStatement (BinaryExpression (Variable_ (lit "$x")) (lit "<") (NumberLiteral 300))
     [ExpressionStatement (AssignmentExpression (lit "$x") (lit "+=") None None (NumberLiteral 1))];
   ReturnStatement (Some (Variable_ (lit "$x")))].
Definition compiled (l : list Statement) : FunctionProto :=
  match compile_program l with Ret p => p | _ => MkProto [] 0 false 0 [] [] [] [] [] [] end.
Lemma compiled_code_in_range_witness :
  compile_program counting = Ret (compiled counting) /\ length (code (compiled counting)) = 12%nat /\
  proto_ok (compiled counting) = true.
Proof.
  assert (E : compile_program counting = Ret (compiled counting)) by (vm_compute; reflexivity).
  split; [exact E|]. split; [vm_compute; reflexivity|]. exact (compiled_code_in_range _ _ E).
Defined.

End CompilerSafe.
