(* ===== verification/Calls.v ===== *)
(** Functions in the tree-walking interpreter: [Environment], [call_function],
    closures, interpolated strings and structs of cpp/include/look/interpreter.h
    and cpp/src/interpreter.cpp, with the whole of [execute_statement] and
    [evaluate_expression] over shared environments.

    Interp and InterpStmt describe the part without functions over a stack of
    scopes, which is what the simulation of the engines needs; here a scope is
    an object of a store, since a closure keeps the scope it was made in.
    Modules ([use], [a::b]) and the functions of channels, threads and the process
    end in [Outside]: they are not translated. There is no web context, and no
    function was given to [register_builtin]. The locations and the stack of calls of
    error messages are not kept. *)

From S2P Require Import Prelude CNum Lexer Value Ast Parser Interp.
#[local] Open Scope Z_scope.

Module Calls.
Import CNum Value Ast.

(** * State *)

(** An [Environment], [parent_] being [None] for the globals. *)
Record Cell := MkCell { vals : gmap (list ascii) Value; parent : option positive; boundary : bool }.

(** [LookFunction] *)
Record LookFunction := MkFn {
  fn_name : bytes; parameters_ : list bytes; variadic : bool; fn_body : list Statement;
  closure_ : positive; defaults_ : list (option Expression) }.

(** The environments with the next free name, [current_], the arrays, the
    functions, the output, [current_iota_], [call_depth_] and [struct_defs_]. *)
Record CS := MkCS {
  envs : gmap positive Cell; next_env : positive; cur : positive; arrays : heap;
  funs : gmap loc LookFunction; output : bytes; iota_ : Z; call_depth : Z;
  structs : gmap (list ascii) (list (bytes * option Value)) }.

Definition globals : positive := 1.

Definition set_envs x s := MkCS x (next_env s) (cur s) (arrays s) (funs s) (output s) (iota_ s) (call_depth s) (structs s).
Definition set_cur x s := MkCS (envs s) (next_env s) x (arrays s) (funs s) (output s) (iota_ s) (call_depth s) (structs s).
Definition set_arrays x s := MkCS (envs s) (next_env s) (cur s) x (funs s) (output s) (iota_ s) (call_depth s) (structs s).
Definition set_funs x s := MkCS (envs s) (next_env s) (cur s) (arrays s) x (output s) (iota_ s) (call_depth s) (structs s).
Definition set_output x s := MkCS (envs s) (next_env s) (cur s) (arrays s) (funs s) x (iota_ s) (call_depth s) (structs s).
Definition set_iota x s := MkCS (envs s) (next_env s) (cur s) (arrays s) (funs s) (output s) x (call_depth s) (structs s).
Definition set_depth x s := MkCS (envs s) (next_env s) (cur s) (arrays s) (funs s) (output s) (iota_ s) x (structs s).
Definition set_structs x s := MkCS (envs s) (next_env s) (cur s) (arrays s) (funs s) (output s) (iota_ s) (call_depth s) x.

(** * Exceptions

    The errors, the values of [throw], and the exceptions that move control,
    [ExitException] with its code among them. *)
Inductive exc :=
  XErr (msg : bytes) | XThrow (v : Value) | XReturn (v : Value) | XBreak | XContinue | XExit (code : Z).

Inductive ans (A : Type) := Val (x : A) (s : CS) | Raise (e : exc) (s : CS) | Undefined | Outside.
Arguments Val {A}. Arguments Raise {A}. Arguments Undefined {A}. Arguments Outside {A}.

(** [None]: the fuel is used up. *)
Definition C (A : Type) : Type := CS -> option (ans A).
Definition cret {A} (x : A) : C A := fun s => Some (Val x s).
Definition cbind {A B} (m : C A) (k : A -> C B) : C B := fun s =>
  match m s with
  | Some (Val x s) => k x s
  | Some (Raise e s) => Some (Raise e s)
  | Some Undefined => Some Undefined
  | Some Outside => Some Outside
  | None => None
  end.
Definition raise {A} (e : exc) : C A := fun s => Some (Raise e s).
Definition throw_ {A} (m : bytes) : C A := raise (XErr m).
(** [try { m } catch (...) { h }] *)
Definition catch {A} (m : C A) (h : exc -> C A) : C A := fun s =>
  match m s with Some (Raise e s) => h e s | r => r end.
Definition outside {A} : C A := fun _ => Some Outside.
Definition modify (f : CS -> CS) : C unit := fun s => Some (Val tt (f s)).
Definition get_state : C CS := fun s => Some (Val s s).

Notation "'let+' x := m 'in' k" := (cbind m (fun x => k))
  (at level 200, x pattern, m at level 100, k at level 200, right associativity) : look_scope.

(** What works on values and arrays only. *)
Definition lift {A} (m : Interp.E A) : C A := fun s =>
  match m (Interp.MkSt [] (arrays s)) with
  | Interp.EOk x st => Some (Val x (set_arrays (Interp.heap_ st) s))
  | Interp.EErr e st => Some (Raise (XErr e) (set_arrays (Interp.heap_ st) s))
  | Interp.EUndef => Some Undefined
  | Interp.EExternal => Some Outside
  end.

Definition with_heap {A} (f : heap -> res A) : C A := fun s =>
  match f (arrays s) with Ret x => Some (Val x s) | Exn m => Some (Raise (XErr m) s) | Undef => Some Undefined end.

(** * Environments

    The names of the ancestors of a scope are smaller than its own, so that
    its name is fuel enough to walk to the globals. *)

(** [get] *)
Fixpoint find_var (k : nat) (m : gmap positive Cell) (id : positive) (n : bytes) : option Value :=
  match k with
  | O => None
  | S k =>
      match m !! id with
      | None => None
      | Some c =>
          match vals c !! n with
          | Some v => Some v
          | None => match parent c with Some p => find_var k m p n | None => None end
          end
      end
  end.
(** [set]: the scope it writes to; [None] is its exception. *)
Fixpoint owner (k : nat) (m : gmap positive Cell) (id : positive) (n : bytes) : option positive :=
  match k with
  | O => None
  | S k =>
      match m !! id with
      | None => None
      | Some c =>
          match vals c !! n with
          | Some _ => Some id
          | None =>
              if boundary c then None
              else match parent c with Some p => owner k m p n | None => None end
          end
      end
  end.
(** [define] *)
Definition define_in (id : positive) (n : bytes) (v : Value) : CS -> CS := fun s =>
  set_envs (alter (fun c => MkCell (<[n := v]> (vals c)) (parent c) (boundary c)) id (envs s)) s.

Definition get_var (n : bytes) : C Value := fun s =>
  match find_var (Pos.to_nat (cur s)) (envs s) (cur s) n with
  | Some v => Some (Val v s)
  | None => Some (Raise (XErr (lit "Undefined variable: " ++ n)) s)
  end.
(** [try { current_->set } catch (...) { current_->define }] *)
Definition assign (n : bytes) (v : Value) : C unit := modify (fun s =>
  define_in (default (cur s) (owner (Pos.to_nat (cur s)) (envs s) (cur s) n)) n v s).
Definition define (n : bytes) (v : Value) : C unit := modify (fun s => define_in (cur s) n v s).

(** [std::make_shared<Environment>(parent)] *)
Definition new_env (p : positive) (bound : bool) (vars : gmap (list ascii) Value) : C positive := fun s =>
  let id := next_env s in
  Some (Val id (MkCS (<[id := MkCell vars (Some p) bound]> (envs s)) (Pos.succ id) (cur s) (arrays s) (funs s)
    (output s) (iota_ s) (call_depth s) (structs s))).
Definition enter (id : positive) : C unit := modify (set_cur id).

(** [try { m } catch (...) { current_ = prev; throw; } current_ = prev;] *)
Definition restoring {A} (prev : positive) (m : C A) : C A :=
  let+ x := catch m (fun e => let+ _ := enter prev in raise e) in
  let+ _ := enter prev in cret x.

Definition alloc (vec : list Value) : C Value := fun s =>
  let l := fresh (dom (arrays s)) in Some (Val (ARRAY l) (set_arrays (<[l := vec]> (arrays s)) s)).
Definition alloc_fn (f : LookFunction) : C Value := fun s =>
  let l := fresh (dom (funs s)) in Some (Val (FUNCTION (Some l)) (set_funs (<[l := f]> (funs s)) s)).

Definition MAX_CALL_DEPTH : Z := 256.

(** The names of builtins.cpp without a module *)
Definition reserved_names : list string :=
  ["print"; "write"; "count"; "push"; "pop"; "str"; "int"; "float"; "bool"; "string"; "is_null"; "is_int";
   "is_float"; "is_string"; "is_bool"; "is_array"; "send"; "receive"; "close"; "chan_size"; "json_encode";
   "json_decode"; "route"; "channel"; "env"; "config"; "before_route"; "stop"; "strlen"; "abs"; "max"; "min";
   "sqrt"; "strtoupper"; "strtolower"; "join"; "exit"; "die"; "args"]%string.
Definition is_reserved_builtin (n : bytes) : bool := existsb (fun t : string => lit t =s n) reserved_names.
(** The functions of [evaluate_expression] itself that work on more than values
    and arrays: channels, threads, the process and the modules *)
Definition own_names : list string :=
  ["args"; "chan_size"; "channel"; "close"; "config"; "env"; "json"; "parallel"; "receive"; "send"; "stop"]%string.
Definition builtin_names : list string :=
  ["count"; "len"; "push"; "pop"; "join"; "exit"; "die"; "str"; "strval"; "string"; "int"; "intval"; "float";
   "floatval"; "bool"; "boolval"; "strlen"; "abs"; "max"; "min"; "sqrt"; "strtoupper"; "strtolower"]%string.
Definition own_function (n : bytes) : bool := existsb (fun t : string => lit t =s n) own_names.

(** * Evaluation

    [ev] and [ex] are the recursive calls; [n] bounds the turns of a loop. *)

Section Steps.
Context (L : Lib) (depth : nat).
Context (ev : Expression -> C Value) (ex : Statement -> C unit) (n : nat).

Fixpoint stmts (l : list Statement) : C unit :=
  match l with [] => cret tt | s :: l => let+ _ := ex s in stmts l end.
Fixpoint evs (es : list Expression) : C (list Value) :=
  match es with
  | [] => cret []
  | e :: es => let+ v := ev e in let+ vs := evs es in cret (v :: vs)
  end.
Fixpoint ev_pairs (ps : list (Expression * Expression)) : C (list Value) :=
  match ps with
  | [] => cret []
  | (k, v) :: ps => let+ k := ev k in let+ v := ev v in let+ vs := ev_pairs ps in cret (k :: v :: vs)
  end.
Definition str (v : Value) : C bytes :=
  lift (Interp.ebind Interp.eheap (fun h => Interp.eres (to_string L depth h v))).
Definition truthy (v : Value) : C bool := fun s => Some (Val (is_truthy (arrays s) v) s).

(** ** Calls *)

(** The parameters from the [i]-th on, with the arguments that are left; what
    happens without an argument and a default is [few]. *)
Fixpoint bind_params (ps : list bytes) (args : list Value) (defs : list (option Expression)) (few : C unit) : C unit :=
  match ps with
  | [] => cret tt
  | p :: ps =>
      let next (args : list Value) := bind_params ps args (tail defs) few in
      match args with
      | a :: args => let+ _ := define p a in next args
      | [] =>
          match defs with
          | Some d :: _ => let+ v := ev d in let+ _ := define p v in next []
          | _ => few
          end
      end
  end.
Definition z_text (z : nat) : bytes := int_to_string (Z.of_nat z).
Definition wrong_args (f : LookFunction) (how : string) (want : nat) (args : list Value) : C unit :=
  throw_ (lit "Function '" ++ fn_name f ++ lit "' expects " ++ lit how ++ z_text want ++ lit " args, got " ++
          z_text (length args)).

(** The arguments of a call in its scope, which is the current one while the
    defaults are evaluated: only the error for a missing argument puts the
    caller's back, an exception of a default does not. *)
Definition bind_arguments (f : LookFunction) (args : list Value) (fn_env : positive) : C unit := fun s =>
  let saved := cur s in
  let defs := if (length (defaults_ f) =? length (parameters_ f))%nat then defaults_ f else [] in
  (if variadic f then
     let fixed := (length (parameters_ f) - 1)%nat in
     let+ _ := enter fn_env in
     let+ _ := bind_params (take fixed (parameters_ f)) args defs
                 (let+ _ := enter saved in wrong_args f "at least " fixed args) in
     let+ _ := enter saved in
     let+ rest := alloc (drop fixed args) in
     match last (parameters_ f) with Some p => modify (define_in fn_env p rest) | None => cret tt end
   else if (length (parameters_ f) <? length args)%nat then wrong_args f "at most " (length (parameters_ f)) args
   else
     let+ _ := enter fn_env in
     let+ _ := bind_params (parameters_ f) args defs
                 (let+ _ := enter saved in wrong_args f "" (length (parameters_ f)) args) in
     enter saved) s.
(** The body in the scope of the call, one call deeper. *)
Definition run_body (f : LookFunction) (fn_env : positive) : C Value := fun s =>
  let leave : C unit := modify (fun s' => set_cur (cur s) (set_depth (call_depth s' - 1) s')) in
  (let+ _ := modify (fun s => set_cur fn_env (set_depth (call_depth s + 1) s)) in
   let+ r := catch (let+ _ := stmts (fn_body f) in cret NONE)
     (fun e => match e with XReturn v => cret v | _ => let+ _ := leave in raise e end) in
   let+ _ := leave in cret r) s.
Definition call_function (f : LookFunction) (args : list Value) : C Value := fun s =>
  (if MAX_CALL_DEPTH <=? call_depth s then
     throw_ (lit "Stack overflow: max call depth exceeded in '" ++ fn_name f ++ lit "'")
   else
     let+ fn_env := new_env (closure_ f) true ∅ in
     let+ _ := bind_arguments f args fn_env in
     run_body f fn_env) s.

(** ** The functions of [evaluate_expression] itself

    None of them looks at its number of arguments, [count], [push], [pop] and
    [join] apart: an argument that is missing is read past the end of the vector. *)
Definition arg (args : list Expression) (k : nat) : C Value :=
  match args !! k with Some e => ev e | None => fun _ => Some Undefined end.
Definition elements (l : loc) : C (list Value) := fun s => Some (Val (elems (arrays s) l) s).
Definition store (l : loc) (vec : list Value) : C unit := modify (fun s => set_arrays (<[l := vec]> (arrays s)) s).
(** A [size_t] or an [int64_t] as an [int] *)
Definition to_int32 (z : Z) : Z := (z + 2 ^ 31) mod 2 ^ 32 - 2 ^ 31.
Definition look_count (v : Value) : C Value := fun s =>
  let n := match v with
    | ARRAY l =>
        let arr := elems (arrays s) l in
        if Interp.is_assoc arr then Z.of_nat (length arr - 1) / 2 else Z.of_nat (length arr)
    | STRING t => Z.of_nat (length t)
    | _ => 0
    end in Some (Val (INT (to_int32 n)) s).
Fixpoint join (sep : bytes) (first : bool) (vs : list Value) (acc : bytes) : C bytes :=
  match vs with
  | [] => cret acc
  | v :: vs => let+ t := str v in join sep false vs (if first then t else acc ++ sep ++ t)
  end.
Definition count_call (name : bytes) (args : list Expression) : C Value :=
  if negb (length args =? 1)%nat then throw_ (name ++ lit "() takes 1 argument")
  else let+ v := arg args 0 in look_count v.
Definition push_call (args : list Expression) : C Value :=
  if negb (length args =? 2)%nat then throw_ (lit "push() takes 2 arguments")
  else let+ arr := arg args 0 in
    match arr with
    | ARRAY l => let+ v := arg args 1 in let+ vec := elements l in let+ _ := store l (vec ++ [v]) in cret arr
    | _ => throw_ (lit "push() requires array as first argument")
    end.
Definition pop_call (args : list Expression) : C Value :=
  if negb (length args =? 1)%nat then throw_ (lit "pop() takes 1 argument")
  else let+ arr := arg args 0 in
    match arr with
    | ARRAY l =>
        let+ vec := elements l in
        match last vec with
        | None => cret NONE
        | Some v => let+ _ := store l (take (length vec - 1) vec) in cret v
        end
    | _ => throw_ (lit "pop() requires array")
    end.
Definition join_call (args : list Expression) : C Value :=
  if (length args <? 1)%nat then throw_ (lit "join() takes 1-2 arguments")
  else let+ arr := arg args 0 in
    let+ sep := (if (2 <=? length args)%nat then let+ v := arg args 1 in str v else cret []) in
    match arr with
    | ARRAY l => let+ vec := elements l in let+ t := join sep true vec [] in cret (STRING t)
    | _ => throw_ (lit "join() requires array")
    end.
Definition exit_call (args : list Expression) : C Value :=
  match args with
  | [] => raise (XExit 0)
  | _ => let+ a := arg args 0 in
      match a with
      | INT i => raise (XExit (to_int32 i))
      | STRING t => let+ _ := modify (fun s => set_output (output s ++ t) s) in raise (XExit 0)
      | _ => raise (XExit 0)
      end
  end.
Definition bool_of (v : Value) : res Value :=
  to_int v ≫= fun z =>
  Ret (BOOL (negb (z =? 0) ||
    match v with STRING t => negb (t =s []) && negb (t =s lit "false") && negb (t =s lit "0") | _ => false end)).
Definition abs_of (v : Value) : res Value :=
  match v with
  | FLOAT d => Ret (FLOAT (SFabs d))
  | _ => to_int v ≫= fun z => if z =? INT64_MIN then Undef else Ret (INT (Z.abs z))
  end.
Definition res1 (f : Value -> res Value) (args : list Expression) : C Value :=
  let+ v := arg args 0 in with_heap (fun _ => f v).
Definition text1 (f : bytes -> Value) (args : list Expression) : C Value :=
  let+ v := arg args 0 in let+ t := str v in cret (f t).
Definition pick (better : Value -> Value -> res bool) (args : list Expression) : C Value :=
  let+ a := arg args 0 in let+ b := arg args 1 in
  with_heap (fun _ => better a b ≫= fun t : bool => Ret (if t then a else b)).
Definition builtin_call (name : bytes) (args : list Expression) : option (C Value) :=
  let named (ns : list string) := existsb (fun t : string => lit t =s name) ns in
  if named ["count"; "len"]%string then Some (count_call name args)
  else if named ["push"]%string then Some (push_call args)
  else if named ["pop"]%string then Some (pop_call args)
  else if named ["join"]%string then Some (join_call args)
  else if named ["exit"; "die"]%string then Some (exit_call args)
  else if named ["str"; "strval"; "string"]%string then Some (text1 STRING args)
  else if named ["int"; "intval"]%string then Some (res1 (fun v => to_int v ≫= fun z => Ret (INT z)) args)
  else if named ["float"; "floatval"]%string then Some (res1 (fun v => Ret (FLOAT (to_float v))) args)
  else if named ["bool"; "boolval"]%string then Some (res1 bool_of args)
  else if named ["strlen"]%string then Some (text1 (fun t => INT (to_int32 (Z.of_nat (length t)))) args)
  else if named ["abs"]%string then Some (res1 abs_of args)
  else if named ["max"]%string then Some (pick op_ge args)
  else if named ["min"]%string then Some (pick op_le args)
  else if named ["sqrt"]%string then Some (res1 (fun v => Ret (FLOAT (SFsqrt prec emax (to_float v)))) args)
  else if named ["strtoupper"]%string then Some (text1 (fun t => STRING (map toupper t)) args)
  else if named ["strtolower"]%string then Some (text1 (fun t => STRING (map tolower t)) args)
  else None.

Definition fn_of (v : Value) : C (option LookFunction) := fun s =>
  match v with
  | FUNCTION (Some l) => match funs s !! l with Some f => Some (Val (Some f) s) | None => Some Undefined end
  | FUNCTION None => Some Undefined
  | _ => Some (Val None s)
  end.

Definition eval_call (callee : Expression) (args : list Expression) : C Value :=
  let name := match callee with Variable_ n => n | _ => [] end in
  match callee with
  | ScopeResolution _ _ => outside
  | _ =>
      match builtin_call name args with
      | Some m => m
      | None =>
      if own_function name then outside
      else
        let+ c := ev callee in
        match c with
        | FUNCTION _ =>
            let+ f := fn_of c in
            match f with
            | Some f => let+ vs := evs args in call_function f vs
            | None => outside
            end
        | BYTECODE_FN _ => outside
        | NONE => throw_ (lit "Undefined variable: " ++ name)
        | _ => throw_ (lit "'" ++ name ++ lit "' is not callable (function expected)")
        end
      end
  end.

(** ** Closures *)

Definition capture (id : positive) (name : bytes) : C unit :=
  let+ v := catch (get_var name) (fun _ => cret NONE) in modify (define_in id name v).
Fixpoint captures_ (id : positive) (names : list bytes) : C unit :=
  match names with [] => cret tt | x :: names => let+ _ := capture id x in captures_ id names end.
Definition function_value (ps : list bytes) (ds : list (option Expression)) (caps : list bytes) (va : bool)
    (body : list Statement) : C Value :=
  let+ s := get_state in
  let+ env :=
    match caps with
    | [] => cret (cur s)
    | _ => let+ id := new_env globals false ∅ in let+ _ := captures_ id caps in cret id
    end in
  alloc_fn (MkFn (lit "__anonymous__") ps va body env ds).

(** ** Interpolated strings *)

Definition starts_interp (s : bytes) : bool :=
  match s with c :: d :: _ => (c =c "{") && ((d =c "$") || isalpha d || (d =c "_")) | _ => false end.
(** The index of the brace that closes [d] open ones *)
Fixpoint closing_brace (d : nat) (s : bytes) (i : nat) : option nat :=
  match s with
  | [] => None
  | c :: s =>
      if c =c "{" then closing_brace (S d) s (S i)
      else if c =c "}" then match d with S (S _) => closing_brace (pred d) s (S i) | _ => Some i end
      else closing_brace d s (S i)
  end.
(** Does evaluating [e] itself make a function of the syntax [e]? It would
    outlive the program its body belongs to, which [interpolate_string] drops. *)
Fixpoint makes_function (e : Expression) : bool :=
  match e with
  | FunctionExpression _ _ _ _ _ => true
  | ArrayLiteral es => existsb makes_function es
  | AssocArrayLiteral ps => existsb (fun p => makes_function p.1 || makes_function p.2) ps
  | IndexExpression a b | BinaryExpression a _ b => makes_function a || makes_function b
  | UnaryExpression _ a _ | MemberAccessExpression a _ => makes_function a
  | AssignmentExpression _ _ o i v =>
      match o with Some o => makes_function o | None => false end
      || match i with Some i => makes_function i | None => false end || makes_function v
  | CallExpression c args => makes_function c || existsb makes_function args
  | TernaryExpression a b c => makes_function a || makes_function b || makes_function c
  | StructLiteralExpression _ fs => existsb (fun f => makes_function f.2) fs
  | _ => false
  end.
(** The value of the first statement, as text; nothing when there is none or
    it is not an expression. *)
Definition eval_source (src : bytes) : C bytes :=
  match Lexer.scan_tokens (src ++ lit ";") with
  | Some (Ok toks) =>
      match Parser.parse toks with
      | Parser.POk (ExpressionStatement e :: _) _ =>
          if makes_function e then outside else let+ v := ev e in str v
      | Parser.POk _ _ => cret []
      | Parser.PErr m _ _ => throw_ m
      | Parser.PFuel => fun _ => None
      end
  | Some (Throw m) => throw_ (lit m)
  | None => fun _ => None
  end.
Fixpoint interpolate (k : nat) (raw result : bytes) : C bytes :=
  match k, raw with
  | S k, c :: r =>
      if starts_interp raw then
        match closing_brace 1 r 0 with
        | None => interpolate k r (result ++ [c])
        | Some j =>
            let+ t := catch (eval_source (take j r)) (fun _ => cret (c :: take (S j) r)) in
            interpolate k (drop (S j) r) (result ++ t)
        end
      else interpolate k r (result ++ [c])
  | _, _ => cret result
  end.
Definition interpolate_string (raw : bytes) : C bytes := interpolate (length raw) raw [].

(** ** Structs *)

Fixpoint field_expr (f : bytes) (fs : list (bytes * Expression)) : option Expression :=
  match fs with [] => None | (k, e) :: fs => if k =s f then Some e else field_expr f fs end.
Fixpoint struct_fields (defs : list (bytes * option Value)) (fs : list (bytes * Expression)) : C (list Value) :=
  match defs with
  | [] => cret []
  | (name, d) :: defs =>
      let+ v := match field_expr name fs with
        | Some e => ev e
        | None => match d with Some (ARRAY _) => outside | Some v => cret v | None => cret NONE end
        end in
      let+ vs := struct_fields defs fs in
      cret (STRING name :: v :: vs)
  end.
Definition struct_literal (name : bytes) (fs : list (bytes * Expression)) : C Value :=
  let+ s := get_state in
  match structs s !! name with
  | None => throw_ (lit "Unknown struct '" ++ name ++ lit "'")
  | Some defs =>
      match List.find (fun kv => negb (existsb (fun d => d.1 =s kv.1) defs)) fs with
      | Some kv => throw_ (lit "Unknown field '" ++ kv.1 ++ lit "' in struct '" ++ name ++ lit "'")
      | None =>
          let+ vs := struct_fields defs fs in
          alloc (STRING Interp.ASSOC :: STRING (lit "__struct__") :: STRING name :: vs)
      end
  end.
Fixpoint struct_defs (fs : list (bytes * option Expression)) : C (list (bytes * option Value)) :=
  match fs with
  | [] => cret []
  | (name, d) :: fs =>
      let+ d := match d with Some e => let+ v := ev e in cret (Some v) | None => cret None end in
      let+ ds := struct_defs fs in cret ((name, d) :: ds)
  end.

(** ** [evaluate_expression] *)

Definition eval_step (e : Expression) : C Value :=
  match e with
  | IotaExpression => let+ s := get_state in cret (INT (iota_ s))
  | MemberAccessExpression o field => let+ obj := ev o in lift (Interp.member_value L depth obj field)
  | StructLiteralExpression name fs => struct_literal name fs
  | TernaryExpression c t f =>
      let+ v := ev c in let+ b := truthy v in if b : bool then ev t else ev f
  | NumberLiteral v => cret (INT v)
  | FloatLiteral d => cret (FLOAT d)
  | BooleanLiteral t => cret (BOOL t)
  | NullLiteral => cret NONE
  | StringLiteral v raw => if raw then cret (STRING v) else let+ t := interpolate_string v in cret (STRING t)
  | FunctionExpression ps ds caps va body => function_value ps ds caps va body
  | ArrayLiteral els => let+ vs := evs els in alloc vs
  | AssocArrayLiteral ps => let+ vs := ev_pairs ps in alloc (STRING Interp.ASSOC :: vs)
  | Variable_ x => get_var x
  | IndexExpression o i =>
      let+ obj := ev o in let+ idx := ev i in lift (Interp.index_value L depth obj idx)
  | AssignmentExpression x o obj (Some ix) v =>
      let+ val := ev v in
      let+ target := match obj with Some ob => ev ob | None => get_var x end in
      match target with
      | STRING _ => throw_ (lit "Strings are immutable; cannot assign to a string index")
      | ARRAY l => let+ idx := ev ix in lift (Interp.element_assign L depth l idx o val)
      | _ => throw_ ((match obj with Some _ => lit "assignment target" | None => x end) ++ lit " is not an array")
      end
  | AssignmentExpression x o _ None v =>
      let+ val := ev v in
      let+ val := (if o =s lit "=" then cret val
                   else let+ c := get_var x in with_heap (fun h => Interp.compound_value L depth o val h c)) in
      let+ _ := assign x val in
      cret val
  | UnaryExpression o x prefix =>
      if (o =s lit "++") || (o =s lit "--") then
        match x with
        | Variable_ x =>
            let+ c := get_var x in
            let+ next := with_heap (fun _ => if o =s lit "++" then op_add c (INT 1) else op_sub c (INT 1)) in
            let+ _ := assign x next in
            cret (if prefix then next else c)
        | _ => throw_ (lit "++/-- requires a variable")
        end
      else let+ v := ev x in with_heap (fun h => Interp.unary_value h o v)
  | BinaryExpression l o r =>
      if o =s lit "&&" then
        let+ v := ev l in let+ b := truthy v in
        if b : bool then let+ w := ev r in let+ b := truthy w in cret (BOOL b) else cret (BOOL false)
      else if o =s lit "||" then
        let+ v := ev l in let+ b := truthy v in
        if b : bool then cret (BOOL true) else let+ w := ev r in let+ b := truthy w in cret (BOOL b)
      else if o =s lit "??" then
        let+ v := ev l in match v with NONE => ev r | _ => cret v end
      else let+ v := ev l in let+ w := ev r in with_heap (fun h => Interp.binary_value L depth h o v w)
  | CallExpression callee args => eval_call callee args
  | ScopeResolution _ _ => outside
  end.

(** ** [execute_statement] *)

(** A scope that is closed however [m] ends, and [execute_block] *)
Definition scoped (vars : gmap (list ascii) Value) (m : C unit) : C unit := fun s =>
  (let+ id := new_env (cur s) false vars in let+ _ := enter id in restoring (cur s) m) s.
Definition execute_block (l : list Statement) : C unit := scoped ∅ (stmts l).

Fixpoint build_output (first : bool) (es : list Expression) (acc : bytes) : C bytes :=
  match es with
  | [] => cret acc
  | e :: es =>
      let+ v := ev e in let+ t := str v in
      build_output false es ((if first then acc else acc ++ [SP]) ++ t)
  end.
Definition emit (t : bytes) : C unit := modify (fun s => set_output (output s ++ t) s).

(** [body], then [again], unless it ends with a break. *)
Definition turn (body again : C unit) : C unit :=
  let+ go := catch (let+ _ := body in cret true)
    (fun e => match e with XBreak => cret false | XContinue => cret true | _ => raise e end) in
  if go : bool then again else cret tt.
Fixpoint while_loop (k : nat) (c : Expression) (body : C unit) : C unit :=
  match k with
  | O => fun _ => None
  | S k => let+ v := ev c in let+ b := truthy v in if b : bool then turn body (while_loop k c body) else cret tt
  end.
Fixpoint for_loop (k : nat) (c post : option Expression) (body : C unit) : C unit :=
  match k with
  | O => fun _ => None
  | S k =>
      let again := match post with
        | Some p => let+ _ := ev p in for_loop k c post body | None => for_loop k c post body end in
      match c with
      | Some c => let+ v := ev c in let+ b := truthy v in if b : bool then turn body again else cret tt
      | None => turn body again
      end
  end.
(** The scope of a [for] is only left by its normal end. *)
Definition for_scope (m : C unit) : C unit := fun s =>
  (let+ id := new_env (cur s) false ∅ in let+ _ := enter id in let+ _ := m in enter (cur s)) s.

Definition key_binding (key_var : bytes) (k : Value) : gmap (list ascii) Value :=
  match key_var with [] => ∅ | _ => {[ key_var := k ]} end.
Fixpoint foreach_loop (k : nat) (l : loc) (idx : nat) (key_var value_var : bytes) (body : C unit) : C unit := fun s =>
  match k with
  | O => None
  | S k =>
      match elems (arrays s) l !! idx with
      | None => cret tt s
      | Some v =>
          turn (scoped (<[value_var := v]> (key_binding key_var (INT (Z.of_nat idx)))) body)
            (foreach_loop k l (S idx) key_var value_var body) s
      end
  end.
Fixpoint foreach_pairs (k : nat) (l : loc) (idx : nat) (key_var value_var : bytes) (body : C unit) : C unit := fun s =>
  match k with
  | O => None
  | S k =>
      match elems (arrays s) l !! idx, elems (arrays s) l !! S idx with
      | Some key, Some v =>
          turn (scoped (<[value_var := v]> (key_binding key_var key)) body)
            (foreach_pairs k l (S (S idx)) key_var value_var body) s
      | _, _ => cret tt s
      end
  end.
Definition foreach (it : Value) (key_var value_var : bytes) (body : C unit) : C unit := fun s =>
  match it with
  | ARRAY l =>
      if Interp.is_assoc (elems (arrays s) l) then foreach_pairs n l 1 key_var value_var body s
      else foreach_loop n l 0 key_var value_var body s
  | _ => throw_ (lit "foreach requires an array") s
  end.

Fixpoint case_matches (subject : Value) (vs : list Expression) : C bool :=
  match vs with
  | [] => cret false
  | e :: vs => let+ v := ev e in if op_eq subject v then cret true else case_matches subject vs
  end.
Fixpoint find_case (subject : Value) (cases : list (list Expression * list Statement)) (dflt : option (list Statement))
    : C (option (list Statement)) :=
  match cases with
  | [] => cret dflt
  | ([], body) :: cases => find_case subject cases (Some body)
  | (vs, body) :: cases =>
      let+ b := case_matches subject vs in if b : bool then cret (Some body) else find_case subject cases dflt
  end.
Definition run_case (body : list Statement) : C unit :=
  catch (scoped ∅ (stmts body)) (fun e => match e with XBreak => cret tt | _ => raise e end).

Definition opt_block (b : option (list Statement)) : C unit :=
  match b with Some l => execute_block l | None => cret tt end.
Definition try_statement (body : list Statement) (catch_var : bytes) (catch_block fin : option (list Statement)) : C unit :=
  let finally := opt_block fin in
  let rethrow (e : exc) : C unit := let+ _ := finally in raise e in
  let run_catch (c : list Statement) : C unit :=
    catch (execute_block c)
      (fun e => match e with XReturn _ | XBreak | XContinue | XExit _ => rethrow e | _ => raise e end) in
  let caught (v : Value) (e : exc) : C unit :=
    match catch_block with
    | Some c => let+ _ := match catch_var with [] => cret tt | _ => define catch_var v end in run_catch c
    | None => rethrow e
    end in
  let+ _ := catch (execute_block body)
    (fun e => match e with
      | XReturn _ | XBreak | XContinue | XExit _ => rethrow e
      | XErr m => caught (STRING m) e
      | XThrow v => caught v e
      end) in
  finally.

Fixpoint const_block (i : Z) (last_expr : option Expression) (items : list (bytes * option Expression)) : C unit :=
  match items with
  | [] => modify (set_iota 0)
  | (x, v) :: items =>
      let last_expr := match v with Some e => Some e | None => last_expr end in
      let+ _ := modify (set_iota i) in
      let+ val := match last_expr with Some e => ev e | None => cret (INT i) end in
      let+ _ := assign x val in
      const_block (i + 1) last_expr items
  end.

Definition exec_step (s : Statement) : C unit :=
  match s with
  | PrintStatement es => let+ t := build_output true es [] in emit (t ++ [LF])
  | WriteStatement es => let+ t := build_output true es [] in emit t
  | ExpressionStatement e => let+ _ := ev e in cret tt
  | BlockStatement l => execute_block l
  | IfStatement c t e =>
      let+ v := ev c in let+ b := truthy v in
      if b : bool then execute_block t else opt_block e
  | WhileStatement c b => while_loop n c (execute_block b)
  | ForStatement i c p b =>
      for_scope (let+ _ := match i with Some i => ex i | None => cret tt end in for_loop n c p (execute_block b))
  | ForeachStatement it k v b => let+ arr := ev it in foreach arr k v (stmts b)
  | TryCatchStatement t v c f => try_statement t v c f
  | SwitchStatement e cases =>
      let+ subject := ev e in
      let+ b := find_case subject cases None in
      match b with Some b => run_case b | None => cret tt end
  | BreakStatement => raise XBreak
  | ContinueStatement => raise XContinue
  | FunctionDeclaration name ps ds va body =>
      if is_reserved_builtin name then throw_ (lit "'" ++ name ++ lit "' is a builtin — cannot be redefined")
      else let+ s := get_state in
           let+ f := alloc_fn (MkFn name ps va body (cur s) ds) in define name f
  | StructDeclaration name fs =>
      let+ ds := struct_defs fs in modify (fun s => set_structs (<[name := ds]> (structs s)) s)
  | ConstBlock items => const_block 0 None items
  | ReturnStatement e =>
      let+ v := match e with Some e => ev e | None => cret NONE end in raise (XReturn v)
  | ThrowStatement e => let+ v := ev e in raise (XThrow v)
  | UseStatement _ _ | UseFileStatement _ => outside
  end.
End Steps.

(** ** The interpreter: the fuel bounds the nesting of calls and of the tree,
    and the turns of each loop. *)

Fixpoint evaluate (L : Lib) (depth : nat) (n : nat) (e : Expression) : C Value :=
  match n with
  | O => fun _ => None
  | S n => eval_step L depth (evaluate L depth n) (execute L depth n) e
  end
with execute (L : Lib) (depth : nat) (n : nat) (s : Statement) : C unit :=
  match n with
  | O => fun _ => None
  | S n => exec_step L depth (evaluate L depth n) (execute L depth n) n s
  end.

Definition start : CS := MkCS {[ globals := MkCell ∅ None false ]} 2 globals ∅ ∅ [] 0 0 ∅.
Definition interpret (L : Lib) (depth n : nat) (p : Program) : C unit := stmts (execute L depth n) p.

(** * At work *)

Definition some_lib : Lib := MkLib (fun _ => []) (fun d _ => d).
(** A program from its text, a backquote being a double quote *)
Definition program (src : string) : Program :=
  match Lexer.scan_tokens (map (fun c => if c =c "`" then DQUOTE else c) (lit src)) with
  | Some (Ok ts) => match Parser.parse ts with Parser.POk p _ => p | _ => [] end
  | _ => []
  end.
(** What it prints, and the exception it ends with *)
Definition printed (n : nat) (src : string) : option (bytes * option exc) :=
  match interpret some_lib 10 n (program src) start with
  | Some (Val _ s) => Some (output s, None)
  | Some (Raise e s) => Some (output s, Some e)
  | _ => None
  end.

Example arguments_and_defaults :
  printed 100 "function f($a, $b = $a + 1) { return $a * $b; } print(f(3)); print(f(3, 10)); f();"
  = Some (lit "12" ++ [LF] ++ lit "30" ++ [LF], Some (XErr (lit "Function 'f' expects 2 args, got 0"))).
Proof. vm_compute. reflexivity. Qed.
Example capture_is_by_value :
  printed 100 "$x = 1; $f = function() use ($x) { $x = $x + 1; return $x; }; print($f(), $f(), $x);"
  = Some (lit "2 2 1" ++ [LF], None).
Proof. vm_compute. reflexivity. Qed.
Example recursion_is_limited :
  printed 2000 "function r($n) { return r($n + 1); } try { r(0); } catch ($e) { print($e); }"
  = Some (lit "Stack overflow: max call depth exceeded in 'r'" ++ [LF], None).
Proof. vm_compute. reflexivity. Qed.
(** A [break] in a function ends the loop of the caller. *)
Example break_leaves_the_function :
  printed 100 "function b() { break; } while (true) { b(); } print('after');" = Some (lit "after" ++ [LF], None).
Proof. vm_compute. reflexivity. Qed.
(** A default that fails leaves the scope of the call as the current one, and
    the interpolation hides the failure: the assignment after it is lost. *)
Example failed_default_keeps_its_scope :
  printed 100 "$x = 1; function g($a = [1][5]) { return 7; } { write(`{g()} `); $x = 2; } print($x);"
  = Some (lit "{g()} 1" ++ [LF], None).
Proof. vm_compute. reflexivity. Qed.
(** Names that may be declared, but whose calls never reach the declaration *)
Example declared_and_never_called :
  forallb (fun n : string => negb (is_reserved_builtin (lit n)))
    ["len"; "json"; "parallel"; "boolval"; "floatval"; "intval"; "strval"]%string = true /\
  printed 100 "function len($x) { return 7; } print(len('ab'));" = Some (lit "2" ++ [LF], None).
Proof. vm_compute. done. Qed.
(** A missing argument is read past the end. *)
Example missing_argument : interpret some_lib 10 100 (program "str();") start = Some Undefined.
Proof. vm_compute. reflexivity. Qed.
(** [pop] and [join] see the mark and the keys of an associative array. *)
Example pop_of_a_map :
  printed 100 "$m = ['a' => 1]; pop($m); print(count($m), join($m, ',')); pop($m); pop($m); print(count($m));"
  = Some (lit "0 __assoc__,a" ++ [LF] ++ lit "0" ++ [LF], None).
Proof. vm_compute. reflexivity. Qed.
(** An interpolation keeps [exit] from ending the program. *)
Example exit_in_a_text : printed 100 "print(`{exit()} still here`);" = Some (lit "{exit()} still here" ++ [LF], None).
Proof. vm_compute. reflexivity. Qed.
Example reserved_but_unknown :
  printed 100 "is_null(1);" = Some ([], Some (XErr (lit "Undefined variable: is_null"))).
Proof. vm_compute. reflexivity. Qed.

End Calls.
