(* ===== verification/CallsFacts.v ===== *)
(** What the functions of the tree-walking interpreter can change: theorems on Calls.

    A logic of what is left alone (section Frame), the order of less fuel
    (section More), and recursion through a default. *)

From S2P Require Import Prelude CNum Value Ast Interp Calls.
#[local] Open Scope Z_scope.

Module CallsFacts.
Import CNum Value Ast Calls.

(** * What a walk reaches

    The scopes that [set] visits from [id]: up to the globals, or to the first
    scope of a call. *)
Inductive writable (m : gmap positive Cell) : positive -> positive -> Prop :=
| writable_here id : writable m id id
| writable_up id c p j : m !! id = Some c -> boundary c = false -> parent c = Some p -> writable m p j -> writable m id j.

(** A state of the interpreter: every scope below [next_env] is there, its
    parent is older, and so is the scope of every function. *)
Record well_formed (s : CS) : Prop := {
  wf_parent : forall id c p, envs s !! id = Some c -> parent c = Some p -> (p < id)%positive;
  wf_closure : forall l f, funs s !! l = Some f -> (closure_ f < next_env s)%positive;
  wf_dom : forall id, (id < next_env s)%positive -> is_Some (envs s !! id);
  wf_new : forall id, (next_env s <= id)%positive -> envs s !! id = None;
  wf_globals : (globals < next_env s)%positive }.

Create HintDb frame discriminated.
Create HintDb more discriminated.

Lemma owner_writable k m id n j : owner k m id n = Some j -> writable m id j.
Proof.
  induction k as [|k IH] in id |- *; cbn; [done|].
  destruct (m !! id) as [c|] eqn:Hc; [|done].
  destruct (vals c !! n); [intros [= ->]; constructor|].
  destruct (boundary c) eqn:Hb; [done|].
  destruct (parent c) eqn:Hp; [|done].
  intros H. eapply writable_up; eauto.
Qed.

(** The fuel of a walk is enough: more gives the same. *)
Lemma find_var_fuel m n :
  (forall id c p, m !! id = Some c -> parent c = Some p -> (p < id)%positive) ->
  forall k k' id, (Pos.to_nat id <= k)%nat -> (Pos.to_nat id <= k')%nat -> find_var k m id n = find_var k' m id n.
Proof.
  intros Hm. induction k as [|k IH]; intros k' id Hk Hk'; [lia|].
  destruct k' as [|k']; [lia|]. cbn.
  destruct (m !! id) as [c|] eqn:Hc; [|done].
  destruct (vals c !! n); [done|].
  destruct (parent c) as [p|] eqn:Hp; [|done].
  specialize (Hm _ _ _ Hc Hp). apply IH; lia.
Qed.
Lemma owner_fuel m n :
  (forall id c p, m !! id = Some c -> parent c = Some p -> (p < id)%positive) ->
  forall k k' id, (Pos.to_nat id <= k)%nat -> (Pos.to_nat id <= k')%nat -> owner k m id n = owner k' m id n.
Proof.
  intros Hm. induction k as [|k IH]; intros k' id Hk Hk'; [lia|].
  destruct k' as [|k']; [lia|]. cbn.
  destruct (m !! id) as [c|] eqn:Hc; [|done].
  destruct (vals c !! n), (boundary c); try done.
  destruct (parent c) as [p|] eqn:Hp; [|done].
  specialize (Hm _ _ _ Hc Hp). apply IH; lia.
Qed.

(** * A logic of what is left alone

    [K] is a set of scopes to protect. [ext s s']: whatever was done, the
    scopes keep their parents, those of [K] their variables, and the depth of
    calls is the same. *)

Section Frame.
Context (K : positive -> Prop).

Definition link (c : Cell) : option positive * bool := (parent c, boundary c).

Record ext (s s' : CS) : Prop := {
  ext_wf : well_formed s';
  ext_next : (next_env s <= next_env s')%positive;
  ext_link : forall id, (id < next_env s)%positive -> link <$> envs s' !! id = link <$> envs s !! id;
  ext_kept : forall id, (id < next_env s)%positive -> K id -> envs s' !! id = envs s !! id;
  ext_depth : call_depth s' = call_depth s }.

(** Nothing protected can be written from [id], and [K] has no scope that is
    still to come. *)
Definition free (id : positive) (s : CS) : Prop :=
  (id < next_env s)%positive /\ (forall j, K j -> (j < next_env s)%positive) /\
  forall j, writable (envs s) id j -> ~ K j.
Definition kept (s s' : CS) : Prop := ext s s' /\ free (cur s') s'.

Definition ends {A} (Q : CS -> Prop) (r : option (ans A)) : Prop :=
  match r with Some (Val _ s) | Some (Raise _ s) => Q s | _ => True end.
(** [m], started where nothing protected can be written, ends like that. *)
Definition keeps {A} (m : C A) : Prop := forall s, well_formed s -> free (cur s) s -> ends (kept s) (m s).

Lemma ext_refl s : well_formed s -> ext s s.
Proof. by constructor. Qed.
Lemma ext_trans s1 s2 s3 : ext s1 s2 -> ext s2 s3 -> ext s1 s3.
Proof.
  intros [] []. constructor; [done|lia| | |congruence].
  - intros id ?. etrans; [apply ext_link1; lia|auto].
  - intros id ? ?. etrans; [apply ext_kept1; [lia|done]|auto].
Qed.
Lemma ext_writable s s' id j :
  well_formed s -> ext s s' -> (id < next_env s)%positive -> writable (envs s') id j -> writable (envs s) id j.
Proof.
  intros W E Hid H. induction H as [|id c p j Hc Hb Hp _ IH]; [constructor|].
  pose proof (ext_link _ _ E id Hid) as Hl. rewrite Hc in Hl.
  destruct (envs s !! id) as [c'|] eqn:Hc'; [|done]. cbn in Hl. injection Hl as Hp' Hb'.
  assert (p < id)%positive by (eapply wf_parent; [apply (ext_wf _ _ E)|exact Hc|done]).
  eapply writable_up; [done|congruence|rewrite <- Hp'; done|]. apply IH. lia.
Qed.
Lemma ext_free s s' id : well_formed s -> ext s s' -> free id s -> free id s'.
Proof.
  intros W E (H1 & HK & H2). pose proof (ext_next _ _ E).
  split; [lia|]. split; [intros j Hj; specialize (HK j Hj); lia|].
  intros j Hj. apply H2. eapply ext_writable; eauto.
Qed.

Lemma keeps_ret {A} (x : A) : keeps (cret x).
Proof. intros s W F. split; [by apply ext_refl|done]. Qed.
Lemma keeps_raise {A} e : keeps (@raise A e).
Proof. intros s W F. split; [by apply ext_refl|done]. Qed.
Lemma keeps_throw {A} m : keeps (@throw_ A m).
Proof. apply keeps_raise. Qed.
Lemma keeps_outside {A} : keeps (@outside A).
Proof. done. Qed.
Lemma keeps_none {A} : keeps (fun _ => None : option (ans A)).
Proof. done. Qed.
Lemma ends_mono {A} (Q Q' : CS -> Prop) (r : option (ans A)) : (forall s, Q s -> Q' s) -> ends Q r -> ends Q' r.
Proof. intros H. destruct r as [[]|]; cbn; auto. Qed.
Lemma kept_trans s1 s2 s3 : ext s1 s2 -> kept s2 s3 -> kept s1 s3.
Proof. intros H [E F]. split; [by eapply ext_trans|done]. Qed.
Lemma keeps_bind {A B} (m : C A) (k : A -> C B) : keeps m -> (forall x, keeps (k x)) -> keeps (cbind m k).
Proof.
  intros Hm Hk s W F. unfold cbind. specialize (Hm s W F). destruct (m s) as [[x s1|e s1| |]|]; try done.
  destruct Hm as [E1 F1]. eapply ends_mono; [intros s'; by apply kept_trans|].
  by apply Hk; [apply (ext_wf _ _ E1)|].
Qed.
Lemma keeps_catch {A} (m : C A) h : keeps m -> (forall e, keeps (h e)) -> keeps (catch m h).
Proof.
  intros Hm Hh s W F. unfold catch. specialize (Hm s W F). destruct (m s) as [[x s1|e s1| |]|]; try done.
  destruct Hm as [E1 F1]. eapply ends_mono; [intros s'; by apply kept_trans|].
  by apply Hh; [apply (ext_wf _ _ E1)|].
Qed.
Lemma keeps_state {A} (k : CS -> C A) : (forall s, keeps (k s)) -> keeps (cbind get_state k).
Proof. intros H s. apply H. Qed.

(** Steps that touch neither the scopes nor the functions. *)
Definition same_scopes (s s' : CS) : Prop :=
  envs s' = envs s /\ next_env s' = next_env s /\ cur s' = cur s /\ funs s' = funs s /\ call_depth s' = call_depth s.
Lemma same_scopes_kept s s' : well_formed s -> free (cur s) s -> same_scopes s s' -> kept s s'.
Proof.
  intros W F (E1 & E2 & E3 & E4 & E5).
  assert (well_formed s') by (destruct W; constructor; rewrite ?E1, ?E2, ?E4; auto).
  split.
  - constructor; rewrite ?E1, ?E2; auto. lia.
  - unfold free. rewrite E1, E2, E3. done.
Qed.
Lemma keeps_modify f : (forall s, same_scopes s (f s)) -> keeps (modify f).
Proof. intros H s W F. by apply same_scopes_kept. Qed.
Lemma keeps_lift {A} (m : Interp.E A) : keeps (lift m).
Proof. intros s W F. unfold lift. destruct (m _); try done; by apply same_scopes_kept. Qed.
Lemma keeps_with_heap {A} (f : heap -> res A) : keeps (with_heap f).
Proof. intros s W F. unfold with_heap. destruct (f _); try done; by apply same_scopes_kept. Qed.
Lemma keeps_alloc vec : keeps (alloc vec).
Proof. intros s W F. by apply same_scopes_kept. Qed.
Lemma keeps_truthy v : keeps (truthy v).
Proof. intros s W F. by apply same_scopes_kept. Qed.
Lemma keeps_get_var n : keeps (get_var n).
Proof. intros s W F. unfold get_var. destruct (find_var _ _ _ _); by apply same_scopes_kept. Qed.
Lemma keeps_fn_of v : keeps (fn_of v).
Proof.
  intros s W F. unfold fn_of. repeat case_match; try done; by apply same_scopes_kept.
Qed.

(** ** Writing a variable *)

Lemma well_formed_define s id n v : well_formed s -> well_formed (define_in id n v s).
Proof.
  intros W. constructor; cbn; [|apply W| | |apply W].
  - intros id' c p. rewrite lookup_alter_Some.
    intros [(-> & c' & H & ->)|[_ H]] Hp; by eapply (wf_parent s W).
  - intros id' H. destruct (decide (id = id')) as [->|].
    + rewrite lookup_alter_eq, fmap_is_Some. by apply W.
    + rewrite lookup_alter_ne by done. by apply W.
  - intros id' H. destruct (decide (id = id')) as [->|].
    + by rewrite lookup_alter_eq, (wf_new s W) by done.
    + rewrite lookup_alter_ne by done. by apply W.
Qed.
Lemma ext_define s id n v : well_formed s -> ~ K id -> ext s (define_in id n v s).
Proof.
  intros W HK. constructor; cbn; [by apply well_formed_define|lia| | |done].
  - intros id' H. destruct (decide (id = id')) as [->|].
    + rewrite lookup_alter_eq. by destruct (envs s !! id').
    + by rewrite lookup_alter_ne.
  - intros id' H Hk. rewrite lookup_alter_ne; [done|congruence].
Qed.
Lemma kept_define s id n v : well_formed s -> free (cur s) s -> ~ K id -> kept s (define_in id n v s).
Proof. intros W F HK. assert (ext s (define_in id n v s)) by by apply ext_define. split; [done|]. by eapply ext_free. Qed.
Lemma free_self id s : free id s -> ~ K id.
Proof. intros (_ & _ & H). apply H. constructor. Qed.
Lemma keeps_define n v : keeps (define n v).
Proof. intros s W F. apply kept_define; [done..|]. by eapply free_self. Qed.
Lemma keeps_assign n v : keeps (assign n v).
Proof.
  intros s W F. apply kept_define; [done..|]. destruct (owner _ _ _ _) as [j|] eqn:Ho; cbn; [|by eapply free_self].
  destruct F as (_ & _ & F). apply F. by eapply owner_writable.
Qed.

(** ** New scopes *)

Definition with_scope (p : positive) (b : bool) vars (s : CS) : CS :=
  MkCS (<[next_env s := MkCell vars (Some p) b]> (envs s)) (Pos.succ (next_env s)) (cur s) (arrays s) (funs s)
    (output s) (iota_ s) (call_depth s) (structs s).
Lemma ext_scope p b vars s : well_formed s -> (p < next_env s)%positive -> ext s (with_scope p b vars s).
Proof.
  intros W Hp. assert (Hne : forall id, (id < next_env s)%positive -> next_env s <> id) by lia.
  constructor; cbn; [constructor; cbn|lia| | |done].
  - intros id c q. destruct (decide (next_env s = id)) as [<-|].
    + rewrite lookup_insert_eq. intros [= <-] [= <-]. done.
    + rewrite lookup_insert_ne by done. by apply W.
  - intros l f H. pose proof (wf_closure s W l f H). lia.
  - intros id H. destruct (decide (next_env s = id)) as [<-|]; [rewrite lookup_insert_eq; eauto|].
    rewrite lookup_insert_ne by done. apply W. lia.
  - intros id H. rewrite lookup_insert_ne by lia. apply W. lia.
  - pose proof (wf_globals s W). lia.
  - intros id H. by rewrite lookup_insert_ne by auto.
  - intros id H _. by rewrite lookup_insert_ne by auto.
Qed.
(** It can be written from itself alone when it is the scope of a call, and
    otherwise from what its parent can. *)
Lemma free_scope p (b : bool) vars s :
  well_formed s -> (p < next_env s)%positive -> (forall j, K j -> (j < next_env s)%positive) -> (b = false -> free p s) ->
  free (next_env s) (with_scope p b vars s).
Proof.
  intros W Hp HK Hf. split; [cbn; lia|]. split; [intros j Hj; specialize (HK j Hj); cbn; lia|].
  intros j Hj HKj. specialize (HK j HKj). inversion Hj as [|? c q ? Hc Hb Hq Hw]; subst; [lia|].
  cbn in Hc. rewrite lookup_insert_eq in Hc. injection Hc as <-. cbn in Hb, Hq. subst b. injection Hq as <-.
  destruct (Hf eq_refl) as (_ & _ & F). apply (F j); [|done].
  eapply ext_writable; [done|by apply (ext_scope p false vars s)|done|done].
Qed.
Lemma free_cur s id : free id s -> free (cur (set_cur id s)) (set_cur id s).
Proof. done. Qed.
Lemma ext_cur s s' id : ext s s' -> ext s (set_cur id s').
Proof. intros [[] ? ? ? ?]. by constructor. Qed.
Lemma kept_back s s' : well_formed s -> free (cur s) s -> ext s s' -> kept s (set_cur (cur s) s').
Proof. intros W F E. split; [by apply ext_cur|]. exact (ext_free s s' _ W E F). Qed.

Lemma keeps_scoped vars m : keeps m -> keeps (scoped vars m).
Proof.
  intros Hm s W F. unfold scoped. set (s1 := set_cur (next_env s) (with_scope (cur s) false vars s)).
  change (ends (kept s) (restoring (cur s) m s1)).
  assert (E1 : ext s s1) by (apply ext_cur, ext_scope; [done|apply (proj1 F)]).
  assert (F1 : free (cur s1) s1) by (apply free_scope; [done|apply (proj1 F)|apply (proj1 (proj2 F))|done]).
  unfold restoring, catch, cbind. specialize (Hm s1 (ext_wf _ _ E1) F1).
  destruct (m s1) as [[x s2|e s2| |]|]; try done; destruct Hm as [E2 _]; apply kept_back; try done; by eapply ext_trans.
Qed.
Lemma keeps_for_scope m : keeps m -> keeps (for_scope m).
Proof.
  intros Hm s W F. unfold for_scope. set (s1 := set_cur (next_env s) (with_scope (cur s) false ∅ s)).
  change (ends (kept s) ((let+ _ := m in enter (cur s)) s1)).
  assert (E1 : ext s s1) by (apply ext_cur, ext_scope; [done|apply (proj1 F)]).
  assert (F1 : free (cur s1) s1) by (apply free_scope; [done|apply (proj1 F)|apply (proj1 (proj2 F))|done]).
  unfold cbind. specialize (Hm s1 (ext_wf _ _ E1) F1).
  destruct (m s1) as [[x s2|e s2| |]|]; try done; destruct Hm as [E2 F2].
  - apply kept_back; [done..|]. by eapply ext_trans.
  - split; [by eapply ext_trans|done].
Qed.

(** ** Calls *)

Section Call.
Context (ev : Expression -> C Value) (ex : Statement -> C unit).
Hypothesis ev_keeps : forall e, keeps (ev e).
Hypothesis ex_keeps : forall st, keeps (ex st).

Lemma keeps_stmts l : keeps (stmts ex l).
Proof. induction l; cbn; [apply keeps_ret|]. by apply keeps_bind. Qed.

(** How a call may leave: where the caller was, or with an exception of a
    default in the scope of the call. *)
Definition leaves {A} (saved : positive) (s : CS) (r : option (ans A)) : Prop :=
  match r with
  | Some (Val _ s') => ext s s' /\ cur s' = saved
  | Some (Raise _ s') => ext s s' /\ (cur s' = saved \/ free (cur s') s')
  | _ => True
  end.
Lemma leaves_trans {A} saved s1 s2 (r : option (ans A)) : ext s1 s2 -> leaves saved s2 r -> leaves saved s1 r.
Proof. intros E. destruct r as [[]|]; cbn; [|..|done]; try done; intros [? ?]; split; try done; by eapply ext_trans. Qed.

Lemma bind_params_leaves saved few ps args defs s :
  (forall s, exists m, few s = Some (Raise (XErr m) (set_cur saved s))) -> well_formed s -> free (cur s) s ->
  leaves saved s ((let+ _ := bind_params ev ps args defs few in enter saved) s).
Proof.
  intros Hfew. induction ps as [|p ps IH] in args, defs, s |- *; intros W F.
  - cbn. split; [by apply ext_cur, ext_refl|done].
  - assert (Hnext : forall (m : C Value) args, keeps m ->
      leaves saved s ((let+ _ := let+ v := m in let+ _ := define p v in bind_params ev ps args (tail defs) few in enter saved) s)).
    { intros m args' Hm. unfold cbind at 1 2. specialize (Hm s W F).
      destruct (m s) as [[v s1|e s1| |]|]; [|destruct Hm; cbn; auto|done..].
      destruct Hm as [E1 F1]. unfold cbind at 1, define at 1, modify.
      destruct (keeps_define p v s1 (ext_wf _ _ E1) F1) as [E2 F2].
      eapply leaves_trans; [exact (ext_trans _ _ _ E1 E2)|]. apply IH; [apply E2|done]. }
    cbn. destruct args as [|a args].
    + destruct defs as [|[d|] defs]; [|exact (Hnext (ev d) [] (ev_keeps d))|];
        destruct (Hfew s) as [m Hm]; unfold cbind; rewrite Hm; split; [by apply ext_cur, ext_refl|by left
          |by apply ext_cur, ext_refl|by left].
    + exact (Hnext (cret a) args (keeps_ret a)).
Qed.

Lemma few_raises saved f how want args s :
  exists m, (let+ _ := enter saved in wrong_args f how want args) s = Some (Raise (XErr m) (set_cur saved s)).
Proof. by eexists. Qed.

Lemma bind_arguments_leaves f args id s :
  well_formed s -> free id s -> leaves (cur s) s (bind_arguments ev f args id s).
Proof.
  intros W F. set (s1 := set_cur id s). assert (E1 : ext s s1) by by apply ext_cur, ext_refl.
  pose proof (fun few ps args defs H => leaves_trans (cur s) s s1 _ E1
    (bind_params_leaves (cur s) few ps args defs s1 H (ext_wf _ _ E1) F)) as Hb.
  unfold bind_arguments. destruct (variadic f).
  - specialize (Hb _ (take (length (parameters_ f) - 1) (parameters_ f)) args
      (if (length (defaults_ f) =? length (parameters_ f))%nat then defaults_ f else [])
      (few_raises (cur s) f "at least " (length (parameters_ f) - 1) args)).
    unfold cbind at 1. cbn [enter modify]. unfold cbind at 1. unfold cbind at 1 in Hb.
    change (set_cur id s) with s1.
    destruct (bind_params _ _ _ _ _ s1) as [[x s2|e s2| |]|]; try done.
    destruct Hb as [E2 _]. cbn in E2. unfold cbind at 1. cbn.
    match goal with |- context [set_arrays ?a (set_cur (cur s) s2)] => set (s3 := set_arrays a (set_cur (cur s) s2)) end.
    assert (E3 : ext s s3) by (destruct E2 as [[] ? ? ? ?]; by constructor).
    destruct (last _); [|done]. cbn. split; [|done]. eapply ext_trans; [exact E3|].
    apply ext_define; [apply E3|]. eapply free_self, ext_free; [exact W|exact E3|done].
  - destruct (_ <? _)%nat; [cbn; split; [by apply ext_refl|by left]|].
    exact (Hb _ _ _ _ (few_raises (cur s) f "" _ args)).
Qed.

Lemma run_body_leaves f id s : well_formed s -> free id s -> leaves (cur s) s (run_body ex f id s).
Proof.
  intros W F. unfold run_body. set (s1 := set_cur id (set_depth (call_depth s + 1) s)).
  assert (W1 : well_formed s1) by (destruct W; by constructor).
  assert (Hback : forall s2, ext s1 s2 -> ext s (set_cur (cur s) (set_depth (call_depth s2 - 1) s2))).
  { intros s2 [[] ? ? ? Hd]. constructor; try done. cbn. rewrite Hd. cbn. lia. }
  unfold cbind at 1. cbn [modify]. change (set_cur id _) with s1.
  unfold cbind at 1, catch. unfold cbind at 1. pose proof (keeps_stmts (fn_body f) s1 W1 F) as H.
  destruct (stmts ex (fn_body f) s1) as [[x s2|e s2| |]|]; try done; destruct H as [E _]; [by split; [apply Hback|]|].
  destruct e; (split; [by apply Hback|by (left || idtac)]).
Qed.

Lemma call_function_leaves f args s :
  well_formed s -> (closure_ f < next_env s)%positive -> (forall j, K j -> (j < next_env s)%positive) ->
  leaves (cur s) s (call_function ev ex f args s).
Proof.
  intros W Hc HK. unfold call_function. destruct (_ <=? _); [split; [by apply ext_refl|by left]|].
  unfold cbind at 1. cbn [new_env]. set (s1 := with_scope (closure_ f) true ∅ s).
  change (leaves (cur s) s ((let+ _ := bind_arguments ev f args (next_env s) in run_body ex f (next_env s)) s1)).
  assert (E1 : ext s s1) by by apply ext_scope.
  assert (F1 : free (next_env s) s1) by by apply free_scope.
  eapply leaves_trans; [exact E1|]. change (cur s) with (cur s1). unfold cbind.
  pose proof (bind_arguments_leaves f args (next_env s) s1 (ext_wf _ _ E1) F1) as Hb.
  destruct (bind_arguments _ _ _ _ s1) as [[x s2|e s2| |]|]; try done. destruct Hb as [E2 <-].
  eapply leaves_trans; [exact E2|]. apply run_body_leaves; [apply E2|]. by eapply ext_free; [apply E1|..].
Qed.

Lemma keeps_evs es : keeps (evs ev es).
Proof.
  induction es; cbn; [apply keeps_ret|]. apply keeps_bind; [done|]. intros v.
  apply keeps_bind; [done|]. intros vs. apply keeps_ret.
Qed.
Lemma keeps_apply l args :
  keeps (let+ f := fn_of (FUNCTION l) in
         match f with Some f => let+ vs := evs ev args in call_function ev ex f vs | None => outside end).
Proof.
  intros s W F. unfold cbind at 1, fn_of. destruct l as [l|]; [|done].
  destruct (funs s !! l) as [f|] eqn:Hl; [|done]. unfold cbind.
  pose proof (keeps_evs args s W F) as H. destruct (evs ev args s) as [[vs s1|e s1| |]|]; try done.
  destruct H as [E1 F1]. pose proof (ext_wf _ _ E1) as W1.
  assert (Hc : (closure_ f < next_env s1)%positive)
    by (pose proof (wf_closure s W _ _ Hl); pose proof (ext_next _ _ E1); lia).
  pose proof (call_function_leaves f vs s1 W1 Hc (proj1 (proj2 F1))) as H.
  destruct (call_function _ _ _ vs s1) as [[]|]; try done; destruct H as [E2 H]; (split; [by eapply ext_trans|]).
  - rewrite H. by eapply ext_free.
  - destruct H as [->|]; [by eapply ext_free|done].
Qed.
Context (L : Lib) (depth n : nat).

Ltac keeps := repeat lazymatch goal with
  | |- keeps (match ?x with _ => _ end) => destruct x
  | |- keeps (let _ := _ in _) => cbv zeta
  | |- keeps (cbind get_state _) => apply keeps_state; intros ?
  | |- keeps (cbind _ _) => apply keeps_bind; [|intros ?]
  | |- keeps (catch _ _) => apply keeps_catch; [|intros ?]
  | |- keeps (cret _) => apply keeps_ret
  | |- keeps (raise _) => apply keeps_raise
  | |- keeps (throw_ _) => apply keeps_throw
  | |- keeps (modify _) => apply keeps_modify; done
  | |- keeps (fun _ => None) => apply keeps_none
  | |- _ => solve [auto with frame nocore]
  end.
#[local] Hint Resolve ev_keeps ex_keeps keeps_outside keeps_with_heap keeps_lift keeps_alloc keeps_truthy keeps_get_var
  keeps_define keeps_assign keeps_evs keeps_stmts keeps_scoped keeps_for_scope : frame.

Lemma keeps_str v : keeps (str L depth v).
Proof. apply keeps_lift. Qed.
#[local] Hint Resolve keeps_str : frame.
Lemma keeps_join sep vs first acc : keeps (join L depth sep first vs acc).
Proof. induction vs as [|v vs IH] in first, acc |- *; cbn; keeps. Qed.
Lemma keeps_arg args k : keeps (arg ev args k).
Proof. unfold arg. destruct (args !! k); [apply ev_keeps|done]. Qed.
Lemma keeps_elements l : keeps (elements l).
Proof. intros s W F. by apply same_scopes_kept. Qed.
Lemma keeps_store l vec : keeps (store l vec).
Proof. by apply keeps_modify. Qed.
Lemma keeps_count v : keeps (look_count v).
Proof. intros s W F. by apply same_scopes_kept. Qed.
#[local] Hint Resolve keeps_join keeps_arg keeps_elements keeps_store keeps_count : frame.
Lemma keeps_builtin name args m : builtin_call L depth ev name args = Some m -> keeps m.
Proof.
  unfold builtin_call. cbv zeta.
  repeat (destruct (existsb _ _); [intros [= <-];
    unfold count_call, push_call, pop_call, join_call, exit_call, res1, text1, pick; keeps|]). done.
Qed.
Lemma keeps_call callee args : keeps (eval_call L depth ev ex callee args).
Proof.
  unfold eval_call. destruct callee; try apply keeps_outside;
    (destruct (builtin_call _ _ _ _ _) as [m|] eqn:Hm; [by apply (keeps_builtin _ _ _ Hm)|]);
    (destruct (own_function _); [apply keeps_outside|]);
    (apply keeps_bind; [done|]; intros []; first [apply keeps_throw | apply keeps_outside | apply keeps_apply]).
Qed.

(** ** Closures *)

Lemma captures_ext id names : forall s, well_formed s -> ~ K id ->
  exists s', captures_ id names s = Some (Val tt s') /\ ext s s' /\ cur s' = cur s.
Proof.
  induction names as [|x names IH]; intros s W HK; [by eexists; split; [|split; [apply ext_refl|]]|].
  cbn [captures_]. assert (Hx : exists v, capture id x s = Some (Val tt (define_in id x v s))).
  { unfold capture, catch, cbind, get_var. destruct (find_var _ _ _ _); by eexists. }
  destruct Hx as [v Hx]. unfold cbind. rewrite Hx.
  assert (E : ext s (define_in id x v s)) by by apply ext_define.
  destruct (IH _ (ext_wf _ _ E) HK) as (s' & -> & E' & Hc). exists s'. split; [done|]. split; [by eapply ext_trans|done].
Qed.
Lemma kept_new_function f s : well_formed s -> free (cur s) s -> (closure_ f < next_env s)%positive ->
  ends (kept s) (alloc_fn f s).
Proof.
  intros W F Hf. cbn. split; [|done]. constructor; try done. destruct W. constructor; try done.
  intros l g. cbn. rewrite lookup_insert_Some. intros [[_ <-]|[_ H]]; [done|eauto].
Qed.
Lemma keeps_function ps ds caps va body : keeps (function_value ps ds caps va body).
Proof.
  intros s W F. unfold function_value, get_state. unfold cbind at 1.
  destruct caps as [|c0 caps]; [apply (kept_new_function _ s W F), (proj1 F)|].
  set (caps0 := c0 :: caps). unfold cbind at 1 2. cbn [new_env]. set (s1 := with_scope globals false ∅ s).
  change (MkCS _ _ _ _ _ _ _ _ _) with s1.
  assert (E1 : ext s s1) by (apply ext_scope; [done|apply W]).
  assert (HK : ~ K (next_env s)) by (intros H; pose proof (proj1 (proj2 F) _ H); lia).
  destruct (captures_ext (next_env s) caps0 s1 (ext_wf _ _ E1) HK) as (s2 & Hs2 & E2 & Hc).
  unfold cbind. rewrite Hs2. cbn [cret]. assert (E : ext s s2) by by eapply ext_trans.
  eapply ends_mono; [intros s'; by apply kept_trans|]. apply kept_new_function; [apply E| |].
  - rewrite Hc. by eapply ext_free.
  - pose proof (ext_next _ _ E2). cbn in *. lia.
Qed.

(** ** The rest of the language *)

#[local] Hint Resolve keeps_function keeps_call : frame.
Lemma keeps_ev_pairs ps : keeps (ev_pairs ev ps).
Proof. induction ps as [|[] ps IH]; cbn; keeps. Qed.
Lemma keeps_eval_source src : keeps (eval_source L depth ev src).
Proof. unfold eval_source. keeps. Qed.
Lemma keeps_interpolate k raw result : keeps (interpolate L depth ev k raw result).
Proof.
  induction k as [|k IH] in raw, result |- *; [apply keeps_ret|]. destruct raw as [|c r]; [apply keeps_ret|].
  cbn [interpolate]. pose proof keeps_eval_source. keeps.
Qed.
Lemma keeps_struct_literal name fs : keeps (struct_literal ev name fs).
Proof.
  assert (H : forall defs, keeps (struct_fields ev defs fs)).
  { induction defs as [|[x d] defs IH]; cbn; keeps. }
  unfold struct_literal. keeps.
Qed.
Lemma keeps_struct_defs fs : keeps (struct_defs ev fs).
Proof. induction fs as [|[x d] fs IH]; cbn; keeps. Qed.

#[local] Hint Resolve keeps_ev_pairs keeps_interpolate keeps_struct_literal keeps_struct_defs : frame.
Lemma eval_step_keeps e : keeps (eval_step L depth ev ex e).
Proof.
  destruct e; cbn [eval_step]; unfold interpolate_string; keeps.
Qed.

Lemma keeps_turn body again : keeps body -> keeps again -> keeps (turn body again).
Proof. intros. unfold turn. keeps. Qed.
#[local] Hint Resolve keeps_turn : frame.
Lemma keeps_while k c body : keeps body -> keeps (while_loop ev k c body).
Proof. intros H. induction k; cbn; keeps. Qed.
Lemma keeps_for k c post body : keeps body -> keeps (for_loop ev k c post body).
Proof. intros H. induction k; cbn; keeps; apply keeps_turn; keeps. Qed.
Lemma keeps_foreach it key x body : keeps body -> keeps (foreach n it key x body).
Proof.
  intros H.
  assert (H1 : forall k l i, keeps (foreach_loop k l i key x body)).
  { induction k as [|k IH]; intros l i; [done|]. intros s W F. cbn [foreach_loop].
    destruct (_ !! _); [|by apply (keeps_ret tt)]. apply keeps_turn; [by apply keeps_scoped|apply IH|done..]. }
  assert (H2 : forall k l i, keeps (foreach_pairs k l i key x body)).
  { induction k as [|k IH]; intros l i; [done|]. intros s W F. cbn [foreach_pairs].
    destruct (_ !! i); [|by apply (keeps_ret tt)]. destruct (_ !! _); [|by apply (keeps_ret tt)].
    apply keeps_turn; [by apply keeps_scoped|apply IH|done..]. }
  intros s W F. unfold foreach. destruct it; try (by apply keeps_throw).
  destruct (Interp.is_assoc _); [by apply H2|by apply H1].
Qed.
Lemma keeps_build_output es : forall first acc, keeps (build_output L depth ev first es acc).
Proof. induction es as [|e es IH]; intros first acc; cbn; keeps. Qed.
Lemma keeps_find_case v cases : forall dflt, keeps (find_case ev v cases dflt).
Proof.
  assert (H : forall vs, keeps (case_matches ev v vs)) by (induction vs; cbn; keeps).
  induction cases as [|[vs body] cases IH]; intros dflt; [apply keeps_ret|].
  cbn [find_case]. keeps.
Qed.
Lemma keeps_opt_block b : keeps (opt_block ex b).
Proof. destruct b; cbn; unfold execute_block; keeps. Qed.
Lemma keeps_try body x c fin : keeps (try_statement ex body x c fin).
Proof. pose proof (keeps_opt_block fin). unfold try_statement, execute_block. keeps. Qed.
Lemma keeps_const items : forall i last, keeps (const_block ev i last items).
Proof. induction items as [|[x v] items IH]; intros i last; cbn; keeps. Qed.

Lemma keeps_declare name ps ds va body :
  keeps (let+ s := get_state in let+ f := alloc_fn (MkFn name ps va body (cur s) ds) in define name f).
Proof.
  intros s W F. unfold get_state. unfold cbind at 1 2.
  pose proof (kept_new_function (MkFn name ps va body (cur s) ds) s W F (proj1 F)) as H.
  destruct (alloc_fn _ s) as [[v s1|e s1| |]|]; try done. destruct H as [E1 F1].
  eapply ends_mono; [intros s'; by apply kept_trans|]. apply keeps_define; [apply E1|done].
Qed.
#[local] Hint Resolve keeps_build_output keeps_opt_block keeps_try keeps_while keeps_for keeps_foreach keeps_find_case
  keeps_const : frame.
Lemma exec_step_keeps st : keeps (exec_step L depth ev ex n st).
Proof.
  destruct st; cbn [exec_step]; unfold run_case, execute_block, emit; try solve [keeps].
  - apply keeps_for_scope. keeps.
  - destruct (is_reserved_builtin _); [apply keeps_throw|apply keeps_declare].
Qed.

End Call.

Lemma evaluate_keeps L depth n :
  (forall e, keeps (evaluate L depth n e)) /\ (forall st, keeps (execute L depth n st)).
Proof.
  induction n as [|n [IHe IHs]]; [done|]. split; intros; [by apply eval_step_keeps|by apply exec_step_keeps].
Qed.

End Frame.

(** * More fuel

    [less m m']: what [m] ends with, [m'] ends with too. *)

Section More.
Context (ev ev' : Expression -> C Value) (ex ex' : Statement -> C unit).

Definition less {A} (m m' : C A) : Prop := forall s r, m s = Some r -> m' s = Some r.
Hypothesis ev_less : forall e, less (ev e) (ev' e).
Hypothesis ex_less : forall st, less (ex st) (ex' st).

Lemma less_refl {A} (m : C A) : less m m.
Proof. by intros s r. Qed.
Lemma less_none {A} (m : C A) : less (fun _ => None) m.
Proof. by intros s r. Qed.
Lemma less_bind {A B} (m m' : C A) (k k' : A -> C B) :
  less m m' -> (forall x, less (k x) (k' x)) -> less (cbind m k) (cbind m' k').
Proof.
  intros Hm Hk s r. unfold cbind. destruct (m s) as [a|] eqn:E; [|done]. rewrite (Hm _ _ E).
  destruct a; auto. by apply Hk.
Qed.
Lemma less_catch {A} (m m' : C A) h h' : less m m' -> (forall e, less (h e) (h' e)) -> less (catch m h) (catch m' h').
Proof.
  intros Hm Hh s r. unfold catch. destruct (m s) as [a|] eqn:E; [|done]. rewrite (Hm _ _ E).
  destruct a; auto. by apply Hh.
Qed.

Ltac less := repeat lazymatch goal with
  | |- less (match ?x with _ => _ end) _ => destruct x
  | |- less (cbind _ _) _ => apply less_bind; [|intros ?]
  | |- less (catch _ _) _ => apply less_catch; [|intros ?]
  | |- less ?m ?m => apply less_refl
  | |- less (fun _ => None) _ => apply less_none
  | |- _ => solve [auto with more nocore]
  end.
#[local] Hint Resolve ev_less ex_less : more.

Lemma less_stmts l : less (stmts ex l) (stmts ex' l).
Proof. induction l; cbn; less. Qed.
Lemma less_evs es : less (evs ev es) (evs ev' es).
Proof. induction es; cbn; less. Qed.
Lemma less_ev_pairs ps : less (ev_pairs ev ps) (ev_pairs ev' ps).
Proof. induction ps as [|[] ps IH]; cbn; less. Qed.
Lemma less_bind_params ps args defs few : less (bind_params ev ps args defs few) (bind_params ev' ps args defs few).
Proof. induction ps as [|p ps IH] in args, defs |- *; cbn; less. Qed.
#[local] Hint Resolve less_stmts less_evs less_ev_pairs less_bind_params : more.
Lemma less_bind_arguments f args id : less (bind_arguments ev f args id) (bind_arguments ev' f args id).
Proof.
  intros s. unfold bind_arguments. cbv zeta.
  match goal with |- forall r, ?m s = Some r -> ?m' s = Some r => enough (less m m') by auto end. less.
Qed.
Lemma less_run_body f id : less (run_body ex f id) (run_body ex' f id).
Proof.
  intros s. unfold run_body. cbv zeta.
  match goal with |- forall r, ?m s = Some r -> ?m' s = Some r => enough (less m m') by auto end. less.
Qed.
#[local] Hint Resolve less_bind_arguments less_run_body : more.
Lemma less_call_function f args : less (call_function ev ex f args) (call_function ev' ex' f args).
Proof.
  intros s. unfold call_function.
  match goal with |- forall r, ?m s = Some r -> ?m' s = Some r => enough (less m m') by auto end. less.
Qed.
#[local] Hint Resolve less_call_function : more.
Context (L : Lib) (depth : nat).
Lemma less_arg args k : less (arg ev args k) (arg ev' args k).
Proof. unfold arg. less. Qed.
#[local] Hint Resolve less_arg : more.
Lemma less_builtin name args :
  match builtin_call L depth ev name args, builtin_call L depth ev' name args with
  | Some m, Some m' => less m m' | None, None => True | _, _ => False end.
Proof.
  unfold builtin_call. cbv zeta.
  repeat (destruct (existsb _ _); [unfold count_call, push_call, pop_call, join_call, exit_call, res1, text1, pick; less|]).
  done.
Qed.
Lemma less_call callee args : less (eval_call L depth ev ex callee args) (eval_call L depth ev' ex' callee args).
Proof.
  unfold eval_call. cbv zeta.
  destruct callee; (match goal with |- context [builtin_call L depth ev ?n args] =>
      pose proof (less_builtin n args); destruct (builtin_call L depth ev n args), (builtin_call L depth ev' n args)
    | _ => idtac end); try done; less.
Qed.

Context (n n' : nat).
Hypothesis n_le : (n <= n')%nat.

Lemma less_eval_source src : less (eval_source L depth ev src) (eval_source L depth ev' src).
Proof. unfold eval_source. less. Qed.
#[local] Hint Resolve less_call less_eval_source : more.
Lemma less_interpolate k raw result : less (interpolate L depth ev k raw result) (interpolate L depth ev' k raw result).
Proof. induction k as [|k IH] in raw, result |- *; [apply less_refl|]. destruct raw; [apply less_refl|]. cbn [interpolate]. less. Qed.
Lemma less_struct_literal name fs : less (struct_literal ev name fs) (struct_literal ev' name fs).
Proof.
  assert (forall defs, less (struct_fields ev defs fs) (struct_fields ev' defs fs))
    by (induction defs as [|[x d] defs IH]; cbn; less).
  unfold struct_literal. less.
Qed.
Lemma less_struct_defs fs : less (struct_defs ev fs) (struct_defs ev' fs).
Proof. induction fs as [|[x d] fs IH]; cbn; less. Qed.
#[local] Hint Resolve less_interpolate less_struct_literal less_struct_defs : more.
Lemma eval_step_less e : less (eval_step L depth ev ex e) (eval_step L depth ev' ex' e).
Proof. destruct e; cbn [eval_step]; unfold interpolate_string; less. Qed.

Lemma less_scoped vars m m' : less m m' -> less (scoped vars m) (scoped vars m').
Proof.
  intros H s. unfold scoped, restoring.
  match goal with |- forall r, ?m s = Some r -> ?m' s = Some r => enough (less m m') by auto end. less.
Qed.
Lemma less_for_scope m m' : less m m' -> less (for_scope m) (for_scope m').
Proof.
  intros H s. unfold for_scope.
  match goal with |- forall r, ?m s = Some r -> ?m' s = Some r => enough (less m m') by auto end. less.
Qed.
Lemma less_turn body body' again again' : less body body' -> less again again' -> less (turn body again) (turn body' again').
Proof. intros. unfold turn. less. Qed.
#[local] Hint Resolve less_scoped less_for_scope less_turn : more.
Lemma less_while k k' c body body' : less body body' -> (k <= k')%nat -> less (while_loop ev k c body) (while_loop ev' k' c body').
Proof.
  intros H. induction k as [|k IH] in k' |- *; [intros; apply less_none|]. intros Hk. destruct k' as [|k']; [lia|].
  assert (less (while_loop ev k c body) (while_loop ev' k' c body')) by (apply IH; lia). cbn [while_loop]. less.
Qed.
Lemma less_for k k' c post body body' : less body body' -> (k <= k')%nat ->
  less (for_loop ev k c post body) (for_loop ev' k' c post body').
Proof.
  intros H. induction k as [|k IH] in k' |- *; [intros; apply less_none|]. intros Hk. destruct k' as [|k']; [lia|].
  assert (less (for_loop ev k c post body) (for_loop ev' k' c post body')) by (apply IH; lia). cbn [for_loop]. cbv zeta.
  less; apply less_turn; less.
Qed.
Lemma less_foreach it key x body body' : less body body' -> less (foreach n it key x body) (foreach n' it key x body').
Proof.
  intros H.
  assert (H1 : forall k k' l i, (k <= k')%nat -> less (foreach_loop k l i key x body) (foreach_loop k' l i key x body')).
  { induction k as [|k IH]; intros k' l i Hk; [apply less_none|]. destruct k' as [|k']; [lia|]. intros s r. cbn [foreach_loop].
    destruct (_ !! _); [|done]. apply less_turn; [by apply less_scoped|apply IH; lia]. }
  assert (H2 : forall k k' l i, (k <= k')%nat -> less (foreach_pairs k l i key x body) (foreach_pairs k' l i key x body')).
  { induction k as [|k IH]; intros k' l i Hk; [apply less_none|]. destruct k' as [|k']; [lia|]. intros s r. cbn [foreach_pairs].
    destruct (_ !! i); [|done]. destruct (_ !! _); [|done]. apply less_turn; [by apply less_scoped|apply IH; lia]. }
  intros s r. unfold foreach. destruct it; try done.
  destruct (Interp.is_assoc _); [by apply H2|by apply H1].
Qed.
Lemma less_build_output es first acc : less (build_output L depth ev first es acc) (build_output L depth ev' first es acc).
Proof. induction es as [|e es IH] in first, acc |- *; cbn; less. Qed.
Lemma less_find_case v cases dflt : less (find_case ev v cases dflt) (find_case ev' v cases dflt).
Proof.
  assert (H : forall vs, less (case_matches ev v vs) (case_matches ev' v vs)) by (induction vs; cbn; less).
  induction cases as [|[vs body] cases IH] in dflt |- *; [apply less_refl|]. cbn [find_case]. less.
Qed.
Lemma less_opt_block b : less (opt_block ex b) (opt_block ex' b).
Proof. destruct b; cbn; unfold execute_block; less. Qed.
#[local] Hint Resolve less_build_output less_find_case less_opt_block : more.
Lemma less_try body x c fin : less (try_statement ex body x c fin) (try_statement ex' body x c fin).
Proof. unfold try_statement, execute_block. cbv zeta. less. Qed.
Lemma less_const items i last : less (const_block ev i last items) (const_block ev' i last items).
Proof. induction items as [|[x v] items IH] in i, last |- *; cbn; less. Qed.
#[local] Hint Resolve less_try less_const less_while less_for less_foreach : more.
Lemma exec_step_less st : less (exec_step L depth ev ex n st) (exec_step L depth ev' ex' n' st).
Proof.
  destruct st; cbn [exec_step]; unfold run_case, execute_block, emit; try solve [less].
  apply less_for_scope. less.
Qed.

End More.

Lemma evaluate_less L depth n : forall n', (n <= n')%nat ->
  (forall e, less (evaluate L depth n e) (evaluate L depth n' e)) /\
  (forall st, less (execute L depth n st) (execute L depth n' st)).
Proof.
  induction n as [|n IH]; intros n' Hn; [by split; intros; apply less_none|]. destruct n' as [|n']; [lia|].
  destruct (IH n' ltac:(lia)) as [IHe IHs]. cbn [evaluate execute].
  split; intros; [by apply eval_step_less|apply exec_step_less; auto; lia].
Qed.

(** * Theorems *)

(** C11: A statement, however it ends, even with an exception, changes only the
    variables of scopes between the current one and the first function boundary
    above it: every other scope that was there has the same variables, a closure's
    and a caller's among them. The scopes stay a forest of older parents and
    [call_depth_] is what it was. *)
Theorem writes_stay_in_scope L depth n st s :
  well_formed s -> (cur s < next_env s)%positive ->
  ends (fun s' => well_formed s' /\ (cur s' < next_env s')%positive /\ call_depth s' = call_depth s /\
    forall id, (id < next_env s)%positive -> ~ writable (envs s) (cur s) id -> envs s' !! id = envs s !! id)
    (execute L depth n st s).
Proof.
  intros W Hc. set (K id := (id < next_env s)%positive /\ ~ writable (envs s) (cur s) id).
  assert (F : free K (cur s) s) by (split; [done|]; split; [by intros j []|]; by intros j H []).
  eapply ends_mono; [|by apply (evaluate_keeps K L depth n)].
  intros s' [E [H _]]. split; [apply E|]. split; [done|]. split; [apply E|].
  intros id Hid Hw. by apply (ext_kept _ _ _ E).
Qed.

(** C4: A call changes no variable of any scope that exists when it starts,
    neither the globals nor those of the caller nor what a closure captured, and
    leaves [call_depth_] as it was, on every way out. *)
Theorem call_changes_no_variable L depth n f args s :
  well_formed s -> (closure_ f < next_env s)%positive ->
  ends (fun s' => call_depth s' = call_depth s /\ forall id, (id < next_env s)%positive -> envs s' !! id = envs s !! id)
    (call_function (evaluate L depth n) (execute L depth n) f args s).
Proof.
  intros W Hf. set (K id := (id < next_env s)%positive). destruct (evaluate_keeps K L depth n) as [He Hs].
  pose proof (call_function_leaves K _ _ He Hs f args s W Hf (fun _ H => H)) as H.
  destruct (call_function _ _ _ _ s) as [[]|]; try done; destruct H as [E _]; (split; [apply E|]);
    intros id Hid; by apply (ext_kept _ _ _ E).
Qed.

(** What a program does does not depend on the fuel: with more, a program
    that has ended ends with the same value, exception and state. *)
Theorem more_fuel_same_end L depth n n' p s r :
  (n <= n')%nat -> interpret L depth n p s = Some r -> interpret L depth n' p s = Some r.
Proof. intros Hn. apply less_stmts. intros st. by apply evaluate_less. Qed.

(** ** Recursion through a default *)

Lemma not_builtin L depth ev n args :
  existsb (fun t : string => lit t =s n) builtin_names = false -> builtin_call L depth ev n args = None.
Proof.
  unfold builtin_names, builtin_call. cbn [existsb]. cbv zeta. intros H.
  repeat (apply orb_false_iff in H as [-> H]). done.
Qed.

Section DefaultRecursion.
Context (L : Lib) (depth : nat) (f p : bytes) (body : list Statement) (l : loc).
Hypothesis not_own : own_function f = false.
Hypothesis not_named : existsb (fun t : string => lit t =s f) builtin_names = false.
Let self : Expression := CallExpression (Variable_ f) [].
Let F : LookFunction := MkFn f [p] false body globals [Some self].

(** [f] is a global, seen from the globals or from the scope of a call of [f]. *)
Record calling (s : CS) : Prop := {
  calling_fun : funs s !! l = Some F;
  calling_depth : call_depth s < MAX_CALL_DEPTH;
  calling_next : (globals < next_env s)%positive;
  calling_global : exists c, envs s !! globals = Some c /\ vals c !! f = Some (FUNCTION (Some l));
  calling_cur : cur s = globals \/ (globals < cur s)%positive /\ envs s !! cur s = Some (MkCell ∅ (Some globals) true) }.

Lemma calling_var s : calling s -> get_var f s = Some (Val (FUNCTION (Some l)) s).
Proof.
  intros [_ _ _ (c & Hc & Hf) Hcur]. unfold get_var.
  assert (Hg : forall k, find_var (S k) (envs s) globals f = Some (FUNCTION (Some l))) by (intros k; cbn; by rewrite Hc, Hf).
  destruct Hcur as [->|[Hlt Hcur]]; [change (Pos.to_nat globals) with 1%nat; by rewrite Hg|].
  destruct (Pos.to_nat (cur s)) as [|[|k]] eqn:Hk; [lia..|].
  change (find_var (S (S k)) (envs s) (cur s) f) with (match envs s !! cur s with
    | None => None
    | Some c => match vals c !! f with Some v => Some v
      | None => match parent c with Some q => find_var (S k) (envs s) q f | None => None end end end).
  rewrite Hcur. cbn [vals parent]. by rewrite lookup_empty, Hg.
Qed.

Lemma self_call_none n s : calling s -> evaluate L depth n self s = None.
Proof.
  induction n as [|n IH] in s |- *; intros H; [done|].
  change (evaluate L depth (S n) self) with (eval_call L depth (evaluate L depth n) (execute L depth n) (Variable_ f) []).
  unfold eval_call. cbv zeta. rewrite not_builtin, not_own by done. unfold cbind at 1.
  destruct n as [|n]; [done|]. change (evaluate L depth (S n) (Variable_ f)) with (get_var f).
  rewrite (calling_var s H). unfold cbind at 1. cbn [fn_of]. rewrite (calling_fun s H).
  unfold cbind at 1. cbn [evs cret]. unfold call_function.
  destruct (Z.leb_spec MAX_CALL_DEPTH (call_depth s)) as [Hd|_]; [pose proof (calling_depth s H); lia|].
  unfold cbind at 1. cbn [new_env]. unfold cbind at 1, bind_arguments.
  cbn [F variadic parameters_ defaults_ length Nat.ltb Nat.leb Nat.eqb bind_params].
  unfold cbind at 1. cbn [enter modify]. unfold cbind at 1 2.
  rewrite IH; [done|]. destruct H as [Hf Hd Hn (c & Hc & Hv) Hcur]. constructor; cbn; [done|done|lia| |].
  - exists c. rewrite lookup_insert_ne by lia. done.
  - right. by rewrite lookup_insert_eq.
Qed.
End DefaultRecursion.

(** C14: The limit on the depth of calls does not cover the defaults of
    parameters, which are evaluated before the call is counted: a function whose
    default calls it is called for ever, no fuel gives an end. *)
Theorem default_recursion_never_ends L depth f p body n :
  existsb (fun t : string => lit t =s f) (own_names ++ builtin_names ++ reserved_names) = false ->
  let self := CallExpression (Variable_ f) [] in
  interpret L depth n [FunctionDeclaration f [p] [Some self] false body; ExpressionStatement self] start = None.
Proof.
  rewrite !existsb_app. intros [Ho [Hb Hr]%orb_false_iff]%orb_false_iff self. unfold interpret. cbn [stmts]. unfold cbind at 1. destruct n as [|n]; [done|].
  cbn [execute exec_step]. change (is_reserved_builtin f) with (existsb (fun t : string => lit t =s f) reserved_names).
  rewrite Hr. unfold cbind at 1 2 3. cbn [get_state alloc_fn define modify].
  unfold cbind at 1.
  rewrite (self_call_none L depth f p body (fresh (dom (funs start))) Ho Hb n); [done|].
  constructor; cbn; [by rewrite lookup_insert_eq|done|done| |by left].
  eexists. split; [apply lookup_alter_Some; left; split; [done|]; eexists; split; [apply lookup_insert_eq|reflexivity]|].
  cbn. apply lookup_insert_eq.
Qed.

(** * Witnesses *)

Lemma start_well_formed : well_formed start.
Proof.
  assert (E : envs start = {[ globals := MkCell ∅ None false ]}) by done.
  constructor; try done; rewrite E; cbn [next_env start].
  - intros id c p. rewrite lookup_singleton_Some. by intros [<- <-].
  - intros id H. assert (id = globals) as -> by (unfold globals; lia). by rewrite lookup_singleton_eq.
  - intros id H. apply lookup_singleton_ne. unfold globals. lia.
Qed.
(** In the scope of a call *)
Definition in_call : CS := set_cur 2 (with_scope globals true ∅ start).
Lemma in_call_well_formed : well_formed in_call.
Proof. apply (ext_wf (fun _ => False) start). apply ext_cur, ext_scope; [apply start_well_formed|done]. Qed.

Definition set_x (v : Z) : Statement :=
  ExpressionStatement (AssignmentExpression (lit "$x") (lit "=") None None (NumberLiteral v)).

Lemma writes_stay_in_scope_witness :
  ends (fun s' => well_formed s' /\ (cur s' < next_env s')%positive /\ call_depth s' = call_depth in_call /\
    forall id, (id < next_env in_call)%positive -> ~ writable (envs in_call) (cur in_call) id -> envs s' !! id = envs in_call !! id)
    (execute some_lib 10 20 (set_x 5) in_call).
Proof. apply writes_stay_in_scope; [exact in_call_well_formed|reflexivity]. Defined.
Lemma call_changes_no_variable_witness :
  ends (fun s' => call_depth s' = call_depth in_call /\
      forall id, (id < next_env in_call)%positive -> envs s' !! id = envs in_call !! id)
    (call_function (evaluate some_lib 10 20) (execute some_lib 10 20)
       (MkFn (lit "f") [lit "$x"] false [set_x 5] globals [None]) [INT 1] in_call).
Proof. apply call_changes_no_variable; [exact in_call_well_formed|reflexivity]. Defined.
Lemma more_fuel_same_end_witness :
  exists r, interpret some_lib 10 20 (program "$x = 2; print($x);") start = Some r /\
    interpret some_lib 10 30 (program "$x = 2; print($x);") start = Some r.
Proof.
  eexists. split; [vm_compute; reflexivity|]. apply (more_fuel_same_end some_lib 10 20 30); [lia|vm_compute; reflexivity].
Defined.
Lemma default_recursion_never_ends_witness :
  interpret some_lib 10 100 [FunctionDeclaration (lit "f") [lit "$a"] [Some (CallExpression (Variable_ (lit "f")) [])] false [];
    ExpressionStatement (CallExpression (Variable_ (lit "f")) [])] start = None.
Proof. apply default_recursion_never_ends; reflexivity. Defined.

End CallsFacts.
