(* ===== verification/CallsSim.v ===== *)
(** The interpreter over shared environments (Calls) against the one over a
    stack of scopes (Interp, InterpStmt): on programs without functions, structs
    and modules they do the same. So what Engine and EngineStmt prove of the
    stack of scopes holds of the interpreter as it is written. *)

From S2P Require Import Prelude CNum Value Ast Interp InterpStmt Calls CallsFacts.
#[local] Open Scope Z_scope.

Module CallsSim.
Import CNum Value Ast Calls CallsFacts.

(** * Scopes of the store and of the stack *)

Fixpoint chain (m : gmap positive Cell) (ids : list positive) (en : Interp.Env) : Prop :=
  match ids, en with
  | [], [] => True
  | id :: ids, sc :: en =>
      m !! id = Some (MkCell (Interp.values_ sc) (head ids) (Interp.fn_boundary_ sc)) /\
      Forall (fun p => p < id)%positive ids /\ chain m ids en
  | _, _ => False
  end.

Record rel (ids : list positive) (o : bytes) (st : Interp.St) (s : CS) : Prop := {
  rel_chain : chain (envs s) ids (Interp.env st);
  rel_cur : head ids = Some (cur s);
  rel_new : Forall (fun id => id < next_env s)%positive ids;
  rel_heap : Interp.heap_ st = arrays s;
  rel_out : output s = o }.

Lemma chain_length m ids en : chain m ids en -> length ids = length en.
Proof. induction ids as [|id ids IH] in en |- *; destruct en; cbn; try done. intros (_ & _ & H). f_equal. auto. Qed.
Lemma chain_fuel m id ids en : chain m (id :: ids) en -> (length (id :: ids) <= Pos.to_nat id)%nat.
Proof.
  induction ids as [|p ids IH] in id, en |- *; intros H; [cbn; lia|].
  destruct en as [|sc en]; [done|]. destruct H as (_ & Hlt & H).
  pose proof (IH p en H). apply Forall_cons in Hlt as [Hp _]. cbn in *. lia.
Qed.
Lemma chain_get m n k id ids en :
  chain m (id :: ids) en -> (length (id :: ids) <= k)%nat -> find_var k m id n = Interp.env_get en n.
Proof.
  induction ids as [|p ids IH] in k, id, en |- *; intros H Hk; (destruct k as [|k]; [cbn in Hk; lia|]);
    (destruct en as [|sc en]; [done|]); destruct H as (Hm & Hlt & H); cbn [find_var Interp.env_get]; rewrite Hm; cbn [vals parent head].
  - by destruct en.
  - destruct (Interp.values_ sc !! n); [done|]. apply IH; [done|]. cbn in *. lia.
Qed.
Lemma chain_other m j f ids en : Forall (fun p => p < j)%positive ids -> chain m ids en -> chain (alter f j m) ids en.
Proof.
  induction ids as [|id ids IH] in en |- *; intros Hj H; [done|]. destruct en as [|sc en]; [done|].
  apply Forall_cons in Hj as [Hid Hj]. destruct H as (Hm & Hlt & H).
  cbn. rewrite lookup_alter_ne by lia. auto.
Qed.
Definition put (n : bytes) (v : Value) (c : Cell) : Cell := MkCell (<[n := v]> (vals c)) (parent c) (boundary c).
Lemma chain_define m id ids en n v :
  chain m (id :: ids) en -> chain (alter (put n v) id m) (id :: ids) (Interp.env_define en n v).
Proof.
  destruct en as [|sc en]; [done|]. intros (Hm & Hlt & H).
  cbn. rewrite lookup_alter_eq, Hm. cbn. split; [done|]. split; [done|]. by apply chain_other.
Qed.
Lemma chain_set m n v k id ids en :
  chain m (id :: ids) en -> (length (id :: ids) <= k)%nat ->
  match owner k m id n, Interp.env_set en n v with
  | Some j, Some en' => chain (alter (put n v) j m) (id :: ids) en' /\ (j <= id)%positive
  | None, None => True
  | _, _ => False
  end.
Proof.
  induction ids as [|p ids IH] in k, id, en |- *; intros H Hk; (destruct k as [|k]; [cbn in Hk; lia|]);
    (destruct en as [|sc en]; [done|]); pose proof H as (Hm & Hlt & H'); cbn [owner Interp.env_set]; rewrite Hm;
    cbn [vals parent boundary head].
  - destruct (Interp.values_ sc !! n); [|destruct en; [by destruct (Interp.fn_boundary_ sc)|done]].
    split; [|lia]. exact (chain_define _ _ _ _ n v H).
  - destruct (Interp.values_ sc !! n); [split; [|lia]; exact (chain_define _ _ _ _ n v H)|].
    destruct en as [|sc' en]; [done|]. destruct (Interp.fn_boundary_ sc) eqn:Hb; [done|].
    specialize (IH k p (sc' :: en) H' ltac:(cbn in *; lia)).
    destruct (owner k m p n) as [j|], (Interp.env_set (sc' :: en) n v) as [en'|]; try done.
    destruct IH as [IH Hj]. apply Forall_cons in Hlt as [Hp Hlt].
    split; [|lia]. split; [by cbn; rewrite lookup_alter_ne, Hb by lia|]. split; [by apply Forall_cons|done].
Qed.

Lemma rel_same ids o st s s' :
  rel ids o st s -> envs s' = envs s -> cur s' = cur s -> next_env s' = next_env s ->
  arrays s' = arrays s -> output s' = output s -> rel ids o st s'.
Proof. intros [] H1 H2 H3 H4 H5. constructor; rewrite ?H1, ?H2, ?H3, ?H4, ?H5; done. Qed.

(** * Expressions *)

Definition same_end {A} (i : Z) ids o (r : Interp.ev A) (r' : option (ans A)) : Prop :=
  match r with
  | Interp.EOk x st => exists s, r' = Some (Val x s) /\ rel ids o st s /\ iota_ s = i
  | Interp.EErr e st => exists s, r' = Some (Raise (XErr e) s) /\ rel ids o st s /\ iota_ s = i
  | _ => True
  end.
Definition simE {A} (i : Z) (m : Interp.E A) (m' : C A) : Prop :=
  forall ids o st s, rel ids o st s -> iota_ s = i -> same_end i ids o (m st) (m' s).

Section Expressions.
Context (i : Z).

Lemma sim_ret {A} (x : A) : simE i (Interp.eret x) (cret x).
Proof. intros ids o st s H Hi. by eexists. Qed.
Lemma sim_throw {A} m : simE i (@Interp.ethrow A m) (throw_ m).
Proof. intros ids o st s H Hi. by eexists. Qed.
Lemma sim_external {A} (m' : C A) : simE i Interp.eexternal m'.
Proof. done. Qed.
Lemma sim_bind {A B} (m : Interp.E A) m' (k : A -> Interp.E B) k' :
  simE i m m' -> (forall x, simE i (k x) (k' x)) -> simE i (Interp.ebind m k) (cbind m' k').
Proof.
  intros Hm Hk ids o st s H Hi. specialize (Hm ids o st s H Hi). unfold Interp.ebind, cbind.
  destruct (m st) as [x st1|e st1| |]; cbn in Hm; try done; destruct Hm as (s1 & -> & H1 & Hi1).
  - by apply Hk.
  - by exists s1.
Qed.
(** The heap is read where it is needed. *)
Lemma sim_heap {A} (f : heap -> res A) : simE i (Interp.ebind Interp.eheap (fun h => Interp.eres (f h))) (with_heap f).
Proof.
  intros ids o st s H Hi. unfold Interp.ebind, Interp.eheap, Interp.eres, with_heap. rewrite <- (rel_heap _ _ _ _ H).
  destruct (f _); [by exists s..|done].
Qed.
Lemma sim_res {A} (r : res A) : simE i (Interp.eres r) (with_heap (fun _ => r)).
Proof. intros ids o st s H Hi. unfold Interp.eres, with_heap. destruct r; [by exists s..|done]. Qed.
Lemma sim_truthy {B} v (k : bool -> Interp.E B) k' :
  (forall b, simE i (k b) (k' b)) -> simE i (Interp.ebind Interp.eheap (fun h => k (is_truthy h v))) (cbind (truthy v) k').
Proof.
  intros Hk ids o st s H Hi. unfold Interp.ebind, Interp.eheap, cbind, truthy. rewrite (rel_heap _ _ _ _ H). by apply Hk.
Qed.
Lemma sim_get n : simE i (Interp.eget n) (get_var n).
Proof.
  intros ids o st s H Hi. unfold Interp.eget, get_var. destruct H as [Hc Hcur Hn Hh Ho].
  destruct ids as [|id ids]; [done|]. injection Hcur as ->.
  rewrite (chain_get _ n _ _ _ _ Hc (chain_fuel _ _ _ _ Hc)).
  destruct (Interp.env_get _ n); (eexists; split; [done|]; by split).
Qed.
Lemma sim_assign n v : simE i (Interp.eassign n v) (assign n v).
Proof.
  intros ids o st s [Hc Hcur Hn Hh Ho] Hi. destruct ids as [|id ids]; [done|]. injection Hcur as ->.
  eexists. split; [done|]. split; [|done]. pose proof (chain_set _ n v _ _ _ _ Hc (chain_fuel _ _ _ _ Hc)) as H.
  constructor; cbn; try done. unfold Interp.env_assign.
  destruct (owner _ _ _ n) as [j|], (Interp.env_set _ n v) as [en|]; try done; cbn.
  - apply H.
  - by apply chain_define.
Qed.
Lemma sim_alloc vec : simE i (Interp.ealloc vec) (alloc vec).
Proof.
  intros ids o st s H Hi. unfold Interp.ealloc, alloc. rewrite (rel_heap _ _ _ _ H).
  eexists. split; [done|]. split; [|done]. by destruct H.
Qed.

(** What does not look at the environment is the same in both. *)
Definition env_free {A} (m : Interp.E A) : Prop := forall en h,
  m (Interp.MkSt en h) = match m (Interp.MkSt [] h) with
    | Interp.EOk x st => Interp.EOk x (Interp.MkSt en (Interp.heap_ st))
    | Interp.EErr e st => Interp.EErr e (Interp.MkSt en (Interp.heap_ st))
    | r => r end.
Lemma sim_lift {A} (m : Interp.E A) : env_free m -> simE i m (lift m).
Proof.
  intros Hf ids o [en h] s [Hc Hcur Hn Hh Ho] Hi. cbn in Hh. subst h. rewrite Hf. unfold lift.
  destruct (m _) as [x st|e st| |]; try done; (eexists; split; [done|]; split; [by constructor|done]).
Qed.
Lemma env_free_bind {A B} (m : Interp.E A) (k : A -> Interp.E B) :
  env_free m -> (forall x, env_free (k x)) -> env_free (Interp.ebind m k).
Proof.
  intros Hm Hk en h. unfold Interp.ebind. rewrite (Hm en h).
  destruct (m (Interp.MkSt [] h)) as [x [en' h']|e [en' h']| |] eqn:E; try done. cbn [Interp.heap_].
  rewrite (Hk x en h'), (Hk x en' h'). by destruct (k x _).
Qed.
Lemma env_free_res {A} (r : res A) : env_free (Interp.eres r).
Proof. intros en h. by destruct r. Qed.
Ltac env_free := repeat lazymatch goal with
  | |- env_free (Interp.ebind _ _) => apply env_free_bind; [|intros ?]
  | |- env_free (match ?x with _ => _ end) => destruct x
  | |- env_free (Interp.eres _) => apply env_free_res
  | |- _ => done
  end.
Lemma env_free_index L depth o ix : env_free (Interp.index_value L depth o ix).
Proof. unfold Interp.index_value. env_free. Qed.
Lemma env_free_member L depth o f : env_free (Interp.member_value L depth o f).
Proof. unfold Interp.member_value. env_free. Qed.
Lemma env_free_element L depth l ix o v : env_free (Interp.element_assign L depth l ix o v).
Proof. unfold Interp.element_assign. cbv zeta. env_free. Qed.

(** A text without an interpolation is its own value. *)
Lemma interpolate_plain L depth ev k raw acc : Interp.has_interp raw = false -> (length raw <= k)%nat ->
  interpolate L depth ev k raw acc = cret (acc ++ raw).
Proof.
  induction raw as [|c raw IH] in k, acc |- *; intros H Hk; (destruct k as [|k]; cbn in Hk; try lia);
    try (cbn; by rewrite app_nil_r).
  assert (H' : starts_interp (c :: raw) = false /\ Interp.has_interp raw = false)
    by (destruct raw; [done|]; by apply orb_false_iff in H).
  destruct H' as [H1 H2]. cbn [interpolate]. rewrite H1, IH by (done || lia). by rewrite <- app_assoc.
Qed.

End Expressions.

(** The depth of an expression, for the part that Interp translates. *)
Fixpoint esize (e : Expression) : nat :=
  let of_list := fix of_list l := match l with [] => O | e :: l => Nat.max (esize e) (of_list l) end in
  let of_pairs := fix of_pairs l := match l with
    | [] => O | (k, v) :: l => Nat.max (Nat.max (esize k) (esize v)) (of_pairs l) end in
  let of_option o := match o with Some e => esize e | None => O end in
  S match e with
    | ArrayLiteral l => of_list l
    | AssocArrayLiteral l => of_pairs l
    | IndexExpression a b | BinaryExpression a _ b => Nat.max (esize a) (esize b)
    | UnaryExpression _ a _ | MemberAccessExpression a _ => esize a
    | AssignmentExpression _ _ o ix v => Nat.max (Nat.max (of_option o) (of_option ix)) (esize v)
    | TernaryExpression a b c => Nat.max (esize a) (Nat.max (esize b) (esize c))
    | _ => O
    end.

Section Evaluation.
Context (L : Lib) (depth : nat).

Ltac sim := repeat lazymatch goal with
  | |- simE _ (Interp.ebind Interp.eheap (fun h => if is_truthy h ?v then ?a else ?b)) _ =>
      apply (sim_truthy _ v (fun t => if t then a else b)); intros []
  | |- simE _ (Interp.ebind Interp.eheap (fun h => Interp.eret (BOOL (is_truthy h ?v)))) _ =>
      apply (sim_truthy _ v (fun t => Interp.eret (BOOL t))); intros ?
  | |- simE _ (Interp.ebind Interp.eheap _) (with_heap _) => apply sim_heap
  | |- simE _ (Interp.ebind _ _) _ => apply sim_bind; [|intros ?]
  | |- simE _ (Interp.eret _) _ => apply sim_ret
  | |- simE _ (Interp.ethrow _) _ => apply sim_throw
  | |- simE _ Interp.eexternal _ => apply sim_external
  | |- simE _ (Interp.eres _) _ => apply sim_res
  | |- simE _ (Interp.eget _) _ => apply sim_get
  | |- simE _ (Interp.eassign _ _) _ => apply sim_assign
  | |- simE _ (Interp.ealloc _) _ => apply sim_alloc
  | |- simE _ (Interp.index_value _ _ _ _) _ => apply sim_lift, env_free_index
  | |- simE _ (Interp.member_value _ _ _ _) _ => apply sim_lift, env_free_member
  | |- simE _ (Interp.element_assign _ _ _ _ _ _) _ => apply sim_lift, env_free_element
  | |- simE _ (match ?x with _ => _ end) _ => destruct x eqn:?
  end.

Lemma sim_expression i n : forall e, (esize e <= n)%nat ->
  simE i (Interp.evaluate_expression L depth e) (evaluate L depth n e).
Proof.
  induction n as [|n IH]; intros e He; [destruct e; cbn in He; lia|].
  destruct e as [v raw| | | | |els|ps|? ? ? ? ?| |o ix|o x pre|l o r|x o ob [ix|] v|? ?|c t f|? ?| |o f|? ?];
    cbn [evaluate eval_step Interp.evaluate_expression]; try apply sim_external; try solve [sim; apply IH; cbn in He; lia].
  - destruct raw; [apply sim_ret|]. cbn [orb]. destruct (Interp.has_interp v) eqn:Hv; [apply sim_external|].
    intros ids out st s H Hi. unfold cbind, interpolate_string. rewrite interpolate_plain by done. by apply sim_ret.
  - apply sim_bind; [|intros; apply sim_alloc]. clear -He IH.
    induction els as [|e els IHl]; [apply sim_ret|]. cbn in He. cbn [evs].
    apply sim_bind; [apply IH; lia|]. intros v. apply sim_bind; [apply IHl; cbn; lia|]. intros vs. apply sim_ret.
  - apply sim_bind; [|intros; apply sim_alloc]. clear -He IH.
    induction ps as [|[k v] ps IHl]; [apply sim_ret|]. cbn in He. cbn [ev_pairs].
    apply sim_bind; [apply IH; lia|]. intros kv. apply sim_bind; [apply IH; lia|]. intros vv.
    apply sim_bind; [apply IHl; cbn; lia|]. intros vs. apply sim_ret.
Qed.
(** [iota] as a variable of the interpreter, and put into the expression *)
Lemma sim_iota i n : forall e, (esize e <= n)%nat ->
  simE i (Interp.evaluate_expression L depth (InterpStmt.iota_expr i e)) (evaluate L depth n e).
Proof.
  induction n as [|n IH]; intros e He; [destruct e; cbn in He; lia|].
  destruct e; cbn [InterpStmt.iota_expr]; try (by apply sim_expression).
  - cbn [evaluate eval_step Interp.evaluate_expression]. cbn in He. destruct (_ || _).
    + destruct e; cbn [InterpStmt.iota_expr]; sim.
    + sim. apply IH. lia.
  - cbn [evaluate eval_step Interp.evaluate_expression]. cbn in He. sim; apply IH; lia.
  - cbn [evaluate eval_step Interp.evaluate_expression]. cbn in He. sim; apply IH; lia.
  - intros ids out st s H <-. by exists s.
Qed.
End Evaluation.

(** * Statements *)

Definition end_of (o : InterpStmt.completion) (s : CS) : ans unit :=
  match o with
  | InterpStmt.ONormal => Val tt s
  | InterpStmt.OBreak => Raise XBreak s
  | InterpStmt.OContinue => Raise XContinue s
  | InterpStmt.OReturn v => Raise (XReturn v) s
  | InterpStmt.OErr m => Raise (XErr m) s
  | InterpStmt.OThrow v => Raise (XThrow v) s
  end.
Definition exc_of (o : InterpStmt.completion) : exc :=
  match o with
  | InterpStmt.ONormal => XBreak
  | InterpStmt.OBreak => XBreak
  | InterpStmt.OContinue => XContinue
  | InterpStmt.OReturn v => XReturn v
  | InterpStmt.OErr m => XErr m
  | InterpStmt.OThrow v => XThrow v
  end.
Definition rels (ids : list positive) (x : InterpStmt.XS) (s : CS) : Prop :=
  rel ids (InterpStmt.out x) (InterpStmt.xst x) s.

(** The same end; only an exception of what is not [closed] leaves scopes. *)
Definition same_exit (closed : bool) ids (r : option InterpStmt.sres) (r' : option (ans unit)) : Prop :=
  match r with
  | Some (InterpStmt.SOut o x) => exists s extra,
      r' = Some (end_of o s) /\ rels (extra ++ ids) x s /\ (closed = true \/ o = InterpStmt.ONormal -> extra = [])
  | _ => True
  end.
Definition simX (closed : bool) (m : InterpStmt.Exec) (m' : C unit) : Prop :=
  forall ids x s, rels ids x s -> same_exit closed ids (m x) (m' s).

Lemma simX_open b m m' : simX true m m' -> simX b m m'.
Proof.
  intros H ids x s R. specialize (H ids x s R). destruct (m x) as [[o y| |]|]; try done.
  destruct H as (s1 & extra & -> & R1 & He). exists s1, extra. split; [done|]. split; [done|]. auto.
Qed.
Lemma simX_ext b m m' m'' : (forall s, m' s = m'' s) -> simX b m m'' -> simX b m m'.
Proof. intros E H ids x s R. rewrite E. by apply H. Qed.
Lemma cbind_assoc {A B D} (m : C A) (f : A -> C B) (g : B -> C D) s :
  cbind (cbind m f) g s = cbind m (fun x => cbind (f x) g) s.
Proof. unfold cbind. by destruct (m s) as [[]|]. Qed.
Lemma simX_leave b o : o <> InterpStmt.ONormal -> simX b (InterpStmt.leave o) (raise (exc_of o)).
Proof. intros H ids x s R. exists s, []. by destruct o. Qed.
Lemma simX_done b : simX b InterpStmt.no_effect (cret tt).
Proof. intros ids x s R. by exists s, []. Qed.
Lemma simX_external b m' : simX b (fun _ => Some InterpStmt.SExternal) m'.
Proof. done. Qed.
Lemma simX_eval {A} b (m : Interp.E A) m' k k' :
  (forall i, simE i m m') -> (forall v, simX b (k v) (k' v)) -> simX b (InterpStmt.eval m k) (cbind m' k').
Proof.
  intros Hm Hk ids x s R. specialize (Hm (iota_ s) ids _ _ s R eq_refl). unfold InterpStmt.eval, cbind.
  destruct (m (InterpStmt.xst x)) as [v st|e st| |]; cbn in Hm; try done; destruct Hm as (s1 & -> & R1 & _).
  - by apply Hk.
  - by exists s1, [].
Qed.
Lemma simX_then b m m' k k' : simX b m m' -> simX b k k' -> simX b (InterpStmt.andthen m k) (let+ _ := m' in k').
Proof.
  intros Hm Hk ids x s R. specialize (Hm ids x s R). unfold InterpStmt.andthen, cbind.
  destruct (m x) as [[o y| |]|]; try done. destruct Hm as (s1 & extra & -> & R1 & He).
  destruct o; try (by exists s1, extra). rewrite He in R1 by auto. by apply Hk.
Qed.
Lemma simX_truthy b v m1 m2 m1' m2' : simX b m1 m1' -> simX b m2 m2' ->
  simX b (fun x => if InterpStmt.truthy x v then m1 x else m2 x) (let+ t := truthy v in if t : bool then m1' else m2').
Proof.
  intros H1 H2 ids x s R. unfold cbind, truthy, InterpStmt.truthy. rewrite (rel_heap _ _ _ _ R).
  destruct (is_truthy _ _); auto.
Qed.

(** ** Scopes *)

Lemma chain_fresh m j c ids en :
  Forall (fun p => p < j)%positive ids -> chain m ids en -> chain (<[j := c]> m) ids en.
Proof.
  induction ids as [|id ids IH] in en |- *; intros Hj H; [done|]. destruct en as [|sc en]; [done|].
  apply Forall_cons in Hj as [Hid Hj]. destruct H as (Hm & Hlt & H). cbn. rewrite lookup_insert_ne by lia. auto.
Qed.
Lemma rels_scope vars ids x s : rels ids x s ->
  rels (next_env s :: ids) (InterpStmt.open_scope vars x) (set_cur (next_env s) (with_scope (cur s) false vars s)).
Proof.
  intros [Hc Hcur Hn Hh Ho]. constructor; cbn; try done.
  - rewrite lookup_insert_eq, Hcur. split; [done|]. split; [done|]. by apply chain_fresh.
  - constructor; [lia|]. eapply Forall_impl; [exact Hn|]. cbn. lia.
Qed.
Lemma chain_suffix m extra ids en : chain m (extra ++ ids) en -> chain m ids (drop (length extra) en).
Proof. induction extra as [|e extra IH] in en |- *; [done|]. destruct en as [|sc en]; [done|]. intros (_ & _ & H). cbn. auto. Qed.
Lemma rels_restore extra ids id0 n x s : head ids = Some id0 -> length ids = n -> rels (extra ++ ids) x s ->
  rels ids (InterpStmt.restore n x) (set_cur id0 s).
Proof.
  intros Hid Hn [Hc Hcur Hnew Hh Ho]. pose proof (chain_length _ _ _ Hc) as Hl. rewrite length_app in Hl.
  constructor; cbn; try done; [|by apply Forall_app in Hnew as [_ ?]].
  replace (_ - n)%nat with (length extra) by lia. by apply chain_suffix.
Qed.
Lemma simX_scoped b vars m m' : simX false m m' -> simX b (InterpStmt.scoped vars m) (scoped vars m').
Proof.
  intros H. apply simX_open. intros ids x s R. pose proof (H _ _ _ (rels_scope vars ids x s R)) as Hm.
  set (s1 := set_cur (next_env s) (with_scope (cur s) false vars s)) in *.
  change (scoped vars m' s) with (restoring (cur s) m' s1).
  unfold InterpStmt.scoped, restoring, catch, cbind. destruct (m _) as [[o y| |]|]; try done. cbn [InterpStmt.on_out].
  destruct Hm as (s2 & extra & -> & R1 & _). exists (set_cur (cur s) s2), [].
  split; [by destruct o|]. split; [|done].
  apply (rels_restore (extra ++ [next_env s])); [apply R|apply (chain_length _ _ _ (rel_chain _ _ _ _ R))|].
  by rewrite <- app_assoc.
Qed.
Lemma simX_for_scope m m' : simX false m m' -> simX false (InterpStmt.for_scope m) (for_scope m').
Proof.
  intros H ids x s R. pose proof (H _ _ _ (rels_scope ∅ ids x s R)) as Hm.
  set (s1 := set_cur (next_env s) (with_scope (cur s) false ∅ s)) in *.
  change (for_scope m' s) with ((let+ _ := m' in enter (cur s)) s1).
  unfold InterpStmt.for_scope, cbind. destruct (m _) as [[o y| |]|]; try done. destruct Hm as (s2 & extra & -> & R1 & He).
  destruct o; try (exists s2, (extra ++ [next_env s]); split; [done|]; split; [by rewrite <- app_assoc|by intros []]).
  exists (set_cur (cur s) s2), []. split; [done|]. split; [|done]. rewrite He in R1 by auto.
  by apply (rels_restore [next_env s]); [apply R|apply (chain_length _ _ _ (rel_chain _ _ _ _ R))|].
Qed.

(** ** Loops *)

Lemma simX_turn b body body' again again' : simX true body body' -> simX b again again' ->
  simX b (fun x => InterpStmt.after_body again (body x)) (turn body' again').
Proof.
  intros Hb Ha ids x s R. specialize (Hb ids x s R). unfold turn, catch, cbind.
  destruct (body x) as [[o y| |]|]; try done. destruct Hb as (s1 & extra & -> & R1 & He).
  rewrite (He (or_introl eq_refl)) in R1. destruct o; cbn; [by apply Ha|by exists s1, []|by apply Ha|by exists s1, []..].
Qed.

Section Execution.
Context (L : Lib) (depth F n : nat).
Hypothesis enough : (F <= n)%nat.
Notation ieval := (Interp.evaluate_expression L depth).
Notation ev := (evaluate L depth n).

Lemma simX_expr b e k k' : (esize e <= n)%nat -> (forall v, simX b (k v) (k' v)) ->
  simX b (InterpStmt.eval_expr L depth e k) (cbind (ev e) k').
Proof. intros He. apply simX_eval. intros i. by apply sim_expression. Qed.

Lemma simX_while k k' c body body' : (k <= k')%nat -> (esize c <= n)%nat -> simX true body body' ->
  simX true (InterpStmt.while_loop L depth k c body) (while_loop ev k' c body').
Proof.
  intros Hk Hc Hb. induction k as [|k IH] in k', Hk |- *; [done|]. destruct k' as [|k']; [lia|].
  specialize (IH k' ltac:(lia)). cbn [InterpStmt.while_loop while_loop].
  apply (simX_expr true c (fun v x => if InterpStmt.truthy x v then _ else _)); [done|]. intros v.
  apply (simX_truthy true v (fun x => InterpStmt.after_body (InterpStmt.while_loop L depth k c body) (body x))
    InterpStmt.no_effect); [by apply simX_turn|apply simX_done].
Qed.
Definition opt_size (e : option Expression) : nat := match e with Some e => esize e | None => O end.
Lemma simX_for k k' c post body body' : (k <= k')%nat -> (opt_size c <= n)%nat -> (opt_size post <= n)%nat ->
  simX true body body' -> simX true (InterpStmt.for_loop L depth k c post body) (for_loop ev k' c post body').
Proof.
  intros Hk Hc Hp Hb. induction k as [|k IH] in k', Hk |- *; [done|]. destruct k' as [|k']; [lia|].
  specialize (IH k' ltac:(lia)). cbn [InterpStmt.for_loop for_loop]. cbv zeta.
  assert (Hagain : simX true (fun x => match post with
      | Some p => InterpStmt.eval_expr L depth p (fun _ => InterpStmt.for_loop L depth k c post body) x
      | None => InterpStmt.for_loop L depth k c post body x end)
    (match post with Some p => let+ _ := ev p in for_loop ev k' c post body' | None => for_loop ev k' c post body' end)).
  { destruct post as [p|]; [|exact IH]. apply (simX_expr true p (fun _ => _)); [exact Hp|by intros]. }
  pose proof (simX_turn true body body' _ _ Hb Hagain) as Ht. destruct c as [c|]; [|exact Ht].
  apply (simX_expr true c (fun v x => if InterpStmt.truthy x v then _ else _)); [done|]. intros v.
  apply (simX_truthy true v _ InterpStmt.no_effect); [exact Ht|apply simX_done].
Qed.
Lemma simX_foreach it key x body body' : simX false body body' ->
  simX true (InterpStmt.foreach F it key x body) (foreach n it key x body').
Proof.
  intros Hb.
  assert (H1 : forall k k' l i, (k <= k')%nat ->
    simX true (InterpStmt.foreach_loop k l i key x body) (foreach_loop k' l i key x body')).
  { induction k as [|k IH]; intros k' l i Hk ids y s R; [done|]. destruct k' as [|k']; [lia|].
    cbn [InterpStmt.foreach_loop foreach_loop]. cbv zeta. rewrite (rel_heap _ _ _ _ R).
    destruct (_ !! i); [|by apply (simX_done true)].
    by apply (simX_turn true _ _ _ _ (simX_scoped true _ _ _ Hb) (IH k' l (S i) ltac:(lia))). }
  assert (H2 : forall k k' l i, (k <= k')%nat ->
    simX true (InterpStmt.foreach_pairs k l i key x body) (foreach_pairs k' l i key x body')).
  { induction k as [|k IH]; intros k' l i Hk ids y s R; [done|]. destruct k' as [|k']; [lia|].
    cbn [InterpStmt.foreach_pairs foreach_pairs]. cbv zeta. rewrite (rel_heap _ _ _ _ R).
    destruct (_ !! i); [|by apply (simX_done true)]. destruct (_ !! S i); [|by apply (simX_done true)].
    by apply (simX_turn true _ _ _ _ (simX_scoped true _ _ _ Hb) (IH k' l (S (S i)) ltac:(lia))). }
  intros ids y s R. unfold InterpStmt.foreach, foreach. rewrite (rel_heap _ _ _ _ R).
  destruct it; try (by exists s, []). destruct (Interp.is_assoc _); [by apply H2|by apply H1].
Qed.

(** ** Output, [switch], [try] and [const] *)

Definition list_size (l : list Expression) : nat := list_max (map esize l).

Lemma env_free_text v :
  env_free (Interp.ebind Interp.eheap (fun h => Interp.eres (to_string L depth h v))).
Proof. apply env_free_bind; [done|]. intros h. apply env_free_res. Qed.
Lemma simX_output es : (list_size es <= n)%nat -> forall first acc k k', (forall t, simX true (k t) (k' t)) ->
  simX true (InterpStmt.build_output L depth first es acc k) (cbind (build_output L depth ev first es acc) k').
Proof.
  induction es as [|e es IH]; intros Hn first acc k k' Hk; [exact (Hk acc)|]. change (Nat.max (esize e) (list_size es) <= n)%nat in Hn.
  cbn [InterpStmt.build_output build_output]. eapply simX_ext; [apply cbind_assoc|].
  apply simX_expr; [lia|]. intros v. eapply simX_ext; [apply cbind_assoc|].
  apply simX_eval; [intros i; apply sim_lift, env_free_text|]. intros t. apply IH; [lia|done].
Qed.
Lemma simX_emit t : simX true (InterpStmt.write t) (emit t).
Proof. intros ids x s [Hc Hcur Hn Hh Ho]. eexists _, []. split; [done|]. split; [|done]. constructor; cbn; try done. by rewrite Ho. Qed.

Lemma simX_matches v vs : (list_size vs <= n)%nat -> forall k k', (forall b : bool, simX true (k b) (k' b)) ->
  simX true (InterpStmt.case_matches L depth v vs k) (cbind (case_matches ev v vs) k').
Proof.
  induction vs as [|e vs IH]; intros Hn k k' Hk; [exact (Hk false)|]. change (Nat.max (esize e) (list_size vs) <= n)%nat in Hn.
  cbn [InterpStmt.case_matches case_matches]. eapply simX_ext; [apply cbind_assoc|].
  apply simX_expr; [lia|]. intros w. destruct (op_eq v w); [exact (Hk true)|]. apply IH; [lia|done].
Qed.
Lemma simX_cases ib (kb : option (list Statement) -> C unit) v cases :
  (forall c, In c cases -> (list_size c.1 <= n)%nat /\ simX true (ib c.2) (kb (Some c.2))) ->
  forall d d', simX true d (kb d') ->
  simX true (InterpStmt.find_case L depth v (map (fun '(vs, b) => (vs, ib b)) cases) d) (cbind (find_case ev v cases d') kb).
Proof.
  induction cases as [|[vs body] cases IH]; intros Hc d d' Hd; [exact Hd|].
  destruct (Hc _ (or_introl eq_refl)) as [Hs Hb]. cbn in Hs, Hb.
  specialize (IH (fun c H => Hc c (or_intror H))). destruct vs as [|e vs]; [by apply IH|].
  cbn [map InterpStmt.find_case find_case]. eapply simX_ext; [apply cbind_assoc|].
  apply simX_matches; [done|]. intros []; [exact Hb|]. by apply IH.
Qed.
Lemma simX_run_case m l ex : simX false m (stmts ex l) -> simX true (InterpStmt.run_case m) (run_case ex l).
Proof.
  intros H ids x s R. pose proof (simX_scoped true ∅ _ _ H ids x s R) as Hs. unfold InterpStmt.run_case, run_case, catch.
  destruct (InterpStmt.scoped ∅ m x) as [[o y| |]|]; try done. destruct Hs as (s1 & extra & -> & R1 & He).
  rewrite (He (or_introl eq_refl)) in R1. by destruct o; exists s1, [].
Qed.

Lemma simX_define x v m m' : simX true m m' ->
  simX true (fun y => m (match x with [] => y | _ => InterpStmt.define_here x v y end))
    (let+ _ := match x with [] => cret tt | _ => define x v end in m').
Proof.
  intros H ids y s R. destruct x as [|c x]; [by apply (H ids)|]. destruct R as [Hc Hcur Hn Hh Ho].
  apply (H ids). destruct ids as [|id ids]; [done|]. injection Hcur as ->. constructor; try done. by apply chain_define.
Qed.

Section Try.
Context (ex : Statement -> C unit) (fin : option (list Statement)) (mf : option InterpStmt.Exec).
Let finally := match mf with Some m => m | None => InterpStmt.no_effect end.
Hypothesis fin_sim : simX true finally (opt_block ex fin).

Lemma simX_rethrow o : o <> InterpStmt.ONormal ->
  simX true (InterpStmt.andthen finally (InterpStmt.leave o)) (let+ _ := opt_block ex fin in raise (exc_of o)).
Proof. intros Ho. apply simX_then; [done|]. by apply simX_leave. Qed.
Lemma simX_run_catch c l : simX true c (execute_block ex l) ->
  simX true (fun x => match c x with
      | Some (InterpStmt.SOut ((InterpStmt.OReturn _ | InterpStmt.OBreak | InterpStmt.OContinue) as o) x) =>
          InterpStmt.andthen finally (InterpStmt.leave o) x
      | r => r end)
    (catch (execute_block ex l) (fun e => match e with
      | XReturn _ | XBreak | XContinue | XExit _ => let+ _ := opt_block ex fin in raise e | _ => raise e end)).
Proof.
  intros H ids x s R. specialize (H ids x s R). unfold catch.
  destruct (c x) as [[o y| |]|]; try done. destruct H as (s1 & extra & -> & R1 & He).
  rewrite (He (or_introl eq_refl)) in R1. destruct o; cbn [end_of]; try (by exists s1, []).
  - by apply (simX_rethrow InterpStmt.OBreak).
  - by apply (simX_rethrow InterpStmt.OContinue).
  - by apply (simX_rethrow (InterpStmt.OReturn v)).
Qed.
Lemma simX_try body x c mb mc :
  simX true mb (execute_block ex body) ->
  match c, mc with
  | Some l, Some m => simX true m (execute_block ex l) | None, None => True | _, _ => False end ->
  simX true (InterpStmt.exec_try_statement mb x mc mf) (try_statement ex body x c fin).
Proof.
  intros Hb Hc ids y s R. unfold InterpStmt.exec_try_statement, try_statement. cbv zeta. fold finally.
  specialize (Hb ids y s R).
  match goal with |- same_exit _ _ _ (cbind (catch _ ?h0) _ s) => set (h := h0) end.
  assert (Hstep : forall e s1, execute_block ex body s = Some (Raise e s1) ->
    cbind (catch (execute_block ex body) h) (fun _ => opt_block ex fin) s = cbind (h e) (fun _ => opt_block ex fin) s1).
  { intros e s1 E. unfold cbind at 1, catch. by rewrite E. }
  assert (Hre : forall o s1 z, o <> InterpStmt.ONormal -> rels ids z s1 ->
    h (exc_of o) = (let+ _ := opt_block ex fin in raise (exc_of o)) ->
    same_exit true ids (InterpStmt.andthen finally (InterpStmt.leave o) z) (cbind (h (exc_of o)) (fun _ => opt_block ex fin) s1)).
  { intros o s1 z Ho Rz ->. rewrite cbind_assoc. by apply simX_rethrow. }
  assert (Hcatch : forall l m v z s1, c = Some l -> mc = Some m -> rels ids z s1 -> simX true m (execute_block ex l) ->
    same_exit true ids (InterpStmt.andthen (fun x => match m x with
      | Some (InterpStmt.SOut ((InterpStmt.OReturn _ | InterpStmt.OBreak | InterpStmt.OContinue) as o) x) =>
          InterpStmt.andthen finally (InterpStmt.leave o) x
      | r => r end) finally (match x with [] => z | _ => InterpStmt.define_here x v z end))
    (cbind (let+ _ := match x with [] => cret tt | _ => define x v end in
       catch (execute_block ex l) (fun e => match e with
         | XReturn _ | XBreak | XContinue | XExit _ => let+ _ := opt_block ex fin in raise e | _ => raise e end))
      (fun _ => opt_block ex fin) s1)).
  { intros l m v z s1 -> -> Rz Hm. rewrite cbind_assoc.
    apply (simX_define x v (InterpStmt.andthen _ finally)); [|done]. apply simX_then; [by apply simX_run_catch|done]. }
  destruct (mb y) as [[o z| |]|]; try done. destruct Hb as (s1 & extra & E & R1 & He).
  rewrite (He (or_introl eq_refl)) in R1. cbn [app] in R1.
  destruct o; cbn [end_of] in E.
  - unfold cbind, catch. rewrite E. by apply fin_sim.
  - rewrite (Hstep _ _ E). by apply (Hre InterpStmt.OBreak).
  - rewrite (Hstep _ _ E). by apply (Hre InterpStmt.OContinue).
  - rewrite (Hstep _ _ E). by apply (Hre (InterpStmt.OReturn v)).
  - rewrite (Hstep _ _ E). subst h. cbn beta iota. destruct c as [l|], mc as [m|]; try done.
    + by apply (Hcatch l m (STRING msg)).
    + by apply (Hre (InterpStmt.OErr msg)).
  - rewrite (Hstep _ _ E). subst h. cbn beta iota. destruct c as [l|], mc as [m|]; try done.
    + by apply (Hcatch l m v).
    + by apply (Hre (InterpStmt.OThrow v)).
Qed.
End Try.

Lemma simX_iota i b m m' : simX b m m' -> simX b m (let+ _ := modify (set_iota i) in m').
Proof. intros H ids x s [Hc Hcur Hn Hh Ho]. by apply (H ids). Qed.
Lemma simX_const items : (list_max (map (fun it => opt_size it.2) items) <= n)%nat ->
  forall i last, (opt_size last <= n)%nat ->
  simX true (InterpStmt.exec_const_block L depth i last items) (const_block ev i last items).
Proof.
  induction items as [|[x v] items IH]; intros Hn i last Hl.
  { intros ids y s [Hc Hcur Hn' Hh Ho]. eexists _, []. split; [done|]. split; [by constructor|done]. }
  change (Nat.max (opt_size v) (list_max (map (fun it => opt_size it.2) items)) <= n)%nat in Hn.
  cbn [InterpStmt.exec_const_block const_block]. cbv zeta.
  set (e := match v with Some e => Some e | None => last end).
  assert (Hs : (opt_size e <= n)%nat) by (subst e; destruct v; [lia|done]).
  assert (Hk : forall val, simX true (InterpStmt.eval (Interp.eassign x val) (fun _ => InterpStmt.exec_const_block L depth (i + 1) e items))
    (let+ _ := assign x val in const_block ev (i + 1) e items)).
  { intros val. apply simX_eval; [intros; apply sim_assign|]. intros _. apply IH; [lia|done]. }
  intros ids y s R.
  assert (R' : rels ids y (set_iota i s)) by (destruct R; by constructor).
  unfold cbind at 1. cbn [modify]. unfold InterpStmt.eval_expr, InterpStmt.eval, cbind at 1.
  assert (Hsim : simE i (ieval (match e with Some e => InterpStmt.iota_expr i e | None => NumberLiteral i end))
    (match e with Some e => ev e | None => cret (INT i) end)) by (destruct e; [by apply sim_iota|apply sim_ret]).
  specialize (Hsim ids _ _ _ R' eq_refl).
  destruct (ieval _ _) as [val st|m st| |]; try done; destruct Hsim as (s1 & -> & R1 & _).
  - by apply Hk.
  - by exists s1, [].
Qed.
(** ** [execute_statement] *)

Fixpoint ssize (st : Statement) : nat :=
  let ss := fix ss l := match l with [] => O | s :: l => Nat.max (ssize s) (ss l) end in
  let oss o := match o with Some l => ss l | None => O end in
  S match st with
    | ExpressionStatement e | ThrowStatement e => esize e
    | PrintStatement es | WriteStatement es => list_size es
    | ReturnStatement e => opt_size e
    | BlockStatement l => ss l
    | IfStatement c t e => Nat.max (esize c) (Nat.max (ss t) (oss e))
    | WhileStatement c b => Nat.max (esize c) (ss b)
    | ForStatement i c p b =>
        Nat.max (match i with Some i => ssize i | None => O end) (Nat.max (Nat.max (opt_size c) (opt_size p)) (ss b))
    | ForeachStatement it _ _ b => Nat.max (esize it) (ss b)
    | TryCatchStatement t _ c f => Nat.max (ss t) (Nat.max (oss c) (oss f))
    | SwitchStatement e cases =>
        Nat.max (esize e) ((fix cs l := match l with [] => O | (vs, b) :: l => Nat.max (Nat.max (list_size vs) (ss b)) (cs l) end) cases)
    | ConstBlock items => list_max (map (fun it => opt_size it.2) items)
    | _ => O
    end.
Definition sizes (l : list Statement) : nat := list_max (map ssize l).
Lemma sizes_fix l : (fix ss l := match l with [] => O | s :: l => Nat.max (ssize s) (ss l) end) l = sizes l.
Proof. induction l as [|s l IH]; [done|]. cbn. by rewrite IH. Qed.
End Execution.

Section Statements.
Context (L : Lib) (depth F : nat).

Definition istmts := fix stmts (l : list Statement) : InterpStmt.Exec :=
  match l with [] => InterpStmt.no_effect | s :: l => InterpStmt.andthen (InterpStmt.execute_statement L depth F s) (stmts l) end.

Lemma simX_stmts n l :
  (forall st, (ssize st + F <= n)%nat -> simX false (InterpStmt.execute_statement L depth F st) (execute L depth n st)) ->
  (sizes l + F <= n)%nat -> simX false (istmts l) (stmts (execute L depth n) l).
Proof.
  intros H. induction l as [|st l IH]; intros Hn; [apply simX_done|].
  change (Nat.max (ssize st) (sizes l) + F <= n)%nat in Hn.
  cbn [istmts stmts]. apply simX_then; [apply H; lia|apply IH; lia].
Qed.

Lemma simX_statement n : forall st, (ssize st + F <= n)%nat ->
  simX false (InterpStmt.execute_statement L depth F st) (execute L depth n st).
Proof.
  induction n as [|n IH]; intros st Hn; [destruct st; cbn in Hn; lia|].
  pose proof (fun l => simX_stmts n l IH) as Hl.
  assert (Hblock : forall b l, (sizes l + F <= n)%nat ->
    simX b (InterpStmt.scoped ∅ (istmts l)) (execute_block (execute L depth n) l))
    by (intros b l H; apply simX_scoped; by apply Hl).
  destruct st; try apply simX_external; cbn [execute exec_step InterpStmt.execute_statement]; cbv zeta; fold istmts;
    cbn [ssize] in Hn; rewrite ?sizes_fix in Hn.
  - apply (simX_expr L depth n false _ _ (fun _ => cret tt)); [lia|]. intros _. apply simX_done.
  - apply simX_open, (simX_output L depth F n ltac:(lia)); [lia|]. intros t. apply simX_emit.
  - apply simX_open, (simX_output L depth F n ltac:(lia)); [lia|]. intros t. apply simX_emit.
  - destruct expression as [e|]; cbn in Hn; [|by apply (simX_leave false (InterpStmt.OReturn NONE))].
    apply (simX_expr L depth n false); [lia|]. intros v. by apply (simX_leave false (InterpStmt.OReturn v)).
  - apply (simX_expr L depth n false); [lia|]. intros v. by apply (simX_leave false (InterpStmt.OThrow v)).
  - by apply (simX_leave false InterpStmt.OBreak).
  - by apply (simX_leave false InterpStmt.OContinue).
  - apply Hblock. lia.
  - apply (simX_expr L depth n false); [lia|]. intros v.
    apply (simX_truthy false v (InterpStmt.scoped ∅ (istmts then_branch))
      (fun x => match else_branch with Some e => InterpStmt.scoped ∅ (istmts e) x | None => InterpStmt.no_effect x end));
      [apply Hblock; lia|].
    destruct else_branch as [e|]; [|apply simX_done]. rewrite sizes_fix in Hn. apply (Hblock false e). lia.
  - apply simX_open, (simX_while L depth F n ltac:(lia)); [lia..|]. apply Hblock. lia.
  - apply simX_for_scope, simX_then.
    + destruct init as [i|]; [apply IH; lia|apply simX_done].
    + apply simX_open, (simX_for L depth F n ltac:(lia)); [lia..|]. apply Hblock. lia.
  - apply (simX_expr L depth n false); [lia|]. intros v. apply simX_open, (simX_foreach F n ltac:(lia)). apply Hl. lia.
  - apply simX_open, simX_try.
    + destruct finally_block as [l|]; [|apply simX_done]. rewrite !sizes_fix in Hn. apply Hblock. lia.
    + apply Hblock. lia.
    + destruct catch_block as [l|]; [|done]. rewrite !sizes_fix in Hn. apply Hblock. lia.
  - apply (simX_expr L depth n false); [lia|]. intros v. apply simX_open.
    apply (simX_cases L depth F n ltac:(lia) (fun b => InterpStmt.run_case (istmts b))
      (fun b => match b with Some b => run_case (execute L depth n) b | None => cret tt end)); [|apply simX_done].
    intros [vs b] Hin. cbn [fst snd].
    assert (H : (Nat.max (list_size vs) (sizes b) + F <= n)%nat).
    { revert Hin Hn. generalize (esize subject). clear. induction cases as [|[vs' b'] cases IH]; intros k Hin Hn; [done|].
      destruct Hin as [[= -> ->]|Hin]; rewrite ?sizes_fix in Hn; [lia|]. apply (IH k Hin). lia. }
    split; [lia|]. apply simX_run_case, Hl. lia.
  - apply simX_open, (simX_const L depth F n ltac:(lia)); [lia|]. cbn. lia.
Qed.

Lemma istmts_all l x : InterpStmt.execute_all L depth F l x = istmts l x.
Proof.
  induction l as [|st l IH] in x |- *; [done|]. cbn. unfold InterpStmt.andthen.
  destruct (InterpStmt.execute_statement L depth F st x) as [[[] y| |]|]; auto.
Qed.
End Statements.

(** On a program without functions, structs and modules the interpreter over
    shared environments and the one over a stack of scopes do the same: whatever
    way the second ends with [F] turns for each loop, the first ends, with enough
    fuel, in the same way, with the same output, the same arrays and the same
    value of every variable. *)
Theorem stack_of_scopes_is_enough L depth F p o x :
  InterpStmt.interpret L depth F p (InterpStmt.MkXS (Interp.MkSt [Interp.MkScope ∅ false] ∅) []) =
    Some (InterpStmt.SOut o x) ->
  exists n s, interpret L depth n p start = Some (end_of o s) /\ output s = InterpStmt.out x /\
    arrays s = Interp.heap_ (InterpStmt.xst x) /\
    forall name, find_var (Pos.to_nat (cur s)) (envs s) (cur s) name = Interp.env_get (Interp.env (InterpStmt.xst x)) name.
Proof.
  set (x0 := InterpStmt.MkXS _ _). unfold InterpStmt.interpret. rewrite istmts_all. intros H. set (n := (sizes p + F)%nat).
  pose proof (simX_stmts L depth F n p (simX_statement L depth F n) ltac:(lia) [globals] x0 start) as S.
  rewrite H in S. destruct S as (s & extra & E & [Hc Hcur _ Hh Ho] & _); [by constructor; [| |constructor| |]|].
  exists n, s. split; [exact E|]. split; [done|]. split; [done|]. intros name.
  destruct (extra ++ [globals]) as [|id ids]; [done|]. injection Hcur as ->.
  apply (chain_get _ _ _ _ _ _ Hc (chain_fuel _ _ _ _ Hc)).
Qed.
Lemma stack_of_scopes_is_enough_witness :
  exists o x n s, InterpStmt.interpret some_lib 10 20 (program "$x = 1; while ($x < 3) { $x = $x + 1; } print($x);")
      (InterpStmt.MkXS (Interp.MkSt [Interp.MkScope ∅ false] ∅) []) = Some (InterpStmt.SOut o x) /\
    interpret some_lib 10 n (program "$x = 1; while ($x < 3) { $x = $x + 1; } print($x);") start = Some (end_of o s) /\
    output s = lit "3" ++ [LF].
Proof.
  eexists _, _. edestruct (stack_of_scopes_is_enough some_lib 10 20
    (program "$x = 1; while ($x < 3) { $x = $x + 1; } print($x);")) as (n & s & H1 & H2 & _);
    [vm_compute; reflexivity|].
  exists n, s. split; [vm_compute; reflexivity|]. split; [exact H1|]. rewrite H2. reflexivity.
Defined.

End CallsSim.
