(* ===== verification/Sse.v ===== *)
(** Server-sent events: cpp/src/sse.cpp and the life of a connection in
    cpp/src/http_server.cpp ([handle_sse_upgrade], [on_sse_data],
    [close_sse]).

    The result of the system call [send] is part of the step that makes it. *)

From S2P Require Import Prelude.
#[local] Open Scope Z_scope.

Module Sse.

(** * Frames *)

Definition is_nl (c : ascii) : bool := (c =c CR) || (c =c LF).
Definition sse_strip_nl (s : bytes) : bytes := List.filter (fun c => negb (is_nl c)) s.

(** CRLF, CR and LF become LF. *)
Fixpoint normalize (s : bytes) : bytes :=
  match s with
  | [] => []
  | c :: r =>
      if c =c CR then LF :: match r with d :: r' => if d =c LF then normalize r' else normalize r | [] => [] end
      else c :: normalize r
  end.
(** [data: ] in front of each line *)
Definition sse_encode_data (data : bytes) : bytes :=
  concat (map (fun l => lit "data: " ++ l ++ [LF]) (split_on (is_c LF) (normalize data))).
Definition event_frame (data event_name : bytes) : bytes :=
  (if event_name =s [] then [] else lit "event: " ++ sse_strip_nl event_name ++ [LF])
  ++ sse_encode_data data ++ [LF].
Definition comment_frame (comment : bytes) : bytes := lit ": " ++ sse_strip_nl comment ++ [LF; LF].

(** * Connections *)

(** What the rest of the process sees; the bytes are those the kernel takes. *)
Inductive sse_event := Sent (b : bytes) | CloseFd | OnClose | IpReleased.

(** [client]: an entry of [sse_clients]; [listed]: an entry of the registry;
    [posted]: calls of [close_sse] that wait for the loop; [polled]: the loop
    reads the descriptor. *)
Record SseConn := MkConn {
  client : bool; listed : bool; closed : bool; has_cb : bool; posted : nat; polled : bool; log : list sse_event }.

Definition logs (e : list sse_event) c := MkConn (client c) (listed c) (closed c) (has_cb c) (posted c) (polled c) (log c ++ e).
Definition set_closed c := MkConn (client c) (listed c) true (has_cb c) (posted c) (polled c) (log c).
Definition set_posted n c := MkConn (client c) (listed c) (closed c) (has_cb c) n (polled c) (log c).
Definition set_polled b c := MkConn (client c) (listed c) (closed c) (has_cb c) (posted c) b (log c).
Definition forget c := MkConn false false (closed c) (has_cb c) (posted c) (polled c) (log c).
Definition set_cb c := MkConn (client c) (listed c) (closed c) true (posted c) (polled c) (log c).

(** [SseConnection::send]; [sent] is what the system call returns. *)
Definition send (data event_name : bytes) (sent : Z) (c : SseConn) : bool * SseConn :=
  if closed c then (false, c)
  else if sent <=? 0 then (false, set_closed c)
  else (true, logs [Sent (take (Z.to_nat sent) (event_frame data event_name))] c).
Definition send_comment (comment : bytes) (sent : Z) (c : SseConn) : bool * SseConn :=
  if closed c then (false, c)
  else if sent <=? 0 then (false, c)
  else (true, logs [Sent (take (Z.to_nat sent) (comment_frame comment))] c).
(** [SseConnection::close_conn]: the loop is asked to close. *)
Definition sse_close_conn (c : SseConn) : SseConn :=
  if closed c then c else set_posted (S (posted c)) (set_closed c).
Definition close_sse (c : SseConn) : SseConn :=
  if client c then
    let fire_cb := negb (closed c) in
    let c := logs [IpReleased; CloseFd] (set_closed (forget c)) in
    if fire_cb && has_cb c then logs [OnClose] c else c
  else c.
Definition on_sse_data (len : nat) (c : SseConn) : SseConn :=
  if (len =? 0)%nat || negb (client c) || closed c then set_polled false (close_sse c) else c.

(** What the threads can do, one after the other: the script sends, closes and
    sets its callback, the loop runs a posted call or reads, the worker gives
    the descriptor to the loop. [None]: it cannot happen. *)
Inductive act :=
| Send (data event_name : bytes) (sent : Z) | Comment (comment : bytes) (sent : Z) | SetCallback | Close
| RunPosted | Register | Read (len : nat).
Definition step (c : SseConn) (a : act) : option SseConn :=
  match a with
  | Send d e n => Some (send d e n c).2
  | Comment t n => Some (send_comment t n c).2
  | SetCallback => Some (set_cb c)
  | Close => Some (sse_close_conn c)
  | RunPosted => match posted c with O => None | S n => Some (close_sse (set_posted n c)) end
  | Register => if polled c then None else Some (set_polled true c)
  | Read len => if polled c then Some (on_sse_data len c) else None
  end.
Fixpoint steps (c : SseConn) (l : list act) : option SseConn :=
  match l with [] => Some c | a :: l => c' ← step c a; steps c' l end.
(** After [handle_sse_upgrade] has put it into both tables *)
Definition upgraded : SseConn := MkConn true true false false 0 false [].

(** ** The registry; [m] is LOOK_SSE_MAX_CONN, 0 for none *)

Section Registry.
Context (m : nat).
Definition SseRegistry := gmap Z SseConn.
Definition full (r : SseRegistry) : bool := negb (m =? 0)%nat && (m <=? size r)%nat.
Definition add (fd : Z) (c : SseConn) (r : SseRegistry) : bool * SseRegistry :=
  if full r then (false, r) else (true, <[fd := c]> r).
Definition remove (fd : Z) (r : SseRegistry) : SseRegistry := delete fd r.
Definition count (r : SseRegistry) : nat := size r.

(** The limit is kept. *)
Lemma registry_within fd c r : (size r <= m)%nat -> (m <> 0)%nat -> (size (add fd c r).2 <= m)%nat.
Proof.
  intros H Hm. unfold add, full. destruct (Nat.eqb_spec m 0) as [|_]; [done|]. cbn [negb andb].
  destruct (Nat.leb_spec m (size r)); cbn [snd]; [done|].
  unfold SseRegistry in *. rewrite map_size_insert. destruct (r !! fd); cbn; lia.
Qed.
End Registry.

(** * What a browser reads

    The event stream of the HTML standard: lines, fields, and an event at each
    empty line. *)

Record reading := MkRead { type : bytes; data : bytes; events : list (bytes * bytes) }.
Definition field (name value : bytes) (r : reading) : reading :=
  if name =s lit "event" then MkRead value (data r) (events r)
  else if name =s lit "data" then MkRead (type r) (data r ++ value ++ [LF]) (events r)
  else r.
(** One space behind the colon goes. *)
Definition one_space (v : bytes) : bytes := match v with c :: v' => if c =c SP then v' else v | [] => [] end.
Definition dispatch (r : reading) : reading :=
  if data r =s [] then MkRead [] [] (events r)
  else MkRead [] [] (events r ++ [(if type r =s [] then lit "message" else type r, removelast (data r))]).
Definition read_line (line : bytes) (r : reading) : reading :=
  match line with
  | [] => dispatch r
  | c :: _ =>
      if c =c ":" then r
      else match find_if (is_c ":") line with
           | Some i => field (take i line) (one_space (drop (S i) line)) r
           | None => field line [] r
           end
  end.
(** The lines of a text that CRLF, LF or CR end, and what is left;
    [after_cr]: an LF now belongs to the CR before it. *)
Fixpoint std_lines (after_cr : bool) (cur s : bytes) : list bytes :=
  match s with
  | [] => [cur]
  | c :: r =>
      if c =c LF then if after_cr then std_lines false cur r else cur :: std_lines false [] r
      else if c =c CR then cur :: std_lines true [] r
      else std_lines false (cur ++ [c]) r
  end.
(** What follows the last line break waits for the rest of its line. *)
Definition browser (stream : bytes) : list (bytes * bytes) :=
  events (fold_left (fun r l => read_line l r) (removelast (std_lines false [] stream)) (MkRead [] [] [])).

Lemma std_lines_split s :
  (forall cur, std_lines false cur s = match split_on (is_c LF) (normalize s) with
     | l :: ls => (cur ++ l) :: ls | [] => [] end) /\
  std_lines true [] s = split_on (is_c LF) (normalize match s with c :: r => if c =c LF then r else s | [] => [] end).
Proof.
  assert (E : forall t, match split_on (is_c LF) t with l :: ls => ([] ++ l) :: ls | [] => [] end = split_on (is_c LF) t)
    by (intros t; by destruct (split_on (is_c LF) t)).
  induction s as [|c s [IH1 IH2]]; [split; [intros cur; cbn; by rewrite app_nil_r|done]|].
  assert (H : forall cur, std_lines false cur (c :: s) = match split_on (is_c LF) (normalize (c :: s)) with
     | l :: ls => (cur ++ l) :: ls | [] => [] end).
  { intros cur. cbn [std_lines normalize]. destruct (c =c LF) eqn:El.
    - apply Ascii.eqb_eq in El as ->. change (LF =c CR) with false. cbn iota. cbn [split_on]. change (is_c LF LF) with true.
      cbn iota. by rewrite app_nil_r, IH1, E.
    - destruct (c =c CR) eqn:Ec.
      + cbn [split_on]. change (is_c LF LF) with true. cbn iota. rewrite app_nil_r, IH2. f_equal. by destruct s as [|d s]; [|destruct (d =c LF)].
      + cbn [split_on]. change (is_c LF c) with (c =c LF). rewrite El, IH1. destruct (split_on (is_c LF) (normalize s)) as [|l ls] eqn:En.
        * by destruct (split_on_nil (is_c LF) (normalize s)).
        * by rewrite <- app_assoc. }
  split; [exact H|]. cbn [std_lines]. destruct (c =c LF) eqn:El; [by rewrite IH1, E|].
  specialize (H []). cbn [std_lines] in H. rewrite El in H. rewrite E in H. exact H.
Qed.
Lemma std_lines_eq s : std_lines false [] s = split_on (is_c LF) (normalize s).
Proof. rewrite (proj1 (std_lines_split s)). by destruct (split_on _ _). Qed.

Lemma normalize_no_cr s : Forall (fun c => is_c CR c = false) s -> normalize s = s.
Proof.
  induction 1 as [|c s Hc _ IH]; [done|]. cbn [normalize]. unfold is_c in Hc. by rewrite Hc, IH.
Qed.
Lemma normalized n s : (length s < n)%nat -> Forall (fun c => is_c CR c = false) (normalize s).
Proof.
  revert s. induction n as [|n IH]; intros s Hn; [lia|]. destruct s as [|c r]; [constructor|]. cbn [normalize].
  cbn [length] in Hn. destruct (c =c CR) eqn:Ec.
  - constructor; [done|]. destruct r as [|d r']; [constructor|]. cbn [length] in Hn.
    destruct (d =c LF); apply IH; cbn [length]; lia.
  - constructor; [done|]. apply IH. lia.
Qed.
Lemma stripped s : Forall (fun c => is_nl c = false) (sse_strip_nl s).
Proof.
  unfold sse_strip_nl. apply Forall_forall. intros c [_ H]%list_elem_of_In%filter_In. by apply negb_true_iff.
Qed.

(** The lines of a text, with LF between them *)
Definition lf_lines (d : bytes) : bytes := removelast (unlines LF (std_lines false [] d)).

Inductive sse_item := Ev (d e : bytes) | Cm (t : bytes).
Definition frame_of (x : sse_item) : bytes := match x with Ev d e => event_frame d e | Cm t => comment_frame t end.
Definition read_of (x : sse_item) : list (bytes * bytes) :=
  match x with
  | Ev d e => [(if sse_strip_nl e =s [] then lit "message" else sse_strip_nl e, lf_lines d)]
  | Cm _ => []
  end.

(** The lines of a frame *)
Definition frame_lines (x : sse_item) : list bytes :=
  match x with
  | Ev d e => (if e =s [] then [] else [lit "event: " ++ sse_strip_nl e])
              ++ map (fun l => lit "data: " ++ l) (split_on (is_c LF) (normalize d)) ++ [[]]
  | Cm t => [lit ": " ++ sse_strip_nl t; []]
  end.
Definition clean (s : bytes) : Prop := Forall (fun c => is_nl c = false) s.
Lemma clean_lf s : clean s -> Forall (fun c => is_c LF c = false) s.
Proof. intros H. eapply Forall_impl; [exact H|]. intros c [_ Hc]%orb_false_iff. exact Hc. Qed.
Lemma clean_cr s : clean s -> Forall (fun c => is_c CR c = false) s.
Proof. intros H. eapply Forall_impl; [exact H|]. intros c [Hc _]%orb_false_iff. exact Hc. Qed.
Lemma frame_unlines x : frame_of x = unlines LF (frame_lines x).
Proof.
  destruct x as [d e|t]; cbn [frame_of frame_lines].
  - unfold event_frame, sse_encode_data. rewrite !unlines_app. f_equal; [|f_equal].
    + case_if; [done|]. unfold unlines. cbn. by rewrite app_nil_r.
    + unfold unlines. by rewrite map_map.
  - unfold comment_frame, unlines. cbn. by rewrite <- app_assoc.
Qed.
Lemma frame_clean x : Forall clean (frame_lines x).
Proof.
  destruct x as [d e|t]; cbn [frame_lines].
  - apply Forall_app. split; [case_if; [constructor|repeat constructor; apply stripped]|].
    apply Forall_app. split; [|by repeat constructor]. apply Forall_map.
    pose proof (normalized (S (length d)) d ltac:(lia)) as Hc. pose proof (split_on_pieces (is_c LF) (normalize d)) as Hp.
    assert (Hq : Forall (Forall (fun c => is_c CR c = false)) (split_on (is_c LF) (normalize d))).
    { clear Hp. induction Hc as [|c s Hc _ IH]; cbn [split_on]; [by repeat constructor|].
      destruct (is_c LF c); [by constructor|]. destruct (split_on (is_c LF) s) as [|l ls]; [by repeat constructor|].
      apply Forall_cons in IH as [Hl Hls]. by repeat constructor. }
    rewrite Forall_forall in Hp, Hq |- *. intros l Hl. repeat (constructor; [done|]).
    apply Forall_forall. intros c Hc'. specialize (Hp l Hl). specialize (Hq l Hl). rewrite Forall_forall in Hp, Hq.
    unfold is_nl. apply orb_false_iff. split; [by apply Hq|by apply Hp].
  - repeat constructor. apply stripped.
Qed.

Lemma unlines_split s : unlines LF (split_on (is_c LF) s) = s ++ [LF].
Proof.
  induction s as [|c s IH]; [done|]. cbn [split_on]. destruct (is_c LF c) eqn:E.
  - apply is_c_spec in E as ->. change (unlines LF ([] :: ?l)) with (LF :: unlines LF l). by rewrite IH.
  - destruct (split_on (is_c LF) s) as [|l ls] eqn:El; [by destruct (split_on_nil (is_c LF) s)|].
    change (unlines LF ((c :: l) :: ls)) with (c :: unlines LF (l :: ls)). by rewrite IH.
Qed.
Lemma lf_lines_eq d : lf_lines d = normalize d.
Proof. unfold lf_lines. by rewrite std_lines_eq, unlines_split, removelast_last. Qed.
Lemma read_data l r : read_line (lit "data: " ++ l) r = MkRead (type r) (data r ++ l ++ [LF]) (events r).
Proof. reflexivity. Qed.
Lemma read_event l r : read_line (lit "event: " ++ l) r = MkRead l (data r) (events r).
Proof. reflexivity. Qed.
Lemma read_datas ls t d evs :
  fold_left (fun r l => read_line l r) (map (fun l => lit "data: " ++ l) ls) (MkRead t d evs)
  = MkRead t (d ++ unlines LF ls) evs.
Proof.
  revert d. induction ls as [|l ls IH]; intros d; [by rewrite app_nil_r|]. cbn [map fold_left].
  rewrite read_data. cbn [type data events]. rewrite IH, <- app_assoc. done.
Qed.
Lemma read_frame x evs :
  fold_left (fun r l => read_line l r) (frame_lines x) (MkRead [] [] evs) = MkRead [] [] (evs ++ read_of x).
Proof.
  destruct x as [d e|t]; cbn [frame_lines read_of].
  - rewrite !fold_left_app.
    assert (He : fold_left (fun r l => read_line l r) (if e =s [] then [] else [lit "event: " ++ sse_strip_nl e]) (MkRead [] [] evs)
                 = MkRead (sse_strip_nl e) [] evs).
    { destruct (bytes_eqb_spec e []) as [->|_]; [done|]. cbn [fold_left]. apply read_event. }
    rewrite He, read_datas, unlines_split, lf_lines_eq. cbn [fold_left read_line app]. unfold dispatch. cbn [data events type].
    destruct (bytes_eqb_spec (normalize d ++ [LF]) []) as [E|_]; [by destruct (normalize d)|]. by rewrite removelast_last.
  - cbn. by rewrite app_nil_r.
Qed.

(** C35: Nothing a script sends becomes another event. A browser that reads the
    frames of any events and comments in a row sees exactly those events: each
    with its name without line breaks and its data with the lines of the data
    (ended by CRLF, LF or CR), whatever lines, fields or empty lines the texts contain. *)
Theorem sse_read_back xs :
  browser (concat (map frame_of xs)) = concat (map read_of xs).
Proof.
  assert (Hs : concat (map frame_of xs) = unlines LF (concat (map frame_lines xs))).
  { induction xs as [|x xs IH]; [done|]. cbn [map concat]. by rewrite unlines_app, <- IH, frame_unlines. }
  assert (Hc : Forall clean (concat (map frame_lines xs))).
  { clear Hs. induction xs as [|x xs IH]; [constructor|]. cbn [map concat]. apply Forall_app. split; [apply frame_clean|done]. }
  rewrite Hs. unfold browser. rewrite std_lines_eq, normalize_no_cr.
  2:{ clear Hs. induction Hc as [|l ls Hl _ IH]; [constructor|]. unfold unlines. cbn [map concat].
      apply Forall_app. split; [|exact IH]. apply Forall_app. split; [by apply clean_cr|by repeat constructor]. }
  rewrite split_on_unlines by (eapply Forall_impl; [exact Hc|]; intros l; apply clean_lf). rewrite removelast_last.
  clear Hs Hc. enough (H : forall evs, fold_left (fun r l => read_line l r) (concat (map frame_lines xs)) (MkRead [] [] evs)
    = MkRead [] [] (evs ++ concat (map read_of xs))) by by rewrite H.
  induction xs as [|x xs IH]; intros evs; cbn [map concat fold_left]; [by rewrite app_nil_r|].
  by rewrite fold_left_app, read_frame, IH, <- app_assoc.
Qed.

(** * The life of a connection *)

Definition is_sent (e : sse_event) : Prop := match e with Sent _ => True | _ => False end.
Definition wf (c : SseConn) : Prop :=
  exists sents tail, log c = sents ++ tail /\ Forall is_sent sents /\
    if client c then tail = [] else closed c = true /\ listed c = false /\ (tail = [IpReleased; CloseFd] \/ tail = [IpReleased; CloseFd; OnClose]).

Lemma wf_silent c c' : wf c -> client c' = client c -> listed c' = listed c -> log c' = log c ->
  (closed c = true -> closed c' = true) -> wf c'.
Proof.
  intros (s & t & E & Hs & Ht) H1 H2 H3 H4. exists s, t. rewrite H1, H2, H3. repeat split; [done..|].
  destruct (client c); [done|]. destruct Ht as (Hc & Hl & Ht). auto.
Qed.
Lemma wf_sends b c : wf c -> closed c = false -> wf (logs [Sent b] c).
Proof.
  intros (s & t & E & Hs & Ht) Hc. unfold wf. cbn [client log logs closed listed]. destruct (client c).
  - subst t. exists (s ++ [Sent b]), []. rewrite E, !app_nil_r. split; [done|]. split; [|done].
    apply Forall_app. split; [done|]. by repeat constructor.
  - destruct Ht as (Hc' & _). congruence.
Qed.
Lemma wf_close c : wf c -> wf (close_sse c).
Proof.
  intros H. pose proof H as (s & t & E & Hs & Ht). unfold close_sse. destruct (client c) eqn:Ec; [|done]. subst t.
  rewrite app_nil_r in E. destruct (negb (closed c) && has_cb _).
  - exists s, [IpReleased; CloseFd; OnClose]. cbn. rewrite E, <- app_assoc. repeat split; auto.
  - exists s, [IpReleased; CloseFd]. cbn. rewrite E. repeat split; auto.
Qed.
Lemma wf_step c a c' : wf c -> step c a = Some c' -> wf c'.
Proof.
  intros H. destruct a as [d e n|t n| | | | |len]; cbn [step].
  - intros [= <-]. unfold send. destruct (closed c) eqn:Hc; [done|]. case_if; cbn [snd]; [|by apply wf_sends].
    by eapply wf_silent.
  - intros [= <-]. unfold send_comment. destruct (closed c) eqn:Hc; [done|]. case_if; cbn [snd]; [done|by apply wf_sends].
  - intros [= <-]. by eapply wf_silent.
  - intros [= <-]. unfold sse_close_conn. destruct (closed c) eqn:Hc; [done|]. by eapply wf_silent.
  - destruct (posted c) as [|n]; [done|]. intros [= <-]. apply wf_close. by eapply wf_silent.
  - destruct (polled c); [done|]. intros [= <-]. by eapply wf_silent.
  - destruct (polled c); [|done]. intros [= <-]. unfold on_sse_data. case_if; [|done].
    eapply wf_silent; [by apply wf_close|done..].
Qed.

(** Whatever the script, the loop and the worker do, in any order, the
    life of a connection is: frames, then one release of the address and one
    close of the descriptor, then at most one callback; after the close
    nothing is written and the connection is out of both tables. *)
Theorem sse_lifecycle acts c :
  steps upgraded acts = Some c ->
  exists sents tail, log c = sents ++ tail /\ Forall is_sent sents /\
    if client c then tail = []
    else closed c = true /\ listed c = false /\
         (tail = [IpReleased; CloseFd] \/ tail = [IpReleased; CloseFd; OnClose]).
Proof.
  assert (H : wf upgraded) by (exists [], []; by repeat split).
  revert H. generalize upgraded. induction acts as [|a acts IH]; intros c0 H; cbn [steps].
  - by intros [= <-].
  - destruct (step c0 a) as [c1|] eqn:E; [|done]. cbn [mbind option_bind]. apply IH. by eapply wf_step.
Qed.

Lemma sse_lifecycle_witness :
  exists sents tail, [Sent (event_frame (lit "a") []); IpReleased; CloseFd; OnClose] = sents ++ tail /\ Forall is_sent sents /\
    (true = true /\ false = false /\ (tail = [IpReleased; CloseFd] \/ tail = [IpReleased; CloseFd; OnClose])).
Proof.
  apply (sse_lifecycle [SetCallback; Send (lit "a") [] 100; Register; Read 0; Close; Send (lit "b") [] 100]
    (MkConn false false true true 0 false [Sent (event_frame (lit "a") []); IpReleased; CloseFd; OnClose])).
  vm_compute. reflexivity.
Defined.

Example read_back_example :
  browser (event_frame (lit "x" ++ [LF; LF] ++ lit "event: admin") (lit "note" ++ [LF] ++ lit "data: y"))
  = [(lit "notedata: y", lit "x" ++ [LF; LF] ++ lit "event: admin")].
Proof. reflexivity. Qed.

(** ** What the code does not handle *)

(** A frame that the kernel takes in part is not continued: the next event
    goes on in the middle of it. *)
Example part_of_a_frame :
  option_map (fun c => browser (concat (map (fun e => match e with Sent b => b | _ => [] end) (log c))))
    (steps upgraded [Send (lit "one") [] 8; Send (lit "two") [] 100])
  = Some [(lit "message", lit "ondata: two")].
Proof. reflexivity. Qed.
(** After a [send] that fails (a full buffer is enough) the connection counts
    as closed, but the loop is not asked to close it, by [sse::close] neither. *)
Example failed_send_keeps_the_descriptor :
  option_map (fun c => (closed c, client c, posted c)) (steps upgraded [Send (lit "x") [] (-1); Close])
  = Some (true, true, 0%nat).
Proof. reflexivity. Qed.
(** A handler that closes its stream: the loop may close the descriptor before
    the worker gives it to the loop. *)
Example closed_before_registered :
  option_map (fun c => (log c, polled c)) (steps upgraded [Close; RunPosted; Register])
  = Some ([IpReleased; CloseFd], true).
Proof. reflexivity. Qed.

End Sse.
