(* ===== verification/Json.v ===== *)
(** JSON: the encoder and the decoder of cpp/src/web_stdlib.cpp, and the
    string decoder of cpp/include/look/json_str_parse.h.

    The decoder reads requests from the network, so what it does to every input
    matters: it always comes back (no loop without progress), and it reads back
    what the encoder writes.

    A position [i] of the text [s] is the text left at it, [drop i s]; a position
    at or behind the end is the empty text, and the code tests [i < s.size()]
    before it reads. *)

From S2P Require Import Prelude CNum Value.
From Stdlib Require Import SpecFloat.
#[local] Open Scope Z_scope.

Module Json.
Import CNum Value.

(** * The decoder of strings *)

Definition json_append_utf8 (out : bytes) (cp : Z) : bytes :=
  if cp <? 128 then out ++ [chr cp]
  else if cp <? 2048 then
    out ++ [chr (Z.lor 192 (Z.shiftr cp 6)); chr (Z.lor 128 (Z.land cp 63))]
  else if cp <? 65536 then
    out ++ [chr (Z.lor 224 (Z.shiftr cp 12)); chr (Z.lor 128 (Z.land (Z.shiftr cp 6) 63));
            chr (Z.lor 128 (Z.land cp 63))]
  else
    out ++ [chr (Z.lor 240 (Z.shiftr cp 18)); chr (Z.lor 128 (Z.land (Z.shiftr cp 12) 63));
            chr (Z.lor 128 (Z.land (Z.shiftr cp 6) 63)); chr (Z.lor 128 (Z.land cp 63))].

Definition json_hexval (c : ascii) : Z :=
  if in_range 48 57 (ord c) then ord c - 48
  else if in_range 97 102 (ord c) then ord c - 97 + 10
  else if in_range 65 70 (ord c) then ord c - 65 + 10
  else -1.

(** Four hexadecimal digits, or -1 with nothing read. *)
Definition json_read_u4 (r : bytes) : Z * bytes :=
  match r with
  | c1 :: c2 :: c3 :: c4 :: r' =>
      let hs := map json_hexval [c1; c2; c3; c4] in
      if existsb (fun h => h <? 0) hs then (-1, r)
      else (fold_left (fun cp h => Z.lor (Z.shiftl cp 4) h) hs 0, r')
  | _ => (-1, r)
  end.

(** The character of a one-letter escape. *)
Definition simple_escape (c : ascii) : ascii :=
  if c =c "n" then LF
  else if c =c "t" then TAB
  else if c =c "r" then CR
  else if c =c "b" then chr 8
  else if c =c "f" then chr 12
  else c.

(** A [\u] escape, at the text behind the [u]: a pair of surrogates makes one
    code point. The [break] of the invalid case leads to the [i++] that ends a
    turn, so it skips a character. *)
Definition u_pair (r : bytes) (result : bytes) : bytes * bytes :=
  let (cp, r1) := json_read_u4 r in
  if cp <? 0 then (result ++ lit "\u", tail r1)
  else
    let high := (55296 <=? cp) && (cp <=? 56319) in
    match r1 with
    | c1 :: c2 :: r2 =>
        if high && (c1 =c BACKSLASH) && (c2 =c "u") then
          let (lo, r3) := json_read_u4 r2 in
          if (56320 <=? lo) && (lo <=? 57343)
          then (json_append_utf8 result (65536 + Z.shiftl (cp - 55296) 10 + (lo - 56320)), r3)
          else (json_append_utf8 result cp, r1)
        else (json_append_utf8 result cp, r1)
    | _ => (json_append_utf8 result cp, r1)
    end.

(** One turn of the loop at a character that is not the closing quote. *)
Definition str_turn (r : bytes) (result : bytes) : bytes * bytes :=
  match r with
  | c :: r' =>
      if c =c BACKSLASH then
        match r' with
        | [] => (result, [])
        | e :: r'' =>
            if e =c "u" then u_pair r'' result
            else (result ++ [simple_escape e], r'')
        end
      else (result ++ [c], r')
  | [] => (result, [])
  end.

Fixpoint str_loop (fuel : nat) (r result : bytes) : bytes * bytes :=
  match r with
  | [] => (result, [])
  | c :: r' =>
      if c =c DQUOTE then (result, r')
      else match fuel with
      | O => (result, r)
      | S fuel => let (result', r'') := str_turn r result in str_loop fuel r'' result'
      end
  end.
(** [json_decode_str], at the opening quote. *)
Definition json_decode_str (r : bytes) : bytes * bytes :=
  let r := tail r in str_loop (length r) r [].

(** * The decoder of values

    [DTooDeep] and [DBad] are the exceptions JsonTooDeep and JsonParseError;
    [DFuel] does not happen ([decode_total]). *)

Inductive dres :=
| DVal (v : Value) (rest : bytes) (h : heap)
| DTooDeep
| DBad
| DFuel.

Definition JSON_MAX_DEPTH : nat := 256.
Definition is_ws (c : ascii) : bool := (c =c SP) || (c =c TAB) || (c =c LF) || (c =c CR).
Fixpoint json_skip_ws (r : bytes) : bytes :=
  match r with c :: r' => if is_ws c then json_skip_ws r' else r | [] => [] end.

(** [if (i < s.size() && s[i] == c) i++;] *)
Definition skip_char (c : ascii) (r : bytes) : bytes :=
  match r with d :: r' => if d =c c then r' else r | [] => [] end.

(** The value of a key: the last one wins, in the place of the first. *)
Fixpoint put_key (key : bytes) (val : Value) (pairs : list Value) : list Value :=
  match pairs with
  | k :: v :: rest =>
      match k with
      | STRING t => if t =s key then k :: val :: rest else k :: v :: put_key key val rest
      | _ => k :: v :: put_key key val rest
      end
  | _ => pairs ++ [STRING key; val]
  end.

Definition ASSOC : Value := STRING (lit "__assoc__").

(** A new array. *)
Definition alloc_array (h : heap) (vs : list Value) : loc * heap :=
  let l := fresh (dom h) in (l, <[ l := vs ]> h).

Section Loops.
Context (value : bytes -> heap -> dres).

Fixpoint object_loop (fuel : nat) (pairs : list Value) (r : bytes) (h : heap) : dres :=
  let done r := let (l, h) := alloc_array h (ASSOC :: pairs) in DVal (ARRAY l) r h in
  match r with
  | [] => done []
  | c :: r' =>
      if c =c "}" then done r'
      else match fuel with
      | O => DFuel
      | S fuel =>
          if negb (c =c DQUOTE) then DBad
          else
            let (key, r1) := json_decode_str r in
            match value (json_skip_ws (skip_char ":" (json_skip_ws r1))) h with
            | DVal val r2 h =>
                let r3 := json_skip_ws (skip_char "," (json_skip_ws r2)) in
                if (length r3 =? length r)%nat then DBad
                else object_loop fuel (put_key key val pairs) r3 h
            | e => e
            end
      end
  end.

Fixpoint array_loop (fuel : nat) (vs : list Value) (r : bytes) (h : heap) : dres :=
  let done r := let (l, h) := alloc_array h vs in DVal (ARRAY l) r h in
  match r with
  | [] => done []
  | c :: r' =>
      if c =c "]" then done r'
      else match fuel with
      | O => DFuel
      | S fuel =>
          match value r h with
          | DVal val r2 h =>
              let r3 := json_skip_ws (skip_char "," (json_skip_ws r2)) in
              if (length r3 =? length r)%nat then DBad
              else array_loop fuel (vs ++ [val]) r3 h
          | e => e
          end
      end
  end.
End Loops.

(** ** Numbers *)

Definition num_char (c : ascii) : bool :=
  isdigit c || (c =c ".") || (c =c "e") || (c =c "E") || (c =c "+") || (c =c "-").
Definition float_char (c : ascii) : bool := (c =c ".") || (c =c "e") || (c =c "E").
Fixpoint take_while (p : ascii -> bool) (r : bytes) : bytes * bytes :=
  match r with
  | c :: r' => if p c then let (a, b) := take_while p r' in (c :: a, b) else ([], r)
  | [] => ([], [])
  end.

(** The text of a number as a value: an integer that does not fit stays text. *)
Definition number_value (num : bytes) (is_float : bool) : Value :=
  if (num =s []) || (num =s lit "-") then INT 0
  else if is_float then
    match stod num with
    | SVal d _ => FLOAT d
    | _ => INT 0
    end
  else match stoll_pos num with
    | LVal z _ => INT z
    | _ => STRING num
    end.

Definition decode_number (r : bytes) : Value * bytes :=
  let (minus, r1) := match r with
    | c :: r' => if c =c "-" then ([c], r') else ([], r)
    | [] => ([], [])
    end in
  let (body, rest) := take_while num_char r1 in
  (number_value (minus ++ body) (has_char float_char body), rest).

(** [json_decode_value] with [d] levels left: [d = JSON_MAX_DEPTH + 1 - depth]. *)
Fixpoint json_decode_value (d : nat) (r : bytes) (h : heap) : dres :=
  match d with
  | O => DTooDeep
  | S d =>
      let r := json_skip_ws r in
      match r with
      | [] => DVal NONE [] h
      | c :: r' =>
          if c =c DQUOTE then let (t, rest) := json_decode_str r in DVal (STRING t) rest h
          else if c =c "{" then
            object_loop (json_decode_value d) (length r') [] (json_skip_ws r') h
          else if c =c "[" then
            array_loop (json_decode_value d) (length r') [] (json_skip_ws r') h
          else if starts_with (lit "true") r then DVal (BOOL true) (drop 4 r) h
          else if starts_with (lit "false") r then DVal (BOOL false) (drop 5 r) h
          else if starts_with (lit "null") r then DVal NONE (drop 4 r) h
          else if negb (c =c "-") && negb (isdigit c) then DBad
          else let (v, rest) := decode_number r in DVal v rest h
      end
  end.

(** [json::decode] and [request::json]: the exceptions become null. *)
Definition json_decode (s : bytes) (h : heap) : option (Value * heap) :=
  match json_decode_value (S JSON_MAX_DEPTH) s h with
  | DVal v _ h => Some (v, h)
  | DTooDeep | DBad => Some (NONE, h)
  | DFuel => None
  end.

(** * The encoder *)

(** [snprintf(buf, 8, "\\u%04x", c)] of a control character *)
Definition hex_digit (n : Z) : ascii := if n <? 10 then chr (48 + n) else chr (87 + n).
Definition u_escape (c : ascii) : bytes :=
  lit "\u00" ++ [hex_digit (ord c / 16); hex_digit (ord c mod 16)].

Definition json_escape (c : ascii) : bytes :=
  if c =c DQUOTE then [BACKSLASH; DQUOTE]
  else if c =c BACKSLASH then [BACKSLASH; BACKSLASH]
  else if c =c LF then lit "\n"
  else if c =c CR then lit "\r"
  else if c =c TAB then lit "\t"
  else if ord c <? 32 then u_escape c
  else [c].
Definition json_encode_string (s : bytes) : bytes := DQUOTE :: concat (map json_escape s) ++ [DQUOTE].

Section Encode.
Context (L : Lib) (sdepth : nat).

(** The pairs of an object; [first] as in the code. *)
Fixpoint encode_pairs (encode : Value -> res bytes) (h : heap) (first : bool) (l : list Value) : res bytes :=
  match l with
  | k :: v :: rest =>
      to_string L sdepth h k ≫= fun key : bytes =>
      if key =s lit "__struct__" then encode_pairs encode h first rest
      else
        encode v ≫= fun t : bytes =>
        encode_pairs encode h false rest ≫= fun more : bytes =>
        Ret ((if first then [] else lit ",") ++ json_encode_string key ++ lit ":" ++ t ++ more)
  | _ => Ret []
  end.
Fixpoint encode_items (encode : Value -> res bytes) (first : bool) (l : list Value) : res bytes :=
  match l with
  | [] => Ret []
  | v :: rest =>
      encode v ≫= fun t : bytes =>
      encode_items encode false rest ≫= fun more : bytes =>
      Ret ((if first then [] else lit ",") ++ t ++ more)
  end.

Definition is_finite (x : double) : bool :=
  match x with S754_zero _ | S754_finite _ _ _ => true | _ => false end.

(** [json_encode] with [d = 257 - depth] levels left. *)
Fixpoint json_encode (d : nat) (h : heap) (v : Value) : res bytes :=
  match d with
  | O => Ret (lit "null")
  | S d =>
      match v with
      | INT i => Ret (int_to_string i)
      | FLOAT x => Ret (if is_finite x then look_format_double L x else lit "null")
      | STRING s => Ret (json_encode_string s)
      | BOOL b => Ret (if b then lit "true" else lit "false")
      | ARRAY l =>
          match elems h l with
          | STRING t :: pairs =>
              if t =s lit "__assoc__" then
                encode_pairs (json_encode d h) h true pairs ≫= fun body : bytes =>
                Ret (lit "{" ++ body ++ lit "}")
              else
                encode_items (json_encode d h) true (STRING t :: pairs) ≫= fun body : bytes =>
                Ret (lit "[" ++ body ++ lit "]")
          | vs =>
              encode_items (json_encode d h) true vs ≫= fun body : bytes =>
              Ret (lit "[" ++ body ++ lit "]")
          end
      | _ => Ret (lit "null")
      end
  end.
Definition json_encode_value (h : heap) (v : Value) : res bytes := json_encode (S JSON_MAX_DEPTH) h v.
End Encode.

(** * The decoder comes back *)

Lemma read_u4_length r : (length (json_read_u4 r).2 <= length r)%nat.
Proof. destruct r as [|c1 [|c2 [|c3 [|c4 r]]]]; cbn; try lia. case_match; cbn; lia. Qed.

Lemma tail_length {A} (r : list A) : (length (tail r) <= length r)%nat.
Proof. destruct r; cbn; lia. Qed.

Lemma u_pair_length r acc : (length (u_pair r acc).2 <= length r)%nat.
Proof.
  unfold u_pair. pose proof (read_u4_length r) as H. destruct (json_read_u4 r) as [cp r1]. cbn in H.
  destruct (cp <? 0); [cbn; pose proof (tail_length r1); lia|].
  destruct r1 as [|c1 [|c2 r2]]; try (cbn in *; lia).
  case_if; [|cbn in *; lia]. pose proof (read_u4_length r2) as H2.
  destruct (json_read_u4 r2) as [lo r3]. cbn in *. case_match; cbn; lia.
Qed.

Lemma str_turn_length c r acc : (length (str_turn (c :: r) acc).2 < length (c :: r))%nat.
Proof.
  cbn [str_turn]. destruct (c =c BACKSLASH); [|cbn; lia]. destruct r as [|e r]; [cbn; lia|].
  case_if; [pose proof (u_pair_length r acc)|]; cbn; lia.
Qed.

Lemma str_loop_length fuel : forall r acc, (length (str_loop fuel r acc).2 <= length r)%nat.
Proof.
  induction fuel as [|fuel IH]; intros [|c r] acc; cbn [str_loop]; try (cbn; lia).
  - case_match; cbn; lia.
  - case_if; [cbn; lia|]. pose proof (str_turn_length c r acc) as H.
    destruct (str_turn (c :: r) acc) as [acc' r']. cbn [snd] in H. specialize (IH r' acc'). lia.
Qed.

Lemma decode_str_length r : (length (json_decode_str r).2 <= length r)%nat.
Proof. unfold json_decode_str. pose proof (str_loop_length (length (tail r)) (tail r) []). pose proof (tail_length r). lia. Qed.

Lemma skip_ws_length r : (length (json_skip_ws r) <= length r)%nat.
Proof. induction r as [|c r IH]; cbn [json_skip_ws]; [done|]. case_if; cbn; lia. Qed.
Lemma skip_char_length c r : (length (skip_char c r) <= length r)%nat.
Proof. destruct r as [|d r]; cbn [skip_char]; [done|]. case_if; cbn; lia. Qed.

Lemma take_while_length p r : (length (take_while p r).2 <= length r)%nat.
Proof.
  induction r as [|c r IH]; cbn [take_while]; [done|]. case_if; [|done].
  destruct (take_while p r) as [x y]. cbn in *. lia.
Qed.
Lemma decode_number_length r : (length (decode_number r).2 <= length r)%nat.
Proof.
  unfold decode_number. destruct r as [|c r]; [done|]. case_if.
  - pose proof (take_while_length num_char r). destruct (take_while num_char r) as [x y]. cbn in *. lia.
  - pose proof (take_while_length num_char (c :: r)). destruct (take_while num_char (c :: r)) as [x y]. cbn in *. lia.
Qed.

(** The elements of all arrays. *)
Definition heap_size (h : heap) : nat := map_fold (fun _ vs n => length vs + n)%nat 0%nat h.

Lemma heap_size_alloc h vs l h' : alloc_array h vs = (l, h') -> heap_size h' = (length vs + heap_size h)%nat.
Proof.
  unfold alloc_array. intros E. simplify_eq.
  refine (map_fold_insert_L (M := gmap loc) (fun _ vs n => length vs + n)%nat 0%nat (fresh (dom h)) vs h _ _);
    [intros; lia|apply not_elem_of_dom, is_fresh].
Qed.

(** Not out of fuel; at a text of [n] characters a value takes one at least
    and adds at most two elements for each, less one. *)
Definition returns (n : nat) (h : heap) (x : dres) : Prop :=
  match x with
  | DVal _ r h' =>
      (length r <= n /\ (0 < n -> length r < n))%nat /\
      (heap_size h' + 2 * length r + (if Nat.eq_dec n 0 then 0 else 1) <= heap_size h + 2 * n)%nat
  | DFuel => False
  | _ => True
  end.

(** A loop with [k] elements so far. *)
Definition loop_returns (n k : nat) (h : heap) (x : dres) : Prop :=
  match x with
  | DVal _ r h' =>
      (length r <= n)%nat /\ (heap_size h' + 2 * length r <= heap_size h + k + 2 * n)%nat
  | DFuel => False
  | _ => True
  end.

Lemma next_length r : (length (json_skip_ws (skip_char "," (json_skip_ws r))) <= length r)%nat.
Proof.
  pose proof (skip_ws_length (skip_char "," (json_skip_ws r))).
  pose proof (skip_char_length "," (json_skip_ws r)). pose proof (skip_ws_length r). lia.
Qed.
Lemma colon_length r : (length (json_skip_ws (skip_char ":" (json_skip_ws r))) <= length r)%nat.
Proof.
  pose proof (skip_ws_length (skip_char ":" (json_skip_ws r))).
  pose proof (skip_char_length ":" (json_skip_ws r)). pose proof (skip_ws_length r). lia.
Qed.
Lemma put_key_length key v pairs : (length (put_key key v pairs) <= length pairs + 2)%nat.
Proof.
  assert (H : forall n pairs, (length pairs <= n)%nat -> (length (put_key key v pairs) <= length pairs + 2)%nat);
    [|by apply (H (length pairs))].
  induction n as [|n IH]; intros [|k [|w l]] Hn; cbn [put_key]; try (cbn in *; lia).
  assert (Hl : (length (put_key key v l) <= length l + 2)%nat) by (apply IH; cbn in Hn; lia).
  destruct k; try case_if; cbn [length]; lia.
Qed.

Lemma object_loop_returns value (Hv : forall r h, returns (length r) h (value r h)) fuel :
  forall pairs r h, (length r <= fuel)%nat ->
  loop_returns (length r) (S (length pairs)) h (object_loop value fuel pairs r h).
Proof.
  assert (Hend : forall pairs (r r' : bytes) h, (length r' <= length r)%nat ->
    loop_returns (length r) (S (length pairs)) h (let (l, h) := alloc_array h (ASSOC :: pairs) in DVal (ARRAY l) r' h)).
  { intros pairs r r' h Hr. destruct (alloc_array h (ASSOC :: pairs)) as [l h'] eqn:E.
    apply heap_size_alloc in E. cbn [loop_returns length] in *. lia. }
  induction fuel as [|fuel IH]; intros pairs [|c r] h Hf; cbn [object_loop]; try (apply Hend; cbn; lia);
    try (cbn in Hf; lia).
  case_if; [apply Hend; cbn; lia|]. case_if; [done|].
  assert (H1 : (length (json_decode_str (c :: r)).2 <= length r)%nat)
    by exact (str_loop_length (length r) r []).
  destruct (json_decode_str (c :: r)) as [key r1]. cbn [snd] in H1.
  pose proof (colon_length r1) as H2. specialize (Hv (json_skip_ws (skip_char ":" (json_skip_ws r1))) h).
  destruct (value _ h) as [v r2 h2| | |]; try done. cbn [returns] in Hv. pose proof (next_length r2) as H3.
  destruct (Nat.eqb_spec (length (json_skip_ws (skip_char "," (json_skip_ws r2)))) (length (c :: r))); [done|].
  pose proof (put_key_length key v pairs) as Hk.
  specialize (IH (put_key key v pairs) (json_skip_ws (skip_char "," (json_skip_ws r2))) h2
    ltac:(cbn [length] in *; destruct (Nat.eq_dec _ _); lia)).
  destruct (object_loop value fuel _ _ h2); cbn [loop_returns length] in *; try done.
  destruct (Nat.eq_dec _ _); lia.
Qed.

Lemma array_loop_returns value (Hv : forall r h, returns (length r) h (value r h)) fuel :
  forall vs r h, (length r <= fuel)%nat -> loop_returns (length r) (length vs) h (array_loop value fuel vs r h).
Proof.
  assert (Hend : forall vs (r r' : bytes) h, (length r' <= length r)%nat ->
    loop_returns (length r) (length vs) h (let (l, h) := alloc_array h vs in DVal (ARRAY l) r' h)).
  { intros vs r r' h Hr. destruct (alloc_array h vs) as [l h'] eqn:E.
    apply heap_size_alloc in E. cbn [loop_returns] in *. lia. }
  induction fuel as [|fuel IH]; intros vs [|c r] h Hf; cbn [array_loop]; try (apply Hend; cbn; lia);
    try (cbn in Hf; lia).
  case_if; [apply Hend; cbn; lia|].
  specialize (Hv (c :: r) h). destruct (value (c :: r) h) as [v r2 h2| | |]; try done. cbn [returns length] in Hv.
  destruct (Nat.eq_dec _ _); [lia|]. pose proof (next_length r2) as H3.
  destruct (Nat.eqb_spec (length (json_skip_ws (skip_char "," (json_skip_ws r2)))) (length (c :: r))); [done|].
  specialize (IH (vs ++ [v]) (json_skip_ws (skip_char "," (json_skip_ws r2))) h2 ltac:(cbn [length] in *; lia)).
  destruct (array_loop value fuel _ _ h2); cbn [loop_returns] in *; try done.
  rewrite length_app in IH. cbn [length] in *. lia.
Qed.

Lemma loop_returns_value n m k h x :
  (k <= 1)%nat -> (m < n)%nat -> loop_returns m k h x -> returns n h x.
Proof. intros Hk Hm. destruct x; cbn; try done. destruct (Nat.eq_dec n 0%nat); lia. Qed.

Lemma scalar_returns v n (r : bytes) h : (0 < n)%nat -> (length r < n)%nat -> returns n h (DVal v r h).
Proof. intros Hn H. cbn. destruct (Nat.eq_dec n 0%nat); lia. Qed.

Lemma returns_more n m h x : (0 < n)%nat -> (n <= m)%nat -> returns n h x -> returns m h x.
Proof. destruct x; cbn; try done. destruct (Nat.eq_dec n 0%nat), (Nat.eq_dec m 0%nat); lia. Qed.

Lemma take_while_first p c r : p c = true -> (length (take_while p (c :: r)).2 <= length r)%nat.
Proof. intros Hc. cbn [take_while]. rewrite Hc. pose proof (take_while_length p r). by destruct (take_while p r). Qed.

Lemma decode_number_takes c r : (c =c "-") = true \/ isdigit c = true ->
  (length (decode_number (c :: r)).2 <= length r)%nat.
Proof.
  intros Hc. unfold decode_number. destruct (c =c "-") eqn:E.
  - pose proof (take_while_length num_char r). by destruct (take_while num_char r).
  - destruct Hc as [|Hd]; [done|].
    pose proof (take_while_first num_char c r ltac:(unfold num_char; by rewrite Hd)) as H. by destruct (take_while _ _).
Qed.

Lemma decode_value_returns d : forall r h, returns (length r) h (json_decode_value d r h).
Proof.
  induction d as [|d IH]; intros r h; [done|]. cbn [json_decode_value].
  pose proof (skip_ws_length r) as Hw. destruct (json_skip_ws r) as [|c r'] eqn:E.
  { destruct r as [|c r]; [cbn; lia|]. apply scalar_returns; cbn; lia. }
  apply (returns_more (length (c :: r'))); [cbn; lia|exact Hw|].
  pose proof (skip_ws_length r') as Hr. cbn [length] in *.
  case_if.
  { pose proof (str_loop_length (length r') r' []) as H.
    change (json_decode_str (c :: r')) with (str_loop (length r') r' []).
    destruct (str_loop (length r') r' []). apply scalar_returns; cbn in *; lia. }
  case_if.
  { eapply loop_returns_value; [|apply Nat.lt_succ_r, Hr|apply object_loop_returns; [exact IH|done]]. done. }
  case_if.
  { eapply loop_returns_value; [|apply Nat.lt_succ_r, Hr|apply array_loop_returns; [exact IH|done]]. cbn; lia. }
  case_if; [apply scalar_returns; [|rewrite length_drop; cbn]; lia|].
  case_if; [apply scalar_returns; [|rewrite length_drop; cbn]; lia|].
  case_if; [apply scalar_returns; [|rewrite length_drop; cbn]; lia|].
  destruct (c =c "-") eqn:Em, (isdigit c) eqn:Ed; cbn [negb andb]; try done;
    (pose proof (decode_number_takes c r' ltac:(by (left + right))) as H;
     destruct (decode_number (c :: r')); apply scalar_returns; cbn in *; lia).
Qed.

(** C32: the JSON decoder comes back on every text whatsoever, well formed or
    not: none of its loops makes more turns than there are characters, it
    stops inside the text, and all the arrays it makes have together at most
    two elements for each character of the text. *)
Theorem json_decode_total s h :
  exists v h', json_decode s h = Some (v, h') /\
    (heap_size h' <= heap_size h + 2 * length s)%nat.
Proof.
  pose proof (decode_value_returns (S JSON_MAX_DEPTH) s h) as H. unfold json_decode.
  destruct (json_decode_value _ s h); cbn [returns] in H; try done; eexists _, _; (split; [reflexivity|lia]).
Qed.

(** * What the encoder writes is read back

    [copy d h v h' v']: the value [v] of the heap [h] and the value [v'] of [h']
    are the same JSON document: equal scalars, arrays of copies. *)

Fixpoint copy (d : nat) (h : heap) (v : Value) (h' : heap) (v' : Value) : Prop :=
  match d with
  | O => False
  | S d =>
      match v, v' with
      | ARRAY l, ARRAY l' =>
          exists vs', h' !! l' = Some vs' /\ Forall2 (fun w w' => copy d h w h' w') (elems h l) vs'
      | ARRAY _, _ => False
      | _, _ => v = v'
      end
  end.

(** The keys of the pairs of an object; [None] if one is not a string. *)
Fixpoint pair_keys (pairs : list Value) : option (list bytes) :=
  match pairs with
  | [] => Some []
  | STRING k :: _ :: rest => cons k <$> pair_keys rest
  | _ => None
  end.

(** The documents: null, booleans, 64-bit integers, all strings, lists, and
    objects with different keys none of which is the tag of a struct, nested
    less than [d] deep. *)
Fixpoint document (d : nat) (h : heap) (v : Value) : Prop :=
  match d with
  | O => False
  | S d =>
      match v with
      | INT z => int64 z
      | STRING _ | BOOL _ | NONE => True
      | ARRAY l =>
          Forall (document d h) (elems h l) /\
          match elems h l with
          | STRING t :: pairs =>
              if t =s lit "__assoc__" then
                exists ks, pair_keys pairs = Some ks /\ NoDup ks /\ lit "__struct__" ∉ ks
              else True
          | _ => True
          end
      | _ => False
      end
  end.

Lemma copy_mono d : forall h v h1 h2 v', h1 ⊆ h2 -> copy d h v h1 v' -> copy d h v h2 v'.
Proof.
  induction d as [|d IH]; intros h v h1 h2 v' Hs; [done|]. cbn [copy].
  destruct v, v'; try done. intros (vs' & Hl & H). exists vs'. split.
  - by eapply lookup_weaken.
  - eapply Forall2_impl; [exact H|]. intros w w'. by apply IH.
Qed.

Lemma copies_mono d h vs h1 h2 vs' : h1 ⊆ h2 ->
  Forall2 (fun w w' => copy d h w h1 w') vs vs' -> Forall2 (fun w w' => copy d h w h2 w') vs vs'.
Proof. intros Hs H. eapply Forall2_impl; [exact H|]. intros w w'. by apply copy_mono. Qed.

(** ** Strings *)

Lemma escape_turn c rest acc : str_turn (json_escape c ++ rest) acc = (acc ++ [c], rest).
Proof.
  destruct c as [[] [] [] [] [] [] [] []]; try reflexivity;
    destruct rest as [|c1 [|c2 rest]]; reflexivity.
Qed.

Lemma escape_head c : exists e t, json_escape c = e :: t /\ (e =c DQUOTE) = false.
Proof. destruct c as [[] [] [] [] [] [] [] []]; by eexists _, _. Qed.

Lemma str_loop_escaped s : forall fuel rest acc, (length s <= fuel)%nat ->
  str_loop fuel (concat (map json_escape s) ++ DQUOTE :: rest) acc = (acc ++ s, rest).
Proof.
  induction s as [|c s IH]; intros fuel rest acc Hf; cbn [map concat app].
  - rewrite app_nil_r. by destruct fuel.
  - destruct fuel as [|fuel]; [cbn in Hf; lia|]. rewrite <- app_assoc.
    pose proof (escape_turn c (concat (map json_escape s) ++ DQUOTE :: rest) acc) as Ht.
    destruct (escape_head c) as (e & t & E & He). rewrite E in *. cbn [app] in *. cbn [str_loop]. rewrite He, Ht.
    rewrite IH by (cbn in Hf; lia). by rewrite <- app_assoc.
Qed.

Lemma escaped_length s : (length s <= length (concat (map json_escape s)))%nat.
Proof.
  induction s as [|c s IH]; [done|]. cbn [map concat]. rewrite length_app.
  destruct (escape_head c) as (e & t & -> & _). cbn. lia.
Qed.

Lemma decode_encoded_string s rest : json_decode_str (json_encode_string s ++ rest) = (s, rest).
Proof.
  unfold json_decode_str, json_encode_string. cbn [app tail]. rewrite <- app_assoc. cbn [app].
  apply (str_loop_escaped s). rewrite length_app. pose proof (escaped_length s). lia.
Qed.

(** ** Numbers *)

(** What follows a value: the end of the text, a comma or a closing bracket. *)
Definition stops (rest : bytes) : Prop :=
  match rest with [] => True | c :: _ => (c =c ",") || (c =c "]") || (c =c "}") = true end.

Lemma stops_num rest : stops rest -> match rest with [] => True | c :: _ => num_char c = false end.
Proof.
  destruct rest as [|c rest]; [done|]. cbn [stops]. intros H.
  rewrite !orb_true_iff, !Ascii.eqb_eq in H. by destruct H as [[-> | ->] | ->].
Qed.

Lemma take_while_all p s rest : forallb p s = true -> match rest with [] => True | c :: _ => p c = false end ->
  take_while p (s ++ rest) = (s, rest).
Proof.
  intros Hs Hr. induction s as [|c s IH]; cbn [app take_while].
  - destruct rest as [|c rest]; [done|]. cbn [take_while]. by rewrite Hr.
  - cbn [forallb] in Hs. apply andb_true_iff in Hs as [Hc Hs]. by rewrite Hc, IH.
Qed.

Lemma digits_not_float s : forallb isdigit s = true ->
  forallb num_char s = true /\ has_char float_char s = false.
Proof.
  induction s as [|c s IH]; [done|]. cbn [forallb]. intros [Hc Hs]%andb_true_iff.
  destruct (IH Hs) as [H1 H2].
  assert (Hi : implb (isdigit c) (num_char c && negb (float_char c)) = true) by by_chars c.
  rewrite Hc in Hi. cbn [implb] in Hi. apply andb_true_iff in Hi as [Hn Hf%negb_true_iff].
  cbn [has_char existsb]. unfold has_char in *. cbn [existsb]. by rewrite Hn, Hf, H1, H2.
Qed.

Lemma int_to_string_read z : int64 z -> exists pos, stoll_pos (int_to_string z) = LVal z pos.
Proof.
  intros Hz. assert (H : stoll (int_to_string z) = Some z).
  { unfold int_to_string. destruct (z <? 0) eqn:E; bool_to_prop.
    - unfold int64, INT64_MIN, INT64_MAX in Hz. unfold stoll, decimal.
      pose proof (dec_go_digits 20 (- z) [] eq_refl ltac:(lia)) as Hd.
      pose proof (dec_go_spec 20 (- z) [] ltac:(simpl; lia) ltac:(lia)) as Hv.
      destruct (dec_go_cons 20 (- z) [] ltac:(lia)) as (c & s & E2). rewrite E2 in *.
      change (skip_space ("-"%char :: c :: s)) with ("-"%char :: c :: s). cbn [sign].
      change ("-" =c "-") with true. cbn iota. cbn [has_digit].
      rewrite (isdigit_val c) by (cbn in Hd; by apply andb_true_iff in Hd as [? _]).
      rewrite <- (app_nil_r (c :: s)), digits_app; [|apply forallb_forall|done].
      + cbn [fst]. rewrite Hv. cbn [fold_left]. replace (- - z) with z by lia.
        rewrite (proj2 (in_int64_spec z)); [done|exact Hz].
      + intros x Hin. apply isdigit_val. rewrite forallb_forall in Hd. by apply Hd.
    - apply stoll_decimal. unfold int64 in Hz. lia. }
  rewrite stoll_pos_stoll in H. destruct (stoll_pos _); try done. injection H as ->. by eexists.
Qed.

Lemma decode_int z rest : int64 z -> stops rest -> decode_number (int_to_string z ++ rest) = (INT z, rest).
Proof.
  intros Hz Hr. pose proof (int_to_string_read z Hz) as [pos Hp]. apply stops_num in Hr.
  assert (Hnum : forall n, 0 <= n -> forallb isdigit (decimal n) = true) by (intros n Hn; by apply dec_go_digits).
  assert (Hc : forall n, exists c s, decimal n = c :: s) by (intros n; apply dec_go_cons; lia).
  unfold decode_number, int_to_string in *. destruct (z <? 0) eqn:E; bool_to_prop; cbn [app].
  - change ("-" =c "-") with true. cbn iota.
    destruct (digits_not_float (decimal (- z)) (Hnum (- z) ltac:(lia))) as [H1 H2].
    rewrite (take_while_all num_char _ rest H1 Hr). f_equal. rewrite H2. unfold number_value. cbn [app].
    rewrite Hp. destruct (Hc (- z)) as (c & s & ->). done.
  - destruct (digits_not_float (decimal z) (Hnum z ltac:(lia))) as [H1 H2].
    destruct (Hc z) as (c & s & E2). rewrite E2 in *. cbn [app].
    assert (Hd : isdigit c = true) by (specialize (Hnum z ltac:(lia)); rewrite E2 in Hnum; cbn in Hnum; by apply andb_true_iff in Hnum as [? _]).
    assert (Hm : (c =c "-") = false).
    { assert (Hi : implb (isdigit c) (negb (c =c "-")) = true) by by_chars c.
      rewrite Hd in Hi. by apply negb_true_iff. }
    rewrite Hm. change (c :: s ++ rest) with ((c :: s) ++ rest). rewrite (take_while_all num_char _ rest H1 Hr).
    f_equal. rewrite H2. unfold number_value. cbn [app]. rewrite Hp.
    change (lit "-") with ["-"%char]. cbn [bytes_eqb]. by rewrite Hm.
Qed.

(** ** Documents *)

Section Roundtrip.
Context (L : Lib) (sdepth : nat).

(** The encoder writes [t] for [v], and the decoder reads it back wherever it
    stands; [t] does not begin like a space or the end of an array. *)
Definition reads_back (d : nat) (h : heap) (v : Value) : Prop :=
  exists t, json_encode L sdepth d h v = Ret t /\
    (exists c t', t = c :: t' /\ is_ws c = false /\ (c =c "]") = false) /\
    forall rest h0, stops rest ->
      exists v' h1, json_decode_value d (t ++ rest) h0 = DVal v' rest h1 /\ h0 ⊆ h1 /\ copy d h v h1 v'.

Lemma skip_stop rest : stops rest -> json_skip_ws rest = rest.
Proof.
  destruct rest as [|c rest]; [done|]. cbn [stops json_skip_ws]. intros H.
  rewrite !orb_true_iff, !Ascii.eqb_eq in H. by destruct H as [[-> | ->] | ->].
Qed.

Lemma alloc_array_spec h vs l h' : alloc_array h vs = (l, h') -> h ⊆ h' /\ h' !! l = Some vs.
Proof.
  unfold alloc_array. intros E. simplify_eq. split; [|apply lookup_insert_eq].
  apply insert_subseteq, not_elem_of_dom, is_fresh.
Qed.

(** A list: behind the elements read so far the rest of the list is read. *)
Lemma array_reads_back d h : forall vs, Forall (reads_back d h) vs -> exists t,
  encode_items (json_encode L sdepth d h) true vs = Ret t /\
  encode_items (json_encode L sdepth d h) false vs = Ret (match vs with [] => [] | _ => ","%char :: t end) /\
  (vs <> [] -> exists c t', t = c :: t' /\ is_ws c = false) /\
  forall acc rest h0 fuel, (length (t ++ "]"%char :: rest) <= fuel)%nat -> exists l vs' h1,
    array_loop (json_decode_value d) fuel acc (t ++ "]"%char :: rest) h0 = DVal (ARRAY l) rest h1 /\
    h0 ⊆ h1 /\ h1 !! l = Some (acc ++ vs') /\ Forall2 (fun w w' => copy d h w h1 w') vs vs'.
Proof.
  induction 1 as [|v vs (t & Ht & (c & t' & -> & Hw & Hb) & Hdec) _ (ts & Ets & Efs & Hws & IH)].
  - exists []. do 3 (split; [done|]). intros acc rest h0 fuel Hf. cbn [app].
    destruct (alloc_array h0 acc) as [l h1] eqn:E. apply alloc_array_spec in E as E'. destruct E' as [Hs Hl].
    exists l, [], h1. rewrite app_nil_r. split; [|done].
    destruct fuel; cbn [array_loop]; change ("]" =c "]") with true; cbn iota; by rewrite E.
  - exists ((c :: t') ++ match vs with [] => [] | _ => ","%char :: ts end).
    cbn [encode_items]. rewrite Ht. cbn [mbind res_bind]. rewrite Efs. split; [done|]. split; [done|].
    split; [by eexists _, _|]. intros acc rest h0 fuel Hf. rewrite <- app_assoc in *.
    set (more := match vs with [] => [] | _ => ","%char :: ts end ++ "]"%char :: rest) in *.
    assert (Hm : stops more) by (unfold more; by destruct vs).
    destruct (Hdec more h0 Hm) as (v' & h1 & Ev & Hs1 & Hc1).
    destruct fuel as [|fuel]; [cbn in Hf; lia|]. cbn [app array_loop]. rewrite Hb.
    change (c :: t' ++ more) with ((c :: t') ++ more). rewrite Ev, (skip_stop more Hm).
    assert (Hnext : json_skip_ws (skip_char "," more) = ts ++ "]"%char :: rest).
    { unfold more. destruct vs as [|v2 vs]; [by injection Ets as <-|]. cbn [skip_char app].
      change ("," =c ",") with true. cbn iota. destruct Hws as (c2 & t2 & -> & Hw2); [done|].
      cbn [app json_skip_ws]. by rewrite Hw2. }
    rewrite Hnext. assert (Hlen : (length (ts ++ "]"%char :: rest) <= length more)%nat).
    { rewrite <- Hnext. pose proof (next_length more) as H. by rewrite (skip_stop more Hm) in H. }
    replace (_ =? _)%nat with false by (symmetry; apply Nat.eqb_neq; rewrite (length_app (c :: t') more); cbn [length]; lia).
    destruct (IH (acc ++ [v']) rest h1 fuel) as (l & vs' & h2 & El & Hs2 & Hl & Hc2).
    { rewrite length_app in Hf. cbn [length] in Hf. lia. }
    exists l, (v' :: vs'), h2. split; [exact El|]. split; [by transitivity h1|]. rewrite <- app_assoc in Hl.
    split; [exact Hl|]. constructor; [by eapply copy_mono|exact Hc2].
Qed.

Lemma put_key_fresh key v : forall ks acc, pair_keys acc = Some ks -> key ∉ ks ->
  put_key key v acc = acc ++ [STRING key; v] /\ pair_keys (acc ++ [STRING key; v]) = Some (ks ++ [key]).
Proof.
  induction ks as [|k ks IH]; intros acc Hk Hn.
  - destruct acc as [|[] [|w acc]]; try done; cbn in Hk; by destruct (pair_keys acc).
  - destruct acc as [|[| |t| | | | | | | |] [|w acc]]; try done. cbn [pair_keys] in Hk.
    destruct (pair_keys acc) as [ks'|] eqn:E; [|done]. cbn in Hk. injection Hk as -> ->.
    apply not_elem_of_cons in Hn as [Hne Hn]. destruct (IH acc E Hn) as [E1 E2].
    cbn [put_key app pair_keys]. rewrite (proj2 (bytes_eqb_neq k key)), E1, E2 by congruence. done.
Qed.

Lemma to_string_STRING h k : to_string L sdepth h (STRING k) = Ret k.
Proof. by destruct sdepth. Qed.

Lemma reads_back_pos d h v : reads_back d h v -> (0 < d)%nat.
Proof.
  intros (t & _ & _ & H). destruct d; [|lia]. destruct (H [] ∅ I) as (v' & h1 & E & _). done.
Qed.

(** An object, in the same way. *)
Lemma object_reads_back d h : forall ks pairs, pair_keys pairs = Some ks -> NoDup ks ->
  lit "__struct__" ∉ ks -> Forall (reads_back d h) pairs -> exists t,
  encode_pairs L sdepth (json_encode L sdepth d h) h true pairs = Ret t /\
  encode_pairs L sdepth (json_encode L sdepth d h) h false pairs =
    Ret (match pairs with [] => [] | _ => ","%char :: t end) /\
  (pairs <> [] -> exists t', t = DQUOTE :: t') /\
  forall kacc acc rest h0 fuel, pair_keys acc = Some kacc -> (forall k, k ∈ kacc -> k ∉ ks) ->
    (length (t ++ "}"%char :: rest) <= fuel)%nat -> exists l pairs' h1,
    object_loop (json_decode_value d) fuel acc (t ++ "}"%char :: rest) h0 = DVal (ARRAY l) rest h1 /\
    h0 ⊆ h1 /\ h1 !! l = Some (ASSOC :: acc ++ pairs') /\ Forall2 (fun w w' => copy d h w h1 w') pairs pairs'.
Proof.
  induction ks as [|k ks IH]; intros pairs Hk Hnd Hst Hall.
  - assert (pairs = []) as ->.
    { destruct pairs as [|[] [|w pairs]]; try done; cbn in Hk; by destruct (pair_keys pairs). }
    exists []. do 3 (split; [done|]). intros kacc acc rest h0 fuel _ _ Hf. cbn [app].
    destruct (alloc_array h0 (ASSOC :: acc)) as [l h1] eqn:E. apply alloc_array_spec in E as E'. destruct E' as [Hs Hl].
    exists l, [], h1. rewrite app_nil_r. split; [|done].
    destruct fuel; cbn [object_loop]; change ("}" =c "}") with true; cbn iota; by rewrite E.
  - destruct pairs as [|[| |t| | | | | | | |] [|w pairs]]; try done. cbn [pair_keys] in Hk.
    destruct (pair_keys pairs) as [ks'|] eqn:E; [|done]. cbn in Hk. injection Hk as -> ->.
    apply NoDup_cons in Hnd as [Hnk Hnd]. apply not_elem_of_cons in Hst as [Hne Hst].
    apply Forall_cons in Hall as [Hkey [(t & Ht & (c & t' & -> & Hw & _) & Hdec) Hall]%Forall_cons].
    apply reads_back_pos in Hkey. destruct (IH pairs E Hnd Hst Hall) as (ts & Ets & Efs & Hws & IHd).
    exists (json_encode_string k ++ ":"%char :: (c :: t') ++ match pairs with [] => [] | _ => ","%char :: ts end).
    cbn [encode_pairs]. rewrite to_string_STRING. cbn [mbind res_bind].
    rewrite (proj2 (bytes_eqb_neq k (lit "__struct__"))) by congruence. rewrite Ht. cbn [mbind res_bind].
    rewrite Efs. split; [done|]. split; [done|]. split; [by eexists|].
    intros kacc acc rest h0 fuel Hacc Hdis Hf. rewrite <- app_assoc in *. cbn [app] in *. rewrite <- app_assoc in *.
    set (more := match pairs with [] => [] | _ => ","%char :: ts end ++ "}"%char :: rest) in *.
    assert (Hm : stops more) by (unfold more; by destruct pairs).
    destruct (Hdec more h0 Hm) as (v' & h1 & Ev & Hs1 & Hc1).
    destruct fuel as [|fuel]; [cbn in Hf; lia|].
    pose proof (decode_encoded_string k (":"%char :: c :: t' ++ more)) as Hstr.
    destruct (json_encode_string k ++ ":"%char :: c :: t' ++ more) as [|q body] eqn:Eb; [done|].
    assert (q = DQUOTE) as -> by by injection Eb as <-. cbn [object_loop].
    change (DQUOTE =c "}") with false. change (DQUOTE =c DQUOTE) with true. cbn [negb]. cbn iota. rewrite Hstr.
    cbn [json_skip_ws]. change (is_ws ":") with false. cbn iota. cbn [skip_char]. change (":" =c ":") with true.
    cbn iota. cbn [json_skip_ws]. rewrite Hw.
    rewrite Ev, (skip_stop more Hm).
    assert (Hnext : json_skip_ws (skip_char "," more) = ts ++ "}"%char :: rest).
    { unfold more. destruct pairs as [|v2 pairs]; [by injection Ets as <-|]. cbn [skip_char app].
      change ("," =c ",") with true. cbn iota. by destruct Hws as (t2 & ->). }
    rewrite Hnext. assert (Hlen : (length (ts ++ "}"%char :: rest) <= length more)%nat).
    { rewrite <- Hnext. pose proof (next_length more) as H. by rewrite (skip_stop more Hm) in H. }
    assert (Hb : (length more < length (DQUOTE :: body))%nat).
    { rewrite <- Eb, length_app. cbn [length]. rewrite length_app. lia. }
    replace (_ =? _)%nat with false by (symmetry; apply Nat.eqb_neq; lia).
    destruct (put_key_fresh k v' kacc acc Hacc) as [-> Hacc'].
    { intros Hin. by apply (Hdis k Hin), elem_of_cons; left. }
    destruct (IHd (kacc ++ [k]) (acc ++ [STRING k; v']) rest h1 fuel Hacc') as (l & vs' & h2 & El & Hs2 & Hl & Hc2).
    { intros k2 [Hin | Hin%list_elem_of_singleton]%elem_of_app.
      - intros Hin2. by apply (Hdis k2 Hin), elem_of_cons; right.
      - by subst. }
    { lia. }
    exists l, (STRING k :: v' :: vs'), h2. split; [exact El|]. split; [by transitivity h1|].
    rewrite <- app_assoc in Hl. split; [exact Hl|].
    constructor; [by destruct d; [lia|]|]. constructor; [by eapply copy_mono|exact Hc2].
Qed.

(** A value that is not an array. *)
Lemma scalar_reads_back d h v t c t' w :
  json_encode L sdepth (S d) h v = Ret t -> t = c :: t' -> is_ws c = false -> (c =c "]") = false ->
  (forall h', copy (S d) h v h' w) ->
  (forall rest h0, stops rest -> json_decode_value (S d) (t ++ rest) h0 = DVal w rest h0) ->
  reads_back (S d) h v.
Proof.
  intros Ht Hc Hw Hb Hcp Hd. exists t. split; [done|]. split; [by eexists _, _|].
  intros rest h0 Hr. exists w, h0. split; [by apply Hd|]. done.
Qed.

Lemma int_to_string_head z : exists c t, int_to_string z = c :: t /\ ((c =c "-") || isdigit c = true).
Proof.
  unfold int_to_string. destruct (z <? 0) eqn:E; [by eexists _, _|]. bool_to_prop.
  pose proof (dec_go_digits 20 z [] eq_refl E) as Hd. unfold decimal.
  destruct (dec_go_cons 20 z [] ltac:(lia)) as (c & t & E2). rewrite E2 in *. exists c, t. split; [done|].
  cbn in Hd. apply andb_true_iff in Hd as [-> _]. apply orb_true_r.
Qed.

Lemma decode_value_int d z rest h0 : int64 z -> stops rest ->
  json_decode_value (S d) (int_to_string z ++ rest) h0 = DVal (INT z) rest h0.
Proof.
  intros Hz Hr. pose proof (decode_int z rest Hz Hr) as Hd. destruct (int_to_string_head z) as (c & t & E & Hc).
  rewrite E in *. cbn [app json_decode_value] in *.
  assert (Hi : implb ((c =c "-") || isdigit c) (negb (is_ws c || (c =c DQUOTE) || (c =c "{") || (c =c "[")
    || (c =c "t") || (c =c "f") || (c =c "n")) && ((c =c "-") || isdigit c)) = true) by by_chars c.
  rewrite Hc in Hi. cbn [implb] in Hi. apply andb_true_iff in Hi as [Hi%negb_true_iff _].
  rewrite !orb_false_iff in Hi. destruct Hi as ((((((H1 & H2) & H3) & H4) & H5) & H6) & H7).
  cbn [json_skip_ws]. rewrite H1, H2, H3, H4.
  change (lit "true") with ("t"%char :: lit "rue"). change (lit "false") with ("f"%char :: lit "alse").
  change (lit "null") with ("n"%char :: lit "ull"). cbn [starts_with].
  rewrite !(Ascii.eqb_sym _ c), H5, H6, H7. cbn [andb]. rewrite <- negb_orb, Hc. cbn [negb]. by rewrite Hd.
Qed.

Lemma array_value_reads_back d h l : Forall (reads_back d h) (elems h l) ->
  json_encode L sdepth (S d) h (ARRAY l) =
    (encode_items (json_encode L sdepth d h) true (elems h l) ≫= fun body : bytes =>
     Ret (lit "[" ++ body ++ lit "]")) ->
  reads_back (S d) h (ARRAY l).
Proof.
  intros Hall He. destruct (array_reads_back d h _ Hall) as (t & Et & _ & Hws & Hdec).
  exists ("["%char :: t ++ lit "]"). split; [rewrite He, Et; done|]. split; [by eexists _, _|].
  intros rest h0 Hr. cbn [app json_decode_value json_skip_ws]. change (is_ws "[") with false. cbn iota.
  change ("[" =c DQUOTE) with false. change ("[" =c "{") with false. change ("[" =c "[") with true. cbn iota.
  rewrite <- app_assoc. change (lit "]" ++ rest) with ("]"%char :: rest).
  replace (json_skip_ws (t ++ "]"%char :: rest)) with (t ++ "]"%char :: rest).
  - destruct (Hdec [] rest h0 _ (le_n _)) as (l' & vs' & h1 & E & Hs & Hl & Hc).
    exists (ARRAY l'), h1. split; [exact E|]. split; [done|]. cbn [copy]. by exists vs'.
  - destruct (elems h l) as [|v vs]; [by injection Et as <-|]. destruct Hws as (c & t' & -> & Hw); [done|].
    cbn [app json_skip_ws]. by rewrite Hw.
Qed.

Lemma object_value_reads_back d h l pairs ks : elems h l = ASSOC :: pairs ->
  pair_keys pairs = Some ks -> NoDup ks -> lit "__struct__" ∉ ks ->
  Forall (reads_back d h) (elems h l) -> reads_back (S d) h (ARRAY l).
Proof.
  intros El Hk Hnd Hst Hall. rewrite El in Hall. apply Forall_cons in Hall as [Hpos%reads_back_pos Hall].
  destruct (object_reads_back d h ks pairs Hk Hnd Hst Hall) as (t & Et & _ & Hws & Hdec).
  exists ("{"%char :: t ++ lit "}"). split.
  { cbn [json_encode]. rewrite El. unfold ASSOC. change (lit "__assoc__" =s lit "__assoc__") with true. cbn iota.
    by rewrite Et. }
  split; [by eexists _, _|].
  intros rest h0 Hr. cbn [app json_decode_value json_skip_ws]. change (is_ws "{") with false. cbn iota.
  change ("{" =c DQUOTE) with false. change ("{" =c "{") with true. cbn iota.
  rewrite <- app_assoc. change (lit "}" ++ rest) with ("}"%char :: rest).
  replace (json_skip_ws (t ++ "}"%char :: rest)) with (t ++ "}"%char :: rest).
  - destruct (Hdec [] [] rest h0 _ eq_refl ltac:(by intros k ?%elem_of_nil) (le_n _)) as (l' & vs' & h1 & E & Hs & Hl & Hc).
    exists (ARRAY l'), h1. split; [exact E|]. split; [done|]. cbn [copy]. exists (ASSOC :: vs'). rewrite El.
    split; [exact Hl|]. constructor; [by destruct d; [lia|]|exact Hc].
  - destruct pairs as [|v vs]; [by injection Et as <-|]. by destruct Hws as (t' & ->).
Qed.

Lemma document_reads_back d : forall h v, document d h v -> reads_back d h v.
Proof.
  induction d as [|d IH]; intros h v Hv; [done|].
  destruct v as [z| |t|b| |l| | | | |]; cbn [document] in Hv; try done.
  - destruct (int_to_string_head z) as (c & t & E & Hc).
    assert (Hi : implb ((c =c "-") || isdigit c) (negb (is_ws c || (c =c "]"))) = true) by by_chars c.
    rewrite Hc in Hi. cbn [implb] in Hi. apply negb_true_iff, orb_false_iff in Hi as [H1 H2].
    apply (scalar_reads_back d h _ (int_to_string z) c t (INT z)); try done.
    intros rest h0. by apply decode_value_int.
  - apply (scalar_reads_back d h _ (json_encode_string t) DQUOTE (concat (map json_escape t) ++ [DQUOTE]) (STRING t)); try done.
    intros rest h0 _. pose proof (decode_encoded_string t rest) as Hs. unfold json_encode_string in *.
    cbn [app json_decode_value json_skip_ws] in *. change (is_ws DQUOTE) with false. cbn iota.
    change (DQUOTE =c DQUOTE) with true. cbn iota. by rewrite Hs.
  - destruct b.
    + by apply (scalar_reads_back d h _ (lit "true") "t" (lit "rue") (BOOL true)).
    + by apply (scalar_reads_back d h _ (lit "false") "f" (lit "alse") (BOOL false)).
  - destruct Hv as [Hall Hshape].
    assert (Hall' : Forall (reads_back d h) (elems h l)) by (eapply Forall_impl; [exact Hall|apply IH]).
    destruct (elems h l) as [|v vs] eqn:El.
    { apply array_value_reads_back; [by rewrite El|]. cbn [json_encode]. by rewrite El. }
    destruct v as [| |t| | | | | | | |];
      try (apply array_value_reads_back; [by rewrite El|cbn [json_encode]; by rewrite El]).
    destruct (t =s lit "__assoc__") eqn:Et.
    + destruct Hshape as (ks & Hk & Hnd & Hst). apply bytes_eqb_eq in Et. subst t.
      by apply (object_value_reads_back d h l vs ks El Hk Hnd Hst); rewrite El.
    + apply array_value_reads_back; [by rewrite El|]. cbn [json_encode]. by rewrite El, Et.
  - by apply (scalar_reads_back d h _ (lit "null") "n" (lit "ull") NONE).
Qed.

End Roundtrip.

(** C31: every JSON document the program can hold, up to the nesting limit,
    survives being encoded and decoded: the encoder gives a text, and decoding
    that text, next to whatever arrays there are, gives a fresh copy of the
    document and leaves the other arrays as they were. Floats are not
    documents here (their text is the C library's), nor are structs. *)
Theorem json_roundtrip L sdepth h v :
  document (S JSON_MAX_DEPTH) h v ->
  exists t, json_encode_value L sdepth h v = Ret t /\
    forall h0, exists v' h1, json_decode t h0 = Some (v', h1) /\ h0 ⊆ h1 /\ copy (S JSON_MAX_DEPTH) h v h1 v'.
Proof.
  intros Hv. destruct (document_reads_back L sdepth _ h v Hv) as (t & Ht & _ & Hd).
  exists t. split; [exact Ht|]. intros h0. destruct (Hd [] h0 I) as (v' & h1 & E & Hs & Hc).
  rewrite app_nil_r in E. exists v', h1. unfold json_decode. by rewrite E.
Qed.

Lemma json_roundtrip_witness :
  let L := MkLib (fun _ => []) (fun d _ => d) in
  let h : heap := {[ 1%positive := [ASSOC; STRING (lit "a"); INT (-7); STRING (lit "b"); ARRAY 2%positive];
                     2%positive := [BOOL true; NONE; STRING [DQUOTE; LF; chr 1; chr 200]] ]} in
  json_encode_value L 1 h (ARRAY 2%positive) =
    Ret (lit "[true,null," ++ [DQUOTE; BACKSLASH; DQUOTE] ++ lit "\n\u0001" ++ [chr 200; DQUOTE] ++ lit "]") /\
  exists t, json_encode_value L 1 h (ARRAY 1%positive) = Ret t /\
    forall h0, exists v' h1, json_decode t h0 = Some (v', h1) /\ h0 ⊆ h1 /\
      copy (S JSON_MAX_DEPTH) h (ARRAY 1%positive) h1 v'.
Proof.
  intros L h. split; [vm_compute; reflexivity|]. apply (json_roundtrip L 1 h (ARRAY 1%positive)).
  assert (E1 : elems h 1%positive = [ASSOC; STRING (lit "a"); INT (-7); STRING (lit "b"); ARRAY 2%positive])
    by (vm_compute; reflexivity).
  assert (E2 : elems h 2%positive = [BOOL true; NONE; STRING [DQUOTE; LF; chr 1; chr 200]])
    by (vm_compute; reflexivity).
  clearbody h. unfold JSON_MAX_DEPTH. cbn [document]. rewrite E1. split.
  - repeat (apply Forall_cons; split); try apply Forall_nil; cbn [document ASSOC]; try done.
    rewrite E2. split; [|done]. by repeat (apply Forall_cons; split); try apply Forall_nil.
  - exists [lit "a"; lit "b"]. split; [done|]. split; [apply (bool_decide_unpack _); vm_compute; exact I|].
    apply (bool_decide_unpack _). vm_compute. exact I.
Defined.

(** An escape [\u] without four digits skips the next character too, here the
    closing quote: the string goes on to the end of the text. *)
Example bad_escape_skips_quote :
  json_decode_str ([DQUOTE; BACKSLASH] ++ lit "u" ++ [DQUOTE] ++ lit ",1]") = (lit "\u,1]", []).
Proof. vm_compute. reflexivity. Qed.

End Json.
