(* ===== verification/Ssrf.v ===== *)
(** The guard of the HTTP client against requests to internal hosts:
    cpp/include/look/ssrf_safe.h, and its use in cpp/src/http_client.cpp.

    A byte is a number below 256, an IPv4 address a number below 2^32, an IPv6
    address the list of its sixteen bytes, in the order of the network. *)

From S2P Require Import Prelude.
#[local] Open Scope Z_scope.

Module Ssrf.

(** * The code *)

Definition is_private_v4 (ip : Z) : bool :=
  if Z.shiftr ip 24 =? 127 then true
  else if Z.shiftr ip 24 =? 10 then true
  else if Z.shiftr ip 20 =? 172 * 16 + 1 then true
  else if Z.shiftr ip 16 =? 192 * 256 + 168 then true
  else if Z.shiftr ip 16 =? 169 * 256 + 254 then true
  else if Z.shiftr ip 22 =? 100 * 4 + 1 then true
  else if Z.shiftr ip 24 =? 0 then true
  else if Z.shiftr ip 28 =? 14 then true
  else if Z.shiftr ip 28 =? 15 then true
  else false.

(** [b[i]] *)
Definition nth_byte (b : list Z) (i : nat) : Z := nth i b 0.

Definition ssrf_rd32 (b : list Z) : Z :=
  Z.lor (Z.lor (Z.lor (Z.shiftl (nth_byte b 0) 24) (Z.shiftl (nth_byte b 1) 16)) (Z.shiftl (nth_byte b 2) 8)) (nth_byte b 3).

(** [for (int i = 0; i < n; ++i) if (b[i]) ...] *)
Definition zeros (n : nat) (b : list Z) : bool := forallb (fun x => x =? 0) (take n b).

Definition ssrf_blocked_v6 (b : list Z) : bool :=
  let is_lo := zeros 15 b in
  if is_lo && (nth_byte b 15 =? 1) then true
  else if is_lo && (nth_byte b 15 =? 0) then true
  else if Z.land (nth_byte b 0) 254 =? 252 then true
  else if (nth_byte b 0 =? 254) && (Z.land (nth_byte b 1) 192 =? 128) then true
  else
    let hi80_zero := zeros 10 b in
    if hi80_zero && (nth_byte b 10 =? 255) && (nth_byte b 11 =? 255) && is_private_v4 (ssrf_rd32 (drop 12 b)) then true
    else if hi80_zero && (nth_byte b 10 =? 0) && (nth_byte b 11 =? 0)
         && negb (Z.lor (Z.lor (Z.lor (nth_byte b 12) (nth_byte b 13)) (nth_byte b 14)) (nth_byte b 15) =? 0)
         && is_private_v4 (ssrf_rd32 (drop 12 b)) then true
    else if (nth_byte b 0 =? 0) && (nth_byte b 1 =? 100) && (nth_byte b 2 =? 255) && (nth_byte b 3 =? 155)
         && zeros 8 (drop 4 b) && is_private_v4 (ssrf_rd32 (drop 12 b)) then true
    else (nth_byte b 0 =? 32) && (nth_byte b 1 =? 2) && is_private_v4 (ssrf_rd32 (drop 2 b)).

(** An entry of the list that [getaddrinfo] returns. *)
Inductive addr := A4 (ip : Z) | A6 (b : list Z) | AOther.

(** [is_ssrf_blocked]; [allow] is LOOK_ALLOW_SSRF=1. *)
Definition is_ssrf_blocked (allow : bool) (res : list addr) : bool :=
  if allow then false
  else existsb (fun a => match a with
    | A4 ip => is_private_v4 ip
    | A6 b => ssrf_blocked_v6 b
    | AOther => false
    end) res.

(** [tcp_connect] up to [connect]: the address it connects to, or the reason it
    does not; [res] is what [getaddrinfo] found. *)
Inductive target := Connect (a : addr) | DnsFailed | Blocked.
Definition tcp_connect (allow : bool) (res : option (list addr)) : target :=
  match res with
  | None => DnsFailed
  | Some res =>
      if is_ssrf_blocked allow res then Blocked
      else match res with a :: _ => Connect a | [] => DnsFailed end
  end.

(** * The blocks of addresses

    As the registries of special-purpose addresses give them: a first address
    and the length of the prefix. *)

Definition v4 (a b c d : Z) : Z := ((a * 256 + b) * 256 + c) * 256 + d.
Definition in_block (bits ip : Z) (block : Z * Z) : Prop :=
  let (first, n) := block in ip / 2 ^ (bits - n) = first / 2 ^ (bits - n).

Definition v4_blocks : list (Z * Z) :=
  [(v4 127 0 0 0, 8); (v4 10 0 0 0, 8); (v4 172 16 0 0, 12); (v4 192 168 0 0, 16);
   (v4 169 254 0 0, 16); (v4 100 64 0 0, 10); (v4 0 0 0 0, 8); (v4 224 0 0 0, 4); (v4 240 0 0 0, 4)].
Definition internal_v4 (ip : Z) : Prop := Exists (in_block 32 ip) v4_blocks.

(** The number an address is, its first byte most significant. *)
Definition addr_number (b : list Z) : Z := fold_left (fun n x => n * 256 + x) b 0.

(** The blocks of IPv6, [16 * h] for the group [h] in front. *)
Definition v6_blocks : list (Z * Z) :=
  [(1, 128); (0, 128); (0xfc00 * 2 ^ 112, 7); (0xfe80 * 2 ^ 112, 10)].

(** The IPv4 address inside an IPv6 address: mapped, compatible (but for the
    unspecified address and the loopback, which are blocks of their own), of a
    NAT64 gateway, of 6to4. *)
Definition embedded_v4 (a ip : Z) : Prop :=
  (in_block 128 a (0xffff * 2 ^ 32, 96) /\ ip = a mod 2 ^ 32) \/
  (in_block 128 a (0, 96) /\ a <> 0 /\ ip = a mod 2 ^ 32) \/
  (in_block 128 a (0x64ff9b * 2 ^ 96, 96) /\ ip = a mod 2 ^ 32) \/
  (in_block 128 a (0x2002 * 2 ^ 112, 16) /\ ip = (a / 2 ^ 80) mod 2 ^ 32).

Definition internal_v6 (a : Z) : Prop :=
  Exists (in_block 128 a) v6_blocks \/ exists ip, embedded_v4 a ip /\ internal_v4 ip.

Definition internal (a : addr) : Prop :=
  match a with A4 ip => internal_v4 ip | A6 b => internal_v6 (addr_number b) | AOther => False end.

(** The addresses the system has: four bytes, sixteen bytes. *)
Definition well_formed (a : addr) : Prop :=
  match a with
  | A4 ip => 0 <= ip < 2 ^ 32
  | A6 b => length b = 16%nat /\ Forall (fun x => 0 <= x < 256) b
  | AOther => True
  end.

(** * The guard is exact *)

Lemma is_private_v4_spec ip : is_private_v4 ip = true <-> internal_v4 ip.
Proof.
  unfold is_private_v4, internal_v4, v4_blocks. rewrite !Exists_cons, Exists_nil. unfold in_block, v4.
  rewrite !Z.shiftr_div_pow2 by lia.
  change (2 ^ (32 - 8)) with (2 ^ 24). change (2 ^ (32 - 12)) with (2 ^ 20). change (2 ^ (32 - 16)) with (2 ^ 16).
  change (2 ^ (32 - 10)) with (2 ^ 22). change (2 ^ (32 - 4)) with (2 ^ 28).
  repeat (match goal with |- context [if ?x =? ?y then _ else _] => destruct (Z.eqb_spec x y) end;
    [split; [intros _|done]; tauto|]).
  split; [done|]. intros H. exfalso. repeat destruct H as [H|H]; try done; congruence.
Qed.

(** ** Bytes and numbers *)

Definition bytes_ok (b : list Z) : Prop := Forall (fun x => 0 <= x < 256) b.

Lemma number_acc b : forall n, fold_left (fun n x => n * 256 + x) b n = n * 256 ^ Z.of_nat (length b) + addr_number b.
Proof.
  unfold addr_number. induction b as [|x b IH]; intros n; cbn [fold_left length]; [lia|].
  rewrite IH, (IH (0 * 256 + x)), Nat2Z.inj_succ, Z.pow_succ_r by lia. ring.
Qed.

Lemma number_app b1 b2 : addr_number (b1 ++ b2) = addr_number b1 * 256 ^ Z.of_nat (length b2) + addr_number b2.
Proof. unfold addr_number at 1. by rewrite fold_left_app, number_acc. Qed.

Lemma number_range b : bytes_ok b -> 0 <= addr_number b < 256 ^ Z.of_nat (length b).
Proof.
  induction b as [|x b IH] using rev_ind; intros H; [by vm_compute|].
  apply Forall_app in H as [Hb [Hx _]%Forall_cons]. specialize (IH Hb).
  rewrite number_app, length_app, Nat2Z.inj_add, Z.pow_add_r by lia. cbn [length].
  change (addr_number [x]) with (0 * 256 + x). change (256 ^ Z.of_nat 1) with 256. lia.
Qed.

(** The first bytes are what a shift leaves, the last ones the remainder. *)
Lemma number_split b1 b2 k : bytes_ok b2 -> k = 8 * Z.of_nat (length b2) ->
  addr_number (b1 ++ b2) / 2 ^ k = addr_number b1 /\ addr_number (b1 ++ b2) mod 2 ^ k = addr_number b2.
Proof.
  intros Hb ->. pose proof (number_range b2 Hb) as Hr. rewrite number_app, Z.pow_mul_r by lia.
  change (2 ^ 8) with 256. split.
  - rewrite Z.div_add_l, Z.div_small by lia. lia.
  - rewrite Z.add_comm, Z.mod_add, Z.mod_small by lia. done.
Qed.

Lemma zeros_spec n b : bytes_ok b -> zeros n b = true <-> addr_number (take n b) = 0.
Proof.
  unfold zeros. intros Hb. assert (Ht : bytes_ok (take n b)) by by apply Forall_take.
  remember (take n b) as l eqn:E. clear E Hb. induction l as [|x l IH] using rev_ind; [done|].
  apply Forall_app in Ht as [Hl [Hx _]%Forall_cons]. rewrite forallb_app, andb_true_iff, (IH Hl), number_app.
  pose proof (number_range l Hl). cbn [forallb length]. rewrite andb_true_r, Z.eqb_eq.
  change (addr_number [x]) with (0 * 256 + x). change (256 ^ Z.of_nat 1) with 256. lia.
Qed.

Lemma rd32_spec x y z w r : bytes_ok [x; y; z; w] -> ssrf_rd32 (x :: y :: z :: w :: r) = addr_number [x; y; z; w].
Proof.
  unfold ssrf_rd32, nth_byte, bytes_ok. cbn [nth]. rewrite !Forall_cons. intros (Hx & Hy & Hz & Hw & _).
  change 24 with (8 + (8 + 8)). change 16 with (8 + 8). rewrite <- !Z.shiftl_shiftl, <- !Z.shiftl_lor by lia.
  rewrite !(lor_shiftl _ _ 8) by lia. reflexivity.
Qed.

(** One byte under a mask, by its 256 values. *)
Lemma byte_cases (p : Z -> bool) x : forallb (fun n => p (Z.of_nat n)) (seq 0 256) = true -> 0 <= x < 256 -> p x = true.
Proof.
  rewrite forallb_forall. intros H Hx. rewrite <- (Z2Nat.id x) by lia. apply H, in_seq. lia.
Qed.

Lemma mask_7 x : 0 <= x < 256 -> (Z.land x 254 =? 252) = (x / 2 =? 126).
Proof. intros Hx. apply eqb_prop, (byte_cases (fun x => Bool.eqb (Z.land x 254 =? 252) (x / 2 =? 126))); [reflexivity|done]. Qed.
Lemma mask_10 x : 0 <= x < 256 -> (Z.land x 192 =? 128) = (x / 64 =? 2).
Proof. intros Hx. apply eqb_prop, (byte_cases (fun x => Bool.eqb (Z.land x 192 =? 128) (x / 64 =? 2))); [reflexivity|done]. Qed.

(** ** An IPv6 address by its bytes *)

Section V6.
Context (b : list Z) (Hlen : length b = 16%nat) (Hb : bytes_ok b).

Lemma number_prefix k : (k <= 16)%nat ->
  addr_number b / 2 ^ (8 * (16 - Z.of_nat k)) = addr_number (take k b) /\
  addr_number b mod 2 ^ (8 * (16 - Z.of_nat k)) = addr_number (drop k b).
Proof.
  intros Hk. pose proof (number_split (take k b) (drop k b) (8 * (16 - Z.of_nat k))) as H.
  rewrite take_drop in H. apply H; [by apply Forall_drop|]. rewrite length_drop, Hlen. lia.
Qed.

Lemma take_step k : (k < 16)%nat -> addr_number (take (S k) b) = addr_number (take k b) * 256 + nth_byte b k.
Proof.
  intros Hk. destruct (lookup_lt_is_Some_2 b k ltac:(lia)) as [x Hx].
  rewrite (take_S_r b k x Hx), number_app. unfold nth_byte. rewrite (nth_lookup_Some b k 0 x Hx).
  change (256 ^ Z.of_nat (length [x])) with 256. change (addr_number [x]) with (0 * 256 + x). lia.
Qed.

Lemma at_range k : 0 <= nth_byte b k < 256.
Proof.
  unfold nth_byte. destruct (b !! k) as [x|] eqn:E.
  - rewrite (nth_lookup_Some b k 0 x E). by apply (Forall_lookup_1 _ b k x Hb).
  - rewrite nth_lookup, E. cbn. lia.
Qed.

Lemma at_drop n k : nth_byte (drop n b) k = nth_byte b (n + k).
Proof. unfold nth_byte. by rewrite !nth_lookup, lookup_drop. Qed.

Lemma rd32_at n : (n + 4 <= 16)%nat ->
  ssrf_rd32 (drop n b) = addr_number (take (n + 4) b) mod 2 ^ 32.
Proof.
  intros Hn. assert (Hd : (4 <= length (drop n b))%nat) by (rewrite length_drop; lia).
  assert (E : take (n + 4) b = take n b ++ take 4 (drop n b)) by by rewrite take_take_drop.
  rewrite E. assert (Hok : bytes_ok (take 4 (drop n b))) by by apply Forall_take, Forall_drop.
  rewrite (proj2 (number_split _ _ 32 Hok ltac:(rewrite length_take; lia))).
  destruct (drop n b) as [|x [|y [|z [|w r]]]]; try (cbn in Hd; lia). by apply rd32_spec.
Qed.

(** The conditions of the code as equations on the number of the address. *)
Lemma whole_address n : (n = 0 \/ n = 1)%Z ->
  zeros 15 b && (nth_byte b 15 =? n) = true <-> in_block 128 (addr_number b) (n, 128).
Proof.
  intros Hn. unfold in_block. rewrite Z.sub_diag, !Z.div_1_r, andb_true_iff, Z.eqb_eq, zeros_spec by done.
  pose proof (take_step 15 ltac:(lia)) as H. rewrite (take_ge b 16) in H by lia. rewrite H.
  pose proof (number_range (take 15 b) ltac:(by apply Forall_take)). pose proof (at_range 15). lia.
Qed.

Lemma unique_local : (Z.land (nth_byte b 0) 254 =? 252) = true <-> in_block 128 (addr_number b) (0xfc00 * 2 ^ 112, 7).
Proof.
  rewrite mask_7 by apply at_range. unfold in_block.
  change (2 ^ (128 - 7)) with (2 ^ (8 * (16 - Z.of_nat 1)) * 2). rewrite <- Z.div_div by lia.
  rewrite (proj1 (number_prefix 1 ltac:(lia))), (take_step 0), take_0 by lia. rewrite Z.eqb_eq.
  change (0xfc00 * 2 ^ 112 / (2 ^ (8 * (16 - Z.of_nat 1)) * 2)) with 126. done.
Qed.

Lemma link_local : (nth_byte b 0 =? 254) && (Z.land (nth_byte b 1) 192 =? 128) = true <->
  in_block 128 (addr_number b) (0xfe80 * 2 ^ 112, 10).
Proof.
  rewrite mask_10 by apply at_range. unfold in_block.
  change (2 ^ (128 - 10)) with (2 ^ (8 * (16 - Z.of_nat 2)) * 64). rewrite <- Z.div_div by lia.
  rewrite (proj1 (number_prefix 2 ltac:(lia))), (take_step 1), (take_step 0), take_0 by lia.
  rewrite andb_true_iff, !Z.eqb_eq. change (addr_number []) with 0.
  change (0xfe80 * 2 ^ 112 / (2 ^ (8 * (16 - Z.of_nat 2)) * 64)) with 1018.
  pose proof (at_range 0). pose proof (at_range 1). Z.to_euclidean_division_equations. lia.
Qed.

Lemma block_96 n : in_block 128 (addr_number b) (n * 2 ^ 32, 96) <-> addr_number (take 12 b) = n.
Proof.
  unfold in_block. change (128 - 96) with (8 * (16 - Z.of_nat 12)) at 1.
  rewrite (proj1 (number_prefix 12 ltac:(lia))). change (2 ^ (128 - 96)) with (2 ^ 32).
  rewrite Z.div_mul by lia. done.
Qed.

Lemma low_address : ssrf_rd32 (drop 12 b) = addr_number b mod 2 ^ 32.
Proof. rewrite rd32_at by lia. by rewrite (take_ge b (12 + 4)) by lia. Qed.

Lemma mapped n1 n2 : 0 <= n1 < 256 -> 0 <= n2 < 256 ->
  zeros 10 b && (nth_byte b 10 =? n1) && (nth_byte b 11 =? n2) = true <-> addr_number (take 12 b) = n1 * 256 + n2.
Proof.
  intros H1 H2. rewrite !andb_true_iff, !Z.eqb_eq, zeros_spec by done.
  rewrite (take_step 11), (take_step 10) by lia. pose proof (at_range 10). pose proof (at_range 11).
  pose proof (number_range (take 10 b) ltac:(by apply Forall_take)). lia.
Qed.

Lemma not_zero : negb (Z.lor (Z.lor (Z.lor (nth_byte b 12) (nth_byte b 13)) (nth_byte b 14)) (nth_byte b 15) =? 0) = true <->
  addr_number (drop 12 b) <> 0.
Proof.
  rewrite negb_true_iff, Z.eqb_neq, !Z.lor_eq_0_iff.
  pose proof (number_prefix 12 ltac:(lia)) as [_ Hm]. rewrite <- Hm.
  change (2 ^ (8 * (16 - Z.of_nat 12))) with (2 ^ 32). rewrite <- low_address, rd32_at by lia.
  change (12 + 4)%nat with 16%nat.
  rewrite (take_step 15), (take_step 14), (take_step 13), (take_step 12) by lia.
  pose proof (at_range 12). pose proof (at_range 13). pose proof (at_range 14). pose proof (at_range 15).
  set (p := addr_number (take 12 b)).
  replace ((((p * 256 + nth_byte b 12) * 256 + nth_byte b 13) * 256 + nth_byte b 14) * 256 + nth_byte b 15)
    with (((nth_byte b 12 * 256 + nth_byte b 13) * 256 + nth_byte b 14) * 256 + nth_byte b 15 + p * 2 ^ 32) by lia.
  rewrite Z.mod_add, Z.mod_small by lia. lia.
Qed.

Lemma nat64 : (nth_byte b 0 =? 0) && (nth_byte b 1 =? 100) && (nth_byte b 2 =? 255) && (nth_byte b 3 =? 155) && zeros 8 (drop 4 b) = true <->
  addr_number (take 12 b) = 0x64ff9b * 2 ^ 64.
Proof.
  rewrite !andb_true_iff, !Z.eqb_eq, zeros_spec by by apply Forall_drop.
  assert (E : take 12 b = take 4 b ++ take 8 (drop 4 b)) by by rewrite take_take_drop.
  rewrite E, number_app. rewrite length_take, length_drop, Hlen. change (256 ^ Z.of_nat (8 `min` (16 - 4))) with (2 ^ 64).
  pose proof (number_range (take 8 (drop 4 b)) ltac:(by apply Forall_take, Forall_drop)) as Hr.
  rewrite length_take, length_drop, Hlen in Hr. change (256 ^ Z.of_nat (8 `min` (16 - 4))) with (2 ^ 64) in Hr.
  rewrite (take_step 3), (take_step 2), (take_step 1), (take_step 0), take_0 by lia. change (addr_number []) with 0.
  pose proof (at_range 0). pose proof (at_range 1). pose proof (at_range 2). pose proof (at_range 3). lia.
Qed.

Lemma six_to_four : (nth_byte b 0 =? 32) && (nth_byte b 1 =? 2) = true <-> in_block 128 (addr_number b) (0x2002 * 2 ^ 112, 16).
Proof.
  unfold in_block. change (128 - 16) with (8 * (16 - Z.of_nat 2)) at 1.
  rewrite (proj1 (number_prefix 2 ltac:(lia))), (take_step 1), (take_step 0), take_0 by lia.
  rewrite andb_true_iff, !Z.eqb_eq. change (addr_number []) with 0. change (0x2002 * 2 ^ 112 / 2 ^ (128 - 16)) with 0x2002.
  pose proof (at_range 0). pose proof (at_range 1). lia.
Qed.

Lemma six_to_four_v4 : ssrf_rd32 (drop 2 b) = (addr_number b / 2 ^ 80) mod 2 ^ 32.
Proof.
  rewrite rd32_at by lia. change (2 + 4)%nat with 6%nat. rewrite <- (proj1 (number_prefix 6 ltac:(lia))). done.
Qed.

(** The tests of the code in their order. *)
Lemma blocked_v6_cases : ssrf_blocked_v6 b = true <->
  zeros 15 b && (nth_byte b 15 =? 1) = true \/
  zeros 15 b && (nth_byte b 15 =? 0) = true \/
  (Z.land (nth_byte b 0) 254 =? 252) = true \/
  (nth_byte b 0 =? 254) && (Z.land (nth_byte b 1) 192 =? 128) = true \/
  (zeros 10 b && (nth_byte b 10 =? 255) && (nth_byte b 11 =? 255) = true /\ is_private_v4 (ssrf_rd32 (drop 12 b)) = true) \/
  (zeros 10 b && (nth_byte b 10 =? 0) && (nth_byte b 11 =? 0) = true /\
   negb (Z.lor (Z.lor (Z.lor (nth_byte b 12) (nth_byte b 13)) (nth_byte b 14)) (nth_byte b 15) =? 0) = true /\
   is_private_v4 (ssrf_rd32 (drop 12 b)) = true) \/
  ((nth_byte b 0 =? 0) && (nth_byte b 1 =? 100) && (nth_byte b 2 =? 255) && (nth_byte b 3 =? 155) && zeros 8 (drop 4 b) = true /\
   is_private_v4 (ssrf_rd32 (drop 12 b)) = true) \/
  ((nth_byte b 0 =? 32) && (nth_byte b 1 =? 2) = true /\ is_private_v4 (ssrf_rd32 (drop 2 b)) = true).
Proof.
  unfold ssrf_blocked_v6. cbv zeta. rewrite <- !andb_true_iff, <- !orb_true_iff, !andb_assoc.
  repeat (match goal with |- context [if ?c then true else _] => destruct c end; [cbn; by rewrite ?orb_true_r|]).
  by rewrite !orb_false_l.
Qed.

Lemma blocked_v6_spec : ssrf_blocked_v6 b = true <-> internal_v6 (addr_number b).
Proof.
  rewrite blocked_v6_cases, !whole_address, unique_local, link_local, !mapped, not_zero, nat64, six_to_four by lia.
  rewrite !low_address, six_to_four_v4, !is_private_v4_spec. unfold internal_v6, v6_blocks.
  rewrite !Exists_cons, Exists_nil. pose proof (block_96 0xffff) as B1. pose proof (block_96 0) as B2.
  pose proof (block_96 (0x64ff9b * 2 ^ 64)) as B3. change (0 * 2 ^ 32) with 0 in B2.
  change (0x64ff9b * 2 ^ 64 * 2 ^ 32) with (0x64ff9b * 2 ^ 96) in B3.
  change (255 * 256 + 255) with 0xffff. change (0 * 256 + 0) with 0. rewrite <- B1, <- B2, <- B3.
  assert (Hz : in_block 128 (addr_number b) (0, 96) -> addr_number (drop 12 b) <> 0 <-> addr_number b <> 0).
  { intros E%B2. rewrite <- (take_drop 12 b) at 2. rewrite number_app, E. lia. }
  unfold embedded_v4. split.
  - intros H. repeat destruct H as [H|H]; try tauto; right; eexists; (split; [|apply H]); tauto.
  - intros [H | (ip & H & Hip)]; [tauto|]. repeat destruct H as [H|H]; destruct H as [? H]; try subst ip; try tauto.
    destruct H as [? ->]. tauto.
Qed.

End V6.

(** C24: the guard against requests to internal hosts is exact: for the
    addresses a name resolves to it answers true when one of them is in a
    block of loopback, private, link-local, shared, multicast or reserved
    addresses, or is an IPv6 address with such an IPv4 address inside (mapped,
    compatible, NAT64 or 6to4), and only then; the connection goes to an
    address that is not. *)
Theorem ssrf_exact res :
  Forall well_formed res ->
  (is_ssrf_blocked false res = true <-> Exists internal res) /\
  forall a, tcp_connect false (Some res) = Connect a -> a ∈ res /\ ~ internal a.
Proof.
  intros Hwf. assert (Hex : is_ssrf_blocked false res = true <-> Exists internal res).
  { unfold is_ssrf_blocked. rewrite existsb_exists, Exists_exists. setoid_rewrite list_elem_of_In.
    split; intros (a & Hin & Ha); exists a; (split; [done|]);
      apply list_elem_of_In in Hin; rewrite Forall_forall in Hwf; specialize (Hwf a Hin); destruct a; try done.
    - by apply is_private_v4_spec.
    - destruct Hwf. by apply blocked_v6_spec.
    - by apply is_private_v4_spec.
    - destruct Hwf. by apply blocked_v6_spec. }
  split; [exact Hex|]. intros a. unfold tcp_connect. destruct (is_ssrf_blocked false res); [done|].
  destruct res as [|a' res]; [done|]. intros [= ->]. split; [by left|]. intros Hi.
  destruct Hex as [_ Hex]. discriminate Hex. by left.
Qed.
Lemma ssrf_exact_witness :
  let res := [A4 (v4 93 184 216 34); A6 [0;0;0;0;0;0;0;0;0;0;255;255;10;1;2;3]] in
  Forall well_formed res /\ tcp_connect false (Some res) = Blocked /\
  (is_ssrf_blocked false res = true <-> Exists internal res).
Proof.
  intros res. assert (H : Forall well_formed res).
  { constructor; [unfold well_formed, v4; lia|]. constructor; [|constructor]. split; [done|].
    repeat (constructor; [lia|]). constructor. }
  split; [exact H|]. split; [vm_compute; reflexivity|]. exact (proj1 (ssrf_exact res H)).
Defined.

End Ssrf.
