(* ===== verification/HttpClient.v ===== *)
(** The HTTP client: cpp/src/http_client.cpp, the character sets of
    cpp/include/look/charset.h, and the redirects of the package installer
    (cpp/include/look/url_safe.h, [download_follow] of cpp/src/installer.cpp).

    The network is a parameter: a transport answers a request. The decoding of
    gzip is one too (a third-party library). What is modelled is what the
    client makes of them: the URL, the text of the request, the response and
    its chunks, whole or piece by piece, and the redirects it follows. *)

From S2P Require Import Prelude CNum.
#[local] Open Scope Z_scope.

Module HttpClient.
Import CNum.

Notation headers_t := (gmap (list ascii) (list ascii)).

(** * URLs *)

Record ParsedUrl := MkUrl { tls : bool; host : bytes; port : Z; upath : bytes }.

(** [std::stoi]; [None] is the exception. *)
Definition stoi (s : bytes) : option Z :=
  match stoll s with
  | Some z => if (- 2 ^ 31 <=? z) && (z <? 2 ^ 31) then Some z else None
  | None => None
  end.

Definition default_port (tls : bool) : Z := if tls then 443 else 80.

(** [s.substr(0, s.find(c))] and what follows, with the character. *)
Definition cut (c : ascii) (s : bytes) : bytes * bytes :=
  match find_if (is_c c) s with Some i => (take i s, drop i s) | None => (s, []) end.

(** [parse_url]; [None] is the exception. *)
Definition parse_authority (https : bool) (host_port path : bytes) : option ParsedUrl :=
  match host_port with
  | c :: _ =>
      if c =c "[" then
        match find_if (is_c "]") host_port with
        | None => None
        | Some rb =>
            let p := match host_port !! S rb with
                     | Some d => if d =c ":" then default (default_port https) (stoi (drop (rb + 2) host_port))
                                 else default_port https
                     | None => default_port https
                     end in
            Some (MkUrl https (substr host_port 1 (rb - 1)) p path)
        end
      else
        match rfind_if (is_c ":") host_port with
        | Some i => Some (MkUrl https (take i host_port)
                           (default (default_port https) (stoi (drop (S i) host_port))) path)
        | None => Some (MkUrl https host_port (default_port https) path)
        end
  | [] => Some (MkUrl https [] (default_port https) path)
  end.
Definition parse_url (url : bytes) : option ParsedUrl :=
  let rest (https : bool) (s : bytes) :=
    let (host_port, path) := cut "/" s in
    parse_authority https host_port (match path with [] => lit "/" | _ => path end) in
  if starts_with (lit "https://") url then rest true (drop 8 url)
  else if starts_with (lit "http://") url then rest false (drop 7 url)
  else None.

Definition not_crlf (c : ascii) : bool := negb ((c =c CR) || (c =c LF)).
Definition hc_strip_crlf (s : bytes) : bytes := List.filter not_crlf s.

Definition parse_proxy (spec : bytes) : option (bytes * Z) :=
  let s := if starts_with (lit "http://") spec then drop 7 spec
           else if starts_with (lit "https://") spec then drop 8 spec else spec in
  let s := (cut "/" s).1 in
  let ok (h : bytes) (p : Z) :=
    if negb (h =s []) && (0 <? p) && (p <? 65536) then Some (h, p) else None in
  match rfind_if (is_c ":") s with
  | Some i =>
      let ps := drop (S i) s in
      if (ps =s []) || negb (forallb isdigit ps) then None
      else match stoi ps with None => None | Some p => ok (take i s) p end
  | None => ok s 8080
  end.

(** * The text of a request *)

Definition CRLF : bytes := [CR; LF].
Definition show_port (url : ParsedUrl) : bytes :=
  if port url =? default_port (tls url) then []
  else lit ":" ++ (if port url <? 0 then lit "-" ++ decimal (- port url) else decimal (port url)).

Definition build_request (method : bytes) (url : ParsedUrl) (body : bytes) (extra : headers_t)
    (want_gzip absolute_uri : bool) : bytes :=
  let target :=
    if absolute_uri then
      (if tls url then lit "https://" else lit "http://") ++ hc_strip_crlf (host url) ++ show_port url
        ++ hc_strip_crlf (upath url)
    else hc_strip_crlf (upath url) in
  hc_strip_crlf method ++ lit " " ++ target ++ lit " HTTP/1.1" ++ CRLF
  ++ lit "Host: " ++ hc_strip_crlf (host url) ++ show_port url ++ CRLF
  ++ lit "User-Agent: LOOK/0.19" ++ CRLF
  ++ lit "Connection: close" ++ CRLF
  ++ lit "Accept: */*" ++ CRLF
  ++ (if want_gzip && bool_decide (extra !! lit "Accept-Encoding" = None)
      then lit "Accept-Encoding: gzip" ++ CRLF else [])
  ++ concat (map (fun kv => hc_strip_crlf kv.1 ++ lit ": " ++ hc_strip_crlf kv.2 ++ CRLF) (in_order extra))
  ++ (if body =s [] then []
      else lit "Content-Length: " ++ decimal (Z.of_nat (length body)) ++ CRLF
           ++ (if bool_decide (extra !! lit "Content-Type" = None)
               then lit "Content-Type: application/x-www-form-urlencoded" ++ CRLF else []))
  ++ CRLF ++ body.

(** * Character sets *)

Definition utf8_append (out : bytes) (cp : Z) : bytes :=
  if cp <? 128 then out ++ [chr cp]
  else if cp <? 2048 then out ++ [chr (Z.lor 192 (Z.shiftr cp 6)); chr (Z.lor 128 (Z.land cp 63))]
  else out ++ [chr (Z.lor 224 (Z.shiftr cp 12)); chr (Z.lor 128 (Z.land (Z.shiftr cp 6) 63));
               chr (Z.lor 128 (Z.land cp 63))].

Definition cp1252_hi : list Z :=
  [0x20AC; 0; 0x201A; 0x0192; 0x201E; 0x2026; 0x2020; 0x2021; 0x02C6; 0x2030; 0x0160; 0x2039; 0x0152; 0; 0x017D; 0;
   0; 0x2018; 0x2019; 0x201C; 0x201D; 0x2022; 0x2013; 0x2014; 0x02DC; 0x2122; 0x0161; 0x203A; 0x0153; 0; 0x017E; 0x0178].

Inductive charset := Latin1 | Latin5 | Win1252 | Win1254.
Definition charset_name (cs : bytes) : option charset :=
  let c := map tolower (List.filter (none_of (lit "-_ ")) cs) in
  if (c =s lit "iso88599") || (c =s lit "latin5") then Some Latin5
  else if (c =s lit "iso88591") || (c =s lit "latin1") then Some Latin1
  else if (c =s lit "windows1254") || (c =s lit "cp1254") then Some Win1254
  else if (c =s lit "windows1252") || (c =s lit "cp1252") then Some Win1252
  else None.

Definition code_point (cs : charset) (b : Z) : Z :=
  if b <? 128 then b
  else
    let cp := match cs with
      | Win1252 | Win1254 =>
          if b <=? 159 then
            let m := nth (Z.to_nat (b - 128)) cp1252_hi 0 in if m =? 0 then b else m
          else b
      | _ => b
      end in
    match cs with
    | Latin5 | Win1254 =>
        if b =? 0xD0 then 0x011E else if b =? 0xDD then 0x0130 else if b =? 0xDE then 0x015E
        else if b =? 0xF0 then 0x011F else if b =? 0xFD then 0x0131 else if b =? 0xFE then 0x015F
        else cp
    | _ => cp
    end.

Definition charset_to_utf8 (inp cs : bytes) : option bytes :=
  match charset_name cs with
  | None => None
  | Some k => Some (fold_left (fun out b => utf8_append out (code_point k (ord b))) inp [])
  end.

(** * Responses *)

Record HttpClientResponse := MkResp {
  status : Z; body : bytes; headers : headers_t; error : bytes }.
Definition no_response : HttpClientResponse := MkResp 0 [] ∅ [].
Definition with_error (e : bytes) (r : HttpClientResponse) : HttpClientResponse :=
  MkResp (status r) (body r) (headers r) e.

(** [std::stoul(s, nullptr, 16)]; [None] is the exception. *)
Definition stoul16 (s : bytes) : option Z :=
  let (neg, s) := sign (skip_space s) in
  let s := match s with
    | z :: x :: s' => if (z =c "0") && ((x =c "x") || (x =c "X")) && has_digit 16 s' then s' else s
    | _ => s
    end in
  if has_digit 16 s then
    let z := (digits 16 0 s).1 in
    if z <? 2 ^ 64 then Some (if neg then to_u64 (- z) else z) else None
  else None.

Definition find_crlf (s : bytes) : option nat := find_str CRLF s.

Fixpoint trim_left (s : bytes) : bytes :=
  match s with c :: s' => if (c =c SP) || (c =c TAB) then trim_left s' else s | [] => [] end.

(** The header lines: the fields, and the text behind them. *)
Fixpoint response_headers (fuel : nat) (rest : bytes) (hs : headers_t) : headers_t * bytes :=
  match fuel with
  | O => (hs, rest)
  | S fuel =>
      match find_crlf rest with
      | None => (hs, rest)
      | Some O => (hs, drop 2 rest)
      | Some e =>
          let line := take e rest in
          let hs := match find_if (is_c ":") line with
            | Some colon => <[ map tolower (take colon line) := trim_left (drop (S colon) line) ]> hs
            | None => hs
            end in
          response_headers fuel (drop (e + 2) rest) hs
      end
  end.

(** The body in chunks of a whole response. Positions are of [size_t], so the
    sum of a position and a size wraps; [None] is a loop that goes on. *)
Fixpoint chunked_body (fuel : nat) (raw : bytes) (p : Z) (out : bytes) : option bytes :=
  if negb (p <? Z.of_nat (length raw)) then Some out
  else match fuel with
  | O => None
  | S fuel =>
      let rest := drop (Z.to_nat p) raw in
      match find_crlf rest with
      | None => Some out
      | Some cr =>
          let hex := (cut ";" (take cr rest)).1 in
          match stoul16 hex with
          | None => Some out
          | Some size =>
              if size =? 0 then Some out
              else
                let p := p + Z.of_nat cr + 2 in
                let piece := take (Z.to_nat (Z.min size (Z.of_nat (length raw)))) (drop (Z.to_nat p) raw) in
                chunked_body fuel raw (to_u64 (p + size + 2)) (out ++ piece)
          end
      end
  end.

(** [while (off < in.size() && p[off] != 0) ++off; ++off;] *)
Definition skip_cstring (inp : bytes) (off : Z) : Z :=
  match find_if (is_c NUL) (drop (Z.to_nat off) inp) with
  | Some i => off + Z.of_nat i + 1
  | None => Z.max off (Z.of_nat (length inp)) + 1
  end.

(** Where the payload of a gzip file begins; a field that the flags announce is
    skipped. *)
Definition gzip_offset (inp : bytes) : option Z :=
  let at_ (i : nat) := match inp !! i with Some c => ord c | None => 0 end in
  let size := Z.of_nat (length inp) in
  if size <? 18 then None
  else if negb ((at_ 0%nat =? 0x1f) && (at_ 1%nat =? 0x8b) && (at_ 2%nat =? 8)) then None
  else
    let flg := at_ 3%nat in
    let off := if Z.testbit flg 2 then 10 + 2 + Z.lor (at_ 10%nat) (Z.shiftl (at_ 11%nat) 8) else 10 in
    let off := if Z.testbit flg 3 then skip_cstring inp off else off in
    let off := if Z.testbit flg 4 then skip_cstring inp off else off in
    let off := if Z.testbit flg 1 then off + 2 else off in
    if size <=? off then None else Some off.

Section Response.
(** Raw inflate of the compression library, with the cap on its output. *)
Context (inflate : Z -> bytes -> option bytes).

Definition gzip_inflate (inp : bytes) (cap : Z) : option bytes :=
  match gzip_offset inp with
  | Some off => inflate cap (drop (Z.to_nat off) inp)
  | None => None
  end.

Definition occurs_in (t s : bytes) : bool := bool_decide (is_Some (find_str t s)).

Definition err_gzip : bytes := lit "http:: gzip decode failed or exceeded the 64 MB decompression cap".

(** The charset parameter of a lower-case Content-Type. *)
Definition blank_or_quote (c : ascii) : bool := (c =c SP) || (c =c DQUOTE).
Fixpoint drop_while (p : ascii -> bool) (s : bytes) : bytes :=
  match s with c :: s' => if p c then drop_while p s' else s | [] => [] end.
Definition charset_param (tl : bytes) : option bytes :=
  match find_str (lit "charset=") tl with
  | None => None
  | Some cpos =>
      let cs := (cut ";" (drop (cpos + 8) tl)).1 in
      Some (reverse (drop_while blank_or_quote (reverse (drop_while blank_or_quote cs))))
  end.

Definition decode_gzip (r : HttpClientResponse) : HttpClientResponse :=
  match headers r !! lit "content-encoding" with
  | Some enc =>
      if negb (body r =s []) && occurs_in (lit "gzip") (map tolower enc) then
        match gzip_inflate (body r) (64 * 1024 * 1024) with
        | Some dec => MkResp (status r) dec (delete (lit "content-encoding") (headers r)) (error r)
        | None => MkResp (status r) [] (headers r) err_gzip
        end
      else r
  | None => r
  end.

Definition decode_charset (r : HttpClientResponse) : HttpClientResponse :=
  match headers r !! lit "content-type" with
  | Some ct =>
      if body r =s [] then r
      else match charset_param (map tolower ct) with
      | Some cs =>
          if negb (cs =s []) && negb (cs =s lit "utf-8") && negb (cs =s lit "utf8")
             && negb (cs =s lit "us-ascii") && negb (cs =s lit "ascii")
          then match charset_to_utf8 (body r) cs with
               | Some conv => MkResp (status r) conv (headers r) (error r)
               | None => r
               end
          else r
      | None => r
      end
  | None => r
  end.

Definition is_chunked (hs : headers_t) : bool :=
  occurs_in (lit "chunked") (map tolower (default [] (hs !! lit "transfer-encoding"))).

(** The status line and the fields, and the text of the body. *)
Definition response_head (raw : bytes) : HttpClientResponse * bytes :=
  match find_crlf raw with
  | None => (with_error (lit "malformed response") no_response, [])
  | Some crlf1 =>
      let status_line := take crlf1 raw in
      match find_if (is_c SP) status_line with
      | None => (with_error (lit "bad status line") no_response, [])
      | Some sp1 =>
          let code := (cut SP (drop (S sp1) status_line)).1 in
          match stoi code with
          | None => (with_error (lit "bad status code") no_response, [])
          | Some n =>
              let (hs, rest) := response_headers (length raw) (drop (crlf1 + 2) raw) ∅ in
              (MkResp n [] hs [], rest)
          end
      end
  end.

(** [None]: the loop over the chunks does not end. *)
Definition parse_response (raw : bytes) : option HttpClientResponse :=
  if raw =s [] then Some (with_error (lit "empty response") no_response)
  else
    let (r, rest) := response_head raw in
    if negb (error r =s []) then Some r
    else
      let b := if is_chunked (headers r) then chunked_body (S (length rest)) rest 0 [] else Some rest in
      match b with
      | None => None
      | Some b => Some (decode_charset (decode_gzip (MkResp (status r) b (headers r) [])))
      end.
End Response.

(** * The body piece by piece *)

(** [struct ChunkedDecoder]; [emit] is the list of what was given to the
    callback. [None]: the loop does not end. *)
Record ChunkedDecoder := MkDec { buf : bytes; done : bool }.

Definition trim_right (s : bytes) : bytes :=
  reverse (drop_while (fun c => (c =c SP) || (c =c TAB)) (reverse s)).

Fixpoint feed_loop (fuel : nat) (b : bytes) (out : list bytes) : option (ChunkedDecoder * list bytes) :=
  match find_crlf b with
  | None => Some (MkDec b false, out)
  | Some cr =>
      let hex := trim_right (cut ";" (take cr b)).1 in
      match stoul16 hex with
      | None => Some (MkDec b true, out)
      | Some sz =>
          if sz =? 0 then Some (MkDec b true, out)
          else if Z.of_nat (length b) <? to_u64 (Z.of_nat cr + 2 + sz + 2) then Some (MkDec b false, out)
          else match fuel with
          | O => None
          | S fuel =>
              let size := Z.to_nat (Z.min sz (Z.of_nat (length b))) in
              let next := Z.to_nat (Z.min (to_u64 (Z.of_nat cr + 2 + sz + 2)) (Z.of_nat (length b))) in
              feed_loop fuel (drop next b) (out ++ [substr b (cr + 2) size])
          end
      end
  end.
Definition chunked_feed (d : ChunkedDecoder) (data : bytes) : option (ChunkedDecoder * list bytes) :=
  let b := buf d ++ data in
  if done d then Some (MkDec b true, []) else feed_loop (length b) b [].

(** [struct StreamSink] *)
Record StreamSink := MkSink {
  head : bytes; headers_done : bool; sink_chunked : bool; sink_resp : HttpClientResponse; chunked : ChunkedDecoder }.
Definition new_sink : StreamSink := MkSink [] false false no_response (MkDec [] false).

Definition sink_emit (k : StreamSink) (data : bytes) : option (StreamSink * list bytes) :=
  if data =s [] then Some (k, [])
  else if sink_chunked k then
    match chunked_feed (chunked k) data with
    | Some (d, out) => Some (MkSink (head k) (headers_done k) (sink_chunked k) (sink_resp k) d, out)
    | None => None
    end
  else Some (k, [data]).

Definition sink_feed (inflate : Z -> bytes -> option bytes) (k : StreamSink) (data : bytes)
    : option (StreamSink * list bytes) :=
  if headers_done k then sink_emit k data
  else
    let h := head k ++ data in
    match find_str (CRLF ++ CRLF) h with
    | None => Some (MkSink h false (sink_chunked k) (sink_resp k) (chunked k), [])
    | Some he =>
        match parse_response inflate (take (he + 4) h) with
        | None => None
        | Some hp =>
            let r := MkResp (status hp) (body (sink_resp k)) (headers hp) (error (sink_resp k)) in
            sink_emit (MkSink [] true (is_chunked (headers hp)) r (chunked k)) (drop (he + 4) h)
        end
    end.

Definition sink_finalize (k : StreamSink) : StreamSink :=
  if negb (headers_done k) && (error (sink_resp k) =s [])
  then MkSink (head k) (headers_done k) (sink_chunked k) (with_error (lit "no response") (sink_resp k)) (chunked k)
  else k.

(** * Redirects *)

Definition resolve_url (base loc : bytes) : bytes :=
  let resolve (scheme rest : bytes) :=
    let (authority, p) := cut "/" rest in
    if starts_with (lit "//") loc then scheme ++ lit ":" ++ loc
    else if starts_with (lit "/") loc then scheme ++ lit "://" ++ authority ++ loc
    else
      let p := (cut "?" p).1 in
      let dir := match rfind_if (is_c "/") p with Some i => take (S i) p | None => lit "/" end in
      scheme ++ lit "://" ++ authority ++ dir ++ loc in
  if loc =s [] then []
  else if starts_with (lit "http://") loc || starts_with (lit "https://") loc then loc
  else if starts_with (lit "https://") base then resolve (lit "https") (drop 8 base)
  else if starts_with (lit "http://") base then resolve (lit "http") (drop 7 base)
  else [].

Definition url_origin (u : bytes) : bytes :=
  let origin (scheme rest : bytes) := scheme ++ lit "://" ++ map tolower (cut "/" rest).1 in
  if starts_with (lit "https://") u then origin (lit "https") (drop 8 u)
  else if starts_with (lit "http://") u then origin (lit "http") (drop 7 u)
  else u.

Definition same_ci (s t : bytes) : bool := map tolower s =s map tolower t.
Definition erase_header_ci (name : bytes) (h : headers_t) : headers_t :=
  filter (fun kv => same_ci kv.1 name = false) h.

(** What is given to the network: the request of one hop. *)
Record sent := MkSent {
  s_url : bytes; s_parsed : ParsedUrl; s_method : bytes; s_body : bytes; s_headers : headers_t }.

Record HttpOptions := MkOpts { follow_redirects : bool; max_redirects : Z }.

Definition err_loop : bytes := lit "http:: redirect loop detected".
Definition err_url (url : bytes) : bytes :=
  if starts_with (lit "https://") url || starts_with (lit "http://") url
  then lit "http:: Invalid IPv6 URL (missing closing ']'): " ++ url
  else lit "http:: Unsupported URL scheme: " ++ url.

Section Requests.
(** The network: what it answers to a request, after the requests before it. *)
Context (transport : list sent -> sent -> HttpClientResponse).

(** The headers of the next hop. *)
Definition drop_credentials (h : headers_t) : headers_t :=
  erase_header_ci (lit "Proxy-Authorization") (erase_header_ci (lit "Cookie") (erase_header_ci (lit "Authorization") h)).
Definition hop_headers (from to : bytes) (h : headers_t) : headers_t :=
  if url_origin to =s url_origin from then h else drop_credentials h.

(** [303], and [301] or [302] to a request with a body, become a GET. *)
Definition becomes_get (status : Z) (method : bytes) : bool :=
  (status =? 303) ||
  (((status =? 301) || (status =? 302)) && negb (method =s lit "GET") && negb (method =s lit "HEAD")).
Definition drop_content (h : headers_t) : headers_t :=
  delete (lit "Content-Length") (delete (lit "Content-Type") h).

(** The loop of [http_request] with [hops] hops left; [resp] is the response of
    the hop before. *)
Fixpoint request_loop (hops : nat) (trace : list sent) (seen : list bytes) (resp : HttpClientResponse)
    (url method body_ : bytes) (hdrs : headers_t) : HttpClientResponse * list sent :=
  match parse_url url with
  | None => (with_error (err_url url) resp, trace)
  | Some u =>
      let req := MkSent url u method body_ hdrs in
      let resp := transport trace req in
      let trace := trace ++ [req] in
      if negb (error resp =s []) then (resp, trace)
      else match hops with
      | O => (resp, trace)
      | S hops =>
          if (status resp <? 300) || (400 <=? status resp) then (resp, trace)
          else
            let next := resolve_url url (default [] (headers resp !! lit "location")) in
            if next =s [] then (resp, trace)
            else if existsb (bytes_eqb next) seen then (with_error err_loop resp, trace)
            else
              let hdrs := hop_headers url next hdrs in
              if becomes_get (status resp) method
              then request_loop hops trace (seen ++ [next]) resp next (lit "GET") [] (drop_content hdrs)
              else request_loop hops trace (seen ++ [next]) resp next method body_ hdrs
      end
  end.

Definition max_hops (o : HttpOptions) : nat :=
  if follow_redirects o then Z.to_nat (if 0 <? max_redirects o then max_redirects o else 5) else 0.

Definition http_request (o : HttpOptions) (trace : list sent) (method url body_ : bytes) (hdrs : headers_t)
    : HttpClientResponse * list sent :=
  request_loop (max_hops o) trace [] no_response url method body_ hdrs.

(** ** The package installer *)

Definition ends_with (s suf : bytes) : bool :=
  (length suf <=? length s)%nat && (drop (length s - length suf) s =s suf).

(** [redirect_allowed]; [inl] is the message of a refusal. *)
Definition redirect_allowed (next : bytes) : bytes + unit :=
  if negb (starts_with (lit "https://") next) then inl (lit "unsafe redirect (https only): " ++ next)
  else
    let h := (cut ":" (cut "/" (drop 8 next)).1).1 in
    if (h =s lit "github.com") || (h =s lit "api.github.com")
       || ends_with h (lit ".github.com") || ends_with h (lit ".githubusercontent.com")
    then inr tt
    else inl (lit "redirect goes to an unexpected host: " ++ h).

Definition download_headers : headers_t :=
  {[ lit "Accept" := lit "application/zip"; lit "User-Agent" := lit "LOOK-Package-Manager/0.25" ]}.

Fixpoint download_follow (max_redirects : nat) (trace : list sent) (current : bytes)
    : HttpClientResponse * list sent :=
  match max_redirects with
  | O => (with_error (lit "too many redirects") no_response, trace)
  | S n =>
      let (resp, trace) := http_request (MkOpts false 5) trace (lit "GET") current [] download_headers in
      if negb (error resp =s []) then (resp, trace)
      else if (300 <=? status resp) && (status resp <? 400) then
        match headers resp !! lit "location" with
        | None => (with_error (lit "redirect has no location header") resp, trace)
        | Some next =>
            match redirect_allowed next with
            | inl e => (with_error e resp, trace)
            | inr tt => download_follow n trace next
            end
        end
      else (resp, trace)
  end.
End Requests.

(** * Credentials stay with their origin *)

(** Where a request goes: plain or TLS, the host as names are compared, the port. *)
Definition endpoint (u : ParsedUrl) : bool * bytes * Z := (tls u, map tolower (host u), port u).

Definition credential_names : list bytes := [lit "Authorization"; lit "Cookie"; lit "Proxy-Authorization"].
Definition has_credentials (h : headers_t) : Prop :=
  exists name k v, name ∈ credential_names /\ h !! k = Some v /\ same_ci k name = true.

(** ** Letter case does not move a request *)

Lemma tolower_char d : isupper d = false -> islower d = false -> forall c, (tolower c =c d) = (c =c d).
Proof.
  intros Hu Hl c. unfold tolower. destruct (isupper c) eqn:E; [|done].
  rewrite !(proj2 (Ascii.eqb_neq _ _)); [done| |].
  - by intros ->; rewrite Hu in E.
  - intros <-. unfold islower, isupper, in_range in *. rewrite andb_true_iff, !Z.leb_le in E.
    rewrite ord_chr_small in Hl by lia. apply andb_false_iff in Hl as [H|H]; apply Z.leb_gt in H; lia.
Qed.

Lemma find_if_lower d s : isupper d = false -> islower d = false ->
  find_if (is_c d) (map tolower s) = find_if (is_c d) s.
Proof.
  intros Hu Hl. induction s as [|c s IH]; [done|]. cbn [map find_if]. unfold is_c in *.
  by rewrite tolower_char, IH.
Qed.

Lemma rfind_if_lower d s : isupper d = false -> islower d = false ->
  rfind_if (is_c d) (map tolower s) = rfind_if (is_c d) s.
Proof.
  intros Hu Hl. induction s as [|c s IH]; [done|]. cbn [map rfind_if]. unfold is_c in *.
  by rewrite tolower_char, IH.
Qed.

Lemma stoll_lower s : stoll (map tolower s) = stoll s.
Proof.
  assert (Hsp : forall s, skip_space (map tolower s) = map tolower (skip_space s)).
  { intros u. induction u as [|c r IH]; [done|]. cbn [map skip_space].
    assert (Hc : Bool.eqb (isspace (tolower c)) (isspace c) = true) by by_chars c.
    apply eqb_prop in Hc. rewrite Hc. by case_if. }
  assert (Hd : forall c, (digit_val (tolower c) =? digit_val c) = true) by (intros c; by_chars c).
  assert (Hds : forall s a, (digits 10 a (map tolower s)).1 = (digits 10 a s).1).
  { intros u. induction u as [|c r IH]; intros a; [done|]. cbn [map digits].
    specialize (Hd c). apply Z.eqb_eq in Hd. rewrite Hd. case_if; [apply IH|done]. }
  unfold stoll. rewrite Hsp. generalize (skip_space s) as r. intros r.
  assert (Hsg : sign (map tolower r) = ((sign r).1, map tolower (sign r).2)).
  { destruct r as [|c r]; [done|]. cbn [map sign]. rewrite !tolower_char by done. by repeat case_if. }
  rewrite Hsg. destruct (sign r) as [neg r']. cbn [fst snd]. rewrite Hds.
  replace (has_digit 10 (map tolower r')) with (has_digit 10 r'); [done|].
  destruct r' as [|c r']; [done|]. cbn [map has_digit]. specialize (Hd c). apply Z.eqb_eq in Hd. by rewrite Hd.
Qed.

Lemma stoi_lower s : stoi (map tolower s) = stoi s.
Proof. unfold stoi. by rewrite stoll_lower. Qed.

Definition lower_host (u : ParsedUrl) : ParsedUrl := MkUrl (tls u) (map tolower (host u)) (port u) (upath u).

Lemma parse_authority_lower t hp p :
  parse_authority t (map tolower hp) p = lower_host <$> parse_authority t hp p.
Proof.
  unfold parse_authority. destruct hp as [|c r]; [done|].
  cbn [map]. rewrite tolower_char by done.
  change (tolower c :: map tolower r) with (map tolower (c :: r)).
  rewrite find_if_lower, rfind_if_lower by done. destruct (c =c "[").
  - destruct (find_if _ _) as [rb|]; [|done]. cbn [fmap option_fmap option_map]. unfold lower_host. cbn [tls host port upath].
    unfold substr. rewrite <- firstn_map, <- skipn_map. do 2 f_equal.
    rewrite list_lookup_fmap. destruct ((c :: r) !! S rb) as [d|]; cbn [fmap option_fmap option_map]; [|done].
    rewrite tolower_char by done. by rewrite skipn_map, stoi_lower.
  - destruct (rfind_if _ _) as [i|]; [|done]. cbn [fmap option_fmap option_map]. unfold lower_host. cbn [tls host port upath].
    by rewrite <- firstn_map, skipn_map, stoi_lower.
Qed.

Lemma starts_split t s : starts_with t s = true -> s = t ++ drop (length t) s.
Proof. intros [r ->]%starts_with_spec. by rewrite drop_app_length. Qed.

(** Two URLs of one origin lead to one endpoint. *)
Lemma same_origin u1 u2 p1 p2 :
  parse_url u1 = Some p1 -> parse_url u2 = Some p2 -> url_origin u1 = url_origin u2 -> endpoint p1 = endpoint p2.
Proof.
  assert (Hkey : forall t a1 x1 a2 x2 q1 q2, map tolower a1 = map tolower a2 ->
    parse_authority t a1 x1 = Some q1 -> parse_authority t a2 x2 = Some q2 -> endpoint q1 = endpoint q2).
  { intros t a1 x1 a2 x2 q1 q2 Ha E1 E2.
    assert (Hx : forall a x, parse_authority t a x = (fun q => MkUrl (tls q) (host q) (port q) x) <$> parse_authority t a []).
    { intros a x. unfold parse_authority. destruct a as [|c a]; [done|]. destruct (c =c "["); by case_match. }
    rewrite Hx in E1, E2. pose proof (parse_authority_lower t a1 []) as L1. rewrite Ha, parse_authority_lower in L1.
    destruct (parse_authority t a1 []) as [w1|], (parse_authority t a2 []) as [w2|]; try done.
    cbn in E1, E2, L1. injection E1 as <-. injection E2 as <-. unfold lower_host in L1. injection L1 as H1 H2 H3 H4.
    unfold endpoint. cbn [tls host port]. congruence. }
  unfold parse_url, url_origin. intros E1 E2 Ho.
  destruct (starts_with (lit "https://") u1), (starts_with (lit "https://") u2).
  - destruct (cut "/" (drop 8 u1)) as [a1 x1], (cut "/" (drop 8 u2)) as [a2 x2]. cbn [fst] in Ho.
    do 2 apply app_inv_head in Ho. by eapply Hkey.
  - destruct (starts_with (lit "http://") u2); [|done]. discriminate Ho.
  - destruct (starts_with (lit "http://") u1); [|done]. discriminate Ho.
  - destruct (starts_with (lit "http://") u1); [|done]. destruct (starts_with (lit "http://") u2); [|done].
    destruct (cut "/" (drop 7 u1)) as [a1 x1], (cut "/" (drop 7 u2)) as [a2 x2]. cbn [fst] in Ho.
    do 2 apply app_inv_head in Ho. by eapply Hkey.
Qed.

(** ** The loop *)

Lemma erase_ci_lookup name h k v : erase_header_ci name h !! k = Some v -> h !! k = Some v /\ same_ci k name = false.
Proof. unfold erase_header_ci. rewrite map_lookup_filter_Some. done. Qed.

Lemma dropped_none h : ~ has_credentials (drop_credentials h).
Proof.
  intros (name & k & v & Hin & Hk & Hci). unfold drop_credentials in Hk.
  apply erase_ci_lookup in Hk as [Hk H1]. apply erase_ci_lookup in Hk as [Hk H2].
  apply erase_ci_lookup in Hk as [_ H3]. unfold credential_names in Hin. set_unfold in Hin.
  destruct Hin as [-> | [-> | [-> | []]]]; congruence.
Qed.

Lemma drop_content_credentials h : has_credentials (drop_content h) -> has_credentials h.
Proof.
  intros (name & k & v & Hin & Hk & Hci). exists name, k, v. split; [done|]. split; [|done].
  unfold drop_content in Hk. rewrite !lookup_delete_Some in Hk. tauto.
Qed.

Lemma request_loop_sent transport url0 hops : forall trace seen resp url method body_ hdrs r trace',
  request_loop transport hops trace seen resp url method body_ hdrs = (r, trace') ->
  (has_credentials hdrs -> url_origin url = url_origin url0) ->
  exists new, trace' = trace ++ new /\ (length new <= S hops)%nat /\
    Forall (fun q => parse_url (s_url q) = Some (s_parsed q) /\
      (has_credentials (s_headers q) -> url_origin (s_url q) = url_origin url0)) new.
Proof.
  induction hops as [|hops IH]; intros trace seen resp url method body_ hdrs r trace'; cbn [request_loop];
    (destruct (parse_url url) as [u|] eqn:Eu; [|intros [= <- <-] _; exists []; rewrite app_nil_r; by split; [|split; [cbn; lia|]]]);
    cbv zeta; set (q := MkSent url u method body_ hdrs); set (re := transport trace q); intros E Hinv;
    assert (Hq : parse_url (s_url q) = Some (s_parsed q) /\
      (has_credentials (s_headers q) -> url_origin (s_url q) = url_origin url0)) by done.
  - destruct (negb _); injection E as <- <-; exists [q]; (split; [done|]); (split; [cbn; lia|by constructor]).
  - assert (Hone : forall x, (x, trace ++ [q]) = (r, trace') -> exists new, trace' = trace ++ new /\
      (length new <= S (S hops))%nat /\ Forall (fun q => parse_url (s_url q) = Some (s_parsed q) /\
      (has_credentials (s_headers q) -> url_origin (s_url q) = url_origin url0)) new).
    { intros x [= _ <-]. exists [q]. split; [done|]. split; [cbn; lia|by constructor]. }
    destruct (negb _); [by eapply Hone|]. destruct (_ || _); [by eapply Hone|].
    set (next := resolve_url url _) in *. destruct (next =s []); [by eapply Hone|].
    destruct (existsb _ _); [by eapply Hone|].
    assert (Hnext : has_credentials (hop_headers url next hdrs) -> url_origin next = url_origin url0).
    { unfold hop_headers. destruct (url_origin next =s url_origin url) eqn:Eo; [|by intros ?%dropped_none].
      apply bytes_eqb_eq in Eo. rewrite Eo. exact Hinv. }
    assert (Hgo : exists new, trace' = (trace ++ [q]) ++ new /\ (length new <= S hops)%nat /\
      Forall (fun q => parse_url (s_url q) = Some (s_parsed q) /\
      (has_credentials (s_headers q) -> url_origin (s_url q) = url_origin url0)) new).
    { destruct (becomes_get _ _); eapply IH; try exact E; [by intros ?%drop_content_credentials%Hnext|done]. }
    destruct Hgo as (new & -> & Hlen & Hall). exists (q :: new). rewrite <- app_assoc. split; [done|].
    split; [cbn; lia|by constructor].
Qed.

(** C22: following redirects never sends the credentials of a request
    elsewhere. Whatever the servers answer, every request of [http_request]
    that carries an Authorization, Cookie or Proxy-Authorization header, in any
    letter case, goes to the scheme, host and port of the URL that was asked
    for; and there are at most as many redirects as the options allow. *)
Theorem credentials_stay transport o method url body_ hdrs r trace u :
  http_request transport o [] method url body_ hdrs = (r, trace) ->
  parse_url url = Some u ->
  (length trace <= S (max_hops o))%nat /\
  Forall (fun q => has_credentials (s_headers q) -> endpoint (s_parsed q) = endpoint u) trace.
Proof.
  intros E Hu. apply (request_loop_sent transport url) in E as (new & -> & Hlen & Hall); [|done].
  split; [exact Hlen|]. eapply Forall_impl; [exact Hall|]. intros q [Hp Ho] Hc. by eapply same_origin; [| |apply Ho].
Qed.

Lemma credentials_stay_witness :
  let net := fun (trace : list sent) (q : sent) =>
    match trace with
    | [] => MkResp 302 [] {[ lit "location" := lit "https://API.example.org/b" ]} []
    | [_] => MkResp 302 [] {[ lit "location" := lit "//other.example.org/c" ]} []
    | _ => MkResp 200 (lit "ok") ∅ []
    end in
  let hdrs : headers_t := {[ lit "cookie" := lit "id=1"; lit "Accept" := lit "*/*" ]} in
  let out := http_request net (MkOpts true 5) [] (lit "GET") (lit "https://api.example.org/a") [] hdrs in
  (map (fun q => (s_url q, bool_decide (s_headers q !! lit "cookie" = None))) out.2 =
    [(lit "https://api.example.org/a", false); (lit "https://API.example.org/b", false);
     (lit "https://other.example.org/c", true)]) /\
  (length out.2 <= 6)%nat /\
  Forall (fun q => has_credentials (s_headers q) ->
    endpoint (s_parsed q) = endpoint (MkUrl true (lit "api.example.org") 443 (lit "/a"))) out.2.
Proof.
  intros net hdrs out. split; [vm_compute; reflexivity|].
  apply (credentials_stay net (MkOpts true 5) (lit "GET") (lit "https://api.example.org/a") [] hdrs out.1 out.2).
  - apply surjective_pairing.
  - vm_compute. reflexivity.
Defined.

(** * Chunks *)

(** A chunk-size line that says [n]: at most fifteen hexadecimal digits, then
    perhaps an extension. *)
Definition size_line (l : bytes) (n : Z) : Prop :=
  exists hs ext, l = hs ++ ext /\ hs <> [] /\ forallb isxdigit hs = true /\ (length hs <= 15)%nat /\
    (ext = [] \/ exists e, ext = ";"%char :: e) /\ Forall (fun c => c <> CR) ext /\ (digits 16 0 hs).1 = n.

Definition chunk_ok (c : bytes * bytes) : Prop := c.2 <> [] /\ size_line c.1 (Z.of_nat (length c.2)).

(** The text of a body in chunks: the chunks, the last line and what follows. *)
Fixpoint chunk_stream (cs : list (bytes * bytes)) (last tail : bytes) : bytes :=
  match cs with
  | [] => last ++ CRLF ++ tail
  | (l, data) :: cs => l ++ CRLF ++ data ++ CRLF ++ chunk_stream cs last tail
  end.

Lemma find_crlf_line l r : Forall (fun c => c <> CR) l -> find_crlf (l ++ CRLF ++ r) = Some (length l).
Proof.
  intros Hl. unfold find_crlf. induction l as [|c l IH]; [done|].
  apply Forall_cons in Hl as [Hc Hl]. cbn [app find_str].
  rewrite (IH Hl). change (starts_with CRLF (c :: l ++ CRLF ++ r)) with ((CR =c c) && starts_with [LF] (l ++ CRLF ++ r)).
  rewrite (proj2 (Ascii.eqb_neq CR c)) by congruence. done.
Qed.

Lemma size_line_no_cr l n : size_line l n -> Forall (fun c => c <> CR) l.
Proof.
  intros (hs & ext & -> & _ & Hx & _ & _ & He & _). apply Forall_app. split; [|done].
  apply Forall_forall. intros c Hin ->. rewrite forallb_forall in Hx.
  apply list_elem_of_In, Hx in Hin. discriminate Hin.
Qed.

Lemma xdigit_facts c : isxdigit c = true ->
  (digit_val c <? 16) = true /\ isspace c = false /\ (c =c "-") = false /\ (c =c "+") = false /\
  (c =c ";") = false /\ (c =c "x") = false /\ (c =c "X") = false /\ (c =c SP) || (c =c TAB) = false /\ 0 <= digit_val c.
Proof.
  intros Hc.
  assert (H : implb (isxdigit c) ((digit_val c <? 16) && negb (isspace c) && negb (c =c "-") && negb (c =c "+")
    && negb (c =c ";") && negb (c =c "x") && negb (c =c "X") && negb ((c =c SP) || (c =c TAB)) && (0 <=? digit_val c)) = true)
    by by_chars c.
  rewrite Hc in H. cbn [implb] in H. rewrite !andb_true_iff, !negb_true_iff, Z.leb_le in H. tauto.
Qed.

Lemma digits_bound hs : forallb isxdigit hs = true -> forall a, 0 <= a ->
  digits 16 a hs = ((digits 16 a hs).1, []) /\ 0 <= (digits 16 a hs).1 < (a + 1) * 16 ^ Z.of_nat (length hs).
Proof.
  induction hs as [|c hs IH]; intros Hx a Ha; [split; [done|cbn; lia]|].
  cbn [forallb] in Hx. apply andb_true_iff in Hx as [Hc Hx]. apply xdigit_facts in Hc as (Hd & _ & _ & _ & _ & _ & _ & _ & H0).
  cbn [digits length]. rewrite Hd. apply Z.ltb_lt in Hd. destruct (IH Hx (a * 16 + digit_val c) ltac:(lia)) as [-> Hr].
  cbn [fst] in *. rewrite Nat2Z.inj_succ, Z.pow_succ_r by lia. split; [done|].
  assert (0 <= 16 ^ Z.of_nat (length hs)) by (apply Z.pow_nonneg; lia). nia.
Qed.

Lemma cut_no c s r : forallb (fun d => negb (d =c c)) s = true -> (r = [] \/ exists e, r = c :: e) -> cut c (s ++ r) = (s, r).
Proof.
  intros Hs Hr. unfold cut. assert (Hn : Forall (fun d => is_c c d = false) s).
  { apply Forall_forall. intros d Hin. rewrite forallb_forall in Hs. apply list_elem_of_In, Hs in Hin.
    by apply negb_true_iff in Hin. }
  destruct Hr as [-> | [e ->]].
  - rewrite app_nil_r, (proj2 (find_if_None _ s)); done.
  - rewrite find_if_app_l; [|done|apply is_c_refl]. by rewrite take_app_length, drop_app_length.
Qed.

Lemma stoul16_hex hs : hs <> [] -> forallb isxdigit hs = true -> (length hs <= 15)%nat ->
  stoul16 hs = Some (digits 16 0 hs).1 /\ 0 <= (digits 16 0 hs).1 < 2 ^ 60.
Proof.
  intros Hne Hx Hlen. destruct (digits_bound hs Hx 0 ltac:(lia)) as [_ Hr].
  assert (Hp : 16 ^ Z.of_nat (length hs) <= 16 ^ 15) by (apply Z.pow_le_mono_r; lia).
  change (16 ^ 15) with (2 ^ 60) in Hp. split; [|lia].
  destruct hs as [|c hs]; [done|]. pose proof Hx as Hx'. cbn [forallb] in Hx. apply andb_true_iff in Hx as [Hc Hx].
  apply xdigit_facts in Hc as (Hd & Hs & Hm & Hp' & _). unfold stoul16. cbn [skip_space]. rewrite Hs. cbn [sign].
  rewrite Hm, Hp'. assert (Hno : match hs with x :: s' => (c =c "0") && ((x =c "x") || (x =c "X")) && has_digit 16 s' | [] => false end = false).
  { destruct hs as [|x hs]; [done|]. cbn [forallb] in Hx. apply andb_true_iff in Hx as [Hxx _].
    apply xdigit_facts in Hxx as (_ & _ & _ & _ & _ & -> & -> & _). by rewrite andb_false_r. }
  assert (Heq : match c :: hs with z :: x :: s' => if (z =c "0") && ((x =c "x") || (x =c "X")) && has_digit 16 s' then s' else c :: hs
    | _ => c :: hs end = c :: hs) by (destruct hs; [done|]; by rewrite Hno).
  rewrite Heq. cbn [has_digit]. rewrite Hd. rewrite (proj2 (Z.ltb_lt _ _)) by lia. done.
Qed.

Lemma trim_right_hex hs : forallb isxdigit hs = true -> trim_right hs = hs.
Proof.
  intros Hx. unfold trim_right. destruct (reverse hs) as [|c r] eqn:E.
  - apply (f_equal reverse) in E. by rewrite reverse_involutive in E.
  - assert (Hin : c ∈ hs) by (rewrite <- (reverse_involutive hs), E, elem_of_reverse; by left).
    rewrite forallb_forall in Hx. apply list_elem_of_In, Hx, xdigit_facts in Hin as (_ & _ & _ & _ & _ & _ & _ & Hb & _).
    cbn [drop_while]. rewrite Hb, <- E. apply reverse_involutive.
Qed.

(** What both decoders read from a chunk-size line. *)
Lemma size_line_read l n : size_line l n ->
  stoul16 (cut ";" l).1 = Some n /\ stoul16 (trim_right (cut ";" l).1) = Some n /\ 0 <= n < 2 ^ 60.
Proof.
  intros (hs & ext & -> & Hne & Hx & Hlen & He & _ & <-). destruct (stoul16_hex hs Hne Hx Hlen) as [H1 H2].
  assert (Hc : forallb (fun d => negb (d =c ";")) hs = true).
  { apply forallb_forall. intros c Hin. rewrite forallb_forall in Hx. by apply Hx, xdigit_facts in Hin as (_ & _ & _ & _ & -> & _). }
  rewrite (cut_no ";" hs ext Hc He). cbn [fst]. by rewrite trim_right_hex.
Qed.

(** ** The decoder of a stream *)

(** What has come of a text that begins with a line: the end of the line is
    found once it has come. *)
Lemma find_crlf_prefix b suffix l r : b ++ suffix = l ++ CRLF ++ r -> Forall (fun c => c <> CR) l ->
  find_crlf b = None /\ (length b < length l + 2)%nat \/
  exists b', b = l ++ CRLF ++ b' /\ b' ++ suffix = r /\ find_crlf b = Some (length l).
Proof.
  intros E Hl. destruct (decide (length l + 2 <= length b)%nat) as [Hle|Hlt].
  - right. exists (drop (length l + 2) b).
    assert (Eb : b = l ++ CRLF ++ drop (length l + 2) b).
    { rewrite <- (take_drop (length l + 2) b) at 1. rewrite app_assoc. f_equal.
      apply (f_equal (take (length l + 2))) in E. rewrite take_app_le in E by done. rewrite E, app_assoc.
      apply (take_app_length' (l ++ CRLF) r). rewrite length_app. cbn [length CRLF]. lia. }
    split; [exact Eb|]. split.
    + rewrite Eb, <- !app_assoc in E. by do 2 apply app_inv_head in E.
    + rewrite Eb. by apply find_crlf_line.
  - left. split; [|lia]. destruct (find_crlf b) as [i|] eqn:Ef; [exfalso|done].
    apply find_str_Some in Ef as (s1 & s2 & -> & <-). rewrite !length_app in Hlt. cbn [length CRLF] in Hlt.
    assert (Hi : l !! length s1 = Some CR).
    { apply (f_equal (fun u => u !! length s1)) in E. rewrite <- app_assoc in E.
      rewrite (lookup_app_r s1), Nat.sub_diag, (lookup_app_l l) in E by lia. by rewrite <- E. }
    rewrite Forall_lookup in Hl. by apply (Hl _ _ Hi).
Qed.

Lemma no_wrap (cr sz len : nat) : Z.of_nat cr + Z.of_nat sz < 2 ^ 62 ->
  to_u64 (Z.of_nat cr + 2 + Z.of_nat sz + 2) = Z.of_nat (cr + 2 + sz + 2).
Proof. intros H. unfold to_u64. rewrite Z.mod_small by lia. lia. Qed.

(** One stop of the loop: it has taken the chunks that came in full. *)
Lemma feed_loop_stream last tail suffix : size_line last 0 -> forall cs b fuel out, Forall chunk_ok cs ->
  b ++ suffix = chunk_stream cs last tail -> Z.of_nat (length (chunk_stream cs last tail)) < 2 ^ 62 ->
  (length b <= fuel)%nat ->
  (exists d, feed_loop fuel b out = Some (MkDec d true, out ++ map snd cs)) \/
  (exists d cs1 cs2, cs = cs1 ++ cs2 /\ feed_loop fuel b out = Some (MkDec d false, out ++ map snd cs1) /\
    d ++ suffix = chunk_stream cs2 last tail /\ suffix <> []).
Proof.
  intros Hlast. induction cs as [|[l data] cs IH]; intros b fuel out Hok E Hlen Hf; cbn [chunk_stream] in E, Hlen.
  - pose proof (size_line_no_cr last 0 Hlast) as Hcr.
    destruct (find_crlf_prefix b suffix last tail E Hcr) as [[En Hs] | (b' & -> & Hb' & Es)].
    + right. exists b, [], []. cbn [map]. rewrite (app_nil_r out). split; [done|]. split; [destruct fuel; cbn [feed_loop]; by rewrite En|].
      split; [done|]. intros ->. rewrite app_nil_r in E. rewrite E, !length_app in Hs. cbn in Hs. lia.
    + left. exists (last ++ CRLF ++ b'). cbn [map]. rewrite (app_nil_r out).
      destruct fuel; cbn [feed_loop]; rewrite Es, take_app_length; by rewrite (proj1 (proj2 (size_line_read last 0 Hlast))).
  - apply Forall_cons in Hok as [[Hne Hl] Hok]. cbn [fst snd] in *. pose proof (size_line_no_cr l _ Hl) as Hcr.
    set (r := data ++ CRLF ++ chunk_stream cs last tail) in *.
    assert (Hr : length r = (length data + 2 + length (chunk_stream cs last tail))%nat)
      by (unfold r; rewrite !length_app; cbn [length CRLF]; lia).
    rewrite !length_app in Hlen. cbn [length CRLF] in Hlen.
    destruct (find_crlf_prefix b suffix l r E Hcr) as [[En Hs] | (b' & -> & Hb' & Es)].
    + right. exists b, [], ((l, data) :: cs). cbn [map]. rewrite (app_nil_r out). split; [done|].
      split; [destruct fuel; cbn [feed_loop]; by rewrite En|]. split; [done|].
      intros ->. rewrite app_nil_r in E. rewrite E, !length_app in Hs. cbn in Hs. lia.
    + assert (Hb : length (l ++ CRLF ++ b') = (length l + 2 + length b')%nat) by (rewrite !length_app; cbn [length CRLF]; lia).
      assert (Hdata : data <> []) by done. assert (Hd0 : length data <> 0%nat) by (by destruct data).
      assert (Hloop : forall fuel, feed_loop fuel (l ++ CRLF ++ b') out =
        if (length b' <? length data + 2)%nat then Some (MkDec (l ++ CRLF ++ b') false, out)
        else match fuel with O => None | S fuel => feed_loop fuel (drop (length data + 2) b') (out ++ [take (length data) b']) end).
      { intros [|f]; cbn [feed_loop]; rewrite Es, take_app_length, (proj1 (proj2 (size_line_read l _ Hl)));
          rewrite (proj2 (Z.eqb_neq _ _)) by lia; rewrite (no_wrap (length l) (length data) 0), Hb by lia;
          (destruct (Nat.ltb_spec (length b') (length data + 2));
            [rewrite (proj2 (Z.ltb_lt _ _)) by lia; done|rewrite (proj2 (Z.ltb_ge _ _)) by lia; try done]).
        replace (Z.to_nat (Z.min (Z.of_nat (length l + 2 + length data + 2)) (Z.of_nat (length l + 2 + length b'))))
          with (length (l ++ CRLF) + (length data + 2))%nat by (rewrite length_app; cbn [length CRLF]; lia).
        replace (Z.to_nat (Z.min (Z.of_nat (length data)) (Z.of_nat (length l + 2 + length b')))) with (length data) by lia.
        unfold substr. replace (length l + 2)%nat with (length (l ++ CRLF)) by (rewrite length_app; cbn [length CRLF]; lia).
        rewrite (app_assoc l CRLF b'), drop_app_length, drop_app_add. done. }
      rewrite Hloop. destruct (Nat.ltb_spec (length b') (length data + 2)) as [Hlt|Hge].
      * right. exists (l ++ CRLF ++ b'), [], ((l, data) :: cs). cbn [map]. rewrite (app_nil_r out). split; [done|]. split; [done|].
        split; [done|]. intros ->. rewrite app_nil_r in Hb'. subst b'. lia.
      * destruct fuel as [|fuel]; [lia|].
        assert (Hcut : exists b2, b' = data ++ CRLF ++ b2 /\ b2 ++ suffix = chunk_stream cs last tail).
        { exists (drop (length data + 2) b'). assert (Eb : b' = data ++ CRLF ++ drop (length data + 2) b').
          { rewrite <- (take_drop (length data + 2) b') at 1. rewrite app_assoc. f_equal.
            apply (f_equal (take (length data + 2))) in Hb'. rewrite take_app_le in Hb' by done.
            rewrite Hb'. unfold r. rewrite app_assoc. apply (take_app_length' (data ++ CRLF)).
            rewrite length_app. cbn [length CRLF]. lia. }
          split; [exact Eb|]. rewrite Eb in Hb'. unfold r in Hb'. rewrite <- !app_assoc in Hb'.
          by do 2 apply app_inv_head in Hb'. }
        destruct Hcut as (b2 & -> & Hb2). rewrite take_app_length.
        replace (length data + 2)%nat with (length (data ++ CRLF)) by (rewrite length_app; cbn [length CRLF]; lia).
        rewrite (app_assoc data CRLF b2), drop_app_length.
        destruct (IH b2 fuel (out ++ [data]) Hok Hb2) as [(d & Ed) | (d & cs1 & cs2 & -> & Ed & Hd & Hs)].
        { lia. }
        { rewrite !length_app in Hb, Hf. cbn [length CRLF] in Hf. lia. }
        -- left. exists d. rewrite Ed, <- app_assoc. done.
        -- right. exists d, ((l, data) :: cs1), cs2. rewrite Ed, <- app_assoc. done.
Qed.

(** The pieces in which the network gives a text, one call of [feed] each. *)
Fixpoint feed_all (d : ChunkedDecoder) (pieces : list bytes) : option (ChunkedDecoder * list bytes) :=
  match pieces with
  | [] => Some (d, [])
  | p :: ps =>
      match chunked_feed d p with
      | None => None
      | Some (d, out) =>
          match feed_all d ps with Some (d, more) => Some (d, out ++ more) | None => None end
      end
  end.

Lemma feed_all_done ps : forall b, exists b', feed_all (MkDec b true) ps = Some (MkDec b' true, []).
Proof.
  induction ps as [|p ps IH]; intros b; cbn [feed_all]; [by eexists|]. unfold chunked_feed. cbn [done buf].
  destruct (IH (b ++ p)) as [b' ->]. by eexists.
Qed.

Lemma feed_all_stream last tail (Hlast : size_line last 0) : forall ps b cs, Forall chunk_ok cs ->
  b ++ concat ps = chunk_stream cs last tail -> Z.of_nat (length (chunk_stream cs last tail)) < 2 ^ 62 ->
  concat ps <> [] -> exists d, feed_all (MkDec b false) ps = Some (MkDec d true, map snd cs).
Proof.
  induction ps as [|p ps IH]; intros b cs Hok E Hlen Hne; [done|]. cbn [feed_all concat] in *.
  unfold chunked_feed. cbn [done buf]. rewrite app_assoc in E.
  destruct (feed_loop_stream last tail (concat ps) Hlast cs (b ++ p) (length (b ++ p)) [] Hok E Hlen (le_n _))
    as [(d & ->) | (d & cs1 & cs2 & -> & -> & Ed & Hs)].
  - destruct (feed_all_done ps d) as [d' ->]. exists d'. by rewrite app_nil_r.
  - apply Forall_app in Hok as [_ Hok]. destruct (IH d cs2 Hok Ed) as [d' ->]; [|done|].
    { apply (f_equal length) in E, Ed. rewrite !length_app in *. 
      assert (Hcs : (length (chunk_stream cs2 last tail) <= length (chunk_stream (cs1 ++ cs2) last tail))%nat).
      { clear. induction cs1 as [|[l data] cs1 IHc]; [done|]. cbn [app chunk_stream]. rewrite !length_app. lia. }
      lia. }
    exists d'. by rewrite map_app.
Qed.

(** The decoder of a whole response, at the position behind [pre]. *)
Lemma chunked_body_stream last tail (Hlast : size_line last 0) : forall cs pre fuel out, Forall chunk_ok cs ->
  let raw := pre ++ chunk_stream cs last tail in
  Z.of_nat (length raw) < 2 ^ 62 -> (length cs < fuel)%nat ->
  chunked_body fuel raw (Z.of_nat (length pre)) out = Some (out ++ concat (map snd cs)).
Proof.
  induction cs as [|[l data] cs IH]; intros pre fuel out Hok raw Hlen Hf; destruct fuel as [|fuel]; try (cbn in Hf; lia);
    cbn [chunked_body]; subst raw; cbn [chunk_stream] in *; rewrite Nat2Z.id, drop_app_length.
  - rewrite (proj2 (Z.ltb_lt _ _)) by (rewrite !length_app; cbn [length CRLF]; lia). cbn [negb].
    rewrite find_crlf_line by by eapply size_line_no_cr. rewrite take_app_length, (proj1 (size_line_read last 0 Hlast)).
    cbn [map concat]. by rewrite app_nil_r.
  - apply Forall_cons in Hok as [[Hne Hl] Hok]. cbn [fst snd] in Hne, Hl. rewrite !length_app in Hlen. cbn [length CRLF] in Hlen.
    assert (Hd0 : length data <> 0%nat) by (by destruct data).
    rewrite (proj2 (Z.ltb_lt _ _)) by (rewrite !length_app; cbn [length CRLF]; lia). cbn [negb].
    rewrite find_crlf_line by by eapply size_line_no_cr. rewrite take_app_length, (proj1 (size_line_read l _ Hl)).
    rewrite (proj2 (Z.eqb_neq _ _)) by lia.
    set (next := chunk_stream cs last tail) in *.
    replace (Z.to_nat (Z.of_nat (length pre) + Z.of_nat (length l) + 2)) with (length (pre ++ l ++ CRLF))
      by (rewrite !length_app; cbn [length CRLF]; lia).
    replace (pre ++ l ++ CRLF ++ data ++ CRLF ++ next) with ((pre ++ l ++ CRLF) ++ data ++ CRLF ++ next) by by rewrite <- !app_assoc.
    rewrite drop_app_length.
    replace (Z.to_nat (Z.min (Z.of_nat (length data)) (Z.of_nat (length ((pre ++ l ++ CRLF) ++ data ++ CRLF ++ next)))))
      with (length data) by (rewrite !length_app; cbn [length CRLF]; lia).
    rewrite take_app_length. unfold to_u64. rewrite Z.mod_small by lia.
    replace (Z.of_nat (length pre) + Z.of_nat (length l) + 2 + Z.of_nat (length data) + 2)
      with (Z.of_nat (length (pre ++ l ++ CRLF ++ data ++ CRLF))) by (rewrite !length_app; cbn [length CRLF]; lia).
    replace ((pre ++ l ++ CRLF) ++ data ++ CRLF ++ next) with ((pre ++ l ++ CRLF ++ data ++ CRLF) ++ next)
      by by rewrite <- !app_assoc.
    rewrite (IH (pre ++ l ++ CRLF ++ data ++ CRLF)); [by rewrite <- app_assoc|done| |cbn in Hf; lia].
    fold next. rewrite !length_app. cbn [length CRLF]. lia.
Qed.

(** C23: the body of a response in chunks. However the network cuts the text of
    the chunks into pieces, the decoder of streams hands on exactly the data of
    the chunks, one by one and in order, and has finished; and the decoder of a
    whole response, given the same text at once, makes their concatenation of
    it. The chunks may be of any size and content, their lines may have
    extensions, and anything may follow the last one. *)
Theorem chunks_decoded cs last tail pieces :
  Forall chunk_ok cs -> size_line last 0 ->
  concat pieces = chunk_stream cs last tail -> Z.of_nat (length (concat pieces)) < 2 ^ 62 ->
  (exists d, feed_all (MkDec [] false) pieces = Some (MkDec d true, map snd cs)) /\
  chunked_body (S (length (concat pieces))) (concat pieces) 0 [] = Some (concat (map snd cs)).
Proof.
  intros Hok Hlast E Hlen. assert (Hcs : (length cs < S (length (concat pieces)))%nat).
  { rewrite E. clear. induction cs as [|[l data] cs IH]; cbn [length chunk_stream]; [lia|]. rewrite !length_app. cbn [length CRLF]. lia. }
  split.
  - apply (feed_all_stream last tail); try done; [by rewrite <- E|]. rewrite E. intros Hnil.
    destruct cs as [|[l data] cs]; apply (f_equal length) in Hnil; cbn [chunk_stream] in Hnil;
      rewrite !length_app in Hnil; cbn [length CRLF] in Hnil; lia.
  - rewrite E in *. apply (chunked_body_stream last tail Hlast cs [] _ [] Hok); [exact Hlen|exact Hcs].
Qed.
Lemma chunks_decoded_witness :
  let line4 := lit "4;x=y" in
  let cs := [(line4, lit "Wiki"); (lit "5", lit "pedia")] in
  let stream := chunk_stream cs (lit "0") CRLF in
  let pieces := [take 3 stream; []; drop 3 (take 12 stream); drop 12 stream] in
  chunked_body (S (length (concat pieces))) (concat pieces) 0 [] = Some (lit "Wikipedia") /\
  exists d, feed_all (MkDec [] false) pieces = Some (MkDec d true, [lit "Wiki"; lit "pedia"]).
Proof.
  intros line4 cs stream pieces.
  destruct (chunks_decoded cs (lit "0") CRLF pieces) as [H1 H2].
  - constructor; [|constructor; [|constructor]]; (split; [done|]).
    + exists (lit "4"), (lit ";x=y"). split; [reflexivity|]. split; [done|]. split; [reflexivity|]. split; [cbn; lia|].
      split; [right; by eexists|]. split; [by repeat constructor|reflexivity].
    + exists (lit "5"), []. split; [reflexivity|]. split; [done|]. split; [reflexivity|]. split; [cbn; lia|].
      split; [by left|]. split; [constructor|reflexivity].
  - exists (lit "0"), []. split; [reflexivity|]. split; [done|]. split; [reflexivity|]. split; [cbn; lia|].
    split; [by left|]. split; [constructor|reflexivity].
  - vm_compute. reflexivity.
  - vm_compute. reflexivity.
  - split; [exact H2|exact H1].
Defined.

(** A size of 2^64 - 20 makes the sum of position and size wrap to 0: each
    decoder comes back to the same chunk for ever. *)
Definition wrapping_chunk : bytes := lit "FFFFFFFFFFFFFFEC" ++ CRLF.
Example chunk_size_wraps fuel : forall out, chunked_body fuel wrapping_chunk 0 out = None.
Proof.
  induction fuel as [|fuel IH]; intros out; [by vm_compute|]. cbn [chunked_body].
  change (negb (0 <? Z.of_nat (length wrapping_chunk))) with false. cbn iota.
  change (drop (Z.to_nat 0) wrapping_chunk) with wrapping_chunk.
  change (find_crlf wrapping_chunk) with (Some 16%nat). cbn iota.
  change (stoul16 (cut ";" (take 16 wrapping_chunk)).1) with (Some (2 ^ 64 - 20)). cbn iota.
  change (2 ^ 64 - 20 =? 0) with false. cbn iota. cbv zeta. apply IH.
Qed.
Example stream_chunk_size_wraps fuel : forall out, feed_loop fuel wrapping_chunk out = None.
Proof.
  induction fuel as [|fuel IH]; intros out; [by vm_compute|]. cbn [feed_loop].
  change (find_crlf wrapping_chunk) with (Some 16%nat). cbn iota.
  change (stoul16 (trim_right (cut ";" (take 16 wrapping_chunk)).1)) with (Some (2 ^ 64 - 20)). cbn iota.
  change (2 ^ 64 - 20 =? 0) with false. cbn iota.
  change (Z.of_nat (length wrapping_chunk) <? to_u64 (Z.of_nat 16 + 2 + (2 ^ 64 - 20) + 2)) with false. cbn iota. cbv zeta.
  apply IH.
Qed.

(** ** Redirects of the installer *)

(** An allowed redirect of the usual form goes by TLS to a host of GitHub. *)
Definition github_host (h : bytes) : Prop :=
  h = lit "github.com" \/ h = lit "api.github.com" \/
  (exists p, h = p ++ lit ".github.com") \/ (exists p, h = p ++ lit ".githubusercontent.com").

Lemma ends_with_spec s suf : ends_with s suf = true -> exists p, s = p ++ suf.
Proof.
  unfold ends_with. intros [_ H]%andb_true_iff. apply bytes_eqb_eq in H. exists (take (length s - length suf) s).
  rewrite <- H at 2. by rewrite take_drop.
Qed.

Lemma redirect_host next : redirect_allowed next = inr tt ->
  let authority := (cut "/" (drop 8 next)).1 in
  starts_with (lit "[") authority = false ->
  rfind_if (is_c ":") authority = find_if (is_c ":") authority ->
  exists u, parse_url next = Some u /\ tls u = true /\ github_host (host u).
Proof.
  unfold redirect_allowed, parse_url. destruct (starts_with (lit "https://") next); [|done]. cbn [negb].
  destruct (cut "/" (drop 8 next)) as [a p]. cbn [fst]. intros Hr Hb Hc.
  assert (Hg : github_host (cut ":" a).1).
  { unfold github_host. destruct (_ || _) eqn:E in Hr; [|done]. rewrite !orb_true_iff, !bytes_eqb_eq in E.
    destruct E as [[[E | E] | E%ends_with_spec] | E%ends_with_spec]; tauto. }
  unfold parse_authority. destruct a as [|c r].
  - destruct Hg as [Hg | [Hg | [[q Hg] | [q Hg]]]]; try discriminate Hg; by destruct q.
  - change (("[" =c c) && true = false) in Hb. rewrite andb_true_r, Ascii.eqb_sym in Hb. rewrite Hb, Hc.
    unfold cut in Hg. destruct (find_if (is_c ":") (c :: r)) as [i|]; by eexists.
Qed.

(** The host in brackets is what the client connects to, but not what the check
    of the installer looks at. *)
Example redirect_bracket_escapes :
  let url := lit "https://[evil.example].github.com/p.zip" in
  redirect_allowed url = inr tt /\
  parse_url url = Some (MkUrl true (lit "evil.example") 443 (lit "/p.zip")).
Proof. split; vm_compute; reflexivity. Qed.

End HttpClient.
