(* ===== verification/Resp.v ===== *)
(** The Redis client of cpp/src/resp_client.cpp and the storage of sessions on
    it (cpp/src/web_stdlib.cpp, [sess_load], [sess_store], [sess_remove]).

    The network is a parameter: what a new connection and what the bytes of a
    command bring about, and the bytes that can be read afterwards. *)

From S2P Require Import Prelude CNum Dsn Http HttpClient Value.
#[local] Open Scope Z_scope.

Module Resp.
Import CNum.
#[local] Notation CRLF := Http.CRLF.

(** * Addresses *)

Record RedisUrl := MkUrl { host : bytes; port : Z; pass : bytes; db : Z; tls : bool; tls_verify : bool }.

Definition parse_url (url : bytes) : RedisUrl :=
  let secure := starts_with (lit "rediss://") url in
  let rest := if secure then drop 9 url else if starts_with (lit "redis://") url then drop 8 url else url in
  let '(userinfo, hostpart, query) := Dsn.redis_split_url rest in
  let (tls, verify) := Dsn.redis_resolve_tls query secure in
  let pass := match find_if (is_c ":") userinfo with Some i => drop (S i) userinfo | None => [] end in
  let (db, rest) := match find_if (is_c "/") hostpart with
                    | Some i => (default 0 (HttpClient.stoi (drop (S i) hostpart)), take i hostpart)
                    | None => (0, hostpart)
                    end in
  let (host, port) := match rfind_if (is_c ":") rest with
                      | Some i => (take i rest, default 6379 (HttpClient.stoi (drop (S i) rest)))
                      | None => (rest, 6379)
                      end in
  MkUrl (if host =s [] then lit "127.0.0.1" else host) port pass db tls verify.

(** * Commands and replies *)

Definition bulk (a : bytes) : bytes := lit "$" ++ decimal (Z.of_nat (length a)) ++ CRLF ++ a ++ CRLF.
(** The buffer of [send_command] *)
Definition command (args : list bytes) : bytes :=
  lit "*" ++ decimal (Z.of_nat (length args)) ++ CRLF ++ concat (map bulk args).

(** The value, or the text of the exception; and the bytes not yet read. *)
Inductive reply A := Got (a : A) (rest : bytes) | Failed (what : bytes) (rest : bytes).
Arguments Got {A}.
Arguments Failed {A}.
Definition rbind {A B} (m : reply A) (f : A -> bytes -> reply B) : reply B :=
  match m with Got a r => f a r | Failed w r => Failed w r end.

Definition RESP_MAX_LINE : nat := Z.to_nat (64 * 1024).
Definition RESP_MAX_DEPTH : nat := 64.
Definition RESP_MAX_ARRAY : Z := 1024 * 1024.

(** CRs are dropped wherever they are. *)
Fixpoint read_line_go (line s : bytes) : reply bytes :=
  match s with
  | [] => Failed (lit "Redis: connection closed") []
  | c :: r =>
      if c =c CR then read_line_go line r
      else if c =c LF then Got line r
      else let line := line ++ [c] in
           if (RESP_MAX_LINE <? length line)%nat then Failed (lit "Redis: line limit exceeded") r
           else read_line_go line r
  end.
Definition read_line (s : bytes) : reply bytes := read_line_go [] s.

Section Limit.
(** LOOK_REDIS_MAX_BULK, 64 MB unless it is set *)
Context (resp_max_bulk : Z).

Definition read_bulk (len : Z) (s : bytes) : reply bytes :=
  if len <? 0 then Got [] s
  else if resp_max_bulk <? len then Failed (lit "Redis: bulk response limit exceeded (LOOK_REDIS_MAX_BULK)") s
  else let n := Z.to_nat len in
       if (length s <? n)%nat then Failed (lit "Redis: connection closed reading bulk") []
       else rbind (read_line (drop n s)) (fun _ r => Got (take n s) r).

(** The elements of an array: the first is kept. *)
Fixpoint read_items (read : bytes -> reply bytes) (n : nat) (first : option bytes) (s : bytes) : reply bytes :=
  match n with
  | O => Got (default [] first) s
  | S n => rbind (read s) (fun v r => read_items read n (Some (default v first)) r)
  end.
(** [below] is the number of levels that are left. *)
Fixpoint read_response_at (below : nat) (s : bytes) : reply bytes :=
  match below with
  | O => Failed (lit "Redis: response nested too deep (array)") s
  | S below =>
      rbind (read_line s) (fun line r =>
        match line with
        | [] => Failed (lit "Redis: empty response") r
        | type :: payload =>
            if (type =c "+") || (type =c ":") then Got payload r
            else if type =c "-" then Failed (lit "Redis: " ++ payload) r
            else if type =c "$" then
              match stoll payload with
              | None => Failed (lit "Redis: invalid bulk length") r
              | Some len => if len =? -1 then Got [] r else read_bulk len r
              end
            else if type =c "*" then
              match stoll payload with
              | None => Failed (lit "Redis: invalid array count") r
              | Some count =>
                  if count <=? 0 then Got [] r
                  else if RESP_MAX_ARRAY <? count then Failed (lit "Redis: array element count limit exceeded") r
                  else read_items (read_response_at below) (Z.to_nat count) None r
              end
            else Failed (lit "Redis: unknown response type " ++ [type]) r
        end)
  end.
Definition read_response (s : bytes) : reply bytes := read_response_at (S RESP_MAX_DEPTH) s.

(** * The client *)

Section Net.
Context {W : Type}.
(** [connect] up to the handshake; [None] when it throws. *)
Context (net_connect : W -> W * bool).
(** The bytes of a command: [None] when the write fails, or what can be read
    until the next command. *)
Context (net_send : W -> bytes -> W * option bytes).

(** The world and the bytes of the connection not yet read. *)
Definition conn : Type := W * bytes.
Definition call (args : list bytes) (c : conn) : conn * (bytes + bytes) :=
  let (w, sent) := net_send c.1 (command args) in
  match sent with
  | None => ((w, c.2), inr (lit "Redis: send error"))
  | Some more =>
      match read_response (c.2 ++ more) with
      | Got v r => ((w, r), inl v)
      | Failed e r => ((w, r), inr e)
      end
  end.

Definition set (key val : bytes) (ttl_sec : Z) : conn -> conn * (bytes + bytes) :=
  call (if 0 <? ttl_sec then [lit "SET"; key; val; lit "EX"; Value.int_to_string ttl_sec] else [lit "SET"; key; val]).
Definition get (key : bytes) : conn -> conn * (bytes + bytes) := call [lit "GET"; key].
Definition del (key : bytes) : conn -> conn * (bytes + bytes) := call [lit "DEL"; key].
Definition exists_ (key : bytes) (c : conn) : conn * (bool + bytes) :=
  let (c, r) := call [lit "EXISTS"; key] c in
  (c, match r with inl v => inl (v =s lit "1") | inr e => inr e end).
Definition expire (key : bytes) (ttl_sec : Z) : conn -> conn * (bytes + bytes) :=
  call [lit "EXPIRE"; key; Value.int_to_string ttl_sec].

(** [RespClient::connect] of a new client; [inr] is the exception, with one
    text for all that can go wrong before the first command. *)
Definition connect (u : RedisUrl) (w : W) : W * (bytes + bytes) :=
  let (w, up) := net_connect w in
  if negb up then (w, inr (lit "Redis: cannot connect"))
  else
    let '((w, s), auth) := if pass u =s [] then ((w, []), inl (lit "OK")) else call [lit "AUTH"; pass u] (w, []) in
    match auth with
    | inr e => (w, inr e)
    | inl r =>
        if negb (r =s lit "OK") then (w, inr (lit "Redis AUTH failed"))
        else if db u =? 0 then (w, inl s)
        else let '((w, s), r) := call [lit "SELECT"; Value.int_to_string (db u)] (w, s) in
             (w, match r with inl _ => inl s | inr e => inr e end)
    end.

(** * Sessions

    [tl_sess_redis]: the bytes not yet read of the connection of the thread, or
    no connection. Every exception drops it. *)

Definition store : Type := W * option bytes.
Definition session_call (u : RedisUrl) (f : conn -> conn * (bytes + bytes)) (s : store) : store * option bytes :=
  let (w, c) := match s.2 with
                | Some r => (s.1, inl r)
                | None => connect u s.1
                end in
  match c with
  | inr _ => ((w, None), None)
  | inl r =>
      let '((w, r), v) := f (w, r) in
      match v with
      | inl v => ((w, Some r), Some v)
      | inr _ => ((w, None), None)
      end
  end.
Definition sess_key (sid : bytes) : bytes := lit "look_sess:" ++ sid.
Definition sess_load (u : RedisUrl) (sid : bytes) (s : store) : store * bytes :=
  let (s, v) := session_call u (get (sess_key sid)) s in (s, default [] v).
Definition sess_store (u : RedisUrl) (ttl : Z) (sid blob : bytes) (s : store) : store :=
  (session_call u (set (sess_key sid) blob ttl) s).1.
Definition sess_remove (u : RedisUrl) (sid : bytes) (s : store) : store :=
  (session_call u (del (sess_key sid)) s).1.

End Net.
End Limit.

(** * A server

    What Redis does with these commands, in terms of its protocol. *)

Inductive rreply := RSimple (s : bytes) | RErr (s : bytes) | RInt (n : Z) | RBulk (v : bytes) | RNil.
Definition print (r : rreply) : bytes :=
  match r with
  | RSimple s => lit "+" ++ s ++ CRLF
  | RErr s => lit "-" ++ s ++ CRLF
  | RInt n => lit ":" ++ decimal n ++ CRLF
  | RBulk v => bulk v
  | RNil => lit "$-1" ++ CRLF
  end.
(** What a connection can suffer: nothing, a write that fails, or the end of
    the stream after so many bytes of the answer. *)
Inductive fault := Fine | NoSend | Cut (k : nat).
Record server := MkServer {
  kv : gmap bytes bytes; password : option bytes; authed : bool; faults : list fault }.
Definition set_kv d (v : server) := MkServer d (password v) (authed v) (faults v).
Definition set_authed b (v : server) := MkServer (kv v) (password v) b (faults v).
Definition set_faults f (v : server) := MkServer (kv v) (password v) (authed v) f.

Definition redis_number (s : bytes) : option (nat * bytes) :=
  if has_digit 10 s then
    let (n, r) := digits 10 0 s in
    match r with
    | c :: d :: r => if (c =c CR) && (d =c LF) then Some (Z.to_nat n, r) else None
    | _ => None
    end
  else None.
Definition read_bulk_arg (s : bytes) : option (bytes * bytes) :=
  match s with
  | c :: s =>
      if c =c "$" then
        x ← redis_number s;
        let '(n, r) := x in
        if (length r <? n + 2)%nat then None
        else if take 2 (drop n r) =s CRLF then Some (take n r, drop (n + 2) r) else None
      else None
  | [] => None
  end.
Fixpoint read_args (n : nat) (s : bytes) : option (list bytes * bytes) :=
  match n with
  | O => Some ([], s)
  | S n => x ← read_bulk_arg s; let '(a, r) := x in y ← read_args n r; let '(l, r) := y in Some (a :: l, r)
  end.
Definition read_command (s : bytes) : option (list bytes * bytes) :=
  match s with
  | c :: s => if c =c "*" then x ← redis_number s; let '(n, r) := x in read_args n r else None
  | [] => None
  end.
Definition named (s : string) (a : bytes) : bool := a =s list_ascii_of_string s.
Definition OK : rreply := RSimple (lit "OK").
Definition redis_exec (args : list bytes) (v : server) : server * rreply :=
  match args with
  | [c; p] =>
      if named "AUTH" c then
        match password v with
        | Some q => if p =s q then (set_authed true v, OK) else (v, RErr (lit "WRONGPASS"))
        | None => (v, RErr (lit "ERR no password is set"))
        end
      else if negb (authed v) then (v, RErr (lit "NOAUTH Authentication required."))
      else if named "SELECT" c then (v, OK)
      else if named "GET" c then (v, match kv v !! p with Some x => RBulk x | None => RNil end)
      else if named "DEL" c then (set_kv (delete p (kv v)) v, RInt (if decide (is_Some (kv v !! p)) then 1 else 0))
      else if named "EXISTS" c then (v, RInt (if decide (is_Some (kv v !! p)) then 1 else 0))
      else (v, RErr (lit "ERR unknown command"))
  | c :: k :: x :: _ =>
      if negb (authed v) then (v, RErr (lit "NOAUTH Authentication required."))
      else if named "SET" c then (set_kv (<[k := x]> (kv v)) v, OK)
      else if named "EXPIRE" c then (v, RInt (if decide (is_Some (kv v !! k)) then 1 else 0))
      else (v, RErr (lit "ERR unknown command"))
  | _ => (v, RErr (lit "ERR unknown command"))
  end.
Definition next_fault (v : server) : fault * server :=
  match faults v with [] => (Fine, v) | f :: fs => (f, set_faults fs v) end.
Definition redis_connect (v : server) : server * bool :=
  let (f, v) := next_fault v in
  match f with
  | NoSend => (v, false)
  | _ => (set_authed (match password v with None => true | Some _ => false end) v, true)
  end.
Definition redis_send (v : server) (cmd : bytes) : server * option bytes :=
  let (f, v) := next_fault v in
  match f with
  | NoSend => (v, None)
  | _ =>
      let (v, r) := match read_command cmd with
                    | Some (args, []) => redis_exec args v
                    | _ => (v, RErr (lit "ERR Protocol error"))
                    end in
      (v, Some (match f with Cut k => take k (print r) | _ => print r end))
  end.

End Resp.
