(* ===== verification/RespFacts.v ===== *)
(** Theorems on Resp: the client and the server read what the other writes,
    and sessions on Redis are a map of blobs, whatever the network does. *)

From S2P Require Import Prelude CNum Dsn Http HttpClient Value Resp.
#[local] Open Scope Z_scope.

Module RespFacts.
Import CNum Resp.
#[local] Notation CRLF := Http.CRLF.

(** * Numbers *)

Definition no_break (s : bytes) : Prop := Forall (fun c => (c =c CR) = false /\ (c =c LF) = false) s.

Lemma decimal_isdigit n : 0 <= n -> Forall (fun c => isdigit c = true) (decimal n).
Proof.
  intros Hn. pose proof (dec_go_digits 20 n [] eq_refl Hn) as H. fold (decimal n) in H.
  rewrite forallb_forall in H. apply Forall_forall. intros c Hc%list_elem_of_In. auto.
Qed.
Lemma digit_no_break c : negb (isdigit c) || (negb (c =c CR) && negb (c =c LF)) = true.
Proof. by_chars c. Qed.
Lemma decimal_no_break n : 0 <= n -> no_break (decimal n).
Proof.
  intros Hn. eapply Forall_impl; [by apply decimal_isdigit|]. intros c Hc. pose proof (digit_no_break c) as H.
  rewrite Hc in H. apply andb_true_iff in H as [H1%negb_true_iff H2%negb_true_iff]. done.
Qed.
Lemma dec_go_length fuel n acc : (length (dec_go fuel n acc) <= fuel + length acc)%nat.
Proof.
  revert n acc. induction fuel as [|f IH]; intros n acc; cbn [dec_go]; [lia|]. case_if; cbn [length]; [lia|].
  pose proof (IH (n / 10) (chr (48 + n mod 10) :: acc)). cbn [length] in *. lia.
Qed.
Lemma decimal_length n : (length (decimal n) <= 20)%nat.
Proof. pose proof (dec_go_length 20 n []). cbn in *. unfold decimal. lia. Qed.

Lemma number_decimal n r : 0 <= n < 10 ^ 20 -> redis_number (decimal n ++ CRLF ++ r) = Some (Z.to_nat n, r).
Proof.
  intros Hn. destruct (read_decimal n Hn) as (_ & Hd & Hv). unfold redis_number.
  assert (Hf : forallb (fun c => digit_val c <? 10) (decimal n) = true).
  { apply forallb_forall. intros c Hc%list_elem_of_In. apply isdigit_val.
    pose proof (decimal_isdigit n ltac:(lia)) as H. rewrite Forall_forall in H. auto. }
  assert (Hh : has_digit 10 (decimal n ++ CRLF ++ r) = true) by by destruct (decimal n).
  rewrite Hh, digits_app by done. rewrite <- (app_nil_r (decimal n)), digits_app in Hv by done. cbn [fst] in Hv.
  rewrite Hv. done.
Qed.

(** * The server reads the commands of the client *)

Definition fits (args : list bytes) : Prop :=
  Z.of_nat (length args) < 10 ^ 20 /\ Forall (fun a => Z.of_nat (length a) < 10 ^ 18) args.

Lemma read_bulk_back a r : Z.of_nat (length a) < 10 ^ 18 -> read_bulk_arg (bulk a ++ r) = Some (a, r).
Proof.
  intros H. unfold bulk. rewrite <- !app_assoc. cbn [app list_ascii_of_string read_bulk_arg].
  change ("$" =c "$")%char with true. cbn iota. rewrite number_decimal by lia. cbn [mbind option_bind].
  rewrite Nat2Z.id. rewrite (proj2 (Nat.ltb_ge _ _)) by (rewrite !length_app; change (length CRLF) with 2%nat; lia).
  rewrite drop_app_length. change (take 2 (CRLF ++ r)) with CRLF. rewrite bytes_eqb_refl, take_app_length.
  do 2 f_equal. by rewrite <- drop_drop, drop_app_length.
Qed.
Lemma read_args_back args r : Forall (fun a => Z.of_nat (length a) < 10 ^ 18) args ->
  read_args (length args) (concat (map bulk args) ++ r) = Some (args, r).
Proof.
  induction 1 as [|a args Ha _ IH]; [done|]. cbn [map concat length read_args].
  rewrite <- app_assoc, read_bulk_back by done. cbn [mbind option_bind]. by rewrite IH.
Qed.
Lemma read_command_back args r : fits args -> read_command (command args ++ r) = Some (args, r).
Proof.
  intros [Hn Ha]. unfold command. rewrite <- !app_assoc. cbn [app list_ascii_of_string read_command].
  change ("*" =c "*")%char with true. cbn iota. rewrite number_decimal by lia. cbn [mbind option_bind].
  rewrite Nat2Z.id. by apply read_args_back.
Qed.

(** * The client reads the answers of the server *)

Lemma read_line_text line t r :
  no_break t -> (length line + length t <= RESP_MAX_LINE)%nat ->
  read_line_go line (t ++ CRLF ++ r) = Got (line ++ t) r.
Proof.
  intros H. revert line. induction H as [|c t [Hc1 Hc2] _ IH]; intros line Hl; cbn [app read_line_go].
  - change (CR =c CR) with true. change (LF =c CR) with false. change (LF =c LF) with true. by rewrite app_nil_r.
  - rewrite Hc1, Hc2. cbn [length] in Hl. rewrite (proj2 (Nat.ltb_ge _ _)) by (rewrite length_app; cbn [length]; lia).
    rewrite IH by (rewrite length_app; cbn [length]; lia). by rewrite <- app_assoc.
Qed.

(** More bytes behind what was read change nothing. *)
Definition extends (read : bytes -> reply bytes) : Prop :=
  forall s v r q, read s = Got v r -> read (s ++ q) = Got v (r ++ q).

Lemma extends_line line : extends (read_line_go line).
Proof.
  intros s. revert line. induction s as [|c s IH]; intros line v r q; cbn [app read_line_go]; [done|].
  destruct (c =c CR); [apply IH|]. destruct (c =c LF); [by intros [= -> ->]|]. case_if; [done|apply IH].
Qed.
Lemma extends_bulk mx len : extends (read_bulk mx len).
Proof.
  intros s v r q. unfold read_bulk. destruct (len <? 0); [by intros [= <- <-]|]. destruct (mx <? len); [done|].
  destruct (Nat.ltb_spec (length s) (Z.to_nat len)) as [|Hle]; [done|].
  rewrite (proj2 (Nat.ltb_ge _ _)) by (rewrite length_app; lia). rewrite drop_app_le, take_app_le by done.
  destruct (read_line (drop (Z.to_nat len) s)) as [l x|] eqn:E; [|done]. cbn [rbind]. intros [= <- <-].
  unfold read_line in *. by rewrite (extends_line [] _ _ _ q E).
Qed.
Lemma extends_items read n first : extends read -> extends (read_items read n first).
Proof.
  intros Hr. revert first. induction n as [|n IH]; intros first s v r q; cbn [read_items]; [by intros [= <- <-]|].
  destruct (read s) as [x r1|] eqn:E; [|done]. cbn [rbind]. rewrite (Hr _ _ _ q E). cbn [rbind]. apply IH.
Qed.
Lemma extends_response mx below : extends (read_response_at mx below).
Proof.
  induction below as [|below IH]; intros s v r q; cbn [read_response_at]; [done|].
  destruct (read_line s) as [line r1|] eqn:E; [|done]. unfold read_line in *. rewrite (extends_line [] _ _ _ q E).
  cbn [rbind]. destruct line as [|type payload]; [done|].
  destruct (_ || _); [by intros [= <- <-]|]. destruct (type =c "-"); [done|].
  destruct (type =c "$").
  { destruct (stoll payload) as [len|]; [|done]. destruct (len =? -1); [by intros [= <- <-]|]. apply extends_bulk. }
  destruct (type =c "*"); [|done]. destruct (stoll payload) as [count|]; [|done].
  destruct (count <=? 0); [by intros [= <- <-]|]. destruct (_ <? count); [done|]. by apply extends_items.
Qed.

Definition text_ok (s : bytes) : Prop := no_break s /\ (length s < 1000)%nat.
Definition legal (r : rreply) : Prop :=
  match r with
  | RSimple s | RErr s => text_ok s
  | RInt n => 0 <= n < 10 ^ 18
  | RBulk v => Z.of_nat (length v) < 10 ^ 18
  | RNil => True
  end.
Definition outcome (mx : Z) (r : rreply) (rest : bytes) : reply bytes :=
  match r with
  | RSimple s => Got s rest
  | RErr e => Failed (lit "Redis: " ++ e) rest
  | RInt n => Got (decimal n) rest
  | RBulk v => if mx <? Z.of_nat (length v) then
                 Failed (lit "Redis: bulk response limit exceeded (LOOK_REDIS_MAX_BULK)") (v ++ CRLF ++ rest)
               else Got v rest
  | RNil => Got [] rest
  end.
Lemma read_line_first c t r :
  (c =c CR) = false -> (c =c LF) = false -> no_break t -> (length t < 1000)%nat ->
  read_line (c :: t ++ CRLF ++ r) = Got (c :: t) r.
Proof.
  intros H1 H2 Ht Hl. apply (read_line_text [] (c :: t)); [by constructor|]. cbn [length]. unfold RESP_MAX_LINE. lia.
Qed.
Lemma read_print mx below r rest : legal r ->
  read_response_at mx (S below) (print r ++ rest) = outcome mx r rest.
Proof.
  assert (Hdec : forall n, 0 <= n -> no_break (decimal n) /\ (length (decimal n) < 1000)%nat).
  { intros n Hn. split; [by apply decimal_no_break|]. pose proof (decimal_length n). lia. }
  destruct r as [s|s|n|v|]; cbn [legal print outcome].
  - intros [Hs Hl]. rewrite <- !app_assoc. cbn [app list_ascii_of_string read_response_at].
    by rewrite read_line_first.
  - intros [Hs Hl]. rewrite <- !app_assoc. cbn [app list_ascii_of_string read_response_at].
    by rewrite read_line_first.
  - intros Hn. destruct (Hdec n ltac:(lia)) as [Hs Hl]. rewrite <- !app_assoc.
    cbn [app list_ascii_of_string read_response_at]. by rewrite read_line_first.
  - intros Hv. unfold bulk. destruct (Hdec (Z.of_nat (length v)) ltac:(lia)) as [Hs Hl].
    rewrite <- !app_assoc. cbn [app list_ascii_of_string read_response_at]. rewrite read_line_first by done.
    cbn [rbind]. change ("$" =c "+")%char with false. change ("$" =c ":")%char with false.
    change ("$" =c "-")%char with false. change ("$" =c "$")%char with true. cbn [orb].
    rewrite stoll_decimal by (unfold INT64_MAX; lia). rewrite (proj2 (Z.eqb_neq _ _)) by lia.
    unfold read_bulk. rewrite (proj2 (Z.ltb_ge _ _)) by lia. destruct (mx <? _); [done|].
    rewrite Nat2Z.id, (proj2 (Nat.ltb_ge _ _)) by (rewrite length_app; lia).
    rewrite drop_app_length, take_app_length. unfold read_line.
    change (CRLF ++ rest) with ([] ++ CRLF ++ rest). rewrite read_line_text; [done|constructor|cbn [length]; lia].
  - intros _. done.
Qed.

(** An answer that is cut is an exception. *)
Lemma cut_fails mx below r k v x : legal r -> 
  read_response_at mx (S below) (take k (print r)) = Got v x -> take k (print r) = print r.
Proof.
  intros Hl H. pose proof (extends_response mx (S below) _ _ _ (drop k (print r)) H) as He.
  rewrite take_drop in He. pose proof (read_print mx below r [] Hl) as Hp. rewrite app_nil_r, He in Hp.
  assert (Hx : x ++ drop k (print r) = []).
  { destruct r as [s|s|n|t|]; cbn [outcome] in Hp; try (destruct (_ <? _)); congruence. }
  apply app_nil in Hx as [_ Hx]. rewrite <- (take_drop k (print r)) at 2. by rewrite Hx, app_nil_r.
Qed.

(** * A call *)

Section Session.
Context (mx : Z).
Notation call := (call mx redis_send).

Lemma call_cases args v v0 v1 r :
  fits args -> (next_fault v).2 = v0 -> redis_exec args v0 = (v1, r) -> legal r ->
  (exists x, call args (v, []) = ((v1, []), inl x) /\ outcome mx r [] = Got x []) \/
  (exists c e, call args (v, []) = (c, inr e) /\ (c.1 = v0 \/ c.1 = v1)).
Proof.
  intros Hf Hv E Hl. unfold Resp.call, redis_send. cbn [fst snd].
  destruct (next_fault v) as [f w]. cbn [snd] in Hv. subst w.
  pose proof (read_command_back args [] Hf) as Hc. rewrite app_nil_r in Hc.
  assert (Hread : forall k, match read_response mx (take k (print r)) with
    | Got x rest => rest = [] /\ outcome mx r [] = Got x []
    | Failed _ _ => True end).
  { intros k. destruct (read_response mx (take k (print r))) as [x rest|] eqn:Er; [|done].
    unfold read_response in Er. pose proof (cut_fails _ _ _ _ _ _ Hl Er) as Hk. rewrite Hk in Er.
    pose proof (read_print mx RESP_MAX_DEPTH r [] Hl) as Hp. rewrite app_nil_r, Er in Hp.
    destruct r; cbn [outcome] in *; try (destruct (_ <? _)); by simplify_eq. }
  destruct f as [| |k]; rewrite ?Hc, ?E; [|right; eexists _, _; split; [done|by left]|].
  all: cbn [app].
  1: specialize (Hread (length (print r))); rewrite take_ge in Hread by done.
  2: specialize (Hread k).
  all: destruct (read_response mx _) as [x rest|e rest]; [destruct Hread as [-> Ho]; left; by eexists|].
  all: right; eexists _, _; split; [done|by right].
Qed.
(** Without faults *)
Lemma call_fine args v v1 r : faults v = [] -> fits args -> redis_exec args v = (v1, r) -> legal r ->
  call args (v, []) =
  match outcome mx r [] with
  | Got x rest => ((v1, rest), inl x)
  | Failed e rest => ((v1, rest), inr e)
  end.
Proof.
  intros Hn Hf E Hl. unfold Resp.call, redis_send, next_fault. cbn [fst snd]. rewrite Hn.
  pose proof (read_command_back args [] Hf) as Hc. rewrite app_nil_r in Hc. rewrite Hc, E.
  cbn [app]. unfold read_response.
  pose proof (read_print mx RESP_MAX_DEPTH r [] Hl) as Hp. rewrite app_nil_r in Hp. by rewrite Hp.
Qed.
Lemma exec_frame args v : password (redis_exec args v).1 = password v /\ faults (redis_exec args v).1 = faults v.
Proof.
  unfold redis_exec. destruct args as [|c [|p [|x l]]]; [done..| |];
    repeat (case_if || case_match); done.
Qed.

(** * Connections *)

Definition password_ok (u : RedisUrl) (v : server) : Prop :=
  match password v with Some p => pass u = p /\ p <> [] | None => pass u = [] end.
Definition url_ok (u : RedisUrl) : Prop := Z.of_nat (length (pass u)) < 10 ^ 18.
Definition values_ok (v : server) : Prop := map_Forall (fun _ x => Z.of_nat (length x) < 10 ^ 18) (kv v).
(** No connection, or one on which everything was read *)
Definition in_step (u : RedisUrl) (s : store) : Prop :=
  password_ok u s.1 /\ values_ok s.1 /\ (s.2 = None \/ s.2 = Some [] /\ authed s.1 = true).
(** The same data and password *)
Definition same (v v' : server) : Prop := kv v' = kv v /\ password v' = password v.

Lemma next_same v : same v (next_fault v).2 /\ authed (next_fault v).2 = authed v.
Proof. unfold same, next_fault. by destruct (faults v). Qed.
Lemma next_none v : faults v = [] -> next_fault v = (Fine, v).
Proof. unfold next_fault. by intros ->. Qed.
Lemma fits_two c p : Z.of_nat (length c) < 10 ^ 18 -> Z.of_nat (length p) < 10 ^ 18 -> fits [c; p].
Proof. intros H1 H2. split; [done|by repeat constructor]. Qed.
Lemma int_text_small z : Z.of_nat (length (Value.int_to_string z)) < 10 ^ 18.
Proof.
  unfold Value.int_to_string. pose proof (decimal_length z). pose proof (decimal_length (- z)).
  destruct (z <? 0); cbn [length]; lia.
Qed.
Lemma ok_text : legal OK.
Proof. split; [by repeat constructor|cbn; lia]. Qed.

Lemma same_data_trans v1 v2 v3 : same v1 v2 -> same v2 v3 -> same v1 v3.
Proof. intros [] []. split; congruence. Qed.
Lemma same_password u v v' : same v v' -> password_ok u v -> password_ok u v'.
Proof. unfold password_ok. intros [_ ->]. done. Qed.
Lemma exec_faults args v v1 r : redis_exec args v = (v1, r) -> faults v1 = faults v.
Proof. intros E. destruct (exec_frame args v) as [_ H]. by rewrite E in H. Qed.

(** A command that changes no data and that the server answers with OK *)
Lemma call_ok args v :
  fits args ->
  (forall v0, same v v0 -> authed v0 = authed v -> exists v1, redis_exec args v0 = (v1, OK) /\ same v0 v1 /\ authed v1 = true) ->
  exists v' r x, call args (v, []) = ((v', r), x) /\ same v v' /\
    (x = inl (lit "OK") /\ r = [] /\ authed v' = true \/ exists e, x = inr e) /\
    (faults v = [] -> x = inl (lit "OK") /\ faults v' = []).
Proof.
  intros Hf Hx. destruct (next_same v) as [Hs Ha]. destruct (Hx _ Hs Ha) as (v1 & E & Hs1 & Ha1).
  assert (Hn : faults v = [] -> exists v2, call args (v, []) = ((v2, []), inl (lit "OK")) /\ faults v2 = []).
  { intros Hn. destruct (Hx v) as (v2 & E2 & _); [by split|done|]. exists v2.
    rewrite (call_fine args v v2 OK Hn Hf E2 ok_text), (exec_faults _ _ _ _ E2). done. }
  destruct (call_cases args v _ v1 OK Hf eq_refl E ok_text) as [(x & Hc & Hx1)|([v' r] & e & Hc & Hv)].
  - exists v1, [], (inl x). cbn in Hx1. injection Hx1 as <-. split; [done|]. split; [by eapply same_data_trans|]. split; [auto|].
    intros H. destruct (Hn H) as (v2 & Hc2 & H2). rewrite Hc in Hc2. by simplify_eq.
  - exists v', r, (inr e). split; [done|].
    assert (Hs' : same v v') by (cbn in Hv; destruct Hv as [->| ->]; [done|by eapply same_data_trans]).
    split; [done|]. split; [eauto|]. intros H. destruct (Hn H) as (v2 & Hc2 & _). rewrite Hc in Hc2. by simplify_eq.
Qed.

Lemma connect_cases u v : url_ok u -> password_ok u v ->
  exists v' x, connect mx redis_connect redis_send u v = (v', x) /\ same v v' /\
    (forall s, x = inl s -> s = [] /\ authed v' = true) /\ (faults v = [] -> (exists s, x = inl s) /\ faults v' = []).
Proof.
  intros Hu Hp. unfold connect, redis_connect.
  destruct (next_same v) as [Hs _]. pose proof (next_none v) as Hnn. destruct (next_fault v) as [f v0]. cbn [snd] in Hs.
  assert (Hf0 : faults v = [] -> f = Fine /\ v0 = v) by (intros H; apply Hnn in H; by simplify_eq).
  assert (Hgo : forall w, same v w -> authed w = match password v with None => true | Some _ => false end ->
    (faults v = [] -> faults w = []) -> exists v' x,
    (let '((w, s), auth) := if pass u =s [] then ((w, []), inl (lit "OK")) else call [lit "AUTH"; pass u] (w, []) in
     match auth with
     | inr e => (w, inr e)
     | inl r => if negb (r =s lit "OK") then (w, inr (lit "Redis AUTH failed"))
        else if db u =? 0 then (w, inl s)
        else let '((w, s), r) := call [lit "SELECT"; Value.int_to_string (db u)] (w, s) in
             (w, match r with inl _ => inl s | inr e => inr e end)
     end) = (v', x) /\ same v v' /\ (forall s, x = inl s -> s = [] /\ authed v' = true) /\
     (faults v = [] -> (exists s, x = inl s) /\ faults v' = [])).
  { intros w Hw Ha Hfw.
    assert (Hauth : exists w1 r x, (if pass u =s [] then ((w, []), inl (lit "OK")) else call [lit "AUTH"; pass u] (w, [])) = ((w1, r), x)
      /\ same v w1 /\ (x = inl (lit "OK") /\ r = [] /\ authed w1 = true \/ exists e, x = inr e)
      /\ (faults v = [] -> x = inl (lit "OK") /\ faults w1 = [])).
    { destruct (bytes_eqb_spec (pass u) []) as [Ep|Ep].
      - exists w, [], (inl (lit "OK")). split; [done|]. split; [done|]. split; [|auto]. left.
        rewrite Ha. unfold password_ok in Hp. destruct (password v) as [p|]; [|done]. destruct Hp as [<- ?]. done.
      - destruct (call_ok [lit "AUTH"; pass u] w) as (w1 & r & x & Hc & Hs1 & Hx & Hn).
        + by apply fits_two.
        + intros v1 H1 _. assert (Hp1 : password_ok u v1) by (eapply same_password; [|exact Hp]; by eapply same_data_trans).
          unfold password_ok in Hp1. exists (set_authed true v1). unfold redis_exec.
          change (named "AUTH" (lit "AUTH")) with true. cbn iota. destruct (password v1) as [p|]; [|done].
          destruct Hp1 as [<- _]. by rewrite bytes_eqb_refl.
        + exists w1, r, x. split; [done|]. split; [by eapply same_data_trans|]. split; [done|]. auto. }
    destruct Hauth as (w1 & r & x & -> & Hs1 & Hx & Hn). destruct Hx as [(-> & -> & Ha1)|[e ->]].
    2:{ exists w1, (inr e). split; [done|]. split; [done|]. split; [done|]. intros H. by destruct (Hn H). }
    change (lit "OK" =s lit "OK") with true. cbn [negb]. destruct (db u =? 0).
    { exists w1, (inl []). split; [done|]. split; [done|]. split; [by intros s [= <-]|].
      intros H. destruct (Hn H). eauto. }
    destruct (call_ok [lit "SELECT"; Value.int_to_string (db u)] w1) as (w2 & r & x & Hc & Hs2 & Hx & Hn2).
    - apply fits_two; [done|apply int_text_small].
    - intros v1 _ H1. exists v1. unfold redis_exec. by rewrite H1, Ha1.
    - rewrite Hc. exists w2. destruct Hx as [(-> & -> & Ha2)|[e ->]].
      + exists (inl []). split; [done|]. split; [by eapply same_data_trans|]. split; [by intros s [= <-]|].
        intros H. destruct (Hn H) as [_ H1]. destruct (Hn2 H1). eauto.
      + exists (inr e). split; [done|]. split; [by eapply same_data_trans|]. split; [done|].
        intros H. destruct (Hn H) as [_ H1]. by destruct (Hn2 H1). }
  destruct f; cbn [negb];
    [apply Hgo; [done|by rewrite (proj2 Hs)|by intros H; destruct (Hf0 H) as [_ ->]]| |
     apply Hgo; [done|by rewrite (proj2 Hs)|by intros H; destruct (Hf0 H) as [_ ->]]].
  exists v0, (inr (lit "Redis: cannot connect")). split; [done|]. split; [done|]. split; [done|].
  intros H. by destruct (Hf0 H).
Qed.

(** * Sessions *)

Lemma session_cases u args v c :
  url_ok u -> in_step u (v, c) -> fits args ->
  (forall w, same v w -> authed w = true -> legal (redis_exec args w).2) ->
  exists v' c' x, session_call mx redis_connect redis_send u (call args) (v, c) = ((v', c'), x) /\
    ((x = None /\ c' = None /\ same v v' /\ faults v <> []) \/
     exists w, same v w /\ authed w = true /\ (faults v = [] -> faults w = []) /\ v' = (redis_exec args w).1 /\
       ((exists y, x = Some y /\ outcome mx (redis_exec args w).2 [] = Got y [] /\ c' = Some []) \/
        (x = None /\ c' = None /\ (faults v = [] -> exists e r, outcome mx (redis_exec args w).2 [] = Failed e r)))).
Proof.
  intros Hu (Hp & _ & Hc) Hf Hl. cbn [fst snd] in *. unfold session_call. cbn [fst snd].
  assert (Hgo : forall w, same v w -> authed w = true -> (faults v = [] -> faults w = []) ->
    exists v' c' x, (let '((w, r), y) := call args (w, []) in
      match y with inl y => ((w, Some r), Some y) | inr _ => ((w, None), None) end) = ((v', c'), x) /\
    ((x = None /\ c' = None /\ same v v' /\ faults v <> []) \/
     exists w, same v w /\ authed w = true /\ (faults v = [] -> faults w = []) /\ v' = (redis_exec args w).1 /\
       ((exists y, x = Some y /\ outcome mx (redis_exec args w).2 [] = Got y [] /\ c' = Some []) \/
        (x = None /\ c' = None /\ (faults v = [] -> exists e r, outcome mx (redis_exec args w).2 [] = Failed e r))))).
  { intros w Hw Ha Hn. destruct (next_same w) as [Hs Ha0]. set (w0 := (next_fault w).2) in *.
    assert (Hw0 : same v w0) by by eapply same_data_trans. assert (Ha1 : authed w0 = true) by congruence.
    assert (Hfw : faults v = [] -> faults w0 = []) by (intros H; unfold w0; rewrite next_none by auto; auto).
    assert (Hfine : faults v = [] -> w0 = w) by (intros H; unfold w0; by rewrite next_none by auto).
    destruct (redis_exec args w0) as [v1 r] eqn:E. pose proof (Hl w0 Hw0 Ha1) as Hr. rewrite E in Hr. cbn [snd] in Hr.
    assert (HC : faults v = [] -> call args (w, []) = match outcome mx r [] with
        | Got y q => ((v1, q), inl y) | Failed e q => ((v1, q), inr e) end).
    { intros H. apply call_fine; [auto|done| |done]. rewrite <- (Hfine H). exact E. }
    destruct (call_cases args w w0 v1 r Hf eq_refl E Hr) as [(y & Hc1 & Ho)|([v' q] & e & Hc1 & Hv)]; rewrite Hc1.
    - exists v1, (Some []), (Some y). split; [done|]. right. exists w0. rewrite E. cbn [fst snd]. split; [done|]. split; [done|]. split; [done|]. split; [done|].
      left. by exists y.
    - exists v', None, None. split; [done|]. cbn [fst] in Hv.
      destruct (outcome mx r []) as [y q'|e' q'] eqn:Ho.
      + destruct (decide (faults v = [])) as [H|H]; [rewrite (HC H) in Hc1; done|].
        destruct Hv as [->| ->]; [by left|]. right. exists w0. rewrite E. cbn [fst snd]. split; [done|]. split; [done|]. split; [done|]. split; [done|]. by right.
      + destruct (decide (faults v = [])) as [H|H].
        * right. exists w0. rewrite E. cbn [fst snd]. split; [done|]. split; [done|]. split; [done|]. rewrite (HC H) in Hc1. injection Hc1 as -> _ _.
          split; [done|]. right. rewrite Ho. eauto.
        * destruct Hv as [->| ->]; [by left|]. right. exists w0. rewrite E. cbn [fst snd]. split; [done|]. split; [done|]. split; [done|]. split; [done|].
          right. rewrite Ho. eauto. }
  destruct Hc as [->|[-> Ha]].
  - destruct (connect_cases u v Hu Hp) as (w & x & -> & Hs & Hx & Hn). destruct x as [r|e].
    + destruct (Hx r eq_refl) as [-> Ha]. apply Hgo; [done|done|]. intros H. by apply Hn.
    + exists w, None, None. split; [done|]. left. repeat split; [apply Hs|apply Hs|].
      intros H. by destruct (Hn H) as [[s Hs'] _].
  - by apply Hgo.
Qed.

Lemma exec_get k w : authed w = true ->
  redis_exec [lit "GET"; k] w = (w, match kv w !! k with Some x => RBulk x | None => RNil end).
Proof. intros H. unfold redis_exec. by rewrite H. Qed.
Lemma exec_del k w : authed w = true -> exists n, 0 <= n <= 1 /\ redis_exec [lit "DEL"; k] w = (set_kv (delete k (kv w)) w, RInt n).
Proof. intros H. unfold redis_exec. rewrite H. eexists. split; [|reflexivity]. case_decide; lia. Qed.
Lemma exec_set k x ttl w : authed w = true ->
  redis_exec (if 0 <? ttl then [lit "SET"; k; x; lit "EX"; Value.int_to_string ttl] else [lit "SET"; k; x]) w
  = (set_kv (<[k := x]> (kv w)) w, OK).
Proof. intros H. unfold redis_exec. destruct (0 <? ttl); by rewrite H. Qed.

Lemma in_step_after u v w args c' :
  in_step u (v, None) -> same v w -> values_ok (redis_exec args w).1 ->
  c' = None \/ c' = Some [] /\ authed (redis_exec args w).1 = true -> in_step u ((redis_exec args w).1, c').
Proof.
  intros (Hp & _ & _) Hs Hv Hc. split; [|by split]. unfold password_ok in *. cbn [fst] in *.
  destruct (exec_frame args w) as [-> _]. by rewrite (proj2 Hs).
Qed.
Lemma in_step_same u v v' c : in_step u (v, c) -> same v v' -> in_step u (v', None).
Proof.
  intros (Hp & Hv & _) Hs. split; [by eapply same_password|]. split; [|by left]. unfold values_ok in *. cbn [fst] in *.
  by rewrite (proj1 Hs).
Qed.

Section Calls.
Context (u : RedisUrl) (v : server) (c : option bytes) (sid : bytes).
Context (Hu : url_ok u) (Hs : in_step u (v, c)) (Hk : Z.of_nat (length sid) < 10 ^ 17).

Lemma key_small : Z.of_nat (length (sess_key sid)) < 10 ^ 18.
Proof. unfold sess_key. rewrite length_app. change (length (lit "look_sess:")) with 10%nat. lia. Qed.
Lemma in_step_dropped : in_step u (v, None).
Proof. destruct Hs as (H1 & H2 & _). split; [done|split; [done|by left]]. Qed.
Lemma values_small : map_Forall (fun _ x => Z.of_nat (length x) < 10 ^ 18) (kv v).
Proof. apply Hs. Qed.

Lemma redis_load :
  let '(s', x) := sess_load mx redis_connect redis_send u sid (v, c) in
  in_step u s' /\ kv s'.1 = kv v /\ (x = [] \/ kv v !! sess_key sid = Some x) /\
  (faults v = [] -> faults s'.1 = [] /\
    (Z.of_nat (length (default [] (kv v !! sess_key sid))) <= mx -> x = default [] (kv v !! sess_key sid))).
Proof.
  pose proof in_step_dropped as Hn. pose proof values_small as Hv. pose proof key_small as Hkey. set (k := sess_key sid) in *.
  unfold sess_load, Resp.get. fold k. destruct (session_cases u [lit "GET"; k] v c Hu Hs) as (v' & c' & x & -> & H).
  { by apply fits_two. }
  { intros w Hw Ha. rewrite exec_get by done. cbn [snd]. rewrite (proj1 Hw).
    destruct (kv v !! k) as [y|] eqn:E; [|done]. by apply Hv in E. }
  destruct H as [(-> & -> & Hvv & Hf)|(w & Hw & Ha & Hfw & Hv' & H)].
  { split; [by eapply in_step_same|]. split; [apply Hvv|]. split; [by left|done]. }
  rewrite exec_get in * by done. cbn [fst snd] in *. subst v'. rewrite (proj1 Hw) in H.
  assert (Hst : forall q, q = None \/ q = Some [] /\ authed w = true -> in_step u (w, q)).
  { intros q Hq. pose proof (in_step_after u v w [lit "GET"; k] q Hn Hw) as Hin. rewrite exec_get in Hin by done.
    apply Hin; [|done]. unfold values_ok. cbn [fst]. by rewrite (proj1 Hw). }
  destruct H as [(y & -> & Ho & ->)|(-> & -> & Hf)]; cbn [default].
  + split; [apply Hst; by right|]. split; [apply Hw|].
    destruct (kv v !! k) as [z|] eqn:E; cbn [outcome] in Ho; [|injection Ho as <-; auto].
    destruct (mx <? Z.of_nat (length z)); [done|]. injection Ho as <-. auto.
  + split; [apply Hst; by left|]. split; [apply Hw|]. split; [by left|]. intros Hff. split; [auto|]. intros Hle.
    destruct (Hf Hff) as (e & r & Ho).
    destruct (kv v !! k) as [z|] eqn:E; cbn [outcome default] in *; [|done].
    unfold id in Hle. destruct (Z.ltb_spec mx (Z.of_nat (length z))); [lia|done].
Qed.
Lemma redis_store ttl blob : Z.of_nat (length blob) < 10 ^ 18 ->
  let s' := sess_store mx redis_connect redis_send u ttl sid blob (v, c) in
  in_step u s' /\ (kv s'.1 = kv v \/ kv s'.1 = <[sess_key sid := blob]> (kv v)) /\
  (faults v = [] -> faults s'.1 = [] /\ kv s'.1 = <[sess_key sid := blob]> (kv v)).
Proof.
  intros Hb. pose proof in_step_dropped as Hn. pose proof values_small as Hv. pose proof key_small as Hkey. set (k := sess_key sid) in *.
  cbv zeta. unfold sess_store, Resp.set. fold k. set (args := if 0 <? ttl then _ else _).
  assert (He : forall w, authed w = true -> redis_exec args w = (set_kv (<[k := blob]> (kv w)) w, OK)) by (intros w; apply exec_set).
  destruct (session_cases u args v c Hu Hs) as (v' & c' & x & -> & H).
  { unfold args. pose proof (int_text_small ttl). destruct (0 <? ttl); (split; [done|by repeat constructor]). }
  { intros w _ Ha. rewrite He by done. apply ok_text. }
  cbn [fst snd]. destruct H as [(-> & -> & Hvv & Hf)|(w & Hw & Ha & Hfw & -> & H)].
  { split; [by eapply in_step_same|]. split; [left; apply Hvv|done]. }
  assert (Hst : forall q, q = None \/ q = Some [] -> in_step u ((redis_exec args w).1, q)).
  { intros q Hq. apply (in_step_after u v); [done|done| |].
    - rewrite He by done. unfold values_ok. cbn [fst set_kv kv]. rewrite (proj1 Hw). by apply map_Forall_insert_2.
    - rewrite He by done. destruct Hq as [->| ->]; [by left|by right]. }
  destruct (exec_frame args w) as [_ Hfe].
  assert (Hkv : kv (redis_exec args w).1 = <[k := blob]> (kv v)) by (rewrite He by done; cbn [fst set_kv kv]; by rewrite (proj1 Hw)).
  rewrite <- Hfe in Hfw. destruct H as [(y & -> & _ & ->)|(-> & -> & _)]; (split; [apply Hst; auto|auto]).
Qed.
Lemma redis_remove :
  let s' := sess_remove mx redis_connect redis_send u sid (v, c) in
  in_step u s' /\ (kv s'.1 = kv v \/ kv s'.1 = delete (sess_key sid) (kv v)) /\
  (faults v = [] -> faults s'.1 = [] /\ kv s'.1 = delete (sess_key sid) (kv v)).
Proof.
  pose proof in_step_dropped as Hn. pose proof values_small as Hv. pose proof key_small as Hkey. set (k := sess_key sid) in *.
  cbv zeta. unfold sess_remove, Resp.del. fold k.
  destruct (session_cases u [lit "DEL"; k] v c Hu Hs) as (v' & c' & x & -> & H).
  { by apply fits_two. }
  { intros w _ Ha. destruct (exec_del k w Ha) as (n & Hn1 & ->). cbn. lia. }
  cbn [fst snd]. destruct H as [(-> & -> & Hvv & Hf)|(w & Hw & Ha & Hfw & -> & H)].
  { split; [by eapply in_step_same|]. split; [left; apply Hvv|done]. }
  destruct (exec_del k w Ha) as (n & Hn1 & He).
  assert (Hst : forall q, q = None \/ q = Some [] -> in_step u ((redis_exec [lit "DEL"; k] w).1, q)).
  { intros q Hq. apply (in_step_after u v); [done|done| |]; rewrite He.
    - unfold values_ok. cbn [fst set_kv kv]. rewrite (proj1 Hw). by apply map_Forall_delete.
    - destruct Hq as [->| ->]; [by left|by right]. }
  destruct (exec_frame [lit "DEL"; k] w) as [_ Hfe].
  assert (Hkv : kv (redis_exec [lit "DEL"; k] w).1 = delete k (kv v)) by (rewrite He; cbn [fst set_kv kv]; by rewrite (proj1 Hw)).
  rewrite <- Hfe in Hfw. destruct H as [(y & -> & _ & ->)|(-> & -> & _)]; (split; [apply Hst; auto|auto]).
Qed.
End Calls.

(** Sessions on Redis are a map from identifiers to blobs, whatever the
    network does: connections that fail, writes that fail and answers cut at
    any byte. A load changes nothing and gives the blob of its own identifier
    or nothing, never another answer; a store or a removal happens or not; and
    the next call starts in step with the server. Without faults each call does
    exactly what it says. *)
Theorem redis_sessions u v c sid blob ttl :
  url_ok u -> in_step u (v, c) ->
  Z.of_nat (length sid) < 10 ^ 17 -> Z.of_nat (length blob) < 10 ^ 18 ->
  (let '(s', x) := sess_load mx redis_connect redis_send u sid (v, c) in
   in_step u s' /\ kv s'.1 = kv v /\ (x = [] \/ kv v !! sess_key sid = Some x) /\
   (faults v = [] -> faults s'.1 = [] /\
     (Z.of_nat (length (default [] (kv v !! sess_key sid))) <= mx -> x = default [] (kv v !! sess_key sid)))) /\
  (let s' := sess_store mx redis_connect redis_send u ttl sid blob (v, c) in
   in_step u s' /\ (kv s'.1 = kv v \/ kv s'.1 = <[sess_key sid := blob]> (kv v)) /\
   (faults v = [] -> faults s'.1 = [] /\ kv s'.1 = <[sess_key sid := blob]> (kv v))) /\
  (let s' := sess_remove mx redis_connect redis_send u sid (v, c) in
   in_step u s' /\ (kv s'.1 = kv v \/ kv s'.1 = delete (sess_key sid) (kv v)) /\
   (faults v = [] -> faults s'.1 = [] /\ kv s'.1 = delete (sess_key sid) (kv v))).
Proof.
  intros Hu Hs Hk Hb. split; [|split]; [by apply redis_load|by apply redis_store|by apply redis_remove].
Qed.

End Session.

Definition demo_url : RedisUrl := parse_url (lit "redis://:pa?ss@cache.example:6380/2?tls=1").
Example demo_url_parts : demo_url = MkUrl (lit "cache.example") 6380 (lit "pa?ss") 2 true true.
Proof. reflexivity. Qed.
Definition demo_sid : bytes := lit "0123456789abcdef0123456789abcdef".
(** The answer to SELECT arrives, the answer to GET is cut behind five bytes. *)
Definition demo_server : server :=
  MkServer {[sess_key demo_sid := lit "role=user"]} (Some (lit "pa?ss")) false [Fine; Fine; Fine; Cut 5].

Lemma redis_sessions_witness :
  let '(s', x) := sess_load 1000 redis_connect redis_send demo_url demo_sid (demo_server, None) in
  in_step demo_url s' /\ kv s'.1 = kv demo_server /\ (x = [] \/ kv demo_server !! sess_key demo_sid = Some x) /\
  (faults demo_server = [] -> faults s'.1 = [] /\
    (Z.of_nat (length (default [] (kv demo_server !! sess_key demo_sid))) <= 1000 -> x = default [] (kv demo_server !! sess_key demo_sid))).
Proof.
  assert (H1 : url_ok demo_url) by (unfold url_ok; vm_compute; reflexivity).
  assert (H2 : in_step demo_url (demo_server, None)).
  { split; [split; [reflexivity|discriminate]|]. split; [|by left]. unfold values_ok, demo_server. cbn [fst kv]. apply map_Forall_singleton. vm_compute. reflexivity. }
  assert (H3 : Z.of_nat (length demo_sid) < 10 ^ 17) by (vm_compute; reflexivity).
  assert (H4 : Z.of_nat (length (lit "role=admin")) < 10 ^ 18) by (vm_compute; reflexivity).
  exact (proj1 (redis_sessions 1000 demo_url demo_server None demo_sid (lit "role=admin") 60 H1 H2 H3 H4)).
Defined.

(** The load that is cut, and the next one on a new connection *)
Example cut_then_read :
  let '(s, x) := sess_load 1000 redis_connect redis_send demo_url demo_sid (demo_server, None) in
  x = [] /\ s.2 = None /\ (sess_load 1000 redis_connect redis_send demo_url demo_sid s).2 = lit "role=user".
Proof. vm_compute. auto. Qed.
(** A connection that was kept after an answer was cut would read the rest of
    it as the next answer. *)
Example rest_of_an_answer :
  (call 1000 (fun w _ => (w, Some (lit "lo" ++ CRLF ++ print (RBulk (lit "mine"))))) [lit "GET"; lit "k"] (tt, lit "+hel")).2
  = inl (lit "hello").
Proof. reflexivity. Qed.

End RespFacts.
