(* ===== verification/Sessions.v ===== *)
(** The script module [session] of cpp/src/web_stdlib.cpp
    ([make_session_module]), over any storage of blobs; the storage on Redis is
    one.

    The random bytes of the system are a parameter. *)

From S2P Require Import Prelude CNum SessionEsc Value Resp RespFacts.
#[local] Open Scope Z_scope.

(** * Storage

    [sess_load], [sess_store] and [sess_remove], and what they promise: [blob]
    is what is stored for an identifier, [ready] the states they keep and [fits_blob] the
    blobs they can hold. *)
Class Storage (S : Type) := {
  load : bytes -> S -> S * bytes;
  store : bytes -> bytes -> S -> S;
  remove : bytes -> S -> S }.
Class StorageLaws (S : Type) `{Storage S} := {
  ready : S -> Prop;
  blob : S -> bytes -> bytes;
  fits_blob : bytes -> Prop;
  blob_fits s sid : ready s -> fits_blob (blob s sid);
  load_law sid s : ready s -> Session.valid_sid sid = true ->
    ready (load sid s).1 /\ (load sid s).2 = blob s sid /\ forall x, blob (load sid s).1 x = blob s x;
  store_law sid b s : ready s -> Session.valid_sid sid = true -> fits_blob b ->
    ready (store sid b s) /\ forall x, blob (store sid b s) x = if bool_decide (x = sid) then b else blob s x;
  remove_law sid s : ready s -> Session.valid_sid sid = true ->
    ready (remove sid s) /\ forall x, blob (remove sid s) x = if bool_decide (x = sid) then [] else blob s x }.

Module Sessions.
Import Session Value.

(** * The module *)

(** The cookie LOOK_SESSION, the header values to send, the identifiers drawn *)
Record context := MkCtx { cookie : option bytes; set_cookies : list bytes; drawn : nat }.

Section Module_.
Context {S : Type} `{Storage S}.
(** What is read from /dev/urandom for each identifier *)
Context (urandom : nat -> bytes).
(** LOOK_SESSION_SECURE, and whether the request came over HTTPS *)
Context (secure_mode : option bool) (is_https : bool).
Context (L : Lib) (depth : nat) (h : heap).

Definition session_secure_attr : bytes :=
  match secure_mode with
  | Some b => if b then lit "; Secure" else []
  | None => if is_https then lit "; Secure" else []
  end.
Definition sid_digit (z : Z) : ascii := default NUL (lit "0123456789abcdef" !! Z.to_nat z).
(** 16 bytes, two digits each; [None] throws. *)
Definition gen_session_id (n : nat) : option bytes :=
  let b := urandom n in
  if (length b =? 16)%nat
  then Some (concat (map (fun c => [sid_digit (Z.land (Z.shiftr (ord c) 4) 15); sid_digit (Z.land (ord c) 15)]) b))
  else None.
Definition valid_cookie (c : context) : option bytes :=
  match cookie c with Some sid => if valid_sid sid then Some sid else None | None => None end.
(** A new identifier goes into the cookie of the request and of the answer. *)
Definition new_sid (c : context) : context * res bytes :=
  match gen_session_id (drawn c) with
  | None => (c, Exn (lit "session: could not obtain secure randomness (/dev/urandom)"))
  | Some sid =>
      (MkCtx (Some sid)
         (set_cookies c ++ [lit "LOOK_SESSION=" ++ sid ++ lit "; Path=/; HttpOnly" ++ session_secure_attr ++ lit "; SameSite=Lax"])
         (Datatypes.S (drawn c)), Ret sid)
  end.

Definition state : Type := context * S.
Definition session_start (st : state) : state * res Value :=
  match valid_cookie st.1 with
  | Some sid => (st, Ret (STRING sid))
  | None => let (c, r) := new_sid st.1 in ((c, st.2), match r with Ret sid => Ret (STRING sid) | Exn e => Exn e | Undef => Undef end)
  end.
Definition session_regenerate (st : state) : state * res Value :=
  let '(s, b) := match valid_cookie st.1 with
                 | Some sid => let (s, b) := load sid st.2 in (remove sid s, b)
                 | None => (st.2, [])
                 end in
  let (c, r) := new_sid st.1 in
  match r with
  | Ret sid => ((c, if b =s [] then s else store sid b s), Ret (STRING sid))
  | Exn e => ((c, s), Exn e)
  | Undef => ((c, s), Undef)
  end.
(** The key is turned into text before the value; C++ leaves that order open. *)
Definition session_set (args : list Value) (st : state) : state * res Value :=
  match args with
  | key :: val :: _ =>
      match val with
      | STRING _ | INT _ | FLOAT _ | BOOL _ | NONE =>
          match valid_cookie st.1 with
          | None => (st, Ret NONE)
          | Some sid =>
              let (s, b) := load sid st.2 in
              match to_string L depth h key, to_string L depth h val with
              | Ret k, Ret v => ((st.1, store sid (sess_blob_set b k v) s), Ret NONE)
              | Exn e, _ | _, Exn e => ((st.1, s), Exn e)
              | _, _ => ((st.1, s), Undef)
              end
          end
      | ARRAY _ => (st, Exn (lit "session::set() — session values are strings; JSON-encode a structure first, e.g. session::set(key, json::encode(value)) and json::decode(session::get(key))"))
      | _ => (st, Exn (lit "session::set() — session values must be a string or number"))
      end
  | _ => (st, Ret NONE)
  end.
(** [sess_load] and [sess_blob_get] of the key *)
Definition lookup_key (key : Value) (sid : bytes) (st : state) : state * res (option bytes) :=
  let (s, b) := load sid st.2 in
  ((st.1, s), match to_string L depth h key with
              | Ret k => Ret (sess_blob_get b k)
              | Exn e => Exn e
              | Undef => Undef
              end).
Definition session_get (args : list Value) (st : state) : state * res Value :=
  match args with
  | [] => (st, Ret NONE)
  | key :: rest =>
      match valid_cookie st.1 with
      | None => (st, Ret NONE)
      | Some sid =>
          let (st, r) := lookup_key key sid st in
          (st, match r with
               | Ret (Some v) => Ret (STRING v)
               | Ret None => Ret match rest with d :: _ => d | [] => NONE end
               | Exn e => Exn e
               | Undef => Undef
               end)
      end
  end.
Definition session_has (args : list Value) (st : state) : state * res Value :=
  match args with
  | [] => (st, Ret (BOOL false))
  | key :: _ =>
      match valid_cookie st.1 with
      | None => (st, Ret (BOOL false))
      | Some sid =>
          let (st, r) := lookup_key key sid st in
          (st, match r with
               | Ret v => Ret (BOOL match v with Some _ => true | None => false end)
               | Exn e => Exn e
               | Undef => Undef
               end)
      end
  end.
Definition session_destroy (st : state) : state * res Value :=
  let s := match valid_cookie st.1 with Some sid => remove sid st.2 | None => st.2 end in
  let c := st.1 in
  ((MkCtx None (set_cookies c ++ [lit "LOOK_SESSION=; Path=/; Expires=Thu, 01 Jan 1970 00:00:00 GMT; HttpOnly"
      ++ session_secure_attr ++ lit "; SameSite=Lax"]) (drawn c), s), Ret NONE).

Inductive op := Start | Regenerate | SetKey (args : list Value) | GetKey (args : list Value) | HasKey (args : list Value) | Destroy.
Definition do_op (o : op) : state -> state * res Value :=
  match o with
  | Start => session_start
  | Regenerate => session_regenerate
  | SetKey args => session_set args
  | GetKey args => session_get args
  | HasKey args => session_has args
  | Destroy => session_destroy
  end.
End Module_.

(** * What sessions are

    A value for each identifier and key. *)

Definition contents : Type := bytes -> bytes -> option bytes.
Section Spec.
Context (urandom : nat -> bytes) (secure_mode : option bool) (is_https : bool) (L : Lib) (depth : nat) (h : heap).
Notation new_sid := (new_sid urandom secure_mode is_https).

Definition put (sid k v : bytes) (d : contents) : contents :=
  fun x y => if bool_decide (x = sid) then if bool_decide (y = k) then Some v else d x y else d x y.
Definition drop_all (sid : bytes) (d : contents) : contents := fun x y => if bool_decide (x = sid) then None else d x y.
(** Everything of [sid] goes to [sid']. *)
Definition move (sid sid' : bytes) (d : contents) : contents :=
  fun x y => if bool_decide (x = sid') then d sid y else if bool_decide (x = sid) then None else d x y.
Definition text_of (v : Value) : res bytes := to_string L depth h v.
Definition look (key : Value) (d : bytes -> option bytes) (f : option bytes -> Value) : res Value :=
  match text_of key with Ret k => Ret (f (d k)) | Exn e => Exn e | Undef => Undef end.

Definition spec_op (o : op) (st : context * contents) : (context * contents) * res Value :=
  let (c, d) := st in
  match o, valid_cookie c with
  | Start, Some sid => (st, Ret (STRING sid))
  | Start, None => let (c, r) := new_sid c in ((c, d), sid ← r; Ret (STRING sid))
  | Regenerate, cur =>
      let (c, r) := new_sid c in
      ((c, match cur, r with
           | Some sid, Ret sid' => move sid sid' d
           | Some sid, _ => drop_all sid d
           | None, _ => d
           end), sid ← r; Ret (STRING sid))
  | SetKey (key :: val :: _), cur =>
      match val with
      | STRING _ | INT _ | FLOAT _ | BOOL _ | NONE =>
          match cur with
          | None => (st, Ret NONE)
          | Some sid =>
              match text_of key, text_of val with
              | Ret k, Ret v => ((c, put sid k v d), Ret NONE)
              | Exn e, _ | _, Exn e => (st, Exn e)
              | _, _ => (st, Undef)
              end
          end
      | ARRAY _ => (st, Exn (lit "session::set() — session values are strings; JSON-encode a structure first, e.g. session::set(key, json::encode(value)) and json::decode(session::get(key))"))
      | _ => (st, Exn (lit "session::set() — session values must be a string or number"))
      end
  | SetKey _, _ => (st, Ret NONE)
  | GetKey (key :: rest), Some sid =>
      (st, look key (d sid) (fun x => match x with Some v => STRING v | None => match rest with v :: _ => v | [] => NONE end end))
  | GetKey _, _ => (st, Ret NONE)
  | HasKey (key :: _), Some sid => (st, look key (d sid) (fun x => BOOL match x with Some _ => true | None => false end))
  | HasKey _, _ => (st, Ret (BOOL false))
  | Destroy, cur =>
      ((MkCtx None (set_cookies c ++ [lit "LOOK_SESSION=; Path=/; Expires=Thu, 01 Jan 1970 00:00:00 GMT; HttpOnly"
          ++ session_secure_attr secure_mode is_https ++ lit "; SameSite=Lax"]) (drawn c),
        match cur with Some sid => drop_all sid d | None => d end), Ret NONE)
  end.
End Spec.

(** * The module does that *)

Section Refinement.
Context {S : Type} `{StorageLaws S}.
Context (urandom : nat -> bytes) (secure_mode : option bool) (is_https : bool) (L : Lib) (depth : nat) (h : heap).
Notation do_op := (do_op urandom secure_mode is_https L depth h).
Notation spec_op := (spec_op urandom secure_mode is_https L depth h).

(** The contents a storage holds *)
Definition holds (s : S) (d : contents) : Prop := ready s /\ forall x k, sess_blob_get (blob s x) k = d x k.

Lemma empty_blob k : sess_blob_get [] k = None.
Proof. reflexivity. Qed.
Lemma hex_ok : forallb (fun n => sid_hex (sid_digit (Z.of_nat n))) (seq 0 16) = true.
Proof. reflexivity. Qed.
Lemma sid_digit_ok z : sid_hex (sid_digit (Z.land z 15)) = true.
Proof.
  change 15 with (Z.ones 4). rewrite Z.land_ones by lia. pose proof (Z.mod_pos_bound z (2 ^ 4) ltac:(lia)) as Hz.
  pose proof hex_ok as Hx. rewrite forallb_forall in Hx. specialize (Hx (Z.to_nat (z mod 2 ^ 4))).
  rewrite Z2Nat.id in Hx by lia. apply Hx. apply in_seq. lia.
Qed.
(** The identifiers drawn pass the check. *)
Lemma drawn_valid n sid : gen_session_id urandom n = Some sid -> valid_sid sid = true.
Proof.
  unfold gen_session_id. destruct (Nat.eqb_spec (length (urandom n)) 16) as [Hl|]; [|done]. intros [= <-].
  assert (Hb : forall b, let s := concat (map (fun c => [sid_digit (Z.land (Z.shiftr (ord c) 4) 15); sid_digit (Z.land (ord c) 15)]) b) in
    length s = (2 * length b)%nat /\ forallb sid_hex s = true).
  { induction b as [|c b [IH1 IH2]]; [done|]. cbn [map concat app length forallb]. rewrite !sid_digit_ok, IH1.
    split; [lia|exact IH2]. }
  destruct (Hb (urandom n)) as [H1 H2]. unfold valid_sid. rewrite H1, Hl. exact H2.
Qed.
Lemma cookie_valid c sid : valid_cookie c = Some sid -> valid_sid sid = true.
Proof. unfold valid_cookie. destruct (cookie c) as [x|]; [|done]. destruct (valid_sid x) eqn:E; [|done]. by intros [= <-]. Qed.

Lemma holds_load sid s d : holds s d -> valid_sid sid = true ->
  exists s', load sid s = (s', blob s sid) /\ holds s' d /\ forall x, blob s' x = blob s x.
Proof.
  intros [Hr Hd] Hs. destruct (load_law sid s Hr Hs) as (H1 & H2 & H3). destruct (load sid s) as [s' b]. cbn [fst snd] in *.
  subst b. exists s'. split; [done|]. split; [|done]. split; [done|]. intros x k. rewrite H3. apply Hd.
Qed.
Lemma holds_remove sid s d : holds s d -> valid_sid sid = true -> holds (remove sid s) (drop_all sid d).
Proof.
  intros [Hr Hd] Hs. destruct (remove_law sid s Hr Hs) as [H1 H2]. split; [done|]. intros x k. rewrite H2. unfold drop_all.
  case_bool_decide; [apply empty_blob|apply Hd].
Qed.
Lemma holds_store sid b s d d' : holds s d -> valid_sid sid = true -> fits_blob b ->
  (forall x k, d' x k = if bool_decide (x = sid) then sess_blob_get b k else d x k) -> holds (store sid b s) d'.
Proof.
  intros [Hr Hd] Hs Hb He. destruct (store_law sid b s Hr Hs Hb) as [H1 H2]. split; [done|]. intros x k. rewrite H2, He.
  case_bool_decide; [done|apply Hd].
Qed.
Lemma holds_ext s d d' : holds s d -> (forall x k, d' x k = d x k) -> holds s d'.
Proof. intros [Hr Hd] He. split; [done|]. intros x k. by rewrite He. Qed.

(** The part of set and of its specification behind the checks *)
Lemma set_text key val (c : context) s d sid :
  holds s d -> valid_sid sid = true ->
  (forall k v, text_of L depth h key = Ret k -> text_of L depth h val = Ret v -> fits_blob (sess_blob_set (blob s sid) k v)) ->
  let '((c1, s1), r1) :=
    let (s', b) := load sid s in
    match to_string L depth h key, to_string L depth h val with
    | Ret k, Ret v => ((c, store sid (sess_blob_set b k v) s'), Ret NONE)
    | Exn e, _ | _, Exn e => ((c, s'), Exn e)
    | _, _ => ((c, s'), Undef)
    end in
  let '((c2, d2), r2) :=
    match text_of L depth h key, text_of L depth h val with
    | Ret k, Ret v => ((c, put sid k v d), Ret NONE)
    | Exn e, _ | _, Exn e => ((c, d), Exn e)
    | _, _ => ((c, d), Undef)
    end in
  c1 = c2 /\ r1 = r2 /\ holds s1 d2.
Proof.
  intros Hd Hs Hf. unfold text_of in *. destruct (holds_load sid s d Hd Hs) as (s' & -> & Hd' & Hb).
  destruct (to_string L depth h key) as [k|e|], (to_string L depth h val) as [v|e'|]; try done.
  split; [done|]. split; [done|]. eapply holds_store; [exact Hd'|done|by apply Hf|].
  intros x y. unfold put. case_bool_decide as Hx; [|done]. subst x. rewrite <- (proj2 Hd). by rewrite sess_blob_get_set.
Qed.
(** get and has *)
Lemma lookup_text key sid (c : context) s d :
  holds s d -> valid_sid sid = true ->
  exists s', lookup_key L depth h key sid (c, s)
    = ((c, s'), match to_string L depth h key with Ret k => Ret (d sid k) | Exn e => Exn e | Undef => Undef end) /\ holds s' d.
Proof.
  intros Hd Hs. unfold lookup_key. cbn [fst snd]. destruct (holds_load sid s d Hd Hs) as (s' & -> & Hd' & _).
  exists s'. split; [|done]. destruct (to_string L depth h key); [|done..]. by rewrite (proj2 Hd).
Qed.

(** What the caller has to see to: a new blob the storage can hold, a new
    identifier that nobody has used. *)
Definition allowed (o : op) (c : context) (s : S) (d : contents) : Prop :=
  match o with
  | SetKey (key :: val :: _) => forall sid k v, valid_cookie c = Some sid ->
      text_of L depth h key = Ret k -> text_of L depth h val = Ret v -> fits_blob (sess_blob_set (blob s sid) k v)
  | Regenerate => forall sid k, gen_session_id urandom (drawn c) = Some sid -> d sid k = None
  | _ => True
  end.

(** C3: The script module [session] over any storage that keeps its laws is a
    value for each identifier and key: start gives a valid identifier and
    changes nothing, set puts one value when the storage can hold the new blob,
    get and has look, destroy removes one session, regenerate moves all values to
    a new identifier that nobody had and leaves none under the old one; a cookie
    that is not an identifier counts as none; answers, cookies and exceptions are
    the same. *)
Theorem session_module_refines o c s d :
  holds s d -> allowed o c s d ->
  let '((c1, s1), r1) := do_op o (c, s) in
  let '((c2, d2), r2) := spec_op o (c, d) in
  c1 = c2 /\ r1 = r2 /\ holds s1 d2.
Proof.
  intros Hd Ha. pose proof (cookie_valid c) as Hc. destruct o as [| |args|args|args|]; cbn [Sessions.do_op].
  - unfold session_start. cbn [Sessions.spec_op fst snd]. destruct (valid_cookie c); [done|].
    unfold new_sid. destruct (gen_session_id urandom (drawn c)); done.
  - unfold session_regenerate. cbn [Sessions.spec_op fst snd]. pose proof (drawn_valid (drawn c)) as Hg. unfold new_sid.
    cbn [allowed] in Ha. destruct (valid_cookie c) as [sid|].
    + destruct (holds_load sid s d Hd (Hc sid eq_refl)) as (s' & -> & Hd' & Hb).
      pose proof (holds_remove sid s' d Hd' (Hc sid eq_refl)) as Hrm.
      destruct (gen_session_id urandom (drawn c)) as [new|]; [|done]. split; [done|]. split; [done|].
      assert (Hmv : forall x k, move sid new d x k =
        if bool_decide (x = new) then sess_blob_get (blob s sid) k else drop_all sid d x k).
      { intros x k. unfold move, drop_all. case_bool_decide; [by rewrite (proj2 Hd)|done]. }
      destruct (bytes_eqb_spec (blob s sid) []) as [E|E].
      * eapply holds_ext; [exact Hrm|]. intros x k. rewrite Hmv, E, empty_blob. unfold drop_all.
        case_bool_decide as Hx; [|done]. subst x. rewrite (Ha new k) by done. by case_bool_decide.
      * eapply holds_store; [exact Hrm|by apply Hg|apply blob_fits, Hd|exact Hmv].
    + destruct (gen_session_id urandom (drawn c)) as [new|]; done.
  - unfold session_set. cbn [Sessions.spec_op fst snd]. destruct args as [|key [|val rest]]; [by destruct (valid_cookie c)..|].
    cbn [allowed] in Ha. destruct (valid_cookie c) as [sid|].
    + destruct val; try done; (apply set_text; [done|by apply Hc|intros k v; by apply Ha]).
    + by destruct val.
  - unfold session_get. cbn [Sessions.spec_op fst snd]. destruct args as [|key rest]; [by destruct (valid_cookie c)|].
    destruct (valid_cookie c) as [sid|]; [|done]. destruct (lookup_text key sid c s d Hd (Hc sid eq_refl)) as (s' & -> & Hd').
    unfold look, text_of. destruct (to_string L depth h key) as [k|e|]; try done. by destruct (d sid k).
  - unfold session_has. cbn [Sessions.spec_op fst snd]. destruct args as [|key rest]; [by destruct (valid_cookie c)|].
    destruct (valid_cookie c) as [sid|]; [|done]. destruct (lookup_text key sid c s d Hd (Hc sid eq_refl)) as (s' & -> & Hd').
    unfold look, text_of. by destruct (to_string L depth h key).
  - unfold session_destroy. cbn [Sessions.spec_op fst snd]. destruct (valid_cookie c) as [sid|]; [|done].
    split; [done|]. split; [done|]. apply holds_remove; [done|by apply Hc].
Qed.

End Refinement.

(** * On Redis

    With a connection that loses nothing and values up to the limit of the
    client, the storage on Redis keeps the laws. *)

Section Redis.
Import Resp RespFacts.
Context (mx : Z) (u : RedisUrl) (ttl : Z).

#[export] Instance redis_storage : Storage (store (W := server)) := {
  load := sess_load mx redis_connect redis_send u;
  store := sess_store mx redis_connect redis_send u ttl;
  remove := sess_remove mx redis_connect redis_send u }.

Definition redis_ready (s : Resp.store (W := server)) : Prop :=
  in_step u s /\ faults s.1 = [] /\ map_Forall (fun _ x => Z.of_nat (length x) <= mx) (kv s.1).
Definition redis_blob (s : Resp.store (W := server)) (sid : bytes) : bytes := default [] (kv s.1 !! sess_key sid).

Lemma sess_key_eq x y : bool_decide (x = y) = bool_decide (sess_key x = sess_key y).
Proof. apply bool_decide_ext. split; [congruence|apply app_inv_head]. Qed.
Lemma sid_short sid : valid_sid sid = true -> Z.of_nat (length sid) < 10 ^ 17.
Proof. unfold valid_sid. destruct (Nat.eqb_spec (length sid) 32) as [->|]; [done|discriminate]. Qed.

Context (Hmx : 0 <= mx < 10 ^ 18) (Hu : url_ok u).
#[export] Program Instance redis_laws : StorageLaws (Resp.store (W := server)) := {
  ready := redis_ready; blob := redis_blob; fits_blob b := Z.of_nat (length b) <= mx }.
Next Obligation.
  intros s sid (_ & _ & H). unfold redis_blob. destruct (kv s.1 !! sess_key sid) eqn:E; [by eapply H|cbn; lia].
Qed.
Next Obligation.
  intros sid [v c] (Hs & Hf & Hv) Hk%sid_short. pose proof (redis_load mx u v c sid Hu Hs Hk) as H.
  cbn [Sessions.load redis_storage]. destruct (sess_load mx redis_connect redis_send u sid (v, c)) as [s' x].
  destruct H as (H1 & H2 & _ & H3). destruct (H3 Hf) as [H4 H5]. cbn [fst snd] in *. unfold redis_ready, redis_blob. rewrite H2.
  split; [done|]. split; [|done]. apply H5. cbn [fst] in Hv. destruct (kv v !! sess_key sid) eqn:E; [by eapply Hv|cbn; lia].
Qed.
Next Obligation.
  intros sid b [v c] (Hs & Hf & Hv) Hk%sid_short Hb.
  destruct (redis_store mx u v c sid Hu Hs Hk ttl b ltac:(lia)) as (H1 & _ & H2). destruct (H2 Hf) as [H3 H4].
  cbn [Sessions.store redis_storage fst] in *. unfold redis_ready, redis_blob. rewrite H4. split.
  - split; [done|]. split; [done|]. by apply map_Forall_insert_2.
  - intros x. rewrite sess_key_eq. cbn [fst]. case_bool_decide as Hx.
    + rewrite Hx. by rewrite lookup_insert_eq.
    + by rewrite lookup_insert_ne.
Qed.
Next Obligation.
  intros sid [v c] (Hs & Hf & Hv) Hk%sid_short.
  destruct (redis_remove mx u v c sid Hu Hs Hk) as (H1 & _ & H2). destruct (H2 Hf) as [H3 H4].
  cbn [Sessions.remove redis_storage fst] in *. unfold redis_ready, redis_blob. rewrite H4. split.
  - split; [done|]. split; [done|]. by apply map_Forall_delete.
  - intros x. rewrite sess_key_eq. cbn [fst]. case_bool_decide as Hx.
    + rewrite Hx. by rewrite lookup_delete_eq.
    + by rewrite lookup_delete_ne.
Qed.
End Redis.

(** ** At work *)

Section AtWork.
Import Resp RespFacts.

(** The server with its password, the value of one session, and a network that
    loses nothing *)
Definition calm_server : server :=
  MkServer {[sess_key demo_sid := lit "role=user" ++ [LF]]} (Some (lit "pa?ss")) false [].
Definition visitor : context := MkCtx (Some demo_sid) [] 0.
Definition some_lib : Lib := MkLib (fun _ => []) (fun d _ => d).
Definition calm : Storage (Resp.store (W := server)) := redis_storage 1000 demo_url 60.
(** [session::set("role", "admin")], then [session::get("role")] *)
Definition role_set : op := SetKey [STRING (lit "role"); STRING (lit "admin")].

Lemma session_module_refines_witness :
  let d x k := sess_blob_get (redis_blob (calm_server, None) x) k in
  let r := do_op (H := calm) (fun _ => []) None true some_lib 0 ∅ role_set (visitor, (calm_server, None)) in
  r.2 = Ret NONE /\ r.1.1 = visitor /\
  forall x k, sess_blob_get (redis_blob r.1.2 x) k = put demo_sid (lit "role") (lit "admin") d x k.
Proof.
  assert (Hmx : 0 <= 1000 < 10 ^ 18) by lia.
  assert (Hu : url_ok demo_url) by (unfold url_ok; vm_compute; reflexivity).
  set (laws := redis_laws 1000 demo_url 60 Hmx Hu). cbv zeta.
  set (d := fun x k => sess_blob_get (redis_blob (calm_server, None) x) k).
  assert (Hd : holds (H0 := laws) (calm_server, None) d).
  { split; [|done]. split; [|split; [done|]].
    - split; [split; [reflexivity|discriminate]|]. split; [|by left]. apply map_Forall_singleton. vm_compute. reflexivity.
    - apply map_Forall_singleton. vm_compute. discriminate. }
  assert (Ha : allowed (H0 := laws) (fun _ => []) some_lib 0 ∅ role_set visitor (calm_server, None) d).
  { intros sid k v [= <-] [= <-] [= <-]. vm_compute. discriminate. }
  pose proof (session_module_refines (H0 := laws) (fun _ => []) None true some_lib 0 ∅ role_set visitor _ d Hd Ha) as Hr.
  destruct (do_op _ _ _ _ _ _ _ _) as [[c1 s1] r1]. destruct Hr as (-> & -> & Hh).
  split; [reflexivity|]. split; [reflexivity|]. exact (proj2 Hh).
Defined.

(** What a session holds after [op] when the answer to the GET before it is
    lost: an empty blob is read, and the value is stored into it. *)
Definition lossy_server : server :=
  MkServer {[sess_key demo_sid := lit "user=7" ++ [LF]]} (Some (lit "pa?ss")) false [Fine; Fine; Fine; Cut 0].
Example lost_answer_empties_the_session :
  let s := (do_op (H := calm) (fun _ => []) None true some_lib 0 ∅ role_set (visitor, (lossy_server, None))).1.2 in
  redis_blob (lossy_server, None) demo_sid = lit "user=7" ++ [LF] /\ redis_blob s demo_sid = lit "role=admin" ++ [LF].
Proof. vm_compute. done. Qed.
End AtWork.

End Sessions.
