(* ===== verification/Web.v ===== *)
(** The request and the response of a script: [struct WebContext] of
    cpp/include/look/web.h and cpp/src/web.cpp: decoding of URLs, query strings
    and cookies, the multipart parser, the response headers, the path of a CGI
    request, and the sanitizer of SVG files.

    The environment, the directory of temporary files and the random names are
    arguments; that a temporary file could be written is one too. *)

From S2P Require Import Prelude CNum Value Crypto Http.
#[local] Open Scope Z_scope.

Module Web.
Import CNum Value Crypto.

Notation map_t := (gmap (list ascii) (list ascii)).

(** * Decoding *)

(** [std::stoi(s, nullptr, 16)] on two characters; [None] is the exception. *)
Definition stoi16 (s : bytes) : option Z :=
  let (neg, s) := sign (skip_space s) in
  let s := match s with
    | z :: x :: s' => if (z =c "0") && ((x =c "x") || (x =c "X")) && has_digit 16 s' then s' else s
    | _ => s
    end in
  if has_digit 16 s then let z := (digits 16 0 s).1 in Some (if neg then - z else z) else None.

Fixpoint url_decode (plus_is_space : bool) (s : bytes) : bytes :=
  match s with
  | [] => []
  | c :: s' =>
      if c =c "+" then (if plus_is_space then SP else c) :: url_decode plus_is_space s'
      else if c =c "%" then
        match s' with
        | a :: b :: s'' =>
            match stoi16 [a; b] with
            | Some h => chr h :: url_decode plus_is_space s''
            | None => c :: url_decode plus_is_space s'
            end
        | _ => c :: url_decode plus_is_space s'
        end
      else c :: url_decode plus_is_space s'
  end.

Definition query_pair (m : map_t) (pair : bytes) : map_t :=
  match find_if (is_c "=") pair with
  | None => <[ url_decode true pair := [] ]> m
  | Some eq => <[ url_decode true (take eq pair) := url_decode true (drop (S eq) pair) ]> m
  end.
Definition parse_query (qs : bytes) : map_t := fold_left query_pair (getline_all "&" qs) ∅.

Definition blank_char (c : ascii) : bool := (c =c SP) || (c =c TAB).
Definition cookie_item (m : map_t) (item : bytes) : map_t :=
  match find_if (fun c => negb (blank_char c)) item with
  | None => m
  | Some s =>
      let item := drop s item in
      match find_if (is_c "=") item with
      | None => m
      | Some eq => <[ take eq item := drop (S eq) item ]> m
      end
  end.
Definition parse_cookies (raw : bytes) : map_t := fold_left cookie_item (getline_all ";" raw) ∅.

(** * State *)

Record UploadedFile := MkFile {
  field_name : bytes; orig_name : bytes; temp_path : bytes; mime : bytes; sha256_hex : bytes;
  fsize : Z; valid : bool }.

Record WebContext := MkWeb {
  method : bytes; path : bytes; query_string : bytes; body : bytes; remote_addr : bytes; content_type : bytes;
  is_https : bool;
  get_params : map_t; post_params : map_t; cookies_in : map_t; headers_in : map_t;
  uploaded_files : gmap (list ascii) UploadedFile;
  status_code : Z; status_text : bytes; headers_out : map_t; set_cookies_out : list bytes;
  route_matched : bool; route_params : map_t }.

Definition new_context : WebContext :=
  MkWeb [] [] [] [] [] [] false ∅ ∅ ∅ ∅ ∅ 200 (lit "OK") ∅ [] false ∅.

Definition with_status (code : Z) (text : bytes) (w : WebContext) : WebContext :=
  MkWeb (method w) (path w) (query_string w) (body w) (remote_addr w) (content_type w) (is_https w) (get_params w)
    (post_params w) (cookies_in w) (headers_in w) (uploaded_files w) code text (headers_out w) (set_cookies_out w)
    (route_matched w) (route_params w).
Definition with_form (post : map_t) (files : gmap (list ascii) UploadedFile) (w : WebContext) : WebContext :=
  MkWeb (method w) (path w) (query_string w) (body w) (remote_addr w) (content_type w) (is_https w) (get_params w)
    post (cookies_in w) (headers_in w) files (status_code w) (status_text w) (headers_out w) (set_cookies_out w)
    (route_matched w) (route_params w).
Definition with_route (matched : bool) (params : map_t) (w : WebContext) : WebContext :=
  MkWeb (method w) (path w) (query_string w) (body w) (remote_addr w) (content_type w) (is_https w) (get_params w)
    (post_params w) (cookies_in w) (headers_in w) (uploaded_files w) (status_code w) (status_text w) (headers_out w)
    (set_cookies_out w) matched params.

Definition reason (code : Z) : bytes :=
  if code =? 200 then lit "OK"
  else if code =? 201 then lit "Created"
  else if code =? 204 then lit "No Content"
  else if code =? 301 then lit "Moved Permanently"
  else if code =? 302 then lit "Found"
  else if code =? 400 then lit "Bad Request"
  else if code =? 401 then lit "Unauthorized"
  else if code =? 403 then lit "Forbidden"
  else if code =? 404 then lit "Not Found"
  else if code =? 405 then lit "Method Not Allowed"
  else if code =? 422 then lit "Unprocessable Entity"
  else if code =? 500 then lit "Internal Server Error"
  else lit "Unknown".
Definition set_status (code : Z) (w : WebContext) : WebContext := with_status code (reason code) w.

(** * The response *)

Definition CRLF : bytes := [CR; LF].
Definition is_crlf (c : ascii) : bool := (c =c CR) || (c =c LF).
Definition strip_crlf (s : bytes) : bytes :=
  match find_if is_crlf s with Some i => take i s | None => s end.

Definition build_headers (w : WebContext) : bytes :=
  let hs := in_order (headers_out w) in
  lit "Status: " ++ int_to_string (status_code w) ++ lit " " ++ status_text w ++ CRLF
  ++ concat (map (fun kv => strip_crlf kv.1 ++ lit ": " ++ strip_crlf kv.2 ++ CRLF) hs)
  ++ concat (map (fun c => lit "Set-Cookie: " ++ strip_crlf c ++ CRLF) (set_cookies_out w))
  ++ (if existsb (fun kv => kv.1 =s lit "Content-Type") hs then []
      else lit "Content-Type: text/html; charset=utf-8" ++ CRLF)
  ++ CRLF.

(** * Uploads *)

Definition sig (s : list Z) (data : bytes) : bool := starts_with (map chr s) data.
Definition contains (t s : bytes) : bool := bool_decide (is_Some (find_str t s)).
Definition text_char (c : ascii) : bool :=
  negb (ord c =? 0) && negb ((ord c <? 9) || ((13 <? ord c) && (ord c <? 32))).

Definition detect_mime (data : bytes) : bytes :=
  if sig [0xFF; 0xD8; 0xFF] data then lit "image/jpeg"
  else if sig [0x89; 0x50; 0x4E; 0x47; 0x0D; 0x0A] data then lit "image/png"
  else if sig [0x47; 0x49; 0x46; 0x38] data then lit "image/gif"
  else if sig [0x52; 0x49; 0x46; 0x46] data && (12 <=? length data)%nat && (substr data 8 4 =s lit "WEBP")
  then lit "image/webp"
  else if sig [0x25; 0x50; 0x44; 0x46] data then lit "application/pdf"
  else if sig [0x50; 0x4B; 0x03; 0x04] data then lit "application/zip"
  else if sig [0x1F; 0x8B] data then lit "application/gzip"
  else if contains (lit "<svg") data || contains (lit "<?xml") data then lit "image/svg+xml"
  else if negb (data =s []) && forallb text_char data then lit "text/plain"
  else lit "application/octet-stream".

Definition mime_to_ext (mime : bytes) : bytes :=
  if mime =s lit "image/jpeg" then lit ".jpg"
  else if mime =s lit "image/png" then lit ".png"
  else if mime =s lit "image/gif" then lit ".gif"
  else if mime =s lit "image/webp" then lit ".webp"
  else if mime =s lit "image/svg+xml" then lit ".svg"
  else if mime =s lit "application/pdf" then lit ".pdf"
  else if mime =s lit "application/zip" then lit ".zip"
  else if mime =s lit "application/gzip" then lit ".gz"
  else lit ".bin".

(** Two hexadecimal digits for each byte. *)
Definition hex_char (n : Z) : ascii := if n <? 10 then chr (48 + n) else chr (87 + n).
Definition to_hex (s : bytes) : bytes :=
  concat (map (fun c => [hex_char (ord c / 16); hex_char (ord c mod 16)]) s).
(** [look_internal::sha256]: the digest in hexadecimal. *)
Definition digest (data : bytes) : bytes := to_hex (sha256 data).

(** The name of an uploaded file: the basename, without control characters. *)
Definition clean_name (filename : bytes) : bytes :=
  let fn := match rfind_if (one_of (lit "/\")) filename with Some i => drop (S i) filename | None => filename end in
  take 255 (List.filter (fun c => (32 <=? ord c) && negb (ord c =? 127)) fn).

(** The outside of an upload: the directory, the random bytes of the n-th
    temporary file, whether that file could be written. *)
Record Disk := MkDisk { tmp_dir : bytes; random : nat -> bytes; writable : nat -> bool }.

Definition make_file (D : Disk) (n : nat) (field filename data : bytes) : UploadedFile :=
  let m := detect_mime data in
  MkFile field (clean_name filename) (tmp_dir D ++ lit "/" ++ to_hex (random D n) ++ mime_to_ext m) m (digest data)
    (Z.of_nat (length data)) (writable D n).

(** [extract(key)] on a header line *)
Definition extract (key line : bytes) : bytes :=
  let k := key ++ [("=" : ascii); DQUOTE] in
  match find_str k line with
  | None => []
  | Some i =>
      let rest := drop (i + length k) line in
      match find_if (is_c DQUOTE) rest with Some e => take e rest | None => [] end
  end.

Definition chop_cr (line : bytes) : bytes :=
  match last line with Some c => if c =c CR then removelast line else line | None => line end.

Definition disposition (names : bytes * bytes) (line : bytes) : bytes * bytes :=
  let line := chop_cr line in
  if contains (lit "Content-Disposition:") line then (extract (lit "name") line, extract (lit "filename") line)
  else names.
Definition part_names (raw_headers : bytes) : bytes * bytes :=
  fold_left disposition (getline_all LF raw_headers) ([], []).

Definition MAX_PARTS : nat := 1000.

(** What the parser fills, and how many files it has made. *)
Record Form := MkForm { fields : map_t; files : gmap (list ascii) UploadedFile; made : nat }.

Definition add_part (D : Disk) (names : bytes * bytes) (data : bytes) (f : Form) : Form :=
  let (field, filename) := names in
  if negb (filename =s []) && negb (field =s []) then
    MkForm (fields f) (<[ field := make_file D (made f) field filename data ]> (files f)) (S (made f))
  else if negb (field =s []) then MkForm (<[ field := data ]> (fields f)) (files f) (made f)
  else f.

(** The loop, at the text that begins with a delimiter; [parts] more are
    allowed. *)
Fixpoint multipart_loop (D : Disk) (parts : nat) (delim rest : bytes) (f : Form) : Form :=
  match parts with
  | O => f
  | S parts =>
      let rest := drop (length delim) rest in
      if starts_with (lit "--") rest then f
      else
        let rest := match rest with c :: r => if c =c CR then r else rest | [] => [] end in
        let rest := match rest with c :: r => if c =c LF then r else rest | [] => [] end in
        match find_str (CRLF ++ CRLF) rest with
        | None => f
        | Some header_end =>
            let names := part_names (take header_end rest) in
            let rest := drop (header_end + 4) rest in
            match find_str (CRLF ++ delim) rest with
            | None => f
            | Some part_end =>
                let f := add_part D names (take part_end rest) f in
                let rest := drop (part_end + 2) rest in
                match find_str delim rest with
                | None => f
                | Some next => multipart_loop D parts delim (drop next rest) f
                end
            end
        end
  end.

Definition parse_multipart (D : Disk) (boundary : bytes) (w : WebContext) : WebContext :=
  let delim := lit "--" ++ boundary in
  match find_str delim (body w) with
  | None => w
  | Some pos =>
      let f := multipart_loop D MAX_PARTS delim (drop pos (body w)) (MkForm (post_params w) (uploaded_files w) 0) in
      with_form (fields f) (files f) w
  end.

Definition parse_post_body (D : Disk) (w : WebContext) : WebContext :=
  if contains (lit "application/x-www-form-urlencoded") (content_type w) then
    with_form (parse_query (body w)) (uploaded_files w) w
  else if contains (lit "multipart/form-data") (content_type w) then
    match find_str (lit "boundary=") (content_type w) with
    | Some bpos => parse_multipart D (drop (bpos + 9) (content_type w)) w
    | None => w
    end
  else w.

(** * A CGI request *)

(** [getenv] on the list of the strings [NAME=value]. *)
Fixpoint getenv (name : bytes) (env : list bytes) : option bytes :=
  match env with
  | [] => None
  | e :: env => if starts_with (name ++ lit "=") e then Some (drop (S (length name)) e) else getenv name env
  end.

Definition drop_suffix_of_lk (pi : bytes) : bytes :=
  match find_str (lit ".lk") pi with
  | Some lk =>
      match find_from (is_c "/") pi (lk + 3) with Some slash => drop slash pi | None => lit "/" end
  | None => pi
  end.
Definition cgi_path (env : list bytes) : bytes :=
  let pi := default [] (getenv (lit "PATH_INFO") env) in
  if negb (pi =s []) then drop_suffix_of_lk pi
  else
    let ru := default [] (getenv (lit "REQUEST_URI") env) in
    if ru =s [] then lit "/"
    else
      let uri := match find_if (is_c "?") ru with Some q => take q ru | None => ru end in
      let sn := default [] (getenv (lit "SCRIPT_NAME") env) in
      let is_lk := (3 <? length sn)%nat && (drop (length sn - 3) sn =s lit ".lk") in
      let uri := if is_lk && starts_with sn uri then drop (length sn) uri else uri in
      if uri =s [] then lit "/" else uri.

(** [std::atoi], through [strtol]. *)
Definition atoi (s : bytes) : Z :=
  let (neg, s) := sign (skip_space s) in
  let z := (digits 10 0 s).1 in
  let z := Z.max INT64_MIN (Z.min INT64_MAX (if neg then - z else z)) in
  (z + 2 ^ 31) mod 2 ^ 32 - 2 ^ 31.

Definition cgi_body (env : list bytes) (stdin : bytes) : bytes :=
  match getenv (lit "CONTENT_LENGTH") env with
  | Some (c :: cl) =>
      let len := atoi (c :: cl) in
      if (0 <? len) && (len <? 10 * 1024 * 1024) then
        let n := Z.to_nat len in take n stdin ++ replicate (n - length stdin) NUL
      else []
  | _ => []
  end.

Definition header_name (c : ascii) : ascii := if c =c "_" then "-" else tolower c.
Definition cgi_header (m : map_t) (kv : bytes) : map_t :=
  match find_if (is_c "=") kv with
  | None => m
  | Some eq =>
      if (eq <=? 5)%nat || negb (starts_with (lit "HTTP_") kv) then m
      else <[ map header_name (substr kv 5 (eq - 5)) := drop (S eq) kv ]> m
  end.

Definition cgi_https (env : list bytes) : bool :=
  let hs := map tolower (default [] (getenv (lit "HTTPS") env)) in
  (hs =s lit "on") || (hs =s lit "1")
  || match getenv (lit "REQUEST_SCHEME") env with Some rs => rs =s lit "https" | None => false end.

Definition init_from_cgi (D : Disk) (env : list bytes) (stdin : bytes) (w : WebContext) : WebContext :=
  let get n := default [] (getenv (lit n) env) in
  let w :=
    MkWeb (default (lit "GET") (getenv (lit "REQUEST_METHOD") env)) (cgi_path env) (get "QUERY_STRING"%string)
      (match cgi_body env stdin with [] => body w | b => b end) (remote_addr w) (get "CONTENT_TYPE"%string) (is_https w)
      (parse_query (get "QUERY_STRING"%string)) (post_params w) (cookies_in w) (headers_in w) (uploaded_files w)
      (status_code w) (status_text w) (headers_out w) (set_cookies_out w) (route_matched w) (route_params w) in
  let w := parse_post_body D w in
  MkWeb (method w) (path w) (query_string w) (body w) (get "REMOTE_ADDR"%string) (content_type w) (cgi_https env)
    (get_params w) (post_params w)
    (match getenv (lit "HTTP_COOKIE") env with Some ck => parse_cookies ck | None => cookies_in w end)
    (fold_left cgi_header env (headers_in w)) (uploaded_files w) (status_code w) (status_text w) (headers_out w)
    (set_cookies_out w) (route_matched w) (route_params w).

(** * The sanitizer of SVG *)

Definition SVG_SAFE_ELEMENTS : list bytes :=
  [lit "svg"; lit "g"; lit "path"; lit "circle"; lit "rect"; lit "ellipse"; lit "line"; lit "polyline"; lit "polygon";
   lit "text"; lit "tspan"; lit "defs"; lit "symbol"; lit "title"; lit "desc"; lit "lineargradient";
   lit "radialgradient"; lit "stop"; lit "clippath"; lit "mask"; lit "pattern"; lit "use"].
Definition svg_safe (elem : bytes) : bool := existsb (bytes_eqb elem) SVG_SAFE_ELEMENTS.

Definition svg_attr_lower (s : bytes) : bytes := map tolower (List.filter (fun c => negb (isspace c)) s).
Definition svg_value_dangerous (raw : bytes) : bool :=
  let v := svg_attr_lower raw in
  contains (lit "javascript:") v || contains (lit "vbscript:") v || contains (lit "data:") v
  || contains (lit "expression(") v
  || existsb (fun scheme =>
       contains (lit "url(" ++ scheme) v || contains (lit "url('" ++ scheme) v
       || contains (lit "url(" ++ [DQUOTE] ++ scheme) v)
     [lit "javascript:"; lit "data:"; lit "vbscript:"].

(** [while (i < s.size() && p(s[i])) ++i;]: what is passed and what follows. *)
Fixpoint scan (p : ascii -> bool) (s : bytes) : bytes * bytes :=
  match s with
  | c :: s' => if p c then let (a, b) := scan p s' in (c :: a, b) else ([], s)
  | [] => ([], [])
  end.
Definition skip_one (s : bytes) : bytes := tail s.

Definition ends_name (c : ascii) : bool := isspace c || (c =c "/") || (c =c ">").
Definition attr_value (a : bytes) : bytes * bytes :=
  match a with
  | e :: a' =>
      if e =c "=" then
        match a' with
        | q :: a'' =>
            if (q =c DQUOTE) || (q =c SQUOTE) then
              let (v, r) := scan (fun c => negb (c =c q)) a'' in (v, skip_one r)
            else scan (fun c => negb (isspace c || (c =c ">"))) a'
        | [] => ([], [])
        end
      else ([], a)
  | [] => ([], [])
  end.

Definition keep_attr (is_use : bool) (name value : bytes) : bool :=
  let lower := map tolower name in
  negb (starts_with (lit "on") lower)
  && negb (svg_value_dangerous value)
  && negb (is_use && ((lower =s lit "href") || (lower =s lit "xlink:href"))
           && match value with c :: _ => negb (c =c "#") | [] => true end).

Fixpoint svg_attrs (fuel : nat) (is_use : bool) (attrs : bytes) (safe : bytes) : bytes :=
  match fuel with
  | O => safe
  | S fuel =>
      let (_, a) := scan isspace attrs in
      match a with
      | [] => safe
      | c :: _ =>
          if (c =c "/") || (c =c ">") then safe
          else
            let (name, a) := scan (fun c => negb ((c =c "=") || ends_name c)) a in
            let (value, a) := attr_value a in
            svg_attrs fuel is_use a
              (if keep_attr is_use name value
               then safe ++ lit " " ++ name ++ lit "=" ++ [DQUOTE] ++ value ++ [DQUOTE] else safe)
      end
  end.

(** The text behind an element that is dropped with its contents. *)
Definition skip_element (elem_raw after : bytes) : bytes :=
  match find_str (lit "</" ++ elem_raw) after with
  | Some cp =>
      let r := drop cp after in
      match find_if (is_c ">") r with Some ce => drop (S ce) r | None => [] end
  | None => after
  end.

Definition ends_in_slash (tag : bytes) : bool := match last tag with Some c => c =c "/" | None => false end.

Fixpoint svg_loop (fuel : nat) (rest out : bytes) : bytes :=
  match fuel, rest with
  | S fuel, c :: r =>
      if negb (c =c "<") then svg_loop fuel r (out ++ [c])
      else
        match find_if (is_c ">") rest with
        | None => svg_loop fuel r (out ++ [c])
        | Some te =>
            let tag := substr rest 1 (te - 1) in
            let after := drop (S te) rest in
            match tag with
            | [] => svg_loop fuel after out
            | t :: tag' =>
                if t =c "!" then svg_loop fuel after out
                else
                  let closing := t =c "/" in
                  let (elem_raw, attrs) := scan (fun c => negb (ends_name c)) (if closing then tag' else tag) in
                  let elem := map tolower elem_raw in
                  if negb (svg_safe elem) then
                    svg_loop fuel (if closing || ends_in_slash tag then after else skip_element elem_raw after) out
                  else
                    let safe := svg_attrs (length attrs) (elem =s lit "use") attrs
                                  ((if closing then lit "</" else lit "<") ++ elem_raw) in
                    svg_loop fuel after
                      (out ++ safe ++ (if ends_in_slash tag then lit "/" else []) ++ lit ">")
            end
        end
  | _, _ => out
  end.
Definition svg_sanitize (input : bytes) : bytes := svg_loop (length input) input [].

(** * The response head cannot be split *)

Definition status_line (w : WebContext) : bytes :=
  lit "Status: " ++ int_to_string (status_code w) ++ lit " " ++ status_text w.
Definition has_content_type (w : WebContext) : bool :=
  existsb (fun kv => kv.1 =s lit "Content-Type") (in_order (headers_out w)).
Definition header_lines (w : WebContext) : list bytes :=
  map (fun kv => strip_crlf kv.1 ++ lit ": " ++ strip_crlf kv.2) (in_order (headers_out w))
  ++ map (fun c => lit "Set-Cookie: " ++ strip_crlf c) (set_cookies_out w)
  ++ (if has_content_type w then [] else [lit "Content-Type: text/html; charset=utf-8"]).

Lemma strip_crlf_clean s : Http.clean (strip_crlf s).
Proof.
  unfold strip_crlf, Http.clean. destruct (find_if is_crlf s) as [i|] eqn:E.
  - by apply find_if_split in E as (c & _ & _ & H).
  - by apply find_if_None in E.
Qed.

Lemma clean_app s t : Http.clean (s ++ t) <-> Http.clean s /\ Http.clean t.
Proof. apply Forall_app. Qed.

Lemma int_to_string_clean z : Http.clean (int_to_string z).
Proof.
  assert (H : forall n, 0 <= n -> Http.clean (decimal n)).
  { intros n Hn. apply Forall_forall. intros c Hin. pose proof (dec_go_digits 20 n [] eq_refl Hn) as Hd.
    rewrite forallb_forall in Hd. apply list_elem_of_In, Hd in Hin.
    assert (Hi : implb (isdigit c) (negb (Http.crlf_char c)) = true) by by_chars c.
    rewrite Hin in Hi. by apply negb_true_iff in Hi. }
  unfold int_to_string. destruct (z <? 0) eqn:E; bool_to_prop; [constructor; [done|]|]; apply H; lia.
Qed.

Lemma reason_clean code : Http.clean (reason code).
Proof. unfold reason. repeat case_if; by repeat constructor. Qed.

Lemma header_lines_app ls ls' : Http.crlf_lines (ls ++ ls') = Http.crlf_lines ls ++ Http.crlf_lines ls'.
Proof. unfold Http.crlf_lines. by rewrite map_app, concat_app. Qed.

Lemma build_headers_render w rest : build_headers w ++ rest = Http.render (status_line w) (header_lines w) rest.
Proof.
  unfold build_headers, Http.render, status_line, header_lines, has_content_type.
  rewrite !header_lines_app, <- !app_assoc. do 5 f_equal. unfold Http.crlf_lines. rewrite !map_map.
  f_equal; [f_equal; apply map_ext; intros [k v]; by rewrite <- !app_assoc|]. f_equal.
  by destruct (existsb _ _).
Qed.

(** C25: no response splitting. Whatever a script puts into its headers and
    cookies, line breaks included, the head it sends is the status line, one
    line for each header and each cookie, the default Content-Type if there is
    none, and the empty line: the first empty line is the end of the head, and
    what follows is the body. (The reason phrases of the program have no line
    breaks.) *)
Theorem response_head_not_split w rest :
  Http.clean (status_text w) ->
  build_headers w ++ rest = Http.render (status_line w) (header_lines w) rest /\
  Http.clean (status_line w) /\ Http.wf_lines (header_lines w) /\
  length (header_lines w) =
    (size (headers_out w) + length (set_cookies_out w) + if has_content_type w then 0 else 1)%nat /\
  find_str (CRLF ++ CRLF) (build_headers w ++ rest) = Some (length (build_headers w) - 4)%nat.
Proof.
  intros Hs. assert (Hst : Http.clean (status_line w)).
  { unfold status_line. rewrite !clean_app. pose proof (int_to_string_clean (status_code w)). by repeat constructor. }
  assert (Hls : Http.wf_lines (header_lines w)).
  { unfold Http.wf_lines, header_lines. rewrite !Forall_app, !Forall_map. split; [|split].
    - apply Forall_true. intros [k v]. cbn [fst snd]. rewrite !clean_app.
      pose proof (strip_crlf_clean k). pose proof (strip_crlf_clean v).
      split; [by repeat constructor|]. by destruct (strip_crlf k).
    - apply Forall_true. intros c. rewrite clean_app. pose proof (strip_crlf_clean c). split; [by repeat constructor|done].
    - case_if; by repeat constructor. }
  split; [apply build_headers_render|]. split; [exact Hst|]. split; [exact Hls|]. split.
  - unfold header_lines. rewrite !length_app, !length_map, (Permutation_length (in_order_perm (headers_out w))).
    rewrite length_map_to_list. case_if; cbn [length]; lia.
  - pose proof (Http.find_crlf2 (status_line w) (header_lines w) rest Hst Hls) as Hf.
    rewrite build_headers_render. unfold Http.render. change CRLF with Http.CRLF. rewrite Hf. f_equal.
    pose proof (build_headers_render w []) as Hb. rewrite app_nil_r in Hb. rewrite Hb. unfold Http.render.
    rewrite !length_app. cbn [length Http.CRLF]. lia.
Qed.
Lemma response_head_not_split_witness :
  let w := MkWeb [] [] [] [] [] [] false ∅ ∅ ∅ ∅ ∅ 200 (lit "OK")
    {[ lit "X-A" := lit "1" ++ CRLF ++ lit "Set-Cookie: evil=1" ++ CRLF ++ CRLF ++ lit "<html>" ]} [lit "id=7"] false ∅ in
  build_headers w = lit "Status: 200 OK" ++ CRLF ++ lit "X-A: 1" ++ CRLF ++ lit "Set-Cookie: id=7" ++ CRLF
    ++ lit "Content-Type: text/html; charset=utf-8" ++ CRLF ++ CRLF /\
  find_str (CRLF ++ CRLF) (build_headers w ++ lit "body") = Some (length (build_headers w) - 4)%nat.
Proof.
  intros w. split; [vm_compute; reflexivity|].
  refine (proj2 (proj2 (proj2 (proj2 (response_head_not_split w (lit "body") _))))). by repeat constructor.
Defined.

(** * Forms *)

(** A part as a browser writes it: the name of the field, the name of the file
    for an upload, the data. *)
Record part := MkPart { p_name : bytes; p_file : option bytes; p_data : bytes }.

Definition Q : bytes := [DQUOTE].
Definition disposition_line (p : part) : bytes :=
  lit "Content-Disposition: form-data; name=" ++ Q ++ p_name p ++ Q
  ++ match p_file p with Some f => lit "; filename=" ++ Q ++ f ++ Q | None => [] end.
Definition render_part (boundary : bytes) (p : part) : bytes :=
  lit "--" ++ boundary ++ CRLF ++ disposition_line p ++ CRLF ++ CRLF ++ p_data p ++ CRLF.
Definition render_form (boundary : bytes) (ps : list part) (tail : bytes) : bytes :=
  concat (map (render_part boundary) ps) ++ lit "--" ++ boundary ++ lit "--" ++ tail.

(** Names without quotes and line breaks; the boundary is nowhere in the data. *)
Definition plain (c : ascii) : Prop := c <> DQUOTE /\ Http.crlf_char c = false.
Definition part_ok (boundary : bytes) (p : part) : Prop :=
  p_name p <> [] /\ Forall (fun c => plain c /\ c <> "="%char) (p_name p) /\
  match p_file p with Some f => f <> [] /\ Forall plain f | None => True end /\
  find_str (CRLF ++ lit "--" ++ boundary) (p_data p ++ CRLF ++ lit "--" ++ boundary) = Some (length (p_data p)).

(** ** Searching *)

Lemma find_str_app t s r i : find_str t s = Some i -> find_str t (s ++ r) = Some i.
Proof.
  intros H. pose proof (find_str_Some _ _ _ H) as (s1 & s2 & E & Hi).
  destruct (find_str t (s ++ r)) as [j|] eqn:Ej.
  - f_equal. assert (Hji : (j <= i)%nat).
    { rewrite <- Hi. apply (find_str_first t (s ++ r) j s1 (s2 ++ r) Ej). by rewrite E, <- !app_assoc. }
    apply Nat.le_antisymm; [done|]. apply find_str_Some in Ej as (u1 & u2 & Eu & <-).
    rewrite (find_str_first t s i u1 (drop (length u1 + length t) s) H); [done|].
    assert (Hlen : (length u1 + length t <= length s)%nat) by (rewrite E, !length_app; lia).
    rewrite <- (take_drop (length u1 + length t) s) at 1. rewrite app_assoc. f_equal.
    apply (f_equal (take (length u1 + length t))) in Eu. rewrite take_app_le, app_assoc in Eu by done.
    rewrite Eu. apply (take_app_length' (u1 ++ t)). by rewrite length_app.
  - exfalso. apply (find_str_None t (s ++ r) s1 (s2 ++ r) Ej). by rewrite E, <- !app_assoc.
Qed.

Lemma find_str_here t s : find_str t (t ++ s) = Some 0%nat.
Proof. pose proof (starts_with_app t s) as H. destruct (t ++ s); cbn [find_str]; by rewrite H. Qed.

(** A search for [k] passes over a text without '=' and the quote behind it. *)
Lemma find_key_skip name y : Forall (fun c => plain c /\ c <> "="%char) name ->
  find_str (lit "filename=" ++ Q) (name ++ DQUOTE :: y) = (fun i => S (length name + i)) <$> find_str (lit "filename=" ++ Q) y.
Proof.
  intros Hn. induction Hn as [|c name [_ Hc] Hn IH].
  - cbn [app length]. change (find_str ?k (DQUOTE :: y)) with (S <$> find_str k y).
    by destruct (find_str _ y).
  - set (k := lit "filename=" ++ Q) in *. cbn [app find_str].
    assert (Hs : starts_with k (c :: name ++ DQUOTE :: y) = false).
    { destruct (starts_with k _) eqn:E; [|done]. exfalso. apply starts_with_spec in E as [r E].
      change (c :: name ++ DQUOTE :: y) with ((c :: name) ++ DQUOTE :: y) in E.
      assert (Hk : forall i, (i <= 8)%nat -> ((c :: name) ++ DQUOTE :: y) !! i = k !! i).
      { intros i Hi. rewrite E. apply lookup_app_l. change (length k) with 10%nat. lia. }
      destruct (decide (8 < length (c :: name))%nat) as [H8|H8].
      - pose proof (Hk 8%nat (le_n _)) as H. rewrite lookup_app_l in H by lia.
        change (k !! 8%nat) with (Some "="%char) in H.
        assert (Hall : Forall (fun c => c <> "="%char) (c :: name)) by (constructor; [done|eapply Forall_impl; [exact Hn|by intros ? [_ ?]]]).
        rewrite Forall_lookup in Hall. by apply (Hall _ _ H).
      - assert (Hq : ((c :: name) ++ DQUOTE :: y) !! length (c :: name) = Some DQUOTE).
        { rewrite lookup_app_r by lia. by rewrite Nat.sub_diag. }
        assert (Hlt : (length (c :: name) <= 8)%nat) by lia. revert Hk Hq. generalize (length (c :: name)) Hlt. intros n Hle Hk Hq.
        rewrite (Hk n Hle) in Hq. do 9 (destruct n as [|n]; [discriminate Hq|]). lia. }
    rewrite Hs, IH. destruct (find_str k y); [|done]. cbn. f_equal.
Qed.

Lemma find_quote name y : Forall plain name -> find_if (is_c DQUOTE) (name ++ DQUOTE :: y) = Some (length name).
Proof.
  intros Hn. apply find_if_app_l; [|apply is_c_refl]. eapply Forall_impl; [exact Hn|].
  intros c [Hc _]. by apply is_c_false.
Qed.

Lemma extract_name p : Forall plain (p_name p) -> extract (lit "name") (disposition_line p) = p_name p.
Proof.
  intros Hn. unfold extract, disposition_line. cbv zeta.
  change (find_str (lit "name" ++ [("=" : ascii); DQUOTE])
    (lit "Content-Disposition: form-data; name=" ++ Q ++ p_name p ++ Q ++ match p_file p with Some f => lit "; filename=" ++ Q ++ f ++ Q | None => [] end))
    with (Some 32%nat). cbn beta iota.
  change (drop (32 + length (lit "name" ++ [("=" : ascii); DQUOTE]))
    (lit "Content-Disposition: form-data; name=" ++ Q ++ p_name p ++ Q ++ match p_file p with Some f => lit "; filename=" ++ Q ++ f ++ Q | None => [] end))
    with (p_name p ++ DQUOTE :: match p_file p with Some f => lit "; filename=" ++ Q ++ f ++ Q | None => [] end).
  by rewrite find_quote, take_app_length.
Qed.

Lemma extract_filename p : Forall (fun c => plain c /\ c <> "="%char) (p_name p) ->
  match p_file p with Some f => Forall plain f | None => True end ->
  extract (lit "filename") (disposition_line p) = default [] (p_file p).
Proof.
  intros Hn Hf. set (y := match p_file p with Some f => lit "; filename=" ++ Q ++ f ++ Q | None => [] end).
  set (front := lit "Content-Disposition: form-data; name=" ++ Q).
  assert (E : disposition_line p = front ++ p_name p ++ DQUOTE :: y) by reflexivity.
  assert (Ef : forall x, find_str (lit "filename=" ++ Q) (front ++ x) = (fun i => (38 + i)%nat) <$> find_str (lit "filename=" ++ Q) x).
  { intros x. transitivity (Nat.iter 38 (fmap S) (find_str (lit "filename=" ++ Q) x)); [reflexivity|].
    by destruct (find_str _ x). }
  unfold extract. cbv zeta. rewrite E. change (lit "filename" ++ [("=" : ascii); DQUOTE]) with (lit "filename=" ++ Q).
  rewrite Ef, find_key_skip by done. destruct (p_file p) as [f|]; [|done].
  change (find_str (lit "filename=" ++ Q) y) with (Some 2%nat). cbn [fmap option_fmap option_map].
  assert (Hd : drop (38 + S (length (p_name p) + 2) + length (lit "filename=" ++ Q)) (front ++ p_name p ++ DQUOTE :: y) = f ++ DQUOTE :: []).
  { replace (front ++ p_name p ++ DQUOTE :: y)
      with ((front ++ p_name p ++ DQUOTE :: lit "; filename=" ++ Q) ++ f ++ DQUOTE :: []).
    - apply drop_app_length'. rewrite !length_app. cbn [length]. rewrite !length_app.
      change (length front) with 38%nat. change (length (lit "; filename=")) with 11%nat.
      change (length (lit "filename=")) with 9%nat. change (length Q) with 1%nat. lia.
    - subst y. by rewrite <- !app_assoc. }
  rewrite Hd, find_quote by done. by rewrite take_app_length.
Qed.

(** ** One part *)

Lemma plain_clean s : Forall plain s -> Http.clean s.
Proof. intros H. eapply Forall_impl; [exact H|by intros ? [_ ?]]. Qed.

Lemma disposition_clean boundary p : part_ok boundary p -> Http.clean (disposition_line p).
Proof.
  intros (_ & Hn & Hf & _). unfold disposition_line. rewrite !clean_app. split; [by repeat constructor|].
  split; [by repeat constructor|]. split; [apply plain_clean; eapply Forall_impl; [exact Hn|by intros ? [? _]]|].
  split; [by repeat constructor|]. destruct (p_file p) as [f|]; [|constructor]. destruct Hf as [_ Hf]. rewrite !clean_app.
  split; [by repeat constructor|]. split; [by repeat constructor|]. split; [by apply plain_clean|by repeat constructor].
Qed.

Lemma getline_one l : l <> [] -> Forall (fun c => is_c LF c = false) l -> getline_all LF l = [l].
Proof. intros Hne Hl. unfold getline_all. rewrite split_on_no by done. cbn [last]. by destruct l. Qed.

Lemma part_names_spec boundary p : part_ok boundary p ->
  part_names (disposition_line p) = (p_name p, default [] (p_file p)).
Proof.
  intros Hp. pose proof (disposition_clean boundary p Hp) as Hc. destruct Hp as (_ & Hn & Hf & _).
  unfold part_names. rewrite getline_one.
  - cbn [fold_left]. unfold disposition. assert (Hchop : chop_cr (disposition_line p) = disposition_line p).
    { unfold chop_cr. assert (Hl : exists a, disposition_line p = a ++ Q).
      { unfold disposition_line. destruct (p_file p) as [f|].
        - exists (lit "Content-Disposition: form-data; name=" ++ Q ++ p_name p ++ Q ++ lit "; filename=" ++ Q ++ f).
          by rewrite <- !app_assoc.
        - exists (lit "Content-Disposition: form-data; name=" ++ Q ++ p_name p). by rewrite app_nil_r, <- !app_assoc. }
      destruct Hl as [a ->]. unfold Q. by rewrite last_snoc. }
    rewrite Hchop. replace (contains (lit "Content-Disposition:") (disposition_line p)) with true.
    + rewrite extract_name, extract_filename; [done|done| |].
      * destruct (p_file p); [by destruct Hf|done].
      * eapply Forall_impl; [exact Hn|by intros ? [? _]].
    + symmetry. unfold contains. apply bool_decide_eq_true. exists 0%nat. reflexivity.
  - done.
  - eapply Forall_impl; [exact Hc|]. intros c Hx. apply orb_false_iff in Hx as [_ Hx]. exact Hx.
Qed.

(** What the data of a part add to the form. *)
Definition add (D : Disk) (f : Form) (p : part) : Form :=
  match p_file p with
  | Some name => MkForm (fields f) (<[ p_name p := make_file D (made f) (p_name p) name (p_data p) ]> (files f)) (S (made f))
  | None => MkForm (<[ p_name p := p_data p ]> (fields f)) (files f) (made f)
  end.

Lemma add_part_spec boundary D p f : part_ok boundary p ->
  add_part D (p_name p, default [] (p_file p)) (p_data p) f = add D f p.
Proof.
  intros (Hne & _ & Hf & _). unfold add_part, add. rewrite (proj2 (bytes_eqb_neq (p_name p) [])) by done.
  destruct (p_file p) as [name|]; [|done]. destruct Hf as [Hname _]. change (default [] (Some name)) with name.
  by rewrite (proj2 (bytes_eqb_neq name [])).
Qed.

Lemma multipart_loop_parts D boundary tail : forall ps n f, Forall (part_ok boundary) ps -> (length ps <= n)%nat ->
  multipart_loop D n (lit "--" ++ boundary) (render_form boundary ps tail) f = fold_left (add D) ps f.
Proof.
  induction ps as [|p ps IH]; intros n f Hps Hn.
  - destruct n as [|n]; [done|]. unfold render_form. cbn [map concat multipart_loop app].
    change (lit "--" ++ boundary ++ lit "--" ++ tail) with ((lit "--" ++ boundary) ++ lit "--" ++ tail).
    by rewrite drop_app_length, starts_with_app.
  - apply Forall_cons in Hps as [Hp Hps]. destruct n as [|n]; [cbn in Hn; lia|].
    assert (Hform : render_form boundary (p :: ps) tail = (lit "--" ++ boundary) ++ CR :: LF ::
      (disposition_line p ++ CRLF ++ CRLF ++ p_data p ++ CRLF ++ render_form boundary ps tail)).
    { unfold render_form, render_part. cbn [map concat]. by rewrite <- !app_assoc. }
    rewrite Hform. cbn [multipart_loop]. rewrite drop_app_length. change (starts_with (lit "--") (CR :: _)) with false.
    change (CR =c CR) with true. cbn iota. change (LF =c LF) with true. cbn iota.
    set (after := p_data p ++ CRLF ++ render_form boundary ps tail).
    pose proof (Http.find_crlf2 (disposition_line p) [] after (disposition_clean boundary p Hp) ltac:(constructor)) as Hh.
    change (Http.crlf_lines []) with (@nil ascii) in Hh. cbn [app length] in Hh. rewrite Nat.add_0_r in Hh.
    change Http.CRLF with CRLF in Hh. rewrite Hh. rewrite take_app_length, (part_names_spec boundary p Hp).
    replace (drop (length (disposition_line p) + 4) (disposition_line p ++ CRLF ++ CRLF ++ after)) with after
      by (by rewrite drop_app_add).
    assert (Hnext : exists more, render_form boundary ps tail = (lit "--" ++ boundary) ++ more).
    { unfold render_form. destruct ps as [|q ps]; cbn [map concat app].
      - exists (lit "--" ++ tail). done.
      - unfold render_part at 1. eexists. rewrite <- !app_assoc. reflexivity. }
    destruct Hnext as [more Hmore].
    assert (Hend : find_str (CRLF ++ lit "--" ++ boundary) after = Some (length (p_data p))).
    { destruct Hp as (_ & _ & _ & Hd). apply (find_str_app _ _ more) in Hd. rewrite <- !app_assoc in Hd.
      unfold after. rewrite Hmore, <- app_assoc. exact Hd. }
    rewrite Hend. unfold after. rewrite take_app_length.
    replace (drop (length (p_data p) + 2) (p_data p ++ CRLF ++ render_form boundary ps tail)) with (render_form boundary ps tail)
      by (by rewrite drop_app_add).
    rewrite Hmore at 1. rewrite find_str_here. rewrite drop_0, (add_part_spec boundary D p f Hp).
    cbn [fold_left]. apply IH; [done|cbn in Hn; lia].
Qed.

(** A form is read back: for a body of up to a thousand parts written as
    RFC 2046 says (fields and files, in any order and with any data in which
    the boundary does not occur) the parser sets each field to its data, in
    order, and makes one file for each upload, with the size, the digest, the
    detected type and the cleaned name, and nothing else changes. *)
Theorem multipart_roundtrip D boundary ps tail w :
  Forall (part_ok boundary) ps -> (length ps <= MAX_PARTS)%nat -> body w = render_form boundary ps tail ->
  let f := fold_left (add D) ps (MkForm (post_params w) (uploaded_files w) 0) in
  parse_multipart D boundary w = with_form (fields f) (files f) w.
Proof.
  intros Hps Hn Hb. cbv zeta. unfold parse_multipart. rewrite Hb.
  assert (Hstart : exists more, render_form boundary ps tail = (lit "--" ++ boundary) ++ more).
  { unfold render_form. destruct ps as [|q ps']; cbn [map concat app].
    - exists (lit "--" ++ tail). done.
    - unfold render_part at 1. eexists. rewrite <- !app_assoc. reflexivity. }
  destruct Hstart as [more Hmore]. rewrite Hmore at 1. rewrite find_str_here, drop_0.
  by rewrite multipart_loop_parts.
Qed.

Lemma multipart_roundtrip_witness :
  let D := MkDisk (lit "/tmp") (fun _ => []) (fun _ => true) in
  let ps := [MkPart (lit "a") None (lit "1" ++ CRLF ++ lit "--2"); MkPart (lit "up") (Some (lit "C:\x.txt")) (lit "hi")] in
  let w := with_status 200 (lit "OK") (MkWeb (lit "POST") (lit "/") [] (render_form (lit "xyz") ps CRLF) [] [] false
             ∅ ∅ ∅ ∅ ∅ 200 (lit "OK") ∅ [] false ∅) in
  let f := fold_left (add D) ps (MkForm (post_params w) (uploaded_files w) 0) in
  parse_multipart D (lit "xyz") w = with_form (fields f) (files f) w /\
  post_params (parse_multipart D (lit "xyz") w) !! lit "a" = Some (lit "1" ++ CRLF ++ lit "--2") /\
  orig_name <$> (uploaded_files (parse_multipart D (lit "xyz") w) !! lit "up") = Some (lit "x.txt").
Proof.
  intros D ps w f.
  assert (H : parse_multipart D (lit "xyz") w = with_form (fields f) (files f) w).
  { apply (multipart_roundtrip D (lit "xyz") ps CRLF w); [|cbn; unfold MAX_PARTS; lia|reflexivity].
    constructor; [|constructor; [|constructor]]; (split; [done|]);
      (split; [by repeat constructor|]); (split; [|vm_compute; reflexivity]); [done|]. split; [done|]. by repeat constructor. }
  split; [exact H|]. rewrite H. split; vm_compute; reflexivity.
Defined.

(** What is behind a percent sign is read with [stoi], which takes a sign, a
    space or one digit: these are decoded, and their characters lost. *)
Example url_decode_bad_escapes :
  url_decode true (lit "%4g!") = chr 4 :: lit "!" /\ url_decode false (lit "%-1!") = chr 255 :: lit "!".
Proof. split; vm_compute; reflexivity. Qed.

(** [name=] is also found inside [filename=]. *)
Example filename_first :
  part_names (lit "Content-Disposition: form-data; filename=" ++ Q ++ lit "x" ++ Q ++ lit "; name=" ++ Q ++ lit "f" ++ Q)
  = (lit "x", lit "x").
Proof. vm_compute. reflexivity. Qed.

(** A value in single quotes may hold double quotes, and it is written between
    double quotes: the attribute it hides comes out. *)
Example svg_quote_injection :
  svg_sanitize (lit "<svg a='" ++ Q ++ lit " onload=" ++ Q ++ lit "alert(1)'>") =
  lit "<svg a=" ++ Q ++ Q ++ lit " onload=" ++ Q ++ lit "alert(1)" ++ Q ++ lit ">".
Proof. vm_compute. reflexivity. Qed.

End Web.
