(* ===== verification/Routes.v ===== *)
(** The routes of a web application: registration with groups
    (cpp/src/route_group.cpp, the [route] built-in of cpp/src/interpreter.cpp and
    of cpp/src/http_main.cpp), matching and dispatch in the virtual machine
    (cpp/src/vm.cpp) and in the interpreter.

    The two engines match in different ways: the virtual machine compares the
    segments of the path, the interpreter compiles the pattern to a regular
    expression. Both are modelled as they are, the second with the part of
    [std::regex] that the patterns use.

    Functions of the script are values of an abstract type [H]; calling one is
    a parameter of the dispatch. *)

From S2P Require Import Prelude Web.

Module Routes.
Import Web.

(** * Groups *)

Section Groups.
Context {H : Type}.

Record GroupFrame := MkGroup { prefix : bytes; mws : list H }.

(** The stack, the innermost frame last. *)
Definition route_group_push (p : bytes) (m : list H) (st : list GroupFrame) : list GroupFrame := st ++ [MkGroup p m].
Definition route_group_pop (st : list GroupFrame) : list GroupFrame := removelast st.
Definition route_group_active (st : list GroupFrame) : bool := match st with [] => false | _ => true end.
Definition route_group_prefix (st : list GroupFrame) : bytes := concat (map prefix st).
Definition route_group_middlewares (st : list GroupFrame) : list H := concat (map mws st).

(** What a script registers: a route, or the handler of [route("404", fn)]. *)
Inductive registration :=
| Route (method pattern : bytes) (own : list H) (fn : H)
| NotFound (fn : H).

(** ** The table of the virtual machine *)

Record VmRoute := MkVmRoute { pattern : bytes; fn : H; middlewares : list H }.

Definition vm_register (st : list GroupFrame) (r : registration) : VmRoute :=
  match r with
  | Route m p own f => MkVmRoute (m ++ lit ":" ++ route_group_prefix st ++ p) f (route_group_middlewares st ++ own)
  | NotFound f => MkVmRoute (lit "404:/") f []
  end.

Definition is_static (r : VmRoute) : bool := negb (has_char (is_c "{") (pattern r)).
(** [std::stable_partition] *)
Definition route_closures (table : list VmRoute) : list VmRoute :=
  List.filter is_static table ++ List.filter (fun r => negb (is_static r)) table.

(** ** The table of the interpreter *)

Record RouteEntry := MkEntry {
  e_method : bytes; param_names : list bytes; pattern_re : bytes; callback : H; e_middlewares : list H; is_404 : bool }.
End Groups.
Arguments GroupFrame : clear implicits.
Arguments registration : clear implicits.
Arguments VmRoute : clear implicits.
Arguments RouteEntry : clear implicits.

Definition special : bytes := lit ".^$*+?()[]{}|\".

(** [parse_pattern], at the text that is left of [pat]. An open brace that is
    not closed makes the position wrap to 0: [None] is that loop. *)
Fixpoint parse_pattern_loop (fuel : nat) (pat rest r : bytes) (names : list bytes) : option (bytes * list bytes) :=
  match rest with
  | [] => Some (r ++ lit "$", names)
  | c :: rest' =>
      match fuel with
      | O => None
      | S fuel =>
          if c =c "{" then
            match find_if (is_c "}") rest with
            | Some e => parse_pattern_loop fuel pat (drop (S e) rest) (r ++ lit "([^/]+)") (names ++ [substr rest 1 (e - 1)])
            | None => parse_pattern_loop fuel pat pat (r ++ lit "([^/]+)") (names ++ [rest'])
            end
          else
            parse_pattern_loop fuel pat rest' (r ++ (if one_of special c then [BACKSLASH; c] else [c])) names
      end
  end.
Definition parse_pattern (pat : bytes) : option (bytes * list bytes) :=
  parse_pattern_loop (length pat) pat pat (lit "^") [].

Definition interp_register {H} (st : list (GroupFrame H)) (r : registration H) : option (RouteEntry H) :=
  match r with
  | Route m p own f =>
      let (p, mws) := if route_group_active st
        then (route_group_prefix st ++ p, route_group_middlewares st ++ own) else (p, own) in
      match parse_pattern p with
      | Some (re, names) => Some (MkEntry m names re f mws false)
      | None => None
      end
  | NotFound f => Some (MkEntry (lit "404") [] [] f [] true)
  end.

(** * Matching in the virtual machine *)

Definition nonempty (s : bytes) : bool := negb (s =s []).
Definition split_path (s : bytes) : list bytes := List.filter nonempty (getline_all "/" s).

(** The name of a parameter segment. *)
Definition param_segment (p : bytes) : option bytes :=
  match p with
  | c :: rest =>
      if (2 <? length p)%nat && (c =c "{") && match last p with Some d => d =c "}" | None => false end
      then Some (substr p 1 (length p - 2)) else None
  | [] => None
  end.

Fixpoint match_segments (pp rp : list bytes) : option (list bytes * list (bytes * bytes)) :=
  match pp, rp with
  | [], [] => Some ([], [])
  | p :: pp, r :: rp =>
      match param_segment p with
      | Some name =>
          let dv := url_decode false r in
          match match_segments pp rp with
          | Some (params, named) => Some (dv :: params, (name, dv) :: named)
          | None => None
          end
      | None => if p =s r then match_segments pp rp else None
      end
  | _, _ => None
  end.
Definition route_match (pat path : bytes) : option (list bytes * list (bytes * bytes)) :=
  match_segments (split_path pat) (split_path path).

(** * Regular expressions

    The expressions of [parse_pattern]: characters, escaped or not, and the
    group [([^/]+)], between [^] and [$]. *)

Inductive re_item := RChar (c : ascii) | RGroup.

Fixpoint re_items (fuel : nat) (s : bytes) : option (list re_item) :=
  match fuel, s with
  | _, [] => None
  | S fuel, c :: s' =>
      if c =c "$" then match s' with [] => Some [] | _ => None end
      else if c =c BACKSLASH then
        match s' with d :: s'' => cons (RChar d) <$> re_items fuel s'' | [] => None end
      else if starts_with (lit "([^/]+)") s then cons RGroup <$> re_items fuel (drop 7 s)
      else if one_of special c then None
      else cons (RChar c) <$> re_items fuel s'
  | O, _ => None
  end.
Definition regex (s : bytes) : option (list re_item) :=
  match s with c :: s' => if c =c "^" then re_items (length s') s' else None | [] => None end.

(** How many characters [[^/]+] can take. *)
Fixpoint segment_run (s : bytes) : nat :=
  match s with c :: s' => if c =c "/" then O else S (segment_run s') | [] => O end.

(** [std::regex_match]: the groups; the longest first, then shorter ones. *)
Fixpoint regex_match (its : list re_item) (s : bytes) : option (list bytes) :=
  match its with
  | [] => match s with [] => Some [] | _ => None end
  | RChar c :: its =>
      match s with d :: s' => if d =c c then regex_match its s' else None | [] => None end
  | RGroup :: its =>
      (fix try (n : nat) : option (list bytes) :=
         match n with
         | O => None
         | S n' =>
             match regex_match its (drop n s) with
             | Some caps => Some (take n s :: caps)
             | None => try n'
             end
         end) (segment_run s)
  end.

(** * Dispatch *)

Section Dispatch.
Context {H : Type}.

(** What a request is to run: middlewares and a handler with its arguments and
    the named parameters, or the handler for unknown paths. *)
Inductive plan :=
| Run (mws : list H) (fn : H) (args : list bytes) (named : list (bytes * bytes))
| Unknown (fn : option H).

(** The method and the path of an entry of the virtual machine. *)
Definition vm_key (r : VmRoute H) : option (bytes * bytes) :=
  match find_if (is_c ":") (pattern r) with
  | Some colon => Some (take colon (pattern r), drop (S colon) (pattern r))
  | None => None
  end.

Fixpoint vm_find (table : list (VmRoute H)) (method path : bytes) : option plan :=
  match table with
  | [] => None
  | e :: table =>
      match vm_key e with
      | None => vm_find table method path
      | Some (m, p) =>
          if negb (m =s method) && negb (m =s lit "*") then vm_find table method path
          else match route_match p path with
          | Some (params, named) => Some (Run (middlewares e) (fn e) params named)
          | None => vm_find table method path
          end
      end
  end.
Fixpoint vm_404 (table : list (VmRoute H)) : option H :=
  match table with
  | [] => None
  | e :: table =>
      match vm_key e with
      | Some (m, _) => if m =s lit "404" then Some (fn e) else vm_404 table
      | None => vm_404 table
      end
  end.
Definition vm_plan (table : list (VmRoute H)) (method path : bytes) : plan :=
  match vm_find table method path with Some p => p | None => Unknown (vm_404 table) end.

(** One pass of the interpreter: over the static routes, or over the others. *)
Fixpoint interp_find (static : bool) (table : list (RouteEntry H)) (method path : bytes) : option plan :=
  match table with
  | [] => None
  | e :: table =>
      if is_404 e then interp_find static table method path
      else if negb (Bool.eqb static (match param_names e with [] => true | _ => false end))
      then interp_find static table method path
      else if negb (e_method e =s method) && negb (e_method e =s lit "*") then interp_find static table method path
      else match regex (pattern_re e) ≫= fun its => regex_match its path with
      | None => interp_find static table method path
      | Some caps =>
          let args := map (url_decode false) caps in
          Some (Run (e_middlewares e) (callback e) args (zip (param_names e) args))
      end
  end.
Definition interp_404 (table : list (RouteEntry H)) : option H :=
  match List.filter is_404 table with e :: _ => Some (callback e) | [] => None end.
Definition interp_plan (table : list (RouteEntry H)) (method path : bytes) : plan :=
  match interp_find true table method path with
  | Some p => p
  | None => match interp_find false table method path with
            | Some p => p
            | None => Unknown (interp_404 table)
            end
  end.

(** ** Running a plan *)

(** A call of a function of the script: it returns, or [stop()] ends it, or an
    exception leaves it. *)
Inductive script_call (St : Type) := Returned (s : St) | Stopped (s : St) | Raised (s : St).
#[global] Arguments Returned {St}.
#[global] Arguments Stopped {St}.
#[global] Arguments Raised {St}.

Section Run.
Context {St : Type} (call : H -> list bytes -> St -> script_call St).
Context (on_web : (WebContext -> WebContext) -> St -> St) (print : bytes -> St -> St).

Fixpoint run_middlewares (ms : list H) (s : St) : script_call St :=
  match ms with
  | [] => Returned s
  | m :: ms => match call m [] s with Returned s => run_middlewares ms s | x => x end
  end.

Definition put_params (named : list (bytes * bytes)) (m : gmap (list ascii) (list ascii)) : gmap (list ascii) (list ascii) :=
  fold_left (fun m kv => <[ kv.1 := kv.2 ]> m) named m.

(** [VM::dispatch_routes], for routes that are not pinned to the interpreter. *)
Definition vm_dispatch (table : list (VmRoute H)) (method path : bytes) (s : St) : script_call St :=
  match vm_plan table method path with
  | Run ms f args named =>
      let s := on_web (fun w => with_route (route_matched w) (put_params named (route_params w)) w) s in
      match run_middlewares ms s with
      | Returned s => call f args s
      | Stopped s => Returned s
      | Raised s => Raised s
      end
  | Unknown h =>
      let s := on_web (with_status 404 (lit "Not Found")) s in
      match h with
      | Some f => call f [] s
      | None => Returned (print (lit "404 Not Found") s)
      end
  end.

(** [Interpreter::dispatch_routes] behind the [before_route] functions. A
    handler gets as many arguments as it has parameters. *)
Context (arity : H -> nat) (null : bytes).
Definition fit (n : nat) (args : list bytes) : list bytes := take n (args ++ replicate (n - length args) null).

Definition body_404 : bytes :=
  let q := [DQUOTE] in
  lit "{" ++ q ++ lit "ok" ++ q ++ lit ":false," ++ q ++ lit "error" ++ q ++ lit ":" ++ q ++ lit "Endpoint not found"
  ++ q ++ lit "," ++ q ++ lit "hata" ++ q ++ lit ":" ++ q ++ lit "Endpoint not found" ++ q ++ lit "}".

Definition interp_dispatch (before : list H) (table : list (RouteEntry H)) (method path : bytes) (s : St) : script_call St :=
  match run_middlewares before s with
  | Stopped s => Returned s
  | Raised s => Raised s
  | Returned s =>
      match interp_plan table method path with
      | Run ms f args named =>
          let s := on_web (with_route true (put_params named ∅)) s in
          match run_middlewares ms s with
          | Returned s => call f (fit (arity f) args) s
          | Stopped s => Returned s
          | Raised s => Raised s
          end
      | Unknown h =>
          let s := on_web (set_status 404) s in
          match h with
          | Some f => call f [] s
          | None => Returned (print body_404 s)
          end
      end
  end.
End Run.
End Dispatch.

(** * Patterns and paths by their segments *)

Inductive seg := SLit (t : bytes) | SParam (name : bytes).
Definition seg_text (g : seg) : bytes := match g with SLit t => t | SParam n => lit "{" ++ n ++ lit "}" end.
Definition seg_names (g : seg) : list bytes := match g with SLit _ => [] | SParam n => [n] end.
Definition good_seg (g : seg) : Prop :=
  match g with
  | SLit t => t <> [] /\ Forall (fun c => c <> "/"%char /\ c <> "{"%char) t
  | SParam n => n <> [] /\ Forall (fun c => c <> "/"%char /\ c <> "}"%char) n
  end.

(** "/a/b"; the root is "/". *)
Definition slashed (l : list bytes) : bytes := concat (map (fun q => "/"%char :: q) l).
Definition path_text (l : list bytes) : bytes := match l with [] => lit "/" | _ => slashed l end.
Definition good_name (q : bytes) : Prop := q <> [] /\ Forall (fun c => c <> "/"%char) q.
Definition pattern_text (gs : list seg) : bytes := path_text (map seg_text gs).

(** The specification of both engines: segment by segment. *)
Fixpoint matches (gs : list seg) (qs : list bytes) : option (list bytes) :=
  match gs, qs with
  | [], [] => Some []
  | SLit t :: gs, q :: qs => if t =s q then matches gs qs else None
  | SParam _ :: gs, q :: qs => cons q <$> matches gs qs
  | _, _ => None
  end.
Definition names (gs : list seg) : list bytes := concat (map seg_names gs).

Lemma good_seg_text g : good_seg g -> good_name (seg_text g).
Proof.
  destruct g as [t|n]; cbn [good_seg seg_text]; intros [Hne H]; split; try done.
  - eapply Forall_impl; [exact H|by intros ? [? _]].
  - apply Forall_app. split; [by repeat constructor|]. apply Forall_app. split; [|by repeat constructor].
    eapply Forall_impl; [exact H|by intros ? [? _]].
Qed.

(** ** The virtual machine *)

Lemma no_slash q : good_name q -> Forall (fun c => is_c "/" c = false) q.
Proof. intros [_ H]. eapply Forall_impl; [exact H|]. intros c Hc. by apply is_c_false. Qed.

Lemma split_on_slashed qs : Forall good_name qs -> forall q, good_name q ->
  split_on (is_c "/") (q ++ slashed qs) = q :: qs.
Proof.
  induction 1 as [|q2 qs Hq2 _ IH]; intros q Hq.
  - cbn. rewrite app_nil_r. by apply split_on_no, no_slash.
  - change (slashed (q2 :: qs)) with ("/"%char :: q2 ++ slashed qs).
    rewrite split_on_app by (try apply no_slash; done). by rewrite IH.
Qed.

Lemma filter_good qs : Forall good_name qs -> List.filter nonempty qs = qs.
Proof. induction 1 as [|q qs [Hq _] _ IH]; cbn; [done|]. unfold nonempty at 1. rewrite (proj2 (bytes_eqb_neq q [])), IH; done. Qed.

Lemma split_path_text qs : Forall good_name qs -> split_path (path_text qs) = qs.
Proof.
  intros Hqs. destruct Hqs as [|q qs Hq Hqs]; [done|]. unfold split_path, getline_all, path_text.
  change (slashed (q :: qs)) with ("/"%char :: q ++ slashed qs).
  change (split_on (is_c "/") ("/"%char :: q ++ slashed qs)) with ([] :: split_on (is_c "/") (q ++ slashed qs)).
  rewrite (split_on_slashed qs Hqs q Hq).
  assert (Hlast : exists x, last ([] :: q :: qs) = Some x /\ x <> []).
  { destruct (last (q :: qs)) as [x|] eqn:E; [|by apply last_None in E].
    exists x. split; [exact E|]. apply last_Some_elem_of in E.
    assert (Hall : Forall good_name (q :: qs)) by by constructor. rewrite Forall_forall in Hall. by apply Hall in E as [? _]. }
  destruct Hlast as (x & -> & Hx). destruct x as [|c x]; [done|]. cbn [List.filter].
  change (nonempty []) with false. cbn iota. apply (filter_good (q :: qs)). by constructor.
Qed.

Lemma param_segment_text g : good_seg g ->
  param_segment (seg_text g) = match g with SLit _ => None | SParam n => Some n end.
Proof.
  destruct g as [t|n]; cbn [good_seg seg_text]; intros [Hne H].
  - destruct t as [|c t]; [done|]. cbn [param_segment]. apply Forall_cons in H as [[_ Hc] _].
    rewrite (proj2 (Ascii.eqb_neq _ _) Hc). by rewrite andb_false_r.
  - change (lit "{" ++ n ++ lit "}") with ("{"%char :: (n ++ ["}"%char])). cbn [param_segment].
    change ("{" =c "{") with true. rewrite andb_true_r.
    change ("{"%char :: n ++ ["}"%char]) with (("{"%char :: n) ++ ["}"%char]). rewrite last_snoc.
    change ("}" =c "}") with true. rewrite andb_true_r. rewrite length_app. cbn [length].
    rewrite (proj2 (Nat.ltb_lt _ _)) by (destruct n; [done|cbn; lia]). f_equal. unfold substr.
    cbn [app drop]. rewrite skipn_0. apply take_app_length'. lia.
Qed.

Lemma match_segments_spec gs : Forall good_seg gs -> forall qs,
  match_segments (map seg_text gs) qs =
  (fun caps => (map (url_decode false) caps, zip (names gs) (map (url_decode false) caps))) <$> matches gs qs.
Proof.
  induction 1 as [|g gs Hg _ IH]; intros [|q qs]; cbn [map match_segments matches]; try done.
  - by destruct g.
  - rewrite param_segment_text, IH by done. destruct g as [t|n]; cbn [seg_text].
    + case_if; [|done]. by destruct (matches gs qs).
    + by destruct (matches gs qs).
Qed.

(** ** The interpreter *)

Definition seg_items (g : seg) : list re_item := match g with SLit t => map RChar t | SParam _ => [RGroup] end.
Definition slashed_items (gs : list seg) : list re_item := concat (map (fun g => RChar "/" :: seg_items g) gs).
Definition items (gs : list seg) : list re_item := match gs with [] => [RChar "/"] | _ => slashed_items gs end.

Definition item_text (i : re_item) : bytes :=
  match i with RChar c => if one_of special c then [BACKSLASH; c] else [c] | RGroup => lit "([^/]+)" end.
Definition items_text (its : list re_item) : bytes := concat (map item_text its).

Lemma items_text_app l k : items_text (l ++ k) = items_text l ++ items_text k.
Proof. unfold items_text. by rewrite map_app, concat_app. Qed.

(** The regular expression of the text is the one that was meant. *)
Lemma re_items_text its : forall fuel, (length (items_text its ++ lit "$") <= fuel)%nat ->
  re_items fuel (items_text its ++ lit "$") = Some its.
Proof.
  induction its as [|i its IH]; intros fuel Hf; (destruct fuel as [|fuel]; [rewrite length_app in Hf; cbn in Hf; lia|]).
  - done.
  - change (items_text (i :: its)) with (item_text i ++ items_text its) in *.
    assert (Hlen : (0 < length (item_text i))%nat) by (destruct i as [c|]; cbn [item_text]; [case_if|]; cbn; lia).
    rewrite <- app_assoc in *. set (r := items_text its ++ lit "$") in *. rewrite length_app in Hf.
    specialize (IH fuel ltac:(lia)). destruct i as [c|]; cbn [item_text] in *.
    + destruct (one_of special c) eqn:Es.
      * cbn [app re_items]. change (BACKSLASH =c "$") with false. change (BACKSLASH =c BACKSLASH) with true. cbn iota.
        by rewrite IH.
      * assert (Hi : implb (negb (one_of special c)) (negb (c =c "$") && negb (c =c BACKSLASH) && negb ("(" =c c)) = true)
          by by_chars c.
        rewrite Es in Hi. cbn [negb implb] in Hi. rewrite !andb_true_iff, !negb_true_iff in Hi.
        destruct Hi as [[H1 H2] H3]. cbn [app re_items]. rewrite H1, H2.
        change (starts_with (lit "([^/]+)") (c :: r)) with (("(" =c c) && starts_with (lit "[^/]+)") r).
        rewrite H3, Es. cbn [andb]. by rewrite IH.
    + change (lit "([^/]+)" ++ r) with ("("%char :: (lit "[^/]+)" ++ r)). cbn [re_items].
      change ("(" =c "$") with false. change ("(" =c BACKSLASH) with false. cbn iota.
      change (starts_with (lit "([^/]+)") ("("%char :: lit "[^/]+)" ++ r)) with (starts_with (lit "[^/]+)") (lit "[^/]+)" ++ r)).
      rewrite starts_with_app. change (drop 7 ("("%char :: lit "[^/]+)" ++ r)) with r. by rewrite IH.
Qed.

Lemma regex_items its : regex (lit "^" ++ items_text its ++ lit "$") = Some its.
Proof. change (lit "^" ++ ?x) with ("^"%char :: x). cbn [regex]. change ("^" =c "^") with true. cbn iota. by apply re_items_text. Qed.

(** The loop over the text of a pattern. *)
Lemma parse_lit pat t rest r ns fuel : Forall (fun c => c <> "{"%char) t -> (length (t ++ rest) <= fuel)%nat ->
  exists fuel', (length rest <= fuel')%nat /\
  parse_pattern_loop fuel pat (t ++ rest) r ns = parse_pattern_loop fuel' pat rest (r ++ items_text (map RChar t)) ns.
Proof.
  intros Ht. revert r fuel. induction Ht as [|c t Hc _ IH]; intros r fuel Hf.
  - exists fuel. split; [done|]. cbn. by rewrite app_nil_r.
  - destruct fuel as [|fuel]; [cbn in Hf; lia|].
    destruct (IH (r ++ item_text (RChar c)) fuel) as (fuel' & Hf' & E); [cbn in Hf; lia|]. exists fuel'. split; [done|].
    cbn [app parse_pattern_loop]. rewrite (proj2 (Ascii.eqb_neq _ _) Hc). cbn [item_text] in E.
    change (items_text (map RChar (c :: t))) with (item_text (RChar c) ++ items_text (map RChar t)). cbn [item_text].
    rewrite E. by rewrite <- app_assoc.
Qed.

Lemma parse_segs pat gs : Forall good_seg gs -> forall r ns fuel, (length (slashed (map seg_text gs)) <= fuel)%nat ->
  parse_pattern_loop fuel pat (slashed (map seg_text gs)) r ns =
  Some (r ++ items_text (slashed_items gs) ++ lit "$", ns ++ names gs).
Proof.
  induction 1 as [|g gs Hg _ IH]; intros r ns fuel Hf.
  - unfold names. cbn. rewrite app_nil_r. by destruct fuel.
  - change (slashed (map seg_text (g :: gs))) with ("/"%char :: seg_text g ++ slashed (map seg_text gs)) in *.
    change (slashed_items (g :: gs)) with (RChar "/" :: seg_items g ++ slashed_items gs).
    change (names (g :: gs)) with (seg_names g ++ names gs).
    change (items_text (RChar "/" :: seg_items g ++ slashed_items gs)) with ("/"%char :: items_text (seg_items g ++ slashed_items gs)).
    rewrite items_text_app. destruct fuel as [|fuel]; [cbn in Hf; lia|].
    destruct g as [t|n]; cbn [good_seg seg_text seg_items seg_names] in *; destruct Hg as [Hne Hg].
    + destruct (parse_lit pat ("/"%char :: t) (slashed (map seg_text gs)) r ns (S fuel)) as (fuel' & Hf' & E).
      { constructor; [done|]. eapply Forall_impl; [exact Hg|by intros ? [_ ?]]. }
      { exact Hf. }
      change ("/"%char :: t ++ ?x) with (("/"%char :: t) ++ x). rewrite E, IH by done.
      change (items_text (map RChar ("/"%char :: t))) with ("/"%char :: items_text (map RChar t)).
      rewrite <- !app_assoc. cbn [app]. by rewrite <- app_assoc.
    + cbn [parse_pattern_loop]. change ("/" =c "{") with false. change (one_of special "/") with false. cbn iota.
      set (rest := slashed (map seg_text gs)) in *.
      assert (Hlen : length ((lit "{" ++ n ++ lit "}") ++ rest) = (length n + 2 + length rest)%nat)
        by (rewrite !length_app; cbn; lia).
      rewrite <- app_assoc in *. change (lit "{" ++ (n ++ lit "}") ++ rest) with ("{"%char :: (n ++ lit "}") ++ rest) in *.
      rewrite <- app_assoc in *. change (lit "}" ++ rest) with ("}"%char :: rest) in *.
      destruct fuel as [|fuel]; [cbn [length] in Hf, Hlen; lia|]. cbn [parse_pattern_loop].
      change ("{" =c "{") with true. cbn iota.
      change ("{"%char :: n ++ "}"%char :: rest) with (("{"%char :: n) ++ "}"%char :: rest).
      rewrite find_if_app_l; [|constructor; [done|]; eapply Forall_impl; [exact Hg|]; intros c [_ Hc]; by apply is_c_false|done].
      cbn [length]. replace (drop (S (S (length n))) (("{"%char :: n) ++ "}"%char :: rest)) with rest.
      2:{ change ("}"%char :: rest) with (["}"%char] ++ rest). rewrite app_assoc. symmetry. apply drop_app_length'.
          rewrite length_app. cbn. lia. }
      rewrite IH by (cbn [length] in Hf, Hlen; lia). unfold substr. cbn [app drop]. rewrite skipn_0.
      rewrite (take_app_length' n) by lia. by rewrite <- !app_assoc.
Qed.

Lemma parse_pattern_text gs : Forall good_seg gs ->
  parse_pattern (pattern_text gs) = Some (lit "^" ++ items_text (items gs) ++ lit "$", names gs).
Proof.
  intros Hgs. destruct gs as [|g gs]; [done|]. unfold parse_pattern.
  change (pattern_text (g :: gs)) with (slashed (map seg_text (g :: gs))). by rewrite parse_segs.
Qed.

(** ** Matching the expression *)

Lemma blocked gs c s : c <> "/"%char -> regex_match (slashed_items gs) (c :: s) = None.
Proof. intros Hc. destruct gs as [|g gs]; [done|]. cbn. by rewrite (proj2 (Ascii.eqb_neq _ _) Hc). Qed.

Lemma match_lit its t : forall s, regex_match (map RChar t ++ its) s =
  if starts_with t s then regex_match its (drop (length t) s) else None.
Proof.
  induction t as [|c t IH]; intros s; cbn [map app regex_match starts_with length]; [by rewrite drop_0|].
  destruct s as [|d s]; [done|]. rewrite (Ascii.eqb_sym c d). destruct (d =c c); [|done]. by rewrite IH.
Qed.

Lemma segment_run_name q x : Forall (fun c => c <> "/"%char) q ->
  match x with [] => True | c :: _ => c = "/"%char end -> segment_run (q ++ x) = length q.
Proof.
  intros Hq Hx. induction Hq as [|c q Hc _ IH]; cbn [app segment_run length].
  - destruct x as [|c x]; [done|]. subst c. done.
  - by rewrite (proj2 (Ascii.eqb_neq _ _) Hc), IH.
Qed.

Lemma slashed_head qs : match slashed qs with [] => True | c :: _ => c = "/"%char end.
Proof. by destruct qs. Qed.

(** A group takes a whole segment: a shorter one leaves a character that
    nothing can match. *)
Lemma match_group gs q x : good_name q -> match x with [] => True | c :: _ => c = "/"%char end ->
  regex_match (RGroup :: slashed_items gs) (q ++ x) = cons q <$> regex_match (slashed_items gs) x.
Proof.
  intros [Hne Hq] Hx. cbn [regex_match]. rewrite (segment_run_name q x Hq Hx).
  set (try := fix try n := match n with O => None | S n' => _ end).
  assert (Htry : forall n, (n < length q)%nat -> try n = None).
  { induction n as [|n IH]; intros Hn; [done|]. cbn [try].
    destruct (lookup_lt_is_Some_2 q (S n) Hn) as [c Hc]. rewrite (drop_app_le q x) by lia.
    rewrite (drop_S q c (S n) Hc). cbn [app]. rewrite blocked; [apply IH; lia|].
    rewrite Forall_lookup in Hq. by apply (Hq _ _ Hc). }
  destruct q as [|c q]; [done|]. change (length (c :: q)) with (S (length q)). cbn [try].
  change (S (length q)) with (length (c :: q)). rewrite drop_app_length, take_app_length.
  destruct (regex_match (slashed_items gs) x); [done|]. apply Htry. cbn. lia.
Qed.

Lemma match_items_spec gs : Forall good_seg gs -> forall qs, Forall good_name qs ->
  regex_match (slashed_items gs) (slashed qs) = matches gs qs.
Proof.
  induction 1 as [|g gs Hg _ IH]; intros qs Hqs.
  - by destruct qs.
  - change (slashed_items (g :: gs)) with (RChar "/" :: seg_items g ++ slashed_items gs).
    destruct Hqs as [|q qs Hq Hqs]; [by destruct g|]. change (slashed (q :: qs)) with ("/"%char :: q ++ slashed qs).
    cbn [regex_match]. change ("/" =c "/") with true. cbn iota.
    destruct g as [t|n]; cbn [seg_items good_seg matches] in *.
    + rewrite match_lit. destruct Hg as [Hne Ht]. destruct (bytes_eqb_spec t q) as [->|Hneq].
      * by rewrite starts_with_app, drop_app_length, IH.
      * destruct (starts_with t (q ++ slashed qs)) eqn:E; [|done]. apply starts_with_spec in E as [r E].
        rewrite E, drop_app_length. destruct (app_eq_inv _ _ _ _ E) as [(u & Eq & Er) | (u & Et & Eu)].
        -- destruct u as [|c u]; [by rewrite app_nil_r in Eq|]. rewrite Er. cbn [app]. apply blocked.
           destruct Hq as [_ Hq]. rewrite Eq in Hq. apply Forall_app in Hq as [_ Hq]. by apply Forall_cons in Hq as [? _].
        -- destruct u as [|c u]; [by rewrite app_nil_r in Et|]. pose proof (slashed_head qs) as Hs. rewrite Eu in Hs. cbn in Hs.
           subst c. rewrite Et in Ht. apply Forall_app in Ht as [_ Ht]. by apply Forall_cons in Ht as [[? _] _].
    + cbn [app]. rewrite match_group by (try apply slashed_head; done). by rewrite IH.
Qed.

Lemma regex_match_spec gs qs : Forall good_seg gs -> Forall good_name qs ->
  (regex (lit "^" ++ items_text (items gs) ++ lit "$") ≫= fun its => regex_match its (path_text qs)) = matches gs qs.
Proof.
  intros Hgs Hqs. rewrite regex_items. cbn [mbind option_bind]. destruct Hgs as [|g gs Hg Hgs].
  - cbn [items]. destruct Hqs as [|q qs [Hq _] _]; [done|]. cbn. by destruct q.
  - change (items (g :: gs)) with (slashed_items (g :: gs)). destruct Hqs as [|q qs Hq Hqs].
    + change (slashed_items (g :: gs)) with (RChar "/" :: seg_items g ++ slashed_items gs). cbn.
      destruct g as [t|n]; [|done]. destruct Hg as [Hne _]. by destruct t.
    + by apply match_items_spec; constructor.
Qed.

Lemma route_match_spec gs qs : Forall good_seg gs -> Forall good_name qs ->
  route_match (pattern_text gs) (path_text qs) =
  (fun caps => (map (url_decode false) caps, zip (names gs) (map (url_decode false) caps))) <$> matches gs qs.
Proof.
  intros Hgs Hqs. unfold route_match, pattern_text. rewrite !split_path_text; [by apply match_segments_spec|done|].
  rewrite Forall_map. eapply Forall_impl; [exact Hgs|]. apply good_seg_text.
Qed.

(** * The two engines dispatch alike *)

Section Agree.
Context {H : Type}.

(** What a script registers, with the groups it is in. A pattern is made of
    segments that are plain text or one parameter. *)
Definition good_reg (x : list (GroupFrame H) * registration H) : Prop :=
  match x.2 with
  | Route m p _ _ =>
      m <> lit "404" /\ Forall (fun c => c <> ":"%char /\ c <> "{"%char) m /\
      exists gs, Forall good_seg gs /\ route_group_prefix x.1 ++ p = pattern_text gs
  | NotFound _ => True
  end.

Lemma interp_register_route st m p own (f : H) gs : Forall good_seg gs -> route_group_prefix st ++ p = pattern_text gs ->
  interp_register st (Route m p own f) =
  Some (MkEntry m (names gs) (lit "^" ++ items_text (items gs) ++ lit "$") f (route_group_middlewares st ++ own) false).
Proof.
  intros Hgs Hp. unfold interp_register. destruct st as [|fr st]; cbn [route_group_active].
  - change (route_group_prefix [] ++ p) with p in Hp. by rewrite Hp, parse_pattern_text.
  - by rewrite Hp, parse_pattern_text.
Qed.

(** The entry of the virtual machine, and whether it counts as static. *)
Lemma vm_key_route st m p own (f : H) : Forall (fun c => c <> ":"%char /\ c <> "{"%char) m ->
  vm_key (vm_register st (Route m p own f)) = Some (m, route_group_prefix st ++ p).
Proof.
  intros Hm. unfold vm_key. cbn [vm_register pattern]. change (lit ":" ++ ?x) with (":"%char :: x).
  rewrite find_if_app_l; [|eapply Forall_impl; [exact Hm|]; intros c [Hc _]; by apply is_c_false|done].
  rewrite take_app_length. change (":"%char :: ?x) with ([":"%char] ++ x). rewrite app_assoc.
  by rewrite drop_app_length' by (rewrite length_app; cbn; lia).
Qed.

Lemma slashed_brace gs : Forall good_seg gs ->
  has_char (is_c "{") (slashed (map seg_text gs)) = negb (match names gs with [] => true | _ => false end).
Proof.
  induction 1 as [|g gs Hg _ IH]; [done|]. change (slashed (map seg_text (g :: gs))) with ("/"%char :: seg_text g ++ slashed (map seg_text gs)).
  change (names (g :: gs)) with (seg_names g ++ names gs). unfold has_char in *. cbn [existsb]. change (is_c "{" "/") with false.
  cbn [orb]. rewrite existsb_app, IH. destruct g as [t|n]; cbn [seg_text seg_names app]; [|done].
  destruct Hg as [_ Ht]. replace (existsb (is_c "{") t) with false; [done|]. symmetry. apply has_char_false.
  eapply Forall_impl; [exact Ht|]. intros c [_ Hc]. by apply is_c_false.
Qed.

Lemma is_static_route st m p own (f : H) gs :
  Forall (fun c => c <> ":"%char /\ c <> "{"%char) m -> Forall good_seg gs -> route_group_prefix st ++ p = pattern_text gs ->
  is_static (vm_register st (Route m p own f)) = match names gs with [] => true | _ => false end.
Proof.
  intros Hm Hgs Hp. unfold is_static. cbn [vm_register pattern]. rewrite Hp. unfold has_char. rewrite !existsb_app.
  replace (existsb (is_c "{") m) with false.
  - change (existsb (is_c "{") (lit ":")) with false. cbn [orb]. destruct gs as [|g gs]; [done|].
    change (pattern_text (g :: gs)) with (slashed (map seg_text (g :: gs))).
    change (existsb (is_c "{")) with (has_char (is_c "{")). rewrite slashed_brace by done. apply negb_involutive.
  - symmetry. apply has_char_false. eapply Forall_impl; [exact Hm|]. intros c [_ Hc]. by apply is_c_false.
Qed.

Lemma vm_find_app t1 t2 method path :
  vm_find (H := H) (t1 ++ t2) method path = match vm_find t1 method path with Some p => Some p | None => vm_find t2 method path end.
Proof.
  induction t1 as [|e t1 IH]; [done|]. cbn [app vm_find]. destruct (vm_key e) as [[m p]|]; [|done].
  case_if; [done|]. by destruct (route_match p path) as [[? ?]|].
Qed.
Lemma vm_404_app (t1 t2 : list (VmRoute H)) : vm_404 (t1 ++ t2) = match vm_404 t1 with Some p => Some p | None => vm_404 t2 end.
Proof. induction t1 as [|e t1 IH]; [done|]. cbn [app vm_404]. destruct (vm_key e) as [[m p]|]; [|done]. by case_if. Qed.

(** Either half of the table of the virtual machine is one pass of the
    interpreter. *)
Definition half (static : bool) (table : list (VmRoute H)) : list (VmRoute H) :=
  List.filter (fun r => Bool.eqb static (is_static r)) table.

Lemma find_agree static method qs : method <> lit "404" -> Forall good_name qs -> forall regs table,
  Forall good_reg regs -> mapM (fun x => interp_register x.1 x.2) regs = Some table ->
  vm_find (half static (map (fun x => vm_register x.1 x.2) regs)) method (path_text qs) =
  interp_find static table method (path_text qs).
Proof.
  intros Hm Hqs. induction regs as [|[st r] regs IH]; intros table Hregs Ht.
  - by injection Ht as <-.
  - apply Forall_cons in Hregs as [Hr Hregs]. cbn [mapM fst snd] in Ht.
    apply bind_Some in Ht as (e & He & Ht). apply bind_Some in Ht as (table' & Ht & [= <-]).
    specialize (IH table' Hregs Ht). cbn [map fst snd half List.filter]. destruct r as [m p own f|f].
    + destruct Hr as (_ & Hmc & gs & Hgs & Hp). cbn [fst snd] in *.
      rewrite (interp_register_route st m p own f gs Hgs Hp) in He. injection He as <-.
      rewrite (is_static_route st m p own f gs Hmc Hgs Hp). cbn [interp_find is_404 param_names].
      destruct (Bool.eqb static _); cbn [negb]; [|exact IH]. cbn [vm_find]. rewrite (vm_key_route st m p own f Hmc), Hp.
      cbn [e_method pattern_re e_middlewares callback].
      change ("^"%char :: ?x ++ ["$"%char]) with (lit "^" ++ x ++ lit "$"). rewrite regex_match_spec, route_match_spec by done.
      case_if; [exact IH|]. destruct (matches gs qs); [done|exact IH].
    + injection He as <-. cbn [interp_find is_404]. rewrite <- IH.
      destruct (Bool.eqb static _); [|done]. cbn [vm_find].
      change (vm_key (vm_register st (NotFound f))) with (Some (lit "404", lit "/")). cbn iota.
      by rewrite (proj2 (bytes_eqb_neq (lit "404") method)) by congruence.
Qed.

Lemma not_found_agree : forall regs (table : list (RouteEntry H)),
  Forall good_reg regs -> mapM (fun x => interp_register x.1 x.2) regs = Some table ->
  vm_404 (half true (map (fun x => vm_register x.1 x.2) regs)) = interp_404 table /\
  vm_404 (half false (map (fun x => vm_register x.1 x.2) regs)) = None.
Proof.
  induction regs as [|[st r] regs IH]; intros table Hregs Ht.
  - by injection Ht as <-.
  - apply Forall_cons in Hregs as [Hr Hregs]. cbn [mapM fst snd] in Ht.
    apply bind_Some in Ht as (e & He & Ht). apply bind_Some in Ht as (table' & Ht & [= <-]).
    destruct (IH table' Hregs Ht) as [IH1 IH2]. cbn [map fst snd half List.filter]. destruct r as [m p own f|f].
    + destruct Hr as (Hm & Hmc & gs & Hgs & Hp). cbn [fst snd] in *.
      rewrite (interp_register_route st m p own f gs Hgs Hp) in He. injection He as <-.
      assert (Hskip : forall t, vm_404 (vm_register st (Route m p own f) :: t) = vm_404 t).
      { intros t. cbn [vm_404]. rewrite (vm_key_route st m p own f Hmc). by rewrite (proj2 (bytes_eqb_neq m (lit "404"))). }
      unfold interp_404. cbn [List.filter is_404]. change (match List.filter is_404 table' with e :: _ => Some (callback e) | [] => None end) with (interp_404 table').
      split; (destruct (Bool.eqb _ _); [rewrite Hskip|]); done.
    + injection He as <-. split; [done|]. exact IH2.
Qed.

(** C21: both engines send a request to the same place, when its path has no
    empty segment and no slash at its end (they differ there, see
    [empty_segments_differ]) and its method is not the mark 404 of the handler
    of unknown paths. For every sequence of registrations, in any groups and
    any order, whose patterns are made of plain segments and one-parameter
    segments, the interpreter accepts the patterns, and for every such path
    the virtual machine (which compares segments, in a table that has the
    static routes first) and the interpreter (which tries compiled regular
    expressions in two passes) pick the same route: the same middlewares, the
    same handler, the same arguments and the same named parameters, or the
    same handler for unknown paths. *)
Theorem routes_agree (regs : list (list (GroupFrame H) * registration H)) method qs :
  Forall good_reg regs -> method <> lit "404" -> Forall good_name qs ->
  exists table, mapM (fun x => interp_register x.1 x.2) regs = Some table /\
    vm_plan (route_closures (map (fun x => vm_register x.1 x.2) regs)) method (path_text qs) =
    interp_plan table method (path_text qs).
Proof.
  intros Hregs Hm Hqs.
  assert (Ht : exists table, mapM (fun x => interp_register x.1 x.2) regs = Some table).
  { apply mapM_is_Some_2. eapply Forall_impl; [exact Hregs|]. intros [st [m p own f|f]] Hr; [|by eexists].
    destruct Hr as (_ & _ & gs & Hgs & Hp). cbn [fst snd] in *.
    eexists. exact (interp_register_route st m p own f gs Hgs Hp). }
  destruct Ht as [table Ht]. exists table. split; [exact Ht|]. unfold vm_plan, interp_plan.
  assert (Hsplit : forall t : list (VmRoute H), route_closures t = half true t ++ half false t).
  { intros t. unfold route_closures, half. f_equal; apply List.filter_ext; intros r; by destruct (is_static r). }
  rewrite Hsplit, vm_find_app, vm_404_app.
  rewrite (find_agree true method qs Hm Hqs regs table Hregs Ht), (find_agree false method qs Hm Hqs regs table Hregs Ht).
  destruct (not_found_agree regs table Hregs Ht) as [-> ->].
  destruct (interp_find true table method (path_text qs)); [done|].
  destruct (interp_find false table method (path_text qs)); [done|]. by destruct (interp_404 table).
Qed.
End Agree.

Lemma routes_agree_witness :
  let regs : list (list (GroupFrame nat) * registration nat) :=
    [([], Route (lit "GET") (lit "/user/{id}") [] 1%nat);
     ([MkGroup (lit "/user") [7%nat]], Route (lit "GET") (lit "/new") [8%nat] 2%nat); ([], NotFound 3%nat)] in
  exists table, mapM (fun x => interp_register x.1 x.2) regs = Some table /\
    vm_plan (route_closures (map (fun x => vm_register x.1 x.2) regs)) (lit "GET") (lit "/user/new") =
      Run [7%nat; 8%nat] 2%nat [] [] /\
    vm_plan (route_closures (map (fun x => vm_register x.1 x.2) regs)) (lit "GET") (path_text [lit "user"; lit "a%20b"]) =
      interp_plan table (lit "GET") (path_text [lit "user"; lit "a%20b"]).
Proof.
  intros regs.
  destruct (routes_agree regs (lit "GET") [lit "user"; lit "a%20b"]) as (table & Ht & E).
  - constructor; [|constructor; [|constructor; [exact I|constructor]]]; (split; [done|]); (split; [by repeat constructor|]).
    + exists [SLit (lit "user"); SParam (lit "id")]. split; [|done]. constructor; [|constructor; [|constructor]]; (split; [done|]); by repeat constructor.
    + exists [SLit (lit "user"); SLit (lit "new")]. split; [|done]. constructor; [|constructor; [|constructor]]; (split; [done|]); by repeat constructor.
  - done.
  - constructor; [|constructor; [|constructor]]; (split; [done|]); by repeat constructor.
  - exists table. split; [exact Ht|]. split; [vm_compute; reflexivity|exact E].
Defined.

(** ** Where they differ *)

Definition vm_first (p path : bytes) : option (plan (H := nat)) :=
  vm_find [vm_register [] (Route (lit "GET") p [] 1%nat)] (lit "GET") path.
Definition interp_first (p path : bytes) : option (plan (H := nat)) :=
  match interp_register [] (Route (lit "GET") p [] 1%nat) with
  | Some e => match interp_find true [e] (lit "GET") path with Some x => Some x | None => interp_find false [e] (lit "GET") path end
  | None => None
  end.

(** Empty segments: the virtual machine ignores them. *)
Example empty_segments_differ :
  vm_first (lit "/a") (lit "//a/") = Some (Run [] 1%nat [] []) /\ interp_first (lit "/a") (lit "//a/") = None.
Proof. split; vm_compute; reflexivity. Qed.

(** A parameter inside a segment: only the interpreter knows it. *)
Example mixed_segment_differs :
  vm_first (lit "/f-{id}") (lit "/f-7") = None /\
  interp_first (lit "/f-{id}") (lit "/f-7") = Some (Run [] 1%nat [lit "7"] [(lit "id", lit "7")]).
Proof. split; vm_compute; reflexivity. Qed.

(** A brace that is not closed: registering the route does not return. *)
Example open_brace_hangs fuel : forall rest r ns, rest = lit "/{a" \/ rest = lit "{a" ->
  parse_pattern_loop fuel (lit "/{a") rest r ns = None.
Proof.
  induction fuel as [|fuel IH]; intros rest r ns [-> | ->]; [done|done| |].
  - change (parse_pattern_loop fuel (lit "/{a") (lit "{a") (r ++ lit "/") ns = None). apply IH. by right.
  - change (parse_pattern_loop fuel (lit "/{a") (lit "/{a") (r ++ lit "([^/]+)") (ns ++ [lit "a"]) = None). apply IH. by left.
Qed.

(** A request for an unknown path gets different bodies. *)
Example default_404_differs :
  let St := (WebContext * bytes)%type in
  let call := fun (f : nat) (args : list bytes) (s : St) => Returned s in
  let on_web := fun g (s : St) => (g s.1, s.2) in
  let print := fun t (s : St) => (s.1, s.2 ++ t) in
  (exists w, vm_dispatch call on_web print [] (lit "GET") (lit "/") (new_context, []) = Returned (w, lit "404 Not Found")) /\
  (exists w, interp_dispatch call on_web print (fun _ => 0%nat) [] [] [] (lit "GET") (lit "/") (new_context, []) = Returned (w, body_404)).
Proof. split; eexists; reflexivity. Qed.

End Routes.
