(* ===== verification/Format.v ===== *)
(** The source formatter, cpp/src/format_src.cpp: [look_format_source] and the
    [lk fmt] command on a file system that is a finite map. What the command
    prints on the terminal is kept as a list of messages. *)

From S2P Require Import Prelude Lexer.
#[local] Open Scope Z_scope.

Module Format.
Import Lexer.

(** * One line *)

Record ScanResult := MkScan { delta : Z; leading_closers : Z }.

Definition opens (c : ascii) : bool := one_of (lit "{[(") c.
Definition closes (c : ascii) : bool := one_of (lit "}])") c.
Definition quote (c : ascii) : bool := (c =c DQUOTE) || (c =c SQUOTE).

(** [scan_line]; [in_str] is the quote that is open, if one is. *)
Fixpoint scan_loop (s : bytes) (in_str : option ascii) (leading : bool) (r : ScanResult) : ScanResult * option ascii :=
  match s with
  | [] => (r, in_str)
  | c :: s' =>
      match in_str with
      | Some q =>
          if c =c BACKSLASH then match s' with _ :: s'' => scan_loop s'' in_str leading r | [] => (r, in_str) end
          else scan_loop s' (if c =c q then None else in_str) leading r
      | None =>
          if c =c "#" then (r, in_str)
          else if (c =c "/") && match s' with d :: _ => d =c "/" | [] => false end then (r, in_str)
          else if quote c then scan_loop s' (Some c) false r
          else if opens c then scan_loop s' in_str false (MkScan (delta r + 1) (leading_closers r))
          else if closes c then
            scan_loop s' in_str leading
              (MkScan (delta r - 1) (if leading then leading_closers r + 1 else leading_closers r))
          else scan_loop s' in_str (if negb (c =c SP) && negb (c =c TAB) then false else leading) r
      end
  end.
Definition scan_line (s : bytes) (in_str : option ascii) : ScanResult * option ascii :=
  scan_loop s in_str true (MkScan 0 0).

Definition lblank (c : ascii) : bool := (c =c SP) || (c =c TAB).
Definition rblank (c : ascii) : bool := lblank c || (c =c CR).
Definition rstrip (s : bytes) : bytes :=
  match rfind_if (fun c => negb (rblank c)) s with Some e => take (S e) s | None => [] end.
Definition lstrip (s : bytes) : bytes :=
  match find_if (fun c => negb (lblank c)) s with Some b => drop b s | None => [] end.

(** * The text *)

(** [depth], [in_str], [blank_run] *)
Record Fmt := MkFmt { depth : Z; in_str : option ascii; blank_run : Z }.

(** One turn of the loop over the lines: the line it adds, if it adds one. *)
Definition fmt_line (st : Fmt) (raw : bytes) : Fmt * option bytes :=
  match in_str st with
  | Some _ => (MkFmt (depth st) (scan_line raw (in_str st)).2 0, Some raw)
  | None =>
      let content := rstrip (lstrip raw) in
      if content =s [] then
        let n := blank_run st + 1 in
        (MkFmt (depth st) None n, if n <=? 1 then Some [] else None)
      else
        let (sr, probe) := scan_line content None in
        let indent := Z.max 0 (depth st - leading_closers sr) in
        (MkFmt (Z.max 0 (depth st + delta sr)) probe 0, Some (replicate (Z.to_nat (indent * 4)) SP ++ content))
  end.

Fixpoint fmt_lines (st : Fmt) (lines : list bytes) : list bytes :=
  match lines with
  | [] => []
  | raw :: lines =>
      let (st', o) := fmt_line st raw in
      match o with Some l => l :: fmt_lines st' lines | None => fmt_lines st' lines end
  end.

(** The newlines at the end, last one first: several become one. *)
Fixpoint pop_newlines (r : bytes) : bytes :=
  match r with
  | a :: (b :: _) as r' => if (a =c LF) && (b =c LF) then pop_newlines r' else r
  | _ => r
  end.
Definition end_newline (out : bytes) : bytes :=
  let out := rev (pop_newlines (rev out)) in
  match last out with Some c => if c =c LF then out else out ++ [LF] | None => [LF] end.

Definition layout (src : bytes) : bytes :=
  end_newline (unlines LF (fmt_lines (MkFmt 0 None 0) (getline_all LF src))).

Definition same_token (a b : Token) : bool := bool_decide (type a = type b) && (lexeme a =s lexeme b).
Fixpoint same_token_list (ta tb : list Token) : bool :=
  match ta, tb with
  | [], [] => true
  | a :: ta, b :: tb => same_token a b && same_token_list ta tb
  | _, _ => false
  end.
(** An exception of the lexer makes the answer [false]. *)
Definition same_tokens (a b : bytes) : bool :=
  match scan_tokens a, scan_tokens b with
  | Some (Ok ta), Some (Ok tb) => same_token_list ta tb
  | _, _ => false
  end.

(** The text and [*ok]. *)
Definition look_format_source (src : bytes) : bytes * bool :=
  let out := layout src in
  if same_tokens src out then (out, true) else (src, false).

(** * The command *)

Inductive message := CouldNotRead (f : bytes) | Skipped (f : bytes) | Unformatted (f : bytes) | Formatted (f : bytes).

(** One file of [run_fmt]: the exit code, the files and the messages. *)
Definition fmt_file (check : bool) (st : Z * gmap (list ascii) bytes * list message) (file : bytes) :
    Z * gmap (list ascii) bytes * list message :=
  let '(rc, fs, out) := st in
  match fs !! file with
  | None => (2, fs, out ++ [CouldNotRead file])
  | Some src =>
      let (res, ok) := look_format_source src in
      if negb ok then (2, fs, out ++ [Skipped file])
      else if res =s src then (rc, fs, out)
      else if check then (1, fs, out ++ [Unformatted file])
      else (rc, <[ file := res ]> fs, out ++ [Formatted file])
  end.
Definition run_fmt (check : bool) (files : list bytes) (fs : gmap (list ascii) bytes) :
    Z * gmap (list ascii) bytes * list message :=
  fold_left (fmt_file check) files (0, fs, []).

Example format_example :
  look_format_source (lit "if ($x) {" ++ [LF; LF; LF] ++ lit "print 1" ++ [LF] ++ lit "  }" ++ [SP; LF; LF; LF])
  = (lit "if ($x) {" ++ [LF; LF] ++ lit "    print 1" ++ [LF] ++ lit "}" ++ [LF], true).
Proof. vm_compute. reflexivity. Qed.

(** * Stripping *)

Lemma rstrip_text s c : rblank c = false -> rstrip (s ++ [c]) = s ++ [c].
Proof.
  intros Hc. unfold rstrip. rewrite (rfind_if_app_r _ s c []) by (by rewrite ?Hc || constructor).
  apply take_ge. rewrite length_app. simpl. lia.
Qed.
Lemma lstrip_text n c s : lblank c = false -> lstrip (replicate n SP ++ c :: s) = c :: s.
Proof.
  intros Hc. unfold lstrip. rewrite find_if_app_l; [|by apply Forall_replicate|by rewrite Hc].
  by rewrite drop_app_length.
Qed.

(** Stripping the indented content of a line gives the content. *)
Lemma strip_indented n raw :
  rstrip (lstrip raw) <> [] -> rstrip (lstrip (replicate n SP ++ rstrip (lstrip raw))) = rstrip (lstrip raw).
Proof.
  unfold lstrip at 1 3 4. destruct (find_if _ raw) as [i|] eqn:Hl; [|done].
  apply find_if_Some in Hl as (s1 & c & s2 & -> & <- & Hc%negb_true_iff & _). rewrite drop_app_length.
  unfold rstrip at 1 3 4. destruct (rfind_if _ (c :: s2)) as [e|] eqn:Hr; [|done].
  apply rfind_if_Some in Hr as (t1 & d & t2 & Ht & <- & Hd%negb_true_iff & _). intros _.
  assert (Ht' : take (S (length t1)) (c :: s2) = t1 ++ [d]).
  { rewrite Ht. change (d :: t2) with ([d] ++ t2). rewrite app_assoc.
    apply take_app_length'. rewrite length_app. simpl. lia. }
  rewrite Ht'. destruct (t1 ++ [d]) as [|c' s'] eqn:E; [done|].
  assert (c' = c) as -> by (cbn [take] in Ht'; congruence).
  rewrite lstrip_text by done. rewrite <- E. by apply rstrip_text.
Qed.

(** * Formatting formatted lines *)

Definition same_blank (st st' : Fmt) : Prop :=
  depth st = depth st' /\ in_str st = in_str st' /\ 0 <= blank_run st /\ 0 <= blank_run st' /\
  (blank_run st = 0 <-> blank_run st' = 0).

(** A line that is written is written again from its output; one that is
    dropped leaves a state that differs in nothing that is seen. *)
Lemma fmt_line_again st st2 raw st' o :
  same_blank st st2 -> fmt_line st raw = (st', o) ->
  match o with
  | Some l => exists st2', fmt_line st2 l = (st2', Some l) /\ same_blank st' st2'
  | None => same_blank st' st2
  end.
Proof.
  intros (Hd & Hs & Hb & Hb2 & Hz). unfold fmt_line. rewrite <- Hs, <- Hd.
  destruct (in_str st) as [q|].
  { intros [= <- <-]. eexists. split; [done|]. by repeat split. }
  destruct (bytes_eqb_spec (rstrip (lstrip raw)) []) as [E|E].
  - destruct (Z.leb_spec (blank_run st + 1) 1); intros [= <- <-].
    + eexists. split; [cbn; by rewrite (proj2 (Z.leb_le _ _)) by lia|]. repeat split; cbn; (done || lia).
    + repeat split; cbn; (done || lia).
  - destruct (scan_line _ None) as [sr probe] eqn:Esc. intros [= <- <-].
    rewrite strip_indented by done. destruct (bytes_eqb_spec (rstrip (lstrip raw)) []); [done|].
    rewrite Esc. eexists. split; [done|]. by repeat split.
Qed.

Lemma fmt_lines_again st st2 lines :
  same_blank st st2 -> fmt_lines st2 (fmt_lines st lines) = fmt_lines st lines.
Proof.
  revert st st2. induction lines as [|raw lines IH]; intros st st2 H; [done|]. cbn [fmt_lines].
  destruct (fmt_line st raw) as [st' o] eqn:E. pose proof (fmt_line_again _ _ _ _ _ H E) as Ha.
  destruct o as [l|]; [|by apply IH]. destruct Ha as (st2' & E2 & H'). cbn [fmt_lines]. by rewrite E2, (IH st').
Qed.

(** What is written for the first lines does not depend on the next ones. *)
Lemma fmt_lines_app st l1 l2 : exists st', fmt_lines st (l1 ++ l2) = fmt_lines st l1 ++ fmt_lines st' l2.
Proof.
  revert st. induction l1 as [|raw l1 IH]; intros st; [by exists st|]. cbn [fmt_lines app].
  destruct (fmt_line st raw) as [st' [l|]]; destruct (IH st') as [st'' ->]; by exists st''.
Qed.

(** * The end of the text *)

Lemma end_newline_text s c : c <> LF -> end_newline (s ++ [c; LF]) = s ++ [c; LF].
Proof.
  intros Hc.
  assert (Hp : pop_newlines (rev (s ++ [c; LF])) = rev (s ++ [c; LF])).
  { rewrite rev_app_distr. cbn. by rewrite (proj2 (Ascii.eqb_neq c LF) Hc). }
  unfold end_newline. rewrite Hp, rev_involutive. change [c; LF] with ([c] ++ [LF]).
  by rewrite app_assoc, last_snoc.
Qed.
Lemma end_newline_pop s : end_newline (s ++ [LF; LF]) = end_newline (s ++ [LF]).
Proof. unfold end_newline. by rewrite !rev_app_distr. Qed.

Lemma unlines_snoc ls l : unlines LF (ls ++ [l]) = unlines LF ls ++ l ++ [LF].
Proof. rewrite unlines_app. unfold unlines at 2. cbn. by rewrite app_nil_r. Qed.

Definition no_lf (l : bytes) : Prop := Forall (fun c => is_c LF c = false) l.

(** Several newlines at the end become one: some of the last lines are gone. *)
Lemma end_newline_lines ls :
  Forall no_lf ls ->
  exists ls', end_newline (unlines LF ls) = unlines LF ls' /\ end_newline (unlines LF ls') = unlines LF ls' /\
    (ls = [] /\ ls' = [[]] \/ exists tl, ls = ls' ++ tl).
Proof.
  intros Hls. induction ls as [|l ls IH] using rev_ind; [exists [[]]; by eauto|].
  apply Forall_app in Hls as [Hls [Hl _]%Forall_cons].
  destruct l as [|d l _] using rev_ind.
  - destruct ls as [|m ls _] using rev_ind; [exists [[]]; repeat split; right; by exists []|].
    destruct (IH Hls) as (ls' & E & E' & [[? _]|[tl Htl]]); [by destruct ls|]. exists ls'. repeat split; [|done|].
    + rewrite <- E, unlines_snoc, (unlines_snoc ls m), app_nil_l, <- !app_assoc, (app_assoc _ m [LF]), (app_assoc _ m).
      apply end_newline_pop.
    + right. exists (tl ++ [[]]). by rewrite Htl, app_assoc.
  - exists (ls ++ [l ++ [d]]). assert (E : unlines LF (ls ++ [l ++ [d]]) = (unlines LF ls ++ l) ++ [d; LF]).
    { by rewrite unlines_snoc, <- !app_assoc. }
    assert (d <> LF). { apply Forall_app in Hl as [_ [Hd _]%Forall_cons]. by apply is_c_false in Hd. }
    rewrite E, !end_newline_text by done. repeat split. right. exists []. by rewrite app_nil_r.
Qed.

Lemma getline_unlines ls : Forall no_lf ls -> getline_all LF (unlines LF ls) = ls.
Proof.
  intros Hls. unfold getline_all. rewrite split_on_unlines by done. rewrite last_snoc. apply removelast_last.
Qed.

Lemma fmt_line_no_lf st raw st' l : no_lf raw -> fmt_line st raw = (st', Some l) -> no_lf l.
Proof.
  unfold no_lf, fmt_line. intros Hraw. destruct (in_str st); [by intros [= _ <-]|].
  assert (Hc : Forall (fun c => is_c LF c = false) (rstrip (lstrip raw))).
  { unfold rstrip, lstrip. destruct (rfind_if _ _); [|constructor]. apply Forall_take.
    destruct (find_if _ _); [by apply Forall_drop|constructor]. }
  case_if; [destruct (_ <=? _); intros [= _ <-]; constructor|]. destruct (scan_line _ None). intros [= _ <-].
  apply Forall_app. split; [by apply Forall_replicate|done].
Qed.
Lemma fmt_lines_no_lf st lines : Forall no_lf lines -> Forall no_lf (fmt_lines st lines).
Proof.
  intros H. revert st. induction H as [|raw lines Hraw _ IH]; intros st; [constructor|]. cbn [fmt_lines].
  destruct (fmt_line st raw) as [st' [l|]] eqn:E; [|apply IH]. constructor; [|apply IH].
  by eapply fmt_line_no_lf.
Qed.
Lemma getline_no_lf s : Forall no_lf (getline_all LF s).
Proof.
  assert (H : Forall no_lf (split_on (is_c LF) s)).
  { induction s as [|c s IH]; cbn [split_on]; [by repeat constructor|].
    destruct (is_c LF c) eqn:E; [constructor; [constructor|done]|].
    destruct (split_on (is_c LF) s) as [|l ls]; [by repeat constructor|].
    apply Forall_cons in IH as [? ?]. constructor; [by constructor|done]. }
  unfold getline_all. destruct (last _) as [[|c l]|]; [|done..].
  destruct (split_on (is_c LF) s) as [|l ls _] using rev_ind; [constructor|].
  rewrite removelast_last. by apply Forall_app in H as [? _].
Qed.

Lemma fmt_lines_length st lines : (length (fmt_lines st lines) <= length lines)%nat.
Proof.
  revert st. induction lines as [|raw lines IH]; intros st; [done|]. cbn [fmt_lines].
  destruct (fmt_line st raw) as [st' [l|]]; specialize (IH st'); cbn [length]; lia.
Qed.

Lemma layout_idempotent src : layout (layout src) = layout src.
Proof.
  unfold layout at 2 3. pose proof (fmt_lines_no_lf (MkFmt 0 None 0) _ (getline_no_lf src)) as Hn.
  destruct (end_newline_lines _ Hn) as (ls' & E & E' & Htl). rewrite E. unfold layout.
  enough (no : Forall no_lf ls' /\ fmt_lines (MkFmt 0 None 0) ls' = ls') by
    (rewrite getline_unlines by apply no; by rewrite (proj2 no)).
  destruct Htl as [[_ ->]|[tl Htl]]; [split; [repeat constructor|reflexivity]|].
  rewrite Htl in Hn. apply Forall_app in Hn as [Hn _]. split; [done|].
  assert (Ha : fmt_lines (MkFmt 0 None 0) (ls' ++ tl) = ls' ++ tl).
  { rewrite <- Htl. apply fmt_lines_again. by repeat split. }
  destruct (fmt_lines_app (MkFmt 0 None 0) ls' tl) as [st' Happ]. rewrite Ha in Happ.
  pose proof (fmt_lines_length (MkFmt 0 None 0) ls'). pose proof (fmt_lines_length st' tl).
  symmetry. apply (app_inj_1 _ _ _ _) in Happ as [? _]; [done|].
  apply (f_equal length) in Happ. rewrite !length_app in Happ. lia.
Qed.

(** * The formatter *)

Lemma same_token_list_refl ts : same_token_list ts ts = true.
Proof.
  induction ts as [|t ts IH]; [done|]. cbn. unfold same_token. by rewrite bool_decide_eq_true_2, bytes_eqb_refl, IH.
Qed.
Lemma same_tokens_out a b : same_tokens a b = true -> same_tokens b b = true.
Proof.
  unfold same_tokens. destruct (scan_tokens a) as [[ta|]|]; [|done..].
  destruct (scan_tokens b) as [[tb|]|]; [|done..]. intros _. apply same_token_list_refl.
Qed.
Lemma same_token_list_map ta tb :
  same_token_list ta tb = true -> map type ta = map type tb /\ map lexeme ta = map lexeme tb.
Proof.
  revert tb. induction ta as [|a ta IH]; intros [|b tb]; cbn; [done..|].
  rewrite andb_true_iff. intros [Hab H]. apply andb_true_iff in Hab as [Ht%bool_decide_eq_true Hl%bytes_eqb_eq].
  destruct (IH _ H) as [-> ->]. by rewrite Ht, Hl.
Qed.

(** C33: formatting a formatted text changes nothing, for every text; the
    formatter either gives the source back as it was, or a text with the same
    tokens: the same types and the same lexemes in the same order. *)
Theorem format_idempotent src :
  look_format_source (look_format_source src).1 = look_format_source src /\
  ((look_format_source src).2 = false -> (look_format_source src).1 = src) /\
  ((look_format_source src).2 = true -> exists ta tb,
     scan_tokens src = Some (Ok ta) /\ scan_tokens (look_format_source src).1 = Some (Ok tb) /\
     map type ta = map type tb /\ map lexeme ta = map lexeme tb).
Proof.
  unfold look_format_source at 2 3 4 5 6 7. destruct (same_tokens src (layout src)) eqn:E; cbn [fst snd]; (split; [|split]).
  - unfold look_format_source. by rewrite layout_idempotent, (same_tokens_out _ _ E).
  - done.
  - intros _. unfold same_tokens in E. destruct (scan_tokens src) as [[ta|]|]; [|done..].
      destruct (scan_tokens (layout src)) as [[tb|]|]; [|done..]. exists ta, tb. repeat split; by apply same_token_list_map.
  - unfold look_format_source. by rewrite E.
  - done.
  - done.
Qed.

(** * The command *)

Definition formatted (fs : gmap (list ascii) bytes) (f : bytes) : Prop :=
  exists s, fs !! f = Some s /\ look_format_source s = (s, true).

Lemma fmt_file_ok rc fs out f rc' fs' out' :
  fmt_file false (rc, fs, out) f = (rc', fs', out') ->
  (rc' = 0 -> rc = 0 /\ formatted fs' f) /\ (forall g, formatted fs g -> formatted fs' g).
Proof.
  unfold fmt_file. destruct (fs !! f) as [src|] eqn:Ef; [|by intros [= <- <- <-]].
  pose proof (layout_idempotent src) as Hi. destruct (look_format_source src) as [res ok] eqn:E.
  assert (Hok : ok = true -> look_format_source res = (res, true)).
  { intros ->. unfold look_format_source in E. destruct (same_tokens src (layout src)) eqn:Es; [|done].
    injection E as <-. unfold look_format_source. by rewrite Hi, (same_tokens_out _ _ Es). }
  destruct ok; cbn [negb]; [|by intros [= <- <- <-]].
  destruct (bytes_eqb_spec res src) as [->|Hne]; intros [= <- <- <-].
  - split; [|done]. intros ->. split; [done|]. exists src. by split; [|apply Hok].
  - split; [intros ->; split; [done|]|].
    + exists res. split; [apply lookup_insert_eq|by apply Hok].
    + intros g (s & Hg & Hs). destruct (decide (f = g)) as [->|].
      * exists res. split; [apply lookup_insert_eq|by apply Hok].
      * exists s. by rewrite lookup_insert_ne by done.
Qed.

(** After [lk fmt] ends with 0, [lk fmt --check] of the same files ends with 0
    and prints nothing. *)
Theorem fmt_then_check files fs fs' out :
  run_fmt false files fs = (0, fs', out) -> run_fmt true files fs' = (0, fs', []).
Proof.
  intros H. assert (Hf : Forall (formatted fs') files).
  { assert (Hg : forall fs0 out0 rc0,
      fold_left (fmt_file false) files (rc0, fs0, out0) = (0, fs', out) ->
      rc0 = 0 /\ Forall (formatted fs') files /\ forall g, formatted fs0 g -> formatted fs' g).
    { clear H. induction files as [|f files IH]; intros fs0 out0 rc0; cbn [fold_left].
      - intros [= -> -> _]. repeat split; [constructor|done].
      - destruct (fmt_file false (rc0, fs0, out0) f) as [[rc1 fs1] out1] eqn:E. intros H.
        apply fmt_file_ok in E as [E1 E2]. destruct (IH _ _ _ H) as (Hrc & Hall & Hkeep).
        destruct (E1 Hrc) as [? ?]. repeat split; [done|constructor; by auto|by auto]. }
    by destruct (Hg fs [] 0 H) as (_ & Hall & _). }
  clear H. unfold run_fmt. induction Hf as [|f files (s & Hs & Hl) _ IH]; [done|]. cbn [fold_left].
  unfold fmt_file at 2. by rewrite Hs, Hl, bytes_eqb_refl.
Qed.

(** Where the layout is not what it means to be: on a line that ends a string
    that runs over several lines, brackets are not counted. *)
Example brackets_behind_string :
  layout (lit "$x = '" ++ [LF] ++ lit "'; if (1) {" ++ [LF] ++ lit "print 1" ++ [LF] ++ lit "}" ++ [LF])
  = lit "$x = '" ++ [LF] ++ lit "'; if (1) {" ++ [LF] ++ lit "print 1" ++ [LF] ++ lit "}" ++ [LF].
Proof. vm_compute. reflexivity. Qed.

(** An unformatted file behind one that cannot be read hides the error: the
    command ends with 1. *)
Example check_hides_error :
  (run_fmt true [lit "none.lk"; lit "a.lk"] {[ lit "a.lk" := lit " x" ++ [LF] ]}).1.1 = 1.
Proof. vm_compute. reflexivity. Qed.

End Format.
