(* ===== verification/Template.v ===== *)
(** Templates: cpp/include/look/template.h, cpp/src/template_stdlib.cpp and
    cpp/include/look/html_escape.h. The parser, the conditions, the renderer
    with blocks and includes, and the three functions of the script module.

    The arrays of the context live in a heap that rendering only reads. The
    file system is a record [Files] of what [std::filesystem] and [std::ifstream]
    answer. [Undef] is undefined behaviour, the overflow of the stack included. *)

From S2P Require Import Prelude CNum Value.
From Stdlib Require Import SpecFloat.
#[local] Open Scope Z_scope.

Module Template.
Import CNum Value.

(** * Text *)

Definition tpl_space (c : ascii) : bool := one_of [SP; TAB; CR; LF] c.
Definition tpl_trim (s : bytes) : bytes :=
  match find_if (fun c => negb (tpl_space c)) s, rfind_if (fun c => negb (tpl_space c)) s with
  | Some a, Some b => substr s a (b - a + 1)
  | _, _ => []
  end.

Definition html_char (c : ascii) : bytes :=
  if c =c "&" then lit "&amp;"
  else if c =c "<" then lit "&lt;"
  else if c =c ">" then lit "&gt;"
  else if c =c DQUOTE then lit "&quot;"
  else if c =c SQUOTE then lit "&#39;"
  else if c =c "`" then lit "&#96;"
  else [c].
Definition html_escape (s : bytes) : bytes := concat (map html_char s).

(** [size() >= 2 && front() == '"' && back() == '"'], and what is between. *)
Definition in_quotes (s : bytes) : bool :=
  match s, last s with
  | c :: _ :: _, Some d => (c =c DQUOTE) && (d =c DQUOTE)
  | _, _ => false
  end.
Definition unquote (s : bytes) : bytes := if in_quotes s then substr s 1 (length s - 2) else s.

Definition starts_c (c : ascii) (s : bytes) : bool := match s with d :: _ => d =c c | [] => false end.
(** [if (s[0] == '$') s = s.substr(1)] *)
Definition drop_dollar (s : bytes) : bytes := if starts_c "$" s then tail s else s.

(** * Nodes *)

Inductive TplNode :=
| Text (text : bytes)
| Var (path : bytes)
| RawVar (path : bytes)
| If (cond : bytes) (children alt : list TplNode)
| Each (arr item : bytes) (children alt : list TplNode)
| Extends (path : bytes)
| Block (name : bytes) (children : list TplNode)
| Include (path data : bytes).

Abbreviation TplContext := (gmap (list ascii) Value).
Abbreviation TplBlocks := (gmap (list ascii) (list TplNode)).

(** * Values *)

Section Values.
Context (L : Lib) (h : heap).

Definition to_str (v : Value) : bytes :=
  match v with
  | INT i => int_to_string i
  | FLOAT d => look_format_double L d
  | BOOL b => if b then lit "true" else lit "false"
  | STRING s => s
  | _ => []
  end.

(** [as_array()] casts the pointer whatever the type is: on a string or a
    function the elements of a vector are read from another object. *)
Definition as_array (v : Value) : res (option (list Value)) :=
  match v with
  | ARRAY l => Ret (Some (elems h l))
  | STRING _ | FUNCTION (Some _) | CHANNEL (Some _) | WEBSOCKET (Some _) | SSE_CONN (Some _) | BYTECODE_FN (Some _) => Undef
  | _ => Ret None
  end.

Definition sentinel (arr : list Value) : bool :=
  match arr with
  | STRING s :: _ => (s =s lit "__assoc__") || (s =s lit "__struct__")
  | _ => false
  end.
Fixpoint pair_value (key : bytes) (pairs : list Value) : option Value :=
  match pairs with
  | k :: v :: pairs =>
      match k with
      | STRING s => if s =s key then Some v else pair_value key pairs
      | _ => pair_value key pairs
      end
  | _ => None
  end.

(** One step of a path: by key, then by number. *)
Definition path_step (arr : list Value) (key : bytes) : res (option Value) :=
  match pair_value key (if sentinel arr then tail arr else arr) with
  | Some v => Ret (Some v)
  | None =>
      if negb (key =s []) && forallb isdigit key then
        let idx := (digits 10 0 key).1 in
        if idx <=? 2147483647 then Ret (arr !! Z.to_nat idx) else Exn (lit "stoi")
      else Ret None
  end.
Fixpoint walk (v : Value) (parts : list bytes) : res Value :=
  match parts with
  | [] => Ret v
  | key :: parts =>
      as_array v ≫= fun arr =>
      match arr with
      | None => Ret NONE
      | Some arr => path_step arr key ≫= fun x => match x with Some v => walk v parts | None => Ret NONE end
      end
  end.
Definition resolve (path : bytes) (ctx : TplContext) : res Value :=
  match List.filter (fun p => negb (p =s [])) (split_on (is_c ".") path) with
  | [] => Ret NONE
  | p :: parts => match ctx !! p with Some v => walk v parts | None => Ret NONE end
  end.

(** * Conditions *)

Definition parse_rhs (rhs : bytes) (ctx : TplContext) : res Value :=
  let r := tpl_trim rhs in
  if in_quotes r then Ret (STRING (unquote r))
  else if starts_c "$" r then resolve (tail r) ctx
  else match stoll r with
  | Some z => Ret (INT z)
  | None => match stod r with SVal d _ => Ret (FLOAT d) | _ => Ret (STRING r) end
  end.

Definition ops : list bytes := [lit ">="; lit "<="; lit "!="; lit "=="; lit ">"; lit "<"].
(** The first operator outside quotes. *)
Fixpoint find_op (quote : option ascii) (s : bytes) (p : nat) : option (nat * bytes) :=
  match s with
  | [] => None
  | ch :: s' =>
      match quote with
      | Some q => find_op (if ch =c q then None else quote) s' (S p)
      | None =>
          if (ch =c DQUOTE) || (ch =c SQUOTE) then find_op (Some ch) s' (S p)
          else match List.find (fun op => starts_with op s) ops with
          | Some op => Some (p, op)
          | None => find_op None s' (S p)
          end
      end
  end.

Definition to_dbl (v : Value) : double :=
  match v with
  | INT i => float_of_Z i
  | FLOAT d => d
  | _ => match stod (to_str v) with SVal d _ => d | _ => S754_zero false end
  end.
Definition compare_op (op : bytes) (lv rv : Value) : bool :=
  if op =s lit "==" then to_str lv =s to_str rv
  else if op =s lit "!=" then negb (to_str lv =s to_str rv)
  else if op =s lit ">" then SFltb (to_dbl rv) (to_dbl lv)
  else if op =s lit "<" then SFltb (to_dbl lv) (to_dbl rv)
  else if op =s lit ">=" then SFleb (to_dbl rv) (to_dbl lv)
  else SFleb (to_dbl lv) (to_dbl rv).

Definition eval_cond (cond : bytes) (ctx : TplContext) : res bool :=
  let s := tpl_trim cond in
  let negate := starts_c "!" s in
  let s := if negate then tpl_trim (tail s) else s in
  let s := drop_dollar s in
  match find_op None s 0 with
  | Some (pos, op) =>
      let lhs := drop_dollar (tpl_trim (take pos s)) in
      let rhs := tpl_trim (drop (pos + length op) s) in
      resolve lhs ctx ≫= fun lv => parse_rhs rhs ctx ≫= fun rv =>
      Ret (xorb negate (compare_op op lv rv))
  | None => resolve s ctx ≫= fun v => Ret (xorb negate (is_truthy h v))
  end.
End Values.

(** * The parser *)

Definition find_c (c : ascii) (s : bytes) : option nat := find_if (is_c c) s.

Section TplParser.
Context (origin : bytes).

(** What is before the next closing brace, and what is behind it. *)
Definition read_until_close (rest ctx_msg : bytes) : res (bytes * bytes) :=
  match find_c "}" rest with
  | Some e => Ret (take e rest, drop (S e) rest)
  | None => Exn (lit "Template parse error in '" ++ origin ++ lit "': unclosed '{' near: " ++ ctx_msg)
  end.

Definition not_in_path (c : ascii) : bool := one_of (lit "()+*%/!&|?") c.
Fixpoint validate_chars (path s : bytes) : res unit :=
  match s with
  | [] => Ret tt
  | c :: s =>
      if not_in_path c then
        Exn (lit "Template error: '{$" ++ path
             ++ lit "}' cannot contain an expression or function call cannot be used. Do the computation in the .lk file.")
      else if (c =c ":") && bool_decide (is_Some (find_str (lit "::") path)) then
        Exn (lit "Template error: '{$" ++ path ++ lit "}' cannot contain a module call.")
      else validate_chars path s
  end.
Definition validate_var_path (path : bytes) : res unit := validate_chars path path.

(** [try_block] at an open brace: the kind and the arguments of a directive and
    what follows it, or nothing when the brace is text. *)
Definition var_block (kind rest ctx_msg : bytes) : res (option (bytes * bytes * bytes)) :=
  read_until_close rest ctx_msg ≫= fun '(content, rest) =>
  let path := tpl_trim content in
  validate_var_path path ≫= fun _ => Ret (Some (kind, path, rest)).
Definition try_block (r : bytes) : res (option (bytes * bytes * bytes)) :=
  match r with
  | c :: r' =>
      if (c =c "!") && starts_c "$" r' then var_block (lit "rawvar") (tail r') (lit "!$...")
      else if c =c "$" then var_block (lit "var") r' (lit "$...")
      else if c =c "#" then
        read_until_close r' (lit "#...") ≫= fun '(content, rest) =>
        let inner := tpl_trim content in
        let '(directive, args) := match find_c SP inner with
          | Some sp => (take sp inner, tpl_trim (drop (S sp) inner)) | None => (inner, []) end in
        Ret (Some (lit "#" ++ directive, args, rest))
      else if c =c "/" then
        read_until_close r' (lit "/...") ≫= fun '(content, rest) => Ret (Some (lit "/" ++ tpl_trim content, [], rest))
      else Ret None
  | [] => Ret None
  end.

Definition flush (text : bytes) (out : list TplNode) : list TplNode :=
  match text with [] => out | _ => out ++ [Text text] end.

(** "$list as $item" *)
Definition each_parts (args : bytes) : res (bytes * bytes) :=
  match find_str (lit " as ") args with
  | None => Exn (lit "Template error (" ++ origin
      ++ lit "): {#each} syntax error. Correct usage: {#each $list as $item}")
  | Some as_pos =>
      Ret (drop_dollar (tpl_trim (take as_pos args)), drop_dollar (tpl_trim (drop (as_pos + 4) args)))
  end.
Definition include_parts (args : bytes) : bytes * bytes :=
  match find_str (lit " data=") args with
  | Some data_pos => (unquote (tpl_trim (take data_pos args)), drop_dollar (tpl_trim (drop (data_pos + 6) args)))
  | None => (unquote args, [])
  end.

(** The node of a directive; [nested] parses what is inside it. *)
Definition node_of (nested : list bytes -> bytes -> res (bytes * list TplNode * bytes)) (kind args rest : bytes) :
    res (TplNode * bytes) :=
  if kind =s lit "var" then Ret (Var args, rest)
  else if kind =s lit "rawvar" then Ret (RawVar args, rest)
  else if kind =s lit "#if" then
    nested [lit "#else"; lit "/if"] rest ≫= fun '(stop, children, rest) =>
    if stop =s lit "#else" then
      nested [lit "/if"] rest ≫= fun '(_, alt, rest) => Ret (If args children alt, rest)
    else Ret (If args children [], rest)
  else if kind =s lit "#each" then
    each_parts args ≫= fun '(arr, item) =>
    nested [lit "#empty"; lit "/each"] rest ≫= fun '(stop, children, rest) =>
    if stop =s lit "#empty" then
      nested [lit "/each"] rest ≫= fun '(_, alt, rest) => Ret (Each arr item children alt, rest)
    else Ret (Each arr item children [], rest)
  else if kind =s lit "#extends" then Ret (Extends (unquote args), rest)
  else if kind =s lit "#block" then
    nested [lit "/block"] rest ≫= fun '(_, children, rest) => Ret (Block (unquote args) children, rest)
  else if kind =s lit "#include" then
    let '(path, data) := include_parts args in Ret (Include path data, rest)
  else if starts_c "/" kind || (kind =s lit "#else") || (kind =s lit "#empty") then
    Exn (lit "Template error (" ++ origin ++ lit "): unexpected directive '{" ++ kind ++ lit "}'")
  else Exn (lit "Template error (" ++ origin ++ lit "): unknown directive '{" ++ kind ++ lit "}'").

(** The stop directive met (empty at the end of the text), the nodes, the
    text that is left. *)
Fixpoint parse_nodes (fuel : nat) (stops : list bytes) (text : bytes) (out : list TplNode) (rest : bytes) :
    res (bytes * list TplNode * bytes) :=
  match fuel, rest with
  | _, [] => Ret ([], flush text out, [])
  | O, _ => Undef
  | S fuel, c :: r =>
      if negb (c =c "{") then parse_nodes fuel stops (text ++ [c]) out r
      else
        try_block r ≫= fun b =>
        match b with
        | None => parse_nodes fuel stops (text ++ [c]) out r
        | Some (kind, args, rest) =>
            if existsb (bytes_eqb kind) stops then Ret (kind, flush text out, rest)
            else
              node_of (fun stops rest => parse_nodes fuel stops [] [] rest) kind args rest ≫= fun '(node, rest) =>
              parse_nodes fuel stops [] (flush text out ++ [node]) rest
        end
  end.
End TplParser.

Definition parse (src origin : bytes) : res (list TplNode) :=
  parse_nodes origin (length src) [] [] [] src ≫= fun '(_, nodes, _) => Ret nodes.

(** * Files *)

(** What the file system answers; the paths are those of POSIX. *)
Record Files := MkFiles {
  current_path : bytes; template_dir : option bytes;
  weakly_canonical : bytes -> bytes; exists_file : bytes -> bool; read_file : bytes -> option bytes }.

Definition tpl_within (b f : bytes) : bool :=
  (length b <=? length f)%nat && (take (length b) f =s b)
  && ((length f =? length b)%nat
      || match f !! length b with Some c => (c =c "/") || (c =c BACKSLASH) | None => false end).

(** [fs::path]: [has_extension], [is_absolute], [operator/] *)
Definition file_name (p : bytes) : bytes := match rfind_if (is_c "/") p with Some i => drop (S i) p | None => p end.
Definition has_extension (p : bytes) : bool :=
  let f := file_name p in
  negb (f =s lit ".") && negb (f =s lit "..")
  && match rfind_if (is_c ".") f with Some (S _) => true | _ => false end.
Definition is_absolute (p : bytes) : bool := starts_c "/" p.
Definition join_path (root p : bytes) : bytes :=
  if is_absolute p then p
  else match last root with
  | Some c => if c =c "/" then root ++ p else root ++ lit "/" ++ p
  | None => p
  end.

Section Render.
Context (L : Lib) (h : heap) (F : Files).

Definition roots : list bytes :=
  current_path F :: match template_dir F with Some (c :: d) => [c :: d] | _ => [] end.
Definition resolve_path (path : bytes) : res bytes :=
  let p := if has_extension path then path else path ++ lit ".html" in
  let good root :=
    let cand := join_path root p in
    tpl_within (weakly_canonical F root) (weakly_canonical F cand) && exists_file F cand in
  match List.find good roots with
  | Some root => Ret (join_path root p)
  | None =>
      let base := current_path F in
      if negb (is_absolute p) && tpl_within (weakly_canonical F base) (weakly_canonical F (join_path base p))
      then Ret (join_path base p)
      else Exn (lit "Template security error: escape outside the allowed directory blocked: " ++ path)
  end.

(** * Rendering *)

Fixpoint collect_node (n : TplNode) (out : TplBlocks) : TplBlocks :=
  let collect := fix collect (ns : list TplNode) (out : TplBlocks) : TplBlocks :=
    match ns with [] => out | n :: ns => collect ns (collect_node n out) end in
  match n with
  | Block name children =>
      collect children (match out !! name with Some _ => out | None => <[ name := children ]> out end)
  | If _ children alt | Each _ _ children alt => collect alt (collect children out)
  | _ => out
  end.
Definition collect_blocks (ns : list TplNode) (out : TplBlocks) : TplBlocks :=
  fold_left (fun out n => collect_node n out) ns out.

(** The first node that is not text is an [extends]. *)
Fixpoint extends_of (ns : list TplNode) : option bytes :=
  match ns with
  | Text _ :: ns => extends_of ns
  | Extends p :: _ => Some p
  | _ => None
  end.

Definition load (path : bytes) : res (list TplNode) :=
  resolve_path path ≫= fun full =>
  match read_file F full with
  | None => Exn (lit "Template file not found: " ++ full)
  | Some src => parse src path
  end.

(** The pairs of an array as a context. *)
Fixpoint put_pairs (pairs : list Value) (ctx : TplContext) : TplContext :=
  match pairs with
  | k :: v :: pairs => put_pairs pairs (match k with STRING s => <[ s := v ]> ctx | _ => ctx end)
  | _ => ctx
  end.
Definition value_to_context (v : Value) : TplContext :=
  match v with
  | ARRAY l => let arr := elems h l in put_pairs (if sentinel arr then tail arr else arr) ∅
  | _ => ∅
  end.

Fixpoint odd_elems (l : list Value) : list Value :=
  match l with _ :: v :: l => v :: odd_elems l | _ => [] end.
Definition each_elems (v : Value) : option (list Value) :=
  match v with
  | ARRAY l => let arr := elems h l in Some (if sentinel arr then odd_elems (tail arr) else arr)
  | _ => None
  end.

Section Node.
Context (render : list TplNode -> TplContext -> option TplBlocks -> res bytes).

(** What [render_file] and [render_string] do with their nodes. *)
Definition render_top (nodes : list TplNode) (ctx : TplContext) : res bytes :=
  match extends_of nodes with
  | Some p => load p ≫= fun parent => render parent ctx (Some (collect_blocks nodes ∅))
  | None => render nodes ctx None
  end.
Definition render_file_with (path : bytes) (ctx : TplContext) : res bytes :=
  load path ≫= fun nodes => render_top nodes ctx.

Definition render_node (ctx : TplContext) (blocks : option TplBlocks) (n : TplNode) : res bytes :=
  match n with
  | Text t => Ret t
  | Var p => resolve h p ctx ≫= fun v => Ret (html_escape (to_str L v))
  | RawVar p => resolve h p ctx ≫= fun v => Ret (to_str L v)
  | If cond children alt =>
      eval_cond L h cond ctx ≫= fun b => if b : bool then render children ctx blocks else render alt ctx blocks
  | Each arr item children alt =>
      resolve h arr ctx ≫= fun v =>
      match each_elems v with
      | None | Some [] => render alt ctx blocks
      | Some es => @concat ascii <$> map_res (fun e => render children (<[ item := e ]> ctx) blocks) es
      end
  | Extends _ => Ret []
  | Block name children =>
      match blocks with
      | Some bs => match bs !! name with Some ns => render ns ctx blocks | None => render children ctx blocks end
      | None => render children ctx blocks
      end
  | Include path data =>
      (if data =s [] then Ret ctx else resolve h data ctx ≫= fun v => Ret (value_to_context v)) ≫= fun inc =>
      match render_file_with path inc with
      | Exn e => Exn (lit "Template include error (" ++ path ++ lit "): " ++ e)
      | r => r
      end
  end.
End Node.

(** The fuel is the depth of the stack. *)
Fixpoint render (fuel : nat) (nodes : list TplNode) (ctx : TplContext) (blocks : option TplBlocks) : res bytes :=
  match fuel with
  | O => Undef
  | S fuel => @concat ascii <$> map_res (render_node (render fuel) ctx blocks) nodes
  end.
Definition render_file (fuel : nat) (path : bytes) (ctx : TplContext) : res bytes :=
  render_file_with (render fuel) path ctx.
Definition render_string (fuel : nat) (src : bytes) (ctx : TplContext) : res bytes :=
  parse src (lit "<string>") ≫= fun nodes => render_top (render fuel) nodes ctx.

(** ** The functions of the script module *)

(** The path or the source, and the context of the second argument. *)
Definition args_of (bad_count bad_type : bytes) (args : list Value) : res (bytes * TplContext) :=
  match args with
  | [STRING s] => Ret (s, ∅)
  | [STRING s; d] => Ret (s, value_to_context d)
  | [_] | [_; _] => Exn bad_type
  | _ => Exn bad_count
  end.
Definition render_fn (fuel : nat) (args : list Value) : res Value :=
  args_of (lit "template::render() expects 1 or 2 arguments: (file_path [, $data])")
    (lit "template::render(): first argument must be a string (file path)") args ≫= fun '(path, ctx) =>
  STRING <$> render_file fuel path ctx.
Definition render_string_fn (fuel : nat) (args : list Value) : res Value :=
  args_of (lit "template::render_string() expects 1 or 2 arguments")
    (lit "template::render_string(): first argument must be a string") args ≫= fun '(src, ctx) =>
  STRING <$> render_string fuel src ctx.
Definition escape_fn (args : list Value) : res Value :=
  match args with
  | [a] => Ret (STRING (html_escape (to_str L a)))
  | _ => Exn (lit "template::escape() expects 1 argument")
  end.
End Render.

(** * The parser always comes back *)

(** The text of a node is a piece of [src], and a node that is not escaped
    stands in [src] as such. *)
Definition raw_mark : bytes := lit "{!$".
Inductive clean (T : bytes -> Prop) (raw : Prop) : TplNode -> Prop :=
| CText t : T t -> clean T raw (Text t)
| CVar p : clean T raw (Var p)
| CRawVar p : raw -> clean T raw (RawVar p)
| CIf c a b : Forall (clean T raw) a -> Forall (clean T raw) b -> clean T raw (If c a b)
| CEach arr item a b : Forall (clean T raw) a -> Forall (clean T raw) b -> clean T raw (Each arr item a b)
| CExtends p : clean T raw (Extends p)
| CBlock name a : Forall (clean T raw) a -> clean T raw (Block name a)
| CInclude p d : clean T raw (Include p d).
#[local] Hint Constructors clean : core.

Lemma read_until_close_spec origin rest msg :
  match read_until_close origin rest msg with
  | Ret (_, rest') => exists a, rest = a ++ rest' /\ (length rest' < length rest)%nat
  | Exn _ => True
  | Undef => False
  end.
Proof.
  unfold read_until_close, find_c. destruct (find_if _ rest) as [e|] eqn:E; [|done].
  exists (take (S e) rest). rewrite take_drop, length_drop. apply find_if_lt in E. split; [done|lia].
Qed.

Lemma validate_chars_defined path s : validate_chars path s <> Undef.
Proof. induction s as [|c s IH]; cbn; [done|]. case_if; [done|]. by case_if. Qed.

(** A directive is read from the front of the text; only [{!$] makes one that
    is not escaped. *)
Lemma try_block_spec origin r :
  match try_block origin r with
  | Ret (Some (kind, _, rest)) =>
      exists a, r = a ++ rest /\ (length rest < length r)%nat /\ (kind = lit "rawvar" -> starts_with (lit "!$") r = true)
  | Ret None | Exn _ => True
  | Undef => False
  end.
Proof.
  assert (Hvar : forall kind r' msg pre, (kind = lit "rawvar" -> starts_with (lit "!$") (pre ++ r') = true) ->
    match var_block origin kind r' msg with
    | Ret (Some (k, _, rest)) =>
        exists a, pre ++ r' = a ++ rest /\ (length rest < length (pre ++ r'))%nat
          /\ (k = lit "rawvar" -> starts_with (lit "!$") (pre ++ r') = true)
    | Ret None | Exn _ => True | Undef => False end).
  { intros kind r' msg pre Hk. unfold var_block. pose proof (read_until_close_spec origin r' msg) as Hr.
    destruct (read_until_close _ _ _) as [[content rest]|e|]; cbn [mbind res_bind]; [|done..].
    pose proof (validate_chars_defined (tpl_trim content) (tpl_trim content)) as Hv. unfold validate_var_path.
    destruct (validate_chars _ _) as [u|e|]; cbn [mbind res_bind]; [|done..]. destruct Hr as (a & -> & Hl).
    exists (pre ++ a). rewrite <- !app_assoc. split; [done|]. split; [rewrite length_app in Hl; len|done]. }
  unfold try_block. destruct r as [|c r']; [done|].
  destruct ((c =c "!") && starts_c "$" r') eqn:E1.
  { apply andb_true_iff in E1 as [->%Ascii.eqb_eq E1]. destruct r' as [|d r']; [done|].
    apply Ascii.eqb_eq in E1 as ->. exact (Hvar (lit "rawvar") r' _ (lit "!$") (fun _ => starts_with_app (lit "!$") r')). }
  destruct (Ascii.eqb_spec c "$") as [->|_].
  { refine (Hvar (lit "var") r' _ (lit "$") _). by intros ?. }
  assert (Hkind : forall x, ~ (x :: lit "rawvar") = lit "rawvar") by done.
  case_if; [|case_if; [|done]]; pose proof (read_until_close_spec origin r') as Hr;
    match goal with |- context [read_until_close _ _ ?m] => specialize (Hr m) end;
    destruct (read_until_close _ _ _) as [[content rest]|e|]; cbn [mbind res_bind]; try done; destruct Hr as (a & -> & Hl).
  - destruct (match find_c SP _ with Some sp => _ | None => _ end) as [d args].
    exists (c :: a). repeat split; [len|by intros [=]].
  - exists (c :: a). repeat split; [len|by intros [=]].
Qed.

Section Parsed.
Context (src : bytes).

Definition from_src (n : TplNode) : Prop := clean (fun t => occurs t src) (occurs raw_mark src) n.

Lemma flush_from_src text out :
  occurs text src -> Forall from_src out -> Forall from_src (flush text out).
Proof.
  intros Ht Ho. destruct text; [done|]. apply Forall_app. split; [done|]. by repeat constructor.
Qed.

(** The position never moves back; the nodes come from the text. *)
Definition parsed (rest : bytes) (x : res (bytes * list TplNode * bytes)) : Prop :=
  match x with
  | Ret (_, nodes, rest') => Forall from_src nodes /\ exists pre, src = pre ++ rest' /\ (length rest' <= length rest)%nat
  | Exn _ => True
  | Undef => False
  end.

Lemma parsed_shorter rest rest' x : (length rest <= length rest')%nat -> parsed rest x -> parsed rest' x.
Proof. destruct x as [[[stop ns] r]|e|]; cbn; [|done..]. intros ? (? & pre & -> & ?). split; [done|]. exists pre. split; [done|lia]. Qed.

(** What reading a directive gives. *)
Definition node_read (rest : bytes) (x : res (TplNode * bytes)) : Prop :=
  match x with
  | Ret (n, rest') => from_src n /\ exists pre, src = pre ++ rest' /\ (length rest' <= length rest)%nat
  | Exn _ => True
  | Undef => False
  end.

Lemma node_read_bind rest rest0 x k :
  parsed rest x -> (length rest <= length rest0)%nat ->
  (forall stop ns rest', Forall from_src ns -> (exists pre, src = pre ++ rest') -> (length rest' <= length rest0)%nat ->
     node_read rest0 (k (stop, ns, rest'))) ->
  node_read rest0 (x ≫= k).
Proof.
  destruct x as [[[stop ns] r]|e|]; cbn [parsed mbind res_bind]; [|done..].
  intros (? & pre & ? & ?) ? Hk. apply Hk; [done|by eexists|lia].
Qed.

Lemma node_of_spec origin nested kind args rest :
  (exists pre, src = pre ++ rest) -> (kind = lit "rawvar" -> occurs raw_mark src) ->
  (forall stops r, (exists pre, src = pre ++ r) -> (length r <= length rest)%nat -> parsed r (nested stops r)) ->
  node_read rest (node_of origin nested kind args rest).
Proof.
  intros [pre Hpre] Hraw Hn.
  assert (Hleaf : forall n, from_src n -> node_read rest (Ret (n, rest))).
  { intros n Hc. split; [done|]. by exists pre. }
  unfold node_of. case_if; [by apply Hleaf; constructor|].
  case_str; [apply Hleaf; constructor; by apply Hraw|].
  case_if.
  { eapply node_read_bind; [by apply Hn; [by exists pre|]|done|]. intros stop ch r1 Hch Hr1 Hl1.
    case_if; [|split; [by constructor|]; destruct Hr1 as [pre1 ?]; by exists pre1].
    eapply node_read_bind; [by apply Hn|done|]. intros _ alt r2 Halt [pre2 Hr2] Hl2.
    split; [by constructor|by exists pre2]. }
  case_if.
  { unfold each_parts. destruct (find_str _ args); [|done]. cbn [mbind res_bind].
    eapply node_read_bind; [by apply Hn; [by exists pre|]|done|]. intros stop ch r1 Hch Hr1 Hl1.
    case_if; [|split; [by constructor|]; destruct Hr1 as [pre1 ?]; by exists pre1].
    eapply node_read_bind; [by apply Hn|done|]. intros _ alt r2 Halt [pre2 Hr2] Hl2.
    split; [by constructor|by exists pre2]. }
  case_if; [by apply Hleaf; constructor|].
  case_if.
  { eapply node_read_bind; [by apply Hn; [by exists pre|]|done|]. intros stop ch r1 Hch [pre1 Hr1] Hl1.
    split; [by constructor|by exists pre1]. }
  case_if; [unfold include_parts; destruct (find_str _ args); by apply Hleaf; constructor|].
  by case_if.
Qed.

Lemma parse_nodes_spec origin fuel stops pre text out rest :
  (length rest <= fuel)%nat -> src = pre ++ text ++ rest -> Forall from_src out ->
  parsed rest (parse_nodes origin fuel stops text out rest).
Proof.
  revert stops pre text out rest. induction fuel as [|fuel IH]; intros stops pre text out rest Hf Hsrc Hout.
  { destruct rest; [|by cbn in Hf; lia]. split; [apply flush_from_src; [by exists pre, []|done]|].
    exists (pre ++ text). by rewrite Hsrc, !app_nil_r. }
  assert (Htext : occurs text src) by (by exists pre, rest).
  destruct rest as [|c r]; cbn [parse_nodes].
  { split; [by apply flush_from_src|]. exists (pre ++ text). by rewrite Hsrc, !app_nil_r. }
  assert (Hmore : parsed (c :: r) (parse_nodes origin fuel stops (text ++ [c]) out r)).
  { eapply parsed_shorter; [|apply (IH _ pre)]; [cbn; lia|cbn in Hf; lia| |done]. by rewrite Hsrc, <- app_assoc. }
  destruct (Ascii.eqb_spec c "{") as [->|]; [|done]. cbn [negb].
  pose proof (try_block_spec origin r) as Hb.
  destruct (try_block origin r) as [[[[kind args] r1]|]|e|]; cbn [mbind res_bind]; try done.
  destruct Hb as (a & -> & Hl & Hraw). pose proof (flush_from_src text out Htext Hout) as Hfl.
  set (out1 := flush text out) in *. clearbody out1.
  assert (Hpos : exists p, src = p ++ r1) by (exists (pre ++ text ++ "{"%char :: a); by rewrite Hsrc, <- !app_assoc).
  case_if. { destruct Hpos as [p Hp]. split; [done|]. exists p. split; [done|]. cbn. lia. }
  assert (Hnode : node_read r1 (node_of origin (fun stops r => parse_nodes origin fuel stops [] [] r) kind args r1)).
  { apply node_of_spec; [done| |].
    - intros Hk. apply Hraw, starts_with_spec in Hk as [t Ht]. exists (pre ++ text), t.
      by rewrite Hsrc, Ht, <- app_assoc.
    - intros stops' r' [p Hp] Hr'. apply (IH _ p); [cbn in Hf; lia|done|constructor]. }
  destruct (node_of _ _ _ _ _) as [[n r2]|e|]; cbn [mbind res_bind]; [|done..].
  destruct Hnode as (Hn & p & Hp & Hr2).
  eapply parsed_shorter; [|apply (IH _ p)]; [cbn; lia|cbn in Hf; lia|done|].
  apply Forall_app. by repeat constructor.
Qed.

End Parsed.

Lemma parse_spec src origin :
  match parse src origin with Ret nodes => Forall (from_src src) nodes | Exn _ => True | Undef => False end.
Proof.
  pose proof (parse_nodes_spec src origin (length src) [] [] [] [] src) as H. unfold parse.
  destruct (parse_nodes _ _ _ _ _ _) as [[[stop ns] r]|e|]; cbn [mbind res_bind]; [|done|].
  - by apply H.
  - by apply H.
Qed.

(** * What a template shows *)

Inductive piece := Markup (t : bytes) | Escaped (s : bytes).
Definition piece_text (p : piece) : bytes := match p with Markup t => t | Escaped s => html_escape s end.
Definition piece_ok (T : bytes -> Prop) (p : piece) : Prop := match p with Markup t => T t | Escaped _ => True end.
Definition shown (T : bytes -> Prop) (out : bytes) : Prop :=
  exists ps, out = concat (map piece_text ps) /\ Forall (piece_ok T) ps.

Lemma shown_nil T : shown T [].
Proof. by exists []. Qed.
Lemma shown_piece T p : piece_ok T p -> shown T (piece_text p).
Proof. intros. exists [p]. cbn. rewrite app_nil_r. by repeat constructor. Qed.
Lemma shown_concat T outs : Forall (shown T) outs -> shown T (concat outs).
Proof.
  induction 1 as [|o outs (ps & -> & Hps) _ (qs & E & Hqs)]; [apply shown_nil|].
  exists (ps ++ qs). cbn. rewrite E, map_app, concat_app. split; [done|by apply Forall_app].
Qed.
Lemma shown_map_res {A} T (f : A -> res bytes) l out :
  @concat ascii <$> map_res f l = Ret out -> Forall (fun x => forall o, f x = Ret o -> shown T o) l -> shown T out.
Proof.
  intros H Hl. destruct (map_res f l) as [outs|e|] eqn:E; [|done..]. injection H as <-. apply shown_concat.
  revert outs E. induction Hl as [|x l Hx _ IH]; intros outs; cbn [map_res]; [by intros [= <-]|].
  destruct (f x) as [o|e|] eqn:Ex; cbn [mbind res_bind]; [|done..].
  destruct (map_res f l) as [os|e|]; cbn [mbind res_bind]; [|done..]. intros [= <-].
  constructor; [by apply Hx|by apply IH].
Qed.

Definition subnodes (n : TplNode) : list TplNode :=
  match n with If _ a b | Each _ _ a b => a ++ b | Block _ a => a | _ => [] end.
Lemma node_ind (P : TplNode -> Prop) : (forall n, Forall P (subnodes n) -> P n) -> forall n, P n.
Proof.
  intros H. fix IH 1. intros n. apply H.
  assert (Hl : forall l, Forall P l) by exact
    (fix go l := match l with [] => Forall_nil_2 P | n :: l => Forall_cons_2 P n l (IH n) (go l) end).
  destruct n; cbn [subnodes]; first [apply Forall_app_2; apply Hl|apply Hl].
Qed.

Lemma Forall_mp {A} (P Q : A -> Prop) l : Forall (fun x => P x -> Q x) l -> Forall P l -> Forall Q l.
Proof. induction 1; intros Hl; inversion Hl; subst; constructor; by auto. Qed.

Lemma clean_weaken (T T' : bytes -> Prop) (raw raw' : Prop) n :
  (forall t, T t -> T' t) -> (raw -> raw') -> clean T raw n -> clean T' raw' n.
Proof.
  intros HT Hraw. induction n as [n IH] using node_ind. intros Hc.
  destruct Hc; cbn [subnodes] in IH; try (constructor; by auto);
    try apply Forall_app in IH as [? ?]; constructor; by eapply Forall_mp.
Qed.

(** The blocks of clean nodes are clean. *)
Definition clean_blocks (T : bytes -> Prop) (raw : Prop) (bs : TplBlocks) : Prop :=
  forall name ns, bs !! name = Some ns -> Forall (clean T raw) ns.

Lemma collect_node_fold n out :
  collect_node n out =
  collect_blocks (subnodes n)
    (match n with Block name ns => match out !! name with Some _ => out | None => <[ name := ns ]> out end | _ => out end).
Proof.
  unfold collect_blocks.
  assert (Hl : forall l o, (fix collect (ns : list TplNode) (out : TplBlocks) : TplBlocks :=
      match ns with [] => out | n :: ns => collect ns (collect_node n out) end) l o
    = fold_left (fun out n => collect_node n out) l o) by (induction l; cbn; auto).
  destruct n; cbn [collect_node subnodes]; rewrite ?Hl, ?fold_left_app; done.
Qed.

Lemma collect_clean T raw ns out :
  Forall (clean T raw) ns -> clean_blocks T raw out -> clean_blocks T raw (collect_blocks ns out).
Proof.
  assert (Hn : forall n out, clean T raw n -> clean_blocks T raw out -> clean_blocks T raw (collect_node n out)).
  { intros n. induction n as [n IH] using node_ind. intros o Hc Ho. rewrite collect_node_fold.
    assert (Hsub : Forall (clean T raw) (subnodes n)) by (destruct Hc; cbn; by try apply Forall_app_2).
    match goal with |- clean_blocks T raw (collect_blocks _ ?o') => assert (Ho' : clean_blocks T raw o') end.
    { destruct Hc as [| | | | | |name a Ha|]; try done. destruct (o !! name) eqn:E; [done|]. intros name' ns'.
      destruct (decide (name = name')) as [->|]; [rewrite lookup_insert_eq; congruence|].
      rewrite lookup_insert_ne by done. apply Ho. }
    revert Ho'. match goal with |- clean_blocks T raw ?o' -> _ => generalize o' end. unfold collect_blocks.
    induction IH as [|m l Hm _ IHl]; intros o' Ho'; [done|]. apply Forall_cons in Hsub as [? ?]. cbn. by auto. }
  unfold collect_blocks. intros Hns. revert out. induction Hns; intros out Ho; cbn; by auto.
Qed.

(** ** Rendering clean nodes *)

Section Shown.
Context (L : Lib) (h : heap) (F : Files) (T : bytes -> Prop).
Hypothesis Hfiles : forall f src path nodes,
  read_file F f = Some src -> parse src path = Ret nodes -> Forall (clean T False) nodes.

Notation ok := (Forall (clean T False)).
Definition ok_blocks (blocks : option TplBlocks) : Prop := forall bs, blocks = Some bs -> clean_blocks T False bs.
Definition good (r : list TplNode -> TplContext -> option TplBlocks -> res bytes) : Prop :=
  forall nodes ctx blocks out, r nodes ctx blocks = Ret out -> ok nodes -> ok_blocks blocks -> shown T out.

Lemma load_clean path nodes : load F path = Ret nodes -> ok nodes.
Proof.
  unfold load. intros (full & _ & H)%res_bind_Ret. destruct (read_file F full) eqn:E; [|done]. by eapply Hfiles.
Qed.

Lemma render_top_shown r nodes ctx out : good r -> ok nodes -> render_top F r nodes ctx = Ret out -> shown T out.
Proof.
  intros Hr Hn. unfold render_top. destruct (extends_of nodes) as [p|].
  - intros (parent & Hp%load_clean & H)%res_bind_Ret. eapply Hr; [exact H|exact Hp|].
    intros bs [= <-]. apply collect_clean; [done|]. by intros ? ? ?%lookup_empty_Some.
  - intros H. by eapply Hr.
Qed.

Lemma render_node_shown r ctx blocks n out :
  good r -> ok_blocks blocks -> clean T False n -> render_node L h F r ctx blocks n = Ret out -> shown T out.
Proof.
  intros Hr Hb Hc. destruct Hc as [t Ht|p|p []|c a b Ha Hb'|arr item a b Ha Hb'|p|name a Ha|p d]; cbn [render_node].
  - intros [= <-]. by apply (shown_piece T (Markup t)).
  - intros (v & _ & [= <-])%res_bind_Ret. by apply (shown_piece T (Escaped (to_str L v))).
  - intros (x & _ & H)%res_bind_Ret. destruct x; by eapply Hr.
  - intros (v & _ & H)%res_bind_Ret. destruct (each_elems h v) as [[|e es]|]; [by eapply Hr| |by eapply Hr].
    eapply shown_map_res; [exact H|]. apply Forall_forall. intros x _ o Hx. by eapply Hr.
  - intros [= <-]. apply shown_nil.
  - destruct blocks as [bs|]; [|intros H; by eapply Hr]. specialize (Hb bs eq_refl).
    assert (Hbs : ok_blocks (Some bs)) by (by intros ? [= <-]).
    destruct (bs !! name) as [ns|] eqn:E; intros H; (eapply Hr; [exact H| |done]); [by eapply Hb|done].
  - intros (inc & _ & H)%res_bind_Ret. unfold render_file_with in H.
    destruct (load F p) as [nodes|e|] eqn:E; cbn [mbind res_bind] in H; [|done..].
    destruct (render_top F r nodes inc) as [o|e|] eqn:Et; [|done..]. injection H as <-.
    by eapply render_top_shown, Et; [|eapply load_clean].
Qed.

Lemma render_shown fuel : good (render L h F fuel).
Proof.
  induction fuel as [|fuel IH]; intros nodes ctx blocks out H Hn Hb; cbn [render] in H; [done|].
  eapply shown_map_res; [exact H|]. eapply Forall_impl; [exact Hn|]. intros n Hc o Ho. by eapply render_node_shown.
Qed.
End Shown.

Lemma html_char_safe c : Forall (fun d => d ∉ ["<"; ">"; DQUOTE; SQUOTE; "`"]%char) (html_char c).
Proof.
  assert (H : forallb (fun d => negb (one_of ["<"; ">"; DQUOTE; SQUOTE; "`"]%char d)) (html_char c) = true).
  { revert c. apply all_chars_spec. by vm_compute. }
  apply Forall_forall. intros d Hd Hin%one_of_spec. rewrite forallb_forall in H.
  apply list_elem_of_In, H in Hd. by rewrite Hin in Hd.
Qed.
Lemma html_char_inj c d s t : html_char c ++ s = html_char d ++ t -> c = d /\ s = t.
Proof.
  unfold html_char. repeat case_if; repeat match goal with H : (_ =c _) = true |- _ => apply Ascii.eqb_eq in H as -> end;
    cbn; intros [=]; subst; try done.
Qed.
Lemma html_escape_inj s t : html_escape s = html_escape t -> s = t.
Proof.
  unfold html_escape. revert t. induction s as [|c s IH]; intros [|d t]; cbn; [done| | |].
  - destruct (html_char d) eqn:E; [|done]. revert E. unfold html_char. by repeat case_if.
  - destruct (html_char c) eqn:E; [|done]. revert E. unfold html_char. by repeat case_if.
  - intros [-> H]%html_char_inj. by rewrite (IH _ H).
Qed.

(** C26: what values put into a page is escaped. When no source of a template
    has the mark [{!$], whatever is rendered is a sequence of pieces, each a
    piece of the text of the templates as it stands or a value that went
    through [html_escape]; and an escaped text has none of the characters that
    can open or close a tag or an attribute, and stands for one value only. *)
Theorem values_are_escaped L h F fuel src ctx out :
  ~ occurs raw_mark src -> (forall f s, read_file F f = Some s -> ~ occurs raw_mark s) ->
  render_string L h F fuel src ctx = Ret out ->
  (exists ps, out = concat (map piece_text ps) /\
     Forall (piece_ok (fun t => occurs t src \/ exists f s, read_file F f = Some s /\ occurs t s)) ps) /\
  (forall s, Forall (fun c => c ∉ ["<"; ">"; DQUOTE; SQUOTE; "`"]%char) (html_escape s)) /\
  (forall s t, html_escape s = html_escape t -> s = t).
Proof.
  intros Hsrc Hfiles Hr. split; [|split].
  - set (T t := occurs t src \/ exists f s, read_file F f = Some s /\ occurs t s).
    assert (HF : forall f s path nodes, read_file F f = Some s -> parse s path = Ret nodes -> Forall (clean T False) nodes).
    { intros f s path nodes Hf Hp. pose proof (parse_spec s path) as Hs. rewrite Hp in Hs.
      eapply Forall_impl; [exact Hs|]. intros n. apply clean_weaken; [|by eapply Hfiles]. intros t Ht. right. by eauto. }
    unfold render_string in Hr. apply res_bind_Ret in Hr as (nodes & Hp & Hr).
    eapply render_top_shown; [exact HF|apply render_shown; exact HF| |exact Hr].
    pose proof (parse_spec src (lit "<string>")) as Hs. rewrite Hp in Hs.
    eapply Forall_impl; [exact Hs|]. intros n. apply clean_weaken; [|done]. intros t Ht. by left.
  - intros s. unfold html_escape. induction s as [|c s IH]; [constructor|]. cbn. apply Forall_app. split; [|done].
    apply html_char_safe.
  - apply html_escape_inj.
Qed.

Definition no_files : Files := MkFiles (lit "/app") None (fun p => p) (fun _ => false) (fun _ => None).
Definition any_lib : Lib := MkLib (fun _ => lit "0.5") (fun x _ => x).

Lemma values_are_escaped_witness :
  render_string any_lib ∅ no_files 5 (lit "<p>{$x}</p>") {[ lit "x" := STRING (lit "<b>") ]}
    = Ret (lit "<p>&lt;b&gt;</p>") /\
  exists ps, lit "<p>&lt;b&gt;</p>" = concat (map piece_text ps) /\
     Forall (piece_ok (fun t => occurs t (lit "<p>{$x}</p>")
       \/ exists f s, read_file no_files f = Some s /\ occurs t s)) ps.
Proof.
  assert (H : render_string any_lib ∅ no_files 5 (lit "<p>{$x}</p>") {[ lit "x" := STRING (lit "<b>") ]}
    = Ret (lit "<p>&lt;b&gt;</p>")) by (by vm_compute).
  split; [exact H|].
  apply (values_are_escaped any_lib ∅ no_files 5 (lit "<p>{$x}</p>") {[ lit "x" := STRING (lit "<b>") ]}).
  - intros (a & b & Hab). by apply (find_str_None raw_mark (lit "<p>{$x}</p>") a b).
  - done.
  - exact H.
Defined.

(** The parser of templates comes back on every text, with nodes or with
    an error message, and its position never leaves the text. *)
Theorem parse_comes_back src origin :
  (exists nodes, parse src origin = Ret nodes) \/ exists msg, parse src origin = Exn msg.
Proof. pose proof (parse_spec src origin) as H. destruct (parse src origin); [left|right|done]; by eexists. Qed.

(** A template file is read only from under the working directory or the
    directory of TEMPLATE_DIR: the canonical form of every path that
    [resolve_path] returns is the one of such a root, or it goes on behind it
    with a separator. *)
Theorem template_paths_contained F path full :
  resolve_path F path = Ret full ->
  exists root, root ∈ roots F /\
    (weakly_canonical F full = weakly_canonical F root \/
     exists sep rest, weakly_canonical F full = weakly_canonical F root ++ sep :: rest /\ (sep = "/"%char \/ sep = BACKSLASH)).
Proof.
  assert (Hw : forall b f, tpl_within b f = true ->
    f = b \/ exists sep rest, f = b ++ sep :: rest /\ (sep = "/"%char \/ sep = BACKSLASH)).
  { intros b f. unfold tpl_within. rewrite !andb_true_iff, orb_true_iff.
    intros [[Hl%Nat.leb_le Ht%bytes_eqb_eq] [He%Nat.eqb_eq|Hs]].
    - left. by rewrite <- Ht, take_ge by lia.
    - right. destruct (f !! length b) as [c|] eqn:E; [|done]. exists c, (drop (S (length b)) f).
      split; [|by apply orb_true_iff in Hs as [?%Ascii.eqb_eq|?%Ascii.eqb_eq]; auto].
      rewrite <- Ht at 1. by rewrite <- (drop_S f c _ E), take_drop. }
  unfold resolve_path. set (p := if has_extension path then path else path ++ lit ".html").
  destruct (List.find _ _) as [root|] eqn:E.
  - intros [= <-]. apply List.find_some in E as [Hin [Hr _]%andb_true_iff]. exists root.
    split; [by apply list_elem_of_In|by apply Hw].
  - destruct (negb _ && _) eqn:Eb; [|done]. intros [= <-]. apply andb_true_iff in Eb as [_ Hr].
    exists (current_path F). split; [by left|by apply Hw].
Qed.

(** * Where the engine does not do what it means to *)

(** A decimal number in a condition is cut to its integer: [stoll] takes the
    digits before the point. *)
Example decimal_condition : parse_rhs ∅ (lit "1.5") ∅ = Ret (INT 1).
Proof. by vm_compute. Qed.

(** A text between single quotes keeps them, though [find_op] skips it as a
    quoted text. *)
Example single_quotes :
  eval_cond any_lib ∅ (lit "$s == 'a'") {[ lit "s" := STRING (lit "a") ]} = Ret false.
Proof. by vm_compute. Qed.

(** [{$name.first}] where name is a string reads the string as a vector. *)
Example field_of_string : resolve ∅ (lit "name.first") {[ lit "name" := STRING (lit "Ada") ]} = Undef.
Proof. by vm_compute. Qed.

(** A plain list is searched as if it held pairs, and the mark of an
    associative array is its element 0. *)
Example list_as_pairs :
  resolve {[ 1%positive := [STRING (lit "a"); STRING (lit "b")] ]} (lit "x.a") {[ lit "x" := ARRAY 1%positive ]} = Ret (STRING (lit "b"))
  /\ resolve {[ 1%positive := [STRING (lit "__assoc__"); STRING (lit "k"); INT 1] ]} (lit "x.0") {[ lit "x" := ARRAY 1%positive ]}
     = Ret (STRING (lit "__assoc__")).
Proof. by vm_compute. Qed.

(** A directive that is not closed is accepted. *)
Example unclosed_if : parse (lit "{#if $x}a") [] = Ret [If (lit "$x") [Text (lit "a")] []].
Proof. by vm_compute. Qed.

(** A template that includes itself, and a block inside a block of the same
    name, overflow every stack. *)
Example include_itself fuel :
  render any_lib ∅ (MkFiles (lit "/app") None (fun p => p) (fun _ => true) (fun _ => Some (lit "{#include a}")))
    fuel [Include (lit "a") []] ∅ None = Undef.
Proof.
  set (F := MkFiles _ _ _ _ _). assert (HF : load F (lit "a") = Ret [Include (lit "a") []]) by (by vm_compute).
  induction fuel as [|fuel IH]; [done|]. cbn [render map_res render_node bytes_eqb mbind res_bind].
  unfold render_file_with. rewrite HF. cbn [mbind res_bind]. unfold render_top. cbn [extends_of]. by rewrite IH.
Qed.
Example block_in_itself fuel :
  let child := [Block (lit "x") [Block (lit "x") []]] in
  render any_lib ∅ no_files fuel child ∅ (Some (collect_blocks child ∅)) = Undef.
Proof.
  cbv zeta. set (bs := collect_blocks _ _).
  enough (H : forall ns, render any_lib ∅ no_files fuel [Block (lit "x") ns] ∅ (Some bs) = Undef) by apply H.
  induction fuel as [|fuel IH]; intros ns; [done|]. cbn [render map_res render_node].
  assert (Hb : bs !! lit "x" = Some [Block (lit "x") []]) by (by vm_compute). rewrite Hb. by rewrite IH.
Qed.

End Template.
