(* ===== verification/MailAuth.v ===== *)
(** What the mail servers share: cpp/include/look/smtp_parse.h, imap_parse.h
    and dkim_tag.h, and from cpp/src/smtp_server.cpp the decoding and the check
    of passwords, the local domains and SPF.

    The environment, the rows of the user database, SHA-256 of OpenSSL and the
    answers of DNS are parameters. *)

From S2P Require Import Prelude CNum Crypto WebSocket Web.
#[local] Open Scope Z_scope.

Module MailAuth.
Import CNum Web.

(** * smtp_parse.h *)

Definition sp_tab : bytes := [SP; TAB].

(** [smtp_extract_addr]; [None] is [false]. *)
Definition smtp_extract_addr (line : bytes) : option bytes :=
  match find_if (is_c ":") line with
  | None => None
  | Some colon =>
      let rest := drop (S colon) line in
      match find_if (none_of sp_tab) rest with
      | None => None
      | Some b =>
          let rest := drop b rest in
          match rest with
          | c :: r =>
              if c =c "<" then
                match find_if (is_c ">") r with
                | None => None
                | Some gt =>
                    let addr := take gt r in
                    if has_char (is_c "<") addr || has_char (is_c SP) addr then None else Some addr
                end
              else
                let addr := match find_if (one_of sp_tab) rest with Some sp => take sp rest | None => rest end in
                if (addr =s []) || has_char (is_c "<") addr || has_char (is_c ">") addr then None else Some addr
          | [] => None
          end
      end
  end.

Fixpoint smtp_verb (line : bytes) : bytes :=
  match line with
  | c :: line => if one_of [SP; CR; LF] c then [] else toupper c :: smtp_verb line
  | [] => []
  end.

(** * imap_parse.h *)

(** The tag, the command and the arguments. *)
Definition imap_parse_command (line : bytes) : bytes * bytes * bytes :=
  match find_if (is_c SP) line with
  | None => (line, [], [])
  | Some sp1 =>
      let rest := drop (S sp1) line in
      match find_if (is_c SP) rest with
      | None => (take sp1 line, map toupper rest, [])
      | Some n => (take sp1 line, map toupper (take n rest), drop (S n) rest)
      end
  end.

Definition dq_ends (s : bytes) : bool :=
  match s, last s with c :: _ :: _, Some d => (c =c DQUOTE) && (d =c DQUOTE) | _, _ => false end.
Definition imap_unquote (s : bytes) : bytes := if dq_ends s then substr s 1 (length s - 2) else s.
Fixpoint skip_blanks (s : bytes) : bytes :=
  match s with c :: s' => if c =c SP then skip_blanks s' else s | [] => [] end.
(** [next_token]: the token and the rest. *)
Definition imap_next_token (args : bytes) : option (bytes * bytes) :=
  match skip_blanks args with
  | [] => None
  | c :: r =>
      if c =c DQUOTE then
        match find_if (is_c DQUOTE) r with
        | None => Some (c :: r, [])
        | Some e => Some (c :: take (S e) r, drop (S e) r)
        end
      else match find_if (is_c SP) (c :: r) with
      | None => Some (c :: r, [])
      | Some e => Some (take e (c :: r), drop e (c :: r))
      end
  end.
Definition imap_split_two (args : bytes) : bytes * bytes :=
  match imap_next_token args with
  | None => ([], [])
  | Some (t1, rest) =>
      match imap_next_token rest with
      | None => (imap_unquote t1, [])
      | Some (t2, _) => (imap_unquote t1, imap_unquote t2)
      end
  end.

Definition mailbox_char (c : ascii) : bool :=
  negb ((c =c "/") || (c =c BACKSLASH) || (c =c ";") || (ord c <? 32) || (ord c =? 127)).
(** The cleaned name, or [None] for a name that is refused. *)
Definition imap_mailbox_name_ok (name : bytes) : option bytes :=
  let mb := imap_unquote name in
  if (mb =s []) || (mb =s lit "INBOX") then Some (lit "INBOX")
  else if has_char (is_c NUL) mb then None
  else if match mb with c :: _ => (c =c "/") || (c =c BACKSLASH) | [] => false end then None
  else if contains (lit "..") mb then None
  else if forallb mailbox_char mb then Some mb else None.

(** * dkim_tag.h *)

Definition wsp : bytes := [SP; TAB; CR; LF].
(** [find_first_not_of] and [find_last_not_of] of a set, and what is between. *)
Definition trim_set (set s : bytes) : option bytes :=
  match find_if (none_of set) s, rfind_if (none_of set) s with
  | Some a, Some b => Some (substr s a (b - a + 1))
  | _, _ => None
  end.
(** The value of one segment, when its name is [name]. *)
Definition dkim_segment (name seg : bytes) : option bytes :=
  match trim_set wsp seg with
  | None => None
  | Some seg =>
      match find_if (is_c "=") seg with
      | None => None
      | Some eq =>
          let tname := take eq seg in
          let tname := default tname (trim_set sp_tab tname) in
          if tname =s name then Some (List.filter (none_of wsp) (drop (S eq) seg)) else None
      end
  end.
Fixpoint dkim_segments (name : bytes) (segs : list bytes) : bytes :=
  match segs with
  | [] => []
  | s :: segs => match dkim_segment name s with Some v => v | None => dkim_segments name segs end
  end.
Definition dkim_tag (dkim_header name : bytes) : bytes :=
  let body := match find_if (is_c ":") dkim_header with Some colon => drop (S colon) dkim_header | None => dkim_header end in
  dkim_segments name (split_on (is_c ";") body).

(** * Passwords *)

(** [strchr(tbl, c) - tbl]; the zero that ends the table is found too. *)
Definition b64_index (c : ascii) : option Z :=
  if c =c NUL then Some 64 else WebSocket.b64_val c.
Definition to_i32 (z : Z) : Z := (z + 2 ^ 31) mod 2 ^ 32 - 2 ^ 31.
Fixpoint b64_loop (s : bytes) (val bits : Z) (out : bytes) : bytes :=
  match s with
  | [] => out
  | c :: s =>
      if c =c "=" then out
      else match b64_index c with
      | None => b64_loop s val bits out
      | Some i =>
          let val := to_i32 (Z.lor (Z.shiftl val 6) i) in
          let bits := bits + 6 in
          if 0 <=? bits then b64_loop s val (bits - 8) (out ++ [chr (Z.land (Z.shiftr val bits) 255)])
          else b64_loop s val bits out
      end
  end.
Definition smtp_b64_decode (s : bytes) : bytes := b64_loop s 0 (-8) [].

Section Hash.
(** SHA-256 of OpenSSL *)
Context (sha256 : bytes -> bytes).

Definition smtp_hmac_sha256 (key data : bytes) : bytes :=
  let k := if (64 <? length key)%nat then sha256 key else key in
  let k := take 64 k ++ replicate (64 - length k) NUL in
  let inner := map (fun c => chr (Z.lxor (ord c) 0x36)) k ++ data in
  let outer := map (fun c => chr (Z.lxor (ord c) 0x5c)) k in
  sha256 (outer ++ sha256 inner).

Fixpoint smtp_rounds (n : nat) (pwd u f : bytes) : bytes :=
  match n with
  | O => f
  | S n =>
      let u := smtp_hmac_sha256 pwd u in
      smtp_rounds n pwd u (zip_with (fun a b => chr (Z.lxor (ord a) (ord b))) f u)
  end.
Definition smtp_block (pwd salt : bytes) (iterations block : Z) : bytes :=
  let sb := salt ++ [chr (Z.shiftr block 24); chr (Z.shiftr block 16); chr (Z.shiftr block 8); chr block] in
  let u := smtp_hmac_sha256 pwd sb in
  smtp_rounds (Z.to_nat (iterations - 1)) pwd u u.
Definition smtp_pbkdf2_sha256 (password salt : bytes) (iterations dk_len : Z) : bytes :=
  let blocks := ((dk_len + 31) mod 2 ^ 32) / 32 in
  let dk := concat (map (fun i => smtp_block password salt iterations (Z.of_nat i)) (seq 1 (Z.to_nat blocks))) in
  take (Z.to_nat dk_len) dk ++ replicate (Z.to_nat dk_len - length dk) NUL.

(** [diff |= a[i] ^ b[i]] over both texts *)
Definition xor_all (a b : bytes) : Z :=
  fold_left Z.lor (zip_with (fun x y => Z.lxor (ord x) (ord y)) a b) 0.

(** pbkdf2$sha256$iterations$salt$hash *)
Definition smtp_pbkdf2_verify (password stored_hash : bytes) : bool :=
  match getline_all "$" stored_hash with
  | p0 :: _ :: p2 :: p3 :: p4 :: _ =>
      if negb (p0 =s lit "pbkdf2") then false
      else match stoull 10 p2 with
      | None => false
      | Some z =>
          let iter := z mod 2 ^ 32 in
          if (iter =? 0) || (1000000 <? iter) then false
          else
            let stored := smtp_b64_decode p4 in
            let derived := smtp_pbkdf2_sha256 password (smtp_b64_decode p3) iter 32 in
            (length derived =? length stored)%nat && (xor_all derived stored =? 0)
      end
  | _ => false
  end.

(** The sizes count by their low bytes, the missing characters as zeros. *)
Definition smtp_ct_equal (a b : bytes) : bool :=
  let n := Nat.max (length a) (length b) in
  let pad s := s ++ replicate (n - length s) NUL in
  Z.lor (Z.lxor (Z.of_nat (length a)) (Z.of_nat (length b)) mod 256) (xor_all (pad a) (pad b)) =? 0.

(** ** The users *)

Record DbConfig := MkDb { db_host : bytes; db_port : Z; db_user : bytes; db_password : bytes; db_name : bytes }.

Definition atoi_or (d : Z) (s : bytes) : Z :=
  match stoll s with Some z => if (- 2 ^ 31 <=? z) && (z <? 2 ^ 31) then z else d | None => d end.
(** [smtp_make_db_conn] up to the connection; [None] is the exception. *)
Definition smtp_db_config (dsn : bytes) : option DbConfig :=
  match find_str (lit "://") dsn with
  | None => None
  | Some se =>
      let rest := drop (se + 3) dsn in
      let '(user, pass, rest) := match rfind_if (is_c "@") rest with
        | Some i =>
            let ui := take i rest in
            match find_if (is_c ":") ui with
            | Some c => (take c ui, drop (S c) ui, drop (S i) rest)
            | None => (ui, [], drop (S i) rest)
            end
        | None => ([], [], rest)
        end in
      let '(hp, db) := match find_if (is_c "/") rest with
        | Some sl => (take sl rest, drop (S sl) rest) | None => (rest, []) end in
      let '(host, port) := match find_if (is_c ":") hp with
        | Some c => (take c hp, atoi_or 3306 (drop (S c) hp)) | None => (hp, 3306) end in
      Some (MkDb host port user pass db)
  end.

(** The environment, and the rows of
    SELECT password FROM mail_users WHERE email=? AND active=1; no answer is
    an exception of the client. *)
Context (env : list bytes) (query : DbConfig -> bytes -> option (list (list (bytes * bytes)))).

Definition env_text (name : string) : bytes := default [] (getenv (lit name) env).

(** The first column that is called password *)
Definition password_of (row : list (bytes * bytes)) : option bytes :=
  snd <$> List.find (fun col => col.1 =s lit "password") row.
Definition db_check (dsn user passwd : bytes) : bool :=
  match smtp_db_config dsn ≫= fun cfg => query cfg user with
  | Some (row :: _) =>
      match password_of row with Some hash => smtp_pbkdf2_verify passwd hash | None => false end
  | _ => false
  end.

(** [smtp_validate_auth]: what the client sent, decoded, is [authzid NUL]
    authcid NUL passwd. The name is the field before the last one, which is
    [parts[0]] when there are two. *)
Definition smtp_validate_auth (b64 : bytes) : bool :=
  if env_text "LOOK_SMTP_AUTH_DISABLED" =s lit "true" then false
  else
    let parts := split_on (is_c NUL) (smtp_b64_decode b64) in
    match rev parts with
    | passwd :: username :: _ =>
        if passwd =s [] then false
        else
          let dsn := env_text "LOOK_SMTP_USER_DB" in
          if negb (dsn =s []) then db_check dsn username passwd
          else
            let token := env_text "LOOK_SMTP_AUTH_TOKEN" in
            negb (token =s []) && smtp_ct_equal passwd token
    | _ => false
    end.

Definition user_char (c : ascii) : bool := negb ((c =c "/") || (c =c BACKSLASH) || (ord c <? 32)).
(** [mail_user_auth]: the directory of the mailbox. The comparison without an
    early exit is followed by the two equalities, which decide: its [diff] is
    0 for equal texts. *)
Definition mail_user_auth (user pass : bytes) : option bytes :=
  if (user =s []) || (pass =s []) then None
  else if negb (forallb user_char user) then None
  else if contains (lit "..") user then None
  else
    let dsn := env_text "LOOK_MAIL_USER_DB" in
    let dsn := if dsn =s [] then env_text "LOOK_SMTP_USER_DB" else dsn in
    let ok :=
      if negb (dsn =s []) then db_check dsn user pass
      else
        let eu := env_text "LOOK_MAIL_USER" in
        let ep := env_text "LOOK_MAIL_PASS" in
        negb (eu =s []) && negb (ep =s []) && (user =s eu) && (pass =s ep) in
    if ok then
      let base := env_text "LOOK_MAIL_DIR" in
      let base := if base =s [] then lit "/var/mail/look" else base in
      let dir := if match last base with Some c => c =c "/" | None => false end then base else base ++ lit "/" in
      Some (dir ++ user ++ lit "/inbox")
    else None.
End Hash.

(** * The module auth of extra_stdlib.cpp *)

(** [b64_encode] has the text of the encoder of the WebSocket handshake. *)
Definition b64_encode (data : bytes) : bytes := WebSocket.base64_encode data.

Definition b64_value (c : ascii) : Z :=
  if isupper c then ord c - 65
  else if islower c then ord c - 97 + 26
  else if isdigit c then ord c - 48 + 52
  else if c =c "+" then 62
  else if c =c "/" then 63
  else -1.
Fixpoint b64_decode (s : bytes) : bytes :=
  match s with
  | c0 :: c1 :: c2 :: c3 :: s =>
      let a := b64_value c0 in let b := b64_value c1 in
      let c := b64_value c2 in let d := b64_value c3 in
      if (a <? 0) || (b <? 0) then []
      else
        [chr (Z.lor (Z.shiftl a 2) (Z.shiftr b 4))] ++
        (if 0 <=? c then [chr (Z.lor (Z.shiftl b 4) (Z.shiftr c 2))] else []) ++
        (if 0 <=? d then [chr (Z.lor (Z.shiftl c 6) d)] else []) ++
        b64_decode s
  | _ => []
  end.

(** The iterations asked for, as a [uint32_t] *)
Definition hash_iter (n : option Z) : Z := match n with Some z => z mod 2 ^ 32 | None => 100000 end.
(** [auth::hash(pwd, n)], the salt being what /dev/urandom gave *)
Definition auth_hash (pwd : bytes) (n : option Z) (salt : bytes) : bytes :=
  let iter := hash_iter n in
  lit "pbkdf2$sha256$" ++ decimal iter ++ lit "$" ++ b64_encode salt ++ lit "$" ++
  b64_encode (Crypto.pbkdf2_sha256 pwd salt iter 32).

Definition auth_verify (pwd hash : bytes) : bool :=
  match getline_all "$" hash with
  | p0 :: _ :: p2 :: p3 :: p4 :: _ =>
      if negb (p0 =s lit "pbkdf2") then false
      else match stoull 10 p2 with
      | None => false
      | Some z =>
          let iter := z mod 2 ^ 32 in
          if (iter =? 0) || (10000000 <? iter) then false
          else
            let stored := b64_decode p4 in
            let derived := Crypto.pbkdf2_sha256 pwd (b64_decode p3) iter 32 in
            (length derived =? length stored)%nat && (xor_all derived stored =? 0)
      end
  | _ => false
  end.

(** * Base64 back *)

Lemma to_i32_congr z : exists k, to_i32 z = z + k * 2 ^ 32.
Proof.
  exists (- ((z + 2 ^ 31) / 2 ^ 32)). unfold to_i32.
  pose proof (Z.div_mod (z + 2 ^ 31) (2 ^ 32) ltac:(done)). lia.
Qed.

(** The sextet of a character of the alphabet, in either decoder. *)
Lemma b64_char_index z :
  b64_index (WebSocket.b64_char z) = Some (z mod 64) /\ b64_value (WebSocket.b64_char z) = z mod 64.
Proof.
  assert (H : forallb (fun i => bool_decide (b64_index (WebSocket.b64_char i) = Some i)
      && (b64_value (WebSocket.b64_char i) =? i)) (map Z.of_nat (seq 0 64)) = true)
    by (vm_compute; reflexivity).
  rewrite forallb_forall in H. pose proof (Z.mod_pos_bound z 64 ltac:(lia)).
  assert (E : WebSocket.b64_char z = WebSocket.b64_char (z mod 64)).
  { unfold WebSocket.b64_char. change 63 with (Z.ones 6). rewrite !Z.land_ones by lia.
    change (2 ^ 6) with 64. by rewrite Z.mod_mod. }
  specialize (H (z mod 64)). rewrite E. apply andb_true_iff in H as [H1 H2]; [by bool_to_prop|].
  apply in_map_iff. exists (Z.to_nat (z mod 64)). split; [lia|]. apply in_seq. lia.
Qed.

(** One character in the loop: the new value, up to a multiple of 2^32. *)
Lemma b64_loop_char z s val bits out :
  exists v k, v = val * 64 + z mod 64 + k * 2 ^ 32 /\
  b64_loop (WebSocket.b64_char z :: s) val bits out =
    if 0 <=? bits + 6 then b64_loop s v (bits + 6 - 8) (out ++ [chr (v / 2 ^ (bits + 6))])
    else b64_loop s v (bits + 6) out.
Proof.
  pose proof (Z.mod_pos_bound z 64 ltac:(lia)) as Hz.
  destruct (to_i32_congr (val * 64 + z mod 64)) as [k Hk]. exists (to_i32 (val * 64 + z mod 64)), k.
  split; [done|]. cbn [b64_loop]. rewrite WebSocket.b64_char_eq, (proj1 (b64_char_index z)).
  rewrite lor_shiftl by (change (2 ^ 6) with 64; lia). change (2 ^ 6) with 64.
  destruct (Z.leb_spec 0 (bits + 6)); [|done]. by rewrite WebSocket.chr_land, Z.shiftr_div_pow2.
Qed.

Lemma chr_eq_mod y z : y mod 256 = z mod 256 -> chr y = chr z.
Proof. intros E. apply ord_inj. by rewrite !ord_chr. Qed.

(** The characters of a group: what is known of the value, and the byte out. *)
Lemma b64_loop_two p q s val out : exists k,
  let a := p mod 64 * 64 + q mod 64 in
  b64_loop (WebSocket.b64_char p :: WebSocket.b64_char q :: s) val (-8) out =
  b64_loop s (a + k * 4096) (-4) (out ++ [chr (a / 16)]).
Proof.
  destruct (b64_loop_char p (WebSocket.b64_char q :: s) val (-8) out) as (v1 & k1 & E1 & ->).
  change (0 <=? -8 + 6) with false. cbv iota. change (-8 + 6) with (-2).
  destruct (b64_loop_char q s v1 (-2) out) as (v2 & k2 & E2 & ->).
  change (0 <=? -2 + 6) with true. cbv iota. change (-2 + 6 - 8) with (-4).
  change (2 ^ (-2 + 6)) with 16. exists (val + k1 * 2 ^ 26 + k2 * 2 ^ 20). cbv zeta.
  replace v2 with (p mod 64 * 64 + q mod 64 + (val + k1 * 2 ^ 26 + k2 * 2 ^ 20) * 4096) by (subst; lia).
  do 3 f_equal. apply chr_eq_mod. Z.div_mod_to_equations. lia.
Qed.
Lemma b64_loop_third a k r s out : exists k',
  let b := a * 64 + r mod 64 in
  b64_loop (WebSocket.b64_char r :: s) (a + k * 4096) (-4) out =
  b64_loop s (b + k' * 2 ^ 18) (-6) (out ++ [chr (b / 4)]).
Proof.
  destruct (b64_loop_char r s (a + k * 4096) (-4) out) as (v & k' & E & ->).
  change (0 <=? -4 + 6) with true. cbv iota. change (-4 + 6 - 8) with (-6).
  change (2 ^ (-4 + 6)) with 4. exists (k + k' * 2 ^ 14). cbv zeta.
  replace v with (a * 64 + r mod 64 + (k + k' * 2 ^ 14) * 2 ^ 18) by (subst; lia).
  do 3 f_equal. apply chr_eq_mod. Z.div_mod_to_equations. lia.
Qed.
Lemma b64_loop_fourth b k t s out : exists v,
  b64_loop (WebSocket.b64_char t :: s) (b + k * 2 ^ 18) (-6) out =
  b64_loop s v (-8) (out ++ [chr (b * 64 + t mod 64)]).
Proof.
  destruct (b64_loop_char t s (b + k * 2 ^ 18) (-6) out) as (v & k' & E & ->).
  change (0 <=? -6 + 6) with true. cbv iota. change (-6 + 6 - 8) with (-8).
  change (2 ^ (-6 + 6)) with 1. exists v. rewrite Z.div_1_r.
  do 3 f_equal. apply chr_eq_mod. subst v. Z.div_mod_to_equations. lia.
Qed.

Lemma b64_loop_equal s val bits out : b64_loop ("="%char :: s) val bits out = out.
Proof. done. Qed.

Lemma b64_loop_encode n d val out : (length d < n)%nat ->
  b64_loop (b64_encode d) val (-8) out = out ++ d.
Proof.
  revert d val out. induction n as [|n IH]; intros d val out Hn; [lia|].
  unfold b64_encode. destruct d as [|x [|y [|z r]]]; cbn [WebSocket.base64_encode].
  - by rewrite app_nil_r.
  - destruct (b64_loop_two (Z.shiftr (Z.shiftl (ord x) 16) 18) (Z.shiftr (Z.shiftl (ord x) 16) 12)
      ["="%char; "="%char] val out) as [k ->]. rewrite b64_loop_equal.
    destruct (WebSocket.group_back x NUL NUL) as [E _]. unfold WebSocket.bits24 in E.
    change (ord NUL) with 0 in E. rewrite Z.shiftl_0_l, !Z.lor_0_r in E.
    do 2 f_equal. etrans; [|exact E]. f_equal. apply WebSocket.short_group; by apply Z.mod_pos_bound.
  - set (b := Z.lor _ _). destruct (b64_loop_two (Z.shiftr b 18) (Z.shiftr b 12)
      [WebSocket.b64_char (Z.shiftr b 6); "="%char] val out) as [k ->].
    match goal with |- context [b64_loop _ (?a + k * 4096) _ ?o] =>
      destruct (b64_loop_third a k (Z.shiftr b 6) ["="%char] o) as [k' ->] end.
    rewrite b64_loop_equal, <- app_assoc. cbn [app].
    destruct (WebSocket.group_back x y NUL) as (E1 & E2 & _). unfold WebSocket.bits24 in E1, E2.
    change (ord NUL) with 0 in E1, E2. rewrite !Z.lor_0_r in E1, E2. fold b in E1, E2.
    f_equal. f_equal; [etrans; [|exact E1]|f_equal; etrans; [|exact E2]];
      f_equal; eapply WebSocket.short_group; by apply Z.mod_pos_bound.
  - set (b := Z.lor (Z.lor _ _) _). set (t := WebSocket.base64_encode r).
    destruct (b64_loop_two (Z.shiftr b 18) (Z.shiftr b 12)
      (WebSocket.b64_char (Z.shiftr b 6) :: WebSocket.b64_char b :: t) val out) as [k ->].
    match goal with |- context [b64_loop _ (?a + k * 4096) _ ?o] =>
      destruct (b64_loop_third a k (Z.shiftr b 6) (WebSocket.b64_char b :: t) o) as [k' ->] end.
    match goal with |- context [b64_loop _ (?a + k' * 2 ^ 18) _ ?o] =>
      destruct (b64_loop_fourth a k' b t o) as [v ->] end.
    subst t. fold (b64_encode r). rewrite (IH r) by (cbn in Hn; lia). rewrite <- !app_assoc. cbn [app].
    destruct (WebSocket.group_back x y z) as (E1 & E2 & E3). unfold WebSocket.bits24 in E1, E2, E3.
    fold b in E1, E2, E3. f_equal. f_equal; [|f_equal; [|f_equal; exact E3]].
    + etrans; [|exact E1]. f_equal. apply WebSocket.short_group; by apply Z.mod_pos_bound.
    + etrans; [|exact E2]. f_equal. eapply WebSocket.short_group; by apply Z.mod_pos_bound.
Qed.
Lemma smtp_b64_back d : smtp_b64_decode (b64_encode d) = d.
Proof. unfold smtp_b64_decode. by rewrite (b64_loop_encode (S (length d))) by lia. Qed.

Lemma chr_group_1 a b : 0 <= a < 64 -> 0 <= b < 64 ->
  chr (Z.lor (Z.shiftl a 2) (Z.shiftr b 4)) = chr ((a * 64 + b) / 16).
Proof.
  intros Ha Hb. rewrite Z.shiftr_div_pow2 by lia. change (2 ^ 4) with 16.
  rewrite lor_shiftl; change (2 ^ 2) with 4; [|lia|Z.div_mod_to_equations; lia].
  f_equal. Z.div_mod_to_equations. lia.
Qed.
Lemma chr_group_2 a b c : 0 <= b < 64 -> 0 <= c < 64 ->
  chr (Z.lor (Z.shiftl b 4) (Z.shiftr c 2)) = chr (((a * 64 + b) * 64 + c) / 4).
Proof.
  intros Hb Hc. rewrite Z.shiftr_div_pow2 by lia. change (2 ^ 2) with 4.
  rewrite lor_shiftl; change (2 ^ 4) with 16; [|lia|Z.div_mod_to_equations; lia].
  apply chr_eq_mod. Z.div_mod_to_equations. lia.
Qed.
Lemma chr_group_3 a b c d : 0 <= c < 64 -> 0 <= d < 64 ->
  chr (Z.lor (Z.shiftl c 6) d) = chr (((a * 64 + b) * 64 + c) * 64 + d).
Proof.
  intros Hc Hd. rewrite lor_shiftl; change (2 ^ 6) with 64; [|lia|lia].
  apply chr_eq_mod. Z.div_mod_to_equations. lia.
Qed.

Lemma b64_back n d : (length d < n)%nat -> b64_decode (b64_encode d) = d.
Proof.
  revert d. induction n as [|n IH]; intros d Hn; [lia|].
  assert (Hm : forall z, 0 <= z mod 64 < 64) by (intros; apply Z.mod_pos_bound; lia).
  assert (Hle : forall z, (0 <=? z mod 64) = true) by (intros; apply Z.leb_le, Hm).
  assert (Hlt : forall z, (z mod 64 <? 0) = false) by (intros; apply Z.ltb_ge, Hm).
  unfold b64_encode. destruct d as [|x [|y [|z r]]]; [done|..]; cbn [WebSocket.base64_encode b64_decode];
    rewrite ?(proj2 (b64_char_index _)), !Hlt, ?Hle; change (b64_value "=") with (-1); cbn [orb app].
  - rewrite chr_group_1 by apply Hm. destruct (WebSocket.group_back x NUL NUL) as [E _].
    unfold WebSocket.bits24 in E. change (ord NUL) with 0 in E. rewrite Z.shiftl_0_l, !Z.lor_0_r in E.
    do 2 f_equal. etrans; [|exact E]. f_equal. apply WebSocket.short_group; apply Hm.
  - change (0 <=? -1) with false. cbn [app]. set (b := Z.lor (Z.shiftl (ord x) 16) _). rewrite chr_group_1, (chr_group_2 (Z.shiftr b 18 mod 64)) by apply Hm.
    destruct (WebSocket.group_back x y NUL) as (E1 & E2 & _). unfold WebSocket.bits24 in E1, E2.
    change (ord NUL) with 0 in E1, E2. rewrite !Z.lor_0_r in E1, E2. fold b in E1, E2.
    f_equal; [etrans; [|exact E1]|f_equal; etrans; [|exact E2]];
      f_equal; eapply WebSocket.short_group; apply Hm.
  - set (b := Z.lor (Z.lor (Z.shiftl (ord x) 16) _) _). change (WebSocket.base64_encode r) with (b64_encode r).
    rewrite (IH r) by (cbn in Hn; lia).
    rewrite chr_group_1, (chr_group_2 (Z.shiftr b 18 mod 64)),
      (chr_group_3 (Z.shiftr b 18 mod 64) (Z.shiftr b 12 mod 64)) by apply Hm.
    destruct (WebSocket.group_back x y z) as (E1 & E2 & E3). unfold WebSocket.bits24 in E1, E2, E3.
    fold b in E1, E2, E3. f_equal; [|f_equal; [|f_equal; exact E3]].
    + etrans; [|exact E1]. f_equal. apply WebSocket.short_group; apply Hm.
    + etrans; [|exact E2]. f_equal. eapply WebSocket.short_group; apply Hm.
Qed.

(** * Comparisons *)

Lemma fold_lor_0 l a : fold_left Z.lor l a = 0 <-> a = 0 /\ Forall (fun x => x = 0) l.
Proof.
  revert a. induction l as [|x l IH]; intros a; simpl; [by intuition|].
  rewrite IH, Z.lor_eq_0_iff, Forall_cons. tauto.
Qed.

Lemma xor_all_0 a b : length a = length b -> xor_all a b = 0 <-> a = b.
Proof.
  unfold xor_all. intros Hl. rewrite fold_lor_0.
  enough (H : Forall (fun x => x = 0) (zip_with (fun x y => Z.lxor (ord x) (ord y)) a b) <-> a = b)
    by (rewrite <- H; tauto).
  revert b Hl. induction a as [|x a IH]; intros [|y b] Hl; try done; simpl.
  rewrite Forall_cons, Z.lxor_eq_0_iff, IH by (simpl in Hl; lia).
  split; [intros [E%ord_inj ->]; by subst|]. by intros [= -> ->].
Qed.

(** The comparison of the derived key. *)
Lemma same_key a b : (length a =? length b)%nat && (xor_all a b =? 0) = (a =s b).
Proof.
  apply eq_true_iff_eq. rewrite andb_true_iff, Nat.eqb_eq, Z.eqb_eq, bytes_eqb_eq.
  split; [intros [Hl H]; by apply xor_all_0|]. intros ->. split; [done|by apply xor_all_0].
Qed.

Definition no_nul (s : bytes) : Prop := Forall (fun c => is_c NUL c = false) s.

Lemma pad_nul_eq a b n m :
  no_nul a -> no_nul b -> a ++ replicate n NUL = b ++ replicate m NUL -> a = b.
Proof.
  intros Ha. revert b. induction Ha as [|c a Hc _ IH]; intros [|d b] Hb E; [done|..].
  - apply Forall_cons in Hb as [Hd _]. destruct n; [done|]. injection E as <- _. done.
  - destruct m; [done|]. injection E as -> _. done.
  - injection E as -> E. f_equal. apply Forall_cons in Hb as [_ Hb]. by apply IH.
Qed.

Lemma ct_equal_eq a b : no_nul a -> no_nul b -> smtp_ct_equal a b = (a =s b).
Proof.
  intros Ha Hb. unfold smtp_ct_equal. set (n := Nat.max _ _).
  apply eq_true_iff_eq. rewrite Z.eqb_eq, bytes_eqb_eq, Z.lor_eq_0_iff. split.
  - intros [_ H]. apply xor_all_0 in H; [by apply pad_nul_eq in H|].
    rewrite !length_app, !length_replicate. lia.
  - intros ->. rewrite Z.lxor_nilpotent. split; [done|]. by apply xor_all_0.
Qed.

(** * The two key derivations *)

Lemma smtp_hmac_eq key data : smtp_hmac_sha256 Crypto.sha256 key data = Crypto.hmac_sha256 key data.
Proof. done. Qed.

Lemma smtp_rounds_eq n pwd u f : smtp_rounds Crypto.sha256 n pwd u f = Crypto.pbkdf2_rounds n pwd u f.
Proof.
  revert u f. induction n as [|n IH]; intros u f; cbn [smtp_rounds Crypto.pbkdf2_rounds]; [done|].
  by rewrite smtp_hmac_eq, IH.
Qed.

Lemma smtp_pbkdf2_eq pwd salt iter len :
  smtp_pbkdf2_sha256 Crypto.sha256 pwd salt iter len = Crypto.pbkdf2_sha256 pwd salt iter len.
Proof.
  unfold smtp_pbkdf2_sha256, Crypto.pbkdf2_sha256, Crypto.resize0, Crypto.block_count. cbv zeta.
  change (2 ^ 32) with Crypto.W32.
  rewrite (map_ext (fun i => smtp_block Crypto.sha256 pwd salt iter (Z.of_nat i))
    (fun i => Crypto.pbkdf2_block pwd salt iter (Z.of_nat i))); [done|].
  intros i. unfold smtp_block, Crypto.pbkdf2_block. by rewrite smtp_hmac_eq, smtp_rounds_eq.
Qed.

(** * The text of a hash *)

Definition DOLLAR : ascii := "$"%char.
Definition no_dollar (s : bytes) : Prop := Forall (fun c => is_c DOLLAR c = false) s.

Lemma b64_no_dollar n d : (length d < n)%nat -> no_dollar (b64_encode d).
Proof.
  assert (Hc : forall z, is_c DOLLAR (WebSocket.b64_char z) = false).
  { intros z. apply is_c_false. intros E. pose proof (b64_char_index z) as [_ H]. rewrite E in H.
    change (b64_value DOLLAR) with (-1) in H. pose proof (Z.mod_pos_bound z 64 ltac:(lia)). lia. }
  revert d. induction n as [|n IH]; intros d Hn; [lia|]. unfold no_dollar, b64_encode in *.
  destruct d as [|x [|y [|z r]]]; cbn [WebSocket.base64_encode]; repeat (constructor; [by try apply Hc|]);
    try constructor. apply IH. cbn in Hn. lia.
Qed.

Lemma decimal_no_dollar n : 0 <= n -> no_dollar (decimal n).
Proof.
  intros Hn. pose proof (dec_go_digits 20 n [] eq_refl Hn) as H. fold (decimal n) in H.
  unfold no_dollar. apply Forall_forall. intros c Hc.
  rewrite forallb_forall in H. apply list_elem_of_In in Hc. specialize (H c Hc).
  apply is_c_false. by intros ->.
Qed.

Lemma hash_iter_range n : 0 <= hash_iter n < 2 ^ 32.
Proof. destruct n as [z|]; simpl; [apply Z.mod_pos_bound|]; lia. Qed.

Lemma pbkdf2_cons pwd salt iter : exists c s, Crypto.pbkdf2_sha256 pwd salt iter 32 = c :: s.
Proof.
  unfold Crypto.pbkdf2_sha256, Crypto.resize0. change (Z.to_nat 32) with 32%nat.
  set (t := concat _). destruct t as [|c t]; cbn [take app length Nat.sub replicate]; by eexists _, _.
Qed.

Lemma pbkdf2_length pwd salt iter : length (Crypto.pbkdf2_sha256 pwd salt iter 32) = 32%nat.
Proof.
  unfold Crypto.pbkdf2_sha256, Crypto.resize0. rewrite length_app, length_take, length_replicate. lia.
Qed.

Lemma hash_fields pwd n salt :
  getline_all "$" (auth_hash pwd n salt) =
  [lit "pbkdf2"; lit "sha256"; decimal (hash_iter n); b64_encode salt;
   b64_encode (Crypto.pbkdf2_sha256 pwd salt (hash_iter n) 32)].
Proof.
  unfold getline_all, auth_hash. cbv zeta. set (iter := hash_iter n).
  set (dk := Crypto.pbkdf2_sha256 pwd salt iter 32).
  assert (E : split_on (is_c "$") (lit "pbkdf2$sha256$" ++ decimal iter ++ lit "$" ++ b64_encode salt ++
      lit "$" ++ b64_encode dk) = [lit "pbkdf2"; lit "sha256"; decimal iter; b64_encode salt; b64_encode dk]).
  { pose proof (hash_iter_range n).
    change (lit "pbkdf2$sha256$" ++ decimal iter ++ lit "$" ++ b64_encode salt ++ lit "$" ++ b64_encode dk)
      with (lit "pbkdf2" ++ DOLLAR :: lit "sha256" ++ DOLLAR :: decimal iter ++ DOLLAR :: b64_encode salt ++
            DOLLAR :: b64_encode dk).
    rewrite !split_on_app; try done; try (repeat constructor; fail).
    - rewrite split_on_no; [done|]. by apply (b64_no_dollar (S (length dk))), Nat.lt_succ_diag_r.
    - by apply (b64_no_dollar (S (length salt))), Nat.lt_succ_diag_r.
    - apply decimal_no_dollar. subst iter. lia. }
  rewrite E. cbn [last]. destruct (pbkdf2_cons pwd salt iter) as (c & t & Ek). fold dk in Ek. rewrite Ek.
  unfold b64_encode at 2. by destruct t as [|? [|? ?]].
Qed.

Lemma hash_accepted p q n salt :
  let iter := hash_iter n in
  let same := Crypto.pbkdf2_sha256 q salt iter 32 =s Crypto.pbkdf2_sha256 p salt iter 32 in
  auth_verify q (auth_hash p n salt) = (0 <? iter) && (iter <=? 10000000) && same /\
  smtp_pbkdf2_verify Crypto.sha256 q (auth_hash p n salt) = (0 <? iter) && (iter <=? 1000000) && same /\
  (p = q -> same = true).
Proof.
  cbv zeta. pose proof (hash_iter_range n).
  unfold auth_verify, smtp_pbkdf2_verify. rewrite hash_fields, bytes_eqb_refl. cbn [negb].
  rewrite stoull_decimal by lia. rewrite Z.mod_small by lia.
  rewrite (b64_back (S (length salt))) by lia. rewrite (b64_back 33 (Crypto.pbkdf2_sha256 _ _ _ _)).
  2: { rewrite pbkdf2_length. lia. }
  rewrite (smtp_b64_back salt), smtp_b64_back. generalize (smtp_pbkdf2_eq q salt (hash_iter n) 32).
  generalize (smtp_pbkdf2_sha256 Crypto.sha256 q salt (hash_iter n) 32). intros ? ->. rewrite !same_key.
  assert (Hb : forall m, (hash_iter n =? 0) || (m <? hash_iter n) =
    negb ((0 <? hash_iter n) && (hash_iter n <=? m))).
  { intros m. destruct (Z.eqb_spec (hash_iter n) 0), (Z.ltb_spec m (hash_iter n)),
      (Z.ltb_spec 0 (hash_iter n)), (Z.leb_spec (hash_iter n) m); lia || done. }
  rewrite !Hb. split; [by destruct (_ && _)|]. split; [by destruct (_ && _)|].
  intros ->. apply bytes_eqb_refl.
Qed.

(** The passwords of extra_stdlib.cpp ([auth::hash], [auth::verify]) and of
    the mail server ([smtp_pbkdf2_verify]), which has its own HMAC, PBKDF2 and
    Base64. A text made by [auth::hash] from a password, any number of
    iterations and any salt is accepted by [auth::verify] for exactly the
    passwords whose derived key is the same, when the iterations are 1 to
    10,000,000; the mail server decides in the same way, when they are 1 to
    1,000,000, SHA-256 of OpenSSL being SHA-256. The password itself is
    accepted. *)
Theorem hashed_password_accepted p q n salt :
  let iter := hash_iter n in
  let same := Crypto.pbkdf2_sha256 q salt iter 32 =s Crypto.pbkdf2_sha256 p salt iter 32 in
  auth_verify q (auth_hash p n salt) = (0 <? iter) && (iter <=? 10000000) && same /\
  smtp_pbkdf2_verify Crypto.sha256 q (auth_hash p n salt) = (0 <? iter) && (iter <=? 1000000) && same /\
  (p = q -> same = true).
Proof. apply hash_accepted. Qed.
Lemma hashed_password_accepted_witness :
  (Crypto.pbkdf2_sha256 (lit "secret") (lit "salt") (hash_iter None) 32 =s
   Crypto.pbkdf2_sha256 (lit "secret") (lit "salt") (hash_iter None) 32) = true.
Proof. apply (hashed_password_accepted (lit "secret") (lit "secret") None (lit "salt")). reflexivity. Defined.

(** With more than 1,000,000 iterations the scripts accept a password the mail
    server refuses, and with none nobody accepts it. *)
Example iterations_differ p salt :
  auth_verify p (auth_hash p (Some 2000000) salt) = true /\
  smtp_pbkdf2_verify Crypto.sha256 p (auth_hash p (Some 2000000) salt) = false /\
  auth_verify p (auth_hash p (Some (2 ^ 32)) salt) = false.
Proof.
  destruct (hash_accepted p p (Some 2000000) salt) as (E1 & E2 & H).
  destruct (hash_accepted p p (Some (2 ^ 32)) salt) as (E3 & _ & _).
  rewrite E1, E2, E3, (H eq_refl). clear. by split_and!.
Qed.

(** * AUTH PLAIN *)

Lemma getenv_no_nul name env v : Forall no_nul env -> getenv name env = Some v -> no_nul v.
Proof.
  induction 1 as [|e env He _ IH]; cbn [getenv]; [done|].
  case_if; [|done]. intros [= <-]. by apply Forall_drop.
Qed.
Lemma env_text_no_nul env name : Forall no_nul env -> no_nul (env_text env name).
Proof.
  intros He. unfold env_text. destruct (getenv _ env) as [v|] eqn:E; [|constructor].
  by apply (getenv_no_nul (lit name) env).
Qed.

(** The credentials of AUTH PLAIN ([smtp_validate_auth] of
    smtp_server.cpp). A client that sends the Base64 of authzid, NUL, user,
    NUL, password is accepted exactly when authentication is not disabled, the
    password is not empty and either the user database is configured and
    accepts the user with this password, or it is not configured, a token is,
    and the password is the token, byte for byte. *)
Theorem plain_auth_exact sha256 env query authz user pass :
  Forall no_nul env -> no_nul authz -> no_nul user -> no_nul pass ->
  smtp_validate_auth sha256 env query (b64_encode (authz ++ NUL :: user ++ NUL :: pass)) = true <->
  env_text env "LOOK_SMTP_AUTH_DISABLED" <> lit "true" /\ pass <> [] /\
  (if env_text env "LOOK_SMTP_USER_DB" =s []
   then env_text env "LOOK_SMTP_AUTH_TOKEN" = pass
   else db_check sha256 query (env_text env "LOOK_SMTP_USER_DB") user pass = true).
Proof.
  intros He Ha Hu Hp. unfold smtp_validate_auth. rewrite smtp_b64_back.
  rewrite !split_on_app by (done || apply is_c_refl). rewrite (split_on_no _ pass) by done.
  cbn [rev app]. destruct (bytes_eqb_spec (env_text env "LOOK_SMTP_AUTH_DISABLED") (lit "true")) as [E|E].
  { split; [done|]. by intros [? _]. }
  destruct (bytes_eqb_spec pass []) as [->|Hne]; [split; [done|]; by intros (_ & ? & _)|].
  destruct (bytes_eqb_spec (env_text env "LOOK_SMTP_USER_DB") []) as [Ed|Ed]; cbn [negb]; [|tauto].
  rewrite ct_equal_eq by (done || by apply env_text_no_nul).
  rewrite andb_true_iff, negb_true_iff, bytes_eqb_neq, bytes_eqb_eq.
  split; [intros [? ->]; done|]. intros (_ & _ & E'). rewrite E'. done.
Qed.
Lemma plain_auth_exact_witness :
  smtp_validate_auth Crypto.sha256 [lit "LOOK_SMTP_AUTH_TOKEN=s3cret"] (fun _ _ => None)
    (b64_encode (lit "" ++ NUL :: lit "ann" ++ NUL :: lit "s3cret")) = true.
Proof. apply plain_auth_exact; [by repeat constructor..|]. vm_compute. split_and!; done. Defined.

(** * Names that become directories *)

(** One component of a path: no separator, no control character, and not the
    way up. *)
Definition component (s : bytes) : Prop :=
  s <> [] /\ Forall (fun c => c <> "/"%char /\ c <> BACKSLASH /\ 32 <= ord c) s /\ contains (lit "..") s = false.

Lemma user_char_spec c : user_char c = true <-> c <> "/"%char /\ c <> BACKSLASH /\ 32 <= ord c.
Proof.
  unfold user_char. rewrite negb_true_iff, !orb_false_iff, !Ascii.eqb_neq, Z.ltb_ge. tauto.
Qed.

(** The names of mailboxes and of users become directories
    ([imap_mailbox_name_ok] of imap_parse.h, [mail_user_auth] of
    smtp_server.cpp). A mailbox name that is accepted is one component of a
    path; a user who is accepted has a name that is one, and his directory is
    the base directory followed by this component and [inbox]. *)
Theorem mail_names_contained sha256 env query name user pass :
  (forall mb, imap_mailbox_name_ok name = Some mb -> component mb) /\
  (forall dir, mail_user_auth sha256 env query user pass = Some dir ->
     component user /\ exists base, last base = Some "/"%char /\ dir = base ++ user ++ lit "/inbox").
Proof.
  split.
  - intros mb. unfold imap_mailbox_name_ok. set (s := imap_unquote name).
    destruct (_ || _) eqn:E1.
    { intros [= <-]. split; [done|]. split; [|done].
      repeat constructor; vm_compute; discriminate || done. }
    destruct (has_char _ _); [done|]. destruct (match s with [] => false | _ => _ end); [done|].
    destruct (contains (lit "..") s) eqn:E2; [done|]. destruct (forallb mailbox_char s) eqn:E3; [|done].
    intros [= <-]. apply orb_false_iff in E1 as [E1 _]. apply bytes_eqb_neq in E1.
    split; [done|]. split; [|done]. apply Forall_forall. intros c Hc. rewrite forallb_forall in E3.
    apply list_elem_of_In, E3 in Hc. apply user_char_spec. revert Hc. unfold mailbox_char, user_char.
    destruct (c =c "/"), (c =c BACKSLASH), (c =c ";"), (ord c <? 32); done.
  - intros dir. unfold mail_user_auth. destruct (_ || _) eqn:E1; [done|].
    destruct (forallb user_char user) eqn:E2; [|done]. destruct (contains _ _) eqn:E3; [done|]. cbn [negb].
    cbv zeta. match goal with |- (if ?b then _ else _) = _ -> _ => destruct b; [|done] end.
    intros [= <-]. apply orb_false_iff in E1 as [E1 _]. apply bytes_eqb_neq in E1. split.
    + split; [done|]. split; [|done]. apply Forall_forall. intros c Hc. rewrite forallb_forall in E2.
      by apply user_char_spec, E2, list_elem_of_In.
    + set (b := if _ =s [] then _ else _). eexists. split; [|done].
      destruct (last b) as [c|] eqn:El; [destruct (Ascii.eqb_spec c "/"%char) as [->|]; [done|]|];
        by rewrite last_snoc.
Qed.
Lemma mail_names_contained_witness :
  component (lit "Sent") /\ component (lit "ann").
Proof.
  destruct (mail_names_contained Crypto.sha256 [lit "LOOK_MAIL_USER=ann"; lit "LOOK_MAIL_PASS=pw"]
    (fun _ _ => None) (lit "Sent") (lit "ann") (lit "pw")) as [H1 H2].
  split; [apply H1; reflexivity|]. destruct (H2 (lit "/var/mail/look/ann/inbox") eq_refl) as [H _]. exact H.
Defined.

(** A dot is a component too: the directory of the mailbox is the dot before
    the name and the name, which is the way up; the test of the canonical path
    that follows refuses it. *)
Example mailbox_dot : imap_mailbox_name_ok (lit ".") = Some (lit ".").
Proof. reflexivity. Qed.

(** A tag is found by its name, not by a name that ends with it. *)
Example dkim_h : dkim_tag (lit "DKIM-Signature: v=1; bh=abc; h=From : To ; b=xyz") (lit "h") = lit "From:To".
Proof. reflexivity. Qed.
Example extract_examples :
  smtp_extract_addr (lit "MAIL FROM:<>") = Some [] /\
  smtp_extract_addr (lit "MAIL FROM:") = None /\
  smtp_extract_addr (lit "MAIL FROM:<a@b<c>") = None /\
  smtp_extract_addr (lit "MAIL FROM: a@b.c SIZE=10") = Some (lit "a@b.c").
Proof. done. Qed.

End MailAuth.
