(* ===== verification/Spf.v ===== *)
(** SPF of cpp/src/smtp_server.cpp: [spf_match_ip4], [spf_evaluate] and
    [spf_check], and the TXT records of cpp/src/dns.cpp.

    [inet_pton] of the C library and the TXT records of a name are parameters;
    [None] is an exception of the resolver. *)

From S2P Require Import Prelude CNum Web.
#[local] Open Scope Z_scope.

Module Spf.
Import CNum Web.

(** * TXT records *)

(** The length-prefixed strings of the data of a record, put together; a
    string that is cut off ends them. *)
Fixpoint txt_segments (fuel : nat) (rd : bytes) : bytes :=
  match fuel, rd with
  | S fuel, c :: rd =>
      let seg_len := Z.to_nat (ord c) in
      if (length rd <? seg_len)%nat then [] else take seg_len rd ++ txt_segments fuel (drop seg_len rd)
  | _, _ => []
  end.
Definition txt_of_rdata (rd : bytes) : bytes := txt_segments (length rd) rd.
(** The answers that are not empty, as the loop collects them. *)
Definition txt_records (rdatas : list bytes) : list bytes :=
  List.filter (fun t => negb (t =s [])) (map txt_of_rdata rdatas).

(** * Evaluation *)

Inductive SpfResult := PASS | SOFTFAIL | FAIL | NEUTRAL | NONE.

(** [while (ss >> token)] *)
Fixpoint words (s cur : bytes) : list bytes :=
  match s with
  | [] => if cur =s [] then [] else [cur]
  | c :: s => if isspace c then (if cur =s [] then words s [] else cur :: words s []) else words s (cur ++ [c])
  end.
Definition tokens (record : bytes) : list bytes := words record [].

(** The qualifier and the mechanism *)
Definition qualifier (token : bytes) : ascii * bytes :=
  match token with
  | c :: t => if one_of (lit "+-~?") c then (c, t) else ("+"%char, token)
  | [] => ("+"%char, token)
  end.
Definition result_for (qual : ascii) : SpfResult :=
  if qual =c "+" then PASS else if qual =c "-" then FAIL else if qual =c "~" then SOFTFAIL else NEUTRAL.

Definition is_spf (t : bytes) : bool := contains (lit "v=spf1") t.

Section Eval.
Context (inet_pton : bytes -> option Z) (dns : bytes -> option (list bytes)).

Definition mask32 (prefix : Z) : Z :=
  if prefix =? 32 then 2 ^ 32 - 1 else Z.shiftl (2 ^ 32 - 1) (32 - prefix) mod 2 ^ 32.
Definition spf_match_ip4 (mechanism remote_ip : bytes) : bool :=
  let cidr := drop 4 mechanism in
  let '(net_str, prefix) := match find_if (is_c "/") cidr with
    | Some slash => (take slash cidr, atoi (drop (S slash) cidr))
    | None => (cidr, 32)
    end in
  if (prefix <? 0) || (32 <? prefix) then false
  else match inet_pton net_str, inet_pton remote_ip with
  | Some n, Some r =>
      if prefix =? 0 then true
      else Z.land n (mask32 prefix) =? Z.land r (mask32 prefix)
  | _, _ => false
  end.

(** The loop over the tokens; [rec_] evaluates the record of another domain. *)
Fixpoint eval_tokens (rec_ : bytes -> SpfResult) (remote_ip : bytes) (ts : list bytes) : SpfResult :=
  match ts with
  | [] => NEUTRAL
  | token :: ts =>
      if token =s lit "v=spf1" then eval_tokens rec_ remote_ip ts
      else
        let (qual, mech) := qualifier token in
        let ml := map tolower mech in
        if ml =s lit "all" then result_for qual
        else if starts_with (lit "ip4:") ml then
          if spf_match_ip4 ml remote_ip then result_for qual else eval_tokens rec_ remote_ip ts
        else if starts_with (lit "include:") ml then
          match dns (drop 8 mech) ≫= List.find is_spf with
          | Some t =>
              match rec_ t with
              | PASS => PASS
              | FAIL => FAIL
              | _ => eval_tokens rec_ remote_ip ts
              end
          | None => eval_tokens rec_ remote_ip ts
          end
        else if starts_with (lit "redirect=") ml then
          match dns (drop 9 mech) ≫= List.find is_spf with Some t => rec_ t | None => NEUTRAL end
        else eval_tokens rec_ remote_ip ts
  end.
(** [levels] is 10 less the depth. *)
Fixpoint spf_evaluate (levels : nat) (record remote_ip : bytes) : SpfResult :=
  match levels with
  | O => NEUTRAL
  | S levels => eval_tokens (fun t => spf_evaluate levels t remote_ip) remote_ip (tokens record)
  end.

Definition spf_check (mail_from remote_ip : bytes) : SpfResult :=
  match rfind_if (is_c "@") mail_from with
  | None => NONE
  | Some at_ =>
      if (length mail_from <=? S at_)%nat then NONE
      else
        let domain := drop (S at_) mail_from in
        let domain := match last domain with Some c => if c =c ">" then removelast domain else domain | None => domain end in
        match dns domain ≫= List.find is_spf with
        | Some t => spf_evaluate 10 t remote_ip
        | None => NONE
        end
  end.

(** * Addresses *)

(** [ip] is in the network: the leading bits are the same. *)
Definition in_network (n prefix r : Z) : Prop := n / 2 ^ (32 - prefix) = r / 2 ^ (32 - prefix).

Lemma land_mask32 z p : 0 <= z < 2 ^ 32 -> 0 < p <= 32 ->
  Z.land z (mask32 p) = z / 2 ^ (32 - p) * 2 ^ (32 - p).
Proof.
  intros Hz Hp. rewrite <- Z.shiftl_mul_pow2, <- Z.shiftr_div_pow2 by lia.
  assert (Hm : mask32 p = Z.shiftl (Z.ones p) (32 - p)).
  { unfold mask32. destruct (Z.eqb_spec p 32) as [->|]; [done|].
    change (2 ^ 32 - 1) with (Z.ones 32). rewrite <- Z.land_ones by lia.
    apply Z.bits_inj'. intros i Hi. rewrite Z.land_spec, !Z.shiftl_spec, !Z.testbit_ones by lia.
    destruct (Z.leb_spec 0 (i - (32 - p))), (Z.leb_spec 0 i), (Z.ltb_spec i 32),
      (Z.ltb_spec (i - (32 - p)) 32), (Z.ltb_spec (i - (32 - p)) p); done || lia. }
  rewrite Hm. apply Z.bits_inj'. intros i Hi. rewrite Z.land_spec.
  destruct (Z.le_gt_cases (32 - p) i).
  - rewrite !Z.shiftl_spec, Z.shiftr_spec by lia. replace (i - (32 - p) + (32 - p)) with i by lia.
    destruct (Z.lt_ge_cases i 32).
    + rewrite Z.ones_spec_low by lia. by rewrite andb_true_r.
    + rewrite Z.ones_spec_high by lia. rewrite andb_false_r. symmetry.
      destruct (Z.eq_dec z 0) as [->|]; [by rewrite Z.testbit_0_l|].
      apply Z.bits_above_log2; [lia|]. apply Z.log2_lt_pow2; [lia|].
      eapply Z.lt_le_trans; [apply Hz|]. apply Z.pow_le_mono_r; lia.
  - rewrite !Z.shiftl_spec_low by lia. by rewrite andb_false_r.
Qed.

Lemma network_exact n p r : 0 <= n < 2 ^ 32 -> 0 <= r < 2 ^ 32 -> 0 <= p <= 32 ->
  (if p =? 0 then true else Z.land n (mask32 p) =? Z.land r (mask32 p)) = true <-> in_network n p r.
Proof.
  intros Hn Hr Hp. unfold in_network. destruct (Z.eqb_spec p 0) as [->|].
  - rewrite !Z.div_small by (change (2 ^ (32 - 0)) with (2 ^ 32); lia). done.
  - rewrite Z.eqb_eq, !land_mask32 by lia. pose proof (Z.pow_pos_nonneg 2 (32 - p) ltac:(lia) ltac:(lia)).
    split; [|by intros ->]. intros E. by apply Z.mul_reg_r in E; [|lia].
Qed.

(** [ip] is one of the addresses of a mechanism [ip4:cidr]: a single address is
    itself, a network is the addresses with the same leading bits. The number of
    bits is what [atoi] reads: 0 for a text without digits. *)
Inductive in_cidr (cidr ip : bytes) : Prop :=
| cidr_address n : ~ In "/"%char cidr -> inet_pton cidr = Some n -> inet_pton ip = Some n -> in_cidr cidr ip
| cidr_network net bits n r : cidr = net ++ "/"%char :: bits -> ~ In "/"%char net -> 0 <= atoi bits <= 32 ->
    inet_pton net = Some n -> inet_pton ip = Some r -> in_network n (atoi bits) r -> in_cidr cidr ip.

Lemma atoi_decimal p : 0 <= p < 2 ^ 31 -> atoi (decimal p) = p.
Proof.
  intros Hp. unfold atoi. destruct (read_decimal p ltac:(lia)) as (R1 & _ & R3). rewrite R1, R3. cbv zeta iota.
  rewrite Z.min_r, Z.max_r by (unfold INT64_MAX, INT64_MIN; lia). rewrite Z.mod_small by lia. lia.
Qed.

Section Match.
Context (Hip : forall s n, inet_pton s = Some n -> 0 <= n < 2 ^ 32).

Lemma no_slash_iff net : find_if (is_c "/") net = None <-> ~ In "/"%char net.
Proof.
  rewrite find_if_None. split.
  - intros H Hin%list_elem_of_In. rewrite Forall_forall in H. apply H in Hin. by rewrite is_c_refl in Hin.
  - intros H. apply Forall_forall. intros c Hc%list_elem_of_In. destruct (is_c "/" c) eqn:E; [|done].
    apply is_c_spec in E as ->. done.
Qed.
Lemma match_address cidr ip : ~ In "/"%char cidr ->
  spf_match_ip4 (lit "ip4:" ++ cidr) ip = true <-> exists n, inet_pton cidr = Some n /\ inet_pton ip = Some n.
Proof.
  intros Hs%no_slash_iff. unfold spf_match_ip4. change (drop 4 (lit "ip4:" ++ cidr)) with cidr. rewrite Hs.
  change ((32 <? 0) || (32 <? 32)) with false. destruct (inet_pton cidr) as [n|] eqn:En, (inet_pton ip) as [r|] eqn:Er; try naive_solver.
  rewrite (network_exact n 32 r) by (eauto || lia). unfold in_network. rewrite !Z.div_1_r. naive_solver.
Qed.
Lemma match_network net bits ip : ~ In "/"%char net ->
  spf_match_ip4 (lit "ip4:" ++ net ++ "/"%char :: bits) ip = true <->
  0 <= atoi bits <= 32 /\ exists n r, inet_pton net = Some n /\ inet_pton ip = Some r /\ in_network n (atoi bits) r.
Proof.
  intros Hs%no_slash_iff. unfold spf_match_ip4.
  change (drop 4 (lit "ip4:" ++ net ++ "/"%char :: bits)) with (net ++ "/"%char :: bits).
  rewrite find_if_app_l by (by apply find_if_None || apply is_c_refl). cbv zeta.
  rewrite take_app_length. replace (drop (S (length net)) (net ++ "/"%char :: bits)) with bits.
  2: { change (net ++ "/"%char :: bits) with (net ++ ["/"%char] ++ bits).
       rewrite app_assoc, drop_app_length'; [done|]. rewrite length_app. simpl. lia. }
  destruct (Z.ltb_spec (atoi bits) 0), (Z.ltb_spec 32 (atoi bits)); cbn [orb]; try (split; [done|lia]).
  destruct (inet_pton net) as [n|] eqn:En, (inet_pton ip) as [r|] eqn:Er; try naive_solver.
  rewrite network_exact by eauto with lia. naive_solver.
Qed.
Lemma match_exact cidr ip : spf_match_ip4 (lit "ip4:" ++ cidr) ip = true <-> in_cidr cidr ip.
Proof.
  split.
  - destruct (find_if (is_c "/") cidr) as [i|] eqn:E.
    + apply find_if_Some in E as (net & c & bits & -> & _ & Hc & Hn). apply is_c_spec in Hc as ->.
      assert (Hs : ~ In "/"%char net) by (by apply no_slash_iff, find_if_None).
      rewrite match_network by done. intros (Hb & n & r & En & Er & Hr). by eapply cidr_network.
    + apply no_slash_iff in E. rewrite match_address by done. intros (n & En & Er). by eapply cidr_address.
  - intros [n Hs En Er|net bits n r -> Hs Hb En Er Hr].
    + apply match_address; eauto.
    + apply match_network; eauto 8.
Qed.

(** ** What PASS says *)

(** The record of a domain *)
Definition record_of (d t : bytes) : Prop := dns d ≫= List.find is_spf = Some t.

(** The record lets the address send: it has a mechanism with the qualifier
    plus, or none, that is [all] or a network with the address, or it includes
    or redirects to a domain whose record does. *)
Inductive authorizes (ip : bytes) : bytes -> Prop :=
| auth_all record token mech : In token (tokens record) -> qualifier token = ("+"%char, mech) ->
    map tolower mech = lit "all" -> authorizes ip record
| auth_ip4 record token mech cidr : In token (tokens record) -> qualifier token = ("+"%char, mech) ->
    map tolower mech = lit "ip4:" ++ cidr -> in_cidr cidr ip -> authorizes ip record
| auth_include record token q mech t : In token (tokens record) -> qualifier token = (q, mech) ->
    starts_with (lit "include:") (map tolower mech) = true -> record_of (drop 8 mech) t ->
    authorizes ip t -> authorizes ip record
| auth_redirect record token q mech t : In token (tokens record) -> qualifier token = (q, mech) ->
    starts_with (lit "redirect=") (map tolower mech) = true -> record_of (drop 9 mech) t ->
    authorizes ip t -> authorizes ip record.

Lemma result_pass q : result_for q = PASS -> q = "+"%char.
Proof. unfold result_for. destruct (Ascii.eqb_spec q "+"%char); [done|]. by repeat case_if. Qed.

Lemma eval_pass rec_ ip record ts : (forall t, rec_ t = PASS -> authorizes ip t) ->
  (forall token, In token ts -> In token (tokens record)) ->
  eval_tokens rec_ ip ts = PASS -> authorizes ip record.
Proof.
  intros Hrec. induction ts as [|token ts IH]; intros Hin; cbn [eval_tokens]; [done|].
  assert (Ht : In token (tokens record)) by (apply Hin; by left).
  assert (IH' : eval_tokens rec_ ip ts = PASS -> authorizes ip record) by (apply IH; intros t H; apply Hin; by right).
  case_if; [done|]. destruct (qualifier token) as [q mech] eqn:Eq. cbv zeta.
  destruct (bytes_eqb_spec (map tolower mech) (lit "all")) as [Ea|_].
  { intros ->%result_pass. by eapply auth_all. }
  destruct (starts_with (lit "ip4:") _) eqn:E4.
  { apply starts_with_spec in E4 as [cidr E4]. rewrite E4. destruct (spf_match_ip4 _ _) eqn:Em; [|done].
    intros ->%result_pass. eapply auth_ip4; [done..|by apply match_exact]. }
  destruct (starts_with (lit "include:") _) eqn:Ei.
  { destruct (dns _ ≫= _) as [t|] eqn:Ed; [|done]. destruct (rec_ t) eqn:Er; try done.
    intros _. eapply auth_include; eauto. }
  destruct (starts_with (lit "redirect=") _) eqn:Er; [|done].
  destruct (dns _ ≫= _) as [t|] eqn:Ed; [|done]. intros Hp. eapply auth_redirect; eauto.
Qed.

Lemma evaluate_pass levels ip record : spf_evaluate levels record ip = PASS -> authorizes ip record.
Proof.
  revert record. induction levels as [|levels IH]; intros record; cbn [spf_evaluate]; [done|].
  apply eval_pass; auto.
Qed.
End Match.
End Eval.

(** C30: SPF ([spf_check], [spf_match_ip4]). PASS is only returned for a sender
    with a domain whose record lets the address send: a mechanism with the
    qualifier plus is [all], the address itself or a network of it, or a domain
    that is included or redirected to has such a record. A mechanism ip4 matches
    exactly its address or the addresses of its network, and for a network
    written with a prefix of 0 to 32 bits these are the ones with the same
    leading bits. A prefix that is not a number counts as 0, see
    [bad_prefix]. *)
Theorem spf_pass_sound inet_pton dns mail_from ip :
  (forall s n, inet_pton s = Some n -> 0 <= n < 2 ^ 32) ->
  (spf_check inet_pton dns mail_from ip = PASS ->
     exists local domain t, mail_from = local ++ "@"%char :: domain /\
       (record_of dns domain t \/ exists d, domain = d ++ [">"%char] /\ record_of dns d t) /\
       authorizes inet_pton dns ip t) /\
  (forall cidr, spf_match_ip4 inet_pton (lit "ip4:" ++ cidr) ip = true <-> in_cidr inet_pton cidr ip) /\
  (forall mech net n r p, ~ In "/"%char net -> 0 <= p <= 32 ->
     mech = lit "ip4:" ++ net ++ "/"%char :: decimal p ->
     inet_pton net = Some n -> inet_pton ip = Some r ->
     spf_match_ip4 inet_pton mech ip = true <-> in_network n p r).
Proof.
  intros Hip. split; [|split; [by intros cidr; apply match_exact|]].
  - unfold spf_check. destruct (rfind_if _ mail_from) as [i|] eqn:E; [|done]. cbv zeta.
    destruct (_ <=? _)%nat; [done|]. apply rfind_if_Some in E as (s1 & c & s2 & -> & <- & Hc & _).
    apply is_c_spec in Hc as ->. replace (drop (S (length s1)) (s1 ++ "@"%char :: s2)) with s2.
    2: { change (s1 ++ "@"%char :: s2) with (s1 ++ ["@"%char] ++ s2). rewrite app_assoc, drop_app_length'; [done|].
         rewrite length_app. simpl. lia. }
    set (d := match last s2 with None => _ | _ => _ end).
    destruct (dns d ≫= _) as [t|] eqn:Ed; [|done]. intros Hp%(evaluate_pass _ _ Hip).
    exists s1, s2, t. split; [done|]. split; [|done]. subst d.
    destruct (last s2) as [c|] eqn:El; [|by left]. destruct (Ascii.eqb_spec c ">"%char) as [->|]; [|by left].
    right. exists (removelast s2). split; [|done]. apply last_Some in El as [l ->].
    by rewrite removelast_last.
  - intros mech net n r p Hs Hp -> En Er. rewrite match_network by done. rewrite atoi_decimal by lia. naive_solver.
Qed.

(** ** Examples: addresses are written as a number *)

Definition demo_pton (s : bytes) : option Z :=
  match stoull 10 s with Some z => if (0 <=? z) && (z <? 2 ^ 32) then Some z else None | None => None end.
Definition demo_dns (d : bytes) : option (list bytes) :=
  if d =s lit "a.org" then Some [lit "other"; lit "v=spf1 ip4:1024/24 include:b.org -all"]
  else if d =s lit "b.org" then Some [lit "v=spf1 ip4:5 -all"]
  else if d =s lit "c.org" then Some [lit "v=spf1 include:b.org ip4:9 -all"]
  else if d =s lit "d.org" then Some [lit "v=spf1 ip4:9/x -all"]
  else if d =s lit "loop.org" then Some [lit "v=spf1 redirect=loop.org"]
  else Some [].
Definition demo_check (from ip : string) : SpfResult := spf_check demo_pton demo_dns (lit from) (lit ip).

Lemma demo_pton_range s n : demo_pton s = Some n -> 0 <= n < 2 ^ 32.
Proof.
  unfold demo_pton. destruct (stoull 10 s) as [z|]; [|done]. destruct (_ && _) eqn:E; [|done].
  intros [= <-]. bool_to_prop. lia.
Qed.

(** A network whose prefix is not a number takes every address in. *)
Example bad_prefix : demo_check "x@d.org" "77" = PASS.
Proof. vm_compute. reflexivity. Qed.

(** RFC 7208, 5.2: an included record that fails is no match, and the
    evaluation goes on; here it ends it, and the network behind the inclusion
    is never looked at. *)
Example included_fail : demo_check "x@c.org" "9" = FAIL.
Proof. vm_compute. reflexivity. Qed.

(** A circle ends at the tenth record. *)
Example circle : demo_check "x@loop.org" "9" = NEUTRAL.
Proof. vm_compute. reflexivity. Qed.
Example passes : demo_check "x@a.org" "1030" = PASS /\ demo_check "x@a.org" "5" = PASS /\ demo_check "x@a.org" "6" = FAIL.
Proof. vm_compute. done. Qed.

Lemma spf_pass_sound_witness :
  (exists local domain t, lit "x@a.org" = local ++ "@"%char :: domain /\
     (record_of demo_dns domain t \/ exists d, domain = d ++ [">"%char] /\ record_of demo_dns d t) /\
     authorizes demo_pton demo_dns (lit "1030") t) /\
  (spf_match_ip4 demo_pton (lit "ip4:1030") (lit "1030") = true <-> in_cidr demo_pton (lit "1030") (lit "1030")) /\
  (spf_match_ip4 demo_pton (lit "ip4:" ++ lit "1024" ++ "/"%char :: decimal 24) (lit "1030") = true <->
   in_network 1024 24 1030).
Proof.
  destruct (spf_pass_sound demo_pton demo_dns (lit "x@a.org") (lit "1030") demo_pton_range) as (H1 & H2 & H3).
  split; [apply H1; vm_compute; reflexivity|]. split; [apply (H2 (lit "1030"))|].
  apply (H3 _ (lit "1024") 1024 1030 24); [|lia|reflexivity..].
  intros H. vm_compute in H. repeat (destruct H as [H|H]; [discriminate H|]). exact H.
Defined.

End Spf.
