(* ===== verification/Smtp.v ===== *)
(** The SMTP server of cpp/src/smtp_server.cpp: its limits, the local domains,
    the session state machine, the connection that carries it (buffered lines,
    one write and one worker at a time) and the counters of the connections.

    A handler gives the new session and what it starts: nothing (the next line
    is read), the writing of a reply with what follows it, or the hand-over of
    the message to a worker. The events of a connection are those of the epoll
    loop: data, the end of a write, the end of a worker, the end of the stream.
    STARTTLS is refused by the server ([do_starttls] is never called), so that
    [tls_active] stays false. *)

From S2P Require Import Prelude CNum Crypto WebSocket Web MailAuth.
#[local] Open Scope Z_scope.

Module Smtp.
Import CNum Web MailAuth.

(** * Limits and local domains *)

(** [std::atol], and [std::strtoull] in base 10 *)
Definition atol (s : bytes) : Z :=
  let (neg, s) := sign (skip_space s) in
  let z := (digits 10 0 s).1 in
  Z.max INT64_MIN (Z.min INT64_MAX (if neg then - z else z)).
Definition strtoull (s : bytes) : Z :=
  let (neg, s) := sign (skip_space s) in
  let z := (digits 10 0 s).1 in
  if 2 ^ 64 <=? z then 2 ^ 64 - 1 else if neg then to_u64 (- z) else z.

Definition smtp_norm_domain (d : bytes) : bytes :=
  let d := match find_if (none_of sp_tab) d with Some s => drop s d | None => [] end in
  let d := match rfind_if (none_of (lit " ." ++ [TAB])) d with Some e => take (S e) d | None => [] end in
  map tolower d.

Inductive SmtpState :=
| GREETING | EHLO | READY | STARTTLS_WAIT | MAIL_FROM | RCPT_TO | DATA_INIT | DATA_BODY | QUIT.

(** The verdicts [spf] and [dkim_ok] are written by the worker. *)
Record SmtpMessage := MkMsg {
  mail_from : bytes; rcpt_to : list bytes; data : bytes; remote_ip : bytes;
  tls : bool; authenticated : bool }.

(** [fd], [buf], [waiting] and [closed] are in the connection below. *)
Record SmtpSession := MkSess {
  state : SmtpState; msg : SmtpMessage; ehlo_domain : bytes; error_count : Z;
  submission : bool; auth_ok : bool; tls_active : bool }.

Definition put_state x s := MkSess x (msg s) (ehlo_domain s) (error_count s) (submission s) (auth_ok s) (tls_active s).
Definition set_msg x s := MkSess (state s) x (ehlo_domain s) (error_count s) (submission s) (auth_ok s) (tls_active s).
Definition set_domain x s := MkSess (state s) (msg s) x (error_count s) (submission s) (auth_ok s) (tls_active s).
Definition set_errors x s := MkSess (state s) (msg s) (ehlo_domain s) x (submission s) (auth_ok s) (tls_active s).
Definition set_auth x s := MkSess (state s) (msg s) (ehlo_domain s) (error_count s) (submission s) x (tls_active s).

Definition set_from x m := MkMsg x (rcpt_to m) (data m) (remote_ip m) (tls m) (authenticated m).
Definition set_rcpt x m := MkMsg (mail_from m) x (data m) (remote_ip m) (tls m) (authenticated m).
Definition set_data x m := MkMsg (mail_from m) (rcpt_to m) x (remote_ip m) (tls m) (authenticated m).
Definition set_authed x m := MkMsg (mail_from m) (rcpt_to m) (data m) (remote_ip m) (tls m) x.

Definition reset_envelope (s : SmtpSession) : SmtpSession :=
  put_state READY (set_msg (set_data [] (set_rcpt [] (set_from [] (msg s)))) s).

(** What runs when a reply has been written. *)
Inductive after := Banner | Resume | Close | StartBody | ResetResume | Accepted.
#[export] Instance after_eq_dec : EqDecision after.
Proof. solve_decision. Defined.
Inductive reaction := Go | Write (reply : bytes) (then_ : after) | Enqueue (m : SmtpMessage).

Definition say (t : string) : bytes := lit t ++ [CR; LF].

Definition smtp_is_loopback (ip : bytes) : bool := starts_with (lit "127.") ip || (ip =s lit "::1").

(** * The session *)

Section Session.
(** SHA-256 of OpenSSL, the environment, the user database (see [MailAuth]),
    and whether a certificate could be loaded. *)
Context (sha256 : bytes -> bytes) (env : list bytes)
  (query : DbConfig -> bytes -> option (list (list (bytes * bytes)))) (ssl_ctx : bool).

Definition positive (parse : bytes -> Z) (d : Z) (name : string) : Z :=
  match getenv (lit name) env with
  | Some (c :: s) => let x := parse (c :: s) in if 0 <? x then x else d
  | _ => d
  end.
Definition smtp_max_conn : Z := positive atoi 1000 "LOOK_SMTP_MAX_CONN".
Definition smtp_max_msg : Z := positive atol (25 * 1024 * 1024) "LOOK_SMTP_MAX_MSG_SIZE".
Definition smtp_max_rcpt : Z := positive atoi 100 "LOOK_SMTP_MAX_RCPT".
Definition smtp_max_errors : Z := positive atoi 5 "LOOK_SMTP_MAX_ERRORS".
Definition smtp_max_conns_per_ip : Z := positive atoi 10 "LOOK_SMTP_MAX_CONNS_IP".
Definition text_or (d name : string) : bytes :=
  match env_text env name with [] => lit d | t => t end.
Definition smtp_banner : bytes := text_or "localhost" "LOOK_SMTP_BANNER".

Definition is_local_domain (addr_domain : bytes) : bool :=
  let cfg := match env_text env "LOOK_SMTP_LOCAL_DOMAINS" with [] => env_text env "LOOK_MAIL_DOMAIN" | t => t end in
  let want := smtp_norm_domain addr_domain in
  if want =s [] then false
  else existsb (fun d => smtp_norm_domain d =s want) (getline_all "," cfg).

Definition blen (s : bytes) : Z := Z.of_nat (length s).

Definition error_reply (s : SmtpSession) (reply : bytes) : SmtpSession * reaction :=
  let s := set_errors (error_count s + 1) s in
  if smtp_max_errors <=? error_count s then (s, Write (say "421 4.7.0 Too many errors") Close)
  else (s, Write reply Resume).

Definition handle_ehlo (s : SmtpSession) (verb line : bytes) : SmtpSession * reaction :=
  if negb (verb =s lit "EHLO") && negb (verb =s lit "HELO") then
    error_reply s (say "503 5.5.1 Send EHLO first")
  else
    let s := set_domain (match find_if (is_c SP) line with Some sp => drop (S sp) line | None => lit "unknown" end) s in
    let r := lit "250-" ++ smtp_banner ++ [CR; LF] ++ lit "250-SIZE " ++ decimal smtp_max_msg ++ [CR; LF] ++
             say "250-8BITMIME" ++ say "250-PIPELINING" ++ say "250-SMTPUTF8" ++
             (if submission s && negb ssl_ctx && smtp_is_loopback (remote_ip (msg s))
              then say "250-AUTH PLAIN LOGIN" else []) ++ say "250 OK" in
    (put_state READY s, Write r Resume).

(** The mechanism, in capitals, and the initial response. *)
Definition auth_args (line : bytes) : bytes * bytes :=
  let rest := match find_if (is_c SP) line with Some i => drop (S i) line | None => [] end in
  match find_if (is_c SP) rest with
  | Some i => (map toupper (take i rest), drop (S i) rest)
  | None => (map toupper rest, [])
  end.
Definition handle_auth (s : SmtpSession) (line : bytes) : SmtpSession * reaction :=
  if negb (submission s) then error_reply s (say "503 5.5.1 AUTH not permitted on port 25")
  else if auth_ok s then error_reply s (say "503 5.5.1 Already authenticated")
  else if negb (tls_active s) && ssl_ctx then
    error_reply s (say "530 5.7.0 Encryption is required for AUTH and STARTTLS is not available on this server")
  else if negb (tls_active s) && negb (smtp_is_loopback (remote_ip (msg s))) then
    error_reply s (say "530 5.7.0 AUTH without encryption is accepted from this machine only (127.0.0.1 / ::1)")
  else
    let (mech, initial) := auth_args line in
    if negb (mech =s lit "PLAIN") && negb (mech =s lit "LOGIN") then
      error_reply s (say "504 5.7.4 AUTH mechanism not supported")
    else if smtp_validate_auth sha256 env query initial then
      (set_msg (set_authed true (msg s)) (set_auth true s), Write (say "235 2.7.0 Authentication successful") Resume)
    else error_reply s (say "535 5.7.8 Authentication credentials invalid").

(** The size a MAIL command declares *)
Definition too_big (line : bytes) : bool :=
  let up := map toupper line in
  match find_str (lit " SIZE=") up with
  | Some p => smtp_max_msg <? strtoull (drop (p + 6) up)
  | None => false
  end.
Definition handle_mail (s : SmtpSession) (line : bytes) : SmtpSession * reaction :=
  if submission s && negb (tls_active s) && ssl_ctx then
    error_reply s (say "530 5.7.0 Encryption is required on this port and STARTTLS is not available on this server")
  else if too_big line then error_reply s (say "552 5.3.4 Message size exceeds the fixed maximum message size")
  else if submission s && negb (auth_ok s) then error_reply s (say "530 5.7.0 Authentication required")
  else match smtp_extract_addr line with
  | None => error_reply s (say "501 5.1.7 Bad sender address")
  | Some addr => (put_state MAIL_FROM (set_msg (set_from addr (msg s)) s), Write (say "250 2.1.0 OK") Resume)
  end.

Definition handle_ready (s : SmtpSession) (verb line : bytes) : SmtpSession * reaction :=
  if verb =s lit "STARTTLS" then error_reply s (say "502 5.5.1 STARTTLS is not available on this server")
  else if verb =s lit "AUTH" then handle_auth s line
  else if verb =s lit "MAIL" then handle_mail s line
  else if (verb =s lit "EHLO") || (verb =s lit "HELO") then handle_ehlo s verb line
  else error_reply s (say "503 5.5.1 Need MAIL command").

Definition rcpt_domain (addr : bytes) : bytes :=
  match rfind_if (is_c "@") addr with Some at_ => drop (S at_) addr | None => [] end.
(** [inr] is what a refusal starts. *)
Definition validate_rcpt (s : SmtpSession) (addr : bytes) : unit + SmtpSession * reaction :=
  if addr =s [] then inr (error_reply s (say "501 5.1.3 Bad recipient address"))
  else if smtp_max_rcpt <=? Z.of_nat (length (rcpt_to (msg s))) then
    inr (error_reply s (say "452 4.5.3 Too many recipients"))
  else if negb (auth_ok s) && negb (is_local_domain (rcpt_domain addr)) then
    inr (error_reply s (say "550 5.7.1 Relay access denied — set LOOK_SMTP_LOCAL_DOMAINS"))
  else inl tt.
Definition add_rcpt (s : SmtpSession) (line : bytes) : SmtpSession * reaction :=
  let addr := default [] (smtp_extract_addr line) in
  match validate_rcpt s addr with
  | inr r => r
  | inl _ =>
      (put_state RCPT_TO (set_msg (set_rcpt (rcpt_to (msg s) ++ [addr]) (msg s)) s), Write (say "250 2.1.5 OK") Resume)
  end.
Definition handle_mail_from_state (s : SmtpSession) (verb line : bytes) : SmtpSession * reaction :=
  if negb (verb =s lit "RCPT") then error_reply s (say "503 5.5.1 Need RCPT TO") else add_rcpt s line.
(** The state is RCPT_TO already. *)
Definition handle_rcpt_to_state (s : SmtpSession) (verb line : bytes) : SmtpSession * reaction :=
  if verb =s lit "RCPT" then add_rcpt s line
  else if verb =s lit "DATA" then
    (put_state DATA_INIT s, Write (say "354 Start mail input; end with <CRLF>.<CRLF>") StartBody)
  else error_reply s (say "503 5.5.1 Need DATA or more RCPT").

Definition too_large (s : SmtpSession) : SmtpSession * reaction :=
  (s, Write (say "552 5.3.4 Message too large") ResetResume).
Definition handle_data_body (s : SmtpSession) (line : bytes) : SmtpSession * reaction :=
  if line =s lit "." then
    if smtp_max_msg <? blen (data (msg s)) then too_large s else (s, Enqueue (msg s))
  else
    let text := match line with c :: l => if c =c "." then l else line | [] => line end in
    let s := set_msg (set_data (data (msg s) ++ text ++ [CR; LF]) (msg s)) s in
    if smtp_max_msg <? blen (data (msg s)) then too_large s else (s, Go).

Definition dispatch_line (s : SmtpSession) (line : bytes) : SmtpSession * reaction :=
  match state s with
  | DATA_BODY => handle_data_body s line
  | st =>
      let verb := smtp_verb line in
      if verb =s lit "QUIT" then (s, Write (say "221 2.0.0 Bye") Close)
      else if verb =s lit "RSET" then (reset_envelope s, Write (say "250 2.0.0 Reset") Resume)
      else if verb =s lit "NOOP" then (s, Write (say "250 2.0.0 OK") Resume)
      else match st with
      | EHLO => handle_ehlo s verb line
      | READY => handle_ready s verb line
      | MAIL_FROM => handle_mail_from_state s verb line
      | RCPT_TO => handle_rcpt_to_state s verb line
      | DATA_INIT => (s, Go)
      | _ => error_reply s (say "503 5.5.1 Bad sequence")
      end
  end.

(** * The connection *)

(** The session with its raw buffer; [reading]: the loop has its callback for
    data; [wr]: the write the event loop holds and its callback, which a later
    write replaces; [job]: the message a worker has. [sent] lists the replies
    written in full, [queued] the messages handed to the workers. *)
Record SmtpConn := MkConn {
  ses : SmtpSession; buf : bytes; waiting : bool; closed : bool; reading : bool;
  wr : option (bytes * after); job : option SmtpMessage;
  sent : list bytes; queued : list SmtpMessage }.

Definition set_ses x c := MkConn x (buf c) (waiting c) (closed c) (reading c) (wr c) (job c) (sent c) (queued c).
Definition set_buf x c := MkConn (ses c) x (waiting c) (closed c) (reading c) (wr c) (job c) (sent c) (queued c).
Definition set_waiting x c := MkConn (ses c) (buf c) x (closed c) (reading c) (wr c) (job c) (sent c) (queued c).
Definition set_reading x c := MkConn (ses c) (buf c) (waiting c) (closed c) x (wr c) (job c) (sent c) (queued c).

(** [close_fd] drops the callbacks. *)
Definition close_session c := MkConn (ses c) (buf c) (waiting c) true false None (job c) (sent c) (queued c).
Definition async_write (text : bytes) (k : after) c :=
  MkConn (ses c) (buf c) (waiting c) (closed c) (reading c) (Some (text, k)) (job c) (sent c) (queued c).
(** The write is complete: its callback is taken out. *)
Definition take_write (text : bytes) c :=
  MkConn (ses c) (buf c) (waiting c) (closed c) (reading c) None (job c) (sent c ++ [text]) (queued c).
Definition enqueue (m : SmtpMessage) c :=
  MkConn (ses c) (buf c) (waiting c) (closed c) (reading c) (wr c) (Some m) (sent c) (queued c ++ [m]).
Definition take_job c :=
  MkConn (ses c) (buf c) (waiting c) (closed c) (reading c) (wr c) None (sent c) (queued c).

(** What a handler started *)
Definition react (r : SmtpSession * reaction) (c : SmtpConn) : SmtpConn :=
  let c := set_ses r.1 c in
  match r.2 with
  | Go => c
  | Write reply k => async_write reply k c
  | Enqueue m => enqueue m c
  end.

Definition SMTP_LINE_MAX : nat := 65536.
Definition SMTP_PENDING_SLACK : Z := 65536.

Definition chomp (line : bytes) : bytes :=
  match last line with Some c => if c =c CR then removelast line else line | None => line end.
(** One round of the loop of [pump]: [inr] leaves the loop. *)
Definition pump_step (c : SmtpConn) : SmtpConn + SmtpConn :=
  match find_if (is_c LF) (buf c) with
  | None =>
      if (SMTP_LINE_MAX <? length (buf c))%nat then inr (async_write (say "500 5.5.2 Line too long") Close c)
      else inr (set_reading true c)
  | Some nl =>
      let line := chomp (take nl (buf c)) in
      let c := set_waiting true (set_buf (drop (S nl) (buf c)) c) in
      let r := dispatch_line (ses c) line in
      let c := react r c in
      match r.2 with Go => inl (set_waiting false c) | _ => inr c end
  end.
(** Every round takes a character at least from the buffer. *)
Definition pump (c : SmtpConn) : SmtpConn := run pump_step c (S (length (buf c))) c.

Definition resume (c : SmtpConn) : SmtpConn := if closed c then c else pump (set_waiting false c).

(** [on_data] with [len > 0], and with [len = 0] *)
Definition on_data (d : bytes) (c : SmtpConn) : SmtpConn :=
  let c := set_buf (buf c ++ d) c in
  if waiting c then
    if smtp_max_msg + SMTP_PENDING_SLACK <? blen (buf c) then close_session c else c
  else pump c.
Definition on_eof (c : SmtpConn) : SmtpConn := close_session c.

(** The callbacks of a write *)
Definition written (text : bytes) (k : after) (c : SmtpConn) : SmtpConn :=
  let c := take_write text c in
  match k with
  | Banner => set_reading true (set_ses (put_state EHLO (ses c)) c)
  | Resume => resume c
  | Close => close_session c
  | StartBody => resume (set_ses (put_state DATA_BODY (ses c)) c)
  | ResetResume | Accepted => resume (set_ses (reset_envelope (ses c)) c)
  end.

(** The task a worker posts when the handler has answered *)
Definition worked (ok : bool) (c : SmtpConn) : SmtpConn :=
  let c := take_job c in
  if closed c then c
  else async_write (if ok then say "250 2.6.0 Message accepted" else say "550 5.7.1 Message rejected by policy")
    Accepted c.

Inductive smtp_event := Data (d : bytes) | Eof | Written | Worked (ok : bool).
(** What the event loop and the workers can report *)
Definition step (c : SmtpConn) (e : smtp_event) : option SmtpConn :=
  match e with
  | Data d => if reading c && negb (d =s []) then Some (on_data d c) else None
  | Eof => if reading c then Some (on_eof c) else None
  | Written => match wr c with Some (text, k) => Some (written text k c) | None => None end
  | Worked ok => match job c with Some _ => Some (worked ok c) | None => None end
  end.
Fixpoint steps (c : SmtpConn) (es : list smtp_event) : option SmtpConn :=
  match es with
  | [] => Some c
  | e :: es => c ← step c e; steps c es
  end.

(** The connection [on_accept] leaves: the banner is being written. *)
Definition new_session (sub : bool) (ip : bytes) : SmtpConn :=
  async_write (lit "220 " ++ smtp_banner ++ lit " ESMTP LOOK" ++ [CR; LF]) Banner
    (MkConn (MkSess GREETING (MkMsg [] [] [] ip false false) [] 0 sub false false)
       [] false false false None None [] []).
End Session.

(** * What is handed to the workers *)

Lemma positive_pos env parse d name : 0 < d -> 0 < positive env parse d name.
Proof.
  unfold positive. intros Hd. destruct (getenv _ env) as [[|c s]|]; [done| |done].
  by destruct (Z.ltb_spec 0 (parse (c :: s))).
Qed.

Section Relay.
Context (sha256 : bytes -> bytes) (env : list bytes)
  (query : DbConfig -> bytes -> option (list (list (bytes * bytes)))) (ssl_ctx : bool).
(** The port and the address of the connection *)
Context (sub : bool) (ip : bytes).

Definition allowed (authed : bool) (addr : bytes) : Prop :=
  addr <> [] /\ (authed = true \/ is_local_domain env (rcpt_domain addr) = true).
(** Credentials that were accepted, in clear, from this machine *)
Definition vouched : Prop :=
  sub = true /\ ssl_ctx = false /\ smtp_is_loopback ip = true /\
  exists b64, smtp_validate_auth sha256 env query b64 = true.

Definition good_msg (m : SmtpMessage) : Prop :=
  rcpt_to m <> [] /\ Z.of_nat (length (rcpt_to m)) <= smtp_max_rcpt env /\
  Forall (allowed (authenticated m)) (rcpt_to m) /\
  blen (data m) <= smtp_max_msg env /\ remote_ip m = ip /\ tls m = false /\
  (sub = true -> authenticated m = true) /\ (authenticated m = true -> vouched).

Definition past_mail (st : SmtpState) : Prop :=
  match st with MAIL_FROM | RCPT_TO | DATA_INIT | DATA_BODY => True | _ => False end.
Definition past_rcpt (st : SmtpState) : Prop :=
  match st with RCPT_TO | DATA_INIT | DATA_BODY => True | _ => False end.

Record ok_session (s : SmtpSession) : Prop := {
  ok_sub : submission s = sub;
  ok_ip : remote_ip (msg s) = ip;
  ok_tls : tls_active s = false /\ tls (msg s) = false;
  ok_auth : authenticated (msg s) = auth_ok s;
  ok_vouched : auth_ok s = true -> vouched;
  ok_mail : past_mail (state s) -> sub = true -> auth_ok s = true;
  ok_some : past_rcpt (state s) -> rcpt_to (msg s) <> [];
  ok_count : Z.of_nat (length (rcpt_to (msg s))) <= smtp_max_rcpt env;
  ok_rcpt : Forall (allowed (auth_ok s)) (rcpt_to (msg s)) }.

(** What a handler may start *)
Definition ok_reaction (r : SmtpSession * reaction) : Prop :=
  ok_session r.1 /\
  match r.2 with
  | Go => True
  | Write _ k => k = StartBody -> state r.1 = DATA_INIT
  | Enqueue m => good_msg m
  end.

Lemma max_rcpt_pos : 0 < smtp_max_rcpt env.
Proof. by apply positive_pos. Qed.

Lemma ok_errors n s : ok_session s -> ok_session (set_errors n s).
Proof. by destruct 1; constructor. Qed.
Lemma ok_error s reply : ok_session s -> ok_reaction (error_reply env s reply).
Proof.
  intros H%(ok_errors (error_count s + 1)). unfold error_reply. cbv zeta. by destruct (_ <=? _).
Qed.
Lemma ok_ehlo s verb line : ok_session s -> ok_reaction (handle_ehlo env ssl_ctx s verb line).
Proof.
  intros H. unfold handle_ehlo. destruct (_ && _); [by apply ok_error|]. cbv zeta.
  split; [|done]. by destruct H; constructor.
Qed.
Lemma ok_reset s : ok_session s -> ok_session (reset_envelope s).
Proof.
  destruct 1. constructor; cbn; try done. pose proof max_rcpt_pos. lia.
Qed.

Lemma ok_handle_auth s line : ok_session s -> ~ past_rcpt (state s) ->
  ok_reaction (handle_auth sha256 env query ssl_ctx s line).
Proof.
  intros H Hst. unfold handle_auth.
  destruct (submission s) eqn:Es; [|by apply ok_error]. cbn [negb].
  destruct (auth_ok s) eqn:Ea; [by apply ok_error|].
  rewrite (proj1 (ok_tls _ H)).
  cbn [negb andb]. destruct ssl_ctx eqn:El; [by apply ok_error|].
  destruct (smtp_is_loopback _) eqn:Ei; [|by apply ok_error]. cbn [negb].
  destruct (auth_args line) as [mech initial]. destruct (_ && _); [by apply ok_error|].
  destruct (smtp_validate_auth _ _ _ _) eqn:Ev; [|by apply ok_error].
  split; [|done]. destruct H. constructor; cbn; try done.
  - intros _. rewrite ok_sub0 in Es. rewrite ok_ip0 in Ei. unfold vouched. eauto.
  - eapply Forall_impl; [exact ok_rcpt0|]. intros a [? _]. split; auto.
Qed.
Lemma ok_handle_mail s line : ok_session s -> ok_reaction (handle_mail env ssl_ctx s line).
Proof.
  intros H. unfold handle_mail. destruct (_ && _ && _); [by apply ok_error|].
  destruct (too_big _ _); [by apply ok_error|].
  destruct (submission s && negb (auth_ok s)) eqn:E; [by apply ok_error|].
  destruct (smtp_extract_addr line) as [addr|]; [|by apply ok_error].
  split; [|done]. destruct H. constructor; cbn; try done.
  intros _ Hs. rewrite ok_sub0, Hs in E. by destruct (auth_ok s).
Qed.
Lemma ok_ready s verb line : ok_session s -> state s = READY ->
  ok_reaction (handle_ready sha256 env query ssl_ctx s verb line).
Proof.
  intros H Hst. unfold handle_ready. repeat case_if.
  - by apply ok_error.
  - apply ok_handle_auth; [done|]. rewrite Hst. by intros [].
  - by apply ok_handle_mail.
  - by apply ok_ehlo.
  - by apply ok_error.
Qed.
Lemma ok_add_rcpt s line : ok_session s -> past_mail (state s) -> ok_reaction (add_rcpt env s line).
Proof.
  intros H Hst. unfold add_rcpt, validate_rcpt. cbv zeta. set (addr := default [] _).
  destruct (bytes_eqb_spec addr []); [exact (ok_error _ _ H)|].
  destruct (Z.leb_spec (smtp_max_rcpt env) (Z.of_nat (length (rcpt_to (msg s))))); [exact (ok_error _ _ H)|].
  destruct (negb (auth_ok s) && _) eqn:E; [exact (ok_error _ _ H)|].
  split; [|done]. destruct H. constructor; cbn; try done.
  - intros _. by apply ok_mail0.
  - intros _. by destruct (rcpt_to (msg s)).
  - rewrite length_app. simpl. lia.
  - apply Forall_app. split; [done|]. constructor; [|constructor]. split; [done|].
    destruct (auth_ok s); [by left|right]. cbn in E. by apply negb_false_iff in E.
Qed.
Lemma ok_body s line : ok_session s -> state s = DATA_BODY -> ok_reaction (handle_data_body env s line).
Proof.
  intros H Hst. unfold handle_data_body. cbv zeta. case_if.
  - destruct (Z.ltb_spec (smtp_max_msg env) (blen (data (msg s)))); [by split|].
    split; [done|]. cbn. destruct H. rewrite Hst in *. cbn in *. unfold good_msg. rewrite ok_auth0.
    split_and!; try done; tauto.
  - set (text := match line with [] => _ | _ => _ end).
    assert (H' : ok_session (set_msg (set_data (data (msg s) ++ text ++ [CR; LF]) (msg s)) s))
      by (by destruct H; constructor).
    by destruct (_ <? _).
Qed.

Lemma ok_dispatch s line : ok_session s -> ok_reaction (dispatch_line sha256 env query ssl_ctx s line).
Proof.
  intros H. unfold dispatch_line. destruct (state s) eqn:Hst; cbv zeta;
    try (by apply ok_body); (repeat case_if; [by split|by split; [apply ok_reset|]|by split|]).
  all: try by apply ok_error.
  - by apply ok_ehlo.
  - by apply ok_ready.
  - unfold handle_mail_from_state. case_if; [by apply ok_error|]. apply ok_add_rcpt; [done|]. by rewrite Hst.
  - unfold handle_rcpt_to_state. repeat case_if; [apply ok_add_rcpt; [done|by rewrite Hst]| |by apply ok_error].
    split; [|done]. destruct H. rewrite Hst in *. by constructor.
  - by split.
Qed.

(** ** The connection *)

Definition ok_conn (c : SmtpConn) : Prop :=
  ok_session (ses c) /\ Forall good_msg (queued c) /\
  (forall t, wr c = Some (t, StartBody) -> state (ses c) = DATA_INIT /\ waiting c = true).

Lemma pump_step_shorter c c' : pump_step sha256 env query ssl_ctx c = inl c' -> (length (buf c') < length (buf c))%nat.
Proof.
  unfold pump_step. cbv zeta. destruct (find_if _ _) as [nl|] eqn:En; [|by case_if]. apply find_if_lt in En.
  destruct (dispatch_line _ _ _ _ _ _) as [s r]. destruct r; [|done|done].
  intros [= <-]. cbn. rewrite length_drop. lia.
Qed.

Lemma pump_total (I Q : SmtpConn -> Prop) c :
  (forall c c', I c -> pump_step sha256 env query ssl_ctx c = inl c' -> I c') ->
  (forall c c', I c -> pump_step sha256 env query ssl_ctx c = inr c' -> Q c') ->
  I c -> Q (pump sha256 env query ssl_ctx c).
Proof.
  intros H1 H2 Hc. unfold pump.
  apply (run_inv _ I (fun c => length (buf c))); [|done..|lia].
  intros c1 c2 HI E. split; [by eapply H1|by apply pump_step_shorter].
Qed.

Lemma ok_pump_step c : ok_conn c -> waiting c = false ->
  match pump_step sha256 env query ssl_ctx c with
  | inl c' => ok_conn c' /\ waiting c' = false
  | inr c' => ok_conn c'
  end.
Proof.
  intros (Hs & Hq & Hw) Hf. unfold pump_step. cbv zeta.
  assert (Hn : forall t, wr c <> Some (t, StartBody)) by (intros t E; apply Hw in E as [_ E]; congruence).
  destruct (find_if _ _) as [nl|]; [|case_if; (split; [done|split; [done|]]); cbn; try done; by intros t [=]].
  pose proof (ok_dispatch _ (chomp (take nl (buf c))) Hs) as [H1 H2]. cbn [ses set_waiting set_buf].
  destruct (dispatch_line _ _ _ _ _ _) as [s r]. cbn [fst snd] in *. destruct r as [|reply k|m].
  - split; [|done]. split; [done|]. split; [done|]. intros t E. by apply Hn in E.
  - split; [done|]. split; [done|]. cbn. intros t [= _ ->]. auto.
  - split; [done|]. split; [by apply Forall_app_2; [|constructor]|]. intros t E. by apply Hn in E.
Qed.

Lemma ok_pump c : ok_conn c -> waiting c = false -> ok_conn (pump sha256 env query ssl_ctx c).
Proof.
  intros Hc Hf. apply (pump_total (fun c => ok_conn c /\ waiting c = false)); [..|done].
  - intros c1 c2 [H1 H2] E. pose proof (ok_pump_step _ H1 H2) as H. by rewrite E in H.
  - intros c1 c2 [H1 H2] E. pose proof (ok_pump_step _ H1 H2) as H. by rewrite E in H.
Qed.

Lemma ok_resume c : ok_session (ses c) -> Forall good_msg (queued c) -> wr c = None ->
  ok_conn (resume sha256 env query ssl_ctx c).
Proof.
  intros Hs Hq Hw. unfold resume. case_if.
  - split; [done|]. split; [done|]. by rewrite Hw.
  - apply ok_pump; [|done]. split; [done|]. split; [done|]. cbn. by rewrite Hw.
Qed.

Lemma ok_step c e c' : ok_conn c -> step sha256 env query ssl_ctx c e = Some c' -> ok_conn c'.
Proof.
  intros (Hs & Hq & Hw). destruct e as [d| | |ok]; cbn [step].
  - case_if; [|done]. intros [= <-]. unfold on_data. cbv zeta. cbn [waiting set_buf].
    destruct (waiting c) eqn:E.
    { case_if; (split; [done|split; [done|]]); cbn; [done|]. rewrite E. exact Hw. }
    apply ok_pump; [|done]. split; [done|]. split; [done|]. cbn. by rewrite E.
  - case_if; [|done]. by intros [= <-].
  - destruct (wr c) as [[text k]|] eqn:E; [|done]. intros [= <-]. unfold written. cbv zeta.
    destruct k.
    + split; [|by split]. destruct Hs. by constructor.
    + by apply ok_resume.
    + by split.
    + apply ok_resume; [|done..]. destruct (Hw _ eq_refl) as [Hst _]. destruct Hs. rewrite Hst in *. by constructor.
    + apply ok_resume; [|done..]. by apply ok_reset.
    + apply ok_resume; [|done..]. by apply ok_reset.
  - destruct (job c); [|done]. intros [= <-]. unfold worked. cbv zeta. cbn [closed take_job].
    case_if; by split.
Qed.

Lemma ok_accepted : ok_conn (new_session env sub ip).
Proof.
  split; [|by split]. pose proof max_rcpt_pos. by constructor; cbn; try done; lia.
Qed.

Lemma ok_steps c es c' : ok_conn c -> steps sha256 env query ssl_ctx c es = Some c' -> ok_conn c'.
Proof.
  revert c. induction es as [|e es IH]; intros c Hc; cbn [steps]; [by intros [= <-]|].
  destruct (step _ _ _ _ c e) as [c1|] eqn:E; [|done]. cbn [mbind option_bind]. intros H.
  eapply IH; [|exact H]. by eapply ok_step.
Qed.
End Relay.

(** C16: the SMTP server is not an open relay. Whatever a client sends, in
    whatever pieces, and however the ends of writes and workers fall between
    them, every message that is handed to a worker has between 1 and the
    configured number of recipients, none of them empty, at most the configured
    size, and the address of the connection; each recipient is in a local
    domain or the session was authenticated, which happens only on the
    submission port, without a configured certificate, on a connection from
    this machine, with credentials [smtp_validate_auth] accepts. On the
    submission port every message is authenticated. *)
Theorem no_open_relay sha256 env query ssl_ctx sub ip es c :
  steps sha256 env query ssl_ctx (new_session env sub ip) es = Some c ->
  Forall (good_msg sha256 env query ssl_ctx sub ip) (queued c).
Proof. intros H. eapply ok_steps in H; [apply H|]. apply ok_accepted. Qed.

Definition demo_env : list bytes :=
  [lit "LOOK_SMTP_LOCAL_DOMAINS=home.org"; lit "LOOK_SMTP_AUTH_TOKEN=s3cret"; lit "LOOK_SMTP_MAX_MSG_SIZE=20"].
Definition demo (ssl sub : bool) (es : list smtp_event) : option SmtpConn :=
  steps Crypto.sha256 demo_env (fun _ _ => None) ssl (new_session demo_env sub (lit "127.0.0.1")) es.
Definition lines_of (ls : list string) : smtp_event := Data (concat (map say ls)).

Example relay_demo :
  let es := [Written; lines_of ["EHLO x"; "MAIL FROM:<a@b.c>"; "RCPT TO:<x@far.org>"; "RCPT TO:<ann@HOME.org.>";
     "DATA"; "hi"; "..dot"; "."; "QUIT"]; Written; Written; Written; Written; Written; Worked true; Written; Written] in
  (fun c => (map (take 3) (sent c), map (fun m => (rcpt_to m, data m)) (queued c), closed c)) <$> demo false false es =
  Some (map (fun t : string => lit t) ["220"; "250"; "250"; "550"; "250"; "354"; "250"; "221"],
        [([lit "ann@HOME.org."], say "hi" ++ say ".dot")], true).
Proof. vm_compute. reflexivity. Qed.

Definition demo_events : list smtp_event :=
  [Written; lines_of ["EHLO x"; "MAIL FROM:<a@b.c>"; "RCPT TO:<ann@home.org>"; "DATA"; "hi"; "."];
   Written; Written; Written; Written].
Lemma demo_runs : exists c,
  steps Crypto.sha256 demo_env (fun _ _ => None) false (new_session demo_env false (lit "127.0.0.1")) demo_events = Some c /\
  length (queued c) = 1%nat.
Proof. eexists. split; [vm_compute; reflexivity|]. reflexivity. Qed.
Lemma no_open_relay_witness : exists c, length (queued c) = 1%nat /\
  Forall (good_msg Crypto.sha256 demo_env (fun _ _ => None) false false (lit "127.0.0.1")) (queued c).
Proof.
  destruct demo_runs as (c & E & L). exists c. split; [exact L|].
  exact (no_open_relay _ _ _ _ _ _ _ _ E).
Defined.

(** Two fuels above the measure give the same result. *)
Lemma run_fuel {St R} (step : St -> St + R) (m : St -> nat) d d' fuel fuel' s :
  (forall s s', step s = inl s' -> (m s' < m s)%nat) -> (m s < fuel)%nat -> (m s < fuel')%nat ->
  run step d fuel s = run step d' fuel' s.
Proof.
  intros Hm H1 H2.
  destruct (loop_total step (fun _ => True) m ltac:(eauto) (S (m s)) s I ltac:(lia)) as [r Hr].
  unfold run. by rewrite !(loop_more _ _ _ _ _ Hr).
Qed.

#[local] Opaque SMTP_LINE_MAX.

(** * Pipelining

    The reference is a client that sends one line, and waits for the answer
    before it sends the next: [lock_line]. *)

Section Stream.
Context (sha256 : bytes -> bytes) (env : list bytes)
  (query : DbConfig -> bytes -> option (list (list (bytes * bytes)))) (ssl_ctx : bool).
Local Notation pump_step := (pump_step sha256 env query ssl_ctx).
Local Notation pump := (pump sha256 env query ssl_ctx).
Local Notation on_data := (on_data sha256 env query ssl_ctx).
Local Notation written := (written sha256 env query ssl_ctx).
Local Notation step := (step sha256 env query ssl_ctx).
Local Notation steps := (steps sha256 env query ssl_ctx).

(** The worker's answer, if there is a worker, then the end of the write. *)
Definition await (c : SmtpConn) (answers : list bool) : SmtpConn * list bool :=
  let (c, answers) := match job c, answers with
    | Some _, a :: answers => (worked a c, answers) | _, _ => (c, answers) end in
  match wr c with Some (t, k) => (written t k c, answers) | None => (c, answers) end.
Definition lock_line (x : SmtpConn * list bool) (line : bytes) : SmtpConn * list bool :=
  let (c, answers) := x in
  if closed c then (c, answers) else await (on_data (line ++ [LF]) c) answers.

(** What the client sent, and what the handler answered *)
Definition data_of (es : list smtp_event) : bytes := concat (map (fun e => match e with Data d => d | _ => [] end) es).
Definition answers_of (es : list smtp_event) : list bool := flat_map (fun e => match e with Worked ok => [ok] | _ => [] end) es.
(** The stream does not end, and no more than 64 KB wait in the buffer. *)
Fixpoint paced (c : SmtpConn) (es : list smtp_event) : bool :=
  match es with
  | [] => true
  | e :: es =>
      match e with Data d => (length (buf c ++ d) <=? SMTP_LINE_MAX)%nat | Eof => false | _ => true end &&
      match step c e with Some c => paced c es | None => true end
  end.

(** ** One line *)

Definition one_line (c : SmtpConn) (line : bytes) : SmtpConn :=
  let r := dispatch_line sha256 env query ssl_ctx (ses c) line in
  let c := react r (set_waiting true c) in
  match r.2 with Go => set_waiting false c | _ => c end.

Definition forget (c : SmtpConn) : SmtpConn := set_buf [] c.

Lemma one_line_buf b c line : one_line (set_buf b c) line = set_buf b (one_line c line).
Proof. unfold one_line, react. cbv zeta. cbn [ses set_buf]. by destruct (dispatch_line _ _ _ _ _ _) as [s [| |]]. Qed.

Lemma forget_same c : buf c = [] -> forget c = c.
Proof. destruct c; cbn. by intros ->. Qed.

Lemma pump_none c : find_if (is_c LF) (buf c) = None -> (length (buf c) <= SMTP_LINE_MAX)%nat ->
  pump c = set_reading true c.
Proof.
  intros E Hl. unfold Smtp.pump. apply run_exit. unfold Smtp.pump_step. rewrite E.
  by rewrite (proj2 (Nat.ltb_ge _ _)).
Qed.

Lemma pump_line c nl : find_if (is_c LF) (buf c) = Some nl ->
  let c1 := one_line (set_buf (drop (S nl) (buf c)) c) (chomp (take nl (buf c))) in
  pump c = if waiting c1 then c1 else pump c1.
Proof.
  intros E c1. pose proof (find_if_lt _ _ _ E) as Hl.
  assert (Es : pump_step c = if waiting c1 then inr c1 else inl c1).
  { unfold Smtp.pump_step, c1, one_line. rewrite E. cbv zeta. cbn [ses set_waiting set_buf].
    by destruct (dispatch_line _ _ _ _ _ _) as [s [| |]]. }
  unfold Smtp.pump. destruct (waiting c1).
  - by apply run_exit.
  - rewrite (run_step _ _ _ _ c1) by done.
    assert (Hb : (length (buf c1) < length (buf c))%nat).
    { unfold c1. rewrite one_line_buf. cbn [buf set_buf]. rewrite length_drop. lia. }
    apply (run_fuel _ (fun c => length (buf c))); [|lia|lia]. apply pump_step_shorter.
Qed.

(** ** The simulation *)

(** Between two events: the loop reads while the connection is open, and what
    is awaited is one write or one worker. *)
Record settled (c : SmtpConn) : Prop := {
  st_open : closed c = false -> reading c = true;
  st_closed : closed c = true -> reading c = false /\ wr c = None /\ job c = None;
  st_free : closed c = false -> waiting c = false -> wr c = None /\ job c = None /\ find_if (is_c LF) (buf c) = None;
  st_wait : waiting c = true -> closed c = false ->
    (exists t k, wr c = Some (t, k) /\ k <> Banner /\ job c = None) \/ (wr c = None /\ exists m, job c = Some m) }.

(** The lines [ls] and the answers [A] have been used: whatever the answers
    that follow, the reference ends where this connection does when it is left
    alone. *)
Definition sim (c0 c : SmtpConn) (ls : list bytes) (A : list bool) : Prop :=
  forall F, fold_left lock_line ls (c0, A ++ F) = await (forget c) F.

Lemma await_idle c F : wr c = None -> job c = None -> await c F = (c, F).
Proof. unfold await. intros Hw Hj. by rewrite Hj, Hw. Qed.

Definition no_banner (r : SmtpSession * reaction) : Prop :=
  match r.2 with Write _ Banner => False | _ => True end.
Lemma error_no_banner s reply : no_banner (error_reply env s reply).
Proof. unfold error_reply. cbv zeta. by case_if. Qed.
Lemma dispatch_no_banner s line : no_banner (dispatch_line sha256 env query ssl_ctx s line).
Proof.
  assert (He : forall s verb l, no_banner (handle_ehlo env ssl_ctx s verb l)).
  { intros. unfold handle_ehlo. cbv zeta. case_if; [apply error_no_banner|done]. }
  assert (Hr : forall s l, no_banner (add_rcpt env s l)).
  { intros. unfold add_rcpt, validate_rcpt. cbv zeta. repeat (case_if; [apply error_no_banner|]). done. }
  unfold dispatch_line. destruct (state s); cbv zeta; try (repeat (case_if; [done|]); apply error_no_banner).
  - repeat (case_if; [done|]). apply He.
  - repeat (case_if; [done|]). unfold handle_ready, handle_auth, handle_mail.
    repeat first [apply error_no_banner | apply He | done | case_if | case_match].
  - repeat (case_if; [done|]). unfold handle_mail_from_state. case_if; [apply error_no_banner|apply Hr].
  - repeat (case_if; [done|]). unfold handle_rcpt_to_state. repeat case_if; [apply Hr|done|apply error_no_banner].
  - by repeat (case_if; [done|]).
  - unfold handle_data_body, too_large. cbv zeta. by repeat case_if.
Qed.

Lemma one_line_fields c line : wr c = None -> job c = None -> closed c = false -> reading c = true ->
  let c' := one_line c line in
  closed c' = false /\ reading c' = true /\ buf c' = buf c /\
  (waiting c' = false -> wr c' = None /\ job c' = None) /\
  (waiting c' = true -> (exists t k, wr c' = Some (t, k) /\ k <> Banner /\ job c' = None) \/
     (wr c' = None /\ exists m, job c' = Some m)).
Proof.
  intros Hw Hj Hc Hr. cbv zeta. unfold one_line. pose proof (dispatch_no_banner (ses c) line) as Hb.
  destruct (dispatch_line _ _ _ _ _ _) as [s [|reply k|m]]; cbn; split_and!; try done.
  - intros _. left. exists reply, k. split; [done|]. split; [|done]. by intros ->.
  - intros _. right. eauto.
Qed.

Lemma lock_one c0 c ls A raw : sim c0 c ls A -> wr c = None -> job c = None ->
  closed c = false -> reading c = true -> waiting c = false -> find_if (is_c LF) raw = None ->
  sim c0 (one_line c (chomp raw)) (ls ++ [raw]) A.
Proof.
  intros Hs Hw Hj Hc Hr Hf Hraw F. rewrite fold_left_app, Hs, await_idle by done.
  cbn [fold_left]. unfold lock_line. change (closed (forget c)) with (closed c). rewrite Hc.
  f_equal. unfold Smtp.on_data. cbv zeta. change (waiting _) with (waiting c). rewrite Hf.
  cbn [buf set_buf forget app].
  apply find_if_None in Hraw.
  assert (Hn : find_if (is_c LF) (raw ++ [LF]) = Some (length raw))
    by (apply find_if_app_l; [done|apply is_c_refl]).
  erewrite pump_line by exact Hn. cbn [buf set_buf]. rewrite take_app_length.
  replace (drop (S (length raw)) (raw ++ [LF])) with (@nil ascii)
    by (symmetry; apply drop_ge; rewrite length_app; simpl; lia).
  change (set_buf [] (set_buf (raw ++ [LF]) (forget c))) with (set_buf [] c). rewrite one_line_buf.
  destruct (one_line_fields c (chomp raw)) as (_ & H2 & _); [done..|].
  change (waiting (set_buf [] (one_line c (chomp raw)))) with (waiting (one_line c (chomp raw))).
  destruct (waiting (one_line c (chomp raw))) eqn:E; [done|].
  rewrite pump_none by (done || simpl; lia). unfold forget. set (c1 := one_line _ _) in *. destruct c1.
  cbn in *. by subst.
Qed.

Lemma sim_pump c0 c ls A : sim c0 c ls A -> wr c = None -> job c = None ->
  closed c = false -> reading c = true -> waiting c = false -> (length (buf c) <= SMTP_LINE_MAX)%nat ->
  exists ls', sim c0 (pump c) (ls ++ ls') A /\ settled (pump c) /\
    unlines LF ls' ++ buf (pump c) = buf c /\ Forall (fun l => find_if (is_c LF) l = None) ls'.
Proof.
  remember (length (buf c)) as n eqn:Hn. revert c ls Hn.
  induction (lt_wf n) as [n _ IH]. intros c ls Hn Hs Hw Hj Hc Hr Hf Hl. subst n.
  destruct (find_if (is_c LF) (buf c)) as [nl|] eqn:E.
  - pose proof (find_if_lt _ _ _ E) as Hlt. destruct (find_if_split _ _ _ E) as (x & Hb & Hx & Hno).
    apply is_c_spec in Hx. subst x. apply find_if_None in Hno.
    erewrite pump_line by exact E. rewrite one_line_buf. set (raw := take nl (buf c)) in *.
    set (rest := drop (S nl) (buf c)) in *.
    pose proof (lock_one c0 c ls A raw Hs Hw Hj Hc Hr Hf Hno) as Hs1.
    destruct (one_line_fields c (chomp raw) Hw Hj Hc Hr) as (F1 & F2 & F3 & F4 & F5).
    set (c1 := one_line c (chomp raw)) in *. change (waiting (set_buf rest c1)) with (waiting c1).
    destruct (waiting c1) eqn:Ew.
    + exists [raw]. split; [done|]. split.
      * constructor; cbn; try congruence. intros _ _. by apply F5.
      * split; [|by constructor]. cbn [buf set_buf]. unfold unlines. cbn. rewrite app_nil_r, <- app_assoc. done.
    + destruct (F4 eq_refl) as [G1 G2].
      assert (Hlr : (length rest < length (buf c))%nat) by (unfold rest; rewrite length_drop; lia).
      destruct (IH (length rest) Hlr (set_buf rest c1) (ls ++ [raw])) as (ls' & I1 & I2 & I3 & I4);
        [done..|cbn [buf set_buf]; lia|].
      exists (raw :: ls'). rewrite <- app_assoc in I1. split; [exact I1|].
      split; [done|]. split; [|by constructor]. cbn [buf set_buf] in I3.
      change (unlines LF (raw :: ls')) with ((raw ++ [LF]) ++ unlines LF ls').
      rewrite <- app_assoc, <- app_assoc. cbn [app]. by rewrite I3.
  - rewrite pump_none by done. exists []. rewrite app_nil_r. split; [|split; [|by split]].
    + intros F. rewrite Hs. do 2 f_equal. destruct c; cbn in *; by subst.
    + constructor; cbn; try congruence; done.
Qed.

(** What [written] does before it goes back to the buffer *)
Definition wrote (text : bytes) (k : after) (c : SmtpConn) : SmtpConn :=
  let c := take_write text c in
  match k with
  | Banner | Resume => set_waiting false c
  | Close => close_session c
  | StartBody => set_waiting false (set_ses (put_state DATA_BODY (ses c)) c)
  | ResetResume | Accepted => set_waiting false (set_ses (reset_envelope (ses c)) c)
  end.
Lemma written_eq t k c : k <> Banner -> closed c = false ->
  written t k c = match k with Close => wrote t k c | _ => pump (wrote t k c) end.
Proof. intros Hk Hc. unfold Smtp.written, resume, wrote. by destruct k; cbn; rewrite ?Hc. Qed.

Lemma sim_written c0 c ls A t k : sim c0 c ls A -> settled c -> wr c = Some (t, k) ->
  (length (buf c) <= SMTP_LINE_MAX)%nat ->
  exists ls', sim c0 (written t k c) (ls ++ ls') A /\ settled (written t k c) /\
    unlines LF ls' ++ buf (written t k c) = buf c /\ Forall (fun l => find_if (is_c LF) l = None) ls'.
Proof.
  intros Hs [S1 S2 S3 S4] Hw Hl. destruct (closed c) eqn:Hc; [destruct (S2 eq_refl) as (_ & ? & _); congruence|].
  specialize (S1 eq_refl).
  destruct (waiting c) eqn:Hf; [|destruct (S3 eq_refl eq_refl) as (? & _); congruence].
  destruct (S4 eq_refl eq_refl) as [(t' & k' & E & Hk & Hj)|[? _]]; [|congruence].
  assert (k' = k) as -> by congruence. clear t' E S2 S3 S4.
  assert (Hq : forall F, await (forget c) F = (forget (wrote t k c), F)).
  { intros F. unfold await. change (job (forget c)) with (job c). rewrite Hj. cbv beta iota.
    change (wr (forget c)) with (wr c). rewrite Hw, written_eq by done.
    destruct k; try done; (rewrite pump_none by (done || simpl; lia)); destruct c; cbn in *; by subst. }
  assert (Hs' : sim c0 (wrote t k c) ls A).
  { intros F. rewrite Hs, Hq, await_idle; [done|by destruct k|by destruct k]. }
  rewrite written_eq by done. destruct (decide (k = Close)) as [->|Hk2].
  - exists []. rewrite app_nil_r. split; [done|]. split; [|by split]. constructor; cbn; done.
  - destruct (sim_pump c0 (wrote t k c) ls A) as (ls' & H); [done|by destruct k..| |].
    + by destruct k.
    + exists ls'. by destruct k.
Qed.

Lemma sim_step c0 c e es c' ls A : sim c0 c ls A -> settled c -> paced c (e :: es) = true ->
  step c e = Some c' -> (length (buf c) <= SMTP_LINE_MAX)%nat ->
  exists ls', sim c0 c' (ls ++ ls') (A ++ answers_of [e]) /\ settled c' /\
    unlines LF ls' ++ buf c' = buf c ++ data_of [e] /\ Forall (fun l => find_if (is_c LF) l = None) ls'.
Proof.
  intros Hs Hst Hp He Hl. unfold answers_of, data_of. cbn [paced] in Hp.
  destruct e as [d| | |ok]; cbn [flat_map map concat app]; rewrite ?app_nil_r; cbn [Smtp.step] in He.
  - destruct (reading c) eqn:Hr; [|done]. revert He. cbn [andb]. case_if; [|done]. intros [= <-].
    destruct (closed c) eqn:Hc; [destruct (st_closed _ Hst Hc); congruence|].
    apply andb_true_iff in Hp as [Hd _]. apply Nat.leb_le in Hd.
    unfold Smtp.on_data. cbv zeta. change (waiting (set_buf _ c)) with (waiting c).
    destruct (waiting c) eqn:Hf.
    + assert (Hm : (smtp_max_msg env + SMTP_PENDING_SLACK <? blen (buf c ++ d)) = false).
      { apply Z.ltb_ge. pose proof (positive_pos env atol (25 * 1024 * 1024) "LOOK_SMTP_MAX_MSG_SIZE" eq_refl).
        unfold smtp_max_msg, blen. change SMTP_PENDING_SLACK with (Z.of_nat SMTP_LINE_MAX). lia. }
      cbn [buf set_buf]. rewrite Hm. exists []. rewrite app_nil_r. split; [done|]. split; [|by split].
      destruct Hst. constructor; cbn; auto; congruence.
    + destruct (st_free _ Hst Hc Hf) as (Hw & Hj & _).
      by apply (sim_pump c0 (set_buf (buf c ++ d) c) ls A).
  - done.
  - destruct (wr c) as [[t k]|] eqn:Hw; [|done]. injection He as <-. by apply sim_written.
  - destruct (job c) as [m|] eqn:Hj; [|done]. injection He as <-.
    destruct (closed c) eqn:Hc; [destruct (st_closed _ Hst Hc) as (_ & _ & ?); congruence|].
    destruct (waiting c) eqn:Hf; [|destruct (st_free _ Hst Hc Hf) as (_ & ? & _); congruence].
    destruct (st_wait _ Hst Hf Hc) as [(t & k & _ & _ & ?)|[Hw _]]; [congruence|].
    exists []. rewrite app_nil_r. split; [|split; [|split]].
    + intros F. rewrite <- app_assoc, Hs. unfold await. change (job (forget c)) with (job c).
      rewrite Hj. cbn [app]. unfold worked. cbv zeta. cbn [closed take_job forget set_buf]. by rewrite Hc.
    + unfold worked. cbv zeta. cbn [closed take_job]. rewrite Hc.
      constructor; cbn; try congruence; [by intros _; apply st_open|].
      intros _ _. left. by do 2 eexists.
    + unfold worked. cbv zeta. cbn [closed take_job]. by rewrite Hc.
    + done.
Qed.

Lemma paced_bound c e es : paced c (e :: es) = true -> (length (buf c) <= SMTP_LINE_MAX)%nat ->
  (length (buf c ++ data_of [e]) <= SMTP_LINE_MAX)%nat.
Proof.
  unfold data_of. destruct e; cbn [paced map concat]; rewrite ?app_nil_r; try done.
  intros [H%Nat.leb_le _]%andb_true_iff _. exact H.
Qed.

Lemma sim_steps c0 es c c' ls A : sim c0 c ls A -> settled c -> paced c es = true ->
  steps c es = Some c' -> (length (buf c) <= SMTP_LINE_MAX)%nat ->
  exists ls', sim c0 c' (ls ++ ls') (A ++ answers_of es) /\ settled c' /\
    unlines LF ls' ++ buf c' = buf c ++ data_of es /\ Forall (fun l => find_if (is_c LF) l = None) ls'.
Proof.
  revert c ls A. induction es as [|e es IH]; intros c ls A Hs Hst Hp He Hl.
  - injection He as <-. exists []. unfold answers_of, data_of. cbn. by rewrite !app_nil_r.
  - cbn [Smtp.steps] in He. destruct (step c e) as [c1|] eqn:E1; [|done]. cbn [mbind option_bind] in He.
    destruct (sim_step c0 c e es c1 ls A Hs Hst Hp E1 Hl) as (l1 & S1 & T1 & B1 & N1).
    pose proof (paced_bound _ _ _ Hp Hl) as Hl1.
    assert (Hb : (length (buf c1) <= SMTP_LINE_MAX)%nat).
    { rewrite <- B1, length_app in Hl1. lia. }
    assert (Hp1 : paced c1 es = true) by (cbn [paced] in Hp; rewrite E1 in Hp; by apply andb_true_iff in Hp as [_ ?]).
    destruct (IH c1 (ls ++ l1) (A ++ answers_of [e]) S1 T1 Hp1 He Hb) as (l2 & S2 & T2 & B2 & N2).
    exists (l1 ++ l2). rewrite app_assoc. split; [|split; [done|split]].
    + replace (A ++ answers_of (e :: es)) with ((A ++ answers_of [e]) ++ answers_of es); [done|].
      rewrite <- app_assoc. f_equal. unfold answers_of. cbn [flat_map]. by rewrite app_nil_r.
    + rewrite unlines_app, <- app_assoc, B2, app_assoc, B1, <- app_assoc. f_equal.
      unfold data_of. cbn [map concat]. by rewrite app_nil_r.
    + by apply Forall_app.
Qed.

(** The connection when the banner has been written *)
Definition greeted (sub : bool) (ip : bytes) : SmtpConn :=
  let c := new_session env sub ip in
  match wr c with Some (t, k) => written t k c | None => c end.

Lemma pipelined sub ip es c :
  steps (new_session env sub ip) (Written :: es) = Some c -> paced (greeted sub ip) es = true ->
  wr c = None -> job c = None ->
  exists ls, unlines LF ls ++ buf c = data_of es /\
    Forall (fun l => find_if (is_c LF) l = None) ls /\
    (closed c = false -> find_if (is_c LF) (buf c) = None) /\
    fold_left lock_line ls (greeted sub ip, answers_of es) = (set_buf [] c, []).
Proof.
  intros He Hp Hw Hj. change (steps (greeted sub ip) es = Some c) in He.
  destruct (sim_steps (greeted sub ip) es (greeted sub ip) c [] []) as (ls & S & T & B & N);
    [|by constructor|done|done|apply Nat.le_0_l|].
  { intros F. cbn [fold_left app]. by rewrite await_idle. }
  exists ls. split; [done|]. split; [done|]. split.
  { intros Hc. destruct (waiting c) eqn:Hf; [|by apply T].
    destruct (st_wait _ T Hf Hc) as [(t & k & E & _)|[_ [m E]]]; congruence. }
  specialize (S []). rewrite !app_nil_r in S. cbn [app] in S. rewrite S. by apply await_idle.
Qed.
End Stream.

(** C15: pipelining is transparent as long as at most 64 KB wait in the buffer
    and the client has not closed its side ([paced]); beyond it the cut
    decides, see [long_line_lost]. Whatever pieces the bytes of a client come
    in, and however the ends of writes and of workers fall between them, once
    nothing is being written or handled the connection is (up to the unread
    rest of the buffer) where it is for a client that sends the same complete
    lines one by one and waits after each: the same session, the same replies
    written in the same order, the same messages handed over, the same end.
    Every answer of the handler is used. The bytes are those lines, each with
    its line feed, and the rest of the buffer, which has no complete line
    while the connection is open. *)
Theorem pipelining_transparent sha256 env query ssl_ctx sub ip es c :
  steps sha256 env query ssl_ctx (new_session env sub ip) (Written :: es) = Some c ->
  paced sha256 env query ssl_ctx (greeted sha256 env query ssl_ctx sub ip) es = true ->
  wr c = None -> job c = None ->
  exists ls, unlines LF ls ++ buf c = data_of es /\
    Forall (fun l => find_if (is_c LF) l = None) ls /\
    (closed c = false -> find_if (is_c LF) (buf c) = None) /\
    fold_left (lock_line sha256 env query ssl_ctx) ls (greeted sha256 env query ssl_ctx sub ip, answers_of es) =
      (set_buf [] c, []).
Proof. apply pipelined. Qed.
Lemma demo_quiet : exists c,
  steps Crypto.sha256 demo_env (fun _ _ => None) false (new_session demo_env false (lit "127.0.0.1"))
    (Written :: [lines_of ["EHLO x"; "NOOP"]; Written; Written]) = Some c /\
  wr c = None /\ job c = None /\ length (sent c) = 3%nat.
Proof. eexists. split; [vm_compute; reflexivity|]. split_and!; reflexivity. Qed.
Lemma pipelining_transparent_witness : exists c ls,
  unlines LF ls ++ buf c = say "EHLO x" ++ say "NOOP" /\
  fold_left (lock_line Crypto.sha256 demo_env (fun _ _ => None) false) ls
    (greeted Crypto.sha256 demo_env (fun _ _ => None) false false (lit "127.0.0.1"), []) = (set_buf [] c, []) /\
  length (sent c) = 3%nat.
Proof.
  destruct demo_quiet as (c & E & Hw & Hj & Hl). exists c.
  destruct (pipelining_transparent _ _ _ _ _ _ _ _ E) as (ls & H1 & _ & _ & H4);
    [vm_compute; reflexivity|exact Hw|exact Hj|].
  exists ls. split; [exact H1|split; [exact H4|exact Hl]].
Defined.

(** * The body of a message *)

Section Body.
Context (sha256 : bytes -> bytes) (env : list bytes)
  (query : DbConfig -> bytes -> option (list (list (bytes * bytes)))) (ssl_ctx : bool).

(** How a client writes a line (RFC 5321, 4.5.2), and a text. *)
Definition stuffed (l : bytes) : bytes :=
  (match l with c :: _ => if c =c "." then "."%char :: l else l | [] => l end) ++ [CR; LF].
Definition body_wire (ls : list bytes) : bytes := concat (map stuffed ls) ++ lit "." ++ [CR; LF].
Definition crlf_lines (ls : list bytes) : bytes := concat (map (fun l => l ++ [CR; LF]) ls).

Lemma pump_text l rest c : Forall (fun d => is_c LF d = false) l -> waiting c = false ->
  buf c = l ++ [CR; LF] ++ rest ->
  let c1 := one_line sha256 env query ssl_ctx (set_buf rest c) l in
  pump sha256 env query ssl_ctx c = if waiting c1 then c1 else pump sha256 env query ssl_ctx c1.
Proof.
  intros Hl Hf Hb. cbv zeta.
  assert (Hn : find_if (is_c LF) (buf c) = Some (length (l ++ [CR]))).
  { rewrite Hb. change (l ++ [CR; LF] ++ rest) with (l ++ [CR] ++ LF :: rest). rewrite app_assoc.
    apply find_if_app_l; [|apply is_c_refl]. apply Forall_app. split; [done|by repeat constructor]. }
  rewrite (pump_line _ _ _ _ _ _ Hn). cbv zeta. rewrite Hb.
  replace (l ++ [CR; LF] ++ rest) with ((l ++ [CR]) ++ LF :: rest) by (by rewrite <- app_assoc).
  rewrite take_app_length. replace (drop (S (length (l ++ [CR]))) ((l ++ [CR]) ++ LF :: rest)) with rest.
  2: { replace ((l ++ [CR]) ++ LF :: rest) with (((l ++ [CR]) ++ [LF]) ++ rest) by (by rewrite <- app_assoc).
       rewrite drop_app_length'; [done|]. rewrite (length_app (l ++ [CR])). simpl. lia. }
  unfold chomp. rewrite last_snoc, removelast_last. done.
Qed.

(** The message with one more line, and with all of them. *)
Definition with_line (l : bytes) (c : SmtpConn) : SmtpConn :=
  set_ses (set_msg (set_data (data (msg (ses c)) ++ l ++ [CR; LF]) (msg (ses c))) (ses c)) c.

Lemma one_line_text l c : state (ses c) = DATA_BODY -> waiting c = false ->
  blen (data (msg (ses c)) ++ l ++ [CR; LF]) <= smtp_max_msg env ->
  one_line sha256 env query ssl_ctx c
    (match l with d :: _ => if d =c "." then "."%char :: l else l | [] => l end) = with_line l c.
Proof.
  intros Hst Hf Hm. unfold one_line, dispatch_line. rewrite Hst. unfold handle_data_body. cbv zeta.
  set (line := match l with [] => _ | _ => _ end).
  assert (Hd : line =s lit "." = false).
  { apply bytes_eqb_neq. subst line. destruct l as [|d l]; [done|].
    destruct (Ascii.eqb_spec d "."%char) as [->|]; [done|]. by intros [= ->]. }
  assert (Ht : match line with d :: l => if d =c "." then l else line | [] => line end = l).
  { subst line. destruct l as [|d l]; [done|]. destruct (d =c ".") eqn:E; [done|]. by rewrite E. }
  rewrite Hd, Ht. cbn [msg set_msg data set_data]. rewrite (proj2 (Z.ltb_ge _ _) Hm). cbn.
  clear Hd Ht line. unfold with_line. destruct c; cbn in *. by subst.
Qed.

Lemma body_pumped ls c : state (ses c) = DATA_BODY -> waiting c = false -> closed c = false ->
  buf c = body_wire ls -> Forall (Forall (fun d => is_c LF d = false)) ls ->
  blen (data (msg (ses c)) ++ crlf_lines ls) <= smtp_max_msg env ->
  let m := set_data (data (msg (ses c)) ++ crlf_lines ls) (msg (ses c)) in
  pump sha256 env query ssl_ctx c =
    enqueue m (set_waiting true (set_buf [] (set_ses (set_msg m (ses c)) c))).
Proof.
  revert c. induction ls as [|l ls IH]; intros c Hst Hf Hc Hb Hn Hm; cbv zeta.
  - unfold crlf_lines in *. cbn [map concat] in *. rewrite app_nil_r in *.
    rewrite (pump_text (lit ".") [] c) by (by repeat constructor || done).
    unfold one_line, dispatch_line. cbn [ses set_buf]. rewrite Hst. unfold handle_data_body. cbn [bytes_eqb].
    rewrite bytes_eqb_refl. rewrite (proj2 (Z.ltb_ge _ _) Hm).
    cbn [fst snd react waiting set_waiting enqueue]. destruct c as [ses0 ? ? ? ? ? ? ? ?]. cbn in *. subst.
    by destruct ses0 as [st [] ? ? ? ? ?].
  - apply Forall_cons in Hn as [Hl Hn].
    unfold body_wire in Hb. cbn [map concat] in Hb. unfold stuffed at 1 in Hb. rewrite <- !app_assoc in Hb.
    assert (E : data (msg (ses c)) ++ crlf_lines (l :: ls) = (data (msg (ses c)) ++ l ++ [CR; LF]) ++ crlf_lines ls)
      by (unfold crlf_lines; cbn [map concat]; by rewrite <- !app_assoc).
    assert (Hm1 : blen (data (msg (ses c)) ++ l ++ [CR; LF]) <= smtp_max_msg env).
    { rewrite E in Hm. unfold blen in *. rewrite length_app in Hm. lia. }
    rewrite (pump_text (match l with d :: _ => if d =c "." then "."%char :: l else l | [] => l end)
      (body_wire ls) c); [|destruct l as [|d l]; [done|by destruct (d =c "."); [constructor|]]|done|exact Hb].
    cbv zeta. rewrite one_line_text by done.
    change (waiting (with_line l (set_buf (body_wire ls) c))) with (waiting c). rewrite Hf.
    rewrite IH; [|done..|rewrite E in Hm; exact Hm]. rewrite E. by destruct c.
Qed.
End Body.

(** C27: the body of a message goes through unchanged ([handle_data_body]).
    Lines without a line feed, written with their dots doubled and the lone dot
    behind them, in one piece, on a connection that waits for the body: the
    message that is handed to the worker has these lines, each with its CRLF,
    added to its data, and is otherwise the message of the session; nothing
    stays in the buffer and nothing is executed as a command. The bound is the
    configured size. *)
Theorem body_transparent sha256 env query ssl_ctx ls c :
  state (ses c) = DATA_BODY -> waiting c = false -> closed c = false -> buf c = [] ->
  Forall (Forall (fun d => is_c LF d = false)) ls ->
  blen (data (msg (ses c)) ++ crlf_lines ls) <= smtp_max_msg env ->
  let m := set_data (data (msg (ses c)) ++ crlf_lines ls) (msg (ses c)) in
  on_data sha256 env query ssl_ctx (body_wire ls) c =
    enqueue m (set_waiting true (set_ses (set_msg m (ses c)) c)).
Proof.
  intros Hst Hf Hc Hb Hn Hm m. unfold on_data. cbv zeta. change (waiting (set_buf _ c)) with (waiting c). rewrite Hf.
  rewrite (body_pumped sha256 env query ssl_ctx ls) by (done || by rewrite Hb). subst m. destruct c. cbn in *. by subst.
Qed.
Definition in_body : SmtpConn :=
  MkConn (MkSess DATA_BODY (MkMsg (lit "a@b.c") [lit "ann@home.org"] [] (lit "1.2.3.4") false false)
    (lit "x") 0 false false false) [] false false true None None [] [].
Lemma body_transparent_witness :
  job (on_data Crypto.sha256 demo_env (fun _ _ => None) false (body_wire [lit "."; lit ".a"; lit "b"]) in_body) =
  Some (MkMsg (lit "a@b.c") [lit "ann@home.org"] (crlf_lines [lit "."; lit ".a"; lit "b"]) (lit "1.2.3.4") false false).
Proof.
  rewrite body_transparent; [reflexivity|reflexivity..|by repeat constructor|].
  vm_compute. discriminate.
Defined.

(** * The server: connections and their counters *)

(** [g_ip_conns], [conn_count] and the open sessions by descriptor. *)
Record Server := MkServer { ip_conns : gmap (list ascii) Z; conn_count : Z; sessions : gmap Z SmtpConn }.

Section Server.
Context (sha256 : bytes -> bytes) (env : list bytes)
  (query : DbConfig -> bytes -> option (list (list (bytes * bytes)))) (ssl_ctx : bool).

(** [None]: the limit of the address is reached. *)
Definition ip_acquire (ip : bytes) (m : gmap (list ascii) Z) : option (gmap (list ascii) Z) :=
  let n := default 0 (m !! ip) in
  if smtp_max_conns_per_ip env <=? n then None else Some (<[ip := n + 1]> m).
Definition ip_release (ip : bytes) (m : gmap (list ascii) Z) : gmap (list ascii) Z :=
  match m !! ip with
  | Some n => if n - 1 <=? 0 then delete ip m else <[ip := n - 1]> m
  | None => m
  end.

Definition ip_of (c : SmtpConn) : bytes := remote_ip (msg (ses c)).

(** [on_accept]; a connection over a limit gets its 421 and is closed. *)
Definition on_accept (fd : Z) (sub : bool) (ip : bytes) (s : Server) : Server :=
  match ip_acquire ip (ip_conns s) with
  | None => s
  | Some m =>
      if smtp_max_conn env <=? conn_count s then MkServer (ip_release ip m) (conn_count s) (sessions s)
      else MkServer m (conn_count s + 1) (<[fd := new_session env sub ip]> (sessions s))
  end.

(** An event of a connection, with what [close_session] does to the server
    when the connection closes. *)
Definition on_event (fd : Z) (c : SmtpConn) (s : Server) : Server :=
  if closed c then MkServer (ip_release (ip_of c) (ip_conns s)) (conn_count s - 1) (delete fd (sessions s))
  else MkServer (ip_conns s) (conn_count s) (<[fd := c]> (sessions s)).

(** A descriptor that is accepted is not one of an open session. *)
Inductive srv_step : Server -> Server -> Prop :=
| srv_accept s fd sub ip : sessions s !! fd = None -> srv_step s (on_accept fd sub ip s)
| srv_event s fd c e c' : sessions s !! fd = Some c -> step sha256 env query ssl_ctx c e = Some c' ->
    srv_step s (on_event fd c' s).
Definition srv_start : Server := MkServer ∅ 0 ∅.

(** The open sessions of an address *)
Definition count_ip (ip : bytes) (m : gmap Z SmtpConn) : nat :=
  size (filter (fun p : Z * SmtpConn => ip_of p.2 = ip) m).

Lemma count_insert ip fd c m : m !! fd = None ->
  count_ip ip (<[fd := c]> m) = if decide (ip_of c = ip) then S (count_ip ip m) else count_ip ip m.
Proof.
  intros Hm. unfold count_ip. rewrite map_filter_insert. cbn [snd]. destruct (decide _).
  - apply map_size_insert_None. by apply map_lookup_filter_None_2; left.
  - by rewrite delete_id.
Qed.

Lemma count_delete ip fd c m : m !! fd = Some c ->
  count_ip ip m = if decide (ip_of c = ip) then S (count_ip ip (delete fd m)) else count_ip ip (delete fd m).
Proof.
  intros Hm. rewrite <- (insert_delete_id m fd c Hm) at 1. apply count_insert. apply lookup_delete_eq.
Qed.

Record ok_server (s : Server) : Prop := {
  sv_count : conn_count s = Z.of_nat (size (sessions s)) /\ conn_count s <= smtp_max_conn env;
  sv_ip : forall ip, default 0 (ip_conns s !! ip) = Z.of_nat (count_ip ip (sessions s)) /\
     Z.of_nat (count_ip ip (sessions s)) <= smtp_max_conns_per_ip env;
  sv_pos : forall ip n, ip_conns s !! ip = Some n -> 0 < n;
  sv_conn : forall fd c, sessions s !! fd = Some c ->
     closed c = false /\ exists sub, ok_conn sha256 env query ssl_ctx sub (ip_of c) c }.

Lemma release_lookup ip ip' m : (forall n, m !! ip = Some n -> 0 < n) ->
  default 0 (ip_release ip m !! ip') =
    if decide (ip = ip') then Z.max 0 (default 0 (m !! ip) - 1) else default 0 (m !! ip').
Proof.
  intros Hp. unfold ip_release. destruct (decide (ip = ip')) as [<-|Hne].
  - destruct (m !! ip) as [n|] eqn:E; [|by rewrite E]. specialize (Hp _ eq_refl).
    destruct (Z.leb_spec (n - 1) 0); [rewrite lookup_delete_eq|rewrite lookup_insert_eq]; simpl; lia.
  - destruct (m !! ip) as [n|]; [|done]. case_if; [by rewrite lookup_delete_ne|by rewrite lookup_insert_ne].
Qed.
Lemma release_pos ip m : (forall ip n, m !! ip = Some n -> 0 < n) ->
  forall ip' n, ip_release ip m !! ip' = Some n -> 0 < n.
Proof.
  intros Hp ip' n. unfold ip_release. destruct (m !! ip) as [k|] eqn:E; [|apply Hp].
  destruct (Z.leb_spec (k - 1) 0).
  - intros [_ H']%lookup_delete_Some. by eapply Hp.
  - intros [[<- <-]|[_ H']]%lookup_insert_Some; [lia|by eapply Hp].
Qed.

Lemma ok_server_start : ok_server srv_start.
Proof.
  assert (Hc : forall ip, count_ip ip ∅ = 0%nat) by (intros; unfold count_ip; by rewrite map_filter_empty, map_size_empty).
  constructor; cbn [ip_conns conn_count sessions srv_start].
  - rewrite map_size_empty. split; [done|]. by apply Z.lt_le_incl, positive_pos.
  - intros ip. rewrite Hc, lookup_empty. split; [done|]. by apply Z.lt_le_incl, positive_pos.
  - intros ip n. by rewrite lookup_empty.
  - intros fd c. by rewrite lookup_empty.
Qed.

Lemma ok_on_accept fd sub ip s : sessions s !! fd = None -> ok_server s -> ok_server (on_accept fd sub ip s).
Proof.
  intros Hfd [[C1 C2] HI HP HC]. unfold on_accept, ip_acquire. cbv zeta. destruct (HI ip) as [Hn Hm].
  destruct (Z.leb_spec (smtp_max_conns_per_ip env) (default 0 (ip_conns s !! ip))); [by constructor|].
  set (m := <[ip := _]> (ip_conns s)).
  assert (Hpos : forall ip' n, m !! ip' = Some n -> 0 < n).
  { intros ip' n. subst m. intros [[<- <-]|[_ H']]%lookup_insert_Some; [rewrite Hn; lia|by eapply HP]. }
  assert (Hl : forall ip', default 0 (m !! ip') =
    if decide (ip = ip') then default 0 (ip_conns s !! ip) + 1 else default 0 (ip_conns s !! ip')).
  { intros ip'. subst m. destruct (decide (ip = ip')) as [<-|]; [by rewrite lookup_insert_eq|by rewrite lookup_insert_ne]. }
  destruct (Z.leb_spec (smtp_max_conn env) (conn_count s)).
  - constructor; cbn [ip_conns conn_count sessions]; [done| |by apply release_pos|done].
    intros ip'. rewrite release_lookup by eauto. destruct (decide (ip = ip')) as [<-|Hne].
    + rewrite Hl, decide_True by done. rewrite Hn. split; [lia|done].
    + rewrite Hl, decide_False by done. apply HI.
  - constructor; cbn [ip_conns conn_count sessions].
    + rewrite map_size_insert_None by done. lia.
    + intros ip'. rewrite Hl, count_insert by done. change (ip_of (new_session env sub ip)) with ip.
      destruct (decide (ip = ip')) as [<-|]; [lia|apply HI].
    + done.
    + intros fd' c [[<- <-]|[_ H']]%lookup_insert_Some; [|by eapply HC].
      split; [done|]. exists sub. apply ok_accepted.
Qed.

Lemma ok_on_event fd c e c' s : sessions s !! fd = Some c -> step sha256 env query ssl_ctx c e = Some c' ->
  ok_server s -> ok_server (on_event fd c' s).
Proof.
  intros Hfd He [[C1 C2] HI HP HC]. destruct (HC _ _ Hfd) as [Ho [sub Hok]].
  pose proof (ok_step _ _ _ _ _ _ _ _ _ Hok He) as Hok'.
  assert (Hip : ip_of c' = ip_of c) by apply Hok'.
  assert (Hsz : size (sessions s) = S (size (delete fd (sessions s)))).
  { rewrite <- (insert_delete_id _ _ _ Hfd) at 1. apply map_size_insert_None, lookup_delete_eq. }
  pose proof (fun ip => count_delete ip fd c (sessions s) Hfd) as Hcd.
  unfold on_event. destruct (closed c') eqn:Hc; constructor; cbn [ip_conns conn_count sessions].
  - lia.
  - intros ip. rewrite release_lookup by eauto. destruct (HI ip) as [H1 H2]. specialize (Hcd ip). rewrite Hip.
    destruct (decide (ip_of c = ip)) as [<-|]; lia.
  - by apply release_pos.
  - intros fd' c1 [_ H']%lookup_delete_Some. by eapply HC.
  - rewrite map_size_insert_Some by by eexists. done.
  - intros ip. destruct (HI ip) as [H1 H2]. specialize (Hcd ip).
    rewrite <- insert_delete_eq, count_insert by apply lookup_delete_eq. rewrite Hip.
    destruct (decide (ip_of c = ip)) as [<-|]; lia.
  - done.
  - intros fd' c1 [[<- <-]|[_ H']]%lookup_insert_Some; [|by eapply HC]. split; [done|]. exists sub.
    by rewrite Hip.
Qed.

Lemma ok_server_steps s : rtc srv_step srv_start s -> ok_server s.
Proof.
  revert s. apply rtc_ind_r; [apply ok_server_start|].
  intros s1 s2 _ Hs Hok. destruct Hs; [by apply ok_on_accept|by eapply ok_on_event].
Qed.
End Server.

(** The limits of connections ([on_accept], [close_session], [ip_acquire],
    [ip_release]). Whatever connections are accepted and whatever happens on
    them, the counter of connections is the number of open sessions and at most
    the configured limit; the counter of an address is the number of its open
    sessions and at most its limit; and no counter is kept for an address
    without an open session. Every closed session gives its place back. *)
Theorem connection_counters sha256 env query ssl_ctx s :
  rtc (srv_step sha256 env query ssl_ctx) srv_start s ->
  conn_count s = Z.of_nat (size (sessions s)) /\ conn_count s <= smtp_max_conn env /\
  (forall ip, Z.of_nat (count_ip ip (sessions s)) <= smtp_max_conns_per_ip env) /\
  (forall ip n, ip_conns s !! ip = Some n <-> n = Z.of_nat (count_ip ip (sessions s)) /\ 0 < n) /\
  (forall fd c, sessions s !! fd = Some c -> closed c = false).
Proof.
  intros [[C1 C2] HI HP HC]%ok_server_steps. split; [done|]. split; [done|].
  split; [intros ip; apply HI|]. split; [|intros fd c H; by apply HC in H as [? _]].
  intros ip n. destruct (HI ip) as [H1 H2]. split.
  - intros E. rewrite E in H1. split; [done|by eapply HP].
  - intros [E Hn]. destruct (ip_conns s !! ip) as [k|]; simpl in H1; [f_equal; lia|lia].
Qed.
Lemma connection_counters_witness :
  let s := on_accept demo_env 7 false (lit "1.2.3.4") srv_start in conn_count s = 1 /\ conn_count s <= 1000.
Proof.
  cbv zeta. split; [reflexivity|].
  apply (connection_counters Crypto.sha256 demo_env (fun _ _ => None) false).
  apply rtc_once, srv_accept. reflexivity.
Defined.

(** * What the machine also does *)

Definition outcome (r : option SmtpConn) : option (list bytes * nat * bool) :=
  (fun c => (map (take 3) (sent c), length (queued c), closed c)) <$> r.
Definition codes (ls : list string) : list bytes := map (fun t : string => lit t) ls.
Definition to_data : list smtp_event :=
  [Written; lines_of ["EHLO x"; "MAIL FROM:<a@b.c>"; "RCPT TO:<ann@home.org>"; "DATA"]; Written; Written; Written; Written].

(** A body over the limit is answered at once, and the rest of it is read as
    commands. *)
Example oversized_body :
  outcome (demo false false (to_data ++ [lines_of ["0123456789012345678"; "NOOP"; "QUIT"; "."]; Written; Written; Written])) =
  Some (codes ["220"; "250"; "250"; "250"; "354"; "552"; "250"; "221"], 0%nat, true).
Proof. vm_compute. reflexivity. Qed.

(** A line feed alone ends a line: a dot between two of them ends the message. *)
Example bare_line_feed :
  outcome (demo false false (to_data ++ [Data (lit "hi" ++ [LF] ++ lit "." ++ [LF] ++ say "NOOP"); Worked true; Written; Written])) =
  Some (codes ["220"; "250"; "250"; "250"; "354"; "250"; "250"], 1%nat, false).
Proof. vm_compute. reflexivity. Qed.

(** RSET stands in for EHLO. *)
Example reset_before_ehlo :
  outcome (demo false false [Written; lines_of ["RSET"; "MAIL FROM:<a@b.c>"]; Written; Written]) =
  Some (codes ["220"; "250"; "250"], 0%nat, false).
Proof. vm_compute. reflexivity. Qed.

(** LOGIN is offered, but there is no dialogue for it: its line is refused. *)
Example auth_login :
  outcome (demo false true [Written; lines_of ["EHLO x"; "AUTH LOGIN"; "AUTH PLAIN"]; Written; Written; Written]) =
  Some (codes ["220"; "250"; "535"; "535"], 0%nat, false).
Proof. vm_compute. reflexivity. Qed.

(** The refusal of a long line does not hold the lines behind it back: when
    more data arrives before it is written, its reply and the closing of the
    connection are lost. *)
Example long_line_lost :
  outcome (demo false false [Written; Data (replicate 65537 "x"%char)]) = Some (codes ["220"], 0%nat, false) /\
  outcome (demo false false [Written; Data (replicate 65537 "x"%char); Written]) = Some (codes ["220"; "500"], 0%nat, true) /\
  outcome (demo false false [Written; Data (replicate 65537 "x"%char); Data (CR :: LF :: say "NOOP"); Written; Written]) =
    Some (codes ["220"; "503"; "250"], 0%nat, false).
Proof. split_and!; vm_compute; reflexivity. Qed.

End Smtp.
