(* ===== verification/Dkim.v ===== *)
(** Signatures on messages: cpp/src/dkim.cpp (the relaxed forms, [dkim_sign],
    [dkim_verify_with_key], the key in DNS) and the worker of
    cpp/src/smtp_server.cpp that signs what the server sends and checks what it
    receives.

    SHA-256, the keys, the signatures and the Base64 decoder of OpenSSL and the
    answers of DNS are parameters. *)

From S2P Require Import Prelude Http CNum Crypto WebSocket Web MailAuth Value Smtp.
#[local] Open Scope Z_scope.

Module Dkim.
Import CNum WebSocket MailAuth.
#[local] Notation CRLF := Http.CRLF.

(** * Relaxed forms *)

Definition lower (s : bytes) : bytes := map tolower s.

(** Line breaks, and the blanks that follow each, become one space; [skip]
    says that a line break was just read. *)
Fixpoint unfold_go (skip : bool) (s : bytes) : bytes :=
  match s with
  | [] => []
  | c :: r =>
      if skip && one_of sp_tab c then unfold_go true r
      else match r with
           | d :: r' => if (c =c CR) && (d =c LF) then SP :: unfold_go true r' else c :: unfold_go false r
           | [] => [c]
           end
  end.
(** The first blank of a run is a space, the others go. *)
Fixpoint squeeze (in_ws : bool) (s : bytes) : bytes :=
  match s with
  | [] => []
  | c :: r =>
      if one_of sp_tab c then if in_ws then squeeze true r else SP :: squeeze true r
      else c :: squeeze false r
  end.
Definition canon_header_relaxed (name value : bytes) : bytes :=
  lower name ++ ":"%char :: squeeze false (default [] (trim_set sp_tab (unfold_go false value))).

(** One line of the body: its CR and the blanks before it go. *)
Definition canon_line (line : bytes) : bytes :=
  let line := match last line with Some c => if c =c CR then removelast line else line | None => line end in
  match rfind_if (none_of sp_tab) line with None => [] | Some e => take (S e) line end.
Fixpoint strip_empty (lines : list bytes) : list bytes :=
  match lines with
  | [] => []
  | l :: r => match strip_empty r with
              | [] => if l =s [] then [] else [l]
              | r' => l :: r'
              end
  end.
Definition canon_body_relaxed (body : bytes) : bytes :=
  let out := concat (map (fun l => l ++ CRLF) (strip_empty (map canon_line (getline_all LF body)))) in
  if out =s [] then CRLF else out.

(** [s.substr(0, n)], [s.substr(n, n)], ... *)
Fixpoint chunks (n fuel : nat) (s : bytes) : list bytes :=
  match fuel with
  | O => []
  | S f => if s =s [] then [] else take n s :: chunks n f (drop n s)
  end.
Notation join := Value.join.

(** The end of the header that starts at [pos]: the first line break that no
    blank follows. Each round goes two characters on at least. *)
Fixpoint header_end (fuel : nat) (s : bytes) (pos : nat) : option nat :=
  match fuel with
  | O => None
  | S f =>
      match find_str_from CRLF s pos with
      | None => None
      | Some e =>
          match s !! (e + 2)%nat with
          | Some c => if one_of sp_tab c then header_end f s (e + 2) else Some e
          | None => Some e
          end
      end
  end.
(** [s.substr(pos, e - pos)], or all that is left *)
Definition upto (s : bytes) (pos : nat) (e : option nat) : bytes :=
  match e with Some e => substr s pos (e - pos) | None => drop pos s end.

Definition blank_line : bytes := CRLF ++ CRLF.
Definition headers_of (raw : bytes) : bytes :=
  match find_str blank_line raw with Some i => take i raw | None => raw end.
Definition body_of (raw : bytes) : bytes :=
  match find_str blank_line raw with Some i => drop (i + 4) raw | None => [] end.

(** * dkim_sign *)

Record DkimHeader := MkHdr { hname : bytes; hvalue : bytes }.

(** The tags before the signature *)
Definition dkim_hdr (domain selector h_tag bh : bytes) (ts : Z) : bytes :=
  lit "v=1; a=rsa-sha256; c=relaxed/relaxed" ++ lit "; d=" ++ domain ++ lit "; s=" ++ selector
  ++ lit "; t=" ++ Value.int_to_string ts ++ lit "; h=" ++ h_tag ++ lit "; bh=" ++ bh ++ lit "; b=".
Definition h_tag (headers : list DkimHeader) : bytes := join [":"%char] (map (fun h => lower (hname h)) headers).
Definition signed_data (headers : list DkimHeader) (dkim_value : bytes) : bytes :=
  concat (map (fun h => canon_header_relaxed (hname h) (hvalue h) ++ CRLF) headers)
  ++ canon_header_relaxed (lit "DKIM-Signature") dkim_value.

Section OpenSSL.
Context {Key : Type} (SHA256 : bytes -> bytes).
(** [None]: the key does not load, which throws. *)
Context (rsa_sha256_sign : bytes -> bytes -> option bytes).
(** The key, the data and the signature *)
Context (pem_read_pubkey : bytes -> option Key) (digest_verify : Key -> bytes -> bytes -> bool).
(** [None]: [BIO_read] returns nothing. *)
Context (bio_b64_decode : bytes -> option bytes).
(** [None]: the lookup throws. *)
Context (dns_txt_lookup : bytes -> option (list bytes)).

Definition body_hash (body : bytes) : bytes := base64_encode (SHA256 (canon_body_relaxed body)).

(** [now] is the clock, in seconds. *)
Definition dkim_sign (now : Z) (headers : list DkimHeader) (body domain selector private_key_pem : bytes) : option bytes :=
  let hdr := dkim_hdr domain selector (h_tag headers) (body_hash body) now in
  sig ← rsa_sha256_sign (signed_data headers hdr) private_key_pem;
  let b_val := base64_encode sig in
  Some (lit "DKIM-Signature: " ++ hdr ++ join (CRLF ++ [TAB]) (chunks 72 (length b_val) b_val)).

(** * dkim_verify *)

(** The first signature header, with its line breaks *)
Definition signature_header (raw : bytes) : option bytes :=
  sig_start ← find_str (lit "DKIM-Signature:") raw;
  Some (upto raw sig_start (header_end (S (length raw)) raw sig_start)).

(** The domain of the sender, as the check finds it *)
Definition from_domain (raw : bytes) : option bytes :=
  let from_pos := match find_str (CRLF ++ lit "From:") raw with
                  | Some p => Some p
                  | None => find_str (lit "From:") raw
                  end in
  p ← from_pos;
  at_ ← find_from (is_c "@") raw p;
  Some (upto raw (S at_) (find_from (one_of [SP; TAB; CR; LF; ">"%char]) raw (S at_))).
(** [d=] is the domain or a parent of it. *)
Definition aligned (fd dd : bytes) : bool :=
  negb (fd =s []) && negb (dd =s [])
  && ((fd =s dd) || ((length dd <? length fd)%nat && (drop (length fd - length dd - 1) fd =s "."%char :: dd))).
Definition from_aligned (raw domain : bytes) : bool :=
  match from_domain raw with Some fd => aligned (lower fd) (lower domain) | None => true end.

(** The value of [b=] goes. *)
Definition strip_b (hdr : bytes) : bytes :=
  match find_str (lit "b=") hdr with
  | None => hdr
  | Some bp => take (bp + 2) hdr ++ match find_from (is_c ";") hdr (bp + 2) with Some e => drop e hdr | None => [] end
  end.

(** [s.rfind(t, pos)] *)
Fixpoint rfind_at (t s : bytes) (pos : nat) : option nat :=
  if starts_with t (drop pos s) then Some pos
  else match pos with O => None | S p => rfind_at t s p end.

(** One signed header: the last above the one used before for its name; the
    position of each is kept in [search_from]. *)
Definition signed_header (block : bytes) (hname : bytes) (search_from : gmap bytes nat) : option (nat * bytes) :=
  let search := hname ++ [":"%char] in
  let ceiling := default (length block) (search_from !! hname) in
  p ← rfind_at search (lower block) (ceiling - 1);
  let e := header_end (S (length block)) block p in
  Some (p, upto block (p + length hname + 1) e).
Fixpoint signed_headers (block : bytes) (names : list bytes) (search_from : gmap bytes nat) : bytes :=
  match names with
  | [] => []
  | n :: names =>
      match signed_header block n search_from with
      | None => signed_headers block names search_from
      | Some (p, hval) => canon_header_relaxed n hval ++ CRLF ++ signed_headers block names (<[n := p]> search_from)
      end
  end.
Definition data_to_verify (raw hdr : bytes) : bytes :=
  let hdr_no_b := strip_b hdr in
  let signed_hdrs := map lower (getline_all ":" (dkim_tag hdr (lit "h"))) in
  signed_headers (headers_of raw) signed_hdrs ∅
  ++ canon_header_relaxed (lit "DKIM-Signature")
       match find_if (is_c ":") hdr_no_b with Some i => drop (S i) hdr_no_b | None => hdr_no_b end.

Definition dkim_verify_with_key (raw pubkey_pem : bytes) : bool :=
  match signature_header raw with
  | None => false
  | Some hdr =>
      let domain := dkim_tag hdr (lit "d") in
      let selector := dkim_tag hdr (lit "s") in
      let bh_b64 := dkim_tag hdr (lit "bh") in
      let b_b64 := dkim_tag hdr (lit "b") in
      if (domain =s []) || (selector =s []) || (b_b64 =s []) || (bh_b64 =s []) then false
      else if negb (from_aligned raw domain) then false
      else if negb (body_hash (body_of raw) =s bh_b64) then false
      else if pubkey_pem =s [] then false
      else match bio_b64_decode (List.filter (none_of wsp) b_b64) with
           | None => false
           | Some sig_bytes =>
               match pem_read_pubkey pubkey_pem with
               | None => false
               | Some pkey => digest_verify pkey (data_to_verify raw hdr) sig_bytes
               end
           end
  end.

(** * The key in DNS *)

Definition pem_of (b64key : bytes) : bytes :=
  lit "-----BEGIN PUBLIC KEY-----" ++ [LF] ++ unlines LF (chunks 64 (length b64key) b64key)
  ++ lit "-----END PUBLIC KEY-----" ++ [LF].
Fixpoint key_of_txts (txts : list bytes) : bytes :=
  match txts with
  | [] => []
  | t :: txts =>
      match find_str (lit "p=") t with
      | None => key_of_txts txts
      | Some p =>
          let b64key := List.filter (none_of [SP; TAB; CR; LF; ";"%char]) (drop (p + 2) t) in
          if b64key =s [] then key_of_txts txts else pem_of b64key
      end
  end.
Definition dkim_pubkey_from_dns (domain selector : bytes) : bytes :=
  match dns_txt_lookup (selector ++ lit "._domainkey." ++ domain) with
  | None => []
  | Some txts => key_of_txts txts
  end.
Definition dkim_verify (raw : bytes) : bool :=
  match signature_header raw with
  | None => false
  | Some hdr =>
      let domain := dkim_tag hdr (lit "d") in
      let selector := dkim_tag hdr (lit "s") in
      if (domain =s []) || (selector =s []) then false
      else let pem := dkim_pubkey_from_dns domain selector in
           if pem =s [] then false else dkim_verify_with_key raw pem
  end.

(** * The worker of the mail server *)

(** The headers it signs, one for each line with a colon *)
Definition header_of_line (line : bytes) : option DkimHeader :=
  let line := match last line with Some c => if c =c CR then removelast line else line | None => line end in
  colon ← find_if (is_c ":") line;
  let hval := drop (S colon) line in
  Some (MkHdr (take colon line)
          match find_if (none_of sp_tab) hval with Some b => drop b hval | None => [] end).
Definition headers_to_sign (hdr_block : bytes) : list DkimHeader := omap header_of_line (getline_all LF hdr_block).

(** The settings [LOOK_SMTP_DKIM_DOMAIN], [_SELECTOR] and the text of the key
    file *)
Record dkim_conf := MkDkim { dkim_domain : bytes; dkim_selector : bytes; dkim_key : bytes }.

Definition sign_outbound (conf : dkim_conf) (now : Z) (m : Smtp.SmtpMessage) : Smtp.SmtpMessage :=
  if (Smtp.tls m || Smtp.authenticated m) && negb (dkim_domain conf =s []) && negb (dkim_key conf =s [])
     && negb (Smtp.data m =s [])
  then match dkim_sign now (headers_to_sign (headers_of (Smtp.data m))) (body_of (Smtp.data m))
               (dkim_domain conf) (dkim_selector conf) (dkim_key conf) with
       | Some sig => Smtp.set_data (sig ++ CRLF ++ Smtp.data m) m
       | None => m
       end
  else m.
(** The message the handler sees, and its [dkim_ok] *)
Definition worker (conf : dkim_conf) (now : Z) (m : Smtp.SmtpMessage) : Smtp.SmtpMessage * bool :=
  let m := sign_outbound conf now m in
  (m, negb (Smtp.data m =s []) && dkim_verify (Smtp.data m)).

End OpenSSL.

End Dkim.
