(* ===== verification/DkimFacts.v ===== *)
(** Theorems on Dkim: what the server signs its check accepts, and what a
    signature says of the body. *)

From S2P Require Import Prelude Http CNum Crypto WebSocket Web MailAuth Value Smtp Dkim.
#[local] Open Scope Z_scope.

Module DkimFacts.
Import CNum WebSocket MailAuth Dkim.
#[local] Notation CRLF := Http.CRLF.
#[local] Notation crlf_lines := Http.crlf_lines.

(** * Text without some character *)

Definition free (d : ascii) (s : bytes) : Prop := Forall (fun c => is_c d c = false) s.

Lemma free_app d s t : free d (s ++ t) <-> free d s /\ free d t.
Proof. apply Forall_app. Qed.
Lemma free_cons d c s : free d (c :: s) <-> c <> d /\ free d s.
Proof. unfold free. rewrite Forall_cons, is_c_false. done. Qed.
Lemma free_sub d s t : s ⊆ t -> free d t -> free d s.
Proof. unfold free. rewrite !Forall_forall. auto. Qed.
Lemma free_all (p : ascii -> bool) d s : Forall (fun c => p c = true) s -> p d = false -> free d s.
Proof.
  intros H Hd. eapply Forall_impl; [exact H|]. intros c Hc. apply is_c_false. congruence.
Qed.

(** * Searches *)

Lemma find_str_skip t x y :
  (forall a b, x = a ++ b -> b <> [] -> starts_with t (b ++ y) = false) ->
  find_str t (x ++ y) = (fun i => (length x + i)%nat) <$> find_str t y.
Proof.
  induction x as [|c x IH]; intros H; cbn [app length].
  - by destruct (find_str t y).
  - cbn [find_str]. specialize (H []) as H0. cbn [app] in H0.
    change (c :: x ++ y) with ((c :: x) ++ y). rewrite (H0 (c :: x)) by done. rewrite IH; [by destruct (find_str t y)|].
    intros a b -> Hb. by apply (H (c :: a)).
Qed.
Lemma crlf_not_in x y : free LF x -> x <> [] -> head y <> Some LF -> starts_with CRLF (x ++ y) = false.
Proof.
  intros H Hx Hy. apply not_true_is_false. intros [r E]%starts_with_spec.
  destruct x as [|c [|d x]]; [done|..]; cbn in E.
  - destruct y as [|e y]; [done|]. by injection E as -> -> ->.
  - injection E as -> -> _. by apply free_cons in H as [_ [H _]%free_cons].
Qed.
Lemma free_tail d a b : free d (a ++ b) -> free d b.
Proof. by intros [_ H]%free_app. Qed.

(** The first line break is behind a text without one. *)
Lemma find_break x r : free LF x -> find_str CRLF (x ++ CRLF ++ r) = Some (length x).
Proof.
  intros H. rewrite find_str_skip, Web.find_str_here; [cbn; f_equal; lia|].
  intros a b -> Hb. apply crlf_not_in; [by eapply free_tail|done|done].
Qed.
Lemma find_break_none x : free LF x -> find_str CRLF x = None.
Proof.
  intros H. destruct (find_str CRLF x) as [i|] eqn:E; [|done].
  apply find_str_Some in E as (s1 & s2 & -> & _). apply free_tail, free_cons in H as [_ [H _]%free_cons]. done.
Qed.

(** ** Lines *)

Definition lines_ok (ls : list bytes) : Prop := Forall (fun l => l <> [] /\ free LF l) ls.

(** A blank line is two line breaks in a row; a line and what follows its
    break have none. *)
Lemma starts_blank_line s : starts_with blank_line s = true -> starts_with CRLF s = true /\ starts_with CRLF (drop 2 s) = true.
Proof.
  intros [r ->]%starts_with_spec. split; [exact (starts_with_app CRLF (CRLF ++ r))|exact (starts_with_app CRLF r)].
Qed.
Lemma no_blank l m y a b :
  free LF l -> m <> [] -> free LF m -> head y <> Some LF ->
  l ++ CRLF = a ++ b -> b <> [] -> starts_with blank_line (b ++ m ++ y) = false.
Proof.
  intros Hl Hm1 Hm2 Hy E Hb. apply not_true_is_false. intros [H1 H2]%starts_blank_line.
  assert (Hn : starts_with CRLF (m ++ y) = false) by by apply crlf_not_in.
  destruct (decide (length a < length l)%nat) as [Hlt|Hge].
  - assert (Eb : b = drop (length a) l ++ CRLF).
    { rewrite <- (drop_app_length a b), <- E, drop_app_le by lia. done. }
    rewrite Eb, <- app_assoc, crlf_not_in in H1; [done| | |done].
    + rewrite <- (take_drop (length a) l) in Hl. by eapply free_tail.
    + intros En. apply (f_equal length) in En. rewrite length_drop in En. cbn in En. lia.
  - assert (Eb : b = drop (length a - length l) CRLF).
    { rewrite <- (drop_app_length a b), <- E, drop_app_ge by lia. done. }
    destruct (length a - length l)%nat as [|[|k]]; cbn in Eb; rewrite ?drop_nil in Eb; subst b; [|discriminate H1|done].
    change (starts_with CRLF (m ++ y) = true) in H2. congruence.
Qed.
Lemma find_blank ls l body :
  lines_ok (ls ++ [l]) ->
  find_str blank_line (crlf_lines (ls ++ [l]) ++ CRLF ++ body) = Some (length (crlf_lines ls ++ l)).
Proof.
  induction ls as [|k ls IH]; intros H.
  - apply Forall_cons in H as [[Hl1 Hl2] _]. cbn [app]. rewrite Http.crlf_lines_cons. cbn [crlf_lines map concat app].
    rewrite app_nil_r, <- app_assoc.
    change (CRLF ++ CRLF ++ body) with (blank_line ++ body).
    rewrite find_str_skip, Web.find_str_here; [cbn; f_equal; lia|].
    intros a b -> Hb. apply not_true_is_false. intros [H1 _]%starts_blank_line.
    rewrite crlf_not_in in H1; [done|by eapply free_tail|done|done].
  - apply Forall_cons in H as [[Hk1 Hk2] H]. cbn [app]. rewrite !Http.crlf_lines_cons.
    assert (Hm : exists m y, crlf_lines (ls ++ [l]) ++ CRLF ++ body = m ++ CRLF ++ y /\ m <> [] /\ free LF m).
    { destruct ls as [|m ls]; cbn [app] in *; apply Forall_cons in H as [[Hm1 Hm2] _];
        rewrite Http.crlf_lines_cons, <- !app_assoc; by eexists _, _. }
    rewrite (app_assoc k), <- app_assoc, find_str_skip.
    + rewrite (IH H). cbn [fmap option_fmap option_map]. f_equal. rewrite !length_app. lia.
    + destruct Hm as (m & y & -> & Hm1 & Hm2). intros a b E Hb. by eapply (no_blank k).
Qed.
Lemma headers_of_lines ls l body :
  lines_ok (ls ++ [l]) -> headers_of (crlf_lines (ls ++ [l]) ++ CRLF ++ body) = crlf_lines ls ++ l.
Proof.
  intros H. unfold headers_of. rewrite find_blank by done.
  rewrite Http.crlf_lines_app, <- app_assoc, (Http.crlf_lines_cons l), <- !app_assoc, (app_assoc (crlf_lines ls)). apply take_app_length.
Qed.
Lemma body_of_lines ls l body :
  lines_ok (ls ++ [l]) -> body_of (crlf_lines (ls ++ [l]) ++ CRLF ++ body) = body.
Proof.
  intros H. unfold body_of. rewrite find_blank by done.
  rewrite Http.crlf_lines_app, <- app_assoc, (Http.crlf_lines_cons l), <- !app_assoc, (app_assoc (crlf_lines ls)).
  by rewrite <- drop_drop, drop_app_length.
Qed.

(** * The end of a header *)

(** The lines of one header: all but the first start with a blank. *)
Definition blank_first (s : bytes) : Prop := exists c r, s = c :: r /\ one_of sp_tab c = true.
Definition no_blank_first (s : bytes) : Prop := match s with c :: _ => one_of sp_tab c = false | [] => True end.
Definition header_lines (ls : list bytes) : Prop :=
  match ls with [] => False | l :: ls => Forall (free LF) (l :: ls) /\ Forall blank_first ls end.

Lemma find_str_from_pre t pre s : find_str_from t (pre ++ s) (length pre) = (fun i => (length pre + i)%nat) <$> find_str t s.
Proof.
  unfold find_str_from. rewrite (proj2 (Nat.ltb_ge _ _)) by len. by rewrite drop_app_length.
Qed.
Lemma join_cons sep l m ls : join sep (l :: m :: ls) = l ++ sep ++ join sep (m :: ls).
Proof. done. Qed.

Lemma header_end_lines fuel pre ls r :
  header_lines ls -> no_blank_first r -> (length ls <= fuel)%nat ->
  header_end fuel (pre ++ join CRLF ls ++ CRLF ++ r) (length pre) = Some (length pre + length (join CRLF ls))%nat.
Proof.
  revert fuel pre. induction ls as [|l ls IH]; intros fuel pre H Hr Hf; [done|].
  destruct H as [[Hl H]%Forall_cons Hb]. destruct fuel as [|f]; [cbn in Hf; lia|]. cbn [header_end].
  destruct ls as [|m ls].
  - cbn [join]. rewrite find_str_from_pre, find_break by done. cbn [fmap option_fmap option_map].
    replace (length pre + length l + 2)%nat with (length (pre ++ l ++ CRLF)) by (rewrite !length_app; change (length CRLF) with 2%nat; lia).
    replace (pre ++ l ++ CRLF ++ r) with ((pre ++ l ++ CRLF) ++ r) by by rewrite <- !app_assoc.
    rewrite lookup_pre0. destruct r as [|c r]; cbn [lookup list_lookup]; [done|]. unfold no_blank_first in Hr. by rewrite Hr.
  - rewrite join_cons, <- !app_assoc, find_str_from_pre, find_break by done. cbn [fmap option_fmap option_map].
    replace (length pre + length l + 2)%nat with (length (pre ++ l ++ CRLF)) by (rewrite !length_app; change (length CRLF) with 2%nat; lia).
    replace (pre ++ l ++ CRLF ++ join CRLF (m :: ls) ++ CRLF ++ r)
      with ((pre ++ l ++ CRLF) ++ join CRLF (m :: ls) ++ CRLF ++ r) by by rewrite <- !app_assoc.
    rewrite lookup_pre0. apply Forall_cons in Hb as [(c & t & -> & Hc) Hb].
    assert (E : exists u, join CRLF ((c :: t) :: ls) = c :: u) by (destruct ls; by eexists).
    destruct E as [u Eu]. rewrite Eu at 1. cbn [app lookup list_lookup]. rewrite Hc.
    rewrite IH; [f_equal; rewrite !length_app; lia|by split|done|cbn in Hf |- *; lia].
Qed.
(** A header that nothing follows has no end. *)
Lemma header_end_last fuel pre l : free LF l -> header_end fuel (pre ++ l) (length pre) = None.
Proof.
  intros H. destruct fuel; [done|]. cbn [header_end]. by rewrite find_str_from_pre, find_break_none.
Qed.
(** The chunks of the signature, as lines *)
Lemma join_tab l ls : join (CRLF ++ [TAB]) (l :: ls) = join CRLF (l :: map (cons TAB) ls).
Proof.
  revert l. induction ls as [|m ls IH]; intros l; [done|]. rewrite join_cons, IH, <- app_assoc.
  cbn [map]. rewrite join_cons. do 2 f_equal. destruct ls; done.
Qed.
Lemma join_crlf_lines ls : ls <> [] -> join CRLF ls ++ CRLF = crlf_lines ls.
Proof.
  induction ls as [|l [|m ls] IH]; intros H; [done|by rewrite Http.crlf_lines_cons|].
  rewrite join_cons, Http.crlf_lines_cons, <- !app_assoc. do 2 f_equal. by apply IH.
Qed.

(** * Pieces and chunks *)

Lemma split_on_join d ls : ls <> [] -> Forall (free d) ls -> split_on (is_c d) (join [d] ls) = ls.
Proof.
  induction ls as [|l [|m ls] IH]; intros Hne H; [done|..]; apply Forall_cons in H as [Hl H].
  - by apply split_on_no.
  - rewrite join_cons. cbn [app]. rewrite split_on_app by (done || apply is_c_refl). by rewrite IH.
Qed.
Lemma chunks_concat n fuel s : (0 < n)%nat -> (length s <= fuel)%nat -> concat (chunks n fuel s) = s.
Proof.
  intros Hn. revert s. induction fuel as [|f IH]; intros s Hf; cbn [chunks].
  - by destruct s; [|cbn in Hf; lia].
  - destruct (bytes_eqb_spec s []) as [->|Hs]; [done|]. cbn [concat]. rewrite IH; [apply take_drop|].
    rewrite length_drop. destruct s; [done|]. cbn [length] in *. lia.
Qed.
Lemma chunks_cons n s : s <> [] -> exists c cs, chunks n (length s) s = c :: cs.
Proof.
  intros Hs. destruct s as [|c s]; [done|]. cbn [length chunks]. by eexists _, _.
Qed.
Lemma chunks_sub P n fuel s : Forall P s -> Forall (Forall P) (chunks n fuel s).
Proof.
  revert s. induction fuel as [|f IH]; intros s H; cbn [chunks]; [done|]. case_if; [done|].
  constructor; [by apply Forall_take|by apply IH, Forall_drop].
Qed.
Lemma filter_none (p : ascii -> bool) s : Forall (fun c => p c = false) s -> List.filter p s = [].
Proof. induction 1 as [|c s Hc _ IH]; [done|]. cbn. by rewrite Hc, IH. Qed.
Lemma filter_join (p : ascii -> bool) sep ls :
  Forall (fun c => p c = false) sep -> Forall (Forall (fun c => p c = true)) ls ->
  List.filter p (join sep ls) = concat ls.
Proof.
  intros Hs. induction ls as [|l [|m ls] IH]; intros H; [done|..]; apply Forall_cons in H as [Hl H].
  - cbn [join concat]. rewrite app_nil_r. by apply filter_all.
  - rewrite join_cons, !List.filter_app, (filter_all p l), filter_none by done. cbn [app].
    by rewrite IH.
Qed.
Lemma Forall_join (P : ascii -> Prop) sep ls : Forall P sep -> Forall (Forall P) ls -> Forall P (join sep ls).
Proof.
  intros Hs. induction ls as [|l [|m ls] IH]; intros H; [constructor|..]; apply Forall_cons in H as [Hl H]; [done|].
  rewrite join_cons. apply Forall_app. split; [done|]. apply Forall_app. auto.
Qed.

(** * Base64 *)

Definition b64_text (c : ascii) : bool := isalnum c || one_of (lit "+/=") c.

Lemma b64_char_text z : b64_text (b64_char z) = true /\ is_c "=" (b64_char z) = false.
Proof.
  assert (H : forallb (fun c => b64_text c && negb (is_c "=" c)) B64 = true) by done.
  unfold b64_char. rewrite forallb_forall in H.
  assert (Hi : In (default NUL (B64 !! Z.to_nat (Z.land z 63))) B64).
  { change 63 with (Z.ones 6). rewrite Z.land_ones by lia. pose proof (Z.mod_pos_bound z (2 ^ 6) ltac:(lia)).
    destruct (lookup_lt_is_Some_2 B64 (Z.to_nat (z mod 2 ^ 6))) as [c Hc]; [change (length B64) with 64%nat; lia|].
    rewrite Hc. apply list_elem_of_In. by eapply list_elem_of_lookup_2. }
  apply H, andb_true_iff in Hi as [H1 H2]. split; [done|]. by apply negb_true_iff.
Qed.
Lemma base64_text d : Forall (fun c => b64_text c = true) (base64_encode d).
Proof.
  remember (length d) as n eqn:Hn. revert d Hn. induction (lt_wf n) as [n _ IH]. intros d ->.
  destruct d as [|x [|y [|z r]]]; cbn [base64_encode];
    repeat (constructor; [by first [apply (b64_char_text _)|done]|]); [constructor..|].
  eapply IH; [|done]. cbn [length]. lia.
Qed.
Lemma base64_cons d : d <> [] -> base64_encode d <> [].
Proof. by destruct d as [|x [|y [|z r]]]. Qed.
Lemma base64_free d c : b64_text c = false -> free c (base64_encode d).
Proof. intros H. eapply free_all; [apply base64_text|done]. Qed.

(** The Base64 of two bytes more than a multiple of three ends in one [=],
    behind a character for two bits of nothing. *)
Lemma base64_two k d : length d = (3 * k + 2)%nat ->
  exists x c, base64_encode d = x ++ [c; "="%char] /\ free "=" x /\ c <> "="%char /\ c <> "b"%char.
Proof.
  revert d. induction k as [|k IH]; intros d Hd.
  - destruct d as [|x [|y [|]]]; try (cbn in Hd; lia). cbn [base64_encode]. set (b := Z.lor _ _).
    exists [b64_char (Z.shiftr b 18); b64_char (Z.shiftr b 12)], (b64_char (Z.shiftr b 6)).
    split; [done|]. split; [repeat (constructor; [apply (b64_char_text _)|]); constructor|].
    split; [apply is_c_false, (b64_char_text _)|].
    assert (E : (Z.shiftr b 6) mod 4 = 0).
    { subst b. change 4 with (2 ^ 2). rewrite <- Z.land_ones by lia. apply Z.bits_inj'. intros n Hn.
      rewrite Z.bits_0, Z.land_spec, Z.testbit_ones_nonneg by lia. destruct (Z.ltb_spec n 2); [|by rewrite andb_false_r].
      rewrite Z.shiftr_spec, Z.lor_spec, !Z.shiftl_spec by lia. rewrite !Z.testbit_neg_r by lia. done. }
    unfold b64_char. set (q := Z.shiftr b 6) in *. change 63 with (Z.ones 6). rewrite Z.land_ones by lia.
    assert (Hq : exists j, q mod 2 ^ 6 = 4 * j /\ 0 <= j < 16).
    { exists ((q mod 64) / 4). change (2 ^ 6) with 64. Z.div_mod_to_equations. lia. }
    destruct Hq as (j & -> & Hj).
    assert (Ha : Forall (fun i : nat => default NUL (B64 !! (4 * i)%nat) <> "b"%char) (seq 0 16)).
    { cbn. repeat (constructor; [done|]). constructor. }
    rewrite Forall_forall in Ha. replace (Z.to_nat (4 * j)) with (4 * Z.to_nat j)%nat by lia. apply Ha.
    apply elem_of_seq. lia.
  - destruct d as [|x [|y [|z r]]]; try (cbn in Hd; lia). cbn [base64_encode].
    destruct (IH r) as (t & c & -> & Ht & Hc); [cbn in Hd; lia|].
    eexists (_ :: _ :: _ :: _ :: t), c. split; [done|]. split; [|done].
    repeat (constructor; [apply (b64_char_text _)|]). done.
Qed.

(** * Relaxed headers *)

Lemma lower_lower s : lower (lower s) = lower s.
Proof.
  unfold lower. rewrite map_map. apply map_ext. intros c. apply Ascii.eqb_eq. by_chars c.
Qed.
Lemma unfold_free v : free LF v -> unfold_go false v = v.
Proof.
  induction v as [|c [|d v] IH]; intros H; [done..|].
  change (unfold_go false (c :: d :: v))
    with (if (c =c CR) && (d =c LF) then SP :: unfold_go true v else c :: unfold_go false (d :: v)).
  apply free_cons in H as [_ H]. pose proof H as [Hd _]%free_cons.
  destruct (d =c LF) eqn:E; [by apply Ascii.eqb_eq in E|]. rewrite andb_false_r. by rewrite IH.
Qed.

Lemma find_if_skip p a s : Forall (fun c => p c = false) a ->
  find_if p (a ++ s) = (fun i => (length a + i)%nat) <$> find_if p s.
Proof.
  induction 1 as [|c a Hc _ IH]; cbn [app find_if length].
  - by destruct (find_if p s).
  - rewrite Hc, IH. by destruct (find_if p s).
Qed.
Lemma rfind_if_skip p a s : Forall (fun c => p c = false) a ->
  rfind_if p (a ++ s) = (fun i => (length a + i)%nat) <$> rfind_if p s.
Proof.
  induction 1 as [|c a Hc _ IH]; cbn [app rfind_if length].
  - by destruct (rfind_if p s).
  - rewrite IH. destruct (rfind_if p s); cbn; [done|by rewrite Hc].
Qed.
Lemma none_of_false set a : Forall (fun c => one_of set c = true) a -> Forall (fun c => none_of set c = false) a.
Proof. intros H. eapply Forall_impl; [exact H|]. intros c Hc. unfold none_of. by rewrite Hc. Qed.
(** Blanks in front of a value do not count. *)
Lemma trim_set_skip set a s : Forall (fun c => one_of set c = true) a -> trim_set set (a ++ s) = trim_set set s.
Proof.
  intros H%none_of_false. unfold trim_set. rewrite find_if_skip, rfind_if_skip by done.
  destruct (find_if _ s) as [i|], (rfind_if _ s) as [j|]; cbn; [|done..]. f_equal. unfold substr.
  rewrite <- drop_drop, drop_app_length. f_equal. lia.
Qed.
Lemma canon_blanks n a v :
  Forall (fun c => one_of sp_tab c = true) a -> free LF (a ++ v) ->
  canon_header_relaxed n (a ++ v) = canon_header_relaxed n v.
Proof.
  intros Ha H. unfold canon_header_relaxed. rewrite !unfold_free by (done || by eapply free_tail).
  by rewrite trim_set_skip.
Qed.
Lemma canon_lower n v : canon_header_relaxed (lower n) v = canon_header_relaxed n v.
Proof. unfold canon_header_relaxed. by rewrite lower_lower. Qed.

(** * Tags *)

Definition tag_char (c : ascii) : bool := none_of wsp c && negb (is_c "=" c).
Definition tag_name (s : bytes) : Prop := s <> [] /\ Forall (fun c => tag_char c = true) s.
Definition seg_text (t : bytes * bytes) : bytes := SP :: t.1 ++ "="%char :: t.2.

Lemma rstrip (p : ascii -> bool) s :
  exists m z, s = m ++ z /\ Forall (fun c => p c = false) z /\
              (m = [] \/ exists m' c, m = m' ++ [c] /\ p c = true).
Proof.
  induction s as [|c s (m & z & -> & Hz & Hm)]; [exists [], []; auto|].
  destruct Hm as [->|(m' & d & -> & Hd)].
  - destruct (p c) eqn:Hc; [exists [c], z|exists [], (c :: z)].
    + split; [done|]. split; [done|]. right. by exists [], c.
    + split; [done|]. split; [by constructor|by left].
  - exists (c :: m' ++ [d]), z. split; [done|]. split; [done|]. right. by exists (c :: m'), d.
Qed.
Lemma tag_none n : tag_name n -> Forall (fun c => none_of wsp c = true) n /\ free "=" n.
Proof.
  intros [_ H]. split; eapply Forall_impl; try exact H; intros c [H1 H2]%andb_true_iff; [done|by apply negb_true_iff].
Qed.
Lemma trim_seg n v : tag_name n ->
  exists m z, v = m ++ z /\ Forall (fun c => none_of wsp c = false) z /\
    trim_set wsp (seg_text (n, v)) = Some (n ++ "="%char :: m).
Proof.
  intros Hn. destruct (tag_none n Hn) as [Hw _]. destruct Hn as [Hne _].
  destruct (rstrip (none_of wsp) v) as (m & z & -> & Hz & Hm). exists m, z. split; [done|]. split; [done|].
  unfold seg_text. cbn [fst snd]. change (SP :: n ++ "="%char :: m ++ z) with ([SP] ++ (n ++ "="%char :: m ++ z)).
  rewrite trim_set_skip by by repeat constructor.
  assert (Hl : exists w c, n ++ "="%char :: m = w ++ [c] /\ none_of wsp c = true).
  { destruct Hm as [->|(m' & c & -> & Hc)]; [by exists n, "="%char|].
    exists (n ++ "="%char :: m'), c. by rewrite <- app_assoc. }
  destruct Hl as (w & c & E & Hc). unfold trim_set.
  replace (n ++ "="%char :: m ++ z) with ((w ++ [c]) ++ z) by by rewrite <- E, <- app_assoc.
  rewrite <- (app_assoc w). cbn [app]. rewrite rfind_if_app_r by done.
  assert (Hf : find_if (none_of wsp) (w ++ c :: z) = Some 0%nat).
  { replace (w ++ c :: z) with ((n ++ "="%char :: m) ++ z) by by rewrite E, <- app_assoc.
    destruct n as [|d n]; [done|]. apply Forall_cons in Hw as [Hd _]. cbn. by rewrite Hd. }
  rewrite Hf. f_equal. unfold substr. rewrite drop_0, E.
  replace (length w - 0 + 1)%nat with (length (w ++ [c])) by (rewrite length_app; cbn; lia).
  replace (w ++ c :: z) with ((w ++ [c]) ++ z) by by rewrite <- app_assoc. apply take_app_length.
Qed.
Lemma trim_all set s : s <> [] -> Forall (fun c => none_of set c = true) s -> trim_set set s = Some s.
Proof.
  intros Hs H. destruct s as [|c s] using rev_ind; [done|]. apply Forall_app in H as [H Hc].
  apply Forall_cons in Hc as [Hc _]. unfold trim_set. rewrite rfind_if_app_r by done.
  assert (Hf : find_if (none_of set) (s ++ [c]) = Some 0%nat).
  { destruct s as [|d s]; cbn; [by rewrite Hc|]. apply Forall_cons in H as [Hd _]. by rewrite Hd. }
  rewrite Hf. f_equal. unfold substr. rewrite drop_0. apply take_ge. rewrite length_app. cbn. lia.
Qed.
Lemma none_of_sub set set' c : set ⊆ set' -> none_of set' c = true -> none_of set c = true.
Proof.
  unfold none_of. rewrite !negb_true_iff, <- !not_true_iff_false, !one_of_spec. intros H H1 H2. auto.
Qed.
Lemma segment_value name n v : tag_name n ->
  dkim_segment name (seg_text (n, v)) = if n =s name then Some (List.filter (none_of wsp) v) else None.
Proof.
  intros Hn. destruct (trim_seg n v Hn) as (m & z & -> & Hz & Ht). unfold dkim_segment. rewrite Ht.
  destruct (tag_none n Hn) as [Hw Hq].
  rewrite find_if_app_l by done. rewrite take_app_length.
  rewrite trim_all; [|apply Hn|].
  2:{ eapply Forall_impl; [exact Hw|]. intros c. apply none_of_sub. set_solver. }
  cbn [default]. rewrite List.filter_app, (filter_none _ z), app_nil_r by done.
  replace (drop (S (length n)) (n ++ "="%char :: m)) with m; [done|].
  change ("="%char :: m) with (["="%char] ++ m). rewrite app_assoc.
  replace (S (length n)) with (length (n ++ ["="%char])) by (rewrite length_app; cbn; lia).
  by rewrite drop_app_length.
Qed.
Fixpoint tag_value (name : bytes) (segs : list (bytes * bytes)) : bytes :=
  match segs with
  | [] => []
  | t :: segs => if t.1 =s name then List.filter (none_of wsp) t.2 else tag_value name segs
  end.
Lemma segments_value name segs : Forall (fun t => tag_name t.1) segs ->
  dkim_segments name (map seg_text segs) = tag_value name segs.
Proof.
  induction 1 as [|[n v] segs Hn _ IH]; [done|]. cbn [map dkim_segments tag_value fst snd].
  rewrite segment_value by done. by destruct (n =s name).
Qed.

(** * Where [b=] is *)

(** No [=] stands behind a [b]; [prev] says that the text before ends in one. *)
Fixpoint no_beq (prev : bool) (s : bytes) : bool :=
  match s with
  | [] => true
  | c :: r => negb (prev && (c =c "=")) && no_beq (c =c "b") r
  end.
Lemma no_beq_free prev x c y : free "=" x -> c <> "="%char -> no_beq prev (x ++ c :: y) = no_beq (c =c "b") y.
Proof.
  intros H Hc. revert prev. induction H as [|d x Hd _ IH]; intros prev; cbn [app no_beq].
  - apply Ascii.eqb_neq in Hc. by rewrite Hc, andb_false_r.
  - unfold is_c in Hd. by rewrite Hd, andb_false_r, IH.
Qed.
Lemma find_beq prev x r :
  no_beq prev (x ++ ["b"%char]) = true -> find_str (lit "b=") (x ++ lit "b=" ++ r) = Some (length x).
Proof.
  revert prev. induction x as [|c x IH]; intros prev H; [done|]. cbn [app no_beq] in H.
  apply andb_true_iff in H as [_ H]. specialize (IH _ H). cbn [app length].
  assert (Hs : starts_with (lit "b=") (c :: x ++ lit "b=" ++ r) = false).
  { apply not_true_is_false. intros [t E]%starts_with_spec. cbn in E. injection E as -> E.
    destruct x as [|d x]; [done|]. cbn in E. injection E as -> _. done. }
  cbn [find_str]. rewrite Hs, IH. done.
Qed.

(** * The header the server writes *)

Definition plain (c : ascii) : bool := none_of (lit ";=" ++ wsp) c.
Definition plain_text (s : bytes) : Prop := Forall (fun c => plain c = true) s.
Lemma plain_free s c : plain_text s -> plain c = false -> free c s.
Proof. intros H Hc. by eapply free_all. Qed.
Lemma plain_wsp s : plain_text s -> List.filter (none_of wsp) s = s.
Proof.
  intros H. apply filter_all. eapply Forall_impl; [exact H|]. intros c. apply none_of_sub. set_solver.
Qed.
Lemma digit_plain c : negb (isdigit c) || plain c = true.
Proof. by_chars c. Qed.
Lemma int_plain z : plain_text (Value.int_to_string z).
Proof.
  assert (H : forall n, 0 <= n -> plain_text (decimal n)).
  { intros n Hn. pose proof (dec_go_digits 20 n [] eq_refl Hn) as H. fold (decimal n) in H.
    rewrite forallb_forall in H. apply Forall_forall. intros c Hc%list_elem_of_In%H.
    pose proof (digit_plain c) as Hp. by rewrite Hc in Hp. }
  unfold Value.int_to_string. destruct (z <? 0) eqn:E; bool_to_prop; [constructor; [done|]|]; apply H; lia.
Qed.
Lemma b64_wsp c : negb (b64_text c) || none_of wsp c = true.
Proof. by_chars c. Qed.
Lemma base64_wsp s : Forall (fun c => b64_text c = true) s -> Forall (fun c => none_of wsp c = true) s.
Proof. intros H. eapply Forall_impl; [exact H|]. intros c Hc. pose proof (b64_wsp c) as Hw. by rewrite Hc in Hw. Qed.

Section Header.
Context (domain selector tags bh : bytes) (now : Z) (cs : list bytes).
Let segs : list (bytes * bytes) :=
  [(lit "v", lit "1"); (lit "a", lit "rsa-sha256"); (lit "c", lit "relaxed/relaxed"); (lit "d", domain);
   (lit "s", selector); (lit "t", Value.int_to_string now); (lit "h", tags); (lit "bh", bh);
   (lit "b", join (CRLF ++ [TAB]) cs)].

Lemma header_text :
  lit " " ++ dkim_hdr domain selector tags bh now ++ join (CRLF ++ [TAB]) cs = join [";"%char] (map seg_text segs).
Proof.
  unfold dkim_hdr, seg_text. cbn [map join segs fst snd]. do 4 (cbn; rewrite <- ?app_assoc). repeat f_equal. cbn. by rewrite <- app_assoc.
Qed.

(** What [dkim_sign] puts into it *)
Context (Hd : plain_text domain) (Hs : plain_text selector) (Ht : plain_text tags).
Context (Hbh : Forall (fun c => b64_text c = true) bh).
Context (Hbh2 : exists x c, bh = x ++ [c; "="%char] /\ free "=" x /\ c <> "="%char /\ c <> "b"%char).
Context (Hcs : Forall (Forall (fun c => b64_text c = true)) cs).

Let hdr : bytes := lit "DKIM-Signature:" ++ join [";"%char] (map seg_text segs).

Lemma header_tags name : dkim_tag hdr name = tag_value name segs.
Proof.
  unfold dkim_tag. change (find_if (is_c ":") hdr) with (Some 14%nat). cbn iota beta.
  change (drop 15 hdr) with (join [";"%char] (map seg_text segs)).
  rewrite split_on_join; [|done|].
  - apply segments_value. repeat (constructor; [split; [done|repeat constructor]|]). constructor.
  - assert (Hseg : forall n v, free ";" n -> free ";" v -> free ";" (seg_text (n, v))).
    { intros n v Hn Hv. unfold seg_text. constructor; [done|]. apply free_app. split; [done|]. by constructor. }
    assert (Hc : forall s, plain_text s -> free ";" s) by (intros s H; by apply plain_free).
    cbn [map segs].
    repeat (constructor; [apply Hseg; [by repeat constructor|
      first [by repeat constructor|by apply Hc|apply Hc, int_plain|by eapply free_all|idtac]]|]); [|constructor].
    apply Forall_join; [repeat constructor|]. eapply Forall_impl; [exact Hcs|]. intros s H. by eapply free_all.
Qed.

Lemma header_first : hdr = lit "DKIM-Signature: " ++ dkim_hdr domain selector tags bh now ++ join (CRLF ++ [TAB]) cs.
Proof. unfold hdr. by rewrite <- header_text. Qed.

Let before_b : bytes :=
  lit "DKIM-Signature: v=1; a=rsa-sha256; c=relaxed/relaxed; d=" ++ domain ++ lit "; s=" ++ selector
  ++ lit "; t=" ++ Value.int_to_string now ++ lit "; h=" ++ tags ++ lit "; bh=" ++ bh ++ lit "; ".
Lemma header_before : lit "DKIM-Signature: " ++ dkim_hdr domain selector tags bh now = before_b ++ lit "b=".
Proof. unfold before_b, dkim_hdr. do 8 (cbn; rewrite <- ?app_assoc). done. Qed.

Lemma header_no_beq : no_beq false (before_b ++ ["b"%char]) = true.
Proof.
  destruct Hbh2 as (x & c & -> & Hx & Hc1 & Hc2). unfold before_b. rewrite <- !app_assoc.
  assert (Hp : forall s, plain_text s -> free "=" s) by (intros s H; by apply plain_free).
  pose proof (Hp _ Hd). pose proof (Hp _ Hs). pose proof (Hp _ Ht). pose proof (Hp _ (int_plain now)).
  assert (Hb : (c =c "b") = false) by by apply Ascii.eqb_neq.
  repeat (cbn -[no_beq]; cbn [no_beq]; first [rewrite no_beq_free by done | progress cbn]); rewrite ?Hb; done.
Qed.
Lemma header_strip : strip_b hdr = lit "DKIM-Signature: " ++ dkim_hdr domain selector tags bh now.
Proof.
  rewrite header_first, app_assoc, header_before, <- app_assoc. unfold strip_b.
  rewrite (find_beq false) by apply header_no_beq.
  replace (length before_b + 2)%nat with (length (before_b ++ lit "b=")) by (rewrite length_app; done).
  rewrite app_assoc, take_app_length. unfold find_from. rewrite drop_app_length.
  rewrite (proj2 (find_if_None _ _)); [by rewrite app_nil_r|].
  apply Forall_join; [by repeat constructor|]. eapply Forall_impl; [exact Hcs|]. intros s H. by eapply free_all.
Qed.

End Header.

(** * Messages *)

Definition line (h : DkimHeader) : bytes := hname h ++ ":"%char :: hvalue h.
Definition name_char (c : ascii) : bool := plain c && negb (is_c ":" c).
Definition header_ok (h : DkimHeader) : Prop :=
  hname h <> [] /\ Forall (fun c => name_char c = true) (hname h) /\ free LF (hvalue h) /\ free CR (hvalue h).
(** The lines behind a header, and that its name is not in front of a colon
    in its own value or behind it *)
Definition behind (hs : list DkimHeader) : bytes :=
  match hs with [] => [] | _ => CRLF ++ join CRLF (map line hs) end.
Fixpoint findable (hs : list DkimHeader) : Prop :=
  match hs with
  | [] => True
  | h :: r => find_str (lower (hname h) ++ [":"%char]) (lower (hvalue h ++ behind r)) = None /\ findable r
  end.

Lemma lower_app s t : lower (s ++ t) = lower s ++ lower t.
Proof. apply map_app. Qed.
Lemma name_plain h : header_ok h -> plain_text (hname h) /\ free ":" (hname h).
Proof.
  intros (_ & H & _). split; eapply Forall_impl; try exact H; intros c [H1 H2]%andb_true_iff; [done|by apply negb_true_iff].
Qed.
Lemma name_char_lower c : negb (name_char c) || name_char (tolower c) = true.
Proof. by_chars c. Qed.
Lemma name_lower h : header_ok h -> plain_text (lower (hname h)) /\ free ":" (lower (hname h)).
Proof.
  intros (_ & H & _).
  assert (Hl : Forall (fun c => name_char c = true) (lower (hname h))).
  { apply Forall_map. eapply Forall_impl; [exact H|]. intros c Hc.
    pose proof (name_char_lower c) as Hn. by rewrite Hc in Hn. }
  split; eapply Forall_impl; try exact Hl; intros c [H1 H2]%andb_true_iff; [done|by apply negb_true_iff].
Qed.
Lemma head_line_ok h : header_ok h -> line h <> [] /\ free LF (line h).
Proof.
  intros H. pose proof (name_plain h H) as [Hp _]. destruct H as (Hn & _ & Hv & _). unfold line. split.
  - by destruct (hname h).
  - apply free_app. split; [by apply plain_free|]. by constructor.
Qed.
Lemma line_no_blank h s : header_ok h -> no_blank_first (line h ++ s).
Proof.
  intros H. pose proof (name_plain h H) as [Hp _]. destruct H as (Hn & _). unfold line.
  destruct (hname h) as [|c n]; [done|]. apply Forall_cons in Hp as [Hc _]. cbn -[one_of].
  assert (Hx : negb (plain c) || negb (one_of sp_tab c) = true) by by_chars c.
  rewrite Hc in Hx. by apply negb_true_iff in Hx.
Qed.
Lemma join_lines h r : join CRLF (map line (h :: r)) = line h ++ behind r.
Proof. by destruct r; [cbn; rewrite app_nil_r|]. Qed.

(** ** The last place of a name *)

Lemma rfind_at_last t s p pos :
  (p <= pos)%nat -> starts_with t (drop p s) = true ->
  (forall q, (p < q)%nat -> starts_with t (drop q s) = false) -> rfind_at t s pos = Some p.
Proof.
  intros Hp Ht H. induction pos as [|pos IH]; cbn [rfind_at].
  - replace 0%nat with p by lia. by rewrite Ht.
  - destruct (decide (p = S pos)) as [<-|]; [by rewrite Ht|]. rewrite H by lia. apply IH. lia.
Qed.
Lemma last_place w x q :
  free ":" w -> find_str (w ++ [":"%char]) x = None -> (0 < q)%nat ->
  starts_with (w ++ [":"%char]) (drop q (w ++ ":"%char :: x)) = false.
Proof.
  intros Hw Hx Hq. apply not_true_is_false. intros [y E]%starts_with_spec. rewrite <- app_assoc in E. cbn [app] in E.
  destruct (decide (q <= length w)%nat) as [Hle|Hgt].
  - rewrite drop_app_le in E by done. apply (f_equal (find_if (is_c ":"))) in E.
    rewrite !find_if_app_l in E by (done || by apply Forall_drop). injection E as E.
    rewrite length_drop in E. lia.
  - rewrite drop_app_ge in E by lia. replace (q - length w)%nat with (S (q - length w - 1)) in E by lia.
    cbn [drop] in E. eapply (find_str_None _ _ (take (q - length w - 1) x) y) in Hx. apply Hx.
    rewrite <- app_assoc. cbn [app]. rewrite <- E. by rewrite take_drop.
Qed.
Lemma signed_header_found a h r m :
  header_ok h -> Forall header_ok r ->
  find_str (lower (hname h) ++ [":"%char]) (lower (hvalue h ++ behind r)) = None ->
  m !! lower (hname h) = None ->
  signed_header (a ++ line h ++ behind r) (lower (hname h)) m = Some (length a, hvalue h).
Proof.
  intros Hh Hr Hf Hm. unfold signed_header. rewrite Hm. cbn [default].
  set (block := a ++ line h ++ behind r). set (n := hname h) in *.
  assert (Hlen : (length a < length block)%nat).
  { unfold block, line. rewrite !length_app. cbn [length]. lia. }
  assert (Hb : lower block = lower a ++ lower n ++ ":"%char :: lower (hvalue h ++ behind r)).
  { unfold block, line. rewrite !lower_app. fold n. cbn [lower map app]. unfold lower at 4. cbn [map app].
    rewrite <- !app_assoc. cbn [app]. done. }
  assert (Hla : length (lower a) = length a) by apply length_map.
  rewrite (rfind_at_last _ _ (length a)).
  - cbn [mbind option_bind]. f_equal. f_equal. unfold n at 1, lower. rewrite length_map.
    destruct r as [|g r].
    + unfold block. cbn [behind]. rewrite app_nil_r, header_end_last by by apply head_line_ok. cbn [upto].
      unfold line. rewrite <- drop_drop, <- drop_drop, drop_app_length, drop_app_length. done.
    + apply Forall_cons in Hr as [Hg _].
      pose proof (header_end_lines (S (length block)) a [line h] (join CRLF (map line (g :: r)))) as He.
      unfold block in *. cbn [behind] in *. cbn [join] in He. rewrite He.
      * cbn [upto]. unfold substr, line. rewrite <- drop_drop, <- drop_drop, drop_app_length, <- app_assoc, drop_app_length.
        cbn [drop app]. replace (_ - _)%nat with (length (hvalue h)) by (rewrite length_app; cbn [length]; lia).
        apply take_app_length.
      * split; [|done]. constructor; [by apply head_line_ok|done].
      * rewrite join_lines. by apply line_no_blank.
      * cbn [length]. lia.
  - lia.
  - rewrite Hb, <- Hla, drop_app_length. apply starts_with_spec. eexists. by rewrite <- app_assoc.
  - intros q Hq. rewrite Hb. replace q with (length (lower a) + (q - length a))%nat by lia.
    rewrite <- drop_drop, drop_app_length. apply last_place; [by apply name_lower|done|lia].
Qed.

(** ** All the headers *)

Lemma findable_later h r g : findable (h :: r) -> g ∈ r -> lower (hname g) <> lower (hname h).
Proof.
  intros [Hf _] [r1 [r2 ->]]%list_elem_of_split E.
  assert (Hx : exists x y, behind (r1 ++ g :: r2) = x ++ hname g ++ ":"%char :: y).
  { assert (Hj : forall ls, exists x y, join CRLF (map line (ls ++ g :: r2)) = x ++ hname g ++ ":"%char :: y).
    { induction ls as [|l ls (x & y & IH)].
      - exists [], (hvalue g ++ behind r2). cbn [app]. rewrite join_lines. unfold line. by rewrite <- app_assoc.
      - exists (line l ++ CRLF ++ x), y. cbn [app]. rewrite join_lines.
        replace (behind (ls ++ g :: r2)) with (CRLF ++ join CRLF (map line (ls ++ g :: r2))) by by destruct ls.
        rewrite IH. by rewrite <- !app_assoc. }
    destruct (Hj r1) as (x & y & Hxy). exists (CRLF ++ x), y.
    replace (behind (r1 ++ g :: r2)) with (CRLF ++ join CRLF (map line (r1 ++ g :: r2))) by by destruct r1.
    by rewrite Hxy, <- app_assoc. }
  destruct Hx as (x & y & Hx). rewrite Hx in Hf.
  apply (find_str_None _ _ (lower (hvalue h) ++ lower x) (lower y)) in Hf. apply Hf.
  rewrite !lower_app, <- E, <- !app_assoc. done.
Qed.
Lemma signed_headers_all a hs m :
  hs <> [] -> Forall header_ok hs -> findable hs -> Forall (fun h => m !! lower (hname h) = None) hs ->
  signed_headers (a ++ join CRLF (map line hs)) (map (fun h => lower (hname h)) hs) m =
  concat (map (fun h => canon_header_relaxed (hname h) (hvalue h) ++ CRLF) hs).
Proof.
  revert a m. induction hs as [|h r IH]; intros a m Hne Hok Hf Hm; [done|].
  apply Forall_cons in Hok as [Hh Hr]. apply Forall_cons in Hm as [Hmh Hm]. pose proof Hf as [Hf1 Hf2].
  rewrite join_lines. cbn [map signed_headers concat]. rewrite signed_header_found by done.
  rewrite canon_lower, <- app_assoc. do 2 f_equal.
  destruct r as [|g r]; [by cbn|].
  replace (a ++ line h ++ behind (g :: r)) with ((a ++ line h ++ CRLF) ++ join CRLF (map line (g :: r)))
    by (by rewrite <- !app_assoc).
  apply IH; [done|done|done|]. apply Forall_forall. intros x Hx. rewrite lookup_insert_ne.
  - rewrite Forall_forall in Hm. auto.
  - intros E. by apply (findable_later h (g :: r) x).
Qed.

(** * The headers the server signs *)

Definition ltrim (s : bytes) : bytes := match find_if (none_of sp_tab) s with Some b => drop b s | None => [] end.
Definition trimmed (h : DkimHeader) : DkimHeader := MkHdr (hname h) (ltrim (hvalue h)).

Lemma ltrim_split v : exists a, Forall (fun c => one_of sp_tab c = true) a /\ v = a ++ ltrim v.
Proof.
  unfold ltrim. destruct (find_if _ v) as [i|] eqn:E.
  - exists (take i v). split; [|by rewrite take_drop]. apply find_if_split in E as (_ & _ & _ & H).
    eapply Forall_impl; [exact H|]. intros c. unfold none_of. apply negb_false_iff.
  - exists v. rewrite app_nil_r. split; [|done]. apply find_if_None in E.
    eapply Forall_impl; [exact E|]. intros c. unfold none_of. apply negb_false_iff.
Qed.
Lemma canon_ltrim n v : free LF v -> canon_header_relaxed n (ltrim v) = canon_header_relaxed n v.
Proof.
  intros H. destruct (ltrim_split v) as (a & Ha & E). rewrite E at 2. rewrite canon_blanks; [done..|]. by rewrite <- E.
Qed.
Lemma signed_trimmed hs v : Forall header_ok hs ->
  signed_data (map trimmed hs) v = signed_data hs v.
Proof.
  intros H. unfold signed_data. f_equal. f_equal. rewrite map_map.
  induction H as [|h hs (_ & _ & Hv & _) _ IH]; [done|]. cbn [map trimmed hname hvalue]. rewrite canon_ltrim by done. f_equal. exact IH.
Qed.

Lemma last_app_ne {A} (s t : list A) : t <> [] -> last (s ++ t) = last t.
Proof. destruct t as [|c t] using rev_ind; [done|]. intros _. by rewrite app_assoc, !last_snoc. Qed.
Lemma header_of_ok h cr : header_ok h -> cr = [] \/ cr = [CR] -> header_of_line (line h ++ cr) = Some (trimmed h).
Proof.
  intros H Hcr. pose proof (name_plain h H) as [_ Hn]. destruct H as (Hne & Hc & _ & Hv).
  unfold header_of_line.
  assert (E : match last (line h ++ cr) with
              | Some c => if c =c CR then removelast (line h ++ cr) else line h ++ cr
              | None => line h ++ cr end = line h).
  { destruct Hcr as [->| ->].
    - rewrite app_nil_r. unfold line. rewrite last_app_ne by done.
      destruct (hvalue h) as [|c v] using rev_ind; [done|].
      change (":"%char :: v ++ [c]) with ((":"%char :: v) ++ [c]). rewrite last_snoc.
      apply free_app in Hv as [_ [Hc' _]%free_cons]. by apply Ascii.eqb_neq in Hc' as ->.
    - rewrite last_snoc. change (CR =c CR) with true. cbn iota. apply removelast_last. }
  rewrite E. unfold line. rewrite find_if_app_l by done. cbn [mbind option_bind].
  rewrite take_app_length. replace (drop (S (length (hname h))) (hname h ++ ":"%char :: hvalue h)) with (hvalue h); [done|].
  replace (hname h ++ ":"%char :: hvalue h) with ((hname h ++ [":"%char]) ++ hvalue h) by by rewrite <- app_assoc.
  replace (S (length (hname h))) with (length (hname h ++ [":"%char])) by (rewrite length_app; cbn; lia).
  by rewrite drop_app_length.
Qed.
Lemma omap_getline {A} (f : bytes -> option A) d s : f [] = None -> omap f (getline_all d s) = omap f (split_on (is_c d) s).
Proof.
  intros Hf. unfold getline_all. set (ls := split_on _ s). destruct (last ls) as [[|c l]|] eqn:E; [|done..].
  destruct ls as [|x l] using rev_ind; [done|]. rewrite last_snoc in E. injection E as ->.
  rewrite removelast_last, omap_app. cbn. by rewrite Hf, app_nil_r.
Qed.
Lemma getline_pieces d s : Forall (fun l => l <> []) (split_on (is_c d) s) -> getline_all d s = split_on (is_c d) s.
Proof.
  intros H. unfold getline_all. destruct (last _) as [[|c l]|] eqn:E; [|done..].
  apply last_Some_elem_of in E. rewrite Forall_forall in H. by apply H in E.
Qed.
Lemma headers_to_sign_all hs : hs <> [] -> Forall header_ok hs ->
  headers_to_sign (join CRLF (map line hs)) = map trimmed hs.
Proof.
  unfold headers_to_sign. rewrite omap_getline by done.
  induction hs as [|h r IH]; intros Hne H; [done|]. apply Forall_cons in H as [Hh Hr]. rewrite join_lines.
  destruct (head_line_ok h Hh) as [_ Hl]. destruct r as [|g r].
  - cbn [behind]. rewrite split_on_no; [cbn [omap list_omap]; by rewrite (header_of_ok h []) by auto|]. by rewrite app_nil_r.
  - cbn [behind]. replace (line h ++ CRLF ++ join CRLF (map line (g :: r)))
      with ((line h ++ [CR]) ++ LF :: join CRLF (map line (g :: r))) by by rewrite <- app_assoc.
    rewrite split_on_app; [|apply Forall_app; split; [done|by repeat constructor]|done].
    cbn [omap list_omap]. rewrite header_of_ok by auto. cbn [map]. f_equal. by apply IH.
Qed.

(** * A signature in front of a message *)

Definition mail_text (hs : list DkimHeader) (body : bytes) : bytes := crlf_lines (map line hs) ++ CRLF ++ body.

Lemma crlf_lines_length ls : (length ls <= length (crlf_lines ls))%nat.
Proof. induction ls as [|l ls IH]; [done|]. rewrite Http.crlf_lines_cons, !length_app. cbn [length CRLF]. lia. Qed.
Lemma join_snoc ls l : crlf_lines ls ++ l = join CRLF (ls ++ [l]).
Proof.
  induction ls as [|k ls IH]; [done|]. rewrite Http.crlf_lines_cons, <- !app_assoc, IH. by destruct ls.
Qed.
Lemma join_front ls ks : ks <> [] -> join CRLF (ls ++ ks) = crlf_lines ls ++ join CRLF ks.
Proof.
  intros H. induction ls as [|k ls IH]; [done|]. rewrite Http.crlf_lines_cons, <- !app_assoc, <- IH.
  destruct ls; [by destruct ks|done].
Qed.
Lemma headers_body ls body : ls <> [] -> lines_ok ls ->
  headers_of (crlf_lines ls ++ CRLF ++ body) = join CRLF ls /\ body_of (crlf_lines ls ++ CRLF ++ body) = body.
Proof.
  intros Hne H. destruct ls as [|l ls _] using rev_ind; [done|].
  split; [rewrite headers_of_lines by done; apply join_snoc|by apply body_of_lines].
Qed.
Lemma signature_header_first t ls r :
  header_lines ((lit "DKIM-Signature:" ++ t) :: ls) -> no_blank_first r ->
  signature_header (join CRLF ((lit "DKIM-Signature:" ++ t) :: ls) ++ CRLF ++ r)
  = Some (join CRLF ((lit "DKIM-Signature:" ++ t) :: ls)).
Proof.
  intros H Hr. set (l := lit "DKIM-Signature:" ++ t) in *. unfold signature_header.
  assert (E : exists u, join CRLF (l :: ls) ++ CRLF ++ r = lit "DKIM-Signature:" ++ u).
  { unfold l. destruct ls; cbn [join]; rewrite <- !app_assoc; by eexists. }
  assert (Hf : find_str (lit "DKIM-Signature:") (join CRLF (l :: ls) ++ CRLF ++ r) = Some 0%nat)
    by (destruct E as [u ->]; apply Web.find_str_here).
  rewrite Hf. cbn [mbind option_bind]. f_equal.
  pose proof (header_end_lines (S (length (join CRLF (l :: ls) ++ CRLF ++ r))) [] (l :: ls) r H Hr) as He.
  cbn [app length Nat.add] in He. rewrite He.
  2:{ pose proof (crlf_lines_length (l :: ls)) as Hn. rewrite <- join_crlf_lines, length_app in Hn by done.
      rewrite !length_app. cbn [length] in Hn |- *. lia. }
  cbn [upto]. unfold substr. rewrite drop_0, Nat.sub_0_r. apply take_app_length.
Qed.

(** ** The sender *)

Lemma from_not_in l y : free LF l -> blank_first y ->
  find_str (CRLF ++ lit "From:") (l ++ CRLF ++ y) =
  (fun i => (length l + 2 + i)%nat) <$> find_str (CRLF ++ lit "From:") y.
Proof.
  intros Hl (c & u & -> & Hc). rewrite app_assoc, find_str_skip.
  - rewrite length_app. done.
  - intros a b E Hb. apply not_true_is_false. intros [z Ez]%starts_with_spec. rewrite <- app_assoc in Ez.
    destruct (decide (length a < length l)%nat) as [Hlt|Hge].
    + assert (Eb : b = drop (length a) l ++ CRLF).
      { rewrite <- (drop_app_length a b), <- E, drop_app_le by lia. done. }
      rewrite Eb, <- app_assoc in Ez. eapply eq_true_false_abs; [|apply (crlf_not_in (drop (length a) l))].
      * rewrite Ez. apply (starts_with_app CRLF).
      * rewrite <- (take_drop (length a) l) in Hl. by eapply free_tail.
      * intros En. apply (f_equal length) in En. rewrite length_drop in En. cbn in En. lia.
      * done.
    + assert (Eb : b = drop (length a - length l) CRLF).
      { rewrite <- (drop_app_length a b), <- E, drop_app_ge by lia. done. }
      destruct (length a - length l)%nat as [|[|k]]; cbn in Eb; rewrite ?drop_nil in Eb; subst b; [|done..].
      cbn in Ez. injection Ez as -> _. done.
Qed.
Lemma from_skip ls y : header_lines ls ->
  find_str (CRLF ++ lit "From:") (join CRLF ls ++ CRLF ++ y) =
  (fun i => (length (join CRLF ls) + i)%nat) <$> find_str (CRLF ++ lit "From:") (CRLF ++ y).
Proof.
  induction ls as [|l [|m ls] IH]; intros H; [done|..]; destruct H as [[Hl H]%Forall_cons Hb].
  - cbn [join]. apply find_str_skip. intros a b -> Hx. apply not_true_is_false. intros [z Ez]%starts_with_spec.
    rewrite <- app_assoc in Ez. eapply eq_true_false_abs; [|apply (crlf_not_in b (CRLF ++ y))].
    + rewrite Ez. apply (starts_with_app CRLF).
    + by eapply free_tail.
    + done.
    + done.
  - rewrite join_cons, <- !app_assoc. apply Forall_cons in Hb as [Hm Hb]. rewrite from_not_in, IH; [|by split|done|].
    + rewrite <- option_fmap_compose. destruct (find_str _ (CRLF ++ y)); [|done]. cbn [fmap option_fmap option_map]. unfold compose. f_equal.
      rewrite !length_app. change (length CRLF) with 2%nat. lia.
    + destruct Hm as (c & t & -> & Hc). exists c. destruct ls; by eexists.
Qed.
Lemma find_from_pre p x s k : find_from p (x ++ s) (length x + k) = (fun i => (length x + i)%nat) <$> find_from p s k.
Proof.
  unfold find_from. rewrite <- drop_drop, drop_app_length. destruct (find_if p (drop k s)); [|done]. cbn. f_equal. lia.
Qed.
Lemma from_domain_skip ls y : header_lines ls -> is_Some (find_str (CRLF ++ lit "From:") (CRLF ++ y)) ->
  from_domain (join CRLF ls ++ CRLF ++ y) = from_domain (CRLF ++ y).
Proof.
  intros H [p Hp]. unfold from_domain. rewrite from_skip, Hp by done. cbn [fmap option_fmap option_map mbind option_bind].
  set (x := join CRLF ls). rewrite find_from_pre. destruct (find_from (is_c "@") (CRLF ++ y) p) as [a|]; [|done].
  cbn [fmap option_fmap option_map mbind option_bind]. f_equal. replace (S (length x + a))%nat with (length x + S a)%nat by lia.
  rewrite find_from_pre. destruct (find_from _ (CRLF ++ y) (S a)) as [e|]; cbn [fmap option_fmap option_map upto]; unfold substr;
    rewrite <- drop_drop, drop_app_length; [f_equal; lia|done].
Qed.

(** * What the server signs, its check accepts *)

Section OpenSSL.
Context {Key : Type} (SHA256 : bytes -> bytes).
Context (rsa_sha256_sign : bytes -> bytes -> option bytes).
Context (pem_read_pubkey : bytes -> option Key) (digest_verify : Key -> bytes -> bytes -> bool).
Context (bio_b64_decode : bytes -> option bytes).
Context (dns_txt_lookup : bytes -> option (list bytes)).

(** What the library promises, for a private key and the public key of it *)
Record openssl_ok (private_pem public_pem : bytes) : Prop := {
  sha_length : forall s, length (SHA256 s) = 32%nat;
  b64_of_bio : forall s, s <> [] -> bio_b64_decode (base64_encode s) = Some s;
  key_pair : exists pkey, pem_read_pubkey public_pem = Some pkey /\
    forall d, exists sig, rsa_sha256_sign d private_pem = Some sig /\ sig <> [] /\ digest_verify pkey d sig = true }.

Lemma body_hash_text body (Hl : forall s, length (SHA256 s) = 32%nat) :
  Forall (fun c => b64_text c = true) (body_hash SHA256 body) /\ body_hash SHA256 body <> [] /\
  exists x c, body_hash SHA256 body = x ++ [c; "="%char] /\ free "=" x /\ c <> "="%char /\ c <> "b"%char.
Proof.
  unfold body_hash. set (h := SHA256 _). split; [apply base64_text|]. split.
  - apply base64_cons. intros E. pose proof (Hl (canon_body_relaxed body)) as H. fold h in H. by rewrite E in H.
  - by apply (base64_two 10), Hl.
Qed.
Lemma h_tag_text hs : hs <> [] -> Forall header_ok hs ->
  plain_text (h_tag hs) /\ getline_all ":" (h_tag hs) = map (fun h => lower (hname h)) hs.
Proof.
  intros Hne H. unfold h_tag.
  assert (Hs : split_on (is_c ":") (join [":"%char] (map (fun h => lower (hname h)) hs)) = map (fun h => lower (hname h)) hs).
  { apply split_on_join; [by destruct hs|]. apply Forall_map. eapply Forall_impl; [exact H|]. intros h Hh. by apply name_lower. }
  split.
  - apply Forall_join; [by repeat constructor|]. apply Forall_map. eapply Forall_impl; [exact H|]. intros h Hh. by apply name_lower.
  - rewrite getline_pieces; rewrite Hs; [done|]. apply Forall_map. eapply Forall_impl; [exact H|].
    intros h (Hn & _). cbn. by destruct (hname h).
Qed.
Lemma h_tag_trimmed hs : h_tag (map trimmed hs) = h_tag hs.
Proof. unfold h_tag. by rewrite map_map. Qed.

(** The pieces of the signature are lines of a header. *)
Lemma header_is_lines domain selector tags bh now c cs :
  plain_text domain -> plain_text selector -> plain_text tags -> Forall (fun c => b64_text c = true) bh ->
  Forall (Forall (fun c => b64_text c = true)) (c :: cs) ->
  header_lines ((lit "DKIM-Signature: " ++ dkim_hdr domain selector tags bh now ++ c) :: map (cons TAB) cs).
Proof.
  intros Hd Hs Ht Hb Hc. assert (Hp : forall s, plain_text s -> free LF s) by (intros s H; by apply plain_free).
  assert (Hq : forall s, Forall (fun c => b64_text c = true) s -> free LF s) by (intros s H; by eapply free_all).
  apply Forall_cons in Hc as [Hc Hcs]. split.
  - constructor.
    + unfold dkim_hdr. rewrite !free_app. repeat split; try (by repeat constructor); auto using int_plain.
    + apply Forall_map. eapply Forall_impl; [exact Hcs|]. intros s H. constructor; [done|]. by apply Hq.
  - apply Forall_map. eapply Forall_impl; [exact Hcs|]. intros s H. by exists TAB, s.
Qed.

(** The header of a signature in front of a message, as the check reads it *)
Section Signed.
Context (domain selector bh : bytes) (now : Z) (c : bytes) (cs : list bytes) (hs : list DkimHeader) (body : bytes).
Context (Hdom : plain_text domain) (Hsel : plain_text selector).
Context (Hbh : Forall (fun c => b64_text c = true) bh).
Context (Hbh2 : exists x c, bh = x ++ [c; "="%char] /\ free "=" x /\ c <> "="%char /\ c <> "b"%char).
Context (Hcs : Forall (Forall (fun c => b64_text c = true)) (c :: cs)).
Context (Hne : hs <> []) (Hok : Forall header_ok hs).

Let pre : bytes := lit "DKIM-Signature: " ++ dkim_hdr domain selector (h_tag hs) bh now.
Let hdr : bytes := pre ++ join (CRLF ++ [TAB]) (c :: cs).
Let sl : list bytes := (pre ++ c) :: map (cons TAB) cs.
Let raw : bytes := hdr ++ CRLF ++ mail_text hs body.

Lemma tags_ok : plain_text (h_tag hs).
Proof. by apply h_tag_text. Qed.
Lemma hdr_lines : hdr = join CRLF sl.
Proof.
  unfold hdr. rewrite join_tab. unfold sl. generalize cs as l. intros [|d l]; [done|]. cbn [map].
  by rewrite !join_cons, <- app_assoc.
Qed.
Lemma sl_lines : header_lines sl.
Proof. unfold sl, pre. rewrite <- app_assoc. apply header_is_lines; auto using tags_ok. Qed.
Lemma all_lines_ok : lines_ok (sl ++ map line hs).
Proof.
  pose proof sl_lines as [H1 H2]. apply Forall_app. split.
  - unfold sl in *. apply Forall_cons in H1 as [H1 H3]. constructor; [by split|].
    rewrite Forall_forall in H2, H3 |- *. intros l Hl. split; [|auto]. by destruct (H2 l Hl) as (? & ? & -> & _).
  - apply Forall_map. eapply Forall_impl; [exact Hok|]. intros h. apply head_line_ok.
Qed.
Lemma raw_lines : raw = crlf_lines (sl ++ map line hs) ++ CRLF ++ body.
Proof.
  unfold raw, mail_text. rewrite hdr_lines, Http.crlf_lines_app, <- !app_assoc.
  rewrite <- (join_crlf_lines sl) by done. by rewrite <- app_assoc.
Qed.
Lemma raw_header : signature_header raw = Some hdr.
Proof.
  unfold raw. rewrite hdr_lines. pose proof sl_lines as H. unfold sl, pre in *. rewrite <- !app_assoc in *.
  change (lit "DKIM-Signature: ") with (lit "DKIM-Signature:" ++ [SP]) in *. rewrite <- !app_assoc in *.
  apply signature_header_first; [done|]. unfold mail_text. destruct hs as [|h r]; [done|].
  apply Forall_cons in Hok as [Hh _]. cbn [map]. rewrite Http.crlf_lines_cons, <- !app_assoc. by apply line_no_blank.
Qed.
Lemma raw_parts : headers_of raw = crlf_lines sl ++ join CRLF (map line hs) /\ body_of raw = body.
Proof.
  rewrite raw_lines. destruct (headers_body (sl ++ map line hs) body) as [H1 H2]; [done|apply all_lines_ok|].
  split; [|done]. rewrite H1. apply join_front. by destruct hs.
Qed.
Lemma raw_tag name : dkim_tag hdr name = tag_value name
  [(lit "v", lit "1"); (lit "a", lit "rsa-sha256"); (lit "c", lit "relaxed/relaxed"); (lit "d", domain);
   (lit "s", selector); (lit "t", Value.int_to_string now); (lit "h", h_tag hs); (lit "bh", bh);
   (lit "b", join (CRLF ++ [TAB]) (c :: cs))].
Proof.
  unfold hdr, pre. rewrite <- app_assoc, <- header_first. apply header_tags; auto using tags_ok.
Qed.
Lemma raw_signature : List.filter (none_of wsp) (join (CRLF ++ [TAB]) (c :: cs)) = concat (c :: cs).
Proof.
  apply filter_join; [by repeat constructor|]. eapply Forall_impl; [exact Hcs|]. intros s. apply base64_wsp.
Qed.
Context (Hf : findable hs).
Lemma raw_data : data_to_verify raw hdr = signed_data hs (dkim_hdr domain selector (h_tag hs) bh now).
Proof.
  assert (Hs : strip_b hdr = pre).
  { unfold hdr, pre. rewrite <- app_assoc, <- header_first. apply header_strip; auto using tags_ok. }
  unfold data_to_verify, signed_data. rewrite Hs, (proj1 raw_parts), raw_tag.
  change (tag_value (lit "h") _) with (List.filter (none_of wsp) (h_tag hs)).
  destruct (h_tag_text hs Hne Hok) as [Ht Hg]. rewrite plain_wsp, Hg by done.
  rewrite map_map, (map_ext (fun h => lower (lower (hname h))) (fun h => lower (hname h))) by (intros h; apply lower_lower).
  rewrite signed_headers_all by (done || apply Forall_forall; intros; apply lookup_empty).
  apply (f_equal (app _)).
  unfold pre. change (find_if (is_c ":") _) with (Some 14%nat). cbn iota.
  change (drop 15 _) with ([SP] ++ dkim_hdr domain selector (h_tag hs) bh now).
  apply canon_blanks; [by repeat constructor|]. pose proof sl_lines as [[Hl _]%Forall_cons _].
  unfold pre in Hl. rewrite <- app_assoc in Hl.
  change (lit "DKIM-Signature: ") with (lit "DKIM-Signature:" ++ [SP]) in Hl. rewrite <- app_assoc in Hl.
  apply free_app in Hl as [_ Hl]. rewrite app_assoc in Hl. by apply free_app in Hl as [Hl _].
Qed.

End Signed.

Lemma sign_then_verify now hs body domain selector private public :
  openssl_ok private public -> public <> [] ->
  domain <> [] -> plain_text domain -> selector <> [] -> plain_text selector ->
  hs <> [] -> Forall header_ok hs -> findable hs ->
  is_Some (find_str (CRLF ++ lit "From:") (CRLF ++ mail_text hs body)) ->
  from_aligned (CRLF ++ mail_text hs body) domain = true ->
  exists sig, dkim_sign SHA256 rsa_sha256_sign now (map trimmed hs) body domain selector private = Some sig /\
    let raw := sig ++ CRLF ++ mail_text hs body in
    dkim_verify_with_key SHA256 pem_read_pubkey digest_verify bio_b64_decode raw public = true /\
    exists hdr, signature_header raw = Some hdr /\
      dkim_tag hdr (lit "d") = domain /\ dkim_tag hdr (lit "s") = selector.
Proof.
  intros [Hlen Hb64 (pkey & Hkey & Hpair)] Hpub Hd1 Hd2 Hs1 Hs2 Hne Hok Hf Hfrom Hal.
  destruct (body_hash_text body Hlen) as (Hh1 & Hh2 & Hh3). set (bh := body_hash SHA256 body) in *.
  destruct (Hpair (signed_data hs (dkim_hdr domain selector (h_tag hs) bh now))) as (sg & Hsg & Hsg1 & Hsg2).
  pose proof (base64_cons sg Hsg1) as Hb. pose proof (base64_text sg) as Hbt. set (b := base64_encode sg) in *.
  destruct (chunks_cons 72 b Hb) as (c & cs & Ec).
  assert (Hcs : Forall (Forall (fun c => b64_text c = true)) (c :: cs)) by (rewrite <- Ec; by apply chunks_sub).
  assert (Hcc : concat (c :: cs) = b) by (rewrite <- Ec; apply chunks_concat; lia).
  eexists. split.
  { unfold dkim_sign. rewrite h_tag_trimmed. fold bh. rewrite signed_trimmed, Hsg by done.
    cbn [mbind option_bind]. fold b. rewrite Ec. reflexivity. }
  cbv zeta. rewrite !(app_assoc (lit "DKIM-Signature: ")). set (pre := lit "DKIM-Signature: " ++ dkim_hdr domain selector (h_tag hs) bh now).
  pose proof (raw_header domain selector bh now c cs hs body Hd2 Hs2 Hh1 Hcs Hne Hok) as Hr. fold pre in Hr.
  pose proof (proj2 (raw_parts domain selector bh now c cs hs body Hd2 Hs2 Hh1 Hcs Hne Hok)) as Hbody. fold pre in Hbody.
  pose proof (raw_data domain selector bh now c cs hs body Hd2 Hs2 Hh1 Hh3 Hcs Hne Hok Hf) as Hdata. fold pre in Hdata.
  pose proof (raw_tag domain selector bh now c cs hs Hd2 Hs2 Hh1 Hcs Hne Hok) as Htag. fold pre in Htag.
  set (hdr := pre ++ join (CRLF ++ [TAB]) (c :: cs)) in *.
  assert (Td : dkim_tag hdr (lit "d") = domain) by (rewrite Htag; by apply plain_wsp).
  assert (Ts : dkim_tag hdr (lit "s") = selector) by (rewrite Htag; by apply plain_wsp).
  assert (Tb : dkim_tag hdr (lit "b") = b) by (rewrite Htag, <- Hcc; by apply raw_signature).
  assert (Th : dkim_tag hdr (lit "bh") = bh) by (rewrite Htag; by apply filter_all, base64_wsp).
  split; [|by exists hdr].
  unfold dkim_verify_with_key. rewrite Hr, Td, Ts, Tb, Th, Hdata, Hbody. fold bh.
  assert (Hal2 : from_aligned (hdr ++ CRLF ++ mail_text hs body) domain = true).
  { unfold from_aligned in *. unfold hdr, pre. rewrite hdr_lines. rewrite from_domain_skip; [done| |done]. by apply sl_lines. }
  rewrite Hal2, bytes_eqb_refl, filter_all by by apply base64_wsp.
  assert (En : forall s : bytes, s <> [] -> (s =s []) = false) by (intros [|]; done).
  rewrite !En by done. cbn [orb negb]. unfold b. rewrite Hb64, Hkey by done. exact Hsg2.
Qed.

(** ** The worker *)

Definition conf_ok (conf : dkim_conf) : Prop :=
  dkim_domain conf <> [] /\ plain_text (dkim_domain conf) /\
  dkim_selector conf <> [] /\ plain_text (dkim_selector conf) /\ dkim_key conf <> [].
Definition headers_ok (hs : list DkimHeader) : Prop := hs <> [] /\ Forall header_ok hs /\ findable hs.

(** C28: A message from a sender in the domain of the settings (or one below
    it) that reaches the server over TLS or from a user leaves the worker with
    a signature, and the check of the same worker (and of any receiver with
    the same rules) accepts it: the tags come back, the body has the hash, the
    headers found from the bottom are the headers signed and the text signed
    is the text checked. The message has unfolded headers, each with a name
    not found again below it; OpenSSL verifies what it signs and DNS has the
    key. *)
Theorem signed_mail_verifies conf now hs body m :
  let pem := dkim_pubkey_from_dns dns_txt_lookup (dkim_domain conf) (dkim_selector conf) in
  openssl_ok (dkim_key conf) pem -> pem <> [] -> conf_ok conf -> headers_ok hs ->
  is_Some (find_str (CRLF ++ lit "From:") (CRLF ++ mail_text hs body)) ->
  from_aligned (CRLF ++ mail_text hs body) (dkim_domain conf) = true ->
  Smtp.data m = mail_text hs body -> Smtp.tls m || Smtp.authenticated m = true ->
  exists sig, worker SHA256 rsa_sha256_sign pem_read_pubkey digest_verify bio_b64_decode dns_txt_lookup conf now m
              = (Smtp.set_data (sig ++ CRLF ++ mail_text hs body) m, true).
Proof.
  intros pem Hssl Hpem (Hd1 & Hd2 & Hs1 & Hs2 & Hk) (Hne & Hok & Hf) Hfrom Hal Hm Ht.
  destruct (sign_then_verify now hs body (dkim_domain conf) (dkim_selector conf) (dkim_key conf) pem)
    as (sig & Hsig & Hv & hdr & Hh & Td & Ts); [done..|]. exists sig.
  assert (En : forall s : bytes, s <> [] -> (s =s []) = false) by (intros [|]; done).
  assert (Hms : mail_text hs body <> []) by (unfold mail_text; intros E; by apply app_nil in E as [_ E]).
  assert (Hblock : headers_of (mail_text hs body) = join CRLF (map line hs) /\ body_of (mail_text hs body) = body).
  { apply headers_body; [by destruct hs|]. apply Forall_map. eapply Forall_impl; [exact Hok|]. intros h. apply head_line_ok. }
  destruct Hblock as [Hblock Hbody].
  assert (Hout : sign_outbound SHA256 rsa_sha256_sign conf now m = Smtp.set_data (sig ++ CRLF ++ mail_text hs body) m).
  { unfold sign_outbound. rewrite Ht, Hm, !En by done. cbn [andb negb].
    by rewrite Hblock, Hbody, headers_to_sign_all, Hsig by done. }
  unfold worker. rewrite Hout. f_equal. cbn [Smtp.data Smtp.set_data].
  assert (Hn : sig ++ CRLF ++ mail_text hs body <> []) by (intros E; by apply app_nil in E as [_ E]).
  rewrite En by done. cbn [negb andb]. unfold dkim_verify. rewrite Hh, Td, Ts. fold pem. by rewrite !En by done.
Qed.

(** * What a signature says of the body *)

Lemma find_str_more t x y i : find_str t x = Some i -> find_str t (x ++ y) = Some i.
Proof.
  intros H. destruct (find_str_Some _ _ _ H) as (a & b & -> & <-).
  destruct (find_str t ((a ++ t ++ b) ++ y)) as [j|] eqn:E.
  - f_equal. assert (j <= length a)%nat by (apply (find_str_first t _ _ a (b ++ y) E); by rewrite <- !app_assoc).
    destruct (find_str_Some _ _ _ E) as (a' & b' & E' & <-).
    enough (length a <= length a')%nat by lia. eapply (find_str_first t _ _ _ (drop (length (a' ++ t)) (a ++ t ++ b))); [exact H|].
    apply (f_equal (take (length (a ++ t ++ b)))) in E'. rewrite take_app_length in E'. rewrite E'.
    assert (Hl : (length (a' ++ t) <= length (a ++ t ++ b))%nat) by (rewrite !length_app; lia).
    set (u := take _ _) in *. rewrite <- (take_drop (length (a' ++ t)) u) at 1. rewrite app_assoc. f_equal.
    unfold u. rewrite take_take, Nat.min_l by done. by rewrite app_assoc, take_app_length.
  - exfalso. eapply (find_str_None _ _ a (b ++ y)) in E. apply E. by rewrite <- !app_assoc.
Qed.

(** The end of a header is above the blank line, whatever the body is. *)
Lemma header_end_body x pos :
  (pos <= length x)%nat ->
  exists e, (pos <= e <= length x)%nat /\
    forall f b, (length x < f + pos)%nat -> header_end f (x ++ CRLF ++ CRLF ++ b) pos = Some e.
Proof.
  remember (length x - pos)%nat as n eqn:Hn. revert pos Hn. induction (lt_wf n) as [n _ IH]. intros pos -> Hp.
  destruct (find_str CRLF (drop pos x ++ CRLF)) as [e|] eqn:He.
  2:{ apply (find_str_None _ _ (drop pos x) []) in He. by rewrite app_nil_r in He. }
  assert (Hlt : (e + 2 <= length (drop pos x ++ CRLF))%nat).
  { destruct (find_str_Some _ _ _ He) as (a & b & E & <-). rewrite E, !length_app. change (length CRLF) with 2%nat. lia. }
  rewrite length_app, length_drop in Hlt. change (length CRLF) with 2%nat in Hlt.
  assert (Hfind : forall b, find_str_from CRLF (x ++ CRLF ++ CRLF ++ b) pos = Some (pos + e)%nat).
  { intros b. unfold find_str_from. rewrite (proj2 (Nat.ltb_ge _ _)) by (rewrite length_app; lia).
    rewrite drop_app_le, app_assoc by done. by rewrite (find_str_more _ _ _ _ He). }
  assert (Hc : forall b, (x ++ CRLF ++ CRLF ++ b) !! (pos + e + 2)%nat = (x ++ CRLF ++ CRLF) !! (pos + e + 2)%nat).
  { intros b. rewrite (app_assoc CRLF), (app_assoc x), lookup_app_l; [done|]. rewrite !length_app. cbn [length CRLF]. lia. }
  assert (Hstop : (forall c, (x ++ CRLF ++ CRLF) !! (pos + e + 2)%nat = Some c -> one_of sp_tab c = false) ->
    exists e0, (pos <= e0 <= length x)%nat /\
      forall f b, (length x < f + pos)%nat -> header_end f (x ++ CRLF ++ CRLF ++ b) pos = Some e0).
  { intros H. exists (pos + e)%nat. split; [lia|]. intros [|f] b Hf; [lia|]. cbn [header_end]. rewrite Hfind, Hc.
    destruct (_ !! _) as [c|]; [|done]. by rewrite H. }
  destruct ((x ++ CRLF ++ CRLF) !! (pos + e + 2)%nat) as [c|] eqn:Ec; [|by apply Hstop].
  destruct (one_of sp_tab c) eqn:Eb; [|apply Hstop; by intros ? [= <-]].
  assert (Hle : (pos + e + 2 <= length x)%nat).
  { destruct (decide (pos + e + 2 <= length x)%nat); [done|]. exfalso. rewrite lookup_app_r in Ec by lia.
    assert (Hk : (pos + e + 2 - length x = 1 \/ pos + e + 2 - length x = 2)%nat) by lia.
    destruct Hk as [Hk|Hk]; rewrite Hk in Ec; cbn in Ec; by injection Ec as <-. }
  destruct (IH (length x - (pos + e + 2))%nat ltac:(lia) (pos + e + 2)%nat eq_refl Hle) as (e0 & He0 & Hend).
  exists e0. split; [lia|]. intros [|f] b Hf; [lia|]. cbn [header_end]. rewrite Hfind, Hc, Eb. apply Hend. lia.
Qed.
Lemma signature_header_body x b1 b2 :
  is_Some (find_str (lit "DKIM-Signature:") x) ->
  signature_header (x ++ CRLF ++ CRLF ++ b1) = signature_header (x ++ CRLF ++ CRLF ++ b2).
Proof.
  intros [p Hp]. unfold signature_header. rewrite !(find_str_more _ _ _ _ Hp). cbn [mbind option_bind].
  assert (Hlt : (p <= length x)%nat).
  { destruct (find_str_Some _ _ _ Hp) as (a & b & -> & <-). rewrite length_app. lia. }
  destruct (header_end_body x p Hlt) as (e & He & Hend).
  rewrite !Hend by (rewrite !length_app; lia). cbn [upto]. unfold substr. rewrite !drop_app_le by done.
  rewrite !take_app_le by (rewrite length_drop; lia). done.
Qed.
Lemma base64_inj s t : base64_encode s = base64_encode t -> s = t.
Proof.
  intros E. set (n := S (length s + length t)).
  pose proof (base64_back n s ltac:(lia)) as H1. pose proof (base64_back n t ltac:(lia)) as H2. congruence.
Qed.

(** C29: A signature is for one body only. With the headers of a message whose
    signature was accepted and another body, in which the search for the
    sender finds the same domain (it reads the body when the headers have no
    From), the check accepts exactly when the relaxed form of the other body
    has the same SHA-256; so trailing blanks, blank lines at the end and bare
    line feeds do not matter, and nothing else can change without a collision. *)
Theorem signature_binds_body ls b1 b2 pem :
  let raw b := crlf_lines ls ++ CRLF ++ b in
  ls <> [] -> lines_ok ls ->
  is_Some (find_str (lit "DKIM-Signature:") (join CRLF ls)) ->
  from_domain (raw b1) = from_domain (raw b2) ->
  let verify := dkim_verify_with_key SHA256 pem_read_pubkey digest_verify bio_b64_decode in
  verify (raw b1) pem = true ->
  verify (raw b2) pem = true <-> SHA256 (canon_body_relaxed b2) = SHA256 (canon_body_relaxed b1).
Proof.
  intros raw Hne Hok Hsig Hfrom verify.
  destruct (headers_body ls b1 Hne Hok) as [Hh1 Hb1]. destruct (headers_body ls b2 Hne Hok) as [Hh2 Hb2].
  assert (Hraw : forall b, raw b = join CRLF ls ++ CRLF ++ CRLF ++ b).
  { intros b. unfold raw. rewrite <- join_crlf_lines by done. by rewrite <- app_assoc. }
  assert (Hs : signature_header (raw b1) = signature_header (raw b2)) by (rewrite !Hraw; by apply signature_header_body).
  fold (raw b1) in Hh1, Hb1. fold (raw b2) in Hh2, Hb2.
  unfold verify, dkim_verify_with_key. rewrite <- Hs. destruct (signature_header (raw b1)) as [hdr|]; [|done].
  unfold from_aligned, data_to_verify. rewrite <- Hfrom, Hh1, Hh2, Hb1, Hb2.
  destruct (_ || _ || _ || _); [done|]. destruct (negb _); [done|].
  destruct (bytes_eqb_spec (body_hash SHA256 b1) (dkim_tag hdr (lit "bh"))) as [E1|E1]; [|done]. cbn [negb].
  intros Hv. rewrite <- E1. destruct (bytes_eqb_spec (body_hash SHA256 b2) (body_hash SHA256 b1)) as [E|E]; cbn [negb].
  - split; [intros _; by apply base64_inj|done].
  - split; [done|]. intros Hx. destruct E. unfold body_hash. by rewrite Hx.
Qed.

End OpenSSL.

(** [d=] is the domain of the sender or a parent of it. *)
Lemma aligned_exact fd dd :
  aligned fd dd = true <-> fd <> [] /\ dd <> [] /\ (fd = dd \/ exists p, fd = p ++ "."%char :: dd).
Proof.
  unfold aligned. rewrite !andb_true_iff, orb_true_iff, andb_true_iff, !negb_true_iff, !bytes_eqb_neq, !bytes_eqb_eq, Nat.ltb_lt.
  split.
  - intros [[Hf Hd] [->|[Hl E]]]; [auto|]. split; [done|]. split; [done|]. right.
    exists (take (length fd - length dd - 1) fd). by rewrite <- E, take_drop.
  - intros (Hf & Hd & [->|[p ->]]); [auto|]. split; [done|]. right. rewrite length_app. cbn [length].
    split; [lia|]. replace (_ - _ - _)%nat with (length p) by lia. apply drop_app_length.
Qed.

(** * A small OpenSSL

    The signature is the text, with a mark in front. *)

Definition toy_sha (s : bytes) : bytes := take 32 (s ++ replicate 32 NUL).
Definition toy_sign (d k : bytes) : option bytes := Some ("!"%char :: d).
Definition toy_load (p : bytes) : option bytes := Some p.
Definition toy_check (k d s : bytes) : bool := s =s "!"%char :: d.
Definition toy_b64 (s : bytes) : option bytes := base64_decode (S (length s)) s.
Definition toy_dns (name : bytes) : option (list bytes) := Some [lit "v=DKIM1; k=rsa; p=KEY"].
Definition toy_conf : dkim_conf := MkDkim (lit "our.example") (lit "mail") (lit "KEY").
Definition toy_worker := worker toy_sha toy_sign toy_load toy_check toy_b64 toy_dns toy_conf 1700000000.
(** A message of a user *)
Definition submitted (data : bytes) : Smtp.SmtpMessage :=
  Smtp.MkMsg (lit "ann@our.example") [lit "bob@b.example"] data (lit "192.0.2.1") false true.
Definition mail_lines (ls : list string) : bytes := crlf_lines (map list_ascii_of_string ls).

Lemma base64_longer n d : (length d < n)%nat -> (length d <= length (base64_encode d))%nat.
Proof.
  revert d. induction n as [|n IH]; intros d Hn; [lia|].
  destruct d as [|x [|y [|z r]]]; cbn [base64_encode length] in *; [lia..|]. pose proof (IH r ltac:(lia)). lia.
Qed.
Lemma toy_ok private public : openssl_ok toy_sha toy_sign toy_load toy_check toy_b64 private public.
Proof.
  split.
  - intros s. unfold toy_sha. rewrite length_take, length_app, length_replicate. lia.
  - intros s _. unfold toy_b64. apply base64_back. pose proof (base64_longer (S (length s)) s ltac:(lia)). lia.
  - exists public. split; [done|]. intros d. exists ("!"%char :: d). split; [done|]. split; [done|]. apply bytes_eqb_refl.
Qed.

Definition hello : list DkimHeader :=
  [MkHdr (lit "From") (lit " Ann <ann@mail.our.example>"); MkHdr (lit "To") (lit " bob@b.example"); MkHdr (lit "Subject") (lit "  hi  there")].
Lemma hello_ok : headers_ok hello.
Proof.
  split; [done|]. split.
  - repeat (constructor; [split; [done|]; repeat split; by repeat constructor|]). constructor.
  - repeat split.
Qed.

Lemma signed_mail_verifies_witness :
  exists sig, toy_worker (submitted (mail_text hello (lit "text")))
              = (Smtp.set_data (sig ++ CRLF ++ mail_text hello (lit "text")) (submitted (mail_text hello (lit "text"))), true).
Proof.
  apply (signed_mail_verifies toy_sha toy_sign toy_load toy_check toy_b64 toy_dns toy_conf 1700000000 hello (lit "text")
    (submitted (mail_text hello (lit "text")))).
  - apply toy_ok.
  - done.
  - repeat split; by repeat constructor.
  - apply hello_ok.
  - by eexists.
  - vm_compute. reflexivity.
  - reflexivity.
  - reflexivity.
Defined.

(** The headers of that message when it is signed, and the same headers over
    the same text with blanks and empty lines behind *)
Definition signed_lines : list bytes :=
  map (fun l => removelast l)
    (getline_all LF (headers_of (Smtp.data (toy_worker (submitted (mail_text hello (lit "text")))).1) ++ CRLF)).
Definition toy_verify := dkim_verify_with_key toy_sha toy_load toy_check toy_b64.

Lemma signature_binds_body_witness :
  toy_verify (crlf_lines signed_lines ++ CRLF ++ lit "text  " ++ [LF; CR; LF]) (lit "KEY") = true.
Proof.
  apply (signature_binds_body toy_sha toy_load toy_check toy_b64 signed_lines (lit "text") (lit "text  " ++ [LF; CR; LF]) (lit "KEY")).
  - vm_compute. discriminate.
  - vm_compute. repeat (constructor; [split; [discriminate|repeat constructor]|]). constructor.
  - vm_compute. by eexists.
  - vm_compute. reflexivity.
  - vm_compute. reflexivity.
  - vm_compute. reflexivity.
Defined.
Example other_body_refused : toy_verify (crlf_lines signed_lines ++ CRLF ++ lit "test") (lit "KEY") = false.
Proof. vm_compute. reflexivity. Qed.

(** * What the checks miss *)

(** TLS is enough for a signature, without a login; the server does not offer
    TLS on this port yet. *)
Example tls_client_is_signed :
  (toy_worker (Smtp.MkMsg (lit "x@y.example") [lit "ann@our.example"]
    (mail_lines ["From: ceo@our.example"; "Subject: pay"; EmptyString; "now"]) (lit "192.0.2.1") true false)).2 = true.
Proof. vm_compute. reflexivity. Qed.

(** A folded header is signed without its other lines, or with a header more;
    the check reads all of it. *)
Example folded_header_fails :
  headers_to_sign (headers_of (mail_lines ["Subject: a"; " b"; " c: d"; EmptyString; "x"]))
  = [MkHdr (lit "Subject") (lit "a"); MkHdr (lit " c") (lit "d")] /\
  (toy_worker (submitted (mail_lines ["From: a@our.example"; "Subject: a"; " b"; EmptyString; "now"]))).2 = false.
Proof. split; vm_compute; reflexivity. Qed.

(** Two headers of one name are signed from the top and checked from the
    bottom. *)
Example repeated_header_fails :
  (toy_worker (submitted (mail_lines ["Received: 1"; "Received: 2"; "From: a@our.example"; EmptyString; "now"]))).2 = false.
Proof. vm_compute. reflexivity. Qed.

(** A name is found inside a longer name. *)
Example longer_name_fails :
  (toy_worker (submitted (mail_lines ["From: a@our.example"; "X-From: b"; EmptyString; "now"]))).2 = false.
Proof. vm_compute. reflexivity. Qed.

(** The relaxed body keeps runs of blanks inside a line, and an empty body
    becomes a line. *)
Example body_blanks_kept : canon_body_relaxed (lit "a  b") = lit "a  b" ++ CRLF.
Proof. reflexivity. Qed.
Example empty_body : canon_body_relaxed [] = CRLF.
Proof. reflexivity. Qed.

(** The sender: another case of the name, or an address in front of the real
    one *)
Example from_lower_case : from_aligned (mail_lines ["from: ceo@paypal.example"; EmptyString]) (lit "evil.example") = true.
Proof. reflexivity. Qed.
Example from_display_name :
  from_aligned (mail_lines ["To: x"; "From: a@evil.example <ceo@paypal.example>"; EmptyString]) (lit "evil.example") = true.
Proof. reflexivity. Qed.

(** Tags behind the key become part of it. *)
Example key_with_tags : key_of_txts [lit "v=DKIM1; p=KEY; s=email"] = pem_of (lit "KEYs=email").
Proof. reflexivity. Qed.

(** [b = x]: the tag has a value, but it is not taken out of the text. *)
Example spaced_tag :
  let hdr := lit "DKIM-Signature: h=from; b = abc" in dkim_tag hdr (lit "b") = lit "abc" /\ strip_b hdr = hdr.
Proof. split; reflexivity. Qed.

(** Only the first of two signatures is checked. *)
Example second_signature_ignored :
  toy_verify (mail_lines ["DKIM-Signature: v=1; d=list.example; s=x; h=from; bh=x; b=x"] ++ crlf_lines signed_lines ++ CRLF ++ lit "text")
    (lit "KEY") = false /\
  toy_verify (crlf_lines signed_lines ++ CRLF ++ lit "text") (lit "KEY") = true.
Proof. split; vm_compute; reflexivity. Qed.

End DkimFacts.
