(* ===== verification/Imap.v ===== *)
(** The IMAP server of cpp/src/imap_server.cpp: Maildir paths and flags, sequence
    sets, the commands of a session and the session itself.

    The file system is a [World]: the regular files by their paths, and the
    directories. What it answers to [weakly_canonical], which names it makes
    unique and which paths the system refuses to change are parameters. Other
    programs may change the world at any time: the input of a session is the
    bytes of the client with, between them, the worlds the others left
    ([Elsewhere]); while the server idles such an event is also the end of one
    period of waiting. What is sent is taken by the client. The delay after a
    failed login, the time limits and the threads are not modelled. *)

From stdpp Require Import sorting.
From S2P Require Import Prelude CNum Web MailAuth.
#[local] Open Scope Z_scope.

Module Imap.
Import CNum Web MailAuth.

(** * Paths *)

Definition SLASH : ascii := "/"%char.
Definition is_slash : ascii -> bool := is_c SLASH.
(** [fs::path(p) / q] for a relative [q] *)
Definition join_path (p q : bytes) : bytes :=
  match last p with None => q | Some c => if c =c SLASH then p ++ q else p ++ [SLASH] ++ q end.
(** [filename()] and [parent_path()] *)
Definition filename (p : bytes) : bytes :=
  match rfind_if is_slash p with Some i => drop (S i) p | None => p end.
Definition parent_path (p : bytes) : bytes :=
  match rfind_if is_slash p with
  | None => []
  | Some i => match rfind_if (fun c => negb (is_slash c)) (take i p) with Some j => take (S j) p | None => [SLASH] end
  end.

(** * Files *)

Record World := MkW { files : gmap (list ascii) bytes; dirs : gset (list ascii) }.

Definition is_directory (w : World) (d : bytes) : bool := bool_decide (d ∈ dirs w).
(** The files of a directory: what a [directory_iterator] meets *)
Definition is_child (d p : bytes) : bool :=
  let pre := join_path d [] in
  starts_with pre p && negb (has_char is_slash (drop (length pre) p)) && negb (drop (length pre) p =s []).
Definition children (w : World) (d : bytes) : list bytes :=
  if is_directory w d then List.filter (is_child d) (map fst (map_to_list (files w))) else [].
Definition path_le (s t : bytes) : Prop := bytes_leb s t = true.
#[export] Instance path_le_dec : RelDecision path_le.
Proof. intros x y. unfold path_le. apply _. Defined.

Definition build_messages (w : World) (box : bytes) : list bytes :=
  merge_sort path_le (children w (join_path box (lit "cur")) ++ children w (join_path box (lit "new"))).
(** The messages and those that are new *)
Definition count_maildir (w : World) (box : bytes) : nat * nat :=
  let new := length (children w (join_path box (lit "new"))) in
  ((new + length (children w (join_path box (lit "cur"))))%nat, new).
Definition list_mailboxes (w : World) (root : bytes) : list bytes :=
  lit "INBOX" ::
  map (drop 1) (List.filter (fun n => match n with c :: _ :: _ => (c =c ".") && negb (n =s lit "..") | _ => false end)
    (map filename (List.filter (is_child root) (elements (dirs w))))).

(** * Flags

    The letters of a Maildir name are behind [:2,]. *)

Definition info : bytes := lit ":2,".
Definition letters : bytes := lit "DFPRST".
(** [strchr] finds the end of its string too. *)
Definition is_flag (c : ascii) : bool := one_of letters c || (c =c NUL).
Definition maildir_flags (path : bytes) : bytes :=
  let name := filename path in
  match find_str info name with Some p => List.filter is_flag (drop (p + 3) name) | None => [] end.
Definition imap_to_maildir_flag (f : bytes) : option ascii :=
  let u := map toupper f in
  if u =s BACKSLASH :: lit "SEEN" then Some "S"%char
  else if u =s BACKSLASH :: lit "ANSWERED" then Some "R"%char
  else if u =s BACKSLASH :: lit "FLAGGED" then Some "F"%char
  else if u =s BACKSLASH :: lit "DELETED" then Some "T"%char
  else if u =s BACKSLASH :: lit "DRAFT" then Some "D"%char
  else None.
Definition normalize_flags (f : bytes) : bytes := List.filter (fun c => one_of f c) letters.
Definition flag_names : list (ascii * string) :=
  [("S"%char, "Seen"%string); ("R"%char, "Answered"%string); ("F"%char, "Flagged"%string); ("T"%char, "Deleted"%string);
   ("D"%char, "Draft"%string)].
Fixpoint sep_by (sep : bytes) (l : list bytes) : bytes :=
  match l with [] => [] | [x] => x | x :: l => x ++ sep ++ sep_by sep l end.
Definition maildir_to_imap_flags (mf : bytes) : bytes :=
  lit "(" ++ sep_by [SP] (map (fun '(_, name) => BACKSLASH :: lit name) (List.filter (fun '(c, _) => one_of mf c) flag_names)) ++ lit ")".

(** The words of a text: [std::istringstream >> word] *)
Definition words (s : bytes) : list bytes := List.filter (fun w => negb (w =s [])) (split_on isspace s).
Definition flag_letters (list : bytes) : bytes := omap imap_to_maildir_flag (words list).

(** The name of a message without its flags, and with its flags set *)
Definition base_name (name : bytes) : bytes :=
  match find_str info name with Some p => take p name | None => name end.
Definition with_flags (path new_flags : bytes) : bytes :=
  let base := base_name (filename path) in
  let parent := parent_path path in
  let dest_dir := if filename parent =s lit "new" then join_path (parent_path parent) (lit "cur") else parent in
  join_path dest_dir (base ++ info ++ normalize_flags new_flags).

(** * Messages and sequence sets *)

Definition CRLF2 : bytes := [CR; LF; CR; LF].
(** The header with the end of its last line, and the body *)
Definition split_header_body (msg : bytes) : bytes * bytes :=
  match find_str CRLF2 msg with
  | Some p => (take (p + 2) msg, drop (p + 4) msg)
  | None => match find_str [LF; LF] msg with
    | Some p => (take (p + 1) msg, drop (p + 2) msg)
    | None => (msg, []) end
  end.
Definition parse_seqset (s : bytes) (count : Z) : option (Z * Z) :=
  if count =? 0 then None
  else
    let num (t : bytes) (def : Z) :=
      if t =s lit "*" then count else match stoll t with Some v => if v <? 1 then def else v | None => def end in
    let '(lo, hi) := match find_if (is_c ":") s with
      | None => (num s 1, num s 1)
      | Some colon => (num (take colon s) 1, num (drop (S colon) s) count) end in
    let '(lo, hi) := if hi <? lo then (hi, lo) else (lo, hi) in
    let lo := if lo <? 1 then 1 else lo in
    let hi := if count <? hi then count else hi in
    if lo <=? hi then Some (lo, hi) else None.

(** * The session *)

Inductive inp := Byte (c : ascii) | Elsewhere (w : World).

Record Session := MkS {
  authenticated : bool; maildir_root : bytes; selected : bytes; messages : list bytes; errors : Z;
  tls : bool; world : World; input : list inp; out : bytes }.

Definition set_login a r s := MkS a r (selected s) (messages s) (errors s) (tls s) (world s) (input s) (out s).
Definition set_selected b ms s := MkS (authenticated s) (maildir_root s) b ms (errors s) (tls s) (world s) (input s) (out s).
Definition set_errors e s := MkS (authenticated s) (maildir_root s) (selected s) (messages s) e (tls s) (world s) (input s) (out s).
Definition set_tls t s := MkS (authenticated s) (maildir_root s) (selected s) (messages s) (errors s) t (world s) (input s) (out s).
Definition set_input i w s := MkS (authenticated s) (maildir_root s) (selected s) (messages s) (errors s) (tls s) w i (out s).
Definition set_world w s := set_input (input s) w s.
Definition send t s := MkS (authenticated s) (maildir_root s) (selected s) (messages s) (errors s) (tls s) (world s) (input s) (out s ++ t).

Definition EOL : bytes := [CR; LF].
Definition num (n : nat) : bytes := decimal (Z.of_nat n).

(** The limits of the environment, [ssl_ctx], what [SSL_accept] will answer, the
    handler of logins, [weakly_canonical], the names that [maildir_append] makes,
    and the paths the system refuses to change. *)
Record Conf := MkConf {
  max_line : nat; max_literal : Z; max_errors : Z; ssl_ctx : bool; handshake : bool;
  auth : bytes -> bytes -> option bytes;
  weakly_canonical : bytes -> option bytes; unique : World -> bytes; denied : bytes -> bool }.

Section Server.
Context (C : Conf).

(** ** Reading *)

(** The line, when there is one, with what is left *)
Fixpoint read_line (i : list inp) (w : World) (line : bytes) : option bytes * list inp * World :=
  match i with
  | [] => (None, [], w)
  | Elsewhere w :: i => read_line i w line
  | Byte c :: i =>
      if c =c CR then read_line i w line
      else if c =c LF then (Some line, i, w)
      else if (max_line C <? length (line ++ [c]))%nat then (None, i, w) else read_line i w (line ++ [c])
  end.
Fixpoint read_exact (n : nat) (i : list inp) (w : World) (data : bytes) : option (bytes * list inp * World) :=
  match n with
  | O => Some (data, i, w)
  | S n' =>
      (fix go i w := match i with
        | [] => None
        | Elsewhere w :: i => go i w
        | Byte c :: i => read_exact n' i w (data ++ [c])
        end) i w
  end.

(** ** Changing the world *)

Definition put_file p d w := MkW (<[p := d]> (files w)) (dirs w).
Definition rename (a b : bytes) (w : World) : option World :=
  match files w !! a with
  | Some d =>
      if denied C a || denied C b || is_directory w b || negb (is_directory w (parent_path b)) then None
      else Some (MkW (<[b := d]> (delete a (files w))) (dirs w))
  | None => None
  end.
(** A file, or nothing; a directory in its place counts as refused, though the
    call removes one that is empty. *)
Definition remove (p : bytes) (w : World) : option World :=
  if denied C p || is_directory w p then None else Some (MkW (delete p (files w)) (dirs w)).
(** The new path, when the file could be renamed *)
Definition apply_flags (path new_flags : bytes) (w : World) : option (bytes * World) :=
  let dest := with_flags path new_flags in
  if dest =s path then Some (path, w)
  else match rename path dest w with Some w => Some (dest, w) | None => None end.
Definition read_file_capped (path : bytes) (w : World) : option bytes :=
  match files w !! path with
  | Some d => if max_literal C <? Z.of_nat (length d) then None else Some d
  | None => None
  end.
(** A path and the directories it lies in: the first one that can not be made
    ends it, and the error is not looked at. *)
Fixpoint make_dirs (ds : list bytes) (w : World) : World :=
  match ds with
  | [] => w
  | d :: ds =>
      if is_directory w d then make_dirs ds w
      else if denied C d || bool_decide (is_Some (files w !! d)) then w
      else make_dirs ds (MkW (files w) ({[d]} ∪ dirs w))
  end.
Definition create_directories (p : bytes) (w : World) : World :=
  make_dirs (omap (fun '(i, c) => if (c =c SLASH) && (0 <? i)%nat then Some (take i p) else None)
    (combine (seq 0 (length p)) p) ++ [p]) w.
Definition maildir_append (box mflags data : bytes) (w : World) : World * bool :=
  let w := fold_right create_directories w [join_path box (lit "cur"); join_path box (lit "new"); join_path box (lit "tmp")] in
  let u := unique C w in
  let tmp := join_path (join_path box (lit "tmp")) u in
  if denied C tmp || is_directory w tmp || negb (is_directory w (parent_path tmp)) then (w, false)
  else
    let nf := normalize_flags mflags in
    let dest := match nf with
      | [] => join_path (join_path box (lit "new")) u
      | _ => join_path (join_path box (lit "cur")) (u ++ info ++ nf) end in
    match rename tmp dest (put_file tmp data w) with
    | Some w => (w, true)
    | None => (match remove tmp (put_file tmp data w) with Some w => w | None => put_file tmp data w end, false)
    end.

(** The directory of a mailbox; the inbox is the root itself. *)
Definition within (rs ts : bytes) : bool :=
  starts_with rs ts && match drop (length rs) ts with [] => true | c :: _ => (c =c SLASH) || (c =c BACKSLASH) end.
Definition resolve_mailbox (w : World) (root name : bytes) : option bytes :=
  match root with
  | [] => None
  | _ =>
      match imap_mailbox_name_ok name with
      | None => None
      | Some mb =>
          if mb =s lit "INBOX" then Some root
          else match weakly_canonical C root, weakly_canonical C (join_path root (lit "." ++ mb)) with
          | Some rs, Some ts => if within rs ts && is_directory w ts then Some ts else None
          | _, _ => None
          end
      end
  end.

(** ** Commands: the next session, and whether it goes on *)

Definition go_on (s : Session) : Session * bool := (s, true).
Definition stop (s : Session) : Session * bool := (s, false).
Definition reply (tag : bytes) (t : string) (s : Session) : Session := send (tag ++ lit " " ++ lit t ++ EOL) s.
(** A failure that is counted *)
Definition count_error (s : Session) : Session * bool :=
  let s := set_errors (errors s + 1) s in (s, negb (max_errors C <=? errors s)).

Definition cap_line (s : Session) : bytes :=
  lit "IMAP4rev1 IDLE" ++ if ssl_ctx C && negb (tls s) then lit " STARTTLS LOGINDISABLED" else [].
Definition recent (ms : list bytes) : nat := length (List.filter (contains (lit "/new/")) ms).

Definition capability (tag : bytes) (s : Session) : Session * bool :=
  go_on (send (lit "* CAPABILITY " ++ cap_line s ++ EOL ++ tag ++ lit " OK CAPABILITY completed" ++ EOL) s).
Definition starttls (tag : bytes) (s : Session) : Session * bool :=
  if tls s then go_on (reply tag "NO TLS already active" s)
  else if negb (ssl_ctx C) then go_on (reply tag "NO STARTTLS not configured" s)
  else
    let s := reply tag "OK beginning TLS handshake" s in
    if handshake C then go_on (set_login false [] (set_selected [] [] (set_tls true s))) else stop s.
Definition logout (tag : bytes) (s : Session) : Session * bool :=
  stop (send (lit "* BYE LOOK IMAP session closing" ++ EOL ++ tag ++ lit " OK LOGOUT completed" ++ EOL) s).
Definition login (tag args : bytes) (s : Session) : Session * bool :=
  if ssl_ctx C && negb (tls s) then go_on (reply tag "NO [PRIVACYREQUIRED] STARTTLS required first" s)
  else
    let '(user, pass) := imap_split_two args in
    match auth C user pass with
    | Some root => go_on (reply tag "OK LOGIN successful" (set_login true root s))
    | None => count_error (reply tag "NO LOGIN failed" s)
    end.

(** [k], after the tests every command of a user makes first *)
Definition logged_in (tag : bytes) (k : Session -> Session * bool) (s : Session) : Session * bool :=
  if authenticated s then k s else go_on (reply tag "NO LOGIN required first" s).
Definition with_mailbox (tag : bytes) (k : Session -> Session * bool) : Session -> Session * bool :=
  logged_in tag (fun s => match selected s with [] => go_on (reply tag "NO SELECT required first" s) | _ => k s end).

(** The waiting of IDLE: new messages go to the end, so that the numbers of the
    others stay. *)
Definition idle_tick (w : World) (s : Session) : Session :=
  let s := set_world w s in
  match List.filter (fun p => negb (existsb (bytes_eqb p) (messages s))) (build_messages w (selected s)) with
  | [] => s
  | added =>
      let ms := messages s ++ added in
      send (lit "* " ++ num (length ms) ++ lit " EXISTS" ++ EOL ++ lit "* " ++ num (recent ms) ++ lit " RECENT" ++ EOL)
        (set_selected (selected s) ms s)
  end.
Fixpoint idle (tag : bytes) (i : list inp) (s : Session) : Session * bool :=
  match i with
  | [] => stop s
  | Elsewhere w :: i => idle tag i (set_input i w (idle_tick w s))
  | Byte _ :: _ =>
      let '(line, i, w) := read_line i (world s) [] in
      let s := set_input i w s in
      match line with
      | None => stop s
      | Some line =>
          if map toupper line =s lit "DONE" then go_on (reply tag "OK IDLE completed" s)
          else stop (reply tag "BAD DONE required to end IDLE" s)
      end
  end.
Definition idle_command (tag : bytes) : Session -> Session * bool :=
  with_mailbox tag (fun s => idle tag (input s) (send (lit "+ idling" ++ EOL) s)).

Definition select (tag cmd args : bytes) : Session -> Session * bool := logged_in tag (fun s =>
  match resolve_mailbox (world s) (maildir_root s) args with
  | None => go_on (reply tag "NO invalid mailbox name" s)
  | Some box =>
      let ms := build_messages (world s) box in
      go_on (send (
        lit "* " ++ num (length ms) ++ lit " EXISTS" ++ EOL ++
        lit "* " ++ num (recent ms) ++ lit " RECENT" ++ EOL ++
        lit "* OK [UIDVALIDITY 1] UID validity" ++ EOL ++
        lit "* FLAGS (\Answered \Flagged \Deleted \Seen \Draft)" ++ EOL ++
        lit "* OK [PERMANENTFLAGS (\Seen \Deleted)] permanent flags" ++ EOL ++
        tag ++ lit " OK [" ++ (if cmd =s lit "EXAMINE" then lit "READ-ONLY" else lit "READ-WRITE") ++ lit "] " ++ cmd ++
        lit " completed" ++ EOL) (set_selected box ms s))
  end).
Definition list_command (tag cmd : bytes) : Session -> Session * bool := logged_in tag (fun s =>
  go_on (send (concat (map (fun b =>
    lit "* " ++ cmd ++ lit " (\HasNoChildren) " ++ [DQUOTE] ++ lit "/" ++ [DQUOTE] ++ lit " " ++ [DQUOTE] ++ b ++ [DQUOTE] ++ EOL)
    (list_mailboxes (world s) (maildir_root s))) ++ tag ++ lit " OK " ++ cmd ++ lit " completed" ++ EOL) s)).
Definition status (tag args : bytes) : Session -> Session * bool := logged_in tag (fun s =>
  let mbname := match find_if (is_c SP) args with Some sp => take sp args | None => args end in
  match resolve_mailbox (world s) (maildir_root s) mbname with
  | None => go_on (reply tag "NO invalid mailbox" s)
  | Some box =>
      let '(total, recent) := count_maildir (world s) box in
      go_on (send (lit "* STATUS " ++ [DQUOTE] ++ imap_unquote mbname ++ [DQUOTE] ++ lit " (MESSAGES " ++ num total ++
        lit " RECENT " ++ num recent ++ lit ")" ++ EOL ++ tag ++ lit " OK STATUS completed" ++ EOL) s)
  end).

(** The numbers of a range that is in the snapshot *)
Definition range (lo hi : Z) : list nat := seq (Z.to_nat lo) (Z.to_nat hi + 1 - Z.to_nat lo).
Definition nth_message (s : Session) (i : nat) : bytes := default [] (messages s !! (i - 1)%nat).

Record Wanted := MkWanted { w_flags : bool; w_size : bool; w_hdr : bool; w_text : bool; w_full : bool }.
Definition fetch_items (items : bytes) : Wanted :=
  let has t := contains (lit t) items in
  MkWanted (has "FLAGS") (has "RFC822.SIZE") (has "BODY[HEADER]" || has "RFC822.HEADER") (has "BODY[TEXT]")
    (has "BODY[]" || (has "RFC822" && negb (has "RFC822."))).
Definition drop_blanks (s : bytes) : bytes :=
  match rfind_if (fun c => negb (c =c SP)) s with Some i => take (S i) s | None => [] end.
Definition fetch_one (it : Wanted) (i : nat) (path raw : bytes) : bytes :=
  let '(hdr, body) := split_header_body raw in
  let parts :=
    (if w_flags it then lit "FLAGS " ++ maildir_to_imap_flags (maildir_flags path) ++ lit " " else []) ++
    (if w_size it then lit "RFC822.SIZE " ++ num (length raw) ++ lit " " else []) in
  let '(name, literal) :=
    if w_full it then (lit "BODY[] ", raw) else if w_hdr it then (lit "BODY[HEADER] ", hdr)
    else if w_text it then (lit "BODY[TEXT] ", body) else ([], []) in
  lit "* " ++ num i ++ lit " FETCH (" ++ drop_blanks (parts ++ name) ++
  (if negb (literal =s []) || w_full it || w_hdr it || w_text it
   then lit " {" ++ num (length literal) ++ lit "}" ++ EOL ++ literal else []) ++ lit ")" ++ EOL.
Definition fetch (tag args : bytes) : Session -> Session * bool := with_mailbox tag (fun s =>
  match find_if (is_c SP) args with
  | None => go_on (reply tag "BAD FETCH argument" s)
  | Some sp =>
      let items := map toupper (drop (S sp) args) in
      if contains (lit "UID") items then
        go_on (reply tag "NO [CANNOT] UID not supported — no persistent UID (Milestone 1). Use sequence numbers." s)
      else match parse_seqset (take sp args) (Z.of_nat (length (messages s))) with
      | None => go_on (reply tag "OK FETCH completed (empty)" s)
      | Some (lo, hi) =>
          let one i := match read_file_capped (nth_message s i) (world s) with
            | Some raw => fetch_one (fetch_items items) i (nth_message s i) raw | None => [] end in
          go_on (reply tag "OK FETCH completed" (send (concat (map one (range lo hi))) s))
      end
  end).

(** The flags after [FLAGS], [+FLAGS] and [-FLAGS] *)
Definition store_flags (op : ascii) (cur want : bytes) : bytes :=
  if op =c "=" then want
  else if op =c "+" then fold_left (fun nf c => if one_of nf c then nf else nf ++ [c]) want cur
  else fold_left (fun nf c => match find_if (is_c c) nf with Some k => take k nf ++ drop (S k) nf | None => nf end) want cur.
(** One message: the session and its line *)
Definition store_one (op : ascii) (want : bytes) (silent : bool) (i : nat) (st : Session * bytes) : Session * bytes :=
  let '(s, o) := st in
  let nf := store_flags op (maildir_flags (nth_message s i)) want in
  match apply_flags (nth_message s i) nf (world s) with
  | None => (s, o)
  | Some (np, w) =>
      (set_selected (selected s) (<[(i - 1)%nat := np]> (messages s)) (set_world w s),
       if silent then o
       else o ++ lit "* " ++ num i ++ lit " FETCH (FLAGS " ++ maildir_to_imap_flags (normalize_flags nf) ++ lit ")" ++ EOL)
  end.
Definition between (rest : bytes) : bytes :=
  match find_if (is_c "(") rest, rfind_if (is_c ")") rest with
  | Some lp, Some rp => if (lp <? rp)%nat then substr rest (lp + 1) (rp - lp - 1) else []
  | _, _ => []
  end.
Definition store (tag args : bytes) : Session -> Session * bool := with_mailbox tag (fun s =>
  match find_if (is_c SP) args with
  | None => go_on (reply tag "BAD STORE argument" s)
  | Some sp =>
      let rest := drop (S sp) args in
      let rest_u := map toupper rest in
      let op := match rest_u with c :: _ => if (c =c "+") || (c =c "-") then c else "="%char | [] => "="%char end in
      let want := flag_letters (between rest) in
      match parse_seqset (take sp args) (Z.of_nat (length (messages s))) with
      | None => go_on (reply tag "OK STORE completed (empty)" s)
      | Some (lo, hi) =>
          let '(s, o) := fold_left (fun st i => store_one op want (contains (lit ".SILENT") rest_u) i st) (range lo hi) (s, []) in
          go_on (send (o ++ tag ++ lit " OK STORE completed" ++ EOL) s)
      end
  end).

(** From the last message to the first *)
Fixpoint expunge_loop (i : nat) (s : Session) (o : bytes) : Session * bytes :=
  match i with
  | O => (s, o)
  | S j =>
      if one_of (maildir_flags (nth_message s i)) "T" then
        match remove (nth_message s i) (world s) with
        | Some w =>
            expunge_loop j (set_selected (selected s) (delete j (messages s)) (set_world w s))
              (o ++ lit "* " ++ num i ++ lit " EXPUNGE" ++ EOL)
        | None => expunge_loop j s o
        end
      else expunge_loop j s o
  end.
Definition expunge (tag : bytes) : Session -> Session * bool := with_mailbox tag (fun s =>
  let '(s, o) := expunge_loop (length (messages s)) s [] in
  go_on (send (o ++ tag ++ lit " OK EXPUNGE completed" ++ EOL) s)).

(** The flags of APPEND stand in the first brackets. *)
Definition append_flags (head : bytes) : bytes :=
  match find_if (is_c "(") head with
  | Some fp => match find_from (is_c ")") head fp with
    | Some fpe => flag_letters (substr head (fp + 1) (fpe - fp - 1)) | None => [] end
  | None => []
  end.
Definition append (tag args : bytes) : Session -> Session * bool := logged_in tag (fun s =>
  match rfind_if (is_c "{") args, rfind_if (is_c "}") args with
  | Some lb, Some rb =>
      if (rb <? lb)%nat then go_on (reply tag "BAD APPEND literal {N} required" s)
      else
        let szs := substr args (lb + 1) (rb - lb - 1) in
        let nonsync := match last szs with Some c => c =c "+" | None => false end in
        let szs := if nonsync then take (length szs - 1) szs else szs in
        if (szs =s []) || negb (forallb isdigit szs) then go_on (reply tag "BAD APPEND invalid literal size" s)
        else match stoull 10 szs with
        | None => go_on (reply tag "BAD APPEND literal size" s)
        | Some litsize =>
            if max_literal C <? litsize then go_on (reply tag "NO [TOOBIG] APPEND message too large" s)
            else
              let head := take lb args in
              let mbname := match words head with m :: _ => m | [] => [] end in
              match resolve_mailbox (world s) (maildir_root s) mbname with
              | None => go_on (reply tag "NO [TRYCREATE] invalid mailbox" s)
              | Some box =>
                  let s := if nonsync then s else send (lit "+ literal data expected" ++ EOL) s in
                  match read_exact (Z.to_nat litsize) (input s) (world s) [] with
                  | None => stop s
                  | Some (data, i, w) =>
                      let '(_, i, w) := read_line i w [] in
                      let s := set_input i w s in
                      let '(w, ok) := maildir_append box (append_flags head) data (world s) in
                      let s := set_world w s in
                      go_on (if ok : bool then reply tag "OK [APPENDUID 1 1] APPEND completed" s
                             else reply tag "NO APPEND could not write" s)
                  end
              end
        end
  | _, _ => go_on (reply tag "BAD APPEND literal {N} required" s)
  end).

(** ** SEARCH *)

Fixpoint search_tokens (k : nat) (args : bytes) : list bytes :=
  match k with
  | O => []
  | S k =>
      match skip_blanks args with
      | [] => []
      | c :: r =>
          if c =c DQUOTE then
            match find_if (is_c DQUOTE) r with
            | None => [r]
            | Some e => take e r :: search_tokens k (drop (S e) r)
            end
          else match find_if (is_c SP) (c :: r) with
            | None => [c :: r]
            | Some e => take e (c :: r) :: search_tokens k (drop e (c :: r))
            end
      end
  end.
Inductive Crit := Flag (kw : bytes) | Seq (lo hi : Z) | Field (name value : bytes) | Body (value : bytes) | Text (value : bytes).
Definition flag_words : list string :=
  ["ALL"; "RECENT"; "NEW"; "OLD"; "SEEN"; "UNSEEN"; "DELETED"; "UNDELETED"; "FLAGGED"; "UNFLAGGED"; "ANSWERED"; "UNANSWERED";
   "DRAFT"; "UNDRAFT"]%string.
Definition field_words : list string := ["FROM"; "TO"; "CC"; "SUBJECT"; "BODY"; "TEXT"]%string.
Definition in_words (l : list string) (t : bytes) : bool := existsb (fun w : string => lit w =s t) l.
Definition lc (s : bytes) : bytes := map tolower s.
Definition seq_crit (set : bytes) (n : nat) : Crit :=
  match parse_seqset set (Z.of_nat n) with Some (lo, hi) => Seq lo hi | None => Seq 1 0 end.
(** [None]: bad syntax. An argument of UID that is missing is the empty set. *)
Fixpoint search_criteria (n : nat) (tok : list bytes) : option (list Crit) :=
  match tok with
  | [] => Some []
  | t :: tok =>
      let K := map toupper t in
      let more c (tok : list bytes) := match search_criteria n tok with Some cs => Some (c :: cs) | None => None end in
      if K =s lit "CHARSET" then match tok with [] => Some [] | _ :: tok => search_criteria n tok end
      else if in_words flag_words K then more (Flag K) tok
      else if in_words field_words K then
        match tok with
        | v :: tok =>
            match search_criteria n tok with
            | Some cs => Some ((if K =s lit "BODY" then Body (lc v) else if K =s lit "TEXT" then Text (lc v) else Field (lc K) (lc v)) :: cs)
            | None => None
            end
        | [] => None
        end
      else if K =s lit "HEADER" then
        match tok with
        | f :: v :: tok => match search_criteria n tok with Some cs => Some (Field (lc f) (lc v) :: cs) | None => None end
        | _ => None
        end
      else if K =s lit "UID" then
        match tok with
        | set :: tok => match search_criteria n tok with Some cs => Some (seq_crit set n :: cs) | None => None end
        | [] => Some [seq_crit [] n]
        end
      else if match t with c :: _ => isdigit c || (c =c "*") | [] => false end then more (seq_crit t n) tok
      else None
  end.
Definition needs_content (c : Crit) : bool := match c with Flag _ | Seq _ _ => false | _ => true end.
(** The lines of the header that begin with the field *)
Definition hdr_field (hdr field : bytes) : bytes :=
  let want := field ++ lit ":" in
  concat (map (fun line => if lc (take (length want) line) =s want then lc (drop (length want) line) ++ [LF] else [])
    (split_on (is_c LF) hdr)).
Definition flag_match (kw fl : bytes) (recent : bool) : bool :=
  let has c := one_of fl c in
  if kw =s lit "ALL" then true
  else if kw =s lit "RECENT" then recent
  else if kw =s lit "NEW" then recent && negb (has "S"%char)
  else if kw =s lit "OLD" then negb recent
  else if kw =s lit "SEEN" then has "S"%char
  else if kw =s lit "UNSEEN" then negb (has "S"%char)
  else if kw =s lit "DELETED" then has "T"%char
  else if kw =s lit "UNDELETED" then negb (has "T"%char)
  else if kw =s lit "FLAGGED" then has "F"%char
  else if kw =s lit "UNFLAGGED" then negb (has "F"%char)
  else if kw =s lit "ANSWERED" then has "R"%char
  else if kw =s lit "UNANSWERED" then negb (has "R"%char)
  else if kw =s lit "DRAFT" then has "D"%char
  else negb (has "D"%char).
Definition crit_match (i : nat) (path raw : bytes) (c : Crit) : bool :=
  let '(hdr, body) := split_header_body raw in
  match c with
  | Flag kw => flag_match kw (maildir_flags path) (contains (lit "/new/") path)
  | Seq lo hi => (lo <=? Z.of_nat i) && (Z.of_nat i <=? hi)
  | Field f v => contains v (hdr_field hdr f)
  | Body v => contains v (lc body)
  | Text v => contains v (lc raw)
  end.
Definition search (tag args : bytes) : Session -> Session * bool := with_mailbox tag (fun s =>
  match search_criteria (length (messages s)) (search_tokens (S (length args)) args) with
  | None => go_on (reply tag "BAD SEARCH criteria could not be parsed" s)
  | Some crits =>
      let hit (i : nat) : bool :=
        let path := nth_message s i in
        if existsb needs_content crits then
          match read_file_capped path (world s) with
          | Some raw => forallb (crit_match i path raw) crits
          | None => false
          end
        else forallb (crit_match i path []) crits in
      let hits := List.filter hit (seq 1 (length (messages s))) in
      go_on (send (lit "* SEARCH" ++ concat (map (fun i => lit " " ++ num i) hits) ++ EOL ++ tag ++ lit " OK SEARCH completed" ++ EOL) s)
  end).

(** ** The session *)

Definition command (line : bytes) (s : Session) : Session * bool :=
  let '(tag, cmd, args) := imap_parse_command line in
  let named (t : string) := cmd =s lit t in
  if tag =s [] then count_error (send (lit "* BAD empty command" ++ EOL) s)
  else if named "CAPABILITY" then capability tag s
  else if named "STARTTLS" then starttls tag s
  else if named "NOOP" then go_on (reply tag "OK NOOP completed" s)
  else if named "IDLE" then idle_command tag s
  else if named "LOGOUT" then logout tag s
  else if named "LOGIN" then login tag args s
  else if named "SELECT" || named "EXAMINE" then select tag cmd args s
  else if named "LIST" || named "LSUB" then list_command tag cmd s
  else if named "STATUS" then status tag args s
  else if named "FETCH" then fetch tag args s
  else if named "STORE" then store tag args s
  else if named "EXPUNGE" then expunge tag s
  else if named "APPEND" then append tag args s
  else if named "UID" then
    go_on (reply tag "NO [CANNOT] UID command not supported — no persistent UID (Milestone 1). Use sequence-based FETCH/STORE/SEARCH." s)
  else if named "CREATE" || named "DELETE" || named "RENAME" || named "SUBSCRIBE" || named "UNSUBSCRIBE" then
    go_on (send (tag ++ lit " NO [CANNOT] " ++ cmd ++
      lit " not supported (Milestone 1: only the current INBOX is read)." ++ EOL) s)
  else if named "SEARCH" then search tag args s
  else count_error (reply tag "BAD unknown command" s).

(** Each turn takes a line from the input, whose length is fuel enough. *)
Fixpoint session (k : nat) (s : Session) : Session :=
  match k with
  | O => s
  | S k =>
      let '(line, i, w) := read_line (input s) (world s) [] in
      let s := set_input i w s in
      match line with
      | None => s
      | Some line => let '(s, go) := command line s in if go : bool then session k s else s
      end
  end.
Definition run_session (implicit_tls : bool) (w : World) (i : list inp) : Session :=
  let s := MkS false [] [] [] 0 false w i [] in
  if implicit_tls && negb (ssl_ctx C && handshake C) then s
  else
    let s := set_tls implicit_tls s in
    session (S (length i)) (send (lit "* OK [CAPABILITY " ++ cap_line s ++ lit "] LOOK IMAP ready" ++ EOL) s).
End Server.

(** * At work *)

(** A Maildir with a message that was read and one that was not *)
Definition two_messages : World := MkW
  (<[lit "/m/u/new/2" := lit "Subject: hi" ++ [LF; LF] ++ lit "two"]> (<[lit "/m/u/cur/1:2,S" := lit "A: b" ++ [LF; LF] ++ lit "one"]> ∅))
  (list_to_set [lit "/m/u"; lit "/m/u/new"; lit "/m/u/cur"; lit "/m/u/.Sent"]).
Definition some_conf : Conf := MkConf 8192 1000 5 false false
  (fun _ pass => if pass =s lit "pw" then Some (lit "/m/u") else None)
  (fun p => if (p =s lit "/m/u") || (p =s lit "/m/u/.Sent") then Some p else None) (fun _ => lit "77") (fun _ => false).
Definition typed (ls : list string) : bytes := concat (map (fun l => lit l ++ EOL) ls).
(** What the server answers after the login, and the files at the end *)
Definition answers (ls : list string) : bytes :=
  drop (length (typed ["* OK [CAPABILITY IMAP4rev1 IDLE] LOOK IMAP ready"; "a OK LOGIN successful"]%string))
    (out (run_session some_conf false two_messages (map Byte (typed ("a LOGIN u pw"%string :: ls))))).
Definition left_files (ls : list string) : list bytes :=
  merge_sort path_le (map fst (map_to_list (files (world
    (run_session some_conf false two_messages (map Byte (typed ("a LOGIN u pw"%string :: ls)))))))).

Definition opened : list string :=
  ["* 2 EXISTS"; "* 1 RECENT"; "* OK [UIDVALIDITY 1] UID validity"; "* FLAGS (\Answered \Flagged \Deleted \Seen \Draft)";
   "* OK [PERMANENTFLAGS (\Seen \Deleted)] permanent flags"; "b OK [READ-WRITE] SELECT completed"]%string.
Example reading :
  answers ["b SELECT INBOX"; "c FETCH 1:* (FLAGS BODY[TEXT])"; "d SEARCH SUBJECT hi"]%string =
  typed (opened ++ ["* 1 FETCH (FLAGS (\Seen) BODY[TEXT] {3}"; "one)";
    "* 2 FETCH (FLAGS () BODY[TEXT] {3}"; "two)"; "c OK FETCH completed"; "* SEARCH 2"; "d OK SEARCH completed"]%string).
Proof. vm_compute. reflexivity. Qed.
Example appending :
  left_files ["b APPEND INBOX (\Seen) {3}"; "abc"]%string = [lit "/m/u/cur/1:2,S"; lit "/m/u/cur/77:2,S"; lit "/m/u/new/2"].
Proof. vm_compute. reflexivity. Qed.
(** Each message is given the same number. *)
Example append_invents_a_uid :
  answers ["b APPEND INBOX {1}"; "x"; "c APPEND INBOX {1}"; "y"]%string =
  typed ["+ literal data expected"; "b OK [APPENDUID 1 1] APPEND completed"; "+ literal data expected";
    "c OK [APPENDUID 1 1] APPEND completed"]%string.
Proof. vm_compute. reflexivity. Qed.
(** A mailbox opened with EXAMINE is not read-only. *)
Example examine_is_writable :
  left_files ["b EXAMINE INBOX"; "c STORE 1 +FLAGS (\Deleted)"; "d EXPUNGE"]%string = [lit "/m/u/new/2"].
Proof. vm_compute. reflexivity. Qed.
(** A sequence set that is no number means the first message, a list its head. *)
Example bad_set_is_one : parse_seqset (lit "foo") 3 = Some (1, 1) /\ parse_seqset (lit "2,3") 3 = Some (2, 2).
Proof. vm_compute. done. Qed.
(** BODY.PEEK and parts of the header are not understood. *)
Example peek_is_empty :
  answers ["b SELECT INBOX"; "c FETCH 1 (BODY.PEEK[])"; "d FETCH 1 (BODY[HEADER.FIELDS (FROM)])"]%string =
  typed (opened ++ ["* 1 FETCH ()"; "c OK FETCH completed"; "* 1 FETCH ()"; "d OK FETCH completed"]%string).
Proof. vm_compute. reflexivity. Qed.
(** A SELECT that fails leaves the mailbox before it selected. *)
Example failed_select_keeps_the_mailbox :
  left_files ["b SELECT INBOX"; "c SELECT nosuch"; "d STORE 1 +FLAGS (\Deleted)"; "e EXPUNGE"]%string = [lit "/m/u/new/2"].
Proof. vm_compute. reflexivity. Qed.
Example inbox_has_a_case : answers ["b SELECT inbox"]%string = typed ["b NO invalid mailbox name"]%string.
Proof. vm_compute. reflexivity. Qed.
(** Another program marks the first message: the waiting client is told of a
    third one. *)
Example idle_counts_twice :
  out (run_session some_conf false two_messages
    (map Byte (typed ["a LOGIN u pw"; "b SELECT INBOX"; "c IDLE"]%string) ++
     [Elsewhere (MkW (<[lit "/m/u/cur/1:2,FS" := []]> (delete (lit "/m/u/cur/1:2,S") (files two_messages))) (dirs two_messages))] ++
     map Byte (typed ["DONE"]%string))) =
  typed (["* OK [CAPABILITY IMAP4rev1 IDLE] LOOK IMAP ready"; "a OK LOGIN successful"]%string ++
    opened ++ ["+ idling"; "* 3 EXISTS"; "* 1 RECENT"; "c OK IDLE completed"]%string).
Proof. vm_compute. reflexivity. Qed.

End Imap.
