(* ===== verification/ImapFacts.v ===== *)
(** Theorems on the IMAP server (Imap): what a client without a login can see and
    change, the numbers of the messages, EXPUNGE, and where files are changed. *)

From stdpp Require Import sorting.
From S2P Require Import Prelude CNum Web MailAuth Imap.
#[local] Open Scope Z_scope.

Module ImapFacts.
Import CNum Web MailAuth Imap.

(** * Paths *)

Definition no_slash (n : bytes) : Prop := has_char is_slash n = false.
Definition clean (p : bytes) : Prop := p = [SLASH] \/ p <> [] /\ last p <> Some SLASH.

Lemma rfind_at p s1 c s2 : p c = true -> has_char p s2 = false -> rfind_if p (s1 ++ c :: s2) = Some (length s1).
Proof. intros Hc H. apply rfind_if_app_r; [done|]. by apply has_char_false. Qed.
Lemma filename_app d n : no_slash n -> filename (d ++ SLASH :: n) = n.
Proof.
  intros Hn. unfold filename. rewrite rfind_at by done.
  change (d ++ SLASH :: n) with (d ++ [SLASH] ++ n). rewrite app_assoc. by apply drop_app_length'; rewrite length_app; cbn; lia.
Qed.
Lemma filename_plain n : no_slash n -> filename n = n.
Proof. intros Hn. unfold filename. by rewrite (proj2 (rfind_if_None _ _) (proj1 (has_char_false _ _) Hn)). Qed.
Lemma parent_app d n : clean d -> no_slash n -> parent_path (d ++ SLASH :: n) = d.
Proof.
  intros Hd Hn. unfold parent_path. rewrite rfind_at by done. rewrite take_app_length.
  destruct Hd as [->|[Hd Hl]]; [done|]. destruct (last d) as [c|] eqn:E; [|by apply last_None in E].
  apply last_Some in E as (d' & ->). rewrite rfind_at; [|rewrite negb_true_iff; apply is_c_false; congruence|done].
  by rewrite take_app_length' by (rewrite length_app; cbn; lia).
Qed.
Lemma parent_root n : no_slash n -> parent_path (SLASH :: n) = [SLASH].
Proof. intros Hn. unfold parent_path. change (SLASH :: n) with ([] ++ SLASH :: n). by rewrite rfind_at. Qed.

Lemma join_clean d n : clean d -> d <> [SLASH] -> join_path d n = d ++ SLASH :: n.
Proof.
  intros [->|[Hd Hl]]; [done|]. intros _. unfold join_path. destruct (last d) as [c|] eqn:E; [|by apply last_None in E].
  destruct (Ascii.eqb_spec c SLASH) as [->|]; [congruence|done].
Qed.
Lemma filename_join d n : clean d -> no_slash n -> filename (join_path d n) = n.
Proof.
  intros Hd Hn. destruct (decide (d = [SLASH])) as [->|]; [by apply (filename_app [])|].
  rewrite join_clean by done. by apply filename_app.
Qed.
Lemma parent_join d n : clean d -> no_slash n -> parent_path (join_path d n) = d.
Proof.
  intros Hd Hn. destruct (decide (d = [SLASH])) as [->|]; [by apply parent_root|].
  rewrite join_clean by done. by apply parent_app.
Qed.
Lemma clean_join d n : clean d -> no_slash n -> n <> [] -> clean (join_path d n).
Proof.
  intros Hd Hn Hne. right. assert (Hl : forall pre, last (pre ++ SLASH :: n) <> Some SLASH).
  { intros pre. destruct (last n) as [c|] eqn:E; [|by apply last_None in E]. apply last_Some in E as (n' & ->).
    unfold no_slash, has_char in Hn. rewrite existsb_app in Hn. apply orb_false_iff in Hn as [_ Hn]. cbn in Hn.
    rewrite orb_false_r in Hn. apply is_c_false in Hn.
    rewrite app_comm_cons, app_assoc, last_snoc. congruence. }
  destruct (decide (d = [SLASH])) as [->|]; [split; [done|apply (Hl [])]|].
  rewrite join_clean by done. split; [by destruct d|apply Hl].
Qed.
(** The only paths of messages: a name in [cur], [new] or [tmp] of a mailbox *)
Definition part (sub : bytes) : Prop := sub = lit "cur" \/ sub = lit "new" \/ sub = lit "tmp".
Lemma part_ok sub : part sub -> no_slash sub /\ sub <> [].
Proof. by intros [-> | [-> | ->]]. Qed.
Definition inside (box p : bytes) : Prop :=
  exists sub n, part sub /\ no_slash n /\ p = join_path (join_path box sub) n.

Lemma no_slash_app a b : no_slash a -> no_slash b -> no_slash (a ++ b).
Proof. unfold no_slash, has_char. rewrite existsb_app. by intros -> ->. Qed.
Lemma no_slash_take k n : no_slash n -> no_slash (take k n).
Proof. unfold no_slash. rewrite !has_char_false. apply Forall_take. Qed.
Lemma no_slash_filter p n : no_slash n -> no_slash (List.filter p n).
Proof.
  unfold no_slash. rewrite !has_char_false, !List.Forall_forall. intros H c Hc. apply H.
  by apply List.filter_In in Hc as [].
Qed.

(** * Flags *)

Lemma base_name_ok name s1 s2 : base_name name <> s1 ++ info ++ s2.
Proof.
  unfold base_name. destruct (find_str info name) as [p|] eqn:E; [|by apply find_str_None].
  intros H. destruct (find_str_Some _ _ _ E) as (t1 & t2 & Hn & Hp).
  assert (Ht : take p name = t1) by (rewrite Hn, <- Hp; apply take_app_length). rewrite Ht in H.
  assert (Hl : (p <= length s1)%nat).
  { apply (find_str_first _ _ _ s1 (s2 ++ info ++ t2) E). rewrite Hn, H, <- !app_assoc. done. }
  rewrite <- Hp, H, !length_app in Hl. cbn in Hl. lia.
Qed.
Lemma find_info b fl : (forall s1 s2, b <> s1 ++ info ++ s2) -> find_str info (b ++ info ++ fl) = Some (length b).
Proof.
  induction b as [|c b IH]; intros H; [done|]. cbn [find_str app].
  assert (E : starts_with info (c :: b ++ info ++ fl) = false).
  { destruct (starts_with info _) eqn:E; [|done]. exfalso. apply starts_with_spec in E as [r E].
    cbn in E. injection E as -> E. destruct b as [|c2 b]; [discriminate|].
    injection E as -> E. destruct b as [|c3 b]; [discriminate|]. injection E as -> _. by apply (H [] b). }
  rewrite E, IH; [done|]. intros s1 s2 ->. by apply (H (c :: s1) s2).
Qed.
Lemma base_name_again name fl : base_name (base_name name ++ info ++ fl) = base_name name.
Proof. unfold base_name at 1. rewrite find_info by apply base_name_ok. apply take_app_length. Qed.

Lemma normalize_letters f : Forall (fun c => is_flag c = true) (normalize_flags f).
Proof.
  unfold normalize_flags. apply List.Forall_forall. intros c Hc. apply List.filter_In in Hc as [Hc _].
  repeat (destruct Hc as [<-|Hc]; [done|]). done.
Qed.
Lemma no_slash_normalize f : no_slash (normalize_flags f).
Proof. by apply no_slash_filter. Qed.

Definition new_name (p f : bytes) : bytes := base_name (filename p) ++ info ++ normalize_flags f.
Lemma new_name_ok p f : no_slash (filename p) -> no_slash (new_name p f) /\ new_name p f <> [].
Proof.
  intros H. split; [|unfold new_name; by destruct (base_name _)].
  unfold new_name, base_name. apply no_slash_app; [|apply no_slash_app; [done|apply no_slash_normalize]].
  destruct (find_str info _); [by apply no_slash_take|done].
Qed.
(** A message stays in its mailbox, out of [new]. *)
Lemma with_flags_inside box p f : clean box -> inside box p ->
  exists sub, part sub /\ with_flags p f = join_path (join_path box sub) (new_name p f) /\ no_slash (new_name p f) /\ new_name p f <> [].
Proof.
  intros Hb (sub & n & Hs & Hn & ->). destruct (part_ok sub Hs) as [Hns Hne].
  assert (Hc : clean (join_path box sub)) by by apply clean_join.
  assert (Hf : filename (join_path (join_path box sub) n) = n) by by apply filename_join.
  destruct (new_name_ok (join_path (join_path box sub) n) f) as [H1 H2]; [by rewrite Hf|].
  unfold with_flags. fold (new_name (join_path (join_path box sub) n) f). rewrite (parent_join _ n Hc Hn), filename_join by done.
  destruct (bytes_eqb_spec sub (lit "new")) as [->|].
  - rewrite parent_join by done. exists (lit "cur"). split; [by left|done].
  - by exists sub.
Qed.
Lemma filename_with_flags box p f : clean box -> inside box p -> filename (with_flags p f) = new_name p f.
Proof.
  intros Hb Hp. destruct (with_flags_inside box p f Hb Hp) as (sub & Hs & -> & H1 & _).
  destruct (part_ok sub Hs). apply filename_join; [by apply clean_join|done].
Qed.
(** What STORE writes is what is read back. *)
Lemma flags_of_with_flags box p f : clean box -> inside box p -> maildir_flags (with_flags p f) = normalize_flags f.
Proof.
  intros Hb Hp. unfold maildir_flags. rewrite (filename_with_flags box p f Hb Hp). unfold new_name.
  rewrite find_info by apply base_name_ok. change 3%nat with (length info).
  rewrite drop_app_add, drop_app_length. apply filter_all, normalize_letters.
Qed.
Lemma base_with_flags box p f : clean box -> inside box p ->
  base_name (filename (with_flags p f)) = base_name (filename p).
Proof. intros Hb Hp. rewrite (filename_with_flags box p f Hb Hp). apply base_name_again. Qed.

(** * Directories and ranges *)

Lemma join_app d r : join_path d [] ++ r = join_path d r.
Proof. unfold join_path. destruct (last d) as [c|]; [|done]. destruct (c =c SLASH); by rewrite <- !app_assoc. Qed.
Lemma child_spec d p : is_child d p = true -> exists n, no_slash n /\ p = join_path d n.
Proof.
  unfold is_child. rewrite !andb_true_iff, !negb_true_iff. intros [[H Hn] _].
  apply starts_with_spec in H as [r ->]. rewrite drop_app_length in Hn. exists r. split; [done|]. apply join_app.
Qed.
Lemma build_messages_inside w box : Forall (inside box) (build_messages w box).
Proof.
  unfold build_messages. rewrite merge_sort_Permutation. apply List.Forall_forall. intros p Hp.
  assert (Hc : forall sub, part sub -> In p (children w (join_path box sub)) -> inside box p).
  { intros sub Hs. unfold children. destruct (is_directory _ _); [|done]. intros H.
    apply List.filter_In in H as [_ H]. apply child_spec in H as (n & Hn & ->). by exists sub, n. }
  apply List.in_app_iff in Hp as [Hp|Hp]; (eapply Hc; [|exact Hp]); [by left|by right; left].
Qed.
Lemma parse_seqset_bounds t n lo hi : parse_seqset t n = Some (lo, hi) -> 0 <= n -> 1 <= lo <= hi /\ hi <= n.
Proof.
  unfold parse_seqset. cbv zeta. destruct (Z.eqb_spec n 0); [done|].
  destruct (match find_if _ t with None => _ | Some _ => _ end) as [a b].
  destruct (if b <? a then (b, a) else (a, b)) as [a' b'].
  destruct (Z.ltb_spec a' 1), (Z.ltb_spec n b'); (match goal with |- (if ?x <=? ?y then _ else _) = _ -> _ => destruct (Z.leb_spec x y) end);
    intros [= <- <-]; lia.
Qed.
Lemma range_bounds lo hi n i : 1 <= lo <= hi -> hi <= Z.of_nat n -> In i (range lo hi) -> (1 <= i <= n)%nat.
Proof. unfold range. intros H1 H2 [H3 H4]%List.in_seq. lia. Qed.
Lemma nth_message_In s i : (1 <= i <= length (messages s))%nat -> messages s !! (i - 1)%nat = Some (nth_message s i).
Proof.
  intros H. unfold nth_message. destruct (messages s !! (i - 1)%nat) eqn:E; [done|].
  apply lookup_ge_None in E. lia.
Qed.

(** * Where files are changed *)

(** [p] is the directory [d] or lies in it. The code takes a backslash for a
    separator too, see [backslash_is_beside]. *)
Definition under (d p : bytes) : Prop :=
  p = d \/ exists rest, p = d ++ SLASH :: rest \/ p = d ++ BACKSLASH :: rest.
(** What [weakly_canonical] does for the mailboxes of a user: below the
    canonical path of the Maildir a canonical path has no slash at its end. *)
Definition canonical_mailboxes (C : Conf) : Prop := forall u pw r mb d c,
  auth C u pw = Some r -> component mb ->
  weakly_canonical C r = Some d -> weakly_canonical C (join_path r (lit "." ++ mb)) = Some c -> under d c -> clean c.

Lemma within_under d p : within d p = true -> under d p.
Proof.
  unfold within. intros [[rest ->]%starts_with_spec H]%andb_true_iff. rewrite drop_app_length in H.
  destruct rest as [|c rest]; [left; by rewrite app_nil_r|]. right. exists rest.
  apply orb_true_iff in H as [H|H]; apply Ascii.eqb_eq in H as ->; auto.
Qed.

Lemma mailbox_component name mb : imap_mailbox_name_ok name = Some mb -> component mb.
Proof. apply (mail_names_contained (fun x => x) [] (fun _ _ => None) name [] []). Qed.

Section Contained.
Context (C : Conf).
Hypothesis auth_clean : forall u p r, auth C u p = Some r -> clean r.
Hypothesis canonical_clean : canonical_mailboxes C.
Hypothesis unique_name : forall w, no_slash (unique C w).

(** The mailboxes of a user who can log in: the Maildir, and the directories
    of a dot and a name in it, when they lie in its canonical directory *)
Definition of_user (r box : bytes) : Prop :=
  box = r \/ exists d mb, component mb /\ weakly_canonical C r = Some d /\
    weakly_canonical C (join_path r (lit "." ++ mb)) = Some box /\ under d box.
Definition allowed (box : bytes) : Prop := exists u p r, auth C u p = Some r /\ of_user r box.
Lemma allowed_clean box : allowed box -> clean box.
Proof. intros (u & p & r & Ha & [-> | (d & mb & Hm & Hd & Hq & Hu)]); [by eapply auth_clean|by eapply canonical_clean]. Qed.

Record good (s : Session) : Prop := {
  good_user : authenticated s = true -> exists u p, auth C u p = Some (maildir_root s);
  good_box : messages s <> [] \/ selected s <> [] -> allowed (selected s);
  good_messages : Forall (inside (selected s)) (messages s);
  good_input : exists bs, input s = map Byte bs }.
Definition changed (w w' : World) (p : bytes) : Prop := files w' !! p <> files w !! p.
Definition ok (s s' : Session) : Prop :=
  good s' /\ forall p, changed (world s) (world s') p -> exists box, allowed box /\ inside box p.

Lemma ok_refl s : good s -> ok s s.
Proof. by split. Qed.
Lemma ok_trans s1 s2 s3 : ok s1 s2 -> ok s2 s3 -> ok s1 s3.
Proof.
  intros [_ H1] [G2 H2]. split; [done|]. intros p Hp.
  destruct (decide (files (world s2) !! p = files (world s1) !! p)) as [E|]; [|auto].
  apply H2. unfold changed in *. by rewrite E.
Qed.
(** What changes neither the world nor the mailbox *)
Definition quiet (s s' : Session) : Prop :=
  authenticated s' = authenticated s /\ maildir_root s' = maildir_root s /\ selected s' = selected s /\
  messages s' = messages s /\ world s' = world s /\ input s' = input s.
Lemma ok_quiet s s' : good s -> quiet s s' -> ok s s'.
Proof.
  intros [] (E1 & E2 & E3 & E4 & E5 & E6). split; [constructor; rewrite ?E1, ?E2, ?E3, ?E4, ?E6; auto|].
  intros p Hp. by rewrite E5 in Hp.
Qed.
Ltac quiet := apply ok_quiet; [assumption|done].

(** Input of bytes only *)
Lemma read_line_bytes bs acc : exists line bs',
  forall w, read_line C (map Byte bs) w acc = (line, map Byte bs', w).
Proof.
  induction bs as [|c bs IH] in acc |- *; [by exists None, []|]. cbn [map read_line].
  destruct (c =c CR); [apply IH|]. destruct (c =c LF); [by exists (Some acc), bs|].
  destruct (_ <? _)%nat; [by exists None, bs|apply IH].
Qed.
Lemma read_exact_bytes n : forall bs acc, exists r,
  match r with
  | None => forall w, read_exact n (map Byte bs) w acc = None
  | Some (data, bs') => forall w, read_exact n (map Byte bs) w acc = Some (data, map Byte bs', w)
  end.
Proof.
  induction n as [|n IH]; intros bs acc; [by exists (Some (acc, bs))|]. destruct bs as [|c bs]; [by exists None|].
  apply IH.
Qed.

Lemma ok_logged_in tag k s : good s -> (authenticated s = true -> ok s (k s).1) -> ok s (logged_in tag k s).1.
Proof. intros G H. unfold logged_in. destruct (authenticated s); [auto|]. cbn. quiet. Qed.
Lemma ok_with_mailbox tag k s : good s -> (allowed (selected s) -> ok s (k s).1) -> ok s (with_mailbox tag k s).1.
Proof.
  intros G H. apply ok_logged_in; [done|]. intros Ha. destruct (selected s) as [|c b] eqn:E; [cbn; quiet|].
  apply H. rewrite <- E. apply (good_box s G). right. by rewrite E.
Qed.

Lemma resolve_allowed w root name box u p :
  auth C u p = Some root -> resolve_mailbox C w root name = Some box -> allowed box.
Proof.
  intros Ha E. exists u, p, root. split; [done|]. revert E. unfold resolve_mailbox.
  destruct root as [|c r]; [done|]. set (root := c :: r) in *.
  destruct (imap_mailbox_name_ok name) as [mb|] eqn:En; [|done].
  destruct (mb =s lit "INBOX"); [intros [= <-]; by left|].
  destruct (weakly_canonical C root) as [rs|] eqn:Er; [|done].
  destruct (weakly_canonical C (join_path root _)) as [ts|] eqn:Et; [|done].
  destruct (within rs ts) eqn:Ew; [|done]. destruct (is_directory w ts); [|done]. intros [= <-]. right.
  exists rs, mb. split; [by eapply mailbox_component|]. split; [done|]. split; [done|by apply within_under].
Qed.
Lemma good_select s box ms : good s -> allowed box -> Forall (inside box) ms -> good (set_selected box ms s).
Proof. intros [] Hb Hm. by constructor. Qed.
Lemma ok_select tag cmd args s : good s -> ok s (select C tag cmd args s).1.
Proof.
  intros G. apply ok_logged_in; [done|]. intros Ha. destruct (good_user s G Ha) as (u & p & Hu).
  destruct (resolve_mailbox _ _ _ _) as [box|] eqn:E; [|cbn; quiet].
  split; [|by intros q Hq]. assert (Hb : allowed box) by (eapply resolve_allowed; eauto).
  pose proof (good_select s box _ G Hb (build_messages_inside (world s) box)) as []. by constructor.
Qed.

Lemma rename_changed a b w w' p : rename C a b w = Some w' -> changed w w' p -> p = a \/ p = b.
Proof.
  unfold rename, changed. destruct (files w !! a) as [d|]; [|done]. destruct (_ || _); [done|]. intros [= <-]. cbn.
  destruct (decide (p = b)) as [->|]; [auto|]. destruct (decide (p = a)) as [->|]; [auto|].
  rewrite lookup_insert_ne, lookup_delete_ne by done. done.
Qed.
Lemma remove_changed a w w' p : remove C a w = Some w' -> changed w w' p -> p = a.
Proof.
  unfold remove, changed. destruct (_ || _); [done|]. intros [= <-]. cbn.
  destruct (decide (p = a)) as [->|]; [done|]. by rewrite lookup_delete_ne.
Qed.

(** The state after a change of one message of the mailbox *)
Lemma ok_message s w ms : good s -> (messages s <> [] -> Forall (inside (selected s)) ms) -> (messages s = [] -> ms = []) ->
  (forall p, changed (world s) w p -> exists box, allowed box /\ inside box p) ->
  ok s (set_selected (selected s) ms (set_world w s)).
Proof.
  intros [] Hm Hn Hw. split; [|done]. constructor; cbn; auto.
  - intros [H|H]; [|auto]. apply good_box0. left. intros E. by apply H, Hn.
  - destruct (decide (messages s = [])) as [E|]; [by rewrite Hn|auto].
Qed.
Lemma ok_store_one op want silent i s o : good s -> (1 <= i <= length (messages s))%nat ->
  ok s (store_one C op want silent i (s, o)).1 /\
  length (messages (store_one C op want silent i (s, o)).1) = length (messages s).
Proof.
  intros G Hi. pose proof (nth_message_In s i Hi) as Hn. unfold store_one.
  assert (Hms : messages s <> []) by (destruct (messages s); [cbn in Hi; lia|done]).
  assert (Hb : allowed (selected s)) by (apply good_box; auto).
  assert (Hp : inside (selected s) (nth_message s i)) by (eapply Forall_lookup_1; [apply (good_messages s G)|exact Hn]).
  set (nf := store_flags _ _ _). unfold apply_flags.
  destruct (with_flags_inside (selected s) _ nf (allowed_clean _ Hb) Hp) as (sub & Hs & Hd & Hns & _).
  assert (Hd' : inside (selected s) (with_flags (nth_message s i) nf)) by (rewrite Hd; by exists sub, (new_name (nth_message s i) nf)).
  assert (Hin : Forall (inside (selected s)) (<[(i - 1)%nat:=with_flags (nth_message s i) nf]> (messages s)))
    by (apply Forall_insert; [apply (good_messages s G)|done]).
  destruct (bytes_eqb_spec (with_flags (nth_message s i) nf) (nth_message s i)) as [E|].
  - cbn [fst]. rewrite E in Hin. split; [|cbn; apply length_insert]. apply ok_message; [done|done|done|by intros p Hq].
  - destruct (rename _ _ _ _) as [w|] eqn:Er; [|by split; [apply ok_refl|]]. cbn [fst].
    split; [|cbn; apply length_insert]. apply ok_message; [done|done|done|].
    intros p Hq. exists (selected s). split; [done|]. by destruct (rename_changed _ _ _ _ _ Er Hq) as [-> | ->].
Qed.
Lemma ok_store_loop op want silent idx : forall s o, good s -> Forall (fun i => 1 <= i <= length (messages s))%nat idx ->
  ok s (fold_left (fun st i => store_one C op want silent i st) idx (s, o)).1.
Proof.
  induction idx as [|i idx IH]; intros s o G Hi; [by apply ok_refl|]. apply Forall_cons in Hi as [Hi Hidx].
  cbn [fold_left]. destruct (ok_store_one op want silent i s o G Hi) as [H1 H2].
  destruct (store_one C op want silent i (s, o)) as [s1 o1]. cbn [fst] in *.
  eapply ok_trans; [exact H1|]. apply IH; [apply H1|]. by rewrite H2.
Qed.
Lemma ok_send_all s s' t : ok s s' -> ok s (send t s').
Proof. intros [G H]. split; [|done]. destruct G. by constructor. Qed.
Lemma ok_store tag args s : good s -> ok s (store C tag args s).1.
Proof.
  intros G. apply ok_with_mailbox; [done|]. intros _. destruct (find_if _ args) as [sp|]; [|cbn; quiet]. cbv zeta.
  destruct (parse_seqset _ _) as [[lo hi]|] eqn:E; [|cbn; quiet].
  match goal with |- context [fold_left ?f ?l (s, [])] =>
    assert (H : ok s (fold_left f l (s, [])).1); [apply ok_store_loop; [done|]|destruct (fold_left f l (s, [])) as [s1 o]] end;
    [|by apply ok_send_all].
  apply List.Forall_forall. intros i Hi.
  destruct (parse_seqset_bounds _ _ _ _ E) as [H1 H2]; [lia|]. by eapply range_bounds.
Qed.

Lemma ok_expunge_loop i : forall s o, good s -> (i <= length (messages s))%nat -> ok s (expunge_loop C i s o).1.
Proof.
  induction i as [|j IH]; intros s o G Hi; [by apply ok_refl|]. cbn [expunge_loop].
  destruct (one_of _ _); [|apply IH; [done|lia]].
  destruct (remove C _ _) as [w|] eqn:Er; [|apply IH; [done|lia]].
  assert (H : ok s (set_selected (selected s) (delete j (messages s)) (set_world w s))).
  { pose proof (nth_message_In s (S j) ltac:(lia)) as Hn. apply ok_message; [done| | |].
    - intros _. apply Forall_delete, (good_messages s G).
    - intros E. rewrite E in Hi. cbn in Hi. lia.
    - intros p Hp. exists (selected s). rewrite (remove_changed _ _ _ _ Er Hp).
      split; [apply good_box; [done|left; intros E; rewrite E in Hi; cbn in Hi; lia]|].
      eapply Forall_lookup_1; [apply (good_messages s G)|exact Hn]. }
  eapply ok_trans; [exact H|]. apply IH; [apply H|]. cbn. rewrite length_delete by (apply lookup_lt_is_Some; lia). lia.
Qed.
Lemma ok_expunge tag s : good s -> ok s (expunge C tag s).1.
Proof.
  intros G. apply ok_with_mailbox; [done|]. intros _.
  pose proof (ok_expunge_loop (length (messages s)) s [] G ltac:(lia)) as H.
  destruct (expunge_loop _ _ _ _) as [s1 o]. by apply ok_send_all.
Qed.

Lemma create_directories_files p w : files (create_directories C p w) = files w.
Proof.
  unfold create_directories. generalize (omap (fun '(i, c) => if (c =c SLASH) && (0 <? i)%nat then Some (take i p) else None)
    (combine (seq 0 (length p)) p) ++ [p]) as ds. intros ds.
  induction ds as [|d ds IH] in w |- *; [done|]. cbn [make_dirs]. destruct (is_directory w d); [apply IH|].
  destruct (_ || _); [done|]. by rewrite IH.
Qed.
Lemma append_changed box fl d w p : changed w (maildir_append C box fl d w).1 p -> inside box p.
Proof.
  unfold maildir_append. set (w0 := fold_right (create_directories C) w _). set (u := unique C w0).
  assert (Hw0 : files w0 = files w) by (unfold w0; cbn [fold_right]; by rewrite !create_directories_files).
  assert (Hu : no_slash u) by apply unique_name.
  set (tmp := join_path (join_path box (lit "tmp")) u).
  assert (Ht : inside box tmp) by (exists (lit "tmp"), u; split; [by right; right|done]).
  destruct (_ || _); [intros Hp; destruct Hp; exact (f_equal (lookup p) Hw0)|]. cbv zeta.
  set (dest := match normalize_flags fl with [] => _ | _ => _ end).
  assert (Hd : inside box dest).
  { subst dest. pose proof (no_slash_normalize fl) as Hf. destruct (normalize_flags fl) as [|c nf].
    - exists (lit "new"), u. split; [by right; left|done].
    - exists (lit "cur"), (u ++ info ++ c :: nf). split; [by left|]. split; [|done].
      apply no_slash_app; [done|]. by apply no_slash_app. }
  assert (Hput : forall q, changed w (put_file tmp d w0) q -> q = tmp).
  { intros q Hq. destruct (decide (q = tmp)); [done|]. destruct Hq. cbn. rewrite lookup_insert_ne by done. exact (f_equal (lookup q) Hw0). }
  assert (Hvia : forall w' q, changed w w' q -> (changed (put_file tmp d w0) w' q -> inside box q) -> inside box q).
  { intros w' q Hq H. destruct (decide (files (put_file tmp d w0) !! q = files w !! q)) as [E|E].
    - apply H. unfold changed in *. by rewrite E.
    - by rewrite (Hput q E). }
  destruct (rename C tmp dest _) as [w1|] eqn:Er; cbn [fst].
  - intros Hp. apply (Hvia _ _ Hp). intros H. by destruct (rename_changed _ _ _ _ _ Er H) as [-> | ->].
  - destruct (remove C tmp _) as [w1|] eqn:Em; intros Hp; [|by rewrite (Hput p Hp)].
    apply (Hvia _ _ Hp). intros H. by rewrite (remove_changed _ _ _ _ Em H).
Qed.

Lemma ok_input s bs w : good s -> world s = w -> ok s (set_input (map Byte bs) w s).
Proof. intros [] <-. split; [constructor; eauto|by intros p []]. Qed.
Lemma ok_append tag args s : good s -> ok s (append C tag args s).1.
Proof.
  intros G. apply ok_logged_in; [done|]. intros Ha. destruct (good_user s G Ha) as (u & p & Hu).
  destruct (rfind_if _ args) as [lb|]; [|cbn; quiet]. destruct (rfind_if _ args) as [rb|]; [|cbn; quiet].
  destruct (_ <? _)%nat; [cbn; quiet|]. cbv zeta.
  destruct (_ || _); [cbn; quiet|]. destruct (stoull 10 _) as [litsize|]; [|cbn; quiet].
  destruct (_ <? litsize); [cbn; quiet|].
  destruct (resolve_mailbox _ _ _ _) as [box|] eqn:E; [|cbn; quiet].
  assert (Hb : allowed box) by (eapply resolve_allowed; eauto).
  match goal with |- context [read_exact _ (input ?x)] => set (s1 := x) end.
  assert (H1 : ok s s1) by (subst s1; destruct (match last _ with Some _ => _ | None => _ end); quiet).
  destruct H1 as [G1 H1]. destruct (good_input s1 G1) as [bs Hbs]. rewrite Hbs.
  destruct (read_exact_bytes (Z.to_nat litsize) bs []) as [[[d bs']|] Hr]; rewrite Hr; [|by split].
  destruct (read_line_bytes bs' []) as (line & bs'' & Hl). rewrite Hl.
  set (s2 := set_input (map Byte bs'') (world s1) s1).
  assert (H2 : ok s s2) by (eapply ok_trans; [by split|by apply ok_input]).
  destruct (maildir_append _ _ _ _ _) as [w ok'] eqn:Em.
  assert (H3 : ok s (set_world w s2)).
  { eapply ok_trans; [exact H2|]. destruct H2 as [[] _]. split; [by constructor|]. intros q Hq. exists box. split; [done|].
    apply (append_changed box (append_flags (take lb args)) d (world s2)). by rewrite Em. }
  destruct ok'; by apply ok_send_all.
Qed.

Lemma ok_idle tag s : good s -> ok s (idle_command C tag s).1.
Proof.
  intros G. apply ok_with_mailbox; [done|]. intros _. destruct (good_input s G) as [bs Hbs]. rewrite Hbs.
  set (s1 := send _ s). assert (H1 : ok s s1) by (subst s1; by apply ok_send_all, ok_refl).
  destruct bs as [|c bs]; [exact H1|]. cbn [idle map]. change (Byte c :: map Byte bs) with (map Byte (c :: bs)).
  destruct (read_line_bytes (c :: bs) []) as (line & bs' & Hl). rewrite Hl.
  assert (H2 : ok s (set_input (map Byte bs') (world s1) s1)) by (eapply ok_trans; [exact H1|by apply ok_input; [apply H1|]]).
  destruct line as [line|]; [|done]. destruct (_ =s _); by apply ok_send_all.
Qed.
Lemma ok_starttls tag s : good s -> ok s (starttls C tag s).1.
Proof.
  intros G. unfold starttls. destruct (tls s); [cbn; quiet|]. destruct (negb _); [cbn; quiet|]. cbv zeta.
  destruct (handshake C); [|cbn; quiet]. split; [|by intros p []]. destruct G. constructor; cbn; try done. by intros [].
Qed.
Lemma ok_login tag args s : good s -> ok s (login C tag args s).1.
Proof.
  intros G. unfold login. destruct (_ && _); [cbn; quiet|]. destruct (imap_split_two args) as [u p].
  destruct (auth C u p) as [r|] eqn:E; [|cbn; quiet]. split; [|by intros q []]. destruct G. constructor; cbn; eauto.
Qed.
Lemma ok_command line s : good s -> ok s (command C line s).1.
Proof.
  intros G. unfold command. destruct (imap_parse_command line) as [[tag cmd] args]. cbv zeta.
  repeat match goal with |- ok _ (if ?b then _ else _).1 => destruct b end;
    first [by apply ok_starttls | by apply ok_login | by apply ok_select | by apply ok_store | by apply ok_expunge
      | by apply ok_append | by apply ok_idle | quiet | idtac].
  - apply ok_logged_in; [done|]. intros _. cbn. quiet.
  - apply ok_logged_in; [done|]. intros _. cbv beta zeta. destruct (resolve_mailbox C _ _ _); [|cbn; quiet].
    destruct (count_maildir _ _). cbn. quiet.
  - apply ok_with_mailbox; [done|]. intros _. cbv beta zeta. destruct (find_if _ args); [|cbn; quiet].
    destruct (contains _ _); [cbn; quiet|]. destruct (parse_seqset _ _) as [[]|]; cbn; quiet.
  - apply ok_with_mailbox; [done|]. intros _. cbv beta zeta. destruct (search_criteria _ _); cbn; quiet.
Qed.
Lemma ok_session k : forall s, good s -> ok s (session C k s).
Proof.
  induction k as [|k IH]; intros s G; [by apply ok_refl|]. cbn [session]. destruct (good_input s G) as [bs Hbs].
  rewrite Hbs. destruct (read_line_bytes bs []) as (line & bs' & Hl). rewrite Hl.
  pose proof (ok_input s bs' (world s) G eq_refl) as H1. destruct line as [line|]; [|done].
  pose proof (ok_command line _ (proj1 H1)) as H2. destruct (command C line _) as [s1 go]. cbn [fst] in H2.
  eapply ok_trans; [exact H1|]. eapply ok_trans; [exact H2|]. destruct go; [apply IH, H2|]. apply ok_refl, H2.
Qed.

End Contained.

(** * A client without a login *)

Lemma blind_command C line s w : (forall u p, auth C u p = None) -> authenticated s = false ->
  let r := command C line s in
  authenticated r.1 = false /\ world r.1 = world s /\ input r.1 = input s /\
  command C line (set_world w s) = (set_world w r.1, r.2).
Proof.
  intros Ha Hs. destruct s as [a r b ms e t w0 i o]. cbn in Hs. subst a.
  unfold command. destruct (imap_parse_command line) as [[tag cmd] args]. cbv zeta.
  repeat match goal with |- context [if ?b then _ else _] =>
    lazymatch b with context [set_world] => fail | _ => destruct b end end; try done.
  - unfold starttls. cbn. destruct t; [done|]. destruct (ssl_ctx C); [|done]. cbn. by destruct (handshake C).
  - unfold login. cbn. destruct (ssl_ctx C && negb t); [done|]. destruct (imap_split_two args) as [u p]. by rewrite Ha.
Qed.
Lemma blind_session C k : (forall u p, auth C u p = None) -> forall s bs w, authenticated s = false -> input s = map Byte bs ->
  out (session C k (set_world w s)) = out (session C k s) /\ world (session C k s) = world s.
Proof.
  intros Ha. induction k as [|k IH]; intros s bs w Hs Hi; [done|]. cbn [session].
  change (input (set_world w s)) with (input s). rewrite Hi. destruct (read_line_bytes C bs []) as (line & bs' & Hl).
  rewrite !Hl. destruct line as [line|]; [|done].
  set (s1 := set_input (map Byte bs') (world s) s).
  change (set_input (map Byte bs') (world (set_world w s)) (set_world w s)) with (set_world w s1).
  destruct (blind_command C line s1 w Ha Hs) as (H1 & H2 & H3 & ->).
  destruct (command C line s1) as [s2 go]. cbn [fst snd] in *. destruct go; [|done].
  destruct (IH s2 bs' w H1 H3) as [-> ->]. by rewrite H2.
Qed.

(** C20: A client that can not log in learns nothing about the mail and changes
    nothing: whatever it sends, the server answers the same over any two worlds,
    and leaves the files as they are. *)
Theorem imap_needs_login C implicit_tls w w' client :
  (forall u p, auth C u p = None) ->
  let s := run_session C implicit_tls w (map Byte client) in
  out s = out (run_session C implicit_tls w' (map Byte client)) /\ world s = w.
Proof.
  intros Ha. cbv zeta. unfold run_session. destruct (_ && _); [done|].
  match goal with |- out (session C ?k ?s) = _ /\ _ => destruct (blind_session C k Ha s client w' eq_refl eq_refl) as [H1 H2] end.
  split; [by rewrite <- H1|done].
Qed.

(** C17: Whatever a client does, the server creates, changes and removes files only
    in [cur], [new] and [tmp] of the mailboxes of a user whose login the handler
    accepts: the Maildir of that user, or the directory that a dot and a name
    without separators lead to, and only when its canonical path is that of the
    Maildir or goes on behind it with a separator. *)
Theorem imap_changes_contained C implicit_tls w client p :
  (forall u pw r, auth C u pw = Some r -> clean r) ->
  canonical_mailboxes C ->
  (forall w, no_slash (unique C w)) ->
  files (world (run_session C implicit_tls w (map Byte client))) !! p <> files w !! p ->
  exists u pw r box, auth C u pw = Some r /\ of_user C r box /\ inside box p.
Proof.
  intros Ha Hc Hu. unfold run_session. destruct (_ && _); [done|]. intros Hp.
  match type of Hp with files (world (session C ?k ?s)) !! _ <> _ =>
    assert (G : good C s) by (constructor; cbn; try done; [by intros [H|H] | by exists client]);
    destruct (ok_session C Ha Hc Hu k s G) as [_ H] end.
  destruct (H p Hp) as (box & (u & pw & r & H1 & H2) & H3). eauto 10.
Qed.

(** * The numbers of the messages *)

Definition bases (s : Session) : list bytes := map (fun p => base_name (filename p)) (messages s).
Definition placed (s : Session) : Prop :=
  messages s = [] \/ clean (selected s) /\ Forall (inside (selected s)) (messages s).

Lemma bases_insert f (ms : list bytes) k p q : ms !! k = Some p -> f q = f p -> map f (<[k := q]> ms) = map (B := bytes) f ms.
Proof.
  intros Hk E. induction ms as [|x ms IH] in k, Hk |- *; [done|]. destruct k as [|k]; cbn in *.
  - injection Hk as ->. by rewrite E.
  - f_equal. by apply (IH k).
Qed.
Lemma store_one_bases C op want silent i s o : placed s -> (1 <= i <= length (messages s))%nat ->
  let s' := (store_one C op want silent i (s, o)).1 in
  bases s' = bases s /\ placed s' /\ length (messages s') = length (messages s).
Proof.
  intros [E|[Hb Hm]] Hi; [rewrite E in Hi; cbn in Hi; lia|]. pose proof (nth_message_In s i Hi) as Hn.
  assert (Hp : inside (selected s) (nth_message s i)) by by eapply Forall_lookup_1.
  cbv zeta. unfold store_one. set (nf := store_flags _ _ _). unfold apply_flags.
  destruct (with_flags_inside (selected s) _ nf Hb Hp) as (sub & Hs & Hd & Hns & _).
  assert (Hd' : inside (selected s) (with_flags (nth_message s i) nf)) by (rewrite Hd; by exists sub, (new_name (nth_message s i) nf)).
  destruct (_ =s _).
  - cbn [fst]. unfold bases, placed. cbn [messages selected set_selected set_world set_input].
    rewrite list_insert_id by done. auto.
  - destruct (rename _ _ _ _) as [w|]; [|by split; [|split; [by right|]]].
    cbn [fst]. unfold bases, placed. cbn [messages selected set_selected set_world set_input].
    rewrite length_insert. split; [|split; [|done]].
    + apply (bases_insert _ _ _ (nth_message s i)); [done|]. by apply (base_with_flags (selected s)).
    + right. split; [done|]. by apply Forall_insert.
Qed.
Lemma store_loop_bases C op want silent l : forall s o, placed s -> Forall (fun i => 1 <= i <= length (messages s))%nat l ->
  bases (fold_left (fun st i => store_one C op want silent i st) l (s, o)).1 = bases s.
Proof.
  induction l as [|i l IH]; intros s o Hp Hi; [done|]. apply Forall_cons in Hi as [Hi Hl]. cbn [fold_left].
  destruct (store_one_bases C op want silent i s o Hp Hi) as (H1 & H2 & H3).
  destruct (store_one C op want silent i (s, o)) as [s1 o1]. cbn [fst] in *. rewrite IH; [done|done|by rewrite H3].
Qed.
Lemma idle_bases C tag i : forall s, exists added, bases (idle C tag i s).1 = bases s ++ added.
Proof.
  induction i as [|[c|w] i IH]; intros s; [by exists []; rewrite app_nil_r| |].
  - exists []. rewrite app_nil_r. cbn [idle]. destruct (read_line _ _ _ _) as [[[line|] i'] w]; [|done].
    by destruct (_ =s _).
  - cbn [idle]. destruct (IH (set_input i w (idle_tick w s))) as [added ->].
    assert (H : exists a, bases (set_input i w (idle_tick w s)) = bases s ++ a).
    { unfold idle_tick. cbv zeta. destruct (List.filter _ _) as [|x l]; [by exists []; rewrite app_nil_r|].
      eexists. unfold bases. cbn. by rewrite map_app. }
    destruct H as [a ->]. rewrite <- app_assoc. by eexists.
Qed.

Lemma same_logged_in tag k s : messages (k s).1 = messages s -> messages (logged_in tag k s).1 = messages s.
Proof. intros H. unfold logged_in. by destruct (authenticated s). Qed.
Lemma same_with_mailbox tag k s : messages (k s).1 = messages s -> messages (with_mailbox tag k s).1 = messages s.
Proof. intros H. apply same_logged_in. by destruct (selected s). Qed.
Lemma same_append C tag args s : messages (append C tag args s).1 = messages s.
Proof.
  apply same_logged_in. destruct (rfind_if _ args) as [lb|]; [|done]. destruct (rfind_if _ args) as [rb|]; [|done].
  destruct (_ <? _)%nat; [done|]. cbv zeta. destruct (_ || _); [done|]. destruct (stoull 10 _) as [litsize|]; [|done].
  destruct (_ <? litsize); [done|]. destruct (resolve_mailbox _ _ _ _) as [box|]; [|done].
  match goal with |- context [read_exact _ (input ?x)] => set (s1 := x); assert (H1 : messages s1 = messages s) by (subst s1; by destruct (match last _ with Some _ => _ | None => _ end)) end.
  destruct (read_exact _ _ _ _) as [[[d i] w]|]; [|done]. destruct (read_line _ _ _ _) as [[line i'] w'].
  destruct (maildir_append _ _ _ _ _) as [w2 []]; done.
Qed.

(** C18: Within a mailbox a number means one message: no command but STARTTLS,
    SELECT, EXAMINE and EXPUNGE takes a message from its place, not even one that
    renames its file; IDLE only adds messages at the end. *)
Theorem imap_numbers_stable C line s :
  placed s ->
  let cmd := (imap_parse_command line).1.2 in
  existsb (bytes_eqb cmd) [lit "STARTTLS"; lit "SELECT"; lit "EXAMINE"; lit "EXPUNGE"] = false ->
  exists added, bases (command C line s).1 = bases s ++ added /\ (cmd <> lit "IDLE" -> added = []).
Proof.
  intros Hp. unfold command. destruct (imap_parse_command line) as [[tag cmd] args]. cbn [fst snd]. cbv zeta.
  assert (Hsame : forall r : Session * bool, messages r.1 = messages s ->
    exists added, bases r.1 = bases s ++ added /\ (cmd <> lit "IDLE" -> added = [])).
  { intros r E. exists []. split; [|done]. unfold bases. by rewrite E, app_nil_r. }
  cbn [existsb]. rewrite !orb_false_iff. intros (E1 & E2 & E3 & E4 & _). rewrite E1, E2, E3, E4.
  repeat match goal with |- context [(if ?b then _ else _).1] => destruct b eqn:? end; try (by apply Hsame).
  all: unfold idle_command, with_mailbox, logged_in; try (destruct (authenticated s); [|by apply Hsame]).
  - destruct (selected s); [by apply Hsame|]. match goal with H : (cmd =s lit "IDLE") = true |- _ => apply bytes_eqb_eq in H end.
    destruct (idle_bases C tag (input (send (lit "+ idling" ++ EOL) s)) (send (lit "+ idling" ++ EOL) s)) as [added H].
    exists added. split; [exact H|by intros []].
  - apply Hsame. unfold login. destruct (_ && _); [done|]. destruct (imap_split_two args) as [u p]. by destruct (auth C u p).
  - apply Hsame, same_logged_in. done.
  - apply Hsame, same_logged_in. cbv beta zeta. destruct (resolve_mailbox C _ _ _); [|done]. by destruct (count_maildir _ _).
  - apply Hsame, same_with_mailbox. cbv beta zeta. destruct (find_if _ args); [|done].
    destruct (contains _ _); [done|]. by destruct (parse_seqset _ _) as [[]|].
  - exists []. split; [|done]. rewrite app_nil_r. unfold store, with_mailbox, logged_in.
    destruct (authenticated s); [|done]. destruct (selected s) as [|b0 b] eqn:Eb; [done|]. cbv beta zeta.
    destruct (find_if _ args); [|done]. destruct (parse_seqset _ _) as [[lo hi]|] eqn:Es; [|done].
    match goal with |- context [fold_left ?f ?l (s, [])] =>
      assert (H : bases (fold_left f l (s, [])).1 = bases s); [apply store_loop_bases; [done|]|destruct (fold_left f l (s, [])) as [s1 o]] end;
      [|done].
    apply List.Forall_forall. intros i Hi. destruct (parse_seqset_bounds _ _ _ _ Es) as [H1 H2]; [lia|].
    by eapply range_bounds.
  - apply Hsame, same_append.
  - apply Hsame, same_with_mailbox. cbv beta zeta. by destruct (search_criteria _ _).
Qed.

(** * EXPUNGE *)

(** The messages that go: marked as deleted, and the system lets them go *)
Definition doomed (C : Conf) (w : World) (p : bytes) : bool :=
  one_of (maildir_flags p) "T" && negb (denied C p || is_directory w p).
Definition expunge_line (k : nat) : bytes := lit "* " ++ num k ++ lit " EXPUNGE" ++ EOL.
(** A client takes the message with that number out of its list. *)
Definition replay (ks : list nat) (ms : list bytes) : list bytes := fold_left (fun l k => delete (k - 1)%nat l) ks ms.
Definition gone (C : Conf) (s : Session) (n : nat) : list nat :=
  List.filter (fun k => doomed C (world s) (nth_message s k)) (rev (seq 1 n)).

Lemma gone_S C s n : gone C s (S n) =
  (if doomed C (world s) (nth_message s (S n)) then [S n] else []) ++ gone C s n.
Proof. unfold gone. rewrite seq_S, rev_app_distr. cbn. by destruct (doomed _ _ _). Qed.

Lemma expunge_loop_spec C n : forall s o, (n <= length (messages s))%nat ->
  expunge_loop C n s o =
    (set_selected (selected s) (replay (gone C s n) (messages s))
       (set_world (MkW (fold_left (fun m k => delete (nth_message s k) m) (gone C s n) (files (world s))) (dirs (world s))) s),
     o ++ concat (map expunge_line (gone C s n))).
Proof.
  induction n as [|n IH]; intros s o Hn; [cbn; rewrite app_nil_r; by destruct s as [? ? ? ? ? ? [] ? ?]|].
  cbn [expunge_loop]. rewrite gone_S. unfold doomed at 1 2 3, remove. destruct (one_of _ _); [|apply IH; lia].
  destruct (_ || _); cbn [negb andb]; [apply IH; lia|].
  set (s1 := set_selected _ _ _).
  assert (Hnth : forall k, In k (seq 1 n) -> nth_message s1 k = nth_message s k).
  { intros k Hk. apply List.in_seq in Hk. unfold nth_message. cbn. by rewrite list_lookup_delete_lt by lia. }
  assert (Hgone : gone C s1 n = gone C s n).
  { unfold gone. apply List.filter_ext_in. intros k Hk. apply List.in_rev in Hk. unfold doomed. by rewrite (Hnth k Hk). }
  rewrite IH by (cbn; rewrite length_delete by (apply lookup_lt_is_Some; lia); lia). rewrite Hgone. cbn [app map concat].
  rewrite <- !app_assoc. f_equal; [|by unfold expunge_line; rewrite <- !app_assoc]. unfold s1 at 1 2. cbn [set_selected set_world set_input selected world files dirs messages].
  unfold set_selected, set_world, set_input. cbn. f_equal.
  - unfold replay. cbn [fold_left]. by rewrite Nat.sub_0_r.
  - f_equal. cbn [fold_left]. assert (Hin : forall k, In k (gone C s n) -> nth_message s1 k = nth_message s k).
    { intros k Hk. apply Hnth. apply List.filter_In in Hk as [Hk _]. by apply List.in_rev in Hk. }
    revert Hin. generalize (gone C s n) as ks. generalize (delete (nth_message s (S n)) (files (world s))) as m.
    intros m ks. induction ks as [|k ks IHk] in m |- *; intros Hin; [done|]. cbn [fold_left].
    rewrite (Hin k) by (by left). apply IHk. intros j Hj. apply Hin. by right.
Qed.

(** Taking the messages out from the last to the first leaves the others. *)
Lemma replay_filter C s n : (n <= length (messages s))%nat ->
  replay (gone C s n) (messages s) =
    List.filter (fun p => negb (doomed C (world s) p)) (take n (messages s)) ++ drop n (messages s).
Proof.
  unfold gone, nth_message. generalize (doomed C (world s)) as d, (messages s) as ms. clear s. intros d ms.
  induction n as [|n IH] in ms |- *; intros Hn; [done|].
  rewrite seq_S, rev_app_distr. cbn [rev app List.filter]. change (1 + n)%nat with (S n). rewrite Nat.sub_succ, Nat.sub_0_r.
  destruct (lookup_lt_is_Some_2 ms n ltac:(lia)) as [x Hx]. rewrite Hx. cbn [default].
  rewrite (take_S_r _ _ _ Hx), List.filter_app. cbn [List.filter].
  change (id x) with x. destruct (d x); cbn [negb]; [|rewrite IH by lia; rewrite <- app_assoc; cbn; f_equal; by apply drop_S].
  unfold replay. cbn [fold_left]. rewrite Nat.sub_succ, Nat.sub_0_r.
  assert (Hl : (n <= length (delete n ms))%nat) by (rewrite length_delete by (by eexists); lia).
  specialize (IH (delete n ms) Hl). unfold replay in IH. rewrite app_nil_r.
  rewrite delete_take_drop in *. rewrite take_app_length', drop_app_length' in IH by (rewrite length_take; lia).
  rewrite <- IH. f_equal. apply List.filter_ext_in. intros k Hk. apply List.in_rev, List.in_seq in Hk.
  rewrite lookup_app_l by (rewrite length_take; lia). by rewrite lookup_take_lt by lia.
Qed.

Lemma deleted_files (f : nat -> bytes) (ks : list nat) (m : gmap (list ascii) bytes) (p : bytes) :
  fold_left (fun m k => delete (f k) m) ks m !! p = if existsb (bytes_eqb p) (map f ks) then None else m !! p.
Proof.
  induction ks as [|k ks IH] in m |- *; [done|]. cbn [fold_left map existsb]. rewrite IH.
  destruct (bytes_eqb_spec p (f k)) as [->|]; cbn [orb].
  - rewrite lookup_delete_eq. by destruct (existsb _ _).
  - by rewrite lookup_delete_ne.
Qed.
Lemma gone_members C s p :
  existsb (bytes_eqb p) (map (nth_message s) (gone C s (length (messages s)))) =
  existsb (bytes_eqb p) (List.filter (doomed C (world s)) (messages s)).
Proof.
  apply Bool.eq_iff_eq_true. rewrite !existsb_exists. split.
  - intros (q & Hq & E). apply in_map_iff in Hq as (k & <- & Hk). exists (nth_message s k). split; [|done].
    apply List.filter_In in Hk as [Hk Hd]. apply List.in_rev, List.in_seq in Hk.
    apply List.filter_In. split; [|done]. pose proof (nth_message_In s k ltac:(lia)) as H. by apply list_elem_of_lookup_2, list_elem_of_In in H.
  - intros (q & Hq & E). apply List.filter_In in Hq as [Hq Hd]. exists q. split; [|done].
    apply list_elem_of_In, list_elem_of_lookup in Hq as [k Hk]. pose proof (lookup_lt_Some _ _ _ Hk).
    assert (Hn : nth_message s (S k) = q) by (unfold nth_message; rewrite Nat.sub_succ, Nat.sub_0_r; by rewrite Hk).
    apply in_map_iff. exists (S k). split; [done|]. apply List.filter_In. rewrite Hn. split; [|done].
    rewrite <- in_rev. apply List.in_seq. lia.
Qed.

(** C19: EXPUNGE removes exactly the messages marked as deleted that the system
    lets go, and its replies carry the numbers with which a client that follows
    them, one by one, gets the list the server keeps. *)
Theorem imap_expunge_exact C tag s :
  authenticated s = true -> selected s <> [] ->
  let ks := gone C s (length (messages s)) in
  let s' := (expunge C tag s).1 in
  out s' = out s ++ concat (map expunge_line ks) ++ tag ++ lit " OK EXPUNGE completed" ++ EOL /\
  messages s' = replay ks (messages s) /\
  messages s' = List.filter (fun p => negb (doomed C (world s) p)) (messages s) /\
  forall p, files (world s') !! p =
    if existsb (bytes_eqb p) (List.filter (doomed C (world s)) (messages s)) then None else files (world s) !! p.
Proof.
  intros Ha Hs. unfold expunge, with_mailbox, logged_in. rewrite Ha. destruct (selected s) as [|c b] eqn:Es; [done|].
  cbv beta zeta. rewrite expunge_loop_spec by lia. split; [done|]. split; [done|].
  pose proof (replay_filter C s (length (messages s)) ltac:(lia)) as Hr.
  split; [by cbn; rewrite Hr, firstn_all, drop_all, app_nil_r|]. intros p. cbn. by rewrite deleted_files, gone_members.
Qed.

(** * Fuel *)

Lemma read_line_shorter C i : forall w acc line i' w', read_line C i w acc = (line, i', w') ->
  (length i' <= length i)%nat /\ (is_Some line -> (length i' < length i)%nat).
Proof.
  induction i as [|[c|w1] i IH]; intros w acc line i' w'; cbn [read_line].
  - intros [= <- <- <-]. split; [done|by intros []].
  - assert (Hi : forall acc, read_line C i w acc = (line, i', w') ->
      (length i' <= length (Byte c :: i))%nat /\ (is_Some line -> (length i' < length (Byte c :: i))%nat)).
    { intros acc' H. destruct (IH _ _ _ _ _ H). cbn. split; [lia|]. intros. lia. }
    destruct (c =c CR); [apply Hi|]. destruct (c =c LF); [intros [= <- <- <-]; cbn; lia|].
    destruct (_ <? _)%nat; [intros [= <- <- <-]; cbn; lia|apply Hi].
  - intros H. destruct (IH _ _ _ _ _ H). cbn. split; [lia|]. intros. lia.
Qed.
Lemma read_exact_shorter n : forall i w acc d i' w', read_exact n i w acc = Some (d, i', w') -> (length i' <= length i)%nat.
Proof.
  induction n as [|n IH]; intros i w acc d i' w'; [by intros [= _ <- _]|].
  cbn [read_exact]. induction i as [|[c|w1] i IHi] in w |- *; [done| |].
  - intros H. apply IH in H. cbn. lia.
  - intros H. apply IHi in H. cbn. lia.
Qed.
Lemma idle_shorter C tag i : forall s, (length (input s) <= length i)%nat -> (length (input (idle C tag i s).1) <= length i)%nat.
Proof.
  induction i as [|[c|w] i IH]; intros s Hs; [done| |].
  - cbn [idle]. destruct (read_line _ _ _ _) as [[line i'] w] eqn:E. destruct (read_line_shorter _ _ _ _ _ _ _ E) as [H _].
    destruct line as [line|]; [by destruct (_ =s _)|done].
  - cbn [idle]. specialize (IH (set_input i w (idle_tick w s)) (Nat.le_refl _)). cbn. lia.
Qed.

(** A message of STORE or EXPUNGE reads nothing. *)
Lemma store_loop_input C op want silent l : forall s o,
  input (fold_left (fun st i => store_one C op want silent i st) l (s, o)).1 = input s.
Proof.
  induction l as [|i l IH]; intros s o; [done|]. cbn [fold_left].
  assert (H : input (store_one C op want silent i (s, o)).1 = input s)
    by (unfold store_one; by destruct (apply_flags _ _ _ _) as [[]|]).
  destruct (store_one C op want silent i (s, o)) as [s1 o1]. by rewrite IH.
Qed.
Lemma command_shorter C line s : (length (input (command C line s).1) <= length (input s))%nat.
Proof.
  assert (Hsame : forall r : Session * bool, input r.1 = input s -> (length (input r.1) <= length (input s))%nat) by by intros r ->.
  assert (Hl : forall tag k, (length (input (k s).1) <= length (input s))%nat -> (length (input (logged_in tag k s).1) <= length (input s))%nat)
    by (intros tag k H; unfold logged_in; by destruct (authenticated s)).
  assert (Hm : forall tag k, (length (input (k s).1) <= length (input s))%nat -> (length (input (with_mailbox tag k s).1) <= length (input s))%nat)
    by (intros tag k H; apply Hl; by destruct (selected s)).
  unfold command. destruct (imap_parse_command line) as [[tag cmd] args]. cbv zeta.
  repeat match goal with |- context [(if ?b then _ else _).1] => destruct b end; try (by apply Hsame).
  - apply Hsame. unfold starttls. destruct (tls s); [done|]. destruct (negb _); [done|]. by destruct (handshake C).
  - apply Hm. by apply idle_shorter.
  - apply Hsame. unfold login. destruct (_ && _); [done|]. destruct (imap_split_two args) as [u p]. by destruct (auth C u p).
  - apply Hl. destruct (resolve_mailbox C _ _ _); by apply Hsame.
  - apply Hl. by apply Hsame.
  - apply Hl. cbv beta zeta. destruct (resolve_mailbox C _ _ _); [|by apply Hsame]. destruct (count_maildir _ _). by apply Hsame.
  - apply Hm. cbv beta zeta. destruct (find_if _ args); [|by apply Hsame]. destruct (contains _ _); [by apply Hsame|].
    destruct (parse_seqset _ _) as [[]|]; by apply Hsame.
  - apply Hm. cbv beta zeta. destruct (find_if _ args); [|by apply Hsame]. destruct (parse_seqset _ _) as [[lo hi]|]; [|by apply Hsame].
    match goal with |- context [fold_left ?f ?l (s, [])] =>
      assert (H : input (fold_left f l (s, [])).1 = input s) by apply store_loop_input; destruct (fold_left f l (s, [])) as [s1 o] end.
    by apply Hsame.
  - apply Hm. rewrite expunge_loop_spec by lia. by apply Hsame.
  - apply Hl. destruct (rfind_if _ args) as [lb|]; [|by apply Hsame]. destruct (rfind_if _ args) as [rb|]; [|by apply Hsame].
    destruct (_ <? _)%nat; [by apply Hsame|]. cbv zeta. destruct (_ || _); [by apply Hsame|].
    destruct (stoull 10 _) as [litsize|]; [|by apply Hsame]. destruct (_ <? litsize); [by apply Hsame|].
    destruct (resolve_mailbox _ _ _ _) as [box|]; [|by apply Hsame].
    match goal with |- context [read_exact _ (input ?x)] =>
      set (s1 := x); assert (H1 : input s1 = input s) by (subst s1; by destruct (match last _ with Some _ => _ | None => _ end)) end.
    rewrite <- H1. destruct (read_exact _ _ _ _) as [[[d i] w]|] eqn:E; [|done]. apply read_exact_shorter in E.
    destruct (read_line _ _ _ _) as [[l i'] w'] eqn:E'. destruct (read_line_shorter _ _ _ _ _ _ _ E') as [H _].
    destruct (maildir_append _ _ _ _ _) as [w2 []]; cbn; lia.
  - apply Hm. cbv beta zeta. destruct (search_criteria _ _); by apply Hsame.
Qed.
(** Every line takes something from the input: the length of the input is fuel
    enough. *)
Lemma session_fuel C k : forall s k', (length (input s) < k)%nat -> (k <= k')%nat -> session C k' s = session C k s.
Proof.
  induction k as [|k IH]; intros s k' Hk Hk'; [lia|]. destruct k' as [|k']; [lia|]. cbn [session].
  destruct (read_line _ _ _ _) as [[line i] w] eqn:E. destruct (read_line_shorter _ _ _ _ _ _ _ E) as [H1 H2].
  destruct line as [line|]; [|done]. specialize (H2 ltac:(by eexists)).
  pose proof (command_shorter C line (set_input i w s)) as H3. cbn in H3.
  destruct (command C line _) as [s1 []]; [|done]. cbn [fst] in H3. apply IH; lia.
Qed.

(** * Witnesses *)

Definition closed_conf : Conf := MkConf 8192 1000 5 false false (fun _ _ => None) (fun _ => None) (fun _ => lit "77") (fun _ => false).
Definition opened_box : Session := MkS true (lit "/m/u") (lit "/m/u") (build_messages two_messages (lit "/m/u")) 0 false
  (MkW (<[lit "/m/u/cur/1:2,S" := []]> (files two_messages)) (dirs two_messages)) [] [].
Lemma clean_mu : clean (lit "/m/u").
Proof. right. by split. Qed.

Lemma imap_needs_login_witness :
  let s := run_session closed_conf false two_messages (map Byte (typed ["a LOGIN u pw"; "b SELECT INBOX"]%string)) in
  out s = out (run_session closed_conf false (MkW ∅ ∅) (map Byte (typed ["a LOGIN u pw"; "b SELECT INBOX"]%string))) /\
  world s = two_messages.
Proof. apply imap_needs_login. reflexivity. Defined.
Lemma imap_changes_contained_witness :
  exists u pw r box, auth some_conf u pw = Some r /\ of_user some_conf r box /\ inside box (lit "/m/u/.Sent/new/77").
Proof.
  apply (imap_changes_contained some_conf false two_messages (typed ["a LOGIN u pw"; "b APPEND Sent {2}"; "hi"]%string)).
  - intros u pw r. unfold some_conf, auth. destruct (pw =s lit "pw"); [|done]. intros [= <-]. exact clean_mu.
  - intros u pw r mb d c _ _ _ Hc _. revert Hc. cbn [weakly_canonical some_conf].
    destruct (bytes_eqb_spec (join_path r (lit "." ++ mb)) (lit "/m/u")) as [->|]; [intros [= <-]; exact clean_mu|]. cbn [orb].
    destruct (bytes_eqb_spec (join_path r (lit "." ++ mb)) (lit "/m/u/.Sent")) as [->|]; [intros [= <-]; right; by split|done].
  - reflexivity.
  - vm_compute. discriminate.
Defined.
(** A mailbox that is a link to a directory beside the Maildir, whose name goes
    on with a backslash: it is taken for a part of the Maildir. *)
Definition link_conf : Conf := MkConf 8192 1000 5 false false (fun _ _ => Some (lit "/m/u"))
  (fun p => if p =s lit "/m/u/.L" then Some (lit "/m/u\x") else Some p) (fun _ => lit "77") (fun _ => false).
Example backslash_is_beside :
  resolve_mailbox link_conf (MkW ∅ {[lit "/m/u\x"]}) (lit "/m/u") (lit "L") = Some (lit "/m/u\x").
Proof. vm_compute. reflexivity. Qed.
Lemma imap_numbers_stable_witness :
  exists added, bases (command some_conf (lit "c STORE 1 +FLAGS (\Flagged)") opened_box).1 = bases opened_box ++ added /\
    ((imap_parse_command (lit "c STORE 1 +FLAGS (\Flagged)")).1.2 <> lit "IDLE" -> added = []).
Proof.
  apply imap_numbers_stable; [|reflexivity]. right. split; [exact clean_mu|]. exact (build_messages_inside two_messages (lit "/m/u")).
Defined.
Lemma imap_expunge_exact_witness :
  let s := (command some_conf (lit "c STORE 1 +FLAGS (\Deleted)") opened_box).1 in
  let ks := gone some_conf s (length (messages s)) in
  let s' := (expunge some_conf (lit "d") s).1 in
  out s' = out s ++ concat (map expunge_line ks) ++ lit "d" ++ lit " OK EXPUNGE completed" ++ EOL /\
  messages s' = replay ks (messages s) /\
  messages s' = List.filter (fun p => negb (doomed some_conf (world s) p)) (messages s) /\
  forall p, files (world s') !! p =
    if existsb (bytes_eqb p) (List.filter (doomed some_conf (world s)) (messages s)) then None else files (world s) !! p.
Proof. apply imap_expunge_exact; [vm_compute; reflexivity|vm_compute; discriminate]. Defined.

End ImapFacts.
